(* ===== verification/_CoqProject ===== *)
-Q . S2P
Prelude.v
ArrayList.v
Queue.v
CMem.v
ReadBuf.v
WriteBuf.v
Env.v
Request.v
Proc.v
UnixOS.v
Messages.v
ServerUnix.v
ServerInv.v
ServerHandlers.v
ServerLoop.v
ScriptedOS.v
ServerUnixProps.v
ServerProgress.v
CmdLine.v
WinOS.v
ServerWin.v
ServerWinProps.v
ServerWinInv.v
ServerWinHandlers.v
ServerWinLoop.v
ServerWinPackets.v
ServerWinMain.v
ScriptedWin.v
ServerWinSafety.v
CpuLimit.v
CpuLimitWin.v
Limbs.v
Mpn.v
Invert.v
MpnDiv.v
MpnDivN.v
MpnStr.v
MpnSetStr.v
MpnGetStr.v
Mt19937.v
Mpz.v
MpzRep.v
MpzArith.v
MpzMul.v
MpzDivision.v
MpzProps.v
MpzFrame.v
MpzDivShort.v
MpzLocals.v
MpzGcd.v
MpzBits.v
MpzGcdExt.v
MpzLogic.v
MpzCount.v
MpzScan.v
MpzPow.v
MpzSize.v
MpzRoot.v
MpzReader.v
MpzBorrow.v
MpzPowm.v
Primes.v
MpzPrime.v
MpzStr.v
MpzImport.v
MpzNumProps.v
MpzModProps.v
