(* ===== verification/Prelude.v ===== *)
(** * The C programs of Why3: a verification development

    ** The program

    Why3 is a platform for deductive verification written in OCaml. Its
    repository holds three groups of C programs, which this library models:

    - the prover server (src/server): a process that receives requests to run
      provers from the clients (the IDE and the batch tools) over a socket,
      keeps the requests it cannot start yet in a queue, runs at most
      [parallel] provers at a time and sends back how each ended. There is a
      version for Unix (an event loop over poll) and one for Windows
      (completion ports), on top of shared data structures;
    - cpulimit (src/server/cpulimit-*.c): the helper that runs a command under
      limits of time and memory, again for Unix and for Windows;
    - the multiprecision example (examples/multiprecision): mini-gmp, the
      reference arithmetic library; uint64gmp.h, the 64-bit primitives that the
      C code extracted from WhyML calls; the random number generator of the
      tests.

    ** Files

    Prelude.v holds what all files share: failures ([res], with [Assertion],
    [Undefined], [Overlap] for a [memcpy] on overlapping regions, and
    [Exhausted]), the state monad [M] of programs that return,
    exit or fail, its weakest preconditions with a choice of the stops that
    are allowed, machine integers, arrays of cells,
    [memcpy], tactics and hints.

    The server:
    - ArrayList.v: arraylist.c. [t_list] is the struct, [list_rep] relates it to
      a sequence of pairs; the operations implement a finite map.
    - Queue.v: queue.c. The ring with its [unsigned int] indices implements a
      FIFO sequence ([queue_rep]).
    - CMem.v: heap blocks with their addresses, and the string functions of the
      C library; every allocation and every free is recorded. [heap_ok] says
      that the blocks in use are live and different; [heap_own (Some L)] says
      that they and [L] are all the live blocks, so that nothing leaks.
    - ReadBuf.v, WriteBuf.v: readbuf.c and writebuf.c.
    - Env.v: options.c and logging.c. Request.v: request.c. Proc.v: proc.c.
    - UnixOS.v: the system calls of the Unix programs as a class of operations
      on an abstract world, and the documented behaviour the server relies on
      as a class of laws. ScriptedOS.v is a concrete world with proofs of the
      laws; the witnesses run the server on it.
    - Messages.v: what both servers share: the texts of the messages to clients,
      the globals at the start, the parts of a parsed request, and [any_stop],
      the stops that the theorems on the servers allow: exit, lack of memory,
      and [Overlap] where [MayOverlap] says so.
    - ServerUnix.v: every function of server-unix.c, on the state [ust] of its
      globals; [main_step] is one turn of the loop. ServerInv.v: the invariant.
      ServerHandlers.v: each function preserves it, with its effect, which is a
      relation on pairs of the abstract view and the outside world, so that the
      calls of the system are part of it. ServerLoop.v: the loop, and the relation [reachable]. ServerUnixProps.v:
      the theorems on the whole server. ServerProgress.v: no request waits while
      a slot is free.
    - CmdLine.v: the construction of command lines on Windows. WinOS.v: the
      calls of the Windows API, with the laws of asynchronous operations and
      completion packets. ServerWin.v: every function of server-win.c, on the
      state [wst] of its globals; [main_step] is one turn of the loop.
      ServerWinProps.v: keys and limits. ServerWinInv.v: the invariant.
      ServerWinHandlers.v: each function preserves it, with its effect.
      ServerWinLoop.v, ServerWinPackets.v: requests, the scheduler, and what
      each completion packet does. ServerWinMain.v: initialisation, a turn of
      the loop, the relation [win_reachable]. ScriptedWin.v is a concrete
      Windows with proofs of the laws; ServerWinSafety.v: the theorems on the
      whole server, and a session on that world.
    - CpuLimit.v, CpuLimitWin.v: cpulimit-unix.c and cpulimit-win.c, with
      relations on the outside world for what each call is given.

    The multiprecision library:
    - Limbs.v: the macros of mini-gmp.c on one and two limbs, and uint64gmp.h.
    - Mpn.v: the memory of limbs and the mpn functions up to multiplication and
      shifts. Invert.v: mpn_invert_3by2. MpnDiv.v and MpnDivN.v: the divisions.
      MpnStr.v: the conversions to and from digits, proved in MpnSetStr.v and
      MpnGetStr.v.
    - Mpz.v: the signed integers of mini-gmp.c, from mpz_init to mpz_mod. The
      state [zst] is the memory of limbs with the structs, which are reached
      through pointers so that arguments may be the same variable; a
      reallocation always moves its block. MpzRep.v: the predicate [holds],
      which relates the state to a finite map from variables to integers, with
      the rules for memory. MpzArith.v, MpzMul.v and MpzDivision.v: one rule per
      operation. MpzProps.v: the theorems on the layer.
    - MpzFrame.v and MpzLocals.v: rules for the block of a variable that is being
      written and for functions with local variables. On top of them
      MpzDivShort.v (division by words and powers of two), MpzGcd.v and
      MpzGcdExt.v (greatest common divisors, inverses), MpzBits.v, MpzLogic.v,
      MpzCount.v and MpzScan.v (operations on the two's complement
      representation), MpzPow.v (powers, factorials, binomial coefficients),
      MpzSize.v (number of digits), MpzRoot.v (roots), MpzStr.v (strings) and
      MpzImport.v (arrays of words). MpzNumProps.v: the theorems on them.
    - MpzReader.v: rules for functions that only read some of their arguments.
      MpzBorrow.v: the access to the limbs of a variable (mpz_realloc2,
      mpz_limbs_read and the like) and the functions that work on borrowed limbs, made with
      mpz_roinit_n; a parameter whose address is taken is a block of one limb
      for the time of the call ([with_limb]). MpzPowm.v: the modular powers.
      Primes.v: the number theory of the primality test, free of any state.
      MpzPrime.v: the test. MpzModProps.v: the theorems on them.
    - Mt19937.v: random/mt19937-64.c.

    ** What the theorems show

    - The server. In every reachable state the invariant holds: blocks have one
      owner, the process list is the set of children, poll entries and clients
      correspond; hence no assertion fails, nothing undefined happens and
      nothing is freed twice, for all behaviours of clients and children that
      the laws of the system allow. Assumed are a start without --logging, a
      getcwd that succeeds, writes to clients that do not fail and a listening
      socket that reports only POLLIN; the overlapping [memcpy] of have_taken,
      which is undefined, is told apart and its condition is given. Lines are framed exactly, requests parsed
      as their specification says, started first in first out within the
      limit, interrupted exactly, and reported with their outcome; after every
      turn of the loop either the queue is empty or every slot is taken; buffers
      deliver every byte once and in order.
    - The same of the Windows server, which is driven by the packets of one
      completion port: blocks and handles have one owner, keys are unique, and
      an operation under way belongs to a live buffer or socket. A turn starts
      queued requests in order within the limit, then one packet has exactly
      the effect of its kind. Keys are [int]s that are doubled, so the bound is
      2^29 - 1 turns; assumed are a start without --logging, a port that takes every handle, pipes that
      can be connected, and messages that the server can handle: not empty, a
      limit up to the number of sockets, a command line that fits, an argument
      for runstdin. For the first and the last ones the code does fail.
    - The limits of that: theorems of kind error and bounds state where the code
      does fail (a write error, a message whose numbers are too long, a runstdin
      request without arguments, [memcpy] on overlapping regions, an index
      beyond an array of the Windows server, a command line over 4095
      characters).
    - cpulimit runs the command with exactly the limits asked for, each with
      the hard limit it found, and its parent ends as the child did; when
      SIGTERM is ignored it goes on and runs the command again. On Windows the
      process runs in a job with the limits, or the program says why not.
    - The parser of requests, the write buffer, and the parent side of
      create_process give back every block they should: the live blocks
      afterwards are known exactly.
    - The arithmetic is exact: each primitive, each mpn function and both
      conversions compute the number that they should for operands of every
      length, in place where the code allows that, write nothing else, stay in
      bounds and free their temporaries. The division macros with precomputed
      inverses agree with Euclidean division, the inverse with its definition.
    - The variables of type mpz_t implement a finite map from variables to
      integers: ring operations, division with the three ways of rounding,
      assignment and comparison are those of [Z] for every aliasing of the
      arguments, and every block is given back.
    - On top of that, the number-theoretic functions are those of [Z]: division
      by words and powers of two, greatest common divisors with bounded
      cofactors, inverses, the logical operations on the infinite two's
      complement representation, powers, factorials, binomial coefficients,
      and integer roots, where Newton's iteration is shown to stop at the root.
      Strings denote integers: what is printed is read back, and any string is
      either read as what it denotes or refused. An array of words in any order
      is the number that its bytes make up, and an exported number is imported.
    - Modular powers are powers modulo the modulus, and fail exactly where the
      modulus is zero or the inverse of the base does not exist. The verdict of
      the primality test is a function of the number and of the rounds; a prime
      is never called composite, and a number that is called prime without
      doubt is one. Borrowed limbs are read without a copy and never freed.
    - The generator returns the words of the recurrence of MT19937-64.

    ** Bounds and fuel

    Integers are kept at their width: [u32], [u64], [to_int] and the limb
    operators wrap, [int_op] is undefined on overflow. An array of more than
    [alloc_limit] = 2^29 elements exhausts memory; under that limit no size
    computation of the sources overflows. Loops are structural on a counter
    where the C loop counts, and otherwise take fuel whose exhaustion is the
    failure [Undefined]; the theorems prove that the result is returned, so
    that the fuel is enough: 64 for the loops over the bits or the digits of
    one limb (gmp_clz, mpn_get_base_info, mpn_limb_get_str), 64 per limb for
    the outer loops of mpn_get_str_other and mpz_sizeinbase (each turn divides
    by at least 2), 128 for the binary gcd of two words and 64 times the limbs
    of both operands plus 2 for that of integers (each turn halves one), the
    number of limbs for the scans of bits, 8 for the bytes of a limb, 64 bits
    per limb of the exponent of a modular power, the number of factors 2 of n - 1
    for the squarings of a Miller-Rabin round and [reps] for the rounds,
    2^(n/z+2) turns for the root of
    order z of a number of n bits (the starting point is below that and each
    turn decreases it), the
    number of bytes of the buffer for the lines of a message, the length of the
    queue for the scheduler, the length of
    the process list plus one for the reaping loop, 312
    for the initialisation of the generator.

    ** Not modelled

    The OCaml code of Why3 and the WhyML examples; in mini-gmp.c the
    conversions with double (mpz_set_d, mpz_get_d and the comparisons
    mpz_cmpabs_d and mpz_cmp_d); mp_set_memory_functions,
    whose arguments are functions of the user; wmp.h, add.h, sub.h and mul.h
    (prototypes of generated code, and wrappers around the external GMP);
    tests.c, which times and compares implementations that are not part of the
    repository. Threads do not occur: the SIGCHLD handler is a step that may
    happen between two steps of the loop. The blocks of characters that
    mpz_set_str and mpz_out_str allocate for themselves are values, so that
    their frees do not appear; mpz_odd_p of a 0 without limbs takes 0 for the
    limb that the code reads and masks. In the servers malloc gives NULL only
    for sizes over [alloc_limit] where the code checks for it, and memory is
    exhausted where it does not check. *)

From stdpp Require Export base tactics option list gmap strings.
From Stdlib Require Export ZArith Lia Ascii.
#[global] Open Scope Z_scope.

Declare Scope cmodel_scope.
Delimit Scope cmodel_scope with cmodel.

(** ** Failures and the result monad *)

(** What can go wrong in an execution: a failed [assert] (the process
    aborts), behaviour that the C standard leaves undefined (an access out of
    bounds, to an uninitialised cell or to a freed block, a NULL dereference,
    a signed overflow), one case of which is told apart, a [memcpy] on
    overlapping regions, and memory exhaustion (an array of more than
    [alloc_limit] elements). *)
Inductive failure :=
| Assertion
| Undefined
| Overlap
| Exhausted.

Inductive res (A : Type) :=
| Ok (a : A)
| Fail (f : failure).
Arguments Ok {_} _.
Arguments Fail {_} _.

#[global] Instance res_ret : MRet res := @Ok.
#[global] Instance res_bind : MBind res := λ A B f m,
  match m with Ok a => f a | Fail e => Fail e end.
#[global] Instance res_fmap : FMap res := λ A B f m,
  match m with Ok a => Ok (f a) | Fail e => Fail e end.

Definition assertion (b : bool) : res unit :=
  if b then Ok tt else Fail Assertion.
Definition defined (b : bool) : res unit :=
  if b then Ok tt else Fail Undefined.

(** [safe X r Q]: the computation returns a value satisfying [Q], or memory is
    exhausted and [X] holds; no assertion fails and nothing undefined happens.
    With [X := False] it always returns. *)
Definition safe {A} (X : Prop) (r : res A) (Q : A → Prop) : Prop :=
  match r with Ok a => Q a | Fail f => f = Exhausted ∧ X end.

(** ** The state monad of the programs

    A program with global state [S] finishes, ends in [exit(code)], or
    fails. *)
Inductive out (S A : Type) :=
| Done (a : A) (s : S)
| Exited (code : Z) (s : S)
| Failed (f : failure).
Arguments Done {_ _} _ _.
Arguments Exited {_ _} _ _.
Arguments Failed {_ _} _.

Definition M (S A : Type) : Type := S → out S A.

#[global] Instance M_ret S : MRet (M S) := λ A a s, Done a s.
#[global] Instance M_bind S : MBind (M S) := λ A B f m s,
  match m s with
  | Done a s' => f a s'
  | Exited c s' => Exited c s'
  | Failed e => Failed e
  end.

Section state_ops.
Context {S : Type}.
Definition get : M S S := λ s, Done s s.
Definition gets {A} (f : S → A) : M S A := λ s, Done (f s) s.
Definition modify (f : S → S) : M S unit := λ s, Done tt (f s).
Definition exit {A} (code : Z) : M S A := λ s, Exited code s.
Definition failM {A} (f : failure) : M S A := λ _, Failed f.
(** A computation that does not touch the state. *)
Definition lift {A} (r : res A) : M S A := λ s,
  match r with Ok a => Done a s | Fail e => Failed e end.
(** Run [m] on a part of the state. *)
Definition zoom {T A} (view : S → T) (upd : T → S → S) (m : M T A) : M S A :=
  λ s, match m (view s) with
       | Done a t => Done a (upd t s)
       | Exited c t => Exited c (upd t s)
       | Failed e => Failed e
       end.
End state_ops.

Definition whenM {S} (b : bool) (m : M S unit) : M S unit :=
  if b then m else mret tt.

(** The ways to stop early that a specification may allow. *)
Inductive stop (S : Type) :=
| SExit (code : Z) (s : S)
| SOverlap
| SExhausted.
Arguments SExit {_} _ _.
Arguments SOverlap {_}.
Arguments SExhausted {_}.

(** Never stop early. *)
Definition never {S} (_ : stop S) : Prop := False.

Definition stop_in {S T} (E : stop S → Prop) (upd : T → S) (x : stop T) : Prop :=
  match x with SExit c t => E (SExit c (upd t)) | SOverlap => E SOverlap | SExhausted => E SExhausted end.

(** Weakest precondition: [m] started in [s] ends in [Q], or stops early in a
    way that [E] allows; it never fails otherwise. *)
Definition wp {S A} (E : stop S → Prop) (m : M S A) (Q : A → S → Prop) (s : S) : Prop :=
  match m s with
  | Done a s' => Q a s'
  | Exited c s' => E (SExit c s')
  | Failed Overlap => E SOverlap
  | Failed Exhausted => E SExhausted
  | Failed _ => False
  end.

(** ** Machine integers *)

Definition INT_MAX : Z := 2147483647.
Definition INT_MIN : Z := -2147483648.
Definition UINT_MOD : Z := 4294967296.
Definition SIZE_MOD : Z := 18446744073709551616.

(** Arithmetic on [unsigned int] and [size_t] wraps; a signed overflow is
    undefined; a conversion to [int] keeps the low 32 bits. *)
Definition u32 (x : Z) : Z := x mod UINT_MOD.
Definition u64 (x : Z) : Z := x mod SIZE_MOD.
Definition in_int (x : Z) : bool := (INT_MIN <=? x) && (x <=? INT_MAX).
Definition int_op (x : Z) : res Z := if in_int x then Ok x else Fail Undefined.
Definition to_int (x : Z) : Z :=
  let y := x mod UINT_MOD in if y <=? INT_MAX then y else y - UINT_MOD.

(** ** Arrays

    An allocated array is the list of its cells; [None] is a cell that has
    not been written. *)

(** The largest array an execution may allocate: beyond it the model reports
    [Exhausted]. 2^29 elements keep every [int] and [unsigned int] size
    computation of the sources in range. *)
Definition alloc_limit : Z := 536870912.

Section arrays.
Context {A : Type}.
Implicit Types (a : list (option A)).

Definition arr_alloc (n : Z) : res (list (option A)) :=
  if (0 <=? n) && (n <=? alloc_limit)
  then Ok (replicate (Z.to_nat n) None) else Fail Exhausted.

Definition arr_realloc a (n : Z) : res (list (option A)) :=
  if (0 <=? n) && (n <=? alloc_limit)
  then Ok (take (Z.to_nat n) a ++ replicate (Z.to_nat n - length a) None)
  else Fail Exhausted.

Definition arr_get a (i : Z) : res A :=
  if 0 <=? i then
    match a !! Z.to_nat i with Some (Some v) => Ok v | _ => Fail Undefined end
  else Fail Undefined.

Definition arr_set a (i : Z) (v : A) : res (list (option A)) :=
  if (0 <=? i) && (i <? Z.of_nat (length a))
  then Ok (<[Z.to_nat i := Some v]> a) else Fail Undefined.

(** The cells [d, d+n) receive those of [s, s+n) as they were before. *)
Definition arr_move a (d s n : nat) : list (option A) :=
  take d a ++ take n (drop s a) ++ drop (d + n) a.
End arrays.

(** [memcpy] is undefined when the regions overlap. *)
Definition memcpy {A} (a : list (option A)) (d s n : Z) : res (list (option A)) :=
  if (0 <=? d) && (0 <=? s) && (0 <=? n)
     && (d + n <=? Z.of_nat (length a)) && (s + n <=? Z.of_nat (length a)) then
    if (n =? 0) || (d + n <=? s) || (s + n <=? d)
    then Ok (arr_move a (Z.to_nat d) (Z.to_nat s) (Z.to_nat n))
    else Fail Overlap
  else Fail Undefined.

(** Removal of element [i] that moves the last element into the hole. *)
Definition swap_remove {A} (i : nat) (l : list A) : list A :=
  match last l with
  | Some p => take (length l - 1) (<[i := p]> l)
  | None => l
  end.

(** A number above 2 and above all those of the list. *)
Definition above (l : list Z) : Z := foldr Z.max 2 l + 1.

(** ** Tactics and hints *)

Create HintDb cmodel.
Create Rewrite HintDb cmodel.

(** Turn boolean comparisons of the sources into propositions. *)
Ltac bool_to_prop :=
  repeat match goal with
  | H : _ && _ = true |- _ => apply andb_true_iff in H as [? ?]
  | H : _ && _ = false |- _ => apply andb_false_iff in H
  | H : _ || _ = true |- _ => apply orb_true_iff in H
  | H : _ || _ = false |- _ => apply orb_false_iff in H as [? ?]
  | H : negb _ = true |- _ => apply negb_true_iff in H
  | H : negb _ = false |- _ => apply negb_false_iff in H
  | H : (_ <=? _) = true |- _ => apply Z.leb_le in H
  | H : (_ <=? _) = false |- _ => apply Z.leb_gt in H
  | H : (_ <? _) = true |- _ => apply Z.ltb_lt in H
  | H : (_ <? _) = false |- _ => apply Z.ltb_ge in H
  | H : (_ =? _) = true |- _ => apply Z.eqb_eq in H
  | H : (_ =? _) = false |- _ => apply Z.eqb_neq in H
  end.

(** Prove that a boolean guard holds (or fails) by arithmetic. *)
Ltac guard_true b :=
  let H := fresh in
  assert (b = true) as H by
    (rewrite ?andb_true_iff, ?Z.leb_le, ?Z.ltb_lt, ?Z.eqb_eq; lia);
  rewrite H; clear H.
Ltac guard_false b :=
  let H := fresh in
  assert (b = false) as H by
    (rewrite ?andb_false_iff, ?Z.leb_gt, ?Z.ltb_ge, ?Z.eqb_neq; lia);
  rewrite H; clear H.

(** Close a decided (in)equality between constants, or a conjunction of some. *)
Ltac by_computation :=
  vm_compute; repeat split; first [reflexivity | discriminate].

(** ** Laws of the result monad and of [wp] *)

Lemma safe_ok {A} X (r : res A) a (Q : A → Prop) : r = Ok a → Q a → safe X r Q.
Proof. by intros ->. Qed.

Lemma safe_bind {A B} X (r : res A) (f : A → res B) Q :
  safe X r (λ a, safe X (f a) Q) → safe X (r ≫= f) Q.
Proof. by destruct r. Qed.

Lemma safe_mono {A} X (r : res A) (P Q : A → Prop) :
  safe X r P → (∀ a, P a → Q a) → safe X r Q.
Proof. destruct r; simpl; auto. Qed.

Lemma safe_total {A} (r : res A) (Q : A → Prop) : safe False r Q → ∃ a, r = Ok a ∧ Q a.
Proof. destruct r as [a|]; simpl; [by exists a|by intros [_ []]]. Qed.

Lemma bind_ok {A B} (r : res A) (f : A → res B) b :
  r ≫= f = Ok b ↔ ∃ a, r = Ok a ∧ f a = Ok b.
Proof.
  split; [|by intros (a & -> & ?)]. destruct r as [a|]; [|done]. by exists a.
Qed.

Section wp_laws.
Context {S : Type} (E : stop S → Prop).

Lemma wp_ret {A} (a : A) Q s : Q a s → wp E (mret a) Q s.
Proof. done. Qed.

Lemma wp_bind {A B} (m : M S A) (f : A → M S B) Q s :
  wp E m (λ a, wp E (f a) Q) s → wp E (m ≫= f) Q s.
Proof. unfold wp, mbind, M_bind. by destruct (m s) as [| |[]]. Qed.

Lemma wp_mono {A} (m : M S A) (P Q : A → S → Prop) s :
  wp E m P s → (∀ a s', P a s' → Q a s') → wp E m Q s.
Proof. unfold wp. destruct (m s) as [| |[]]; auto. Qed.

Lemma wp_lift {A} (r : res A) Q s :
  safe (E SExhausted) r (λ a, Q a s) → wp E (lift r) Q s.
Proof. unfold wp, lift. destruct r; [done|]. by intros [-> ?]. Qed.

Lemma wp_lift_overlap {A} (r : res A) Q s :
  r = Fail Overlap ∧ E SOverlap ∨ (∃ a, r = Ok a ∧ Q a s) → wp E (lift r) Q s.
Proof. unfold wp, lift. by intros [[-> ?]|(a & -> & ?)]. Qed.

Lemma wp_gets {A} (f : S → A) Q s : Q (f s) s → wp E (gets f) Q s.
Proof. done. Qed.

Lemma wp_modify f Q s : Q tt (f s) → wp E (modify f) Q s.
Proof. done. Qed.

Lemma wp_when b m Q s :
  (b = true → wp E m Q s) → (b = false → Q tt s) → wp E (whenM b m) Q s.
Proof. intros Ht Hf. destruct b; [by apply Ht | by apply Hf]. Qed.

Lemma wp_zoom {T A} (view : S → T) upd (m : M T A) (Q : A → S → Prop) s :
  wp (stop_in E (λ t, upd t s)) m (λ a t, Q a (upd t s)) (view s) →
  wp E (zoom view upd m) Q s.
Proof. unfold wp, zoom. by destruct (m (view s)) as [| |[]]. Qed.
End wp_laws.

(** Equality of monadic computations is pointwise equality of their runs;
    sequencing respects it, so that setoid rewriting works under [≫=]. *)
#[global] Instance M_equiv {S A} : Equiv (M S A) := λ m1 m2, ∀ s, m1 s = m2 s.

#[global] Instance M_equivalence {S A} : Equivalence (≡@{M S A}).
Proof.
  split.
  - by intros m s.
  - by intros m1 m2 H s.
  - intros m1 m2 m3 H1 H2 s. by rewrite H1, H2.
Qed.

#[global] Instance M_bind_proper {S A B} :
  Proper (pointwise_relation A (≡@{M S B}) ==> (≡@{M S A}) ==> (≡@{M S B})) mbind.
Proof.
  intros f g Hfg m1 m2 Hm s. unfold mbind, M_bind. rewrite (Hm s).
  destruct (m2 s); [apply Hfg | done | done].
Qed.

#[global] Instance wp_proper {S A} E Q :
  Proper ((≡@{M S A}) ==> eq ==> iff) (λ m s, wp E m Q s).
Proof. intros m1 m2 Hm s ? <-. unfold wp. by rewrite (Hm s). Qed.

Lemma M_bind_assoc {S A B C} (m : M S A) (f : A → M S B) (g : B → M S C) :
  (m ≫= f) ≫= g ≡ m ≫= (λ a, f a ≫= g).
Proof. intros s. unfold mbind, M_bind. by destruct (m s). Qed.

(** Running a sequence whose first part is known to return. *)
Section running.
Context {S A C : Type}.
Lemma bind_done (k : M S A) (f : A → M S C) s a s' : k s = Done a s' → (k ≫= f) s = f a s'.
Proof. intros H. unfold mbind, M_bind. by rewrite H. Qed.

Lemma lift_ok_bind (a : A) (f : A → M S C) s : (lift (Ok a) ≫= f) s = f a s.
Proof. done. Qed.

Lemma lift_assert_bind (b : bool) (f : unit → M S C) s : b = true → (lift (assertion b) ≫= f) s = f tt s.
Proof. by intros ->. Qed.

Lemma ret_bind (a : A) (f : A → M S C) s : (mret a ≫= f) s = f a s.
Proof. done. Qed.

Lemma gets_bind (g : S → A) (f : A → M S C) s : (gets g ≫= f) s = f (g s) s.
Proof. done. Qed.
End running.

(** ** Laws of machine integers *)

Lemma u32_small x : 0 ≤ x < UINT_MOD → u32 x = x.
Proof. apply Z.mod_small. Qed.
Lemma u64_small x : 0 ≤ x < SIZE_MOD → u64 x = x.
Proof. apply Z.mod_small. Qed.
Lemma int_op_ok x : INT_MIN ≤ x ≤ INT_MAX → int_op x = Ok x.
Proof. intros. unfold int_op, in_int. by guard_true ((INT_MIN <=? x) && (x <=? INT_MAX)). Qed.
Lemma to_int_small x : 0 ≤ x ≤ INT_MAX → to_int x = x.
Proof.
  intros. unfold to_int. rewrite Z.mod_small by (unfold UINT_MOD, INT_MAX in *; lia).
  by guard_true (x <=? INT_MAX).
Qed.

(** ** Laws of arrays *)

Section array_laws.
Context {A : Type}.
Implicit Types (a : list (option A)).

Lemma arr_get_ok a i v :
  0 ≤ i → a !! Z.to_nat i = Some (Some v) → arr_get a i = Ok v.
Proof. intros. unfold arr_get. guard_true (0 <=? i). by case_match; simplify_eq. Qed.

Lemma arr_set_ok a i v :
  0 ≤ i < Z.of_nat (length a) → arr_set a i v = Ok (<[Z.to_nat i := Some v]> a).
Proof.
  intros. unfold arr_set.
  by guard_true ((0 <=? i) && (i <? Z.of_nat (length a))).
Qed.

Lemma arr_alloc_ok n :
  0 ≤ n ≤ alloc_limit → @arr_alloc A n = Ok (replicate (Z.to_nat n) None).
Proof. intros. unfold arr_alloc. by guard_true ((0 <=? n) && (n <=? alloc_limit)). Qed.

Lemma arr_realloc_ok a n :
  Z.of_nat (length a) ≤ n ≤ alloc_limit →
  arr_realloc a n = Ok (a ++ replicate (Z.to_nat n - length a) None).
Proof.
  intros. unfold arr_realloc. guard_true ((0 <=? n) && (n <=? alloc_limit)).
  by rewrite take_ge by lia.
Qed.

Lemma arr_realloc_inv a n a' :
  arr_realloc a n = Ok a' → 0 ≤ n ≤ alloc_limit.
Proof. unfold arr_realloc. case_match; [intros; bool_to_prop; lia | done]. Qed.

Lemma arr_realloc_safe X a n (Q : list (option A) → Prop) :
  Z.of_nat (length a) ≤ n → (alloc_limit < n → X) →
  (n ≤ alloc_limit → Q (a ++ replicate (Z.to_nat n - length a) None)) →
  safe X (arr_realloc a n) Q.
Proof.
  intros ? HX HQ. destruct (decide (n ≤ alloc_limit)).
  - rewrite arr_realloc_ok by lia. simpl. auto.
  - unfold arr_realloc. guard_false ((0 <=? n) && (n <=? alloc_limit)).
    split; [done|]. apply HX. lia.
Qed.

Lemma arr_realloc_exhausted a n :
  alloc_limit < n → arr_realloc a n = Fail Exhausted.
Proof. intros. unfold arr_realloc. by guard_false ((0 <=? n) && (n <=? alloc_limit)). Qed.

Lemma length_arr_move a d s n :
  (d + n ≤ length a)%nat → (s + n ≤ length a)%nat →
  length (arr_move a d s n) = length a.
Proof.
  intros. unfold arr_move.
  rewrite !length_app, !length_take, !length_drop. lia.
Qed.

Lemma lookup_arr_move a d s n i :
  (d + n ≤ length a)%nat → (s + n ≤ length a)%nat →
  arr_move a d s n !! i =
  if decide (d ≤ i < d + n)%nat then a !! (s + (i - d))%nat else a !! i.
Proof.
  intros Hd Hs. unfold arr_move. case_decide.
  - rewrite lookup_app_r by (rewrite length_take; lia).
    rewrite length_take, Nat.min_l by lia.
    rewrite lookup_app_l by (rewrite length_take, length_drop; lia).
    rewrite lookup_take_lt by lia. by rewrite lookup_drop.
  - destruct (decide (i < d)%nat).
    + rewrite lookup_app_l by (rewrite length_take; lia). by rewrite lookup_take_lt by lia.
    + rewrite lookup_app_r by (rewrite length_take; lia).
      rewrite lookup_app_r by (rewrite !length_take, length_drop; lia).
      rewrite lookup_drop, !length_take, length_drop. f_equal. lia.
Qed.

End array_laws.

Section memcpy_laws.
Context {A : Type}.
Implicit Types (a : list (option A)).

Lemma memcpy_disjoint a d s n :
  0 ≤ d → 0 ≤ s → 0 ≤ n → d + n ≤ Z.of_nat (length a) → s + n ≤ Z.of_nat (length a) →
  n = 0 ∨ d + n ≤ s ∨ s + n ≤ d →
  memcpy a d s n = Ok (arr_move a (Z.to_nat d) (Z.to_nat s) (Z.to_nat n)).
Proof.
  intros ????? Hdisj. unfold memcpy.
  guard_true ((0 <=? d) && (0 <=? s) && (0 <=? n)
   && (d + n <=? Z.of_nat (length a)) && (s + n <=? Z.of_nat (length a))).
  assert ((n =? 0) || (d + n <=? s) || (s + n <=? d) = true) as ->; [|done].
  rewrite !orb_true_iff, !Z.leb_le, Z.eqb_eq. lia.
Qed.

Lemma memcpy_overlap a d s n :
  0 ≤ d < s → 0 ≤ n → s + n ≤ Z.of_nat (length a) → s - d < n → memcpy a d s n = Fail Overlap.
Proof.
  intros. unfold memcpy.
  guard_true ((0 <=? d) && (0 <=? s) && (0 <=? n)
   && (d + n <=? Z.of_nat (length a)) && (s + n <=? Z.of_nat (length a))).
  assert ((n =? 0) || (d + n <=? s) || (s + n <=? d) = false) as ->; [|done].
  rewrite !orb_false_iff, !Z.leb_gt, Z.eqb_neq. lia.
Qed.
End memcpy_laws.

(** ** Lists *)

Lemma swap_remove_perm {A} i (l : list A) p :
  l !! i = Some p → l ≡ₚ p :: swap_remove i l.
Proof.
  intros Hi. unfold swap_remove.
  destruct (last l) as [q|] eqn:Hl; [|by apply last_None in Hl as ->].
  apply last_Some in Hl as [l' ->].
  rewrite length_app. simpl. replace (length l' + 1 - 1)%nat with (length l') by lia.
  destruct (decide (i = length l')) as [->|Hne].
  - rewrite lookup_app_r, Nat.sub_diag in Hi by done. simplify_eq/=.
    rewrite insert_app_r_alt, Nat.sub_diag by done. simpl. rewrite take_app_length.
    by rewrite Permutation_app_comm.
  - assert (i < length l')%nat.
    { apply lookup_lt_Some in Hi. rewrite length_app in Hi. simpl in Hi. lia. }
    rewrite lookup_app_l in Hi by done. rewrite insert_app_l by done.
    rewrite <- (length_insert l' i q). rewrite take_app_length.
    rewrite <- (take_drop_middle l' i p Hi) at 1.
    rewrite (insert_take_drop l' i q) by done.
    rewrite <- app_assoc. simpl. rewrite <- Permutation_middle. apply perm_skip.
    apply Permutation_app_head. by rewrite Permutation_app_comm.
Qed.

Lemma lookup_swap_remove {A} i (l : list A) j :
  (i < length l)%nat → (j < length l - 1)%nat →
  swap_remove i l !! j = if decide (i = j) then last l else l !! j.
Proof.
  intros Hi Hj. unfold swap_remove. destruct (last l) as [p|] eqn:Hp.
  - rewrite lookup_take_lt by lia. case_decide as Hij.
    + subst. by rewrite list_lookup_insert_eq.
    + by rewrite list_lookup_insert_ne.
  - apply last_None in Hp as ->. simpl in *. lia.
Qed.

Lemma filter_Forall_id {A} (P : A → Prop) `{!∀ x, Decision (P x)} (l : list A) :
  Forall P l → filter P l = l.
Proof.
  induction 1 as [|x l Hx _ IH]; [done|]. by rewrite filter_cons_True, IH.
Qed.

Lemma elem_of_concat {A} (x : A) (ls : list (list A)) :
  x ∈ concat ls ↔ ∃ l, x ∈ l ∧ l ∈ ls.
Proof.
  rewrite list_elem_of_In, in_concat. setoid_rewrite list_elem_of_In. naive_solver.
Qed.

Lemma concat_fmap_perm {A B} (f : A → list B) (l l' : list A) :
  l ≡ₚ l' → concat (f <$> l) ≡ₚ concat (f <$> l').
Proof.
  induction 1 as [|x l l' _ IH|x y l|l1 l2 l3 _ IH1 _ IH2]; simpl; [done| | |by etrans].
  - by apply Permutation_app_head.
  - rewrite !app_assoc. apply Permutation_app_tail, Permutation_app_comm.
Qed.

Lemma length_swap_remove {A} i (l : list A) : length (swap_remove i l) = (length l - 1)%nat.
Proof.
  unfold swap_remove. destruct (last l) as [p|] eqn:Hl.
  - rewrite length_take, length_insert. lia.
  - by apply last_None in Hl as ->.
Qed.

Lemma fmap_swap_remove {A B} (f : A → B) i (l : list A) :
  f <$> swap_remove i l = swap_remove i (f <$> l).
Proof.
  unfold swap_remove. rewrite fmap_last, length_fmap. destruct (last l) as [p|]; [|done]. simpl.
  by rewrite fmap_take, list_fmap_insert.
Qed.

Lemma above_fresh l : 0 ≤ above l ∧ above l ∉ l.
Proof.
  unfold above. assert (2 ≤ foldr Z.max 2 l ∧ ∀ x, x ∈ l → x ≤ foldr Z.max 2 l) as [H2 Hl].
  { induction l as [|y l [IH1 IH2]]; simpl; [split; [lia|set_solver]|].
    split; [lia|]. intros x [->|Hx]%elem_of_cons; [lia|]. specialize (IH2 x Hx). lia. }
  split; [lia|]. intros Hin%Hl. lia.
Qed.

Lemma above_pos l : 0 < above l.
Proof. unfold above. induction l as [|y l IH]; simpl; lia. Qed.

#[export] Hint Rewrite @length_arr_move using lia : cmodel.
#[export] Hint Resolve wp_ret safe_ok u32_small u64_small int_op_ok to_int_small : cmodel.
