(* ===== verification/ArrayList.v ===== *)
(** * The keyed array list (src/server/arraylist.c)

    [t_list] is the struct of arraylist.h: two parallel arrays, a length and
    a capacity. [list_rep l kvs] says that [l] holds the sequence of
    key/data pairs [kvs]; every operation is shown to act on [kvs] as its
    comment in arraylist.h says. *)

From S2P Require Import Prelude.

Definition INVALID_INDEX : Z := -1.

Record t_list (A : Type) := Mk_list {
  l_key : list (option Z);
  l_data : list (option A);
  l_len : Z;
  l_capacity : Z;
}.
Arguments Mk_list {_} _ _ _ _.
Arguments l_key {_} _.
Arguments l_data {_} _.
Arguments l_len {_} _.
Arguments l_capacity {_} _.

Section operations.
  Context {A : Type}.
  Implicit Types (l : t_list A) (key : Z).

Definition init_list (capacity : Z) : res (t_list A) :=
  ks ← arr_alloc capacity;
  ds ← arr_alloc capacity;
  mret (Mk_list ks ds 0 capacity).

Definition list_is_empty l : bool := l_len l =? 0.

(** The loop [for (i = ...; i < l->len; i++)], [n] iterations before its end. *)
Fixpoint lookup_index_from l key (i : Z) (n : nat) : res Z :=
  match n with
  | O => mret INVALID_INDEX
  | S n' =>
      k ← arr_get (l_key l) i;
      if k =? key then mret i else lookup_index_from l key (i + 1) n'
  end.

Definition list_lookup_index l key : res Z :=
  lookup_index_from l key 0 (Z.to_nat (l_len l)).

(** [None] is NULL. *)
Definition list_lookup l key : res (option A) :=
  i ← list_lookup_index l key;
  if i =? INVALID_INDEX then mret None
  else d ← arr_get (l_data l) i; mret (Some d).

Definition list_remove l key : res (t_list A) :=
  i ← list_lookup_index l key;
  if negb (i =? INVALID_INDEX) then
    _ ← assertion (negb (list_is_empty l));
    let len := l_len l - 1 in
    k ← arr_get (l_key l) len;
    ks ← arr_set (l_key l) i k;
    d ← arr_get (l_data l) len;
    ds ← arr_set (l_data l) i d;
    mret (Mk_list ks ds len (l_capacity l))
  else mret l.

Definition free_list l : res unit := assertion (list_is_empty l).

Definition list_resize l : res (t_list A) :=
  newcap ← int_op (l_capacity l * 2);
  ks ← arr_realloc (l_key l) newcap;
  ds ← arr_realloc (l_data l) newcap;
  mret (Mk_list ks ds (l_len l) newcap).

Definition list_append l key (elt : A) : res (t_list A) :=
  l ← (if l_len l =? l_capacity l then list_resize l else mret l);
  ks ← arr_set (l_key l) (l_len l) key;
  ds ← arr_set (l_data l) (l_len l) elt;
  len ← int_op (l_len l + 1);
  mret (Mk_list ks ds len (l_capacity l)).

Definition list_length l : Z := l_len l.

(** ** Representation *)

(** The first [l_len] cells of the two arrays hold the keys and the data of
    [kvs]. *)
Definition list_rep l (kvs : list (Z * A)) : Prop :=
  l_len l = Z.of_nat (length kvs) ∧
  0 < l_capacity l ≤ alloc_limit ∧
  (length kvs ≤ Z.to_nat (l_capacity l))%nat ∧
  length (l_key l) = Z.to_nat (l_capacity l) ∧
  length (l_data l) = Z.to_nat (l_capacity l) ∧
  ∀ i k d, kvs !! i = Some (k, d) →
    l_key l !! i = Some (Some k) ∧ l_data l !! i = Some (Some d).

(** The reference definitions on sequences: the first pair with a key, and
    the removal that moves the last pair into the hole. *)
Fixpoint assoc_index key (kvs : list (Z * A)) : option nat :=
  match kvs with
  | [] => None
  | (k, _) :: kvs' => if k =? key then Some O else S <$> assoc_index key kvs'
  end.

Definition assoc key (kvs : list (Z * A)) : option A :=
  i ← assoc_index key kvs; snd <$> kvs !! i.

Definition assoc_remove key (kvs : list (Z * A)) : list (Z * A) :=
  match assoc_index key kvs with
  | Some i => swap_remove i kvs
  | None => kvs
  end.

End operations.

(** ** Lemmas on the reference definitions *)

Section lemmas.
Context {A : Type}.
Implicit Types (l : t_list A) (key : Z) (kvs : list (Z * A)).

Lemma assoc_index_Some key kvs i :
  assoc_index key kvs = Some i → ∃ d, kvs !! i = Some (key, d).
Proof.
  revert i. induction kvs as [|[k d] kvs IH]; intros i; simpl; [done|].
  destruct (Z.eqb_spec k key) as [->|]; [intros [= <-]; simpl; eauto|].
  intros (j & Hj & ->)%fmap_Some. simpl. by apply IH.
Qed.

Lemma assoc_index_None key kvs : assoc_index key kvs = None ↔ key ∉ kvs.*1.
Proof.
  induction kvs as [|[k d] kvs IH]; simpl; [set_solver|].
  destruct (Z.eqb_spec k key) as [->|]; [set_solver|].
  rewrite fmap_None, IH. set_solver.
Qed.

Lemma assoc_Some key kvs d : assoc key kvs = Some d → (key, d) ∈ kvs.
Proof.
  unfold assoc. intros (i & Hi & Hd)%bind_Some.
  apply assoc_index_Some in Hi as [d' Hd'].
  rewrite Hd' in Hd. simplify_eq/=. apply list_elem_of_lookup. eauto.
Qed.

Lemma assoc_None key kvs : assoc key kvs = None ↔ key ∉ kvs.*1.
Proof.
  rewrite <- assoc_index_None. unfold assoc. split; [|by intros ->].
  destruct (assoc_index key kvs) as [i|] eqn:Hi; [|done]. simpl.
  apply assoc_index_Some in Hi as [d ->]. done.
Qed.

Lemma assoc_elem key kvs d : NoDup kvs.*1 → (key, d) ∈ kvs → assoc key kvs = Some d.
Proof.
  intros Hnd Hin. destruct (assoc key kvs) as [d'|] eqn:Hd.
  - f_equal. apply assoc_Some in Hd.
    apply list_elem_of_lookup in Hin as [i Hi]. apply list_elem_of_lookup in Hd as [j Hj].
    assert (i = j) as ->; [|congruence].
    eapply NoDup_lookup; [exact Hnd|rewrite list_lookup_fmap, Hi|rewrite list_lookup_fmap, Hj]; done.
  - apply assoc_None in Hd. destruct Hd. by apply (list_elem_of_fmap_2 fst _ (key, d)).
Qed.

Lemma assoc_map key kvs : assoc key kvs = (list_to_map kvs : gmap Z A) !! key.
Proof.
  unfold assoc. induction kvs as [|[k d] kvs IH]; simpl; [by rewrite lookup_empty|].
  destruct (Z.eqb_spec k key) as [->|].
  - by rewrite lookup_insert_eq.
  - rewrite lookup_insert_ne by done. rewrite <- IH. by destruct (assoc_index key kvs).
Qed.

Lemma assoc_remove_perm key kvs d :
  assoc key kvs = Some d → kvs ≡ₚ (key, d) :: assoc_remove key kvs.
Proof.
  unfold assoc, assoc_remove. intros (i & Hi & Hd)%bind_Some. rewrite Hi.
  apply assoc_index_Some in Hi as [d' Hd']. rewrite Hd' in Hd. simplify_eq/=.
  by apply swap_remove_perm.
Qed.

(** Removal from a list of pairs computed from other values. *)
Lemma assoc_remove_fmap {B} (f : B → Z * A) key (xs : list B) :
  (assoc key (f <$> xs) = None ∧ (key ∉ (f <$> xs).*1) ∧ assoc_remove key (f <$> xs) = f <$> xs) ∨
  ∃ x ys, assoc key (f <$> xs) = Some (f x).2 ∧ (f x).1 = key ∧ xs ≡ₚ x :: ys ∧
          assoc_remove key (f <$> xs) = f <$> ys.
Proof.
  unfold assoc, assoc_remove. destruct (assoc_index key (f <$> xs)) as [i|] eqn:Hi; simpl.
  - right. apply assoc_index_Some in Hi as [d Hd]. rewrite Hd.
    rewrite list_lookup_fmap in Hd. apply fmap_Some in Hd as (x & Hx & Hfx).
    exists x, (swap_remove i xs). rewrite <- Hfx. split_and!; [done..| |].
    + by apply swap_remove_perm.
    + symmetry. apply fmap_swap_remove.
  - left. split_and!; [done| |done]. by apply assoc_index_None.
Qed.

Lemma assoc_remove_None key kvs : assoc key kvs = None → assoc_remove key kvs = kvs.
Proof. rewrite assoc_None, <- assoc_index_None. unfold assoc_remove. by intros ->. Qed.

Lemma assoc_remove_length key kvs d :
  assoc key kvs = Some d → length kvs = S (length (assoc_remove key kvs)).
Proof. intros H. by rewrite (assoc_remove_perm key kvs d H) at 1. Qed.

Lemma assoc_remove_NoDup key kvs : NoDup kvs.*1 → NoDup (assoc_remove key kvs).*1.
Proof.
  destruct (assoc key kvs) as [d|] eqn:Hd; [|by rewrite assoc_remove_None].
  rewrite (fmap_Permutation fst _ _ (assoc_remove_perm _ _ _ Hd)). simpl.
  by intros [_ ?]%NoDup_cons.
Qed.

Lemma assoc_remove_map key kvs :
  NoDup kvs.*1 →
  (list_to_map (assoc_remove key kvs) : gmap Z A) = delete key (list_to_map kvs).
Proof.
  intros Hnd. destruct (assoc key kvs) as [d|] eqn:Hd.
  - assert (NoDup ((key, d) :: assoc_remove key kvs).*1) as Hnd'
      by (by rewrite <- (assoc_remove_perm key kvs d Hd)).
    rewrite (list_to_map_proper _ _ Hnd (assoc_remove_perm key kvs d Hd)). simpl.
    rewrite delete_insert_id; [done|]. apply not_elem_of_list_to_map_1.
    apply NoDup_cons in Hnd' as [? _]. done.
  - rewrite (assoc_remove_None _ _ Hd). symmetry. apply delete_id.
    by rewrite <- assoc_map.
Qed.

(** ** Lemmas on the operations *)

Lemma init_list_rep capacity :
  0 < capacity ≤ alloc_limit → ∃ l, init_list capacity = Ok l ∧ list_rep l [].
Proof.
  intros. unfold init_list. rewrite !arr_alloc_ok by lia. simpl. eexists. split; [done|].
  split_and!; simpl; rewrite ?length_replicate; try done; try lia.
Qed.

Lemma list_rep_len l kvs : list_rep l kvs → list_length l = Z.of_nat (length kvs).
Proof. by intros []. Qed.

Lemma lookup_index_from_rep l kvs key i n :
  list_rep l kvs → (i + n = length kvs)%nat →
  lookup_index_from l key (Z.of_nat i) n =
  Ok (match assoc_index key (drop i kvs) with
      | Some j => Z.of_nat (i + j) | None => INVALID_INDEX end).
Proof.
  intros (Hlen & Hcap & Hle & Hk & Hd & Hkv). revert i.
  induction n as [|n IH]; intros i Hi; simpl.
  - by rewrite drop_ge by lia.
  - destruct (lookup_lt_is_Some_2 kvs i) as [[k d] Hkd]; [lia|].
    destruct (Hkv _ _ _ Hkd) as [Hki _].
    rewrite (arr_get_ok _ _ k) by (rewrite ?Nat2Z.id; lia || done). simpl.
    rewrite (drop_S _ _ _ Hkd). simpl. destruct (Z.eqb_spec k key).
    + by rewrite Nat.add_0_r.
    + replace (Z.of_nat i + 1) with (Z.of_nat (S i)) by lia. rewrite IH by lia.
      destruct (assoc_index key (drop (S i) kvs)); simpl; [|done]. do 2 f_equal. lia.
Qed.

Lemma list_lookup_index_rep l kvs key :
  list_rep l kvs →
  list_lookup_index l key =
  Ok (match assoc_index key kvs with Some j => Z.of_nat j | None => INVALID_INDEX end).
Proof.
  intros Hl. unfold list_lookup_index. destruct (Hl) as [-> _].
  rewrite Nat2Z.id. by apply (lookup_index_from_rep l kvs key 0).
Qed.

Lemma list_lookup_rep l kvs key :
  list_rep l kvs → list_lookup l key = Ok (assoc key kvs).
Proof.
  intros Hl. unfold list_lookup, assoc. rewrite (list_lookup_index_rep _ _ _ Hl). simpl.
  destruct (assoc_index key kvs) as [i|] eqn:Hi; [|done]. simpl.
  replace (Z.of_nat i =? INVALID_INDEX) with false by (symmetry; apply Z.eqb_neq; unfold INVALID_INDEX; lia).
  destruct Hl as (_ & _ & _ & _ & _ & Hkv).
  apply assoc_index_Some in Hi as [d Hd]. destruct (Hkv _ _ _ Hd) as [_ Hdi].
  rewrite (arr_get_ok _ _ d) by (rewrite ?Nat2Z.id; lia || done). by rewrite Hd.
Qed.

Lemma list_resize_rep l kvs :
  list_rep l kvs → l_capacity l * 2 ≤ alloc_limit →
  ∃ l', list_resize l = Ok l' ∧ list_rep l' kvs ∧ l_capacity l' = l_capacity l * 2.
Proof.
  intros (Hlen & Hcap & Hle & Hk & Hd & Hkv) Hlim. unfold list_resize.
  rewrite int_op_ok by (unfold INT_MIN, INT_MAX, alloc_limit in *; lia). simpl.
  rewrite !arr_realloc_ok by lia. simpl. eexists; split; [done|].
  unfold list_rep; split_and!; simpl; rewrite ?length_app, ?length_replicate; try done; try lia.
  intros i k d Hi. destruct (Hkv _ _ _ Hi).
  assert (i < length kvs)%nat by (by eapply lookup_lt_Some).
  rewrite !lookup_app_l by lia. done.
Qed.

Lemma list_append_room l kvs key d :
  list_rep l kvs → l_len l < l_capacity l →
  ∃ l', list_append l key d = Ok l' ∧ list_rep l' (kvs ++ [(key, d)]).
Proof.
  intros (Hlen & Hcap & Hle & Hk & Hd & Hkv) Hroom. unfold list_append.
  guard_false (l_len l =? l_capacity l). simpl.
  rewrite !arr_set_ok by lia. simpl.
  rewrite int_op_ok by (unfold INT_MIN, INT_MAX, alloc_limit in *; lia). simpl.
  eexists; split; [done|].
  unfold list_rep; split_and!; simpl; rewrite ?length_insert, ?length_app; simpl; try done; try lia.
  intros i k e [Hi|[Hi Heq]]%lookup_app_Some.
  - destruct (Hkv _ _ _ Hi). assert (i < length kvs)%nat by (by eapply lookup_lt_Some).
    rewrite !list_lookup_insert_ne by lia. done.
  - apply list_lookup_singleton_Some in Heq as [? [= -> ->]].
    replace (Z.to_nat (l_len l)) with i by lia.
    rewrite !list_lookup_insert_eq by lia. done.
Qed.

Lemma list_append_full l kvs key d :
  l_len l = l_capacity l → l_len l ≠ l_capacity l * 2 →
  list_append l key d =
  l' ← list_resize l;
  if l_len l' =? l_capacity l' then Fail Undefined else list_append l' key d.
Proof.
  intros Hfull Hne. unfold list_append at 1. guard_true (l_len l =? l_capacity l).
  unfold list_resize. destruct (int_op (l_capacity l * 2)) as [c|] eqn:Hc; simpl; [|done].
  assert (c = l_capacity l * 2) as ->.
  { unfold int_op in Hc. case_match; congruence. }
  destruct (arr_realloc (l_key l) _); simpl; [|done].
  destruct (arr_realloc (l_data l) _); simpl; [|done].
  unfold list_append; simpl. guard_false (l_len l =? l_capacity l * 2). done.
Qed.

Lemma list_append_rep l kvs key d :
  list_rep l kvs → 2 * Z.of_nat (length kvs) ≤ alloc_limit →
  ∃ l', list_append l key d = Ok l' ∧ list_rep l' (kvs ++ [(key, d)]).
Proof.
  intros Hl Hlim. pose proof Hl as (Hlen & Hcap & Hle & _).
  destruct (decide (l_len l = l_capacity l)) as [Hfull|]; [|by apply list_append_room; [|lia]].
  destruct (list_resize_rep l kvs Hl) as (l' & Hr & Hl' & Hc); [lia|].
  rewrite (list_append_full l kvs) by lia. rewrite Hr. simpl.
  pose proof Hl' as (Hlen' & _).
  guard_false (l_len l' =? l_capacity l'). apply list_append_room; [done|lia].
Qed.

(** Appending to a full list whose doubled arrays do not fit exhausts memory:
    there is no other failure. *)
Lemma list_append_safe X l kvs key d :
  list_rep l kvs → (alloc_limit < 2 * Z.of_nat (length kvs) → X) →
  safe X (list_append l key d) (λ l', list_rep l' (kvs ++ [(key, d)])).
Proof.
  intros Hl HX. destruct (decide (2 * Z.of_nat (length kvs) ≤ alloc_limit)) as [Hlim|Hlim].
  - destruct (list_append_rep l kvs key d Hl Hlim) as (l' & -> & ?). done.
  - pose proof Hl as (Hlen & Hcap & Hle & Hk & Hd & _).
    destruct (decide (l_len l = l_capacity l)) as [Hfull|].
    + rewrite (list_append_full l kvs) by lia. unfold list_resize.
      rewrite int_op_ok by (unfold INT_MIN, INT_MAX, alloc_limit in *; lia). simpl.
      rewrite (arr_realloc_exhausted (l_key l)) by lia. split; [done|]. apply HX. lia.
    + destruct (list_append_room l kvs key d Hl) as (l' & -> & ?); [lia|done].
Qed.

Lemma list_remove_rep l kvs key :
  list_rep l kvs →
  ∃ l', list_remove l key = Ok l' ∧ list_rep l' (assoc_remove key kvs) ∧
        l_capacity l' = l_capacity l.
Proof.
  intros Hl. unfold list_remove. rewrite (list_lookup_index_rep _ _ _ Hl). simpl.
  unfold assoc_remove. destruct (assoc_index key kvs) as [i|] eqn:Hi; simpl; [|eauto].
  replace (Z.of_nat i =? INVALID_INDEX) with false by (symmetry; apply Z.eqb_neq; unfold INVALID_INDEX; lia). simpl.
  apply assoc_index_Some in Hi as [d Hd].
  assert (i < length kvs)%nat by (by eapply lookup_lt_Some).
  destruct Hl as (Hlen & Hcap & Hle & Hk & Hdl & Hkv).
  unfold list_is_empty, assertion. guard_false (l_len l =? 0). simpl.
  destruct (lookup_lt_is_Some_2 kvs (length kvs - 1)) as [[k' d'] Hlast]; [lia|].
  destruct (Hkv _ _ _ Hlast) as [Hk' Hd'].
  replace (l_len l - 1) with (Z.of_nat (length kvs - 1)) by lia.
  rewrite (arr_get_ok _ _ k') by (rewrite ?Nat2Z.id; done || lia). simpl.
  rewrite arr_set_ok by lia. simpl.
  rewrite (arr_get_ok _ _ d') by (rewrite ?Nat2Z.id; done || lia). simpl.
  rewrite arr_set_ok by lia. simpl. rewrite Nat2Z.id.
  assert (length kvs = S (length (swap_remove i kvs))) as Hlsr
    by (by rewrite (swap_remove_perm i kvs _ Hd) at 1).
  eexists. split_and!; [done| |done].
  unfold list_rep; split_and!; simpl; rewrite ?length_insert; try lia.
  intros j k e Hj.
  assert (j < length (swap_remove i kvs))%nat by (by eapply lookup_lt_Some).
  rewrite lookup_swap_remove, last_lookup in Hj by lia.
  case_decide as Hij.
  - subst j. replace (Init.Nat.pred (length kvs)) with (length kvs - 1)%nat in Hj by lia.
    rewrite Hlast in Hj. simplify_eq. rewrite !list_lookup_insert_eq by lia. done.
  - destruct (Hkv _ _ _ Hj). by rewrite !list_lookup_insert_ne by done.
Qed.
End lemmas.

(** ** The list as a finite map *)

Section refinement.
Context {A : Type}.

(** [l] implements the finite map [m]. *)
Definition list_implements (l : t_list A) (m : gmap Z A) : Prop :=
  ∃ kvs, list_rep l kvs ∧ NoDup kvs.*1 ∧ m = list_to_map kvs.

Lemma list_implements_lookup l m key :
  list_implements l m → list_lookup l key = Ok (m !! key).
Proof.
  intros (kvs & Hl & _ & ->). by rewrite (list_lookup_rep _ _ _ Hl), assoc_map.
Qed.

Lemma list_implements_remove l m key :
  list_implements l m → ∃ l', list_remove l key = Ok l' ∧ list_implements l' (delete key m).
Proof.
  intros (kvs & Hl & Hnd & ->). destruct (list_remove_rep l kvs key Hl) as (l' & ? & ? & _).
  exists l'. split; [done|]. exists (assoc_remove key kvs).
  by rewrite assoc_remove_map; auto using assoc_remove_NoDup.
Qed.

Lemma list_implements_append l m key d :
  list_implements l m → m !! key = None → 2 * list_length l ≤ alloc_limit →
  ∃ l', list_append l key d = Ok l' ∧ list_implements l' (<[key := d]> m).
Proof.
  intros (kvs & Hl & Hnd & ->) Hkey Hlim. rewrite (list_rep_len _ _ Hl) in Hlim.
  destruct (list_append_rep l kvs key d Hl Hlim) as (l' & ? & ?).
  exists l'. split; [done|]. exists (kvs ++ [(key, d)]). split_and!; [done| |].
  - rewrite fmap_app, NoDup_app. split_and!; [done| |apply NoDup_singleton].
    rewrite <- assoc_map, assoc_None in Hkey. set_solver.
  - rewrite list_to_map_app. simpl. rewrite insert_empty, insert_union_singleton_r; done.
Qed.

(** C14: the array list of arraylist.c implements a finite map from keys to
    data. For a list that represents the map [m] (no key twice), a lookup
    returns [m]'s value or NULL, a removal never fails and yields a list for
    [m] without the key, and appending a new key, with room for the doubled
    arrays, yields a list for [m] extended with it. *)
Theorem arraylist_refines_map (l : t_list A) (m : gmap Z A) (key : Z) (d : A) :
  list_implements l m →
  list_lookup l key = Ok (m !! key) ∧
  (∃ l', list_remove l key = Ok l' ∧ list_implements l' (delete key m)) ∧
  (m !! key = None → 2 * list_length l ≤ alloc_limit →
   ∃ l', list_append l key d = Ok l' ∧ list_implements l' (<[key := d]> m)).
Proof.
  intros Hl. split_and!.
  - by apply list_implements_lookup.
  - by apply list_implements_remove.
  - intros. by apply list_implements_append.
Qed.
End refinement.

(** A list of capacity 2 holding the keys 7 and 4. *)
Definition sample_list : t_list bool :=
  Mk_list [Some 7; Some 4] [Some true; Some false] 2 2.

Lemma sample_list_implements : list_implements sample_list {[7 := true; 4 := false]}.
Proof.
  exists [(7, true); (4, false)]. split_and!.
  - unfold list_rep; simpl; split_and!; try (unfold alloc_limit; lia).
    intros [|[|i]] k d Hi; simpl in Hi; simplify_eq; done.
  - simpl. repeat constructor; set_solver.
  - by apply map_eq; intros i; vm_compute.
Qed.

Lemma arraylist_refines_map_witness :
  list_lookup sample_list 4 = Ok (Some false) ∧
  (∃ l', list_append sample_list 9 true = Ok l' ∧
         list_implements l' (<[9 := true]> {[7 := true; 4 := false]})).
Proof.
  destruct (arraylist_refines_map sample_list {[7 := true; 4 := false]} 9 true
              sample_list_implements) as (_ & _ & H).
  destruct (arraylist_refines_map sample_list {[7 := true; 4 := false]} 4 true
              sample_list_implements) as (H4 & _ & _).
  split; [exact H4|]. apply H; [reflexivity | vm_compute; discriminate].
Defined.
