(* ===== verification/Queue.v ===== *)
(** * The resizable ring queue (src/server/queue.c)

    [t_queue] is the struct of queue.h: a circular array with a read pointer,
    a length and a capacity, all [unsigned int]. [queue_rep q xs] says that
    [q] holds the elements [xs], first out first; the operations are shown to
    be those of a FIFO sequence, the resize being invisible. *)

From S2P Require Import Prelude.

Record t_queue (A : Type) := Mk_queue {
  q_data : list (option A);
  q_pointer : Z;
  q_len : Z;
  q_capacity : Z;
}.
Arguments Mk_queue {_} _ _ _ _.
Arguments q_data {_} _.
Arguments q_pointer {_} _.
Arguments q_len {_} _.
Arguments q_capacity {_} _.

Section operations.
Context {A : Type}.
Implicit Types (q : t_queue A).

Definition init_queue (capacity : Z) : res (t_queue A) :=
  _ ← assertion (0 <? capacity);
  data ← arr_alloc capacity;
  mret (Mk_queue data 0 0 capacity).

Definition queue_pop q : res (A * t_queue A) :=
  _ ← assertion (0 <? q_len q);
  tmp ← arr_get (q_data q) (q_pointer q);
  _ ← defined (negb (q_capacity q =? 0));
  mret (tmp, Mk_queue (q_data q) (u32 (q_pointer q + 1) mod q_capacity q)
                      (u32 (q_len q - 1)) (q_capacity q)).

Definition simple_push q (elt : A) : res (t_queue A) :=
  _ ← defined (negb (q_capacity q =? 0));
  data ← arr_set (q_data q) (u32 (q_pointer q + q_len q) mod q_capacity q) elt;
  mret (Mk_queue data (q_pointer q) (u32 (q_len q + 1)) (q_capacity q)).

Definition resize_queue q : res (t_queue A) :=
  let old_cap := q_capacity q in
  let old_p := q_pointer q in
  let new_cap := u32 (2 * old_cap) in
  let new_p := u32 (new_cap - old_cap + old_p) in
  data ← arr_realloc (q_data q) new_cap;
  data ← memcpy data new_p old_p (u32 (old_cap - old_p));
  mret (Mk_queue data new_p (q_len q) new_cap).

Definition queue_push q (elt : A) : res (t_queue A) :=
  q ← (if q_len q =? q_capacity q then resize_queue q else mret q);
  simple_push q elt.

Definition queue_is_empty q : bool := q_len q =? 0.

Definition queue_length q : Z := q_len q.

Definition free_queue q : res unit := assertion (queue_is_empty q).

(** ** Representation *)

Definition queue_rep q (xs : list A) : Prop :=
  0 < q_capacity q ≤ alloc_limit ∧
  0 ≤ q_pointer q < q_capacity q ∧
  q_len q = Z.of_nat (length xs) ∧
  q_len q ≤ q_capacity q ∧
  Z.of_nat (length (q_data q)) = q_capacity q ∧
  ∀ i x, xs !! i = Some x →
    q_data q !! Z.to_nat ((q_pointer q + Z.of_nat i) mod q_capacity q) = Some (Some x).

(** The operations of the specification. *)
Inductive queue_op :=
| Push (x : A)
| Pop.

(** A run of operations on the implementation, with the popped elements. *)
Fixpoint run_queue q (ops : list queue_op) : res (list A * t_queue A) :=
  match ops with
  | [] => mret ([], q)
  | Push x :: ops' => q' ← queue_push q x; run_queue q' ops'
  | Pop :: ops' =>
      '(x, q') ← queue_pop q;
      '(ys, q'') ← run_queue q' ops';
      mret (x :: ys, q'')
  end.

(** The same run on a sequence; [None] when it pops an empty sequence. *)
Fixpoint run_fifo (xs : list A) (ops : list queue_op) : option (list A * list A) :=
  match ops with
  | [] => Some ([], xs)
  | Push x :: ops' => run_fifo (xs ++ [x]) ops'
  | Pop :: ops' =>
      match xs with
      | [] => None
      | x :: xs' => '(ys, zs) ← run_fifo xs' ops'; Some (x :: ys, zs)
      end
  end.
End operations.
Arguments queue_op _ : clear implicits.

(** ** Lemmas *)

Section lemmas.
Context {A : Type}.
Implicit Types (q : t_queue A) (xs : list A).

Lemma init_queue_rep capacity :
  0 < capacity ≤ alloc_limit → ∃ q, @init_queue A capacity = Ok q ∧ queue_rep q [].
Proof.
  intros. unfold init_queue, assertion. guard_true (0 <? capacity). simpl.
  rewrite arr_alloc_ok by lia. simpl. eexists; split; [done|].
  unfold queue_rep; split_and!; simpl; rewrite ?length_replicate; try done; lia.
Qed.

Lemma queue_rep_len q xs : queue_rep q xs → queue_length q = Z.of_nat (length xs).
Proof. by intros (_ & _ & ? & _). Qed.

Lemma queue_rep_empty q xs : queue_rep q xs → queue_is_empty q = bool_decide (xs = []).
Proof.
  intros (_ & _ & Hlen & _). unfold queue_is_empty. rewrite Hlen.
  destruct xs as [|y xs]; [done|]. rewrite bool_decide_eq_false_2 by done.
  apply Z.eqb_neq. simpl. lia.
Qed.

Lemma queue_pop_rep q x xs :
  queue_rep q (x :: xs) → ∃ q', queue_pop q = Ok (x, q') ∧ queue_rep q' xs ∧
                                q_capacity q' = q_capacity q.
Proof.
  intros (Hcap & Hp & Hlen & Hle & Hd & Hx). unfold queue_pop, assertion, defined.
  simpl in Hlen. guard_true (0 <? q_len q). simpl.
  pose proof (Hx O x eq_refl) as H0.
  rewrite Z.add_0_r, Z.mod_small in H0 by lia.
  rewrite (arr_get_ok _ _ x) by (done || lia). simpl. guard_false (q_capacity q =? 0). simpl.
  rewrite !u32_small by (unfold UINT_MOD, alloc_limit in *; lia).
  eexists; split_and!; [done| |done]. unfold queue_rep; simpl; split_and!; try lia.
  - apply Z.mod_pos_bound; lia.
  - apply Z.mod_pos_bound; lia.
  - intros i y Hi. rewrite Zplus_mod_idemp_l.
    rewrite <- (Hx (S i) y Hi). do 3 f_equal. lia.
Qed.

Lemma queue_pop_empty q : queue_rep q [] → queue_pop q = Fail Assertion.
Proof.
  intros (_ & _ & Hlen & _). unfold queue_pop, assertion. simpl in Hlen.
  by guard_false (0 <? q_len q).
Qed.

Lemma simple_push_rep q xs x :
  queue_rep q xs → q_len q < q_capacity q →
  ∃ q', simple_push q x = Ok q' ∧ queue_rep q' (xs ++ [x]) ∧ q_capacity q' = q_capacity q.
Proof.
  intros (Hcap & Hp & Hlen & Hle & Hd & Hx) Hroom. unfold simple_push, defined.
  guard_false (q_capacity q =? 0). simpl.
  rewrite !u32_small by (unfold UINT_MOD, alloc_limit in *; lia).
  pose proof (Z.mod_pos_bound (q_pointer q + q_len q) (q_capacity q)) as Hb.
  rewrite arr_set_ok by lia. simpl. eexists; split_and!; [done| |done].
  unfold queue_rep; simpl; rewrite ?length_insert, ?length_app; simpl; split_and!; try lia.
  intros i y [Hi|[Hi Heq]]%lookup_app_Some.
  - assert (i < length xs)%nat by (by eapply lookup_lt_Some).
    rewrite list_lookup_insert_ne; [by apply Hx|].
    intros Heq. apply Z2Nat.inj in Heq; [|lia|by apply Z.mod_pos_bound; lia].
    assert (((q_pointer q + q_len q) - (q_pointer q + Z.of_nat i)) mod q_capacity q = 0)
      as Hm by (by rewrite Zminus_mod, Heq, Z.sub_diag).
    rewrite Z.mod_small in Hm by lia. lia.
  - apply list_lookup_singleton_Some in Heq as [? ->].
    replace (Z.of_nat i) with (q_len q) by lia.
    rewrite list_lookup_insert_eq; [done|]. lia.
Qed.

Lemma ring_index_split p i cap :
  0 ≤ p < cap → 0 ≤ i < cap →
  (p + i) mod cap = if decide (p + i < cap) then p + i else p + i - cap.
Proof.
  intros. case_decide; [by apply Z.mod_small; lia|].
  symmetry. apply Z.mod_unique with 1; lia.
Qed.

Lemma resize_queue_rep q xs :
  queue_rep q xs → q_len q = q_capacity q → 2 * q_capacity q ≤ alloc_limit →
  ∃ q', resize_queue q = Ok q' ∧ queue_rep q' xs ∧ q_capacity q' = 2 * q_capacity q.
Proof.
  intros (Hcap & Hp & Hlen & Hle & Hd & Hx) Hfull Hlim. unfold resize_queue.
  rewrite (u32_small (2 * _)) by (unfold UINT_MOD, alloc_limit in *; lia).
  rewrite (u32_small (2 * _ - _ + _)) by (unfold UINT_MOD, alloc_limit in *; lia).
  rewrite (u32_small (_ - _)) by (unfold UINT_MOD, alloc_limit in *; lia).
  rewrite arr_realloc_ok by lia. simpl.
  rewrite memcpy_disjoint by (rewrite ?length_app, ?length_replicate; lia). simpl.
  eexists; split_and!; [done| |done].
  unfold queue_rep; simpl; split_and!; try lia.
  - rewrite length_arr_move; rewrite ?length_app, ?length_replicate; lia.
  - intros i x Hi. assert (i < length xs)%nat by (by eapply lookup_lt_Some).
    pose proof (Hx i x Hi) as Hold.
    rewrite (ring_index_split (q_pointer q)) in Hold by lia.
    rewrite ring_index_split by lia.
    destruct (decide (q_pointer q + Z.of_nat i < q_capacity q)).
    + rewrite decide_True by lia.
      rewrite lookup_arr_move by (rewrite ?length_app, ?length_replicate; lia).
      rewrite decide_True by lia. rewrite lookup_app_l by lia.
      rewrite <- Hold. f_equal. lia.
    + rewrite decide_False by lia.
      rewrite lookup_arr_move by (rewrite ?length_app, ?length_replicate; lia).
      rewrite decide_False by lia. rewrite lookup_app_l by lia.
      rewrite <- Hold. f_equal. lia.
Qed.

(** A push into a ring with room keeps its capacity. *)
Lemma queue_push_room q xs x :
  queue_rep q xs → q_len q < q_capacity q →
  ∃ q', queue_push q x = Ok q' ∧ queue_rep q' (xs ++ [x]) ∧ q_capacity q' = q_capacity q.
Proof.
  intros Hq Hroom. unfold queue_push. guard_false (q_len q =? q_capacity q). simpl.
  by apply simple_push_rep.
Qed.

Lemma queue_push_rep q xs x :
  queue_rep q xs → 2 * Z.of_nat (length xs) ≤ alloc_limit →
  ∃ q', queue_push q x = Ok q' ∧ queue_rep q' (xs ++ [x]).
Proof.
  intros Hq Hlim. pose proof Hq as (Hcap & Hp & Hlen & Hle & Hd & Hx). unfold queue_push.
  destruct (Z.eqb_spec (q_len q) (q_capacity q)) as [Hfull|].
  - destruct (resize_queue_rep q xs Hq Hfull) as (q' & -> & Hq' & Hc); [lia|]. simpl.
    destruct (simple_push_rep q' xs x Hq') as (q'' & ? & ? & _); [|eauto].
    pose proof Hq' as (_ & _ & -> & _). lia.
  - simpl. destruct (simple_push_rep q xs x Hq) as (q'' & ? & ? & _); [lia|eauto].
Qed.

Lemma queue_push_safe X q xs x :
  queue_rep q xs → (alloc_limit < 2 * Z.of_nat (length xs) → X) →
  safe X (queue_push q x) (λ q', queue_rep q' (xs ++ [x])).
Proof.
  intros Hq HX. pose proof Hq as (Hcap & Hp & Hlen & Hle & Hd & Hx). unfold queue_push.
  destruct (Z.eqb_spec (q_len q) (q_capacity q)) as [Hfull|Hne].
  - destruct (decide (2 * q_capacity q ≤ alloc_limit)).
    + destruct (queue_push_rep q xs x Hq) as (q' & Hq' & ?); [lia|].
      unfold queue_push in Hq'. rewrite Hfull, Z.eqb_refl in Hq'. by rewrite Hq'.
    + unfold resize_queue. rewrite (u32_small (2 * _)) by (unfold UINT_MOD, alloc_limit in *; lia).
      rewrite arr_realloc_exhausted by lia. split; [done|]. apply HX. lia.
  - destruct (simple_push_rep q xs x Hq) as (q' & Hq' & ? & _); [lia|]. simpl. by rewrite Hq'.
Qed.

Lemma run_queue_rep q xs ops ys zs :
  queue_rep q xs → run_fifo xs ops = Some (ys, zs) →
  2 * Z.of_nat (length xs + length ops) ≤ alloc_limit →
  ∃ q', run_queue q ops = Ok (ys, q') ∧ queue_rep q' zs.
Proof.
  revert q xs ys zs. induction ops as [|[x|] ops IH]; intros q xs ys zs Hq Hrun Hlim; simpl in *.
  - simplify_eq. eauto.
  - destruct (queue_push_rep q xs x Hq) as (q' & -> & Hq'); [lia|]. simpl.
    eapply IH; [done..|]. rewrite length_app. simpl. lia.
  - destruct xs as [|x xs]; [done|].
    destruct (run_fifo xs ops) as [[ys' zs']|] eqn:Hr; [|done].
    injection Hrun as <- <-. simpl in *.
    destruct (queue_pop_rep q x xs Hq) as (q' & -> & Hq' & _). simpl.
    destruct (IH q' xs ys' zs' Hq' Hr) as (q'' & -> & ?); [lia|]. simpl. eauto.
Qed.
End lemmas.

(** C15: the queue of queue.c is a FIFO: starting from any state of the ring
    (pointer anywhere, possibly full), every sequence of pushes and pops that
    never pops an empty sequence runs without an assertion failure or an
    out-of-bounds access, growing the ring as needed, and pops exactly the
    elements the sequence does, in the same order. *)
Theorem queue_refines_fifo {A} (q : t_queue A) xs ops ys zs :
  queue_rep q xs → run_fifo xs ops = Some (ys, zs) →
  2 * Z.of_nat (length xs + length ops) ≤ alloc_limit →
  ∃ q', run_queue q ops = Ok (ys, q') ∧ queue_rep q' zs.
Proof. apply run_queue_rep. Qed.

(** A full ring of capacity 2 whose first element is in its last cell. *)
Definition sample_queue : t_queue Z := Mk_queue [Some 20; Some 10] 1 2 2.

Lemma sample_queue_rep : queue_rep sample_queue [10; 20].
Proof.
  unfold queue_rep; simpl; split_and!; try (unfold alloc_limit; lia).
  intros [|[|i]] x Hi; simpl in Hi; simplify_eq; reflexivity.
Qed.

Lemma queue_refines_fifo_witness :
  ∃ q', @run_queue Z sample_queue [Push 30; Pop; Push 40; Pop; Pop]
        = Ok ([10; 20; 30], q') ∧ queue_rep q' [40].
Proof.
  apply (@queue_refines_fifo Z sample_queue [10; 20]);
    [exact sample_queue_rep | reflexivity | vm_compute; discriminate].
Defined.

(** Growing the ring is invisible: on a full ring whose doubled array fits,
    [resize_queue] doubles the capacity and leaves the represented sequence
    unchanged, whatever the position of the pointer, and its [memcpy] never
    touches overlapping regions. *)
Theorem resize_queue_preserves {A} (q : t_queue A) xs :
  queue_rep q xs → q_len q = q_capacity q → 2 * q_capacity q ≤ alloc_limit →
  ∃ q', resize_queue q = Ok q' ∧ queue_rep q' xs ∧
        q_capacity q' = 2 * q_capacity q.
Proof. apply resize_queue_rep. Qed.

Lemma resize_queue_preserves_witness :
  ∃ q', @resize_queue Z sample_queue = Ok q' ∧ queue_rep q' [10; 20] ∧
        q_capacity q' = 2 * q_capacity sample_queue.
Proof.
  apply (resize_queue_preserves sample_queue [10; 20]);
    [exact sample_queue_rep | reflexivity | vm_compute; discriminate].
Defined.
