(* ===== verification/CMem.v ===== *)
(** * Heap blocks and C strings

    The programs allocate strings and records once, read them and free them;
    such a block never changes after it is filled. A pointer to a string is
    modelled by its address together with its contents ([cstr]), and the heap
    records which addresses are live: reading or freeing a block that is not
    live is undefined. Addresses are never reused. The string functions of
    the C library that the sources call are defined here too. *)

From S2P Require Import Prelude.

Abbreviation bytes := (list ascii).

Definition str (s : string) : bytes := String.list_ascii_of_string s.
Arguments str : simpl never.

Definition NUL : ascii := "000"%char.
Definition NEWLINE : ascii := "010"%char.
Definition SEMI : ascii := ";"%char.

(** ** The heap *)

Record heap := Mk_heap {
  h_live : gset positive;
  h_next : positive;
}.

Record cstr := Mk_cstr {
  c_addr : positive;
  c_txt : bytes;    (* the block without its final NUL *)
}.

Definition malloc : M heap positive := λ h,
  Done (h_next h) (Mk_heap ({[h_next h]} ∪ h_live h) (Pos.succ (h_next h))).

Definition is_live (a : positive) (h : heap) : bool := bool_decide (a ∈ h_live h).

Definition free (a : positive) : M heap unit := λ h,
  if is_live a h then Done tt (Mk_heap (h_live h ∖ {[a]}) (h_next h))
  else Failed Undefined.

(** Dereference the block at [a]. *)
Definition touch (a : positive) : M heap unit := λ h,
  if is_live a h then Done tt h else Failed Undefined.

Definition new_str (b : bytes) : M heap cstr :=
  a ← malloc; mret (Mk_cstr a b).

Definition free_str (s : cstr) : M heap unit := free (c_addr s).

(** The characters up to the first NUL. *)
Fixpoint c_str (b : bytes) : bytes :=
  match b with
  | [] => []
  | c :: b' => if bool_decide (c = NUL) then [] else c :: c_str b'
  end.

Definition load (s : cstr) : M heap bytes :=
  _ ← touch (c_addr s); mret (c_str (c_txt s)).

(** ** The string functions *)

Definition strlen (b : bytes) : Z := Z.of_nat (length (c_str b)).

(** [strcmp(a,b) == 0]. *)
Definition strcmp_eq (a b : bytes) : bool := bool_decide (c_str a = c_str b).

(** [strncmp(a,b,n) == 0]: compare at most [n] characters, stop after a NUL. *)
Fixpoint strncmp_eq (n : nat) (a b : bytes) : bool :=
  match n with
  | O => true
  | S n' =>
      let x := default NUL (head a) in
      let y := default NUL (head b) in
      if bool_decide (x = y)
      then if bool_decide (x = NUL) then true else strncmp_eq n' (tail a) (tail b)
      else false
  end.

Definition char_code (c : ascii) : Z := Z.of_N (N_of_ascii c).

Definition isspace (c : ascii) : bool :=
  let n := char_code c in (n =? 32) || ((9 <=? n) && (n <=? 13)).

Definition isdigit (c : ascii) : bool :=
  let n := char_code c in (48 <=? n) && (n <=? 57).

Fixpoint skip_space (b : bytes) : bytes :=
  match b with
  | c :: b' => if isspace c then skip_space b' else b
  | [] => []
  end.

Fixpoint digits_value (acc : Z) (b : bytes) : Z :=
  match b with
  | c :: b' => if isdigit c then digits_value (acc * 10 + (char_code c - 48)) b' else acc
  | [] => acc
  end.

Definition LONG_MAX : Z := 9223372036854775807.
Definition LONG_MIN : Z := -9223372036854775808.

(** [strtol(b, NULL, 10)]: a value out of range is clamped. *)
Definition strtol10 (b : bytes) : Z :=
  let b := skip_space (c_str b) in
  let '(neg, b) :=
    match b with
    | c :: b' => if bool_decide (c = "-"%char) then (true, b')
                 else if bool_decide (c = "+"%char) then (false, b') else (false, b)
    | [] => (false, [])
    end in
  let v := digits_value 0 b in
  Z.max LONG_MIN (Z.min LONG_MAX (if neg : bool then - v else v)).

(** [atoi] is [(int) strtol(nptr, NULL, 10)] in the GNU C library. *)
Definition atoi (b : bytes) : Z := to_int (strtol10 b).

(** Decimal output, as [printf("%d")]. *)
Definition digit (n : Z) : ascii := ascii_of_N (Z.to_N (48 + n)).

Fixpoint dec_digits (fuel : nat) (n : Z) (acc : bytes) : bytes :=
  match fuel with
  | O => acc
  | S fuel' =>
      let acc' := digit (n mod 10) :: acc in
      if n <? 10 then acc' else dec_digits fuel' (n / 10) acc'
  end.

Definition dec_nat (n : Z) : bytes := dec_digits (S (Z.to_nat (Z.log2 n))) n [].

Definition dec (n : Z) : bytes := if n <? 0 then "-"%char :: dec_nat (- n) else dec_nat n.

(** The contents of [n] cells of an array of characters. *)
Fixpoint slice_nat (a : list (option ascii)) (off : Z) (n : nat) : res bytes :=
  match n with
  | O => mret []
  | S n' => c ← arr_get a off; cs ← slice_nat a (off + 1) n'; mret (c :: cs)
  end.
Definition slice (a : list (option ascii)) (off n : Z) : res bytes :=
  slice_nat a off (Z.to_nat n).

(** ** Ownership

    [heap_own (Some L) h own]: the live blocks of the heap are exactly the
    addresses [own], pairwise different, and the set [L] of the others. An
    operation that turns [heap_own (Some L) h own] into [heap_own (Some L) h' own']
    for every [L] leaks nothing. [heap_ok h own] leaves the others open. *)
Definition heap_own (others : option (gset positive)) (h : heap) (own : list positive) : Prop :=
  (∀ a, a ∈ own → a ∈ h_live h) ∧ NoDup own ∧ (∀ a, a ∈ h_live h → (a < h_next h)%positive) ∧
  match others with
  | Some L => (∀ a, a ∈ own → a ∉ L) ∧ h_live h = list_to_set own ∪ L
  | None => True
  end.
Abbreviation heap_ok := (heap_own None).

(** No NUL inside the text: what [snprintf] builds from C strings. *)
Definition no_nul (b : bytes) : Prop := NUL ∉ b.

(** ** Lemmas *)

#[global] Instance heap_ok_proper L h : Proper ((≡ₚ) ==> iff) (heap_own L h).
Proof.
  intros o1 o2 Ho. unfold heap_own. rewrite Ho.
  assert (∀ a, a ∈ o1 ↔ a ∈ o2) as He by (intros a; by rewrite Ho).
  assert ((list_to_set o1 : gset positive) = list_to_set o2) as Hs by (apply set_eq; intros a; by rewrite !elem_of_list_to_set).
  destruct L; [rewrite Hs|]; naive_solver.
Qed.

Lemma heap_ok_perm {L} h o1 o2 : heap_own L h o1 → o1 ≡ₚ o2 → heap_own L h o2.
Proof. intros H Hp. by rewrite <- Hp. Qed.

Lemma heap_ok_live {L} h own a : heap_own L h own → a ∈ own → is_live a h = true.
Proof. intros [H _] ?. apply bool_decide_eq_true. auto. Qed.

Lemma heap_ok_weaken h o1 o2 : heap_ok h (o1 ++ o2) → heap_ok h o2.
Proof.
  intros (H1 & [_ [_ H2]]%NoDup_app & H3 & _). split_and!; [|done..].
  intros. apply H1. set_solver.
Qed.

Section heap_rules.
Context (E : stop heap → Prop) {L : option (gset positive)}.

Lemma wp_malloc h own (Q : positive → heap → Prop) :
  heap_own L h own → (∀ a h', heap_own L h' (a :: own) → Q a h') → wp E malloc Q h.
Proof.
  intros (H1 & H2 & H3 & H4) HQ. apply HQ. split_and!; simpl.
  - set_solver.
  - constructor; [|done]. intros Hin%H1%H3. lia.
  - intros a. rewrite elem_of_union, elem_of_singleton. intros [->|?%H3]; lia.
  - destruct L as [L'|]; [|done]. destruct H4 as [H4 H5]. split; [|set_solver].
    intros a. rewrite elem_of_cons. intros [->|?]; [|by apply H4]. intros Hin.
    assert (h_next h ∈ h_live h) as ?%H3 by set_solver. lia.
Qed.

Lemma wp_free h own a (Q : unit → heap → Prop) :
  heap_own L h (a :: own) → (∀ h', heap_own L h' own → Q tt h') → wp E (free a) Q h.
Proof.
  intros Hok HQ. unfold wp, free. rewrite (heap_ok_live (L := L) h (a :: own)) by (done || set_solver).
  destruct Hok as (H1 & [? H2]%NoDup_cons & H3 & H4).
  apply HQ. split_and!; simpl; [set_solver|done|set_solver|].
  destruct L as [L'|]; [|done]. destruct H4 as [H4 ->]. set_solver.
Qed.

Lemma wp_touch h own a (Q : unit → heap → Prop) :
  heap_own L h own → a ∈ own → Q tt h → wp E (touch a) Q h.
Proof. intros Hok Ha ?. unfold wp, touch. by rewrite (heap_ok_live (L := L) h own). Qed.

Lemma wp_new_str h own b (Q : cstr → heap → Prop) :
  heap_own L h own →
  (∀ a h', heap_own L h' (a :: own) → Q (Mk_cstr a b) h') → wp E (new_str b) Q h.
Proof.
  intros Hok HQ. apply wp_bind. eapply wp_malloc; [done|]. intros. by apply HQ.
Qed.

Lemma wp_load h own s (Q : bytes → heap → Prop) :
  heap_own L h own → c_addr s ∈ own → Q (c_str (c_txt s)) h → wp E (load s) Q h.
Proof. intros. apply wp_bind. by eapply wp_touch. Qed.
End heap_rules.

Lemma c_str_no_nul b : no_nul b → c_str b = b.
Proof.
  unfold no_nul. induction b as [|c b IH]; [done|].
  rewrite not_elem_of_cons. intros [Hc Hb]. simpl.
  rewrite bool_decide_eq_false_2 by done. by rewrite IH.
Qed.

Lemma no_nul_c_str b : no_nul (c_str b).
Proof.
  unfold no_nul. induction b as [|c b IH]; simpl; [set_solver|].
  case_bool_decide; set_solver.
Qed.

Lemma c_str_idem b : c_str (c_str b) = c_str b.
Proof. apply c_str_no_nul, no_nul_c_str. Qed.

Lemma strcmp_eq_c_str a b : strcmp_eq (c_str a) (c_str b) = strcmp_eq a b.
Proof. unfold strcmp_eq. by rewrite !c_str_idem. Qed.

Lemma length_c_str b : (length (c_str b) ≤ length b)%nat.
Proof. induction b as [|c b IH]; simpl; [lia|]. case_bool_decide; simpl; lia. Qed.

(** [strncmp] with the size of the first block compares whole strings. *)
Lemma strncmp_eq_full a b : strncmp_eq (S (length a)) a b = strcmp_eq a b.
Proof.
  unfold strcmp_eq. revert b. induction a as [|x a IH]; intros b.
  - simpl. destruct b as [|y b]; [done|]. simpl.
    destruct (decide (NUL = y)) as [<-|Hy]; [done|].
    rewrite (bool_decide_eq_false_2 (NUL = y)), (bool_decide_eq_false_2 (y = NUL)) by done.
    done.
  - specialize (IH (tail b)). simpl in IH |- *.
    destruct b as [|y b]; simpl.
    { destruct (decide (x = NUL)) as [->|Hn]; [done|].
      rewrite (bool_decide_eq_false_2 (x = NUL)) by done. done. }
    simpl in IH.
    destruct (decide (x = y)) as [<-|Hxy].
    + rewrite (bool_decide_eq_true_2 (x = x)) by done.
      destruct (decide (x = NUL)) as [->|Hn]; [done|].
      rewrite (bool_decide_eq_false_2 (x = NUL)) by done. rewrite IH.
      apply bool_decide_ext. split; congruence.
    + rewrite (bool_decide_eq_false_2 (x = y)) by done. symmetry.
      apply bool_decide_eq_false_2. intros Heq.
      destruct (bool_decide (x = NUL)) eqn:Hx, (bool_decide (y = NUL)) eqn:Hy; try congruence.
      apply bool_decide_eq_true in Hx, Hy. congruence.
Qed.

Lemma slice_ok a off bs :
  0 ≤ off →
  (∀ i c, bs !! i = Some c → a !! (Z.to_nat off + i)%nat = Some (Some c)) →
  slice_nat a off (length bs) = Ok bs.
Proof.
  revert off. induction bs as [|c bs IH]; intros off Hoff Hbs; simpl; [done|].
  rewrite (arr_get_ok _ _ c); [|done|rewrite <- (Hbs 0%nat c eq_refl); f_equal; lia]. simpl.
  rewrite IH; [done|lia|]. intros i d Hi. rewrite <- (Hbs (S i) d Hi). f_equal. lia.
Qed.

(** ** Decimal numbers *)

Lemma char_code_digit d : 0 ≤ d < 10 → char_code (digit d) = 48 + d.
Proof.
  intros. unfold char_code, digit. rewrite N_ascii_embedding by lia. lia.
Qed.

Lemma isdigit_digit d : 0 ≤ d < 10 → isdigit (digit d) = true.
Proof.
  intros. unfold isdigit. rewrite char_code_digit by done.
  by guard_true ((48 <=? 48 + d) && (48 + d <=? 57)).
Qed.

(** The digits of [n], least significant part appended to [acc]. *)
Lemma digits_value_dec fuel n acc v :
  0 ≤ n < 2 ^ Z.of_nat fuel →
  ∃ p, 0 < p ∧ digits_value v (dec_digits fuel n acc) = digits_value (v * p + n) acc ∧
       (v = 0 → digits_value v (dec_digits fuel n acc) = digits_value n acc).
Proof.
  revert n acc. induction fuel as [|fuel IH]; intros n acc Hn.
  - assert (n = 0) as -> by (simpl in Hn; lia). exists 1. simpl.
    split_and!; [lia|f_equal; lia|by intros ->].
  - simpl. pose proof (Z.mod_pos_bound n 10 ltac:(lia)) as Hm.
    pose proof (Z.div_mod n 10 ltac:(lia)) as Hdm.
    destruct (Z.ltb_spec n 10).
    + exists 10. simpl. rewrite isdigit_digit, char_code_digit by lia.
      rewrite (Z.mod_small n 10) in * by lia.
      split_and!; [lia|f_equal; lia|intros ->; f_equal; lia].
    + destruct (IH (n / 10) (digit (n mod 10) :: acc)) as (p & Hp & Hv & _).
      { rewrite Nat2Z.inj_succ, Z.pow_succ_r in Hn by lia.
        split; [apply Z.div_pos; lia|]. apply Z.div_lt_upper_bound; lia. }
      exists (p * 10). rewrite Hv. simpl. rewrite isdigit_digit, char_code_digit by lia.
      split_and!; [lia|f_equal; lia|intros ->; f_equal; lia].
Qed.

Lemma dec_digits_cons fuel n acc :
  0 ≤ n → fuel ≠ O → ∃ d tl, 0 ≤ d < 10 ∧ dec_digits fuel n acc = digit d :: tl.
Proof.
  revert n acc. induction fuel as [|fuel IH]; intros n acc Hn Hf; [done|]. simpl.
  pose proof (Z.mod_pos_bound n 10 ltac:(lia)).
  case_match; [eauto|]. destruct fuel; [simpl; eauto|].
  apply IH; [apply Z.div_pos; lia|done].
Qed.

Lemma digits_value_dec_nat n : 0 ≤ n → digits_value 0 (dec_nat n) = n.
Proof.
  intros Hn. unfold dec_nat.
  destruct (digits_value_dec (S (Z.to_nat (Z.log2 n))) n [] 0) as (p & _ & _ & Hv).
  - rewrite Nat2Z.inj_succ, Z2Nat.id by apply Z.log2_nonneg.
    destruct (decide (n = 0)) as [->|]; [simpl; lia|].
    pose proof (Z.log2_spec n ltac:(lia)). lia.
  - by apply Hv.
Qed.

Lemma dec_digits_chars fuel n acc c :
  0 ≤ n → c ∈ dec_digits fuel n acc → c ∈ acc ∨ isdigit c = true.
Proof.
  revert n acc. induction fuel as [|fuel IH]; intros n acc Hn Hc; simpl in Hc; [by left|].
  assert (c ∈ digit (n mod 10) :: acc → c ∈ acc ∨ isdigit c = true) as Hcase.
  { intros [->|?]%elem_of_cons; [right|by left]. apply isdigit_digit, Z.mod_pos_bound. lia. }
  case_match; [by apply Hcase|]. apply IH in Hc as [?|?]; [by apply Hcase|by right|].
  apply Z.div_pos; lia.
Qed.

(** A decimal number is made of digits and a sign. *)
Lemma dec_chars n c : c ∈ dec n → c = "-"%char ∨ isdigit c = true.
Proof.
  unfold dec, dec_nat. intros Hc. destruct (Z.ltb_spec n 0).
  - apply elem_of_cons in Hc as [->|Hc]; [by left|].
    apply dec_digits_chars in Hc as [?%elem_of_nil|?]; [done|by right|lia].
  - apply dec_digits_chars in Hc as [?%elem_of_nil|?]; [done|by right|lia].
Qed.

Lemma no_nul_dec n : no_nul (dec n).
Proof. intros Hc. by destruct (dec_chars n _ Hc). Qed.

Lemma no_semi_dec n : SEMI ∉ dec n.
Proof. intros Hc. by destruct (dec_chars n _ Hc). Qed.

Lemma skip_space_digit d tl : 0 ≤ d < 10 → skip_space (digit d :: tl) = digit d :: tl.
Proof.
  intros. simpl. unfold isspace. rewrite char_code_digit by done.
  guard_false (48 + d =? 32). simpl. by guard_false ((9 <=? 48 + d) && (48 + d <=? 13)).
Qed.

(** Printing an [int] in decimal and reading it back with [atoi]. *)
Lemma atoi_dec n : INT_MIN ≤ n ≤ INT_MAX → atoi (dec n) = n.
Proof.
  intros Hn. unfold atoi, strtol10. rewrite c_str_no_nul by apply no_nul_dec.
  assert (∀ m, 0 ≤ m → ∃ d tl, 0 ≤ d < 10 ∧ dec_nat m = digit d :: tl) as Hcons.
  { intros. unfold dec_nat. by apply dec_digits_cons. }
  unfold dec. destruct (Z.ltb_spec n 0).
  - simpl. rewrite digits_value_dec_nat by lia. unfold to_int, LONG_MIN, LONG_MAX, UINT_MOD, INT_MIN, INT_MAX in *.
    replace (Z.max _ _) with n by lia.
    replace (n mod 4294967296) with (n + 4294967296) by (apply Z.mod_unique with (-1); lia).
    guard_false (n + 4294967296 <=? 2147483647). lia.
  - destruct (Hcons n) as (d & tl & Hd & Heq); [done|]. rewrite Heq, skip_space_digit by done.
    assert (∀ c : ascii, char_code c < 48 → digit d ≠ c) as Hne.
    { intros c Hc <-. rewrite char_code_digit in Hc by done. lia. }
    rewrite (bool_decide_eq_false_2 (digit d = "-"%char)) by (apply Hne; done).
    rewrite (bool_decide_eq_false_2 (digit d = "+"%char)) by (apply Hne; done).
    rewrite <- Heq, digits_value_dec_nat by done.
    unfold LONG_MIN, LONG_MAX, INT_MAX in *. replace (Z.max _ _) with n by lia.
    apply to_int_small. unfold INT_MAX. lia.
Qed.
