(* ===== verification/ReadBuf.v ===== *)
(** * The read buffer (src/server/readbuf.c)

    [readbuf_rep b bs] says that the buffer holds the bytes [bs]. The
    protocol of readbuf.h is prepare_read, an operating-system read into the
    returned region ([os_fill]), have_read, then have_taken. [have_taken]
    moves the remaining bytes down with [memcpy], which is undefined when more
    bytes remain than were taken: the regions then overlap. *)

From S2P Require Import Prelude CMem.

Record t_readbuf := Mk_readbuf {
  rb_data : list (option ascii);
  rb_len : Z;
  rb_capacity : Z;
}.

Definition init_readbuf (capacity : Z) : res t_readbuf :=
  _ ← assertion (0 <? capacity);
  data ← arr_alloc capacity;
  mret (Mk_readbuf data 0 capacity).

Definition resize_readbuf (b : t_readbuf) (newcapacity : Z) : res t_readbuf :=
  data ← arr_realloc (rb_data b) newcapacity;
  mret (Mk_readbuf data (rb_len b) newcapacity).

(** The second result is the offset of the returned pointer in [rb_data]. *)
Definition prepare_read (b : t_readbuf) (size : Z) : res (t_readbuf * Z) :=
  b ← (if rb_capacity b <? u64 (rb_len b + size)
       then resize_readbuf b (u64 (u64 (rb_capacity b + size) * 2))
       else mret b);
  mret (b, rb_len b).

Definition have_read (b : t_readbuf) (size : Z) : res t_readbuf :=
  _ ← assertion (u64 (rb_len b + size) <=? rb_capacity b);
  mret (Mk_readbuf (rb_data b) (u64 (rb_len b + size)) (rb_capacity b)).

Definition have_taken (b : t_readbuf) (size : Z) : res t_readbuf :=
  _ ← assertion (size <=? rb_len b);
  data ← memcpy (rb_data b) 0 size (u64 (rb_len b - size));
  mret (Mk_readbuf data (u64 (rb_len b - size)) (rb_capacity b)).

Definition clear_readbuf (b : t_readbuf) : t_readbuf :=
  Mk_readbuf (rb_data b) 0 (rb_capacity b).

(** What the operating system does to the buffer when it delivers [cs] at the
    pointer [prepare_read] returned. *)
Definition os_fill (b : t_readbuf) (off : Z) (cs : bytes) : res t_readbuf :=
  _ ← defined ((0 <=? off) && (off + Z.of_nat (length cs) <=? Z.of_nat (length (rb_data b))));
  let n := Z.to_nat off in
  mret (Mk_readbuf (take n (rb_data b) ++ (Some <$> cs) ++ drop (n + length cs) (rb_data b))
                   (rb_len b) (rb_capacity b)).

(** ** Representation *)

Definition readbuf_rep (b : t_readbuf) (bs : bytes) : Prop :=
  0 < rb_capacity b ≤ alloc_limit ∧
  rb_len b = Z.of_nat (length bs) ∧
  rb_len b ≤ rb_capacity b ∧
  Z.of_nat (length (rb_data b)) = rb_capacity b ∧
  ∀ i c, bs !! i = Some c → rb_data b !! i = Some (Some c).

(** ** Lemmas *)

Lemma readbuf_bounds b bs :
  readbuf_rep b bs →
  0 ≤ rb_len b ≤ rb_capacity b ∧ rb_capacity b ≤ alloc_limit ∧
  (length bs ≤ length (rb_data b))%nat.
Proof. unfold readbuf_rep. lia. Qed.

Lemma init_readbuf_rep capacity :
  0 < capacity ≤ alloc_limit → ∃ b, init_readbuf capacity = Ok b ∧ readbuf_rep b [].
Proof.
  intros. unfold init_readbuf, assertion. guard_true (0 <? capacity). simpl.
  rewrite arr_alloc_ok by lia. simpl. eexists; split; [done|].
  unfold readbuf_rep; simpl; rewrite length_replicate; split_and!; try done; lia.
Qed.

Lemma prepare_read_safe X b bs size :
  readbuf_rep b bs → 0 ≤ size ≤ alloc_limit →
  (alloc_limit < (rb_capacity b + size) * 2 → X) →
  safe X (prepare_read b size) (λ '(b', off),
    readbuf_rep b' bs ∧ off = Z.of_nat (length bs) ∧ off + size ≤ rb_capacity b').
Proof.
  intros (Hc & Hlen & Hle & Hd & Hbs) Hsz HX. unfold prepare_read.
  rewrite (u64_small (rb_len b + size)) by (unfold SIZE_MOD, alloc_limit in *; lia).
  rewrite (u64_small (rb_capacity b + size)) by (unfold SIZE_MOD, alloc_limit in *; lia).
  rewrite u64_small by (unfold SIZE_MOD, alloc_limit in *; lia).
  destruct (Z.ltb_spec (rb_capacity b) (rb_len b + size)).
  - apply safe_bind. unfold resize_readbuf. apply safe_bind, arr_realloc_safe; [lia|done|].
    intros Hlim. simpl. unfold readbuf_rep. simpl.
    rewrite length_app, length_replicate. split_and!; try lia.
    intros i c Hi. rewrite lookup_app_l; [by apply Hbs|].
    apply lookup_lt_Some in Hi. lia.
  - simpl. unfold readbuf_rep. split_and!; done || lia.
Qed.

(** Reading [cs] into the prepared region appends it to the buffer. *)
Lemma fill_have_read_rep b bs cs :
  readbuf_rep b bs → Z.of_nat (length bs + length cs) ≤ rb_capacity b →
  ∃ b1 b2, os_fill b (rb_len b) cs = Ok b1 ∧ have_read b1 (Z.of_nat (length cs)) = Ok b2 ∧
           readbuf_rep b2 (bs ++ cs).
Proof.
  intros (Hc & Hlen & Hle & Hd & Hbs) Hfit. unfold os_fill, defined.
  guard_true ((0 <=? rb_len b)
    && (rb_len b + Z.of_nat (length cs) <=? Z.of_nat (length (rb_data b)))). simpl.
  eexists _, _. split_and!; [done| |].
  - unfold have_read, assertion; simpl.
    rewrite u64_small by (unfold SIZE_MOD, alloc_limit in *; lia).
    guard_true (rb_len b + Z.of_nat (length cs) <=? rb_capacity b). simpl. done.
  - unfold readbuf_rep; simpl.
    rewrite !length_app, length_take, length_fmap, length_drop. split_and!; try lia.
    intros i c [Hi|[Hi Hcs]]%lookup_app_Some.
    + assert (i < length bs)%nat by (by eapply lookup_lt_Some).
      rewrite lookup_app_l by (rewrite length_take; lia).
      rewrite lookup_take_lt by lia. by apply Hbs.
    + assert (i - length bs < length cs)%nat by (by eapply lookup_lt_Some).
      rewrite lookup_app_r by (rewrite length_take; lia).
      rewrite length_take, Nat.min_l by lia.
      rewrite lookup_app_l by (rewrite length_fmap; lia).
      rewrite list_lookup_fmap. rewrite <- Hcs || idtac.
      replace (i - Z.to_nat (rb_len b))%nat with (i - length bs)%nat by lia. by rewrite Hcs.
Qed.

(** Taking [size] bytes: undefined when more remain, except when none is taken
    and none remains; otherwise the rest is kept. *)
Definition taken_overlaps (size len : Z) : bool := size <? len - size.

Lemma have_taken_rep b bs size :
  readbuf_rep b bs → 0 < size ≤ rb_len b →
  have_taken b size = Fail Overlap ∧ taken_overlaps size (rb_len b) = true ∨
  ∃ b', have_taken b size = Ok b' ∧ readbuf_rep b' (drop (Z.to_nat size) bs) ∧
        taken_overlaps size (rb_len b) = false.
Proof.
  intros (Hc & Hlen & Hle & Hd & Hbs) Hsz. unfold have_taken, assertion, taken_overlaps.
  guard_true (size <=? rb_len b). simpl.
  rewrite !u64_small by (unfold SIZE_MOD, alloc_limit in *; lia).
  destruct (Z.ltb_spec size (rb_len b - size)) as [Hov|Hok].
  { left. rewrite memcpy_overlap by lia. done. }
  right. rewrite memcpy_disjoint by lia. simpl. eexists; split; [done|]. split; [|done].
  unfold readbuf_rep; simpl. rewrite length_arr_move, length_drop by lia.
  split_and!; try lia. intros i c Hi. rewrite lookup_drop in Hi.
  assert (Z.to_nat size + i < length bs)%nat by (by eapply lookup_lt_Some).
  rewrite lookup_arr_move by lia. rewrite decide_True by lia.
  rewrite <- (Hbs _ _ Hi). f_equal. lia.
Qed.

(** C13: a cycle of the read buffer: prepare_read, an operating-system read of
    [cs] into the returned region, have_read, and have_taken of [n] > 0 bytes.
    When at most [n] bytes remain, nothing fails and the buffer holds what it
    held followed by [cs], without its first [n] bytes. When more remain, the
    [memcpy] of have_taken is on overlapping regions, which is undefined. The
    buffer can grow by doubling. *)
Theorem readbuf_cycle b bs size cs n :
  readbuf_rep b bs → 0 ≤ size → (rb_capacity b + size) * 2 ≤ alloc_limit →
  Z.of_nat (length cs) ≤ size → 0 < n ≤ Z.of_nat (length bs + length cs) →
  let run := ('(b1, off) ← prepare_read b size;
              b2 ← os_fill b1 off cs;
              b3 ← have_read b2 (Z.of_nat (length cs));
              have_taken b3 n) in
  let rest := drop (Z.to_nat n) (bs ++ cs) in
  if Z.of_nat (length rest) <=? n then ∃ b4, run = Ok b4 ∧ readbuf_rep b4 rest
  else run = Fail Overlap.
Proof.
  intros Hb Hsz Hlim Hcs Hn run rest. pose proof Hb as (Hcap & _).
  assert (safe False (prepare_read b size) (λ '(b', off),
    readbuf_rep b' bs ∧ off = Z.of_nat (length bs) ∧ off + size ≤ rb_capacity b')) as Hprep.
  { apply prepare_read_safe; [done|unfold alloc_limit in *; lia|lia]. }
  apply safe_total in Hprep as ([b1 off] & Hp & Hb1 & -> & Hfit).
  destruct (fill_have_read_rep b1 bs cs Hb1) as (b2 & b3 & Hf & Hr & Hb3); [lia|].
  pose proof Hb1 as (_ & Hlen & _). rewrite Hlen in Hf.
  pose proof Hb3 as (_ & Hlen3 & _). rewrite length_app in Hlen3.
  assert (run = have_taken b3 n) as -> by (unfold run, mbind, res_bind; by rewrite Hp, Hf, Hr).
  unfold rest. rewrite length_drop, length_app.
  destruct (have_taken_rep b3 (bs ++ cs) n Hb3) as [[-> Ho]|(b4 & -> & Hb4 & Ho)]; [lia|..]; unfold taken_overlaps in Ho; bool_to_prop.
  - destruct (Z.leb_spec (Z.of_nat (length bs + length cs - Z.to_nat n)) n); [lia|done].
  - destruct (Z.leb_spec (Z.of_nat (length bs + length cs - Z.to_nat n)) n); [by exists b4|lia].
Qed.

Definition sample_readbuf : t_readbuf := Mk_readbuf [Some "a"%char; None] 1 2.

Lemma sample_readbuf_rep : readbuf_rep sample_readbuf (str "a").
Proof.
  unfold readbuf_rep; simpl; split_and!; try (unfold alloc_limit; lia).
  intros [|i] c Hi; simpl in Hi; simplify_eq; done.
Qed.

(** Four bytes, of which two or one are taken. *)
Lemma readbuf_cycle_witness :
  let run n := ('(b1, off) ← prepare_read sample_readbuf 4;
                b2 ← os_fill b1 off (str "bcd");
                b3 ← have_read b2 (Z.of_nat (length (str "bcd")));
                have_taken b3 n) in
  (∃ b4, run 2 = Ok b4 ∧ readbuf_rep b4 (str "cd")) ∧ run 1 = Fail Overlap.
Proof.
  split.
  - apply (readbuf_cycle sample_readbuf (str "a") 4 (str "bcd") 2); [exact sample_readbuf_rep | by_computation .. ].
  - apply (readbuf_cycle sample_readbuf (str "a") 4 (str "bcd") 1); [exact sample_readbuf_rep | by_computation .. ].
Defined.
