(* ===== verification/WriteBuf.v ===== *)
(** * The write buffer (src/server/writebuf.c)

    A current message, the position reached in it, a flag between
    prepare_write and have_written, and a queue of further messages. The
    buffer owns the message blocks: have_written frees a message when it is
    finished. [writebuf_rep b ms] says that the messages [ms] are still to be
    sent, the first one from [w_pointer]; [pending] is the byte stream this
    leaves. *)

From S2P Require Import Prelude CMem Queue.

Record t_writebuf := Mk_writebuf {
  w_data : option cstr;         (* None is NULL *)
  w_len : Z;
  w_pointer : Z;
  w_is_writing : bool;
  w_queue : t_queue cstr;
}.

Definition init_writebuf (capacity : Z) : res t_writebuf :=
  q ← init_queue (u32 capacity);
  mret (Mk_writebuf None 0 0 false q).

Definition can_write (b : t_writebuf) : bool := negb (w_is_writing b).

Definition has_write_data (b : t_writebuf) : bool :=
  match w_data b with Some _ => true | None => false end.

(** The results are the buffer, the message with the offset of the returned
    pointer in it, and the value stored in [*size]. *)
Definition prepare_write (b : t_writebuf) : res (t_writebuf * (cstr * Z) * Z) :=
  _ ← assertion (can_write b);
  _ ← assertion (has_write_data b);
  size ← int_op (w_len b - w_pointer b);
  match w_data b with
  | Some m =>
      mret (Mk_writebuf (w_data b) (w_len b) (w_pointer b) true (w_queue b),
            (m, w_pointer b), size)
  | None => Fail Undefined
  end.

Definition have_written (b : t_writebuf) (size : Z) : M heap t_writebuf :=
  _ ← lift (assertion (w_is_writing b));
  p ← lift (int_op (w_pointer b + size));
  _ ← lift (assertion (p <=? w_len b));
  if p <? w_len b then
    mret (Mk_writebuf (w_data b) (w_len b) p false (w_queue b))
  else
    _ ← (match w_data b with Some m => free_str m | None => mret tt end);
    if negb (queue_is_empty (w_queue b)) then
      '(m, q) ← lift (queue_pop (w_queue b));
      txt ← load m;
      mret (Mk_writebuf (Some m) (to_int (strlen txt)) 0 false q)
    else
      mret (Mk_writebuf None 0 0 false (w_queue b)).

Definition push_write_data (b : t_writebuf) (data : cstr) : M heap t_writebuf :=
  if has_write_data b then
    q ← lift (queue_push (w_queue b) data);
    mret (Mk_writebuf (w_data b) (w_len b) (w_pointer b) (w_is_writing b) q)
  else
    txt ← load data;
    mret (Mk_writebuf (Some data) (to_int (strlen txt)) 0 (w_is_writing b) (w_queue b)).

(** The loop of free_writebuf over the queued messages. *)
Fixpoint free_queued (q : t_queue cstr) (n : nat) : M heap (t_queue cstr) :=
  match n with
  | O => mret q
  | S n' =>
      if negb (queue_is_empty q) then
        '(m, q') ← lift (queue_pop q);
        _ ← free_str m;
        free_queued q' n'
      else mret q
  end.

Definition free_writebuf (b : t_writebuf) : M heap unit :=
  _ ← (match w_data b with Some m => free_str m | None => mret tt end);
  q ← free_queued (w_queue b) (Z.to_nat (q_len (w_queue b)));
  lift (free_queue q).

(** ** Representation *)

(** A message as [snprintf] leaves it in its block. *)
Definition message (m : cstr) : Prop :=
  no_nul (c_txt m) ∧ Z.of_nat (length (c_txt m)) ≤ INT_MAX.

#[global] Instance message_dec m : Decision (message m).
Proof. unfold message, no_nul. apply _. Defined.

Definition writebuf_rep (b : t_writebuf) (ms : list cstr) : Prop :=
  Forall message ms ∧
  match ms with
  | [] => w_data b = None ∧ w_len b = 0 ∧ w_pointer b = 0 ∧ queue_rep (w_queue b) []
  | m :: ms' =>
      w_data b = Some m ∧ w_len b = Z.of_nat (length (c_txt m)) ∧
      0 ≤ w_pointer b ≤ w_len b ∧ queue_rep (w_queue b) ms'
  end.

Definition pending (b : t_writebuf) (ms : list cstr) : bytes :=
  drop (Z.to_nat (w_pointer b)) (concat (c_txt <$> ms)).

(** A use of the buffer: a message is pushed, or the operating system accepts
    [k] of the bytes that prepare_write offers. *)
Inductive wb_op :=
| WPush (m : cstr)
| WWrite (k : Z).

(** Run [ops]; the result holds the bytes handed to the operating system. A
    write is skipped when there is nothing to write. *)
Fixpoint run_writebuf (b : t_writebuf) (ops : list wb_op)
    : M heap (bytes * t_writebuf) :=
  match ops with
  | [] => mret ([], b)
  | WPush m :: ops' => b' ← push_write_data b m; run_writebuf b' ops'
  | WWrite k :: ops' =>
      if has_write_data b then
        '(b1, (m, off), size) ← lift (prepare_write b);
        txt ← load m;
        let k := Z.max 0 (Z.min k size) in
        b2 ← have_written b1 k;
        '(out, b3) ← run_writebuf b2 ops';
        mret (take (Z.to_nat k) (drop (Z.to_nat off) txt) ++ out, b3)
      else run_writebuf b ops'
  end.

Definition pushed (ops : list wb_op) : list cstr :=
  omap (λ op, match op with WPush m => Some m | WWrite _ => None end) ops.

(** ** Lemmas *)

Lemma init_writebuf_rep capacity :
  0 < capacity ≤ alloc_limit → ∃ b, init_writebuf capacity = Ok b ∧ writebuf_rep b [] ∧
                                    w_is_writing b = false.
Proof.
  intros. unfold init_writebuf.
  rewrite u32_small by (unfold UINT_MOD, alloc_limit in *; lia).
  destruct (@init_queue_rep cstr capacity) as (q & -> & Hq); [done|]. simpl.
  eexists; split; [done|]. done.
Qed.

Lemma message_strlen m : message m → to_int (strlen (c_str (c_txt m))) = Z.of_nat (length (c_txt m)).
Proof.
  intros [Hn Hl]. unfold strlen. rewrite c_str_idem, c_str_no_nul by done.
  apply to_int_small. lia.
Qed.

Lemma writebuf_has_data b ms : writebuf_rep b ms → has_write_data b = bool_decide (ms ≠ []).
Proof. unfold has_write_data. destruct ms; intros (_ & -> & _); done. Qed.

Lemma prepare_write_rep b m ms :
  writebuf_rep b (m :: ms) → w_is_writing b = false →
  ∃ b', prepare_write b = Ok (b', (m, w_pointer b), Z.of_nat (length (c_txt m)) - w_pointer b) ∧
        writebuf_rep b' (m :: ms) ∧ w_is_writing b' = true ∧ w_pointer b' = w_pointer b.
Proof.
  intros (Hms & Hd & Hl & Hp & Hq) Hw. unfold prepare_write, assertion, can_write.
  rewrite Hw. simpl. unfold has_write_data. rewrite Hd. simpl.
  apply Forall_cons in Hms as Hm. destruct Hm as [[Hn Hm] _].
  rewrite int_op_ok by (unfold INT_MIN, INT_MAX in *; lia). simpl. rewrite Hl.
  eexists; split; [done|]. unfold writebuf_rep. simpl. rewrite Hl in Hp. done.
Qed.

Section rules.
Context (E : stop heap → Prop) {L : option (gset positive)}.

(** have_written of [k] bytes consumes exactly [k] bytes of the stream; when
    it finishes the current message it frees its block, and no other. *)
Lemma wp_have_written h own b m ms k (Q : t_writebuf → heap → Prop) :
  heap_own L h ((c_addr <$> m :: ms) ++ own) →
  writebuf_rep b (m :: ms) → w_is_writing b = true →
  0 ≤ k ≤ Z.of_nat (length (c_txt m)) - w_pointer b →
  (∀ b' h' ms', ms' = m :: ms ∨ ms' = ms →
     heap_own L h' ((c_addr <$> ms') ++ own) → writebuf_rep b' ms' →
     w_is_writing b' = false →
     pending b' ms' = drop (Z.to_nat k) (pending b (m :: ms)) → Q b' h') →
  wp E (have_written b k) Q h.
Proof.
  intros Hok (Hms & Hd & Hl & Hp & Hq) Hw Hk HQ. unfold have_written, assertion.
  rewrite Hw. apply wp_bind, wp_lift. simpl.
  apply Forall_cons in Hms as Hm. destruct Hm as [[Hn Hm] Hms'].
  apply wp_bind, wp_lift. rewrite int_op_ok by (unfold INT_MIN, INT_MAX in *; lia). simpl.
  apply wp_bind, wp_lift. guard_true (w_pointer b + k <=? w_len b). simpl.
  destruct (Z.ltb_spec (w_pointer b + k) (w_len b)).
  - apply wp_ret. apply (HQ _ _ (m :: ms)); [by left|done| |done|].
    + unfold writebuf_rep; simpl. split_and!; done || lia.
    + unfold pending; simpl. rewrite drop_drop. f_equal. lia.
  - apply wp_bind. rewrite Hd. unfold free_str. eapply wp_free; [exact Hok|]. intros h' Hok'.
    rewrite (queue_rep_empty _ _ Hq).
    assert (∀ p, p = w_pointer b + k → drop (Z.to_nat k) (pending b (m :: ms)) = concat (c_txt <$> ms)) as Hpend.
    { intros p Hp'. unfold pending. rewrite drop_drop. simpl.
      rewrite drop_app_ge by lia. replace (_ - _)%nat with 0%nat by lia. done. }
    destruct ms as [|m' ms].
    + simpl. apply wp_ret. apply (HQ _ _ []); [by right|done|done|done|].
      by rewrite (Hpend _ eq_refl).
    + rewrite bool_decide_eq_false_2 by done. simpl. apply wp_bind, wp_lift.
      destruct (queue_pop_rep _ _ _ Hq) as (q' & -> & Hq' & _). simpl.
      apply wp_bind. eapply wp_load; [exact Hok'|simpl; set_solver|].
      apply wp_ret. apply Forall_cons in Hms' as Hm'. destruct Hm' as [Hm' _].
      rewrite message_strlen by done.
      apply (HQ _ _ (m' :: ms)); [by right|done| |done|].
      * unfold writebuf_rep; simpl. split_and!; done || lia.
      * by rewrite (Hpend _ eq_refl).
Qed.

Lemma wp_push_write_data h own b m ms (Q : t_writebuf → heap → Prop) :
  heap_own L h own → c_addr m ∈ own → message m → writebuf_rep b ms →
  (alloc_limit < 2 * Z.of_nat (length ms) → E SExhausted) →
  (∀ b', writebuf_rep b' (ms ++ [m]) → w_is_writing b' = w_is_writing b →
         pending b' (ms ++ [m]) = pending b ms ++ c_txt m → Q b' h) →
  wp E (push_write_data b m) Q h.
Proof.
  intros Hok Hown Hm Hb HX HQ. unfold push_write_data. rewrite (writebuf_has_data _ _ Hb).
  destruct ms as [|m0 ms].
  - destruct Hb as (_ & Hd & Hl & Hp & Hq). simpl.
    apply wp_bind. eapply wp_load; [done..|]. rewrite message_strlen by done. apply wp_ret.
    apply HQ; [|done|unfold pending; simpl; by rewrite Hp, app_nil_r].
    unfold writebuf_rep; simpl. split_and!; [by constructor|done|done|lia|lia|done].
  - rewrite bool_decide_eq_true_2 by done. destruct Hb as (Hms & Hd & Hl & Hp & Hq).
    apply wp_bind, wp_lift. eapply safe_mono.
    { apply queue_push_safe; [done|]. intros. apply HX. simpl. lia. }
    intros q' Hq'. apply wp_ret. apply HQ; [|done|].
    + unfold writebuf_rep; simpl. split_and!; try done; try lia.
      apply Forall_cons in Hms as [? ?]. by repeat apply Forall_cons_2 || apply Forall_app_2.
    + unfold pending; simpl. rewrite fmap_app, concat_app. simpl. rewrite app_nil_r.
      rewrite app_assoc. rewrite drop_app_le by (rewrite length_app; lia). done.
Qed.

Lemma wp_free_queued h own q ms n (Q : t_queue cstr → heap → Prop) :
  heap_own L h ((c_addr <$> ms) ++ own) → queue_rep q ms → n = length ms →
  (∀ q' h', heap_own L h' own → queue_rep q' [] → Q q' h') →
  wp E (free_queued q n) Q h.
Proof.
  revert h q ms. induction n as [|n IH]; intros h q ms Hok Hq Hn HQ.
  - destruct ms; [|done]. by apply wp_ret, HQ.
  - destruct ms as [|m ms]; [done|]. simpl. rewrite (queue_rep_empty _ _ Hq).
    rewrite bool_decide_eq_false_2 by done. simpl. apply wp_bind, wp_lift.
    destruct (queue_pop_rep _ _ _ Hq) as (q' & -> & Hq' & _). simpl.
    apply wp_bind. unfold free_str. eapply wp_free; [exact Hok|]. intros h' Hok'.
    eapply IH; [exact Hok'|done|by injection Hn|done].
Qed.

(** free_writebuf frees every message block of the buffer exactly once. *)
Lemma wp_free_writebuf h own b ms (Q : unit → heap → Prop) :
  heap_own L h ((c_addr <$> ms) ++ own) → writebuf_rep b ms →
  (∀ h', heap_own L h' own → Q tt h') → wp E (free_writebuf b) Q h.
Proof.
  intros Hok Hb HQ. unfold free_writebuf. apply wp_bind.
  assert (∀ h' ms', heap_own L h' ((c_addr <$> ms') ++ own) → queue_rep (w_queue b) ms' →
    wp E (free_queued (w_queue b) (Z.to_nat (q_len (w_queue b))) ≫= λ q, lift (free_queue q)) Q h')
    as Hrest.
  { intros h' ms' Hok' Hq. apply wp_bind. eapply wp_free_queued; [done..| |].
    - rewrite <- (Nat2Z.id (length ms')). f_equal. exact (queue_rep_len _ _ Hq).
    - intros q' h'' Hok'' Hq'. apply wp_lift. unfold free_queue.
      rewrite (queue_rep_empty _ _ Hq'). by apply HQ. }
  destruct ms as [|m ms]; destruct Hb as (_ & -> & _ & _ & Hq).
  - apply wp_ret. by apply (Hrest _ []).
  - unfold free_str. eapply wp_free; [exact Hok|]. intros h' Hok'.
    by apply (Hrest _ ms).
Qed.

Lemma wp_run_writebuf h own b ms ops (Q : bytes * t_writebuf → heap → Prop) :
  heap_own L h ((c_addr <$> ms) ++ (c_addr <$> pushed ops) ++ own) →
  Forall message (pushed ops) →
  writebuf_rep b ms → w_is_writing b = false →
  (alloc_limit < 2 * Z.of_nat (length ms + length (pushed ops)) → E SExhausted) →
  (∀ out b' h' ms', heap_own L h' ((c_addr <$> ms') ++ own) → writebuf_rep b' ms' →
     w_is_writing b' = false → (∃ done_ms, ms ++ pushed ops = done_ms ++ ms') →
     out ++ pending b' ms' = pending b ms ++ concat (c_txt <$> pushed ops) → Q (out, b') h') →
  wp E (run_writebuf b ops) Q h.
Proof.
  revert h own b ms Q. induction ops as [|[m|k] ops IH]; intros h own b ms Q Hok Hms Hb Hw HX HQ; simpl in *.
  - apply wp_ret. eapply HQ; [done..|exists []; by rewrite app_nil_r|by rewrite app_nil_r].
  - apply Forall_cons in Hms as [Hm Hms]. apply wp_bind.
    eapply wp_push_write_data; [exact Hok|set_solver|done|done|intros; apply HX; lia|].
    intros b' Hb' Hw' Hp'. eapply IH; [|done|done|congruence| |].
    + rewrite fmap_app, <- app_assoc. exact Hok.
    + rewrite length_app. simpl. intros. apply HX. lia.
    + intros out b'' h' ms' Hok' Hb'' Hw'' Hd Ho. rewrite <- (assoc_L (++)) in Hd. eapply HQ; [done..|].
      rewrite Ho, Hp'. by rewrite <- app_assoc.
  - rewrite (writebuf_has_data _ _ Hb). destruct ms as [|m ms]; [by eapply IH|].
    rewrite bool_decide_eq_true_2 by done. apply wp_bind, wp_lift.
    destruct (prepare_write_rep b m ms Hb Hw) as (b1 & -> & Hb1 & Hw1 & Hp1). simpl.
    apply wp_bind. eapply wp_load; [exact Hok|set_solver|].
    pose proof Hb as (Hall & _ & Hl & Hp & _).
    apply Forall_cons in Hall as [[Hn _] _]. rewrite (c_str_no_nul _ Hn).
    set (k' := Z.max 0 _). assert (0 ≤ k' ≤ Z.of_nat (length (c_txt m)) - w_pointer b) as Hk' by lia.
    apply wp_bind. eapply wp_have_written; [exact Hok|done|done|by rewrite Hp1|].
    intros b2 h2 ms2 Hms2 Hok2 Hb2 Hw2 Hp2. apply wp_bind.
    eapply IH; [exact Hok2|done|done|done| |].
    { intros. apply HX. destruct Hms2; subst ms2; simpl in *; lia. }
    intros out b3 h3 ms3 Hok3 Hb3 Hw3 [d Hd] Ho. apply wp_ret. eapply HQ; [done..| |].
    { destruct Hms2; subst ms2; [by exists d|]. exists (m :: d). simpl. by rewrite Hd. }
    rewrite <- app_assoc, Ho, Hp2, app_assoc. f_equal. unfold pending. rewrite Hp1. simpl.
    rewrite (drop_app_le (c_txt m)) by lia.
    rewrite drop_app_le by (rewrite length_drop; lia).
    rewrite app_assoc. by rewrite take_drop.
Qed.
End rules.

(** C12: the write buffer is a byte stream: for every interleaving of pushed
    messages and of (partial) writes, the bytes handed to the operating
    system followed by the bytes still pending are the bytes that were
    pending followed by those of the pushed messages, in order; no assertion
    of writebuf.c fails. Before and after the run, the live blocks of the heap
    are exactly the messages still to be sent (or pushed) and other blocks
    [own] and [L], which stay the same: every finished message is freed, once,
    and nothing else is. The run always finishes if the queue of messages can
    grow. *)
Theorem writebuf_stream (L : gset positive) h own b ms ops :
  heap_own (Some L) h ((c_addr <$> ms) ++ (c_addr <$> pushed ops) ++ own) →
  Forall message (pushed ops) → writebuf_rep b ms → w_is_writing b = false →
  2 * Z.of_nat (length ms + length (pushed ops)) ≤ alloc_limit →
  wp never (run_writebuf b ops) (λ '(out, b') h', ∃ ms',
    heap_own (Some L) h' ((c_addr <$> ms') ++ own) ∧ writebuf_rep b' ms' ∧
    (∃ done_ms, ms ++ pushed ops = done_ms ++ ms') ∧
    out ++ pending b' ms' = pending b ms ++ concat (c_txt <$> pushed ops)) h.
Proof.
  intros. eapply wp_run_writebuf; [done..|intros; lia|]. intros. eauto.
Qed.

Definition sample_writebuf : t_writebuf := Mk_writebuf None 0 0 false (Mk_queue [None] 0 0 1).
Definition sample_messages : list cstr := [Mk_cstr 1 (str "S;7"); Mk_cstr 2 (str "F;7")].
Definition sample_heap : heap := Mk_heap {[1%positive; 2%positive; 3%positive]} 4.
Definition sample_wb_ops : list wb_op :=
  [WPush (Mk_cstr 1 (str "S;7")); WWrite 1; WPush (Mk_cstr 2 (str "F;7")); WWrite 9; WWrite 2].

Lemma writebuf_stream_witness :
  wp never (run_writebuf sample_writebuf sample_wb_ops)
    (λ '(out, b') h', ∃ ms',
    heap_own (Some {[3%positive]}) h' ((c_addr <$> ms') ++ []) ∧ writebuf_rep b' ms' ∧
    (∃ done_ms, [] ++ pushed sample_wb_ops = done_ms ++ ms') ∧
    out ++ pending b' ms' =
      pending sample_writebuf [] ++ concat (c_txt <$> pushed sample_wb_ops)) sample_heap.
Proof.
  apply (writebuf_stream {[3%positive]} sample_heap [] sample_writebuf [] sample_wb_ops).
  - simpl. split_and!.
    + intros a Ha. unfold sample_heap; simpl. set_solver.
    + repeat constructor; set_solver.
    + intros a. unfold sample_heap; simpl. set_unfold. intros. destruct_or!; subst; reflexivity.
    + set_solver.
    + apply (bool_decide_unpack _). vm_compute. exact I.
  - apply (bool_decide_unpack _). vm_compute. exact I.
  - done.
  - reflexivity.
  - by_computation.
Defined.
