(* ===== verification/Env.v ===== *)
(** * Options and logging (src/server/options.c, src/server/logging.c)

    The globals that every part of the server shares: the heap, the options
    with their initial values, and the log file. *)

From S2P Require Import Prelude CMem.

Record genv := Mk_genv {
  g_heap : heap;
  g_parallel : Z;
  g_socketname : option bytes;
  g_logging : bool;
  g_single_client : bool;
  g_logfile : option (list bytes);   (* None: the FILE* is NULL *)
}.

Definition set_heap (h : heap) (g : genv) : genv :=
  Mk_genv h (g_parallel g) (g_socketname g) (g_logging g) (g_single_client g) (g_logfile g).
Definition set_parallel (p : Z) (g : genv) : genv :=
  Mk_genv (g_heap g) p (g_socketname g) (g_logging g) (g_single_client g) (g_logfile g).
Definition set_socketname (s : bytes) (g : genv) : genv :=
  Mk_genv (g_heap g) (g_parallel g) (Some s) (g_logging g) (g_single_client g) (g_logfile g).
Definition set_logging (g : genv) : genv :=
  Mk_genv (g_heap g) (g_parallel g) (g_socketname g) true (g_single_client g) (g_logfile g).
Definition set_single_client (g : genv) : genv :=
  Mk_genv (g_heap g) (g_parallel g) (g_socketname g) (g_logging g) true (g_logfile g).
Definition set_logfile (f : option (list bytes)) (g : genv) : genv :=
  Mk_genv (g_heap g) (g_parallel g) (g_socketname g) (g_logging g) (g_single_client g) f.

(** The values of the globals when the program starts. *)
Definition initial_genv : genv :=
  Mk_genv (Mk_heap ∅ 1) 1 None false false None.

(** Run a computation on the heap inside the globals. *)
Definition on_heap {A} (m : M heap A) : M genv A := zoom g_heap set_heap m.

(** ** Logging *)

(** [opened] is whether [fopen] succeeds. *)
Definition init_logging (opened : bool) : M genv unit :=
  b ← gets g_logging;
  whenM b (modify (set_logfile (if opened then Some [] else None))).

(** [s] is the formatted message. *)
Definition log_msg (s : bytes) : M genv unit :=
  b ← gets g_logging;
  whenM b (
    f ← gets g_logfile;
    match f with
    | Some lines => modify (set_logfile (Some (lines ++ [s ++ [NEWLINE]])))
    | None => failM Undefined
    end).

Definition logging_shutdown {A} (s : bytes) : M genv A :=
  b ← gets g_logging;
  _ ← whenM b (log_msg s);
  exit 1.

(** ** Options *)

(** One result of [getopt_long]: the option character and its argument. *)
Record getopt_result := Mk_opt { opt_char : Z; opt_arg : bytes }.

Section options.
(** Whether [strtol] reports EINVAL for a text without digits: POSIX allows
    both. *)
Context (strtol_einval : bytes → bool).

(** One turn of the loop, for a result other than -1. *)
Definition parse_option (o : getopt_result) : M genv unit :=
  let c := opt_char o in
  if c =? 0 then exit 1
  else if c =? 105 (* i *) then modify set_single_client
  else if c =? 106 (* j *) then
    _ ← modify (set_parallel (to_int (strtol10 (opt_arg o))));
    if strtol_einval (opt_arg o) then exit 1
    else
      p ← gets g_parallel;
      if p <=? 0 then exit 1 else mret tt
  else if c =? 108 (* l *) then modify set_logging
  else if c =? 115 (* s *) then modify (set_socketname (opt_arg o))
  else exit 1.

(** [opts] are the successive results of [getopt_long] before -1, and
    [optind] the value it leaves. *)
Fixpoint parse_option_loop (opts : list getopt_result) : M genv unit :=
  match opts with
  | [] => mret tt
  | o :: opts' => _ ← parse_option o; parse_option_loop opts'
  end.

Definition parse_options (opts : list getopt_result) (optind argc : Z) : M genv unit :=
  _ ← parse_option_loop opts;
  if optind <? argc then exit 1
  else
    s ← gets g_socketname;
    match s with None => exit 1 | Some _ => mret tt end.
End options.

(** ** Lemmas *)

Lemma wp_on_heap {A} E (m : M heap A) (Q : A → genv → Prop) g :
  wp (stop_in E (λ h, set_heap h g)) m (λ a h, Q a (set_heap h g)) (g_heap g) →
  wp E (on_heap m) Q g.
Proof. apply wp_zoom. Qed.

(** Logging is possible: the log file is open whenever logging is on. *)
Definition log_ok (g : genv) : Prop := g_logging g = true → is_Some (g_logfile g).

Lemma wp_log_msg E s (Q : unit → genv → Prop) g :
  log_ok g → (∀ f, (g_logging g = true → is_Some f) → Q tt (set_logfile f g)) → wp E (log_msg s) Q g.
Proof.
  intros Hl HQ. unfold log_msg. apply wp_bind, wp_gets. apply wp_when; intros Hb.
  - apply wp_bind, wp_gets. destruct (Hl Hb) as [lines ->]. apply wp_modify. apply HQ. eauto.
  - assert (set_logfile (g_logfile g) g = g) as <- by (by destruct g).
    apply HQ. congruence.
Qed.

Lemma wp_logging_shutdown {A} (E : stop genv → Prop) s (Q : A → genv → Prop) g :
  log_ok g → (∀ f, (g_logging g = true → is_Some f) → E (SExit 1 (set_logfile f g))) →
  wp E (logging_shutdown s) Q g.
Proof.
  intros Hl HE. unfold logging_shutdown. apply wp_bind, wp_gets, wp_bind.
  assert (set_logfile (g_logfile g) g = g) as Hg by (by destruct g).
  apply wp_when; intros Hb.
  - apply wp_log_msg; [done|]. intros f Hf. unfold wp, exit. by apply HE.
  - unfold wp, exit. rewrite <- Hg. apply HE. congruence.
Qed.

Lemma to_int_max x : to_int x ≤ INT_MAX.
Proof.
  unfold to_int, INT_MAX, UINT_MOD.
  pose proof (Z.mod_pos_bound x 4294967296 ltac:(lia)).
  destruct (Z.leb_spec (x mod 4294967296) 2147483647); lia.
Qed.

Lemma parse_option_loop_inv einval opts g g' :
  1 ≤ g_parallel g → parse_option_loop einval opts g = Done tt g' → 1 ≤ g_parallel g' ≤ INT_MAX ∨ g_parallel g' = g_parallel g.
Proof.
  revert g. induction opts as [|o opts IH]; intros g Hg; simpl.
  - intros [= <-]. by right.
  - unfold mbind, M_bind. destruct (parse_option einval o g) as [[] g1| |] eqn:Ho; [|done..].
    intros Hrun. assert (1 ≤ g_parallel g1 ≤ INT_MAX ∨ g_parallel g1 = g_parallel g) as Hg1.
    { unfold parse_option, modify, gets, exit, mbind, M_bind, mret, M_ret in Ho.
      repeat case_match; simplify_eq/=; try (by right). left.
      pose proof (to_int_max (strtol10 (opt_arg o))). bool_to_prop. lia. }
    destruct (IH g1) as [?|Heq]; [lia|done|by left|]. rewrite Heq. done.
Qed.

(** the options the server runs with are usable: whatever options were
    given, when parse_options returns (instead of exiting) from the initial
    globals, a socket name is set and [parallel] is between 1 and INT_MAX. *)
Theorem parse_options_usable einval opts optind argc g :
  parse_options einval opts optind argc initial_genv = Done tt g →
  1 ≤ g_parallel g ≤ INT_MAX ∧ is_Some (g_socketname g).
Proof.
  unfold parse_options, mbind, M_bind.
  destruct (parse_option_loop einval opts initial_genv) as [[] g1| |] eqn:Hl; [|done..].
  destruct (optind <? argc); [done|]. unfold gets. simpl.
  destruct (g_socketname g1) as [s|] eqn:Hs; [|done]. intros [= <-].
  apply parse_option_loop_inv in Hl; [|done]. split; [|by rewrite Hs].
  simpl in Hl. unfold INT_MAX in *. lia.
Qed.

Lemma parse_options_usable_witness :
  let g := match parse_options (λ _, false) [Mk_opt 106 (str "8"); Mk_opt 115 (str "sock")] 5 5
                   initial_genv with Done _ g => g | _ => initial_genv end in
  1 ≤ g_parallel g ≤ INT_MAX ∧ is_Some (g_socketname g).
Proof.
  apply (parse_options_usable (λ _, false) [Mk_opt 106 (str "8"); Mk_opt 115 (str "sock")] 5 5).
  vm_compute. reflexivity.
Defined.
