(* ===== verification/Request.v ===== *)
(** * Client requests (src/server/request.c)

    [parse_request] reads a line of client data in place (the read buffer,
    the offset of the line in it and its length), allocates the strings of
    the request and may change [parallel]. It is shown to agree with
    [request_spec], a function of the semicolon-separated fields of the line;
    [remove_from_queue] is shown to drop exactly the requests with an id. *)

From S2P Require Import Prelude CMem Queue Env.

(** The fields that parse_request fills in only for a REQ_RUN request. *)
Record run_data := Mk_run {
  timeout : Z;
  memlimit : Z;
  usestdin : bool;
  cmd : cstr;
  numargs : Z;
  args_addr : positive;         (* the block of the array [args] *)
  args : list cstr;
}.

Inductive request_type :=
| REQ_RUN (run : run_data)
| REQ_INTERRUPT.

Record request := Mk_request {
  r_addr : positive;
  r_key : Z;
  r_id : cstr;
  req_type : request_type;
}.

(** ** Parsing *)

Section parsing.
(** The buffer that holds the line, and the offset of the line. *)
Context (buf : list (option ascii)) (base : Z).

Fixpoint count_semicolons_from (i : Z) (n : nat) (cnt : Z) : res Z :=
  match n with
  | O => mret cnt
  | S n' =>
      c ← arr_get buf (base + i);
      cnt ← (if bool_decide (c = SEMI) then int_op (cnt + 1) else mret cnt);
      count_semicolons_from (i + 1) n' cnt
  end.

Definition count_semicolons (len : Z) : res Z :=
  count_semicolons_from 0 (Z.to_nat len) 0.

Fixpoint find_semicolon (i : Z) (n : nat) : res Z :=
  match n with
  | O => mret i
  | S n' =>
      c ← arr_get buf (base + i);
      if bool_decide (c = SEMI) then mret i else find_semicolon (i + 1) n'
  end.

(** The allocated copy and the returned position. *)
Definition copy_up_to_semicolon (begin len : Z) : M heap (cstr * Z) :=
  i ← lift (find_semicolon begin (Z.to_nat (len - begin)));
  txt ← lift (slice buf (base + begin) (i - begin));
  result ← new_str txt;
  if i =? len then mret (result, 0) else mret (result, i + 1).

(** The loop over the arguments. *)
Fixpoint copy_args (pos len : Z) (n : nat) : M heap (list cstr) :=
  match n with
  | O => mret []
  | S n' =>
      '(a, pos) ← copy_up_to_semicolon pos len;
      rest ← copy_args pos len n';
      mret (a :: rest)
  end.

(** [strncmp(tmp, s, pos) == 0]. *)
Definition field_is (tmp : cstr) (s : string) (pos : Z) : M heap bool :=
  _ ← touch (c_addr tmp);
  mret (strncmp_eq (Z.to_nat pos) (c_txt tmp) (str s)).

(** [atoi] of a field that is then freed. *)
Definition atoi_free (tmp : cstr) : M heap Z :=
  txt ← load tmp;
  _ ← free_str tmp;
  mret (atoi txt).

Definition parse_request (len key : Z) : M genv (option request) :=
  line ← lift (slice buf base len);
  _ ← log_msg (str "received query " ++ c_str line);
  semic ← lift (count_semicolons len);
  if semic =? 0 then mret None
  else if semic =? 1 then
    '(tmp, pos) ← on_heap (copy_up_to_semicolon 0 len);
    is_parallel ← on_heap (field_is tmp "parallel" pos);
    if is_parallel : bool then
      _ ← on_heap (free_str tmp);
      '(tmp, _) ← on_heap (copy_up_to_semicolon pos len);
      txt ← on_heap (load tmp);
      let parallel_arg := atoi txt in
      _ ← whenM (1 <=? parallel_arg) (modify (set_parallel parallel_arg));
      _ ← on_heap (free_str tmp);
      mret None
    else
      is_interrupt ← on_heap (field_is tmp "interrupt" pos);
      if is_interrupt : bool then
        _ ← on_heap (free_str tmp);
        req ← on_heap malloc;
        '(id, _) ← on_heap (copy_up_to_semicolon pos len);
        mret (Some (Mk_request req key id REQ_INTERRUPT))
      else
        _ ← on_heap (free_str tmp);
        mret None
  else
    let numargs := semic - 4 in
    if numargs <? 0 then mret None
    else
      '(tmp, pos) ← on_heap (copy_up_to_semicolon 0 len);
      is_run ← on_heap (field_is tmp "run" pos);
      kind ← (if is_run : bool then mret (Some false)
              else
                is_runstdin ← on_heap (field_is tmp "runstdin" pos);
                mret (if is_runstdin : bool then Some true else None));
      match kind with
      | None =>
        _ ← on_heap (free_str tmp);
        mret None
      | Some runstdin =>
        _ ← on_heap (free_str tmp);
        req ← on_heap malloc;
        '(id, pos) ← on_heap (copy_up_to_semicolon pos len);
        '(tmp, pos) ← on_heap (copy_up_to_semicolon pos len);
        timeout ← on_heap (atoi_free tmp);
        '(tmp, pos) ← on_heap (copy_up_to_semicolon pos len);
        memlimit ← on_heap (atoi_free tmp);
        '(cmd, pos) ← on_heap (copy_up_to_semicolon pos len);
        argsblk ← on_heap malloc;
        args ← on_heap (copy_args pos len (Z.to_nat numargs));
        mret (Some (Mk_request req key id
          (REQ_RUN (Mk_run timeout (u32 memlimit) runstdin cmd numargs argsblk args))))
      end.
End parsing.

(** ** Disposal and the global queue *)

(** The loop [for (i = ...; i < r->numargs; i++) free(r->args[i])]. *)
Fixpoint free_args (l : list cstr) (i n : nat) : M heap unit :=
  match n with
  | O => mret tt
  | S n' =>
      match l !! i with
      | Some s => _ ← free_str s; free_args l (S i) n'
      | None => failM Undefined
      end
  end.

Definition free_request (r : option request) : M heap unit :=
  match r with
  | None => mret tt
  | Some r =>
      _ ← touch (r_addr r);
      _ ← (match req_type r with
           | REQ_RUN d =>
               _ ← free_str (cmd d);
               _ ← free_args (args d) 0 (Z.to_nat (numargs d));
               free (args_addr d)
           | REQ_INTERRUPT => free_str (r_id r)
           end);
      free (r_addr r)
  end.

Definition init_request_queue : res (t_queue request) := init_queue 100.

Section queue_filter.

(** Pop every request; keep in [tmp] those with another id. *)
Fixpoint filter_queue (queue tmp : t_queue request) (id : cstr) (n : nat)
    : M heap (t_queue request * t_queue request) :=
  match n with
  | O => mret (queue, tmp)
  | S n' =>
      if negb (queue_is_empty queue) then
        '(r, queue) ← lift (queue_pop queue);
        _ ← touch (r_addr r);
        rid ← load (r_id r);
        txt ← load id;
        tmp ← (if negb (strcmp_eq rid txt) then lift (queue_push tmp r) else mret tmp);
        filter_queue queue tmp id n'
      else mret (queue, tmp)
  end.

Fixpoint move_queue (tmp queue : t_queue request) (n : nat)
    : res (t_queue request * t_queue request) :=
  match n with
  | O => mret (tmp, queue)
  | S n' =>
      if negb (queue_is_empty tmp) then
        '(r, tmp) ← queue_pop tmp;
        queue ← queue_push queue r;
        move_queue tmp queue n'
      else mret (tmp, queue)
  end.

Definition remove_from_queue (queue : t_queue request) (id : cstr) : M heap (t_queue request) :=
  tmp ← lift (init_queue (q_capacity queue));
  '(queue, tmp) ← filter_queue queue tmp id (Z.to_nat (q_len queue));
  '(tmp, queue) ← lift (move_queue tmp queue (Z.to_nat (q_len tmp)));
  _ ← lift (free_queue tmp);
  mret queue.
End queue_filter.

(** ** Specification *)

(** The fields of a line. *)
Fixpoint fields (line : bytes) : list bytes :=
  match line with
  | [] => [[]]
  | c :: line' =>
      if bool_decide (c = SEMI) then [] :: fields line'
      else match fields line' with
           | f :: fs => (c :: f) :: fs
           | [] => [[c]]
           end
  end.

(** What a request says, without addresses. *)
Inductive request_content :=
| CRun (id : bytes) (timeout memlimit : Z) (usestdin : bool) (cmd : bytes) (args : list bytes)
| CInterrupt (id : bytes).

Definition content (r : request) : request_content :=
  match req_type r with
  | REQ_RUN d => CRun (c_txt (r_id r)) (timeout d) (memlimit d) (usestdin d)
                      (c_txt (cmd d)) (c_txt <$> args d)
  | REQ_INTERRUPT => CInterrupt (c_txt (r_id r))
  end.

(** The protocol of README.server as a function of the fields: the request,
    if any, and the new value of [parallel]. *)
Definition request_spec (parallel : Z) (fs : list bytes) : option request_content * Z :=
  match fs with
  | [f; g] =>
      if strcmp_eq f (str "parallel") then (None, if 1 <=? atoi g then atoi g else parallel)
      else if strcmp_eq f (str "interrupt") then (Some (CInterrupt g), parallel)
      else (None, parallel)
  | f :: id :: t :: m :: c :: a =>
      if strcmp_eq f (str "run") then (Some (CRun id (atoi t) (u32 (atoi m)) false c a), parallel)
      else if strcmp_eq f (str "runstdin") then
        (Some (CRun id (atoi t) (u32 (atoi m)) true c a), parallel)
      else (None, parallel)
  | _ => (None, parallel)
  end.

(** The blocks a request owns. *)
Definition req_own (r : request) : list positive :=
  match req_type r with
  | REQ_RUN d => [r_addr r; c_addr (r_id r); c_addr (cmd d); args_addr d] ++ (c_addr <$> args d)
  | REQ_INTERRUPT => [r_addr r; c_addr (r_id r)]
  end.

(** The struct of a run request agrees with its array. *)
Definition req_wf (r : request) : Prop :=
  match req_type r with
  | REQ_RUN d => numargs d = Z.of_nat (length (args d))
  | REQ_INTERRUPT => True
  end.

(** ** Lemmas on fields *)

Lemma fields_ne line : fields line ≠ [].
Proof. destruct line; simpl; [done|]. repeat case_match; done. Qed.

Lemma fields_cons_inv line f fs :
  fields line = f :: fs →
  (SEMI ∉ f) ∧ ((fs = [] ∧ line = f) ∨ ∃ line', line = f ++ SEMI :: line' ∧ fields line' = fs).
Proof.
  revert f fs. induction line as [|c line IH]; intros f fs; simpl.
  - intros [= <- <-]. split; [set_solver|by left].
  - case_bool_decide as Hc.
    + intros [= <- <-]. subst. split; [set_solver|]. right. by exists line.
    + destruct (fields line) as [|g gs] eqn:Hf; [by destruct (fields_ne line)|].
      intros [= <- <-]. destruct (IH g gs eq_refl) as [Hn [[-> ->]|(l' & -> & Hl')]].
      * split; [set_solver|by left].
      * split; [set_solver|]. right. by exists l'.
Qed.

Lemma fields_app f line : SEMI ∉ f → fields (f ++ SEMI :: line) = f :: fields line.
Proof.
  induction f as [|c f IH]; intros Hf; simpl.
  - done.
  - rewrite bool_decide_eq_false_2 by set_solver. by rewrite IH by set_solver.
Qed.

Lemma fields_single f : SEMI ∉ f → fields f = [f].
Proof.
  induction f as [|c f IH]; intros Hf; simpl; [done|].
  rewrite bool_decide_eq_false_2 by set_solver. by rewrite IH by set_solver.
Qed.

(** A line built from its fields. *)
Fixpoint join (fs : list bytes) : bytes :=
  match fs with
  | [] => []
  | [f] => f
  | f :: fs' => f ++ SEMI :: join fs'
  end.

Lemma fields_join fs : fs ≠ [] → Forall (λ f, SEMI ∉ f) fs → fields (join fs) = fs.
Proof.
  induction fs as [|f fs IH]; intros Hne Hall; [done|].
  apply Forall_cons in Hall as [Hf Hfs]. destruct fs as [|g fs]; [by apply fields_single|].
  change (fields (f ++ SEMI :: join (g :: fs)) = f :: g :: fs).
  rewrite fields_app by done. by rewrite IH.
Qed.

(** ** Lemmas on parsing *)

Section parse_lemmas.
Context (buf : list (option ascii)) (base : Z) (line : bytes).
Hypothesis base_nonneg : 0 ≤ base.
Hypothesis line_small : Z.of_nat (length line) ≤ alloc_limit.
Hypothesis line_at : ∀ i c, line !! i = Some c → buf !! (Z.to_nat base + i)%nat = Some (Some c).

Let len := Z.of_nat (length line).

Lemma line_get i c : line !! i = Some c → arr_get buf (base + Z.of_nat i) = Ok c.
Proof.
  intros Hi. apply arr_get_ok; [lia|]. rewrite <- (line_at i c Hi). f_equal. lia.
Qed.

Lemma count_semicolons_from_line i n cnt :
  (i + n = length line)%nat → 0 ≤ cnt ≤ Z.of_nat i →
  count_semicolons_from buf base (Z.of_nat i) n cnt =
  Ok (cnt + Z.of_nat (length (fields (drop i line))) - 1).
Proof.
  revert i cnt. induction n as [|n IH]; intros i cnt Hn Hcnt; simpl.
  - rewrite drop_ge by lia. simpl. unfold mret, res_ret. f_equal. lia.
  - destruct (lookup_lt_is_Some_2 line i) as [c Hc]; [lia|].
    rewrite (line_get _ _ Hc), (drop_S _ _ _ Hc). simpl.
    replace (Z.of_nat i + 1) with (Z.of_nat (S i)) by lia.
    case_bool_decide.
    + rewrite int_op_ok by (unfold INT_MIN, INT_MAX, alloc_limit in *; lia). simpl.
      rewrite IH by lia. f_equal. lia.
    + simpl. rewrite IH by lia. destruct (fields (drop (S i) line)) eqn:Hf; [|done].
      by destruct (fields_ne (drop (S i) line)).
Qed.

Lemma count_semicolons_line :
  count_semicolons buf base len = Ok (Z.of_nat (length (fields line)) - 1).
Proof.
  unfold count_semicolons, len. rewrite Nat2Z.id. change 0 with (Z.of_nat 0) at 1.
  rewrite (count_semicolons_from_line 0 (length line) 0) by lia. by rewrite drop_0.
Qed.

Lemma find_semicolon_line i n f fs :
  (i + n = length line)%nat → fields (drop i line) = f :: fs →
  find_semicolon buf base (Z.of_nat i) n = Ok (Z.of_nat (i + length f)).
Proof.
  revert i f fs. induction n as [|n IH]; intros i f fs Hn Hf; simpl.
  - rewrite drop_ge in Hf by lia. simpl in Hf. simplify_eq/=. unfold mret, res_ret. f_equal. lia.
  - destruct (lookup_lt_is_Some_2 line i) as [c Hc]; [lia|].
    rewrite (line_get _ _ Hc). rewrite (drop_S _ _ _ Hc) in Hf. simpl in *.
    case_bool_decide.
    + simplify_eq/=. unfold mret, res_ret. f_equal. lia.
    + destruct (fields (drop (S i) line)) as [|g gs] eqn:Hg; [by destruct (fields_ne (drop (S i) line))|].
      simplify_eq/=. replace (Z.of_nat i + 1) with (Z.of_nat (S i)) by lia.
      rewrite (IH (S i) g fs) by (done || lia). f_equal. lia.
Qed.

(** [pos] is where the fields [fs] start. *)
Definition at_fields (pos : Z) (fs : list bytes) : Prop :=
  match fs with
  | [] => pos = 0
  | _ => ∃ p, pos = Z.of_nat p ∧ (p ≤ length line)%nat ∧ fields (drop p line) = fs
  end.

Lemma wp_copy_up_to_semicolon {L} E h own pos f fs (Q : cstr * Z → heap → Prop) :
  heap_own L h own → at_fields pos (f :: fs) →
  (∀ a h' pos', heap_own L h' (a :: own) → at_fields pos' fs →
     (fs ≠ [] → pos' = pos + Z.of_nat (length f) + 1) → Q (Mk_cstr a f, pos') h') →
  wp E (copy_up_to_semicolon buf base pos len) Q h.
Proof.
  intros Hok (p & -> & Hp & Hf) HQ. unfold copy_up_to_semicolon.
  apply wp_bind, wp_lift.
  replace (Z.to_nat (len - Z.of_nat p)) with (length line - p)%nat by (unfold len; lia).
  rewrite (find_semicolon_line p _ f fs) by (done || lia). simpl.
  destruct (fields_cons_inv _ _ _ Hf) as [Hn Hcase].
  assert (∃ tl, drop p line = f ++ tl) as [tl Htl].
  { destruct Hcase as [[_ ->]|(l' & -> & _)]; [exists []; by rewrite app_nil_r|eauto]. }
  apply wp_bind, wp_lift. unfold slice.
  replace (Z.to_nat (Z.of_nat (p + length f) - Z.of_nat p)) with (length f) by lia.
  rewrite slice_ok; [|lia|].
  2: { intros i c Hi. rewrite Z2Nat.inj_add, Nat2Z.id, <- Nat.add_assoc by lia. apply line_at.
       rewrite <- lookup_drop, Htl. by apply lookup_app_l_Some. }
  simpl. apply wp_bind. eapply wp_new_str; [exact Hok|]. intros a h' Hok'.
  assert (length (drop p line) = length line - p)%nat as Hl by (by rewrite length_drop).
  unfold len. destruct (Z.eqb_spec (Z.of_nat (p + length f)) (Z.of_nat (length line))) as [He|He].
  - apply wp_ret, HQ; [done| |].
    + destruct Hcase as [[-> _]|(l' & Hl' & _)]; [done|].
      exfalso. rewrite Hl', length_app in Hl. simpl in Hl. lia.
    + destruct Hcase as [[-> _]|(l' & Hl' & _)]; [done|].
      exfalso. rewrite Hl', length_app in Hl. simpl in Hl. lia.
  - apply wp_ret, HQ; [done| |lia].
    destruct Hcase as [[-> Hl']|(l' & Hl' & Hfs)].
    + exfalso. rewrite Hl' in Hl. lia.
    + unfold at_fields. destruct fs as [|g gs]; [by destruct (fields_ne l')|].
      exists (S (p + length f)). split_and!; [lia| |].
      * rewrite Hl', length_app in Hl. simpl in Hl. lia.
      * rewrite <- Hfs. f_equal.
        replace (S (p + length f)) with (p + S (length f))%nat by lia.
        rewrite <- drop_drop, Hl'.
        replace (S (length f)) with (length f + 1)%nat by lia.
        by rewrite <- drop_drop, drop_app_length.
Qed.

Lemma wp_copy_args {L} E h own pos fs n (Q : list cstr → heap → Prop) :
  heap_own L h own → at_fields pos fs → n = length fs →
  (∀ l h', heap_own L h' ((c_addr <$> l) ++ own) → c_txt <$> l = fs → Q l h') →
  wp E (copy_args buf base pos len n) Q h.
Proof.
  revert h own pos fs Q. induction n as [|n IH]; intros h own pos fs Q Hok Hat Hn HQ; simpl.
  - destruct fs; [|done]. by apply wp_ret, HQ.
  - destruct fs as [|f fs]; [done|]. apply wp_bind.
    eapply wp_copy_up_to_semicolon; [done..|]. intros a h' pos' Hok' Hat' _. apply wp_bind.
    eapply IH; [done..|by injection Hn|]. intros l h'' Hok'' Hl. apply wp_ret, HQ.
    + simpl. by rewrite Permutation_middle.
    + by rewrite <- Hl.
Qed.

End parse_lemmas.

Lemma wp_field_is {L} E h own a f s (Q : bool → heap → Prop) :
  heap_own L h (a :: own) → Q (strcmp_eq f (str s)) h →
  wp E (field_is (Mk_cstr a f) s (Z.of_nat (length f) + 1)) Q h.
Proof.
  intros Hok HQ. unfold field_is. apply wp_bind. eapply wp_touch; [done|set_solver|].
  apply wp_ret. simpl. replace (Z.to_nat _) with (S (length f)) by lia.
  by rewrite strncmp_eq_full.
Qed.

Lemma wp_atoi_free {L} E h own a f (Q : Z → heap → Prop) :
  heap_own L h (a :: own) → (∀ h', heap_own L h' own → Q (atoi f) h') →
  wp E (atoi_free (Mk_cstr a f)) Q h.
Proof.
  intros Hok HQ. unfold atoi_free. apply wp_bind. eapply wp_load; [done|set_solver|].
  apply wp_bind. unfold free_str. eapply wp_free; [done|]. intros h' Hok'. apply wp_ret.
  simpl. replace (atoi (c_str f)) with (atoi f); [by apply HQ|].
  unfold atoi, strtol10. by rewrite c_str_idem.
Qed.

(** The globals that parsing leaves alone. *)
Definition genv_same (g g' : genv) : Prop :=
  g_socketname g' = g_socketname g ∧ g_logging g' = g_logging g ∧
  g_single_client g' = g_single_client g.

(** The blocks of an optional request. *)
Definition opt_own (r : option request) : list positive :=
  match r with Some r => req_own r | None => [] end.

(** Step over a computation on the heap, with the rule [lem] for it. *)
Tactic Notation "heap_step" uconstr(lem) := apply wp_bind, wp_on_heap; eapply lem; simpl.

Section parse_correct.
Context {L : option (gset positive)} (buf : list (option ascii)) (base : Z) (line : bytes).
Hypothesis base_nonneg : 0 ≤ base.
Hypothesis line_small : Z.of_nat (length line) ≤ alloc_limit.
Hypothesis line_at : ∀ i c, line !! i = Some c → buf !! (Z.to_nat base + i)%nat = Some (Some c).

Let len := Z.of_nat (length line).

(** What [parse_request] leaves: the request of the specification, owning
    its blocks. *)
Definition parsed (own : list positive) (key : Z) (g : genv) (r : option request) (g' : genv) : Prop :=
  genv_same g g' ∧ log_ok g' ∧
  (content <$> r, g_parallel g') = request_spec (g_parallel g) (fields line) ∧
  heap_own L (g_heap g') (opt_own r ++ own) ∧
  ∀ r', r = Some r' → r_key r' = key ∧ req_wf r'.

Lemma at_fields_start : at_fields line 0 (fields line).
Proof.
  unfold at_fields. destruct (fields line) eqn:Hf; [done|].
  exists O. split_and!; [done|lia|by rewrite drop_0].
Qed.

Lemma wp_parse_short E g own key f1 f2 :
  heap_own L (g_heap g) own → log_ok g → fields line = [f1; f2] →
  wp E (
    '(tmp, pos) ← on_heap (copy_up_to_semicolon buf base 0 len);
    is_parallel ← on_heap (field_is tmp "parallel" pos);
    if is_parallel : bool then
      _ ← on_heap (free_str tmp);
      '(tmp, _) ← on_heap (copy_up_to_semicolon buf base pos len);
      txt ← on_heap (load tmp);
      let parallel_arg := atoi txt in
      _ ← whenM (1 <=? parallel_arg) (modify (set_parallel parallel_arg));
      _ ← on_heap (free_str tmp);
      mret None
    else
      is_interrupt ← on_heap (field_is tmp "interrupt" pos);
      if is_interrupt : bool then
        _ ← on_heap (free_str tmp);
        req ← on_heap malloc;
        '(id, _) ← on_heap (copy_up_to_semicolon buf base pos len);
        mret (Some (Mk_request req key id REQ_INTERRUPT))
      else
        _ ← on_heap (free_str tmp);
        mret None) (parsed own key g) g.
Proof.
  intros Hok Hlog Hf. pose proof at_fields_start as Hat. rewrite Hf in Hat.
  heap_step wp_copy_up_to_semicolon; [done..|]. intros a1 h1 p1 Hok1 Hat1 Hp1.
  rewrite Hp1 by done. rewrite Z.add_0_l.
  heap_step wp_field_is; [done|].
  unfold parsed. rewrite Hf. simpl.
  destruct (strcmp_eq f1 (str "parallel")) eqn:Hpar.
  - heap_step wp_free; [done|]. intros h2 Hok2.
    rewrite Z.add_0_l in Hp1. rewrite <- Hp1 by done.
    heap_step wp_copy_up_to_semicolon; [done..|]. intros a3 h3 p3 Hok3 _ _.
    heap_step wp_load; [done|set_solver|]. simpl.
    replace (atoi (c_str f2)) with (atoi f2) by (unfold atoi, strtol10; by rewrite c_str_idem).
    apply wp_bind, wp_when; intros Hle.
    + apply wp_modify. heap_step wp_free; [done|]. intros h4 Hok4. apply wp_ret.
      rewrite Hle. split_and!; done.
    + heap_step wp_free; [done|]. intros h4 Hok4. apply wp_ret. rewrite Hle. split_and!; done.
  - heap_step wp_field_is; [done|].
    destruct (strcmp_eq f1 (str "interrupt")) eqn:Hint.
    + heap_step wp_free; [done|]. intros h2 Hok2.
      heap_step wp_malloc; [done|]. intros r h3 Hok3.
      rewrite Z.add_0_l in Hp1. rewrite <- Hp1 by done.
      heap_step wp_copy_up_to_semicolon; [done..|]. intros a4 h4 p4 Hok4 _ _. apply wp_ret.
      split_and!; try done; simpl.
      * by rewrite (Permutation_swap a4 r).
      * by intros r' [= <-].
    + heap_step wp_free; [done|]. intros h2 Hok2. apply wp_ret. split_and!; done.
Qed.
(** The part of [parse_request] after the command word of a run request. *)
Lemma wp_parse_body E g own key runstdin pos id t m c a :
  heap_own L (g_heap g) own → log_ok g → at_fields line pos (id :: t :: m :: c :: a) →
  wp E (
    req ← on_heap malloc;
    '(id, pos) ← on_heap (copy_up_to_semicolon buf base pos len);
    '(tmp, pos) ← on_heap (copy_up_to_semicolon buf base pos len);
    timeout ← on_heap (atoi_free tmp);
    '(tmp, pos) ← on_heap (copy_up_to_semicolon buf base pos len);
    memlimit ← on_heap (atoi_free tmp);
    '(cmd, pos) ← on_heap (copy_up_to_semicolon buf base pos len);
    argsblk ← on_heap malloc;
    args ← on_heap (copy_args buf base pos len (length a));
    mret (Some (Mk_request req key id
      (REQ_RUN (Mk_run timeout (u32 memlimit) runstdin cmd (Z.of_nat (length a)) argsblk args)))))
  (λ r g', genv_same g g' ∧ log_ok g' ∧ g_parallel g' = g_parallel g ∧
     content <$> r = Some (CRun id (atoi t) (u32 (atoi m)) runstdin c a) ∧
     heap_own L (g_heap g') (opt_own r ++ own) ∧ ∀ r', r = Some r' → r_key r' = key ∧ req_wf r') g.
Proof.
  intros Hok Hlog Hat.
  heap_step wp_malloc; [done|]. intros r h1 Hok1.
  heap_step wp_copy_up_to_semicolon; [done..|]. intros a2 h2 p2 Hok2 Hat2 _.
  heap_step wp_copy_up_to_semicolon; [done..|]. intros a3 h3 p3 Hok3 Hat3 _.
  heap_step wp_atoi_free; [done|]. intros h4 Hok4.
  heap_step wp_copy_up_to_semicolon; [done..|]. intros a5 h5 p5 Hok5 Hat5 _.
  heap_step wp_atoi_free; [done|]. intros h6 Hok6.
  heap_step wp_copy_up_to_semicolon; [done..|]. intros a7 h7 p7 Hok7 Hat7 _.
  heap_step wp_malloc; [done|]. intros b h8 Hok8.
  heap_step wp_copy_args; [done..|]. intros l h9 Hok9 Hl.
  apply wp_ret. split_and!; try done; simpl.
  - unfold content. simpl. by rewrite Hl.
  - unfold req_own; simpl. eapply heap_ok_proper; [|exact Hok9]. solve_Permutation.
  - intros r' [= <-]. split; [done|]. unfold req_wf; simpl. by rewrite <- Hl, length_fmap.
Qed.

Lemma wp_parse_request E g own key (Q : option request → genv → Prop) :
  heap_own L (g_heap g) own → log_ok g →
  (∀ r g', parsed own key g r g' → Q r g') →
  wp E (parse_request buf base len key) Q g.
Proof.
  intros Hok Hlog HQ. eapply wp_mono; [|exact HQ]. clear HQ. unfold parse_request.
  apply wp_bind, wp_lift. unfold slice, len. rewrite Nat2Z.id, slice_ok by done. simpl.
  apply wp_bind, wp_log_msg; [done|]. intros lf Hlf.
  apply wp_bind, wp_lift. rewrite count_semicolons_line by done. simpl.
  set (g0 := set_logfile lf g).
  assert (log_ok g0) as Hlog0 by (intros ?; by apply Hlf).
  assert (heap_own L (g_heap g0) own) as Hok0 by done.
  assert (∀ r g', parsed own key g0 r g' → parsed own key g r g') as Hpar by done.
  destruct (fields line) as [|f1 fs] eqn:Hf; [by destruct (fields_ne line)|].
  assert (fields line = f1 :: fs → request_spec (g_parallel g) (f1 :: fs) = (None, g_parallel g) →
          wp E (mret None) (parsed own key g) g0) as Hnone.
  { intros ? Hspec. apply wp_ret. unfold parsed. rewrite Hf, Hspec. split_and!; done. }
  destruct fs as [|f2 fs]; [by apply Hnone|].
  replace (Z.of_nat _ - 1) with (Z.of_nat (S (length fs))) by (simpl; lia).
  guard_false (Z.of_nat (S (length fs)) =? 0).
  destruct fs as [|f3 fs].
  { simpl. eapply wp_mono; [|exact Hpar]. by eapply wp_parse_short. }
  cbn [length]. guard_false (Z.of_nat (S (S (length fs))) =? 1).
  destruct fs as [|f4 [|f5 fs]]; [by apply Hnone..|].
  cbn [length]. replace (Z.of_nat _ - 4) with (Z.of_nat (length fs)) by lia.
  guard_false (Z.of_nat (length fs) <? 0). rewrite Nat2Z.id.
  eapply wp_mono; [|exact Hpar]. pose proof at_fields_start as Hat. rewrite Hf in Hat.
  heap_step wp_copy_up_to_semicolon; [done..|]. intros a1 h1 p1 Hok1 Hat1 Hp1.
  rewrite Hp1 by done. rewrite Z.add_0_l in *.
  heap_step wp_field_is; [done|]. rewrite <- Hp1 by done.
  unfold parsed. rewrite Hf. simpl.
  destruct (strcmp_eq f1 (str "run")) eqn:Hrun.
  - apply wp_bind, wp_ret. heap_step wp_free; [done|]. intros h2 Hok2.
    eapply wp_mono; [by apply wp_parse_body|]. simpl.
    intros r g' (?&?&->&->&?&?). split_and!; done.
  - rewrite Hp1 by done. apply wp_bind. heap_step wp_field_is; [done|]. rewrite <- Hp1 by done.
    apply wp_ret. destruct (strcmp_eq f1 (str "runstdin")) eqn:Hstd.
    + heap_step wp_free; [done|]. intros h2 Hok2.
      eapply wp_mono; [by apply wp_parse_body|]. simpl.
      intros r g' (?&?&->&->&?&?). split_and!; done.
    + heap_step wp_free; [done|]. intros h2 Hok2. apply wp_ret. split_and!; done.
Qed.
End parse_correct.

(** ** Lemmas on disposal and on the queue *)

(** What [free_request] leaves allocated: the id of a run request. *)
Definition req_kept (r : request) : list positive :=
  match req_type r with REQ_RUN _ => [c_addr (r_id r)] | REQ_INTERRUPT => [] end.

Lemma wp_free_args {L} E h own l i n (Q : unit → heap → Prop) :
  heap_own L h ((c_addr <$> drop i l) ++ own) → (i + n = length l)%nat →
  (∀ h', heap_own L h' own → Q tt h') → wp E (free_args l i n) Q h.
Proof.
  revert h i. induction n as [|n IH]; intros h i Hok Hn HQ; simpl.
  - rewrite drop_ge in Hok by lia. by apply wp_ret, HQ.
  - destruct (lookup_lt_is_Some_2 l i) as [s Hs]; [lia|]. rewrite Hs.
    rewrite (drop_S _ _ _ Hs) in Hok. apply wp_bind. unfold free_str.
    eapply wp_free; [exact Hok|]. intros h' Hok'. eapply IH; [exact Hok'|lia|done].
Qed.

Lemma wp_free_request {L} E h own r (Q : unit → heap → Prop) :
  heap_own L h (req_own r ++ own) → req_wf r →
  (∀ h', heap_own L h' (req_kept r ++ own) → Q tt h') →
  wp E (free_request (Some r)) Q h.
Proof.
  intros Hok Hwf HQ. unfold free_request, req_own, req_wf, req_kept in *.
  destruct (req_type r) as [d|] eqn:Ht; apply wp_bind.
  - eapply wp_touch; [exact Hok|set_solver|]. apply wp_bind, wp_bind. unfold free_str.
    eapply (wp_free _ _ (r_addr r :: c_addr (r_id r) :: args_addr d :: (c_addr <$> args d) ++ own)).
    { eapply heap_ok_perm; [exact Hok|]. solve_Permutation. }
    intros h1 Hok1. apply wp_bind.
    eapply (wp_free_args _ _ (args_addr d :: r_addr r :: c_addr (r_id r) :: own)).
    { eapply heap_ok_perm; [exact Hok1|]. rewrite drop_0. solve_Permutation. }
    { rewrite Hwf. lia. }
    intros h2 Hok2. eapply wp_free; [exact Hok2|]. intros h3 Hok3.
    eapply wp_free; [exact Hok3|]. done.
  - eapply wp_touch; [exact Hok|set_solver|]. apply wp_bind. unfold free_str.
    eapply wp_free; [eapply heap_ok_perm; [exact Hok|simpl; apply perm_swap]|].
    intros h1 Hok1. eapply wp_free; [exact Hok1|]. done.
Qed.

(** The requests that an interruption of [id] keeps. *)
Definition other_id (id : cstr) (r : request) : Prop :=
  strcmp_eq (c_txt (r_id r)) (c_txt id) = false.
#[global] Instance other_id_dec id r : Decision (other_id id r).
Proof. unfold other_id. apply _. Defined.

Section filter_lemmas.

Lemma wp_filter_queue {L} E h own q tmp id rs ks n (Q : t_queue request * t_queue request → heap → Prop) :
  heap_own L h own → c_addr id ∈ own →
  Forall (λ r, r_addr r ∈ own ∧ c_addr (r_id r) ∈ own) rs →
  queue_rep q rs → queue_rep tmp ks → n = length rs →
  Z.of_nat (length ks + length rs) ≤ q_capacity tmp →
  (∀ q' tmp', queue_rep q' [] → queue_rep tmp' (ks ++ filter (other_id id) rs) →
     q_capacity q' = q_capacity q → Q (q', tmp') h) →
  wp E (filter_queue q tmp id n) Q h.
Proof.
  intros Hok Hid. revert q tmp rs ks.
  induction n as [|n IH]; intros q tmp rs ks Hrs Hq Htmp Hn Hcap HQ; simpl.
  - destruct rs; [|done]. apply wp_ret, HQ; [done| |done]. by rewrite app_nil_r.
  - destruct rs as [|r rs]; [done|]. apply Forall_cons in Hrs as [[Ha1 Ha2] Hrs].
    rewrite (queue_rep_empty _ _ Hq), bool_decide_eq_false_2 by done. simpl.
    apply wp_bind, wp_lift. destruct (queue_pop_rep _ _ _ Hq) as (q' & -> & Hq' & Hc). simpl.
    apply wp_bind. eapply wp_touch; [done..|]. apply wp_bind. eapply wp_load; [done..|].
    apply wp_bind. eapply wp_load; [done..|]. rewrite strcmp_eq_c_str. rewrite filter_cons in HQ.
    simpl in Hcap. injection Hn as Hn. pose proof (queue_rep_len _ _ Htmp) as Hlen.
    unfold queue_length in Hlen.
    apply wp_bind. destruct (strcmp_eq (c_txt (r_id r)) (c_txt id)) eqn:He; simpl.
    + apply wp_ret. rewrite decide_False in HQ by (unfold other_id; congruence).
      eapply (IH _ _ rs ks); [done..|lia|]. intros. apply HQ; congruence.
    + rewrite decide_True in HQ by done. apply wp_lift.
      destruct (queue_push_room tmp ks r Htmp) as (tmp' & -> & Htmp' & Hc'); [lia|]. simpl.
      eapply (IH _ _ rs (ks ++ [r])); [done..|rewrite length_app; simpl; lia|].
      intros q'' tmp'' ? Ht ?. apply HQ; [done|by rewrite <- app_assoc in Ht|congruence].
Qed.

Lemma move_queue_rep tmp q rs ks n :
  queue_rep tmp rs → queue_rep q ks → n = length rs →
  Z.of_nat (length ks + length rs) ≤ q_capacity q →
  ∃ tmp' q', move_queue tmp q n = Ok (tmp', q') ∧ queue_rep tmp' [] ∧ queue_rep q' (ks ++ rs) ∧
    q_capacity q' = q_capacity q.
Proof.
  revert tmp q rs ks. induction n as [|n IH]; intros tmp q rs ks Htmp Hq Hn Hcap; simpl.
  - destruct rs; [|done]. rewrite app_nil_r. eauto 10.
  - destruct rs as [|r rs]; [done|]. simpl in Hcap. injection Hn as Hn.
    rewrite (queue_rep_empty _ _ Htmp), bool_decide_eq_false_2 by done. simpl.
    destruct (queue_pop_rep _ _ _ Htmp) as (tmp' & -> & Htmp' & _). simpl.
    pose proof (queue_rep_len _ _ Hq) as Hlen. unfold queue_length in Hlen.
    destruct (queue_push_room q ks r Hq) as (q' & -> & Hq' & Hc'); [lia|]. simpl.
    destruct (IH tmp' q' rs (ks ++ [r])) as (tmp'' & q'' & Hm & ? & Hr & ?); [done..| |].
    { rewrite length_app. simpl. lia. }
    rewrite Hm. rewrite <- app_assoc in Hr. exists tmp'', q''. split_and!; [done..|congruence].
Qed.

Lemma wp_remove_from_queue {L} E h own q id rs (Q : t_queue request → heap → Prop) :
  heap_own L h own → c_addr id ∈ own →
  Forall (λ r, r_addr r ∈ own ∧ c_addr (r_id r) ∈ own) rs → queue_rep q rs →
  (∀ q', queue_rep q' (filter (other_id id) rs) → q_capacity q' = q_capacity q → Q q' h) →
  wp E (remove_from_queue q id) Q h.
Proof.
  intros Hok Hid Hrs Hq HQ. unfold remove_from_queue.
  pose proof Hq as (Hcap & _ & Hlen & Hle & _).
  destruct (@init_queue_rep request (q_capacity q) Hcap) as (tmp & Hi & Htmp).
  assert (q_capacity tmp = q_capacity q) as Hct.
  { unfold init_queue in Hi. destruct (assertion _); [|done]. simpl in Hi.
    destruct (arr_alloc _); [|done]. simpl in Hi. by injection Hi as <-. }
  apply wp_bind, wp_lift. rewrite Hi. simpl. apply wp_bind.
  eapply (wp_filter_queue _ _ own q tmp id rs []); [done..|rewrite Hlen; lia|simpl; lia|].
  intros q1 tmp1 Hq1 Htmp1 Hc1. apply wp_bind, wp_lift. simpl in Htmp1.
  pose proof (length_filter (other_id id) rs).
  pose proof (queue_rep_len _ _ Htmp1) as Hl1. unfold queue_length in Hl1.
  destruct (move_queue_rep tmp1 q1 (filter (other_id id) rs) [] (Z.to_nat (q_len tmp1)))
    as (tmp2 & q2 & -> & Ht2 & Hq2 & Hc2); [done..|lia|simpl; lia|]. simpl.
  apply wp_bind, wp_lift. unfold free_queue. rewrite (queue_rep_empty _ _ Ht2).
  rewrite bool_decide_eq_true_2 by done. simpl. apply wp_ret, HQ; [done|congruence].
Qed.
End filter_lemmas.

(** ** Properties *)

(** C9: parse_request reads the protocol. For every line stored in the buffer
    from [base] on, parse_request returns without failure; the request it builds
    (or NULL) and the new value of [parallel] are those [request_spec] assigns
    to the semicolon-separated fields of the line; the request has the key of
    the client. No block leaks: when the live blocks before are exactly [own]
    and [L], those afterwards are exactly the blocks of the request, pairwise
    different and new, and [own] and [L]; every temporary string has been
    freed. *)
Theorem parse_request_correct (L : gset positive) buf base line g own key :
  0 ≤ base → Z.of_nat (length line) ≤ alloc_limit →
  (∀ i c, line !! i = Some c → buf !! (Z.to_nat base + i)%nat = Some (Some c)) →
  heap_own (Some L) (g_heap g) own → log_ok g →
  wp never (parse_request buf base (Z.of_nat (length line)) key) (λ r g',
    genv_same g g' ∧ log_ok g' ∧
    (content <$> r, g_parallel g') = request_spec (g_parallel g) (fields line) ∧
    heap_own (Some L) (g_heap g') (opt_own r ++ own) ∧
    ∀ r', r = Some r' → r_key r' = key ∧ req_wf r') g.
Proof. intros. by eapply wp_parse_request. Qed.

Definition sample_line : bytes := str "run;12;5;1000;alt-ergo;-v;f.why".

Lemma parse_request_correct_witness :
  wp never (parse_request (Some <$> sample_line) 0 (Z.of_nat (length sample_line)) 4)
     (λ r g', genv_same initial_genv g' ∧ log_ok g' ∧
       (content <$> r, g_parallel g') = request_spec (g_parallel initial_genv) (fields sample_line) ∧
       heap_own (Some ∅) (g_heap g') (opt_own r ++ []) ∧
       ∀ r', r = Some r' → r_key r' = 4 ∧ req_wf r') initial_genv.
Proof.
  apply (parse_request_correct ∅ (Some <$> sample_line) 0 sample_line initial_genv [] 4).
  - by_computation.
  - by_computation.
  - intros i c Hi. change (Z.to_nat 0 + i)%nat with i. by rewrite list_lookup_fmap, Hi.
  - split_and!; [set_solver|constructor|simpl; set_solver|set_solver|reflexivity].
  - discriminate.
Defined.

(** The line that asks to run a command (without its newline), as README.server
    describes it. *)
Definition render_run (stdin : bool) (id : bytes) (timeout memlimit : Z) (cmd : bytes)
    (args : list bytes) : bytes :=
  join (str (if stdin then "runstdin" else "run") :: id :: dec timeout :: dec memlimit
        :: cmd :: args).

Lemma request_spec_render stdin id t m c args parallel :
  Forall (λ f, SEMI ∉ f) (id :: c :: args) → INT_MIN ≤ t ≤ INT_MAX → 0 ≤ m ≤ INT_MAX →
  request_spec parallel (fields (render_run stdin id t m c args)) =
  (Some (CRun id t m stdin c args), parallel).
Proof.
  intros Hsemi Ht Hm. unfold render_run. rewrite !Forall_cons in Hsemi.
  destruct Hsemi as (Hid & Hc & Hargs).
  rewrite fields_join; [|done|].
  - unfold request_spec. rewrite !atoi_dec by (unfold INT_MIN in *; lia).
    rewrite u32_small by (unfold UINT_MOD, INT_MAX in *; lia).
    by destruct stdin.
  - repeat apply Forall_cons_2; try done; try apply no_semi_dec.
    destruct stdin; apply (bool_decide_unpack _); vm_compute; exact I.
Qed.

(** C10: a run request survives the wire: the line a client sends for an id, a
    command and arguments without semicolons, a time limit that is an [int]
    and a memory limit that is a nonnegative [int] is parsed, without failure,
    to the run request with exactly these values. *)
Theorem run_request_roundtrip stdin id t m c args g own key :
  let line := render_run stdin id t m c args in
  Forall (λ f, SEMI ∉ f) (id :: c :: args) → INT_MIN ≤ t ≤ INT_MAX → 0 ≤ m ≤ INT_MAX →
  Z.of_nat (length line) ≤ alloc_limit → heap_ok (g_heap g) own → log_ok g →
  wp never (parse_request (Some <$> line) 0 (Z.of_nat (length line)) key)
     (λ r g', content <$> r = Some (CRun id t m stdin c args) ∧ g_parallel g' = g_parallel g) g.
Proof.
  intros line Hsemi Ht Hm Hlen Hok Hlog. eapply wp_parse_request; [done|done| |done..|].
  - intros i ch Hi. simpl. by rewrite list_lookup_fmap, Hi.
  - intros r g' (_ & _ & Hspec & _). unfold line in Hspec.
    rewrite request_spec_render in Hspec by done. by injection Hspec as -> ->.
Qed.

Lemma run_request_roundtrip_witness :
  let line := render_run true (str "7") (-1) 4000 (str "z3") [str "-in"; str "f"] in
  wp never (parse_request (Some <$> line) 0 (Z.of_nat (length line)) 4)
     (λ r g', content <$> r = Some (CRun (str "7") (-1) 4000 true (str "z3") [str "-in"; str "f"])
              ∧ g_parallel g' = g_parallel initial_genv) initial_genv.
Proof.
  apply (run_request_roundtrip true (str "7") (-1) 4000 (str "z3") [str "-in"; str "f"]
           initial_genv [] 4).
  - apply (bool_decide_unpack _). vm_compute. exact I.
  - by_computation.
  - by_computation.
  - by_computation.
  - split_and!; [set_solver|constructor|simpl; set_solver|done].
  - discriminate.
Defined.

(** C11: interrupting an id removes from the global queue exactly the requests
    with that id and keeps the others in their order: remove_from_queue never
    fails, does not grow the queue and does not touch the heap. *)
Theorem remove_from_queue_correct h own q id rs :
  heap_ok h own → c_addr id ∈ own →
  Forall (λ r, r_addr r ∈ own ∧ c_addr (r_id r) ∈ own) rs → queue_rep q rs →
  ∃ q', remove_from_queue q id h = Done q' h ∧
        queue_rep q' (filter (other_id id) rs) ∧ q_capacity q' = q_capacity q.
Proof.
  intros Hok Hid Hrs Hq.
  pose proof (wp_remove_from_queue never h own q id rs
    (λ q' h', h' = h ∧ queue_rep q' (filter (other_id id) rs) ∧ q_capacity q' = q_capacity q)
    Hok Hid Hrs Hq) as Hwp.
  unfold wp in Hwp. destruct (remove_from_queue q id h) as [q' h'| |[]]; [|by destruct Hwp..].
  destruct Hwp as (-> & ? & ?); [done|]. eauto.
Qed.

Definition sample_request (a b : positive) (id : string) : request :=
  Mk_request a 4 (Mk_cstr b (str id)) REQ_INTERRUPT.
Definition sample_request_queue : t_queue request :=
  Mk_queue [Some (sample_request 3 4 "2"); Some (sample_request 1 2 "1")] 1 2 2.

Lemma remove_from_queue_correct_witness :
  ∃ q', remove_from_queue sample_request_queue (Mk_cstr 5 (str "1"))
          (Mk_heap (list_to_set [1; 2; 3; 4; 5]%positive) 6)
        = Done q' (Mk_heap (list_to_set [1; 2; 3; 4; 5]%positive) 6) ∧
        queue_rep q' [sample_request 3 4 "2"] ∧ q_capacity q' = 2.
Proof.
  apply (remove_from_queue_correct
           (Mk_heap (list_to_set [1; 2; 3; 4; 5]%positive) 6) [1; 2; 3; 4; 5]%positive
           sample_request_queue (Mk_cstr 5 (str "1"))
           [sample_request 1 2 "1"; sample_request 3 4 "2"]).
  - split_and!; simpl; [set_solver| | |done].
    + apply (bool_decide_unpack _). vm_compute. exact I.
    + intros a. set_unfold. intros. destruct_or!; subst; done.
  - set_solver.
  - repeat constructor; set_solver.
  - unfold queue_rep; simpl; split_and!; try (unfold alloc_limit; lia).
    intros [|[|i]] x Hi; simpl in Hi; simplify_eq; reflexivity.
Defined.
