(* ===== verification/Proc.v ===== *)
(** * Running processes (src/server/proc.c)

    [t_proc P] is the struct of proc.h; [P] is the platform's part of it, the
    pid on Unix and the two handles on Windows. *)

From S2P Require Import Prelude CMem ArrayList.

Record t_proc (P : Type) := Mk_proc {
  p_addr : positive;
  p_os : P;
  p_client_key : Z;
  p_task_id : cstr;
  p_outfile : cstr;
}.
Arguments Mk_proc {_} _ _ _ _ _.
Arguments p_addr {_} _.
Arguments p_os {_} _.
Arguments p_client_key {_} _.
Arguments p_task_id {_} _.
Arguments p_outfile {_} _.

Section proc.
Context {P : Type}.

Definition init_process_list (parallel : Z) : res (t_list (t_proc P)) := init_list parallel.

(** kill_processes, for a program whose state [T] contains the heap and
    whose platform kills a process with [os_kill]. *)
Section kill.
Context {T : Type} (view : T → heap) (upd : heap → T → T) (os_kill : t_proc P → M T unit).

(** The loop from index [i] on, [n] iterations before its end. *)
Fixpoint kill_from (processes : t_list (t_proc P)) (id : cstr) (i : Z) (n : nat) : M T unit :=
  match n with
  | O => mret tt
  | S n' =>
      p ← lift (arr_get (l_data processes) i);
      _ ← zoom view upd (touch (p_addr p));
      tid ← zoom view upd (load (p_task_id p));
      txt ← zoom view upd (load id);
      _ ← whenM (strcmp_eq tid txt) (os_kill p);
      kill_from processes id (i + 1) n'
  end.

Definition kill_processes (processes : t_list (t_proc P)) (id : cstr) : M T unit :=
  kill_from processes id 0 (Z.to_nat (l_len processes)).
End kill.

Definition free_process (p : t_proc P) : M heap unit :=
  _ ← touch (p_addr p);
  _ ← free_str (p_outfile p);
  _ ← free_str (p_task_id p);
  free (p_addr p).

(** The blocks a process owns. *)
Definition proc_own (p : t_proc P) : list positive :=
  [p_addr p; c_addr (p_task_id p); c_addr (p_outfile p)].

Definition same_task (id : cstr) (p : t_proc P) : Prop :=
  strcmp_eq (c_txt (p_task_id p)) (c_txt id) = true.
#[global] Instance same_task_dec id p : Decision (same_task id p).
Proof. unfold same_task. apply _. Defined.

Lemma wp_free_process {L} E h own p (Q : unit → heap → Prop) :
  heap_own L h (proc_own p ++ own) → (∀ h', heap_own L h' own → Q tt h') →
  wp E (free_process p) Q h.
Proof.
  intros Hok HQ. unfold free_process, free_str, proc_own in *. apply wp_bind.
  eapply wp_touch; [exact Hok|set_solver|]. apply wp_bind.
  eapply (wp_free _ _ (c_addr (p_task_id p) :: p_addr p :: own)).
  { eapply heap_ok_perm; [exact Hok|]. solve_Permutation. }
  intros h1 Hok1. apply wp_bind. eapply wp_free; [exact Hok1|].
  intros h2 Hok2. eapply wp_free; [exact Hok2|done].
Qed.

(** The processes killed are those of the list with the task id, in order:
    [I ks] holds after [os_kill] has been applied to [ks]. *)
Lemma wp_kill_from {T} (view : T → heap) upd os_kill E own l kvs id
    (I : list (t_proc P) → T → Prop) ks i n (Q : unit → T → Prop) s :
  (∀ ks s, I ks s → heap_ok (view s) own ∧ upd (view s) s = s) →
  (∀ ks p s, I ks s → p ∈ kvs.*2 → same_task id p →
     wp E (os_kill p) (λ _, I (ks ++ [p])) s) →
  list_rep l kvs → c_addr id ∈ own →
  Forall (λ kp, p_addr kp.2 ∈ own ∧ c_addr (p_task_id kp.2) ∈ own) kvs →
  (i + n = length kvs)%nat → I ks s →
  (∀ s', I (ks ++ filter (same_task id) (drop i kvs).*2) s' → Q tt s') →
  wp E (kill_from view upd os_kill l id (Z.of_nat i) n) Q s.
Proof.
  intros HI Hkill Hl Hid Hkvs. revert ks i s. induction n as [|n IH]; intros ks i s Hn Hs HQ; simpl.
  - rewrite drop_ge in HQ by lia. apply wp_ret, HQ. by rewrite app_nil_r.
  - destruct (lookup_lt_is_Some_2 kvs i) as [[k p] Hp]; [lia|].
    rewrite (drop_S _ _ _ Hp) in HQ.
    assert (p_addr p ∈ own ∧ c_addr (p_task_id p) ∈ own) as [? ?].
    { by apply (proj1 (Forall_lookup _ _) Hkvs i (k, p)). }
    assert (p ∈ kvs.*2).
    { apply list_elem_of_lookup. exists i. by rewrite list_lookup_fmap, Hp. }
    pose proof Hl as (Hlen & Hcap & Hle & Hk & Hd & Hkv).
    destruct (Hkv _ _ _ Hp) as [_ Hdi]. destruct (HI _ _ Hs) as [Hok Hupd].
    apply wp_bind, wp_lift. rewrite (arr_get_ok _ _ p) by (rewrite ?Nat2Z.id; lia || done). simpl.
    apply wp_bind, wp_zoom. eapply wp_touch; [done..|]. rewrite Hupd.
    apply wp_bind, wp_zoom. eapply wp_load; [done..|]. rewrite Hupd.
    apply wp_bind, wp_zoom. eapply wp_load; [done..|]. rewrite Hupd.
    replace (Z.of_nat i + 1) with (Z.of_nat (S i)) by lia.
    change ((k, p) :: drop (S i) kvs).*2 with (p :: (drop (S i) kvs).*2) in HQ.
    rewrite filter_cons in HQ. rewrite strcmp_eq_c_str.
    apply wp_bind, wp_when; intros He.
    + rewrite decide_True in HQ by done. eapply wp_mono; [by apply Hkill|].
      intros [] s' Hs'. eapply IH; [lia|done|]. intros s''. by rewrite <- app_assoc; auto.
    + rewrite decide_False in HQ by (unfold same_task; congruence). by eapply IH; [lia|..].
Qed.

Lemma wp_kill_processes {T} (view : T → heap) upd os_kill E own l kvs id
    (I : list (t_proc P) → T → Prop) (Q : unit → T → Prop) s :
  (∀ ks s, I ks s → heap_ok (view s) own ∧ upd (view s) s = s) →
  (∀ ks p s, I ks s → p ∈ kvs.*2 → same_task id p →
     wp E (os_kill p) (λ _, I (ks ++ [p])) s) →
  list_rep l kvs → c_addr id ∈ own →
  Forall (λ kp, p_addr kp.2 ∈ own ∧ c_addr (p_task_id kp.2) ∈ own) kvs →
  I [] s → (∀ s', I (filter (same_task id) kvs.*2) s' → Q tt s') →
  wp E (kill_processes view upd os_kill l id) Q s.
Proof.
  intros HI Hkill Hl Hid Hkvs Hs HQ. unfold kill_processes. pose proof Hl as [-> _].
  rewrite Nat2Z.id. by eapply (wp_kill_from _ _ _ _ _ _ _ _ I [] 0).
Qed.
End proc.

(** A platform whose kill operation only records the processes killed. *)
Definition record_kill {P} (p : t_proc P) : M (heap * list (t_proc P)) unit :=
  modify (λ s, (s.1, s.2 ++ [p])).

(** kill_processes kills exactly the processes of the list whose task id
    is the given one, each once and in the order of the list, and changes
    nothing else. *)
Theorem kill_processes_exact {P} h own (l : t_list (t_proc P)) kvs id :
  heap_ok h own → list_rep l kvs → c_addr id ∈ own →
  Forall (λ kp, p_addr kp.2 ∈ own ∧ c_addr (p_task_id kp.2) ∈ own) kvs →
  kill_processes fst (λ h s, (h, s.2)) record_kill l id (h, []) =
  Done tt (h, filter (same_task id) kvs.*2).
Proof.
  intros Hok Hl Hid Hall.
  assert (wp never (kill_processes fst (λ h s, (h, s.2)) record_kill l id)
    (λ _ s, s = (h, filter (same_task id) kvs.*2)) (h, [])) as Hwp.
  { apply (wp_kill_processes _ _ _ _ own l kvs id (λ ks s, s = (h, ks))); try done.
    - by intros ks s ->.
    - by intros ks p s ->. }
  unfold wp in Hwp. destruct (kill_processes _ _ _ _ _ _) as [[] s'| |[]]; [by rewrite Hwp|done..].
Qed.

Definition sample_proc (a : positive) (id : string) : t_proc Z :=
  Mk_proc a (Z.pos a) 4 (Mk_cstr (a + 1) (str id)) (Mk_cstr (a + 2) []).
Definition sample_procs : t_list (t_proc Z) :=
  Mk_list [Some 1; Some 4; Some 7] [Some (sample_proc 1 "a"); Some (sample_proc 4 "b"); Some (sample_proc 7 "a")] 3 3.

Lemma kill_processes_exact_witness :
  let h := Mk_heap (list_to_set [1; 2; 4; 5; 7; 8; 10]%positive) 11 in
  kill_processes fst (λ h s, (h, s.2)) record_kill sample_procs (Mk_cstr 10 (str "a")) (h, []) =
  Done tt (h, [sample_proc 1 "a"; sample_proc 7 "a"]).
Proof.
  refine (kill_processes_exact (Mk_heap (list_to_set [1; 2; 4; 5; 7; 8; 10]%positive) 11)
    [1; 2; 4; 5; 7; 8; 10]%positive sample_procs
    [(1, sample_proc 1 "a"); (4, sample_proc 4 "b"); (7, sample_proc 7 "a")] (Mk_cstr 10 (str "a")) _ _ _ _).
  - split_and!.
    + intros a Ha. apply elem_of_list_to_set. exact Ha.
    + apply (bool_decide_unpack _). vm_compute. exact I.
    + intros a Ha. apply elem_of_list_to_set in Ha. revert a Ha. apply (proj1 (Forall_forall _ _)).
      repeat constructor.
    + done.
  - split_and!; try by_computation. intros [|[|[|i]]] k d Hi; simplify_eq/=; done.
  - apply (bool_decide_unpack _). vm_compute. exact I.
  - repeat constructor; apply (bool_decide_unpack _); vm_compute; exact I.
Defined.
