(* ===== verification/UnixOS.v ===== *)
(** * The operating-system interface of the Unix server

    The system calls that src/server/server-unix.c makes, as a class of
    operations on an abstract world, and the documented behaviour that the
    server relies on, as the laws of a second class. The server's definitions
    take the operations as a parameter; its theorems take the laws as named
    hypotheses. *)

From S2P Require Import Prelude CMem.
From Stdlib Require Import Floats.SpecFloat.

Definition POLLIN : Z := 1.
Definition POLLOUT : Z := 4.
Definition POLLERR : Z := 8.
Definition SIGKILL : Z := 9.
Definition O_NONBLOCK : Z := 2048.

(** What a child process does between [fork] and the end of its own life as a
    copy of the server. *)
Inductive rlimit_resource := RLIMIT_CPU | RLIMIT_AS | RLIMIT_CORE.
Inductive child_action :=
| ChSetrlimit (r : rlimit_resource) (cur max : Z)
| ChOpenStdin (file : cstr)            (* exits with 1 if it cannot open *)
| ChDup2 (fd target : Z)
| ChExec (cmd : cstr) (argv : list (option cstr)).   (* exits with 1 if it fails *)

(** A termination status: WIFSIGNALED, WIFEXITED, or neither. *)
Inductive wait_status :=
| WSignaled (sig : Z)
| WExited (code : Z)
| WOther.

Record rusage := Mk_rusage { ru_utime_sec : Z; ru_utime_usec : Z }.
Record wait_result := Mk_wait { wr_pid : Z; wr_status : wait_status; wr_usage : rusage }.

Inductive poll_result :=
| PollReady (revents : list Z)
| PollIntr                    (* -1 and errno is EINTR *)
| PollError.

(** The outcome of a one-byte transfer on the child pipe. *)
Inductive pipe_result :=
| PipeOk
| PipeIntr                    (* -1 and errno is EINTR *)
| PipeAgain                   (* -1 and errno is EAGAIN *)
| PipeError.

(** The calls that only return an [int]. *)
Inductive syscall :=
| SysOpenDot
| SysChdir (dir : bytes)
| SysFchdir (fd : Z)
| SysSocket
| SysUnlink (file : bytes)
| SysBind (sock : Z) (file : bytes)
| SysListen (sock : Z) (backlog : Z)
| SysClose (fd : Z)
| SysGetfl (fd : Z)
| SysSetfl (fd flags : Z)
| SysSigaction
| SysKill (pid sig : Z).

Class UnixOS (W : Type) := {
  os_call : syscall → W → Z * W;
  os_enoent : W → bool;                       (* errno is ENOENT *)
  os_getcwd : W → option bytes * W;           (* None is NULL *)
  os_fopen_log : W → bool * W;
  os_pipe : W → option (Z * Z) * W;
  os_accept : Z → W → Z * W;
  os_read : Z → Z → W → option bytes * W;
  os_write : Z → bytes → W → option Z * W;
  os_pipe_read : Z → W → pipe_result * W;
  os_pipe_write : Z → W → pipe_result * W;
  os_mkstemp : bytes → W → (Z * bytes) * W;
  os_fork : res (list child_action) → W → Z * W;
  os_wait3 : W → option wait_result * W;
  os_poll : list (Z * Z) → W → poll_result * W;
}.

(** The calls of the initialisation that return no descriptor. *)
Definition setup_call (c : syscall) : bool :=
  match c with
  | SysChdir _ | SysFchdir _ | SysUnlink _ | SysBind _ _ | SysListen _ _
  | SysGetfl _ | SysSetfl _ _ | SysSigaction => true
  | _ => false
  end.

(** The documented behaviour the server relies on. [os_fds] are the open
    descriptors and [os_children] the children not yet waited for. *)
Class UnixOSLaws (W : Type) `{UnixOS W} := {
  os_fds : W → gset Z;
  os_children : W → gset Z;

  (** A new descriptor is not already open. *)
  accept_law : ∀ sock w fd w', os_accept sock w = (fd, w') →
    os_children w' = os_children w ∧
    (fd = -1 ∧ os_fds w' = os_fds w ∨ 0 ≤ fd ∧ (fd ∉ os_fds w) ∧ os_fds w' = {[fd]} ∪ os_fds w);
  (** The name of a directory is not longer than an array can be. *)
  getcwd_law : ∀ w dir w', os_getcwd w = (dir, w') →
    (∀ d, dir = Some d → Z.of_nat (length d) ≤ alloc_limit) ∧ os_fds w' = os_fds w ∧ os_children w' = os_children w;
  (** [read] delivers at most the bytes asked for, [write] accepts at most
      the bytes given. *)
  read_law : ∀ fd n w bs w', 0 ≤ n → os_read fd n w = (Some bs, w') → Z.of_nat (length bs) ≤ n;
  read_frame : ∀ fd n w r w', os_read fd n w = (r, w') →
    os_fds w' = os_fds w ∧ os_children w' = os_children w;
  write_law : ∀ fd bs w n w', os_write fd bs w = (Some n, w') → 0 ≤ n ≤ Z.of_nat (length bs);
  write_frame : ∀ fd bs w r w', os_write fd bs w = (r, w') →
    os_fds w' = os_fds w ∧ os_children w' = os_children w;
  pipe_read_frame : ∀ fd w r w', os_pipe_read fd w = (r, w') →
    os_fds w' = os_fds w ∧ os_children w' = os_children w;
  pipe_write_frame : ∀ fd w r w', os_pipe_write fd w = (r, w') →
    os_fds w' = os_fds w ∧ os_children w' = os_children w;
  (** Closing a descriptor closes that one; a signal closes none. *)
  close_law : ∀ fd w r w', os_call (SysClose fd) w = (r, w') →
    os_fds w' = os_fds w ∖ {[fd]} ∧ os_children w' = os_children w;
  kill_frame : ∀ pid sig w r w', os_call (SysKill pid sig) w = (r, w') →
    os_fds w' = os_fds w ∧ os_children w' = os_children w;
  (** [open] and [socket] return a new descriptor or -1; the calls that set up
      the socket and the signal handler open and close none, and [bind] fails
      without a socket. *)
  open_law : ∀ c w fd w', c = SysOpenDot ∨ c = SysSocket → os_call c w = (fd, w') →
    os_children w' = os_children w ∧
    (fd = -1 ∧ os_fds w' = os_fds w ∨ 0 ≤ fd ∧ (fd ∉ os_fds w) ∧ os_fds w' = {[fd]} ∪ os_fds w);
  setup_frame : ∀ c w r w', setup_call c = true → os_call c w = (r, w') →
    os_fds w' = os_fds w ∧ os_children w' = os_children w;
  bind_law : ∀ file w r w', os_call (SysBind (-1) file) w = (r, w') → r = -1;
  (** [pipe] returns two new descriptors. *)
  pipe_law : ∀ w r w', os_pipe w = (r, w') →
    os_children w' = os_children w ∧
    match r with
    | None => os_fds w' = os_fds w
    | Some (a, b) => 0 ≤ a ∧ 0 ≤ b ∧ a ≠ b ∧ (a ∉ os_fds w) ∧ (b ∉ os_fds w) ∧
                     os_fds w' = {[a; b]} ∪ os_fds w
    end;
  (** [mkstemp] returns a new descriptor or -1, and replaces characters of
      the template. *)
  mkstemp_law : ∀ t w fd name w', os_mkstemp t w = ((fd, name), w') →
    length name = length t ∧ (no_nul t → no_nul name) ∧ os_children w' = os_children w ∧
    (fd = -1 ∧ os_fds w' = os_fds w ∨ 0 ≤ fd ∧ (fd ∉ os_fds w) ∧ os_fds w' = {[fd]} ∪ os_fds w);
  (** The pid of a new child is that of no child not yet waited for. *)
  fork_law : ∀ c w pid w', os_fork c w = (pid, w') →
    os_fds w' = os_fds w ∧
    (pid = -1 ∧ os_children w' = os_children w ∨
     0 < pid ∧ (pid ∉ os_children w) ∧ os_children w' = {[pid]} ∪ os_children w);
  (** [wait3] returns a child, once. *)
  wait3_law : ∀ w r w', os_wait3 w = (r, w') →
    os_fds w' = os_fds w ∧
    match r with
    | Some x => wr_pid x ∈ os_children w ∧ os_children w' = os_children w ∖ {[wr_pid x]}
    | None => os_children w' = os_children w
    end;
  (** [poll] reports one result per entry, and POLLOUT only where asked. *)
  poll_law : ∀ es w rs w', os_poll es w = (PollReady rs, w') →
    length rs = length es ∧
    ∀ i fd ev r, es !! i = Some (fd, ev) → rs !! i = Some r →
      Z.land r POLLOUT ≠ 0 → Z.land ev POLLOUT ≠ 0;
  poll_frame : ∀ es w r w', os_poll es w = (r, w') →
    os_fds w' = os_fds w ∧ os_children w' = os_children w;
}.

(** ** Path names

    [dirname] and [basename] of libgen.h. *)
Definition SLASH : ascii := "/"%char.

(** On the reversed path: without its leading slashes; the characters before
    the first slash, and those from it on. *)
Fixpoint strip_slashes (r : bytes) : bytes :=
  match r with
  | c :: r' => if bool_decide (c = SLASH) then strip_slashes r' else r
  | [] => []
  end.
Fixpoint until_slash (r : bytes) : bytes :=
  match r with
  | c :: r' => if bool_decide (c = SLASH) then [] else c :: until_slash r'
  | [] => []
  end.
Fixpoint from_slash (r : bytes) : bytes :=
  match r with
  | c :: r' => if bool_decide (c = SLASH) then r else from_slash r'
  | [] => []
  end.

Definition basename (path : bytes) : bytes :=
  match path, strip_slashes (reverse path) with
  | [], _ => str "."
  | _, [] => str "/"
  | _, r => reverse (until_slash r)
  end.

Definition dirname (path : bytes) : bytes :=
  match path, strip_slashes (reverse path) with
  | [], _ => str "."
  | _, [] => str "/"
  | _, r =>
      match from_slash r with
      | [] => str "."
      | r' => match strip_slashes r' with [] => str "/" | r'' => reverse r'' end
      end
  end.

(** ** Formatting of times

    [cpu_time] is a C [double]; its arithmetic is that of IEEE binary64 and
    ["%.2f"] rounds the exact value of the double to two decimals, ties to
    even. *)
Definition sf_of_Z (z : Z) : spec_float := binary_normalize 53 1024 z 0 false.

Definition cpu_time (u : rusage) : spec_float :=
  SFadd 53 1024 (sf_of_Z (ru_utime_sec u))
    (SFdiv 53 1024 (sf_of_Z (ru_utime_usec u)) (sf_of_Z 1000000)).

(** The integer nearest to [n / d], ties to even. *)
Definition round_div (n d : Z) : Z :=
  let q := n / d in
  let r := n mod d in
  if 2 * r <? d then q
  else if d <? 2 * r then q + 1
  else if Z.even q then q else q + 1.

Definition two_digits (n : Z) : bytes := [digit (n / 10); digit (n mod 10)].

Definition fmt_2f (x : spec_float) : bytes :=
  match x with
  | S754_zero false => str "0.00"
  | S754_zero true => str "-0.00"
  | S754_infinity false => str "inf"
  | S754_infinity true => str "-inf"
  | S754_nan => str "nan"
  | S754_finite neg m e =>
      let q := if 0 <=? e then Z.pos m * 2 ^ e * 100
               else round_div (Z.pos m * 100) (2 ^ (- e)) in
      (if neg : bool then str "-" else []) ++
      dec_nat (q / 100) ++ str "." ++ two_digits (q mod 100)
  end.

Lemma no_nul_app a b : no_nul a → no_nul b → no_nul (a ++ b).
Proof. unfold no_nul. set_solver. Qed.

Lemma no_nul_digit d : 0 ≤ d < 10 → digit d ≠ NUL.
Proof.
  intros Hd Heq. apply (f_equal char_code) in Heq. rewrite char_code_digit in Heq by done.
  change (char_code NUL) with 0 in Heq. lia.
Qed.

Lemma no_nul_dec_nat n : 0 ≤ n → no_nul (dec_nat n).
Proof.
  intros Hn. pose proof (no_nul_dec n) as H. unfold dec in H.
  by destruct (Z.ltb_spec n 0); [lia|].
Qed.

Lemma no_nul_two_digits n : 0 ≤ n < 100 → no_nul (two_digits n).
Proof.
  intros Hn. unfold two_digits, no_nul. rewrite !not_elem_of_cons. split_and!; [..|set_solver].
  - intros Heq. symmetry in Heq. revert Heq. apply no_nul_digit.
    split; [apply Z.div_pos; lia|apply Z.div_lt_upper_bound; lia].
  - intros Heq. symmetry in Heq. revert Heq. apply no_nul_digit, Z.mod_pos_bound. lia.
Qed.

Lemma round_div_nonneg n d : 0 ≤ n → 0 < d → 0 ≤ round_div n d.
Proof.
  intros. unfold round_div. pose proof (Z.div_pos n d ltac:(lia) ltac:(lia)).
  repeat case_match; lia.
Qed.

Lemma no_nul_fmt_2f x : no_nul (fmt_2f x).
Proof.
  assert (∀ s, forallb (λ c, negb (bool_decide (c = NUL))) (str s) = true → no_nul (str s)) as Hs.
  { intros s Hs Hin. rewrite forallb_forall in Hs.
    apply list_elem_of_In, Hs in Hin. by rewrite bool_decide_eq_true_2 in Hin. }
  destruct x as [[]|[]| |neg m e]; try (by apply Hs). unfold fmt_2f.
  set (q := if 0 <=? e then _ else _).
  assert (0 ≤ q) as Hq.
  { unfold q. case_match; [|apply round_div_nonneg; lia]. pose proof (Z.pow_nonneg 2 e). lia. }
  apply no_nul_app; [destruct neg; [by apply Hs|unfold no_nul; set_solver]|].
  apply no_nul_app; [apply no_nul_dec_nat, Z.div_pos; lia|].
  apply no_nul_app; [by apply Hs|]. apply no_nul_two_digits, Z.mod_pos_bound. lia.
Qed.

Example fmt_2f_half : fmt_2f (cpu_time (Mk_rusage 12 345678)) = str "12.35".
Proof. vm_compute. reflexivity. Qed.
