(* ===== verification/Messages.v ===== *)
(** * Requests and messages, for both servers

    What the Unix and the Windows server have in common: the texts of the two
    messages that a client gets, the requests that wait in the queue and the
    blocks they own, the bounds that parsing gives, and the globals that the
    options set. *)

From S2P Require Import Prelude CMem ArrayList Env Request UnixOS.

(** The program may stop early with [exit] or for lack of memory; the undefined
    [memcpy] on overlapping regions is let through only where [may_overlap]
    says so. *)
Class MayOverlap := may_overlap : Prop.
Definition any_stop `{MO : MayOverlap} {S} (x : stop S) : Prop := x = SOverlap → may_overlap.
Definition orderly {S} (E : stop S → Prop) : Prop := ∀ x, x ≠ SOverlap → E x.

(** ** Messages *)

(** The texts of the two messages. *)
Definition started_text (id : bytes) : bytes := str "S;" ++ id ++ [NEWLINE].
Definition finished_text (id : bytes) (exitcode : Z) (cpu : bytes) (timeout : bool) (file : bytes)
    : bytes :=
  str "F;" ++ id ++ [SEMI] ++ dec exitcode ++ [SEMI] ++ cpu ++ [SEMI]
  ++ dec (if timeout then 1 else 0) ++ [SEMI] ++ file ++ [NEWLINE].

Lemma no_nul_str (x : string) :
  forallb (λ c, negb (bool_decide (c = NUL))) (str x) = true → no_nul (str x).
Proof.
  intros Hs Hin. rewrite forallb_forall in Hs.
  apply list_elem_of_In, Hs in Hin. by rewrite bool_decide_eq_true_2 in Hin.
Qed.

Lemma no_nul_char c : c ≠ NUL → no_nul [c].
Proof. intros Hc Hin. apply list_elem_of_singleton in Hin. congruence. Qed.

Lemma no_nul_take n b : no_nul b → no_nul (take n b).
Proof. intros Hb Hin. apply Hb. apply elem_of_take in Hin as (i & ? & _). by eapply list_elem_of_lookup_2. Qed.

(** ** Requests *)

(** A queued request is a well-formed run request. *)
Definition run_req (r : request) : Prop := req_wf r ∧ req_type r ≠ REQ_INTERRUPT.

(** The blocks of a run request other than its id. *)
Definition req_rest (r : request) : list positive :=
  match req_type r with
  | REQ_RUN d => [r_addr r; c_addr (cmd d); args_addr d] ++ (c_addr <$> args d)
  | REQ_INTERRUPT => [r_addr r]
  end.

Lemma req_own_rest r : req_own r ≡ₚ c_addr (r_id r) :: req_rest r.
Proof. unfold req_own, req_rest. destruct (req_type r); simpl; solve_Permutation. Qed.

Lemma request_spec_parallel par fs : 1 ≤ par ≤ INT_MAX → 1 ≤ (request_spec par fs).2 ≤ INT_MAX.
Proof.
  intros Hp. unfold request_spec.
  assert (∀ b, atoi b ≤ INT_MAX) as Hmax by (intros; apply to_int_max).
  repeat case_match; simpl; bool_to_prop; auto with lia.
Qed.

(** The fields of a line, and the parts of a request, are not longer than the
    line. *)
Lemma fields_length line f : f ∈ fields line → (length f ≤ length line)%nat.
Proof.
  revert f. induction line as [|c line IH]; intros f; simpl.
  - rewrite list_elem_of_singleton. by intros ->.
  - case_bool_decide; [rewrite elem_of_cons; intros [->|Hf]; [simpl; lia|specialize (IH f Hf); lia]|].
    destruct (fields line) as [|g fs]; rewrite !elem_of_cons.
    + intros [->|[]%elem_of_nil]. simpl. lia.
    + intros [->|Hf]; [specialize (IH g ltac:(by left)); simpl; lia|]. specialize (IH f ltac:(by right)). lia.
Qed.

Definition content_id (r : request_content) : bytes :=
  match r with CRun id _ _ _ _ _ | CInterrupt id => id end.

Lemma request_spec_id par fs r : (request_spec par fs).1 = Some r → content_id r ∈ fs.
Proof.
  unfold request_spec. intros H. repeat case_match; simplify_eq/=; set_solver.
Qed.

(** ** The options *)

(** What parsing options without --logging leaves alone. *)
Definition quiet_globals (g : genv) : Prop :=
  g_heap g = Mk_heap ∅ 1 ∧ g_logging g = false ∧ 1 ≤ g_parallel g ≤ INT_MAX.

Definition no_logging (opts : list getopt_result) : Prop := Forall (λ o, opt_char o ≠ 108) opts.

Lemma wp_parse_options E einval opts optind argc (Q : unit → genv → Prop) :
  orderly E → no_logging opts → (∀ g, quiet_globals g → Q tt g) →
  wp E (parse_options einval opts optind argc) Q initial_genv.
Proof.
  intros HE Hopts HQ. unfold parse_options.
  assert (∀ g, quiet_globals g → wp E (parse_option_loop einval opts) (λ _, quiet_globals) g) as Hloop.
  { induction Hopts as [|o opts Ho _ IH]; intros g Hg; simpl; [done|].
    apply wp_bind. eapply wp_mono with (P := λ _, quiet_globals); [|intros [] g' Hg'; by apply IH].
    unfold parse_option. pose proof (to_int_max (strtol10 (opt_arg o))) as Hmax.
    destruct Hg as (Hh & Hl & Hp).
    destruct (opt_char o =? 0); [by apply HE|]. destruct (opt_char o =? 105); [by apply wp_modify|].
    destruct (opt_char o =? 106).
    { apply wp_bind, wp_modify. case_match; [by apply HE|]. apply wp_bind, wp_gets. simpl.
      destruct (Z.leb_spec (to_int (strtol10 (opt_arg o))) 0); [by apply HE|].
      apply wp_ret. split_and!; simpl; try done; lia. }
    destruct (Z.eqb_spec (opt_char o) 108); [done|].
    destruct (opt_char o =? 115); [by apply wp_modify|by apply HE]. }
  apply wp_bind. eapply wp_mono; [apply Hloop; by vm_compute|]. intros [] g Hg.
  case_match; [by apply HE|]. apply wp_bind, wp_gets. case_match; [by apply wp_ret, HQ|by apply HE].
Qed.

Lemma init_list_safe {A} n :
  1 ≤ n → safe True (@init_list A n) (λ l, list_rep l [] ∧ n ≤ alloc_limit).
Proof.
  intros Hn. destruct (decide (n ≤ alloc_limit)) as [Hle|Hgt].
  - destruct (@init_list_rep A n) as (l & -> & Hl); [lia|done].
  - unfold init_list. simpl. unfold assertion. repeat (case_match; try done; bool_to_prop; try lia); simpl.
    all: unfold arr_alloc; guard_false ((0 <=? n) && (n <=? alloc_limit)); done.
Qed.
