(* ===== verification/ServerUnix.v ===== *)
(** * The Unix server (src/server/server-unix.c)

    The state [ust] gathers the globals of the server; every function of the
    file is a computation on it. Client records are mutable and shared through
    pointers: the list [clients] holds addresses, and [u_store] the records.
    The event loop of [main] is the step function [main_step] on a control
    point and the state. *)

From S2P Require Import Prelude CMem ArrayList Queue ReadBuf WriteBuf Env Request Proc UnixOS.

Definition READ_ONCE : Z := 1024.

Record t_client := Mk_client {
  cl_fd : Z;
  cl_readbuf : t_readbuf;
  cl_writebuf : t_writebuf;
}.

Record pollfd := Mk_pollfd {
  pfd_fd : Z;
  pfd_events : Z;
  pfd_revents : Z;
}.

Record ust (W : Type) := Mk_ust {
  u_env : genv;
  u_queue : t_queue request;
  u_processes : t_list (t_proc Z);
  u_clients : option (t_list positive);     (* None is NULL *)
  u_store : gmap positive t_client;
  u_poll_list : list (option pollfd);
  u_poll_num : Z;
  u_poll_len : Z;
  u_server_sock : Z;
  u_cpipe : Z * Z;
  u_current_dir : option bytes;             (* None is NULL *)
  u_world : W;
}.
Arguments Mk_ust {_} _ _ _ _ _ _ _ _ _ _ _ _.
Arguments u_env {_} _.
Arguments u_queue {_} _.
Arguments u_processes {_} _.
Arguments u_clients {_} _.
Arguments u_store {_} _.
Arguments u_poll_list {_} _.
Arguments u_poll_num {_} _.
Arguments u_poll_len {_} _.
Arguments u_server_sock {_} _.
Arguments u_cpipe {_} _.
Arguments u_current_dir {_} _.
Arguments u_world {_} _.

Section setters.
Context {W : Type}.
Implicit Types (s : ust W).

Definition set_env (x : genv) s : ust W :=
  Mk_ust x (u_queue s) (u_processes s) (u_clients s) (u_store s) (u_poll_list s) (u_poll_num s)
    (u_poll_len s) (u_server_sock s) (u_cpipe s) (u_current_dir s) (u_world s).
Definition set_queue (x : t_queue request) s : ust W :=
  Mk_ust (u_env s) x (u_processes s) (u_clients s) (u_store s) (u_poll_list s) (u_poll_num s)
    (u_poll_len s) (u_server_sock s) (u_cpipe s) (u_current_dir s) (u_world s).
Definition set_processes (x : t_list (t_proc Z)) s : ust W :=
  Mk_ust (u_env s) (u_queue s) x (u_clients s) (u_store s) (u_poll_list s) (u_poll_num s)
    (u_poll_len s) (u_server_sock s) (u_cpipe s) (u_current_dir s) (u_world s).
Definition set_clients (x : t_list positive) s : ust W :=
  Mk_ust (u_env s) (u_queue s) (u_processes s) (Some x) (u_store s) (u_poll_list s) (u_poll_num s)
    (u_poll_len s) (u_server_sock s) (u_cpipe s) (u_current_dir s) (u_world s).
Definition set_store (x : gmap positive t_client) s : ust W :=
  Mk_ust (u_env s) (u_queue s) (u_processes s) (u_clients s) x (u_poll_list s) (u_poll_num s)
    (u_poll_len s) (u_server_sock s) (u_cpipe s) (u_current_dir s) (u_world s).
Definition set_poll (l : list (option pollfd)) (num len : Z) s : ust W :=
  Mk_ust (u_env s) (u_queue s) (u_processes s) (u_clients s) (u_store s) l num len
    (u_server_sock s) (u_cpipe s) (u_current_dir s) (u_world s).
Definition set_server_sock (x : Z) s : ust W :=
  Mk_ust (u_env s) (u_queue s) (u_processes s) (u_clients s) (u_store s) (u_poll_list s)
    (u_poll_num s) (u_poll_len s) x (u_cpipe s) (u_current_dir s) (u_world s).
Definition set_cpipe (x : Z * Z) s : ust W :=
  Mk_ust (u_env s) (u_queue s) (u_processes s) (u_clients s) (u_store s) (u_poll_list s)
    (u_poll_num s) (u_poll_len s) (u_server_sock s) x (u_current_dir s) (u_world s).
Definition set_current_dir (x : option bytes) s : ust W :=
  Mk_ust (u_env s) (u_queue s) (u_processes s) (u_clients s) (u_store s) (u_poll_list s)
    (u_poll_num s) (u_poll_len s) (u_server_sock s) (u_cpipe s) x (u_world s).
Definition set_world (x : W) s : ust W :=
  Mk_ust (u_env s) (u_queue s) (u_processes s) (u_clients s) (u_store s) (u_poll_list s)
    (u_poll_num s) (u_poll_len s) (u_server_sock s) (u_cpipe s) (u_current_dir s) x.
End setters.

(** ** The child side of create_process *)

(** The loop that copies the arguments after the command. *)
Fixpoint fill_argv (unix_argv : list (option (option cstr))) (argv : list cstr) (i n : nat)
    : res (list (option (option cstr))) :=
  match n with
  | O => mret unix_argv
  | S n' =>
      match argv !! i with
      | Some a =>
          unix_argv ← arr_set unix_argv (Z.of_nat i + 1) (Some a);
          fill_argv unix_argv argv (S i) n'
      | None => Fail Undefined
      end
  end.

(** With [usestdin] the last argument is the file for the standard input. *)
Definition arg_count (argc : Z) (usestdin : bool) : Z := if usestdin then argc - 1 else argc.

Definition build_argv (cmd : cstr) (argc : Z) (argv : list cstr) (usestdin : bool)
    : res (list (option (option cstr))) :=
  let count := arg_count argc usestdin in
  unix_argv ← arr_alloc (count + 2);
  unix_argv ← arr_set unix_argv 0 (Some cmd);
  unix_argv ← arr_set unix_argv (count + 1) None;
  fill_argv unix_argv argv 0 (Z.to_nat count).

Definition child_limits (timelimit memlimit : Z) : list child_action :=
  (if 0 <? timelimit then [ChSetrlimit RLIMIT_CPU timelimit timelimit] else []) ++
  (if 0 <? memlimit then
     [ChSetrlimit RLIMIT_AS (u64 (u64 (memlimit * 1024) * 1024))
                            (u64 (u64 (memlimit * 1024) * 1024))] else []) ++
  (if (0 <? timelimit) || (0 <? memlimit) then [ChSetrlimit RLIMIT_CORE 0 0] else []).

Definition child_program (cmd : cstr) (argc : Z) (argv : list cstr)
    (unix_argv : list (option (option cstr)))
    (usestdin : bool) (outfile timelimit memlimit : Z) : res (list child_action) :=
  let count := arg_count argc usestdin in
  infile ← (if usestdin then
              _ ← defined (0 <=? count);
              match argv !! Z.to_nat count with
              | Some f => mret [ChOpenStdin f]
              | None => Fail Undefined
              end
            else mret []);
  args ← mapM (λ c, match c with Some p => Ok p | None => Fail Undefined end) unix_argv;
  mret (child_limits timelimit memlimit ++ infile ++
        [ChDup2 outfile 1; ChDup2 outfile 2; ChExec cmd args]).

Section server.
Context {W : Type} `{OS : UnixOS W}.

Local Abbreviation U := (M (ust W)).

Definition on_env {A} (m : M genv A) : U A := zoom u_env set_env m.
Definition heapU {A} (m : M heap A) : U A := on_env (on_heap m).

(** A system call. *)
Definition sys {A} (f : W → A * W) : U A := λ s,
  let '(a, w) := f (u_world s) in Done a (set_world w s).

(** [*client] and an assignment through [client]. *)
Definition client_get (a : positive) : U t_client := λ s,
  match u_store s !! a with Some c => Done c s | None => Failed Undefined end.
Definition client_put (a : positive) (c : t_client) : U unit := λ s,
  match u_store s !! a with
  | Some _ => Done tt (set_store (<[a := c]> (u_store s)) s)
  | None => Failed Undefined
  end.

(** The list [clients] where the code dereferences it. *)
Definition the_clients : U (t_list positive) :=
  c ← gets u_clients;
  match c with Some l => mret l | None => failM Undefined end.

(** ** Shutdown *)

Fixpoint close_clients_from (l : t_list positive) (i : Z) (n : nat) : U unit :=
  match n with
  | O => mret tt
  | S n' =>
      a ← lift (arr_get (l_data l) i);
      c ← client_get a;
      _ ← sys (os_call (SysClose (cl_fd c)));
      close_clients_from l (i + 1) n'
  end.

Definition shutdown_with_msg {A} (msg : string) : U A :=
  sock ← gets u_server_sock;
  _ ← (if negb (sock =? -1) then _ ← sys (os_call (SysClose sock)); mret tt else mret tt);
  c ← gets u_clients;
  _ ← match c with
      | Some l => close_clients_from l 0 (Z.to_nat (list_length l))
      | None => mret tt
      end;
  on_env (logging_shutdown (str msg)).

(** ** The poll list *)

Definition add_to_poll_list (sock events : Z) : U unit :=
  s ← get;
  '(l, len) ← (if u_poll_num s =? u_poll_len s then
                 len ← lift (int_op (u_poll_len s * 2));
                 l ← lift (arr_realloc (u_poll_list s) len);
                 mret (l, len)
               else mret (u_poll_list s, u_poll_len s));
  l ← lift (arr_set l (u_poll_num s) (Mk_pollfd sock events 0));
  num ← lift (int_op (u_poll_num s + 1));
  modify (set_poll l num len).

(** The index of the first entry for [fd]; [None] is NULL. *)
Fixpoint poll_lookup_from (l : list (option pollfd)) (fd : Z) (i : Z) (n : nat) : res (option Z) :=
  match n with
  | O => mret None
  | S n' =>
      e ← arr_get l i;
      if pfd_fd e =? fd then mret (Some i) else poll_lookup_from l fd (i + 1) n'
  end.

Definition poll_list_lookup (fd : Z) : U (option Z) :=
  s ← get;
  lift (poll_lookup_from (u_poll_list s) fd 0 (Z.to_nat (u_poll_num s))).

Fixpoint poll_clean_from (l : list (option pollfd)) (i num : Z) (n : nat)
    : res (list (option pollfd) * Z) :=
  match n with
  | O => mret (l, num)
  | S n' =>
      if i <? num then
        e ← arr_get l i;
        if pfd_fd e =? -1 then
          e' ← arr_get l (num - 1);
          l ← arr_set l i e';
          poll_clean_from l i (num - 1) n'
        else poll_clean_from l (i + 1) num n'
      else mret (l, num)
  end.

Definition poll_list_clean : U unit :=
  s ← get;
  '(l, num) ← lift (poll_clean_from (u_poll_list s) 0 (u_poll_num s) (Z.to_nat (u_poll_num s)));
  modify (set_poll l num (u_poll_len s)).

Definition poll_list_remove (fd : Z) : U unit :=
  s ← get;
  i ← lift (poll_lookup_from (u_poll_list s) fd 0 (Z.to_nat (u_poll_num s)));
  match i with
  | Some i =>
      e ← lift (arr_get (u_poll_list s) i);
      l ← lift (arr_set (u_poll_list s) i (Mk_pollfd (-1) (pfd_events e) 0));
      modify (set_poll l (u_poll_num s) (u_poll_len s))
  | None => mret tt
  end.

(** [poll_list[i].events = f(poll_list[i].events)]. *)
Definition poll_set_events (i : Z) (f : Z → Z) : U unit :=
  s ← get;
  e ← lift (arr_get (u_poll_list s) i);
  l ← lift (arr_set (u_poll_list s) i (Mk_pollfd (pfd_fd e) (f (pfd_events e)) (pfd_revents e)));
  modify (set_poll l (u_poll_num s) (u_poll_len s)).

(** ** Files and processes *)

(** The descriptor and the name of the file; the template is written into a
    block of [strlen(dir) + 12] characters. [strlen(NULL)] is undefined. *)
Definition open_temp_file (dir : option bytes) : U (Z * cstr) :=
  dir ← lift (match dir with Some dir => Ok dir | None => Fail Undefined end);
  let len := strlen dir in
  let template := c_str dir ++ str "/why3" ++ str "XXXXXX" in
  _ ← lift (defined (Z.of_nat (length template) + 1 <=? u64 (len + 12)));
  a ← heapU malloc;
  '(fd, name) ← sys (os_mkstemp template);
  mret (fd, Mk_cstr a name).

Definition create_process (cmd : cstr) (argc : Z) (argv : list cstr) (usestdin : bool)
    (outfile timelimit memlimit : Z) : U Z :=
  block ← heapU malloc;
  unix_argv ← lift (build_argv cmd argc argv usestdin);
  pid ← sys (os_fork (child_program cmd argc argv unix_argv usestdin outfile timelimit memlimit));
  if pid =? -1 then shutdown_with_msg "failed to fork"
  else if 0 <? pid then
    _ ← heapU (free block);
    mret pid
  else exit 1.

(** ** Messages to clients *)

Definition queue_write (client : positive) (msgbuf : cstr) : U unit :=
  c ← client_get client;
  wb ← heapU (push_write_data (cl_writebuf c) msgbuf);
  _ ← client_put client (Mk_client (cl_fd c) (cl_readbuf c) wb);
  entry ← poll_list_lookup (cl_fd c);
  match entry with
  | Some i => poll_set_events i (λ ev, Z.lor ev POLLOUT)
  | None => mret tt
  end.

Definition write_to_client (client : positive) (entry : Z) : U unit :=
  c ← client_get client;
  '(wb, (m, off), need_write) ← lift (prepare_write (cl_writebuf c));
  _ ← client_put client (Mk_client (cl_fd c) (cl_readbuf c) wb);
  txt ← heapU (load m);
  has_written ← sys (os_write (cl_fd c) (take (Z.to_nat need_write) (drop (Z.to_nat off) txt)));
  _ ← match has_written with
      | Some n =>
          wb ← heapU (have_written wb n);
          client_put client (Mk_client (cl_fd c) (cl_readbuf c) wb)
      | None => mret tt
      end;
  c ← client_get client;
  if negb (has_write_data (cl_writebuf c))
  then poll_set_events entry (λ ev, Z.land ev (Z.lnot POLLOUT))
  else mret tt.

(** [snprintf(msgbuf, len, ...)] into a block of [len] characters, where the
    formatted text is [txt]: the block and the returned [int], which is -1
    when the length of the text is not an [int]. The callers compare it with
    a [size_t]. *)
Definition snprintf (len : Z) (txt : bytes) : U (cstr * Z) :=
  m ← heapU (new_str (take (Z.to_nat (len - 1)) txt));
  mret (m, if Z.of_nat (length txt) <=? INT_MAX then Z.of_nat (length txt) else -1).

(** The allocation of the block of a message: [malloc] returns NULL for a size
    that no block can have. *)
Definition check_msgbuf (len : Z) : U unit :=
  if alloc_limit <? len then shutdown_with_msg "error when allocating client msg" else mret tt.

Definition send_started_msg_to_client (client : positive) (id : cstr) : U unit :=
  idtxt ← heapU (load id);
  let len := u64 (strlen idtxt + 4) in
  _ ← check_msgbuf len;
  '(msgbuf, used) ← snprintf len (str "S;" ++ idtxt ++ [NEWLINE]);
  if negb (u64 used =? u64 (len - 1)) then shutdown_with_msg "message for client too long"
  else queue_write client msgbuf.

Definition send_msg_to_client (client : positive) (id : cstr) (exitcode : Z) (cpu : bytes)
    (timeout : bool) (outfile : cstr) : U unit :=
  idtxt ← heapU (load id);
  filetxt ← heapU (load outfile);
  let len := u64 (strlen idtxt + 3 + 23 + (strlen filetxt + 1)) in
  _ ← check_msgbuf len;
  '(msgbuf, used) ← snprintf len
     (str "F;" ++ idtxt ++ [SEMI] ++ dec exitcode ++ [SEMI] ++ cpu ++ [SEMI]
      ++ dec (if timeout then 1 else 0) ++ [SEMI] ++ filetxt ++ [NEWLINE]);
  if len <=? u64 used then shutdown_with_msg "message for client too long"
  else queue_write client msgbuf.

(** ** Children *)

(** The exit code and the timeout flag reported for a status. *)
Definition report_status (st : wait_status) : Z * bool :=
  match st with
  | WSignaled sig => (sig, true)
  | WExited code => (code, false)
  | WOther => (1, false)
  end.

(** [n] bounds the iterations; every iteration reaps a process of the list. *)
Fixpoint handle_child_loop (n : nat) : U unit :=
  match n with
  | O => failM Undefined
  | S n' =>
      r ← sys os_wait3;
      match r with
      | None => mret tt
      | Some x =>
          let '(exit_code, is_timeout) := report_status (wr_status x) in
          ps ← gets u_processes;
          child ← lift (list_lookup ps (wr_pid x));
          ps ← lift (list_remove ps (wr_pid x));
          _ ← modify (set_processes ps);
          match child with
          | None => failM Undefined
          | Some child =>
              _ ← heapU (touch (p_addr child));
              cs ← the_clients;
              client ← lift (list_lookup cs (p_client_key child));
              _ ← match client with
                  | Some client =>
                      send_msg_to_client client (p_task_id child) exit_code
                        (fmt_2f (cpu_time (wr_usage x))) is_timeout (p_outfile child)
                  | None => mret tt
                  end;
              _ ← heapU (free_process child);
              handle_child_loop n'
          end
      end
  end.

Definition handle_child_events : U unit :=
  ps ← gets u_processes;
  handle_child_loop (S (Z.to_nat (list_length ps))).

Definition run_request (r : request) : U unit :=
  _ ← heapU (touch (r_addr r));
  cs ← the_clients;
  client ← lift (list_lookup cs (r_key r));
  match client with
  | None => mret tt
  | Some client =>
      match req_type r with
      | REQ_INTERRUPT => failM Undefined
      | REQ_RUN d =>
          dir ← gets u_current_dir;
          '(out_descr, outfile) ← open_temp_file dir;
          id ← create_process (cmd d) (numargs d) (args d) (usestdin d) out_descr
                 (timeout d) (memlimit d);
          _ ← sys (os_call (SysClose out_descr));
          a ← heapU malloc;
          ps ← gets u_processes;
          ps ← lift (list_append ps id (Mk_proc a id (r_key r) (r_id r) outfile));
          _ ← modify (set_processes ps);
          send_started_msg_to_client client (r_id r)
      end
  end.

(** ** Client data *)

Definition os_kill (p : t_proc Z) : U unit :=
  _ ← sys (os_call (SysKill (p_os p) SIGKILL)); mret tt.

(** What handle_msg does with the parsed request. *)
Definition handle_request (r : option request) : U unit :=
  match r with
  | None => mret tt
  | Some r =>
      match req_type r with
      | REQ_RUN _ =>
          ps ← gets u_processes;
          parallel ← gets (λ s, g_parallel (u_env s));
          if list_length ps <? parallel then
            _ ← run_request r;
            heapU (free_request (Some r))
          else
            q ← gets u_queue;
            q ← lift (queue_push q r);
            modify (set_queue q)
      | REQ_INTERRUPT =>
          idtxt ← heapU (load (r_id r));
          _ ← on_env (log_msg (str "Why3 server: removing id '" ++ idtxt ++ str "' from queue"));
          q ← gets u_queue;
          q ← heapU (remove_from_queue q (r_id r));
          _ ← modify (set_queue q);
          ps ← gets u_processes;
          _ ← kill_processes (λ s, g_heap (u_env s)) (λ h s, set_env (set_heap h (u_env s)) s)
                os_kill ps (r_id r);
          heapU (free_request (Some r))
      end
  end.

(** The inner loop: the index of the next newline, or [max]. *)
Fixpoint find_newline (buf : list (option ascii)) (cur : Z) (n : nat) : res Z :=
  match n with
  | O => mret cur
  | S n' =>
      c ← arr_get buf cur;
      if bool_decide (c = NEWLINE) then mret cur else find_newline buf (cur + 1) n'
  end.

(** The outer loop; the result is the final value of [old]. *)
Fixpoint handle_lines (buf : list (option ascii)) (max key cur old : Z) (n : nat) : U Z :=
  match n with
  | O => mret old
  | S n' =>
      if cur <? max then
        cur ← lift (find_newline buf cur (Z.to_nat (max - cur)));
        if cur =? max then mret old
        else
          r ← on_env (parse_request buf old (cur - old) key);
          _ ← handle_request r;
          handle_lines buf max key (cur + 1) (cur + 1) n'
      else mret old
  end.

Definition handle_msg (client : positive) (key : Z) : U unit :=
  c ← client_get client;
  let buf := rb_data (cl_readbuf c) in
  let max := to_int (rb_len (cl_readbuf c)) in
  old ← handle_lines buf max key 0 0 (Z.to_nat max);
  if 0 <? old then
    c ← client_get client;
    rb ← lift (have_taken (cl_readbuf c) old);
    client_put client (Mk_client (cl_fd c) rb (cl_writebuf c))
  else mret tt.

Definition shutdown_server : U unit :=
  s ← gets (λ s, g_socketname (u_env s));
  _ ← sys (os_call (SysUnlink (default [] s)));
  shutdown_with_msg "last client disconnected".

(** The array of the read buffer is part of the client record: [free_readbuf]
    is the removal of the record from the store. *)
Definition close_client (client : positive) : U unit :=
  c ← client_get client;
  cs ← the_clients;
  cs ← lift (list_remove cs (cl_fd c));
  _ ← modify (set_clients cs);
  _ ← poll_list_remove (cl_fd c);
  _ ← heapU (free_writebuf (cl_writebuf c));
  _ ← sys (os_call (SysClose (cl_fd c)));
  _ ← heapU (free client);
  _ ← modify (λ s, set_store (delete client (u_store s)) s);
  single ← gets (λ s, g_single_client (u_env s));
  if single && list_is_empty cs then shutdown_server else mret tt.

Definition read_on_client (client : positive) : U unit :=
  c ← client_get client;
  '(rb, off) ← lift (prepare_read (cl_readbuf c) READ_ONCE);
  _ ← client_put client (Mk_client (cl_fd c) rb (cl_writebuf c));
  num_read ← sys (os_read (cl_fd c) READ_ONCE);
  match num_read with
  | None => mret tt
  | Some [] => close_client client
  | Some bs =>
      rb ← lift (os_fill rb off bs);
      rb ← lift (have_read rb (Z.of_nat (length bs)));
      _ ← client_put client (Mk_client (cl_fd c) rb (cl_writebuf c));
      handle_msg client (cl_fd c)
  end.

Definition server_accept_client : U unit :=
  sock ← gets u_server_sock;
  fd ← sys (os_accept sock);
  if fd =? -1 then shutdown_with_msg "error accepting a client"
  else
    client ← heapU malloc;
    rb ← lift (init_readbuf READ_ONCE);
    parallel ← gets (λ s, g_parallel (u_env s));
    wb ← lift (init_writebuf parallel);
    _ ← modify (λ s, set_store (<[client := Mk_client fd rb wb]> (u_store s)) s);
    cs ← the_clients;
    cs ← lift (list_append cs fd client);
    _ ← modify (set_clients cs);
    add_to_poll_list fd POLLIN.

(** The signal handler of the self-pipe trick. *)
Definition sigchld_handle : U unit :=
  p ← gets u_cpipe;
  r ← sys (os_pipe_write p.2);
  match r with
  | PipeError => shutdown_with_msg "error writing to pipe"
  | _ => mret tt
  end.

Fixpoint schedule_loop (n : nat) : U unit :=
  match n with
  | O => mret tt
  | S n' =>
      s ← get;
      if (list_length (u_processes s) <? g_parallel (u_env s))
         && negb (queue_is_empty (u_queue s)) then
        '(r, q) ← lift (queue_pop (u_queue s));
        _ ← modify (set_queue q);
        _ ← run_request r;
        _ ← heapU (free_request (Some r));
        schedule_loop n'
      else mret tt
  end.

Definition schedule_new_jobs : U unit :=
  q ← gets u_queue;
  schedule_loop (Z.to_nat (queue_length q)).

(** ** Initialisation *)

(** [fcntl] with F_GETFL, then with F_SETFL and O_NONBLOCK added. *)
Definition set_nonblock (fd : Z) : U unit :=
  flags ← sys (os_call (SysGetfl fd));
  if flags =? -1 then shutdown_with_msg "error getting flags on pipe"
  else
    r ← sys (os_call (SysSetfl fd (Z.lor flags O_NONBLOCK)));
    if r =? -1 then shutdown_with_msg "error setting flags on pipe" else mret tt.

Definition setup_child_pipe : U unit :=
  p ← sys os_pipe;
  match p with
  | None => shutdown_with_msg "error creating pipe"
  | Some p =>
      _ ← modify (set_cpipe p);
      _ ← set_nonblock p.1;
      _ ← set_nonblock p.2;
      r ← sys (os_call SysSigaction);
      if r =? -1 then shutdown_with_msg "error installing signal handler"
      else add_to_poll_list p.1 POLLIN
  end.

Definition get_cur_dir : U (option bytes) := sys os_getcwd.

(** The size of [sun_path] on Linux. *)
Definition unix_path_max : Z := 108.

(** Stop with [msg] if the call returns -1. *)
Definition call_or_stop (c : syscall) (msg : string) : U Z :=
  r ← sys (os_call c);
  if r =? -1 then shutdown_with_msg msg else mret r.

Definition server_init_listening (socketname : bytes) (parallel : Z) : U unit :=
  dir ← get_cur_dir;
  _ ← modify (set_current_dir dir);
  socketname_copy1 ← heapU (new_str socketname);
  socketname_copy2 ← heapU (new_str socketname);
  let dirn := dirname socketname in
  let filen := basename socketname in
  cur_dir ← call_or_stop SysOpenDot "error when opening current directory";
  _ ← call_or_stop (SysChdir dirn) "error when switching to socket directory";
  logging ← gets (λ s, g_logging (u_env s));
  opened ← (if logging : bool then sys os_fopen_log else mret false);
  _ ← on_env (init_logging opened);
  q ← lift init_request_queue;
  _ ← modify (set_queue q);
  cs ← lift (init_list parallel);
  _ ← modify (set_clients cs);
  len ← lift (int_op (2 + parallel));
  l ← lift (arr_alloc len);
  _ ← modify (set_poll l 0 len);
  _ ← (if unix_path_max <? u64 (strlen filen + 1)
       then shutdown_with_msg "basename of filename too long" else mret tt);
  sock ← sys (os_call SysSocket);
  _ ← modify (set_server_sock sock);
  r ← sys (os_call (SysUnlink filen));
  enoent ← gets (λ s, os_enoent (u_world s));
  _ ← (if (r =? -1) && negb enoent then shutdown_with_msg "error deleting socket" else mret tt);
  _ ← call_or_stop (SysBind sock filen) "error binding socket";
  backlog ← lift (int_op (parallel * 2));
  _ ← call_or_stop (SysListen sock backlog) "error listening on socket";
  _ ← call_or_stop (SysFchdir cur_dir) "error when switching back to current directory";
  _ ← call_or_stop (SysClose cur_dir) "error closing descriptor to current dir";
  _ ← heapU (free_str socketname_copy1);
  _ ← heapU (free_str socketname_copy2);
  _ ← add_to_poll_list sock POLLIN;
  parallel ← gets (λ s, g_parallel (u_env s));
  ps ← lift (init_process_list parallel);
  _ ← modify (set_processes ps);
  setup_child_pipe.

(** ** The event loop *)

(** The control points of [main]: the top of the [while (1)], the call of
    [poll], the test of the [for] loop and the read of the child pipe. *)
Inductive main_pc :=
| PTop
| PPoll
| PFor (i : Z)
| PPipe (i : Z).

(** The first [poll_num] entries. *)
Fixpoint poll_entries (l : list (option pollfd)) (i : Z) (n : nat) : res (list pollfd) :=
  match n with
  | O => mret []
  | S n' => e ← arr_get l i; es ← poll_entries l (i + 1) n'; mret (e :: es)
  end.

(** [poll] stores its results in the entries. *)
Fixpoint store_revents (l : list (option pollfd)) (i : Z) (rs : list Z)
    : res (list (option pollfd)) :=
  match rs with
  | [] => mret l
  | r :: rs' =>
      e ← arr_get l i;
      l ← arr_set l i (Mk_pollfd (pfd_fd e) (pfd_events e) r);
      store_revents l (i + 1) rs'
  end.

(** The body of the [for] loop for an entry of a client. *)
Definition handle_client_entry (i : Z) (e : pollfd) : U unit :=
  cs ← the_clients;
  client ← lift (list_lookup cs (pfd_fd e));
  match client with
  | None => mret tt
  | Some client =>
      if negb (Z.land (pfd_revents e) POLLERR =? 0) then close_client client
      else if negb (Z.land (pfd_revents e) POLLOUT =? 0) then write_to_client client i
      else if negb (Z.land (pfd_revents e) POLLIN =? 0) then read_on_client client
      else mret tt
  end.

Definition main_step (pc : main_pc) : U main_pc :=
  match pc with
  | PTop =>
      _ ← schedule_new_jobs;
      _ ← poll_list_clean;
      mret PPoll
  | PPoll =>
      s ← get;
      es ← lift (poll_entries (u_poll_list s) 0 (Z.to_nat (u_poll_num s)));
      r ← sys (os_poll ((λ e, (pfd_fd e, pfd_events e)) <$> es));
      match r with
      | PollIntr => mret PPoll
      | PollError => shutdown_with_msg "call to poll failed"
      | PollReady rs =>
          l ← lift (store_revents (u_poll_list s) 0 rs);
          _ ← modify (set_poll l (u_poll_num s) (u_poll_len s));
          mret (PFor 0)
      end
  | PFor i =>
      s ← get;
      if i <? u_poll_num s then
        e ← lift (arr_get (u_poll_list s) i);
        if pfd_revents e =? 0 then mret (PFor (i + 1))
        else if pfd_fd e =? (u_cpipe s).1 then mret (PPipe i)
        else if pfd_fd e =? u_server_sock s then
          _ ← lift (assertion (pfd_revents e =? POLLIN));
          _ ← server_accept_client;
          mret (PFor (i + 1))
        else
          _ ← handle_client_entry i e;
          mret (PFor (i + 1))
      else mret PTop
  | PPipe i =>
      s ← get;
      r ← sys (os_pipe_read (u_cpipe s).1);
      match r with
      | PipeIntr => mret (PPipe i)
      | PipeOk => _ ← handle_child_events; mret (PFor (i + 1))
      | PipeAgain | PipeError => shutdown_with_msg "call to read shouldn't fail"
      end
  end.

(** The globals when the program starts: the pointers [queue] and
    [processes], which nothing reads before they are initialised, are empty
    structures without room. *)
Definition initial_ust (w : W) : ust W :=
  Mk_ust initial_genv (Mk_queue [] 0 0 0) (Mk_list [] [] 0 0) None ∅ [] 0 0 (-1) (0, 0) None w.

(** The part of [main] before its loop. *)
Definition main_start (strtol_einval : bytes → bool) (opts : list getopt_result)
    (optind argc : Z) : U main_pc :=
  _ ← on_env (parse_options strtol_einval opts optind argc);
  g ← gets u_env;
  _ ← server_init_listening (default [] (g_socketname g)) (g_parallel g);
  mret PTop.
End server.
