(* ===== verification/ServerInv.v ===== *)
(** * The invariant of the Unix server

    A [view] is what a state of the server stands for: the queued requests,
    the running processes, the clients with the bytes read from them and the
    messages to send to them, and the poll entries. [inv own v s] relates a
    view to a state: every structure represents its part of the view, every
    block has one owner (the blocks [own] belong to the caller), the processes
    of the list are the children of the operating system, and a poll entry asks
    for POLLOUT exactly when its client has something to send. *)

From S2P Require Import Prelude CMem ArrayList Queue ReadBuf WriteBuf Env Request Proc UnixOS Messages ServerUnix.

Record cview := Mk_cview {
  cv_addr : positive;
  cv_fd : Z;
  cv_in : bytes;
  cv_out : list cstr;
}.

Record view := Mk_view {
  v_reqs : list request;
  v_procs : list (t_proc Z);
  v_clients : list cview;
  v_polls : list pollfd;
}.

Definition client_own (c : cview) : list positive := cv_addr c :: (c_addr <$> cv_out c).

Definition owned (v : view) : list positive :=
  concat (req_own <$> v_reqs v) ++ concat (proc_own <$> v_procs v) ++
  concat (client_own <$> v_clients v).

Definition client_key (c : cview) : Z * positive := (cv_fd c, cv_addr c).
Definition proc_key (p : t_proc Z) : Z * t_proc Z := (p_os p, p).

(** The record of a client holds what its view says. *)
Definition client_rep (store : gmap positive t_client) (c : cview) : Prop :=
  ∃ cl, store !! cv_addr c = Some cl ∧ cl_fd cl = cv_fd c ∧
        readbuf_rep (cl_readbuf cl) (cv_in c) ∧
        writebuf_rep (cl_writebuf cl) (cv_out c) ∧ w_is_writing (cl_writebuf cl) = false.

(** The entry is in use. *)
Definition used_entry (e : pollfd) : Prop := pfd_fd e ≠ -1.
#[global] Instance used_entry_dec e : Decision (used_entry e).
Proof. unfold used_entry. apply _. Defined.

Definition wants_out (e : pollfd) : Prop := Z.land (pfd_events e) POLLOUT ≠ 0.
Definition got_out (e : pollfd) : Prop := Z.land (pfd_revents e) POLLOUT ≠ 0.

(** The array of poll entries. *)
Definition poll_rep (l : list (option pollfd)) (num len : Z) (es : list pollfd) : Prop :=
  num = Z.of_nat (length es) ∧ len = Z.of_nat (length l) ∧ num ≤ len ∧ 1 ≤ len ≤ alloc_limit ∧
  ∀ i e, es !! i = Some e → l !! i = Some (Some e).

(** Every entry watches the listening socket, the child pipe or a client,
    each at most once; a client's entry asks for POLLOUT exactly when there is
    something to send to it. *)
Record entries_ok (sock pipe : Z) (cs : list cview) (es : list pollfd) : Prop := {
  e_known : ∀ e, e ∈ es → pfd_fd e ≠ -1 →
            pfd_fd e = sock ∨ pfd_fd e = pipe ∨ pfd_fd e ∈ cv_fd <$> cs;
  e_nodup : NoDup (pfd_fd <$> filter used_entry es);
  e_cover : ∀ c, c ∈ cs → ∃ e, e ∈ es ∧ pfd_fd e = cv_fd c;
  e_out : ∀ e c, e ∈ es → c ∈ cs → pfd_fd e = cv_fd c → wants_out e ↔ cv_out c ≠ [];
}.

(** The results of [poll] not yet handled, from entry [k] on: POLLOUT only
    where asked, and nothing but POLLIN on the listening socket. *)
Definition revents_ok (sock : Z) (k : nat) (es : list pollfd) : Prop :=
  ∀ j e, (k ≤ j)%nat → es !! j = Some e →
    (got_out e → wants_out e) ∧ (pfd_fd e = sock → pfd_revents e = 0 ∨ pfd_revents e = POLLIN).

(** The descriptor of the listening socket, fixed once the server has been
    initialised. *)
Class ListeningSocket := listening_socket : Z.

Section inv.
Context {W : Type} `{OL : UnixOSLaws W} `{SK : ListeningSocket}.

(** The descriptors the server keeps. *)
Definition known_fds (v : view) (s : ust W) : list Z :=
  u_server_sock s :: (u_cpipe s).1 :: (u_cpipe s).2 :: (cv_fd <$> v_clients v).

Record inv (own : list positive) (k : nat) (v : view) (s : ust W) : Prop := {
  i_queue : queue_rep (u_queue s) (v_reqs v);
  i_reqs : Forall run_req (v_reqs v);
  i_procs : list_rep (u_processes s) (proc_key <$> v_procs v);
  i_pids : NoDup (p_os <$> v_procs v);
  i_children : ∀ pid, pid ∈ os_children (u_world s) ↔ pid ∈ p_os <$> v_procs v;
  i_clients : ∃ l, u_clients s = Some l ∧ list_rep l (client_key <$> v_clients v);
  i_store : Forall (client_rep (u_store s)) (v_clients v);
  i_sock : u_server_sock s = listening_socket;
  i_fds : NoDup (known_fds v s);
  i_open : ∀ fd, fd ∈ known_fds v s → fd ∈ os_fds (u_world s) ∧ 0 ≤ fd;
  i_poll : poll_rep (u_poll_list s) (u_poll_num s) (u_poll_len s) (v_polls v);
  i_entries : entries_ok (u_server_sock s) (u_cpipe s).1 (v_clients v) (v_polls v);
  i_revents : revents_ok (u_server_sock s) k (v_polls v);
  i_heap : heap_ok (g_heap (u_env s)) (owned v ++ own);
  i_log : log_ok (u_env s);
  i_parallel : 1 ≤ g_parallel (u_env s) ≤ INT_MAX;
  i_dir : ∃ dir, u_current_dir s = Some dir ∧ strlen dir ≤ alloc_limit;
}.
End inv.

(** Two entries in use for the same descriptor are the same. *)
Definition unique_entries (es : list pollfd) : Prop :=
  ∀ i j e e', es !! i = Some e → es !! j = Some e' → pfd_fd e = pfd_fd e' → pfd_fd e ≠ -1 → i = j.

Lemma unique_entries_alt es : unique_entries es ↔ NoDup (pfd_fd <$> filter used_entry es).
Proof.
  induction es as [|x es IH]; [split; [intros _; constructor|by intros _ [] ]|].
  assert (unique_entries (x :: es) → unique_entries es) as Htail.
  { intros Hu i j e e' Hi Hj Hfd Hne. specialize (Hu (S i) (S j) e e' Hi Hj Hfd Hne). lia. }
  destruct (decide (used_entry x)) as [Hx|Hx].
  - rewrite filter_cons_True by done. simpl. rewrite NoDup_cons, <- IH. split.
    + intros Hu. split; [|by apply Htail]. intros (e & Hfd & [_ [j Hj]%list_elem_of_lookup]%list_elem_of_filter)%list_elem_of_fmap.
      by specialize (Hu O (S j) x e eq_refl Hj Hfd Hx).
    + intros [Hno Hu] [|i] [|j] e e' Hi Hj Hfd Hne; simpl in *; [done|..].
      * simplify_eq. destruct Hno. apply list_elem_of_fmap. exists e'. split; [done|].
        apply list_elem_of_filter. split; [unfold used_entry; congruence|by eapply list_elem_of_lookup_2].
      * simplify_eq. destruct Hno. apply list_elem_of_fmap. exists e. split; [done|].
        apply list_elem_of_filter. split; [done|by eapply list_elem_of_lookup_2].
      * f_equal. by eapply Hu.
  - rewrite filter_cons_False by done. rewrite <- IH. split; [done|].
    intros Hu [|i] [|j] e e' Hi Hj Hfd Hne; simpl in *; [done|..].
    + simplify_eq. done.
    + simplify_eq. destruct Hx. unfold used_entry. by rewrite <- Hfd.
    + f_equal. by eapply Hu.
Qed.

Lemma e_unique sock pipe cs es : entries_ok sock pipe cs es → unique_entries es.
Proof. intros [? Hu ? ?]. by apply unique_entries_alt. Qed.

(** ** Rules for the basic computations *)

Section rules.
Context {W : Type} `{OS : UnixOS W} `{MO : MayOverlap}.
Implicit Types (s : ust W).

(** Preconditions that allow the early stops of Messages.v. *)
Definition wpu {A} (m : M (ust W) A) (Q : A → ust W → Prop) (s : ust W) : Prop :=
  wp any_stop m Q s.

Lemma wpu_bind {A B} (m : M (ust W) A) (f : A → M (ust W) B) Q s :
  wpu m (λ a, wpu (f a) Q) s → wpu (m ≫= f) Q s.
Proof. apply wp_bind. Qed.

Lemma wpu_mono {A} (m : M (ust W) A) (P Q : A → ust W → Prop) s :
  wpu m P s → (∀ a s', P a s' → Q a s') → wpu m Q s.
Proof. apply wp_mono. Qed.

Lemma wpu_lift {A} (r : res A) Q s : safe True r (λ a, Q a s) → wpu (lift r) Q s.
Proof. unfold wpu, wp, safe, lift. destruct r; [done|]. by intros [-> _]. Qed.

Lemma wpu_ok {A} (r : res A) a Q s : r = Ok a → Q a s → wpu (lift r) Q s.
Proof. intros ->. done. Qed.

Lemma wpu_sys {A} (f : W → A * W) (Q : A → ust W → Prop) s :
  (∀ a w, f (u_world s) = (a, w) → Q a (set_world w s)) → wpu (sys f) Q s.
Proof. intros H. unfold wpu, wp, sys. destruct (f (u_world s)) eqn:Hf. by apply H. Qed.

Definition with_heap (h : heap) s : ust W := set_env (set_heap h (u_env s)) s.

Lemma wpu_heap {A} (m : M heap A) (Q : A → ust W → Prop) s :
  (∀ E : stop heap → Prop, orderly E → wp E m (λ a h, Q a (with_heap h s)) (g_heap (u_env s))) →
  wpu (heapU m) Q s.
Proof.
  intros H. unfold wpu, heapU, on_env. apply wp_zoom. unfold on_heap. apply wp_zoom.
  apply H. by intros [].
Qed.

Lemma wpu_env {A} (m : M genv A) (Q : A → ust W → Prop) s :
  (∀ E : stop genv → Prop, orderly E → wp E m (λ a g, Q a (set_env g s)) (u_env s)) →
  wpu (on_env m) Q s.
Proof. intros H. unfold wpu, on_env. apply wp_zoom. apply H. by intros []. Qed.

Lemma wpu_client_get a cl (Q : t_client → ust W → Prop) s :
  u_store s !! a = Some cl → Q cl s → wpu (client_get a) Q s.
Proof. intros Ha HQ. unfold wpu, wp, client_get. by rewrite Ha. Qed.

Lemma wpu_client_put a cl cl' (Q : unit → ust W → Prop) s :
  u_store s !! a = Some cl → Q tt (set_store (<[a := cl']> (u_store s)) s) →
  wpu (client_put a cl') Q s.
Proof. intros Ha HQ. unfold wpu, wp, client_put. by rewrite Ha. Qed.

Lemma wpu_the_clients l (Q : t_list positive → ust W → Prop) s :
  u_clients s = Some l → Q l s → wpu the_clients Q s.
Proof. intros Hl HQ. unfold the_clients. apply wpu_bind. unfold wpu, wp, gets. by rewrite Hl. Qed.

(** Shutting down only needs the client records and the log. *)
Definition can_stop s : Prop :=
  log_ok (u_env s) ∧
  ∀ l, u_clients s = Some l → ∃ kvs, list_rep l kvs ∧ Forall (λ kv, is_Some (u_store s !! kv.2)) kvs.

Lemma wpu_close_clients l kvs i n (Q : unit → ust W → Prop) s :
  list_rep l kvs → Forall (λ kv, is_Some (u_store s !! kv.2)) kvs → (i + n = length kvs)%nat →
  (∀ w, Q tt (set_world w s)) → wpu (close_clients_from l (Z.of_nat i) n) Q s.
Proof.
  intros Hl Hs. revert i s Hs. induction n as [|n IH]; intros i s Hs Hn HQ; simpl.
  - unfold wpu, wp, mret, M_ret. replace s with (set_world (u_world s) s) by (by destruct s). apply HQ.
  - destruct (lookup_lt_is_Some_2 kvs i) as [[k a] Hk]; [lia|].
    pose proof Hl as (Hlen & Hcap & Hle & _ & Hd & Hkv). destruct (Hkv _ _ _ Hk) as [_ Hdi].
    apply wpu_bind. eapply wpu_ok; [apply arr_get_ok; [lia|rewrite Nat2Z.id; exact Hdi]|].
    destruct (proj1 (Forall_lookup _ _) Hs _ _ Hk) as [cl Hcl]. simpl in Hcl.
    apply wpu_bind. eapply wpu_client_get; [done|]. apply wpu_bind, wpu_sys. intros r w _.
    replace (Z.of_nat i + 1) with (Z.of_nat (S i)) by lia. apply IH; [done|lia|].
    intros w'. apply (HQ w').
Qed.

Lemma wpu_shutdown {A} msg (Q : A → ust W → Prop) s : can_stop s → wpu (shutdown_with_msg msg) Q s.
Proof.
  intros [Hlog Hcl]. unfold shutdown_with_msg.
  assert (∀ w, wpu (c ← gets u_clients;
    _ ← match c with
        | Some l => close_clients_from l 0 (Z.to_nat (list_length l))
        | None => mret tt
        end;
    on_env (logging_shutdown (str msg))) Q (set_world w s)) as Hrest.
  { intros w. apply wpu_bind. unfold wpu at 1, wp, gets. simpl. apply wpu_bind.
    assert (∀ w', wpu (on_env (logging_shutdown (str msg))) Q (set_world w' s)) as Hend.
    { intros w'. apply wpu_env. intros E HE. apply wp_logging_shutdown; [done|]. intros f _. by apply HE. }
    destruct (u_clients s) as [l|] eqn:Hl; [|apply Hend].
    destruct (Hcl _ eq_refl) as (kvs & Hrep & Hst). change 0 with (Z.of_nat 0).
    eapply wpu_close_clients; [done..| |].
    - rewrite (list_rep_len _ _ Hrep). lia.
    - intros w'. apply (Hend w'). }
  apply wpu_bind. unfold wpu at 1, wp, gets. apply wpu_bind. case_match.
  - apply wpu_bind, wpu_sys. intros r w _. apply Hrest.
  - specialize (Hrest (u_world s)). replace (set_world (u_world s) s) with s in Hrest by (by destruct s).
    exact Hrest.
Qed.
End rules.

(** ** The poll list *)

Definition poll_index (fd : Z) (es : list pollfd) : option nat :=
  fst <$> list_find (λ e, pfd_fd e = fd) es.

Lemma poll_index_Some fd es i :
  poll_index fd es = Some i → ∃ e, es !! i = Some e ∧ pfd_fd e = fd.
Proof.
  unfold poll_index. rewrite fmap_Some. intros ([j e] & Hf & ->). apply list_find_Some in Hf as (? & ? & _). by exists e.
Qed.

Lemma poll_index_None fd es : poll_index fd es = None → ∀ e, e ∈ es → pfd_fd e ≠ fd.
Proof.
  unfold poll_index. rewrite fmap_None, list_find_None, Forall_forall. intros H e He. by apply (H e).
Qed.

Section poll_rules.
Context {W : Type} `{OS : UnixOS W} `{MO : MayOverlap}.
Implicit Types (s : ust W) (es : list pollfd).

Lemma poll_rep_get l num len es i e :
  poll_rep l num len es → es !! i = Some e → arr_get l (Z.of_nat i) = Ok e.
Proof.
  intros (_ & _ & _ & _ & Hl) Hi. apply arr_get_ok; [lia|]. rewrite Nat2Z.id. auto.
Qed.

Lemma poll_rep_set l num len es i e :
  poll_rep l num len es → (i < length es)%nat →
  ∃ l', arr_set l (Z.of_nat i) e = Ok l' ∧ poll_rep l' num len (<[i := e]> es).
Proof.
  intros (Hn & Hlen & Hle & Hb & Hl) Hi. rewrite arr_set_ok by lia. rewrite Nat2Z.id.
  eexists; split; [done|]. split_and!; rewrite ?length_insert; [lia..|].
  intros j e'. destruct (decide (i = j)) as [<-|].
  - rewrite !list_lookup_insert_eq by lia. by intros [= ->].
  - rewrite !list_lookup_insert_ne by done. auto.
Qed.

Lemma poll_lookup_from_rep l num len es fd i n :
  poll_rep l num len es → (i + n = length es)%nat →
  poll_lookup_from l fd (Z.of_nat i) n =
  Ok ((λ j, Z.of_nat (i + j)) <$> poll_index fd (drop i es)).
Proof.
  intros Hrep. revert i. induction n as [|n IH]; intros i Hn; simpl.
  - by rewrite drop_ge by lia.
  - destruct (lookup_lt_is_Some_2 es i) as [e He]; [lia|].
    rewrite (poll_rep_get _ _ _ _ _ _ Hrep He), (drop_S _ _ _ He). simpl.
    unfold poll_index. simpl. destruct (Z.eqb_spec (pfd_fd e) fd).
    + rewrite decide_True by done. simpl. unfold mret, res_ret. do 2 f_equal. lia.
    + rewrite decide_False by done. replace (Z.of_nat i + 1) with (Z.of_nat (S i)) by lia.
      rewrite IH by lia. unfold poll_index. f_equal. destruct (list_find _ _) as [[j e']|]; [|done].
      simpl. f_equal. lia.
Qed.

Lemma poll_lookup_rep l num len es fd :
  poll_rep l num len es →
  poll_lookup_from l fd 0 (Z.to_nat num) = Ok (Z.of_nat <$> poll_index fd es).
Proof.
  intros Hrep. pose proof Hrep as [-> _]. rewrite Nat2Z.id. change 0 with (Z.of_nat 0).
  by rewrite (poll_lookup_from_rep _ _ _ _ _ _ _ Hrep) by lia.
Qed.

Lemma wpu_poll_list_lookup es fd (Q : option Z → ust W → Prop) s :
  poll_rep (u_poll_list s) (u_poll_num s) (u_poll_len s) es →
  Q (Z.of_nat <$> poll_index fd es) s → wpu (poll_list_lookup fd) Q s.
Proof.
  intros Hrep HQ. unfold poll_list_lookup. apply wpu_bind. unfold wpu at 1, wp, get.
  eapply wpu_ok; [by eapply poll_lookup_rep|done].
Qed.

Lemma wpu_poll_set_events es i e f (Q : unit → ust W → Prop) s :
  poll_rep (u_poll_list s) (u_poll_num s) (u_poll_len s) es → es !! i = Some e →
  (∀ l, poll_rep l (u_poll_num s) (u_poll_len s)
          (<[i := Mk_pollfd (pfd_fd e) (f (pfd_events e)) (pfd_revents e)]> es) →
        Q tt (set_poll l (u_poll_num s) (u_poll_len s) s)) →
  wpu (poll_set_events (Z.of_nat i) f) Q s.
Proof.
  intros Hrep Hi HQ. unfold poll_set_events. apply wpu_bind. unfold wpu at 1, wp, get.
  apply wpu_bind. eapply wpu_ok; [by eapply poll_rep_get|]. apply wpu_bind.
  eapply poll_rep_set in Hrep as (l & Hset & Hl); [|by eapply lookup_lt_Some].
  eapply wpu_ok; [exact Hset|]. by apply HQ.
Qed.

Lemma wpu_poll_list_remove es fd (Q : unit → ust W → Prop) s :
  poll_rep (u_poll_list s) (u_poll_num s) (u_poll_len s) es →
  (∀ l es', poll_rep l (u_poll_num s) (u_poll_len s) es' →
     match poll_index fd es with
     | Some i => ∃ ev, es' = <[i := Mk_pollfd (-1) ev 0]> es
     | None => es' = es
     end → Q tt (set_poll l (u_poll_num s) (u_poll_len s) s)) →
  wpu (poll_list_remove fd) Q s.
Proof.
  intros Hrep HQ. unfold poll_list_remove. apply wpu_bind. unfold wpu at 1, wp, get.
  apply wpu_bind. eapply wpu_ok; [by eapply poll_lookup_rep|].
  destruct (poll_index fd es) as [i|] eqn:Hi; simpl.
  - apply poll_index_Some in Hi as (e & Hi & _). apply wpu_bind.
    eapply wpu_ok; [by eapply poll_rep_get|]. apply wpu_bind.
    eapply poll_rep_set in Hrep as (l & Hset & Hl); [|by eapply lookup_lt_Some].
    eapply wpu_ok; [exact Hset|]. eapply HQ; [done|eauto].
  - unfold wpu, wp, mret, M_ret.
    replace s with (set_poll (u_poll_list s) (u_poll_num s) (u_poll_len s) s) by (by destruct s).
    eapply HQ; done.
Qed.

Lemma wpu_add_to_poll_list es sock ev (Q : unit → ust W → Prop) s :
  poll_rep (u_poll_list s) (u_poll_num s) (u_poll_len s) es →
  (∀ l num len, poll_rep l num len (es ++ [Mk_pollfd sock ev 0]) →
     Q tt (set_poll l num len s)) →
  wpu (add_to_poll_list sock ev) Q s.
Proof.
  intros Hrep HQ. unfold add_to_poll_list. apply wpu_bind. unfold wpu at 1, wp, get.
  destruct Hrep as (Hn & Hlen & Hle & Hb & Hl). unfold alloc_limit in Hb.
  assert (∀ l len, len = Z.of_nat (length l) → u_poll_num s < len ≤ alloc_limit →
    (∀ i e, es !! i = Some e → l !! i = Some (Some e)) →
    wpu (l ← lift (arr_set l (u_poll_num s) (Mk_pollfd sock ev 0));
         num ← lift (int_op (u_poll_num s + 1));
         modify (set_poll l num len)) Q s) as Hrest.
  { intros l len Hll Hlt Hes. apply wpu_bind. unfold alloc_limit in *.
    eapply wpu_ok; [apply arr_set_ok; lia|]. apply wpu_bind.
    eapply wpu_ok; [apply int_op_ok; unfold INT_MIN, INT_MAX; lia|]. apply HQ.
    unfold poll_rep. rewrite length_app, length_insert. simpl. unfold alloc_limit.
    split_and!; try lia. intros i e. rewrite lookup_app_Some, Hn, Nat2Z.id.
    intros [Hi|[Hi [Hz <-]%list_lookup_singleton_Some]].
    - rewrite list_lookup_insert_ne; [auto|]. apply lookup_lt_Some in Hi. lia.
    - replace i with (length es) by lia. rewrite list_lookup_insert_eq by lia. done. }
  apply wpu_bind. destruct (Z.eqb_spec (u_poll_num s) (u_poll_len s)) as [Heq|].
  - apply wpu_bind. eapply wpu_ok; [apply int_op_ok; unfold INT_MIN, INT_MAX; lia|].
    apply wpu_bind, wpu_lift. apply arr_realloc_safe; [lia|done|]. intros Hlim.
    apply Hrest; [rewrite length_app, length_replicate; lia|lia|].
    intros i e Hi. rewrite lookup_app_l; [auto|]. apply lookup_lt_Some in Hi. lia.
  - apply Hrest; [done|unfold alloc_limit; lia|done].
Qed.

(** Closing a gap with the last entry. *)
Lemma poll_rep_swap l num len es i e :
  poll_rep l num len es → es !! i = Some e →
  ∃ e' l', arr_get l (num - 1) = Ok e' ∧ arr_set l (Z.of_nat i) e' = Ok l' ∧
           poll_rep l' (num - 1) len (swap_remove i es).
Proof.
  intros Hrep Hi. pose proof (lookup_lt_Some _ _ _ Hi) as Hlt. pose proof Hrep as (Hn & _).
  destruct (lookup_lt_is_Some_2 es (length es - 1)) as [e' He']; [lia|]. exists e'.
  destruct (poll_rep_set _ _ _ _ i e' Hrep Hlt) as (l' & Hset & Hn' & Hlen' & Hle' & Hb' & Hl').
  exists l'. split_and!; [|done|].
  { replace (num - 1) with (Z.of_nat (length es - 1)) by lia. by eapply poll_rep_get. }
  split_and!; [rewrite length_swap_remove; lia|done|lia|lia|lia|].
  intros j f Hj. pose proof (lookup_lt_Some _ _ _ Hj) as Hlj. rewrite length_swap_remove in Hlj.
  apply Hl'. rewrite lookup_swap_remove in Hj by lia. case_decide as Hij.
  - subst. rewrite list_lookup_insert_eq by lia. rewrite last_lookup in Hj.
    rewrite <- Hj, <- He'. f_equal. lia.
  - by rewrite list_lookup_insert_ne.
Qed.

Lemma poll_clean_from_rep l num len es i n :
  poll_rep l num len es → (length es ≤ i + n)%nat → Forall used_entry (take i es) →
  ∃ l' num' es', poll_clean_from l (Z.of_nat i) num n = Ok (l', num') ∧
    poll_rep l' num' len es' ∧ es' ≡ₚ filter used_entry es.
Proof.
  assert (∀ l num es, poll_rep l num len es → Forall used_entry es →
    ∃ l' num' es', Ok (l, num) = Ok (l', num') ∧
    poll_rep l' num' len es' ∧ es' ≡ₚ filter used_entry es) as Hend.
  { intros l0 num0 es0 ? Hall. exists l0, num0, es0. split_and!; [done..|].
    by rewrite filter_Forall_id. }
  revert l num es i. induction n as [|n IH]; intros l num es i Hrep Hn Hused; simpl.
  { rewrite take_ge in Hused by lia. by apply Hend. }
  pose proof Hrep as (Hnum & _). destruct (Z.ltb_spec (Z.of_nat i) num) as [Hi|Hi].
  2: { rewrite take_ge in Hused by lia. by apply Hend. }
  destruct (lookup_lt_is_Some_2 es i) as [e He]; [lia|].
  rewrite (poll_rep_get _ _ _ _ _ _ Hrep He). simpl.
  destruct (Z.eqb_spec (pfd_fd e) (-1)) as [Hm|Hm].
  - destruct (poll_rep_swap _ _ _ _ _ _ Hrep He) as (e' & l' & -> & Hset & Hrep'). simpl.
    rewrite Hset. simpl. destruct (IH l' (num - 1) (swap_remove i es) i) as (l2 & n2 & es2 & Hc & Hr & Hp).
    + done.
    + rewrite length_swap_remove. lia.
    + apply Forall_lookup. intros j f [Hj Hji]%lookup_take_Some.
      pose proof (lookup_lt_Some _ _ _ Hj) as Hlj. rewrite length_swap_remove in Hlj.
      rewrite lookup_swap_remove, decide_False in Hj by lia.
      eapply Forall_lookup; [exact Hused|]. apply lookup_take_Some. eauto.
    + eexists _, _, _. split_and!; [exact Hc|done|]. rewrite Hp.
      rewrite (swap_remove_perm _ _ _ He) at 2. by rewrite filter_cons_False by (intros []; done).
  - replace (Z.of_nat i + 1) with (Z.of_nat (S i)) by lia. apply IH; [done|lia|].
    rewrite (take_S_r _ _ _ He). apply Forall_app. split; [done|]. by constructor.
Qed.

Lemma wpu_poll_list_clean es (Q : unit → ust W → Prop) s :
  poll_rep (u_poll_list s) (u_poll_num s) (u_poll_len s) es →
  (∀ l num es', poll_rep l num (u_poll_len s) es' → es' ≡ₚ filter used_entry es →
     Q tt (set_poll l num (u_poll_len s) s)) →
  wpu poll_list_clean Q s.
Proof.
  intros Hrep HQ. unfold poll_list_clean. apply wpu_bind. unfold wpu at 1, wp, get.
  pose proof Hrep as [Hn _].
  destruct (poll_clean_from_rep _ _ _ _ 0 (Z.to_nat (u_poll_num s)) Hrep) as (l & num & es' & Hc & Hr & Hp).
  { lia. } { by rewrite take_0. }
  apply wpu_bind. eapply wpu_ok; [exact Hc|]. by eapply HQ.
Qed.
End poll_rules.
