(* ===== verification/ServerHandlers.v ===== *)
(** * The handlers of the Unix server preserve its invariant

    One rule per function of src/server/server-unix.c: from a state with the
    invariant it fails no assertion and does nothing undefined, and the view
    of the state it leaves is given as a function of (or a relation with) the
    view before. *)

From S2P Require Import Prelude CMem ArrayList Queue ReadBuf WriteBuf Env Request Proc UnixOS Messages ServerUnix ServerInv.

(** ** Bits of event masks *)

Lemma land_pollout x : Z.land x POLLOUT ≠ 0 ↔ Z.testbit x 2 = true.
Proof.
  change POLLOUT with (2 ^ 2). split; intros H.
  - apply not_false_iff_true. intros Hb. apply H. apply Z.bits_inj'. intros n Hn.
    rewrite Z.land_spec, Z.pow2_bits_eqb, Z.bits_0 by lia.
    destruct (Z.eqb_spec 2 n) as [<-|]; [by rewrite Hb|by rewrite andb_false_r].
  - intros H0. apply (f_equal (λ z, Z.testbit z 2)) in H0. revert H0.
    by rewrite Z.land_spec, H, Z.bits_0.
Qed.

Lemma lor_pollout x : Z.land (Z.lor x POLLOUT) POLLOUT ≠ 0.
Proof. rewrite land_pollout, Z.lor_spec. apply orb_true_r. Qed.

Lemma clear_pollout x : ¬ Z.land (Z.land x (Z.lnot POLLOUT)) POLLOUT ≠ 0.
Proof. rewrite land_pollout, Z.land_spec. by rewrite andb_false_r. Qed.

(** ** Poll entries and clients *)

Definition with_out (c : cview) (out : list cstr) : cview :=
  Mk_cview (cv_addr c) (cv_fd c) (cv_in c) out.
Definition with_in (c : cview) (bs : bytes) : cview :=
  Mk_cview (cv_addr c) (cv_fd c) bs (cv_out c).
Definition with_clients (v : view) (cs : list cview) : view :=
  Mk_view (v_reqs v) (v_procs v) cs (v_polls v).
Definition with_polls (v : view) (es : list pollfd) : view :=
  Mk_view (v_reqs v) (v_procs v) (v_clients v) es.
Definition with_reqs (v : view) (rs : list request) : view :=
  Mk_view rs (v_procs v) (v_clients v) (v_polls v).
Definition with_procs (v : view) (ps : list (t_proc Z)) : view :=
  Mk_view (v_reqs v) ps (v_clients v) (v_polls v).

Lemma fd_elem_split (cs : list cview) fd :
  fd ∈ cv_fd <$> cs → ∃ cs1 c cs2, cs = cs1 ++ c :: cs2 ∧ cv_fd c = fd.
Proof.
  intros (c & -> & (cs1 & cs2 & ->)%list_elem_of_split)%list_elem_of_fmap. eauto.
Qed.

(** Replacing a client by one with other contents. *)
Lemma entries_client sock pipe cs1 c c' cs2 es i e e' :
  NoDup (cv_fd <$> cs1 ++ c :: cs2) → 0 ≤ cv_fd c →
  entries_ok sock pipe (cs1 ++ c :: cs2) es →
  es !! i = Some e → pfd_fd e = cv_fd c → pfd_fd e' = pfd_fd e → cv_fd c' = cv_fd c →
  (wants_out e' ↔ cv_out c' ≠ []) →
  entries_ok sock pipe (cs1 ++ c' :: cs2) (<[i := e']> es).
Proof.
  intros Hnd Hc Hok Hi He He' Hc' Hout.
  assert (cv_fd <$> cs1 ++ c' :: cs2 = cv_fd <$> cs1 ++ c :: cs2) as Hfds
    by (rewrite !fmap_app; simpl; by rewrite Hc').
  assert (∀ f, f ∈ <[i := e']> es → f = e' ∨ ∃ j, j ≠ i ∧ es !! j = Some f) as Hin.
  { intros f [j Hj]%list_elem_of_lookup. apply list_lookup_insert_Some in Hj as [(<- & -> & _)|[? ?]]; eauto. }
  assert (∀ d, d ∈ cs1 ++ c' :: cs2 → d = c' ∨ d ∈ cs1 ++ c :: cs2 ∧ cv_fd d ≠ cv_fd c) as Hcl.
  { intros d. rewrite fmap_app in Hnd. simpl in Hnd. apply NoDup_app in Hnd as (_ & Hd1 & [Hd2 _]%NoDup_cons).
    rewrite !elem_of_app, !elem_of_cons. intros [Hd|[->|Hd]]; [right|by left|right].
    - split; [set_solver|]. intros Heq. apply (Hd1 (cv_fd d)); [by apply list_elem_of_fmap_2|]. set_solver.
    - split; [set_solver|]. intros Heq. apply Hd2. rewrite <- Heq. by apply list_elem_of_fmap_2. }
  pose proof (e_unique _ _ _ _ Hok) as Huniq. destruct Hok as [Hknown _ Hcover Hwant]. split.
  - intros f [->|(j & _ & Hj)]%Hin Hf; rewrite Hfds.
    + rewrite He' in *. apply Hknown; [by eapply list_elem_of_lookup_2|done].
    + apply Hknown; [by eapply list_elem_of_lookup_2|done].
  - apply unique_entries_alt. intros j1 j2 f1 f2. rewrite !list_lookup_insert_Some.
    intros [(<- & <- & _)|[Hj1 Hf1]] [(<- & <- & _)|[Hj2 Hf2]] Heq Hne; [done|..].
    + eapply Huniq; [done..|congruence|congruence].
    + eapply Huniq; [done..|congruence|congruence].
    + by eapply Huniq.
  - intros d [->|[Hd Hne]]%Hcl.
    + exists e'. split; [|congruence]. eapply list_elem_of_lookup_2.
      apply list_lookup_insert_eq. by eapply lookup_lt_Some.
    + destruct (Hcover d Hd) as (f & [j Hj]%list_elem_of_lookup & Hf). exists f. split; [|done].
      eapply list_elem_of_lookup_2. rewrite list_lookup_insert_ne; [done|]. intros <-. congruence.
  - intros f d [->|(j & Hj & Hf)]%Hin [->|[Hd Hne]]%Hcl Heq; [done|congruence| |].
    + destruct Hj. eapply Huniq; [exact Hf|exact Hi|congruence|]. rewrite Heq, Hc'. lia.
    + apply Hwant; [by eapply list_elem_of_lookup_2|done|done].
Qed.

(** A client leaves: its entry becomes unused. *)
Lemma entries_remove sock pipe cs c cs' es i ev :
  NoDup (cv_fd <$> cs) → cs ≡ₚ c :: cs' → Forall (λ c, 0 ≤ cv_fd c) cs →
  entries_ok sock pipe cs es → poll_index (cv_fd c) es = Some i →
  entries_ok sock pipe cs' (<[i := Mk_pollfd (-1) ev 0]> es).
Proof.
  intros Hnd Hp Hall Hok (e & Hi & Hfd)%poll_index_Some.
  pose proof (e_unique _ _ _ _ Hok) as Huniq. destruct Hok as [Hknown _ Hcover Hwant].
  rewrite Forall_forall in Hall. assert (0 ≤ cv_fd c) as Hpos by (apply Hall; rewrite Hp; set_solver).
  rewrite Hp in Hnd. simpl in Hnd. apply NoDup_cons in Hnd as [Hc _].
  assert (∀ f, f ∈ <[i := Mk_pollfd (-1) ev 0]> es → pfd_fd f ≠ -1 → f ∈ es ∧ pfd_fd f ≠ cv_fd c) as Hin.
  { intros f [j Hj]%list_elem_of_lookup Hf.
    apply list_lookup_insert_Some in Hj as [(<- & <- & _)|[Hne Hj]]; [done|].
    split; [by eapply list_elem_of_lookup_2|]. intros Heq. apply Hne. eapply Huniq; [done..|congruence|].
    rewrite Hfd. lia. }
  assert (∀ d, d ∈ cs' → d ∈ cs ∧ cv_fd d ≠ cv_fd c) as Hcs.
  { intros d Hd. split; [rewrite Hp; set_solver|]. intros Heq. apply Hc. rewrite <- Heq.
    by apply list_elem_of_fmap_2. }
  split.
  - intros f Hf Hne. destruct (Hin f Hf Hne) as [Hfe Hfc]. destruct (Hknown f Hfe Hne) as [?|[?|Hk]]; [auto..|].
    right; right. rewrite Hp in Hk. simpl in Hk. apply elem_of_cons in Hk as [?|?]; [congruence|done].
  - apply unique_entries_alt. intros j1 j2 f1 f2. rewrite !list_lookup_insert_Some.
    intros [(_ & <- & _)|[_ Hf1]] [(_ & <- & _)|[_ Hf2]] Heq Hne; simpl in *; [congruence..|by eapply Huniq].
  - intros d [Hd Hne]%Hcs. destruct (Hcover d Hd) as (f & [j Hj]%list_elem_of_lookup & Hf). exists f. split; [|done].
    eapply list_elem_of_lookup_2. rewrite list_lookup_insert_ne; [done|]. intros <-. congruence.
  - intros f d Hf [Hd Hdc]%Hcs Heq. destruct (decide (pfd_fd f = -1)) as [Hm|Hm].
    + pose proof (Hall d Hd). lia.
    + destruct (Hin f Hf Hm) as [Hfe _]. by apply Hwant.
Qed.

(** A client arrives. *)
Lemma entries_add sock pipe cs c es :
  (cv_fd c ∉ sock :: pipe :: (cv_fd <$> cs)) → 0 ≤ cv_fd c → cv_out c = [] →
  entries_ok sock pipe cs es → entries_ok sock pipe (cs ++ [c]) (es ++ [Mk_pollfd (cv_fd c) POLLIN 0]).
Proof.
  rewrite !not_elem_of_cons. intros (Hs & Hpp & Hnew) Hpos Hout [Hknown Hnd Hcover Hwant].
  assert (∀ e, e ∈ es → pfd_fd e ≠ cv_fd c) as Hne.
  { intros e He Heq. destruct (Hknown e He) as [?|[?|?]]; try congruence. lia. }
  split.
  - intros e. rewrite fmap_app, elem_of_app, list_elem_of_singleton. intros [He| ->] Hm; simpl in *.
    + destruct (Hknown e He Hm) as [?|[?|?]]; set_solver.
    + set_solver.
  - rewrite filter_app, fmap_app. apply NoDup_app. split_and!; [done| |].
    + intros fd (e & -> & [_ He]%list_elem_of_filter)%list_elem_of_fmap (e' & Heq & [_ He']%list_elem_of_filter)%list_elem_of_fmap.
      apply list_elem_of_singleton in He' as ->. by apply (Hne e).
    + rewrite filter_cons_True by (unfold used_entry; simpl; lia). apply NoDup_singleton.
  - intros d. rewrite elem_of_app, list_elem_of_singleton. intros [Hd| ->].
    + destruct (Hcover d Hd) as (e & He & ?). exists e. split; [|done]. set_solver.
    + eexists. split; [apply elem_of_app; right; by apply list_elem_of_singleton|done].
  - intros e d. rewrite !elem_of_app, !list_elem_of_singleton. intros [He| ->] [Hd| ->] Heq.
    + by apply Hwant.
    + by destruct (Hne e He).
    + destruct Hnew. simpl in Heq. rewrite Heq. by apply list_elem_of_fmap_2.
    + rewrite Hout. split; [intros Hw; by destruct Hw|done].
Qed.

(** Unused entries are dropped, in any order. *)
Lemma entries_clean sock pipe cs es es' :
  Forall (λ c, 0 ≤ cv_fd c) cs → es' ≡ₚ filter used_entry es →
  entries_ok sock pipe cs es → entries_ok sock pipe cs es'.
Proof.
  intros Hall Hp [Hknown Hnd Hcover Hwant]. rewrite Forall_forall in Hall.
  assert (∀ e, e ∈ es' ↔ used_entry e ∧ e ∈ es) as Hin.
  { intros e. by rewrite Hp, list_elem_of_filter. }
  split.
  - intros e [_ He]%Hin. auto.
  - rewrite Hp, filter_Forall_id; [done|]. apply Forall_forall. by intros e [? _]%list_elem_of_filter.
  - intros c Hc. destruct (Hcover c Hc) as (e & He & Hfd). exists e. rewrite Hin. split_and!; [|done..].
    unfold used_entry. rewrite Hfd. specialize (Hall c Hc). simpl in Hall. lia.
  - intros e c [_ He]%Hin. auto.
Qed.

(** Only the bits for sending matter. *)
Lemma revents_insert sock k es i e e' :
  revents_ok sock k es → es !! i = Some e → pfd_fd e' = pfd_fd e → pfd_revents e' = pfd_revents e →
  (wants_out e → wants_out e') → revents_ok sock k (<[i := e']> es).
Proof.
  intros Hr Hi Hfd Hrev Hw j f Hj Hf. apply list_lookup_insert_Some in Hf as [(<- & <- & _)|[_ Hf]]; [|by apply (Hr j)].
  destruct (Hr i e Hj Hi) as [H1 H2]. unfold got_out in *. rewrite Hfd, Hrev. auto.
Qed.

(** ** Lines *)

(** The complete lines of the bytes received, and the bytes after the last
    newline. *)
Fixpoint split_lines (bs : bytes) : list bytes * bytes :=
  match bs with
  | [] => ([], [])
  | c :: bs' =>
      let '(ls, rest) := split_lines bs' in
      if bool_decide (c = NEWLINE) then ([] :: ls, rest)
      else match ls with
           | [] => ([], c :: rest)
           | l :: ls' => ((c :: l) :: ls', rest)
           end
  end.

Lemma split_lines_app l bs :
  NEWLINE ∉ l →
  split_lines (l ++ NEWLINE :: bs) = (l :: (split_lines bs).1, (split_lines bs).2).
Proof.
  induction l as [|c l IH]; intros Hl; simpl.
  - by destruct (split_lines bs).
  - rewrite IH by set_solver. rewrite bool_decide_eq_false_2 by set_solver. done.
Qed.

Lemma split_lines_none l : NEWLINE ∉ l → split_lines l = ([], l).
Proof.
  induction l as [|c l IH]; intros Hl; simpl; [done|].
  rewrite IH by set_solver. by rewrite bool_decide_eq_false_2 by set_solver.
Qed.

(** The first newline, if any. *)
Lemma newline_split (bs : bytes) :
  (NEWLINE ∉ bs) ∨ ∃ l bs', bs = l ++ NEWLINE :: bs' ∧ NEWLINE ∉ l.
Proof.
  destruct (decide (NEWLINE ∈ bs)) as [Hin|]; [right|by left].
  apply list_elem_of_split_l in Hin as (l & bs' & -> & Hl). eauto.
Qed.

(** The bytes of two reads make the same lines as one read of both. *)
Lemma split_lines_chunks a b :
  split_lines (a ++ b) =
  ((split_lines a).1 ++ (split_lines ((split_lines a).2 ++ b)).1,
   (split_lines ((split_lines a).2 ++ b)).2).
Proof.
  remember (length a) as n eqn:Hn. revert a Hn. induction n as [n IH] using lt_wf_ind. intros a ->.
  destruct (newline_split a) as [Ha|(l & a' & -> & Hl)].
  - rewrite (split_lines_none a Ha). simpl. by destruct (split_lines (a ++ b)).
  - rewrite split_lines_app by done. simpl. rewrite <- app_assoc. simpl.
    rewrite split_lines_app by done.
    rewrite (IH (length a')) by (rewrite ?length_app; simpl; lia || done). done.
Qed.

Lemma split_lines_suffix bs : ∃ pre, bs = pre ++ (split_lines bs).2.
Proof.
  remember (length bs) as n eqn:Hn. revert bs Hn. induction n as [n IH] using lt_wf_ind. intros bs ->.
  destruct (newline_split bs) as [Ha|(l & a' & -> & Hl)].
  - exists []. by rewrite (split_lines_none bs Ha).
  - rewrite split_lines_app by done. simpl.
    destruct (IH (length a')) with (bs := a') as [pre Hpre]; [rewrite length_app; simpl; lia|done|].
    exists (l ++ NEWLINE :: pre). rewrite <- app_assoc. simpl. by rewrite <- Hpre.
Qed.

Lemma split_lines_drop bs :
  drop (length bs - length (split_lines bs).2) bs = (split_lines bs).2 ∧
  (length (split_lines bs).2 ≤ length bs)%nat.
Proof.
  destruct (split_lines_suffix bs) as [pre Hpre]. generalize dependent (split_lines bs).2.
  intros rest ->. rewrite length_app. split; [|lia]. rewrite drop_app_ge by lia.
  by replace (_ - _ - _)%nat with O by lia.
Qed.

(** Moving the bytes after the last newline to the front of the buffer is a copy
    between overlapping regions: they are more than the bytes before. *)
Definition lines_overlap (bs : bytes) : Prop :=
  (0 < length bs - length (split_lines bs).2 < length (split_lines bs).2)%nat.

(** [buf] holds [bs] in its first cells. *)
Definition holds (buf : list (option ascii)) (bs : bytes) : Prop :=
  ∀ i c, bs !! i = Some c → buf !! i = Some (Some c).

Lemma find_newline_spec buf bs cur n :
  holds buf bs → (cur + n = length bs)%nat →
  (NEWLINE ∉ drop cur bs → find_newline buf (Z.of_nat cur) n = Ok (Z.of_nat (length bs))) ∧
  (∀ l bs', drop cur bs = l ++ NEWLINE :: bs' → NEWLINE ∉ l →
     find_newline buf (Z.of_nat cur) n = Ok (Z.of_nat (cur + length l))).
Proof.
  intros Hb. revert cur. induction n as [|n IH]; intros cur Hn; simpl.
  - rewrite drop_ge by lia. split; [intros _; unfold mret, res_ret; do 2 f_equal; lia|by intros []].
  - destruct (lookup_lt_is_Some_2 bs cur) as [c Hc]; [lia|].
    rewrite (arr_get_ok _ _ c) by (rewrite ?Nat2Z.id; lia || auto). simpl.
    rewrite (drop_S _ _ _ Hc). replace (Z.of_nat cur + 1) with (Z.of_nat (S cur)) by lia.
    destruct (IH (S cur)) as [IH1 IH2]; [lia|]. case_bool_decide as Hnl; split.
    + set_solver.
    + intros [|x l] bs' [= -> ?] Hl; [simpl; unfold mret, res_ret; do 2 f_equal; lia|set_solver].
    + intros Hno. apply IH1. set_solver.
    + intros [|x l] bs' Heq Hl; [by injection Heq|]. injection Heq as -> Heq.
      rewrite (IH2 l bs' Heq) by set_solver. do 2 f_equal. simpl. lia.
Qed.

Section handlers.
Context {W : Type} `{OL : UnixOSLaws W} `{SK : ListeningSocket} `{MO : MayOverlap}.
Implicit Types (s : ust W) (v : view).

(** ** Changing parts of the state *)

(** What no handler changes but the parsing of a line: the limit on the
    processes, and the directory for the output files. [kept]: the outside
    world is left alone too. *)
Definition config s : Z * option bytes := (g_parallel (u_env s), u_current_dir s).
Definition kept s s' : Prop := config s' = config s ∧ u_world s' = u_world s.

#[local] Instance kept_trans : Transitive kept.
Proof. unfold kept. intros ??? [??] [??]. split; congruence. Qed.

Lemma inv_can_stop own k v s : inv own k v s → can_stop s.
Proof.
  intros Hi. split; [apply Hi|]. destruct (i_clients _ _ _ _ Hi) as (l & Hl & Hrep).
  rewrite Hl. intros ? [= <-]. exists (client_key <$> v_clients v). split; [done|].
  apply Forall_fmap. eapply Forall_impl; [apply (i_store _ _ _ _ Hi)|].
  intros c (cl & Hcl & _). simpl. by rewrite Hcl.
Qed.

Lemma wpu_shutdown_inv {A} msg own k v (Q : A → ust W → Prop) s :
  inv own k v s → wpu (shutdown_with_msg msg) Q s.
Proof. intros. eapply wpu_shutdown, inv_can_stop. done. Qed.

(** The world moved without touching descriptors or children. *)
Lemma inv_world own k v s w :
  inv own k v s → os_fds w = os_fds (u_world s) → os_children w = os_children (u_world s) →
  inv own k v (set_world w s).
Proof. intros [] Hf Hc. split; simpl; rewrite ?Hf, ?Hc; done. Qed.

Lemma inv_world_fds own k v s w :
  inv own k v s → (∀ fd, fd ∈ known_fds v s → fd ∈ os_fds w) →
  os_children w = os_children (u_world s) → inv own k v (set_world w s).
Proof.
  intros Hi Hf Hc. pose proof (i_open _ _ _ _ Hi) as Ho. destruct Hi. split; simpl; rewrite ?Hc; try done.
  intros fd Hfd. split; [by apply Hf|by apply Ho].
Qed.

Lemma inv_heap own own' k v s h :
  inv own k v s → heap_ok h (owned v ++ own') → inv own' k v (with_heap h s).
Proof. intros [] Hh. by split. Qed.

(** Blocks may change hands, and may be forgotten. *)
Lemma inv_own own own' k v s : inv own k v s → own ≡ₚ own' → inv own' k v s.
Proof. intros [] Hp. split; try done. by rewrite <- Hp. Qed.

Lemma inv_forget own own' k v s : inv (own' ++ own) k v s → inv own k v s.
Proof.
  intros []. split; try done. apply (heap_ok_weaken _ own').
  eapply heap_ok_perm; [done|]. solve_Permutation.
Qed.

Lemma inv_later own k k' v s : inv own k v s → (k ≤ k')%nat → inv own k' v s.
Proof.
  intros Hi Hk. pose proof (i_revents _ _ _ _ Hi) as Hr. destruct Hi. split; try done.
  intros j e Hj. apply Hr. lia.
Qed.

(** The client list has one record per descriptor and per address. *)
Lemma inv_client_fds own k v s cs1 c cs2 :
  inv own k v s → v_clients v = cs1 ++ c :: cs2 →
  NoDup (cv_fd <$> cs1 ++ c :: cs2) ∧ 0 ≤ cv_fd c.
Proof.
  intros Hi Hv. pose proof (i_fds _ _ _ _ Hi) as Hf. unfold known_fds in Hf. rewrite Hv in Hf.
  split; [by do 3 apply NoDup_cons in Hf as [_ Hf]|].
  apply (i_open _ _ _ _ Hi). unfold known_fds. rewrite Hv, fmap_app. set_solver.
Qed.

Lemma owned_clients v cs1 c cs2 :
  v_clients v = cs1 ++ c :: cs2 →
  owned v ≡ₚ client_own c ++ concat (req_own <$> v_reqs v) ++ concat (proc_own <$> v_procs v) ++
             concat (client_own <$> cs1 ++ cs2).
Proof.
  intros Hv. unfold owned. rewrite Hv, !fmap_app, !concat_app. simpl. solve_Permutation.
Qed.

Lemma client_own_push c m : client_own (with_out c (cv_out c ++ [m])) ≡ₚ c_addr m :: client_own c.
Proof. unfold client_own. simpl. rewrite fmap_app. simpl. solve_Permutation. Qed.

Lemma inv_addr_fresh own k v s cs1 c cs2 :
  inv own k v s → v_clients v = cs1 ++ c :: cs2 → cv_addr c ∉ cv_addr <$> cs1 ++ cs2.
Proof.
  intros Hi Hv Hin. pose proof (i_heap _ _ _ _ Hi) as (_ & Hnd & _).
  rewrite (owned_clients _ _ _ _ Hv) in Hnd. simpl in Hnd. apply NoDup_cons in Hnd as [Hnd _].
  apply Hnd. apply list_elem_of_fmap in Hin as (d & -> & Hd).
  assert (cv_addr d ∈ concat (client_own <$> cs1 ++ cs2)); [|set_solver].
  apply elem_of_concat. exists (client_own d). split; [set_solver|]. by apply list_elem_of_fmap_2.
Qed.

(** The record of a client is rewritten, its messages and its poll entry with it. *)
Lemma inv_client own own' k k' v s s' cs1 c cs2 c' st h l es :
  s' = set_poll l (u_poll_num s) (u_poll_len s) (set_store st (with_heap h s)) →
  inv own k v s → v_clients v = cs1 ++ c :: cs2 →
  cv_addr c' = cv_addr c → cv_fd c' = cv_fd c →
  (∀ b, b ≠ cv_addr c → st !! b = u_store s !! b) → client_rep st c' →
  let v' := Mk_view (v_reqs v) (v_procs v) (cs1 ++ c' :: cs2) es in
  heap_ok h (owned v' ++ own') → poll_rep l (u_poll_num s) (u_poll_len s) es →
  entries_ok (u_server_sock s) (u_cpipe s).1 (cs1 ++ c' :: cs2) es →
  revents_ok (u_server_sock s) k' es → inv own' k' v' s'.
Proof.
  intros -> Hi Hv Ha Hfd Hother Hrep v' Hh Hl Hent Hrev.
  pose proof (inv_addr_fresh _ _ _ _ _ _ _ Hi Hv) as Hfresh.
  assert (cv_fd <$> cs1 ++ c' :: cs2 = cv_fd <$> v_clients v) as Hfds
    by (rewrite Hv, !fmap_app; simpl; by rewrite Hfd).
  pose proof (i_clients _ _ _ _ Hi) as Hcl. pose proof (i_store _ _ _ _ Hi) as Hst.
  unfold known_fds in *. destruct Hi. split; unfold known_fds in *; simpl; try done.
  - destruct Hcl as (cs & Hcs & Hr). exists cs. split; [done|]. rewrite Hv in Hr.
    rewrite fmap_app in *. simpl in *. unfold client_key at 2. by rewrite Ha, Hfd.
  - rewrite Hv in Hst. apply Forall_app in Hst as [H1 [_ H2]%Forall_cons].
    rewrite fmap_app in Hfresh.
    assert (∀ cs, Forall (client_rep (u_store s)) cs → cv_addr c ∉ cv_addr <$> cs →
      Forall (client_rep st) cs) as Hkeep.
    { intros cs Hcs Hn. rewrite Forall_forall in *. intros d Hd. destruct (Hcs d Hd) as (cd & Hcd & ?).
      exists cd. split; [|done]. rewrite Hother; [done|]. intros Heq. apply Hn.
      rewrite <- Heq. by apply list_elem_of_fmap_2. }
    apply Forall_app. split; [apply Hkeep; set_solver|]. constructor; [done|apply Hkeep; set_solver].
  - by rewrite Hfds.
  - by rewrite Hfds.
Qed.

Lemma inv_client_rep own k v s cs1 c cs2 :
  inv own k v s → v_clients v = cs1 ++ c :: cs2 → client_rep (u_store s) c.
Proof.
  intros Hi Hv. pose proof (i_store _ _ _ _ Hi) as Hs. rewrite Hv in Hs.
  by apply Forall_app in Hs as [_ [? _]%Forall_cons].
Qed.

(** The poll entry of a client. *)
Lemma inv_entry own k v s cs1 c cs2 :
  inv own k v s → v_clients v = cs1 ++ c :: cs2 →
  ∃ i e, poll_index (cv_fd c) (v_polls v) = Some i ∧ v_polls v !! i = Some e ∧ pfd_fd e = cv_fd c.
Proof.
  intros Hi Hv. destruct (poll_index (cv_fd c) (v_polls v)) as [i|] eqn:Hp.
  - apply poll_index_Some in Hp as (e & He & Hfd). eauto.
  - destruct (e_cover _ _ _ _ (i_entries _ _ _ _ Hi) c) as (e & He & Hfd); [rewrite Hv, elem_of_app, elem_of_cons; auto|].
    by destruct (poll_index_None _ _ Hp e He).
Qed.

(** ** Messages *)

Lemma wpu_queue_write own k v s cs1 c cs2 m (Q : unit → ust W → Prop) :
  inv (c_addr m :: own) k v s → v_clients v = cs1 ++ c :: cs2 → message m →
  (∀ es s', inv own k (Mk_view (v_reqs v) (v_procs v)
                        (cs1 ++ with_out c (cv_out c ++ [m]) :: cs2) es) s' →
            kept s s' → Q tt s') →
  wpu (queue_write (cv_addr c) m) Q s.
Proof.
  intros Hi Hv Hm HQ. unfold queue_write.
  destruct (inv_client_rep _ _ _ _ _ _ _ Hi Hv) as (cl & Hcl & Hfd & Hrb & Hwb & Hw).
  apply wpu_bind. eapply wpu_client_get; [exact Hcl|]. apply wpu_bind, wpu_heap. intros E HE.
  eapply wp_push_write_data; [apply Hi| |done|exact Hwb|intros _; by apply HE|].
  { rewrite !elem_of_app, elem_of_cons. auto. }
  intros wb Hwb' Hw' _. apply wpu_bind. eapply wpu_client_put; [exact Hcl|].
  apply wpu_bind. eapply wpu_poll_list_lookup; [apply Hi|].
  destruct (inv_entry _ _ _ _ _ _ _ Hi Hv) as (i & e & Hp & He & Hefd). rewrite Hfd, Hp. simpl.
  eapply wpu_poll_set_events; [apply Hi|exact He|]. intros l Hl.
  destruct (inv_client_fds _ _ _ _ _ _ _ Hi Hv) as [Hnd Hpos].
  eapply HQ; [|by destruct s as [[]]; split].
  eapply inv_client with (s := s) (c' := with_out c (cv_out c ++ [m])) (h := g_heap (u_env s))
    (l := l); [reflexivity|exact Hi|exact Hv|done..| | | |exact Hl| |]; simpl.
  - intros b Hb. by rewrite lookup_insert_ne.
  - eexists. rewrite lookup_insert_eq.
    exact (conj eq_refl (conj eq_refl (conj Hrb (conj Hwb' (eq_trans Hw' Hw))))).
  - eapply heap_ok_perm; [apply (i_heap _ _ _ _ Hi)|]. rewrite (owned_clients _ _ _ _ Hv).
    rewrite (owned_clients (Mk_view _ _ _ _) cs1 _ cs2 eq_refl), client_own_push. solve_Permutation.
  - eapply entries_client; [exact Hnd|done| |exact He|done..|].
    + rewrite <- Hv. apply Hi.
    + split; [intros _; by destruct (cv_out c)|intros _; apply lor_pollout].
  - eapply revents_insert; [apply Hi|exact He|done..|]. intros _. apply lor_pollout.
Qed.

(** A poll entry whose client has something to send is served: some of the
    bytes go out, and the entry stops asking when nothing is left. *)
Lemma wpu_write_to_client own v s cs1 c cs2 i e (Q : unit → ust W → Prop) :
  (∀ fd bs w w', os_write fd bs w ≠ (None, w')) →
  inv own i v s → v_clients v = cs1 ++ c :: cs2 → cv_out c ≠ [] →
  v_polls v !! i = Some e → pfd_fd e = cv_fd c →
  (∀ out es s', inv own (S i) (Mk_view (v_reqs v) (v_procs v) (cs1 ++ with_out c out :: cs2) es) s' →
     Q tt s') →
  wpu (write_to_client (cv_addr c) (Z.of_nat i)) Q s.
Proof.
  intros write_accepts Hi Hv Hout He Hefd HQ. unfold write_to_client.
  destruct (inv_client_rep _ _ _ _ _ _ _ Hi Hv) as (cl & Hcl & Hfd & Hrb & Hwb & Hw).
  destruct (cv_out c) as [|m ms] eqn:Hms; [done|].
  apply wpu_bind. eapply wpu_client_get; [exact Hcl|]. apply wpu_bind.
  destruct (prepare_write_rep _ _ _ Hwb Hw) as (wb1 & Hprep & Hwb1 & Hw1 & Hp1).
  eapply wpu_ok; [exact Hprep|]. simpl. apply wpu_bind. eapply wpu_client_put; [exact Hcl|].
  apply wpu_bind, wpu_heap. intros E1 HE1. pose proof (i_heap _ _ _ _ Hi) as Hheap.
  rewrite (owned_clients _ _ _ _ Hv) in Hheap. unfold client_own in Hheap. rewrite Hms in Hheap. simpl in Hheap.
  eapply wp_load; [exact Hheap|set_solver|]. apply wpu_bind, wpu_sys. intros [n|] w Hwrite.
  2: { by destruct (write_accepts _ _ _ _ Hwrite). }
  apply write_law in Hwrite as Hn. apply write_frame in Hwrite as [Hf Hc]. simpl in Hf, Hc.
  apply wpu_bind, wpu_bind, wpu_heap. intros E2 HE2.
  set (rest := concat (req_own <$> v_reqs v) ++ concat (proc_own <$> v_procs v) ++
             concat (client_own <$> cs1 ++ cs2)) in *.
  pose proof Hwb as (Hmsg & _ & Hwl & Hptr & _). apply Forall_cons in Hmsg as [[Hnn _] _].
  eapply wp_have_written with (ms := ms) (m := m) (own := cv_addr c :: rest ++ own).
  { eapply heap_ok_perm; [exact Hheap|]. simpl. solve_Permutation. }
  { done. } { done. }
  { revert Hn. rewrite length_take, length_drop, c_str_no_nul, Hp1 by done. lia. }
  intros wb2 h ms' Hms' Hok2 Hwb2 Hw2 _.
  eapply wpu_client_put; [apply lookup_insert_eq|]. apply wpu_bind.
  eapply wpu_client_get; [apply lookup_insert_eq|]. simpl. rewrite (writebuf_has_data _ _ Hwb2).
  destruct (inv_client_fds _ _ _ _ _ _ _ Hi Hv) as [Hnd Hpos].
  assert (∀ l es, poll_rep l (u_poll_num s) (u_poll_len s) es →
    entries_ok (u_server_sock s) (u_cpipe s).1 (cs1 ++ with_out c ms' :: cs2) es →
    revents_ok (u_server_sock s) (S i) es →
    inv own (S i) (Mk_view (v_reqs v) (v_procs v) (cs1 ++ with_out c ms' :: cs2) es)
      (set_poll l (u_poll_num s) (u_poll_len s) (set_store (<[cv_addr c := Mk_client (cl_fd cl) (cl_readbuf cl) wb2]>
         (<[cv_addr c := Mk_client (cl_fd cl) (cl_readbuf cl) wb1]> (u_store s)))
         (with_heap h (set_world w s))))) as Hend.
  { intros l es Hl Hes Hrev.
    eapply inv_client with (s := set_world w s) (c' := with_out c ms') (h := h) (l := l);
      [reflexivity|by apply inv_world|exact Hv|done..| | | |exact Hl|done|done]; simpl.
    - intros b Hb. by rewrite !lookup_insert_ne.
    - eexists. rewrite lookup_insert_eq.
      exact (conj eq_refl (conj Hfd (conj Hrb (conj Hwb2 Hw2)))).
    - eapply heap_ok_perm; [exact Hok2|].
      rewrite (owned_clients (Mk_view _ _ _ _) cs1 _ cs2 eq_refl). simpl.
      fold rest. solve_Permutation. }
  assert (∀ e', pfd_fd e' = pfd_fd e → (wants_out e' ↔ ms' ≠ []) →
    entries_ok (u_server_sock s) (u_cpipe s).1 (cs1 ++ with_out c ms' :: cs2) (<[i := e']> (v_polls v))) as Hent.
  { intros e' Hfde Hwant. eapply entries_client; [exact Hnd|done| |exact He|done..].
    rewrite <- Hv. apply Hi. }
  assert (∀ e', revents_ok (u_server_sock s) (S i) (<[i := e']> (v_polls v))) as Hrev.
  { intros e' j f Hj. rewrite list_lookup_insert_ne by lia. apply (i_revents _ _ _ _ Hi). lia. }
  case_bool_decide as Hne; simpl.
  - eapply HQ. eapply (Hend (u_poll_list s) (v_polls v)); [apply Hi| |].
    + rewrite <- (list_insert_id (v_polls v) i e) by done. apply Hent; [done|].
      split; [done|]. intros _. eapply e_out; [apply Hi|by eapply list_elem_of_lookup_2| |exact Hefd|].
      * rewrite Hv, elem_of_app, elem_of_cons. auto.
      * by rewrite Hms.
    + rewrite <- (list_insert_id (v_polls v) i e) by done. apply Hrev.
  - eapply wpu_poll_set_events; [apply Hi|exact He|]. intros l Hl.
    eapply HQ. eapply (Hend l); [exact Hl|apply Hent; [done|]|apply Hrev].
    split; [intros Hbit; by destruct (clear_pollout (pfd_events e))|done].
Qed.

Lemma wpu_load own k v s m (Q : bytes → ust W → Prop) :
  inv own k v s → c_addr m ∈ owned v ++ own → Q (c_str (c_txt m)) s → wpu (heapU (load m)) Q s.
Proof.
  intros Hi Hm HQ. apply wpu_heap. intros E _. eapply wp_load; [apply Hi|done|].
  by destruct s as [[]].
Qed.

Lemma wpu_touch own k v s a (Q : unit → ust W → Prop) :
  inv own k v s → a ∈ owned v ++ own → Q tt s → wpu (heapU (touch a)) Q s.
Proof.
  intros Hi Hm HQ. apply wpu_heap. intros E _. eapply wp_touch; [apply Hi|done|].
  by destruct s as [[]].
Qed.

Lemma wpu_check_msgbuf own k v s len (Q : unit → ust W → Prop) :
  inv own k v s → (len ≤ alloc_limit → Q tt s) → wpu (check_msgbuf len) Q s.
Proof.
  intros Hi HQ. unfold check_msgbuf. destruct (Z.ltb_spec alloc_limit len); [by eapply wpu_shutdown_inv|].
  by apply wp_ret, HQ.
Qed.

Lemma wpu_snprintf own k v s len txt (Q : cstr * Z → ust W → Prop) :
  inv own k v s →
  (∀ a s', inv (a :: own) k v s' → kept s s' →
     Q (Mk_cstr a (take (Z.to_nat (len - 1)) txt),
        if Z.of_nat (length txt) <=? INT_MAX then Z.of_nat (length txt) else -1) s') →
  wpu (snprintf len txt) Q s.
Proof.
  intros Hi HQ. unfold snprintf. apply wpu_bind, wpu_heap. intros E _.
  eapply wp_new_str; [apply Hi|]. intros a h Hok. apply HQ; [|done].
  eapply inv_heap; [done|]. eapply heap_ok_perm; [exact Hok|]. solve_Permutation.
Qed.

(** [c] with a message queued, in a view where only its poll entry may differ
    otherwise. *)
Definition with_message (v : view) (cs1 : list cview) (c : cview) (cs2 : list cview) (m : cstr)
    (es : list pollfd) : view :=
  Mk_view (v_reqs v) (v_procs v) (cs1 ++ with_out c (cv_out c ++ [m]) :: cs2) es.

Lemma wpu_send_started own k v s cs1 c cs2 id (Q : unit → ust W → Prop) :
  inv own k v s → v_clients v = cs1 ++ c :: cs2 → c_addr id ∈ owned v ++ own →
  (∀ m es s', inv own k (with_message v cs1 c cs2 m es) s' → kept s s' →
     (Z.of_nat (length (c_txt id)) ≤ alloc_limit → c_txt m = started_text (c_str (c_txt id))) →
     Q tt s') →
  wpu (send_started_msg_to_client (cv_addr c) id) Q s.
Proof.
  intros Hi Hv Hid HQ. unfold send_started_msg_to_client. apply wpu_bind. eapply wpu_load; [done..|].
  fold (started_text (c_str (c_txt id))). set (txt := started_text (c_str (c_txt id))).
  assert (length txt = length (c_str (c_txt id)) + 3)%nat as Hlen.
  { unfold txt, started_text. rewrite !length_app. change (length (str "S;")) with 2%nat. simpl. lia. }
  unfold strlen. rewrite c_str_idem. apply wpu_bind. eapply wpu_check_msgbuf; [done|]. intros _.
  apply wpu_bind. eapply wpu_snprintf; [done|]. intros a s1 Hi1 Hp1.
  cbv zeta match beta. destruct (_ =? _) eqn:Hcmp; simpl; [|by eapply wpu_shutdown_inv].
  apply Z.eqb_eq in Hcmp.
  eapply wpu_queue_write; [by eapply Hi1|done| |].
  - split; simpl.
    + apply no_nul_take, no_nul_app; [by apply no_nul_str|].
      apply no_nul_app; [apply no_nul_c_str|by apply no_nul_char].
    + rewrite length_take. destruct (Z.leb_spec (Z.of_nat (length txt)) INT_MAX); [lia|].
      assert (u64 (Z.of_nat (length (c_str (c_txt id))) + 4) = 0) as ->; [|unfold INT_MAX; lia].
      unfold u64, SIZE_MOD in *. revert Hcmp. generalize (Z.of_nat (length (c_str (c_txt id))) + 4).
      intros x Hx. pose proof (Z.mod_pos_bound x 18446744073709551616 ltac:(lia)) as Hb.
      change (-1 mod 18446744073709551616) with 18446744073709551615 in Hx.
      destruct (decide (x mod 18446744073709551616 = 0)); [done|].
      rewrite (Z.mod_small (_ - 1)) in Hx by lia. lia.
  - intros es s2 Hi2 He2. eapply HQ; [exact Hi2|by etrans|]. intros Hsmall. simpl.
    pose proof (length_c_str (c_txt id)). rewrite u64_small by (unfold SIZE_MOD, alloc_limit in *; lia).
    apply take_ge. fold txt. rewrite Hlen. lia.
Qed.

Lemma wpu_send_msg own k v s cs1 c cs2 id code cpu tmo file (Q : unit → ust W → Prop) :
  inv own k v s → v_clients v = cs1 ++ c :: cs2 →
  c_addr id ∈ owned v ++ own → c_addr file ∈ owned v ++ own → no_nul cpu →
  (∀ m es s', inv own k (with_message v cs1 c cs2 m es) s' → kept s s' →
     c_txt m = finished_text (c_str (c_txt id)) code cpu tmo (c_str (c_txt file)) →
     Q tt s') →
  wpu (send_msg_to_client (cv_addr c) id code cpu tmo file) Q s.
Proof.
  intros Hi Hv Hid Hfile Hcpu HQ. unfold send_msg_to_client. apply wpu_bind. eapply wpu_load; [done..|].
  apply wpu_bind. eapply wpu_load; [done..|].
  fold (finished_text (c_str (c_txt id)) code cpu tmo (c_str (c_txt file))).
  set (txt := finished_text _ _ _ _ _). unfold strlen. rewrite !c_str_idem.
  apply wpu_bind. eapply wpu_check_msgbuf; [done|]. intros _.
  apply wpu_bind. eapply wpu_snprintf; [done|]. intros a s1 Hi1 Hp1.
  cbv zeta match beta. destruct (_ <=? u64 _) eqn:Hcmp; [by eapply wpu_shutdown_inv|].
  apply Z.leb_gt in Hcmp. set (len := u64 (_ + _)) in *.
  assert (Z.of_nat (length txt) < len ∧ Z.of_nat (length txt) ≤ INT_MAX) as [Hlt Hmax].
  { assert (len < SIZE_MOD) by (apply Z.mod_pos_bound; done).
    destruct (Z.leb_spec (Z.of_nat (length txt)) INT_MAX).
    - rewrite u64_small in Hcmp by (unfold SIZE_MOD, INT_MAX in *; lia). lia.
    - change (u64 (-1)) with (SIZE_MOD - 1) in Hcmp. lia. }
  assert (take (Z.to_nat (len - 1)) txt = txt) as Htake by (apply take_ge; lia).
  eapply wpu_queue_write; [by eapply Hi1|done| |].
  - split; simpl; rewrite Htake; [|lia]. unfold txt, finished_text.
    repeat apply no_nul_app; first [by apply no_nul_str | apply no_nul_c_str | by apply no_nul_char
      | apply no_nul_dec | done].
  - intros es s2 Hi2 He2. eapply HQ; [exact Hi2|by etrans|done].
Qed.

(** ** Starting a process *)

Lemma fill_argv_cells pre old post argv i :
  length pre = S i → (i + length old ≤ length argv)%nat →
  fill_argv (pre ++ old ++ post) argv i (length old) =
  Ok (pre ++ ((λ a, Some (Some a)) <$> take (length old) (drop i argv)) ++ post).
Proof.
  revert pre i. induction old as [|o old IH]; intros pre i Hpre Hargv; simpl in *; [done|].
  destruct (lookup_lt_is_Some_2 argv i) as [a Ha]; [lia|]. rewrite Ha, (drop_S _ _ _ Ha). simpl.
  rewrite arr_set_ok by (rewrite length_app; simpl; lia). simpl.
  replace (Z.to_nat (Z.of_nat i + 1)) with (length pre + 0)%nat by lia. rewrite insert_app_r. simpl.
  specialize (IH (pre ++ [Some (Some a)]) (S i)). rewrite <- !app_assoc in IH. apply IH; [|lia].
  rewrite length_app. simpl. lia.
Qed.

Lemma build_argv_cells cmd argv stdin :
  let count := arg_count (Z.of_nat (length argv)) stdin in
  0 ≤ count → count + 2 ≤ alloc_limit →
  build_argv cmd (Z.of_nat (length argv)) argv stdin =
  Ok (Some <$> Some cmd :: (Some <$> take (Z.to_nat count) argv) ++ [None]).
Proof.
  intros count Hc Hlim. unfold build_argv. fold count.
  assert (count ≤ Z.of_nat (length argv)) as Hle by (unfold count, arg_count; case_match; lia).
  rewrite arr_alloc_ok by lia. simpl. rewrite arr_set_ok by (rewrite length_replicate; lia). simpl.
  rewrite arr_set_ok by (rewrite length_insert, length_replicate; lia). simpl.
  replace (Z.to_nat (count + 2)) with (S (Z.to_nat count + 1)) by lia. simpl.
  replace (Z.to_nat (count + 1)) with (S (length (replicate (Z.to_nat count) (@None (option cstr))) + 0))
    by (rewrite length_replicate; lia).
  simpl. rewrite replicate_add, insert_app_r. simpl.
  pose proof (fill_argv_cells [Some (Some cmd)] (replicate (Z.to_nat count) None) [Some None] argv 0) as Hf.
  rewrite length_replicate, drop_0 in Hf. simpl in Hf. rewrite Hf by lia.
  by rewrite fmap_app, <- list_fmap_compose.
Qed.

Lemma mapM_cells {A} (l : list A) :
  mapM (λ c, match c with Some p => Ok p | None => Fail Undefined end) (Some <$> l) = Ok l.
Proof. unfold fmap. induction l as [|a l IH]; [done|]. simpl. by rewrite IH. Qed.

(** What a child is meant to do: limit its CPU time to [tl] seconds and its
    memory to [ml] megabytes (0 is no limit), with no core file when it has a
    limit; read the last argument as standard input if asked to; send both
    outputs to [outfile]; and execute [cmd] with the other arguments. Without
    an argument to read, the argument before the first is read. *)
Definition limits_spec (tl ml : Z) : list child_action :=
  (if decide (0 < tl) then [ChSetrlimit RLIMIT_CPU tl tl] else []) ++
  (if decide (0 < ml) then [ChSetrlimit RLIMIT_AS (u64 (ml * 1048576)) (u64 (ml * 1048576))] else []) ++
  (if decide (0 < tl ∨ 0 < ml) then [ChSetrlimit RLIMIT_CORE 0 0] else []).

Definition child_spec (cmd : cstr) (args : list cstr) (stdin : bool) (outfile tl ml : Z)
    : res (list child_action) :=
  let exec l := [ChDup2 outfile 1; ChDup2 outfile 2; ChExec cmd (Some cmd :: (Some <$> l) ++ [None])] in
  match stdin, last args with
  | false, _ => Ok (limits_spec tl ml ++ exec args)
  | true, Some file => Ok (limits_spec tl ml ++ ChOpenStdin file :: exec (take (length args - 1) args))
  | true, None => Fail Undefined
  end.

Lemma child_limits_spec tl ml : child_limits tl ml = limits_spec tl ml.
Proof.
  assert (u64 (u64 (ml * 1024) * 1024) = u64 (ml * 1048576)) as Hm.
  { unfold u64. rewrite Zmult_mod_idemp_l. f_equal. lia. }
  unfold child_limits, limits_spec. rewrite Hm.
  destruct (Z.ltb_spec 0 tl), (Z.ltb_spec 0 ml); repeat (case_decide; try lia); done.
Qed.

Lemma build_argv_ok cmd argv stdin outfile tl ml :
  arg_count (Z.of_nat (length argv)) stdin + 2 ≤ alloc_limit →
  ∃ ua, build_argv cmd (Z.of_nat (length argv)) argv stdin = Ok ua ∧
    child_program cmd (Z.of_nat (length argv)) argv ua stdin outfile tl ml =
    child_spec cmd argv stdin outfile tl ml.
Proof.
  intros Hle. destruct (decide (0 ≤ arg_count (Z.of_nat (length argv)) stdin)) as [Hpos|Hneg].
  - eexists. split; [by apply build_argv_cells|]. unfold child_program, child_spec, mbind, res_bind.
    rewrite child_limits_spec. unfold defined. destruct stdin; unfold arg_count in *.
    + guard_true (0 <=? Z.of_nat (length argv) - 1).
      replace (Z.to_nat (Z.of_nat (length argv) - 1)) with (Nat.pred (length argv)) by lia.
      rewrite <- last_lookup, mapM_cells, Nat.sub_1_r. by destruct (last argv).
    + rewrite mapM_cells, Nat2Z.id, firstn_all. by destruct (last argv).
  - unfold arg_count in *. destruct stdin, argv; simpl in *; try lia. by eexists.
Qed.

Lemma build_argv_child cmd argv stdin outfile tl ml :
  safe True (build_argv cmd (Z.of_nat (length argv)) argv stdin) (λ ua,
    child_program cmd (Z.of_nat (length argv)) argv ua stdin outfile tl ml =
    child_spec cmd argv stdin outfile tl ml).
Proof.
  destruct (decide (arg_count (Z.of_nat (length argv)) stdin + 2 ≤ alloc_limit)) as [Hle|Hgt].
  - by destruct (build_argv_ok cmd argv stdin outfile tl ml Hle) as (ua & -> & ?).
  - unfold build_argv, arr_alloc. by guard_false ((0 <=? arg_count (Z.of_nat (length argv)) stdin + 2) &&
      (arg_count (Z.of_nat (length argv)) stdin + 2 <=? alloc_limit)).
Qed.

Lemma wpu_create_process own k v s cmd argv stdin outfile tl ml (Q : Z → ust W → Prop) :
  inv own k v s →
  (∀ pid h w, heap_ok h (owned v ++ own) →
     os_fork (child_spec cmd argv stdin outfile tl ml) (u_world s) = (pid, w) →
     0 < pid → pid ∉ os_children (u_world s) →
     os_fds w = os_fds (u_world s) → os_children w = {[pid]} ∪ os_children (u_world s) →
     Q pid (set_world w (with_heap h s))) →
  wpu (create_process cmd (Z.of_nat (length argv)) argv stdin outfile tl ml) Q s.
Proof.
  intros Hi HQ. unfold create_process. apply wpu_bind, wpu_heap. intros E _.
  eapply wp_malloc; [apply Hi|]. intros blk h1 Hok1.
  assert (inv (blk :: own) k v (with_heap h1 s)) as Hi1.
  { eapply inv_heap; [done|]. eapply heap_ok_perm; [exact Hok1|]. solve_Permutation. }
  apply wpu_bind, wpu_lift. eapply safe_mono; [apply build_argv_child|]. intros ua ->.
  apply wpu_bind, wpu_sys. intros pid w Hfork. apply fork_law in Hfork as Hlaw. destruct Hlaw as [Hf Hcase].
  simpl in Hf, Hcase, Hfork.
  destruct Hcase as [[-> Hc]|(Hpos & Hnew & Hc)].
  { simpl. eapply wpu_shutdown_inv, inv_world; [exact Hi1|done..]. }
  rewrite (proj2 (Z.eqb_neq pid (-1))) by lia. rewrite (proj2 (Z.ltb_lt 0 pid)) by lia.
  apply wpu_bind, wpu_heap. intros E2 _. eapply wp_free; [exact Hok1|]. intros h2 Hok2.
  by apply HQ.
Qed.

(** What a request to run becomes: nothing when its client is gone, and
    otherwise a process and a message to the client. The process writes to a
    new file of the directory [dir] and does what the request says
    ([child_spec]); it keeps the id of the task, the pid that [fork] returned
    and the name that [mkstemp] made. The server closes its copy of the
    descriptor. The relation is on the view and the outside world. *)
Definition temp_template (dir : bytes) : bytes := c_str dir ++ str "/why3" ++ str "XXXXXX".

Definition started (dir : option bytes) (r : request) (x y : view * W) : Prop :=
  ((r_key r ∉ cv_fd <$> v_clients x.1) ∧ y = x) ∨
  ∃ t d cs1 c cs2 p m es fd w1 w2,
    dir = Some t ∧ req_type r = REQ_RUN d ∧
    v_clients x.1 = cs1 ++ c :: cs2 ∧ cv_fd c = r_key r ∧
    os_mkstemp (temp_template t) x.2 = ((fd, c_txt (p_outfile p)), w1) ∧
    os_fork (child_spec (cmd d) (args d) (usestdin d) fd (timeout d) (memlimit d)) w1 = (p_os p, w2) ∧
    0 < p_os p ∧ y.2 = (os_call (SysClose fd) w2).2 ∧
    y.1 = with_message (with_procs x.1 (v_procs x.1 ++ [p])) cs1 c cs2 m es ∧
    p_client_key p = r_key r ∧ p_task_id p = r_id r ∧
    (Z.of_nat (length (c_txt (r_id r))) ≤ alloc_limit →
     c_txt m = started_text (c_str (c_txt (r_id r)))).

Lemma lookup_client own k v s fd l :
  inv own k v s → u_clients s = Some l →
  (list_lookup l fd = Ok None ∧ (fd ∉ cv_fd <$> v_clients v)) ∨
  ∃ cs1 c cs2, list_lookup l fd = Ok (Some (cv_addr c)) ∧ v_clients v = cs1 ++ c :: cs2 ∧ cv_fd c = fd.
Proof.
  intros Hi Hl. destruct (i_clients _ _ _ _ Hi) as (l' & Hl' & Hrep).
  assert (l' = l) as -> by congruence. rewrite (list_lookup_rep _ _ _ Hrep).
  destruct (assoc_remove_fmap client_key fd (v_clients v)) as [(Ha & Hn & _)|(c & cs' & Ha & Hk & Hp & _)].
  - left. rewrite Ha. split; [done|]. rewrite <- list_fmap_compose in Hn. exact Hn.
  - right. assert (c ∈ v_clients v) as (cs1 & cs2 & Hv)%list_elem_of_split by (rewrite Hp; set_solver).
    exists cs1, c, cs2. rewrite Ha. done.
Qed.

Lemma owned_procs v ps p : v_procs v ≡ₚ p :: ps → owned v ≡ₚ proc_own p ++ owned (with_procs v ps).
Proof.
  intros Hp. unfold owned. simpl. rewrite (concat_fmap_perm proc_own _ _ Hp). simpl. solve_Permutation.
Qed.

(** A child has been created and is not yet in the list. *)
Definition forked (pid : Z) (own : list positive) (k : nat) (v : view) (s : ust W) : Prop :=
  ∃ w, inv own k v (set_world w s) ∧ (∀ fd, fd ∈ known_fds v s → fd ∈ os_fds (u_world s)) ∧
       (pid ∉ os_children w) ∧ os_children (u_world s) = {[pid]} ∪ os_children w.

Lemma wpu_heap_forked {A} pid own k v s (m : M heap A) (Q : A → ust W → Prop) :
  forked pid own k v s →
  (∀ E : stop heap → Prop, heap_ok (g_heap (u_env s)) (owned v ++ own) →
   wp E m (λ a h, (∀ own', heap_ok h (owned v ++ own') → forked pid own' k v (with_heap h s)) →
                  Q a (with_heap h s)) (g_heap (u_env s))) →
  wpu (heapU m) Q s.
Proof.
  intros (w & Hi & Hf & Hn & Hc) Hm. apply wpu_heap. intros E _. eapply wp_mono; [apply Hm, Hi|].
  intros a h HQ. apply HQ. intros own' Hok. exists w. split; [|done]. eapply inv_heap in Hi; [|exact Hok]. done.
Qed.

Lemma inv_add_proc own own' k v s p ps :
  forked (p_os p) own k v s → own ≡ₚ proc_own p ++ own' →
  list_rep ps (proc_key <$> v_procs v ++ [p]) →
  inv own' k (with_procs v (v_procs v ++ [p])) (set_processes ps s).
Proof.
  intros (w & Hi & Hf & Hn & Hc) Hown Hrep. pose proof (i_children _ _ _ _ Hi) as Hch.
  pose proof (i_heap _ _ _ _ Hi) as Hh. pose proof (i_pids _ _ _ _ Hi) as Hnd. simpl in *.
  pose proof (i_open _ _ _ _ Hi) as Ho.
  destruct Hi. split; simpl; try done.
  - rewrite fmap_app. apply NoDup_app. split_and!; [done| |apply NoDup_singleton].
    intros pid Hpid%Hch. simpl. rewrite list_elem_of_singleton. by intros ->.
  - intros pid. rewrite Hc, fmap_app, elem_of_union, elem_of_app, Hch. simpl.
    rewrite elem_of_singleton, list_elem_of_singleton. tauto.
  - intros fd Hfd. split; [by apply Hf|by apply Ho].
  - eapply heap_ok_perm; [exact Hh|]. rewrite Hown. unfold owned. simpl. rewrite fmap_app, concat_app.
    simpl. solve_Permutation.
Qed.

Lemma wpu_open_temp_file own k v s (Q : Z * cstr → ust W → Prop) :
  inv own k v s →
  (∀ t fd outfile s', inv (c_addr outfile :: own) k v s' → fd ∉ known_fds v s' →
     config s' = config s → u_current_dir s = Some t →
     os_mkstemp (temp_template t) (u_world s) = ((fd, c_txt outfile), u_world s') →
     Q (fd, outfile) s') →
  wpu (open_temp_file (u_current_dir s)) Q s.
Proof.
  intros Hi HQ. unfold open_temp_file. destruct (i_dir _ _ _ _ Hi) as (t & Ht & Hd). unfold strlen in Hd.
  rewrite Ht. apply wpu_bind. eapply wpu_ok; [done|]. fold (temp_template t).
  apply wpu_bind. eapply wpu_ok with (a := tt).
  { unfold defined, strlen. rewrite u64_small by (unfold SIZE_MOD, alloc_limit in *; lia).
    rewrite (proj2 (Z.leb_le _ _)); [done|]. unfold temp_template. rewrite !length_app.
    change (length (str "/why3")) with 5%nat. change (length (str "XXXXXX")) with 6%nat. lia. }
  apply wpu_bind, wpu_heap. intros E _. eapply wp_malloc; [apply Hi|]. intros a h Hok.
  apply wpu_bind, wpu_sys. intros [fd name] w Hmk. apply mkstemp_law in Hmk as Hlaw. destruct Hlaw as (_ & _ & Hch & Hfds).
  simpl in Hch, Hfds, Hmk.
  assert (inv (a :: own) k v (with_heap h s)) as Hi1.
  { eapply inv_heap; [exact Hi|]. eapply heap_ok_perm; [exact Hok|]. solve_Permutation. }
  pose proof (i_open _ _ _ _ Hi) as Ho.
  apply (HQ t); [|..|done|done|exact Hmk].
  - apply (inv_world_fds _ _ _ _ w Hi1); [|done]. intros f Hf%Ho. simpl.
    destruct Hfds as [[_ ->]|(_ & _ & ->)]; set_solver.
  - intros Hin%Ho. destruct Hfds as [[-> _]|(? & ? & _)]; [lia|]. naive_solver.
Qed.

Lemma wpu_run_request own k v s r (Q : unit → ust W → Prop) :
  inv (req_own r ++ own) k v s → run_req r →
  (∀ own' v' s', inv own' k v' s' →
     started (u_current_dir s) r (v, u_world s) (v', u_world s') → v_reqs v' = v_reqs v →
     config s' = config s →
     owned v' ++ own' ≡ₚ req_own r ++ (owned v' ++ own) ∨
     (∃ o, owned v' ≡ₚ c_addr (r_id r) :: o ∧ owned v' ++ own' ≡ₚ req_own r ++ o ++ own) → Q tt s') →
  wpu (run_request r) Q s.
Proof.
  intros Hi [Hwf Hrun] HQ. unfold run_request. apply wpu_bind. eapply wpu_touch; [done| |].
  { rewrite (req_own_rest r). unfold req_rest. destruct (req_type r); set_solver. }
  destruct (i_clients _ _ _ _ Hi) as (l & Hl & _). apply wpu_bind. eapply wpu_the_clients; [done|].
  apply wpu_bind. destruct (lookup_client _ _ _ _ (r_key r) _ Hi Hl) as [[Hlook Hno]|(cs1 & c & cs2 & Hlook & Hv & Hfd)];
    (eapply wpu_ok; [exact Hlook|]).
  { eapply HQ; [exact Hi|by left|done..|]. left. solve_Permutation. }
  unfold req_wf in Hwf. destruct (req_type r) as [d|] eqn:Hd; [|done].
  apply wpu_bind. unfold wpu at 1, wp, gets. apply wpu_bind. eapply wpu_open_temp_file; [exact Hi|].
  intros t fd outfile s1 Hi1 Hfresh Hcfg1 Ht Hmk. apply wpu_bind. rewrite Hwf.
  eapply wpu_create_process; [exact Hi1|]. intros pid h w Hok Hfork Hpos Hnew Hf Hc.
  apply wpu_bind, wpu_sys. intros rc w2 Hclose. apply close_law in Hclose as Hlaw. destruct Hlaw as [Hf2 Hc2].
  simpl in Hf2, Hc2, Hclose.
  assert (forked pid (c_addr outfile :: req_own r ++ own) k v (set_world w2 (with_heap h s1))) as Hk.
  { exists (u_world s1). split_and!; [|..|done|simpl; congruence].
    - eapply inv_heap in Hi1; [|exact Hok]. by destruct s1.
    - intros f Hin. simpl. rewrite Hf2, Hf. apply (i_open _ _ _ _ Hi1) in Hin as Hopen. set_solver. }
  apply wpu_bind. eapply wpu_heap_forked; [exact Hk|]. intros E Hok2. eapply wp_malloc; [exact Hok2|].
  intros a h2 Hok3 Hforked. specialize (Hforked (a :: c_addr outfile :: req_own r ++ own)).
  apply wpu_bind. unfold wpu at 1, wp, gets. apply wpu_bind, wpu_lift.
  set (p := Mk_proc a pid (r_key r) (r_id r) outfile).
  eapply safe_mono; [apply list_append_safe; [apply (i_procs _ _ _ _ Hi1)|done]|]. intros ps Hps.
  apply wpu_bind, wp_modify.
  set (s2 := set_processes ps _). assert (inv (req_rest r ++ own) k (with_procs v (v_procs v ++ [p])) s2) as Hi2.
  { eapply inv_add_proc; [apply Hforked|..].
    - eapply heap_ok_perm; [exact Hok3|]. solve_Permutation.
    - rewrite (req_own_rest r). unfold proc_own. simpl. solve_Permutation.
    - rewrite fmap_app. exact Hps. }
  assert (∀ v', v_procs v' = v_procs v ++ [p] → owned v' ≡ₚ
    c_addr (r_id r) :: [a; c_addr outfile] ++ owned (with_procs v' (v_procs v))) as Hown.
  { intros v' Hv'. rewrite (owned_procs v' (v_procs v) p) by (rewrite Hv'; solve_Permutation).
    unfold proc_own. simpl. solve_Permutation. }
  eapply wpu_send_started; [exact Hi2|exact Hv| |].
  { rewrite (Hown (with_procs v (v_procs v ++ [p]))) by done. set_solver. }
  intros m es s3 Hi3 [Hcfg3 Hw3] Htxt. eapply HQ; [exact Hi3| |done| |].
  - right. exists t, d, cs1, c, cs2, p, m, es, fd, (u_world s1), w. simpl. rewrite Hw3.
    split_and!; try done. by rewrite Hclose.
  - rewrite Hcfg3. exact Hcfg1.
  - right. eexists. split; [by apply Hown|]. rewrite (req_own_rest r), Hown by done. simpl. solve_Permutation.
Qed.

(** Running a request and disposing of it. *)
Lemma wpu_run_and_free own k v s r (Q : unit → ust W → Prop) :
  inv (req_own r ++ own) k v s → run_req r →
  (∀ v' s', inv own k v' s' → started (u_current_dir s) r (v, u_world s) (v', u_world s') →
     v_reqs v' = v_reqs v → config s' = config s → Q tt s') →
  wpu (run_request r) (λ _, wpu (heapU (free_request (Some r))) Q) s.
Proof.
  intros Hi Hr HQ. eapply wpu_run_request; [done..|]. intros own' v' s' Hi' Hst Hreqs Hpar Hown.
  pose proof (i_heap _ _ _ _ Hi') as Hh. destruct Hr as [Hwf Hrun].
  apply wpu_heap. intros E _. destruct Hown as [Hown|(o & Ho & Hown)].
  - rewrite Hown in Hh. eapply wp_free_request; [exact Hh|done|]. intros h Hok.
    eapply HQ; [|done..]. eapply inv_heap; [exact Hi'|]. by eapply heap_ok_weaken.
  - rewrite Hown in Hh. eapply wp_free_request; [exact Hh|done|]. intros h Hok.
    eapply HQ; [|done..]. eapply inv_heap; [exact Hi'|]. rewrite Ho.
    eapply heap_ok_perm; [exact Hok|]. unfold req_kept. destruct (req_type r); [|done]. simpl. done.
Qed.

(** ** Finished children *)

(** The outcome that the protocol reports: the exit code, or the signal, which
    counts as a timeout. *)
Inductive outcome : wait_status → Z → bool → Prop :=
| outcome_exited code : outcome (WExited code) code false
| outcome_signaled sig : outcome (WSignaled sig) sig true
| outcome_other : outcome WOther 1 false.

Lemma report_outcome st : outcome st (report_status st).1 (report_status st).2.
Proof. destruct st; constructor. Qed.

(** What the child [x] that [wait3] returns becomes: it leaves the list, and
    its client, if still there, gets a message with its outcome. *)
Definition reaped (x : wait_result) (a b : view * W) : Prop :=
  os_wait3 a.2 = (Some x, b.2) ∧
  ∃ p ps, v_procs a.1 ≡ₚ p :: ps ∧ p_os p = wr_pid x ∧
    (((p_client_key p ∉ cv_fd <$> v_clients a.1) ∧ b.1 = with_procs a.1 ps) ∨
     ∃ cs1 c cs2 m es code timeout, v_clients a.1 = cs1 ++ c :: cs2 ∧ cv_fd c = p_client_key p ∧
       b.1 = with_message (with_procs a.1 ps) cs1 c cs2 m es ∧ outcome (wr_status x) code timeout ∧
       c_txt m = finished_text (c_str (c_txt (p_task_id p))) code (fmt_2f (cpu_time (wr_usage x))) timeout
                   (c_str (c_txt (p_outfile p)))).

Lemma reaped_procs x a b :
  reaped x a b → length (v_procs a.1) = S (length (v_procs b.1)) ∧ v_reqs b.1 = v_reqs a.1.
Proof.
  destruct a as [v w], b as [v' w']. simpl. intros (_ & p & ps & Hp & _ & Hcase). simpl in *. rewrite Hp.
  destruct Hcase as [[_ ->]|(? & ? & ? & ? & ? & ? & ? & _ & _ & -> & _)]; done.
Qed.

(** The process of a child leaves the list. *)
Lemma inv_remove_proc own k v s w pid :
  inv own k v s → pid ∈ os_children (u_world s) →
  os_fds w = os_fds (u_world s) → os_children w = os_children (u_world s) ∖ {[pid]} →
  ∃ p ps l, list_lookup (u_processes s) pid = Ok (Some p) ∧ list_remove (u_processes s) pid = Ok l ∧
    v_procs v ≡ₚ p :: ps ∧ p_os p = pid ∧
    inv (proc_own p ++ own) k (with_procs v ps) (set_processes l (set_world w s)).
Proof.
  intros Hi Hpid Hf Hc. pose proof (i_procs _ _ _ _ Hi) as Hrep.
  pose proof (i_children _ _ _ _ Hi) as Hch. pose proof (i_pids _ _ _ _ Hi) as Hnd.
  pose proof (i_heap _ _ _ _ Hi) as Hh.
  rewrite (list_lookup_rep _ _ _ Hrep). destruct (list_remove_rep _ _ pid Hrep) as (l & -> & Hl & _).
  destruct (assoc_remove_fmap proc_key pid (v_procs v)) as [(_ & Hno & _)|(p & ps & Ha & Hk & Hp & Hrem)].
  { apply Hch in Hpid. destruct Hno. by rewrite <- list_fmap_compose. }
  rewrite Hrem in Hl. rewrite Ha. exists p, ps, l. split_and!; [done..|].
  assert (NoDup (p_os <$> p :: ps)) as [Hp1 Hp2]%NoDup_cons by (by rewrite <- Hp).
  destruct Hi. split; simpl; rewrite ?Hf, ?Hc; try done.
  - intros q. rewrite elem_of_difference, elem_of_singleton, Hch, Hp. simpl. rewrite elem_of_cons.
    split; [naive_solver|]. intros Hq. split; [by right|]. intros ->. apply Hp1. by rewrite <- Hk in Hq.
  - eapply heap_ok_perm; [exact Hh|]. rewrite (owned_procs v ps p Hp). solve_Permutation.
Qed.

Lemma wpu_handle_child_loop own k v s n (Q : unit → ust W → Prop) :
  inv own k v s → (length (v_procs v) < n)%nat →
  (∀ v' w s', inv own k v' s' → rtc (λ a b, ∃ x, reaped x a b) (v, u_world s) (v', w) →
     os_wait3 w = (None, u_world s') → config s' = config s → Q tt s') →
  wpu (handle_child_loop n) Q s.
Proof.
  revert v s. induction n as [|n IH]; intros v s Hi Hn HQ; simpl; [lia|].
  apply wpu_bind, wpu_sys. intros r w Hwait. apply wait3_law in Hwait as Hlaw.
  destruct Hlaw as [Hf Hr]. destruct r as [x|].
  2: { eapply HQ; [by apply inv_world|apply rtc_refl|exact Hwait|done]. }
  destruct Hr as [Hpid Hc].
  destruct (inv_remove_proc _ _ _ _ _ _ Hi Hpid Hf Hc) as (p & ps & l & Hlook & Hrem & Hp & Hk & Hi1).
  destruct (report_status (wr_status x)) as [code tmo] eqn:Hst.
  apply wpu_bind. unfold wpu at 1, wp, gets. simpl. apply wpu_bind. eapply wpu_ok; [exact Hlook|].
  apply wpu_bind. eapply wpu_ok; [exact Hrem|]. apply wpu_bind, wp_modify.
  set (s1 := set_processes l _) in *. apply wpu_bind. eapply wpu_touch; [exact Hi1|unfold proc_own; set_solver|].
  destruct (i_clients _ _ _ _ Hi1) as (cl & Hcl & _). apply wpu_bind. eapply wpu_the_clients; [exact Hcl|].
  assert (∀ v' s', inv (proc_own p ++ own) k v' s' → reaped x (v, u_world s) (v', u_world s') →
     config s' = config s →
     wpu (_ ← heapU (free_process p); handle_child_loop n) Q s') as Hrest.
  { intros v' s' Hi' Hre Hpar. apply wpu_bind, wpu_heap. intros E _. eapply wp_free_process with (own := owned v' ++ own).
    { eapply heap_ok_perm; [apply (i_heap _ _ _ _ Hi')|]. solve_Permutation. }
    intros h Hok. eapply IH.
    - eapply inv_heap; [exact Hi'|exact Hok].
    - apply reaped_procs in Hre as [? _]. simpl in *. lia.
    - intros v2 w2 s2 Hi2 Hr2 Hw2 Hpar2. eapply HQ; [exact Hi2|eapply rtc_l; eauto|exact Hw2|].
      rewrite Hpar2. exact Hpar. }
  apply wpu_bind. destruct (lookup_client _ _ _ _ (p_client_key p) _ Hi1 Hcl)
    as [[Hlk Hno]|(cs1 & c & cs2 & Hlk & Hv & Hfd)]; (eapply wpu_ok; [exact Hlk|]).
  - apply wpu_bind. eapply Hrest; [exact Hi1| |done]. split; [exact Hwait|]. exists p, ps. split_and!; [done..|]. by left.
  - apply wpu_bind. eapply wpu_send_msg; [exact Hi1|exact Hv|..].
    + unfold proc_own. set_solver.
    + unfold proc_own. set_solver.
    + apply no_nul_fmt_2f.
    + intros m es s2 Hi2 [Hpar2 Hw2] Htxt. eapply Hrest; [exact Hi2| |by rewrite Hpar2].
      split; [by rewrite Hw2|]. exists p, ps. split_and!; [done..|]. right. exists cs1, c, cs2, m, es, code, tmo.
      pose proof (report_outcome (wr_status x)) as Ho. rewrite Hst in Ho. done.
Qed.

Lemma wpu_handle_child_events own k v s (Q : unit → ust W → Prop) :
  inv own k v s →
  (∀ v' w s', inv own k v' s' → rtc (λ a b, ∃ x, reaped x a b) (v, u_world s) (v', w) →
     os_wait3 w = (None, u_world s') → config s' = config s → Q tt s') →
  wpu handle_child_events Q s.
Proof.
  intros Hi HQ. unfold handle_child_events. apply wpu_bind. unfold wpu at 1, wp, gets.
  eapply wpu_handle_child_loop; [exact Hi| |done].
  rewrite (list_rep_len _ _ (i_procs _ _ _ _ Hi)), length_fmap. lia.
Qed.

(** ** Requests *)

(** The world after SIGKILL has been sent to the processes [ps], in order. *)
Definition kill_all (ps : list (t_proc Z)) (w : W) : W :=
  foldl (λ w p, (os_call (SysKill (p_os p) SIGKILL) w).2) w ps.

(** What a parsed request does, when [par] processes may run. *)
Definition handled (par : Z) (dir : option bytes) (r : option request) (x y : view * W) : Prop :=
  match r with
  | None => y = x
  | Some r =>
      match req_type r with
      | REQ_RUN _ =>
          if Z.of_nat (length (v_procs x.1)) <? par then started dir r x y
          else y = (with_reqs x.1 (v_reqs x.1 ++ [r]), x.2)
      | REQ_INTERRUPT =>
          y = (with_reqs x.1 (filter (other_id (r_id r)) (v_reqs x.1)),
               kill_all (filter (same_task (r_id r)) (v_procs x.1)) x.2)
      end
  end.

Lemma owned_reqs_filter v (P : request → Prop) `{!∀ r, Decision (P r)} :
  ∃ o, owned v ≡ₚ owned (with_reqs v (filter P (v_reqs v))) ++ o.
Proof.
  exists (concat (req_own <$> filter (λ r, ¬ P r) (v_reqs v))). unfold owned. simpl.
  rewrite <- (concat_fmap_perm req_own _ _ (filter_app_complement P (v_reqs v))) at 1.
  rewrite fmap_app, concat_app. solve_Permutation.
Qed.

Lemma owned_req_in v r : r ∈ v_reqs v → ∀ a, a ∈ req_own r → a ∈ owned v.
Proof.
  intros Hr a Ha. unfold owned. rewrite !elem_of_app. left. apply elem_of_concat.
  exists (req_own r). split; [done|]. by apply list_elem_of_fmap_2.
Qed.

Lemma owned_proc_in v p : p ∈ v_procs v → ∀ a, a ∈ proc_own p → a ∈ owned v.
Proof.
  intros Hr a Ha. unfold owned. rewrite !elem_of_app. right. left. apply elem_of_concat.
  exists (proc_own p). split; [done|]. by apply list_elem_of_fmap_2.
Qed.

Lemma inv_set_reqs own own' k v s q rs :
  inv own k v s → queue_rep q rs → Forall run_req rs →
  heap_ok (g_heap (u_env s)) (owned (with_reqs v rs) ++ own') →
  inv own' k (with_reqs v rs) (set_queue q s).
Proof. intros [] ???. by split. Qed.

(** The processes with an id are killed; they stay in the list until they
    are waited for. *)
Lemma wpu_kill own k v s id (Q : unit → ust W → Prop) :
  inv own k v s → c_addr id ∈ own →
  (∀ s', inv own k v s' → config s' = config s →
     u_world s' = kill_all (filter (same_task id) (v_procs v)) (u_world s) → Q tt s') →
  wpu (kill_processes (λ s, g_heap (u_env s)) (λ h s, set_env (set_heap h (u_env s)) s)
         os_kill (u_processes s) id) Q s.
Proof.
  intros Hi Hid HQ.
  apply (wp_kill_processes _ _ _ any_stop (owned v ++ own) _ (proc_key <$> v_procs v) id
    (λ ks s', inv own k v s' ∧ config s' = config s ∧ u_world s' = kill_all ks (u_world s))).
  - intros _ s' [Hi' _]. split; [apply Hi'|]. by destruct s' as [[]].
  - intros ks p s' (Hi' & Hpar & Hw) _ _. unfold os_kill. apply wpu_bind, wpu_sys.
    intros rc w Hkill. apply kill_frame in Hkill as Hlaw. destruct Hlaw as [Hf Hc].
    split_and!; [by apply inv_world|done|]. unfold kill_all in *. rewrite foldl_snoc, <- Hw. simpl. by rewrite Hkill.
  - apply (i_procs _ _ _ _ Hi).
  - set_solver.
  - apply Forall_fmap, Forall_forall. intros p Hp. simpl. pose proof (owned_proc_in v p Hp) as Hpo.
    rewrite !elem_of_app. split; left; apply Hpo; unfold proc_own; set_solver.
  - done.
  - rewrite <- list_fmap_compose, (list_fmap_id (v_procs v) : (snd ∘ proc_key <$> v_procs v) = _).
    intros s' (Hi' & Hpar & Hw). by apply HQ.
Qed.

Lemma wpu_remove_from_queue own k v s id (Q : t_queue request → ust W → Prop) :
  inv own k v s → c_addr id ∈ own →
  (∀ q, inv own k (with_reqs v (filter (other_id id) (v_reqs v))) (set_queue q s) → Q q s) →
  wpu (heapU (remove_from_queue (u_queue s) id)) Q s.
Proof.
  intros Hi Hid HQ. apply wpu_heap.
  intros E _. eapply wp_remove_from_queue; [apply Hi|set_solver| |apply Hi|].
  { apply Forall_forall. intros r Hr. pose proof (owned_req_in v r Hr) as Ho.
    rewrite !elem_of_app. split; left; apply Ho; unfold req_own; destruct (req_type r); set_solver. }
  intros q Hq _. replace (with_heap _ s) with s by (by destruct s as [[]]). apply HQ.
  destruct (owned_reqs_filter v (other_id id)) as [o Ho].
  eapply inv_set_reqs; [exact Hi|done| |].
  - pose proof (i_reqs _ _ _ _ Hi) as Hr. rewrite Forall_forall in *. intros r [_ ?]%list_elem_of_filter. auto.
  - apply (heap_ok_weaken _ o). eapply heap_ok_perm; [apply Hi|]. rewrite Ho. solve_Permutation.
Qed.

Lemma wpu_log_msg own k v s txt (Q : unit → ust W → Prop) :
  inv own k v s →
  (∀ s', inv own k v s' → kept s s' → Q tt s') →
  wpu (on_env (log_msg txt)) Q s.
Proof.
  intros Hi HQ. apply wpu_env. intros E _. apply wp_log_msg; [apply Hi|]. intros f Hf.
  apply HQ; [|done]. destruct Hi. by split.
Qed.

Lemma wpu_handle_request own k v s r (Q : unit → ust W → Prop) :
  inv (opt_own r ++ own) k v s → (∀ r', r = Some r' → req_wf r') →
  (∀ v' s', inv own k v' s' →
     handled (g_parallel (u_env s)) (u_current_dir s) r (v, u_world s) (v', u_world s') →
     config s' = config s → Q tt s') →
  wpu (handle_request r) Q s.
Proof.
  intros Hi Hwf HQ. unfold handle_request. destruct r as [r|]; [|by eapply HQ].
  specialize (Hwf r eq_refl). unfold handled in HQ. simpl in Hi.
  destruct (req_type r) as [d|] eqn:Hd.
  - apply wpu_bind. unfold wpu at 1, wp, gets. apply wpu_bind. unfold wpu at 1, wp.
    rewrite (list_rep_len _ _ (i_procs _ _ _ _ Hi)), length_fmap.
    assert (run_req r) as Hr by (split; congruence).
    destruct (_ <? _).
    + apply wpu_bind. eapply wpu_run_and_free; [exact Hi|exact Hr|]. intros v' s' Hi' Hst _ Hpar. eauto.
    + apply wpu_bind. unfold wpu at 1, wp. apply wpu_bind, wpu_lift.
      eapply safe_mono; [apply queue_push_safe; [apply Hi|done]|]. intros q Hq. apply wp_modify.
      eapply HQ; [|done|done]. eapply inv_set_reqs; [exact Hi|done| |].
      * apply Forall_app. split; [apply Hi|by constructor].
      * eapply heap_ok_perm; [apply Hi|]. unfold owned. simpl. rewrite fmap_app, concat_app. simpl. solve_Permutation.
  - assert (c_addr (r_id r) ∈ req_own r ++ own) as Hid
      by (unfold req_own; rewrite Hd; set_solver).
    apply wpu_bind. eapply wpu_load; [exact Hi|set_solver|].
    apply wpu_bind. eapply wpu_log_msg; [exact Hi|]. intros s1 Hi1 [Hcfg1 Hw1].
    apply wpu_bind. unfold wpu at 1, wp, gets. apply wpu_bind.
    eapply wpu_remove_from_queue; [exact Hi1|done|]. intros q Hi2. apply wpu_bind, wp_modify.
    apply wpu_bind. unfold wpu at 1, wp. apply wpu_bind. eapply wpu_kill; [exact Hi2|done|].
    intros s3 Hi3 Hcfg3 Hw3. apply wpu_heap. intros E _.
    eapply wp_free_request with (own := owned (with_reqs v (filter (other_id (r_id r)) (v_reqs v))) ++ own).
    { eapply heap_ok_perm; [apply Hi3|]. solve_Permutation. }
    { by unfold req_wf; rewrite Hd. }
    intros h Hok. eapply HQ; [| |exact (eq_trans Hcfg3 Hcfg1)].
    2: { simpl. by rewrite Hw3, <- Hw1. }
    eapply inv_heap; [exact Hi3|]. unfold req_kept in Hok. by rewrite Hd in Hok.
Qed.

(** The effect of lines received from the client with key [key], on
    [parallel], on the view and on the outside world. *)
Inductive lines_effect (key : Z) (dir : option bytes)
    : list bytes → Z * (view * W) → Z * (view * W) → Prop :=
| lines_nil x : lines_effect key dir [] x x
| lines_cons l ls par a par' b r x :
    (content <$> r, par') = request_spec par (fields l) →
    (∀ r', r = Some r' → r_key r' = key) →
    handled par' dir r a b →
    lines_effect key dir ls (par', b) x →
    lines_effect key dir (l :: ls) (par, a) x.

Lemma wpu_parse_request own k v s buf base line key (Q : option request → ust W → Prop) :
  inv own k v s → 0 ≤ base → Z.of_nat (length line) ≤ alloc_limit →
  (∀ i c, line !! i = Some c → buf !! (Z.to_nat base + i)%nat = Some (Some c)) →
  (∀ r s', inv (opt_own r ++ own) k v s' →
     (content <$> r, g_parallel (u_env s')) = request_spec (g_parallel (u_env s)) (fields line) →
     (∀ r', r = Some r' → r_key r' = key ∧ req_wf r') →
     u_current_dir s' = u_current_dir s → u_world s' = u_world s → Q r s') →
  wpu (on_env (parse_request buf base (Z.of_nat (length line)) key)) Q s.
Proof.
  intros Hi Hb Hlen Hl HQ. apply wpu_env. intros E _.
  eapply wp_parse_request; [done..|apply (i_heap _ _ _ _ Hi)|apply Hi|].
  intros r g' (Hsame & Hlog & Hspec & Hok & Hr). apply HQ; [|done..].
  assert (1 ≤ g_parallel g' ≤ INT_MAX) as Hpar.
  { pose proof (request_spec_parallel (g_parallel (u_env s)) (fields line) (i_parallel _ _ _ _ Hi)) as Hp.
    by rewrite <- Hspec in Hp. }
  destruct Hi. split; simpl; try done. eapply heap_ok_perm; [exact Hok|]. solve_Permutation.
Qed.

Lemma wpu_handle_lines own k v s buf bs key cur n (Q : Z → ust W → Prop) :
  inv own k v s → holds buf bs → Z.of_nat (length bs) ≤ alloc_limit →
  (cur ≤ length bs)%nat → (length bs - cur ≤ n)%nat →
  (∀ v' s', inv own k v' s' →
     lines_effect key (u_current_dir s) (split_lines (drop cur bs)).1
       (g_parallel (u_env s), (v, u_world s)) (g_parallel (u_env s'), (v', u_world s')) →
     Q (Z.of_nat (length bs - length (split_lines (drop cur bs)).2)) s') →
  wpu (handle_lines buf (Z.of_nat (length bs)) key (Z.of_nat cur) (Z.of_nat cur) n) Q s.
Proof.
  intros Hi Hbuf Hsmall. revert v s cur Hi. induction n as [|n IH]; intros v s cur Hi Hcur Hn HQ; simpl.
  { specialize (HQ v s Hi). rewrite drop_ge in HQ by lia. simpl in HQ.
    replace (Z.of_nat cur) with (Z.of_nat (length bs - 0)) by lia. apply HQ. constructor. }
  destruct (Z.ltb_spec (Z.of_nat cur) (Z.of_nat (length bs))).
  2: { specialize (HQ v s Hi). rewrite drop_ge in HQ by lia. simpl in HQ.
    replace (Z.of_nat cur) with (Z.of_nat (length bs - 0)) by lia. apply HQ. constructor. }
  replace (Z.to_nat (Z.of_nat (length bs) - Z.of_nat cur)) with (length bs - cur)%nat by lia.
  destruct (find_newline_spec buf bs cur (length bs - cur) Hbuf) as [Hnone Hsome]; [lia|].
  destruct (newline_split (drop cur bs)) as [Hno|(l & rest & Heq & Hl)].
  - apply wpu_bind. eapply wpu_ok; [by apply Hnone|]. rewrite Z.eqb_refl.
    specialize (HQ v s Hi). rewrite split_lines_none in HQ by done. simpl in HQ. rewrite length_drop in HQ.
    replace (Z.of_nat cur) with (Z.of_nat (length bs - (length bs - cur))) by lia. apply HQ. constructor.
  - apply wpu_bind. eapply wpu_ok; [by eapply Hsome|].
    assert (length bs = cur + length l + 1 + length rest)%nat as Hlen.
    { apply (f_equal length) in Heq. rewrite length_drop, length_app in Heq. simpl in Heq. lia. }
    rewrite (proj2 (Z.eqb_neq _ _)) by lia.
    replace (Z.of_nat (cur + length l) - Z.of_nat cur) with (Z.of_nat (length l)) by lia.
    replace (Z.of_nat (cur + length l) + 1) with (Z.of_nat (cur + length l + 1)) by lia.
    apply wpu_bind. eapply wpu_parse_request; [exact Hi|lia|lia| |].
    { intros i c Hic. rewrite Nat2Z.id. apply Hbuf. rewrite <- lookup_drop, Heq.
      by rewrite lookup_app_l by (by eapply lookup_lt_Some). }
    intros r s1 Hi1 Hspec Hr Hdir1 Hw1. apply wpu_bind. eapply wpu_handle_request; [exact Hi1|naive_solver|].
    intros v2 s2 Hi2 Hh [= Hpar2 Hdir2].
    assert (drop (cur + length l + 1) bs = rest) as Hdrop.
    { rewrite <- Nat.add_assoc, <- drop_drop, Heq, drop_app_ge by lia.
      by replace (length l + 1 - length l)%nat with 1%nat by lia. }
    eapply IH; [exact Hi2|lia|lia|]. intros v3 s3 Hi3 Hls.
    specialize (HQ v3 s3 Hi3). rewrite Heq, split_lines_app in HQ by done. simpl in HQ. rewrite Hdrop in *.
    apply HQ. rewrite <- Hdir1, <- Hw1. eapply lines_cons; [exact Hspec|naive_solver|exact Hh|].
    by rewrite <- Hpar2, <- Hdir2.
Qed.

(** Handling lines keeps the clients and the bytes read from them. *)
Definition same_in (c c' : cview) : Prop :=
  cv_addr c' = cv_addr c ∧ cv_fd c' = cv_fd c ∧ cv_in c' = cv_in c.

#[local] Instance same_in_trans : Transitive same_in.
Proof. unfold same_in. intros ??? (?&?&?) (?&?&?). split_and!; congruence. Qed.

Lemma same_in_refl cs : Forall2 same_in cs cs.
Proof. induction cs; constructor; done. Qed.

Lemma same_in_message v cs1 c cs2 m es :
  v_clients v = cs1 ++ c :: cs2 → Forall2 same_in (v_clients v) (v_clients (with_message v cs1 c cs2 m es)).
Proof.
  intros ->. simpl. apply Forall2_app; [apply same_in_refl|]. constructor; [done|apply same_in_refl].
Qed.

Lemma started_same_in dir r x y : started dir r x y → Forall2 same_in (v_clients x.1) (v_clients y.1).
Proof.
  intros [[_ ->]|(t & d & cs1 & c & cs2 & p & m & es & fd & w1 & w2 & _ & _ & Hv & _ & _ & _ & _ & _ & -> & _)].
  - apply same_in_refl.
  - by apply (same_in_message (with_procs x.1 (v_procs x.1 ++ [p]))).
Qed.

Lemma handled_same_in par dir r x y :
  handled par dir r x y → Forall2 same_in (v_clients x.1) (v_clients y.1).
Proof.
  unfold handled. intros Hh. repeat case_match; subst; simpl; try apply same_in_refl.
  by eapply started_same_in.
Qed.

Lemma lines_same_in key dir ls x y :
  lines_effect key dir ls x y → Forall2 same_in (v_clients x.2.1) (v_clients y.2.1).
Proof.
  induction 1 as [|l ls par a par' b r x _ _ Hh _ IH]; simpl in *; [apply same_in_refl|].
  apply handled_same_in in Hh. eapply (transitivity (R := Forall2 same_in)); [exact Hh|exact IH].
Qed.

(** The bytes read from a client are replaced. *)
Lemma inv_set_in own k v s cs1 c cs2 bs cl rb :
  inv own k v s → v_clients v = cs1 ++ c :: cs2 → u_store s !! cv_addr c = Some cl →
  readbuf_rep rb bs →
  inv own k (with_clients v (cs1 ++ with_in c bs :: cs2))
    (set_store (<[cv_addr c := Mk_client (cl_fd cl) rb (cl_writebuf cl)]> (u_store s)) s).
Proof.
  intros Hi Hv Hcl Hrb. destruct (inv_client_fds _ _ _ _ _ _ _ Hi Hv) as [Hnd Hpos].
  destruct (inv_client_rep _ _ _ _ _ _ _ Hi Hv) as (cl' & Hcl' & Hfd & _ & Hwb & Hw).
  assert (cl' = cl) as -> by congruence.
  destruct (inv_entry _ _ _ _ _ _ _ Hi Hv) as (i & e & _ & He & Hefd).
  eapply inv_client with (s := s) (c' := with_in c bs) (h := g_heap (u_env s)) (l := u_poll_list s)
    (st := <[cv_addr c := Mk_client (cl_fd cl) rb (cl_writebuf cl)]> (u_store s));
    [by destruct s as [[]]|exact Hi|exact Hv|done..| | | |apply Hi| |apply Hi]; simpl.
  - intros b Hb. by rewrite lookup_insert_ne.
  - eexists. rewrite lookup_insert_eq. exact (conj eq_refl (conj Hfd (conj Hrb (conj Hwb Hw)))).
  - eapply heap_ok_perm; [apply Hi|]. rewrite (owned_clients _ _ _ _ Hv).
    by rewrite (owned_clients (Mk_view _ _ _ _) cs1 _ cs2 eq_refl).
  - rewrite <- (list_insert_id (v_polls v) i e) by done. eapply entries_client; [exact Hnd|done| |exact He|done..|].
    + rewrite <- Hv. apply Hi.
    + simpl. eapply e_out; [apply Hi|by eapply list_elem_of_lookup_2| |done].
      rewrite Hv, elem_of_app, elem_of_cons. auto.
Qed.

(** handle_msg: the complete lines take effect in order, and the bytes after
    the last newline stay. *)
Lemma wpu_handle_msg own k v s cs1 c cs2 (Q : unit → ust W → Prop) :
  inv own k v s → v_clients v = cs1 ++ c :: cs2 → (lines_overlap (cv_in c) → may_overlap) →
  (∀ v1 v' cs1' c' cs2' s',
     ¬ lines_overlap (cv_in c) →
     lines_effect (cv_fd c) (u_current_dir s) (split_lines (cv_in c)).1
       (g_parallel (u_env s), (v, u_world s)) (g_parallel (u_env s'), (v1, u_world s')) →
     v_clients v1 = cs1' ++ c' :: cs2' → same_in c c' → length cs1' = length cs1 →
     v' = with_clients v1 (cs1' ++ with_in c' (split_lines (cv_in c)).2 :: cs2') →
     inv own k v' s' → Q tt s') →
  wpu (handle_msg (cv_addr c) (cv_fd c)) Q s.
Proof.
  intros Hi Hv Hmay HQ. destruct (inv_client_rep _ _ _ _ _ _ _ Hi Hv) as (cl & Hcl & Hfd & Hrb & _).
  unfold handle_msg. apply wpu_bind. eapply wpu_client_get; [exact Hcl|].
  pose proof Hrb as (Hcap & Hlen & Hle & _ & Hdata).
  assert (to_int (rb_len (cl_readbuf cl)) = Z.of_nat (length (cv_in c))) as ->.
  { rewrite Hlen. apply to_int_small. unfold INT_MAX, alloc_limit in *. lia. }
  apply wpu_bind. change 0 with (Z.of_nat 0) at 1 2.
  eapply wpu_handle_lines; [exact Hi|exact Hdata|lia|lia|lia|].
  intros v1 s1 Hi1 Hls. rewrite drop_0 in *.
  pose proof (lines_same_in _ _ _ _ _ Hls) as Hsame. simpl in Hsame. rewrite Hv in Hsame.
  apply Forall2_app_inv_l in Hsame as (cs1' & cs' & H1 & H2 & Hv1).
  apply Forall2_cons_inv_l in H2 as (c' & cs2' & Hc' & _ & ->).
  pose proof Hc' as (Ha & Hf & Hin). apply Forall2_length in H1.
  destruct (inv_client_rep _ _ _ _ _ _ _ Hi1 Hv1) as (cl' & Hcl' & Hfd' & Hrb' & _). rewrite Ha, Hin in *.
  destruct (split_lines_drop (cv_in c)) as [Hdrop Hsl].
  destruct (Z.ltb_spec 0 (Z.of_nat (length (cv_in c) - length (split_lines (cv_in c)).2))) as [Hpos|Hzero].
  - apply wpu_bind. eapply wpu_client_get; [exact Hcl'|]. apply wpu_bind.
    destruct (have_taken_rep (cl_readbuf cl') (cv_in c)
       (Z.of_nat (length (cv_in c) - length (split_lines (cv_in c)).2))) as [[Htk Ho]|(rb & Htk & Hrb2 & Ho)]; [done|..].
    all: pose proof Hrb' as (_ & Hlen' & _); rewrite ?Hlen' in *; unfold taken_overlaps in *; bool_to_prop.
    { lia. }
    { rewrite Htk. apply wp_lift_overlap. left. split; [done|]. intros _. apply Hmay. unfold lines_overlap. lia. }
    rewrite Nat2Z.id, Hdrop in Hrb2. eapply wpu_ok; [exact Htk|]. eapply wpu_client_put; [exact Hcl'|].
    eapply HQ; [unfold lines_overlap; lia|exact Hls|exact Hv1|done|done|done|].
    rewrite <- Ha in *. by eapply inv_set_in.
  - assert ((split_lines (cv_in c)).2 = cv_in c) as Hall.
    { rewrite <- Hdrop. by replace (length (cv_in c) - _)%nat with O by lia. }
    eapply (HQ v1 v1 cs1' c' cs2'); [unfold lines_overlap; lia|exact Hls|exact Hv1|done|done| |exact Hi1].
    rewrite Hall, <- Hin. destruct v1, c'. simpl in *. by rewrite Hv1.
Qed.

(** ** Clients come and go *)

Lemma inv_client_nonneg own k v s :
  inv own k v s → NoDup (cv_fd <$> v_clients v) ∧ Forall (λ c, 0 ≤ cv_fd c) (v_clients v).
Proof.
  intros Hi. split.
  - pose proof (i_fds _ _ _ _ Hi) as Hf. unfold known_fds in Hf. by do 3 apply NoDup_cons in Hf as [_ Hf].
  - apply Forall_forall. intros c Hc. apply (i_open _ _ _ _ Hi). unfold known_fds.
    rewrite !elem_of_cons. do 3 right. by apply list_elem_of_fmap_2.
Qed.

Lemma wpu_shutdown_server s (Q : unit → ust W → Prop) :
  can_stop s → wpu shutdown_server Q s.
Proof.
  intros Hs. unfold shutdown_server. apply wpu_bind. unfold wpu at 1, wp, gets.
  apply wpu_bind, wpu_sys. intros r w _. by apply wpu_shutdown.
Qed.

Lemma owned_client_perm v c cs' :
  v_clients v ≡ₚ c :: cs' → owned v ≡ₚ client_own c ++ owned (with_clients v cs').
Proof.
  intros Hp. unfold owned. simpl. rewrite (concat_fmap_perm client_own _ _ Hp). simpl. solve_Permutation.
Qed.

Lemma inv_remove_client own k v s s' c cs' i ev l pl h w :
  s' = set_store (delete (cv_addr c) (u_store s)) (with_heap h (set_world w
         (set_poll pl (u_poll_num s) (u_poll_len s) (set_clients l s)))) →
  inv own k v s → v_clients v ≡ₚ c :: cs' → list_rep l (client_key <$> cs') →
  let es := <[i := Mk_pollfd (-1) ev 0]> (v_polls v) in
  poll_index (cv_fd c) (v_polls v) = Some i → poll_rep pl (u_poll_num s) (u_poll_len s) es →
  heap_ok h (owned (with_clients v cs') ++ own) →
  os_fds w = os_fds (u_world s) ∖ {[cv_fd c]} → os_children w = os_children (u_world s) →
  inv own k (Mk_view (v_reqs v) (v_procs v) cs' es) s'.
Proof.
  intros -> Hi Hp Hrep es Hidx Hpl Hok Hf Hc. destruct (inv_client_nonneg _ _ _ _ Hi) as [Hnd Hall].
  pose proof (i_entries _ _ _ _ Hi) as Hent. pose proof (i_revents _ _ _ _ Hi) as Hrev.
  pose proof (i_heap _ _ _ _ Hi) as (_ & Hdisj & _). pose proof (i_store _ _ _ _ Hi) as Hst.
  pose proof (i_open _ _ _ _ Hi) as Ho. pose proof (i_fds _ _ _ _ Hi) as Hfds. unfold known_fds in *.
  assert (known_fds v s ≡ₚ cv_fd c :: u_server_sock s :: (u_cpipe s).1 :: (u_cpipe s).2 :: (cv_fd <$> cs')) as Hkn.
  { unfold known_fds. rewrite Hp. simpl. solve_Permutation. }
  unfold known_fds in Hkn. rewrite Hkn in Hfds. apply NoDup_cons in Hfds as [Hnc Hfds].
  destruct Hi. split; unfold known_fds; simpl; rewrite ?Hc; try done.
  - eauto.
  - apply Forall_forall. intros d Hd. rewrite Forall_forall in Hst.
    destruct (Hst d) as (cd & Hcd & Hrest); [rewrite Hp; set_solver|]. exists cd. split; [|done].
    rewrite lookup_delete_ne; [done|]. intros Heq.
    rewrite (owned_client_perm _ _ _ Hp) in Hdisj. simpl in Hdisj. apply NoDup_cons in Hdisj as [Hnot _].
    apply Hnot. rewrite !elem_of_app. left. right. unfold owned. rewrite !elem_of_app. do 2 right.
    apply elem_of_concat. exists (client_own d). split; [rewrite Heq; unfold client_own; set_solver|].
    by apply list_elem_of_fmap_2.
  - intros fd Hfd. destruct (Ho fd) as [Hop ?]; [rewrite Hkn; set_solver|]. split; [|done].
    rewrite Hf. apply elem_of_difference. split; [done|]. rewrite elem_of_singleton. by intros ->.
  - by eapply entries_remove.
  - intros j f Hj Hfj. unfold es in Hfj. apply list_lookup_insert_Some in Hfj as [(<- & <- & _)|[_ Hfj]]; [|by apply (Hrev j)].
    split; [intros Hg; by destruct Hg|by left].
Qed.

Lemma wpu_close_client own k v s cs1 c cs2 (Q : unit → ust W → Prop) :
  inv own k v s → v_clients v = cs1 ++ c :: cs2 →
  (∀ cs' es s', v_clients v ≡ₚ c :: cs' → inv own k (Mk_view (v_reqs v) (v_procs v) cs' es) s' → Q tt s') →
  wpu (close_client (cv_addr c)) Q s.
Proof.
  intros Hi Hv HQ. unfold close_client.
  destruct (inv_client_rep _ _ _ _ _ _ _ Hi Hv) as (cl & Hcl & Hfd & _ & Hwb & _).
  destruct (inv_client_nonneg _ _ _ _ Hi) as [Hnd Hall].
  apply wpu_bind. eapply wpu_client_get; [exact Hcl|]. rewrite Hfd.
  destruct (i_clients _ _ _ _ Hi) as (l & Hl & Hrep). apply wpu_bind. eapply wpu_the_clients; [exact Hl|].
  destruct (list_remove_rep _ _ (cv_fd c) Hrep) as (l' & Hrem & Hrep' & _).
  assert (∃ cs', v_clients v ≡ₚ c :: cs' ∧ assoc_remove (cv_fd c) (client_key <$> v_clients v) = client_key <$> cs')
    as (cs' & Hp & Hcs').
  { assert (c ∈ v_clients v) as Hc by (rewrite Hv, elem_of_app, elem_of_cons; auto).
    destruct (assoc_remove_fmap client_key (cv_fd c) (v_clients v)) as [(_ & Hno & _)|(d & cs' & _ & Hk & Hp & Hr)].
    - destruct Hno. rewrite <- list_fmap_compose. by apply (list_elem_of_fmap_2 cv_fd).
    - simpl in Hk. exists cs'. split; [|done].
      rewrite Hp in Hc. apply elem_of_cons in Hc as [<-|Hc]; [done|].
      rewrite Hp in Hnd. simpl in Hnd. apply NoDup_cons in Hnd as [[] _]. rewrite Hk. by apply list_elem_of_fmap_2. }
  rewrite Hcs' in Hrep'. apply wpu_bind. eapply wpu_ok; [exact Hrem|]. apply wpu_bind, wp_modify.
  apply wpu_bind. eapply wpu_poll_list_remove; [apply Hi|]. intros pl es Hpl Hes.
  destruct (inv_entry _ _ _ _ _ _ _ Hi Hv) as (i & e & Hidx & He & Hefd). rewrite Hidx in Hes.
  destruct Hes as [ev ->]. apply wpu_bind, wpu_heap. intros E1 _.
  assert (owned v ≡ₚ (c_addr <$> cv_out c) ++ cv_addr c :: owned (with_clients v cs')) as Hown.
  { rewrite (owned_client_perm _ _ _ Hp). unfold client_own. solve_Permutation. }
  eapply wp_free_writebuf with (own := cv_addr c :: owned (with_clients v cs') ++ own); [|exact Hwb|].
  { eapply heap_ok_perm; [apply Hi|]. rewrite Hown. solve_Permutation. }
  intros h1 Hok1. apply wpu_bind, wpu_sys. intros rc w [Hf Hc]%close_law. simpl in Hf, Hc.
  apply wpu_bind, wpu_heap. intros E2 _. eapply wp_free; [exact Hok1|]. intros h2 Hok2.
  apply wpu_bind, wp_modify. apply wpu_bind. unfold wpu at 1, wp, gets.
  set (s2 := set_store _ _).
  assert (inv own k (Mk_view (v_reqs v) (v_procs v) cs' (<[i := Mk_pollfd (-1) ev 0]> (v_polls v))) s2) as Hi2.
  { eapply inv_remove_client with (s := s) (l := l') (pl := pl) (h := h2) (w := w) (c := c); [reflexivity|exact Hi|exact Hp|exact Hrep'|exact Hidx|exact Hpl|exact Hok2|done|done]. }
  destruct (_ && _).
  - eapply wpu_shutdown_server, inv_can_stop. exact Hi2.
  - by eapply HQ.
Qed.

Lemma wpu_read_on_client own k v s cs1 c cs2 (Q : unit → ust W → Prop) :
  inv own k v s → v_clients v = cs1 ++ c :: cs2 → may_overlap →
  (∀ v' s', inv own k v' s' → Q tt s') →
  wpu (read_on_client (cv_addr c)) Q s.
Proof.
  intros Hi Hv Hmay HQ. unfold read_on_client.
  destruct (inv_client_rep _ _ _ _ _ _ _ Hi Hv) as (cl & Hcl & Hfd & Hrb & _).
  apply wpu_bind. eapply wpu_client_get; [exact Hcl|]. apply wpu_bind, wpu_lift.
  eapply safe_mono; [eapply prepare_read_safe; [exact Hrb|by_computation|done]|].
  intros [rb off] (Hrb1 & -> & Hroom). apply wpu_bind. eapply wpu_client_put; [exact Hcl|].
  pose proof (inv_set_in _ _ _ _ _ _ _ _ _ _ Hi Hv Hcl Hrb1) as Hi1.
  set (s1 := set_store _ s) in *. set (v1 := with_clients v (cs1 ++ with_in c (cv_in c) :: cs2)) in *.
  apply wpu_bind, wpu_sys. intros r w Hread. pose proof (read_frame _ _ _ _ _ Hread) as [Hf Hc].
  assert (inv own k v1 (set_world w s1)) as Hi2 by (by apply inv_world).
  destruct r as [[|b bs]|]; [| |by eapply HQ].
  { eapply (wpu_close_client _ _ v1 _ cs1 (with_in c (cv_in c)) cs2); [exact Hi2|done|]. intros cs' es s' _ Hi'. by eapply HQ. }
  apply read_law in Hread; [|by_computation]. set (new := b :: bs) in *.
  destruct (fill_have_read_rep rb (cv_in c) new Hrb1) as (b1 & b2 & Hfill & Hhave & Hrb2).
  { rewrite Nat2Z.inj_add. lia. }
  apply wpu_bind. replace (Z.of_nat (length (cv_in c))) with (rb_len rb) by apply Hrb1.
  eapply wpu_ok; [exact Hfill|]. apply wpu_bind. eapply wpu_ok; [exact Hhave|].
  apply wpu_bind. eapply wpu_client_put; [apply lookup_insert_eq|].
  pose proof (inv_set_in _ _ _ _ cs1 (with_in c (cv_in c)) cs2 (cv_in c ++ new) _ b2 Hi2 eq_refl
    (lookup_insert_eq _ _ _) Hrb2) as Hi3. simpl in Hi3.
  replace (handle_msg (cv_addr c) (cl_fd cl)) with (handle_msg (cv_addr c) (cv_fd c)) by (by rewrite Hfd).
  set (s3 := set_store _ (set_world w s1)) in *.
  eapply (wpu_handle_msg _ _ _ s3 cs1 (with_in (with_in c (cv_in c)) (cv_in c ++ new)) cs2 Q Hi3 eq_refl (λ _, Hmay)).
  intros ? v' ??? s' _ _ _ _ _ _ Hi'. by eapply HQ.
Qed.

Lemma init_writebuf_safe n :
  1 ≤ n ≤ INT_MAX → safe True (init_writebuf n) (λ b, writebuf_rep b [] ∧ w_is_writing b = false).
Proof.
  intros Hn. destruct (decide (n ≤ alloc_limit)) as [Hle|Hgt].
  - destruct (init_writebuf_rep n) as (b & -> & Hb); [lia|done].
  - unfold init_writebuf, init_queue, assertion, INT_MAX in *. rewrite u32_small by (unfold UINT_MOD; lia).
    guard_true (0 <? n). simpl. unfold arr_alloc. guard_false ((0 <=? n) && (n <=? alloc_limit)). done.
Qed.

Lemma inv_add_client own k v s s' fd a cl l pl num len h w :
  s' = set_poll pl num len (set_clients l (set_store (<[a := cl]> (u_store s)) (with_heap h (set_world w s)))) →
  inv own k v s → fd ∉ os_fds (u_world s) → 0 ≤ fd →
  os_fds w = {[fd]} ∪ os_fds (u_world s) → os_children w = os_children (u_world s) →
  let c := Mk_cview a fd [] [] in
  client_rep {[a := cl]} c → list_rep l (client_key <$> v_clients v ++ [c]) →
  heap_ok h (a :: owned v ++ own) →
  let es := v_polls v ++ [Mk_pollfd fd POLLIN 0] in
  poll_rep pl num len es →
  inv own k (Mk_view (v_reqs v) (v_procs v) (v_clients v ++ [c]) es) s'.
Proof.
  intros -> Hi Hnew Hpos Hf Hc c Hcl Hrep Hok es Hpl.
  pose proof (i_open _ _ _ _ Hi) as Ho. pose proof (i_fds _ _ _ _ Hi) as Hnd.
  assert (fd ∉ known_fds v s) as Hfresh by (intros [? _]%Ho; done).
  assert (known_fds (Mk_view (v_reqs v) (v_procs v) (v_clients v ++ [c]) es) s ≡ₚ fd :: known_fds v s) as Hkn.
  { unfold known_fds. simpl. rewrite fmap_app. simpl. solve_Permutation. }
  pose proof (i_store _ _ _ _ Hi) as Hst. pose proof (i_entries _ _ _ _ Hi) as Hent.
  pose proof (i_revents _ _ _ _ Hi) as Hrev. pose proof Hok as (_ & Hdisj & _).
  destruct Hi. split; simpl; rewrite ?Hc; try done.
  - eauto.
  - apply NoDup_cons in Hdisj as [Hna _]. apply Forall_app. split.
    + rewrite Forall_forall in *. intros d Hd. destruct (Hst d Hd) as (cd & Hcd & Hrest). exists cd. split; [|done].
      rewrite lookup_insert_ne; [done|]. intros Heq. apply Hna. rewrite elem_of_app. left.
      unfold owned. rewrite !elem_of_app. do 2 right. apply elem_of_concat. exists (client_own d).
      split; [rewrite Heq; unfold client_own; set_solver|by apply list_elem_of_fmap_2].
    + constructor; [|constructor]. destruct Hcl as (cd & Hcd & Hrest). exists cd. simpl in *.
      rewrite lookup_singleton_eq in Hcd. by rewrite lookup_insert_eq.
  - change (NoDup (known_fds (Mk_view (v_reqs v) (v_procs v) (v_clients v ++ [c]) es) s)).
    rewrite Hkn. by constructor.
  - intros f Hf'. change (f ∈ known_fds (Mk_view (v_reqs v) (v_procs v) (v_clients v ++ [c]) es) s) in Hf'.
    rewrite Hkn, elem_of_cons in Hf'. rewrite Hf. destruct Hf' as [->|[? ?]%Ho]; set_solver.
  - apply (entries_add _ _ _ c); try done. unfold known_fds in Hfresh. set_solver.
  - intros j f Hj [Hfj|[_ [_ <-]%list_lookup_singleton_Some]]%lookup_app_Some; [by apply (Hrev j)|].
    split; [intros Hg; by destruct Hg|by left].
  - eapply heap_ok_perm; [exact Hok|]. unfold owned. simpl. rewrite fmap_app, concat_app. simpl.
    solve_Permutation.
Qed.

Lemma wpu_server_accept_client own k v s (Q : unit → ust W → Prop) :
  inv own k v s →
  (∀ c es s', cv_in c = [] → cv_out c = [] →
     inv own k (Mk_view (v_reqs v) (v_procs v) (v_clients v ++ [c]) es) s' → Q tt s') →
  wpu server_accept_client Q s.
Proof.
  intros Hi HQ. unfold server_accept_client. apply wpu_bind. unfold wpu at 1, wp, gets.
  apply wpu_bind, wpu_sys. intros fd w Hacc. apply accept_law in Hacc as [Hch Hfds].
  destruct Hfds as [[-> Hf]|(Hpos & Hnew & Hf)].
  { simpl. eapply wpu_shutdown_inv, inv_world; [exact Hi|done..]. }
  rewrite (proj2 (Z.eqb_neq fd (-1))) by lia.
  apply wpu_bind, wpu_heap. intros E _. eapply wp_malloc; [apply Hi|]. intros a h Hok.
  apply wpu_bind. destruct (init_readbuf_rep READ_ONCE) as (rb & Hrbi & Hrb); [by_computation|].
  eapply wpu_ok; [exact Hrbi|]. apply wpu_bind. unfold wpu at 1, wp.
  apply wpu_bind, wpu_lift.
  eapply safe_mono; [apply init_writebuf_safe, (i_parallel _ _ _ _ Hi)|]. intros wb [Hwb Hw].
  apply wpu_bind, wp_modify. destruct (i_clients _ _ _ _ Hi) as (l & Hl & Hrep).
  apply wpu_bind. eapply wpu_the_clients; [exact Hl|]. apply wpu_bind, wpu_lift.
  eapply safe_mono; [apply list_append_safe; [exact Hrep|done]|]. intros l' Hrep'.
  apply wpu_bind, wp_modify. eapply wpu_add_to_poll_list; [apply Hi|]. intros pl num len Hpl.
  eapply (HQ (Mk_cview a fd [] [])); [done..|].
  eapply inv_add_client with (s := s) (h := h) (w := w) (l := l') (cl := Mk_client fd rb wb); [reflexivity|exact Hi|done..| | |exact Hok|exact Hpl].
  - eexists. simpl. rewrite lookup_singleton_eq. exact (conj eq_refl (conj eq_refl (conj Hrb (conj Hwb Hw)))).
  - rewrite fmap_app. exact Hrep'.
Qed.

(** ** Scheduling *)

(** The scheduler of the queue when [par] processes may run: start requests
    in the order of the queue while there is room. *)
Inductive schedules (par : Z) (dir : option bytes) : view * W → view * W → Prop :=
| sched_stop a :
    par ≤ Z.of_nat (length (v_procs a.1)) ∨ v_reqs a.1 = [] → schedules par dir a a
| sched_next a r rs b c :
    Z.of_nat (length (v_procs a.1)) < par → v_reqs a.1 = r :: rs →
    started dir r (with_reqs a.1 rs, a.2) b → schedules par dir b c → schedules par dir a c.

Lemma started_procs dir r x y :
  started dir r x y → (length (v_procs y.1) ≤ S (length (v_procs x.1)))%nat ∧ v_reqs y.1 = v_reqs x.1.
Proof.
  intros [[_ ->]|(t & d & cs1 & c & cs2 & p & m & es & fd & w1 & w2 & _ & _ & _ & _ & _ & _ & _ & _ & -> & _)]; [auto with lia|].
  simpl. rewrite length_app. simpl. split; [lia|done].
Qed.

Lemma wpu_schedule_loop own k v s n (Q : unit → ust W → Prop) :
  inv own k v s → n = length (v_reqs v) →
  (∀ v' s', inv own k v' s' →
     schedules (g_parallel (u_env s)) (u_current_dir s) (v, u_world s) (v', u_world s') →
     config s' = config s → Q tt s') →
  wpu (schedule_loop n) Q s.
Proof.
  revert v s. induction n as [|n IH]; intros v s Hi Hn HQ; simpl.
  { eapply HQ; [exact Hi| |done]. constructor. right. simpl. by destruct (v_reqs v). }
  apply wpu_bind. unfold wpu at 1, wp, get.
  rewrite (list_rep_len _ _ (i_procs _ _ _ _ Hi)), length_fmap, (queue_rep_empty _ _ (i_queue _ _ _ _ Hi)).
  destruct (v_reqs v) as [|r rs] eqn:Hreqs; [done|]. injection Hn as Hn.
  rewrite (bool_decide_eq_false_2 (r :: rs = [])), andb_true_r by done.
  destruct (Z.ltb_spec (Z.of_nat (length (v_procs v))) (g_parallel (u_env s))) as [Hlt|Hge].
  2: { eapply HQ; [exact Hi| |done]. constructor. by left. }
  pose proof (i_queue _ _ _ _ Hi) as Hq. rewrite Hreqs in Hq.
  destruct (queue_pop_rep _ _ _ Hq) as (q & Hpop & Hq' & _). apply wpu_bind. eapply wpu_ok; [exact Hpop|].
  apply wpu_bind, wp_modify. pose proof (i_reqs _ _ _ _ Hi) as Hr. rewrite Hreqs in Hr.
  apply Forall_cons in Hr as [Hr Hrs].
  assert (inv (req_own r ++ own) k (with_reqs v rs) (set_queue q s)) as Hi1.
  { eapply inv_set_reqs; [exact Hi|done|done|]. eapply heap_ok_perm; [apply Hi|].
    unfold owned. simpl. rewrite Hreqs. simpl. solve_Permutation. }
  apply wpu_bind. eapply wpu_mono; [eapply wpu_run_and_free with
    (Q := λ _ s', wpu (schedule_loop n) Q s'); [exact Hi1|exact Hr|]|].
  - intros v2 s2 Hi2 Hst Hreqs2 Hcfg2. eapply IH; [exact Hi2|by rewrite Hreqs2|].
    intros v3 s3 Hi3 Hsch Hcfg3. eapply HQ; [exact Hi3| |by rewrite Hcfg3, Hcfg2].
    injection Hcfg2 as Hpar2 Hdir2. rewrite Hpar2, Hdir2 in Hsch. by eapply sched_next.
  - intros [] s2 H2. by apply wpu_bind.
Qed.

Lemma wpu_schedule_new_jobs own k v s (Q : unit → ust W → Prop) :
  inv own k v s →
  (∀ v' s', inv own k v' s' →
     schedules (g_parallel (u_env s)) (u_current_dir s) (v, u_world s) (v', u_world s') →
     config s' = config s → Q tt s') →
  wpu schedule_new_jobs Q s.
Proof.
  intros Hi HQ. unfold schedule_new_jobs. apply wpu_bind. unfold wpu at 1, wp, gets.
  eapply wpu_schedule_loop; [exact Hi| |done].
  rewrite (queue_rep_len _ _ (i_queue _ _ _ _ Hi)). lia.
Qed.

(** The scheduler never exceeds the limit, and is work conserving: it stops
    only when the limit is reached or no request is left. *)
Lemma schedules_limit par dir a b :
  schedules par dir a b →
  Z.of_nat (length (v_procs b.1)) ≤ Z.max par (Z.of_nat (length (v_procs a.1))) ∧
  (par ≤ Z.of_nat (length (v_procs b.1)) ∨ v_reqs b.1 = []).
Proof.
  induction 1 as [a Ha|a r rs b c Hlt Hr Hst _ [IH1 IH2]]; [split; [lia|done]|].
  apply started_procs in Hst as [Hp _]. simpl in Hp. split; [lia|done].
Qed.
End handlers.
