(* ===== verification/ServerLoop.v ===== *)
(** * The event loop of the Unix server

    Every step of [main] preserves the invariant of ServerInv.v and fails no
    assertion; the states the program reaches are those of the relation
    [reachable], whose steps are [main_step] and the SIGCHLD handler. *)

From S2P Require Import Prelude CMem ArrayList Queue ReadBuf WriteBuf Env Request Proc UnixOS Messages ServerUnix ServerInv ServerHandlers.

Section loop.
Context {W : Type} `{OL : UnixOSLaws W} `{SK : ListeningSocket} `{MO : MayOverlap}.
Implicit Types (s : ust W) (v : view).

(** [write] to a connected client does not fail. *)
Hypothesis write_accepts : ∀ fd bs w w', os_write fd bs w ≠ (None, w').

(** [poll] reports nothing but POLLIN for the listening socket. *)
Hypothesis listen_pollin : ∀ es w rs w' i ev r,
  os_poll es w = (PollReady rs, w') → es !! i = Some (listening_socket, ev) → rs !! i = Some r →
  r = 0 ∨ r = POLLIN.

(** The invariant at a control point: in the [for] loop the results of [poll]
    from the current entry on have not been handled yet. *)
Definition pc_inv (pc : main_pc) (s : ust W) : Prop :=
  match pc with
  | PTop | PPoll => ∃ k v, inv [] k v s
  | PFor i => 0 ≤ i ∧ ∃ v, inv [] (Z.to_nat i) v s
  | PPipe i => 0 ≤ i ∧ ∃ v, inv [] (S (Z.to_nat i)) v s
  end.

Lemma pc_inv_next i v s : 0 ≤ i → inv [] (S (Z.to_nat i)) v s → pc_inv (PFor (i + 1)) s.
Proof.
  intros Hi Hv. split; [lia|]. exists v. by replace (Z.to_nat (i + 1)) with (S (Z.to_nat i)) by lia.
Qed.

(** ** One round of poll *)

Lemma poll_entries_rep l num len es i n :
  poll_rep l num len es → (i + n = length es)%nat →
  poll_entries l (Z.of_nat i) n = Ok (drop i es).
Proof.
  intros Hrep. revert i. induction n as [|n IH]; intros i Hn; simpl; [by rewrite drop_ge by lia|].
  destruct (lookup_lt_is_Some_2 es i) as [e He]; [lia|].
  rewrite (poll_rep_get _ _ _ _ _ _ Hrep He), (drop_S _ _ _ He). simpl.
  replace (Z.of_nat i + 1) with (Z.of_nat (S i)) by lia. by rewrite IH by lia.
Qed.

Definition with_revents (e : pollfd) (r : Z) : pollfd := Mk_pollfd (pfd_fd e) (pfd_events e) r.

Lemma store_revents_rep l num len es i rs :
  poll_rep l num len es → (i + length rs = length es)%nat →
  ∃ l', store_revents l (Z.of_nat i) rs = Ok l' ∧
        poll_rep l' num len (take i es ++ zip_with with_revents (drop i es) rs).
Proof.
  revert l es i. induction rs as [|r rs IH]; intros l es i Hrep Hn; simpl in *.
  - exists l. split; [done|]. rewrite drop_ge, app_nil_r by lia. by rewrite take_ge by lia.
  - destruct (lookup_lt_is_Some_2 es i) as [e He]; [lia|]. rewrite (poll_rep_get _ _ _ _ _ _ Hrep He). simpl.
    destruct (poll_rep_set _ _ _ _ i (with_revents e r) Hrep) as (l1 & Hset & Hrep1); [lia|].
    unfold with_revents in Hset. rewrite Hset. simpl. replace (Z.of_nat i + 1) with (Z.of_nat (S i)) by lia.
    destruct (IH l1 _ (S i) Hrep1) as (l2 & Hst & Hrep2); [rewrite length_insert; lia|].
    exists l2. split; [done|]. rewrite (drop_S _ _ _ He). simpl.
    rewrite (take_S_r _ _ (with_revents e r)), take_insert_ge, drop_insert_lt, <- app_assoc in Hrep2
      by first [lia | apply list_lookup_insert_eq; lia]. done.
Qed.

(** The entries with their results: only [revents] changes. *)
Lemma zip_revents_lookup es rs j e :
  zip_with with_revents es rs !! j = Some e →
  ∃ e0 r, es !! j = Some e0 ∧ rs !! j = Some r ∧ e = with_revents e0 r.
Proof.
  rewrite lookup_zip_with. intros (e0 & He0 & (r & Hr & [= <-])%bind_Some)%bind_Some. eauto.
Qed.

Lemma entries_revents sock pipe cs es rs :
  length rs = length es → entries_ok sock pipe cs es →
  entries_ok sock pipe cs (zip_with with_revents es rs).
Proof.
  intros Hlen Hok. pose proof (e_unique _ _ _ _ Hok) as Huniq. destruct Hok as [Hknown _ Hcover Hwant]. split.
  - intros e [j (e0 & r & He0 & _ & ->)%zip_revents_lookup]%list_elem_of_lookup. simpl.
    apply Hknown. by eapply list_elem_of_lookup_2.
  - apply unique_entries_alt. intros i j e e' (e0 & r & He0 & _ & ->)%zip_revents_lookup
      (e1 & r1 & He1 & _ & ->)%zip_revents_lookup. simpl. by eapply Huniq.
  - intros c Hc. destruct (Hcover c Hc) as (e & [j Hj]%list_elem_of_lookup & Hfd).
    destruct (lookup_lt_is_Some_2 rs j) as [r Hr]; [rewrite Hlen; by eapply lookup_lt_Some|].
    exists (with_revents e r). split; [|done]. eapply list_elem_of_lookup_2 with (i := j).
    rewrite lookup_zip_with, Hj, Hr. done.
  - intros e c [j (e0 & r & He0 & _ & ->)%zip_revents_lookup]%list_elem_of_lookup. simpl.
    apply (Hwant e0). by eapply list_elem_of_lookup_2.
Qed.

Lemma inv_set_poll own k k' v s l num es :
  inv own k v s → poll_rep l num (u_poll_len s) es →
  entries_ok (u_server_sock s) (u_cpipe s).1 (v_clients v) es →
  revents_ok (u_server_sock s) k' es →
  inv own k' (with_polls v es) (set_poll l num (u_poll_len s) s).
Proof. intros [] ???. by split. Qed.

Lemma wpu_poll_round k v s (Q : main_pc → ust W → Prop) :
  inv [] k v s → (∀ pc s', pc_inv pc s' → Q pc s') → wpu (main_step PPoll) Q s.
Proof.
  intros Hi HQ. unfold main_step. apply wpu_bind. unfold wpu at 1, wp, get.
  pose proof (i_poll _ _ _ _ Hi) as Hrep. pose proof Hrep as [Hnum _]. rewrite Hnum, Nat2Z.id.
  apply wpu_bind. eapply wpu_ok.
  { change 0 with (Z.of_nat 0). by eapply poll_entries_rep. }
  rewrite drop_0. apply wpu_bind, wpu_sys. intros r w Hpoll.
  pose proof (poll_frame _ _ _ _ Hpoll) as [Hf Hc].
  assert (inv [] k v (set_world w s)) as Hi1 by (by apply inv_world).
  destruct r as [rs| |]; [|apply HQ; simpl; eauto|by eapply wpu_shutdown_inv].
  destruct (poll_law _ _ _ _ Hpoll) as [Hlen Hout]. rewrite length_fmap in Hlen.
  destruct (store_revents_rep _ _ _ _ 0 rs Hrep) as (l & Hst & Hrep'); [done|].
  rewrite take_0, drop_0 in Hrep'. simpl in Hrep'.
  apply wpu_bind. eapply wpu_ok; [exact Hst|]. apply wpu_bind, wp_modify.
  apply HQ. split; [done|]. exists (with_polls v (zip_with with_revents (v_polls v) rs)).
  rewrite <- Hnum. apply (inv_set_poll [] k _ v (set_world w s)); [exact Hi1|exact Hrep'| |].
  - apply entries_revents; [done|]. apply Hi.
  - intros j e _ (e0 & r & He0 & Hr & ->)%zip_revents_lookup. simpl.
    assert (((λ e, (pfd_fd e, pfd_events e)) <$> v_polls v) !! j = Some (pfd_fd e0, pfd_events e0)) as Hj
      by (by rewrite list_lookup_fmap, He0).
    split; [intros Hg; by eapply Hout|]. rewrite (i_sock _ _ _ _ Hi). intros Hfd. rewrite Hfd in Hj.
    by eapply listen_pollin.
Qed.

(** ** The loop over the entries *)

Lemma wpu_client_entry i v s e (Q : unit → ust W → Prop) :
  may_overlap → inv [] i v s → v_polls v !! i = Some e →
  (∀ v' s', inv [] (S i) v' s' → Q tt s') → wpu (handle_client_entry (Z.of_nat i) e) Q s.
Proof.
  intros Hmay Hi He HQ. unfold handle_client_entry.
  assert (inv [] (S i) v s) as Hi' by (eapply inv_later; [exact Hi|lia]).
  destruct (i_clients _ _ _ _ Hi) as (l & Hl & _). apply wpu_bind. eapply wpu_the_clients; [exact Hl|].
  apply wpu_bind. destruct (lookup_client _ _ _ _ (pfd_fd e) _ Hi Hl)
    as [[Hlk _]|(cs1 & c & cs2 & Hlk & Hv & Hfd)]; (eapply wpu_ok; [exact Hlk|]); [by eapply HQ|].
  destruct (negb (Z.land (pfd_revents e) POLLERR =? 0)).
  { eapply wpu_close_client; [exact Hi'|exact Hv|]. intros cs' es s' _ Hi2. by eapply HQ. }
  destruct (Z.land (pfd_revents e) POLLOUT =? 0) eqn:Hout; simpl.
  - destruct (negb (Z.land (pfd_revents e) POLLIN =? 0)); [|by eapply HQ].
    eapply wpu_read_on_client; [exact Hi'|exact Hv|exact Hmay|]. intros v' s' Hi2. by eapply HQ.
  - apply Z.eqb_neq in Hout. destruct (i_revents _ _ _ _ Hi i e) as [Hw _]; [lia|done|].
    eapply wpu_write_to_client; [exact write_accepts|exact Hi|exact Hv| |exact He|done|].
    + eapply (e_out _ _ _ _ (i_entries _ _ _ _ Hi) e); [by eapply list_elem_of_lookup_2| |done|by apply Hw].
      rewrite Hv, elem_of_app, elem_of_cons. auto.
    + intros out es s' Hi2. by eapply HQ.
Qed.

Lemma wpu_for_step i v s (Q : main_pc → ust W → Prop) :
  may_overlap → 0 ≤ i → inv [] (Z.to_nat i) v s → (∀ pc s', pc_inv pc s' → Q pc s') →
  wpu (main_step (PFor i)) Q s.
Proof.
  intros Hmay Hpos Hi HQ. unfold main_step. apply wpu_bind. unfold wpu at 1, wp, get.
  pose proof (i_poll _ _ _ _ Hi) as Hrep. pose proof Hrep as [Hnum _].
  assert (inv [] (S (Z.to_nat i)) v s) as Hi' by (eapply inv_later; [exact Hi|lia]).
  destruct (Z.ltb_spec i (u_poll_num s)) as [Hlt|Hge]; [|apply HQ; simpl; eauto].
  destruct (lookup_lt_is_Some_2 (v_polls v) (Z.to_nat i)) as [e He]; [lia|].
  apply wpu_bind. eapply wpu_ok.
  { rewrite <- (Z2Nat.id i) by done. by eapply poll_rep_get. }
  destruct (Z.eqb_spec (pfd_revents e) 0) as [Hrev|Hrev]; [apply HQ; by eapply pc_inv_next|].
  destruct (Z.eqb_spec (pfd_fd e) (u_cpipe s).1); [apply HQ; simpl; eauto|].
  destruct (Z.eqb_spec (pfd_fd e) (u_server_sock s)) as [Hsock|].
  - destruct (i_revents _ _ _ _ Hi _ e (le_n _) He) as [_ Hin]. destruct (Hin Hsock) as [?|Hpin]; [done|].
    rewrite Hpin. simpl. apply wpu_bind. eapply wpu_ok; [done|]. apply wpu_bind.
    eapply wpu_server_accept_client; [exact Hi'|]. intros c es s' _ _ Hi2. apply HQ. by eapply pc_inv_next.
  - apply wpu_bind. rewrite <- (Z2Nat.id i) at 1 by done.
    eapply wpu_client_entry; [exact Hmay|exact Hi|exact He|]. intros v' s' Hi2. apply HQ. by eapply pc_inv_next.
Qed.

(** Every step of the program from a state with the invariant ends in a state
    with the invariant, or the program exits or runs out of memory; the copy
    between overlapping regions is in the steps of the [for] loop only. *)
Lemma wpu_main_step pc s (Q : main_pc → ust W → Prop) :
  ((∃ i, pc = PFor i) → may_overlap) → pc_inv pc s → (∀ pc' s', pc_inv pc' s' → Q pc' s') → wpu (main_step pc) Q s.
Proof.
  intros Hmay Hpc HQ. destruct pc as [| |i|i]; simpl in Hpc.
  - destruct Hpc as (k & v & Hi). unfold main_step. apply wpu_bind.
    eapply wpu_schedule_new_jobs; [exact Hi|]. intros v1 s1 Hi1 _ _. apply wpu_bind.
    eapply wpu_poll_list_clean; [apply Hi1|]. intros l num es Hrep Hp. apply HQ.
    exists (length es), (with_polls v1 es). eapply inv_set_poll; [exact Hi1|exact Hrep| |].
    + destruct (inv_client_nonneg _ _ _ _ Hi1) as [_ Hall]. eapply entries_clean; [done|exact Hp|apply Hi1].
    + intros j e Hj He. apply lookup_lt_Some in He. lia.
  - destruct Hpc as (k & v & Hi). by eapply wpu_poll_round.
  - destruct Hpc as (Hpos & v & Hi). eapply wpu_for_step; [eauto|done..].
  - destruct Hpc as (Hpos & v & Hi). unfold main_step. apply wpu_bind. unfold wpu at 1, wp, get.
    apply wpu_bind, wpu_sys. intros r w [Hf Hc]%pipe_read_frame.
    assert (inv [] (S (Z.to_nat i)) v (set_world w s)) as Hi1 by (by apply inv_world).
    destruct r; [|apply HQ; simpl; eauto|by eapply wpu_shutdown_inv..].
    apply wpu_bind. eapply wpu_handle_child_events; [exact Hi1|]. intros v' w' s' Hi2 _ _ _.
    apply HQ. by eapply pc_inv_next.
Qed.

End loop.

(** ** Options *)

Section boot.
Context {W : Type} `{OL : UnixOSLaws W} `{MO : MayOverlap}.
Implicit Types (s : ust W).

(** ** Initialisation *)

Lemma wpu_call_or_stop c msg (Q : Z → ust W → Prop) s :
  can_stop s → (∀ r w, os_call c (u_world s) = (r, w) → r ≠ -1 → Q r (set_world w s)) →
  wpu (call_or_stop c msg) Q s.
Proof.
  intros Hs HQ. unfold call_or_stop. apply wpu_bind, wpu_sys. intros r w Hcall.
  destruct (Z.eqb_spec r (-1)); [by apply wpu_shutdown|by apply HQ].
Qed.

(** A call of the initialisation that returns no descriptor. *)
Lemma wpu_setup_call c msg (Q : Z → ust W → Prop) s :
  setup_call c = true → can_stop s →
  (∀ r w, os_fds w = os_fds (u_world s) → os_children w = os_children (u_world s) → r ≠ -1 →
     Q r (set_world w s)) →
  wpu (call_or_stop c msg) Q s.
Proof.
  intros Hc Hs HQ. apply wpu_call_or_stop; [done|]. intros r w Hcall Hr.
  destruct (setup_frame _ _ _ _ Hc Hcall) as [? ?]. by apply HQ.
Qed.

Lemma wpu_set_nonblock fd (Q : unit → ust W → Prop) s :
  can_stop s →
  (∀ w, os_fds w = os_fds (u_world s) → os_children w = os_children (u_world s) → Q tt (set_world w s)) →
  wpu (set_nonblock fd) Q s.
Proof.
  intros Hs HQ. unfold set_nonblock. apply wpu_bind, wpu_sys. intros r w Hr.
  apply setup_frame in Hr as [Hf1 Hc1]; [|done].
  destruct (r =? -1); [by apply wpu_shutdown|]. apply wpu_bind, wpu_sys. intros r2 w2 Hr2.
  apply setup_frame in Hr2 as [Hf2 Hc2]; [|done]. simpl in *.
  destruct (r2 =? -1); [by apply wpu_shutdown|]. apply (HQ w2); congruence.
Qed.

(** The state before the child pipe is set up: everything is empty. *)
Record booted (sock : Z) (es : list pollfd) (s : ust W) : Prop := {
  b_queue : queue_rep (u_queue s) [];
  b_procs : list_rep (u_processes s) [];
  b_children : os_children (u_world s) = ∅;
  b_clients : ∃ l, u_clients s = Some l ∧ list_rep l [];
  b_sock : u_server_sock s = sock;
  b_open : sock ∈ os_fds (u_world s) ∧ 0 ≤ sock;
  b_poll : poll_rep (u_poll_list s) (u_poll_num s) (u_poll_len s) es;
  b_heap : heap_ok (g_heap (u_env s)) [];
  b_log : log_ok (u_env s);
  b_parallel : 1 ≤ g_parallel (u_env s) ≤ INT_MAX;
  b_dir : ∃ dir, u_current_dir s = Some dir ∧ strlen dir ≤ alloc_limit;
}.

Lemma booted_can_stop sock es s : booted sock es s → can_stop s.
Proof.
  intros Hb. split; [apply Hb|]. destruct (b_clients _ _ _ Hb) as (l & Hl & Hrep).
  rewrite Hl. intros ? [= <-]. by exists [].
Qed.

Lemma wpu_setup_child_pipe `{SK : ListeningSocket} (Q : unit → ust W → Prop) s :
  booted listening_socket [Mk_pollfd listening_socket POLLIN 0] s →
  (∀ v s', inv [] 0 v s' → Q tt s') → wpu setup_child_pipe Q s.
Proof.
  intros Hb HQ. pose proof (booted_can_stop _ _ _ Hb) as Hstop. unfold setup_child_pipe.
  apply wpu_bind, wpu_sys. intros p w [Hch Hp]%pipe_law. destruct p as [[a b]|]; [|by apply wpu_shutdown].
  destruct Hp as (Ha & Hbb & Hab & Hna & Hnb & Hf). apply wpu_bind, wp_modify.
  apply wpu_bind, wpu_set_nonblock; [done|]. intros w1 Hf1 Hc1.
  apply wpu_bind, wpu_set_nonblock; [done|]. intros w2 Hf2 Hc2.
  apply wpu_bind, wpu_sys. intros r w3 Hr. apply setup_frame in Hr as [Hf3 Hc3]; [|done].
  destruct (r =? -1); [by apply wpu_shutdown|]. simpl in *.
  eapply wpu_add_to_poll_list; [apply Hb|]. intros l num len Hpl.
  pose proof (b_open _ _ _ Hb) as [Hso Hsp]. pose proof (b_sock _ _ _ Hb) as Hsock.
  pose proof (b_children _ _ _ Hb) as Hemp.
  assert (os_fds w3 = {[a; b]} ∪ os_fds (u_world s)) as Hfds by congruence.
  apply (HQ (Mk_view [] [] [] [Mk_pollfd listening_socket POLLIN 0; Mk_pollfd a POLLIN 0])).
  destruct Hb. split; simpl; try done.
  - constructor.
  - intros pid. replace (os_children w3) with (∅ : gset Z) by congruence. set_solver.
  - unfold known_fds. simpl. rewrite Hsock. repeat constructor; set_solver.
  - unfold known_fds. simpl. rewrite Hsock, Hfds. intros fd. rewrite !elem_of_cons, elem_of_nil.
    intros [->|[->|[->|[]]]]; set_solver.
  - rewrite Hsock. split; simpl.
    + intros e. rewrite !elem_of_cons, elem_of_nil. intros [->|[->|[]]]; simpl; auto.
    + rewrite !filter_cons_True by (unfold used_entry; simpl; lia). simpl.
      repeat constructor; set_solver.
    + intros c. set_solver.
    + intros e c _. set_solver.
  - intros j e _ He. destruct j as [|[|j]]; simplify_eq/=; split; (intros Hg; by destruct Hg) || by left.
Qed.

(** Before the structures are allocated: no client, no log. *)
Lemma early_can_stop s : g_logging (u_env s) = false → u_clients s = None → can_stop s.
Proof. intros Hl Hc. split; [intros ?; congruence|]. rewrite Hc. done. Qed.

Lemma late_can_stop s l : g_logging (u_env s) = false → u_clients s = Some l → list_rep l [] → can_stop s.
Proof. intros Hl Hc Hr. split; [intros ?; congruence|]. rewrite Hc. intros ? [= <-]. by exists []. Qed.

(** [getcwd] returns no NULL, which the program would pass to [strlen]. *)
Definition getcwd_succeeds : Prop := ∀ w w' : W, os_getcwd w ≠ (None, w').

Lemma wpu_server_init g w0 name (Q : unit → ust W → Prop) :
  getcwd_succeeds → quiet_globals g → os_children w0 = ∅ →
  (∀ s', (∃ v, inv (SK := u_server_sock s') [] 0 v s') → Q tt s') →
  wpu (server_init_listening name (g_parallel g)) Q (set_env g (initial_ust w0)).
Proof.
  intros Hcwd (Hh & Hlog & Hpar) Hch HQ. unfold server_init_listening.
  assert (heap_ok (g_heap g) []) as Hok0.
  { rewrite Hh. split_and!; simpl; [set_solver|constructor|set_solver|done]. }
  apply wpu_bind, wpu_sys. intros [dir|] w1 Hgetcwd; [|by destruct (Hcwd _ _ Hgetcwd)].
  apply getcwd_law in Hgetcwd as (Hdir & Hf1 & Hc1). specialize (Hdir dir eq_refl). simpl in Hf1, Hc1.
  apply wpu_bind, wp_modify. apply wpu_bind, wpu_heap. intros E1 _. eapply wp_new_str; [exact Hok0|].
  intros a1 h1 Hok1. apply wpu_bind, wpu_heap. intros E2 _. eapply wp_new_str; [exact Hok1|].
  intros a2 h2 Hok2. apply wpu_bind, wpu_call_or_stop; [by apply early_can_stop|].
  intros cur w2 Hopen Hcur. apply open_law in Hopen as [Hc2 Hopen]; [|by left]. simpl in Hopen, Hc2.
  destruct Hopen as [[? _]|(_ & Hcnew & Hf2)]; [done|].
  apply wpu_bind, wpu_setup_call; [done|by apply early_can_stop|]. intros _ w3 Hf3 Hc3 _. simpl in *.
  apply wpu_bind. unfold wpu at 1, wp, gets. simpl. rewrite Hlog. apply wpu_bind.
  unfold wpu at 1, wp, mret, M_ret. apply wpu_bind, wpu_env. intros E3 _. unfold init_logging.
  apply wp_bind, wp_gets. simpl. rewrite Hlog. simpl. apply wpu_bind.
  destruct (@init_queue_rep request 100) as (q & Hqi & Hq); [by_computation|].
  eapply wpu_ok; [exact Hqi|]. apply wpu_bind, wp_modify. apply wpu_bind, wpu_lift.
  eapply safe_mono; [apply init_list_safe; lia|]. intros cl [Hcl Hlim]. apply wpu_bind, wp_modify.
  unfold alloc_limit, INT_MAX in *.
  apply wpu_bind. eapply wpu_ok; [apply int_op_ok; unfold INT_MIN, INT_MAX; lia|].
  apply wpu_bind, wpu_lift. unfold arr_alloc. destruct (_ && _) eqn:Hal; [|done]. bool_to_prop. simpl.
  apply wpu_bind, wp_modify. apply wpu_bind.
  destruct (_ <? _); [by eapply wpu_shutdown, late_can_stop|]. unfold wpu at 1, wp.
  apply wpu_bind, wpu_sys. intros sock w4 Hsock. apply open_law in Hsock as [Hc4 Hsock]; [|by right].
  simpl in Hsock, Hc4. apply wpu_bind, wp_modify. apply wpu_bind, wpu_sys. intros ru w5 Hul.
  apply setup_frame in Hul as [Hf5 Hc5]; [|done]. simpl in Hf5, Hc5.
  apply wpu_bind. unfold wpu at 1, wp. apply wpu_bind.
  destruct (_ && _); [by eapply wpu_shutdown, late_can_stop|]. unfold wpu at 1, wp.
  apply wpu_bind, wpu_call_or_stop; [by eapply late_can_stop|]. intros rb w6 Hbind Hrb.
  destruct Hsock as [[-> _]|(Hspos & Hsnew & Hf4)]; [by apply bind_law in Hbind|].
  apply setup_frame in Hbind as [Hf6 Hc6]; [|done]. simpl in Hf6, Hc6.
  apply wpu_bind. eapply wpu_ok; [apply int_op_ok; unfold INT_MIN, INT_MAX; lia|].
  apply wpu_bind, wpu_setup_call; [done|by eapply late_can_stop|]. intros _ w7 Hf7 Hc7 _. simpl in Hf7, Hc7.
  apply wpu_bind, wpu_setup_call; [done|by eapply late_can_stop|]. intros _ w8 Hf8 Hc8 _. simpl in Hf8, Hc8.
  apply wpu_bind, wpu_call_or_stop; [by eapply late_can_stop|]. intros _ w9 [Hf9 Hc9]%close_law _. simpl in Hf9, Hc9.
  apply wpu_bind, wpu_heap. intros E4 _. eapply wp_free with (own := [a2]).
  { eapply heap_ok_perm; [exact Hok2|]. solve_Permutation. }
  intros h3 Hok3. apply wpu_bind, wpu_heap. intros E5 _. eapply wp_free; [exact Hok3|]. intros h4 Hok4.
  apply wpu_bind. eapply wpu_add_to_poll_list with (es := []).
  { unfold poll_rep. simpl. rewrite length_replicate. unfold alloc_limit in *. split_and!; try lia. done. }
  intros l num len Hpl. apply wpu_bind. unfold wpu at 1, wp. simpl. apply wpu_bind, wpu_lift.
  unfold init_process_list. eapply safe_mono; [apply init_list_safe; lia|]. intros ps [Hps _].
  apply wpu_bind, wp_modify. eapply (wpu_setup_child_pipe (SK := sock)).
  - split; simpl; try done.
    + congruence.
    + eauto.
    + split; [|done]. rewrite Hf9, Hf8, Hf7, Hf6, Hf5, Hf4.
      apply elem_of_difference. split; [set_solver|]. rewrite elem_of_singleton. intros Heq.
      change (sock = cur) in Heq. subst cur. apply Hsnew. rewrite Hf3, Hf2. set_solver.
    + intros Hl. simpl in Hl. congruence.
    + exists dir. split; [done|]. unfold strlen. pose proof (length_c_str dir). unfold alloc_limit. lia.
  - intros v s' Hv. apply HQ. exists v. pose proof (i_sock _ _ _ _ Hv) as Hs'. change (u_server_sock s' = sock) in Hs'.
    by rewrite Hs'.
Qed.

(** Starting the program leads to the invariant. *)
Lemma wpu_main_start einval opts optind argc w0 (Q : main_pc → ust W → Prop) :
  getcwd_succeeds → no_logging opts → os_children w0 = ∅ →
  (∀ s', pc_inv (SK := u_server_sock s') PTop s' → Q PTop s') →
  wpu (main_start einval opts optind argc) Q (initial_ust w0).
Proof.
  intros Hcwd Hopts Hch HQ. unfold main_start. apply wpu_bind, wpu_env. intros E HE.
  apply wp_parse_options; [done..|]. intros g Hg. apply wpu_bind. unfold wpu at 1, wp, gets.
  apply wpu_bind. eapply wpu_server_init; [exact Hcwd|exact Hg|exact Hch|]. intros s' [v Hv].
  apply HQ. simpl. eauto.
Qed.

(** ** Reachable states *)

(** The states of the program started on the world [w0] with the given
    options. The SIGCHLD handler may run between any two steps. *)
Inductive reachable (einval : bytes → bool) (opts : list getopt_result) (optind argc : Z) (w0 : W)
    : main_pc → ust W → Prop :=
| reach_start pc s :
    main_start einval opts optind argc (initial_ust w0) = Done pc s →
    reachable einval opts optind argc w0 pc s
| reach_step pc s pc' s' :
    reachable einval opts optind argc w0 pc s → main_step pc s = Done pc' s' →
    reachable einval opts optind argc w0 pc' s'
| reach_signal pc s s' :
    reachable einval opts optind argc w0 pc s → sigchld_handle s = Done tt s' →
    reachable einval opts optind argc w0 pc s'.

(** What is assumed of [poll] on the socket [sock]: while it listens, nothing
    but POLLIN is reported for it. *)
Definition only_pollin (sock : Z) : Prop := ∀ es (w : W) rs w' i ev r,
  os_poll es w = (PollReady rs, w') → es !! i = Some (sock, ev) → rs !! i = Some r →
  r = 0 ∨ r = POLLIN.

(** [write] to a connected client does not fail. *)
Definition writes_accepted : Prop := ∀ fd bs (w w' : W), os_write fd bs w ≠ (None, w').

Lemma pc_inv_world `{SK : ListeningSocket} pc s w :
  pc_inv pc s → os_fds w = os_fds (u_world s) → os_children w = os_children (u_world s) →
  pc_inv pc (set_world w s).
Proof.
  intros Hpc Hf Hc. destruct pc; simpl in *.
  - destruct Hpc as (k & v & Hi). exists k, v. by apply inv_world.
  - destruct Hpc as (k & v & Hi). exists k, v. by apply inv_world.
  - destruct Hpc as (? & v & Hi). split; [done|]. exists v. by apply inv_world.
  - destruct Hpc as (? & v & Hi). split; [done|]. exists v. by apply inv_world.
Qed.

Lemma pc_inv_some `{SK : ListeningSocket} pc s : pc_inv pc s → ∃ k v, inv [] k v s.
Proof. destruct pc; simpl; naive_solver. Qed.

Lemma wpu_sigchld `{SK : ListeningSocket} pc s (Q : unit → ust W → Prop) :
  pc_inv pc s → (∀ s', pc_inv pc s' → Q tt s') → wpu sigchld_handle Q s.
Proof.
  intros Hpc HQ. unfold sigchld_handle. apply wpu_bind. unfold wpu at 1, wp, gets.
  apply wpu_bind, wpu_sys. intros r w [Hf Hc]%pipe_write_frame.
  assert (pc_inv pc (set_world w s)) as Hpc' by (by apply pc_inv_world).
  destruct r; try (by apply HQ). destruct (pc_inv_some _ _ Hpc') as (k & v & Hi). by eapply wpu_shutdown_inv.
Qed.

Lemma wpu_done {A} (m : M (ust W) A) Q s a s' : wpu m Q s → m s = Done a s' → Q a s'.
Proof. unfold wpu, wp. intros Hm Heq. by rewrite Heq in Hm. Qed.

Lemma wpu_no_failure {A} (m : M (ust W) A) Q s :
  wpu m Q s → m s ≠ Failed Assertion ∧ m s ≠ Failed Undefined ∧ (m s = Failed Overlap → may_overlap).
Proof. unfold wpu, wp, any_stop. destruct (m s) as [| |[]]; naive_solver. Qed.

End boot.

Section reachable_states.
Context {W : Type} `{OL : UnixOSLaws W}.
Implicit Types (s : ust W).

(** Reachable states have the invariant, for the socket chosen at the start. *)
Lemma reachable_inv einval opts optind argc w0 pc s :
  getcwd_succeeds → no_logging opts → os_children w0 = ∅ → writes_accepted →
  (∀ pc0 s0, main_start einval opts optind argc (initial_ust w0) = Done pc0 s0 → only_pollin (u_server_sock s0)) →
  reachable einval opts optind argc w0 pc s →
  only_pollin (u_server_sock s) ∧ pc_inv (SK := u_server_sock s) pc s.
Proof.
  intros Hcwd Hopts Hch Hw Hsock. set (MO := True : MayOverlap). induction 1 as [pc s Hst|pc s pc' s' _ IH Hstep|pc s s' _ IH Hsig].
  - split; [by eapply Hsock|]. eapply (wpu_done _ (λ pc s, pc_inv (SK := u_server_sock s) pc s)); [|exact Hst].
    by apply wpu_main_start.
  - destruct IH as [Hin Hpc].
    assert (pc_inv (SK := u_server_sock s) pc' s') as Hpc'.
    { eapply (wpu_done _ (λ pc s', pc_inv (SK := u_server_sock s) pc s')); [|exact Hstep].
      by apply (wpu_main_step (SK := u_server_sock s) Hw Hin). }
    destruct (pc_inv_some _ _ Hpc') as (k & v & Hi). pose proof (i_sock _ _ _ _ Hi) as Hs.
    change (u_server_sock s' = u_server_sock s) in Hs. by rewrite Hs.
  - destruct IH as [Hin Hpc].
    assert (pc_inv (SK := u_server_sock s) pc s') as Hpc'.
    { eapply (wpu_done _ (λ _ s', pc_inv (SK := u_server_sock s) pc s')); [|exact Hsig]. by apply (wpu_sigchld (SK := u_server_sock s) pc). }
    destruct (pc_inv_some _ _ Hpc') as (k & v & Hi). pose proof (i_sock _ _ _ _ Hi) as Hs.
    change (u_server_sock s' = u_server_sock s) in Hs. by rewrite Hs.
Qed.
End reachable_states.
