(* ===== verification/ScriptedOS.v ===== *)
(** * A scripted operating system

    A concrete instance of the system-call interface of UnixOS.v, with proofs
    of its laws: descriptors and pids are allocated upwards, reads return
    prepared chunks, writes are recorded, every forked child terminates at
    once with exit code 0, and [poll] reports whatever is asked for. It runs
    the model of the server on concrete inputs and shows that the laws can
    hold. *)

From S2P Require Import Prelude CMem UnixOS ServerLoop.

Record script := Mk_script {
  sc_fds : list Z;
  sc_children : list Z;
  sc_input : list bytes;              (* the chunks that reads return *)
  sc_output : list (Z * bytes);       (* what was written, oldest first *)
  sc_programs : list (res (list child_action));   (* what the children did *)
}.

Definition set_fds (l : list Z) (w : script) : script :=
  Mk_script l (sc_children w) (sc_input w) (sc_output w) (sc_programs w).
Definition set_children (l : list Z) (w : script) : script :=
  Mk_script (sc_fds w) l (sc_input w) (sc_output w) (sc_programs w).

(** Allocate a descriptor. *)
Definition new_fd (w : script) : Z * script :=
  let fd := above (sc_fds w) in (fd, set_fds (fd :: sc_fds w) w).

Definition script_call (c : syscall) (w : script) : Z * script :=
  match c with
  | SysOpenDot | SysSocket => new_fd w
  | SysClose fd => (0, set_fds (filter (λ x, x ≠ fd) (sc_fds w)) w)
  | SysBind sock _ => (if sock =? -1 then -1 else 0, w)
  | _ => (0, w)
  end.

(** The events asked for; on the descriptor that becomes the listening socket
    only POLLIN. *)
Definition listen_fd : Z := 4.
Definition ready (fd ev : Z) : Z :=
  if fd =? listen_fd then Z.land ev POLLIN else Z.land ev (Z.lor POLLIN POLLOUT).

#[global] Instance scripted_os : UnixOS script := {
  os_call := script_call;
  os_enoent _ := false;
  os_getcwd w := (Some (str "/tmp"), w);
  os_fopen_log w := (true, w);
  os_pipe w := let '(a, w) := new_fd w in let '(b, w) := new_fd w in (Some (a, b), w);
  os_accept _ w := new_fd w;
  os_read _ n w :=
    match sc_input w with
    | c :: cs => (Some (take (Z.to_nat n) c),
                  Mk_script (sc_fds w) (sc_children w) cs (sc_output w) (sc_programs w))
    | [] => (None, w)
    end;
  os_write fd bs w :=
    (Some (Z.of_nat (length bs)),
     Mk_script (sc_fds w) (sc_children w) (sc_input w) (sc_output w ++ [(fd, bs)]) (sc_programs w));
  os_pipe_read _ w := (PipeOk, w);
  os_pipe_write _ w := (PipeOk, w);
  os_mkstemp t w := let '(fd, w) := new_fd w in ((fd, t), w);
  os_fork c w :=
    let pid := above (sc_children w) in
    (pid, Mk_script (sc_fds w) (pid :: sc_children w) (sc_input w) (sc_output w)
            (sc_programs w ++ [c]));
  os_wait3 w :=
    match sc_children w with
    | pid :: ps => (Some (Mk_wait pid (WExited 0) (Mk_rusage 1 250000)),
                    set_children (filter (λ x, x ≠ pid) (sc_children w)) w)
    | [] => (None, w)
    end;
  os_poll es w := (PollReady ((λ '(fd, ev), ready fd ev) <$> es), w);
}.

Lemma list_to_set_filter_ne (l : list Z) x :
  (list_to_set (filter (λ y, y ≠ x) l) : gset Z) = list_to_set l ∖ {[x]}.
Proof.
  apply set_eq. intros y. rewrite elem_of_list_to_set, list_elem_of_filter, elem_of_difference,
    elem_of_list_to_set, elem_of_singleton. tauto.
Qed.

Lemma above_not_in_set l : above l ∉ (list_to_set l : gset Z).
Proof. rewrite elem_of_list_to_set. apply above_fresh. Qed.

#[global] Program Instance scripted_laws : UnixOSLaws script := {
  os_fds w := list_to_set (sc_fds w);
  os_children w := list_to_set (sc_children w);
}.
Next Obligation.
  intros sock w fd w' [= <- <-]. split; [done|]. right. pose proof (above_fresh (sc_fds w)) as [? _].
  split_and!; [done|apply above_not_in_set|done].
Qed.
Next Obligation. intros w dir w' [= <- <-]. split_and!; [by intros ? [= <-]; vm_compute|done|done]. Qed.
Next Obligation.
  intros fd n w bs w' Hn Hr. simpl in Hr. destruct (sc_input w); simplify_eq. rewrite length_take.
  lia.
Qed.
Next Obligation. intros fd n w r w' Hr. simpl in Hr. by destruct (sc_input w); simplify_eq. Qed.
Next Obligation. intros fd bs w n w' [= <- <-]. lia. Qed.
Next Obligation. by intros fd bs w r w' [= <- <-]. Qed.
Next Obligation. by intros fd w r w' [= <- <-]. Qed.
Next Obligation. by intros fd w r w' [= <- <-]. Qed.
Next Obligation. intros fd w r w' [= <- <-]. split; [apply list_to_set_filter_ne|done]. Qed.
Next Obligation. by intros pid sig w r w' [= <- <-]. Qed.
Next Obligation.
  intros c w fd w' Hc Hr. pose proof (above_fresh (sc_fds w)) as [? _].
  destruct Hc as [-> | ->]; injection Hr as <- <-; (split; [done|]); right;
    (split_and!; [done|apply above_not_in_set|done]).
Qed.
Next Obligation. intros c w r w' Hc Hr. by destruct c; simplify_eq/=. Qed.
Next Obligation. by intros file w r w' [= <- <-]. Qed.
Next Obligation.
  intros w r w' [= <- <-]. split; [done|]. set (a := above (sc_fds w)). set (b := above (a :: sc_fds w)).
  pose proof (above_fresh (sc_fds w)) as [Ha1 Ha2]. pose proof (above_fresh (a :: sc_fds w)) as [Hb1 Hb2].
  fold a in Ha1, Ha2. fold b in Hb1, Hb2. rewrite not_elem_of_cons in Hb2. destruct Hb2 as [Hba Hb2].
  split_and!; [done..|congruence| | |].
  - by rewrite elem_of_list_to_set.
  - by rewrite elem_of_list_to_set.
  - simpl. fold a b. set_solver.
Qed.
Next Obligation.
  intros t w fd name w' [= <- <- <-]. pose proof (above_fresh (sc_fds w)) as [? _].
  split_and!; [done..|]. right. split_and!; [done|apply above_not_in_set|done].
Qed.
Next Obligation.
  intros c w pid w' [= <- <-]. split; [done|]. right.
  split_and!; [apply above_pos|apply above_not_in_set|done].
Qed.
Next Obligation.
  intros w r w' Hr. simpl in Hr. destruct (sc_children w) as [|pid ps] eqn:Hps; simplify_eq; [by rewrite Hps|].
  split; [done|]. simpl. rewrite Hps. split; [set_solver|]. rewrite <- list_to_set_filter_ne. done.
Qed.
Next Obligation.
  intros es w rs w' [= <- <-]. split; [by rewrite length_fmap|]. intros i fd ev r Hi.
  rewrite list_lookup_fmap, Hi. simpl. intros [= <-] Hout. unfold ready in Hout. case_match.
  - by rewrite <- Z.land_assoc, Z.land_0_r in Hout.
  - by rewrite <- Z.land_assoc in Hout.
Qed.
Next Obligation. by intros es w r w' [= <- <-]. Qed.

(** The assumptions of the safety theorem. *)
Lemma scripted_getcwd : getcwd_succeeds (W := script).
Proof. by intros w w'. Qed.

Lemma scripted_writes_accepted : writes_accepted (W := script).
Proof. by intros fd bs w w'. Qed.

Lemma land_pollin ev : Z.land ev POLLIN = 0 ∨ Z.land ev POLLIN = POLLIN.
Proof.
  change POLLIN with (Z.ones 1). rewrite Z.land_ones by lia. change (Z.ones 1) with 1.
  change (2 ^ 1) with 2. pose proof (Z.mod_pos_bound ev 2). lia.
Qed.

Lemma scripted_only_pollin : only_pollin (W := script) listen_fd.
Proof.
  intros es w rs w' i ev r [= <- <-] Hi. rewrite list_lookup_fmap, Hi. simpl. intros [= <-].
  apply land_pollin.
Qed.

(** A world with the standard descriptors open and the given input. *)
Definition scripted_world (input : list bytes) : script := Mk_script [2; 1; 0] [] input [] [].
