(* ===== verification/ServerUnixProps.v ===== *)
(** * Properties of the Unix server

    The correctness statements about src/server/server-unix.c: safety of every
    reachable state, line framing, scheduling, reporting of finished children,
    message lengths, the poll list and the arguments of a child; each with a
    use on the scripted operating system. *)

From S2P Require Import Prelude CMem ArrayList Queue ReadBuf WriteBuf Env Request Proc UnixOS Messages ServerUnix ServerInv ServerHandlers ServerLoop ScriptedOS.

(** ** A concrete run *)

Definition sample_opts : list getopt_result := [Mk_opt 106 (str "2"); Mk_opt 115 (str "/tmp/why3.sock")].
Definition sample_input : list bytes :=
  [str "run;7;5;1000;z3;-v"; [NEWLINE] ++ str "runstdin;8;0;0;cvc4;f.smt2" ++ [NEWLINE]].

Fixpoint run_steps (n : nat) (x : out (ust script) main_pc) : out (ust script) main_pc :=
  match n with
  | O => x
  | S n' => match run_steps n' x with Done pc s => main_step pc s | y => y end
  end.

Definition sample_start : out (ust script) main_pc :=
  main_start (λ _, false) sample_opts 5 5 (initial_ust (scripted_world sample_input)).

Definition sample_result : out (ust script) main_pc := Eval vm_compute in run_steps 9 sample_start.
Definition sample_pc : main_pc :=
  match sample_result with Done pc _ => pc | _ => PTop end.
Definition sample_state : ust script :=
  match sample_result with Done _ s => s | _ => initial_ust (scripted_world []) end.

Lemma bind_load {W} {A} (m : cstr) (f : bytes → M (ust W) A) s :
  is_live (c_addr m) (g_heap (u_env s)) = true →
  (heapU (load m) ≫= f) s = f (c_str (c_txt m)) s.
Proof.
  intros Hl. unfold heapU, on_env, on_heap, zoom, load, touch, mbind, M_bind, mret, M_ret.
  rewrite Hl. by destruct s as [[]].
Qed.

Lemma shutdown_bind `{OS : UnixOS W} {A B} msg (f : A → M (ust W) B) s :
  (shutdown_with_msg msg ≫= f) s = shutdown_with_msg msg s.
Proof.
  unfold shutdown_with_msg, on_env, zoom, logging_shutdown, mbind, M_bind, gets, exit.
  repeat case_match; simplify_eq; done.
Qed.

Section props.
Context {W : Type} `{OL : UnixOSLaws W}.
Implicit Types (s : ust W).

(** C1: safety of the Unix server. In every state the program can reach from
    its start without --logging (with any sequence of client data, child
    terminations, poll results and interleaved SIGCHLD signals that the laws
    of the operating system allow), when getcwd succeeds, writes to clients do
    not fail and the listening socket reports only POLLIN, the invariant
    holds: the heap blocks in use have one owner each, the process list is the
    set of children, each client has one poll entry and it asks for POLLOUT
    exactly when messages are pending. The next step of the event loop and the
    signal handler fail no assertion and do nothing undefined, with one
    exception that the theorem leaves open: a step that handles a poll entry
    may run into the memcpy of have_taken on overlapping regions (C6 says
    when). *)
Theorem server_safety einval opts optind argc w0 pc s :
  getcwd_succeeds → no_logging opts → os_children w0 = ∅ → writes_accepted →
  (∀ pc0 s0, main_start einval opts optind argc (initial_ust w0) = Done pc0 s0 →
     only_pollin (u_server_sock s0)) →
  reachable einval opts optind argc w0 pc s →
  (∃ k v, inv (SK := u_server_sock s) [] k v s) ∧
  (main_step pc s ≠ Failed Assertion ∧ main_step pc s ≠ Failed Undefined ∧
   (main_step pc s = Failed Overlap → ∃ i, pc = PFor i)) ∧
  (sigchld_handle s ≠ Failed Assertion ∧ sigchld_handle s ≠ Failed Undefined ∧
   sigchld_handle s ≠ Failed Overlap).
Proof.
  intros Hcwd Hopts Hch Hw Hsock Hreach.
  destruct (reachable_inv _ _ _ _ _ _ _ Hcwd Hopts Hch Hw Hsock Hreach) as [Hin Hpc].
  split; [by eapply pc_inv_some|]. split.
  - by eapply (wpu_no_failure (MO := ∃ i, pc = PFor i) _ (λ _ _, True)), (wpu_main_step (SK := u_server_sock s) Hw Hin).
  - by eapply (wpu_no_failure (MO := False) _ (λ _ _, True)), (wpu_sigchld (SK := u_server_sock s) pc).
Qed.

Section with_socket.
Context `{SK : ListeningSocket} `{MO : MayOverlap}.

(** C6: line framing. From a state with the invariant, handle_msg on a client
    with bytes [cv_in c] in its buffer handles exactly the complete lines of
    these bytes, in order, each with the effect of its request ([lines_effect],
    on the state and on the outside world: if fewer than [parallel] processes
    run, make the output file and fork a child that does what the request says,
    else queue it; an interrupt removes the queued requests with its id and
    sends SIGKILL to the processes with it, in order; a parallel command
    changes the limit for the lines after it), and keeps exactly the bytes
    after the last newline for the next read. It stops early only with exit,
    for lack of memory, or in the undefined memcpy of have_taken, and in the
    last way exactly when it gets to the end with more bytes after the last
    newline than before. *)
Theorem handle_msg_framing own k v s cs1 c cs2 :
  inv own k v s → v_clients v = cs1 ++ c :: cs2 →
  wp (any_stop (MO := lines_overlap (cv_in c))) (handle_msg (cv_addr c) (cv_fd c)) (λ _ s',
    ∃ v1 cs1' c' cs2',
      ¬ lines_overlap (cv_in c) ∧
      lines_effect (cv_fd c) (u_current_dir s) (split_lines (cv_in c)).1
        (g_parallel (u_env s), (v, u_world s)) (g_parallel (u_env s'), (v1, u_world s')) ∧
      v_clients v1 = cs1' ++ c' :: cs2' ∧ same_in c c' ∧
      inv own k (with_clients v1 (cs1' ++ with_in c' (split_lines (cv_in c)).2 :: cs2')) s') s.
Proof.
  intros Hi Hv. eapply (wpu_handle_msg (MO := lines_overlap (cv_in c))); [done..|].
  intros v1 v' cs1' c' cs2' s' Ho Hl Hv1 Hs _ -> Hi'. by exists v1, cs1', c', cs2'.
Qed.

(** C7: scheduling. From a state with the invariant, schedule_new_jobs starts
    requests in the order of the queue, each as a child that does what the
    request says ([started]), and calls the system for nothing else;
    afterwards the number of processes does not exceed the larger of
    [parallel] and what it was, and either [parallel] processes run or the
    queue is empty. *)
Theorem schedule_new_jobs_correct own k v s :
  inv own k v s →
  wp any_stop schedule_new_jobs (λ _ s',
    ∃ v', inv own k v' s' ∧
      schedules (g_parallel (u_env s)) (u_current_dir s) (v, u_world s) (v', u_world s') ∧
      list_length (u_processes s') ≤ Z.max (g_parallel (u_env s)) (list_length (u_processes s)) ∧
      (g_parallel (u_env s) ≤ list_length (u_processes s') ∨ queue_is_empty (u_queue s') = true)) s.
Proof.
  intros Hi. eapply wpu_schedule_new_jobs; [done|]. intros v' s' Hi' Hs _. exists v'.
  destruct (schedules_limit _ _ _ _ Hs) as [Hlim Hend].
  rewrite (list_rep_len _ _ (i_procs _ _ _ _ Hi)), (list_rep_len _ _ (i_procs _ _ _ _ Hi')), !length_fmap.
  rewrite (queue_rep_empty _ _ (i_queue _ _ _ _ Hi')), bool_decide_eq_true. simpl in *.
  split_and!; [done|done|lia|]. destruct Hend; [left; lia|by right].
Qed.

(** C8: finished children. From a state with the invariant,
    handle_child_events calls wait3 until it returns no child, and for every
    child that it returns, in order ([reaped]): the process with its pid leaves
    the list, and its client, when still connected, gets the message with the
    exit code or the signal, the CPU time, the timeout flag and the output
    file of this child. The queue, [parallel] and the directory stay, and
    nothing else is asked of the system. *)
Theorem handle_child_events_correct own k v s :
  inv own k v s →
  wp any_stop handle_child_events (λ _ s',
    ∃ v' w, inv own k v' s' ∧
      rtc (λ a b, ∃ x, reaped x a b) (v, u_world s) (v', w) ∧
      os_wait3 w = (None, u_world s') ∧
      v_reqs v' = v_reqs v ∧ config s' = config s) s.
Proof.
  intros Hi. eapply wpu_handle_child_events; [done|]. intros v' w s' Hi' Hr Hw Hcfg. exists v', w.
  split_and!; [done..| |done]. change (v_reqs (v', w).1 = v_reqs (v, u_world s).1). clear -Hr.
  induction Hr as [|a b c [x Hx] _ IH]; [done|]. rewrite IH. by apply reaped_procs in Hx as [_ ?].
Qed.

(** Poll_list_clean keeps exactly the entries in use, each once. *)
Theorem poll_list_clean_correct es s :
  poll_rep (u_poll_list s) (u_poll_num s) (u_poll_len s) es →
  wp any_stop poll_list_clean (λ _ s',
    ∃ l num es', s' = set_poll l num (u_poll_len s) s ∧
      poll_rep l num (u_poll_len s) es' ∧ es' ≡ₚ filter used_entry es) s.
Proof.
  intros Hrep. eapply wpu_poll_list_clean; [done|]. intros l num es' Hr Hp. eauto 10.
Qed.
End with_socket.

(** C17: the length of the message for a finished task. With an id and a file
    name that fit in memory, the message is queued in full when the exit code
    and the time take at most 18 characters together, and otherwise the server
    shuts down; it also shuts down when there is no room for the message. *)
Theorem send_msg_length client id code cpu tmo file s :
  is_live (c_addr id) (g_heap (u_env s)) = true →
  is_live (c_addr file) (g_heap (u_env s)) = true →
  Z.of_nat (length (c_txt id)) ≤ alloc_limit → Z.of_nat (length (c_txt file)) ≤ alloc_limit →
  send_msg_to_client client id code cpu tmo file s =
  if alloc_limit <? Z.of_nat (length (c_str (c_txt id)) + length (c_str (c_txt file)) + 27)
  then shutdown_with_msg "error when allocating client msg" s
  else if (length (dec code) + length cpu <=? 18)%nat
  then (m ← heapU (new_str (finished_text (c_str (c_txt id)) code cpu tmo (c_str (c_txt file))));
        queue_write client m) s
  else (_ ← heapU malloc; shutdown_with_msg "message for client too long") s.
Proof.
  intros Hid Hfile Hlid Hlfile. unfold send_msg_to_client, snprintf.
  rewrite (bind_load id), (bind_load file) by done. unfold strlen. rewrite !c_str_idem.
  fold (finished_text (c_str (c_txt id)) code cpu tmo (c_str (c_txt file))).
  set (txt := finished_text _ _ _ _ _).
  pose proof (length_c_str (c_txt id)). pose proof (length_c_str (c_txt file)). unfold alloc_limit in *.
  rewrite u64_small by (unfold SIZE_MOD; lia). set (len := _ + (_ + 1)).
  assert (length txt = length (c_str (c_txt id)) + length (c_str (c_txt file)) + 8 +
          (length (dec code) + length cpu))%nat as Hlen.
  { unfold txt, finished_text. rewrite !length_app. simpl. change (length (str "F;")) with 2%nat.
    destruct tmo; simpl; lia. }
  clearbody txt. unfold check_msgbuf.
  replace (Z.of_nat (length (c_str (c_txt id)) + length (c_str (c_txt file)) + 27)) with len by lia.
  unfold alloc_limit. destruct (Z.ltb_spec 536870912 len) as [|Hfit]; [apply shutdown_bind|]. destruct (Nat.leb_spec (length (dec code) + length cpu) 18) as [Hle|Hgt].
  - rewrite take_ge by lia.
    assert ((Z.of_nat (length txt) <=? INT_MAX) = true) as -> by (apply Z.leb_le; unfold INT_MAX; lia).
    unfold heapU, on_env, on_heap, zoom, new_str, malloc, mbind, M_bind, mret, M_ret. simpl.
    rewrite (u64_small (Z.of_nat (length txt))) by (unfold SIZE_MOD; lia). by guard_false (len <=? Z.of_nat (length txt)).
  - unfold heapU, on_env, on_heap, zoom, new_str, malloc, mbind, M_bind, mret, M_ret. simpl.
    destruct (Z.leb_spec (Z.of_nat (length txt)) INT_MAX).
    + rewrite (u64_small (Z.of_nat (length txt))) by (unfold SIZE_MOD, INT_MAX in *; lia). by guard_true (len <=? Z.of_nat (length txt)).
    + change (u64 (-1)) with (SIZE_MOD - 1). assert ((len <=? SIZE_MOD - 1) = true) as ->; [|done].
      apply Z.leb_le. unfold SIZE_MOD. lia.
Qed.

(** C18: a failed write wedges the client. When [write] returns -1 for a client
    with a pending message, write_to_client returns with the buffer still
    marked as being written, and the next call of write_to_client for that
    client fails the assertion of prepare_write: the server aborts. *)
Theorem write_error_aborts s s' client cl m ms i :
  u_store s !! client = Some cl → writebuf_rep (cl_writebuf cl) (m :: ms) →
  w_is_writing (cl_writebuf cl) = false → is_live (c_addr m) (g_heap (u_env s)) = true →
  (∀ bs w, (os_write (cl_fd cl) bs w).1 = None) →
  write_to_client client i s = Done tt s' → write_to_client client i s' = Failed Assertion.
Proof.
  intros Hcl Hwb Hw Hlive Hfail. destruct (prepare_write_rep _ _ _ Hwb Hw) as (wb & Hprep & Hwb' & Hw' & _).
  intros Hrun.
  assert (∃ cl', u_store s' !! client = Some cl' ∧ w_is_writing (cl_writebuf cl') = true) as (cl' & Hcl' & Hw2).
  { eapply (wpu_done (MO := True : MayOverlap) _ (λ _ s', ∃ cl', u_store s' !! client = Some cl' ∧ w_is_writing (cl_writebuf cl') = true));
      [|exact Hrun]. unfold write_to_client.
    apply wpu_bind. eapply wpu_client_get; [exact Hcl|]. apply wpu_bind. eapply wpu_ok; [exact Hprep|].
    apply wpu_bind. eapply wpu_client_put; [exact Hcl|]. apply wpu_bind, wpu_heap. intros E _.
    unfold load. apply wp_bind. unfold wp, touch. simpl. rewrite Hlive.
    apply wpu_bind, wpu_sys. intros r w Hr. apply (f_equal fst) in Hr. rewrite Hfail in Hr. simpl in Hr. subst r. apply wpu_bind. unfold wpu at 1, wp, mret, M_ret.
    apply wpu_bind. eapply wpu_client_get; [apply lookup_insert_eq|]. simpl.
    rewrite (writebuf_has_data _ _ Hwb'). simpl. eexists. split; [apply lookup_insert_eq|done]. }
  unfold write_to_client, client_get, mbind, M_bind. rewrite Hcl'.
  unfold lift, prepare_write, assertion, can_write. by rewrite Hw2.
Qed.

End props.

(** ** The program of a child *)

#[local] Arguments free : simpl never.

Section child.
Context {W : Type} `{OL : UnixOSLaws W}.
Implicit Types (s : ust W).

(** C16: create_process. It forks, once, a child with this program: limit the
    CPU time to [tl] seconds if [tl] is positive, the memory to [ml] megabytes
    if [ml] is, and the core file to nothing if one of them is; for a runstdin
    request, open the last argument as standard input; send both outputs to
    [outfile]; execute the command with itself, the arguments (all but the
    last one for runstdin) and NULL. The parent returns the pid, and its heap
    has exactly the blocks it had; when the fork fails the server shuts down.
    The child of a runstdin request without arguments reads outside the
    argument array. *)
Theorem create_process_correct L own cmd args stdin outfile tl ml s :
  heap_own (Some L) (g_heap (u_env s)) own →
  Z.of_nat (length args) + 2 ≤ alloc_limit → ml ≤ INT_MAX →
  let limits :=
    (if 0 <? tl then [ChSetrlimit RLIMIT_CPU tl tl] else []) ++
    (if 0 <? ml then [ChSetrlimit RLIMIT_AS (ml * 1048576) (ml * 1048576)] else []) ++
    (if (0 <? tl) || (0 <? ml) then [ChSetrlimit RLIMIT_CORE 0 0] else []) in
  let exec l := [ChDup2 outfile 1; ChDup2 outfile 2; ChExec cmd (Some cmd :: (Some <$> l) ++ [None])] in
  let program :=
    match stdin, last args with
    | false, _ => Ok (limits ++ exec args)
    | true, Some file => Ok (limits ++ ChOpenStdin file :: exec (take (length args - 1) args))
    | true, None => Fail Undefined
    end in
  let '(pid, w) := os_fork program (u_world s) in
  ∃ h1 h2, heap_own (Some L) h2 own ∧
    create_process cmd (Z.of_nat (length args)) args stdin outfile tl ml s =
    if pid =? -1 then shutdown_with_msg "failed to fork" (set_world w (with_heap h1 s))
    else Done pid (set_world w (with_heap h2 s)).
Proof.
  intros Hh Hlen Hml limits exec program.
  assert (program = child_spec cmd args stdin outfile tl ml) as ->.
  { assert (limits = limits_spec tl ml) as Hl; [|unfold program, exec, child_spec; by rewrite Hl].
    unfold limits, limits_spec. destruct (Z.ltb_spec 0 tl), (Z.ltb_spec 0 ml); repeat (case_decide; try lia); simpl; try done.
    all: by rewrite u64_small by (unfold SIZE_MOD, INT_MAX in *; lia). }
  destruct (os_fork _ (u_world s)) as [pid w] eqn:Hfork.
  pose proof (wp_malloc never _ _ (λ a h1, heap_own (Some L) h1 (a :: own)) Hh (λ _ _ H, H)) as Hh1.
  unfold wp in Hh1. simpl in Hh1. set (blk := h_next (g_heap (u_env s))) in *. set (h1 := Mk_heap _ _) in Hh1.
  pose proof (wp_free never _ _ _ (λ _ h2, heap_own (Some L) h2 own) Hh1 (λ _ H, H)) as Hh2. unfold wp in Hh2.
  destruct (free blk h1) as [[] h2| |[]] eqn:Hfree; try done.
  exists h1, h2. split; [exact Hh2|]. unfold create_process.
  destruct (build_argv_ok cmd args stdin outfile tl ml) as (ua & Hua & Hb); [unfold arg_count; case_match; lia|].
  unfold heapU, on_env, on_heap, zoom, mbind, M_bind, lift, sys. simpl. rewrite Hua. simpl.
  rewrite Hb, Hfork. simpl.
  apply fork_law in Hfork as [_ [[-> _]|(Hpos & _)]]; [by destruct s as [[]]|].
  rewrite (proj2 (Z.eqb_neq pid (-1))), (proj2 (Z.ltb_lt 0 pid)) by lia.
  fold blk h1. change (g_heap _) with h1. by rewrite Hfree.
Qed.
End child.

Definition sample_task : cstr := Mk_cstr 1 (str "7").
Definition sample_file : cstr := Mk_cstr 2 (str "/tmp/why3abc").
Definition sample_two_blocks : ust script :=
  set_env (set_heap (Mk_heap {[1%positive; 2%positive]} 3) initial_genv) (initial_ust (scripted_world [])).

(** A child that reads its last argument, with a limit of 10 seconds and 1000
    megabytes. *)
Lemma create_process_correct_witness :
  let cmd := Mk_cstr 1 (str "cvc4") in
  let v := Mk_cstr 2 (str "-v") in
  let f := Mk_cstr 3 (str "f.smt2") in
  let program :=
    Ok [ChSetrlimit RLIMIT_CPU 10 10; ChSetrlimit RLIMIT_AS 1048576000 1048576000; ChSetrlimit RLIMIT_CORE 0 0;
        ChOpenStdin f; ChDup2 7 1; ChDup2 7 2; ChExec cmd [Some cmd; Some v; None]] in
  let '(pid, w) := os_fork program (u_world sample_two_blocks) in
  ∃ h1 h2, heap_own (Some {[2%positive]}) h2 [1%positive] ∧
    create_process cmd 2 [v; f] true 7 10 1000 sample_two_blocks =
    if pid =? -1 then shutdown_with_msg "failed to fork" (set_world w (with_heap h1 sample_two_blocks))
    else Done pid (set_world w (with_heap h2 sample_two_blocks)).
Proof.
  refine (create_process_correct {[2%positive]} [1%positive] (Mk_cstr 1 (str "cvc4"))
    [Mk_cstr 2 (str "-v"); Mk_cstr 3 (str "f.smt2")] true 7 10 1000 sample_two_blocks _ _ _).
  - split_and!; simpl.
    + intros a Ha%list_elem_of_singleton. subst a. apply (bool_decide_unpack _). vm_compute. exact I.
    + apply NoDup_singleton.
    + intros a. rewrite elem_of_union, !elem_of_singleton. intros [-> | ->]; reflexivity.
    + intros a Ha%list_elem_of_singleton. subst a. apply (bool_decide_unpack _). vm_compute. exact I.
    + apply (bool_decide_unpack _). vm_compute. exact I.
  - by_computation.
  - by_computation.
Defined.

Lemma run_steps_reachable n pc s :
  run_steps n sample_start = Done pc s →
  reachable (λ _, false) sample_opts 5 5 (scripted_world sample_input) pc s.
Proof.
  revert pc s. induction n as [|n IH]; intros pc s; simpl; [apply reach_start|].
  destruct (run_steps n sample_start) as [pc1 s1| |] eqn:Hn; [|done..].
  intros Hstep. eapply reach_step; [by apply IH|done].
Qed.

Lemma sample_reachable :
  reachable (λ _, false) sample_opts 5 5 (scripted_world sample_input) sample_pc sample_state.
Proof. apply (run_steps_reachable 9). vm_compute. reflexivity. Qed.

Definition sock_of (x : out (ust script) main_pc) : Z :=
  match x with Done _ s => u_server_sock s | _ => 0 end.

Lemma sample_start_sock :
  sock_of (main_start (λ _, false) sample_opts 5 5 (initial_ust (scripted_world sample_input))) = listen_fd.
Proof. vm_compute. reflexivity. Qed.

Lemma sample_sock pc0 s0 :
  main_start (λ _, false) sample_opts 5 5 (initial_ust (scripted_world sample_input)) = Done pc0 s0 →
  only_pollin (u_server_sock s0).
Proof.
  intros Hst. pose proof sample_start_sock as Hfd. rewrite Hst in Hfd. simpl in Hfd.
  rewrite Hfd. apply scripted_only_pollin.
Qed.

Lemma server_safety_witness :
  (∃ k v, inv (SK := u_server_sock sample_state) [] k v sample_state) ∧
  (main_step sample_pc sample_state ≠ Failed Assertion ∧
   main_step sample_pc sample_state ≠ Failed Undefined ∧
   (main_step sample_pc sample_state = Failed Overlap → ∃ i, sample_pc = PFor i)) ∧
  (sigchld_handle sample_state ≠ Failed Assertion ∧ sigchld_handle sample_state ≠ Failed Undefined ∧
   sigchld_handle sample_state ≠ Failed Overlap).
Proof.
  refine (server_safety (λ _, false) sample_opts 5 5 (scripted_world sample_input) sample_pc sample_state
    scripted_getcwd _ _ scripted_writes_accepted sample_sock sample_reachable).
  - repeat constructor; discriminate.
  - reflexivity.
Defined.

(** ** Uses on the concrete run *)

#[local] Instance sample_listening : ListeningSocket := u_server_sock sample_state.

Lemma sample_inv : ∃ k v, inv [] k v sample_state.
Proof.
  destruct (reachable_inv (λ _, false) sample_opts 5 5 (scripted_world sample_input) sample_pc sample_state)
    as [_ Hpc]; [exact scripted_getcwd|repeat constructor; discriminate|reflexivity|apply scripted_writes_accepted|
                 apply sample_sock|apply sample_reachable|]. by apply pc_inv_some in Hpc.
Qed.

(** The state has one client, which has sent bytes without a newline. *)
Lemma sample_client k v : inv [] k v sample_state → ∃ c, v_clients v = [] ++ c :: [].
Proof.
  intros Hi. destruct (i_clients _ _ _ _ Hi) as (l & Hl & Hrep).
  assert (match u_clients sample_state with Some l => l_len l | None => 0 end = 1) as Hlen
    by (vm_compute; reflexivity).
  rewrite Hl in Hlen. destruct Hrep as [Hn _]. rewrite length_fmap, Hlen in Hn.
  destruct (v_clients v) as [|c [|]]; simpl in Hn; [lia|by exists c|lia].
Qed.

Lemma handle_msg_framing_witness :
  ∃ k v c, inv [] k v sample_state ∧ v_clients v = [c] ∧
    wp (any_stop (MO := lines_overlap (cv_in c))) (handle_msg (cv_addr c) (cv_fd c)) (λ _ s',
      ∃ v1 cs1' c' cs2',
        ¬ lines_overlap (cv_in c) ∧
        lines_effect (cv_fd c) (u_current_dir sample_state) (split_lines (cv_in c)).1
          (g_parallel (u_env sample_state), (v, u_world sample_state))
          (g_parallel (u_env s'), (v1, u_world s')) ∧
        v_clients v1 = cs1' ++ c' :: cs2' ∧ same_in c c' ∧
        inv [] k (with_clients v1 (cs1' ++ with_in c' (split_lines (cv_in c)).2 :: cs2')) s') sample_state.
Proof.
  destruct sample_inv as (k & v & Hi). destruct (sample_client _ _ Hi) as [c Hc].
  exists k, v, c. split; [exact Hi|]. split; [exact Hc|].
  exact (handle_msg_framing [] k v sample_state [] c [] Hi Hc).
Defined.

Lemma schedule_new_jobs_correct_witness :
  ∃ k v, inv [] k v sample_state ∧
    wp (any_stop (MO := False)) schedule_new_jobs (λ _ s',
      ∃ v', inv [] k v' s' ∧
        schedules (g_parallel (u_env sample_state)) (u_current_dir sample_state)
          (v, u_world sample_state) (v', u_world s') ∧
        list_length (u_processes s') ≤
          Z.max (g_parallel (u_env sample_state)) (list_length (u_processes sample_state)) ∧
        (g_parallel (u_env sample_state) ≤ list_length (u_processes s') ∨
         queue_is_empty (u_queue s') = true)) sample_state.
Proof.
  destruct sample_inv as (k & v & Hi). exists k, v. split; [exact Hi|].
  exact (schedule_new_jobs_correct (MO := False) [] k v sample_state Hi).
Defined.

Lemma handle_child_events_correct_witness :
  ∃ k v, inv [] k v sample_state ∧
    wp (any_stop (MO := False)) handle_child_events (λ _ s',
      ∃ v' w, inv [] k v' s' ∧
        rtc (λ a b, ∃ x, reaped x a b) (v, u_world sample_state) (v', w) ∧
        os_wait3 w = (None, u_world s') ∧
        v_reqs v' = v_reqs v ∧ config s' = config sample_state) sample_state.
Proof.
  destruct sample_inv as (k & v & Hi). exists k, v. split; [exact Hi|].
  exact (handle_child_events_correct (MO := False) [] k v sample_state Hi).
Defined.

Lemma poll_list_clean_correct_witness :
  ∃ es, poll_rep (u_poll_list sample_state) (u_poll_num sample_state) (u_poll_len sample_state) es ∧
    wp (any_stop (MO := False)) poll_list_clean (λ _ s',
      ∃ l num es', s' = set_poll l num (u_poll_len sample_state) sample_state ∧
        poll_rep l num (u_poll_len sample_state) es' ∧ es' ≡ₚ filter used_entry es) sample_state.
Proof.
  destruct sample_inv as (k & v & Hi). exists (v_polls v). pose proof (i_poll _ _ _ _ Hi) as Hp.
  split; [exact Hp|]. exact (poll_list_clean_correct (MO := False) (v_polls v) sample_state Hp).
Defined.


Lemma send_msg_length_witness :
  send_msg_to_client 9 sample_task 0 (str "1.25") false sample_file sample_two_blocks =
  (m ← heapU (new_str (str "F;7;0;1.25;0;/tmp/why3abc" ++ [NEWLINE])); queue_write 9 m) sample_two_blocks.
Proof.
  refine (send_msg_length 9 sample_task 0 (str "1.25") false sample_file sample_two_blocks _ _ _ _);
    [vm_compute; reflexivity | vm_compute; reflexivity | by_computation | by_computation].
Defined.

(** A world where every write fails. *)
Definition failing_os : UnixOS unit := {|
  os_call _ w := (0, w);
  os_enoent _ := false;
  os_getcwd w := (None, w);
  os_fopen_log w := (false, w);
  os_pipe w := (None, w);
  os_accept _ w := (-1, w);
  os_read _ _ w := (None, w);
  os_write _ _ w := (None, w);
  os_pipe_read _ w := (PipeError, w);
  os_pipe_write _ w := (PipeError, w);
  os_mkstemp t w := ((-1, t), w);
  os_fork _ w := (-1, w);
  os_wait3 w := (None, w);
  os_poll _ w := (PollError, w);
|}.

Definition sample_pending : t_client :=
  Mk_client 5 (Mk_readbuf [] 0 0) (Mk_writebuf (Some sample_task) 1 0 false (Mk_queue [None] 0 0 1)).
Definition sample_wedged : ust unit :=
  Mk_ust (set_heap (Mk_heap {[1%positive]} 2) initial_genv) (Mk_queue [] 0 0 0) (Mk_list [] [] 0 0) None
    {[9%positive := sample_pending]} [] 0 0 (-1) (0, 0) None tt.

Lemma write_error_aborts_witness :
  let s' := match write_to_client (OS := failing_os) 9 0 sample_wedged with
            | Done _ s' => s' | _ => sample_wedged end in
  write_to_client (OS := failing_os) 9 0 s' = Failed Assertion.
Proof.
  refine (write_error_aborts (H := failing_os) sample_wedged _ 9 sample_pending sample_task [] 0 _ _ _ _ _ _).
  - vm_compute. reflexivity.
  - split; [constructor; [apply (bool_decide_unpack _); vm_compute; exact I|constructor]|].
    split_and!; simpl; try reflexivity; try (vm_compute; intros; discriminate).
    all: try done; intros [] ?; done.
  - reflexivity.
  - vm_compute. reflexivity.
  - reflexivity.
  - vm_compute. reflexivity.
Defined.
