(* ===== verification/ServerProgress.v ===== *)
(** * Progress of the Unix server

    When the server waits in [poll], no slot is free that a queued request
    could have: it waits with requests in the queue only while [parallel]
    children run, whose ends wake it up. *)

From S2P Require Import Prelude CMem ArrayList Queue ReadBuf WriteBuf Env Request Proc UnixOS Messages ServerUnix ServerInv ServerHandlers ServerLoop ScriptedOS ServerUnixProps.

(** What a step that ended has done first. *)
Lemma bind_done_inv {S A C} (k : M S A) (f : A → M S C) s c s' :
  (k ≫= f) s = Done c s' → ∃ a s1, k s = Done a s1 ∧ f a s1 = Done c s'.
Proof. unfold mbind, M_bind. destruct (k s); naive_solver. Qed.

Section progress.
Context {W : Type} `{OL : UnixOSLaws W}.
Implicit Types (s : ust W).

(** Every process that may run does, or no request waits. *)
Definition busy (s : ust W) : Prop :=
  g_parallel (u_env s) ≤ list_length (u_processes s) ∨ queue_is_empty (u_queue s) = true.

(** At the control point before [poll]. *)
Definition busy_at (pc : main_pc) (s : ust W) : Prop := match pc with PPoll => busy s | _ => True end.

Lemma busy_inv `{SK : ListeningSocket} own k v s :
  inv own k v s → (busy s ↔ g_parallel (u_env s) ≤ Z.of_nat (length (v_procs v)) ∨ v_reqs v = []).
Proof.
  intros Hi. unfold busy. by rewrite (list_rep_len _ _ (i_procs _ _ _ _ Hi)), length_fmap, (queue_rep_empty _ _ (i_queue _ _ _ _ Hi)), bool_decide_eq_true.
Qed.

Lemma busy_schedule `{SK : ListeningSocket} `{MO : MayOverlap} k v s : inv [] k v s → wpu (main_step PTop) busy_at s.
Proof.
  intros Hi. unfold main_step. apply wpu_bind. eapply wpu_schedule_new_jobs; [exact Hi|]. intros v1 s1 Hi1 Hs [= Hpar _].
  apply wpu_bind. eapply wpu_poll_list_clean; [apply Hi1|]. intros l num es _ _. apply wp_ret. unfold busy_at. change (busy s1).
  apply (busy_inv _ _ _ _ Hi1). rewrite Hpar. by destruct (schedules_limit _ _ _ _ Hs).
Qed.

Lemma shutdown_never_done {A} msg s (a : A) s' : shutdown_with_msg msg s ≠ Done a s'.
Proof.
  unfold shutdown_with_msg. intros E. do 4 apply bind_done_inv in E as (? & ? & _ & E). unfold on_env, zoom in E. destruct (logging_shutdown _ _) eqn:El; [|done..].
  unfold logging_shutdown in El. do 2 apply bind_done_inv in El as (? & ? & _ & El). done.
Qed.

(** The other steps lead to [poll] only from [poll] itself, interrupted. *)
Lemma busy_poll s pc' s' : busy s → main_step PPoll s = Done pc' s' → busy_at pc' s'.
Proof.
  intros Hb E. unfold main_step in E. apply bind_done_inv in E as (s0 & s1 & E0 & E). injection E0 as <- <-.
  apply bind_done_inv in E as (es & s2 & E1 & E). unfold lift in E1. destruct (poll_entries _ _ _); [|done]. injection E1 as -> <-.
  apply bind_done_inv in E as (r & s3 & E2 & E). unfold sys in E2. destruct (os_poll _ _) as [r' w]. injection E2 as <- <-.
  destruct r' as [rs| |]; [| |by apply shutdown_never_done in E].
  - apply bind_done_inv in E as (l & s4 & _ & E). apply bind_done_inv in E as ([] & s5 & _ & E). by injection E as <- _.
  - injection E as <- <-. exact Hb.
Qed.

Lemma busy_later i s pc' s' : main_step (PFor i) s = Done pc' s' ∨ main_step (PPipe i) s = Done pc' s' → busy_at pc' s'.
Proof.
  unfold main_step. intros [E|E]; apply bind_done_inv in E as (s0 & s1 & _ & E).
  - destruct (_ <? _); [|by injection E as <- _]. apply bind_done_inv in E as (e & s2 & _ & E). destruct (_ =? 0); [by injection E as <- _|].
    destruct (_ =? _); [by injection E as <- _|]. destruct (_ =? _).
    + do 2 apply bind_done_inv in E as (? & ? & _ & E). by injection E as <- _.
    + apply bind_done_inv in E as (? & ? & _ & E). by injection E as <- _.
  - apply bind_done_inv in E as (r & s2 & _ & E). destruct r; [|by injection E as <- _|by apply shutdown_never_done in E..].
    apply bind_done_inv in E as (? & ? & _ & E). by injection E as <- _.
Qed.

Lemma busy_sigchld pc s s' : busy_at pc s → sigchld_handle s = Done tt s' → busy_at pc s'.
Proof.
  intros Hb E. unfold sigchld_handle in E. apply bind_done_inv in E as (p & s1 & E1 & E). injection E1 as <- <-. apply bind_done_inv in E as (r & s2 & E2 & E).
  unfold sys in E2. destruct (os_pipe_write _ _) as [r' w]. injection E2 as <- <-. destruct r'; [injection E as <-..|by apply shutdown_never_done in E]; by destruct pc.
Qed.

Lemma reachable_busy einval opts optind argc w0 pc s :
  getcwd_succeeds → no_logging opts → os_children w0 = ∅ → writes_accepted →
  (∀ pc0 s0, main_start einval opts optind argc (initial_ust w0) = Done pc0 s0 → only_pollin (u_server_sock s0)) →
  reachable einval opts optind argc w0 pc s → busy_at pc s.
Proof.
  intros Hcwd Hopts Hch Hw Hsock. induction 1 as [pc s Hst|pc s pc' s' Hr IH Hstep|pc s s' _ IH Hsig]; [| |by eapply busy_sigchld].
  - unfold main_start in Hst. do 3 apply bind_done_inv in Hst as (? & ? & _ & Hst). by injection Hst as <- _.
  - destruct pc; [|by eapply busy_poll|eapply busy_later; eauto..].
    destruct (reachable_inv _ _ _ _ _ _ _ Hcwd Hopts Hch Hw Hsock Hr) as [_ (k & v & Hi)]. by eapply (wpu_done (MO := False)), Hstep; eapply busy_schedule.
Qed.

(** C2: no idle slot. Whenever the Unix server is about to wait in [poll], in
    any state that it can reach from its start without --logging when getcwd
    succeeds, writes to clients do not fail and the listening socket reports
    only POLLIN, either no request is queued or at least
    [parallel] processes of its list run; each of them is a child of the
    system that has not been waited for, so that while a request is queued
    there is a child whose end will wake the server up. *)
Theorem no_idle_slot einval opts optind argc w0 s :
  getcwd_succeeds → no_logging opts → os_children w0 = ∅ → writes_accepted →
  (∀ pc0 s0, main_start einval opts optind argc (initial_ust w0) = Done pc0 s0 → only_pollin (u_server_sock s0)) →
  reachable einval opts optind argc w0 PPoll s →
  busy s ∧ list_length (u_processes s) = Z.of_nat (size (os_children (u_world s))) ∧
  (queue_is_empty (u_queue s) = false → os_children (u_world s) ≠ ∅).
Proof.
  intros Hcwd Hopts Hch Hw Hsock Hr. pose proof (reachable_busy _ _ _ _ _ _ _ Hcwd Hopts Hch Hw Hsock Hr) as Hb. unfold busy_at in Hb.
  destruct (reachable_inv _ _ _ _ _ _ _ Hcwd Hopts Hch Hw Hsock Hr) as [_ (k & v & Hi)].
  assert (list_length (u_processes s) = Z.of_nat (size (os_children (u_world s)))) as Hlen.
  { rewrite (list_rep_len _ _ (i_procs _ _ _ _ Hi)), length_fmap. f_equal. rewrite <- (length_fmap p_os), <- (size_list_to_set (C := gset Z)) by apply (i_pids _ _ _ _ Hi).
    f_equal. apply set_eq. intros pid. by rewrite elem_of_list_to_set, (i_children _ _ _ _ Hi). }
  split_and!; [done|done|]. intros Hq Hno. rewrite Hno, size_empty in Hlen. pose proof (i_parallel _ _ _ _ Hi). destruct Hb as [?|?]; [lia|congruence].
Qed.
End progress.

(** ** A concrete run: three requests for two slots *)

Definition crowded_input : list bytes :=
  [str "run;7;5;1000;z3;-v" ++ [NEWLINE] ++ str "run;8;5;1000;z3;-v" ++ [NEWLINE] ++ str "run;9;0;0;cvc4;f" ++ [NEWLINE]].
Definition crowded_start : out (ust script) main_pc :=
  main_start (λ _, false) sample_opts 5 5 (initial_ust (scripted_world crowded_input)).
Definition crowded_result : out (ust script) main_pc := Eval vm_compute in run_steps 16 crowded_start.
Definition crowded_state : ust script :=
  match crowded_result with Done _ s => s | _ => initial_ust (scripted_world []) end.

Lemma crowded_steps n pc s :
  run_steps n crowded_start = Done pc s → reachable (λ _, false) sample_opts 5 5 (scripted_world crowded_input) pc s.
Proof.
  revert pc s. induction n as [|n IH]; intros pc s; simpl; [apply reach_start|].
  destruct (run_steps n crowded_start) as [pc1 s1| |] eqn:Hn; [|done..]. intros Hstep. eapply reach_step; [by apply IH|done].
Qed.

Lemma crowded_reachable : reachable (λ _, false) sample_opts 5 5 (scripted_world crowded_input) PPoll crowded_state.
Proof. apply (crowded_steps 16). vm_compute. reflexivity. Qed.

Lemma crowded_start_sock :
  sock_of (main_start (λ _, false) sample_opts 5 5 (initial_ust (scripted_world crowded_input))) = listen_fd.
Proof. vm_compute. reflexivity. Qed.

Lemma crowded_sock pc0 s0 :
  main_start (λ _, false) sample_opts 5 5 (initial_ust (scripted_world crowded_input)) = Done pc0 s0 → only_pollin (u_server_sock s0).
Proof.
  intros Hst. pose proof crowded_start_sock as Hfd. rewrite Hst in Hfd. simpl in Hfd.
  rewrite Hfd. apply scripted_only_pollin.
Qed.

Lemma no_idle_slot_witness :
  busy crowded_state ∧ list_length (u_processes crowded_state) = 2 ∧ os_children (u_world crowded_state) ≠ ∅.
Proof.
  destruct (no_idle_slot (λ _, false) sample_opts 5 5 (scripted_world crowded_input) crowded_state) as (Hb & _ & Hc).
  - exact scripted_getcwd.
  - repeat constructor; discriminate.
  - reflexivity.
  - apply scripted_writes_accepted.
  - exact crowded_sock.
  - exact crowded_reachable.
  - split; [exact Hb|]. split; [reflexivity|]. apply Hc. reflexivity.
Defined.
