(* ===== verification/CmdLine.v ===== *)
(** * Command lines on Windows (src/server/server-win.c, src/server/cpulimit-win.c)

    Strings built in place in arrays of characters, as strcpy and strcat do,
    and the two command-line builders: the quoting loop of run_request into
    [cmd[4096]] and the concatenation of cpulimit. The specification of the
    first is [msvc_args], the documented way in which a C program on Windows
    splits its command line into arguments. *)

From S2P Require Import Prelude CMem.

Definition QUOTE : ascii := "034"%char.
Definition BACKSLASH : ascii := "\"%char.
Definition SPACE : ascii := " "%char.
Definition TAB : ascii := "009"%char.

(** ** Strings in arrays *)

Abbreviation chars := (list (option ascii)).

Fixpoint write_at (buf : chars) (i : Z) (bs : bytes) : res chars :=
  match bs with
  | [] => mret buf
  | c :: bs' => buf ← arr_set buf i c; write_at buf (i + 1) bs'
  end.

(** [strlen(buf)]. *)
Fixpoint buf_strlen_from (buf : chars) (i : Z) (n : nat) : res Z :=
  match n with
  | O => Fail Undefined
  | S n' => c ← arr_get buf i; if bool_decide (c = NUL) then mret i else buf_strlen_from buf (i + 1) n'
  end.
Definition buf_strlen (buf : chars) : res Z := buf_strlen_from buf 0 (length buf).

Definition strcpy (buf : chars) (s : bytes) : res chars := write_at buf 0 (c_str s ++ [NUL]).
Definition strcat (buf : chars) (s : bytes) : res chars :=
  n ← buf_strlen buf; write_at buf n (c_str s ++ [NUL]).

(** The text up to the NUL, as a function that takes the array reads it. *)
Definition buf_text (buf : chars) : res bytes := n ← buf_strlen buf; slice buf 0 n.

(** ** The quoting of run_request *)

Definition CMD_SIZE : Z := 4096.

(** The loop that looks for a space or a double quote. *)
Fixpoint has_special (ca : bytes) : bool :=
  match ca with
  | [] => false
  | c :: ca' => if bool_decide (c = SPACE) || bool_decide (c = QUOTE) then true else has_special ca'
  end.

Definition need_quote (ca : bytes) : bool := if 0 <? strlen ca then has_special ca else true.

(** [for (int j = ...; j >= 0 && ca[j] == '\\'; j--) cmd[cl_index++] = '\\';]
    starting at [j = n - 1]. *)
Fixpoint dup_backslashes (ca : bytes) (n : nat) (cmd : chars) (cl_index : Z) : res (chars * Z) :=
  match n with
  | O => mret (cmd, cl_index)
  | S j =>
      if bool_decide (ca !! j = Some BACKSLASH) then
        cmd ← arr_set cmd cl_index BACKSLASH;
        dup_backslashes ca j cmd (cl_index + 1)
      else mret (cmd, cl_index)
  end.

(** The body of the loop over the characters, for the character [c] at
    [ca_index]. *)
Definition quote_char (ca : bytes) (ca_index : nat) (c : ascii) (cmd : chars) (cl_index : Z)
    : res (chars * Z) :=
  if bool_decide (c = QUOTE) then
    '(cmd, cl_index) ←
      (if (0 <? Z.of_nat ca_index) && bool_decide (ca !! (ca_index - 1)%nat = Some BACKSLASH)
       then dup_backslashes ca ca_index cmd cl_index
       else mret (cmd, cl_index));
    cmd ← arr_set cmd cl_index BACKSLASH;
    cmd ← arr_set cmd (cl_index + 1) QUOTE;
    mret (cmd, cl_index + 2)
  else
    cmd ← arr_set cmd cl_index c;
    if bool_decide (c = BACKSLASH) && (ca_index + 1 =? length ca)%nat
    then dup_backslashes ca (S ca_index) cmd (cl_index + 1)
    else mret (cmd, cl_index + 1).

(** The loop, from [ca_index] on. *)
Fixpoint quote_chars (ca : bytes) (ca_index n : nat) (cmd : chars) (cl_index : Z) : res (chars * Z) :=
  match n with
  | O => mret (cmd, cl_index)
  | S n' =>
      match ca !! ca_index with
      | None => Fail Undefined
      | Some c =>
          '(cmd, cl_index) ← quote_char ca ca_index c cmd cl_index;
          quote_chars ca (S ca_index) n' cmd cl_index
      end
  end.

(** One turn of the loop over the arguments. *)
Definition append_arg (cmd : chars) (arg : bytes) : res chars :=
  let ca := c_str arg in
  if need_quote ca then
    cl_index ← buf_strlen cmd;
    cmd ← arr_set cmd cl_index QUOTE;
    '(cmd, cl_index) ← quote_chars ca 0 (length ca) cmd (cl_index + 1);
    cmd ← arr_set cmd cl_index QUOTE;
    cmd ← arr_set cmd (cl_index + 1) SPACE;
    arr_set cmd (cl_index + 2) NUL
  else
    cmd ← strcat cmd ca;
    strcat cmd [SPACE].

Fixpoint append_args (cmd : chars) (args : list bytes) (k n : nat) : res chars :=
  match n with
  | O => mret cmd
  | S n' =>
      match args !! k with
      | None => Fail Undefined
      | Some a => cmd ← append_arg cmd a; append_args cmd args (S k) n'
      end
  end.

(** The part of run_request that fills [cmd]; [argcount] arguments are
    passed on. *)
Definition build_cmd (r_cmd : bytes) (args : list bytes) (argcount : Z) : res chars :=
  cmd ← arr_alloc CMD_SIZE;
  cmd ← strcpy cmd r_cmd;
  cmd ← strcat cmd [SPACE];
  append_args cmd args 0 (Z.to_nat argcount).

(** ** The concatenation of cpulimit *)

(** The length computed for the block, an [unsigned long] of 32 bits. *)
Fixpoint cmdline_size (args : list bytes) (s : Z) : Z :=
  match args with
  | [] => s
  | a :: args' => cmdline_size args' (u32 (s + u32 (strlen a + 3)))
  end.

Fixpoint concat_args (p : chars) (args : list bytes) : res chars :=
  match args with
  | [] => mret p
  | a :: args' =>
      p ← strcat p [QUOTE];
      p ← strcat p a;
      p ← strcat p [QUOTE];
      p ← (match args' with [] => mret p | _ => strcat p [SPACE] end);
      concat_args p args'
  end.

(** ** Reference: how a program finds its arguments *)

Definition is_blank (c : ascii) : bool := bool_decide (c = SPACE) || bool_decide (c = TAB).

(** The rules of the Microsoft C runtime after the program name. [bs] is the
    number of backslashes just read, [inq] whether inside a quoted part and
    [cur] the argument being read, if any. 2n backslashes before a double quote
    stand for n backslashes, and the quote opens or closes a quoted part (or,
    doubled inside one, stands for itself); 2n+1 backslashes before it stand
    for n backslashes and a quote; other backslashes stand for themselves. *)
Fixpoint msvc_split (s : bytes) (bs : nat) (inq : bool) (cur : option bytes) : list bytes :=
  let text := default [] cur in
  match s with
  | [] =>
      match cur, bs with
      | None, O => []
      | _, _ => [text ++ replicate bs BACKSLASH]
      end
  | c :: s' =>
      if bool_decide (c = BACKSLASH) then msvc_split s' (S bs) inq (Some text)
      else if bool_decide (c = QUOTE) then
        let text := text ++ replicate (bs / 2) BACKSLASH in
        if Nat.odd bs then msvc_split s' O inq (Some (text ++ [QUOTE]))
        else match s' with
             | c' :: s'' =>
                 if inq && bool_decide (c' = QUOTE) then msvc_split s'' O inq (Some (text ++ [QUOTE]))
                 else msvc_split s' O (negb inq) (Some text)
             | [] => msvc_split s' O (negb inq) (Some text)
             end
      else if is_blank c && negb inq then
        match cur, bs with
        | None, O => msvc_split s' O false None
        | _, _ => (text ++ replicate bs BACKSLASH) :: msvc_split s' O false None
        end
      else msvc_split s' O inq (Some (text ++ replicate bs BACKSLASH ++ [c]))
  end.

(** The program name ends at the first blank. *)
Fixpoint msvc_args_from (s : bytes) (name : bytes) : list bytes :=
  match s with
  | [] => [name]
  | c :: s' => if is_blank c then name :: msvc_split s' O false None
               else msvc_args_from s' (name ++ [c])
  end.
Definition msvc_args (s : bytes) : list bytes := msvc_args_from s [].

(** ** Specification of the text *)

(** The escaped characters of an argument, with [bs] backslashes just before. *)
Fixpoint quoted_from (bs : nat) (ca : bytes) : bytes :=
  match ca with
  | [] => replicate bs BACKSLASH
  | c :: ca' =>
      if bool_decide (c = QUOTE) then replicate bs BACKSLASH ++ [BACKSLASH; QUOTE] ++ quoted_from 0 ca'
      else if bool_decide (c = BACKSLASH) then c :: quoted_from (S bs) ca'
      else c :: quoted_from 0 ca'
  end.

Definition quoted (ca : bytes) : bytes :=
  if need_quote ca then QUOTE :: quoted_from 0 ca ++ [QUOTE; SPACE] else ca ++ [SPACE].

Definition cmd_text (r_cmd : bytes) (args : list bytes) : bytes :=
  r_cmd ++ [SPACE] ++ concat (quoted <$> args).

(** The text of cpulimit: every argument between double quotes, spaces between
    them. *)
Fixpoint winlimit_text (args : list bytes) : bytes :=
  match args with
  | [] => []
  | a :: args' =>
      QUOTE :: c_str a ++ [QUOTE] ++ (match args' with [] => [] | _ => [SPACE] end) ++ winlimit_text args'
  end.

Example cmd_text_ex :
  msvc_args (cmd_text (str "z3") [str "-in"; str "a b\"; QUOTE :: str "x\"; []; str "c:\d"]) =
  [str "z3"; str "-in"; str "a b\"; QUOTE :: str "x\"; []; str "c:\d"].
Proof. vm_compute. reflexivity. Qed.

(** ** Appending to a buffer *)

(** [m] started on a buffer whose first cells are [pre] appends [bs] to them,
    or writes outside the buffer when there is no room. *)
Definition emits (m : chars → Z → res (chars * Z)) (bs : bytes) : Prop :=
  ∀ pre rest, m (pre ++ rest) (Z.of_nat (length pre)) =
    if (length bs <=? length rest)%nat
    then Ok (pre ++ (Some <$> bs) ++ drop (length bs) rest, Z.of_nat (length pre) + Z.of_nat (length bs))
    else Fail Undefined.

Lemma emits_nil : emits (λ cmd i, mret (cmd, i)) [].
Proof. intros pre rest. simpl. by rewrite Z.add_0_r. Qed.

Lemma emits_put c : emits (λ cmd i, cmd ← arr_set cmd i c; mret (cmd, i + 1)) [c].
Proof.
  intros pre rest. destruct rest as [|o rest]; simpl.
  - unfold arr_set. rewrite app_nil_r. by guard_false ((0 <=? Z.of_nat (length pre)) && (Z.of_nat (length pre) <? Z.of_nat (length pre))).
  - rewrite arr_set_ok by (rewrite length_app; simpl; lia). simpl.
    replace (Z.to_nat (Z.of_nat (length pre))) with (length pre + 0)%nat by lia. by rewrite insert_app_r.
Qed.

Lemma emits_bind m1 m2 b1 b2 :
  emits m1 b1 → emits m2 b2 → emits (λ cmd i, '(cmd, i) ← m1 cmd i; m2 cmd i) (b1 ++ b2).
Proof.
  intros H1 H2 pre rest. rewrite H1, length_app. destruct (Nat.leb_spec (length b1) (length rest)) as [Hle|Hgt].
  - simpl. pose proof (H2 (pre ++ (Some <$> b1)) (drop (length b1) rest)) as Hm.
    rewrite <- app_assoc, !length_app, length_fmap, Nat2Z.inj_add in Hm. rewrite Hm, length_drop.
    destruct (Nat.leb_spec (length b2) (length rest - length b1)), (Nat.leb_spec (length b1 + length b2) (length rest));
      try lia; [|done].
    rewrite fmap_app, <- !app_assoc, drop_drop. by rewrite Nat2Z.inj_add, Z.add_assoc.
  - simpl. by destruct (Nat.leb_spec (length b1 + length b2) (length rest)); [lia|].
Qed.

Lemma emits_ext m1 m2 b1 b2 :
  emits m1 b1 → (∀ cmd i, m1 cmd i = m2 cmd i) → b1 = b2 → emits m2 b2.
Proof. intros H1 Hm <- pre rest. by rewrite <- Hm. Qed.

(** The number of backslashes at the end of the first [n] characters. *)
Fixpoint run_before (ca : bytes) (n : nat) : nat :=
  match n with
  | O => O
  | S j => if bool_decide (ca !! j = Some BACKSLASH) then S (run_before ca j) else O
  end.

Lemma dup_backslashes_emits ca n : emits (dup_backslashes ca n) (replicate (run_before ca n) BACKSLASH).
Proof.
  induction n as [|j IH]; simpl; [apply emits_nil|].
  case_bool_decide; [|apply emits_nil].
  eapply emits_ext; [apply (emits_bind _ _ [BACKSLASH] _ (emits_put BACKSLASH) IH)| |done].
  intros cmd i. simpl. by destruct (arr_set cmd i BACKSLASH).
Qed.

Lemma emits_two c d :
  emits (λ cmd i, cmd ← arr_set cmd i c; cmd ← arr_set cmd (i + 1) d; mret (cmd, i + 2)) [c; d].
Proof.
  eapply emits_ext; [apply (emits_bind _ _ [c] [d] (emits_put c) (emits_put d))| |done].
  intros cmd i. simpl. destruct (arr_set cmd i c) as [cmd1|]; simpl; [|done].
  destruct (arr_set cmd1 (i + 1) d); simpl; [|done]. unfold mret, res_ret. do 2 f_equal. lia.
Qed.

Lemma quote_char_emits ca i c :
  ca !! i = Some c →
  emits (quote_char ca i c)
    (if bool_decide (c = QUOTE) then replicate (run_before ca i) BACKSLASH ++ [BACKSLASH; QUOTE]
     else c :: (if bool_decide (c = BACKSLASH) && (i + 1 =? length ca)%nat
                then replicate (S (run_before ca i)) BACKSLASH else [])).
Proof.
  intros Hc. unfold quote_char. destruct (decide (c = QUOTE)) as [->|Hq].
  - rewrite (bool_decide_eq_true_2 (QUOTE = QUOTE)) by done.
    refine (emits_bind _ _ _ [BACKSLASH; QUOTE] _ (emits_two _ _)).
    destruct i as [|i]; [apply emits_nil|]. replace (0 <? Z.of_nat (S i)) with true by done.
    rewrite andb_true_l. replace (S i - 1)%nat with i by lia. case_bool_decide as Hb.
    + apply (dup_backslashes_emits ca (S i)).
    + simpl. rewrite bool_decide_eq_false_2 by done. apply emits_nil.
  - rewrite !(bool_decide_eq_false_2 (c = QUOTE)) by done. destruct (_ && _) eqn:Hb.
    + apply andb_true_iff in Hb as [Hb _]. apply bool_decide_eq_true in Hb. subst c.
      eapply emits_ext; [apply (emits_bind _ _ [BACKSLASH] _ (emits_put _) (dup_backslashes_emits ca (S i)))| |].
      * intros cmd j. simpl. by destruct (arr_set cmd j BACKSLASH).
      * simpl. by rewrite bool_decide_eq_true_2.
    + apply emits_put.
Qed.

(** The characters from [i] on come out escaped; at the end nothing is left. *)
Lemma quote_chars_emits ca i n :
  (i + n = length ca)%nat →
  emits (quote_chars ca i n) (if decide (n = O) then [] else quoted_from (run_before ca i) (drop i ca)).
Proof.
  revert i. induction n as [|n IH]; intros i Hn; simpl; [apply emits_nil|].
  destruct (lookup_lt_is_Some_2 ca i) as [c Hc]; [lia|]. rewrite Hc, (drop_S _ _ _ Hc).
  eapply emits_ext; [apply (emits_bind _ _ _ _ (quote_char_emits ca i c Hc) (IH (S i) ltac:(lia)))|done|].
  simpl. rewrite Hc. assert (n = O → drop (S i) ca = []) as Hend by (intros ->; apply drop_ge; lia).
  assert (n ≠ O → (i + 1 =? length ca)%nat = false) as Hmid by (intros; apply Nat.eqb_neq; lia).
  assert (n = O → (i + 1 =? length ca)%nat = true) as Hlast by (intros; apply Nat.eqb_eq; lia).
  destruct (decide (c = QUOTE)) as [->|Hq].
  - rewrite (bool_decide_eq_true_2 (QUOTE = QUOTE)), (bool_decide_eq_false_2 (Some QUOTE = Some BACKSLASH)) by done.
    rewrite <- app_assoc. simpl. do 3 f_equal. case_decide as Hz; [by rewrite (Hend Hz)|done].
  - rewrite !(bool_decide_eq_false_2 (c = QUOTE)) by done. destruct (decide (c = BACKSLASH)) as [->|Hb].
    + rewrite !bool_decide_eq_true_2 by done. simpl. f_equal. case_decide as Hz.
      * rewrite (Hend Hz), (Hlast Hz). by rewrite app_nil_r.
      * by rewrite (Hmid Hz).
    + rewrite !bool_decide_eq_false_2 by congruence. simpl. f_equal. case_decide as Hz; [by rewrite (Hend Hz)|done].
Qed.

(** ** Strings in buffers *)

(** The buffer holds the string [txt], of which [room] more characters fit. *)
Definition holds_str (buf : chars) (txt : bytes) (room : nat) : Prop :=
  no_nul txt ∧ ∃ rest, buf = (Some <$> txt) ++ Some NUL :: rest ∧ length rest = room.

Lemma holds_str_length buf txt room : holds_str buf txt room → length buf = (length txt + room + 1)%nat.
Proof. intros (_ & rest & -> & <-). rewrite length_app, length_fmap. simpl. lia. Qed.

Lemma buf_strlen_from_holds txt rest pre n :
  no_nul txt → (length txt < n)%nat →
  buf_strlen_from (pre ++ (Some <$> txt) ++ Some NUL :: rest) (Z.of_nat (length pre)) n =
  Ok (Z.of_nat (length pre + length txt)).
Proof.
  revert pre n. induction txt as [|c txt IH]; intros pre n Hn Hlt; (destruct n as [|n]; [simpl in *; lia|]); cbn [buf_strlen_from].
  - simpl. rewrite (arr_get_ok _ _ NUL); [|lia|rewrite Nat2Z.id, list_lookup_middle; done]. simpl.
    unfold mret, res_ret. do 2 f_equal. lia.
  - unfold no_nul in Hn. rewrite not_elem_of_cons in Hn. destruct Hn as [Hc Hn].
    rewrite fmap_cons, <- app_comm_cons.
    rewrite (arr_get_ok _ _ c); [|lia|rewrite Nat2Z.id, list_lookup_middle; done]. cbn [mbind res_bind].
    rewrite bool_decide_eq_false_2 by done. simpl in Hlt.
    specialize (IH (pre ++ [Some c]) n Hn ltac:(lia)). rewrite <- app_assoc, length_app in IH. simpl in IH.
    replace (Z.of_nat (length pre) + 1) with (Z.of_nat (length pre + 1)) by lia. rewrite IH. do 2 f_equal. simpl. lia.
Qed.

Lemma buf_strlen_holds buf txt room : holds_str buf txt room → buf_strlen buf = Ok (Z.of_nat (length txt)).
Proof.
  intros Hb. pose proof (holds_str_length _ _ _ Hb) as Hl. destruct Hb as (Hn & rest & -> & Hr).
  unfold buf_strlen. apply (buf_strlen_from_holds txt rest [] _ Hn). lia.
Qed.

Lemma buf_text_holds buf txt room : holds_str buf txt room → buf_text buf = Ok txt.
Proof.
  intros Hb. unfold buf_text. rewrite (buf_strlen_holds _ _ _ Hb). cbn [mbind res_bind]. unfold slice.
  rewrite Nat2Z.id. destruct Hb as (_ & rest & -> & _). apply slice_ok; [lia|]. intros i c Hi.
  simpl. rewrite lookup_app_l by (rewrite length_fmap; by eapply lookup_lt_Some).
  by rewrite list_lookup_fmap, Hi.
Qed.

Lemma write_at_emits bs :
  emits (λ buf i, buf ← write_at buf i bs; mret (buf, i + Z.of_nat (length bs))) bs.
Proof.
  induction bs as [|c bs IH].
  - eapply emits_ext; [apply emits_nil| |done]. intros. simpl. by rewrite Z.add_0_r.
  - eapply emits_ext; [apply (emits_bind _ _ [c] bs (emits_put c) IH)| |done].
    intros buf i. simpl. destruct (arr_set buf i c) as [buf1|]; simpl; [|done].
    destruct (write_at buf1 (i + 1) bs); simpl; [|done]. unfold mret, res_ret. do 2 f_equal. lia.
Qed.

(** Appending a string with its NUL. *)
Lemma write_str_holds pre rest bs :
  no_nul pre → no_nul bs →
  match write_at ((Some <$> pre) ++ rest) (Z.of_nat (length pre)) (bs ++ [NUL]) with
  | Ok buf => holds_str buf (pre ++ bs) (length rest - length bs - 1) ∧ (length bs < length rest)%nat
  | Fail f => f = Undefined ∧ (length rest ≤ length bs)%nat
  end.
Proof.
  intros Hp Hb. pose proof (write_at_emits (bs ++ [NUL]) (Some <$> pre) rest) as Hw. rewrite length_fmap in Hw.
  destruct (write_at _ _ _) as [buf|f]; simpl in Hw; rewrite length_app in Hw; simpl in Hw; unfold mret, res_ret in Hw;
    destruct (Nat.leb_spec (length bs + 1) (length rest)); simplify_eq; try (split; [done|lia]).
  split; [|lia]. split; [unfold no_nul in *; set_solver|].
  exists (drop (length bs + 1) rest). split; [|rewrite length_drop; lia].
  rewrite !fmap_app, <- !app_assoc. done.
Qed.

(** A step on a buffer with [room]: appends [bs] or overflows. *)
Definition appends (m : chars → res chars) (bs : bytes) : Prop :=
  ∀ buf txt room, holds_str buf txt room →
    match m buf with
    | Ok buf' => holds_str buf' (txt ++ bs) (room - length bs) ∧ (length bs ≤ room)%nat
    | Fail f => f = Undefined ∧ (room < length bs)%nat
    end.

Lemma strcat_appends s : appends (λ buf, strcat buf s) (c_str s).
Proof.
  intros buf txt room Hb. unfold strcat. rewrite (buf_strlen_holds _ _ _ Hb). simpl.
  destruct Hb as (Hn & rest & -> & <-).
  pose proof (write_str_holds txt (Some NUL :: rest) (c_str s) Hn (no_nul_c_str s)) as Hw.
  destruct (write_at _ _ _); simpl in Hw.
  - destruct Hw as [Hh ?]. split; [|lia]. by replace (length rest - length (c_str s))%nat
      with (S (length rest) - length (c_str s) - 1)%nat by lia.
  - destruct Hw. split; [done|lia].
Qed.

Lemma appends_bind m1 m2 b1 b2 :
  appends m1 b1 → appends m2 b2 → appends (λ buf, buf ← m1 buf; m2 buf) (b1 ++ b2).
Proof.
  intros H1 H2 buf txt room Hb. specialize (H1 _ _ _ Hb). rewrite length_app.
  destruct (m1 buf) as [buf1|f]; simpl; [|destruct H1; split; [done|lia]].
  destruct H1 as [Hb1 Hle]. specialize (H2 _ _ _ Hb1).
  destruct (m2 buf1) as [buf2|f]; [|destruct H2; split; [done|lia]].
  destruct H2 as [Hb2 Hle2]. rewrite app_assoc, Nat.sub_add_distr. split; [done|lia].
Qed.

Lemma appends_nil : appends (λ buf, mret buf) [].
Proof. intros buf txt room Hb. simpl. rewrite app_nil_r, Nat.sub_0_r. split; [done|lia]. Qed.

(** A sequence of characters that ends with the NUL. *)
Lemma emits_appends m bs :
  no_nul bs → emits m (bs ++ [NUL]) →
  appends (λ buf, n ← buf_strlen buf; '(buf, _) ← m buf n; mret buf) bs.
Proof.
  intros Hbs Hm buf txt room Hb. rewrite (buf_strlen_holds _ _ _ Hb). simpl.
  destruct Hb as (Hn & rest & -> & <-). specialize (Hm (Some <$> txt) (Some NUL :: rest)).
  rewrite length_fmap, length_app in Hm. rewrite Hm. simpl.
  destruct (Nat.leb_spec (length bs + 1) (S (length rest))); simpl; [|split; [done|lia]].
  split; [|lia]. split; [unfold no_nul in *; set_solver|].
  exists (drop (length bs + 1) (Some NUL :: rest)). split; [by rewrite !fmap_app, <- !app_assoc|].
  rewrite length_drop. simpl. lia.
Qed.

Lemma no_nul_replicate n : no_nul (replicate n BACKSLASH).
Proof. unfold no_nul. intros [Hc _]%elem_of_replicate. done. Qed.

Lemma no_nul_quoted_from bs ca : no_nul ca → no_nul (quoted_from bs ca).
Proof.
  unfold no_nul. revert bs. induction ca as [|c ca IH]; intros bs Hca; simpl; [apply no_nul_replicate|].
  rewrite not_elem_of_cons in Hca. destruct Hca as [Hc Hca].
  repeat case_bool_decide; rewrite ?not_elem_of_app, ?not_elem_of_cons; split_and?; auto.
  apply no_nul_replicate.
Qed.

Lemma no_nul_quoted ca : no_nul ca → no_nul (quoted ca).
Proof.
  intros Hca. unfold quoted. pose proof (no_nul_quoted_from 0 ca Hca). unfold no_nul in *.
  case_match; [|set_solver]. rewrite not_elem_of_cons, not_elem_of_app. split_and!; [done|done|].
  rewrite !not_elem_of_cons. split_and!; [done|done|set_solver].
Qed.

Lemma append_arg_appends arg : appends (λ buf, append_arg buf arg) (quoted (c_str arg)).
Proof.
  unfold append_arg, quoted. destruct (need_quote (c_str arg)) eqn:Hq.
  - intros buf txt room Hb. set (ca := c_str arg) in *.
    assert (emits (λ cmd i, '(cmd, i) ← (cmd ← arr_set cmd i QUOTE; mret (cmd, i + 1));
        '(cmd, i) ← quote_chars ca 0 (length ca) cmd i;
        '(cmd, i) ← (cmd ← arr_set cmd i QUOTE; cmd ← arr_set cmd (i + 1) SPACE; mret (cmd, i + 2));
        cmd ← arr_set cmd i NUL; mret (cmd, i + 1))
      ((QUOTE :: quoted_from 0 ca ++ [QUOTE; SPACE]) ++ [NUL])) as Hem.
    { rewrite <- app_comm_cons, <- app_assoc. apply (emits_bind _ _ [QUOTE] _ (emits_put QUOTE)).
      apply emits_bind.
      - eapply emits_ext; [apply (quote_chars_emits ca 0 (length ca)); lia|done|]. rewrite drop_0.
        case_decide as Hz; [|done]. by destruct ca.
      - apply (emits_bind _ _ [QUOTE; SPACE] [NUL] (emits_two _ _) (emits_put _)). }
    assert (no_nul (QUOTE :: quoted_from 0 ca ++ [QUOTE; SPACE])) as Hnn.
    { pose proof (no_nul_quoted ca (no_nul_c_str arg)) as Hnn. unfold quoted in Hnn. by rewrite Hq in Hnn. }
    pose proof (emits_appends _ _ Hnn Hem buf txt room Hb) as Happ. cbv beta in Happ. revert Happ.
    rewrite !(buf_strlen_holds _ _ _ Hb). simpl. destruct (arr_set buf _ QUOTE) as [b1|]; simpl; [|done].
    destruct (quote_chars ca 0 (length ca) b1 _) as [[b2 i2]|]; simpl; [|done].
    destruct (arr_set b2 i2 QUOTE) as [b3|]; simpl; [|done].
    destruct (arr_set b3 (i2 + 1) SPACE) as [b4|]; simpl; [|done].
    destruct (arr_set b4 (i2 + 2) NUL); simpl; done.
  - pose proof (appends_bind _ _ _ _ (strcat_appends (c_str arg)) (strcat_appends [SPACE])) as Happ.
    by rewrite c_str_idem in Happ.
Qed.

Lemma append_args_appends args k n :
  (k + n ≤ length args)%nat →
  appends (λ buf, append_args buf args k n) (concat (quoted <$> (c_str <$> take n (drop k args)))).
Proof.
  revert k. induction n as [|n IH]; intros k Hn; simpl; [apply appends_nil|].
  destruct (lookup_lt_is_Some_2 args k) as [a Ha]; [lia|]. rewrite Ha, (drop_S _ _ _ Ha). simpl.
  apply (appends_bind _ _ _ _ (append_arg_appends a)). apply IH. lia.
Qed.

(** The command line, whose text with its NUL has to fit 4096 characters. *)
Lemma build_cmd_spec r_cmd args n :
  0 ≤ n ≤ Z.of_nat (length args) →
  let txt := cmd_text (c_str r_cmd) (c_str <$> take (Z.to_nat n) args) in
  match build_cmd r_cmd args n with
  | Ok buf => holds_str buf txt (4095 - length txt) ∧ (length txt ≤ 4095)%nat
  | Fail f => f = Undefined ∧ (4095 < length txt)%nat
  end.
Proof.
  intros Hn txt. unfold build_cmd. rewrite arr_alloc_ok by by_computation. cbn [mbind res_bind].
  unfold strcpy. pose proof (write_str_holds [] (replicate (Z.to_nat CMD_SIZE) None) (c_str r_cmd)
    ltac:(unfold no_nul; set_solver) (no_nul_c_str r_cmd)) as Hcpy.
  rewrite length_replicate in Hcpy. simpl fmap in Hcpy. change (Z.of_nat (length [])) with 0 in Hcpy.
  rewrite !app_nil_l in Hcpy. change (Z.to_nat CMD_SIZE) with 4096%nat in *.
  assert (length txt = (length (c_str r_cmd) +
    length ([SPACE] ++ concat (quoted <$> (c_str <$> take (Z.to_nat n) (drop 0 args)))))%nat) as Hlen.
  { unfold txt, cmd_text. by rewrite length_app. }
  destruct (write_at _ _ _) as [buf|f]; cbn [mbind res_bind]; [|destruct Hcpy; split; [done|lia]].
  destruct Hcpy as [Hb Hlt].
  pose proof (appends_bind _ _ _ _ (strcat_appends [SPACE])
    (append_args_appends args 0 (Z.to_nat n) ltac:(lia)) _ _ _ Hb) as Happ.
  change (c_str [SPACE]) with [SPACE] in Happ. cbv beta in Happ.
  destruct (buf ← strcat buf [SPACE]; append_args buf args 0 (Z.to_nat n)) as [buf'|f].
  - destruct Happ as [Hh Hle]. split; [|lia].
    replace (4095 - length txt)%nat with (4096 - length (c_str r_cmd) - 1 -
      length ([SPACE] ++ concat (quoted <$> (c_str <$> take (Z.to_nat n) (drop 0 args)))))%nat by lia.
    done.
  - destruct Happ. split; [done|lia].
Qed.

(** ** The command line is read back *)

Definition no_blank (s : bytes) : Prop := Forall (λ c, c ≠ SPACE ∧ c ≠ TAB ∧ c ≠ QUOTE) s.
Definition no_tab (s : bytes) : Prop := TAB ∉ s.

Lemma has_special_false ca : has_special ca = false → (SPACE ∉ ca) ∧ (QUOTE ∉ ca).
Proof.
  induction ca as [|c ca IH]; simpl; [intros; split; set_solver|].
  repeat case_bool_decide; simpl; try done. intros [??]%IH. split; rewrite not_elem_of_cons; auto.
Qed.

Lemma msvc_split_backslashes n s bs inq t :
  msvc_split (replicate n BACKSLASH ++ s) bs inq (Some t) = msvc_split s (n + bs) inq (Some t).
Proof.
  revert bs. induction n as [|n IH]; intros bs; [done|]. cbn [replicate app msvc_split].
  rewrite bool_decide_eq_true_2 by done. simpl. rewrite IH. f_equal. lia.
Qed.

Lemma msvc_split_close n s t :
  Nat.Even n →
  msvc_split (QUOTE :: SPACE :: s) n true (Some t) =
  (t ++ replicate (n / 2) BACKSLASH) :: msvc_split s 0 false None.
Proof.
  intros Hn. cbn [msvc_split]. rewrite bool_decide_eq_false_2, bool_decide_eq_true_2 by done.
  rewrite <- Nat.negb_even, (proj2 (Nat.even_spec n) Hn). simpl. by rewrite app_nil_r.
Qed.

Lemma msvc_split_quoted bs ca s t :
  msvc_split (quoted_from bs ca ++ QUOTE :: SPACE :: s) bs true (Some t) =
  (t ++ replicate bs BACKSLASH ++ ca) :: msvc_split s 0 false None.
Proof.
  revert bs t. induction ca as [|c ca IH]; intros bs t; cbn [quoted_from].
  - rewrite msvc_split_backslashes, msvc_split_close by (exists bs; lia).
    replace ((bs + bs) / 2)%nat with bs; [by rewrite app_nil_r|].
    replace (bs + bs)%nat with (bs * 2)%nat by lia. by rewrite Nat.div_mul.
  - destruct (decide (c = QUOTE)) as [->|Hq]; [|destruct (decide (c = BACKSLASH)) as [->|Hb]].
    + rewrite bool_decide_eq_true_2 by done. rewrite <- !app_assoc, msvc_split_backslashes.
      cbn [app msvc_split]. rewrite bool_decide_eq_true_2, (bool_decide_eq_false_2 (QUOTE = BACKSLASH)), bool_decide_eq_true_2 by done.
      replace (Nat.odd (S (bs + bs))) with true
        by (symmetry; apply Nat.odd_spec; exists bs; lia).
      replace (S (bs + bs) / 2)%nat with bs
        by (replace (S (bs + bs)) with (1 + bs * 2)%nat by lia; rewrite Nat.div_add by done; done).
      simpl. rewrite IH. simpl. by rewrite <- !app_assoc.
    + rewrite bool_decide_eq_false_2, bool_decide_eq_true_2 by done. cbn [app msvc_split].
      rewrite bool_decide_eq_true_2 by done. simpl. rewrite IH.
      by rewrite replicate_S_end, <- app_assoc.
    + rewrite !bool_decide_eq_false_2 by done. cbn [app msvc_split].
      rewrite !bool_decide_eq_false_2 by done. rewrite andb_false_r. simpl. rewrite IH. simpl.
      by rewrite <- !app_assoc.
Qed.

Lemma msvc_split_plain ca s bs cur :
  SPACE ∉ ca → TAB ∉ ca → QUOTE ∉ ca → ca ≠ [] ∨ is_Some cur →
  msvc_split (ca ++ SPACE :: s) bs false cur =
  (default [] cur ++ replicate bs BACKSLASH ++ ca) :: msvc_split s 0 false None.
Proof.
  revert bs cur. induction ca as [|c ca IH]; intros bs cur Hs Ht Hq Hcur.
  - destruct Hcur as [?|[t ->]]; [done|]. simpl. by rewrite app_nil_r.
  - rewrite !not_elem_of_cons in *. destruct Hs as [Hs ?], Ht as [Ht ?], Hq as [Hq ?].
    cbn [app msvc_split]. destruct (decide (c = BACKSLASH)) as [->|Hb].
    + rewrite bool_decide_eq_true_2 by done. rewrite IH by eauto.
      by rewrite replicate_S_end, <- app_assoc.
    + rewrite !bool_decide_eq_false_2 by done. unfold is_blank. rewrite !bool_decide_eq_false_2 by done. simpl.
      rewrite IH by eauto. simpl. by rewrite <- !app_assoc.
Qed.

Lemma msvc_split_arg ca s :
  no_tab ca → msvc_split (quoted ca ++ s) 0 false None = ca :: msvc_split s 0 false None.
Proof.
  intros Ht. unfold quoted. destruct (need_quote ca) eqn:Hq.
  - cbn [app]. rewrite <- app_assoc. cbn [app].
    assert (∀ s', msvc_split (QUOTE :: s') 0 false None = msvc_split s' 0 true (Some [])) as Hopen
      by (by intros [|c s']).
    rewrite Hopen. apply (msvc_split_quoted 0 ca s []).
  - unfold need_quote in Hq. case_match eqn:Hl; [|done]. apply has_special_false in Hq as [??].
    rewrite <- app_assoc. simpl. apply (msvc_split_plain ca s 0 None); auto. left. intros ->. done.
Qed.

Lemma msvc_split_args cas : Forall no_tab cas → msvc_split (concat (quoted <$> cas)) 0 false None = cas.
Proof. induction 1 as [|ca cas Ht _ IH]; [done|]. rewrite fmap_cons. cbn [concat]. by rewrite msvc_split_arg, IH. Qed.

Lemma msvc_args_from_name name s acc :
  no_blank name → msvc_args_from (name ++ SPACE :: s) acc = (acc ++ name) :: msvc_split s 0 false None.
Proof.
  intros Hn. revert acc. induction Hn as [|c name (Hs & Ht & _) _ IH]; intros acc; simpl.
  - by rewrite app_nil_r.
  - unfold is_blank. rewrite !bool_decide_eq_false_2 by done. simpl. by rewrite IH, <- app_assoc.
Qed.

Lemma msvc_args_cmd_text name cas :
  no_blank name → Forall no_tab cas → msvc_args (cmd_text name cas) = name :: cas.
Proof.
  intros Hn Hc. unfold msvc_args, cmd_text. cbn [app]. rewrite msvc_args_from_name by done.
  by rewrite msvc_split_args.
Qed.

(** A command name with a space is cut there. *)
Lemma msvc_args_cut a b cas :
  no_blank a → head (msvc_args (cmd_text (a ++ SPACE :: b) cas)) = Some a.
Proof.
  intros Ha. unfold msvc_args, cmd_text. rewrite <- app_assoc. cbn [app].
  by rewrite msvc_args_from_name.
Qed.

(** ** The block of cpulimit *)

Lemma concat_args_appends args : appends (λ p, concat_args p args) (winlimit_text args).
Proof.
  induction args as [|a args IH]; [apply appends_nil|].
  assert (appends (λ p, match args with [] => mret p | _ => strcat p [SPACE] end)
    (match args with [] => [] | _ => [SPACE] end)) as Hsep
    by (destruct args; [apply appends_nil|apply (strcat_appends [SPACE])]).
  exact (appends_bind _ _ _ _ (strcat_appends [QUOTE]) (appends_bind _ _ _ _ (strcat_appends a)
    (appends_bind _ _ _ _ (strcat_appends [QUOTE]) (appends_bind _ _ _ _ Hsep IH)))).
Qed.

Lemma length_winlimit_text args :
  args ≠ [] → Z.of_nat (length (winlimit_text args)) + 1 = Z.of_nat (sum_list_with (λ a, length (c_str a) + 3)%nat args).
Proof.
  induction args as [|a args IH]; [done|]. intros _. destruct args as [|b args].
  - cbn. rewrite length_app. simpl. lia.
  - specialize (IH ltac:(done)). revert IH. generalize (b :: args) as l. intros l IH.
    cbn [winlimit_text sum_list_with length]. rewrite !length_app. destruct l; [simpl in *; lia|cbn [length]; lia].
Qed.

Lemma cmdline_size_sum args s :
  0 ≤ s → s + Z.of_nat (sum_list_with (λ a, length (c_str a) + 3)%nat args) < UINT_MOD →
  cmdline_size args s = s + Z.of_nat (sum_list_with (λ a, length (c_str a) + 3)%nat args).
Proof.
  revert s. induction args as [|a args IH]; intros s Hs; cbn [cmdline_size sum_list_with]; [simpl; lia|].
  unfold strlen. intros Hlt. rewrite (u32_small (Z.of_nat (length (c_str a)) + 3)) by lia.
  rewrite u32_small by lia. rewrite IH by lia. lia.
Qed.

(** ** Properties *)

(** C36: the command line that run_request of the Windows server builds in
    [cmd[4096]] is exactly [cmd_text], when it fits with its NUL; one character
    more and the loop writes outside the array. When the command name has no
    blank and no double quote and no argument has a tab, a program that splits
    that command line by the rules of the C runtime gets back the command and
    the arguments, whatever spaces, double quotes and backslashes they hold.
    The command name itself is not quoted: one with a space is cut at its first
    space. *)
Theorem build_cmd_correct r_cmd args n :
  0 ≤ n ≤ Z.of_nat (length args) →
  let cas := c_str <$> take (Z.to_nat n) args in
  let txt := cmd_text (c_str r_cmd) cas in
  match build_cmd r_cmd args n with
  | Ok buf => holds_str buf txt (4095 - length txt) ∧ (length txt ≤ 4095)%nat
  | Fail f => f = Undefined ∧ (4095 < length txt)%nat
  end ∧
  (no_blank (c_str r_cmd) → Forall no_tab cas → msvc_args txt = c_str r_cmd :: cas) ∧
  (∀ a b, c_str r_cmd = a ++ SPACE :: b → no_blank a → head (msvc_args txt) = Some a).
Proof.
  intros Hn cas txt. split_and!; [by apply build_cmd_spec|intros; by apply msvc_args_cmd_text|].
  intros a b Hab Ha. unfold txt. rewrite Hab. by apply msvc_args_cut.
Qed.

Lemma build_cmd_correct_witness :
  (∃ buf, build_cmd (str "z3") [str "-in"; str "a b"; str "file"] 2 = Ok buf ∧
    holds_str buf (cmd_text (str "z3") [str "-in"; str "a b"]) (4095 - 13)) ∧
  msvc_args (cmd_text (str "z3") [str "-in"; str "a b"]) = [str "z3"; str "-in"; str "a b"].
Proof.
  pose proof (build_cmd_correct (str "z3") [str "-in"; str "a b"; str "file"] 2 ltac:(simpl; lia)) as H.
  destruct H as (Hb & Ha & _). split.
  - destruct (build_cmd (str "z3") _ 2) as [buf|f]; [exists buf; split; [done|exact (proj1 Hb)]|].
    exfalso. destruct Hb as [_ Hb]. revert Hb. vm_compute. lia.
  - apply Ha; unfold no_blank, no_tab; apply (bool_decide_unpack _); vm_compute; exact I.
Defined.

(** A tab is not a character that the loop quotes: the argument comes back in
    two pieces. *)
Example build_cmd_tab :
  msvc_args (cmd_text (str "z3") [str "a" ++ [TAB] ++ str "b"]) = [str "z3"; str "a"; str "b"].
Proof. vm_compute. reflexivity. Qed.
