(* ===== verification/WinOS.v ===== *)
(** * The operating-system interface of the Windows programs

    The calls that src/server/server-win.c and src/server/cpulimit-win.c make,
    as a class of operations on an abstract world, with the constants of the
    Windows headers that the sources name. A call whose result the sources
    ignore returns only the new world. The laws of a second class state the
    documented behaviour that the server relies on. *)

From S2P Require Import Prelude CMem.
From Stdlib Require Import Floats.SpecFloat.
From S2P Require Import UnixOS.

(** The longest path, with its NUL. *)
Definition MAX_PATH : Z := 260.

(** Error codes and exit codes. *)
Definition ERROR_BROKEN_PIPE : Z := 109.
Definition ERROR_PIPE_CONNECTED : Z := 535.
Definition ERROR_IO_PENDING : Z := 997.
Definition ERROR_REQUEST_ABORTED : Z := 1235.
Definition ERROR_NOT_ENOUGH_QUOTA : Z := 1816.
Definition STATUS_QUOTA_EXCEEDED : Z := 3221225540.

(** The messages of job objects, reported in the number of bytes. *)
Definition JOB_OBJECT_MSG_END_OF_JOB_TIME : Z := 1.
Definition JOB_OBJECT_MSG_END_OF_PROCESS_TIME : Z := 2.
Definition JOB_OBJECT_MSG_ACTIVE_PROCESS_ZERO : Z := 4.
Definition JOB_OBJECT_MSG_NEW_PROCESS : Z := 6.
Definition JOB_OBJECT_MSG_EXIT_PROCESS : Z := 7.
Definition JOB_OBJECT_MSG_ABNORMAL_EXIT_PROCESS : Z := 8.
Definition JOB_OBJECT_MSG_PROCESS_MEMORY_LIMIT : Z := 9.
Definition JOB_OBJECT_MSG_JOB_MEMORY_LIMIT : Z := 10.

(** The limits set on a job: the CPU time in ticks of 100 ns and the memory in
    bytes, each absent when its flag is not set. *)
Record job_limits := Mk_limits {
  jl_time : option Z;
  jl_memory : option Z;
}.

(** The standard handles of a new process; [None] is an unset field. *)
Record startup_info := Mk_si {
  si_stdin : option Z;
  si_stdout : option Z;
  si_stderr : option Z;
}.

Inductive file_mode := CreateOutput | OpenInput.

(** The OVERLAPPED structure of an operation: in the block of a server socket,
    or in the [read] or the [write] field of a client block. *)
Inductive overlapped :=
| OvConnect (server : positive)
| OvRead (client : positive)
| OvWrite (client : positive)
| OvOther.

(** What GetQueuedCompletionStatus reports, and the bytes that a finished read
    has stored: in which client's read buffer, and from which offset. *)
Record packet := Mk_packet {
  pk_res : bool;
  pk_numbytes : Z;
  pk_mskey : Z;
  pk_ov : overlapped;
  pk_fill : option (positive * Z * bytes);
}.

Inductive wait_outcome := WAIT_FAILED | WAIT_TIMEOUT | WAIT_OBJECT_0 | WAIT_ABANDONED.

(** The four times of GetProcessTimes, as 64-bit numbers of ticks. *)
Record process_times := Mk_times {
  pt_start : Z;
  pt_stop : Z;
  pt_system : Z;
  pt_user : Z;
}.

Class WinOS (W : Type) := {
  wos_close_handle : option Z → W → W;
  wos_last_error : W → Z;
  wos_basename : bytes → bytes;
  wos_getcwd : W → option bytes * W;
  wos_create_port : Z → option Z → Z → W → option Z * W;
  wos_create_event : W → Z * W;
  wos_create_named_pipe : bytes → W → option Z * W;
  wos_connect_named_pipe : Z → positive → W → bool * W;
  wos_get_temp_file_name : bytes → W → (Z * bytes) * W;
  wos_create_file : file_mode → bytes → W → option Z * W;
  wos_create_job_object : W → option Z * W;
  wos_set_limits : option Z → job_limits → W → bool * W;
  wos_set_port : Z → option Z → Z → W → bool * W;
  wos_create_process : bytes → startup_info → W → option (Z * Z) * W;
  wos_assign_process : option Z → Z → W → bool * W;
  wos_resume_thread : Z → W → W;
  wos_terminate_process : Z → Z → W → W;
  wos_read_file : Z → positive → Z → Z → W → W;
  wos_write_file : Z → bytes → positive → W → W;
  wos_wait : Z → W → wait_outcome * W;
  wos_get_exit_code : Z → W → Z * W;
  wos_get_process_times : Z → W → process_times * W;
  wos_get_packet : option Z → W → packet * W;
  wos_fopen_log : W → bool * W;
}.

(** ** Documented behaviour

    What the server relies on: the open handles, the keys of the handles that
    were added to the completion port, the operations that were started and
    have not been reported yet, each with the key of its handle, and the keys
    of the jobs that report to the port. *)
Record win_io := Mk_io {
  io_open : gset Z;
  io_keys : gmap Z Z;
  io_connects : gmap positive Z;                (* server block: key *)
  io_reads : gmap positive (Z * Z * Z);         (* client block: key, offset, size *)
  io_writes : gmap positive (Z * Z);            (* client block: key, size *)
  io_jobs : gset Z;
}.

Definition with_open (x : gset Z) (a : win_io) : win_io :=
  Mk_io x (io_keys a) (io_connects a) (io_reads a) (io_writes a) (io_jobs a).
Definition with_keys (x : gmap Z Z) (a : win_io) : win_io :=
  Mk_io (io_open a) x (io_connects a) (io_reads a) (io_writes a) (io_jobs a).
Definition with_connects (x : gmap positive Z) (a : win_io) : win_io :=
  Mk_io (io_open a) (io_keys a) x (io_reads a) (io_writes a) (io_jobs a).
Definition with_reads (x : gmap positive (Z * Z * Z)) (a : win_io) : win_io :=
  Mk_io (io_open a) (io_keys a) (io_connects a) x (io_writes a) (io_jobs a).
Definition with_writes (x : gmap positive (Z * Z)) (a : win_io) : win_io :=
  Mk_io (io_open a) (io_keys a) (io_connects a) (io_reads a) x (io_jobs a).
Definition with_jobs (x : gset Z) (a : win_io) : win_io :=
  Mk_io (io_open a) (io_keys a) (io_connects a) (io_reads a) (io_writes a) x.

(** A call that opens a handle, which is not open already, or fails. *)
Definition opens (r : option Z) (a b : win_io) : Prop :=
  match r with
  | Some h => (h ∉ io_open a) ∧ b = with_open ({[h]} ∪ io_open a) a
  | None => b = a
  end.

(** A packet reports an operation that was started, with the key of its
    handle, once: a read stores at most the bytes asked for at the offset
    given, a write sends at most the bytes given. A packet of a job has the key
    of the job, and key 0 stands for a failure. *)
Definition delivered (p : packet) (a b : win_io) : Prop :=
  0 ≤ pk_numbytes p < UINT_MOD ∧
  match pk_ov p with
  | OvOther => pk_fill p = None ∧ b = a ∧ (pk_mskey p = 0 ∨ pk_mskey p ∈ io_jobs a)
  | OvConnect sv =>
      pk_fill p = None ∧ io_connects a !! sv = Some (pk_mskey p) ∧
      b = with_connects (delete sv (io_connects a)) a
  | OvRead c => ∃ off n bs,
      io_reads a !! c = Some (pk_mskey p, off, n) ∧ pk_fill p = Some (c, off, bs) ∧
      pk_numbytes p = Z.of_nat (length bs) ∧ pk_numbytes p ≤ n ∧
      b = with_reads (delete c (io_reads a)) a
  | OvWrite c => ∃ n,
      pk_fill p = None ∧ io_writes a !! c = Some (pk_mskey p, n) ∧ pk_numbytes p ≤ n ∧
      b = with_writes (delete c (io_writes a)) a
  end.

Class WinOSLaws (W : Type) `{WinOS W} := {
  win_io_of : W → win_io;

  (** Closing a handle closes that one and takes it from the port. *)
  close_handle_law : ∀ h w, win_io_of (wos_close_handle (Some h) w) =
    with_keys (delete h (io_keys (win_io_of w))) (with_open (io_open (win_io_of w) ∖ {[h]}) (win_io_of w));
  (** A new port is a new handle; in both cases the handle gets its key. *)
  create_port_law : ∀ h port key w r w', wos_create_port h port key w = (r, w') →
    match r with
    | None => win_io_of w' = win_io_of w
    | Some p => ∃ a, opens (match port with None => Some p | Some _ => None end) (win_io_of w) a ∧
        win_io_of w' = with_keys (<[h := key]> (io_keys a)) a
    end;
  (** The calls that create an object open a handle or fail. *)
  create_event_law : ∀ w h w', wos_create_event w = (h, w') →
    opens (Some h) (win_io_of w) (win_io_of w');
  create_pipe_law : ∀ name w r w', wos_create_named_pipe name w = (r, w') →
    opens r (win_io_of w) (win_io_of w');
  create_file_law : ∀ mode name w r w', wos_create_file mode name w = (r, w') →
    opens r (win_io_of w) (win_io_of w');
  create_job_law : ∀ w r w', wos_create_job_object w = (r, w') →
    opens r (win_io_of w) (win_io_of w');
  create_process_law : ∀ cmd si w r w', wos_create_process cmd si w = (r, w') →
    match r with
    | None => win_io_of w' = win_io_of w
    | Some (hProcess, hThread) => ∃ a,
        opens (Some hProcess) (win_io_of w) a ∧ opens (Some hThread) a (win_io_of w')
    end;
  (** The asynchronous operations are started, or fail. *)
  connect_law : ∀ h sv w r w', wos_connect_named_pipe h sv w = (r, w') →
    win_io_of w' = win_io_of w ∨
    ∃ k, io_keys (win_io_of w) !! h = Some k ∧
      win_io_of w' = with_connects (<[sv := k]> (io_connects (win_io_of w))) (win_io_of w);
  read_file_law : ∀ h c off n w, win_io_of (wos_read_file h c off n w) = win_io_of w ∨
    ∃ k, io_keys (win_io_of w) !! h = Some k ∧
      win_io_of (wos_read_file h c off n w) =
        with_reads (<[c := (k, off, n)]> (io_reads (win_io_of w))) (win_io_of w);
  write_file_law : ∀ h bs c w, win_io_of (wos_write_file h bs c w) = win_io_of w ∨
    ∃ k, io_keys (win_io_of w) !! h = Some k ∧
      win_io_of (wos_write_file h bs c w) =
        with_writes (<[c := (k, Z.of_nat (length bs))]> (io_writes (win_io_of w))) (win_io_of w);
  (** A job reports to the port with the key it was given. *)
  set_port_law : ∀ job port key w ok w', wos_set_port job port key w = (ok, w') →
    win_io_of w' = win_io_of w ∨
    win_io_of w' = with_jobs ({[key]} ∪ io_jobs (win_io_of w)) (win_io_of w);
  get_packet_law : ∀ port w p w', wos_get_packet port w = (p, w') →
    delivered p (win_io_of w) (win_io_of w');
  (** The name of a temporary file fits a buffer of MAX_PATH characters. *)
  temp_name_law : ∀ dir w r name w', wos_get_temp_file_name dir w = ((r, name), w') →
    win_io_of w' = win_io_of w ∧ (r ≠ 0 → strlen name < MAX_PATH);
  (** The other calls start and close nothing. *)
  getcwd_frame : ∀ w r w', wos_getcwd w = (r, w') → win_io_of w' = win_io_of w;
  fopen_log_frame : ∀ w r w', wos_fopen_log w = (r, w') → win_io_of w' = win_io_of w;
  set_limits_frame : ∀ job lim w r w', wos_set_limits job lim w = (r, w') → win_io_of w' = win_io_of w;
  assign_process_frame : ∀ job h w r w', wos_assign_process job h w = (r, w') → win_io_of w' = win_io_of w;
  wait_frame : ∀ h w r w', wos_wait h w = (r, w') → win_io_of w' = win_io_of w;
  exit_code_frame : ∀ h w r w', wos_get_exit_code h w = (r, w') → win_io_of w' = win_io_of w;
  process_times_frame : ∀ h w r w', wos_get_process_times h w = (r, w') → win_io_of w' = win_io_of w;
  resume_thread_frame : ∀ h w, win_io_of (wos_resume_thread h w) = win_io_of w;
  terminate_process_frame : ∀ h code w, win_io_of (wos_terminate_process h code w) = win_io_of w;
}.

(** Ticks of 100 ns as seconds: the sum of 64-bit integers wraps, and the
    division is that of [double]. *)
Definition ticks_to_seconds (ticks : Z) : spec_float :=
  SFdiv 53 1024 (SFadd 53 1024 (sf_of_Z (u64 ticks)) (sf_of_Z 0)) (sf_of_Z 10000000).

(** A world in which every call fails. *)
Definition failing_win : WinOS unit := {|
  wos_close_handle _ w := w;
  wos_last_error _ := 0;
  wos_basename b := b;
  wos_getcwd w := (None, w);
  wos_create_port _ _ _ w := (None, w);
  wos_create_event w := (0, w);
  wos_create_named_pipe _ w := (None, w);
  wos_connect_named_pipe _ _ w := (false, w);
  wos_get_temp_file_name _ w := ((0, []), w);
  wos_create_file _ _ w := (None, w);
  wos_create_job_object w := (None, w);
  wos_set_limits _ _ w := (false, w);
  wos_set_port _ _ _ w := (false, w);
  wos_create_process _ _ w := (None, w);
  wos_assign_process _ _ w := (false, w);
  wos_resume_thread _ w := w;
  wos_terminate_process _ _ w := w;
  wos_read_file _ _ _ _ w := w;
  wos_write_file _ _ _ w := w;
  wos_wait _ w := (WAIT_FAILED, w);
  wos_get_exit_code _ w := (0, w);
  wos_get_process_times _ w := (Mk_times 0 0 0 0, w);
  wos_get_packet _ w := (Mk_packet false 0 0 OvOther None, w);
  wos_fopen_log w := (false, w);
|}.
