(* ===== verification/ServerWin.v ===== *)
(** * The Windows server (src/server/server-win.c)

    The state [wst] gathers the globals of the server; every function of the
    file is a computation on it. Client records and server sockets are blocks
    reached through pointers: [w_clients] and [w_server_socket] hold addresses,
    and [w_store] and [w_servers] the records. One turn of the loop of [main]
    is [main_step]; the server waits for everything on one completion port. *)

From S2P Require Import Prelude CMem ArrayList Queue ReadBuf WriteBuf Env Request Proc UnixOS WinOS CmdLine.

Definition READ_ONCE : Z := 1024.
Definition BUFSIZE : Z := 4096.
Definition READOP : Z := 0.
Definition WRITEOP : Z := 1.
Definition SOCKET : Z := 0.
Definition PROCESS : Z := 1.

Record t_conn_data := Mk_conn { cd_event : Z; cd_kind : Z }.
Record t_server := Mk_server { sv_handle : Z; sv_event : Z }.
Record t_client := Mk_client {
  cl_handle : Z;
  cl_read : t_conn_data;
  cl_write : t_conn_data;
  cl_readbuf : t_readbuf;
  cl_writebuf : t_writebuf;
}.

Record wst (W : Type) := Mk_wst {
  w_env : genv;
  w_queue : t_queue request;
  w_processes : option (t_list (t_proc (Z * Z)));    (* None is NULL *)
  w_clients : option (t_list positive);              (* None is NULL *)
  w_store : gmap positive t_client;
  w_servers : gmap positive t_server;
  w_server_socket : list (option positive);
  w_server_key : list (option Z);
  w_gen_key : Z;
  w_port : option Z;
  w_pipe_name : bytes;
  w_current_dir : bytes;
  w_world : W;
}.
Arguments Mk_wst {_} _ _ _ _ _ _ _ _ _ _ _ _ _.
Arguments w_env {_} _.
Arguments w_queue {_} _.
Arguments w_processes {_} _.
Arguments w_clients {_} _.
Arguments w_store {_} _.
Arguments w_servers {_} _.
Arguments w_server_socket {_} _.
Arguments w_server_key {_} _.
Arguments w_gen_key {_} _.
Arguments w_port {_} _.
Arguments w_pipe_name {_} _.
Arguments w_current_dir {_} _.
Arguments w_world {_} _.

Section setters.
Context {W : Type}.
Implicit Types (s : wst W).
Definition set_env (x : genv) s : wst W :=
  Mk_wst x (w_queue s) (w_processes s) (w_clients s) (w_store s) (w_servers s) (w_server_socket s)
    (w_server_key s) (w_gen_key s) (w_port s) (w_pipe_name s) (w_current_dir s) (w_world s).
Definition set_queue (x : t_queue request) s : wst W :=
  Mk_wst (w_env s) x (w_processes s) (w_clients s) (w_store s) (w_servers s) (w_server_socket s)
    (w_server_key s) (w_gen_key s) (w_port s) (w_pipe_name s) (w_current_dir s) (w_world s).
Definition set_processes (x : t_list (t_proc (Z * Z))) s : wst W :=
  Mk_wst (w_env s) (w_queue s) (Some x) (w_clients s) (w_store s) (w_servers s) (w_server_socket s)
    (w_server_key s) (w_gen_key s) (w_port s) (w_pipe_name s) (w_current_dir s) (w_world s).
Definition set_clients (x : t_list positive) s : wst W :=
  Mk_wst (w_env s) (w_queue s) (w_processes s) (Some x) (w_store s) (w_servers s) (w_server_socket s)
    (w_server_key s) (w_gen_key s) (w_port s) (w_pipe_name s) (w_current_dir s) (w_world s).
Definition set_store (x : gmap positive t_client) s : wst W :=
  Mk_wst (w_env s) (w_queue s) (w_processes s) (w_clients s) x (w_servers s) (w_server_socket s)
    (w_server_key s) (w_gen_key s) (w_port s) (w_pipe_name s) (w_current_dir s) (w_world s).
Definition set_servers (x : gmap positive t_server) s : wst W :=
  Mk_wst (w_env s) (w_queue s) (w_processes s) (w_clients s) (w_store s) x (w_server_socket s)
    (w_server_key s) (w_gen_key s) (w_port s) (w_pipe_name s) (w_current_dir s) (w_world s).
Definition set_sockets (x : list (option positive)) (y : list (option Z)) s : wst W :=
  Mk_wst (w_env s) (w_queue s) (w_processes s) (w_clients s) (w_store s) (w_servers s) x y
    (w_gen_key s) (w_port s) (w_pipe_name s) (w_current_dir s) (w_world s).
Definition set_gen_key (x : Z) s : wst W :=
  Mk_wst (w_env s) (w_queue s) (w_processes s) (w_clients s) (w_store s) (w_servers s) (w_server_socket s)
    (w_server_key s) x (w_port s) (w_pipe_name s) (w_current_dir s) (w_world s).
Definition set_port (x : Z) s : wst W :=
  Mk_wst (w_env s) (w_queue s) (w_processes s) (w_clients s) (w_store s) (w_servers s) (w_server_socket s)
    (w_server_key s) (w_gen_key s) (Some x) (w_pipe_name s) (w_current_dir s) (w_world s).
Definition set_names (pipe dir : bytes) s : wst W :=
  Mk_wst (w_env s) (w_queue s) (w_processes s) (w_clients s) (w_store s) (w_servers s) (w_server_socket s)
    (w_server_key s) (w_gen_key s) (w_port s) pipe dir (w_world s).
Definition set_world (x : W) s : wst W :=
  Mk_wst (w_env s) (w_queue s) (w_processes s) (w_clients s) (w_store s) (w_servers s) (w_server_socket s)
    (w_server_key s) (w_gen_key s) (w_port s) (w_pipe_name s) (w_current_dir s) x.
End setters.

(** ** Keys

    [to_ms_key] computes with [int] and converts the result to the unsigned
    64-bit type of completion keys. *)
Definition to_ms_key (key kind : Z) : res Z :=
  k ← int_op (key * 2);
  k ← int_op (k + kind);
  mret (u64 k).

Definition kind_of_ms_key (ms : Z) : Z := to_int (ms mod 2).
Definition key_of_ms_key (ms : Z) : Z := to_int (ms / 2).

(** The loop of get_server_num from [i] on. *)
Fixpoint get_server_num_from (server_key : list (option Z)) (key : Z) (i : Z) (n : nat) : res Z :=
  match n with
  | O => mret (-1)
  | S n' =>
      k ← arr_get server_key i;
      if k =? key then mret i else get_server_num_from server_key key (i + 1) n'
  end.
Definition get_server_num (server_key : list (option Z)) (parallel key : Z) : res Z :=
  get_server_num_from server_key key 0 (Z.to_nat parallel).

(** ** Limits

    Seconds become ticks of 100 ns in a 64-bit signed integer, MiB become bytes
    in a [size_t]; the result is [None] when no limit is set. *)
Definition request_limits (timeout memlimit : Z) : option job_limits :=
  if negb (timeout =? 0) || negb (memlimit =? 0) then
    Some (Mk_limits
      (if timeout =? 0 then None else Some (1000 * 1000 * 10 * timeout))
      (if memlimit =? 0 then None else Some (u64 (1024 * 1024 * memlimit))))
  else None.

Section server.
Context {W : Type} `{OS : WinOS W}.
Local Abbreviation U := (M (wst W)).

Definition on_env {A} (m : M genv A) : U A := zoom w_env set_env m.
Definition heapU {A} (m : M heap A) : U A := on_env (on_heap m).

Definition sys {A} (f : W → A * W) : U A := λ s,
  let '(a, w) := f (w_world s) in Done a (set_world w s).
(** A call without a result. *)
Definition sys_ (f : W → W) : U unit := modify (λ s, set_world (f (w_world s)) s).

Definition client_get (a : positive) : U t_client := λ s,
  match w_store s !! a with Some c => Done c s | None => Failed Undefined end.
Definition client_put (a : positive) (c : t_client) : U unit := λ s,
  match w_store s !! a with
  | Some _ => Done tt (set_store (<[a := c]> (w_store s)) s)
  | None => Failed Undefined
  end.
Definition server_get (a : positive) : U t_server := λ s,
  match w_servers s !! a with Some c => Done c s | None => Failed Undefined end.

Definition the_clients : U (t_list positive) :=
  c ← gets w_clients;
  match c with Some l => mret l | None => failM Undefined end.
Definition the_processes : U (t_list (t_proc (Z * Z))) :=
  c ← gets w_processes;
  match c with Some l => mret l | None => failM Undefined end.

Definition CloseHandle (h : Z) : U unit := sys_ (wos_close_handle (Some h)).

Definition keygen : U Z :=
  k ← gets w_gen_key;
  k' ← lift (int_op (k + 1));
  _ ← modify (set_gen_key k');
  mret k.

(** free_process of proc.c, with its Windows part. *)
Definition free_process (p : t_proc (Z * Z)) : U unit :=
  _ ← heapU (touch (p_addr p));
  _ ← CloseHandle (p_os p).1;
  _ ← CloseHandle (p_os p).2;
  heapU (Proc.free_process p).

(** ** Shutdown *)

Fixpoint close_servers_from (l : list (option positive)) (i : Z) (n : nat) : U unit :=
  match n with
  | O => mret tt
  | S n' =>
      a ← lift (arr_get l i);
      sv ← server_get a;
      _ ← CloseHandle (sv_handle sv);
      close_servers_from l (i + 1) n'
  end.

Fixpoint close_clients_from (l : t_list positive) (i : Z) (n : nat) : U unit :=
  match n with
  | O => mret tt
  | S n' =>
      a ← lift (arr_get (l_data l) i);
      c ← client_get a;
      _ ← CloseHandle (cl_handle c);
      close_clients_from l (i + 1) n'
  end.

Fixpoint free_processes_from (l : t_list (t_proc (Z * Z))) (i : Z) (n : nat) : U unit :=
  match n with
  | O => mret tt
  | S n' =>
      p ← lift (arr_get (l_data l) i);
      _ ← free_process p;
      free_processes_from l (i + 1) n'
  end.

Definition shutdown_with_msg {A} (msg : string) : U A :=
  port ← gets w_port;
  _ ← match port with Some p => CloseHandle p | None => mret tt end;
  s ← get;
  _ ← close_servers_from (w_server_socket s) 0 (Z.to_nat (g_parallel (w_env s)));
  _ ← match w_clients s with
      | Some l => close_clients_from l 0 (Z.to_nat (list_length l))
      | None => mret tt
      end;
  _ ← match w_processes s with
      | Some l => free_processes_from l 0 (Z.to_nat (list_length l))
      | None => mret tt
      end;
  on_env (logging_shutdown (str msg)).

Definition add_to_completion_port (h key : Z) : U unit :=
  port ← gets w_port;
  tmp ← sys (wos_create_port h port key);
  match tmp with
  | None => shutdown_with_msg "CreateIoCompletionPort: error adding handle"
  | Some tmp => match port with None => modify (set_port tmp) | Some _ => mret tt end
  end.

Definition init_connect_data (kind : Z) : U t_conn_data :=
  ev ← sys wos_create_event;
  mret (Mk_conn ev kind).

(** ** Writing *)

Definition try_write (client : positive) : U unit :=
  c ← client_get client;
  if has_write_data (cl_writebuf c) && can_write (cl_writebuf c) then
    '(wb, (m, off), num_write) ← lift (prepare_write (cl_writebuf c));
    _ ← client_put client (Mk_client (cl_handle c) (cl_read c) (cl_write c) (cl_readbuf c) wb);
    txt ← heapU (load m);
    sys_ (wos_write_file (cl_handle c) (take (Z.to_nat num_write) (drop (Z.to_nat off) txt)) client)
  else mret tt.

Definition queue_write (client : positive) (msgbuf : cstr) : U unit :=
  c ← client_get client;
  wb ← heapU (push_write_data (cl_writebuf c) msgbuf);
  _ ← client_put client (Mk_client (cl_handle c) (cl_read c) (cl_write c) (cl_readbuf c) wb);
  try_write client.

Definition snprintf (len : Z) (txt : bytes) : U (cstr * Z) :=
  m ← heapU (new_str (take (Z.to_nat (len - 1)) txt));
  mret (m, if Z.of_nat (length txt) <=? INT_MAX then Z.of_nat (length txt) else -1).

(** The allocation of the block of a message: [malloc] returns NULL for a size
    that no block can have. *)
Definition check_msgbuf (msg : string) (len : Z) : U unit :=
  if alloc_limit <? len then shutdown_with_msg msg else mret tt.

Definition send_started_msg_to_client (client : positive) (id : cstr) : U unit :=
  idtxt ← heapU (load id);
  let len := u64 (strlen idtxt + 4) in
  _ ← check_msgbuf "error when allocating client msg" len;
  '(msgbuf, used) ← snprintf len (str "S;" ++ idtxt ++ [NEWLINE]);
  if negb (u64 used =? u64 (len - 1)) then shutdown_with_msg "message for client too long"
  else queue_write client msgbuf.

(** Here [len] is an [int]. *)
Definition send_msg_to_client (client : positive) (id : cstr) (exitcode : Z) (cpu : bytes)
    (timeout : bool) (outfile : cstr) : U unit :=
  idtxt ← heapU (load id);
  let len := to_int (u64 (strlen idtxt + 3)) in
  len ← lift (int_op (len + 23));
  filetxt ← heapU (load outfile);
  let len := to_int (u64 (len + (strlen filetxt + 1))) in
  _ ← check_msgbuf "error when allocating buffer for client msg" (u64 len);
  '(msgbuf, used) ← snprintf len
     (str "F;" ++ idtxt ++ [SEMI] ++ dec exitcode ++ [SEMI] ++ cpu ++ [SEMI]
      ++ dec (if timeout then 1 else 0) ++ [SEMI] ++ filetxt ++ [NEWLINE]);
  if len <=? used then shutdown_with_msg "message for client too long"
  else queue_write client msgbuf.

(** ** Sockets *)

Definition create_server_socket (socket_num : Z) : U unit :=
  key ← keygen;
  server ← heapU malloc;
  name ← gets w_pipe_name;
  h ← sys (wos_create_named_pipe name);
  match h with
  | None => exit 1
  | Some h =>
      ms ← lift (to_ms_key key SOCKET);
      _ ← add_to_completion_port h ms;
      ev ← sys wos_create_event;
      _ ← modify (λ s, set_servers (<[server := Mk_server h ev]> (w_servers s)) s);
      s ← get;
      sockets ← lift (arr_set (w_server_socket s) socket_num server);
      keys ← lift (arr_set (w_server_key s) socket_num key);
      _ ← modify (set_sockets sockets keys);
      ok ← sys (wos_connect_named_pipe h server);
      if ok : bool then mret tt
      else
        err ← gets (λ s, wos_last_error (w_world s));
        if err =? ERROR_IO_PENDING then mret tt
        else if err =? ERROR_PIPE_CONNECTED then mret tt
        else shutdown_with_msg "error connecting to socket"
  end.

Definition do_read (client : positive) : U unit :=
  c ← client_get client;
  '(rb, off) ← lift (prepare_read (cl_readbuf c) READ_ONCE);
  _ ← client_put client (Mk_client (cl_handle c) (cl_read c) (cl_write c) rb (cl_writebuf c));
  sys_ (wos_read_file (cl_handle c) client off READ_ONCE).

Definition accept_client (key socket_num : Z) : U unit :=
  client ← heapU malloc;
  s ← get;
  a ← lift (arr_get (w_server_socket s) socket_num);
  sv ← server_get a;
  rb ← lift (init_readbuf BUFSIZE);
  wb ← lift (init_writebuf 16);
  rd ← init_connect_data READOP;
  wr ← init_connect_data WRITEOP;
  _ ← modify (λ s, set_store (<[client := Mk_client (sv_handle sv) rd wr rb wb]> (w_store s)) s);
  _ ← heapU (free a);
  _ ← modify (λ s, set_servers (delete a (w_servers s)) s);
  _ ← create_server_socket socket_num;
  cs ← the_clients;
  cs ← lift (list_append cs key client);
  _ ← modify (set_clients cs);
  do_read client.

(** ** Running a request *)

(** The handle is [None] when the file could not be created, which ends in a
    shutdown; the name is in a block of MAX_PATH characters. *)
Definition open_temp_file : U (Z * cstr) :=
  a ← heapU malloc;
  dir ← gets w_current_dir;
  '(res, name) ← sys (wos_get_temp_file_name dir);
  if res =? 0 then shutdown_with_msg "error obtaining a tmp file name"
  else
    _ ← lift (defined (strlen name <? MAX_PATH));
    h ← sys (wos_create_file CreateOutput name);
    match h with
    | None => shutdown_with_msg "error creating a tmp file"
    | Some h => mret (h, Mk_cstr a (c_str name))
    end.

(** The text of the arguments. *)
Fixpoint load_all (l : list cstr) : M heap (list bytes) :=
  match l with
  | [] => mret []
  | a :: l' => t ← load a; ts ← load_all l'; mret (t :: ts)
  end.

(** The file for the standard input, when there is one. *)
Definition open_stdin (args : list cstr) (usestdin : bool) (argcount : Z) : U (option Z) :=
  if usestdin then
    _ ← lift (defined (0 <=? argcount));
    match args !! Z.to_nat argcount with
    | Some f =>
        name ← heapU (load f);
        sys (wos_create_file OpenInput name)
    | None => failM Undefined
    end
  else mret None.

Definition run_process (r : request) (d : run_data) (client : positive) (cmdline : bytes) (si : startup_info)
    (outfilehandle ghJob : Z) (outfile : cstr) : U unit :=
  pi ← sys (wos_create_process cmdline si);
  match pi with
  | None =>
      _ ← on_env (log_msg cmdline);
      _ ← CloseHandle outfilehandle;
      _ ← CloseHandle ghJob;
      send_msg_to_client client (r_id r) 0 (fmt_2f (sf_of_Z 0)) false outfile
  | Some (hProcess, hThread) =>
      ok ← sys (wos_assign_process (Some ghJob) hProcess);
      _ ← (if ok : bool then mret tt else shutdown_with_msg "failed to assign process to job object");
      a ← heapU malloc;
      key ← keygen;
      ps ← the_processes;
      ps ← lift (list_append ps key (Mk_proc a (hProcess, ghJob) (r_key r) (r_id r) outfile));
      _ ← modify (set_processes ps);
      _ ← send_started_msg_to_client client (r_id r);
      ms ← lift (to_ms_key key PROCESS);
      port ← gets w_port;
      ok ← sys (wos_set_port ghJob port ms);
      _ ← (if ok : bool then mret tt
           else shutdown_with_msg "Could not associate job with IO completion port");
      _ ← sys_ (wos_resume_thread hThread);
      _ ← CloseHandle outfilehandle;
      CloseHandle hThread
  end.

Definition run_request (r : request) : U unit :=
  _ ← heapU (touch (r_addr r));
  match req_type r with
  | REQ_INTERRUPT => failM Undefined
  | REQ_RUN d =>
      let argcount := if usestdin d then numargs d - 1 else numargs d in
      cs ← the_clients;
      client ← lift (list_lookup cs (r_key r));
      match client with
      | None => mret tt
      | Some client =>
          job ← sys wos_create_job_object;
          match job with
          | None => shutdown_with_msg "failed creating job object"
          | Some ghJob =>
              '(outfilehandle, outfile) ← open_temp_file;
              infilehandle ← open_stdin (args d) (usestdin d) argcount;
              cmdtxt ← heapU (load (cmd d));
              argtxts ← heapU (load_all (take (Z.to_nat argcount) (args d)));
              buf ← lift (build_cmd cmdtxt argtxts argcount);
              cmdline ← lift (buf_text buf);
              _ ← match request_limits (timeout d) (memlimit d) with
                  | Some lim =>
                      ok ← sys (wos_set_limits (Some ghJob) lim);
                      if ok : bool then mret tt
                      else shutdown_with_msg "error in SetInformationJobObject"
                  | None => mret tt
                  end;
              run_process r d client cmdline
                (Mk_si infilehandle (Some outfilehandle) (Some outfilehandle))
                outfilehandle ghJob outfile
          end
      end
  end.

(** ** Events *)

Definition os_kill (p : t_proc (Z * Z)) : U unit :=
  sys_ (wos_terminate_process (p_os p).1 ERROR_REQUEST_ABORTED).

Definition handle_request (r : option request) : U unit :=
  match r with
  | None => mret tt
  | Some r =>
      match req_type r with
      | REQ_RUN _ =>
          ps ← the_processes;
          parallel ← gets (λ s, g_parallel (w_env s));
          if list_length ps <? parallel then
            _ ← run_request r;
            heapU (free_request (Some r))
          else
            q ← gets w_queue;
            q ← lift (queue_push q r);
            modify (set_queue q)
      | REQ_INTERRUPT =>
          q ← gets w_queue;
          q ← heapU (remove_from_queue q (r_id r));
          _ ← modify (set_queue q);
          ps ← the_processes;
          _ ← kill_processes (λ s, g_heap (w_env s)) (λ h s, set_env (set_heap h (w_env s)) s)
                os_kill ps (r_id r);
          heapU (free_request (Some r))
      end
  end.

Definition handle_msg (client : positive) (key : Z) : U unit :=
  c ← client_get client;
  let len := to_int (u64 (rb_len (cl_readbuf c) - 1)) in
  r ← on_env (parse_request (rb_data (cl_readbuf c)) 0 len key);
  handle_request r.

Definition shutdown_server : U unit := shutdown_with_msg "last client disconnected".

Definition close_client (client : positive) (key : Z) : U unit :=
  cs ← the_clients;
  cs ← lift (list_remove cs key);
  _ ← modify (set_clients cs);
  c ← client_get client;
  _ ← CloseHandle (cl_handle c);
  _ ← heapU (free_writebuf (cl_writebuf c));
  _ ← heapU (free client);
  _ ← modify (λ s, set_store (delete client (w_store s)) s);
  single ← gets (λ s, g_single_client (w_env s));
  if single && list_is_empty cs then shutdown_server else mret tt.

Fixpoint schedule_loop (n : nat) : U unit :=
  match n with
  | O => mret tt
  | S n' =>
      ps ← the_processes;
      s ← get;
      if (list_length ps <? g_parallel (w_env s)) && negb (queue_is_empty (w_queue s)) then
        '(r, q) ← lift (queue_pop (w_queue s));
        _ ← modify (set_queue q);
        _ ← run_request r;
        _ ← heapU (free_request (Some r));
        schedule_loop n'
      else mret tt
  end.

(** Every turn takes a request from the queue. *)
Definition schedule_new_jobs : U unit :=
  q ← gets w_queue;
  schedule_loop (Z.to_nat (queue_length q)).

(** The three groups of events of a job. *)
Inductive child_event := EvIgnored | EvEnded | EvUnknown.
Definition classify_event (event : Z) : child_event :=
  if (event =? JOB_OBJECT_MSG_NEW_PROCESS) || (event =? JOB_OBJECT_MSG_ACTIVE_PROCESS_ZERO)
  then EvIgnored
  else if (event =? JOB_OBJECT_MSG_END_OF_JOB_TIME) || (event =? JOB_OBJECT_MSG_END_OF_PROCESS_TIME)
    || (event =? JOB_OBJECT_MSG_JOB_MEMORY_LIMIT) || (event =? JOB_OBJECT_MSG_PROCESS_MEMORY_LIMIT)
    || (event =? JOB_OBJECT_MSG_ABNORMAL_EXIT_PROCESS) || (event =? JOB_OBJECT_MSG_EXIT_PROCESS)
  then EvEnded
  else EvUnknown.

(** The timeout flag is the exit code of a job over its quota. *)
Definition exit_is_timeout (exitcode : Z) : bool :=
  (exitcode =? ERROR_NOT_ENOUGH_QUOTA) || (exitcode =? STATUS_QUOTA_EXCEEDED).

Definition handle_child_event (child : t_proc (Z * Z)) (client : positive) (proc_key event : Z) : U unit :=
  match classify_event event with
  | EvIgnored => mret tt
  | EvEnded =>
      _ ← sys (wos_wait (p_os child).1);
      ps ← the_processes;
      ps ← lift (list_remove ps proc_key);
      _ ← modify (set_processes ps);
      exitcode ← sys (wos_get_exit_code (p_os child).1);
      t ← sys (wos_get_process_times (p_os child).1);
      _ ← send_msg_to_client client (p_task_id child) exitcode
            (fmt_2f (ticks_to_seconds (pt_system t + pt_user t))) (exit_is_timeout exitcode)
            (p_outfile child);
      free_process child
  | EvUnknown => exit 1
  end.

(** ** Initialisation and the event loop *)

(** The loop that creates the sockets from [i] on. *)
Fixpoint create_sockets_from (i : Z) (n : nat) : U unit :=
  match n with
  | O => mret tt
  | S n' => _ ← create_server_socket i; create_sockets_from (i + 1) n'
  end.

Definition pipe_prefix : bytes := str "\\.\pipe\".

(** The pipe name is built in a block of [strlen(my_pipe_name) + 10]
    characters. *)
Definition build_pipe_name (my_pipe_name : bytes) : res bytes :=
  p ← arr_alloc (strlen my_pipe_name + 10);
  p ← strcpy p pipe_prefix;
  p ← strcat p my_pipe_name;
  buf_text p.

Definition init : U unit :=
  dir ← sys wos_getcwd;
  sn ← gets (λ s, g_socketname (w_env s));
  let my_pipe_name := wos_basename (default [] sn) in
  socketname_copy ← heapU (new_str (default [] sn));
  _ ← heapU malloc;
  name ← lift (build_pipe_name my_pipe_name);
  _ ← modify (set_names name (default [] dir));
  q ← lift init_request_queue;
  _ ← modify (set_queue q);
  parallel ← gets (λ s, g_parallel (w_env s));
  cs ← lift (init_list parallel);
  _ ← modify (set_clients cs);
  ps ← lift (init_process_list parallel);
  _ ← modify (set_processes ps);
  sockets ← lift (arr_alloc parallel);
  keys ← lift (arr_alloc parallel);
  _ ← modify (set_sockets sockets keys);
  logging ← gets (λ s, g_logging (w_env s));
  opened ← (if logging : bool then sys wos_fopen_log else mret false);
  _ ← on_env (init_logging opened);
  _ ← create_sockets_from 0 (Z.to_nat parallel);
  heapU (free_str socketname_copy).

(** [conn->kind], where [conn] points into the block of a client. *)
Definition conn_kind (ov : overlapped) : U Z :=
  match ov with
  | OvRead a => c ← client_get a; mret (cd_kind (cl_read c))
  | OvWrite a => c ← client_get a; mret (cd_kind (cl_write c))
  | OvConnect _ | OvOther => failM Undefined
  end.

(** The bytes that a finished read has stored in the buffer of a client. *)
Definition store_fill (f : option (positive * Z * bytes)) : U unit :=
  match f with
  | None => mret tt
  | Some (a, off, bs) =>
      c ← client_get a;
      rb ← lift (os_fill (cl_readbuf c) off bs);
      client_put a (Mk_client (cl_handle c) (cl_read c) (cl_write c) rb (cl_writebuf c))
  end.

Definition set_readbuf (client : positive) (f : t_readbuf → res t_readbuf) : U unit :=
  c ← client_get client;
  rb ← lift (f (cl_readbuf c));
  client_put client (Mk_client (cl_handle c) (cl_read c) (cl_write c) rb (cl_writebuf c)).

(** An event of the client with [key]. *)
Definition handle_client_packet (p : packet) (client : positive) (key : Z) : U unit :=
  kind ← conn_kind (pk_ov p);
  if kind =? READOP then
    _ ← set_readbuf client (λ b, have_read b (pk_numbytes p));
    err ← gets (λ s, wos_last_error (w_world s));
    if pk_res p then
      _ ← handle_msg client key;
      _ ← set_readbuf client (λ b, mret (clear_readbuf b));
      do_read client
    else if (pk_numbytes p =? 0) && (err =? ERROR_BROKEN_PIPE) then close_client client key
    else do_read client
  else if kind =? WRITEOP then
    c ← client_get client;
    wb ← heapU (have_written (cl_writebuf c) (to_int (pk_numbytes p)));
    _ ← client_put client (Mk_client (cl_handle c) (cl_read c) (cl_write c) (cl_readbuf c) wb);
    try_write client
  else exit 1.

Definition handle_socket_packet (p : packet) (key server_num : Z) : U unit :=
  if negb (server_num =? -1) then
    err ← gets (λ s, wos_last_error (w_world s));
    if negb (pk_res p) && negb (err =? ERROR_PIPE_CONNECTED)
    then shutdown_with_msg "error connecting client"
    else accept_client key server_num
  else
    cs ← the_clients;
    client ← lift (list_lookup cs key);
    match client with
    | None => mret tt
    | Some client => handle_client_packet p client key
    end.

Definition handle_process_packet (p : packet) (key : Z) : U unit :=
  ps ← the_processes;
  proc ← lift (list_lookup ps key);
  match proc with
  | None => mret tt
  | Some proc =>
      _ ← heapU (touch (p_addr proc));
      cs ← the_clients;
      client ← lift (list_lookup cs (p_client_key proc));
      match client with
      | None => mret tt
      | Some client => handle_child_event proc client key (pk_numbytes p)
      end
  end.

(** The part of the loop after GetQueuedCompletionStatus. *)
Definition handle_packet (p : packet) : U unit :=
  _ ← store_fill (pk_fill p);
  if pk_mskey p =? 0 then shutdown_with_msg "GetQueuedCompletionStatus failed"
  else
    let key := key_of_ms_key (pk_mskey p) in
    let kind := kind_of_ms_key (pk_mskey p) in
    s ← get;
    server_num ← lift (get_server_num (w_server_key s) (g_parallel (w_env s)) key);
    if kind =? SOCKET then handle_socket_packet p key server_num
    else if kind =? PROCESS then handle_process_packet p key
    else exit 1.

Definition main_step : U unit :=
  _ ← schedule_new_jobs;
  port ← gets w_port;
  p ← sys (wos_get_packet port);
  handle_packet p.

(** The globals when the program starts. *)
Definition initial_wst (w : W) : wst W :=
  Mk_wst initial_genv (Mk_queue [] 0 0 0) None None ∅ ∅ [] [] 1 None [] [] w.

Definition main_start (strtol_einval : bytes → bool) (opts : list getopt_result)
    (optind argc : Z) : U unit :=
  _ ← on_env (parse_options strtol_einval opts optind argc);
  init.
End server.
