(* ===== verification/ServerWinProps.v ===== *)
(** * Properties of the Windows server

    Completion keys and their decoding, the search for a server socket, the
    limits of a job, and what happens to the process of a client that has
    disconnected. *)

From S2P Require Import Prelude CMem ArrayList Queue ReadBuf WriteBuf Env Request Proc UnixOS WinOS CmdLine ServerWin.

(** ** Lemmas *)

Lemma to_ms_key_ok key kind :
  0 ≤ key < 1073741824 → kind = SOCKET ∨ kind = PROCESS →
  to_ms_key key kind = Ok (key * 2 + kind).
Proof.
  intros Hk Hd. unfold to_ms_key. assert (0 ≤ kind ≤ 1) by (unfold SOCKET, PROCESS in *; lia).
  rewrite int_op_ok by (unfold INT_MIN, INT_MAX; lia). simpl.
  rewrite int_op_ok by (unfold INT_MIN, INT_MAX; lia). simpl.
  unfold mret, res_ret. f_equal. apply u64_small. unfold SIZE_MOD. lia.
Qed.

Lemma to_ms_key_overflow key kind : 1073741824 ≤ key → to_ms_key key kind = Fail Undefined.
Proof.
  intros Hk. unfold to_ms_key, int_op, in_int, INT_MIN, INT_MAX.
  by guard_false ((-2147483648 <=? key * 2) && (key * 2 <=? 2147483647)).
Qed.

(** What the loop recovers from a completion key. *)
Lemma ms_key_decode key kind :
  0 ≤ key < 1073741824 → kind = SOCKET ∨ kind = PROCESS →
  key_of_ms_key (key * 2 + kind) = key ∧ kind_of_ms_key (key * 2 + kind) = kind.
Proof.
  intros Hk Hd. assert (0 ≤ kind < 2) as Hr by (unfold SOCKET, PROCESS in *; lia). split.
  - unfold key_of_ms_key. rewrite (Z.div_add_l key 2 kind) by lia. rewrite (Z.div_small kind 2) by lia.
    rewrite Z.add_0_r. apply to_int_small. unfold INT_MAX. lia.
  - unfold kind_of_ms_key. rewrite Z.add_comm, Z.mod_add, (Z.mod_small kind 2) by lia.
    apply to_int_small. unfold INT_MAX. lia.
Qed.

(** The index of the first occurrence of [key], counted from [i]; -1 if there
    is none. *)
Definition index_of (key : Z) (i : nat) (keys : list Z) : Z :=
  match list_find (key =.) keys with Some (j, _) => Z.of_nat (i + j) | None => -1 end.

Lemma index_of_cons key i k keys :
  index_of key i (k :: keys) = if k =? key then Z.of_nat i else index_of key (S i) keys.
Proof.
  unfold index_of. simpl. destruct (Z.eqb_spec k key) as [->|Hne].
  - rewrite decide_True by done. f_equal. lia.
  - rewrite decide_False by done. destruct (list_find _ keys) as [[j x]|]; simpl; [|done]. f_equal. lia.
Qed.

Lemma lookup_some_middle {A} (pre : list A) k rest :
  ((Some <$> pre) ++ Some k :: rest) !! Z.to_nat (Z.of_nat (length pre)) = Some (Some k).
Proof. rewrite Nat2Z.id, <- (length_fmap Some pre). by rewrite list_lookup_middle. Qed.

Lemma get_server_num_from_spec pre keys key n :
  (n ≤ length keys)%nat →
  get_server_num_from ((Some <$> pre) ++ (Some <$> keys)) key (Z.of_nat (length pre)) n =
  Ok (index_of key (length pre) (take n keys)).
Proof.
  revert pre n. induction keys as [|k keys IH]; intros pre [|n] Hn; simpl in *; try done; [lia|].
  rewrite (arr_get_ok _ _ k); [|lia|apply lookup_some_middle]. simpl. rewrite index_of_cons.
  destruct (k =? key); [done|].
  specialize (IH (pre ++ [k]) n ltac:(lia)). rewrite fmap_app, length_app, <- app_assoc in IH. simpl in IH.
  replace (Z.of_nat (length pre) + 1) with (Z.of_nat (length pre + 1)) by lia.
  etrans; [exact IH|]. do 2 f_equal. lia.
Qed.

Lemma get_server_num_from_past pre keys key n :
  (length keys < n)%nat → key ∉ keys →
  get_server_num_from ((Some <$> pre) ++ (Some <$> keys)) key (Z.of_nat (length pre)) n = Fail Undefined.
Proof.
  revert pre n. induction keys as [|k keys IH]; intros pre [|n] Hn Hk; simpl in *; try lia.
  - unfold arr_get. guard_true (0 <=? Z.of_nat (length pre)). rewrite app_nil_r, Nat2Z.id.
    by rewrite lookup_ge_None_2 by (rewrite length_fmap; lia).
  - rewrite not_elem_of_cons in Hk. destruct Hk as [Hne Hk].
    rewrite (arr_get_ok _ _ k); [|lia|apply lookup_some_middle].
    simpl. destruct (Z.eqb_spec k key); [congruence|].
    specialize (IH (pre ++ [k]) n ltac:(lia) Hk). rewrite fmap_app, length_app, <- app_assoc in IH. simpl in IH.
    replace (Z.of_nat (length pre) + 1) with (Z.of_nat (length pre + 1)) by lia. exact IH.
Qed.

(** ** Properties *)

(** A completion key carries the server's own key and the kind of the
    event: for every key below 2^30 the packed key is not 0 (which the loop
    takes for a failure), and key_of_ms_key and kind_of_ms_key recover both.
    From 2^30 on, the computation in [int] overflows. *)
Theorem ms_key_round_trip key kind :
  1 ≤ key → kind = SOCKET ∨ kind = PROCESS →
  if key <? 1073741824 then
    ∃ ms, to_ms_key key kind = Ok ms ∧ ms ≠ 0 ∧ key_of_ms_key ms = key ∧ kind_of_ms_key ms = kind
  else to_ms_key key kind = Fail Undefined.
Proof.
  intros Hk Hd. destruct (Z.ltb_spec key 1073741824); [|by apply to_ms_key_overflow].
  exists (key * 2 + kind). assert (0 ≤ kind < 2) as Hr by (unfold SOCKET, PROCESS in *; lia).
  split_and!; [by apply to_ms_key_ok; [lia|]|lia|by apply ms_key_decode; [lia|]..].
Qed.

Lemma ms_key_round_trip_witness :
  ∃ ms, to_ms_key 5 PROCESS = Ok ms ∧ ms ≠ 0 ∧ key_of_ms_key ms = 5 ∧ kind_of_ms_key ms = PROCESS.
Proof. apply (ms_key_round_trip 5 PROCESS); [lia|by right]. Defined.

(** get_server_num returns the number of the first server socket among the
    first [parallel] that has the key, and -1 when there is none. This holds
    as long as [parallel] is not larger than the array, whose size is the
    value of [parallel] at the start; when a client has raised [parallel], the
    search for the key of a client or of a process reads beyond the array. *)
Theorem get_server_num_correct keys parallel key :
  0 ≤ parallel →
  if parallel <=? Z.of_nat (length keys)
  then get_server_num (Some <$> keys) parallel key = Ok (index_of key 0 (take (Z.to_nat parallel) keys))
  else key ∉ keys → get_server_num (Some <$> keys) parallel key = Fail Undefined.
Proof.
  intros Hp. unfold get_server_num. destruct (Z.leb_spec parallel (Z.of_nat (length keys))).
  - apply (get_server_num_from_spec [] keys). lia.
  - intros Hk. apply (get_server_num_from_past [] keys); [lia|done].
Qed.

Lemma get_server_num_correct_witness : get_server_num [Some 1; Some 4] 2 4 = Ok 1.
Proof. apply (get_server_num_correct [1; 4] 2 4). lia. Defined.

(** The limits given to the job are those of the request: a limit of 0 sets
    none, a time of [t] seconds is [t] * 10^7 ticks, which fits the signed
    64-bit field for every [int], and a memory limit of [m] MiB is [m] * 2^20
    bytes, which does not wrap for any [unsigned int]. *)
Theorem request_limits_exact timeout memlimit :
  INT_MIN ≤ timeout ≤ INT_MAX → 0 ≤ memlimit < UINT_MOD →
  match request_limits timeout memlimit with
  | None => timeout = 0 ∧ memlimit = 0
  | Some lim =>
      (jl_time lim = None ↔ timeout = 0) ∧ (jl_memory lim = None ↔ memlimit = 0) ∧
      (∀ t, jl_time lim = Some t → t = timeout * 10 ^ 7 ∧ - 2 ^ 63 ≤ t < 2 ^ 63) ∧
      (∀ m, jl_memory lim = Some m → m = memlimit * 2 ^ 20)
  end.
Proof.
  unfold INT_MIN, INT_MAX, UINT_MOD. intros Ht Hm. unfold request_limits.
  destruct (Z.eqb_spec timeout 0), (Z.eqb_spec memlimit 0); simpl; try done.
  all: split_and!; try done; intros x [= <-]; rewrite ?u64_small by (unfold SIZE_MOD; lia); lia.
Qed.

Lemma request_limits_exact_witness :
  match request_limits 5 1000 with
  | None => 5 = 0 ∧ 1000 = 0
  | Some lim =>
      (jl_time lim = None ↔ 5 = 0) ∧ (jl_memory lim = None ↔ 1000 = 0) ∧
      (∀ t, jl_time lim = Some t → t = 5 * 10 ^ 7 ∧ - 2 ^ 63 ≤ t < 2 ^ 63) ∧
      (∀ m, jl_memory lim = Some m → m = 1000 * 2 ^ 20)
  end.
Proof. apply (request_limits_exact 5 1000); unfold INT_MIN, INT_MAX, UINT_MOD; lia. Defined.

(** A process whose client has gone: it is in the list of processes, and its
    client's key is in no client list. *)
Definition orphan {W} (s : wst W) (key : Z) (p : t_proc (Z * Z)) : Prop :=
  ∃ l kvs cs ckvs,
    w_processes s = Some l ∧ list_rep l kvs ∧ assoc key kvs = Some p ∧
    is_live (p_addr p) (g_heap (w_env s)) = true ∧
    w_clients s = Some cs ∧ list_rep cs ckvs ∧ assoc (p_client_key p) ckvs = None.

(** the end of a process whose client has disconnected is ignored: whatever
    the job reports for it, handle_packet leaves the state as it is, so that
    the process stays in the list and keeps its slot for ever. *)
Theorem orphan_process_kept {W} `{WinOS W} (s : wst W) key p pk keys :
  orphan s key p → 1 ≤ key < 1073741824 →
  w_server_key s = Some <$> keys → 0 ≤ g_parallel (w_env s) ≤ Z.of_nat (length keys) →
  pk_mskey pk = key * 2 + PROCESS → pk_fill pk = None →
  handle_packet pk s = Done tt s.
Proof.
  intros (l & kvs & cs & ckvs & Hps & Hl & Hp & Hlive & Hcs & Hc & Hnone) Hkey Hkeys Hpar Hms Hfill.
  unfold PROCESS in Hms.
  assert (key_of_ms_key (pk_mskey pk) = key) as Hk.
  { unfold key_of_ms_key. rewrite Hms, Z.div_add_l by lia. change (1 / 2) with 0. rewrite Z.add_0_r.
    apply to_int_small. unfold INT_MAX. lia. }
  assert (kind_of_ms_key (pk_mskey pk) = PROCESS) as Hkind.
  { unfold kind_of_ms_key. by rewrite Hms, Z.add_comm, Z.mod_add by lia. }
  unfold handle_packet. rewrite Hfill. destruct (Z.eqb_spec (pk_mskey pk) 0); [lia|].
  rewrite Hk, Hkind. unfold store_fill, get, lift, mbind, M_bind, mret, M_ret. rewrite Hkeys. unfold get_server_num.
  rewrite (get_server_num_from_spec [] keys) by lia. simpl.
  unfold handle_process_packet, the_processes, the_clients, gets, lift, mbind, M_bind, mret, M_ret. rewrite Hps.
  rewrite (list_lookup_rep _ _ _ Hl), Hp.
  unfold heapU, on_env, on_heap, zoom, touch. rewrite Hlive. simpl.
  replace (set_env (set_heap (g_heap (w_env s)) (w_env s)) s) with s by (by destruct s as [[]]).
  by rewrite Hcs, (list_lookup_rep _ _ _ Hc), Hnone.
Qed.

Definition sample_orphan : t_proc (Z * Z) :=
  Mk_proc 1 (30, 31) 7 (Mk_cstr 2 (str "12")) (Mk_cstr 3 (str "out")).
Definition sample_wst : wst unit :=
  Mk_wst (Mk_genv (Mk_heap {[1%positive; 2%positive; 3%positive]} 4) 1 (Some (str "s")) false false None)
    (Mk_queue [None] 0 0 1) (Some (Mk_list [Some 5] [Some sample_orphan] 1 1))
    (Some (Mk_list [None] [None] 0 1)) ∅ ∅ [Some 9%positive] [Some 1] 6 (Some 40) [] [] tt.

Lemma sample_orphan_ok : orphan sample_wst 5 sample_orphan.
Proof.
  exists (Mk_list [Some 5] [Some sample_orphan] 1 1), [(5, sample_orphan)], (Mk_list [None] [None] 0 1), [].
  split_and!; try done; split_and!; try by_computation; try (simpl; lia).
  intros [|[|i]] k d Hi; simplify_eq/=; done.
Qed.

Lemma orphan_process_kept_witness :
  @handle_packet unit failing_win
    (Mk_packet true JOB_OBJECT_MSG_EXIT_PROCESS 11 OvOther None) sample_wst = Done tt sample_wst.
Proof.
  refine (@orphan_process_kept unit failing_win sample_wst 5 sample_orphan
    (Mk_packet true JOB_OBJECT_MSG_EXIT_PROCESS 11 OvOther None) [1] sample_orphan_ok _ _ _ _ _);
    try reflexivity; simpl; lia.
Defined.
