(* ===== verification/ServerWinInv.v ===== *)
(** * The invariant of the Windows server

    A [wview] is what a state of the server stands for: the queued requests,
    the running processes with their keys, the clients and the server sockets.
    [winv own hs v s] relates a view to a state: every structure represents its
    part of the view, every block and every handle has one owner (the blocks
    [own] and the handles [hs] belong to the caller), keys are unique, and the
    operations under way in the operating system are those of the view: a read
    only into the buffer of a client that has prepared it, a write only of the
    message its client is sending, a connection only on a server socket. *)

From S2P Require Import Prelude CMem ArrayList Queue ReadBuf WriteBuf Env Request Proc UnixOS Messages WinOS CmdLine ServerWin ServerWinProps.

Record wclient := Mk_wclient {
  wc_addr : positive;
  wc_key : Z;
  wc_handle : Z;
  wc_in : bytes;           (* the bytes read and not yet handled *)
  wc_out : list cstr;      (* the messages to send *)
  wc_sent : Z;             (* how much of the first one has gone *)
  wc_ready : bool;         (* the buffer has room for a read *)
}.

Record wsocket := Mk_wsocket {
  so_key : Z;
  so_addr : positive;
  so_handle : Z;
}.

Record wview := Mk_wview {
  x_reqs : list request;
  x_procs : list (Z * t_proc (Z * Z));
  x_clients : list wclient;
  x_socks : list wsocket;
}.

Definition client_own (c : wclient) : list positive := wc_addr c :: (c_addr <$> wc_out c).
Definition proc_handles (p : t_proc (Z * Z)) : list Z := [(p_os p).1; (p_os p).2].

(** The blocks and the handles of a view. *)
Definition owned (v : wview) : list positive :=
  concat (req_own <$> x_reqs v) ++ concat ((λ kp, proc_own kp.2) <$> x_procs v) ++
  concat (client_own <$> x_clients v) ++ (so_addr <$> x_socks v).
Definition handles (v : wview) : list Z :=
  concat ((λ kp, proc_handles kp.2) <$> x_procs v) ++ (wc_handle <$> x_clients v) ++ (so_handle <$> x_socks v).
Definition conn_keys (v : wview) : list Z := (wc_key <$> x_clients v) ++ (so_key <$> x_socks v).

Definition client_entry (c : wclient) : Z * positive := (wc_key c, wc_addr c).

(** The completion keys of a connection and of a process. *)
Definition conn_ms_key (key : Z) : Z := key * 2 + SOCKET.
Definition proc_ms_key (key : Z) : Z := key * 2 + PROCESS.

(** The record of a client holds what its view says; it is writing exactly
    when there is something to send. *)
Definition client_rep (store : gmap positive t_client) (c : wclient) : Prop :=
  ∃ cl, store !! wc_addr c = Some cl ∧ cl_handle cl = wc_handle c ∧
        cd_kind (cl_read cl) = READOP ∧ cd_kind (cl_write cl) = WRITEOP ∧
        readbuf_rep (cl_readbuf cl) (wc_in c) ∧
        (wc_ready c = true → Z.of_nat (length (wc_in c)) + READ_ONCE ≤ rb_capacity (cl_readbuf cl)) ∧
        writebuf_rep (cl_writebuf cl) (wc_out c) ∧
        w_is_writing (cl_writebuf cl) = bool_decide (wc_out c ≠ []) ∧
        w_pointer (cl_writebuf cl) = wc_sent c.

Definition socket_rep (servers : gmap positive t_server) (x : wsocket) : Prop :=
  ∃ sv, servers !! so_addr x = Some sv ∧ sv_handle sv = so_handle x.

(** A text that no size computation overflows on. *)
Definition short (t : cstr) : Prop := Z.of_nat (length (c_txt t)) ≤ alloc_limit.

(** The arguments that CreateProcess gets: with usestdin the last one names
    the file for the standard input. *)
Definition passed_args {A} (stdin : bool) (args : list A) : list A :=
  take (length args - (if stdin then 1 else 0)) args.

(** A run request that run_request can handle: a file for the standard input
    when one is asked for, and a command line that fits its buffer. *)
Definition run_fits (stdin : bool) (cmd : bytes) (args : list bytes) : Prop :=
  (stdin = true → args ≠ []) ∧
  Z.of_nat (length (cmd_text (c_str cmd) (c_str <$> passed_args stdin args))) < CMD_SIZE.
Definition content_fits (r : request_content) : Prop :=
  match r with CRun _ _ _ stdin cmd args => run_fits stdin cmd args | CInterrupt _ => True end.

Definition runnable (r : request) : Prop :=
  req_wf r ∧ req_type r ≠ REQ_INTERRUPT ∧ content_fits (content r) ∧ short (r_id r).

Definition proc_ok (p : t_proc (Z * Z)) : Prop :=
  short (p_task_id p) ∧ Z.of_nat (length (c_txt (p_outfile p))) < MAX_PATH.

(** The operations under way, when the keys below [gen] have been given out. *)
Record io_ok (gen : Z) (v : wview) (io : win_io) : Prop := {
  o_connects : ∀ a k, io_connects io !! a = Some k →
    ∃ x, x ∈ x_socks v ∧ so_addr x = a ∧ k = conn_ms_key (so_key x);
  o_reads : ∀ a k off n, io_reads io !! a = Some (k, off, n) →
    ∃ c, c ∈ x_clients v ∧ wc_addr c = a ∧ wc_ready c = true ∧ k = conn_ms_key (wc_key c) ∧
         off = Z.of_nat (length (wc_in c)) ∧ n = READ_ONCE;
  o_writes : ∀ a k n, io_writes io !! a = Some (k, n) →
    ∃ key, k = conn_ms_key key ∧ 1 ≤ key < gen ∧ (key ∉ so_key <$> x_socks v) ∧
      ∀ c, c ∈ x_clients v → wc_key c = key →
        a = wc_addr c ∧ ∃ m ms, wc_out c = m :: ms ∧ n = Z.of_nat (length (c_txt m)) - wc_sent c;
  o_jobs : ∀ k, k ∈ io_jobs io → ∃ key, k = proc_ms_key key ∧ 1 ≤ key < gen;
  o_clients : ∀ c, c ∈ x_clients v → io_keys io !! wc_handle c = Some (conn_ms_key (wc_key c));
  o_socks : ∀ x, x ∈ x_socks v → io_keys io !! so_handle x = Some (conn_ms_key (so_key x));
}.

(** Keys are given out below 2^30. *)
Definition KEY_LIMIT : Z := 1073741824.

Section inv.
Context {W : Type} `{OL : WinOSLaws W}.

(** [free] cells at the end of the arrays of sockets are not used yet. *)
Record winv_at (free : nat) (own : list positive) (hs : list Z) (v : wview) (s : wst W) : Prop := {
  i_queue : queue_rep (ServerWin.w_queue s) (x_reqs v);
  i_reqs : Forall runnable (x_reqs v);
  i_procs : ∃ l, w_processes s = Some l ∧ list_rep l (x_procs v);
  i_procs_ok : Forall (λ kp, proc_ok kp.2) (x_procs v);
  i_clients : ∃ l, w_clients s = Some l ∧ list_rep l (client_entry <$> x_clients v);
  i_store : Forall (client_rep (w_store s)) (x_clients v);
  i_sockets : w_server_socket s = (Some <$> (so_addr <$> x_socks v)) ++ replicate free None;
  i_server_keys : w_server_key s = (Some <$> (so_key <$> x_socks v)) ++ replicate free None;
  i_servers : Forall (socket_rep (w_servers s)) (x_socks v);
  i_keys : NoDup (conn_keys v);
  i_range : Forall (λ k, 1 ≤ k < w_gen_key s) (conn_keys v);
  i_gen : 1 ≤ w_gen_key s ≤ KEY_LIMIT;
  i_io : io_ok (w_gen_key s) v (win_io_of (w_world s));
  i_handles : NoDup (handles v ++ hs);
  i_open : ∀ h, h ∈ handles v ++ hs → h ∈ io_open (win_io_of (w_world s));
  i_heap : heap_ok (g_heap (w_env s)) (owned v ++ own);
  i_log : log_ok (w_env s);
  i_parallel : 1 ≤ g_parallel (w_env s) ≤ Z.of_nat (length (x_socks v) + free);
}.
End inv.
Abbreviation winv := (winv_at 0).

(** ** Rules for the basic computations *)

Section rules.
Context {W : Type} `{OS : WinOS W}.
Implicit Types (s : wst W).

(** Preconditions that allow the early stops of Messages.v; the server copies
    no overlapping regions. *)
#[local] Instance no_overlap : MayOverlap := False.

Definition wpw {A} (m : M (wst W) A) (Q : A → wst W → Prop) (s : wst W) : Prop :=
  wp any_stop m Q s.

Lemma wpw_bind {A B} (m : M (wst W) A) (f : A → M (wst W) B) Q s :
  wpw m (λ a, wpw (f a) Q) s → wpw (m ≫= f) Q s.
Proof. apply wp_bind. Qed.

Lemma wpw_mono {A} (m : M (wst W) A) (P Q : A → wst W → Prop) s :
  wpw m P s → (∀ a s', P a s' → Q a s') → wpw m Q s.
Proof. apply wp_mono. Qed.

Lemma wpw_lift {A} (r : res A) Q s : safe True r (λ a, Q a s) → wpw (lift r) Q s.
Proof. unfold wpw, wp, safe, lift. destruct r; [done|]. by intros [-> _]. Qed.

Lemma wpw_ok {A} (r : res A) a Q s : r = Ok a → Q a s → wpw (lift r) Q s.
Proof. intros ->. done. Qed.

Lemma wpw_gets {A} (f : wst W → A) Q s : Q (f s) s → wpw (gets f) Q s.
Proof. apply wp_gets. Qed.

Lemma wpw_get Q s : Q s s → wpw get Q s.
Proof. done. Qed.

Lemma wpw_modify f Q s : Q tt (f s) → wpw (modify f) Q s.
Proof. apply wp_modify. Qed.

Lemma wpw_ret {A} (a : A) Q s : Q a s → wpw (mret a) Q s.
Proof. done. Qed.

Lemma wpw_exit {A} code (Q : A → wst W → Prop) s : wpw (exit code) Q s.
Proof. done. Qed.

Lemma wpw_sys {A} (f : W → A * W) (Q : A → wst W → Prop) s :
  (∀ a w, f (w_world s) = (a, w) → Q a (set_world w s)) → wpw (sys f) Q s.
Proof. intros H. unfold wpw, wp, sys. destruct (f (w_world s)) eqn:Hf. by apply H. Qed.

Definition with_heap (h : heap) s : wst W := set_env (set_heap h (w_env s)) s.

Lemma wpw_heap {A} (m : M heap A) (Q : A → wst W → Prop) s :
  (∀ E : stop heap → Prop, orderly E → wp E m (λ a h, Q a (with_heap h s)) (g_heap (w_env s))) →
  wpw (heapU m) Q s.
Proof.
  intros H. unfold wpw, heapU, on_env. apply wp_zoom. unfold on_heap. apply wp_zoom.
  apply H. by intros [].
Qed.

Lemma wpw_env {A} (m : M genv A) (Q : A → wst W → Prop) s :
  (∀ E : stop genv → Prop, orderly E → wp E m (λ a g, Q a (set_env g s)) (w_env s)) →
  wpw (on_env m) Q s.
Proof. intros H. unfold wpw, on_env. apply wp_zoom. apply H. by intros []. Qed.

Lemma wpw_client_get a cl (Q : t_client → wst W → Prop) s :
  w_store s !! a = Some cl → Q cl s → wpw (client_get a) Q s.
Proof. intros Ha HQ. unfold wpw, wp, client_get. by rewrite Ha. Qed.

Lemma wpw_client_put a cl cl' (Q : unit → wst W → Prop) s :
  w_store s !! a = Some cl → Q tt (set_store (<[a := cl']> (w_store s)) s) →
  wpw (client_put a cl') Q s.
Proof. intros Ha HQ. unfold wpw, wp, client_put. by rewrite Ha. Qed.

Lemma wpw_server_get a sv (Q : t_server → wst W → Prop) s :
  w_servers s !! a = Some sv → Q sv s → wpw (server_get a) Q s.
Proof. intros Ha HQ. unfold wpw, wp, server_get. by rewrite Ha. Qed.

Lemma wpw_the_clients l (Q : t_list positive → wst W → Prop) s :
  w_clients s = Some l → Q l s → wpw the_clients Q s.
Proof. intros Hl HQ. unfold the_clients. apply wpw_bind, wpw_gets. by rewrite Hl. Qed.

Lemma wpw_the_processes l (Q : t_list (t_proc (Z * Z)) → wst W → Prop) s :
  w_processes s = Some l → Q l s → wpw the_processes Q s.
Proof. intros Hl HQ. unfold the_processes. apply wpw_bind, wpw_gets. by rewrite Hl. Qed.

Lemma set_world_id s : set_world (w_world s) s = s.
Proof. by destruct s. Qed.

Lemma with_heap_id s : with_heap (g_heap (w_env s)) s = s.
Proof. by destruct s as [[]]. Qed.
(** ** Shutting down

    It needs the records of the sockets, the clients and the processes. *)
Definition live_sockets s : Prop :=
  ∀ i, 0 ≤ i < g_parallel (w_env s) →
  ∃ a sv, arr_get (w_server_socket s) i = Ok a ∧ w_servers s !! a = Some sv.

Definition can_stop s : Prop :=
  log_ok (w_env s) ∧ live_sockets s ∧
  (∀ l, w_clients s = Some l →
     ∃ kvs, list_rep l kvs ∧ Forall (λ kv, is_Some (w_store s !! kv.2)) kvs) ∧
  (∀ l, w_processes s = Some l →
     ∃ kvs own, list_rep l kvs ∧ heap_ok (g_heap (w_env s)) (concat ((λ kp, proc_own kp.2) <$> kvs) ++ own)).

Lemma wpw_CloseHandle h (Q : unit → wst W → Prop) s :
  Q tt (set_world (wos_close_handle (Some h) (w_world s)) s) → wpw (CloseHandle h) Q s.
Proof. intros HQ. unfold CloseHandle, sys_. by apply wpw_modify. Qed.

Lemma wpw_close_servers i n (Q : unit → wst W → Prop) s :
  live_sockets s → 0 ≤ i → i + Z.of_nat n ≤ Z.max i (g_parallel (w_env s)) → (∀ w, Q tt (set_world w s)) →
  wpw (close_servers_from (w_server_socket s) i n) Q s.
Proof.
  revert i s. induction n as [|n IH]; intros i s Hl Hi Hn HQ; simpl.
  - apply wpw_ret. rewrite <- (set_world_id s). apply HQ.
  - destruct (Hl i) as (a & sv & Ha & Hsv); [lia|]. apply wpw_bind. eapply wpw_ok; [exact Ha|].
    apply wpw_bind. eapply wpw_server_get; [exact Hsv|]. apply wpw_bind, wpw_CloseHandle.
    apply (IH (i + 1) (set_world _ s)); [exact Hl|lia|simpl; lia|]. intros w. apply (HQ w).
Qed.

Lemma wpw_close_clients l kvs i n (Q : unit → wst W → Prop) s :
  list_rep l kvs → Forall (λ kv, is_Some (w_store s !! kv.2)) kvs → (i + n = length kvs)%nat →
  (∀ w, Q tt (set_world w s)) → wpw (close_clients_from l (Z.of_nat i) n) Q s.
Proof.
  intros Hl Hs. revert i s Hs. induction n as [|n IH]; intros i s Hs Hn HQ; simpl.
  - apply wpw_ret. rewrite <- (set_world_id s). apply HQ.
  - destruct (lookup_lt_is_Some_2 kvs i) as [[k a] Hk]; [lia|].
    pose proof Hl as (Hlen & Hcap & Hle & _ & Hd & Hkv). destruct (Hkv _ _ _ Hk) as [_ Hdi].
    apply wpw_bind. eapply wpw_ok; [apply arr_get_ok; [lia|rewrite Nat2Z.id; exact Hdi]|].
    destruct (proj1 (Forall_lookup _ _) Hs _ _ Hk) as [cl Hcl].
    apply wpw_bind. eapply wpw_client_get; [exact Hcl|]. apply wpw_bind, wpw_CloseHandle.
    replace (Z.of_nat i + 1) with (Z.of_nat (S i)) by lia. apply (IH (S i) (set_world _ s)); [exact Hs|lia|].
    intros w'. apply (HQ w').
Qed.

Lemma wpw_free_process p own (Q : unit → wst W → Prop) s :
  heap_ok (g_heap (w_env s)) (proc_own p ++ own) →
  (∀ h, heap_ok h own → Q tt (with_heap h
     (set_world (wos_close_handle (Some (p_os p).2) (wos_close_handle (Some (p_os p).1) (w_world s))) s))) →
  wpw (free_process p) Q s.
Proof.
  intros Hok HQ. unfold free_process. apply wpw_bind, wpw_heap. intros E _.
  eapply wp_touch; [exact Hok|unfold proc_own; set_solver|]. rewrite with_heap_id.
  apply wpw_bind, wpw_CloseHandle, wpw_bind, wpw_CloseHandle, wpw_heap. intros E' _.
  eapply wp_free_process; [exact Hok|]. intros h Hh. by apply HQ.
Qed.

Lemma wpw_free_processes l kvs own i n (Q : unit → wst W → Prop) s :
  list_rep l kvs → heap_ok (g_heap (w_env s)) (concat ((λ kp, proc_own kp.2) <$> drop i kvs) ++ own) →
  (i + n = length kvs)%nat → log_ok (w_env s) → (∀ s', log_ok (w_env s') → Q tt s') →
  wpw (free_processes_from l (Z.of_nat i) n) Q s.
Proof.
  intros Hl. revert i s. induction n as [|n IH]; intros i s Hok Hn Hlog HQ; simpl; [by apply wpw_ret, HQ|].
  destruct (lookup_lt_is_Some_2 kvs i) as [[k p] Hk]; [lia|].
  pose proof Hl as (Hlen & Hcap & Hle & _ & Hd & Hkv). destruct (Hkv _ _ _ Hk) as [_ Hdi].
  apply wpw_bind. eapply wpw_ok; [apply arr_get_ok; [lia|rewrite Nat2Z.id; exact Hdi]|].
  rewrite (drop_S _ _ _ Hk) in Hok. cbn [fmap list_fmap concat snd] in Hok. rewrite <- app_assoc in Hok.
  apply wpw_bind. eapply wpw_free_process; [exact Hok|]. intros h Hh.
  replace (Z.of_nat i + 1) with (Z.of_nat (S i)) by lia. apply IH; [exact Hh|lia|exact Hlog|exact HQ].
Qed.

Lemma wpw_shutdown {A} msg (Q : A → wst W → Prop) s : can_stop s → wpw (shutdown_with_msg msg) Q s.
Proof.
  intros (Hlog & Hsv & Hcl & Hpr). unfold shutdown_with_msg. apply wpw_bind, wpw_gets, wpw_bind.
  assert (∀ w, wpw (s ← get;
    _ ← close_servers_from (w_server_socket s) 0 (Z.to_nat (g_parallel (w_env s)));
    _ ← match w_clients s with Some l => close_clients_from l 0 (Z.to_nat (list_length l)) | None => mret tt end;
    _ ← match w_processes s with Some l => free_processes_from l 0 (Z.to_nat (list_length l)) | None => mret tt end;
    on_env (logging_shutdown (str msg))) Q (set_world w s)) as Hrest.
  { intros w. apply wpw_bind, wpw_get, wpw_bind.
    assert (∀ s' : wst W, log_ok (w_env s') → wpw (on_env (logging_shutdown (str msg))) Q s') as Hend.
    { intros s' Hs'. apply wpw_env. intros E HE. apply wp_logging_shutdown; [done|]. intros f _. by apply HE. }
    assert (∀ w', wpw (_ ← match w_processes s with Some l => free_processes_from l 0 (Z.to_nat (list_length l)) | None => mret tt end;
      on_env (logging_shutdown (str msg))) Q (set_world w' s)) as Hprocs.
    { intros w'. apply wpw_bind. destruct (w_processes s) as [l|]; [|by apply wpw_ret, Hend].
      destruct (Hpr _ eq_refl) as (kvs & own & Hl & Hok). change 0 with (Z.of_nat 0).
      eapply wpw_free_processes; [exact Hl|exact Hok| |exact Hlog|exact Hend]. rewrite (list_rep_len _ _ Hl). lia. }
    apply (wpw_close_servers 0 _ _ (set_world w s)); [exact Hsv|lia|simpl; lia|].
    intros w'. apply wpw_bind. simpl. destruct (w_clients s) as [l|]; [|apply wpw_ret, Hprocs].
    destruct (Hcl _ eq_refl) as (kvs & Hl & Hst). change 0 with (Z.of_nat 0).
    eapply wpw_close_clients; [exact Hl|exact Hst|rewrite (list_rep_len _ _ Hl); lia|]. intros w2. apply Hprocs. }
  destruct (w_port s).
  - apply wpw_CloseHandle, Hrest.
  - apply wpw_ret. rewrite <- (set_world_id s). apply Hrest.
Qed.
End rules.
