(* ===== verification/ServerWinHandlers.v ===== *)
(** * The handlers of the Windows server preserve its invariant

    One rule per function of src/server/server-win.c: from a state with the
    invariant it fails no assertion and does nothing undefined, and the view of
    the state it leaves is given as a relation with the view before. *)

From S2P Require Import Prelude CMem ArrayList Queue ReadBuf WriteBuf Env Request Proc UnixOS Messages WinOS CmdLine ServerWin ServerWinProps ServerWinInv.

(** ** Views *)

Definition with_reqs (v : wview) (rs : list request) : wview :=
  Mk_wview rs (x_procs v) (x_clients v) (x_socks v).
Definition with_procs (v : wview) (ps : list (Z * t_proc (Z * Z))) : wview :=
  Mk_wview (x_reqs v) ps (x_clients v) (x_socks v).
Definition with_clients (v : wview) (cs : list wclient) : wview :=
  Mk_wview (x_reqs v) (x_procs v) cs (x_socks v).
Definition with_socks (v : wview) (xs : list wsocket) : wview :=
  Mk_wview (x_reqs v) (x_procs v) (x_clients v) xs.

(** The same connection with other contents. *)
Definition same_conn (c c' : wclient) : Prop :=
  wc_addr c' = wc_addr c ∧ wc_key c' = wc_key c ∧ wc_handle c' = wc_handle c.

Definition with_out (c : wclient) (out : list cstr) (sent : Z) : wclient :=
  Mk_wclient (wc_addr c) (wc_key c) (wc_handle c) (wc_in c) out sent (wc_ready c).
Definition with_in (c : wclient) (bs : bytes) (ready : bool) : wclient :=
  Mk_wclient (wc_addr c) (wc_key c) (wc_handle c) bs (wc_out c) (wc_sent c) ready.
(** A further message to send. *)
Definition with_message (c : wclient) (m : cstr) : wclient :=
  with_out c (wc_out c ++ [m]) (if bool_decide (wc_out c = []) then 0 else wc_sent c).

Lemma conn_ms_key_inj a b : conn_ms_key a = conn_ms_key b → a = b.
Proof. unfold conn_ms_key. lia. Qed.

Lemma win_client_own_message c m : client_own (with_message c m) ≡ₚ c_addr m :: client_own c.
Proof. unfold client_own. simpl. rewrite fmap_app. simpl. solve_Permutation. Qed.

Lemma win_owned_clients v cs1 c cs2 :
  x_clients v = cs1 ++ c :: cs2 →
  owned v ≡ₚ client_own c ++ owned (with_clients v (cs1 ++ cs2)).
Proof.
  intros Hv. unfold owned. simpl. rewrite Hv, !fmap_app, !concat_app. simpl. solve_Permutation.
Qed.

Lemma win_owned_procs v k p ps :
  x_procs v ≡ₚ (k, p) :: ps → owned v ≡ₚ proc_own p ++ owned (with_procs v ps).
Proof.
  intros Hp. unfold owned. simpl.
  rewrite (concat_fmap_perm (λ kp : Z * t_proc (Z * Z), proc_own kp.2) _ _ Hp). simpl. solve_Permutation.
Qed.

Lemma win_handles_procs v k p ps :
  x_procs v ≡ₚ (k, p) :: ps → handles v ≡ₚ proc_handles p ++ handles (with_procs v ps).
Proof.
  intros Hp. unfold handles. simpl.
  rewrite (concat_fmap_perm (λ kp : Z * t_proc (Z * Z), proc_handles kp.2) _ _ Hp). simpl. solve_Permutation.
Qed.

(** ** Operations under way *)

Lemma io_ok_gen gen gen' v io : io_ok gen v io → gen ≤ gen' → io_ok gen' v io.
Proof.
  intros [Hcon Hrd Hwr Hj Hkc Hks] Hg. split; try done.
  - intros a k n Hw. destruct (Hwr a k n Hw) as (key & -> & ? & ? & ?). exists key. split_and!; (done || lia).
  - intros k Hk. destruct (Hj k Hk) as (key & -> & ?). exists key. split; [done|lia].
Qed.

Lemma io_ok_open gen v io x : io_ok gen v io → io_ok gen v (with_open x io).
Proof. intros []. by split. Qed.

(** Only the clients and the sockets of the view matter. *)
Lemma io_ok_view gen v v' io :
  x_clients v' = x_clients v → x_socks v' = x_socks v → io_ok gen v io → io_ok gen v' io.
Proof. intros Hc Hs []. split; by rewrite ?Hc, ?Hs. Qed.

(** The operations of the other clients do not change. *)
Lemma io_ok_client gen v io io' cs1 c0 c cs2 :
  io_ok gen v io → x_clients v = cs1 ++ c0 :: cs2 → NoDup (conn_keys v) → 1 ≤ wc_key c0 < gen →
  same_conn c0 c →
  io_connects io' = io_connects io → io_keys io' = io_keys io → io_jobs io' = io_jobs io →
  (∀ a x, io_reads io' !! a = Some x →
     (a ≠ wc_addr c ∧ io_reads io !! a = Some x) ∨
     (a = wc_addr c ∧ wc_ready c = true ∧ x = (conn_ms_key (wc_key c), Z.of_nat (length (wc_in c)), READ_ONCE))) →
  (∀ a k n, io_writes io' !! a = Some (k, n) →
     (io_writes io !! a = Some (k, n) ∧ k ≠ conn_ms_key (wc_key c)) ∨
     (a = wc_addr c ∧ k = conn_ms_key (wc_key c) ∧
      ∃ m ms, wc_out c = m :: ms ∧ n = Z.of_nat (length (c_txt m)) - wc_sent c)) →
  io_ok gen (with_clients v (cs1 ++ c :: cs2)) io'.
Proof.
  intros [Hcon Hrd Hwr Hj Hkc Hks] Hv Hnd Hgen (Ha & Hk & Hh) Ecn Eky Ejb Hreads Hwrites.
  assert (∀ d, d ∈ cs1 ++ c :: cs2 → d = c ∨ d ∈ x_clients v ∧ wc_key d ≠ wc_key c) as Hold.
  { unfold conn_keys in Hnd. rewrite Hv, fmap_app in Hnd. simpl in Hnd. rewrite <- app_assoc in Hnd.
    apply NoDup_app in Hnd as (_ & Hd1 & [Hd2 _]%NoDup_cons).
    intros d. rewrite Hv, !elem_of_app, !elem_of_cons. intros [Hd|[->|Hd]]; [right|by left|right].
    - split; [by left|]. intros Heq. apply (Hd1 (wc_key d)); [by apply list_elem_of_fmap_2|]. rewrite Heq, Hk. set_solver.
    - split; [by right; right|]. intros Heq. apply Hd2. rewrite <- Hk, <- Heq, elem_of_app. left. by apply list_elem_of_fmap_2. }
  assert (∀ d, d ∈ x_clients v → d = c0 ∨ d ∈ cs1 ++ c :: cs2) as Hnew.
  { intros d. rewrite Hv, !elem_of_app, !elem_of_cons. tauto. }
  split; simpl; rewrite ?Ecn, ?Eky, ?Ejb; try done.
  - intros a k off n [[Hne Hr]|(-> & Hr & [= -> -> ->])]%Hreads.
    + destruct (Hrd _ _ _ _ Hr) as (d & Hd & Hda & ?). exists d. split; [|done].
      destruct (Hnew d Hd) as [->|?]; [congruence|done].
    + exists c. split_and!; [set_solver|done..].
  - intros a k n [[Hw Hne]|(-> & -> & m & ms & Ho & ->)]%Hwrites.
    + destruct (Hwr _ _ _ Hw) as (key & -> & Hg & Hs & Hc). exists key. split_and!; [done|lia|lia|done|].
      intros d Hd Hdk. destruct (Hold d Hd) as [->|[Hd' _]]; [congruence|]. by apply Hc.
    + exists (wc_key c). rewrite Hk. split_and!; [done|lia..| |].
      * intros Hin. unfold conn_keys in Hnd. apply NoDup_app in Hnd as (_ & Hd & _).
        apply (Hd (wc_key c0)); [rewrite Hv; set_solver|done].
      * rewrite <- Hk. intros d Hd Hdk. destruct (Hold d Hd) as [->|[_ ?]]; [eauto|congruence].
  - intros d [->|[Hd _]]%Hold; [rewrite Hk, Hh; apply Hkc; rewrite Hv; set_solver|auto].
Qed.

(** Pushing a message does not move the position in the first one. *)
Lemma pushed_pointer b b' ms m :
  writebuf_rep b ms → writebuf_rep b' (ms ++ [m]) →
  pending b' (ms ++ [m]) = pending b ms ++ c_txt m →
  ∀ sent, w_pointer b = sent → w_pointer b' = if bool_decide (ms = []) then 0 else sent.
Proof.
  intros (_ & Hb) (_ & Hb') Hp sent <-. apply (f_equal length) in Hp. unfold pending in Hp.
  rewrite length_app, !length_drop, fmap_app, concat_app, length_app in Hp. simpl in Hp. rewrite app_nil_r in Hp.
  destruct ms as [|m0 ms]; simpl in *.
  - destruct Hb as (_ & _ & Hz & _), Hb' as (_ & Hl & Hr & _). lia.
  - destruct Hb as (_ & Hl & Hr & _), Hb' as (_ & Hl' & Hr' & _). rewrite length_app in Hp. lia.
Qed.

Section handlers.
Context {W : Type} `{OL : WinOSLaws W}.
Implicit Types (s : wst W) (v : wview).

(** ** Changing parts of the state *)

Lemma winv_can_stop own hs v s : winv own hs v s → can_stop s.
Proof.
  intros Hi. split_and!; [apply Hi|..].
  - intros i Hip. pose proof (i_parallel _ _ _ _ _ Hi) as Hp.
    destruct (lookup_lt_is_Some_2 (x_socks v) (Z.to_nat i)) as [x Hx]; [lia|].
    pose proof (i_servers _ _ _ _ _ Hi) as Hs. rewrite Forall_lookup in Hs. destruct (Hs _ _ Hx) as (sv & Hsv & _).
    exists (so_addr x), sv. split; [|done]. apply arr_get_ok; [lia|].
    rewrite (i_sockets _ _ _ _ _ Hi), app_nil_r. by rewrite !list_lookup_fmap, Hx.
  - intros l Hl. destruct (i_clients _ _ _ _ _ Hi) as (l' & Hl' & Hrep). simplify_eq.
    eexists. split; [exact Hrep|]. apply Forall_fmap. eapply Forall_impl; [apply (i_store _ _ _ _ _ Hi)|].
    intros c (cl & Hcl & _). simpl. by rewrite Hcl.
  - intros l Hl. destruct (i_procs _ _ _ _ _ Hi) as (l' & Hl' & Hrep). simplify_eq.
    exists (x_procs v), (concat (req_own <$> x_reqs v) ++ concat (client_own <$> x_clients v) ++ (so_addr <$> x_socks v) ++ own).
    split; [exact Hrep|]. eapply heap_ok_perm; [apply (i_heap _ _ _ _ _ Hi)|]. unfold owned. solve_Permutation.
Qed.

Lemma wpw_shutdown_inv {A} msg own hs v (Q : A → wst W → Prop) s :
  winv own hs v s → wpw (shutdown_with_msg msg) Q s.
Proof. intros. eapply wpw_shutdown, winv_can_stop. done. Qed.

(** The world moved, with the same open handles and operations. *)
Lemma winv_frame own hs v s w :
  winv own hs v s → win_io_of w = win_io_of (w_world s) → winv own hs v (set_world w s).
Proof. intros [] Hw. split; simpl; rewrite ?Hw; done. Qed.

Lemma winv_heap own own' hs v s h :
  winv own hs v s → heap_ok h (owned v ++ own') → winv own' hs v (with_heap h s).
Proof. intros [] Hh. by split. Qed.

Lemma winv_own own own' hs v s : winv own hs v s → own ≡ₚ own' → winv own' hs v s.
Proof. intros [] Hp. split; try done. by rewrite <- Hp. Qed.

Lemma winv_forget own own' hs v s : winv (own' ++ own) hs v s → winv own hs v s.
Proof.
  intros []. split; try done. apply (heap_ok_weaken _ own').
  eapply heap_ok_perm; [done|]. solve_Permutation.
Qed.

Lemma winv_handles own hs hs' v s : winv own hs v s → hs ≡ₚ hs' → winv own hs' v s.
Proof. intros [] Hp. split; try done; by setoid_rewrite <- Hp. Qed.

(** A handle may be left open. *)
Lemma winv_leak own h hs v s : winv own (h :: hs) v s → winv own hs v s.
Proof.
  intros Hi. pose proof (i_handles _ _ _ _ _ Hi) as Hn. pose proof (i_open _ _ _ _ _ Hi) as Ho.
  assert (handles v ++ h :: hs ≡ₚ h :: handles v ++ hs) as Hp by solve_Permutation.
  destruct Hi. split; try done.
  - rewrite Hp in Hn. by apply NoDup_cons in Hn as [_ ?].
  - intros x Hx. apply Ho. rewrite Hp. by right.
Qed.

Lemma winv_open own hs v s w r :
  winv own hs v s → opens r (win_io_of (w_world s)) (win_io_of w) →
  winv own (match r with Some h => h :: hs | None => hs end) v (set_world w s).
Proof.
  intros Hi Hop. destruct r as [h|]; [|by apply winv_frame]. destruct Hop as [Hnew Hw].
  pose proof (i_handles _ _ _ _ _ Hi) as Hn. pose proof (i_open _ _ _ _ _ Hi) as Ho.
  pose proof (i_io _ _ _ _ _ Hi) as Hio.
  assert (handles v ++ h :: hs ≡ₚ h :: handles v ++ hs) as Hp by solve_Permutation.
  destruct Hi. split; simpl; rewrite ?Hw; try done.
  - by apply io_ok_open.
  - rewrite Hp. constructor; [|done]. by intros ?%Ho.
  - intros x. rewrite Hp, elem_of_cons. simpl. intros [->|?%Ho]; set_solver.
Qed.

Lemma winv_close own h hs v s :
  winv own (h :: hs) v s → winv own hs v (set_world (wos_close_handle (Some h) (w_world s)) s).
Proof.
  intros Hi. pose proof (i_handles _ _ _ _ _ Hi) as Hn. pose proof (i_open _ _ _ _ _ Hi) as Ho.
  pose proof (i_io _ _ _ _ _ Hi) as [Hcon Hrd Hwr Hj Hkc Hks].
  assert (handles v ++ h :: hs ≡ₚ h :: handles v ++ hs) as Hp by solve_Permutation.
  rewrite Hp in Hn. apply NoDup_cons in Hn as [Hh Hn].
  assert (∀ x, x ∈ handles v → x ≠ h) as Hne by (intros x Hx ->; apply Hh; set_solver).
  destruct Hi. split; simpl; rewrite ?close_handle_law; try done.
  - split; simpl; try done.
    + intros c Hc. rewrite lookup_delete_ne; [by apply Hkc|]. apply not_eq_sym, Hne.
      unfold handles. rewrite !elem_of_app. right; left. by apply list_elem_of_fmap_2.
    + intros x Hx. rewrite lookup_delete_ne; [by apply Hks|]. apply not_eq_sym, Hne.
      unfold handles. rewrite !elem_of_app. right; right. by apply list_elem_of_fmap_2.
  - intros x Hx. simpl. rewrite elem_of_difference, elem_of_singleton. split; [apply Ho; rewrite Hp; by right|].
    intros ->. done.
Qed.

(** ** Facts about the clients *)

Lemma winv_client_key own hs v s cs1 c cs2 :
  winv own hs v s → x_clients v = cs1 ++ c :: cs2 → 1 ≤ wc_key c < w_gen_key s.
Proof.
  intros Hi Hv. pose proof (i_range _ _ _ _ _ Hi) as Hr. rewrite Forall_forall in Hr.
  apply Hr. unfold conn_keys. rewrite Hv. set_solver.
Qed.

Lemma winv_client_addr own hs v s cs1 c cs2 :
  winv own hs v s → x_clients v = cs1 ++ c :: cs2 → ∀ d, d ∈ cs1 ++ cs2 → wc_addr d ≠ wc_addr c.
Proof.
  intros Hi Hv d Hd Heq. pose proof (i_heap _ _ _ _ _ Hi) as (_ & Hnd & _).
  rewrite (win_owned_clients _ _ _ _ Hv) in Hnd. simpl in Hnd. apply NoDup_cons in Hnd as [Hnd _].
  apply Hnd. rewrite <- Heq, elem_of_app. left. rewrite elem_of_app. right. unfold owned. simpl.
  rewrite !elem_of_app. right; right; left. apply elem_of_concat. exists (client_own d). split; [set_solver|].
  by apply list_elem_of_fmap_2.
Qed.

Lemma winv_client_rep own hs v s cs1 c cs2 :
  winv own hs v s → x_clients v = cs1 ++ c :: cs2 → client_rep (w_store s) c.
Proof.
  intros Hi Hv. pose proof (i_store _ _ _ _ _ Hi) as Hs. rewrite Hv in Hs.
  by apply Forall_app in Hs as [_ [? _]%Forall_cons].
Qed.

(** A read under way at the block of a client is its own. *)
Lemma winv_client_read own hs v s cs1 c cs2 x :
  winv own hs v s → x_clients v = cs1 ++ c :: cs2 →
  io_reads (win_io_of (w_world s)) !! wc_addr c = Some x →
  wc_ready c = true ∧ x = (conn_ms_key (wc_key c), Z.of_nat (length (wc_in c)), READ_ONCE).
Proof.
  intros Hi Hv Hx. destruct x as [[k off] n]. destruct (o_reads _ _ _ (i_io _ _ _ _ _ Hi) _ _ _ _ Hx)
    as (d & Hd & Ha & Hr & -> & -> & ->).
  assert (d = c) as ->; [|done]. rewrite Hv, elem_of_app, elem_of_cons in Hd.
  destruct Hd as [Hd|[Hd|Hd]]; [|done|]; exfalso; eapply (winv_client_addr _ _ _ _ _ _ _ Hi Hv d); set_solver.
Qed.

(** A write under way with the key of a client is that of its first message. *)
Lemma winv_client_write own hs v s cs1 c cs2 a n :
  winv own hs v s → x_clients v = cs1 ++ c :: cs2 →
  io_writes (win_io_of (w_world s)) !! a = Some (conn_ms_key (wc_key c), n) →
  a = wc_addr c ∧ ∃ m ms, wc_out c = m :: ms ∧ n = Z.of_nat (length (c_txt m)) - wc_sent c.
Proof.
  intros Hi Hv Hx. destruct (o_writes _ _ _ (i_io _ _ _ _ _ Hi) _ _ _ Hx) as (key & Hk & _ & _ & Hc).
  apply conn_ms_key_inj in Hk. apply Hc; [|done]. rewrite Hv. set_solver.
Qed.
(** The record of a client is rewritten, and its operations with it. *)
Lemma winv_client own own' hs v s w st h cs1 c0 c cs2 :
  winv own hs v s → x_clients v = cs1 ++ c0 :: cs2 → same_conn c0 c →
  (∀ b, b ≠ wc_addr c → st !! b = w_store s !! b) → client_rep st c →
  heap_ok h (owned (with_clients v (cs1 ++ c :: cs2)) ++ own') →
  io_open (win_io_of w) = io_open (win_io_of (w_world s)) →
  io_ok (w_gen_key s) (with_clients v (cs1 ++ c :: cs2)) (win_io_of w) →
  winv own' hs (with_clients v (cs1 ++ c :: cs2)) (set_world w (set_store st (with_heap h s))).
Proof.
  intros Hi Hv (Ha & Hk & Hh) Hother Hrep Hheap Hopen Hio.
  pose proof (winv_client_addr _ _ _ _ _ _ _ Hi Hv) as Hfresh.
  assert (client_entry <$> cs1 ++ c :: cs2 = client_entry <$> x_clients v) as He.
  { rewrite Hv, !fmap_app. simpl. unfold client_entry at 2 4. by rewrite Ha, Hk. }
  assert (conn_keys (with_clients v (cs1 ++ c :: cs2)) = conn_keys v) as Hck.
  { unfold conn_keys. simpl. rewrite Hv, !fmap_app. simpl. by rewrite Hk. }
  assert (handles (with_clients v (cs1 ++ c :: cs2)) = handles v) as Hhs.
  { unfold handles. simpl. rewrite Hv, !fmap_app. simpl. by rewrite Hh. }
  pose proof (i_store _ _ _ _ _ Hi) as Hst. destruct Hi. split; simpl; rewrite ?Hck, ?Hhs, ?He, ?Hopen; try done.
  apply Forall_forall. intros d Hd. rewrite Forall_forall in Hst.
  assert (d = c ∨ d ∈ cs1 ++ cs2) as [->|Hd'] by set_solver; [done|].
  destruct (Hst d) as (cl & Hcl & ?); [rewrite Hv; set_solver|]. exists cl. split; [|done].
  rewrite Hother; [done|]. rewrite Ha. by apply Hfresh.
Qed.

Lemma wpw_winv_load own hs v s m (Q : bytes → wst W → Prop) :
  winv own hs v s → c_addr m ∈ owned v ++ own → Q (c_str (c_txt m)) s → wpw (heapU (load m)) Q s.
Proof.
  intros Hi Hm HQ. apply wpw_heap. intros E _. eapply wp_load; [apply Hi|done|]. by rewrite with_heap_id.
Qed.

Lemma wpw_winv_touch own hs v s a (Q : unit → wst W → Prop) :
  winv own hs v s → a ∈ owned v ++ own → Q tt s → wpw (heapU (touch a)) Q s.
Proof.
  intros Hi Hm HQ. apply wpw_heap. intros E _. eapply wp_touch; [apply Hi|done|]. by rewrite with_heap_id.
Qed.

Lemma wpw_winv_malloc own hs v s (Q : positive → wst W → Prop) :
  winv own hs v s → (∀ a h, winv (a :: own) hs v (with_heap h s) → Q a (with_heap h s)) →
  wpw (heapU malloc) Q s.
Proof.
  intros Hi HQ. apply wpw_heap. intros E _. eapply wp_malloc; [apply Hi|]. intros a h Hok. apply HQ.
  eapply winv_heap; [exact Hi|]. eapply heap_ok_perm; [exact Hok|]. solve_Permutation.
Qed.

(** What the initialisation fixes: the directory for the output files, the
    completion port and the name of the pipe. *)
Definition wconfig s : bytes * option Z * bytes := (w_current_dir s, w_port s, w_pipe_name s).

(** What a call may change of the rest of the state: [d] keys are given out. *)
Definition after (d : Z) (s s' : wst W) : Prop :=
  g_parallel (w_env s') = g_parallel (w_env s) ∧ w_gen_key s ≤ w_gen_key s' ≤ w_gen_key s + d ∧
  wconfig s' = wconfig s.

Lemma after_trans d d' s1 s2 s3 : after d s1 s2 → after d' s2 s3 → after (d + d') s1 s3.
Proof. unfold after. intros (-> & ? & ->) (-> & ? & ->). split_and!; (done || lia). Qed.

Lemma after_0 s s' :
  g_parallel (w_env s') = g_parallel (w_env s) → w_gen_key s' = w_gen_key s → wconfig s' = wconfig s → after 0 s s'.
Proof. intros Hp Hg Hc. split_and!; (done || lia). Qed.

Lemma after_mono d d' s s' : after d s s' → d ≤ d' → after d' s s'.
Proof. unfold after. intros (-> & ? & ->) ?. split_and!; (done || lia). Qed.

(** ** Calls of the system

    What the server asks of the system in each operation, as functions of the
    world or relations between worlds. *)

(** A client that is not writing sends the rest of its first message. *)
Definition next_write (c : wclient) (w : W) : W :=
  match wc_out c with
  | [] => w
  | m :: _ => wos_write_file (wc_handle c) (drop (Z.to_nat (wc_sent c)) (c_txt m)) (wc_addr c) w
  end.

(** The message [m] is sent to [c] at once, when nothing else is. *)
Definition sent (c : wclient) (m : cstr) (w : W) : W :=
  if bool_decide (wc_out c = []) then next_write (with_message c m) w else w.

(** A server socket for the key [key]. *)
Definition socket_calls (cfg : bytes * option Z * bytes) (key : Z) (server : positive) (h : Z) (w w' : W) : Prop :=
  ∃ p ev ok w1 w2 w3, wos_create_named_pipe cfg.2 w = (Some h, w1) ∧
    wos_create_port h cfg.1.2 (conn_ms_key key) w1 = (Some p, w2) ∧
    wos_create_event w2 = (ev, w3) ∧ wos_connect_named_pipe h server w3 = (ok, w').

(** A connection on the socket [x]. *)
Definition accept_calls (cfg : bytes * option Z * bytes) (x : wsocket) (client : positive) (x' : wsocket) (w w' : W) : Prop :=
  ∃ e1 e2 w1 w2 w3, wos_create_event w = (e1, w1) ∧ wos_create_event w1 = (e2, w2) ∧
    socket_calls cfg (so_key x') (so_addr x') (so_handle x') w2 w3 ∧
    w' = wos_read_file (so_handle x) client 0 READ_ONCE w3.

(** The file for the output, with the handle [out] and the name [name]. *)
Definition output_file (dir : bytes) (out : Z) (name : bytes) (w w' : W) : Prop :=
  ∃ res tmp w1, wos_get_temp_file_name dir w = ((res, tmp), w1) ∧ res ≠ 0 ∧ name = c_str tmp ∧
    wos_create_file CreateOutput tmp w1 = (Some out, w').

(** The file for the standard input is the last argument. *)
Definition stdin_file (args : list cstr) (stdin : bool) (h : option Z) (w w' : W) : Prop :=
  if stdin then ∃ f, last args = Some f ∧ wos_create_file OpenInput (c_str (c_txt f)) w = (h, w')
  else h = None ∧ w' = w.

Definition job_limited (job timelimit memlimit : Z) (w w' : W) : Prop :=
  match request_limits timelimit memlimit with
  | Some lim => wos_set_limits (Some job) lim w = (true, w')
  | None => w' = w
  end.

(** ** Writing *)

(** A client that is not writing starts to send what it has. *)
Lemma wpw_try_write own0 own hs v s st h cl cs1 c0 c cs2 (Q : unit → wst W → Prop) :
  winv own0 hs v s → x_clients v = cs1 ++ c0 :: cs2 → same_conn c0 c →
  wc_in c = wc_in c0 → wc_ready c = wc_ready c0 →
  (∀ b, b ≠ wc_addr c → st !! b = w_store s !! b) → st !! wc_addr c = Some cl →
  cl_handle cl = wc_handle c → cd_kind (cl_read cl) = READOP → cd_kind (cl_write cl) = WRITEOP →
  readbuf_rep (cl_readbuf cl) (wc_in c) →
  (wc_ready c = true → Z.of_nat (length (wc_in c)) + READ_ONCE ≤ rb_capacity (cl_readbuf cl)) →
  writebuf_rep (cl_writebuf cl) (wc_out c) → w_is_writing (cl_writebuf cl) = false →
  w_pointer (cl_writebuf cl) = wc_sent c →
  (∀ a n, io_writes (win_io_of (w_world s)) !! a ≠ Some (conn_ms_key (wc_key c), n)) →
  heap_ok h (owned (with_clients v (cs1 ++ c :: cs2)) ++ own) →
  (∀ s', winv own hs (with_clients v (cs1 ++ c :: cs2)) s' → after 0 s s' →
     w_world s' = next_write c (w_world s) → Q tt s') →
  wpw (try_write (wc_addr c)) Q (set_store st (with_heap h s)).
Proof.
  intros Hi Hv Hsame Hin Hready Hother Hst Hh Hkr Hkw Hrb Hroom Hwb Hw Hp Hnone Hheap HQ.
  pose proof Hsame as (Ha & Hk & Hha). pose proof (winv_client_key _ _ _ _ _ _ _ Hi Hv) as Hkey.
  pose proof (i_keys _ _ _ _ _ Hi) as Hnd. pose proof (i_io _ _ _ _ _ Hi) as Hio.
  assert (∀ a x, io_reads (win_io_of (w_world s)) !! a = Some x →
     (a ≠ wc_addr c ∧ io_reads (win_io_of (w_world s)) !! a = Some x) ∨
     (a = wc_addr c ∧ wc_ready c = true ∧ x = (conn_ms_key (wc_key c), Z.of_nat (length (wc_in c)), READ_ONCE))) as Hreads.
  { intros a x Hx. destruct (decide (a = wc_addr c)) as [->|]; [right|by left]. rewrite Ha in Hx.
    destruct (winv_client_read _ _ _ _ _ _ _ _ Hi Hv Hx) as [? ->]. by rewrite Hready, Hin, Hk. }
  unfold try_write. apply wpw_bind. eapply wpw_client_get; [exact Hst|].
  rewrite (writebuf_has_data _ _ Hwb). unfold can_write. rewrite Hw. destruct (wc_out c) as [|m ms] eqn:Hout.
  - apply wpw_ret. apply HQ; [|by apply after_0|unfold next_write; by rewrite Hout]. rewrite <- (set_world_id (set_store st (with_heap h s))).
    eapply (winv_client _ _ _ _ _ _ _ _ _ c0); [done..| |done|done|].
    + exists cl. rewrite Hout. exact (conj Hst (conj Hh (conj Hkr (conj Hkw (conj Hrb (conj Hroom (conj Hwb (conj Hw Hp)))))))).
    + eapply io_ok_client; [exact Hio|exact Hv|exact Hnd|lia|done|done|done|done|exact Hreads|].
      intros a k n Hx. left. split; [exact Hx|]. intros ->. by apply (Hnone a n).
  - rewrite bool_decide_eq_true_2 by done. simpl andb. cbv iota.
    destruct (prepare_write_rep _ _ _ Hwb Hw) as (wb1 & Hprep & Hwb1 & Hw1 & Hp1).
    apply wpw_bind. eapply wpw_ok; [exact Hprep|]. cbv beta iota zeta. apply wpw_bind.
    eapply wpw_client_put; [exact Hst|]. set (cl1 := Mk_client _ _ _ _ wb1). apply wpw_bind, wpw_heap. intros E _.
    eapply wp_load; [exact Hheap| |].
    { rewrite elem_of_app. left. rewrite (win_owned_clients (with_clients v _) cs1 c cs2 eq_refl).
      unfold client_own. rewrite Hout. set_solver. }
    rewrite Hh. unfold sys_. apply wpw_modify.
    set (bs := take _ _). set (w := wos_write_file _ _ _ _).
    assert (Z.of_nat (length bs) = Z.of_nat (length (c_txt m)) - wc_sent c) as Hlen.
    { destruct Hwb as ([[Hnn _] _]%Forall_cons & _ & Hwl & Hptr & _). unfold bs.
      rewrite c_str_no_nul, length_take, length_drop by done. rewrite Hp in *. lia. }
    assert (w = next_write c (w_world s)) as Hnw.
    { unfold w, bs, next_write. rewrite Hout, <- Hp. destruct Hwb as ([[Hnn _] _]%Forall_cons & _). simpl.
      rewrite c_str_no_nul by done. by rewrite take_ge by (rewrite length_drop; lia). }
    apply HQ; [|by apply after_0|exact Hnw].
    refine (winv_client own0 own hs v s w (<[wc_addr c := cl1]> st) h cs1 c0 c cs2 Hi Hv Hsame _ _ Hheap _ _).
    + intros b Hb. rewrite lookup_insert_ne by done. by apply Hother.
    + exists cl1. rewrite lookup_insert_eq, Hout.
      refine (conj eq_refl (conj Hh (conj Hkr (conj Hkw (conj Hrb (conj Hroom (conj Hwb1 (conj Hw1 _)))))))).
      simpl. by rewrite Hp1.
    + unfold w. destruct (write_file_law (wc_handle c) bs (wc_addr c) (w_world s)) as [Hf|(k & _ & Hf)]; simpl; by rewrite Hf.
    + unfold w. simpl. destruct (write_file_law (wc_handle c) bs (wc_addr c) (w_world s)) as [Hf|(k & Hkk & Hf)]; rewrite Hf.
      * eapply io_ok_client; [exact Hio|exact Hv|exact Hnd|lia|done|done|done|done|exact Hreads|].
        intros a k n Hx. left. split; [exact Hx|]. intros ->. by apply (Hnone a n).
      * rewrite Hha, (o_clients _ _ _ Hio c0) in Hkk by (rewrite Hv; set_solver). injection Hkk as <-.
        eapply io_ok_client; [exact Hio|exact Hv|exact Hnd|lia|done|done|done|done|exact Hreads|].
        intros a k n. simpl. rewrite lookup_insert_Some. intros [(<- & [= <- <-])|[Hne Hx]].
        -- right. rewrite Hk. split_and!; [done..|]. exists m, ms. split; [done|exact Hlen].
        -- left. split; [exact Hx|]. intros ->. by apply (Hnone a n).
Qed.
Lemma wpw_queue_write own hs v s cs1 c cs2 m (Q : unit → wst W → Prop) :
  winv (c_addr m :: own) hs v s → x_clients v = cs1 ++ c :: cs2 → message m →
  (∀ s', winv own hs (with_clients v (cs1 ++ with_message c m :: cs2)) s' → after 0 s s' →
     w_world s' = sent c m (w_world s) → Q tt s') →
  wpw (queue_write (wc_addr c) m) Q s.
Proof.
  intros Hi Hv Hm HQ. unfold queue_write.
  destruct (winv_client_rep _ _ _ _ _ _ _ Hi Hv) as (cl & Hcl & Hh & Hkr & Hkw & Hrb & Hroom & Hwb & Hw & Hp).
  pose proof (i_heap _ _ _ _ _ Hi) as Hheap. apply wpw_bind. eapply wpw_client_get; [exact Hcl|].
  apply wpw_bind, wpw_heap. intros E HE.
  eapply wp_push_write_data; [exact Hheap|set_solver|done|exact Hwb|intros _; by apply HE|].
  intros wb Hwb' Hw' Hpend. apply wpw_bind. eapply wpw_client_put; [exact Hcl|].
  set (cl' := Mk_client _ _ _ _ wb). set (c' := with_message c m).
  assert (w_pointer wb = wc_sent c') as Hp' by (apply (pushed_pointer _ _ _ _ Hwb Hwb' Hpend); exact Hp).
  assert (heap_ok (g_heap (w_env s)) (owned (with_clients v (cs1 ++ c' :: cs2)) ++ own)) as Hheap'.
  { eapply heap_ok_perm; [exact Hheap|]. rewrite (win_owned_clients _ _ _ _ Hv).
    rewrite (win_owned_clients (with_clients v _) cs1 c' cs2 eq_refl). unfold c'.
    rewrite win_client_own_message. simpl. solve_Permutation. }
  change (wc_addr c) with (wc_addr c').
  destruct (decide (wc_out c = [])) as [Hout|Hout].
  - eapply (wpw_try_write _ own hs v s _ _ cl' cs1 c c'); [exact Hi|exact Hv|done|done|done| |apply lookup_insert_eq|
      exact Hh|exact Hkr|exact Hkw|exact Hrb|exact Hroom|exact Hwb'| |exact Hp'| |exact Hheap'| ].
    + intros b Hb. by rewrite lookup_insert_ne.
    + simpl. by rewrite Hw', Hw, bool_decide_eq_false_2 by tauto.
    + intros a n Hx. destruct (winv_client_write _ _ _ _ _ _ _ _ _ Hi Hv Hx) as (_ & ? & ? & ? & _). congruence.
    + intros s' Hi' Ha' Hw2. apply HQ; [exact Hi'|exact Ha'|]. unfold sent. by rewrite bool_decide_eq_true_2.
  - unfold try_write. apply wpw_bind. eapply wpw_client_get; [apply lookup_insert_eq|].
    unfold can_write. simpl. rewrite Hw', Hw, bool_decide_eq_true_2, andb_false_r by done. apply wpw_ret.
    apply HQ; [|by apply after_0|unfold sent; by rewrite bool_decide_eq_false_2].
    rewrite <- (set_world_id (set_store _ _)). eapply (winv_client _ _ _ _ _ _ _ _ _ c); [exact Hi|exact Hv|done| | |exact Hheap'|done|].
    + intros b Hb. by rewrite lookup_insert_ne.
    + exists cl'. rewrite lookup_insert_eq.
      refine (conj eq_refl (conj Hh (conj Hkr (conj Hkw (conj Hrb (conj Hroom (conj Hwb' (conj _ Hp')))))))).
      simpl. rewrite Hw', Hw, !bool_decide_eq_true_2; [done|by destruct (wc_out c)|done].
    + eapply io_ok_client; [apply (i_io _ _ _ _ _ Hi)|exact Hv|apply Hi| |done|done|done|done| |].
      { eapply winv_client_key; done. }
      * intros a x Hx. destruct (decide (a = wc_addr c)) as [->|]; [right|by left].
        by destruct (winv_client_read _ _ _ _ _ _ _ _ Hi Hv Hx) as [? ->].
      * intros a k n Hx. destruct (decide (k = conn_ms_key (wc_key c))) as [->|]; [right|by left].
        destruct (winv_client_write _ _ _ _ _ _ _ _ _ Hi Hv Hx) as (-> & m0 & ms & Ho & ->).
        split_and!; [done..|]. exists m0, (ms ++ [m]). simpl. rewrite Ho. by rewrite bool_decide_eq_false_2.
Qed.

Lemma wpw_check_msgbuf own hs v s msg len (Q : unit → wst W → Prop) :
  winv own hs v s → Q tt s → wpw (check_msgbuf msg len) Q s.
Proof.
  intros Hi HQ. unfold check_msgbuf. case_match; [by eapply wpw_shutdown_inv|]. by apply wpw_ret.
Qed.

Lemma wpw_snprintf own hs v s len txt (Q : cstr * Z → wst W → Prop) :
  winv own hs v s →
  (∀ a s', winv (a :: own) hs v s' → after 0 s s' → w_world s' = w_world s →
     Q (Mk_cstr a (take (Z.to_nat (len - 1)) txt),
        if Z.of_nat (length txt) <=? INT_MAX then Z.of_nat (length txt) else -1) s') →
  wpw (snprintf len txt) Q s.
Proof.
  intros Hi HQ. unfold snprintf. apply wpw_bind, wpw_heap. intros E _.
  eapply wp_new_str; [apply Hi|]. intros a h Hok. apply HQ; [|by apply after_0|done].
  eapply winv_heap; [done|]. eapply heap_ok_perm; [exact Hok|]. solve_Permutation.
Qed.

Lemma wpw_send_started own hs v s cs1 c cs2 id (Q : unit → wst W → Prop) :
  winv own hs v s → x_clients v = cs1 ++ c :: cs2 → c_addr id ∈ owned v ++ own → short id →
  (∀ m s', winv own hs (with_clients v (cs1 ++ with_message c m :: cs2)) s' → after 0 s s' →
     w_world s' = sent c m (w_world s) →
     c_txt m = started_text (c_str (c_txt id)) → Q tt s') →
  wpw (send_started_msg_to_client (wc_addr c) id) Q s.
Proof.
  intros Hi Hv Hid Hshort HQ. unfold send_started_msg_to_client. apply wpw_bind. eapply wpw_winv_load; [done..|].
  fold (started_text (c_str (c_txt id))). set (txt := started_text (c_str (c_txt id))).
  assert (length txt = length (c_str (c_txt id)) + 3)%nat as Hlen.
  { unfold txt, started_text. rewrite !length_app. change (length (str "S;")) with 2%nat. simpl. lia. }
  pose proof (length_c_str (c_txt id)) as Hle. unfold short in Hshort.
  assert (Z.of_nat (length (c_str (c_txt id))) ≤ alloc_limit) as Hs by lia. unfold strlen.
  rewrite c_str_idem. cbv zeta. rewrite (u64_small (_ + 4)) by (unfold SIZE_MOD, alloc_limit in *; lia).
  apply wpw_bind. eapply wpw_check_msgbuf; [done|].
  apply wpw_bind. eapply wpw_snprintf; [done|]. intros a s1 Hi1 Ha1 Hw1.
  cbv match beta. case_match; [by eapply wpw_shutdown_inv|].
  rewrite (take_ge txt) by lia.
  eapply wpw_queue_write; [by eapply Hi1|done| |].
  - split; cbn [c_txt]; [|rewrite Hlen; unfold alloc_limit, INT_MAX in *; lia].
    apply no_nul_app; [by apply no_nul_str|]. apply no_nul_app; [apply no_nul_c_str|by apply no_nul_char].
  - intros s2 Hi2 Ha2 Hw2. eapply HQ; [exact Hi2| |by rewrite Hw2, Hw1|done]. exact (after_trans 0 0 _ _ _ Ha1 Ha2).
Qed.

(** A text too long for the block ends the server. *)
Lemma wpw_send_msg own hs v s cs1 c cs2 id code cpu tmo file (Q : unit → wst W → Prop) :
  winv own hs v s → x_clients v = cs1 ++ c :: cs2 →
  c_addr id ∈ owned v ++ own → c_addr file ∈ owned v ++ own → no_nul cpu →
  short id → Z.of_nat (length (c_txt file)) < MAX_PATH →
  (∀ m s', winv own hs (with_clients v (cs1 ++ with_message c m :: cs2)) s' → after 0 s s' →
     w_world s' = sent c m (w_world s) →
     (Z.of_nat (length (finished_text (c_str (c_txt id)) code cpu tmo (c_str (c_txt file)))) ≤ INT_MAX →
      c_txt m = finished_text (c_str (c_txt id)) code cpu tmo (c_str (c_txt file))) →
     Q tt s') →
  wpw (send_msg_to_client (wc_addr c) id code cpu tmo file) Q s.
Proof.
  intros Hi Hv Hid Hfile Hcpu Hshort Hmax HQ. unfold send_msg_to_client. apply wpw_bind.
  eapply wpw_winv_load; [done..|]. pose proof (length_c_str (c_txt id)) as Hle1. pose proof (length_c_str (c_txt file)) as Hle2.
  unfold short, MAX_PATH, strlen in *. rewrite c_str_idem. cbv zeta.
  rewrite (u64_small (_ + 3)) by (unfold SIZE_MOD, alloc_limit in *; lia).
  rewrite (to_int_small (_ + 3)) by (unfold INT_MAX, alloc_limit in *; lia).
  apply wpw_bind. eapply wpw_ok; [apply int_op_ok; unfold INT_MIN, INT_MAX, alloc_limit in *; lia|].
  apply wpw_bind. eapply wpw_winv_load; [done..|]. rewrite c_str_idem.
  rewrite u64_small by (unfold SIZE_MOD, alloc_limit in *; lia).
  rewrite to_int_small by (unfold INT_MAX, alloc_limit in *; lia).
  fold (finished_text (c_str (c_txt id)) code cpu tmo (c_str (c_txt file))). set (txt := finished_text _ _ _ _ _).
  set (len := _ + (_ + 1)).
  apply wpw_bind. eapply wpw_check_msgbuf; [done|].
  apply wpw_bind. eapply wpw_snprintf; [done|]. intros a s1 Hi1 Ha1 Hw1.
  cbv zeta match beta. destruct (_ <=? _) eqn:Hcmp in |- *; [by eapply wpw_shutdown_inv|].
  eapply wpw_queue_write; [by eapply Hi1|done| |].
  - split; simpl.
    + apply no_nul_take. unfold txt, finished_text.
      repeat apply no_nul_app; first [by apply no_nul_str | apply no_nul_c_str | by apply no_nul_char
        | apply no_nul_dec | done].
    + rewrite length_take. unfold len, INT_MAX, alloc_limit in *. lia.
  - intros s2 Hi2 Ha2 Hw2. eapply HQ; [exact Hi2|exact (after_trans 0 0 _ _ _ Ha1 Ha2)|by rewrite Hw2, Hw1|].
    fold txt. intros Htxt. simpl. apply take_ge. rewrite (proj2 (Z.leb_le _ _) Htxt) in Hcmp. lia.
Qed.
(** ** Reading and accepting *)

(** A read is started, with room for READ_ONCE bytes after those in the buffer. *)
Lemma wpw_do_read own hs v s cs1 c cs2 (Q : unit → wst W → Prop) :
  winv own hs v s → x_clients v = cs1 ++ c :: cs2 →
  (∀ s', winv own hs (with_clients v (cs1 ++ with_in c (wc_in c) true :: cs2)) s' → after 0 s s' →
     w_world s' = wos_read_file (wc_handle c) (wc_addr c) (Z.of_nat (length (wc_in c))) READ_ONCE (w_world s) →
     Q tt s') →
  wpw (do_read (wc_addr c)) Q s.
Proof.
  intros Hi Hv HQ. unfold do_read.
  destruct (winv_client_rep _ _ _ _ _ _ _ Hi Hv) as (cl & Hcl & Hh & Hkr & Hkw & Hrb & Hroom & Hwb & Hw & Hp).
  apply wpw_bind. eapply wpw_client_get; [exact Hcl|]. apply wpw_bind, wpw_lift.
  eapply safe_mono; [apply prepare_read_safe; [exact Hrb|by_computation|done]|].
  intros [rb off] (Hrb' & -> & Hfit). cbv beta iota. apply wpw_bind. eapply wpw_client_put; [exact Hcl|].
  unfold sys_. apply wpw_modify. set (c' := with_in c (wc_in c) true). set (cl' := Mk_client _ _ _ rb _).
  rewrite Hh. set (w := wos_read_file _ _ _ _ _). apply HQ; [|by apply after_0|done].
  pose proof (winv_client_key _ _ _ _ _ _ _ Hi Hv) as Hkey.
  pose proof (i_keys _ _ _ _ _ Hi) as Hnd. pose proof (i_io _ _ _ _ _ Hi) as Hio.
  assert (∀ a x, io_reads (win_io_of (w_world s)) !! a = Some x →
     (a ≠ wc_addr c ∧ io_reads (win_io_of (w_world s)) !! a = Some x) ∨
     (a = wc_addr c ∧ wc_ready c' = true ∧ x = (conn_ms_key (wc_key c), Z.of_nat (length (wc_in c)), READ_ONCE))) as Hreads.
  { intros a x Hx. destruct (decide (a = wc_addr c)) as [->|]; [right|by left].
    by destruct (winv_client_read _ _ _ _ _ _ _ _ Hi Hv Hx) as [_ ->]. }
  assert (∀ a k n, io_writes (win_io_of (w_world s)) !! a = Some (k, n) →
     (io_writes (win_io_of (w_world s)) !! a = Some (k, n) ∧ k ≠ conn_ms_key (wc_key c)) ∨
     (a = wc_addr c ∧ k = conn_ms_key (wc_key c) ∧
      ∃ m ms, wc_out c' = m :: ms ∧ n = Z.of_nat (length (c_txt m)) - wc_sent c')) as Hwrites.
  { intros a k n Hx. destruct (decide (k = conn_ms_key (wc_key c))) as [->|]; [right|by left].
    by destruct (winv_client_write _ _ _ _ _ _ _ _ _ Hi Hv Hx) as (-> & ?). }
  replace (set_store _ s) with (set_store (<[wc_addr c := cl']> (w_store s)) (with_heap (g_heap (w_env s)) s))
    by (by rewrite with_heap_id).
  refine (winv_client own own hs v s w (<[wc_addr c := cl']> (w_store s)) _ cs1 c c' cs2 Hi Hv _ _ _ _ _ _); [done|..].
  - intros b Hb. by rewrite lookup_insert_ne.
  - exists cl'. rewrite lookup_insert_eq.
    exact (conj eq_refl (conj Hh (conj Hkr (conj Hkw (conj Hrb' (conj (λ _, Hfit) (conj Hwb (conj Hw Hp)))))))).
  - eapply heap_ok_perm; [apply (i_heap _ _ _ _ _ Hi)|]. rewrite (win_owned_clients _ _ _ _ Hv).
    by rewrite (win_owned_clients (with_clients v _) cs1 c' cs2 eq_refl).
  - unfold w. destruct (read_file_law (wc_handle c) (wc_addr c) (Z.of_nat (length (wc_in c))) READ_ONCE (w_world s))
      as [Hf|(k & _ & Hf)]; simpl; by rewrite Hf.
  - unfold w. simpl. destruct (read_file_law (wc_handle c) (wc_addr c) (Z.of_nat (length (wc_in c))) READ_ONCE (w_world s))
      as [Hf|(k & Hkk & Hf)]; rewrite Hf.
    + eapply io_ok_client; [exact Hio|exact Hv|exact Hnd|lia|done|done|done|done|exact Hreads|exact Hwrites].
    + rewrite (o_clients _ _ _ Hio c) in Hkk by (rewrite Hv; set_solver). injection Hkk as <-.
      eapply io_ok_client; [exact Hio|exact Hv|exact Hnd|lia|done|done|done|done| |exact Hwrites].
      intros a x. simpl. rewrite lookup_insert_Some. intros [(<- & <-)|[Hne Hx]]; [by right|by apply Hreads].
Qed.

(** The environment that the creation of server sockets needs: the port
    accepts every handle, and a client can connect to a new pipe. *)
Definition port_accepts : Prop := ∀ h p key w w', wos_create_port h p key w ≠ (None, w').
Definition pipes_connect : Prop := ∀ h sv w w', wos_connect_named_pipe h sv w = (false, w') →
  wos_last_error w' = ERROR_IO_PENDING ∨ wos_last_error w' = ERROR_PIPE_CONNECTED.

(** What the creation of a socket with the handle [h] does to the operations
    under way. *)
Record socket_io (server : positive) (key h : Z) (a b : win_io) : Prop := {
  n_fresh : h ∉ io_open a;
  n_open : ∀ x, x ∈ io_open a ∨ x = h → x ∈ io_open b;
  n_keys : io_keys b = <[h := conn_ms_key key]> (io_keys a);
  n_connects : ∀ p k, io_connects b !! p = Some k →
    io_connects a !! p = Some k ∨ p = server ∧ k = conn_ms_key key;
  n_reads : io_reads b = io_reads a;
  n_writes : io_writes b = io_writes a;
  n_jobs : io_jobs b = io_jobs a;
}.

Definition socket_created (n : Z) (server : positive) (h ev : Z) (hp : heap) (port : option Z) (w : W) s : wst W :=
  Mk_wst (set_heap hp (w_env s)) (ServerWin.w_queue s) (w_processes s) (w_clients s) (w_store s)
    (<[server := Mk_server h ev]> (w_servers s)) (<[Z.to_nat n := Some server]> (w_server_socket s))
    (<[Z.to_nat n := Some (w_gen_key s)]> (w_server_key s)) (w_gen_key s + 1) port
    (w_pipe_name s) (w_current_dir s) w.

Lemma opens_io r a b : opens r a b →
  io_open b = match r with Some h => {[h]} ∪ io_open a | None => io_open a end ∧ io_keys b = io_keys a ∧
  io_connects b = io_connects a ∧ io_reads b = io_reads a ∧ io_writes b = io_writes a ∧ io_jobs b = io_jobs a.
Proof. destruct r; simpl; [intros [_ ->]|intros ->]; done. Qed.

Lemma wpw_create_server_socket n own s (Q : unit → wst W → Prop) :
  port_accepts → pipes_connect → heap_ok (g_heap (w_env s)) own → 1 ≤ w_gen_key s < KEY_LIMIT →
  0 ≤ n < Z.of_nat (length (w_server_socket s)) → n < Z.of_nat (length (w_server_key s)) →
  (∀ server h ev hp port w, heap_ok hp (server :: own) →
     socket_io server (w_gen_key s) h (win_io_of (w_world s)) (win_io_of w) →
     socket_calls (wconfig s) (w_gen_key s) server h (w_world s) w →
     Q tt (socket_created n server h ev hp port w s)) →
  wpw (create_server_socket n) Q s.
Proof.
  intros Hport Hpipe Hheap Hgen Hn Hn2 HQ. unfold create_server_socket, KEY_LIMIT in *. apply wpw_bind.
  unfold keygen. apply wpw_bind, wpw_gets, wpw_bind.
  eapply wpw_ok; [apply int_op_ok; unfold INT_MIN, INT_MAX; lia|]. apply wpw_bind, wpw_modify, wpw_ret.
  apply wpw_bind, wpw_heap. intros E _. eapply wp_malloc; [exact Hheap|]. intros server hp Hok.
  apply wpw_bind, wpw_gets, wpw_bind, wpw_sys. intros [h|] w1 Hcall1; [|apply wpw_exit].
  pose proof Hcall1 as Hw1%create_pipe_law. simpl in Hw1, Hcall1. destruct Hw1 as [Hfresh Hw1].
  apply wpw_bind. eapply wpw_ok; [apply to_ms_key_ok; [lia|by left]|]. fold (conn_ms_key (w_gen_key s)).
  apply wpw_bind. unfold add_to_completion_port. apply wpw_bind, wpw_gets, wpw_bind, wpw_sys.
  intros [p|] w2 Hw2; [|by apply Hport in Hw2]. pose proof Hw2 as Hcall2. simpl in Hcall2.
  apply create_port_law in Hw2 as (a & Ha & Hw2). simpl in Ha.
  apply opens_io in Ha as (Ha1 & Ha2 & Ha3 & Ha4 & Ha5 & Ha6).
  set (s1 := set_gen_key _ _). set (s2 := set_world w2 _).
  assert (∀ port, wpw (ev ← sys wos_create_event;
      _ ← modify (λ s, set_servers (<[server := Mk_server h ev]> (w_servers s)) s);
      s ← get;
      sockets ← lift (arr_set (w_server_socket s) n server);
      keys ← lift (arr_set (w_server_key s) n (w_gen_key s1 - 1));
      _ ← modify (set_sockets sockets keys);
      ok ← sys (wos_connect_named_pipe h server);
      if ok : bool then mret tt
      else
        err ← gets (λ s, wos_last_error (w_world s));
        if err =? ERROR_IO_PENDING then mret tt
        else if err =? ERROR_PIPE_CONNECTED then mret tt
        else shutdown_with_msg "error connecting to socket") Q
      (Mk_wst (w_env s2) (ServerWin.w_queue s2) (w_processes s2) (w_clients s2) (w_store s2) (w_servers s2)
         (w_server_socket s2) (w_server_key s2) (w_gen_key s2) port (w_pipe_name s2) (w_current_dir s2) (w_world s2))) as Hrest.
  { intros port. apply wpw_bind, wpw_sys. intros ev w3 Hcall3. pose proof Hcall3 as Hw3%create_event_law. simpl in Hw3, Hcall3.
    apply (opens_io (Some ev)) in Hw3 as (Hb1 & Hb2 & Hb3 & Hb4 & Hb5 & Hb6).
    apply wpw_bind, wpw_modify, wpw_bind, wpw_get, wpw_bind.
    eapply wpw_ok; [apply arr_set_ok; simpl; lia|]. apply wpw_bind.
    eapply wpw_ok; [apply arr_set_ok; simpl; lia|]. apply wpw_bind, wpw_modify, wpw_bind, wpw_sys.
    intros ok w4 Hw4. pose proof Hw4 as Hio%connect_law. simpl in Hw4, Hio.
    assert (Q tt (socket_created n server h ev hp port w4 s)) as HQ4.
    { apply HQ; [exact Hok| |by exists p, ev, ok, w1, w2, w3]. rewrite Hw2 in *. simpl in *. rewrite Ha1, Ha2, Ha3, Ha4, Ha5, Ha6, Hw1 in *. simpl in *.
      destruct Hio as [->|(k & Hk & ->)]; split; simpl; rewrite ?Hb1, ?Hb2, ?Hb3, ?Hb4, ?Hb5, ?Hb6; simpl; try done.
      1, 3: intros x Hx; destruct (w_port s); set_solver.
      - by left.
      - intros q k'. rewrite Hb2 in Hk. simpl in Hk. rewrite lookup_insert_eq in Hk. injection Hk as <-.
        rewrite lookup_insert_Some. intros [[<- <-]|[_ ?]]; [by right|by left]. }
    replace (w_gen_key s1 - 1) with (w_gen_key s) by (simpl; lia).
    destruct ok; [apply wpw_ret; exact HQ4|]. apply wpw_bind, wpw_gets. simpl.
    destruct (Hpipe _ _ _ _ Hw4) as [-> | ->]; simpl; apply wpw_ret; exact HQ4. }
  replace (w_gen_key s1 - 1) with (w_gen_key s) in Hrest by (simpl; lia).
  match goal with |- wpw (match ?x with _ => _ end) _ _ => change x with (w_port s) end.
  destruct (w_port s) as [p0|] eqn:Hp0.
  - apply wpw_ret. specialize (Hrest (Some p0)). rewrite <- Hp0 in Hrest. exact Hrest.
  - apply wpw_modify. exact (Hrest (Some p)).
Qed.
Lemma io_ok_socket gen v v' io io' server h :
  io_ok gen v io → socket_io server gen h io io' → 1 ≤ gen → Forall (λ k, 1 ≤ k < gen) (conn_keys v) →
  (∀ x, x ∈ handles v → x ∈ io_open io) →
  (∀ x, x ∈ x_socks v' → x = Mk_wsocket gen server h ∨ x ∈ x_socks v) →
  Mk_wsocket gen server h ∈ x_socks v' →
  (∀ x k, x ∈ x_socks v → io_connects io !! so_addr x = Some k → x ∈ x_socks v') →
  (∀ c, c ∈ x_clients v → c ∈ x_clients v') →
  (∀ c, c ∈ x_clients v' → c ∈ x_clients v ∨
     ∃ x, x ∈ x_socks v ∧ wc_key c = so_key x ∧ wc_handle c = so_handle x) →
  io_ok (gen + 1) v' io'.
Proof.
  intros [Hcon Hrd Hwr Hj Hkc Hks] [Hf _ Hky Hcn Hr Hw Hjb] Hgen Hrange Hopen Hsocks Hnew Hkeep Hcl Hcl'.
  rewrite Forall_forall in Hrange.
  assert (∀ x, x ∈ x_socks v → so_handle x ≠ h) as Hne1.
  { intros x Hx <-. apply Hf, Hopen. unfold handles. rewrite !elem_of_app. right; right. by apply list_elem_of_fmap_2. }
  assert (∀ c, c ∈ x_clients v → wc_handle c ≠ h) as Hne2.
  { intros x Hx <-. apply Hf, Hopen. unfold handles. rewrite !elem_of_app. right; left. by apply list_elem_of_fmap_2. }
  split.
  - intros p k [Hp|[-> ->]]%Hcn; [|by eexists].
    destruct (Hcon _ _ Hp) as (x & Hx & <- & ->). exists x. split; [by eapply Hkeep|done].
  - rewrite Hr. intros a k off n Hx. destruct (Hrd _ _ _ _ Hx) as (c & Hc & ?). exists c. split; [auto|done].
  - rewrite Hw. intros a k n Hx. destruct (Hwr _ _ _ Hx) as (key & -> & Hg & Hno & Hc). exists key.
    split_and!; [done|lia|lia| |].
    + intros (x & -> & [->|Hin]%Hsocks)%list_elem_of_fmap; simpl in *; [lia|]. apply Hno. by apply list_elem_of_fmap_2.
    + intros c [Hin|(x & Hx' & Hk & _)]%Hcl' Hck; [auto|]. exfalso. apply Hno. rewrite <- Hck, Hk. by apply list_elem_of_fmap_2.
  - rewrite Hjb. intros k Hk. destruct (Hj k Hk) as (key & -> & ?). exists key. split; [done|lia].
  - rewrite Hky. intros c [Hc|(x & Hx & Hk & Hh)]%Hcl'.
    + rewrite lookup_insert_ne by (apply not_eq_sym; auto). auto.
    + rewrite Hk, Hh, lookup_insert_ne by (apply not_eq_sym; auto). auto.
  - rewrite Hky. intros x [->|Hx]%Hsocks; simpl; [by rewrite lookup_insert_eq|].
    rewrite lookup_insert_ne by (apply not_eq_sym; auto). auto.
Qed.

(** The client that a server socket becomes. *)
Definition accepted (client : positive) (x : wsocket) (ready : bool) : wclient :=
  Mk_wclient client (so_key x) (so_handle x) [] [] 0 ready.

(** The state after a socket has become a client and another socket has taken
    its place. *)
Lemma winv_accept own hs v s xs1 x xs2 client cl server h ev hp port w cs :
  winv (client :: own) hs v s → x_socks v = xs1 ++ x :: xs2 → w_gen_key s < KEY_LIMIT →
  io_connects (win_io_of (w_world s)) !! so_addr x = None →
  client_rep {[client := cl]} (accepted client x false) →
  heap_ok hp (server :: client :: owned (with_socks v (xs1 ++ xs2)) ++ own) →
  socket_io server (w_gen_key s) h (win_io_of (w_world s)) (win_io_of w) →
  list_rep cs ((client_entry <$> x_clients v) ++ [(so_key x, client)]) →
  let x' := Mk_wsocket (w_gen_key s) server h in
  winv own hs (Mk_wview (x_reqs v) (x_procs v) (x_clients v ++ [accepted client x false]) (xs1 ++ x' :: xs2))
    (set_clients cs (socket_created (Z.of_nat (length xs1)) server h ev hp port w
       (set_servers (delete (so_addr x) (w_servers s)) (set_store (<[client := cl]> (w_store s)) s)))).
Proof.
  intros Hi Hv Hgen Hnone Hrep Hheap Hsock Hcs x'. pose proof (i_heap _ _ _ _ _ Hi) as (_ & Hnd0 & _).
  pose proof (i_handles _ _ _ _ _ Hi) as Hhn. pose proof (i_open _ _ _ _ _ Hi) as Ho.
  pose proof (i_range _ _ _ _ _ Hi) as Hrange. pose proof (i_io _ _ _ _ _ Hi) as Hio.
  pose proof (i_gen _ _ _ _ _ Hi) as Hg. pose proof (i_parallel _ _ _ _ _ Hi) as Hpar.
  assert (∀ a, a ∈ owned v → a ≠ client) as Hclient.
  { intros a Ha ->. apply NoDup_app in Hnd0 as (_ & Hd & _). apply (Hd client Ha). set_solver. }
  set (v' := Mk_wview _ _ _ _).
  assert (conn_keys v' ≡ₚ w_gen_key s :: conn_keys v) as Hck.
  { unfold conn_keys, v'. simpl. rewrite Hv, !fmap_app. simpl. solve_Permutation. }
  assert (handles v' ≡ₚ h :: handles v) as Hhs.
  { unfold handles, v'. simpl. rewrite Hv, !fmap_app. simpl. solve_Permutation. }
  pose proof (n_fresh _ _ _ _ _ Hsock) as Hfresh.
  split; simpl; try apply Hi; try done.
  - eexists. split; [done|]. by rewrite fmap_app.
  - apply Forall_app. split.
    + pose proof (i_store _ _ _ _ _ Hi) as Hst. rewrite Forall_forall in *. intros c Hc.
      destruct (Hst c Hc) as (d & Hd & ?). exists d. split; [|done]. rewrite lookup_insert_ne; [done|].
      apply not_eq_sym, Hclient. unfold owned. rewrite !elem_of_app. right; right; left. apply elem_of_concat.
      exists (client_own c). split; [set_solver|]. by apply list_elem_of_fmap_2.
    + constructor; [|done]. destruct Hrep as (d & Hd & ?). exists d. split; [|done]. simpl in *.
      rewrite lookup_singleton_eq in Hd. by rewrite lookup_insert_eq.
  - rewrite (i_sockets _ _ _ _ _ Hi), Hv, !app_nil_r, Nat2Z.id, !fmap_app. simpl.
    by rewrite <- (Nat.add_0_r (length xs1)), <- (length_fmap so_addr xs1), <- (length_fmap Some (so_addr <$> xs1)), insert_app_r.
  - rewrite (i_server_keys _ _ _ _ _ Hi), Hv, !app_nil_r, Nat2Z.id, !fmap_app. simpl.
    by rewrite <- (Nat.add_0_r (length xs1)), <- (length_fmap so_key xs1), <- (length_fmap Some (so_key <$> xs1)), insert_app_r.
  - pose proof (i_servers _ _ _ _ _ Hi) as Hs. rewrite Hv in Hs. rewrite Forall_forall in *.
    destruct Hheap as (_ & Hnd & _). apply NoDup_cons in Hnd as [Hserver Hnd].
    assert (so_addr x ∉ so_addr <$> xs1 ++ xs2) as Hx.
    { unfold owned in Hnd0. rewrite Hv in Hnd0. rewrite <- !(assoc_L (++)) in Hnd0.
      do 3 apply NoDup_app in Hnd0 as (_ & _ & Hnd0). apply NoDup_app in Hnd0 as (Hnd0 & _ & _).
      rewrite fmap_app in *. simpl in Hnd0. apply NoDup_app in Hnd0 as (_ & Hd1 & [Hd2 _]%NoDup_cons).
      rewrite elem_of_app. intros [Hin|Hin]; [apply (Hd1 _ Hin); by left|done]. }
    intros y Hy. assert (y = x' ∨ y ∈ xs1 ++ xs2) as [->|Hy'] by set_solver.
    + eexists. simpl. by rewrite lookup_insert_eq.
    + assert (so_addr y ∈ so_addr <$> xs1 ++ xs2) as Hya by (by apply list_elem_of_fmap_2).
      destruct (Hs y) as (sv & Hsv & ?); [set_solver|]. exists sv. split; [|done]. rewrite lookup_insert_ne.
      * rewrite lookup_delete_ne; [done|]. congruence.
      * intros Heq. apply Hserver. rewrite Heq. unfold owned. simpl. rewrite elem_of_cons, !elem_of_app. tauto.
  - rewrite Hck. constructor; [|apply Hi]. rewrite Forall_forall in Hrange. intros Hin%Hrange. lia.
  - rewrite Hck. constructor; [lia|]. eapply Forall_impl; [exact Hrange|]. simpl. lia.
  - lia.
  - eapply io_ok_socket; [exact Hio|exact Hsock|lia|exact Hrange|..]; simpl.
    + intros y Hy. apply Ho. set_solver.
    + intros y. rewrite Hv, !elem_of_app, !elem_of_cons. fold x'. tauto.
    + fold x'. set_solver.
    + intros y k Hy Hk. rewrite Hv in Hy. rewrite elem_of_app, elem_of_cons in *. destruct Hy as [?|[->|?]]; [tauto|congruence|tauto].
    + set_solver.
    + intros c. rewrite elem_of_app, list_elem_of_singleton. intros [?| ->]; [by left|right].
      exists x. rewrite Hv. split_and!; [set_solver|done..].
  - rewrite Hhs. simpl. constructor; [|done]. by intros ?%Ho.
  - intros y. rewrite Hhs. simpl. rewrite elem_of_cons. intros Hy. apply (n_open _ _ _ _ _ Hsock).
    destruct Hy as [->|?%Ho]; auto.
  - eapply heap_ok_perm; [exact Hheap|]. unfold owned. simpl. rewrite !fmap_app, !concat_app. simpl. solve_Permutation.
  - rewrite Hv, !length_app in *. simpl in *. lia.
Qed.
(** An event is created; its handle is never closed. *)
Lemma wpw_init_connect_data own hs v s kind (Q : t_conn_data → wst W → Prop) :
  winv own hs v s →
  (∀ ev w, winv own hs v (set_world w s) →
     io_connects (win_io_of w) = io_connects (win_io_of (w_world s)) →
     wos_create_event (w_world s) = (ev, w) → Q (Mk_conn ev kind) (set_world w s)) →
  wpw (init_connect_data kind) Q s.
Proof.
  intros Hi HQ. unfold init_connect_data. apply wpw_bind, wpw_sys. intros ev w Hcall. pose proof Hcall as Hw%create_event_law. apply wpw_ret, HQ; [| |exact Hcall].
  - eapply winv_leak, (winv_open _ _ _ _ _ (Some ev)); [exact Hi|exact Hw].
  - by apply (opens_io (Some ev)) in Hw as (_ & _ & ? & _).
Qed.

(** A finished connection: the socket becomes a client that is being read
    from, and a new socket takes its place. *)
Lemma wpw_accept_client own hs v s xs1 x xs2 (Q : unit → wst W → Prop) :
  port_accepts → pipes_connect → winv own hs v s → x_socks v = xs1 ++ x :: xs2 → w_gen_key s < KEY_LIMIT →
  io_connects (win_io_of (w_world s)) !! so_addr x = None →
  (∀ client server h s',
     let x' := Mk_wsocket (w_gen_key s) server h in
     winv own hs (Mk_wview (x_reqs v) (x_procs v) (x_clients v ++ [accepted client x true]) (xs1 ++ x' :: xs2)) s' →
     g_parallel (w_env s') = g_parallel (w_env s) → w_gen_key s' ≤ w_gen_key s + 1 →
     accept_calls (wconfig s) x client x' (w_world s) (w_world s') → Q tt s') →
  wpw (accept_client (so_key x) (Z.of_nat (length xs1))) Q s.
Proof.
  intros Hport Hpipe Hi Hv Hgen Hnone HQ. unfold accept_client. apply wpw_bind. eapply wpw_winv_malloc; [exact Hi|].
  intros client h1 Hi1. apply wpw_bind, wpw_get, wpw_bind. eapply wpw_ok.
  { apply arr_get_ok; [lia|]. rewrite (i_sockets _ _ _ _ _ Hi1), Hv, app_nil_r, Nat2Z.id, !list_lookup_fmap.
    by rewrite list_lookup_middle. }
  pose proof (i_servers _ _ _ _ _ Hi1) as Hs. rewrite Forall_forall in Hs.
  destruct (Hs x) as (sv & Hsv & Hh); [rewrite Hv; set_solver|]. apply wpw_bind. eapply wpw_server_get; [exact Hsv|].
  destruct (init_readbuf_rep BUFSIZE) as (rb & Hrb & Hrep); [by_computation|]. apply wpw_bind. eapply wpw_ok; [exact Hrb|].
  destruct (init_writebuf_rep 16) as (wb & Hwb & Hwrep & Hw); [by_computation|]. apply wpw_bind. eapply wpw_ok; [exact Hwb|].
  apply wpw_bind. eapply wpw_init_connect_data; [exact Hi1|]. intros ev1 w1 Hi2 Hc1 Hcall1.
  apply wpw_bind. eapply wpw_init_connect_data; [exact Hi2|]. intros ev2 w2 Hi3 Hc2 Hcall2.
  apply wpw_bind, wpw_modify, wpw_bind, wpw_heap. intros E _. pose proof (i_heap _ _ _ _ _ Hi3) as Hheap.
  set (rest := owned (with_socks v (xs1 ++ xs2))).
  eapply (wp_free _ _ (client :: rest ++ own)).
  { eapply heap_ok_perm; [exact Hheap|]. unfold rest, owned. simpl. rewrite Hv, !fmap_app. simpl. solve_Permutation. }
  intros h2 Hok2. apply wpw_bind, wpw_modify, wpw_bind. simpl.
  match goal with |- wpw _ _ ?t => set (s2 := t) end.
  eapply (wpw_create_server_socket _ (client :: rest ++ own)); [exact Hport|exact Hpipe|exact Hok2| | | |].
  { pose proof (i_gen _ _ _ _ _ Hi). simpl. lia. }
  { simpl. pose proof (i_sockets _ _ _ _ _ Hi) as ->. rewrite Hv, app_nil_r, !length_fmap, length_app. simpl. lia. }
  { simpl. pose proof (i_server_keys _ _ _ _ _ Hi) as ->. rewrite Hv, app_nil_r, !length_fmap, length_app. simpl. lia. }
  intros server h ev hp port w Hok3 Hio Hcall3.
  destruct (i_clients _ _ _ _ _ Hi3) as (l & Hl & Hlrep). apply wpw_bind. eapply wpw_the_clients; [exact Hl|].
  apply wpw_bind, wpw_lift. eapply safe_mono; [apply list_append_safe; [exact Hlrep|done]|]. intros cs Hcs.
  apply wpw_bind, wpw_modify.
  assert (client_rep {[client := Mk_client (sv_handle sv) (Mk_conn ev1 READOP) (Mk_conn ev2 WRITEOP) rb wb]} (accepted client x false)) as Hcrep.
  { eexists. simpl. rewrite lookup_singleton_eq. split_and!; try done. by destruct Hwrep as (_ & _ & _ & ? & _). }
  pose proof (winv_accept own hs v _ xs1 x xs2 client (Mk_client (sv_handle sv) (Mk_conn ev1 READOP) (Mk_conn ev2 WRITEOP) rb wb)
    server h ev hp port w cs Hi3 Hv Hgen) as Hfin.
  simpl in Hfin. rewrite Hc2 in Hfin. simpl in Hfin. rewrite Hc1 in Hfin.
  specialize (Hfin Hnone Hcrep Hok3 Hio Hcs).
  change client with (wc_addr (accepted client x false)) at 1.
  eapply (wpw_do_read own hs _ _ (x_clients v) (accepted client x false) []); [exact Hfin|done|].
  intros s' Hi' (Hp' & Hg' & _) Hw'. simpl in Hp', Hg'. eapply HQ; [exact Hi'|exact Hp'|lia|].
  exists ev1, ev2, w1, w2, w. split_and!; [exact Hcall1|exact Hcall2|exact Hcall3|exact Hw'].
Qed.
(** ** Running a request *)

(** More handles are open, and the caller owns some of the new ones. *)
Lemma winv_opened own hs hs' v s w :
  winv own hs v s → NoDup (hs' ++ handles v ++ hs) →
  (∀ x, x ∈ io_open (win_io_of (w_world s)) ∨ x ∈ hs' → x ∈ io_open (win_io_of w)) →
  win_io_of w = with_open (io_open (win_io_of w)) (win_io_of (w_world s)) →
  winv own (hs' ++ hs) v (set_world w s).
Proof.
  intros Hi Hnd Hopen Hw. pose proof (i_open _ _ _ _ _ Hi) as Ho. pose proof (i_io _ _ _ _ _ Hi) as Hio.
  assert (handles v ++ hs' ++ hs ≡ₚ hs' ++ handles v ++ hs) as Hp by solve_Permutation.
  destruct Hi. split; simpl; try done.
  - rewrite Hw. by apply io_ok_open.
  - by rewrite Hp.
  - intros x. rewrite Hp, elem_of_app. intros [?|?%Ho]; auto.
Qed.

Lemma wpw_open_temp_file own hs v s (Q : Z * cstr → wst W → Prop) :
  winv own hs v s →
  (∀ h outfile s', winv (c_addr outfile :: own) (h :: hs) v s' → after 0 s s' →
     output_file (w_current_dir s) h (c_txt outfile) (w_world s) (w_world s') →
     Z.of_nat (length (c_txt outfile)) < MAX_PATH → Q (h, outfile) s') →
  wpw open_temp_file Q s.
Proof.
  intros Hi HQ. unfold open_temp_file. apply wpw_bind. eapply wpw_winv_malloc; [exact Hi|]. intros a h1 Hi1.
  apply wpw_bind, wpw_gets, wpw_bind, wpw_sys. intros [res name] w Hcall. pose proof Hcall as [Hw Hname]%temp_name_law. cbv beta iota.
  assert (winv (a :: own) hs v (set_world w (with_heap h1 s))) as Hi2 by (by apply winv_frame).
  destruct (Z.eqb_spec res 0) as [|Hres]; [by eapply wpw_shutdown_inv|]. specialize (Hname Hres).
  apply wpw_bind. eapply (wpw_ok _ tt); [unfold defined; by rewrite (proj2 (Z.ltb_lt _ _) Hname)|].
  apply wpw_bind, wpw_sys. intros [h|] w2 Hcall2; pose proof Hcall2 as Hw2%create_file_law.
  - apply wpw_ret, HQ; [|by apply after_0|by exists res, name, w|exact Hname].
    exact (winv_open _ _ _ _ w2 (Some h) Hi2 Hw2).
  - eapply wpw_shutdown_inv. exact (winv_open _ _ _ _ w2 None Hi2 Hw2).
Qed.

Lemma wpw_load_all own hs v s l (Q : list bytes → wst W → Prop) :
  winv own hs v s → (∀ a, a ∈ l → c_addr a ∈ owned v ++ own) →
  Q (c_str <$> (c_txt <$> l)) s → wpw (heapU (load_all l)) Q s.
Proof.
  intros Hi Hl HQ. apply wpw_heap. intros E _.
  assert (∀ Q' : list bytes → heap → Prop, Q' (c_str <$> (c_txt <$> l)) (g_heap (w_env s)) →
    wp E (load_all l) Q' (g_heap (w_env s))) as Hload.
  { clear HQ. induction l as [|a l IH]; intros Q' HQ'; simpl; [done|]. apply wp_bind.
    eapply wp_load; [apply Hi|apply Hl; by left|]. apply wp_bind, IH; [intros; apply Hl; by right|]. by apply wp_ret. }
  apply Hload. by rewrite with_heap_id.
Qed.

(** The handle of the file for the standard input is never closed. *)
Lemma wpw_open_stdin own hs v s (args : list cstr) stdin (Q : option Z → wst W → Prop) :
  winv own hs v s → (∀ a, a ∈ args → c_addr a ∈ owned v ++ own) → (stdin = true → args ≠ []) →
  (∀ h w, winv own hs v (set_world w s) → stdin_file args stdin h (w_world s) w → Q h (set_world w s)) →
  wpw (open_stdin args stdin (Z.of_nat (length args) - (if stdin then 1 else 0))) Q s.
Proof.
  intros Hi Hargs Hne HQ. unfold open_stdin. destruct stdin.
  - destruct (decide (args = [])) as [->|Hn]; [by destruct Hne|]. destruct args as [|a0 args0] eqn:Hd; [done|].
    rewrite <- Hd in *. assert (0 < length args)%nat by (rewrite Hd; simpl; lia).
    apply wpw_bind. eapply (wpw_ok _ tt); [unfold defined; by rewrite (proj2 (Z.leb_le _ _)) by lia|].
    destruct (lookup_lt_is_Some_2 args (Z.to_nat (Z.of_nat (length args) - 1))) as [f Hf]; [lia|]. rewrite Hf.
    apply wpw_bind. eapply wpw_winv_load; [exact Hi|apply Hargs; by eapply list_elem_of_lookup_2|].
    apply wpw_sys. intros r w Hcall. pose proof Hcall as Hw%create_file_law.
    assert (last args = Some f) as Hlast.
    { rewrite last_lookup, <- Hf. f_equal. lia. }
    apply HQ; [|by exists f]. pose proof (winv_open _ _ _ _ w r Hi Hw) as Hi'. destruct r; [by eapply winv_leak|done].
  - apply wpw_ret. rewrite <- (set_world_id s). apply HQ; [by rewrite set_world_id|done].
Qed.

Lemma wpw_winv_log own hs v s txt (Q : unit → wst W → Prop) :
  winv own hs v s → (∀ s', winv own hs v s' → after 0 s s' → w_world s' = w_world s → Q tt s') → wpw (on_env (log_msg txt)) Q s.
Proof.
  intros Hi HQ. apply wpw_env. intros E _. apply wp_log_msg; [apply Hi|]. intros f Hf.
  apply HQ; [|by apply after_0|done]. destruct Hi. by split.
Qed.

Lemma winv_keygen own hs v s :
  winv own hs v s → w_gen_key s < KEY_LIMIT → winv own hs v (set_gen_key (w_gen_key s + 1) s).
Proof.
  intros Hi Hg. pose proof (i_range _ _ _ _ _ Hi) as Hr. pose proof (i_gen _ _ _ _ _ Hi) as Hgen.
  pose proof (i_io _ _ _ _ _ Hi) as Hio. destruct Hi. split; simpl; try done.
  - eapply Forall_impl; [exact Hr|]. simpl. lia.
  - lia.
  - eapply io_ok_gen; [exact Hio|lia].
Qed.

Lemma winv_add_proc own own' hs hs' v s key p ps :
  winv own hs v s → own ≡ₚ proc_own p ++ own' → hs ≡ₚ proc_handles p ++ hs' → proc_ok p →
  list_rep ps (x_procs v ++ [(key, p)]) →
  winv own' hs' (with_procs v (x_procs v ++ [(key, p)])) (set_processes ps s).
Proof.
  intros Hi Hown Hhs Hp Hps. set (v' := with_procs v _).
  assert (x_procs v' ≡ₚ (key, p) :: x_procs v) as Hpp by (unfold v'; simpl; solve_Permutation).
  assert (handles v' ++ hs' ≡ₚ handles v ++ hs) as Hh.
  { rewrite (win_handles_procs v' _ _ _ Hpp), Hhs. change (with_procs v' (x_procs v)) with (with_procs v (x_procs v)).
    unfold handles. simpl. solve_Permutation. }
  pose proof (i_handles _ _ _ _ _ Hi) as Hn. pose proof (i_open _ _ _ _ _ Hi) as Ho.
  pose proof (i_heap _ _ _ _ _ Hi) as Hheap. pose proof (i_procs_ok _ _ _ _ _ Hi) as Hok.
  pose proof (i_io _ _ _ _ _ Hi) as Hio.
  destruct Hi. split; simpl; try done.
  - eauto.
  - apply Forall_app. split; [done|]. by constructor.
  - by apply (io_ok_view _ v).
  - by rewrite Hh.
  - intros x. rewrite Hh. apply Ho.
  - eapply heap_ok_perm; [exact Hheap|]. rewrite Hown. rewrite (win_owned_procs v' _ _ _ Hpp).
    unfold owned. simpl. solve_Permutation.
Qed.

(** A job reports to the port. *)
Lemma winv_set_port own hs v s w key :
  winv own hs v s → 1 ≤ key < w_gen_key s →
  win_io_of w = win_io_of (w_world s) ∨
  win_io_of w = with_jobs ({[proc_ms_key key]} ∪ io_jobs (win_io_of (w_world s))) (win_io_of (w_world s)) →
  winv own hs v (set_world w s).
Proof.
  intros Hi Hk [Hw|Hw]; [by apply winv_frame|]. pose proof (i_io _ _ _ _ _ Hi) as Hio.
  destruct Hi. split; simpl; rewrite ?Hw; try done. destruct Hio as [Hcon Hrd Hwr Hj Hkc Hks]. split; try done.
  intros k. simpl. rewrite elem_of_union, elem_of_singleton. intros [->|?]; [by exists key|by apply Hj].
Qed.
(** The process for the request of the client [c], in the job [job], with the
    output file [out] named [name]: the client gets a message; or, when the
    process cannot be created, it gets only the message that it has ended. *)
Definition win_process (port : option Z) (r : request) (d : run_data) (job out : Z) (name : bytes) (hin : option Z)
    (cs1 : list wclient) (c : wclient) (cs2 : list wclient) (x y : wview * W) : Prop :=
  let cmdline := cmd_text (c_str (c_txt (cmd d))) (c_str <$> passed_args (usestdin d) (c_txt <$> args d)) in
  let si := Mk_si hin (Some out) (Some out) in
  (∃ hProcess hThread key p m w1 w2 w3,
     wos_create_process cmdline si x.2 = (Some (hProcess, hThread), w1) ∧
     wos_assign_process (Some job) hProcess w1 = (true, w2) ∧
     wos_set_port job port (proc_ms_key key) (sent c m w2) = (true, w3) ∧
     y = (with_clients (with_procs x.1 (x_procs x.1 ++ [(key, p)])) (cs1 ++ with_message c m :: cs2),
          wos_close_handle (Some hThread) (wos_close_handle (Some out) (wos_resume_thread hThread w3))) ∧
     p_os p = (hProcess, job) ∧ p_client_key p = r_key r ∧ p_task_id p = r_id r ∧ c_txt (p_outfile p) = name ∧
     c_txt m = started_text (c_str (c_txt (r_id r)))) ∨
  (∃ m w1, wos_create_process cmdline si x.2 = (None, w1) ∧
     y = (with_clients x.1 (cs1 ++ with_message c m :: cs2),
          sent c m (wos_close_handle (Some job) (wos_close_handle (Some out) w1))) ∧
     c_txt m = finished_text (c_str (c_txt (r_id r))) 0 (fmt_2f (sf_of_Z 0)) false (c_str name)).

(** What a request to run becomes: nothing when its client is gone; otherwise a
    job with the limits of the request, an output file, the file for the
    standard input, and the process. The relation is on the view and the
    outside world. *)
Definition win_started (cfg : bytes * option Z * bytes) (r : request) (x y : wview * W) : Prop :=
  ((r_key r ∉ wc_key <$> x_clients x.1) ∧ y = x) ∨
  ∃ d cs1 c cs2 job out name hin w1 w2 w3 w4,
    req_type r = REQ_RUN d ∧ x_clients x.1 = cs1 ++ c :: cs2 ∧ wc_key c = r_key r ∧
    wos_create_job_object x.2 = (Some job, w1) ∧ output_file cfg.1.1 out name w1 w2 ∧
    stdin_file (args d) (usestdin d) hin w2 w3 ∧ job_limited job (timeout d) (memlimit d) w3 w4 ∧
    win_process cfg.1.2 r d job out name hin cs1 c cs2 (x.1, w4) y.

(** What the caller owns afterwards, when it owned the blocks of the request
    and [own]: all of these, or these without the id, which a process keeps. *)
Definition request_kept (r : request) (own own' : list positive) (v' : wview) : Prop :=
  owned v' ++ own' ≡ₚ req_own r ++ (owned v' ++ own) ∨
  ∃ o, owned v' ≡ₚ c_addr (r_id r) :: o ∧ owned v' ++ own' ≡ₚ req_own r ++ o ++ own.

Lemma wpw_run_process own hs v s r d cs1 c cs2 hin out job outfile (Q : unit → wst W → Prop) :
  winv (c_addr outfile :: req_own r ++ own) (out :: job :: hs) v s → short (r_id r) →
  Z.of_nat (length (c_txt outfile)) < MAX_PATH →
  x_clients v = cs1 ++ c :: cs2 → wc_key c = r_key r → w_gen_key s < KEY_LIMIT →
  (∀ own' v' s', winv own' hs v' s' →
     win_process (w_port s) r d job out (c_txt outfile) hin cs1 c cs2 (v, w_world s) (v', w_world s') →
     x_reqs v' = x_reqs v → after 1 s s' → request_kept r own own' v' → Q tt s') →
  wpw (run_process r d (wc_addr c) (cmd_text (c_str (c_txt (cmd d))) (c_str <$> passed_args (usestdin d) (c_txt <$> args d)))
         (Mk_si hin (Some out) (Some out)) out job outfile) Q s.
Proof.
  intros Hi Hshort Hmax Hv Hk Hgen HQ. unfold run_process. apply wpw_bind, wpw_sys.
  intros [[hProcess hThread]|] w Hcall1; pose proof Hcall1 as Hw%create_process_law.
  2: { apply wpw_bind. eapply wpw_winv_log; [by apply winv_frame|]. intros s1 Hi1 Ha1 Hw1.
    apply wpw_bind, wpw_CloseHandle. apply winv_close in Hi1.
    apply wpw_bind, wpw_CloseHandle. apply winv_close in Hi1.
    eapply wpw_send_msg; [exact Hi1|exact Hv|rewrite (req_own_rest r); set_solver|set_solver|apply no_nul_fmt_2f|exact Hshort|exact Hmax|].
    intros m s2 Hi2 Ha2 Hw2 Htxt. eapply (HQ (req_own r ++ own)).
    - exact (winv_forget _ [c_addr outfile] _ _ _ Hi2).
    - right. exists m, w. split; [exact Hcall1|]. split; [simpl in Hw2; by rewrite Hw2, Hw1|].
      apply Htxt. unfold finished_text. rewrite !length_app. pose proof (length_c_str (c_txt (r_id r))).
      pose proof (length_c_str (c_txt outfile)). unfold short, alloc_limit, MAX_PATH, INT_MAX in *.
      change (length (str "F;")) with 2%nat. change (length (dec 0)) with 1%nat.
      change (length (fmt_2f (sf_of_Z 0))) with 4%nat. simpl. lia.
    - done.
    - eapply after_mono; [eapply after_trans; [exact Ha1|exact Ha2]|lia].
    - left. solve_Permutation. }
  simpl in Hw. destruct Hw as (a & [Hp Ha] & Ht & Hw).
  assert (winv (c_addr outfile :: req_own r ++ own) ([hProcess; hThread] ++ out :: job :: hs) v (set_world w s)) as Hi1.
  { rewrite Ha in Ht, Hw. simpl in Ht, Hw. pose proof (i_handles _ _ _ _ _ Hi) as Hn. pose proof (i_open _ _ _ _ _ Hi) as Ho.
    apply winv_opened; [exact Hi| | |].
    - simpl. constructor; [|constructor; [|exact Hn]].
      + rewrite elem_of_cons. intros [->|?%Ho]; [set_solver|done].
      + intros ?%Ho. set_solver.
    - rewrite Hw. simpl. set_solver.
    - by rewrite Hw. }
  apply wpw_bind, wpw_sys. intros ok w2 Hcall2. pose proof Hcall2 as Hw2%assign_process_frame. apply wpw_bind.
  assert (winv (c_addr outfile :: req_own r ++ own) (hProcess :: hThread :: out :: job :: hs) v (set_world w2 (set_world w s))) as Hi2
    by (by apply winv_frame).
  destruct ok; [apply wpw_ret|by eapply wpw_shutdown_inv].
  apply wpw_bind. eapply wpw_winv_malloc; [exact Hi2|]. intros blk h Hi3.
  apply wpw_bind. unfold keygen. apply wpw_bind, wpw_gets, wpw_bind. simpl.
  pose proof (i_gen _ _ _ _ _ Hi) as Hg. unfold KEY_LIMIT in Hgen, Hg.
  eapply wpw_ok; [apply int_op_ok; unfold INT_MIN, INT_MAX; lia|]. apply wpw_bind, wpw_modify, wpw_ret.
  apply winv_keygen in Hi3; [|exact Hgen]. simpl in Hi3.
  destruct (i_procs _ _ _ _ _ Hi3) as (l & Hl & Hlrep). apply wpw_bind. eapply wpw_the_processes; [exact Hl|].
  apply wpw_bind, wpw_lift. set (p := Mk_proc blk (hProcess, job) (r_key r) (r_id r) outfile).
  eapply safe_mono; [apply (list_append_safe _ _ _ (w_gen_key s) p Hlrep); done|]. intros ps Hps.
  apply wpw_bind, wpw_modify. set (v1 := with_procs v (x_procs v ++ [(w_gen_key s, p)])).
  match goal with |- wpw _ _ ?t => assert (winv (req_rest r ++ own) (hThread :: out :: hs) v1 t) as Hi4 end.
  { eapply winv_add_proc; [exact Hi3| | |done|exact Hps].
    - unfold proc_own. simpl. rewrite (req_own_rest r). solve_Permutation.
    - unfold proc_handles. simpl. solve_Permutation. }
  assert (∀ v', x_procs v' = x_procs v1 → owned v' ≡ₚ
    c_addr (r_id r) :: [blk; c_addr outfile] ++ owned (with_procs v' (x_procs v))) as Hown.
  { intros v' Hv'. rewrite (win_owned_procs v' (w_gen_key s) p (x_procs v)) by (rewrite Hv'; unfold v1; simpl; solve_Permutation).
    unfold proc_own. simpl. solve_Permutation. }
  apply wpw_bind. eapply (wpw_send_started _ _ v1); [exact Hi4|exact Hv| |exact Hshort|].
  { rewrite (Hown v1) by done. set_solver. }
  intros m s5 Hi5 Ha5 Hw5 Htxt. apply wpw_bind. eapply wpw_ok; [apply to_ms_key_ok; [lia|by right]|].
  fold (proc_ms_key (w_gen_key s)). apply wpw_bind, wpw_gets, wpw_bind, wpw_sys. intros ok w6 Hcall6. pose proof Hcall6 as Hw6%set_port_law.
  assert (after 1 s s5) as Ha15.
  { destruct Ha5 as (Hq1 & Hq2 & Hq3). simpl in Hq1, Hq2. split_and!; [done|lia|lia|exact Hq3]. }
  eapply (winv_set_port _ _ _ _ w6 (w_gen_key s)) in Hi5; [|destruct Ha5 as (_ & Hq & _); simpl in Hq; lia|exact Hw6].
  apply wpw_bind. destruct ok; [apply wpw_ret|by eapply wpw_shutdown_inv].
  apply wpw_bind. unfold sys_. apply wpw_modify.
  apply (winv_frame _ _ _ _ (wos_resume_thread hThread w6)) in Hi5; [|by apply resume_thread_frame].
  apply (winv_handles _ _ (out :: hThread :: hs)) in Hi5; [|solve_Permutation].
  apply wpw_bind, wpw_CloseHandle. apply winv_close in Hi5. apply wpw_CloseHandle. apply winv_close in Hi5.
  eapply HQ; [exact Hi5| |done|exact Ha15|].
  - left. exists hProcess, hThread, (w_gen_key s), p, m, w, w2, w6. simpl in Hw5.
    destruct Ha5 as (_ & _ & Hcfg). unfold wconfig in Hcfg. simpl in Hcfg. injection Hcfg as _ Hport _.
    rewrite Hw5, Hport in Hcall6. done.
  - right. eexists. split; [by apply Hown|]. rewrite (req_own_rest r), Hown by done. simpl. solve_Permutation.
Qed.

Lemma win_lookup_client own hs v s key l :
  winv own hs v s → w_clients s = Some l →
  (list_lookup l key = Ok None ∧ (key ∉ wc_key <$> x_clients v)) ∨
  ∃ cs1 c cs2, list_lookup l key = Ok (Some (wc_addr c)) ∧ x_clients v = cs1 ++ c :: cs2 ∧ wc_key c = key.
Proof.
  intros Hi Hl. destruct (i_clients _ _ _ _ _ Hi) as (l' & Hl' & Hrep). simplify_eq.
  rewrite (list_lookup_rep _ _ _ Hrep).
  destruct (assoc_remove_fmap client_entry key (x_clients v)) as [(Ha & Hn & _)|(c & cs' & Ha & Hk & Hp & _)].
  - left. rewrite Ha. split; [done|]. rewrite <- list_fmap_compose in Hn. exact Hn.
  - right. assert (c ∈ x_clients v) as (cs1 & cs2 & Hv)%list_elem_of_split by (rewrite Hp; set_solver).
    exists cs1, c, cs2. rewrite Ha. done.
Qed.

Lemma wpw_run_request own hs v s r (Q : unit → wst W → Prop) :
  winv (req_own r ++ own) hs v s → runnable r → w_gen_key s < KEY_LIMIT →
  (∀ own' v' s', winv own' hs v' s' → win_started (wconfig s) r (v, w_world s) (v', w_world s') →
     x_reqs v' = x_reqs v → after 1 s s' →
     request_kept r own own' v' → Q tt s') →
  wpw (run_request r) Q s.
Proof.
  intros Hi (Hwf & Hrun & Hfits & Hshort) Hgen HQ. unfold run_request. apply wpw_bind. eapply wpw_winv_touch; [done| |].
  { rewrite (req_own_rest r). unfold req_rest. destruct (req_type r); set_solver. }
  destruct (req_type r) as [d|] eqn:Hd; [|done]. cbv zeta.
  assert (numargs d = Z.of_nat (length (args d))) as Hnum by (unfold req_wf in Hwf; by rewrite Hd in Hwf).
  unfold content in Hfits. rewrite Hd in Hfits. destruct Hfits as [Hstdin Hfits].
  destruct (i_clients _ _ _ _ _ Hi) as (l & Hl & _). apply wpw_bind. eapply wpw_the_clients; [done|].
  apply wpw_bind. destruct (win_lookup_client _ _ _ _ (r_key r) _ Hi Hl) as [[Hlook Hno]|(cs1 & c & cs2 & Hlook & Hv & Hk)];
    (eapply wpw_ok; [exact Hlook|]).
  { apply wpw_ret. eapply HQ; [exact Hi|by left|done|by eapply after_mono; [apply after_0|]|]. left. solve_Permutation. }
  assert (∀ a, a ∈ args d → c_addr a ∈ req_own r) as Hargs.
  { intros a Ha. unfold req_own. rewrite Hd, elem_of_app. right. by apply list_elem_of_fmap_2. }
  assert (c_addr (cmd d) ∈ req_own r) as Hcmd by (unfold req_own; rewrite Hd; set_solver).
  apply wpw_bind, wpw_sys. intros r0 w Hcall1. pose proof Hcall1 as Hw%create_job_law. pose proof (winv_open _ _ _ _ w r0 Hi Hw) as Hi1.
  destruct r0 as [job|]; [|by eapply wpw_shutdown_inv].
  apply wpw_bind. eapply wpw_open_temp_file; [exact Hi1|]. intros out outfile s2 Hi2 Ha2 Hcall2 Hmax. cbv beta iota.
  set (n := length (args d)) in *. set (k := (n - (if usestdin d then 1 else 0))%nat).
  assert (usestdin d = true → (0 < n)%nat) as Hpos.
  { intros Hs%Hstdin. unfold n. destruct (args d); [by destruct Hs|simpl; lia]. }
  assert ((if usestdin d then numargs d - 1 else numargs d) = Z.of_nat n - (if usestdin d then 1 else 0)) as Hcount
    by (rewrite Hnum; destruct (usestdin d); lia).
  assert (Z.of_nat n - (if usestdin d then 1 else 0) = Z.of_nat k) as Hcount2
    by (unfold k; destruct (usestdin d); [specialize (Hpos eq_refl)|]; lia).
  rewrite Hcount. apply wpw_bind. eapply wpw_open_stdin; [exact Hi2| | |].
  { intros a Ha. specialize (Hargs a Ha). set_solver. }
  { intros Hs%Hstdin. by destruct (args d). }
  intros hin w3 Hi3 Hcall3. fold n. rewrite Hcount2.
  apply wpw_bind. eapply wpw_winv_load; [exact Hi3|set_solver|].
  apply wpw_bind. eapply wpw_load_all; [exact Hi3| |].
  { intros a Ha. apply elem_of_take in Ha as (i & Ha & _). specialize (Hargs a (list_elem_of_lookup_2 _ _ _ Ha)). set_solver. }
  rewrite Nat2Z.id. pose proof (build_cmd_spec (c_str (c_txt (cmd d))) (c_str <$> (c_txt <$> take k (args d))) (Z.of_nat k)) as Hb.
  rewrite !length_fmap, length_take, Nat2Z.id, c_str_idem in Hb. fold n in Hb. specialize (Hb ltac:(lia)). cbv zeta in Hb.
  assert (c_str <$> take k (c_str <$> (c_txt <$> take k (args d))) = c_str <$> passed_args (usestdin d) (c_txt <$> args d)) as Htxt.
  { unfold passed_args. rewrite length_fmap. fold n. fold k. rewrite <- !fmap_take, take_take, Nat.min_id, <- !list_fmap_compose.
    apply list_fmap_ext. intros i a _. simpl. apply c_str_idem. }
  rewrite Htxt in Hb. unfold CMD_SIZE in Hfits.
  destruct (build_cmd _ _ _) as [buf|f]; [|destruct Hb; lia]. destruct Hb as [Hb _].
  apply wpw_bind. eapply wpw_ok; [done|]. apply wpw_bind. eapply wpw_ok; [by eapply buf_text_holds|].
  set (si := Mk_si _ _ _). apply wpw_bind.
  assert (∀ w4, winv (c_addr outfile :: req_own r ++ own) (out :: job :: hs) v (set_world w4 s2) →
    job_limited job (timeout d) (memlimit d) w3 w4 →
    wpw (run_process r d (wc_addr c) (cmd_text (c_str (c_txt (cmd d))) (c_str <$> passed_args (usestdin d) (c_txt <$> args d)))
      si out job outfile) Q (set_world w4 s2)) as Hend.
  { intros w4 Hi4 Hcall4. eapply wpw_run_process; [exact Hi4|exact Hshort|exact Hmax|exact Hv|exact Hk| |].
    - destruct Ha2 as (_ & Hq & _). simpl in Hq |- *. lia.
    - intros own' v' s' Hi' Hst Hr Ha'. eapply HQ; [done| |done|exact (after_trans 0 1 s s2 s' Ha2 Ha')].
      right. exists d, cs1, c, cs2, job, out, (c_txt outfile), hin, w, (w_world s2), w3, w4.
      destruct Ha2 as (_ & _ & [= Hdir Hport _]). simpl in Hst. rewrite Hport in Hst. done. }
  unfold job_limited in Hend. destruct (request_limits _ _) as [lim|]; [|by apply wpw_ret, Hend].
  apply wpw_bind, wpw_sys. intros ok w4 Hcall4. pose proof Hcall4 as Hw4%set_limits_frame.
  assert (winv (c_addr outfile :: req_own r ++ own) (out :: job :: hs) v (set_world w4 (set_world w3 s2))) as Hi4
    by (by apply winv_frame).
  destruct ok; [apply wpw_ret; by apply Hend|by eapply wpw_shutdown_inv].
Qed.
End handlers.
