(* ===== verification/ServerWinLoop.v ===== *)
(** * The event loop of the Windows server

    Requests, messages and the end of processes: what each event does to the
    view, and that the loop keeps the invariant. *)

From S2P Require Import Prelude CMem ArrayList Queue ReadBuf WriteBuf Env Request Proc UnixOS Messages WinOS CmdLine ServerWin ServerWinProps ServerWinInv ServerWinHandlers.

(** ** Effects on the view *)

(** The same clients, perhaps with more to send. *)
Definition same_client (c c' : wclient) : Prop :=
  same_conn c c' ∧ wc_in c' = wc_in c ∧ wc_ready c' = wc_ready c.

Section effects.
Context {W : Type} `{WinOS W}.

(** The world after the processes [ps] have been terminated, in order. *)
Definition terminate_all (ps : list (t_proc (Z * Z))) (w : W) : W :=
  foldl (λ w p, wos_terminate_process (p_os p).1 ERROR_REQUEST_ABORTED w) w ps.

(** What a parsed request does, when [par] processes may run. *)
Definition win_handled (par : Z) (cfg : bytes * option Z * bytes) (r : option request) (x y : wview * W) : Prop :=
  match r with
  | None => y = x
  | Some r =>
      match req_type r with
      | REQ_RUN _ =>
          if Z.of_nat (length (x_procs x.1)) <? par then win_started cfg r x y
          else y = (with_reqs x.1 (x_reqs x.1 ++ [r]), x.2)
      | REQ_INTERRUPT =>
          y = (with_reqs x.1 (filter (other_id (r_id r)) (x_reqs x.1)),
               terminate_all (filter (same_task (r_id r)) (x_procs x.1).*2) x.2)
      end
  end.

(** The scheduler: requests are started in the order of the queue until the
    limit is reached or the queue is empty. *)
Inductive win_schedules (par : Z) (cfg : bytes * option Z * bytes) : wview * W → wview * W → Prop :=
| ws_stop x : par ≤ Z.of_nat (length (x_procs x.1)) ∨ x_reqs x.1 = [] → win_schedules par cfg x x
| ws_start x r rs y z :
    Z.of_nat (length (x_procs x.1)) < par → x_reqs x.1 = r :: rs →
    win_started cfg r (with_reqs x.1 rs, x.2) y → win_schedules par cfg y z → win_schedules par cfg x z.

End effects.

(** A message that the server can handle: not empty, a limit that is not above
    the number of sockets, and a request that can be run. *)
Definition message_ok (par socks : Z) (msg : bytes) : Prop :=
  msg ≠ [] ∧
  let '(r, par') := request_spec par (fields (take (length msg - 1) msg)) in
  par' ≤ socks ∧ (∀ c, r = Some c → content_fits c).

(** How many keys may be needed for what has been received. *)
Definition keys_due {W} (s : wst W) (v : wview) : Z := w_gen_key s + Z.of_nat (length (x_reqs v)).

#[global] Instance same_client_preorder : PreOrder same_client.
Proof.
  split; [by repeat split|]. intros x y z [(?&?&?) [??]] [(?&?&?) [??]]. repeat split; congruence.
Qed.

Lemma same_client_message cs1 c cs2 m :
  Forall2 same_client (cs1 ++ c :: cs2) (cs1 ++ with_message c m :: cs2).
Proof. apply Forall2_app; [reflexivity|]. constructor; [by repeat split|reflexivity]. Qed.

Section effect_lemmas.
Context {W : Type} `{WinOS W}.
Implicit Types (x y : wview * W).

Lemma win_started_clients cfg r x y : win_started cfg r x y →
  Forall2 same_client (x_clients x.1) (x_clients y.1) ∧ x_socks y.1 = x_socks x.1 ∧
  (length (x_procs y.1) ≤ S (length (x_procs x.1)))%nat.
Proof.
  intros [[_ ->]|(d & cs1 & c & cs2 & job & out & name & hin & w1 & w2 & w3 & w4 & _ & Hv & _ & _ & _ & _ & _ & Hp)].
  { split_and!; [reflexivity|done|lia]. }
  destruct Hp as [(hP & hT & key & p & m & w5 & w6 & w7 & _ & _ & _ & -> & _)|(m & w5 & _ & -> & _)]; simpl; rewrite Hv.
  - rewrite length_app. simpl. split_and!; [apply same_client_message|done|lia].
  - split_and!; [apply same_client_message|done|lia].
Qed.

Lemma win_handled_clients par cfg r x y : win_handled par cfg r x y →
  Forall2 same_client (x_clients x.1) (x_clients y.1) ∧ x_socks y.1 = x_socks x.1.
Proof.
  unfold win_handled. destruct r as [r|]; [|intros ->; split; [reflexivity|done]].
  destruct (req_type r); [case_match|].
  - by intros (? & ? & _)%win_started_clients.
  - intros ->. split; [reflexivity|done].
  - intros ->. split; [reflexivity|done].
Qed.

Lemma win_schedules_limit par cfg x y : win_schedules par cfg x y →
  Z.of_nat (length (x_procs y.1)) ≤ Z.max par (Z.of_nat (length (x_procs x.1))) ∧
  (par ≤ Z.of_nat (length (x_procs y.1)) ∨ x_reqs y.1 = []) ∧
  Forall2 same_client (x_clients x.1) (x_clients y.1) ∧ x_socks y.1 = x_socks x.1.
Proof.
  induction 1 as [x Hend|x r rs y z Hlt Hv Hst _ (IH1 & IH2 & IH3 & IH4)].
  - split_and!; [lia|done|reflexivity|done].
  - apply win_started_clients in Hst as (Hc & Hs & Hl). simpl in *. split_and!; [lia|done| |congruence].
    etrans; [exact Hc|exact IH3].
Qed.
End effect_lemmas.

(** The client [c] among the clients afterwards. *)
Lemma same_client_split cs1 c cs2 cs' :
  Forall2 same_client (cs1 ++ c :: cs2) cs' →
  ∃ cs1' c' cs2', cs' = cs1' ++ c' :: cs2' ∧ same_client c c' ∧
    Forall2 same_client cs1 cs1' ∧ Forall2 same_client cs2 cs2'.
Proof.
  intros (cs1' & l & H1 & (c' & cs2' & Hc & H2 & ->)%Forall2_cons_inv_l & ->)%Forall2_app_inv_l. eauto 10.
Qed.

Section events.
Context {W : Type} `{OL : WinOSLaws W}.
Implicit Types (s : wst W) (v : wview).

(** ** Requests *)

(** Running a request and disposing of it. *)
Lemma wpw_run_and_free own hs v s r (Q : unit → wst W → Prop) :
  winv (req_own r ++ own) hs v s → runnable r → w_gen_key s < KEY_LIMIT →
  (∀ v' s', winv own hs v' s' → win_started (wconfig s) r (v, w_world s) (v', w_world s') →
     x_reqs v' = x_reqs v → after 1 s s' → Q tt s') →
  wpw (run_request r) (λ _, wpw (heapU (free_request (Some r))) Q) s.
Proof.
  intros Hi Hr Hg HQ. eapply wpw_run_request; [done..|]. intros own' v' s' Hi' Hst Hreqs Ha Hown.
  pose proof (i_heap _ _ _ _ _ Hi') as Hh. destruct Hr as (Hwf & Hrun & _).
  apply wpw_heap. intros E _. destruct Hown as [Hown|(o & Ho & Hown)].
  - rewrite Hown in Hh. eapply wp_free_request; [exact Hh|done|]. intros h Hok.
    eapply HQ; [|done..]. eapply winv_heap; [exact Hi'|]. by eapply heap_ok_weaken.
  - rewrite Hown in Hh. eapply wp_free_request; [exact Hh|done|]. intros h Hok.
    eapply HQ; [|done..]. eapply winv_heap; [exact Hi'|]. rewrite Ho.
    eapply heap_ok_perm; [exact Hok|]. unfold req_kept. destruct (req_type r); [|done]. simpl. done.
Qed.

Lemma winv_set_reqs own own' hs v s q rs :
  winv own hs v s → queue_rep q rs → Forall runnable rs →
  heap_ok (g_heap (w_env s)) (owned (with_reqs v rs) ++ own') →
  winv own' hs (with_reqs v rs) (set_queue q s).
Proof. intros [] ???. split; try done. by apply (io_ok_view _ v). Qed.
Lemma wpw_handle_request own hs v s r (Q : unit → wst W → Prop) :
  winv (opt_own r ++ own) hs v s → w_gen_key s < KEY_LIMIT →
  (∀ r', r = Some r' → req_wf r' ∧ content_fits (content r') ∧ short (r_id r')) →
  (∀ v' s', winv own hs v' s' →
     win_handled (g_parallel (w_env s)) (wconfig s) r (v, w_world s) (v', w_world s') →
     g_parallel (w_env s') = g_parallel (w_env s) → wconfig s' = wconfig s → keys_due s' v' ≤ keys_due s v + 1 → Q tt s') →
  wpw (handle_request r) Q s.
Proof.
  intros Hi Hg Hwf HQ. unfold handle_request. destruct r as [r|].
  2: { apply wpw_ret. eapply HQ; [exact Hi|done|done|done|unfold keys_due; lia]. }
  destruct (Hwf r eq_refl) as (Hw & Hfits & Hshort). unfold win_handled in HQ. simpl in Hi.
  destruct (i_procs _ _ _ _ _ Hi) as (l & Hl & Hlrep).
  destruct (req_type r) as [d|] eqn:Hd.
  - apply wpw_bind. eapply wpw_the_processes; [exact Hl|]. apply wpw_bind, wpw_gets.
    rewrite (list_rep_len _ _ Hlrep).
    assert (runnable r) as Hr by (split_and!; [done|congruence|done|done]).
    destruct (_ <? _).
    + apply wpw_bind. eapply wpw_run_and_free; [exact Hi|exact Hr|exact Hg|]. intros v' s' Hi' Hst Hreqs (Hp & Ha & Hc).
      eapply HQ; [exact Hi'|exact Hst|exact Hp|exact Hc|]. unfold keys_due. rewrite Hreqs. lia.
    + apply wpw_bind, wpw_gets, wpw_bind, wpw_lift.
      eapply safe_mono; [apply queue_push_safe; [apply Hi|done]|]. intros q Hq. apply wpw_modify.
      eapply HQ; [|done|done|done|unfold keys_due; simpl; rewrite length_app; simpl; lia].
      eapply winv_set_reqs; [exact Hi|done| |].
      * apply Forall_app. split; [apply Hi|by constructor].
      * eapply heap_ok_perm; [apply Hi|]. unfold owned. simpl. rewrite fmap_app, concat_app. simpl. solve_Permutation.
  - assert (c_addr (r_id r) ∈ req_own r ++ own) as Hid by (unfold req_own; rewrite Hd; set_solver).
    set (v1 := with_reqs v (filter (other_id (r_id r)) (x_reqs v))).
    apply wpw_bind, wpw_gets, wpw_bind, wpw_heap. intros E _.
    eapply wp_remove_from_queue; [apply Hi|set_solver| |apply Hi|].
    { apply Forall_forall. intros r0 Hr0. assert (∀ a, a ∈ req_own r0 → a ∈ owned v ++ (req_own r ++ own)) as Ho.
      { intros a Ha. unfold owned. rewrite !elem_of_app. left; left. apply elem_of_concat. exists (req_own r0).
        split; [done|]. by apply list_elem_of_fmap_2. }
      split; apply Ho; unfold req_own; destruct (req_type r0); set_solver. }
    intros q Hq _. rewrite with_heap_id. apply wpw_bind, wpw_modify.
    assert (winv (req_own r ++ own) hs v1 (set_queue q s)) as Hi1.
    { eapply winv_set_reqs; [exact Hi|done| |].
      - pose proof (i_reqs _ _ _ _ _ Hi) as Hr. rewrite Forall_forall in *. intros r0 [_ ?]%list_elem_of_filter. auto.
      - apply (heap_ok_weaken _ (concat (req_own <$> filter (λ r0, ¬ other_id (r_id r) r0) (x_reqs v)))).
        eapply heap_ok_perm; [apply Hi|]. unfold owned, v1. simpl.
        rewrite <- (concat_fmap_perm req_own _ _ (filter_app_complement (other_id (r_id r)) (x_reqs v))) at 1.
        rewrite fmap_app, concat_app. solve_Permutation. }
    apply wpw_bind. eapply (wpw_the_processes l); [exact Hl|]. apply wpw_bind.
    apply (wp_kill_processes _ _ _ (any_stop (MO := no_overlap)) (owned v1 ++ (req_own r ++ own)) _ (x_procs v) (r_id r)
      (λ ks s', winv (req_own r ++ own) hs v1 s' ∧ after 0 (set_queue q s) s' ∧
         w_world s' = terminate_all ks (w_world s))).
    + intros _ s' [Hi' _]. split; [apply Hi'|]. by destruct s' as [[]].
    + intros ks p s' (Hi' & Ha & Hw1) _ _. unfold os_kill, sys_. apply wp_modify.
      split_and!; [|exact (after_trans 0 0 _ _ _ Ha (after_0 _ _ eq_refl eq_refl eq_refl))|].
      * apply winv_frame; [exact Hi'|apply terminate_process_frame].
      * unfold terminate_all in *. rewrite foldl_snoc, <- Hw1. done.
    + exact Hlrep.
    + set_solver.
    + apply Forall_forall. intros [k p] Hp. simpl. assert (∀ a, a ∈ proc_own p → a ∈ owned v1 ++ (req_own r ++ own)) as Ho.
      { intros a Ha. unfold owned. rewrite !elem_of_app. left; right; left. apply elem_of_concat. exists (proc_own p).
        split; [done|]. apply (list_elem_of_fmap_2 (λ kp : Z * t_proc (Z * Z), proc_own kp.2) _ (k, p)). done. }
      split; apply Ho; unfold proc_own; set_solver.
    + split_and!; [exact Hi1|by apply after_0|done].
    + intros s3 (Hi3 & (Hp3 & Ha3 & Hc3) & Hw3). apply wpw_heap. intros E' _.
      eapply wp_free_request with (own := owned v1 ++ own).
      { eapply heap_ok_perm; [apply Hi3|]. solve_Permutation. }
      { done. }
      intros h Hok. eapply HQ; [| |exact Hp3|exact Hc3|].
      * eapply winv_heap; [exact Hi3|]. unfold req_kept in Hok. by rewrite Hd in Hok.
      * simpl. by rewrite Hw3.
      * unfold keys_due. simpl in *. pose proof (length_filter (other_id (r_id r)) (x_reqs v)). unfold v1. simpl. lia.
Qed.

(** A message: one line with its newline. *)
Lemma wpw_handle_msg own hs v s cs1 c cs2 (Q : unit → wst W → Prop) :
  winv own hs v s → x_clients v = cs1 ++ c :: cs2 → w_gen_key s < KEY_LIMIT →
  message_ok (g_parallel (w_env s)) (Z.of_nat (length (x_socks v))) (wc_in c) →
  (∀ r v' s', winv own hs v' s' →
     (content <$> r, g_parallel (w_env s')) =
       request_spec (g_parallel (w_env s)) (fields (take (length (wc_in c) - 1) (wc_in c))) →
     (∀ r', r = Some r' → r_key r' = wc_key c) →
     win_handled (g_parallel (w_env s')) (wconfig s) r (v, w_world s) (v', w_world s') →
     wconfig s' = wconfig s → keys_due s' v' ≤ keys_due s v + 1 → Q tt s') →
  wpw (handle_msg (wc_addr c) (wc_key c)) Q s.
Proof.
  intros Hi Hv Hg [Hne Hmsg] HQ. unfold handle_msg.
  destruct (winv_client_rep _ _ _ _ _ _ _ Hi Hv) as (cl & Hcl & Hh & Hkr & Hkw & Hrb & _).
  apply wpw_bind. eapply wpw_client_get; [exact Hcl|].
  destruct Hrb as (Hcap & Hlen & Hle & _ & Hdata). set (line := take (length (wc_in c) - 1) (wc_in c)) in *.
  assert (length line = length (wc_in c) - 1)%nat as Hline by (unfold line; rewrite length_take; lia).
  assert (0 < length (wc_in c))%nat by (destruct (wc_in c); [done|simpl; lia]).
  rewrite Hlen, u64_small by (unfold SIZE_MOD, alloc_limit in *; lia).
  rewrite to_int_small by (unfold INT_MAX, alloc_limit in *; lia).
  replace (Z.of_nat (length (wc_in c)) - 1) with (Z.of_nat (length line)) by lia.
  apply wpw_bind, wpw_env. intros E HE. eapply (wp_parse_request _ _ line); [done|lia| |apply (i_heap _ _ _ _ _ Hi)|apply Hi|].
  { intros i x Hx. apply Hdata. unfold line in Hx. by apply lookup_take_Some in Hx as [? _]. }
  intros r g' (_ & Hlog & Hspec & Hok & Hr).
  pose proof (i_parallel _ _ _ _ _ Hi) as Hpar.
  rewrite <- Hspec in Hmsg. destruct Hmsg as [Hsocks Hfits].
  assert (1 ≤ g_parallel g') as Hpos'.
  { pose proof (f_equal snd Hspec) as Hs. simpl in Hs. rewrite Hs. unfold request_spec. repeat case_match; simpl; bool_to_prop; lia. }
  eapply (wpw_handle_request own hs v); [|exact Hg| |].
  - destruct Hi. split; simpl; try done; [|lia]. eapply heap_ok_perm; [exact Hok|]. solve_Permutation.
  - intros r' ->. destruct (Hr r' eq_refl) as [_ Hwf]. split_and!; [done|by apply Hfits|].
    pose proof (f_equal fst Hspec) as Hs. simpl in Hs. symmetry in Hs. apply request_spec_id, fields_length in Hs.
    unfold short. replace (c_txt (r_id r')) with (content_id (content r')) by (unfold content; by destruct (req_type r')).
    lia.
  - intros v' s' Hi' Hh' Hp' Hc' Hdue. simpl in Hp'. eapply (HQ r); [exact Hi'|by rewrite Hp'| |by rewrite Hp'|exact Hc'|exact Hdue].
    intros r' Hr'. by apply Hr.
Qed.
(** ** The end of a client *)

Lemma winv_remove_client own hs v s l c cs :
  winv own hs v s → x_clients v ≡ₚ c :: cs → list_rep l (client_entry <$> cs) →
  io_reads (win_io_of (w_world s)) !! wc_addr c = None →
  winv (client_own c ++ own) (wc_handle c :: hs) (with_clients v cs) (set_clients l s).
Proof.
  intros Hi Hp Hl Hnone. pose proof (i_io _ _ _ _ _ Hi) as [Hcon Hrd Hwr Hj Hkc Hks].
  assert (conn_keys v ≡ₚ wc_key c :: conn_keys (with_clients v cs)) as Hck.
  { unfold conn_keys. simpl. by rewrite Hp. }
  assert (handles v ++ hs ≡ₚ handles (with_clients v cs) ++ wc_handle c :: hs) as Hhs.
  { unfold handles. simpl. rewrite Hp. simpl. solve_Permutation. }
  assert (∀ d, d ∈ cs → d ∈ x_clients v) as Hin by (intros d Hd; rewrite Hp; by right).
  pose proof (i_store _ _ _ _ _ Hi) as Hst. pose proof (i_keys _ _ _ _ _ Hi) as Hnd.
  pose proof (i_range _ _ _ _ _ Hi) as Hrange. pose proof (i_handles _ _ _ _ _ Hi) as Hn.
  pose proof (i_open _ _ _ _ _ Hi) as Ho. pose proof (i_heap _ _ _ _ _ Hi) as Hheap.
  rewrite Hck in Hnd, Hrange. rewrite Hhs in Hn. rewrite Forall_forall in Hst.
  destruct Hi. split; simpl; try done.
  - eauto.
  - apply Forall_forall. auto.
  - by apply NoDup_cons in Hnd as [_ ?].
  - by apply Forall_cons in Hrange as [_ ?].
  - split; simpl; try done.
    + intros a k off n Hx. destruct (Hrd _ _ _ _ Hx) as (d & Hd & Ha & ?). exists d. split; [|done].
      rewrite Hp, elem_of_cons in Hd. destruct Hd as [->|?]; [congruence|done].
    + intros a k n Hx. destruct (Hwr _ _ _ Hx) as (key & -> & ? & ? & Hc). exists key. split_and!; [done|lia|lia|done|]. auto.
    + auto.
  - intros x Hx. apply Ho. by rewrite Hhs.
  - eapply heap_ok_perm; [exact Hheap|]. unfold owned. simpl. rewrite (concat_fmap_perm client_own _ _ Hp). simpl. solve_Permutation.
Qed.

Lemma winv_store_delete own hs v s a :
  winv own hs v s → (a ∉ wc_addr <$> x_clients v) → winv own hs v (set_store (delete a (w_store s)) s).
Proof.
  intros Hi Ha. pose proof (i_store _ _ _ _ _ Hi) as Hst. rewrite Forall_forall in Hst. destruct Hi. split; simpl; try done.
  apply Forall_forall. intros c Hc. destruct (Hst c Hc) as (cl & Hcl & ?). exists cl. split; [|done].
  rewrite lookup_delete_ne; [done|]. intros ->. apply Ha. by apply list_elem_of_fmap_2.
Qed.

Lemma wpw_close_client own hs v s cs1 c cs2 (Q : unit → wst W → Prop) :
  winv own hs v s → x_clients v = cs1 ++ c :: cs2 →
  io_reads (win_io_of (w_world s)) !! wc_addr c = None →
  (∀ cs s', cs ≡ₚ cs1 ++ cs2 → winv own hs (with_clients v cs) s' → after 0 s s' →
     w_world s' = wos_close_handle (Some (wc_handle c)) (w_world s) → Q tt s') →
  wpw (close_client (wc_addr c) (wc_key c)) Q s.
Proof.
  intros Hi Hv Hnone HQ. unfold close_client. destruct (i_clients _ _ _ _ _ Hi) as (l & Hl & Hlrep).
  destruct (winv_client_rep _ _ _ _ _ _ _ Hi Hv) as (cl & Hcl & Hh & _ & _ & _ & _ & Hwb & _).
  apply wpw_bind. eapply wpw_the_clients; [exact Hl|].
  destruct (list_remove_rep _ _ (wc_key c) Hlrep) as (l' & Hrem & Hlrep' & _). apply wpw_bind. eapply wpw_ok; [exact Hrem|].
  apply wpw_bind, wpw_modify.
  destruct (assoc_remove_fmap client_entry (wc_key c) (x_clients v)) as [(_ & Hno & _)|(d & cs & _ & Hk & Hp & Heq)].
  { exfalso. apply Hno. rewrite <- list_fmap_compose. rewrite Hv, fmap_app. apply elem_of_app. right. by left. }
  assert (d = c) as ->.
  { pose proof (i_keys _ _ _ _ _ Hi) as Hnd. unfold conn_keys in Hnd. rewrite Hp in Hnd. simpl in Hnd.
    apply NoDup_cons in Hnd as [Hnd _]. simpl in Hk.
    assert (c ∈ d :: cs) as [->|Hc]%elem_of_cons by (rewrite <- Hp, Hv; set_solver); [done|].
    exfalso. apply Hnd. rewrite Hk, elem_of_app. left. by apply list_elem_of_fmap_2. }
  rewrite Heq in Hlrep'. pose proof (winv_remove_client _ _ _ _ _ _ _ Hi Hp Hlrep' Hnone) as Hi1.
  apply wpw_bind. eapply wpw_client_get; [exact Hcl|]. apply wpw_bind, wpw_CloseHandle. rewrite Hh.
  apply winv_close in Hi1. apply wpw_bind, wpw_heap. intros E _. pose proof (i_heap _ _ _ _ _ Hi1) as Hheap.
  set (v1 := with_clients v cs) in *.
  assert (wc_addr c ∉ wc_addr <$> cs) as Hfresh.
  { destruct Hheap as (_ & Hnd & _). intros (d & Had & Hd)%list_elem_of_fmap.
    apply NoDup_app in Hnd as (_ & Hdis & _). apply (Hdis (wc_addr c)).
    - unfold owned. rewrite !elem_of_app. right; right; left. apply elem_of_concat. exists (client_own d).
      split; [rewrite Had; by left|]. by apply list_elem_of_fmap_2.
    - by left. }
  eapply (wp_free_writebuf _ _ (wc_addr c :: owned v1 ++ own)); [|exact Hwb|].
  { eapply heap_ok_perm; [exact Hheap|]. unfold client_own. solve_Permutation. }
  intros h Hok. apply wpw_bind, wpw_heap. intros E' _. eapply wp_free; [exact Hok|]. intros h' Hok'.
  apply wpw_bind, wpw_modify.
  match goal with |- wpw _ _ ?t => assert (winv own hs v1 t) as Hi2 end.
  { apply (winv_store_delete _ _ _ (with_heap h' (with_heap h (set_world _ (set_clients l' s))))); [|exact Hfresh].
    eapply winv_heap; [eapply (winv_heap _ (wc_addr c :: own)); [exact Hi1|]|exact Hok'].
    eapply heap_ok_perm; [exact Hok|]. solve_Permutation. }
  apply wpw_bind, wpw_gets.
  destruct (_ && _); [by eapply wpw_shutdown_inv|]. apply wpw_ret. eapply (HQ cs); [|exact Hi2|by apply after_0|done].
  apply (Permutation.Permutation_cons_inv (a := c)). rewrite <- Hp, Hv. solve_Permutation.
Qed.

(** ** The end of a process *)

Lemma winv_remove_proc own hs v s l k p ps :
  winv own hs v s → x_procs v ≡ₚ (k, p) :: ps → list_rep l ps →
  winv (proc_own p ++ own) (proc_handles p ++ hs) (with_procs v ps) (set_processes l s).
Proof.
  intros Hi Hp Hl. pose proof (i_handles _ _ _ _ _ Hi) as Hn. pose proof (i_open _ _ _ _ _ Hi) as Ho.
  pose proof (i_heap _ _ _ _ _ Hi) as Hheap. pose proof (i_procs_ok _ _ _ _ _ Hi) as Hok.
  pose proof (i_io _ _ _ _ _ Hi) as Hio. rewrite Hp in Hok.
  assert (handles (with_procs v ps) ++ proc_handles p ++ hs ≡ₚ handles v ++ hs) as Hh.
  { rewrite (win_handles_procs v k p ps Hp). solve_Permutation. }
  destruct Hi. split; simpl; try done.
  - eauto.
  - by apply Forall_cons in Hok as [_ ?].
  - by apply (io_ok_view _ v).
  - by rewrite Hh.
  - intros x. rewrite Hh. apply Ho.
  - eapply heap_ok_perm; [exact Hheap|]. rewrite (win_owned_procs v k p ps Hp). solve_Permutation.
Qed.

(** What the end of the process with the key [key] becomes: it leaves the list,
    its two handles are closed, and its client gets a message with the exit
    code and the CPU time that the system gives, in full if it is no longer
    than INT_MAX. *)
Definition win_reported (key : Z) (x y : wview * W) : Prop :=
  ∃ p ps cs1 c cs2 m o code t w1 w2 w3, x_procs x.1 ≡ₚ (key, p) :: ps ∧
    x_clients x.1 = cs1 ++ c :: cs2 ∧ wc_key c = p_client_key p ∧
    wos_wait (p_os p).1 x.2 = (o, w1) ∧ wos_get_exit_code (p_os p).1 w1 = (code, w2) ∧
    wos_get_process_times (p_os p).1 w2 = (t, w3) ∧
    y = (with_clients (with_procs x.1 ps) (cs1 ++ with_message c m :: cs2),
         wos_close_handle (Some (p_os p).2) (wos_close_handle (Some (p_os p).1) (sent c m w3))) ∧
    let txt := finished_text (c_str (c_txt (p_task_id p))) code
                 (fmt_2f (ticks_to_seconds (pt_system t + pt_user t))) (exit_is_timeout code)
                 (c_str (c_txt (p_outfile p))) in
    (Z.of_nat (length txt) ≤ INT_MAX → c_txt m = txt).

Lemma wpw_handle_child_event own hs v s l key p ev cs1 c cs2 (Q : unit → wst W → Prop) :
  winv own hs v s → w_processes s = Some l → list_lookup l key = Ok (Some p) →
  x_clients v = cs1 ++ c :: cs2 → wc_key c = p_client_key p →
  (∀ v' s', winv own hs v' s' → after 0 s s' → x_reqs v' = x_reqs v →
     match classify_event ev with
     | EvIgnored => v' = v ∧ w_world s' = w_world s
     | EvEnded => win_reported key (v, w_world s) (v', w_world s')
     | EvUnknown => False
     end → Q tt s') →
  wpw (handle_child_event p (wc_addr c) key ev) Q s.
Proof.
  intros Hi Hl Hlook Hv Hk HQ. unfold handle_child_event. destruct (classify_event ev) eqn:Hev; [| |apply wpw_exit].
  { apply wpw_ret. eapply HQ; [exact Hi|by apply after_0|done..]. }
  destruct (i_procs _ _ _ _ _ Hi) as (l' & Hl' & Hlrep). simplify_eq.
  rewrite (list_lookup_rep _ _ _ Hlrep) in Hlook. injection Hlook as Hp%assoc_remove_perm.
  pose proof (i_procs_ok _ _ _ _ _ Hi) as Hok. rewrite Hp in Hok. apply Forall_cons in Hok as [[Hshort Hmax] _]. simpl in Hshort, Hmax.
  destruct (list_remove_rep _ _ key Hlrep) as (l2 & Hrem & Hlrep2 & _). set (ps := assoc_remove key (x_procs v)) in *.
  apply wpw_bind, wpw_sys. intros r1 w1 Hcall1. pose proof Hcall1 as Hw1%wait_frame. apply wpw_bind. eapply wpw_the_processes; [exact Hl|].
  apply wpw_bind. eapply wpw_ok; [exact Hrem|]. apply wpw_bind, wpw_modify.
  assert (winv own hs v (set_world w1 s)) as Hi1 by (by apply winv_frame).
  pose proof (winv_remove_proc _ _ _ _ _ _ _ _ Hi1 Hp Hlrep2) as Hi2.
  apply wpw_bind, wpw_sys. intros code w2 Hcall2. pose proof Hcall2 as Hw2%exit_code_frame.
  apply (winv_frame _ _ _ _ w2) in Hi2; [|exact Hw2].
  apply wpw_bind, wpw_sys. intros t w3 Hcall3. pose proof Hcall3 as Hw3%process_times_frame.
  apply (winv_frame _ _ _ _ w3) in Hi2; [|exact Hw3].
  apply wpw_bind. eapply wpw_send_msg; [exact Hi2|exact Hv|unfold proc_own; set_solver|unfold proc_own; set_solver|
    apply no_nul_fmt_2f|exact Hshort|exact Hmax|].
  intros m s3 Hi3 Ha3 Hs3 Htxt. set (v3 := with_clients _ _) in Hi3.
  eapply wpw_free_process with (own := owned v3 ++ own).
  { eapply heap_ok_perm; [apply (i_heap _ _ _ _ _ Hi3)|]. solve_Permutation. }
  intros h Hh. eapply (HQ v3); [| |done|].
  - apply winv_close in Hi3. apply winv_close in Hi3. eapply winv_heap; [exact Hi3|exact Hh].
  - exact Ha3.
  - exists p, ps, cs1, c, cs2, m, r1, code, t, w1, w2, w3. simpl in Hs3. simpl. rewrite Hs3.
    split_and!; [exact Hp|done..].
Qed.

(** ** Scheduling *)

Lemma wpw_schedule_loop own hs v s n (Q : unit → wst W → Prop) :
  winv own hs v s → n = length (x_reqs v) → keys_due s v ≤ KEY_LIMIT →
  (∀ v' s', winv own hs v' s' →
     win_schedules (g_parallel (w_env s)) (wconfig s) (v, w_world s) (v', w_world s') →
     g_parallel (w_env s') = g_parallel (w_env s) → wconfig s' = wconfig s → keys_due s' v' ≤ keys_due s v → Q tt s') →
  wpw (schedule_loop n) Q s.
Proof.
  revert v s. induction n as [|n IH]; intros v s Hi Hn Hdue HQ; cbn [schedule_loop].
  { apply wpw_ret. eapply HQ; [exact Hi| |done|done|lia]. constructor. right. simpl. by destruct (x_reqs v). }
  destruct (i_procs _ _ _ _ _ Hi) as (l & Hl & Hlrep). apply wpw_bind. eapply wpw_the_processes; [exact Hl|].
  apply wpw_bind, wpw_get. rewrite (list_rep_len _ _ Hlrep), (queue_rep_empty _ _ (i_queue _ _ _ _ _ Hi)).
  destruct (x_reqs v) as [|r rs] eqn:Hr; [done|]. rewrite bool_decide_eq_false_2, andb_true_r by done.
  destruct (Z.ltb_spec (Z.of_nat (length (x_procs v))) (g_parallel (w_env s))) as [Hlt|Hge].
  2: { apply wpw_ret. eapply HQ; [exact Hi| |done|done|lia]. constructor. by left. }
  pose proof (i_queue _ _ _ _ _ Hi) as Hq. rewrite Hr in Hq.
  destruct (queue_pop_rep _ _ _ Hq) as (q' & Hpop & Hq' & _). apply wpw_bind. eapply wpw_ok; [exact Hpop|].
  cbv beta iota. apply wpw_bind, wpw_modify.
  pose proof (i_reqs _ _ _ _ _ Hi) as Hrun. rewrite Hr in Hrun. apply Forall_cons in Hrun as [Hrun Hruns].
  assert (winv (req_own r ++ own) hs (with_reqs v rs) (set_queue q' s)) as Hi1.
  { eapply winv_set_reqs; [exact Hi|exact Hq'|exact Hruns|].
    eapply heap_ok_perm; [apply (i_heap _ _ _ _ _ Hi)|]. unfold owned. simpl. rewrite Hr. simpl. solve_Permutation. }
  unfold keys_due in Hdue. rewrite Hr in Hdue. simpl in Hdue.
  apply wpw_bind. apply (wpw_mono _ (λ _, wpw (heapU (free_request (Some r))) (λ _, wpw (schedule_loop n) Q))).
  2: { intros [] s' H'. apply wpw_bind. exact H'. }
  eapply wpw_run_and_free; [exact Hi1|exact Hrun|simpl; lia|].
  intros v1 s1 Hi2 Hst Hreqs (Hp1 & Ha1 & Hc1). simpl in Hp1, Ha1, Hreqs. simpl in Hn.
  eapply IH; [exact Hi2|rewrite Hreqs; lia|unfold keys_due; rewrite Hreqs; lia|].
  intros v' s' Hi' Hs Hp' Hc' Hd'. eapply HQ; [exact Hi'| |by rewrite Hp'|by rewrite Hc'|].
  - rewrite Hp1, Hc1 in Hs. by eapply ws_start.
  - unfold keys_due in *. rewrite Hreqs in Hd'. rewrite Hr. simpl. lia.
Qed.

Lemma wpw_schedule_new_jobs own hs v s (Q : unit → wst W → Prop) :
  winv own hs v s → keys_due s v ≤ KEY_LIMIT →
  (∀ v' s', winv own hs v' s' →
     win_schedules (g_parallel (w_env s)) (wconfig s) (v, w_world s) (v', w_world s') →
     g_parallel (w_env s') = g_parallel (w_env s) → wconfig s' = wconfig s → keys_due s' v' ≤ keys_due s v → Q tt s') →
  wpw schedule_new_jobs Q s.
Proof.
  intros Hi Hdue HQ. unfold schedule_new_jobs. apply wpw_bind, wpw_gets.
  eapply wpw_schedule_loop; [exact Hi| |exact Hdue|exact HQ].
  rewrite (queue_rep_len _ _ (i_queue _ _ _ _ _ Hi)). lia.
Qed.
End events.
