(* ===== verification/ServerWinPackets.v ===== *)
(** * Completion packets of the Windows server

    What each packet of the completion port does to the view, and the loop of
    [main]: [win_event] is the effect of one packet, and a turn of the loop
    schedules and then handles one packet. *)

From S2P Require Import Prelude CMem ArrayList Queue ReadBuf WriteBuf Env Request Proc UnixOS Messages WinOS CmdLine ServerWin ServerWinProps ServerWinInv ServerWinHandlers ServerWinLoop.

(** ** Server numbers *)

Lemma index_of_absent key i l : key ∉ l → index_of key i l = -1.
Proof.
  unfold index_of. intros Hno. destruct (list_find (key =.) l) as [[j x]|] eqn:Hf; [|done].
  apply list_find_Some in Hf as (Hx & <- & _). destruct Hno. by eapply list_elem_of_lookup_2.
Qed.

Lemma index_of_at key i l1 l2 : key ∉ l1 → index_of key i (l1 ++ key :: l2) = Z.of_nat (i + length l1).
Proof.
  revert i. induction l1 as [|k l1 IH]; intros i Hno; simpl; rewrite index_of_cons.
  - rewrite Z.eqb_refl. lia.
  - rewrite not_elem_of_cons in Hno. destruct Hno as [Hne Hno].
    rewrite (proj2 (Z.eqb_neq _ _)) by congruence. rewrite IH by done. lia.
Qed.

(** Only the first [n] keys are searched. *)
Lemma index_of_take key n l1 l2 :
  key ∉ l1 → index_of key 0 (take n (l1 ++ key :: l2)) = if decide (length l1 < n)%nat then Z.of_nat (length l1) else -1.
Proof.
  intros Hno. case_decide as Hn.
  - rewrite take_app_ge by lia. destruct (n - length l1)%nat eqn:Hd; [lia|]. simpl. by apply index_of_at.
  - rewrite take_app_le by lia. apply index_of_absent. intros Hin. apply Hno. by apply elem_of_take in Hin as (i & ? & _); eapply list_elem_of_lookup_2.
Qed.

(** ** Effects *)

(** The bytes a client has still to get. *)
Definition unsent (c : wclient) : bytes := drop (Z.to_nat (wc_sent c)) (concat (c_txt <$> wc_out c)).

(** The effect of the packet [p] on [parallel], on the view and on the outside
    world, whose calls it makes: [cfg] is what the initialisation fixes. *)
Inductive win_event {W} `{WinOS W} (p : packet) (par : Z) (cfg : bytes * option Z * bytes) (v : wview) (w : W)
    : Z → wview * W → Prop :=
(** A connection; the sockets from number [parallel] on are not looked at. *)
| we_accept xs1 x xs2 client x' w' :
    x_socks v = xs1 ++ x :: xs2 → pk_ov p = OvConnect (so_addr x) → Z.of_nat (length xs1) < par →
    accept_calls cfg x client x' w w' →
    win_event p par cfg v w par
      (Mk_wview (x_reqs v) (x_procs v) (x_clients v ++ [accepted client x true]) (xs1 ++ x' :: xs2), w')
| we_deaf xs1 x xs2 :
    x_socks v = xs1 ++ x :: xs2 → pk_ov p = OvConnect (so_addr x) → par ≤ Z.of_nat (length xs1) →
    win_event p par cfg v w par (v, w)
(** A whole message: the request in it is handled, and the next read started. *)
| we_message cs1 c cs2 off bs r par' v1 w1 cs1' c' cs2' :
    x_clients v = cs1 ++ c :: cs2 → pk_fill p = Some (wc_addr c, off, bs) → pk_res p = true →
    (content <$> r, par') = request_spec par (fields (take (length (wc_in c ++ bs) - 1) (wc_in c ++ bs))) →
    (∀ r', r = Some r' → r_key r' = wc_key c) →
    win_handled par' cfg r (with_clients v (cs1 ++ with_in c (wc_in c ++ bs) false :: cs2), w) (v1, w1) →
    x_clients v1 = cs1' ++ c' :: cs2' → same_client (with_in c (wc_in c ++ bs) false) c' →
    win_event p par cfg v w par'
      (with_clients v1 (cs1' ++ with_in c' [] true :: cs2'),
       wos_read_file (wc_handle c) (wc_addr c) 0 READ_ONCE w1)
(** The end of a client, which is told from a part of a message by an empty
    read with the error ERROR_BROKEN_PIPE: the client leaves. *)
| we_close cs1 c cs2 off cs :
    x_clients v = cs1 ++ c :: cs2 → pk_fill p = Some (wc_addr c, off, []) → pk_res p = false →
    wos_last_error w = ERROR_BROKEN_PIPE →
    cs ≡ₚ cs1 ++ cs2 →
    win_event p par cfg v w par (with_clients v cs, wos_close_handle (Some (wc_handle c)) w)
(** A part of a message: it is kept, and the next read started. *)
| we_part cs1 c cs2 off bs :
    x_clients v = cs1 ++ c :: cs2 → pk_fill p = Some (wc_addr c, off, bs) → pk_res p = false →
    ¬ (bs = [] ∧ wos_last_error w = ERROR_BROKEN_PIPE) →
    win_event p par cfg v w par
      (with_clients v (cs1 ++ with_in c (wc_in c ++ bs) true :: cs2),
       wos_read_file (wc_handle c) (wc_addr c) (Z.of_nat (length (wc_in c ++ bs))) READ_ONCE w)
(** Bytes have been sent, and the next ones are. *)
| we_written cs1 c cs2 c' :
    x_clients v = cs1 ++ c :: cs2 → pk_ov p = OvWrite (wc_addr c) →
    same_client c c' → unsent c' = drop (Z.to_nat (pk_numbytes p)) (unsent c) →
    win_event p par cfg v w par (with_clients v (cs1 ++ c' :: cs2), next_write c' w)
| we_gone a key :
    pk_ov p = OvWrite a → pk_mskey p = conn_ms_key key → (key ∉ wc_key <$> x_clients v) →
    win_event p par cfg v w par (v, w)
(** A message of a job: for a process of the list whose client is there, it
    may be the end of the process; otherwise it is ignored. *)
| we_process key q c y :
    pk_ov p = OvOther → pk_mskey p = proc_ms_key key →
    assoc key (x_procs v) = Some q → c ∈ x_clients v → wc_key c = p_client_key q →
    match classify_event (pk_numbytes p) with
    | EvIgnored => y = (v, w)
    | EvEnded => win_reported key (v, w) y
    | EvUnknown => False
    end → win_event p par cfg v w par y
| we_orphan key :
    pk_ov p = OvOther → pk_mskey p = proc_ms_key key →
    (∀ q, assoc key (x_procs v) = Some q → p_client_key q ∉ wc_key <$> x_clients v) →
    win_event p par cfg v w par (v, w).

(** A packet whose message, if it completes one, can be handled. *)
Definition benign {W} (p : packet) (s : wst W) : Prop :=
  pk_res p = true → ∀ a off bs cl bs0, pk_fill p = Some (a, off, bs) →
  w_store s !! a = Some cl → readbuf_rep (cl_readbuf cl) bs0 →
  message_ok (g_parallel (w_env s)) (Z.of_nat (length (w_server_socket s))) (bs0 ++ bs).

Definition all_ready (v : wview) : Prop := Forall (λ c, wc_ready c = true) (x_clients v).

Section packets.
Context {W : Type} `{OL : WinOSLaws W}.
Implicit Types (s : wst W) (v : wview).

Lemma winv_io own hs v s w :
  winv own hs v s → io_open (win_io_of w) = io_open (win_io_of (w_world s)) →
  io_ok (w_gen_key s) v (win_io_of w) → winv own hs v (set_world w s).
Proof. intros [] Ho Hio. split; simpl; rewrite ?Ho; done. Qed.

Lemma winv_server_num own hs v s key :
  winv own hs v s →
  get_server_num (w_server_key s) (g_parallel (w_env s)) key =
  Ok (index_of key 0 (take (Z.to_nat (g_parallel (w_env s))) (so_key <$> x_socks v))).
Proof.
  intros Hi. pose proof (i_parallel _ _ _ _ _ Hi) as Hp. unfold get_server_num.
  rewrite (i_server_keys _ _ _ _ _ Hi), app_nil_r.
  apply (get_server_num_from_spec [] (so_key <$> x_socks v)). rewrite length_fmap. lia.
Qed.

(** A key of no socket has no number. *)
Lemma winv_no_server own hs v s key :
  winv own hs v s → (key ∉ so_key <$> x_socks v) →
  get_server_num (w_server_key s) (g_parallel (w_env s)) key = Ok (-1).
Proof.
  intros Hi Hno. rewrite (winv_server_num _ _ _ _ _ Hi). f_equal. apply index_of_absent. intros Hin. apply Hno.
  apply elem_of_take in Hin as (i & ? & _). by eapply list_elem_of_lookup_2.
Qed.

Lemma handle_packet_cases p key kind s (Q : unit → wst W → Prop) :
  0 ≤ key < KEY_LIMIT → 1 ≤ key → kind = SOCKET ∨ kind = PROCESS → pk_mskey p = key * 2 + kind →
  (∀ n, get_server_num (w_server_key s) (g_parallel (w_env s)) key = Ok n →
     wpw (if kind =? SOCKET then handle_socket_packet p key n else handle_process_packet p key) Q s) →
  (∃ n, get_server_num (w_server_key s) (g_parallel (w_env s)) key = Ok n) →
  wpw (if pk_mskey p =? 0 then shutdown_with_msg "GetQueuedCompletionStatus failed"
  else
    let key := key_of_ms_key (pk_mskey p) in
    let kind := kind_of_ms_key (pk_mskey p) in
    s ← get;
    server_num ← lift (get_server_num (w_server_key s) (g_parallel (w_env s)) key);
    if kind =? SOCKET then handle_socket_packet p key server_num
    else if kind =? PROCESS then handle_process_packet p key
    else exit 1) Q s.
Proof.
  intros Hk Hk1 Hkind Hms HQ (n & Hn). rewrite Hms. unfold KEY_LIMIT in Hk.
  destruct (ms_key_decode key kind) as [-> ->]; [lia|done|].
  rewrite (proj2 (Z.eqb_neq _ _)) by (unfold SOCKET, PROCESS in *; lia). cbv zeta.
  apply wpw_bind, wpw_get, wpw_bind. eapply wpw_ok; [exact Hn|]. specialize (HQ n Hn).
  destruct Hkind as [-> | ->]; exact HQ.
Qed.
(** What a rule for [handle_packet] has to give. *)
Definition event_post (p : packet) own hs v s (Q : unit → wst W → Prop) : Prop :=
  ∀ v' s', winv own hs v' s' → all_ready v' →
    win_event p (g_parallel (w_env s)) (wconfig s) v (w_world s) (g_parallel (w_env s')) (v', w_world s') →
    keys_due s' v' ≤ keys_due s v + 1 → Q tt s'.

Lemma same_client_ready cs cs' :
  Forall2 same_client cs cs' → Forall (λ c, wc_ready c = true) cs → Forall (λ c, wc_ready c = true) cs'.
Proof.
  induction 1 as [|c c' cs cs' (_ & _ & Hr) _ IH]; [done|]. rewrite !Forall_cons. intros [? ?]. split; [congruence|auto].
Qed.

Lemma all_ready_replace cs1 c cs2 c' :
  Forall (λ c, wc_ready c = true) (cs1 ++ c :: cs2) → wc_ready c' = true →
  Forall (λ c, wc_ready c = true) (cs1 ++ c' :: cs2).
Proof. rewrite !Forall_app, !Forall_cons. tauto. Qed.

(** A packet of a job. *)
Lemma wpw_job_packet own hs v s p (Q : unit → wst W → Prop) :
  winv own hs v s → all_ready v → pk_ov p = OvOther → pk_fill p = None →
  pk_mskey p = 0 ∨ pk_mskey p ∈ io_jobs (win_io_of (w_world s)) →
  event_post p own hs v s Q → wpw (handle_packet p) Q s.
Proof.
  intros Hi Hready Hov Hfill Hkey HQ. unfold handle_packet. rewrite Hfill. apply wpw_bind, wpw_ret.
  destruct Hkey as [Hz|Hjob]; [rewrite Hz; simpl; by eapply wpw_shutdown_inv|].
  destruct (o_jobs _ _ _ (i_io _ _ _ _ _ Hi) _ Hjob) as (key & Hms & Hr). pose proof (i_gen _ _ _ _ _ Hi) as Hg.
  assert (win_event p (g_parallel (w_env s)) (wconfig s) v (w_world s) (g_parallel (w_env s)) (v, w_world s) → Q tt s) as Hsame.
  { intros Hev. eapply HQ; [exact Hi|done|exact Hev|lia]. }
  apply (handle_packet_cases p key PROCESS); [|lia|by right|exact Hms| |].
  { unfold KEY_LIMIT in *. lia. }
  2: { eexists. by eapply winv_server_num. }
  intros n _. simpl. unfold handle_process_packet.
  destruct (i_procs _ _ _ _ _ Hi) as (l & Hl & Hlrep). apply wpw_bind. eapply wpw_the_processes; [exact Hl|].
  apply wpw_bind. eapply wpw_ok; [by apply list_lookup_rep|].
  destruct (assoc key (x_procs v)) as [q|] eqn:Hq.
  2: { apply wpw_ret, Hsame. eapply (we_orphan _ _ _ _ _ key); [done..|]. congruence. }
  pose proof (assoc_remove_perm _ _ _ Hq) as Hp.
  apply wpw_bind. eapply wpw_winv_touch; [exact Hi| |].
  { rewrite (win_owned_procs _ _ _ _ Hp). unfold proc_own. set_solver. }
  destruct (i_clients _ _ _ _ _ Hi) as (cl & Hcl & _). apply wpw_bind. eapply wpw_the_clients; [exact Hcl|].
  apply wpw_bind.
  destruct (win_lookup_client _ _ _ _ (p_client_key q) _ Hi Hcl) as [[Hlook Hno]|(cs1 & c & cs2 & Hlook & Hv & Hk)];
    (eapply wpw_ok; [exact Hlook|]).
  - apply wpw_ret, Hsame. eapply (we_orphan _ _ _ _ _ key); [done..|]. intros q' Hq'. congruence.
  - eapply wpw_handle_child_event; [exact Hi|exact Hl| |exact Hv|exact Hk|].
    { rewrite (list_lookup_rep _ _ _ Hlrep). by rewrite Hq. }
    intros v' s' Hi' [Hp' Ha'] Hreqs Hev. eapply HQ; [exact Hi'| | |].
    + destruct (classify_event _); [by destruct Hev as [-> _]| |done].
      destruct Hev as (? & ? & cs1' & c' & cs2' & m & ? & ? & ? & ? & ? & ? & _ & Hv' & _ & _ & _ & _ & [= -> _] & _).
      unfold all_ready in *. simpl in *. rewrite Hv' in Hready. eapply all_ready_replace; [exact Hready|].
      simpl. by apply Forall_app in Hready as [_ [? _]%Forall_cons].
    + rewrite Hp'. apply (we_process _ _ _ _ _ key q c); [done..|rewrite Hv; set_solver|done|].
      destruct (classify_event _); [|done..]. by destruct Hev as [-> ->].
    + unfold keys_due. rewrite Hreqs. lia.
Qed.

(** A connection. *)
Lemma wpw_connect_packet own hs v s w p a (Q : unit → wst W → Prop) :
  port_accepts → pipes_connect →
  winv own hs v s → all_ready v → keys_due s v < KEY_LIMIT → pk_ov p = OvConnect a →
  delivered p (win_io_of (w_world s)) (win_io_of w) →
  event_post p own hs v (set_world w s) Q → wpw (handle_packet p) Q (set_world w s).
Proof.
  intros Hport Hpipe Hi Hready Hdue Hov (_ & Hdel) HQ. rewrite Hov in Hdel. destruct Hdel as (Hfill & Hcon & Hw).
  pose proof (i_io _ _ _ _ _ Hi) as Hio. destruct (o_connects _ _ _ Hio _ _ Hcon) as (x & Hx & Ha & Hms).
  assert (winv own hs v (set_world w s)) as Hi1.
  { apply winv_io; [exact Hi|by rewrite Hw|]. rewrite Hw. destruct Hio as [Hc Hrd Hwr Hj Hkc Hks]. split; try done.
    intros b k. simpl. rewrite lookup_delete_Some. intros [_ ?]. by apply Hc. }
  unfold handle_packet. rewrite Hfill. apply wpw_bind, wpw_ret.
  apply list_elem_of_split in Hx as (xs1 & xs2 & Hx).
  pose proof (i_range _ _ _ _ _ Hi) as Hrange. pose proof (i_gen _ _ _ _ _ Hi) as Hg. pose proof (i_keys _ _ _ _ _ Hi) as Hnd.
  assert (so_key x ∈ conn_keys v) as Hin by (unfold conn_keys; rewrite Hx; set_solver).
  rewrite Forall_forall in Hrange. pose proof (Hrange _ Hin) as Hkey. simpl in Hkey.
  unfold conn_keys in Hnd. apply NoDup_app in Hnd as (_ & Hdis & Hnd).
  rewrite Hx, fmap_app in Hnd. simpl in Hnd. apply NoDup_app in Hnd as (_ & Hnd & _).
  assert (so_key x ∉ so_key <$> xs1) as Hxs1 by (intros Hn; apply (Hnd _ Hn); by left).
  assert (get_server_num (w_server_key s) (g_parallel (w_env s)) (so_key x) =
    Ok (if decide (length xs1 < Z.to_nat (g_parallel (w_env s)))%nat then Z.of_nat (length xs1) else -1)) as Hnum.
  { rewrite (winv_server_num _ _ _ _ _ Hi), Hx, fmap_app. simpl. rewrite index_of_take by done. by rewrite length_fmap. }
  pose proof (i_parallel _ _ _ _ _ Hi) as Hpar.
  apply (handle_packet_cases p (so_key x) SOCKET); [|lia|by left|exact Hms| |by eexists].
  { unfold KEY_LIMIT in *. lia. }
  simpl. rewrite Hnum. intros n [= <-]. unfold handle_socket_packet.
  case_decide as Hlt.
  - rewrite (proj2 (Z.eqb_neq _ _)) by lia. simpl. apply wpw_bind, wpw_gets.
    destruct (_ && _); [by eapply wpw_shutdown_inv|].
    eapply (wpw_accept_client own hs v _ xs1 x xs2); [done|done|exact Hi1|exact Hx| | |].
    + unfold keys_due in Hdue. simpl. lia.
    + simpl. rewrite Hw. simpl. by rewrite Ha, lookup_delete_eq.
    + intros client server h s' x' Hi' Hp' Ha' Hcalls. simpl in Hp', Ha'. eapply HQ; [exact Hi'| | |].
      * unfold all_ready in *. simpl. apply Forall_app. split; [done|]. by constructor.
      * rewrite Hp'. eapply we_accept; [exact Hx|congruence|simpl; lia|exact Hcalls].
      * unfold keys_due. simpl. lia.
  - simpl. destruct (i_clients _ _ _ _ _ Hi) as (cl & Hcl & _). apply wpw_bind. eapply wpw_the_clients; [exact Hcl|].
    apply wpw_bind. destruct (win_lookup_client _ _ _ _ (so_key x) _ Hi Hcl) as [[Hlook Hno]|(cs1 & c & cs2 & Hlook & Hv & Hk)].
    2: { exfalso. apply (Hdis (so_key x)); [|rewrite Hx; set_solver]. rewrite <- Hk. apply list_elem_of_fmap_2. rewrite Hv. set_solver. }
    eapply wpw_ok; [exact Hlook|]. apply wpw_ret. eapply HQ; [exact Hi1|done| |unfold keys_due; simpl; lia].
    simpl. eapply we_deaf; [exact Hx|congruence|lia].
Qed.
(** Bytes of a client have been sent. *)
Lemma wpw_written own hs v s cs1 c cs2 p (Q : unit → wst W → Prop) :
  winv own hs v s → x_clients v = cs1 ++ c :: cs2 → pk_ov p = OvWrite (wc_addr c) →
  (∀ a n, io_writes (win_io_of (w_world s)) !! a ≠ Some (conn_ms_key (wc_key c), n)) →
  (∃ m ms, wc_out c = m :: ms ∧ 0 ≤ pk_numbytes p ≤ Z.of_nat (length (c_txt m)) - wc_sent c) →
  (∀ c' s', winv own hs (with_clients v (cs1 ++ c' :: cs2)) s' → after 0 s s' → same_client c c' →
     unsent c' = drop (Z.to_nat (pk_numbytes p)) (unsent c) → w_world s' = next_write c' (w_world s) → Q tt s') →
  wpw (handle_client_packet p (wc_addr c) (wc_key c)) Q s.
Proof.
  intros Hi Hv Hov Hnone (m & ms & Hout & Hn) HQ. unfold handle_client_packet, conn_kind. rewrite Hov.
  destruct (winv_client_rep _ _ _ _ _ _ _ Hi Hv) as (cl & Hcl & Hh & Hkr & Hkw & Hrb & Hroom & Hwb & Hw & Hp).
  apply wpw_bind, wpw_bind. eapply wpw_client_get; [exact Hcl|]. apply wpw_ret. rewrite Hkw. simpl.
  apply wpw_bind. eapply wpw_client_get; [exact Hcl|].
  rewrite Hout in Hwb. pose proof Hwb as ([[_ Hmax] _]%Forall_cons & _ & Hwl & Hptr & _).
  rewrite to_int_small by lia.
  set (rest := owned (with_clients v (cs1 ++ cs2)) ++ own).
  apply wpw_bind, wpw_heap. intros E _. pose proof (i_heap _ _ _ _ _ Hi) as Hheap.
  rewrite (win_owned_clients _ _ _ _ Hv) in Hheap. unfold client_own in Hheap. rewrite Hout in Hheap.
  eapply (wp_have_written _ _ (wc_addr c :: rest)); [|exact Hwb|rewrite Hw, Hout; done|lia|].
  { eapply heap_ok_perm; [exact Hheap|]. unfold rest. simpl. solve_Permutation. }
  intros wb h ms' _ Hok Hwb' Hw' Hpend. apply wpw_bind. eapply wpw_client_put; [exact Hcl|].
  set (c' := with_out c ms' (w_pointer wb)). set (cl' := Mk_client _ _ _ _ wb). change (wc_addr c) with (wc_addr c').
  eapply (wpw_try_write own own hs v s _ h cl' cs1 c c'); [exact Hi|exact Hv|done|done|done| |apply lookup_insert_eq|
    exact Hh|exact Hkr|exact Hkw|exact Hrb|exact Hroom|exact Hwb'|exact Hw'|done|exact Hnone| |].
  - intros b Hb. by rewrite lookup_insert_ne.
  - eapply heap_ok_perm; [exact Hok|]. rewrite (win_owned_clients (with_clients v _) cs1 c' cs2 eq_refl).
    unfold client_own, rest. simpl. change (with_clients (with_clients v _) (cs1 ++ cs2)) with (with_clients v (cs1 ++ cs2)).
    solve_Permutation.
  - intros s' Hi' Ha' Hw2. eapply (HQ c'); [exact Hi'|exact Ha'|by repeat split| |exact Hw2].
    unfold pending in Hpend. unfold unsent. simpl. by rewrite Hout, <- Hp.
Qed.

Lemma wpw_write_packet own hs v s w p a (Q : unit → wst W → Prop) :
  winv own hs v s → all_ready v → pk_ov p = OvWrite a → delivered p (win_io_of (w_world s)) (win_io_of w) →
  event_post p own hs v (set_world w s) Q → wpw (handle_packet p) Q (set_world w s).
Proof.
  intros Hi Hready Hov (Hnum & Hdel) HQ. rewrite Hov in Hdel. destruct Hdel as (n & Hfill & Hwrite & Hle & Hw).
  pose proof (i_io _ _ _ _ _ Hi) as Hio. destruct (o_writes _ _ _ Hio _ _ _ Hwrite) as (key & Hms & Hkey & Hno & Hcl).
  assert (winv own hs v (set_world w s)) as Hi1.
  { apply winv_io; [exact Hi|by rewrite Hw|]. rewrite Hw. destruct Hio as [Hc Hrd Hwr Hj Hkc Hks]. split; try done.
    intros b k n'. simpl. rewrite lookup_delete_Some. intros [_ ?]. by apply Hwr. }
  pose proof (i_gen _ _ _ _ _ Hi) as Hg. unfold handle_packet. rewrite Hfill. apply wpw_bind, wpw_ret.
  pose proof (winv_no_server _ _ _ _ _ Hi Hno) as Hnone.
  apply (handle_packet_cases p key SOCKET); [|lia|by left|exact Hms| |by eexists].
  { unfold KEY_LIMIT in *. lia. }
  simpl. rewrite Hnone. intros n' [= <-]. unfold handle_socket_packet. simpl.
  destruct (i_clients _ _ _ _ _ Hi) as (l & Hl & _). apply wpw_bind. eapply wpw_the_clients; [exact Hl|].
  apply wpw_bind. destruct (win_lookup_client _ _ _ _ key _ Hi Hl) as [[Hlook Hgone]|(cs1 & c & cs2 & Hlook & Hv & <-)];
    (eapply wpw_ok; [exact Hlook|]).
  { apply wpw_ret. eapply HQ; [exact Hi1|done| |unfold keys_due; simpl; lia]. by eapply we_gone. }
  destruct (Hcl c) as (-> & m & ms & Hout & Hlen); [rewrite Hv; set_solver|done|].
  eapply wpw_written; [exact Hi1|exact Hv|exact Hov| | |].
  - intros a' n'. simpl. rewrite Hw. simpl. rewrite lookup_delete_Some. intros [Hne Hx].
    apply Hne. by destruct (winv_client_write _ _ _ _ _ _ _ _ _ Hi Hv Hx) as [-> _].
  - exists m, ms. split; [done|lia].
  - intros c' s' Hi' [Hp' Ha'] Hsame Hun Hw2. simpl in Hp', Ha', Hw2. eapply HQ; [exact Hi'| | |].
    + unfold all_ready in *. rewrite Hv in Hready. eapply all_ready_replace; [exact Hready|].
      destruct Hsame as (_ & _ & ->). by apply Forall_app in Hready as [_ [? _]%Forall_cons].
    + rewrite Hp', Hw2. by eapply we_written.
    + unfold keys_due. simpl. lia.
Qed.

(** ** Reading *)

Lemma os_fill_rep b bs cs b1 :
  readbuf_rep b bs → os_fill b (rb_len b) cs = Ok b1 → readbuf_rep b1 bs.
Proof.
  intros (Hc & Hlen & Hle & Hd & Hbs). unfold os_fill, defined. destruct (_ && _) eqn:Hg; [|done]. bool_to_prop.
  simpl. intros [= <-]. unfold readbuf_rep. simpl. rewrite !length_app, length_take, length_drop, length_fmap.
  split_and!; [lia..|]. intros i c Hi. pose proof (lookup_lt_Some _ _ _ Hi).
  rewrite lookup_app_l by (rewrite length_take; lia). rewrite lookup_take_lt by lia. by apply Hbs.
Qed.
(** The buffer of a client that is not being read from is changed. *)
Lemma winv_readbuf own hs v s cs1 c cs2 cl rb bs :
  winv own hs v s → x_clients v = cs1 ++ c :: cs2 → w_store s !! wc_addr c = Some cl →
  io_reads (win_io_of (w_world s)) !! wc_addr c = None → readbuf_rep rb bs →
  winv own hs (with_clients v (cs1 ++ with_in c bs false :: cs2))
    (set_store (<[wc_addr c := Mk_client (cl_handle cl) (cl_read cl) (cl_write cl) rb (cl_writebuf cl)]> (w_store s)) s).
Proof.
  intros Hi Hv Hcl Hnone Hrb.
  destruct (winv_client_rep _ _ _ _ _ _ _ Hi Hv) as (cl0 & Hcl0 & Hh & Hkr & Hkw & _ & _ & Hwb & Hw & Hp). simplify_eq.
  set (c' := with_in c bs false). set (cl' := Mk_client _ _ _ rb _).
  rewrite <- (set_world_id (set_store _ _)).
  replace (set_store _ s) with (set_store (<[wc_addr c := cl']> (w_store s)) (with_heap (g_heap (w_env s)) s)) by (by rewrite with_heap_id).
  refine (winv_client own own hs v s (w_world s) (<[wc_addr c := cl']> (w_store s)) _ cs1 c c' cs2 Hi Hv _ _ _ _ _ _); [done|..].
  - intros b Hb. by rewrite lookup_insert_ne.
  - exists cl'. rewrite lookup_insert_eq.
    refine (conj eq_refl (conj Hh (conj Hkr (conj Hkw (conj Hrb (conj _ (conj Hwb (conj Hw Hp)))))))). done.
  - eapply heap_ok_perm; [apply (i_heap _ _ _ _ _ Hi)|]. rewrite (win_owned_clients _ _ _ _ Hv).
    by rewrite (win_owned_clients (with_clients v _) cs1 c' cs2 eq_refl).
  - done.
  - eapply io_ok_client; [apply (i_io _ _ _ _ _ Hi)|exact Hv|apply Hi|by eapply winv_client_key|done|done|done|done| |].
    + intros a x Hx. left. split; [|done]. intros ->. change (wc_addr c') with (wc_addr c) in Hx. congruence.
    + intros a k n Hx. destruct (decide (k = conn_ms_key (wc_key c))) as [->|]; [right|by left].
      by destruct (winv_client_write _ _ _ _ _ _ _ _ _ Hi Hv Hx) as (-> & ?).
Qed.

Lemma wpw_set_readbuf own hs v s cs1 c cs2 f bs (Q : unit → wst W → Prop) :
  winv own hs v s → x_clients v = cs1 ++ c :: cs2 → io_reads (win_io_of (w_world s)) !! wc_addr c = None →
  (∀ cl, w_store s !! wc_addr c = Some cl → readbuf_rep (cl_readbuf cl) (wc_in c) →
     ∃ b', f (cl_readbuf cl) = Ok b' ∧ readbuf_rep b' bs) →
  (∀ st, winv own hs (with_clients v (cs1 ++ with_in c bs false :: cs2)) (set_store st s) → Q tt (set_store st s)) →
  wpw (set_readbuf (wc_addr c) f) Q s.
Proof.
  intros Hi Hv Hnone Hf HQ. unfold set_readbuf.
  destruct (winv_client_rep _ _ _ _ _ _ _ Hi Hv) as (cl & Hcl & _ & _ & _ & Hrb & _).
  apply wpw_bind. eapply wpw_client_get; [exact Hcl|]. destruct (Hf cl Hcl Hrb) as (b' & Hb' & Hrep).
  apply wpw_bind. eapply wpw_ok; [exact Hb'|]. eapply wpw_client_put; [exact Hcl|]. apply HQ. by apply winv_readbuf.
Qed.

Lemma winv_not_reading own hs v s cs1 c cs2 :
  winv own hs v s → x_clients v = cs1 ++ c :: cs2 → wc_ready c = false →
  io_reads (win_io_of (w_world s)) !! wc_addr c = None.
Proof.
  intros Hi Hv Hr. destruct (_ !! _) as [x|] eqn:Hx; [|done].
  destruct (winv_client_read _ _ _ _ _ _ _ _ Hi Hv Hx) as [? _]. congruence.
Qed.

Lemma winv_lookup_at own hs v s cs1 c cs2 l :
  winv own hs v s → x_clients v = cs1 ++ c :: cs2 → w_clients s = Some l →
  list_lookup l (wc_key c) = Ok (Some (wc_addr c)).
Proof.
  intros Hi Hv Hl. destruct (i_clients _ _ _ _ _ Hi) as (l' & Hl' & Hrep). simplify_eq.
  rewrite (list_lookup_rep _ _ _ Hrep). f_equal. apply assoc_elem.
  - rewrite <- list_fmap_compose. pose proof (i_keys _ _ _ _ _ Hi) as Hnd. by apply NoDup_app in Hnd as (? & _).
  - apply (list_elem_of_fmap_2 client_entry _ c). rewrite Hv. set_solver.
Qed.

(** A whole message has been read: it is handled, and the next read started. *)
Lemma wpw_read_message own hs v s cs1 c cs2 (Q : unit → wst W → Prop) :
  winv own hs v s → x_clients v = cs1 ++ c :: cs2 → wc_ready c = false → w_gen_key s < KEY_LIMIT →
  message_ok (g_parallel (w_env s)) (Z.of_nat (length (x_socks v))) (wc_in c) →
  (∀ r v1 w1 cs1' c' cs2' s',
     (content <$> r, g_parallel (w_env s')) =
       request_spec (g_parallel (w_env s)) (fields (take (length (wc_in c) - 1) (wc_in c))) →
     (∀ r', r = Some r' → r_key r' = wc_key c) →
     win_handled (g_parallel (w_env s')) (wconfig s) r (v, w_world s) (v1, w1) → x_clients v1 = cs1' ++ c' :: cs2' → same_client c c' →
     Forall2 same_client cs1 cs1' → Forall2 same_client cs2 cs2' →
     let v' := with_clients v1 (cs1' ++ with_in c' [] true :: cs2') in
     w_world s' = wos_read_file (wc_handle c) (wc_addr c) 0 READ_ONCE w1 →
     winv own hs v' s' → keys_due s' v' ≤ keys_due s v + 1 → Q tt s') →
  wpw (_ ← handle_msg (wc_addr c) (wc_key c);
       _ ← set_readbuf (wc_addr c) (λ b, mret (clear_readbuf b));
       do_read (wc_addr c)) Q s.
Proof.
  intros Hi Hv Hr Hg Hmsg HQ. apply wpw_bind. eapply wpw_handle_msg; [exact Hi|exact Hv|exact Hg|exact Hmsg|].
  intros r v1 s1 Hi1 Hspec Hkey Hh Hcfg Hdue. pose proof (win_handled_clients _ _ _ _ _ Hh) as [Hsame Hsocks].
  simpl in Hsame. rewrite Hv in Hsame. apply same_client_split in Hsame as (cs1' & c' & cs2' & Hv1 & Hc & H1 & H2).
  pose proof Hc as ((Ha & _ & Hhd) & Hin & Hr'). rewrite Hr in Hr'. rewrite <- Ha.
  pose proof (winv_not_reading _ _ _ _ _ _ _ Hi1 Hv1 Hr') as Hnone.
  apply wpw_bind. eapply wpw_set_readbuf with (bs := []); [exact Hi1|exact Hv1|exact Hnone| |].
  { intros cl Hcl (Hcap & Hlen & Hle & Hd & _). eexists. split; [done|]. unfold readbuf_rep. simpl. split_and!; (done || lia). }
  intros st Hi2. change (wc_addr c') with (wc_addr (with_in c' [] false)).
  eapply wpw_do_read; [exact Hi2|done|]. intros s' Hi' [Hp' Ha'] Hw'. simpl in Hp', Ha', Hw'.
  eapply (HQ r v1 (w_world s1)); [by rewrite Hp'|exact Hkey|by rewrite Hp'|exact Hv1|exact Hc|exact H1|exact H2|by rewrite Hw', Hhd, Ha|exact Hi'|].
  unfold keys_due in *. simpl. lia.
Qed.

Lemma wpw_read_packet own hs v s w p a (Q : unit → wst W → Prop) :
  winv own hs v s → all_ready v → keys_due s v < KEY_LIMIT → pk_ov p = OvRead a →
  delivered p (win_io_of (w_world s)) (win_io_of w) → benign p s →
  event_post p own hs v (set_world w s) Q → wpw (handle_packet p) Q (set_world w s).
Proof.
  intros Hi Hready Hdue Hov (Hnum & Hdel) Hbenign HQ. rewrite Hov in Hdel.
  destruct Hdel as (off & n & bs & Hread & Hfill & Hlen & Hle & Hw).
  pose proof (i_io _ _ _ _ _ Hi) as Hio. destruct (o_reads _ _ _ Hio _ _ _ _ Hread) as (c & Hc & Ha & Hr & Hms & Hoff & Hn).
  apply list_elem_of_split in Hc as (cs1 & cs2 & Hv). subst a off n.
  assert (winv own hs v (set_world w s)) as Hi1.
  { apply winv_io; [exact Hi|by rewrite Hw|]. rewrite Hw. destruct Hio as [Hcon Hrd Hwr Hj Hkc Hks]. split; try done.
    intros b k off n. simpl. rewrite lookup_delete_Some. intros [_ ?]. by apply Hrd. }
  assert (io_reads (win_io_of (w_world (set_world w s))) !! wc_addr c = None) as Hnone
    by (simpl; rewrite Hw; apply lookup_delete_eq).
  destruct (winv_client_rep _ _ _ _ _ _ _ Hi Hv) as (cl & Hcl & _ & Hkr & _ & Hrb & Hroom & _). specialize (Hroom Hr).
  destruct (fill_have_read_rep (cl_readbuf cl) (wc_in c) bs Hrb) as (b1 & b2 & Hb1 & Hb2 & Hrb2); [lia|].
  pose proof (os_fill_rep _ _ _ _ Hrb Hb1) as Hrb1. pose proof Hrb as (_ & Hrl & _). rewrite Hrl in Hb1.
  unfold handle_packet. rewrite Hfill. apply wpw_bind. unfold store_fill.
  apply wpw_bind. eapply wpw_client_get; [exact Hcl|]. apply wpw_bind. eapply wpw_ok; [exact Hb1|].
  eapply wpw_client_put; [exact Hcl|].
  pose proof (winv_readbuf _ _ _ _ _ _ _ _ b1 (wc_in c) Hi1 Hv Hcl Hnone Hrb1) as Hi2.
  set (c1 := with_in c (wc_in c) false) in *. set (v1 := with_clients v (cs1 ++ c1 :: cs2)) in *.
  match type of Hi2 with winv _ _ _ ?t => set (s1 := t) in * end.
  pose proof (winv_client_key _ _ _ _ _ _ _ Hi Hv) as Hkey. pose proof (i_gen _ _ _ _ _ Hi) as Hg.
  assert (get_server_num (w_server_key s1) (g_parallel (w_env s1)) (wc_key c) = Ok (-1)) as Hno.
  { eapply winv_no_server; [exact Hi2|]. intros Hin. pose proof (i_keys _ _ _ _ _ Hi) as Hnd. unfold conn_keys in Hnd.
    apply NoDup_app in Hnd as (_ & Hd & _). apply (Hd (wc_key c)); [rewrite Hv; set_solver|exact Hin]. }
  apply (handle_packet_cases p (wc_key c) SOCKET); [|lia|by left|exact Hms| |by eexists].
  { unfold KEY_LIMIT in *. lia. }
  rewrite Hno. simpl. intros n [= <-]. unfold handle_socket_packet. simpl.
  destruct (i_clients _ _ _ _ _ Hi2) as (l & Hl & _). apply wpw_bind. eapply wpw_the_clients; [exact Hl|].
  apply wpw_bind. eapply wpw_ok; [exact (winv_lookup_at _ _ _ _ _ c1 _ _ Hi2 eq_refl Hl)|].
  unfold handle_client_packet, conn_kind. rewrite Hov. apply wpw_bind, wpw_bind.
  eapply wpw_client_get; [apply lookup_insert_eq|]. apply wpw_ret. simpl. rewrite Hkr. simpl.
  apply wpw_bind. change (wc_addr c) with (wc_addr c1).
  eapply wpw_set_readbuf with (bs := wc_in c ++ bs); [exact Hi2|done|exact Hnone| |].
  { intros cl1 Hcl1 _. simpl in Hcl1. rewrite lookup_insert_eq in Hcl1. injection Hcl1 as <-. simpl.
    rewrite Hlen. by exists b2. }
  intros st Hi3. set (c2 := with_in c1 (wc_in c ++ bs) false) in *. set (s2 := set_store st s1) in *.
  set (v2 := with_clients v1 (cs1 ++ c2 :: cs2)) in *. apply wpw_bind, wpw_gets.
  assert (∀ d ds1 ds2 v', Forall2 same_client cs1 ds1 → Forall2 same_client cs2 ds2 → wc_ready d = true →
    x_clients v' = ds1 ++ d :: ds2 → all_ready v') as Hall.
  { unfold all_ready in *. intros d ds1 ds2 v' H1 H2 Hd ->. rewrite Hv in Hready.
    apply Forall_app in Hready as [Hr1 [_ Hr2]%Forall_cons].
    apply Forall_app. split; [by eapply same_client_ready|]. constructor; [done|by eapply same_client_ready]. }
  destruct (pk_res p) eqn:Hres.
  - eapply (wpw_read_message own hs v2 s2 cs1 c2 cs2); [exact Hi3|done|done| | |].
    + unfold keys_due in Hdue. simpl. lia.
    + pose proof (Hbenign Hres _ _ _ _ _ Hfill Hcl Hrb) as Hm.
      rewrite (i_sockets _ _ _ _ _ Hi), app_nil_r, !length_fmap in Hm. exact Hm.
    + intros r v3 w3 cs1' c' cs2' s' Hspec Hrk Hh Hv3 Hc' H1 H2 v' Hw' Hi' Hd. eapply HQ; [exact Hi'| | |].
      * by apply (Hall (with_in c' [] true) cs1' cs2').
      * rewrite Hw'. eapply (we_message _ _ _ _ _ cs1 c cs2 _ bs r _ v3 w3 cs1' c' cs2');
          [exact Hv|exact Hfill|exact Hres|exact Hspec|exact Hrk|exact Hh|exact Hv3|exact Hc'].
      * unfold keys_due in *. simpl in *. lia.
  - destruct (_ && _) eqn:Hend.
    + eapply (wpw_close_client own hs v2 s2 cs1 c2 cs2); [exact Hi3|done|exact Hnone|].
      intros cs s' Hcs Hi' [Hp' Ha'] Hw'. simpl in Hp', Ha', Hw'. eapply HQ; [exact Hi'| | |].
      * unfold all_ready in *. simpl. rewrite Hcs. rewrite Hv in Hready.
        apply Forall_app in Hready as [? [_ ?]%Forall_cons]. by apply Forall_app.
      * rewrite Hp', Hw'. bool_to_prop. change (with_clients v2 cs) with (with_clients v cs).
        eapply (we_close _ _ _ _ _ cs1 c cs2 _ cs); [exact Hv| |done|done|exact Hcs].
        rewrite Hfill. destruct bs; [done|]. simpl in Hlen. lia.
      * unfold keys_due. simpl. lia.
    + change (wc_addr c1) with (wc_addr c2). eapply wpw_do_read; [exact Hi3|done|].
      intros s' Hi' [Hp' Ha'] Hw'. simpl in Hp', Ha', Hw'. eapply HQ; [exact Hi'| | |].
      * by apply (Hall (with_in c2 (wc_in c2) true) cs1 cs2).
      * rewrite Hp', Hw'. refine (we_part p _ _ v _ cs1 c cs2 _ bs Hv Hfill Hres _).
        intros [-> He]. simpl in He, Hend, Hlen. by rewrite He, Hlen in Hend.
      * unfold keys_due. simpl. lia.
Qed.

(** Every packet that the system can deliver. *)
Lemma wpw_handle_packet own hs v s w p (Q : unit → wst W → Prop) :
  port_accepts → pipes_connect → winv own hs v s → all_ready v → keys_due s v < KEY_LIMIT →
  delivered p (win_io_of (w_world s)) (win_io_of w) → benign p s →
  event_post p own hs v (set_world w s) Q → wpw (handle_packet p) Q (set_world w s).
Proof.
  intros Hport Hpipe Hi Hready Hdue Hdel Hb HQ. destruct (pk_ov p) as [a|a|a|] eqn:Hov.
  - by eapply wpw_connect_packet.
  - by eapply wpw_read_packet.
  - by eapply wpw_write_packet.
  - destruct Hdel as (_ & Hdel). rewrite Hov in Hdel. destruct Hdel as (Hfill & Hw & Hkey).
    eapply (wpw_job_packet own hs v); [by apply winv_frame|exact Hready|exact Hov|exact Hfill|simpl; by rewrite Hw|].
    intros v' s'. apply HQ.
Qed.
End packets.
