(* ===== verification/ServerWinMain.v ===== *)
(** * The Windows server from its start

    The initialisation reaches the invariant, and a turn of the loop of [main]
    keeps it; [win_reachable] are the states between the turns. *)

From S2P Require Import Prelude CMem ArrayList Queue ReadBuf WriteBuf Env Request Proc UnixOS Messages WinOS CmdLine ServerWin ServerWinProps ServerWinInv ServerWinHandlers ServerWinLoop ServerWinPackets.

(** The packet [p] comes after the scheduling of this turn, in the state [s1],
    and leaves the world [w]. *)
Definition turn_packet {W} `{WinOS W} (s : wst W) (p : packet) (s1 : wst W) (w : W) : Prop :=
  schedule_new_jobs s = Done tt s1 ∧ wos_get_packet (w_port s1) (w_world s1) = (p, w).

(** The packet of this turn is one that the server can handle. *)
Definition benign_turn {W} `{WinOS W} (s : wst W) : Prop :=
  ∀ p s1 w, turn_packet s p s1 w → benign p s1.

(** The states between two turns of the loop, after [n] turns. *)
Inductive win_reachable {W} `{WinOS W} (einval : bytes → bool) (opts : list getopt_result)
    (optind argc : Z) (w0 : W) : nat → wst W → Prop :=
| win_reach_start s :
    main_start einval opts optind argc (initial_wst w0) = Done tt s →
    win_reachable einval opts optind argc w0 0 s
| win_reach_turn n s s' :
    win_reachable einval opts optind argc w0 n s → benign_turn s → main_step s = Done tt s' →
    win_reachable einval opts optind argc w0 (S n) s'.

Section main.
Context {W : Type} `{OL : WinOSLaws W}.
Implicit Types (s : wst W) (v : wview).

(** No operation has been started. *)
Definition idle_world (w : W) : Prop :=
  io_connects (win_io_of w) = ∅ ∧ io_reads (win_io_of w) = ∅ ∧ io_writes (win_io_of w) = ∅ ∧ io_jobs (win_io_of w) = ∅.

(** ** Initialisation *)

(** A socket fills the next cell of the arrays. *)
Lemma winv_new_socket k own hs v s server h ev hp port w :
  winv_at (S k) own hs v s → w_gen_key s < KEY_LIMIT →
  heap_ok hp (server :: owned v ++ own) →
  socket_io server (w_gen_key s) h (win_io_of (w_world s)) (win_io_of w) →
  winv_at k own hs (with_socks v (x_socks v ++ [Mk_wsocket (w_gen_key s) server h]))
    (socket_created (Z.of_nat (length (x_socks v))) server h ev hp port w s).
Proof.
  intros Hi Hgen Hheap Hsock. set (x' := Mk_wsocket _ server h). set (v' := with_socks v _).
  pose proof (i_handles _ _ _ _ _ Hi) as Hhn. pose proof (i_open _ _ _ _ _ Hi) as Ho.
  pose proof (i_range _ _ _ _ _ Hi) as Hrange. pose proof (i_io _ _ _ _ _ Hi) as Hio.
  pose proof (i_gen _ _ _ _ _ Hi) as Hg. pose proof (i_parallel _ _ _ _ _ Hi) as Hpar.
  pose proof (i_keys _ _ _ _ _ Hi) as Hnd. pose proof (i_servers _ _ _ _ _ Hi) as Hs.
  pose proof (i_sockets _ _ _ _ _ Hi) as Hsk. pose proof (i_server_keys _ _ _ _ _ Hi) as Hkk.
  assert (conn_keys v' ≡ₚ w_gen_key s :: conn_keys v) as Hck.
  { unfold conn_keys, v'. simpl. rewrite fmap_app. simpl. solve_Permutation. }
  assert (handles v' ≡ₚ h :: handles v) as Hhs.
  { unfold handles, v'. simpl. rewrite fmap_app. simpl. solve_Permutation. }
  pose proof (n_fresh _ _ _ _ _ Hsock) as Hfresh.
  assert (∀ {A} (f : wsocket → A) a l, l = (Some <$> (f <$> x_socks v)) ++ replicate (S k) None → f x' = a →
    <[Z.to_nat (Z.of_nat (length (x_socks v))) := Some a]> l =
    (Some <$> (f <$> x_socks v ++ [x'])) ++ replicate k None) as Hins.
  { intros A f a l -> <-. rewrite Nat2Z.id, !fmap_app, <- (Nat.add_0_r (length (x_socks v))),
      <- (length_fmap f (x_socks v)), <- (length_fmap Some (f <$> x_socks v)), insert_app_r.
    simpl. by rewrite <- (assoc_L (++)). }
  destruct Hi. split; simpl; try done.
  - by apply (Hins _ so_addr server).
  - by apply (Hins _ so_key (w_gen_key s)).
  - destruct Hheap as (_ & Hnd' & _). apply NoDup_cons in Hnd' as [Hserver _].
    apply Forall_app. split; [|constructor; [|done]; eexists; simpl; by rewrite lookup_insert_eq].
    rewrite Forall_forall in *. intros y Hy. destruct (Hs y Hy) as (sv & Hsv & ?). exists sv. split; [|done].
    rewrite lookup_insert_ne; [done|]. intros Heq. apply Hserver. rewrite Heq. unfold owned. rewrite !elem_of_app.
    left; right; right; right. by apply list_elem_of_fmap_2.
  - rewrite Hck. constructor; [|done]. rewrite Forall_forall in Hrange. intros Hin%Hrange. lia.
  - rewrite Hck. constructor; [lia|]. eapply Forall_impl; [exact Hrange|]. simpl. lia.
  - lia.
  - eapply io_ok_socket; [exact Hio|exact Hsock|lia|exact Hrange|..]; simpl; [|set_solver..].
    intros y Hy. apply Ho. set_solver.
  - rewrite Hhs. simpl. constructor; [|done]. by intros ?%Ho.
  - intros y. rewrite Hhs. simpl. rewrite elem_of_cons. intros Hy. apply (n_open _ _ _ _ _ Hsock).
    destruct Hy as [->|?%Ho]; auto.
  - eapply heap_ok_perm; [exact Hheap|]. unfold owned. simpl. rewrite fmap_app. simpl. solve_Permutation.
  - rewrite length_app. simpl. lia.
Qed.

Lemma wpw_create_sockets k own hs v s (Q : unit → wst W → Prop) :
  port_accepts → pipes_connect → winv_at k own hs v s → w_gen_key s + Z.of_nat k ≤ KEY_LIMIT →
  (∀ xs s', winv own hs (with_socks v xs) s' → g_parallel (w_env s') = g_parallel (w_env s) →
     w_gen_key s' = w_gen_key s + Z.of_nat k → Q tt s') →
  wpw (create_sockets_from (Z.of_nat (length (x_socks v))) k) Q s.
Proof.
  intros Hport Hpipe. revert v s. induction k as [|k IH]; intros v s Hi Hk HQ; cbn [create_sockets_from].
  { apply wpw_ret. eapply (HQ (x_socks v)); [|done|lia]. by destruct v. }
  apply wpw_bind. pose proof (i_gen _ _ _ _ _ Hi) as Hg.
  eapply (wpw_create_server_socket _ (owned v ++ own)); [done|done|apply Hi|lia| | |].
  - rewrite (i_sockets _ _ _ _ _ Hi), length_app, !length_fmap, length_replicate. lia.
  - rewrite (i_server_keys _ _ _ _ _ Hi), length_app, !length_fmap, length_replicate. lia.
  - intros server h ev hp port w Hheap Hsock _.
    pose proof (winv_new_socket k own hs v s server h ev hp port w Hi ltac:(lia) Hheap Hsock) as Hi1.
    set (v1 := with_socks v _) in Hi1.
    replace (Z.of_nat (length (x_socks v)) + 1) with (Z.of_nat (length (x_socks v1)))
      by (unfold v1; simpl; rewrite length_app; simpl; lia).
    eapply IH; [exact Hi1|simpl; lia|]. intros xs s' Hi' Hp Hg'. simpl in Hp, Hg'.
    eapply (HQ xs); [exact Hi'|exact Hp|lia].
Qed.

Lemma build_pipe_name_safe name : safe True (build_pipe_name name) (λ _, True).
Proof.
  unfold build_pipe_name. apply safe_bind. unfold arr_alloc. destruct (_ && _) eqn:Hg; [|done]. simpl.
  set (n := Z.to_nat (strlen name + 10)).
  assert (n = length (c_str name) + 10)%nat as Hn by (unfold n, strlen; lia).
  pose proof (write_str_holds [] (replicate n None) pipe_prefix ltac:(unfold no_nul; set_solver) ltac:(by apply no_nul_str)) as Hcpy.
  rewrite length_replicate in Hcpy. simpl fmap in Hcpy. change (Z.of_nat (length [])) with 0 in Hcpy. rewrite !app_nil_l in Hcpy.
  change (length pipe_prefix) with 9%nat in Hcpy. unfold strcpy. change (c_str pipe_prefix) with pipe_prefix.
  apply safe_bind. destruct (write_at _ _ _) as [buf|f]; [|destruct Hcpy; lia]. destruct Hcpy as [Hb Hlt]. simpl.
  pose proof (strcat_appends name _ _ _ Hb) as Hcat. apply safe_bind.
  destruct (strcat buf name) as [buf'|f]; [|destruct Hcat; lia]. destruct Hcat as [Hh _]. simpl.
  by rewrite (buf_text_holds _ _ _ Hh).
Qed.
Lemma wpw_init g w0 (Q : unit → wst W → Prop) :
  port_accepts → pipes_connect → quiet_globals g → idle_world w0 →
  (∀ xs s', winv [] [] (Mk_wview [] [] [] xs) s' → w_gen_key s' = 1 + g_parallel (w_env s') →
     g_parallel (w_env s') ≤ alloc_limit → Q tt s') →
  wpw init Q (set_env g (initial_wst w0)).
Proof.
  intros Hport Hpipe (Hh & Hlog & Hpar) (Hcon & Hrd & Hwr & Hjb) HQ. unfold init.
  assert (heap_ok (g_heap g) []) as Hok0.
  { rewrite Hh. split_and!; simpl; [set_solver|constructor|set_solver|done]. }
  apply wpw_bind, wpw_sys. intros dir w1 Hw1%getcwd_frame. simpl in Hw1. apply wpw_bind, wpw_gets. cbv zeta.
  apply wpw_bind, wpw_heap. intros E1 _. eapply wp_new_str; [exact Hok0|]. intros a1 h1 Hok1.
  apply wpw_bind, wpw_heap. intros E2 _. eapply wp_malloc; [exact Hok1|]. intros a2 h2 Hok2.
  apply wpw_bind, wpw_lift. eapply safe_mono; [apply build_pipe_name_safe|]. intros name _.
  apply wpw_bind, wpw_modify, wpw_bind. unfold init_request_queue.
  destruct (@init_queue_rep request 100) as (q & Hq & Hqrep); [by_computation|]. eapply wpw_ok; [exact Hq|].
  apply wpw_bind, wpw_modify, wpw_bind, wpw_gets. simpl. apply wpw_bind, wpw_lift.
  eapply safe_mono; [apply init_list_safe; lia|]. intros cs [Hcs Hlim]. apply wpw_bind, wpw_modify.
  apply wpw_bind, wpw_lift. unfold init_process_list. eapply safe_mono; [apply init_list_safe; lia|]. intros ps [Hps _].
  apply wpw_bind, wpw_modify.
  apply wpw_bind. eapply wpw_ok; [apply arr_alloc_ok; lia|]. apply wpw_bind. eapply wpw_ok; [apply arr_alloc_ok; lia|].
  apply wpw_bind, wpw_modify, wpw_bind, wpw_gets. simpl. rewrite Hlog. apply wpw_bind, wpw_ret.
  apply wpw_bind, wpw_env. intros E3 _. unfold init_logging. apply wp_bind, wp_gets. simpl. rewrite Hlog. simpl.
  apply wp_ret. apply wpw_bind.
  match goal with |- wpw _ _ ?t => assert (winv_at (Z.to_nat (g_parallel g)) [a2; a1] [] (Mk_wview [] [] [] []) t) as Hi end.
  { split; simpl; try done.
    - eauto.
    - eauto.
    - constructor.
    - rewrite Hw1. split; simpl; rewrite ?Hcon, ?Hrd, ?Hwr, ?Hjb; set_solver.
    - constructor.
    - set_solver.
    - intros Hl. simpl in Hl. congruence.
    - lia. }
  eapply (wpw_create_sockets _ _ _ (Mk_wview [] [] [] [])); [done|done|exact Hi|simpl; unfold KEY_LIMIT, alloc_limit in *; lia|].
  intros xs s' Hi' Hp Hg. simpl in Hp, Hg. apply wpw_heap. intros E4 _.
  eapply (wp_free _ _ (owned (with_socks (Mk_wview [] [] [] []) xs) ++ [a2])).
  { eapply heap_ok_perm; [apply (i_heap _ _ _ _ _ Hi')|]. solve_Permutation. }
  intros h3 Hok3. apply (HQ xs); [|simpl; lia|simpl; lia].
  apply (winv_forget [] [a2]). eapply winv_heap; [exact Hi'|exact Hok3].
Qed.

Lemma wpw_main_start einval opts optind argc w0 (Q : unit → wst W → Prop) :
  port_accepts → pipes_connect → no_logging opts → idle_world w0 →
  (∀ xs s', winv [] [] (Mk_wview [] [] [] xs) s' → w_gen_key s' = 1 + g_parallel (w_env s') →
     g_parallel (w_env s') ≤ alloc_limit → Q tt s') →
  wpw (main_start einval opts optind argc) Q (initial_wst w0).
Proof.
  intros Hport Hpipe Hopts Hidle HQ. unfold main_start. apply wpw_bind, wpw_env. intros E HE.
  apply wp_parse_options; [done..|]. intros g Hg. by apply wpw_init.
Qed.

(** ** The loop *)

Lemma wpw_main_step v s (Q : unit → wst W → Prop) :
  port_accepts → pipes_connect → winv [] [] v s → all_ready v → keys_due s v < KEY_LIMIT → benign_turn s →
  (∀ p s1 w v1 v' s', turn_packet s p s1 w → winv [] [] v1 s1 →
     winv [] [] v' s' → all_ready v' →
     win_schedules (g_parallel (w_env s)) (wconfig s) (v, w_world s) (v1, w_world s1) →
     win_event p (g_parallel (w_env s)) (wconfig s) v1 w (g_parallel (w_env s')) (v', w_world s') →
     keys_due s' v' ≤ keys_due s v + 1 → Q tt s') →
  wpw main_step Q s.
Proof.
  intros Hport Hpipe Hi Hready Hdue Hbenign HQ.
  assert (wpw schedule_new_jobs (λ _ s1, ∃ v1, winv [] [] v1 s1 ∧
    win_schedules (g_parallel (w_env s)) (wconfig s) (v, w_world s) (v1, w_world s1) ∧
    g_parallel (w_env s1) = g_parallel (w_env s) ∧ wconfig s1 = wconfig s ∧
    keys_due s1 v1 ≤ keys_due s v) s) as Hsched.
  { eapply wpw_schedule_new_jobs; [exact Hi|lia|]. intros v1 s1 Hi1 Hst Hp1 Hc1 Hd1. by exists v1. }
  unfold main_step, wpw, wp, mbind, M_bind in *.
  destruct (schedule_new_jobs s) as [[] s1| |f] eqn:Hs; [|done|done].
  destruct Hsched as (v1 & Hi1 & Hst & Hp1 & Hc1 & Hd1). unfold gets, sys.
  destruct (wos_get_packet (w_port s1) (w_world s1)) as [p w] eqn:Hpk.
  pose proof (get_packet_law _ _ _ _ Hpk) as Hdel.
  assert (turn_packet s p s1 w) as Hturn by (split; [exact Hs|exact Hpk]).
  assert (all_ready v1) as Hready1.
  { destruct (win_schedules_limit _ _ _ _ Hst) as (_ & _ & Hsame & _). by eapply same_client_ready. }
  refine (wpw_handle_packet [] [] v1 s1 w p Q Hport Hpipe Hi1 Hready1 _ Hdel (Hbenign p s1 w Hturn) _); [lia|].
  intros v' s' Hi' Hr' Hev Hd'. change (wconfig (set_world w s1)) with (wconfig s1) in Hev. simpl in Hev.
  rewrite Hp1, Hc1 in Hev. eapply (HQ p s1 w v1 v'); [done..|unfold keys_due in *; simpl in *; lia].
Qed.

Lemma wpw_done {A} (m : M (wst W) A) Q s a s' : wpw m Q s → m s = Done a s' → Q a s'.
Proof. unfold wpw, wp. intros Hm Heq. by rewrite Heq in Hm. Qed.

Lemma wpw_no_failure {A} (m : M (wst W) A) Q s :
  wpw m Q s → m s ≠ Failed Assertion ∧ m s ≠ Failed Undefined ∧ m s ≠ Failed Overlap.
Proof. unfold wpw, wp, any_stop, may_overlap, no_overlap. destruct (m s) as [| |[]]; naive_solver. Qed.

(** Each turn gives out at most one key more than there are requests waiting. *)
Lemma win_reachable_inv einval opts optind argc w0 n s :
  port_accepts → pipes_connect → no_logging opts → idle_world w0 → Z.of_nat n < alloc_limit →
  win_reachable einval opts optind argc w0 n s →
  ∃ v, winv [] [] v s ∧ all_ready v ∧ keys_due s v ≤ 1 + alloc_limit + Z.of_nat n.
Proof.
  intros Hport Hpipe Hopts Hidle Hn Hreach. induction Hreach as [s Hst|n s s' _ IH Hb Hstep].
  - eapply (wpw_done _ (λ _ s, ∃ v, winv [] [] v s ∧ all_ready v ∧ keys_due s v ≤ 1 + alloc_limit + Z.of_nat 0)); [|exact Hst].
    apply wpw_main_start; [done..|]. intros xs s' Hi Hg Hp. exists (Mk_wview [] [] [] xs).
    split; [exact Hi|]. split; [constructor|]. unfold keys_due. simpl. lia.
  - destruct IH as (v & Hi & Hready & Hdue); [lia|].
    eapply (wpw_done _ (λ _ s', ∃ v', winv [] [] v' s' ∧ all_ready v' ∧ keys_due s' v' ≤ 1 + alloc_limit + Z.of_nat (S n))); [|exact Hstep].
    eapply wpw_main_step; [done|done|exact Hi|exact Hready| |exact Hb|].
    + unfold KEY_LIMIT, alloc_limit in *. lia.
    + intros p s1 w v1 v' s2 _ _ Hi' Hr' _ _ Hd. exists v'. split_and!; [done..|lia].
Qed.
End main.
