(* ===== verification/ScriptedWin.v ===== *)
(** * A scripted Windows

    A concrete instance of the class of Win32 calls of WinOS.v, with proofs of
    its laws: handles are allocated upwards, every call succeeds (the
    completion port may refuse handles), writes and command lines are recorded,
    and the completion port reports the events of a
    script, each for the first operation of its kind that is under way. It runs
    the model of the server on concrete inputs and shows that the laws can
    hold. *)

From S2P Require Import Prelude CMem ArrayList Queue ReadBuf WriteBuf Env Request Proc UnixOS Messages WinOS CmdLine ServerWin ServerWinProps ServerWinInv ServerWinHandlers ServerWinLoop ServerWinPackets ServerWinMain.

(** An event of the script: a client connects, a read ends with some bytes
    ([res] says whether they end a message), a write ends, a job reports. *)
Inductive win_input :=
| InConnect
| InRead (bs : bytes) (res : bool)
| InWritten
| InJob (event : Z).

Record wscript := Mk_wscript {
  ws_io : win_io;
  ws_todo : list win_input;
  ws_error : Z;                (* the last error *)
  ws_output : list bytes;      (* what was written to clients, oldest first *)
  ws_commands : list bytes;    (* the command lines of the processes *)
}.

Definition set_io (io : win_io) (w : wscript) : wscript :=
  Mk_wscript io (ws_todo w) (ws_error w) (ws_output w) (ws_commands w).
Definition set_error (e : Z) (w : wscript) : wscript :=
  Mk_wscript (ws_io w) (ws_todo w) e (ws_output w) (ws_commands w).

(** Open a handle. *)
Definition open_handle (w : wscript) : Z * wscript :=
  let h := above (elements (io_open (ws_io w))) in
  (h, set_io (with_open ({[h]} ∪ io_open (ws_io w)) (ws_io w)) w).

Definition open_some (w : wscript) : option Z * wscript :=
  let '(h, w) := open_handle w in (Some h, w).

(** Start an operation on a handle of the port. *)
Definition start_on (h : Z) (f : Z → win_io → win_io) (w : wscript) : wscript :=
  match io_keys (ws_io w) !! h with
  | Some k => set_io (f k (ws_io w)) w
  | None => w
  end.

Definition first {A} (m : gmap positive A) : option (positive * A) := head (map_to_list m).

Definition dword (n : Z) : bool := (0 <=? n) && (n <? UINT_MOD).

(** The packet of an event, when there is an operation that it can report. *)
Definition deliver (i : win_input) (io : win_io) : option (packet * win_io) :=
  match i with
  | InConnect =>
      '(sv, k) ← first (io_connects io);
      Some (Mk_packet true 0 k (OvConnect sv) None, with_connects (delete sv (io_connects io)) io)
  | InRead bs res =>
      '(c, (k, off, n)) ← first (io_reads io);
      let len := Z.of_nat (length bs) in
      if (len <=? n) && dword len
      then Some (Mk_packet res len k (OvRead c) (Some (c, off, bs)), with_reads (delete c (io_reads io)) io)
      else None
  | InWritten =>
      '(c, (k, n)) ← first (io_writes io);
      if dword n
      then Some (Mk_packet true n k (OvWrite c) None, with_writes (delete c (io_writes io)) io)
      else None
  | InJob event =>
      k ← head (elements (io_jobs io));
      if dword event then Some (Mk_packet true event k OvOther None, io) else None
  end.

Definition no_packet : packet := Mk_packet false 0 0 OvOther None.

(** The error that a read without bytes leaves: the client has gone. *)
Definition input_error (i : win_input) : Z :=
  match i with InRead [] false => ERROR_BROKEN_PIPE | _ => 0 end.

Definition next_packet (w : wscript) : packet * wscript :=
  match ws_todo w with
  | [] => (no_packet, w)
  | i :: rest =>
      let w := Mk_wscript (ws_io w) rest (input_error i) (ws_output w) (ws_commands w) in
      match deliver i (ws_io w) with
      | Some (p, io) => (p, set_io io w)
      | None => (no_packet, w)
      end
  end.

(** [accepts] says whether the completion port takes handles. *)
Definition scripted (accepts : bool) : WinOS wscript := {|
  wos_close_handle h w :=
    match h with
    | Some h => set_io (with_keys (delete h (io_keys (ws_io w)))
        (with_open (io_open (ws_io w) ∖ {[h]}) (ws_io w))) w
    | None => w
    end;
  wos_last_error := ws_error;
  wos_basename b := b;
  wos_getcwd w := (Some (str "C:\work"), w);
  wos_create_port h port key w :=
    if accepts then
      let '(p, w) := match port with Some p => (p, w) | None => open_handle w end in
      (Some p, set_io (with_keys (<[h := key]> (io_keys (ws_io w))) (ws_io w)) w)
    else (None, w);
  wos_create_event := open_handle;
  wos_create_named_pipe _ := open_some;
  wos_connect_named_pipe h sv w :=
    (false, set_error ERROR_IO_PENDING
       (start_on h (λ k io, with_connects (<[sv := k]> (io_connects io)) io) w));
  wos_get_temp_file_name _ w := ((1, str "C:\work\vco1.tmp"), w);
  wos_create_file _ _ := open_some;
  wos_create_job_object := open_some;
  wos_set_limits _ _ w := (true, w);
  wos_set_port _ _ key w := (true, set_io (with_jobs ({[key]} ∪ io_jobs (ws_io w)) (ws_io w)) w);
  wos_create_process cmd _ w :=
    let '(a, w) := open_handle w in let '(b, w) := open_handle w in
    (Some (a, b), Mk_wscript (ws_io w) (ws_todo w) (ws_error w) (ws_output w) (ws_commands w ++ [cmd]));
  wos_assign_process _ _ w := (true, w);
  wos_resume_thread _ w := w;
  wos_terminate_process _ _ w := w;
  wos_read_file h c off n w := start_on h (λ k io, with_reads (<[c := (k, off, n)]> (io_reads io)) io) w;
  wos_write_file h bs c w :=
    let w := start_on h (λ k io, with_writes (<[c := (k, Z.of_nat (length bs))]> (io_writes io)) io) w in
    Mk_wscript (ws_io w) (ws_todo w) (ws_error w) (ws_output w ++ [bs]) (ws_commands w);
  wos_wait _ w := (WAIT_OBJECT_0, w);
  wos_get_exit_code _ w := (0, w);
  wos_get_process_times _ w := (Mk_times 0 0 2500000 10000000, w);
  wos_get_packet _ := next_packet;
  wos_fopen_log w := (true, w);
|}.

#[global] Instance scripted_win : WinOS wscript := scripted true.

Lemma open_handle_opens w h w' : open_handle w = (h, w') → opens (Some h) (ws_io w) (ws_io w').
Proof.
  unfold open_handle. intros [= <- <-]. split; [|done]. rewrite <- elem_of_elements. apply above_fresh.
Qed.

Lemma open_some_opens w r w' : open_some w = (r, w') → opens r (ws_io w) (ws_io w').
Proof. unfold open_some. destruct (open_handle w) eqn:Ho. intros [= <- <-]. by apply open_handle_opens. Qed.

Lemma start_on_law h f w : ws_io (start_on h f w) = ws_io w ∨
  ∃ k, io_keys (ws_io w) !! h = Some k ∧ ws_io (start_on h f w) = f k (ws_io w).
Proof. unfold start_on. destruct (io_keys (ws_io w) !! h) as [k|]; [right; by exists k|by left]. Qed.

Lemma first_lookup {A} (m : gmap positive A) a x : first m = Some (a, x) → m !! a = Some x.
Proof.
  unfold first. intros Hf. apply elem_of_map_to_list. apply head_Some in Hf as [l Hf]. rewrite Hf. by left.
Qed.

Lemma dword_iff n : dword n = true ↔ 0 ≤ n < UINT_MOD.
Proof. unfold dword. rewrite andb_true_iff, Z.leb_le, Z.ltb_lt. done. Qed.

Lemma deliver_delivered i io p io' : deliver i io = Some (p, io') → delivered p io io'.
Proof.
  destruct i as [|bs res| |event]; cbn [deliver]; unfold mbind, option_bind.
  - destruct (first (io_connects io)) as [[sv k]|] eqn:Hf; [|done]. intros [= <- <-].
    split; [by vm_compute|]. simpl. split_and!; [done|by apply first_lookup|done].
  - destruct (first (io_reads io)) as [[c [[k off] n]]|] eqn:Hf; [|done].
    destruct (_ && _) eqn:Hb; [|done]. apply andb_true_iff in Hb as [Hn%Z.leb_le Hd%dword_iff].
    intros [= <- <-]. split; [done|]. exists off, n, bs. split_and!; [by apply first_lookup|done..].
  - destruct (first (io_writes io)) as [[c [k n]]|] eqn:Hf; [|done].
    destruct (dword n) eqn:Hd; [|done]. apply dword_iff in Hd. intros [= <- <-]. split; [done|].
    exists n. simpl. split_and!; [done|by apply first_lookup|lia|done].
  - destruct (head (elements (io_jobs io))) as [k|] eqn:Hk; [|done].
    destruct (dword event) eqn:Hd; [|done]. apply dword_iff in Hd. intros [= <- <-]. split; [done|].
    simpl. split_and!; [done..|]. right. apply elem_of_elements. apply head_Some in Hk as [l ->]. by left.
Qed.

Lemma no_packet_delivered io : delivered no_packet io io.
Proof. split; [by vm_compute|]. simpl. auto. Qed.

Program Definition scripted_laws (accepts : bool) : @WinOSLaws wscript (scripted accepts) := {|
  win_io_of := ws_io;
|}.
Next Obligation. done. Qed.
Next Obligation.
  intros [] h port key w r w'; cbn [wos_create_port scripted]; [|by intros [= <- <-]]. destruct port as [p|].
  - intros [= <- <-]. by exists (ws_io w).
  - destruct (open_handle w) as [p w1] eqn:Ho. intros [= <- <-]. exists (ws_io w1).
    split; [by apply open_handle_opens|done].
Qed.
Next Obligation. intros ?. apply open_handle_opens. Qed.
Next Obligation. intros ? name. apply open_some_opens. Qed.
Next Obligation. intros ? mode name. apply open_some_opens. Qed.
Next Obligation. intros ?. apply open_some_opens. Qed.
Next Obligation.
  intros ? cmd si w r w'. cbn [wos_create_process scripted]. destruct (open_handle w) as [a w1] eqn:Ha.
  destruct (open_handle w1) as [b w2] eqn:Hb. intros [= <- <-]. exists (ws_io w1).
  split; [by eapply open_handle_opens|]. simpl. by eapply open_handle_opens.
Qed.
Next Obligation. intros ? h sv w r w' [= <- <-]. apply start_on_law. Qed.
Next Obligation. intros ? h c off n w. apply start_on_law. Qed.
Next Obligation. intros ? h bs c w. apply start_on_law. Qed.
Next Obligation. intros ? job port key w ok w' [= <- <-]. by right. Qed.
Next Obligation.
  intros ? port w p w'. cbn [wos_get_packet scripted]. unfold next_packet. destruct (ws_todo w) as [|i rest].
  { intros [= <- <-]. apply no_packet_delivered. }
  simpl. destruct (deliver i (ws_io w)) as [[q io]|] eqn:Hd; intros [= <- <-].
  - by eapply deliver_delivered.
  - apply no_packet_delivered.
Qed.
Next Obligation. intros ? dir w r name w' [= <- <- <-]. split; [done|]. by vm_compute. Qed.
Next Obligation. by intros ? w r w' [= <- <-]. Qed.
Next Obligation. by intros ? w r w' [= <- <-]. Qed.
Next Obligation. by intros ? job lim w r w' [= <- <-]. Qed.
Next Obligation. by intros ? job h w r w' [= <- <-]. Qed.
Next Obligation. by intros ? h w r w' [= <- <-]. Qed.
Next Obligation. by intros ? h w r w' [= <- <-]. Qed.
Next Obligation. by intros ? h w r w' [= <- <-]. Qed.
Next Obligation. done. Qed.
Next Obligation. done. Qed.

#[global] Instance scripted_win_laws : WinOSLaws wscript := scripted_laws true.

(** The assumptions of the safety theorem. *)
Lemma scripted_port_accepts : port_accepts (W := wscript).
Proof. intros h [p|] key w w'; cbn [wos_create_port scripted_win scripted]; [done|]. by destruct (open_handle w). Qed.

Lemma scripted_pipes_connect : pipes_connect (W := wscript).
Proof. intros h sv w w' [= <-]. by left. Qed.

(** A world with the standard handles open and the given script. *)
Definition scripted_win_world (todo : list win_input) : wscript :=
  Mk_wscript (Mk_io {[0; 1; 2]} ∅ ∅ ∅ ∅ ∅) todo 0 [] [].

Lemma scripted_win_idle todo : idle_world (scripted_win_world todo).
Proof. done. Qed.
