(* ===== verification/ServerWinSafety.v ===== *)
(** * Properties of the Windows server

    The correctness statements about the whole of src/server/server-win.c:
    the invariant and the safety of every reachable state, and the effect of
    one turn of the loop; with a session on the scripted Windows. *)

From S2P Require Import Prelude CMem ArrayList Queue ReadBuf WriteBuf Env Request Proc UnixOS Messages WinOS CmdLine ServerWin ServerWinProps ServerWinInv ServerWinHandlers ServerWinLoop ServerWinPackets ServerWinMain ScriptedWin.

(** ** A concrete session

    One process may run at a time: a client connects and sends two requests,
    the second of which has to wait for the end of the first process. *)

Definition win_opts : list getopt_result := [Mk_opt 106 (str "1"); Mk_opt 115 (str "why3")].
Definition win_session : list win_input :=
  [InConnect; InRead (str "run;7;5;1000;z3;-v" ++ [NEWLINE]) true; InWritten;
   InRead (str "runstdin;8;0;0;cvc4;f.smt2" ++ [NEWLINE]) true;
   InJob JOB_OBJECT_MSG_EXIT_PROCESS; InWritten; InWritten; InRead [] false].

Definition win_start : out (wst wscript) unit :=
  main_start (λ _, false) win_opts 5 5 (initial_wst (scripted_win_world win_session)).

Fixpoint run_turns {W} `{WinOS W} (n : nat) (x : out (wst W) unit) : out (wst W) unit :=
  match n with
  | O => x
  | S n' => match run_turns n' x with Done _ s => main_step s | y => y end
  end.

(** The state after [n] turns. *)
Definition win_after (n : nat) : wst wscript :=
  match run_turns n win_start with
  | Done _ s => s
  | _ => initial_wst (scripted_win_world [])
  end.

(** Decide whether the packet of a turn is benign, when the buffer of the
    client that has sent a message is empty. *)
Definition message_okb (par socks : Z) (msg : bytes) : bool :=
  negb (bool_decide (msg = [])) &&
  let '(r, par') := request_spec par (fields (take (length msg - 1) msg)) in
  (par' <=? socks) &&
  match r with
  | Some (CRun _ _ _ stdin cmd args) =>
      (negb stdin || negb (bool_decide (args = []))) &&
      (Z.of_nat (length (cmd_text (c_str cmd) (c_str <$> passed_args stdin args))) <? CMD_SIZE)
  | _ => true
  end.

Definition benign_turnb {W} `{WinOS W} (s : wst W) : bool :=
  match schedule_new_jobs s with
  | Done _ s1 =>
      let p := (wos_get_packet (w_port s1) (w_world s1)).1 in
      negb (pk_res p) ||
      match pk_fill p with
      | Some (a, _, bs) =>
          match w_store s1 !! a with
          | Some cl => (rb_len (cl_readbuf cl) =? 0) &&
                       message_okb (g_parallel (w_env s1)) (Z.of_nat (length (w_server_socket s1))) bs
          | None => true
          end
      | None => true
      end
  | _ => true
  end.

Lemma message_okb_ok par socks msg : message_okb par socks msg = true → message_ok par socks msg.
Proof.
  unfold message_okb, message_ok. intros [Hm Hr]%andb_true_iff. split; [by apply negb_true_iff, bool_decide_eq_false in Hm|].
  destruct (request_spec _ _) as [r par']. apply andb_true_iff in Hr as [Hp%Z.leb_le Hr]. split; [done|].
  intros c ->. destruct c as [id t m stdin cmd args|]; [|done]. simpl.
  apply andb_true_iff in Hr as [Ha Hl%Z.ltb_lt]. split; [|done]. intros ->.
  apply orb_true_iff in Ha as [Ha|Ha]; [done|]. by apply negb_true_iff, bool_decide_eq_false in Ha.
Qed.

Lemma benign_turnb_ok {W} `{WinOS W} (s : wst W) : benign_turnb s = true → benign_turn s.
Proof.
  unfold benign_turnb. intros Hb p s1 w [Hs Hp] Hres a off bs cl bs0 Hfill Hcl Hrb. rewrite Hs in Hb.
  cbv zeta in Hb. rewrite Hp in Hb. simpl in Hb. rewrite Hres, Hfill, Hcl in Hb. simpl in Hb.
  apply andb_true_iff in Hb as [Hlen%Z.eqb_eq Hm]. destruct Hrb as (_ & Hl & _).
  destruct bs0; [by apply message_okb_ok|]. simpl in Hl. lia.
Qed.

(** The first [n] turns are benign. *)
Definition benign_runb {W} `{WinOS W} (n : nat) (x : out (wst W) unit) : bool :=
  forallb (λ k, match run_turns k x with Done _ s => benign_turnb s | _ => true end) (seq 0 n).

Lemma run_turns_reachable {W} `{WinOS W} einval opts optind argc (w0 : W) n s :
  let start := main_start einval opts optind argc (initial_wst w0) in
  benign_runb n start = true → run_turns n start = Done tt s →
  win_reachable einval opts optind argc w0 n s.
Proof.
  cbv zeta. unfold benign_runb. revert s. induction n as [|n IH]; intros s; [intros _; apply win_reach_start|].
  rewrite seq_S, forallb_app. simpl. intros [Hb Hn]%andb_true_iff. rewrite andb_true_r in Hn.
  destruct (run_turns n _) as [[] s1| |] eqn:Hr; [|done..]. intros Hstep.
  eapply win_reach_turn; [by apply IH|by apply benign_turnb_ok|exact Hstep].
Qed.

Lemma win_after_reachable n :
  benign_runb n win_start = true → match run_turns n win_start with Done _ _ => true | _ => false end = true →
  win_reachable (λ _, false) win_opts 5 5 (scripted_win_world win_session) n (win_after n).
Proof.
  unfold win_after, win_start. intros Hb Hd.
  destruct (run_turns n _) as [[] s| |] eqn:Hr; [|done..]. by apply run_turns_reachable.
Qed.

(** The whole session: the second process is started when the first one has
    been reported. *)
Example win_session_output :
  ws_commands (w_world (win_after 8)) = [str "z3 -v "; str "cvc4 "] ∧
  ws_output (w_world (win_after 8)) =
    [str "S;7" ++ [NEWLINE]; str "F;7;0;1.25;0;C:\work\vco1.tmp" ++ [NEWLINE]; str "S;8" ++ [NEWLINE]].
Proof. vm_compute. auto. Qed.

Section props.
Context {W : Type} `{OL : WinOSLaws W}.
Implicit Types (s : wst W).

(** C3: safety of the Windows server, started without --logging (with it, a
    failing fopen would leave a NULL log file). In every state between two turns
    of the loop that the program can reach in fewer than 2^29 - 1 turns, when
    the completion port accepts every handle, a new pipe can be connected and
    every message received so far could be handled, the invariant holds: blocks and handles have one owner each, the keys of
    connections are unique, the lists represent the clients and the processes,
    and the operations under way are on the buffers of live clients and
    sockets. In the next turn, if its packet is benign too, nothing fails an
    assertion and nothing is undefined, for every packet that the laws of the
    system allow. *)
Theorem win_server_safety einval opts optind argc w0 n s :
  no_logging opts → port_accepts → pipes_connect → idle_world w0 → Z.of_nat n + 1 < alloc_limit →
  win_reachable einval opts optind argc w0 n s →
  (∃ v, winv [] [] v s ∧ all_ready v) ∧
  (benign_turn s →
   main_step s ≠ Failed Assertion ∧ main_step s ≠ Failed Undefined ∧ main_step s ≠ Failed Overlap).
Proof.
  intros Hopts Hport Hpipe Hidle Hn Hreach.
  assert (Z.of_nat n < alloc_limit) as Hn' by lia.
  destruct (win_reachable_inv _ _ _ _ _ _ _ Hport Hpipe Hopts Hidle Hn' Hreach) as (v & Hi & Hr & Hd).
  split; [by exists v|]. intros Hb. eapply (wpw_no_failure _ (λ _ _, True)), wpw_main_step; [done..| |exact Hb|done].
  unfold KEY_LIMIT, alloc_limit in *. lia.
Qed.

(** C4: one turn of the Windows server. From a state with the invariant, with
    fewer than 2^30 keys given out or due, when the completion port accepts
    every handle and a new pipe can be connected, a turn with a benign packet
    ends the program or does this, and calls the system for nothing else
    ([win_schedules] and [win_event] are on the view and on the outside
    world). First queued requests are started in their order, until
    [parallel] processes run or no request waits: each gets a job with its
    limits, its files, and a process with its command line. Then the packet is
    handled: a connection becomes a client and its socket is replaced; a whole
    message is parsed and handled (an interrupt terminates the processes with
    its id); a client whose empty read failed with ERROR_BROKEN_PIPE is removed
    and its pipe closed, any other failed read is a part of a message, which is
    kept; what was sent leaves the queue of its client and the next bytes are
    sent; the end of a process is reported to its client with the exit code and
    the times that the system gives for it. The invariant holds again. *)
Theorem win_turn_correct v s :
  port_accepts → pipes_connect → winv [] [] v s → all_ready v → keys_due s v < KEY_LIMIT → benign_turn s →
  wp (any_stop (MO := False)) main_step (λ _ s', ∃ p s1 w v1 v',
    turn_packet s p s1 w ∧ winv [] [] v1 s1 ∧
    win_schedules (g_parallel (w_env s)) (wconfig s) (v, w_world s) (v1, w_world s1) ∧
    (g_parallel (w_env s) ≤ Z.of_nat (length (x_procs v1)) ∨ x_reqs v1 = []) ∧
    Z.of_nat (length (x_procs v1)) ≤ Z.max (g_parallel (w_env s)) (Z.of_nat (length (x_procs v))) ∧
    win_event p (g_parallel (w_env s)) (wconfig s) v1 w (g_parallel (w_env s')) (v', w_world s') ∧
    winv [] [] v' s' ∧ all_ready v') s.
Proof.
  intros Hport Hpipe Hi Hr Hd Hb. eapply wpw_main_step; [done..|].
  intros p s1 w v1 v' s' Ht Hi1 Hi' Hr' Hs He _. exists p, s1, w, v1, v'.
  pose proof (win_schedules_limit _ _ _ _ Hs) as (? & ? & _). split_and!; done.
Qed.
(** ** A socket that is used after it has been freed *)

Lemma bind_failed {A B} (m : M (wst W) A) (f : A → M (wst W) B) s e : m s = Failed e → (m ≫= f) s = Failed e.
Proof. intros Hm. unfold mbind, M_bind. by rewrite Hm. Qed.

(** Closing the handles of the sockets reads the record of each one. *)
Lemma close_servers_freed l a k i n s :
  (∀ j, i ≤ j < k → ∃ b sv, arr_get l j = Ok b ∧ w_servers s !! b = Some sv) →
  arr_get l k = Ok a → w_servers s !! a = None → i ≤ k < i + Z.of_nat n →
  close_servers_from l i n s = Failed Undefined.
Proof.
  intros Hl Hk Ha. revert i s Hl Ha. induction n as [|n IH]; intros i s Hl Ha Hr; [lia|]. simpl.
  destruct (decide (i = k)) as [->|Hne].
  - rewrite Hk. unfold lift, server_get, mbind, M_bind. by rewrite Ha.
  - destruct (Hl i) as (b & sv & -> & Hsv); [lia|]. rewrite lift_ok_bind.
    erewrite bind_done by (unfold server_get; by rewrite Hsv).
    apply (IH (i + 1) (set_world _ s)); [intros j Hj; apply Hl; lia|exact Ha|lia].
Qed.

(** The sockets before number [k] are live, the one with number [k] is not. *)
Definition freed_at (k : Z) s : Prop :=
  0 ≤ k < g_parallel (w_env s) ∧
  (∀ j, 0 ≤ j < k → ∃ b sv, arr_get (w_server_socket s) j = Ok b ∧ w_servers s !! b = Some sv) ∧
  ∃ a, arr_get (w_server_socket s) k = Ok a ∧ w_servers s !! a = None.

Lemma shutdown_freed {A} k msg s : freed_at k s → (shutdown_with_msg msg : M (wst W) A) s = Failed Undefined.
Proof.
  intros (Hk & Hl & a & Ha & Hn). unfold shutdown_with_msg. rewrite gets_bind.
  assert (∃ w, match w_port s with Some p => CloseHandle p | None => mret tt end s = Done tt (set_world w s)) as (w & Hw).
  { destruct (w_port s); [by eexists|]. exists (w_world s). by rewrite set_world_id. }
  rewrite (bind_done _ _ _ _ _ Hw). erewrite bind_done by reflexivity. apply bind_failed.
  apply (close_servers_freed _ a k); [exact Hl|exact Ha|exact Hn|simpl; lia].
Qed.

(** A new socket that the port refuses shuts the server down, and that reads
    the records of all the sockets. *)
Lemma create_server_socket_freed k n s :
  (∀ name w, ∃ h w', wos_create_named_pipe name w = (Some h, w')) →
  (∀ h port key w, ∃ w', wos_create_port h port key w = (None, w')) →
  0 ≤ w_gen_key s < KEY_LIMIT → freed_at k s →
  create_server_socket n s = Failed Undefined.
Proof.
  intros Hpipe Hport Hg Hfreed. unfold KEY_LIMIT in Hg.
  unfold create_server_socket, keygen. rewrite (bind_done _ _ s (w_gen_key s) (set_gen_key (w_gen_key s + 1) s)).
  2: { unfold gets, mbind, M_bind. rewrite int_op_ok by (unfold INT_MIN, INT_MAX; lia). done. }
  erewrite bind_done by reflexivity. rewrite gets_bind. simpl.
  match goal with |- (sys ?f ≫= _) ?t = _ => destruct (Hpipe (w_pipe_name s) (w_world s)) as (h & w1 & Hp);
    rewrite (bind_done _ _ t (Some h) (set_world w1 t)) by (unfold sys; simpl; by rewrite Hp) end.
  rewrite to_ms_key_ok by (lia || by left). rewrite lift_ok_bind.
  apply bind_failed. unfold add_to_completion_port. rewrite gets_bind.
  match goal with |- (sys (wos_create_port ?h ?p ?key) ≫= _) ?t = _ =>
    destruct (Hport h p key (w_world t)) as (w2 & Hw2);
    rewrite (bind_done _ _ t None (set_world w2 t)) by (unfold sys; by rewrite Hw2) end.
  by apply (shutdown_freed k).
Qed.

(** The sockets of a state with the invariant have records of their own. *)
Lemma winv_socket_at own hs v s i y :
  winv own hs v s → x_socks v !! i = Some y →
  arr_get (w_server_socket s) (Z.of_nat i) = Ok (so_addr y) ∧ is_Some (w_servers s !! so_addr y) ∧
  so_addr y ∈ h_live (g_heap (w_env s)) ∧
  ∀ j z, x_socks v !! j = Some z → so_addr z = so_addr y → j = i.
Proof.
  intros Hi Hy. destruct (i_heap _ _ _ _ _ Hi) as (Hh & Hnd & _). split_and!.
  - apply arr_get_ok; [lia|]. by rewrite (i_sockets _ _ _ _ _ Hi), app_nil_r, Nat2Z.id, !list_lookup_fmap, Hy.
  - pose proof (i_servers _ _ _ _ _ Hi) as Hs. rewrite Forall_lookup in Hs. destruct (Hs _ _ Hy) as (sv & -> & _). done.
  - apply Hh. unfold owned. rewrite !elem_of_app. left; right; right; right.
    by eapply list_elem_of_fmap_2, list_elem_of_lookup_2.
  - intros j z Hz Heq. unfold owned in Hnd. rewrite !NoDup_app in Hnd. destruct Hnd as ((_ & _ & _ & _ & _ & _ & Hn) & _).
    eapply NoDup_lookup; [exact Hn|by rewrite list_lookup_fmap, Hz|]. rewrite list_lookup_fmap, Hy. simpl. by rewrite Heq.
Qed.

(** C5: a socket is used after it has been freed. When a client connects to a
    socket whose number is below [parallel], a new pipe can be created and the
    completion port refuses its handle, then accept_client is undefined, from
    every state with the invariant: the old record of the socket has been freed
    and is still in the array [server_socket], and shutdown_with_msg reads it. *)
Theorem accept_client_use_after_free own hs v s xs1 x xs2 :
  winv own hs v s → x_socks v = xs1 ++ x :: xs2 → Z.of_nat (length xs1) < g_parallel (w_env s) →
  w_gen_key s < KEY_LIMIT →
  (∀ name w, ∃ h w', wos_create_named_pipe name w = (Some h, w')) →
  (∀ h port key w, ∃ w', wos_create_port h port key w = (None, w')) →
  accept_client (so_key x) (Z.of_nat (length xs1)) s = Failed Undefined.
Proof.
  intros Hi Hv Hpar Hgen Hpipe Hport. pose proof (i_gen _ _ _ _ _ Hi) as Hg1.
  assert (x_socks v !! length xs1 = Some x) as Hx by (by rewrite Hv, list_lookup_middle).
  destruct (winv_socket_at _ _ _ _ _ _ Hi Hx) as (Hsock & (sv & Hsv) & Hlive & Hdiff).
  destruct (init_readbuf_rep BUFSIZE) as (rb & Hrb & _); [by_computation|].
  destruct (init_writebuf_rep 16) as (wb & Hwb & _); [by_computation|].
  set (c := h_next (g_heap (w_env s))). set (h1 := Mk_heap ({[c]} ∪ h_live (g_heap (w_env s))) (Pos.succ c)).
  unfold accept_client. rewrite (bind_done _ _ s c (with_heap h1 s)) by reflexivity.
  erewrite bind_done by reflexivity. change (ServerWin.w_server_socket (with_heap h1 s)) with (w_server_socket s).
  rewrite Hsock, lift_ok_bind.
  rewrite (bind_done _ _ _ sv (with_heap h1 s)) by (unfold server_get; simpl; by rewrite Hsv).
  rewrite Hrb, lift_ok_bind, Hwb, lift_ok_bind.
  assert (∀ kind s0, ∃ d w, init_connect_data kind s0 = Done d (set_world w s0)) as Hinit.
  { intros kind s0. unfold init_connect_data, sys, mbind, M_bind. destruct (wos_create_event (w_world s0)) as [ev w]. by eexists _, w. }
  destruct (Hinit READOP (with_heap h1 s)) as (rd & w1 & Hrd). rewrite (bind_done _ _ _ _ _ Hrd).
  match goal with |- (_ ≫= _) ?t = _ => destruct (Hinit WRITEOP t) as (wr & w2 & Hwr) end. rewrite (bind_done _ _ _ _ _ Hwr).
  erewrite bind_done by reflexivity.
  erewrite bind_done.
  2: { unfold heapU, on_env, on_heap, zoom, free. simpl. unfold is_live. rewrite bool_decide_true by (simpl; set_solver). reflexivity. }
  erewrite bind_done by reflexivity. apply bind_failed.
  apply (create_server_socket_freed (Z.of_nat (length xs1))); [done..|simpl; lia|].
  split; [simpl; lia|]. split.
  - intros j Hj. destruct (lookup_lt_is_Some_2 (x_socks v) (Z.to_nat j)) as [y Hy]; [rewrite Hv, length_app; lia|].
    destruct (winv_socket_at _ _ _ _ _ _ Hi Hy) as (Hy1 & (sy & Hsy) & _). rewrite Z2Nat.id in Hy1 by lia.
    exists (so_addr y), sy. split; [exact Hy1|]. simpl. rewrite lookup_delete_ne; [exact Hsy|].
    intros Heq. pose proof (Hdiff _ _ Hy (eq_sym Heq)). lia.
  - exists (so_addr x). split; [exact Hsock|apply lookup_delete_eq].
Qed.

End props.

Lemma win_server_safety_witness :
  (∃ v, winv [] [] v (win_after 3) ∧ all_ready v) ∧
  (benign_turn (win_after 3) →
   main_step (win_after 3) ≠ Failed Assertion ∧ main_step (win_after 3) ≠ Failed Undefined ∧
   main_step (win_after 3) ≠ Failed Overlap).
Proof.
  refine (win_server_safety (λ _, false) win_opts 5 5 (scripted_win_world win_session) 3 (win_after 3)
    _ scripted_port_accepts scripted_pipes_connect (scripted_win_idle _) _ _).
  - repeat constructor; discriminate.
  - reflexivity.
  - apply win_after_reachable; vm_compute; reflexivity.
Defined.

Lemma win_session_inv n :
  (n ≤ 8)%nat → ∃ v, winv [] [] v (win_after n) ∧ all_ready v ∧ keys_due (win_after n) v < KEY_LIMIT.
Proof.
  intros Hn.
  assert (win_reachable (λ _, false) win_opts 5 5 (scripted_win_world win_session) n (win_after n)) as Hr.
  { apply win_after_reachable; do 9 (destruct n as [|n]; [vm_compute; reflexivity|]); lia. }
  assert (no_logging win_opts) as Hopts by (repeat constructor; discriminate).
  assert (Z.of_nat n < alloc_limit) as Hlim by (unfold alloc_limit; lia).
  destruct (win_reachable_inv _ _ _ _ _ _ _ scripted_port_accepts scripted_pipes_connect
    Hopts (scripted_win_idle _) Hlim Hr) as (v & Hi & Hrd & Hd).
  exists v. split_and!; [done..|]. unfold KEY_LIMIT, alloc_limit in *. lia.
Qed.

(** A turn that reads the second request, while the first one runs. *)
Lemma win_turn_correct_witness :
  ∃ v, winv [] [] v (win_after 3) ∧
  wp (any_stop (MO := False)) main_step (λ _ s', ∃ p s1 w v1 v',
    turn_packet (win_after 3) p s1 w ∧ winv [] [] v1 s1 ∧
    win_schedules (g_parallel (w_env (win_after 3))) (wconfig (win_after 3))
      (v, w_world (win_after 3)) (v1, w_world s1) ∧
    (g_parallel (w_env (win_after 3)) ≤ Z.of_nat (length (x_procs v1)) ∨ x_reqs v1 = []) ∧
    Z.of_nat (length (x_procs v1)) ≤ Z.max (g_parallel (w_env (win_after 3))) (Z.of_nat (length (x_procs v))) ∧
    win_event p (g_parallel (w_env (win_after 3))) (wconfig (win_after 3)) v1 w
      (g_parallel (w_env s')) (v', w_world s') ∧
    winv [] [] v' s' ∧ all_ready v') (win_after 3).
Proof.
  destruct (win_session_inv 3) as (v & Hi & Hr & Hd); [lia|]. exists v. split; [exact Hi|].
  refine (win_turn_correct v (win_after 3) scripted_port_accepts scripted_pipes_connect Hi Hr Hd _).
  apply benign_turnb_ok. vm_compute. reflexivity.
Defined.

(** The invariant does not depend on what calls do. *)
Lemma winv_scripted accepts own hs v s :
  winv_at (OL := scripted_laws true) 0 own hs v s → winv_at (OL := scripted_laws accepts) 0 own hs v s.
Proof. intros []. by split. Qed.

Lemma win_session_socket n v :
  winv [] [] v (win_after n) → length (w_server_socket (win_after n)) = 1%nat → ∃ x, x_socks v = [] ++ x :: [].
Proof.
  intros Hi Hlen. rewrite (i_sockets _ _ _ _ _ Hi), app_nil_r, !length_fmap in Hlen.
  destruct (x_socks v) as [|x [|]]; [done|by exists x|done].
Qed.

Lemma keys_due_left {W} (s : wst W) v : keys_due s v < KEY_LIMIT → w_gen_key s < KEY_LIMIT.
Proof. unfold keys_due. lia. Qed.

(** A second client connects while the first one is served. *)
Lemma accept_client_use_after_free_witness :
  ∃ v x, winv [] [] v (win_after 3) ∧ x_socks v = [x] ∧
    accept_client (OS := scripted false) (so_key x) 0 (win_after 3) = Failed Undefined.
Proof.
  destruct (win_session_inv 3) as (v & Hi & _ & Hd); [lia|].
  destruct (win_session_socket 3 v Hi) as (x & Hx); [vm_compute; reflexivity|].
  exists v, x. split; [exact Hi|]. split; [exact Hx|].
  refine (accept_client_use_after_free (OL := scripted_laws false) [] [] v (win_after 3) [] x []
    (winv_scripted false _ _ _ _ Hi) Hx _ _ _ _).
  - vm_compute. reflexivity.
  - exact (keys_due_left _ _ Hd).
  - intros name w. do 2 eexists. reflexivity.
  - intros h port key w. by exists w.
Defined.
