(* ===== verification/CpuLimit.v ===== *)
(** * The cpulimit programs (src/server/cpulimit-unix.c, src/server/cpulimit-win.c)

    Each program is a computation on its own state: its globals, the world, the
    text it printed, the calls it made and how the process ended. [fork]
    returns in two processes; the model is that of either, given the value it
    returned there. *)

From S2P Require Import Prelude CMem UnixOS WinOS CmdLine.
From Stdlib Require Import Floats.SpecFloat.

Definition EXIT_FAILURE : Z := 1.
Definition SIGTERM : Z := 15.

(** How a process ends. *)
Inductive process_end :=
| EndExit (code : Z)
| EndKilled (sig : Z)
| EndExec (argv : list bytes).

(** ["%f"]: six decimals of the exact value, ties to even. *)
Definition six_digits (n : Z) : bytes :=
  two_digits (n / 10000) ++ two_digits (n / 100 mod 100) ++ two_digits (n mod 100).
Definition fmt_f (x : spec_float) : bytes :=
  match x with
  | S754_zero neg => (if neg : bool then str "-" else []) ++ str "0.000000"
  | S754_infinity neg => (if neg : bool then str "-" else []) ++ str "inf"
  | S754_nan => str "nan"
  | S754_finite neg m e =>
      let q := if 0 <=? e then Z.pos m * 2 ^ e * 1000000
               else round_div (Z.pos m * 1000000) (2 ^ (- e)) in
      (if neg : bool then str "-" else []) ++
      dec_nat (q / 1000000) ++ str "." ++ six_digits (q mod 1000000)
  end.

(** Signed 64-bit arithmetic: an overflow is undefined. *)
Definition long_op (x : Z) : res Z :=
  if (LONG_MIN <=? x) && (x <=? LONG_MAX) then Ok x else Fail Undefined.

(** ** Unix *)

(** A call on the limits or the processes, with its reply. *)
Inductive limit_call :=
| LcFork (pid : Z)
| LcAlarm (seconds : Z)
| LcWaitpid (pid : Z) (reply : option wait_status)
| LcKill (pid sig : Z)
| LcRaise (sig : Z) (dead : bool)
| LcGetrlimit (r : rlimit_resource) (cur max : Z)
| LcSetrlimit (r : rlimit_resource) (cur max : Z)
| LcExec (argv : list bytes).

(** The calls of cpulimit-unix.c. [lo_waitpid] also reports whether the alarm
    rang during the call, and [None] stands for a result that is not positive;
    [lo_raise] is [kill(getpid(), sig)], with [true] when it ends the process;
    [lo_exec] is [true] when the program is replaced. *)
Class LimitOS (W : Type) := {
  lo_fork : W → Z * W;
  lo_alarm : Z → W → W;
  lo_waitpid : Z → W → (bool * option wait_status) * W;
  lo_kill : Z → Z → W → W;
  lo_raise : Z → W → bool * W;
  lo_times : W → (Z * Z) * W;
  lo_clk_tck : Z;
  lo_getrlimit : rlimit_resource → W → (Z * Z) * W;
  lo_setrlimit : rlimit_resource → Z * Z → W → W;
  lo_exec : list bytes → W → bool * W;
  lo_strerror : W → bytes;
}.

Record lst (W : Type) := Mk_lst {
  ls_wallclock : Z;
  ls_showtime : bool;
  ls_hidetime : bool;
  ls_stderr : list bytes;
  ls_calls : list limit_call;
  ls_end : option process_end;
  ls_world : W;
}.
Arguments Mk_lst {_} _ _ _ _ _ _ _.
Arguments ls_wallclock {_} _.
Arguments ls_showtime {_} _.
Arguments ls_hidetime {_} _.
Arguments ls_stderr {_} _.
Arguments ls_calls {_} _.
Arguments ls_end {_} _.
Arguments ls_world {_} _.

Section unix.
Context {W : Type} `{OS : LimitOS W}.
Local Abbreviation U := (M (lst W)).

Definition set_wallclock (t : Z) : U unit := modify (λ s,
  Mk_lst t (ls_showtime s) (ls_hidetime s) (ls_stderr s) (ls_calls s) (ls_end s) (ls_world s)).
Definition set_options (showtime hidetime : bool) : U unit := modify (λ s,
  Mk_lst (ls_wallclock s) showtime hidetime (ls_stderr s) (ls_calls s) (ls_end s) (ls_world s)).
Definition fprintf_stderr (b : bytes) : U unit := modify (λ s,
  Mk_lst (ls_wallclock s) (ls_showtime s) (ls_hidetime s) (ls_stderr s ++ [b]) (ls_calls s)
    (ls_end s) (ls_world s)).

(** The process ends. *)
Definition end_process {A} (e : process_end) : U A := λ s,
  Exited 0 (Mk_lst (ls_wallclock s) (ls_showtime s) (ls_hidetime s) (ls_stderr s) (ls_calls s)
    (Some e) (ls_world s)).

(** A call that only asks, and a call that is recorded. *)
Definition ask {A} (f : W → A * W) : U A := λ s,
  let '(a, w) := f (ls_world s) in
  Done a (Mk_lst (ls_wallclock s) (ls_showtime s) (ls_hidetime s) (ls_stderr s) (ls_calls s) (ls_end s) w).
Definition call {A} (c : A → limit_call) (f : W → A * W) : U A := λ s,
  let '(a, w) := f (ls_world s) in
  Done a (Mk_lst (ls_wallclock s) (ls_showtime s) (ls_hidetime s) (ls_stderr s) (ls_calls s ++ [c a])
    (ls_end s) w).
Definition call_ (c : limit_call) (f : W → W) : U unit := call (λ _, c) (λ w, (tt, f w)).

Definition show_time : U unit :=
  b ← gets ls_showtime;
  whenM b (
    '(cutime, cstime) ← ask lo_times;
    t ← lift (long_op (cutime + cstime));
    fprintf_stderr (str "why3cpulimit time : " ++
      fmt_f (SFdiv 53 1024 (SFadd 53 1024 (sf_of_Z t) (sf_of_Z 0)) (sf_of_Z lo_clk_tck)) ++
      str " s" ++ [NEWLINE])).

(** The handler of SIGALRM. *)
Definition wallclock_timelimit_reached : U unit :=
  t ← gets ls_wallclock;
  fprintf_stderr (str "Why3cpulimit: wallclock timelimit " ++ dec t ++
    str " reached, killing command" ++ [NEWLINE]).

Definition usage {A} (argv0 : bytes) : U A :=
  _ ← fprintf_stderr (str "usage: " ++ argv0 ++
    str " <time limit in seconds> <virtual memory limit in MiB>" ++ [NEWLINE] ++
    str "          <show/hide cpu time: -s|-h> <command> <args>..." ++ [NEWLINE; NEWLINE] ++
    str "Zero sets no limit (keeps the actual limit)" ++ [NEWLINE]);
  end_process (EndExit EXIT_FAILURE).

(** A signal that the process sends itself. *)
Definition raise (sig : Z) : U unit :=
  dead ← call (LcRaise sig) (lo_raise sig);
  if dead : bool then end_process (EndKilled sig) else mret tt.

(** The alarm interrupts the wait, and its handler runs. *)
Definition waitpid (pid : Z) : U (option wait_status) :=
  '(rang, r) ← call (λ r, LcWaitpid pid r.2) (lo_waitpid pid);
  _ ← whenM rang wallclock_timelimit_reached;
  mret r.

(** [2*timelimit + 60] is computed in [long] and stored in an [int], which
    [alarm] takes as unsigned. *)
Definition wallclock_of (timelimit : Z) : res Z :=
  t ← long_op (2 * timelimit);
  t ← long_op (t + 60);
  mret (to_int t).

(** The waits of the parent; the result is [status], [None] if no wait
    stored one. *)
Definition wait_for_child (pid : Z) : U (option wait_status) :=
  r ← waitpid pid;
  match r with
  | Some st => mret (Some st)
  | None =>
      _ ← call_ (LcKill pid SIGKILL) (lo_kill pid SIGKILL);
      r ← waitpid pid;
      match r with
      | Some st => mret (Some st)
      | None =>
          _ ← fprintf_stderr (str "why3cpulimit waitpid");
          _ ← raise SIGTERM;
          mret None
      end
  end.

(** The branch of the parent, up to its closing brace. *)
Definition parent_branch (pid timelimit : Z) : U unit :=
  _ ← whenM (negb (timelimit =? 0)) (
    t ← lift (wallclock_of timelimit);
    _ ← set_wallclock t;
    call_ (LcAlarm (u32 t)) (lo_alarm (u32 t)));
  status ← wait_for_child pid;
  _ ← show_time;
  match status with
  | None => failM Undefined                     (* [status] was never written *)
  | Some status =>
      _ ← match status with
          | WExited code => end_process (EndExit code)
          | WSignaled sig => raise sig
          | WOther => mret tt
          end;
      _ ← fprintf_stderr (str "why3cpulimit: child exited neither normally nor because of a signal" ++ [NEWLINE]);
      raise SIGTERM
  end.

(** [getrlimit], a new soft limit, [setrlimit]. *)
Definition set_limit (r : rlimit_resource) (cur : Z) : U unit :=
  '(_, max) ← call (λ lim, LcGetrlimit r lim.1 lim.2) (lo_getrlimit r);
  call_ (LcSetrlimit r cur max) (lo_setrlimit r (cur, max)).

(** The limits of the command: CPU time, memory, and no core dumps. *)
Definition set_limits (timelimit memlimit : Z) : U unit :=
  _ ← whenM (0 <? timelimit) (set_limit RLIMIT_CPU (u64 timelimit));
  _ ← whenM (0 <? memlimit) (
    m ← lift (long_op (memlimit * 1024));
    m ← lift (long_op (m * 1024));
    set_limit RLIMIT_AS (u64 m));
  whenM ((0 <? timelimit) || (0 <? memlimit)) (set_limit RLIMIT_CORE 0).

Definition exec_command (argv : list bytes) : U unit :=
  replaced ← call (λ _, LcExec (drop 4 argv)) (lo_exec (drop 4 argv));
  if replaced : bool then end_process (EndExec (drop 4 argv))
  else
    err ← gets (λ s, lo_strerror (ls_world s));
    _ ← fprintf_stderr (nth 0 argv [] ++ str ": exec of '" ++ nth 4 argv [] ++
          str "' failed (" ++ err ++ str ")" ++ [NEWLINE]);
    end_process (EndExit EXIT_FAILURE).

(** The branch [if (showtime || timelimit)]. *)
Definition fork_if_requested (argv : list bytes) (timelimit : Z) : U unit :=
  showtime ← gets ls_showtime;
  whenM (showtime || negb (timelimit =? 0)) (
    pid ← call LcFork lo_fork;
    if pid =? -1 then
      _ ← fprintf_stderr (str "fork");
      end_process (EndExit EXIT_FAILURE)
    else whenM (0 <? pid) (parent_branch pid timelimit)).

Definition main (argv : list bytes) : U unit :=
  let argv0 := nth 0 argv [] in
  if (length argv <? 5)%nat then usage argv0
  else
    let showtime := strcmp_eq (str "-s") (nth 3 argv []) in
    let hidetime := strcmp_eq (str "-h") (nth 3 argv []) in
    _ ← set_options showtime hidetime;
    if negb (showtime || hidetime) then usage argv0
    else
      let timelimit := strtol10 (nth 1 argv []) in
      if timelimit <? 0 then usage argv0
      else
        let memlimit := strtol10 (nth 2 argv []) in
        if memlimit <? 0 then usage argv0
        else
          _ ← fork_if_requested argv timelimit;
          _ ← set_limits timelimit memlimit;
          exec_command argv.

Definition initial_lst (w : W) : lst W := Mk_lst 60 false false [] [] None w.
End unix.

(** ** What the Unix program promises *)

(** The command line asks for the limits [t] and [m]. *)
Definition asks (argv : list bytes) (show : bool) (t m : Z) : Prop :=
  (5 ≤ length argv)%nat ∧
  strcmp_eq (str "-s") (nth 3 argv []) = show ∧
  show || strcmp_eq (str "-h") (nth 3 argv []) = true ∧
  strtol10 (nth 1 argv []) = t ∧ strtol10 (nth 2 argv []) = m ∧ 0 ≤ t ∧ 0 ≤ m.

Section unix_spec.
Context {W : Type} `{OS : LimitOS W}.

(** The world and the calls made so far. *)
Local Abbreviation view := (W * list limit_call)%type.
Definition view_of (s : lst W) : view := (ls_world s, ls_calls s).
Implicit Types (x y : view).

(** One soft limit is set to [cur], if [b] asks for it; the hard limit set is
    the one [getrlimit] has just given. *)
Definition limit_set (b : bool) (r : rlimit_resource) (cur : Z) x y : Prop :=
  if b then ∃ c h w, lo_getrlimit r x.1 = ((c, h), w) ∧
    y = (lo_setrlimit r (cur, h) w, x.2 ++ [LcGetrlimit r c h; LcSetrlimit r cur h])
  else y = x.

Definition limits_set (t m : Z) x y : Prop := ∃ x1 x2,
  limit_set (0 <? t) RLIMIT_CPU t x x1 ∧
  limit_set (0 <? m) RLIMIT_AS (m * 2 ^ 20) x1 x2 ∧
  limit_set ((0 <? t) || (0 <? m)) RLIMIT_CORE 0 x2 y.

(** The command replaces the program, or the program exits. *)
Definition executed (cmd : list bytes) x y (e : process_end) : Prop := ∃ replaced w,
  lo_exec cmd x.1 = (replaced, w) ∧ y = (w, x.2 ++ [LcExec cmd]) ∧
  e = if replaced : bool then EndExec cmd else EndExit EXIT_FAILURE.

Definition runs_command (cmd : list bytes) (t m : Z) x y (e : process_end) : Prop :=
  ∃ x1, limits_set t m x x1 ∧ executed cmd x1 y e.

(** The calls of the parent. *)
Definition alarm_set (t : Z) x : view :=
  let a := u32 (to_int (2 * t + 60)) in
  if t =? 0 then x else (lo_alarm a x.1, x.2 ++ [LcAlarm a]).
Definition waited (pid : Z) x (r : option wait_status) y : Prop := ∃ rang w,
  lo_waitpid pid x.1 = ((rang, r), w) ∧ y = (w, x.2 ++ [LcWaitpid pid r]).
Definition killed (pid : Z) x : view := (lo_kill pid SIGKILL x.1, x.2 ++ [LcKill pid SIGKILL]).
Definition timed (show : bool) x : view := if show then ((lo_times x.1).2, x.2) else x.
Definition signalled (sig : Z) x (dead : bool) y : Prop := ∃ w,
  lo_raise sig x.1 = (dead, w) ∧ y = (w, x.2 ++ [LcRaise sig dead]).

(** The parent sends SIGTERM to itself. When that signal does not end it, it
    goes on like a child. *)
Definition terminated (cmd : list bytes) (t m : Z) x y (e : process_end) : Prop := ∃ dead x1,
  signalled SIGTERM x dead x1 ∧
  if dead : bool then y = x1 ∧ e = EndKilled SIGTERM else runs_command cmd t m x1 y e.

(** The parent knows the status of the child. *)
Definition reported (cmd : list bytes) (t m : Z) (st : wait_status) x y (e : process_end) : Prop :=
  match st with
  | WExited code => y = x ∧ e = EndExit code
  | WSignaled sig => ∃ dead x1, signalled sig x dead x1 ∧
      if dead : bool then y = x1 ∧ e = EndKilled sig else terminated cmd t m x1 y e
  | WOther => terminated cmd t m x y e
  end.

Definition parent_ended (cmd : list bytes) (show : bool) (t m pid : Z) x y (e : process_end) : Prop :=
  ∃ r1 x1, waited pid (alarm_set t x) r1 x1 ∧
  match r1 with
  | Some st => reported cmd t m st (timed show x1) y e
  | None => ∃ r2 x2, waited pid (killed pid x1) r2 x2 ∧
      match r2 with
      | Some st => reported cmd t m st (timed show x2) y e
      | None => signalled SIGTERM x2 true y ∧ e = EndKilled SIGTERM
      end
  end.

(** When the behaviour of the parent is undefined: an overflow in the wall
    clock limit or in the sum of the times, or a SIGTERM that does not end the
    process. *)
Definition parent_undefined (show : bool) (t : Z) : Prop :=
  2 ^ 62 - 31 < t ∨
  (∃ w : W, (lo_raise SIGTERM w).1 = false) ∨
  show = true ∧ ∃ w : W, let '((u, c), _) := lo_times w in ¬ LONG_MIN ≤ u + c ≤ LONG_MAX.

(** ** Outcomes

    [m] returns in [Q], or ends the process in [R], or is undefined where [F]
    holds. *)
Definition post {A} (F : Prop) (R : lst W → Prop) (m : M (lst W) A) (Q : A → lst W → Prop)
    (s : lst W) : Prop :=
  match m s with
  | Done a s' => Q a s'
  | Exited _ s' => R s'
  | Failed f => f = Undefined ∧ F
  end.

(** The process has ended in [e], with [R]. *)
Definition ended (R : view → process_end → Prop) (s : lst W) : Prop :=
  ∃ e, ls_end s = Some e ∧ R (view_of s) e.
End unix_spec.

(** ** Lemmas on the Unix program *)

Lemma long_op_ok x : LONG_MIN ≤ x ≤ LONG_MAX → long_op x = Ok x.
Proof. intros. unfold long_op. by guard_true ((LONG_MIN <=? x) && (x <=? LONG_MAX)). Qed.

Lemma long_op_overflow x : ¬ LONG_MIN ≤ x ≤ LONG_MAX → long_op x = Fail Undefined.
Proof. intros. unfold long_op. destruct (Z.leb_spec LONG_MIN x), (Z.leb_spec x LONG_MAX); try done. lia. Qed.

Lemma strtol10_bounds b : LONG_MIN ≤ strtol10 b ≤ LONG_MAX.
Proof.
  unfold strtol10. repeat case_match; unfold LONG_MIN, LONG_MAX in *; lia.
Qed.

Lemma asks_bounds argv show t m : asks argv show t m → 0 ≤ t ≤ LONG_MAX ∧ 0 ≤ m ≤ LONG_MAX.
Proof.
  intros (_ & _ & _ & Ht & Hm & Ht0 & Hm0).
  pose proof (strtol10_bounds (nth 1 argv [])). pose proof (strtol10_bounds (nth 2 argv [])). lia.
Qed.

Section unix_props.
Context {W : Type} `{OS : LimitOS W} (F : Prop).
Implicit Types (s : lst W) (x y : W * list limit_call).

Lemma post_bind {A B} R (m : M (lst W) A) (f : A → M (lst W) B) (Q : B → lst W → Prop) s :
  post F R m (λ a s', post F R (f a) Q s') s → post F R (m ≫= f) Q s.
Proof. unfold post, mbind, M_bind. by destruct (m s). Qed.

Lemma post_mono {A} (F1 : Prop) (R1 R2 : lst W → Prop) (m : M (lst W) A) (Q1 Q2 : A → lst W → Prop) s :
  post F1 R1 m Q1 s → (F1 → F) → (∀ s', R1 s' → R2 s') → (∀ a s', Q1 a s' → Q2 a s') → post F R2 m Q2 s.
Proof. unfold post. destruct (m s); auto. intros [-> ?]; auto. Qed.

(** The steps that return. *)
Lemma post_call {A} R (c : A → limit_call) (f : W → A * W) (Q : A → lst W → Prop) s :
  (∀ a w s', f (ls_world s) = (a, w) → view_of s' = (w, ls_calls s ++ [c a]) →
     ls_showtime s' = ls_showtime s → Q a s') →
  post F R (call c f) Q s.
Proof. intros HQ. unfold post, call. destruct (f (ls_world s)) as [a w] eqn:E. by eapply HQ. Qed.

Lemma post_print R b (Q : unit → lst W → Prop) s :
  (∀ s', view_of s' = view_of s → ls_showtime s' = ls_showtime s → Q tt s') → post F R (fprintf_stderr b) Q s.
Proof. intros HQ. by apply HQ. Qed.

Lemma post_end {A} (R : W * list limit_call → process_end → Prop) e (Q : A → lst W → Prop) s :
  R (view_of s) e → post F (ended R) (end_process e) Q s.
Proof. intros HR. exists e. by split. Qed.

Lemma post_lift {A} R (r : res A) (Q : A → lst W → Prop) s :
  match r with Ok a => Q a s | Fail f => f = Undefined ∧ F end → post F R (lift r) Q s.
Proof. unfold post, lift. by destruct r. Qed.

(** ** The limits and the command *)

Lemma post_limit R b r cur (Q : unit → lst W → Prop) s :
  (∀ s', limit_set b r cur (view_of s) (view_of s') → Q tt s') → post F R (whenM b (set_limit r cur)) Q s.
Proof.
  intros HQ. destruct b; [|by apply HQ]. apply post_bind, post_call. intros [c h] w s1 Hg Hv1 _.
  apply post_call. intros [] w' s2 [= <-] Hv2 _. apply HQ. exists c, h, w. split; [done|].
  injection Hv1 as Hw1 Hc1. by rewrite Hv2, Hw1, Hc1, <- app_assoc.
Qed.

Lemma post_limits R t m (Q : unit → lst W → Prop) s :
  0 ≤ t ≤ LONG_MAX → 0 ≤ m ≤ LONG_MAX → (2 ^ 43 ≤ m → F) →
  (∀ s', m < 2 ^ 43 → limits_set t m (view_of s) (view_of s') → Q tt s') →
  post F R (set_limits t m) Q s.
Proof.
  unfold LONG_MAX. intros Ht Hm HF HQ. unfold set_limits.
  rewrite (u64_small t) by (unfold SIZE_MOD; lia). apply post_bind, post_limit. intros s1 H1.
  apply post_bind.
  assert (∀ Q', (∀ s2, m < 2 ^ 43 → limit_set (0 <? m) RLIMIT_AS (m * 2 ^ 20) (view_of s1) (view_of s2) → Q' tt s2) →
    post F R (whenM (0 <? m) (m ← lift (long_op (m * 1024)); m ← lift (long_op (m * 1024));
      set_limit RLIMIT_AS (u64 m))) Q' s1) as Hmid; [|apply Hmid].
  - intros Q' HQ'. destruct (Z.ltb_spec 0 m) as [Hpos|]; [|apply HQ'; [lia|done]].
    destruct (decide (m < 2 ^ 43)) as [Hlt|Hge].
    + apply post_bind, post_lift. rewrite long_op_ok by (unfold LONG_MIN, LONG_MAX; lia).
      apply post_bind, post_lift. rewrite long_op_ok by (unfold LONG_MIN, LONG_MAX; lia).
      rewrite u64_small by (unfold SIZE_MOD; lia). replace (m * 1024 * 1024) with (m * 2 ^ 20) by lia.
      apply (post_limit R true). auto.
    + assert (F) as HF' by (apply HF; lia). apply post_bind, post_lift.
      destruct (decide (m * 1024 ≤ LONG_MAX)).
      * rewrite long_op_ok by (unfold LONG_MIN; lia). apply post_bind, post_lift.
        rewrite long_op_overflow by (unfold LONG_MAX in *; lia). done.
      * by rewrite long_op_overflow by lia.
  - intros s2 Hlt H2. apply post_limit. intros s3 H3. apply HQ; [done|]. by exists (view_of s1), (view_of s2).
Qed.

Lemma post_command (R : W * list limit_call → process_end → Prop) argv t m s :
  0 ≤ t ≤ LONG_MAX → 0 ≤ m ≤ LONG_MAX → (2 ^ 43 ≤ m → F) →
  (∀ y e, m < 2 ^ 43 → runs_command (drop 4 argv) t m (view_of s) y e → R y e) →
  post F (ended R) (_ ← set_limits t m; exec_command argv) (λ _ _, False) s.
Proof.
  intros Ht Hm HF HR. apply post_bind, post_limits; [done..|]. intros s1 Hlt H1.
  apply post_bind, post_call. intros replaced w s2 Hx Hv _.
  assert (∀ e, e = (if replaced then EndExec (drop 4 argv) else EndExit EXIT_FAILURE) → R (view_of s2) e) as HR2.
  { intros e He. apply HR; [done|]. exists (view_of s1). split; [done|]. by exists replaced, w. }
  destruct replaced; [by apply post_end, HR2|].
  apply post_bind. unfold post at 1, gets. apply post_bind, post_print. intros s3 Hv3 _.
  apply post_end. rewrite Hv3. by apply HR2.
Qed.

(** ** The parent *)

Lemma post_raise (R : W * list limit_call → process_end → Prop) sig (Q : unit → lst W → Prop) s :
  (∀ x1, signalled sig (view_of s) true x1 → R x1 (EndKilled sig)) →
  (∀ s', signalled sig (view_of s) false (view_of s') → Q tt s') →
  post F (ended R) (raise sig) Q s.
Proof.
  intros HR HQ. apply post_bind, post_call. intros dead w s1 Hr Hv _.
  assert (signalled sig (view_of s) dead (view_of s1)) as Hs by (by exists w).
  destruct dead; [by apply post_end, HR|by apply HQ].
Qed.

Lemma post_waitpid R pid (Q : option wait_status → lst W → Prop) s :
  (∀ r s', waited pid (view_of s) r (view_of s') → ls_showtime s' = ls_showtime s → Q r s') →
  post F R (waitpid pid) Q s.
Proof.
  intros HQ. apply post_bind, post_call. intros [rang r] w s1 Hw Hv Hs.
  assert (waited pid (view_of s) r (view_of s1)) as H1 by (by exists rang, w).
  apply post_bind. destruct rang; [|by apply HQ]. apply post_bind. unfold post at 1, gets.
  apply post_print. intros s2 Hv2 Hs2. apply HQ; [by rewrite Hv2|congruence].
Qed.

Lemma post_show_time R show t (Q : unit → lst W → Prop) s :
  ls_showtime s = show → (@parent_undefined W _ show t → F) →
  (∀ s', view_of s' = timed show (view_of s) → Q tt s') →
  post F R show_time Q s.
Proof.
  intros Hs HF HQ. apply post_bind. unfold post at 1, gets. rewrite Hs. destruct show; [|by apply HQ].
  apply post_bind. unfold post at 1, ask. simpl. destruct (lo_times (ls_world s)) as [[u c] w] eqn:Ht.
  apply post_bind, post_lift. destruct (decide (LONG_MIN ≤ u + c ≤ LONG_MAX)) as [Hr|Hr].
  - rewrite long_op_ok by done. apply post_print. intros s' Hv _. apply HQ. rewrite Hv. simpl. by rewrite Ht.
  - rewrite long_op_overflow by done. split; [done|]. apply HF. right. right. split; [done|].
    exists (ls_world s). by rewrite Ht.
Qed.

Lemma post_terminated (R : W * list limit_call → process_end → Prop) cmd t m s b :
  ((∃ w, (lo_raise SIGTERM w).1 = false) → F) →
  (∀ y e, terminated cmd t m (view_of s) y e → R y e) →
  post F (ended R) (_ ← fprintf_stderr b; raise SIGTERM)
    (λ _ s', F ∧ ∀ y e, runs_command cmd t m (view_of s') y e → R y e) s.
Proof.
  intros HF HR. apply post_bind, post_print. intros s1 Hv1 _. apply post_raise; rewrite Hv1.
  - intros x1 H1. apply HR. by exists true, x1.
  - intros s2 H2. split; [destruct H2 as (w & Hr & _); apply HF; eexists; by rewrite Hr|].
    intros y e Hy. apply HR. by exists false, (view_of s2).
Qed.

(** After the waits, for a known status. *)
Definition report (status : wait_status) : M (lst W) unit :=
  _ ← match status with
      | WExited code => end_process (EndExit code)
      | WSignaled sig => raise sig
      | WOther => mret tt
      end;
  _ ← fprintf_stderr (str "why3cpulimit: child exited neither normally nor because of a signal" ++ [NEWLINE]);
  raise SIGTERM.

Lemma post_report (R : W * list limit_call → process_end → Prop) cmd t m st s :
  ((∃ w, (lo_raise SIGTERM w).1 = false) → F) →
  (∀ y e, reported cmd t m st (view_of s) y e → R y e) →
  post F (ended R) (report st) (λ _ s', F ∧ ∀ y e, runs_command cmd t m (view_of s') y e → R y e) s.
Proof.
  intros HF HR. unfold report. apply post_bind. destruct st as [sig|code|].
  - apply post_raise.
    + intros x1 H1. apply HR. by exists true, x1.
    + intros s1 H1. apply post_terminated; [done|]. intros y e Hy. apply HR. by exists false, (view_of s1).
  - by apply post_end, HR.
  - by apply post_terminated.
Qed.

(** The waits: a status is known, or no wait gave one and SIGTERM has not ended
    the process. *)
Lemma post_wait_for_child (R : W * list limit_call → process_end → Prop) pid
    (Q : option wait_status → lst W → Prop) s :
  (∀ r1 s1, waited pid (view_of s) r1 (view_of s1) → ls_showtime s1 = ls_showtime s →
     match r1 with
     | Some st => Q (Some st) s1
     | None => ∀ r2 s2, waited pid (killed pid (view_of s1)) r2 (view_of s2) → ls_showtime s2 = ls_showtime s →
         match r2 with
         | Some st => Q (Some st) s2
         | None => (∀ y, signalled SIGTERM (view_of s2) true y → R y (EndKilled SIGTERM)) ∧
                   (∀ s3, signalled SIGTERM (view_of s2) false (view_of s3) → Q None s3)
         end
     end) →
  post F (ended R) (wait_for_child pid) Q s.
Proof.
  intros HQ. apply post_bind, post_waitpid. intros r1 s1 H1 Hs1. specialize (HQ r1 s1 H1 Hs1).
  destruct r1 as [st|]; [done|]. apply post_bind, post_call. intros [] w s2 [= <-] Hv2 Hs2.
  apply post_bind, post_waitpid. intros r2 s3 H3 Hs3. rewrite Hv2 in H3.
  specialize (HQ r2 s3 H3 ltac:(congruence)). destruct r2 as [st|]; [done|]. destruct HQ as [HR HQ].
  apply post_bind, post_print. intros s4 Hv4 _. apply post_bind, post_raise; rewrite Hv4; [done|].
  intros s5 H5. by apply HQ.
Qed.

Lemma wallclock_of_ok t : 0 ≤ t ≤ 2 ^ 62 - 31 → wallclock_of t = Ok (to_int (2 * t + 60)).
Proof.
  intros. unfold wallclock_of. rewrite long_op_ok by (unfold LONG_MIN, LONG_MAX; lia). simpl.
  by rewrite long_op_ok by (unfold LONG_MIN, LONG_MAX; lia).
Qed.

Lemma wallclock_of_overflow t : 2 ^ 62 - 31 < t → wallclock_of t = Fail Undefined.
Proof.
  intros Ht. unfold wallclock_of. destruct (decide (2 * t ≤ LONG_MAX)) as [Hle|Hgt].
  - rewrite long_op_ok by (unfold LONG_MIN; lia). simpl. by rewrite long_op_overflow by (unfold LONG_MAX; lia).
  - by rewrite long_op_overflow by lia.
Qed.

Lemma post_alarm R t (Q : unit → lst W → Prop) s :
  0 ≤ t → (2 ^ 62 - 31 < t → F) →
  (∀ s', view_of s' = alarm_set t (view_of s) → ls_showtime s' = ls_showtime s → Q tt s') →
  post F R (whenM (negb (t =? 0)) (
    t ← lift (wallclock_of t); _ ← set_wallclock t; call_ (LcAlarm (u32 t)) (lo_alarm (u32 t)))) Q s.
Proof.
  intros Ht HF HQ. unfold alarm_set in HQ. destruct (t =? 0); simpl; [by apply HQ|]. apply post_bind, post_lift.
  destruct (decide (t ≤ 2 ^ 62 - 31)).
  - rewrite wallclock_of_ok by lia. apply post_bind. unfold post at 1, set_wallclock, modify.
    apply post_call. intros [] w s' [= <-] Hv Hs. by apply HQ.
  - rewrite wallclock_of_overflow by lia. split; [done|]. apply HF. lia.
Qed.

Lemma post_parent (R : W * list limit_call → process_end → Prop) cmd show t m pid s :
  0 ≤ t → ls_showtime s = show → (@parent_undefined W _ show t → F) →
  (∀ y e, parent_ended cmd show t m pid (view_of s) y e → R y e) →
  post F (ended R) (parent_branch pid t) (λ _ s', F ∧ ∀ y e, runs_command cmd t m (view_of s') y e → R y e) s.
Proof.
  intros Ht Hshow HF HR. apply post_bind, post_alarm; [done|intros; apply HF; by left|]. intros s1 Hv1 Hs1.
  apply post_bind, post_wait_for_child. intros r1 s2 H2 Hs2. rewrite Hv1 in H2.
  destruct r1 as [st|]; [|intros [st|] s3 H3 Hs3].
  - apply post_bind. eapply post_show_time; [by rewrite Hs2, Hs1|done|]. intros s3 Hv3.
    apply (post_report _ cmd t m st); [intros; apply HF; right; by left|]. rewrite Hv3. intros y e Hy. apply HR. by exists (Some st), (view_of s2).
  - apply post_bind. eapply post_show_time; [by rewrite Hs3, Hs1|done|]. intros s4 Hv4.
    apply (post_report _ cmd t m st); [intros; apply HF; right; by left|]. rewrite Hv4. intros y e Hy. apply HR. exists None, (view_of s2).
    split; [done|]. by exists (Some st), (view_of s3).
  - split.
    + intros y Hy. apply HR. exists None, (view_of s2). split; [done|]. by exists None, (view_of s3).
    + intros s4 (w & Hr & _). assert (F) as HF'.
      { apply HF. right. left. eexists. by rewrite Hr. }
      apply post_bind. by eapply (post_show_time _ (ls_showtime s4) t).
Qed.

(** [main] on a command line that asks for limits. *)
Lemma main_asks argv show t m w :
  asks argv show t m →
  main argv (initial_lst w) =
  (_ ← fork_if_requested argv t; _ ← set_limits t m; exec_command argv)
    (Mk_lst 60 show (strcmp_eq (str "-h") (nth 3 argv [])) [] [] None w).
Proof.
  intros (Hl & Hs & Hh & Ht & Hm & Ht0 & Hm0). unfold main.
  destruct (Nat.ltb_spec (length argv) 5); [lia|].
  rewrite Hs, Hh, Ht, Hm. destruct (Z.ltb_spec t 0); [lia|]. by destruct (Z.ltb_spec m 0); [lia|].
Qed.
End unix_props.

(** What follows, for a system where [fork] returns [pid]. *)
Definition after_fork {W} `{LimitOS W} (show : bool) (t : Z) (w : W) : W * list limit_call :=
  if show || negb (t =? 0) then ((lo_fork w).2, [LcFork (lo_fork w).1]) else (w, []).

Lemma post_fork {W} `{LimitOS W} F R argv show t (Q : unit → lst W → Prop) hide w :
  (∀ s, view_of s = after_fork show t w → ls_showtime s = show →
     if show || negb (t =? 0) then
       (lo_fork w).1 ≠ -1 ∧
       (0 < (lo_fork w).1 → post F R (parent_branch (lo_fork w).1 t) Q s) ∧
       ((lo_fork w).1 ≤ 0 → Q tt s)
     else Q tt s) →
  post F R (fork_if_requested argv t) Q (Mk_lst 60 show hide [] [] None w).
Proof.
  unfold after_fork. intros HQ. apply post_bind. unfold post at 1, gets. simpl.
  destruct (show || negb (t =? 0)); [|by apply HQ]. simpl. apply post_bind, post_call.
  intros pid w' s Hf Hv Hs. simpl in Hf. rewrite Hf in HQ. destruct (HQ s Hv Hs) as (Hne & Hpar & Hch).
  destruct (Z.eqb_spec pid (-1)); [done|]. destruct (Z.ltb_spec 0 pid) as [Hp|Hp]; [exact (Hpar Hp)|exact (Hch Hp)].
Qed.

(** A system where [fork] returns in the child. *)
Definition quiet_os : LimitOS unit := {|
  lo_fork w := (0, w);
  lo_alarm _ w := w;
  lo_waitpid _ w := ((false, None), w);
  lo_kill _ _ w := w;
  lo_raise _ w := (true, w);
  lo_times w := ((0, 0), w);
  lo_clk_tck := 100;
  lo_getrlimit _ w := ((0, 77), w);
  lo_setrlimit _ _ w := w;
  lo_exec _ w := (true, w);
  lo_strerror _ := [];
|}.

(** C37: the process that runs the command (the child when cpulimit forks, the
    only process when neither -s nor a time limit asks for a fork) sets exactly
    the limits of the command line - the CPU time, the memory as [m] * 2^20
    bytes, and no core dump as soon as there is a limit -, each with the hard
    limit that getrlimit has just given for it, and then executes argv[4..],
    or exits with EXIT_FAILURE when execvp returns; it makes no other call. A
    memory limit of 2^43 MiB or more overflows the [long] and is undefined. *)
Theorem cpulimit_runs_command {W} `{LimitOS W} argv show t m (w : W) :
  asks argv show t m →
  (show || negb (t =? 0) = true → (lo_fork w).1 = 0) →
  match main argv (initial_lst w) with
  | Exited _ s' => m < 2 ^ 43 ∧ ∃ e, ls_end s' = Some e ∧
      runs_command (drop 4 argv) t m (after_fork show t w) (view_of s') e
  | Failed f => f = Undefined ∧ 2 ^ 43 ≤ m
  | Done _ _ => False
  end.
Proof.
  intros Ha Hf. rewrite (main_asks _ _ _ _ _ Ha). destruct (asks_bounds _ _ _ _ Ha) as [Ht Hm].
  set (Rel := λ y e, m < 2 ^ 43 ∧ runs_command (drop 4 argv) t m (after_fork show t w) y e).
  assert (post (2 ^ 43 ≤ m) (ended Rel) (_ ← fork_if_requested argv t; _ ← set_limits t m; exec_command argv)
    (λ _ _, False) (Mk_lst 60 show (strcmp_eq (str "-h") (nth 3 argv [])) [] [] None w)) as Hpost.
  { apply post_bind, post_fork. intros s Hv _.
    assert (post (2 ^ 43 ≤ m) (ended Rel) (_ ← set_limits t m; exec_command argv) (λ _ _, False) s) as Hc.
    { apply post_command; [done..|]. intros y e Hlt Hy. rewrite Hv in Hy. by split. }
    destruct (show || negb (t =? 0)); [|done]. rewrite Hf by done. split_and!; [done|lia|done]. }
  unfold post in Hpost. case_match; [done| |done].
  destruct Hpost as (e & He & Hlt & Hy). eauto.
Qed.

Lemma cpulimit_runs_command_witness :
  match @main _ quiet_os [str "cpulimit"; str "10"; str "500"; str "-h"; str "z3"; str "f.smt2"] (initial_lst tt) with
  | Exited _ s' => 500 < 2 ^ 43 ∧ ∃ e, ls_end s' = Some e ∧
      @runs_command unit quiet_os [str "z3"; str "f.smt2"] 10 500 (tt, [LcFork 0]) (view_of s') e
  | Failed f => f = Undefined ∧ 2 ^ 43 ≤ 500
  | Done _ _ => False
  end.
Proof.
  apply (@cpulimit_runs_command unit quiet_os
    [str "cpulimit"; str "10"; str "500"; str "-h"; str "z3"; str "f.smt2"] false 10 500 tt).
  - split_and!; try reflexivity; simpl; lia.
  - reflexivity.
Defined.

Example cpulimit_child_sample :
  match @main _ quiet_os [str "cpulimit"; str "10"; str "500"; str "-h"; str "z3"; str "f.smt2"] (initial_lst tt) with
  | Exited _ s => (ls_calls s, ls_end s)
  | _ => ([], None)
  end = ([LcFork 0; LcGetrlimit RLIMIT_CPU 0 77; LcSetrlimit RLIMIT_CPU 10 77;
          LcGetrlimit RLIMIT_AS 0 77; LcSetrlimit RLIMIT_AS 524288000 77;
          LcGetrlimit RLIMIT_CORE 0 77; LcSetrlimit RLIMIT_CORE 0 77; LcExec [str "z3"; str "f.smt2"]],
         Some (EndExec [str "z3"; str "f.smt2"])).
Proof. vm_compute. reflexivity. Qed.

(** C38: when [fork] has returned the pid of the child, the parent sets the
    alarm (if there is a time limit), waits, kills the child and waits again if
    the first wait gave no status, and ends: with the exit code of the child, by
    the signal that ended the child, or by SIGTERM. Two cases are not what the
    code means to do. If SIGTERM does not end the process (it can be inherited
    as ignored) after a status was reported, the parent goes on as the child
    did: it sets the limits on itself and runs the command a second time; if
    there was no status, it reads an uninitialised one. The behaviour is
    undefined in that case, for a time limit beyond 2^62 - 31, when the two
    times overflow clock_t, and, for a memory limit of 2^43 MiB or more, when
    the parent runs the command. In all other cases the parent ends. *)
Theorem cpulimit_parent_reports {W} `{LimitOS W} argv show t m pid (w : W) :
  asks argv show t m → show || negb (t =? 0) = true → (lo_fork w).1 = pid → 0 < pid →
  match main argv (initial_lst w) with
  | Exited _ s' => ∃ e, ls_end s' = Some e ∧
      parent_ended (drop 4 argv) show t m pid ((lo_fork w).2, [LcFork pid]) (view_of s') e
  | Failed f => f = Undefined ∧ @parent_undefined W _ show t
  | Done _ _ => False
  end.
Proof.
  intros Ha Hb Hf Hpid. rewrite (main_asks _ _ _ _ _ Ha). destruct (asks_bounds _ _ _ _ Ha) as [Ht Hm].
  enough (post (@parent_undefined W _ show t)
    (ended (parent_ended (drop 4 argv) show t m pid ((lo_fork w).2, [LcFork pid])))
    (_ ← fork_if_requested argv t; _ ← set_limits t m; exec_command argv) (λ _ _, False)
    (Mk_lst 60 show (strcmp_eq (str "-h") (nth 3 argv [])) [] [] None w)) as Hpost.
  { unfold post in Hpost. by case_match. }
  apply post_bind, post_fork. intros s Hv Hs. unfold after_fork in Hv. rewrite Hb in *. rewrite Hf in *.
  split_and!; [lia| |lia]. intros _.
  eapply post_mono; [apply (post_parent (@parent_undefined W _ show t)
      (parent_ended (drop 4 argv) show t m pid ((lo_fork w).2, [LcFork pid])) (drop 4 argv) show t m pid s);
    [lia|done|done|by rewrite Hv]|done|done|].
  intros _ s1 [HF Hrun]. apply post_command; [done..|]. intros y e _. apply Hrun.
Qed.

(** A system where [fork] returns in the parent, and the child exits with 3. *)
Definition parent_os : LimitOS unit := {|
  lo_fork w := (42, w);
  lo_alarm _ w := w;
  lo_waitpid _ w := ((false, Some (WExited 3)), w);
  lo_kill _ _ w := w;
  lo_raise _ w := (true, w);
  lo_times w := ((5, 1), w);
  lo_clk_tck := 100;
  lo_getrlimit _ w := ((0, 0), w);
  lo_setrlimit _ _ w := w;
  lo_exec _ w := (true, w);
  lo_strerror _ := [];
|}.

Lemma cpulimit_parent_reports_witness :
  match @main _ parent_os [str "cpulimit"; str "10"; str "0"; str "-s"; str "z3"] (initial_lst tt) with
  | Exited _ s' => ∃ e, ls_end s' = Some e ∧
      @parent_ended unit parent_os [str "z3"] true 10 0 42 (tt, [LcFork 42]) (view_of s') e
  | Failed f => f = Undefined ∧ @parent_undefined unit parent_os true 10
  | Done _ _ => False
  end.
Proof.
  apply (@cpulimit_parent_reports unit parent_os
    [str "cpulimit"; str "10"; str "0"; str "-s"; str "z3"] true 10 0 42 tt); try reflexivity.
  split_and!; try reflexivity; simpl; lia.
Defined.

Example cpulimit_parent_sample :
  match @main _ parent_os [str "cpulimit"; str "10"; str "0"; str "-s"; str "z3"] (initial_lst tt) with
  | Exited _ s => (ls_calls s, ls_end s, ls_stderr s)
  | _ => ([], None, [])
  end = ([LcFork 42; LcAlarm 80; LcWaitpid 42 (Some (WExited 3))], Some (EndExit 3),
         [str "why3cpulimit time : 0.060000 s" ++ [NEWLINE]]).
Proof. vm_compute. reflexivity. Qed.

(** When SIGTERM is ignored and a SIGTERM ended the child, the parent sets its
    own limits and runs the command again. *)
Definition ignoring_os : LimitOS unit := {|
  lo_fork w := (42, w);
  lo_alarm _ w := w;
  lo_waitpid _ w := ((false, Some (WSignaled SIGTERM)), w);
  lo_kill _ _ w := w;
  lo_raise _ w := (false, w);
  lo_times w := ((5, 1), w);
  lo_clk_tck := 100;
  lo_getrlimit _ w := ((0, 77), w);
  lo_setrlimit _ _ w := w;
  lo_exec _ w := (true, w);
  lo_strerror _ := [];
|}.

Example cpulimit_sigterm_ignored :
  match @main _ ignoring_os [str "cpulimit"; str "10"; str "0"; str "-h"; str "z3"] (initial_lst tt) with
  | Exited _ s => (ls_calls s, ls_end s)
  | _ => ([], None)
  end = ([LcFork 42; LcAlarm 80; LcWaitpid 42 (Some (WSignaled SIGTERM)); LcRaise SIGTERM false;
          LcRaise SIGTERM false;
          LcGetrlimit RLIMIT_CPU 0 77; LcSetrlimit RLIMIT_CPU 10 77;
          LcGetrlimit RLIMIT_CORE 0 77; LcSetrlimit RLIMIT_CORE 0 77; LcExec [str "z3"]],
         Some (EndExec [str "z3"])).
Proof. vm_compute. reflexivity. Qed.

(** the wall clock limit is a last resort: up to a CPU limit of 1073741793
    seconds it is [2 * t + 60], larger than the CPU limit; beyond that the
    value does not survive the conversion to [int], and the alarm can ring
    before the CPU limit: for 2^31 seconds it rings after 60. *)
Theorem wallclock_last_resort t :
  0 ≤ t ≤ 1073741793 →
  (∃ a, wallclock_of t = Ok a ∧ a = 2 * t + 60 ∧ t < u32 a) ∧
  wallclock_of (2 ^ 31) = Ok 60.
Proof.
  intros Ht. split; [|reflexivity]. exists (2 * t + 60). rewrite wallclock_of_ok by lia.
  rewrite to_int_small by (unfold INT_MAX; lia). rewrite u32_small by (unfold UINT_MOD; lia).
  split_and!; [done..|lia].
Qed.

Lemma wallclock_last_resort_witness :
  (∃ a, wallclock_of 10 = Ok a ∧ a = 2 * 10 + 60 ∧ 10 < u32 a) ∧ wallclock_of (2 ^ 31) = Ok 60.
Proof. apply (wallclock_last_resort 10). lia. Defined.
