(* ===== verification/CpuLimitWin.v ===== *)
(** * cpulimit on Windows (src/server/cpulimit-win.c)

    The program as a computation on its globals, the world, the text it printed
    and the command line of the process it created. *)

From S2P Require Import Prelude CMem UnixOS WinOS CmdLine CpuLimit.
From Stdlib Require Import Floats.SpecFloat.

(** ** strtol with its end pointer, for a [long] of 32 bits *)

Fixpoint skip_digits (b : bytes) : bytes :=
  match b with
  | c :: b' => if isdigit c then skip_digits b' else b
  | [] => []
  end.

(** Without the optional sign. *)
Definition skip_sign (b : bytes) : bytes :=
  match b with
  | c :: b' => if bool_decide (c = "-"%char) || bool_decide (c = "+"%char) then b' else b
  | [] => []
  end.

(** What is left after the number; the whole text when there are no digits. *)
Definition strtol_end (b : bytes) : bytes :=
  match skip_sign (skip_space (c_str b)) with
  | c :: b' => if isdigit c then skip_digits b' else c_str b
  | [] => c_str b
  end.

Definition strtol32 (b : bytes) : Z := Z.max INT_MIN (Z.min INT_MAX (strtol10 b)).

(** ** The program *)

Record cst (W : Type) := Mk_cst {
  c_job : option Z;                (* ghJob *)
  c_pi : option (Z * Z);           (* pi, None while it is zeroed *)
  c_output : list bytes;         (* to stdout and stderr *)
  c_started : option bytes;        (* the command line of the process created *)
  c_world : W;
}.
Arguments Mk_cst {_} _ _ _ _ _.
Arguments c_job {_} _.
Arguments c_pi {_} _.
Arguments c_output {_} _.
Arguments c_started {_} _.
Arguments c_world {_} _.

(** The limits asked for, as the fields of the job. *)
Definition cpulimit_limits (time_limit memory_limit : Z) : res job_limits :=
  memory ← (if memory_limit =? 0 then mret None
            else m ← long_op (1024 * 1024 * memory_limit); mret (Some (u64 m)));
  mret (Mk_limits (if time_limit =? 0 then None else Some (u64 (1000 * 1000 * 10 * time_limit))) memory).

(** The block of the command line, when [malloc(s)] gives one: [*p = 0], and
    the loop. *)
Definition build_cmdline (args : list bytes) (s : Z) : res (list (option ascii)) :=
  p ← arr_alloc s;
  p ← arr_set p 0 NUL;
  concat_args p args.

Section program.
Context {W : Type} `{OS : WinOS W} (FormatMessage : Z → bytes) (malloc_fails : Z → bool).
Local Abbreviation U := (M (cst W)).

Definition sys {A} (f : W → A * W) : U A := λ s,
  let '(a, w) := f (c_world s) in Done a (Mk_cst (c_job s) (c_pi s) (c_output s) (c_started s) w).
Definition sys_ (f : W → W) : U unit := sys (λ w, (tt, f w)).
Definition printf (b : bytes) : U unit := modify (λ s,
  Mk_cst (c_job s) (c_pi s) (c_output s ++ [b]) (c_started s) (c_world s)).
Definition set_job (j : option Z) : U unit := modify (λ s,
  Mk_cst j (c_pi s) (c_output s) (c_started s) (c_world s)).
Definition set_pi (pi : Z * Z) (cmd : bytes) : U unit := modify (λ s,
  Mk_cst (c_job s) (Some pi) (c_output s) (Some cmd) (c_world s)).

Definition ErrorReport (function : string) : U unit :=
  error ← gets (λ s, wos_last_error (c_world s));
  printf (str "Fatal: " ++ str function ++ str " failed with error " ++ dec error ++ str ": " ++
    FormatMessage error).

(** The handler of console signals. *)
Definition terminates : U unit :=
  pi ← gets c_pi;
  job ← gets c_job;
  let '(hProcess, hThread) := default (0, 0) pi in
  _ ← sys_ (wos_terminate_process hProcess 10);
  _ ← sys_ (wos_close_handle (Some hProcess));
  _ ← sys_ (wos_close_handle (Some hThread));
  sys_ (wos_close_handle job).

Definition ConsoleHandler : U unit :=
  _ ← printf (str "Got signal from console: killing subprocess" ++ [NEWLINE]);
  terminates.

Definition usage_text (argv0 : bytes) : bytes :=
  str "usage: " ++ argv0 ++ str " <time limit in seconds> <virtual memory limit in MiB>" ++ [NEWLINE] ++
  str "          <show/hide cpu time: -s|-h> <command> <args>..." ++ [NEWLINE; NEWLINE] ++
  str "Zero sets no limit (keeps the actual limit)" ++ [NEWLINE].

Definition set_job_limits (time_limit memory_limit : Z) : U unit :=
  if negb (time_limit =? 0) || negb (memory_limit =? 0) then
    lim ← lift (cpulimit_limits time_limit memory_limit);
    job ← gets c_job;
    ok ← sys (wos_set_limits job lim);
    if ok : bool then mret tt
    else
      _ ← ErrorReport "SetInformationJobObject";
      exit EXIT_FAILURE
  else mret tt.

Definition create_child (argv0 cmdline : bytes) : U (Z * Z) :=
  pi ← sys (wos_create_process cmdline (Mk_si None None None));
  match pi with
  | None =>
      _ ← printf (argv0 ++ str ": Error: failed when launching <" ++ cmdline ++ str ">" ++ [NEWLINE]);
      _ ← ErrorReport "CreateProcess";
      exit EXIT_FAILURE
  | Some pi =>
      _ ← set_pi pi cmdline;
      job ← gets c_job;
      ok ← sys (wos_assign_process job pi.1);
      if ok : bool then mret pi
      else
        _ ← ErrorReport "AssignProcessToJobObject";
        exit EXIT_FAILURE
  end.

Definition report_wait (w : wait_outcome) : U unit :=
  match w with
  | WAIT_FAILED => printf (str "Wait failed")
  | WAIT_TIMEOUT => printf (str "Wait timeout")
  | WAIT_OBJECT_0 => mret tt
  | WAIT_ABANDONED => printf (str "Wait abandonned")
  end.

Definition show_times (hProcess : Z) : U unit :=
  t ← sys (wos_get_process_times hProcess);
  printf (str "why3cpulimit time : " ++ fmt_f (ticks_to_seconds (pt_system t + pt_user t)) ++
    str " s" ++ [NEWLINE] ++ str "why3cpulimit real time : " ++
    fmt_f (ticks_to_seconds (pt_stop t - pt_start t)) ++ str " s" ++ [NEWLINE]).

(** From the command line on. *)
Definition run_child (argv0 : bytes) (args : list bytes) (showtime : bool) (time_limit memory_limit : Z) : U Z :=
  let s := cmdline_size args 0 in
  if 32767 <? s then
    _ ← printf (argv0 ++ str ": Error: parameter's length exceeds CreateProcess limits" ++ [NEWLINE]);
    exit EXIT_FAILURE
  else if malloc_fails s then
    _ ← printf (argv0 ++ str ": Error: when allocating " ++ dec (to_int s) ++ str " bytes in memory" ++ [NEWLINE]);
    exit EXIT_FAILURE
  else
    p ← lift (build_cmdline args s);
    cmdline ← lift (buf_text p);
    _ ← set_job_limits time_limit memory_limit;
    '(hProcess, hThread) ← create_child argv0 cmdline;
    _ ← sys_ (wos_resume_thread hThread);
    w ← sys (wos_wait hProcess);
    _ ← report_wait w;
    ex ← sys (wos_get_exit_code hProcess);
    _ ← whenM showtime (show_times hProcess);
    _ ← sys_ (wos_close_handle (Some hProcess));
    _ ← sys_ (wos_close_handle (Some hThread));
    job ← gets c_job;
    _ ← sys_ (wos_close_handle job);
    mret (match w with WAIT_TIMEOUT => 152 | _ => ex end).

Definition main (argv : list bytes) : U Z :=
  let argv0 := nth 0 argv [] in
  job ← sys wos_create_job_object;
  _ ← set_job job;
  _ ← match job with None => ErrorReport "CreateJobObject" | Some _ => mret tt end;
  let error := (length argv <? 5)%nat ||
    negb (bool_decide (strtol_end (nth 1 argv []) = [])) ||
    negb (bool_decide (strtol_end (nth 2 argv []) = [])) in
  let showtime := strncmp_eq 3 (str "-s") (nth 3 argv []) in
  let hidetime := strncmp_eq 3 (str "-h") (nth 3 argv []) in
  if error || negb (showtime || hidetime) then
    _ ← printf (usage_text argv0);
    exit EXIT_FAILURE
  else
    run_child argv0 (drop 4 argv) showtime (strtol32 (nth 1 argv [])) (strtol32 (nth 2 argv [])).
End program.

(** ** Lemmas *)

Lemma strtol32_bounds b : INT_MIN ≤ strtol32 b ≤ INT_MAX.
Proof. unfold strtol32, INT_MIN, INT_MAX. lia. Qed.

Lemma cpulimit_limits_ok t m :
  INT_MIN ≤ m ≤ INT_MAX → ∃ lim, cpulimit_limits t m = Ok lim.
Proof.
  unfold INT_MIN, INT_MAX. intros Hm. unfold cpulimit_limits. destruct (m =? 0); simpl; [eauto|].
  rewrite long_op_ok by (unfold LONG_MIN, LONG_MAX; lia). simpl. eauto.
Qed.

(** The block is filled to its last cell. *)
Lemma build_cmdline_ok args :
  args ≠ [] → cmdline_size args 0 ≤ 32767 →
  Z.of_nat (sum_list_with (λ a, length (c_str a) + 3)%nat args) < UINT_MOD →
  ∃ p, build_cmdline args (cmdline_size args 0) = Ok p ∧ holds_str p (winlimit_text args) 0.
Proof.
  intros Hne Hs Hlt. rewrite cmdline_size_sum in * by lia. rewrite Z.add_0_l in *.
  pose proof (length_winlimit_text args Hne) as Hl. unfold build_cmdline.
  rewrite arr_alloc_ok by (unfold alloc_limit; lia). cbn [mbind res_bind].
  rewrite arr_set_ok by (rewrite length_replicate; lia). cbn [mbind res_bind].
  set (s := sum_list_with _ args) in *. destruct (Z.to_nat (Z.of_nat s)) as [|n] eqn:Hn; [lia|].
  assert (holds_str (<[Z.to_nat 0 := Some NUL]> (replicate (S n) None)) [] n) as Hb.
  { split; [unfold no_nul; set_solver|]. exists (replicate n None). split; [done|apply length_replicate]. }
  pose proof (concat_args_appends args _ _ _ Hb) as Happ. simpl in Happ.
  destruct (concat_args _ args) as [p|f].
  - exists p. split; [done|]. destruct Happ as [Hh _]. by replace (n - length (winlimit_text args))%nat with O in Hh by lia.
  - destruct Happ. lia.
Qed.

(** ** What the program promises *)

(** The command line is not one of those of the usage text. *)
Definition bad_usage (argv : list bytes) : Prop :=
  (length argv < 5)%nat ∨ strtol_end (nth 1 argv []) ≠ [] ∨ strtol_end (nth 2 argv []) ≠ [] ∨
  strncmp_eq 3 (str "-s") (nth 3 argv []) || strncmp_eq 3 (str "-h") (nth 3 argv []) = false.

(** The limits of the job: the CPU time in ticks of 100 ns and the memory in
    bytes, none for a 0. *)
Definition limits_of (t m : Z) : job_limits := Mk_limits
  (if t =? 0 then None else Some (u64 (10 ^ 7 * t)))
  (if m =? 0 then None else Some (u64 (2 ^ 20 * m))).

(** What the arguments ask for. *)
Definition time_asked (argv : list bytes) : Z := strtol32 (nth 1 argv []).
Definition memory_asked (argv : list bytes) : Z := strtol32 (nth 2 argv []).
Definition times_asked (argv : list bytes) : bool := strncmp_eq 3 (str "-s") (nth 3 argv []).
Definition command_asked (argv : list bytes) : bytes := winlimit_text (drop 4 argv).

Section win_spec.
Context {W : Type} `{OS : WinOS W} (malloc_fails : Z → bool) (argv : list bytes).

(** The limits are set from [w] to [w'] on [job], with the given reply; there is
    no call when both are 0. *)
Definition limits_reply (job : option Z) (w : W) (ok : bool) (w' : W) : Prop :=
  if (time_asked argv =? 0) && (memory_asked argv =? 0) then ok = true ∧ w' = w
  else wos_set_limits job (limits_of (time_asked argv) (memory_asked argv)) w = (ok, w').

(** The process is created from [w], after its job and the limits of that job. *)
Definition process_created (w : W) (job : option Z) (pi : Z * Z) (w' : W) : Prop := ∃ w1 w2,
  wos_create_job_object w = (job, w1) ∧ limits_reply job w1 true w2 ∧
  wos_create_process (command_asked argv) (Mk_si None None None) w2 = (Some pi, w').

(** The process has run in its job, the program returns [r], and the handles
    are closed. *)
Definition process_ran (w : W) (r : Z) (w' : W) : Prop := ∃ job hp ht w1 w2 o w3 ex w4,
  process_created w job (hp, ht) w1 ∧ wos_assign_process job hp w1 = (true, w2) ∧
  wos_wait hp (wos_resume_thread ht w2) = (o, w3) ∧ wos_get_exit_code hp w3 = (ex, w4) ∧
  r = (match o with WAIT_TIMEOUT => 152 | _ => ex end) ∧
  w' = wos_close_handle job (wos_close_handle (Some ht) (wos_close_handle (Some hp)
         (if times_asked argv then (wos_get_process_times hp w4).2 else w4))).

(** Why the program ends before the process could run: the usage, a command
    line that is too long or not allocated, or a call that failed. *)
Definition not_started (w : W) : Prop :=
  bad_usage argv ∨ 32767 < cmdline_size (drop 4 argv) 0 ∨ malloc_fails (cmdline_size (drop 4 argv) 0) = true ∨
  ∃ job w1 w2, wos_create_job_object w = (job, w1) ∧
    (limits_reply job w1 false w2 ∨
     limits_reply job w1 true w2 ∧ (wos_create_process (command_asked argv) (Mk_si None None None) w2).1 = None).
Definition not_assigned (w : W) : Prop := ∃ job pi w1,
  process_created w job pi w1 ∧ (wos_assign_process job pi.1 w1).1 = false.

Definition refused (w : W) (s : cst W) : Prop :=
  not_started w ∧ c_started s = None ∨ not_assigned w ∧ c_started s = Some (command_asked argv).

(** The early exits of the specification. *)
Definition refusals (w : W) (x : stop (cst W)) : Prop :=
  match x with SExit code s => code = EXIT_FAILURE ∧ refused w s | _ => False end.
End win_spec.

Lemma cpulimit_limits_of t m :
  INT_MIN ≤ m ≤ INT_MAX → cpulimit_limits t m = Ok (limits_of t m).
Proof.
  unfold INT_MIN, INT_MAX. intros Hm. unfold cpulimit_limits, limits_of. destruct (m =? 0); simpl; [done|].
  rewrite long_op_ok by (unfold LONG_MIN, LONG_MAX; lia). simpl. done.
Qed.

Section outcomes.
Context {W : Type} `{OS : WinOS W} (FormatMessage : Z → bytes) (malloc_fails : Z → bool) (E : stop (cst W) → Prop).

(** A call: only the world changes. *)
Lemma wp_sys {A} (f : W → A * W) (Q : A → cst W → Prop) s :
  (∀ a w, f (c_world s) = (a, w) → Q a (Mk_cst (c_job s) (c_pi s) (c_output s) (c_started s) w)) →
  wp E (sys f) Q s.
Proof. intros HQ. unfold wp, sys. destruct (f (c_world s)). by apply HQ. Qed.

Lemma wp_sys_ (f : W → W) (Q : unit → cst W → Prop) s :
  Q tt (Mk_cst (c_job s) (c_pi s) (c_output s) (c_started s) (f (c_world s))) → wp E (sys_ f) Q s.
Proof. done. Qed.

Lemma wp_printf b (Q : unit → cst W → Prop) s :
  (∀ o, Q tt (Mk_cst (c_job s) (c_pi s) o (c_started s) (c_world s))) → wp E (printf b) Q s.
Proof. intros HQ. apply HQ. Qed.

Lemma wp_error_report f (Q : unit → cst W → Prop) s :
  (∀ o, Q tt (Mk_cst (c_job s) (c_pi s) o (c_started s) (c_world s))) →
  wp E (ErrorReport FormatMessage f) Q s.
Proof. intros HQ. apply HQ. Qed.

Lemma wp_refuse {A} f (Q : A → cst W → Prop) s :
  (∀ o, E (SExit EXIT_FAILURE (Mk_cst (c_job s) (c_pi s) o (c_started s) (c_world s)))) →
  wp E (_ ← ErrorReport FormatMessage f; exit EXIT_FAILURE) Q s.
Proof. intros HE. apply wp_bind, wp_error_report. intros o. apply HE. Qed.

Lemma wp_set_job_limits argv (Q : unit → cst W → Prop) s :
  (∀ ok s', limits_reply argv (c_job s) (c_world s) ok (c_world s') →
     c_job s' = c_job s → c_started s' = c_started s →
     if ok : bool then Q tt s' else E (SExit EXIT_FAILURE s')) →
  wp E (set_job_limits FormatMessage (time_asked argv) (memory_asked argv)) Q s.
Proof.
  intros HQ. unfold limits_reply in HQ. unfold set_job_limits. rewrite <- negb_andb.
  destruct ((time_asked argv =? 0) && (memory_asked argv =? 0)); [by apply (HQ true)|].
  apply wp_bind, wp_lift. rewrite cpulimit_limits_of by apply strtol32_bounds.
  apply wp_bind, wp_gets, wp_bind, wp_sys. intros ok w Hok. destruct ok; [by apply (HQ true)|].
  apply wp_refuse. intros o. by apply (HQ false).
Qed.

Lemma wp_create_child argv0 cmd (Q : Z * Z → cst W → Prop) s :
  (∀ w, (wos_create_process cmd (Mk_si None None None) (c_world s)).1 = None →
     ∀ o, E (SExit EXIT_FAILURE (Mk_cst (c_job s) (c_pi s) o (c_started s) w))) →
  (∀ pi w1, wos_create_process cmd (Mk_si None None None) (c_world s) = (Some pi, w1) →
     ∀ ok s', wos_assign_process (c_job s) pi.1 w1 = (ok, c_world s') →
     c_job s' = c_job s → c_started s' = Some cmd →
     if ok : bool then Q pi s' else E (SExit EXIT_FAILURE s')) →
  wp E (create_child FormatMessage argv0 cmd) Q s.
Proof.
  intros Hnone Hsome. apply wp_bind, wp_sys. intros [pi|] w1 Hc.
  - apply wp_bind, wp_modify, wp_bind, wp_gets, wp_bind, wp_sys. intros ok w2 Ha. simpl in Ha.
    pose proof (λ o, Hsome pi w1 Hc ok (Mk_cst (c_job s) (Some pi) o (Some cmd) w2) Ha eq_refl eq_refl) as HQ.
    destruct ok; [exact (HQ _)|]. apply wp_refuse. intros o. exact (HQ o).
  - apply wp_bind, wp_printf. intros o. apply wp_refuse. intros o'. apply Hnone. by rewrite Hc.
Qed.

(** The program from the process on. *)
Definition finish_child (showtime : bool) (hProcess hThread : Z) : M (cst W) Z :=
  _ ← sys_ (wos_resume_thread hThread);
  w ← sys (wos_wait hProcess);
  _ ← report_wait w;
  ex ← sys (wos_get_exit_code hProcess);
  _ ← whenM showtime (show_times hProcess);
  _ ← sys_ (wos_close_handle (Some hProcess));
  _ ← sys_ (wos_close_handle (Some hThread));
  job ← gets (@c_job W);
  _ ← sys_ (wos_close_handle job);
  mret (match w with WAIT_TIMEOUT => 152 | _ => ex end).

Lemma wp_finish_child (showtime : bool) hp ht (Q : Z → cst W → Prop) s :
  (∀ o w1 ex w2 s', wos_wait hp (wos_resume_thread ht (c_world s)) = (o, w1) → wos_get_exit_code hp w1 = (ex, w2) →
     c_world s' = wos_close_handle (c_job s) (wos_close_handle (Some ht) (wos_close_handle (Some hp)
       (if showtime then (wos_get_process_times hp w2).2 else w2))) →
     c_started s' = c_started s → Q (match o with WAIT_TIMEOUT => 152 | _ => ex end) s') →
  wp E (finish_child showtime hp ht) Q s.
Proof.
  intros HQ. apply wp_bind, wp_sys_, wp_bind, wp_sys. intros o w1 Ho. simpl in Ho. apply wp_bind.
  eapply (wp_mono _ _ (λ _ s1, c_world s1 = w1 ∧ c_job s1 = c_job s ∧ c_started s1 = c_started s)); [by destruct o|].
  intros _ s1 (Hw1 & Hj1 & Hs1). apply wp_bind, wp_sys. intros ex w2 Hex. rewrite Hw1 in Hex. apply wp_bind.
  eapply (wp_mono _ _ (λ _ s2, c_world s2 = (if showtime then (wos_get_process_times hp w2).2 else w2) ∧
    c_job s2 = c_job s ∧ c_started s2 = c_started s)).
  { destruct showtime; [|done]. apply wp_bind, wp_sys. intros pt w3 Hpt. simpl in *. apply wp_printf. intros o'.
    by rewrite Hpt. }
  intros _ s2 (Hw2 & Hj2 & Hs2). apply wp_bind, wp_sys_, wp_bind, wp_sys_, wp_bind, wp_gets, wp_bind, wp_sys_.
  eapply HQ; [done|done| |done]. simpl. by rewrite Hw2, Hj2.
Qed.
End outcomes.

Section correct.
Context {W : Type} `{OS : WinOS W} (FormatMessage : Z → bytes) (malloc_fails : Z → bool) (argv : list bytes) (w : W).

Lemma wp_run_child argv0 (Q : Z → cst W → Prop) s :
  (5 ≤ length argv)%nat →
  Z.of_nat (sum_list_with (λ a, length (c_str a) + 3)%nat (drop 4 argv)) < UINT_MOD →
  wos_create_job_object w = (c_job s, c_world s) → c_started s = None →
  (∀ r s', process_ran argv w r (c_world s') → c_started s' = Some (command_asked argv) → Q r s') →
  wp (refusals malloc_fails argv w) (run_child FormatMessage malloc_fails argv0 (drop 4 argv) (times_asked argv)
    (time_asked argv) (memory_asked argv)) Q s.
Proof.
  intros Hlen Hlt Hjob Hs HQ. unfold run_child.
  destruct (Z.ltb_spec 32767 (cmdline_size (drop 4 argv) 0)) as [Hlong|Hlong].
  { split; [done|]. left. split; [right; by left|done]. }
  destruct (malloc_fails _) eqn:Hm.
  { split; [done|]. left. split; [right; right; by left|done]. }
  assert (drop 4 argv ≠ []) as Hne.
  { intros Hd. apply (f_equal length) in Hd. rewrite length_drop in Hd. simpl in Hd. lia. }
  destruct (build_cmdline_ok _ Hne Hlong Hlt) as (p & -> & Hp).
  apply wp_bind, wp_lift, wp_bind, wp_lift. rewrite (buf_text_holds _ _ _ Hp).
  apply wp_bind, wp_set_job_limits. intros [] s1 Hl Hj1 Hs1.
  2: { split; [done|]. left. split; [|by rewrite Hs1]. do 3 right. do 3 eexists. split; [exact Hjob|]. by left. }
  apply wp_bind, wp_create_child.
  - intros w2 Hc o. split; [done|]. left. split; [|by rewrite <- Hs, <- Hs1]. do 3 right. do 3 eexists.
    split; [exact Hjob|]. right. split; [exact Hl|exact Hc].
  - intros [hp ht] w2 Hc ok s2 Ha Hj2 Hs2. rewrite Hj1 in Ha, Hj2.
    assert (process_created argv w (c_job s) (hp, ht) w2) as Hcr by (do 2 eexists; split_and!; [exact Hjob|exact Hl|exact Hc]).
    destruct ok.
    + eapply (wp_finish_child _ (times_asked argv) hp ht). intros o w3 ex w4 s3 Ho Hex Hw Hs3.
      apply HQ; [|by rewrite Hs3]. exists (c_job s), hp, ht, w2, (c_world s2), o, w3, ex, w4.
      rewrite Hj2 in Hw. split_and!; done.
    + split; [done|]. right. split; [|done]. exists (c_job s), (hp, ht), w2. split; [done|]. by rewrite Ha.
Qed.

Lemma wp_main :
  Z.of_nat (sum_list_with (λ a, length (c_str a) + 3)%nat (drop 4 argv)) < UINT_MOD →
  wp (refusals malloc_fails argv w) (main FormatMessage malloc_fails argv)
    (λ r s, process_ran argv w r (c_world s) ∧ c_started s = Some (command_asked argv))
    (Mk_cst None None [] None w).
Proof.
  intros Hlt. apply wp_bind, wp_sys. intros job w1 Hjob. apply wp_bind, wp_modify, wp_bind.
  eapply (wp_mono _ _ (λ _ s, c_job s = job ∧ c_world s = w1 ∧ c_started s = None)).
  { destruct job; [done|]. by apply wp_error_report. }
  intros _ s (Hj & Hw & Hs). assert (∀ o, bad_usage argv →
    refusals malloc_fails argv w (SExit EXIT_FAILURE (Mk_cst (c_job s) (c_pi s) o (c_started s) (c_world s)))) as Hbad.
  { intros o Hb. split; [done|]. left. split; [by left|done]. }
  cbv beta zeta. match goal with |- wp _ (if ?b then _ else _) _ _ => destruct b eqn:Hg end.
  - apply wp_bind, wp_printf. intros o. apply Hbad. unfold bad_usage.
    destruct (Nat.ltb_spec (length argv) 5); [by left|]. right.
    destruct (decide (strtol_end (nth 1 argv []) = [])) as [E1|]; [right|by left].
    destruct (decide (strtol_end (nth 2 argv []) = [])) as [E2|]; [right|by left].
    rewrite !bool_decide_eq_true_2 in Hg by done. simpl in Hg. by apply negb_true_iff.
  - destruct (Nat.ltb_spec (length argv) 5); [done|]. eapply wp_run_child; [done|done|by rewrite Hj, Hw|done|done].
Qed.
End correct.

(** A system where the process runs and exits with 7. *)
Definition running_win : WinOS unit := {|
  wos_close_handle _ w := w;
  wos_last_error _ := 0;
  wos_basename b := b;
  wos_getcwd w := (None, w);
  wos_create_port _ _ _ w := (None, w);
  wos_create_event w := (0, w);
  wos_create_named_pipe _ w := (None, w);
  wos_connect_named_pipe _ _ w := (false, w);
  wos_get_temp_file_name _ w := ((0, []), w);
  wos_create_file _ _ w := (None, w);
  wos_create_job_object w := (Some 1, w);
  wos_set_limits _ _ w := (true, w);
  wos_set_port _ _ _ w := (false, w);
  wos_create_process _ _ w := (Some (2, 3), w);
  wos_assign_process _ _ w := (true, w);
  wos_resume_thread _ w := w;
  wos_terminate_process _ _ w := w;
  wos_read_file _ _ _ _ w := w;
  wos_write_file _ _ _ w := w;
  wos_wait _ w := (WAIT_OBJECT_0, w);
  wos_get_exit_code _ w := (7, w);
  wos_get_process_times _ w := (Mk_times 0 0 0 0, w);
  wos_get_packet _ w := (Mk_packet false 0 0 OvOther None, w);
  wos_fopen_log w := (false, w);
|}.

(** C39: cpulimit on Windows, when the lengths of the arguments from argv[4] on,
    with 3 more for each, add up to less than 2^32. It never writes outside the
    block it allocates for the command line, which its text fills exactly, and
    no other undefined behaviour occurs. Either the process runs, with the
    command line made of the arguments from argv[4] on, each between double
    quotes, separated by spaces, in a job that has exactly the limits asked for
    (10^7 ticks a second, 2^20 bytes a MiB, none for a 0), and the result is
    its exit code, or 152 if the wait reports a timeout; or the program exits
    with EXIT_FAILURE, which it does only for a bad usage, a command line that
    is too long, a malloc that returns NULL, or a call that failed, and then
    no process was created, except when assigning it to the job is the call
    that failed. *)
Theorem cpulimit_win_command {W} `{WinOS W} FormatMessage malloc_fails argv (w : W) :
  Z.of_nat (sum_list_with (λ a, length (c_str a) + 3)%nat (drop 4 argv)) < UINT_MOD →
  match main FormatMessage malloc_fails argv (Mk_cst None None [] None w) with
  | Done r s => process_ran argv w r (c_world s) ∧ c_started s = Some (command_asked argv)
  | Exited code s => code = EXIT_FAILURE ∧ refused malloc_fails argv w s
  | Failed _ => False
  end.
Proof.
  intros Hlt. pose proof (wp_main FormatMessage malloc_fails argv w Hlt) as Hwp. unfold wp in Hwp.
  by destruct (main _ _ _ _) as [r s|c s|[]].
Qed.

Lemma cpulimit_win_command_witness :
  match @main unit running_win (λ _, []) (λ _, false) [str "cpulimit"; str "10"; str "500"; str "-s"; str "z3"; str "a b"]
      (Mk_cst None None [] None tt) with
  | Done r s => r = 7 ∧ c_started s = Some (winlimit_text [str "z3"; str "a b"])
  | _ => False
  end.
Proof.
  pose proof (@cpulimit_win_command unit running_win (λ _, []) (λ _, false)
    [str "cpulimit"; str "10"; str "500"; str "-s"; str "z3"; str "a b"] tt ltac:(by_computation)) as H.
  destruct (main _ _ _ _) as [r s|c s|f] eqn:E; [|vm_compute in E; discriminate E|exact H].
  destruct H as [(job & hp & ht & w1 & w2 & o & w3 & ex & w4 & _ & _ & Ho & Hex & Hr & _) Hs].
  split; [|exact Hs]. simpl in Ho, Hex. injection Ho as <-. injection Hex as <-. exact Hr.
Defined.

(** A double quote in an argument is not escaped: the child sees other
    arguments than those given. *)
Example cpulimit_win_quote :
  msvc_split (winlimit_text [[QUOTE]; str "x y"]) 0 false None ≠ [[QUOTE]; str "x y"].
Proof. vm_compute. discriminate. Qed.
