(* ===== verification/Limbs.v ===== *)
(** * Limbs (macros of examples/multiprecision/mini-gmp/mini-gmp.c, and
    examples/multiprecision/overlays/uint64gmp.h)

    A limb is a 64-bit unsigned integer: an integer in [[0, B)], with every
    operation of the sources reduced modulo [B] as in C. The file holds the
    one-limb and two-limb arithmetic: counting zeros, double-width addition,
    subtraction and multiplication, and the divisions of two limbs by one. *)

From S2P Require Import Prelude.

Create Rewrite HintDb limbs.

Definition B : Z := 18446744073709551616.
Definition GMP_LIMB_BITS : Z := 64.
Definition GMP_LIMB_MAX : Z := B - 1.
Definition GMP_LIMB_HIGHBIT : Z := 9223372036854775808.
Definition GMP_HLIMB_BIT : Z := 4294967296.
Definition GMP_LLIMB_MASK : Z := 4294967295.

Definition limb (x : Z) : Prop := 0 ≤ x < B.

(** C operators on limbs. *)
Definition ladd (x y : Z) : Z := u64 (x + y).
Definition lsub (x y : Z) : Z := u64 (x - y).
Definition lmul (x y : Z) : Z := u64 (x * y).
Definition lnot (x : Z) : Z := B - 1 - x.
Definition lneg (x : Z) : Z := u64 (- x).
Definition lshl (x n : Z) : Z := u64 (Z.shiftl x n).
Definition lshr (x n : Z) : Z := Z.shiftr x n.
Definition b2l (b : bool) : Z := if b then 1 else 0.

(** ** Macros of mini-gmp.c *)

(** The two loops of gmp_clz. *)
Fixpoint clz_bytes (fuel : nat) (x c : Z) : res (Z * Z) :=
  match fuel with
  | O => Fail Undefined
  | S n => if Z.land x (lshl 255 56) =? 0 then clz_bytes n (lshl x 8) (c + 8) else mret (x, c)
  end.
Fixpoint clz_bits (fuel : nat) (x c : Z) : res Z :=
  match fuel with
  | O => Fail Undefined
  | S n => if Z.land x GMP_LIMB_HIGHBIT =? 0 then clz_bits n (lshl x 1) (c + 1) else mret c
  end.

(** The loops do not end for 0; 64 turns are enough for the others. *)
Definition gmp_clz (x : Z) : res Z :=
  '(x, c) ← clz_bytes 64 x 0;
  clz_bits 64 x c.

Definition gmp_ctz (x : Z) : res Z :=
  c ← gmp_clz (Z.land x (lneg x));
  mret (GMP_LIMB_BITS - 1 - c).

Definition gmp_add_ssaaaa (ah al bh bl : Z) : Z * Z :=
  let x := ladd al bl in
  (ladd (ladd ah bh) (b2l (x <? al)), x).

Definition gmp_sub_ddmmss (ah al bh bl : Z) : Z * Z :=
  let x := lsub al bl in
  (lsub (lsub ah bh) (b2l (al <? bl)), x).

Definition gmp_umul_ppmm (u v : Z) : Z * Z :=
  let ul := u32 (Z.land u GMP_LLIMB_MASK) in
  let uh := u32 (lshr u 32) in
  let vl := u32 (Z.land v GMP_LLIMB_MASK) in
  let vh := u32 (lshr v 32) in
  let x0 := lmul ul vl in
  let x1 := lmul ul vh in
  let x2 := lmul uh vl in
  let x3 := lmul uh vh in
  let x1 := ladd x1 (lshr x0 32) in
  let x1 := ladd x1 x2 in
  let x3 := if x1 <? x2 then ladd x3 GMP_HLIMB_BIT else x3 in
  (ladd x3 (lshr x1 32), ladd (lshl x1 32) (Z.land x0 GMP_LLIMB_MASK)).

(** The results are the quotient and the remainder. *)
Definition gmp_udiv_qrnnd_preinv (nh nl d di : Z) : Z * Z :=
  let '(qh, ql) := gmp_umul_ppmm nh di in
  let '(qh, ql) := gmp_add_ssaaaa qh ql (ladd nh 1) nl in
  let r := lsub nl (lmul qh d) in
  let mask := lneg (b2l (ql <? r)) in
  let qh := ladd qh mask in
  let r := ladd r (Z.land mask d) in
  if d <=? r then (ladd qh 1, lsub r d) else (qh, r).

Definition gmp_udiv_qr_3by2 (n2 n1 n0 d1 d0 dinv : Z) : Z * Z * Z :=
  let '(q, q0) := gmp_umul_ppmm n2 dinv in
  let '(q, q0) := gmp_add_ssaaaa q q0 n2 n1 in
  let r1 := lsub n1 (lmul d1 q) in
  let '(r1, r0) := gmp_sub_ddmmss r1 n0 d1 d0 in
  let '(t1, t0) := gmp_umul_ppmm d0 q in
  let '(r1, r0) := gmp_sub_ddmmss r1 r0 t1 t0 in
  let q := ladd q 1 in
  let mask := lneg (b2l (q0 <=? r1)) in
  let q := ladd q mask in
  let '(r1, r0) := gmp_add_ssaaaa r1 r0 (Z.land mask d1) (Z.land mask d0) in
  if (d1 <=? r1) && ((d1 <? r1) || (d0 <=? r0)) then
    let '(r1, r0) := gmp_sub_ddmmss r1 r0 d1 d0 in (ladd q 1, r1, r0)
  else (q, r1, r0).

(** ** uint64gmp.h *)

Definition ll_B : Z := 4294967296.
Definition ll_lowpart (t : Z) : Z := Z.land t (ll_B - 1).
Definition ll_highpart (t : Z) : Z := lshr t 32.

Definition umul_ppmm (u v : Z) : Z * Z :=
  let ul := u32 (ll_lowpart u) in
  let uh := u32 (ll_highpart u) in
  let vl := u32 (ll_lowpart v) in
  let vh := u32 (ll_highpart v) in
  let x0 := lmul ul vl in
  let x1 := lmul ul vh in
  let x2 := lmul uh vl in
  let x3 := lmul uh vh in
  let x1 := ladd x1 (ll_highpart x0) in
  let x1 := ladd x1 x2 in
  let x3 := if x1 <? x2 then ladd x3 ll_B else x3 in
  (ladd x3 (ll_highpart x1), ladd (lshl x1 32) (ll_lowpart x0)).

(** One half of __udiv_qrnnd_c: a digit of the quotient in base 2^32 and the
    remainder, for the dividend [r] and the next half-limb [n]. *)
Definition udiv_half (r n d1 d0 d : Z) : Z * Z :=
  let q1 := r / d1 in
  let r1 := lsub r (lmul q1 d1) in
  let m := lmul q1 d0 in
  let r1 := Z.lor (lmul r1 ll_B) n in
  let '(q1, r1) :=
    if r1 <? m then
      let q1 := lsub q1 1 in
      let r1 := ladd r1 d in
      if (d <=? r1) && (r1 <? m) then (lsub q1 1, ladd r1 d) else (q1, r1)
    else (q1, r1) in
  (q1, lsub r1 m).

Definition udiv_qrnnd_c (n1 n0 d : Z) : Z * Z :=
  let d1 := ll_highpart d in
  let d0 := ll_lowpart d in
  let '(q1, r1) := udiv_half n1 (ll_highpart n0) d1 d0 d in
  let '(q0, r0) := udiv_half r1 (ll_lowpart n0) d1 d0 d in
  (Z.lor (lmul q1 ll_B) q0, r0).

(** The two fields of the results: the low limb (or the value) and the high
    limb (or the carry). *)
Definition mul64_double (x y : Z) : Z * Z := let '(w1, w0) := umul_ppmm x y in (w0, w1).

(** A division by 0 is undefined. *)
Definition div64_2by1 (ul uh d : Z) : res Z :=
  _ ← defined (negb (ll_highpart d =? 0));
  mret (udiv_qrnnd_c uh ul d).1.

Definition add64_with_carry (x y c : Z) : Z * Z :=
  let r := ladd (ladd x y) c in
  (r, if r =? x then c else b2l (r <? x)).

Definition sub64_with_borrow (x y b : Z) : Z * Z :=
  let r := lsub (lsub x y) b in
  (r, if x <? r then 1 else if r =? x then b else 0).

Definition add64_3 (x y z : Z) : Z * Z :=
  let r := ladd x y in
  let c1 := b2l (r <? y) in
  let r := ladd r z in
  let c2 := b2l (r <? z) in
  (r, ladd c1 c2).

(** A shift by 64 or more is undefined. *)
Definition lsld64 (x cnt : Z) : res (Z * Z) :=
  _ ← defined ((0 <=? 64 - cnt) && (64 - cnt <? 64) && (0 <=? cnt) && (cnt <? 64));
  mret (lshl x cnt, lshr x (64 - cnt)).

(** ** Lemmas *)

Ltac limb_lia :=
  unfold limb, ladd, lsub, lneg, u64, u32, SIZE_MOD, UINT_MOD, B, GMP_HLIMB_BIT, GMP_LIMB_HIGHBIT, b2l in *;
  Z.div_mod_to_equations; lia.

Lemma limb_u64 x : limb (u64 x).
Proof. unfold limb, u64. apply Z.mod_pos_bound. done. Qed.

Lemma low_half x : Z.land x 4294967295 = x mod 4294967296.
Proof. apply (Z.land_ones x 32). lia. Qed.
Lemma high_half x : Z.shiftr x 32 = x / 4294967296.
Proof. apply (Z.shiftr_div_pow2 x 32). lia. Qed.
Lemma shl_half x : Z.shiftl x 32 = x * 4294967296.
Proof. apply (Z.shiftl_mul_pow2 x 32). lia. Qed.

Lemma half_product x y : 0 ≤ x < 4294967296 → 0 ≤ y < 4294967296 → 0 ≤ x * y ≤ 18446744065119617025.
Proof. nia. Qed.

Lemma umul_ppmm_spec u v :
  limb u → limb v →
  let '(w1, w0) := gmp_umul_ppmm u v in w1 * B + w0 = u * v ∧ limb w1 ∧ limb w0.
Proof.
  intros Hu Hv. unfold gmp_umul_ppmm, lshr, lshl, GMP_LLIMB_MASK. rewrite !low_half, !high_half, !shl_half.
  assert (u = u / 4294967296 * 4294967296 + u mod 4294967296 ∧ 0 ≤ u / 4294967296 < 4294967296 ∧
    0 ≤ u mod 4294967296 < 4294967296) as (Hue & Huh & Hul) by limb_lia.
  assert (v = v / 4294967296 * 4294967296 + v mod 4294967296 ∧ 0 ≤ v / 4294967296 < 4294967296 ∧
    0 ≤ v mod 4294967296 < 4294967296) as (Hve & Hvh & Hvl) by limb_lia.
  set (uh := u / _) in *. set (ul := u mod _) in *. set (vh := v / _) in *. set (vl := v mod _) in *.
  rewrite !(u32_small uh), !(u32_small ul), !(u32_small vh), !(u32_small vl) by (unfold UINT_MOD; lia).
  pose proof (half_product ul vl Hul Hvl) as H0. pose proof (half_product ul vh Hul Hvh) as H1.
  pose proof (half_product uh vl Huh Hvl) as H2. pose proof (half_product uh vh Huh Hvh) as H3.
  assert (u * v = uh * vh * 18446744073709551616 + (uh * vl + ul * vh) * 4294967296 + ul * vl) as -> by nia.
  unfold lmul. rewrite !(u64_small (_ * _)) by (unfold SIZE_MOD; lia).
  generalize dependent (ul * vl). generalize dependent (ul * vh). generalize dependent (uh * vl).
  generalize dependent (uh * vh). clear. intros x3 H3 x2 H2 x1 H1 x0 H0.
  destruct (_ <? x2) eqn:Hc; bool_to_prop; limb_lia.
Qed.

Lemma add_ssaaaa_spec ah al bh bl :
  limb ah → limb al → limb bh → limb bl →
  let '(sh, sl) := gmp_add_ssaaaa ah al bh bl in
  sh * B + sl = (ah * B + al + bh * B + bl) mod (B * B) ∧ limb sh ∧ limb sl.
Proof.
  intros ????. unfold gmp_add_ssaaaa.
  assert (limb (ladd al bl)) by apply limb_u64. split_and!; [|apply limb_u64|done].
  destruct (ladd al bl <? al) eqn:Hc; bool_to_prop; limb_lia.
Qed.

Lemma sub_ddmmss_spec ah al bh bl :
  limb ah → limb al → limb bh → limb bl →
  let '(sh, sl) := gmp_sub_ddmmss ah al bh bl in
  sh * B + sl = (ah * B + al - (bh * B + bl)) mod (B * B) ∧ limb sh ∧ limb sl.
Proof.
  intros ????. unfold gmp_sub_ddmmss. split_and!; [|apply limb_u64|apply limb_u64].
  destruct (al <? bl) eqn:Hc; bool_to_prop; limb_lia.
Qed.

(** A number below 2^k does not meet the bits of a multiple of 2^k. *)
Lemma land_shiftl_low x n k : 0 ≤ k → 0 ≤ n < 2 ^ k → Z.land (Z.shiftl x k) n = 0.
Proof.
  intros Hk Hn. apply Z.bits_inj'. intros i Hi. rewrite Z.land_spec, Z.bits_0, Z.shiftl_spec by lia.
  destruct (Z.ltb_spec i k); [by rewrite (Z.testbit_neg_r x) by lia|].
  rewrite <- (Z.mod_small n (2 ^ k)) by done. rewrite Z.mod_pow2_bits_high by lia. apply andb_false_r.
Qed.

Lemma lor_shiftl_low x n k : 0 ≤ k → 0 ≤ n < 2 ^ k → Z.lor (Z.shiftl x k) n = Z.shiftl x k + n.
Proof. intros. symmetry. apply Z.add_nocarry_lor. by apply land_shiftl_low. Qed.

Lemma lor_disjoint x n : 0 ≤ n < 4294967296 → Z.lor (x * 4294967296) n = x * 4294967296 + n.
Proof. intros. rewrite <- shl_half. by apply lor_shiftl_low. Qed.

(** One digit of the quotient in base 2^32. *)
Lemma udiv_half_spec r n d :
  0 ≤ r < d → 0 ≤ n < 4294967296 → GMP_LIMB_HIGHBIT ≤ d < B →
  let '(q, r') := udiv_half r n (ll_highpart d) (ll_lowpart d) d in
  q * d + r' = r * 4294967296 + n ∧ 0 ≤ r' < d ∧ 0 ≤ q < 4294967296.
Proof.
  intros Hr Hn Hd. unfold udiv_half, ll_highpart, ll_lowpart, lshr. change (ll_B - 1) with 4294967295.
  change ll_B with 4294967296. rewrite high_half, low_half.
  assert (d = d / 4294967296 * 4294967296 + d mod 4294967296 ∧ 2147483648 ≤ d / 4294967296 < 4294967296 ∧
    0 ≤ d mod 4294967296 < 4294967296) as (Hde & Hd1 & Hd0) by limb_lia.
  set (d1 := d / _) in *. set (d0 := d mod _) in *.
  assert (r = r / d1 * d1 + r mod d1) as Hre by (rewrite (Z.mul_comm (r / d1)); apply Z.div_mod; lia).
  pose proof (Z.mod_pos_bound r d1 ltac:(lia)) as Hs.
  assert (0 ≤ r / d1 ≤ 4294967297) as Hq.
  { split; [apply Z.div_pos; lia|]. apply Z.lt_succ_r, Z.div_lt_upper_bound; lia. }
  set (q := r / d1) in *. set (s := r mod d1) in *. clearbody q s. clearbody d1 d0.
  assert (0 ≤ q * d0 < B) as Hp.
  { pose proof (Z.mul_le_mono_nonneg q 4294967297 d0 4294967295). unfold B. split; [apply Z.mul_nonneg_nonneg|]; lia. }
  assert (0 ≤ q * d1 < B) as Hp1 by (split; [apply Z.mul_nonneg_nonneg|unfold B in *]; lia).
  assert (q * d = q * d1 * 4294967296 + q * d0) as Hqd by (rewrite Hde at 1; ring).
  unfold lmul. rewrite (u64_small (q * d1)), (u64_small (q * d0)) by (unfold SIZE_MOD, B in *; lia).
  assert (lsub r (q * d1) = s) as -> by (unfold lsub; rewrite u64_small; unfold SIZE_MOD, B in *; lia).
  rewrite (u64_small (s * 4294967296)) by (unfold SIZE_MOD, B in *; lia). rewrite lor_disjoint by done.
  assert (0 < q * d0 → 1 ≤ q) as Hq1 by (destruct (Z.eq_dec q 0) as [E|]; [rewrite E; lia|lia]).
  assert (4294967296 ≤ q * d0 → 2 ≤ q) as Hq2.
  { assert (q = 0 ∨ q = 1 ∨ 2 ≤ q) as [E|[E|?]] by lia; rewrite ?E; lia. }
  assert (∀ k r', (q - k) * d + r' = r * 4294967296 + n → 0 ≤ r' < d → 0 ≤ q - k →
    (q - k) * d + r' = r * 4294967296 + n ∧ 0 ≤ r' < d ∧ 0 ≤ q - k < 4294967296) as Hfin.
  { intros k r' He Hr' Hk. split_and!; try done; try lia.
    apply (Z.mul_lt_mono_pos_r d); lia. }
  assert (∀ k, (q - k) * d = q * d - k * d) as Hk by (intros; ring).
  unfold B, GMP_LIMB_HIGHBIT, SIZE_MOD in *.
  destruct (Z.ltb_spec (s * 4294967296 + n) (q * d0)) as [Hlt|Hge].
  - destruct ((d <=? _) && _) eqn:Hc.
    + assert (lsub (lsub q 1) 1 = q - 2) as -> by (bool_to_prop; limb_lia).
      assert (lsub (ladd (ladd (s * 4294967296 + n) d) d) (q * d0) = s * 4294967296 + n + 2 * d - q * d0) as ->
        by (bool_to_prop; limb_lia).
      apply Hfin; rewrite ?Hk; bool_to_prop; limb_lia.
    + assert (lsub q 1 = q - 1) as -> by limb_lia.
      assert (lsub (ladd (s * 4294967296 + n) d) (q * d0) = s * 4294967296 + n + d - q * d0) as ->
        by (bool_to_prop; limb_lia).
      apply Hfin; rewrite ?Hk; bool_to_prop; limb_lia.
  - assert (lsub (s * 4294967296 + n) (q * d0) = s * 4294967296 + n - q * d0) as -> by limb_lia.
    pose proof (Hfin 0) as H0. rewrite Z.sub_0_r in H0. apply H0; limb_lia.
Qed.

Lemma udiv_qrnnd_c_spec n1 n0 d :
  0 ≤ n1 < d → limb n0 → GMP_LIMB_HIGHBIT ≤ d < B →
  let '(q, r) := udiv_qrnnd_c n1 n0 d in q * d + r = n1 * B + n0 ∧ 0 ≤ r < d ∧ limb q.
Proof.
  intros Hn1 Hn0 Hd. unfold udiv_qrnnd_c.
  assert (n0 = ll_highpart n0 * 4294967296 + ll_lowpart n0 ∧ 0 ≤ ll_highpart n0 < 4294967296 ∧
    0 ≤ ll_lowpart n0 < 4294967296) as (He & Hh & Hl).
  { unfold ll_highpart, ll_lowpart, lshr. change (ll_B - 1) with 4294967295. rewrite high_half, low_half. limb_lia. }
  pose proof (udiv_half_spec n1 (ll_highpart n0) d Hn1 Hh Hd) as H1.
  destruct (udiv_half n1 _ _ _ _) as [q1 r1]. destruct H1 as (E1 & Hr1 & Hq1).
  pose proof (udiv_half_spec r1 (ll_lowpart n0) d Hr1 Hl Hd) as H2.
  destruct (udiv_half r1 _ _ _ _) as [q0 r0]. destruct H2 as (E2 & Hr0 & Hq0).
  unfold lmul. change ll_B with 4294967296.
  rewrite u64_small by (unfold SIZE_MOD; lia). rewrite lor_disjoint by done.
  split_and!; [|lia|lia|unfold limb, B; lia].
  assert ((q1 * 4294967296 + q0) * d = q1 * d * 4294967296 + q0 * d) as -> by ring. unfold B. lia.
Qed.

(** ** Counting zeros *)

Lemma land_top_byte x : limb x → (Z.land x (lshl 255 56) =? 0) = (x <? 2 ^ 56).
Proof.
  intros Hx. change (lshl 255 56) with (Z.shiftl 255 56).
  assert (Z.land x (Z.shiftl 255 56) = Z.shiftl (Z.shiftr x 56) 56) as ->.
  { apply Z.bits_inj'. intros i Hi. rewrite Z.land_spec, !Z.shiftl_spec by lia.
    destruct (Z.ltb_spec i 56); [by rewrite !(Z.testbit_neg_r _ (i - 56)), andb_false_r by lia|].
    rewrite Z.shiftr_spec by lia. replace (i - 56 + 56) with i by lia.
    destruct (Z.ltb_spec i 64).
    - change 255 with (Z.ones 8). rewrite Z.ones_spec_low by lia. apply andb_true_r.
    - assert (Z.testbit x i = false) as ->; [|done]. apply (Z.testbit_false x i); [lia|].
      rewrite Z.div_small; [done|]. unfold limb, B in Hx. split; [lia|].
      apply Z.lt_le_trans with (2 ^ 64); [lia|]. apply Z.pow_le_mono_r; lia. }
  rewrite Z.shiftl_mul_pow2, Z.shiftr_div_pow2 by lia. unfold limb, B in Hx.
  destruct (Z.ltb_spec x (2 ^ 56)); [rewrite Z.div_small by lia; done|].
  apply Z.eqb_neq. assert (1 ≤ x / 2 ^ 56) by (apply Z.div_le_lower_bound; lia). lia.
Qed.

Lemma land_top_bit x : limb x → (Z.land x GMP_LIMB_HIGHBIT =? 0) = (x <? 2 ^ 63).
Proof.
  intros Hx. change GMP_LIMB_HIGHBIT with (2 ^ 63). unfold limb, B in Hx.
  assert (Z.land x (2 ^ 63) = if Z.testbit x 63 then 2 ^ 63 else 0) as ->.
  { apply Z.bits_inj'. intros i Hi. rewrite Z.land_spec, Z.pow2_bits_eqb by lia.
    destruct (Z.eqb_spec 63 i) as [<-|Hne].
    - rewrite andb_true_r. destruct (Z.testbit x 63) eqn:Hb; [by rewrite Z.pow2_bits_true|by rewrite Z.bits_0].
    - rewrite andb_false_r. destruct (Z.testbit x 63); [by rewrite Z.pow2_bits_false|by rewrite Z.bits_0]. }
  destruct (Z.ltb_spec x (2 ^ 63)).
  - assert (Z.testbit x 63 = false) as ->; [|done]. apply Z.testbit_false; [lia|]. by rewrite Z.div_small by lia.
  - assert (Z.testbit x 63 = true) as ->; [|done]. apply Z.testbit_true; [lia|].
    assert (x / 2 ^ 63 = 1) as ->; [|done]. symmetry. apply (Z.div_unique x (2 ^ 63) 1 (x - 2 ^ 63)); lia.
Qed.

(** A shift that loses nothing. *)
Lemma lshl_exact x n : 0 ≤ n → 0 ≤ x * 2 ^ n < B → lshl x n = x * 2 ^ n.
Proof. intros. unfold lshl. rewrite Z.shiftl_mul_pow2 by done. by apply u64_small. Qed.

Lemma clz_bits_spec fuel x0 x c :
  0 < x → 0 ≤ c → x = x0 * 2 ^ c → limb x → (63 - Z.log2 x < Z.of_nat fuel) →
  ∃ c', clz_bits fuel x c = Ok c' ∧ 0 ≤ c' ∧ 2 ^ 63 ≤ x0 * 2 ^ c' < 2 ^ 64.
Proof.
  revert x c. induction fuel as [|fuel IH]; intros x c Hx Hc He Hl Hf; simpl.
  - unfold limb, B in Hl. assert (Z.log2 x < 64) by (apply Z.log2_lt_pow2; lia). lia.
  - rewrite land_top_bit by done. unfold limb, B in Hl. destruct (Z.ltb_spec x (2 ^ 63)).
    + assert (lshl x 1 = x * 2) as -> by (rewrite lshl_exact; [lia..|unfold B; lia]).
      apply IH; [lia|lia|rewrite He, Z.pow_add_r by lia; lia|unfold limb, B; lia|].
      rewrite Z.mul_comm, Z.log2_double by lia. lia.
    + exists c. split_and!; [done|lia|lia|lia].
Qed.

Lemma clz_bytes_spec fuel x0 x c :
  0 < x → 0 ≤ c → x = x0 * 2 ^ c → limb x → (63 - Z.log2 x < Z.of_nat fuel) →
  ∃ x' c', clz_bytes fuel x c = Ok (x', c') ∧ 0 < x' ∧ 0 ≤ c' ∧ x' = x0 * 2 ^ c' ∧ limb x'.
Proof.
  revert x c. induction fuel as [|fuel IH]; intros x c Hx Hc He Hl Hf; cbn [clz_bytes].
  - unfold limb, B in Hl. assert (Z.log2 x < 64) by (apply Z.log2_lt_pow2; lia). lia.
  - rewrite land_top_byte by done. unfold limb, B in Hl. destruct (Z.ltb_spec x (2 ^ 56)).
    + assert (lshl x 8 = x * 2 ^ 8) as -> by (rewrite lshl_exact; [lia..|unfold B; lia]).
      apply IH; [lia|lia|rewrite He, Z.pow_add_r by lia; lia|unfold limb, B; lia|].
      rewrite Z.log2_mul_pow2 by lia. lia.
    + exists x, c. done.
Qed.

(** The number of leading zeros normalises the limb. *)
Lemma gmp_clz_spec x :
  0 < x < B → ∃ c, gmp_clz x = Ok c ∧ 0 ≤ c < 64 ∧ 2 ^ 63 ≤ x * 2 ^ c < 2 ^ 64.
Proof.
  intros Hx. unfold gmp_clz. pose proof (Z.log2_nonneg x).
  destruct (clz_bytes_spec 64 x x 0) as (x1 & c1 & -> & Hx1 & Hc1 & E1 & Hl1); [lia|lia|lia|unfold limb; lia|lia|].
  cbn [mbind res_bind]. pose proof (Z.log2_nonneg x1). destruct (clz_bits_spec 64 x x1 c1) as (c & -> & Hc & Hn); [lia|lia|done|done|lia|].
  exists c. split_and!; [done|done| |lia|lia].
  destruct (Z.lt_ge_cases c 64) as [|Hge]; [done|]. exfalso.
  pose proof (Z.pow_le_mono_r 2 64 c ltac:(lia) Hge). nia.
Qed.

(** The trailing zeros of a positive number. *)
Lemma odd_part x : 0 < x → ∃ k m, 0 ≤ k ∧ 0 ≤ m ∧ x = (2 * m + 1) * 2 ^ k.
Proof.
  destruct x as [|p|p]; [lia| |lia]. intros _. induction p as [p IH|p IH|].
  - exists 0, (Z.pos p). lia.
  - destruct IH as (k & m & Hk & Hm & E). exists (k + 1), m. split_and!; [lia|lia|].
    rewrite Pos2Z.inj_xO, E, Z.pow_add_r by lia. lia.
  - exists 0, 0. lia.
Qed.

Lemma land_complement m j : 0 ≤ j → 0 ≤ m < 2 ^ j → Z.land m (2 ^ j - 1 - m) = 0.
Proof.
  intros Hj Hm. assert (2 ^ j - 1 - m = Z.ldiff (Z.ones j) m) as ->.
  { rewrite <- Z.sub_nocarry_ldiff; [rewrite Z.ones_equiv; lia|].
    rewrite Z.ldiff_ones_r, Z.shiftr_div_pow2, Z.div_small by lia. apply Z.shiftl_0_l. }
  apply Z.bits_inj'. intros i Hi. rewrite Z.land_spec, Z.ldiff_spec, Z.bits_0.
  destruct (Z.testbit m i); [by rewrite andb_false_r|done].
Qed.

Lemma land_neg_lowest x k m : 0 ≤ k → 0 ≤ m → x = (2 * m + 1) * 2 ^ k → x < B → Z.land x (lneg x) = 2 ^ k.
Proof.
  intros Hk Hm E Hx. assert (k < 64) as Hk64.
  { destruct (Z.lt_ge_cases k 64) as [|Hge]; [done|]. pose proof (Z.pow_le_mono_r 2 64 k ltac:(lia) Hge).
    unfold B in Hx. nia. }
  assert (B = 2 ^ (63 - k) * 2 * 2 ^ k) as HB.
  { rewrite (Z.mul_comm (2 ^ (63 - k)) 2), <- Z.pow_succ_r by lia.
    rewrite <- Z.pow_add_r by lia. by replace (Z.succ (63 - k) + k) with 64 by lia. }
  pose proof (Z.pow_pos_nonneg 2 k ltac:(lia) Hk) as Hpk.
  assert (m < 2 ^ (63 - k)) as Hmk by nia.
  set (m' := 2 ^ (63 - k) - 1 - m).
  assert (lneg x = (2 * m' + 1) * 2 ^ k) as ->.
  { unfold lneg, u64. change SIZE_MOD with B. symmetry. apply (Z.mod_unique _ _ (-1)); [left; unfold m'; nia|].
    rewrite HB. unfold m'. rewrite E. ring. }
  rewrite E, <- !Z.shiftl_mul_pow2, <- Z.shiftl_land, Z.shiftl_mul_pow2 by done.
  assert (Z.land (2 * m + 1) (2 * m' + 1) = 1) as ->; [|lia].
  apply Z.bits_inj'. intros i Hi. rewrite Z.land_spec. destruct (decide (i = 0)) as [->|Hne].
  - by rewrite !Z.testbit_odd_0.
  - replace i with (Z.succ (i - 1)) by lia. rewrite !Z.testbit_odd_succ by lia.
    rewrite <- Z.land_spec. unfold m'. rewrite land_complement by lia. rewrite Z.bits_0.
    symmetry. change 1 with (2 * 0 + 1). rewrite Z.testbit_odd_succ by lia. apply Z.bits_0.
Qed.

Lemma gmp_ctz_spec x :
  0 < x < B → ∃ k, gmp_ctz x = Ok k ∧ 0 ≤ k < 64 ∧ ∃ m, 0 ≤ m ∧ x = (2 * m + 1) * 2 ^ k.
Proof.
  intros Hx. destruct (odd_part x) as (k & m & Hk & Hm & E); [lia|].
  unfold gmp_ctz. rewrite (land_neg_lowest x k m) by (done || lia).
  pose proof (Z.pow_pos_nonneg 2 k ltac:(lia) Hk) as Hpk.
  assert (0 < 2 ^ k < B) as Hp by nia.
  destruct (gmp_clz_spec _ Hp) as (c & -> & Hc & Hn). rewrite <- Z.pow_add_r in Hn by lia. cbn [mbind res_bind].
  assert (k + c = 63) as Hkc.
  { destruct Hn as [Hn1 Hn2]. apply Z.pow_le_mono_r_iff in Hn1; [|lia|lia].
    apply Z.pow_lt_mono_r_iff in Hn2; [|lia|lia]. lia. }
  exists k. unfold GMP_LIMB_BITS. split_and!; [by replace (64 - 1 - c) with k by lia|lia|lia|eauto].
Qed.

(** ** Division by an inverse *)

(** The 2/1 inverse of a normalised limb. *)
Definition inverse_2by1 (d : Z) : Z := (B * B - 1) / d - B.

Lemma inverse_2by1_spec d :
  GMP_LIMB_HIGHBIT ≤ d < B →
  let v := inverse_2by1 d in limb v ∧ B * B - d ≤ (B + v) * d < B * B.
Proof.
  intros Hd. unfold inverse_2by1. cbv zeta. set (w := (B * B - 1) / d).
  assert (B * B - 1 = d * w + (B * B - 1) mod d) as He by (apply Z.div_mod; unfold GMP_LIMB_HIGHBIT in *; lia).
  pose proof (Z.mod_pos_bound (B * B - 1) d ltac:(unfold GMP_LIMB_HIGHBIT in *; lia)) as Hm.
  replace ((B + (w - B)) * d) with (d * w) by ring. split; [|lia].
  unfold limb, B, GMP_LIMB_HIGHBIT in *. clearbody w. nia.
Qed.

Lemma land_mask c d : limb d → Z.land (lneg (b2l c)) d = if c then d else 0.
Proof.
  intros Hd. destruct c; [|done]. change (lneg (b2l true)) with (Z.ones 64).
  rewrite Z.land_comm, Z.land_ones by lia. by apply Z.mod_small.
Qed.

(** The candidate of the division by an inverse: with [q1 * B + q0 = (B + v) * u1 + u0]
    the remainder for the quotient [q1 + 1] is close to the right one. *)
Lemma preinv_candidate u1 u0 d v q1 q0 :
  GMP_LIMB_HIGHBIT ≤ d < B → B * B - d ≤ (B + v) * d < B * B →
  0 ≤ u1 < d → limb u0 → limb q0 → q1 * B + q0 = (B + v) * u1 + u0 →
  let r := u1 * B + u0 - (q1 + 1) * d in
  - d ≤ r ∧ q0 - B < r ∧ r < Z.max (B - d) q0.
Proof.
  intros Hd Hv Hu1 Hu0 Hq0 E r.
  assert (B * r = u1 * (B * B - (B + v) * d) + u0 * (B - d) + q0 * d - B * d) as Hr.
  { assert (q1 * B = (B + v) * u1 + u0 - q0) as E' by lia.
    assert (B * r = u1 * B * B + u0 * B - q1 * B * d - B * d) as -> by (unfold r; ring). rewrite E'. ring. }
  clearbody r. set (k := B * B - (B + v) * d) in *. assert (0 < k ≤ d) as Hk by (unfold k; lia). clearbody k.
  unfold limb in *. clear E Hv v q1.
  assert (0 ≤ u1 * k) by (apply Z.mul_nonneg_nonneg; lia).
  assert (0 ≤ u0 * (B - d)) by (apply Z.mul_nonneg_nonneg; lia).
  assert (0 ≤ q0 * d) by (apply Z.mul_nonneg_nonneg; unfold GMP_LIMB_HIGHBIT in *; lia).
  assert (0 < B) by done. split_and!.
  - apply (Z.mul_le_mono_pos_l _ _ B); [done|]. lia.
  - apply (Z.mul_lt_mono_pos_l B); [done|].
    assert (0 < (B - d) * (B - q0)) by (apply Z.mul_pos_pos; lia). lia.
  - apply (Z.mul_lt_mono_pos_l B); [done|].
    assert (u1 * k ≤ (d - 1) * d) by (apply Z.mul_le_mono_nonneg; lia).
    assert (u0 * (B - d) ≤ (B - 1) * (B - d)) by (apply Z.mul_le_mono_nonneg_r; lia).
    assert ((B - d) * (B - d) ≤ (B - d) * Z.max (B - d) q0) by (apply Z.mul_le_mono_nonneg_l; lia).
    assert (d * q0 ≤ d * Z.max (B - d) q0)
      by (apply Z.mul_le_mono_nonneg_l; unfold GMP_LIMB_HIGHBIT in *; lia).
    lia.
Qed.

Lemma u64_eq x y k : x = y + k * B → u64 x = u64 y.
Proof. intros ->. unfold u64. change SIZE_MOD with B. by rewrite Z.mod_add by done. Qed.

Lemma u64_idem x : u64 (u64 x) = u64 x.
Proof. apply u64_small, limb_u64. Qed.

Lemma u64_add x y : u64 (u64 x + y) = u64 (x + y).
Proof. unfold u64. by rewrite Z.add_mod_idemp_l. Qed.
Lemma u64_add_r x y : u64 (x + u64 y) = u64 (x + y).
Proof. unfold u64. by rewrite Z.add_mod_idemp_r. Qed.
Lemma u64_sub x y : u64 (u64 x - y) = u64 (x - y).
Proof. unfold u64. by rewrite Zminus_mod_idemp_l. Qed.
Lemma u64_sub_r x y : u64 (x - u64 y) = u64 (x - y).
Proof. unfold u64. by rewrite Zminus_mod_idemp_r. Qed.
Lemma u64_mul x y : u64 (u64 x * y) = u64 (x * y).
Proof. unfold u64. by rewrite Z.mul_mod_idemp_l. Qed.
Lemma u64_mul_r x y : u64 (x * u64 y) = u64 (x * y).
Proof. unfold u64. by rewrite Z.mul_mod_idemp_r. Qed.
#[export] Hint Rewrite u64_idem u64_add u64_add_r u64_sub u64_sub_r u64_mul u64_mul_r : limbs.

(** A number known modulo [B] and by its range. *)
Lemma u64_range x y k : x = y + k * B → limb y → u64 x = y.
Proof. intros E Hy. rewrite (u64_eq x y k E). by apply u64_small. Qed.

(** The quotient and remainder are determined. *)
Lemma quotient_limb u1 u0 d q r :
  0 ≤ u1 < d → limb u0 → d < B → u1 * B + u0 = q * d + r → 0 ≤ r < d → limb q.
Proof.
  intros Hu1 Hu0 Hd E Hr. unfold limb in *. assert (0 ≤ u1 * B) by (apply Z.mul_nonneg_nonneg; lia || done). split.
  - apply Z.lt_succ_r, (Z.mul_lt_mono_pos_r d); lia.
  - apply (Z.mul_lt_mono_pos_r d); [lia|]. assert (u1 * B ≤ (d - 1) * B) by (apply Z.mul_le_mono_nonneg_r; lia). lia.
Qed.

Lemma udiv_qrnnd_preinv_spec nh nl d :
  GMP_LIMB_HIGHBIT ≤ d < B → 0 ≤ nh < d → limb nl →
  let '(q, r) := gmp_udiv_qrnnd_preinv nh nl d (inverse_2by1 d) in
  nh * B + nl = q * d + r ∧ 0 ≤ r < d ∧ limb q.
Proof.
  intros Hd Hnh Hnl. destruct (inverse_2by1_spec d Hd) as [Hv Hvd]. set (v := inverse_2by1 d) in *.
  unfold gmp_udiv_qrnnd_preinv. pose proof (umul_ppmm_spec nh v ltac:(unfold limb; lia) Hv) as Hm.
  destruct (gmp_umul_ppmm nh v) as [h l]. destruct Hm as (Em & Hh & Hl).
  assert (ladd nh 1 = nh + 1) as -> by (apply u64_small; unfold SIZE_MOD, B in *; lia).
  pose proof (add_ssaaaa_spec h l (nh + 1) nl Hh Hl ltac:(unfold limb; lia) Hnl) as Ha.
  destruct (gmp_add_ssaaaa h l (nh + 1) nl) as [qh q0]. destruct Ha as (Ea & Hqh & Hq0).
  set (w := (B + v) * nh + nl).
  assert (w = w / B * B + w mod B) as Ew by (rewrite (Z.mul_comm (w / B)); apply Z.div_mod; done).
  pose proof (Z.mod_pos_bound w B ltac:(done)) as Hw0.
  assert (0 ≤ w < B * B) as Hw.
  { unfold w. split; [apply Z.add_nonneg_nonneg; [apply Z.mul_nonneg_nonneg|]; unfold limb in *; lia|].
    assert ((B + v) * nh ≤ (B + v) * (d - 1)) by (apply Z.mul_le_mono_nonneg_l; unfold limb in *; lia). unfold limb in *. lia. }
  set (q1 := w / B) in *. assert (0 ≤ q1 < B) as Hq1.
  { unfold q1. split; [apply Z.div_pos; lia|apply Z.div_lt_upper_bound; lia]. }
  assert (qh = u64 (q1 + 1) ∧ q0 = w mod B) as [-> ->].
  { assert (h * B + l + (nh + 1) * B + nl = w + B) as Es by (unfold w; lia).
    assert ((w + B) mod (B * B) = u64 (q1 + 1) * B + w mod B) as Es'.
    { rewrite Ew at 1. symmetry. apply (Z.mod_unique _ _ ((q1 + 1) / B)).
      - left. pose proof (limb_u64 (q1 + 1)) as Hl1. unfold limb in *. nia.
      - unfold u64. change SIZE_MOD with B. pose proof (Z.div_mod (q1 + 1) B ltac:(done)). lia. }
    replace (h * B + l + (nh + 1) * B + nl) with (w + B) in Ea by lia. rewrite Es' in Ea.
    pose proof (limb_u64 (q1 + 1)). clearbody q1 w. clear -Ea Hqh Hq0 Hw0 H. unfold limb, B in *. lia. }
  clear Ea Hqh Hq0. set (q0 := w mod B) in *.
  pose proof (preinv_candidate nh nl d v q1 q0 Hd Hvd Hnh Hnl Hw0 ltac:(unfold w in Ew; lia)) as (H1 & H2 & H3).
  set (rt := nh * B + nl - (q1 + 1) * d) in *.
  assert (lsub nl (lmul (u64 (q1 + 1)) d) = u64 rt) as ->.
  { unfold lsub, lmul. autorewrite with limbs. apply (u64_eq _ _ (- nh)). unfold rt. ring. }
  rewrite land_mask by (unfold limb, GMP_LIMB_HIGHBIT in *; lia).
  assert (∀ a r, r = rt + a * d → 0 ≤ r < d → ∀ q, u64 q = u64 (q1 + 1 - a) →
    nh * B + nl = u64 q * d + r ∧ 0 ≤ r < d ∧ limb (u64 q)) as Hfin.
  { intros a r -> Hr q ->. assert (limb (q1 + 1 - a)) as Hlq.
    { eapply (quotient_limb nh nl d _ (rt + a * d)); try done; [lia|]. unfold rt. ring. }
    rewrite u64_small by done. split_and!; [unfold rt; ring|lia|lia|done]. }
  unfold limb in Hw0. clearbody q0 q1 rt. clear Ew Hw Hvd Em.
  destruct (Z.lt_ge_cases rt 0) as [Hneg|Hpos].
  - assert (u64 rt = rt + B) as -> by (apply (u64_range _ _ (-1)); [lia|unfold limb; lia]).
    destruct (Z.ltb_spec q0 (rt + B)); [|lia].
    assert (ladd (rt + B) d = rt + d) as -> by (apply (u64_range _ _ 1); [lia|unfold limb; lia]).
    destruct (Z.leb_spec d (rt + d)); [lia|]. change (lneg (b2l true)) with (B - 1).
    unfold ladd. apply (Hfin 1); [lia|lia|]. clear Hfin. limb_lia.
  - assert (u64 rt = rt) as -> by (apply u64_small; unfold SIZE_MOD, GMP_LIMB_HIGHBIT in *; fold B; lia).
    destruct (Z.ltb_spec q0 rt).
    + assert (ladd rt d = rt + d) as -> by (apply u64_small; change SIZE_MOD with B; lia).
      destruct (Z.leb_spec d (rt + d)); [|lia]. change (lneg (b2l true)) with (B - 1).
      assert (lsub (rt + d) d = rt) as -> by (apply (u64_range _ _ 0); [lia|unfold limb, GMP_LIMB_HIGHBIT in *; lia]).
      unfold ladd. apply (Hfin 0); [lia|unfold GMP_LIMB_HIGHBIT, B in *; lia|]. clear Hfin. limb_lia.
    + assert (ladd rt 0 = rt) as -> by (apply (u64_range _ _ 0); [lia|unfold limb, GMP_LIMB_HIGHBIT in *; lia]).
      change (lneg (b2l false)) with 0. unfold ladd. destruct (Z.leb_spec d rt).
      * assert (lsub rt d = rt - d) as -> by (apply (u64_range _ _ 0); [lia|unfold limb, GMP_LIMB_HIGHBIT in *; lia]).
        apply (Hfin (-1)); [lia|unfold GMP_LIMB_HIGHBIT, B in *; lia|]. clear Hfin. limb_lia.
      * apply (Hfin 0); [lia|lia|]. clear Hfin. limb_lia.
Qed.

(** The 3/2 inverse of a normalised number of two limbs. *)
Definition inverse_3by2 (D : Z) : Z := (B * B * B - 1) / D - B.

Lemma inverse_3by2_spec D :
  GMP_LIMB_HIGHBIT * B ≤ D < B * B →
  let v := inverse_3by2 D in limb v ∧ B * B * B - D ≤ (B + v) * D < B * B * B.
Proof.
  intros HD. unfold inverse_3by2. cbv zeta. set (w := (B * B * B - 1) / D).
  assert (0 < D) by (unfold GMP_LIMB_HIGHBIT, B in *; lia).
  assert (B * B * B - 1 = D * w + (B * B * B - 1) mod D) as He by (apply Z.div_mod; lia).
  pose proof (Z.mod_pos_bound (B * B * B - 1) D ltac:(lia)) as Hm.
  replace ((B + (w - B)) * D) with (D * w) by ring. split; [|lia].
  assert (B ≤ w) by (apply Z.div_le_lower_bound; unfold B in *; lia).
  assert (w < 2 * B) by (apply Z.div_lt_upper_bound; unfold GMP_LIMB_HIGHBIT, B in *; lia).
  unfold limb. lia.
Qed.

(** The same division in any base [b]: with [q1 * b + q0 = (b + v) * u2 + u1]
    the remainder for the quotient [q1 + 1] is close to the right one. The case
    of the largest divisors, whose inverse is 0, is apart. *)
Lemma inverse_top b D v :
  0 < b → b * b - b < D → (b + v) * D < b * b * b → 0 ≤ v → v = 0.
Proof.
  intros Hb HD Hv Hv0. destruct (Z.eq_dec v 0); [done|]. exfalso.
  assert ((b + 1) * (b * b - b + 1) ≤ (b + v) * D) by (apply Z.mul_le_mono_nonneg; nia). lia.
Qed.

Lemma threeby2_candidate b u2 u1 u0 D v q1 q0 :
  1 < b → b * b ≤ 2 * D → D < b * b → b * b * b - D ≤ (b + v) * D < b * b * b → 0 ≤ v →
  0 ≤ u2 < b → 0 ≤ u1 < b → 0 ≤ u0 < b → u2 * b + u1 < D → 0 ≤ q0 < b → q1 * b + q0 = (b + v) * u2 + u1 →
  let r := u2 * b * b + u1 * b + u0 - (q1 + 1) * D in
  - D ≤ r ∧ q0 * b - b * b < r ∧ (q0 * b ≤ r → r < b * b - D).
Proof.
  intros Hb HD2 HD Hv Hv0 Hu2 Hu1 Hu0 Hlt Hq0 E r.
  assert (b * r = u2 * (b * b * b - (b + v) * D) + u1 * (b * b - D) + u0 * b + q0 * D - b * D) as Hr.
  { assert (q1 * b = (b + v) * u2 + u1 - q0) as E' by lia.
    assert (b * r = u2 * b * b * b + u1 * b * b + u0 * b - q1 * b * D - b * D) as -> by (unfold r; ring).
    rewrite E'. ring. }
  assert (b * b - b < D → b * b * b - (b + v) * D = (b * b - D) * b) as Htop.
  { intros HDt. assert (v = 0) as -> by (apply (inverse_top b D); lia). ring. }
  clearbody r. set (K := b * b * b - (b + v) * D) in *. assert (0 < K ≤ D) as HK by (unfold K; lia). clearbody K.
  clear E Hv v q1 Hv0. assert (0 < b * b) by (apply Z.mul_pos_pos; lia).
  assert (0 ≤ u2 * K) by (apply Z.mul_nonneg_nonneg; lia).
  assert (0 ≤ u1 * (b * b - D)) by (apply Z.mul_nonneg_nonneg; lia).
  assert (0 ≤ u0 * b) by (apply Z.mul_nonneg_nonneg; lia).
  assert (0 ≤ q0 * D) by (apply Z.mul_nonneg_nonneg; lia). split_and!.
  - apply (Z.mul_le_mono_pos_l _ _ b); lia.
  - apply (Z.mul_lt_mono_pos_l b); [lia|].
    assert (0 < (b - q0) * (b * b - D)) by (apply Z.mul_pos_pos; lia). lia.
  - intros Hge. apply Z.nle_gt. intros Hre.
    assert (q0 * b * D ≤ r * D) by (apply Z.mul_le_mono_nonneg_r; lia).
    assert ((b * b - D) * (b * b - D) ≤ r * (b * b - D)) by (apply Z.mul_le_mono_nonneg_r; lia).
    assert (b * (b * r) = b * (u2 * K) + b * (u1 * (b * b - D)) + b * (u0 * b) + q0 * b * D - b * b * D) by (rewrite Hr; ring).
    assert (b * (u0 * b) ≤ b * b * (b - 1)).
    { assert (u0 * (b * b) ≤ (b - 1) * (b * b)) by (apply Z.mul_le_mono_nonneg_r; lia). lia. }
    destruct (Z.lt_ge_cases (b * b - b) D) as [HDt|HDt].
    + rewrite (Htop HDt) in *.
      assert ((u2 * b + u1) * (b * (b * b - D)) ≤ (D - 1) * (b * (b * b - D)))
        by (apply Z.mul_le_mono_nonneg_r; [apply Z.mul_nonneg_nonneg|]; lia).
      assert ((b * b - D) * (b * D) ≤ (b - 1) * (b * D))
        by (apply Z.mul_le_mono_nonneg_r; [apply Z.mul_nonneg_nonneg|]; lia).
      assert (0 ≤ (b * b - D) * (b * b - D)) by (apply Z.mul_nonneg_nonneg; lia). lia.
    + assert (u2 * b * K ≤ (D - 1 - u1) * D) by (apply Z.mul_le_mono_nonneg; try apply Z.mul_nonneg_nonneg; lia).
      assert (u1 * (b * (b * b - D) - D) ≤ (b - 1) * (b * (b * b - D) - D)).
      { apply Z.mul_le_mono_nonneg_r; [|lia]. assert (b * b ≤ (b * b - D) * b) by (apply Z.mul_le_mono_nonneg_r; lia). lia. }
      lia.
Qed.

(** The two adjustments reach the remainder from the candidate [rt], known
    modulo [b * b]. *)
Lemma threeby2_adjust b D rt q0 R0 :
  1 < b → b * b ≤ 2 * D → D < b * b → 0 ≤ q0 < b → - D ≤ rt → q0 * b - b * b < rt →
  (q0 * b ≤ rt → rt < b * b - D) → rt < b * b → R0 = rt mod (b * b) →
  let c := q0 * b <=? R0 in
  let R := (R0 + (if c then D else 0)) mod (b * b) in
  0 ≤ rt + (b2l c - b2l (D <=? R)) * D < D ∧
  (if D <=? R then R - D else R) = rt + (b2l c - b2l (D <=? R)) * D.
Proof.
  intros Hb HD2 HD Hq0 H1 H2 H3 H4 Eb. cbv zeta. assert (q0 * b < b * b) by (apply Z.mul_lt_mono_pos_r; lia).
  assert (rt mod (b * b) = if rt <? 0 then rt + b * b else rt) as Em.
  { destruct (Z.ltb_spec rt 0); [|by apply Z.mod_small].
    symmetry. apply (Z.mod_unique _ _ (-1)); [left; lia|lia]. }
  rewrite Em in Eb. clear Em.
  destruct (Z.ltb_spec rt 0), (Z.leb_spec (q0 * b) R0); unfold b2l; try lia.
  - assert ((R0 + D) mod (b * b) = rt + D) as -> by (symmetry; apply (Z.mod_unique _ _ 1); lia).
    destruct (Z.leb_spec D (rt + D)); lia.
  - assert (rt < b * b - D) by (apply H3; lia).
    rewrite Z.mod_small by lia. destruct (Z.leb_spec D (R0 + D)); lia.
  - rewrite Z.add_0_r, Z.mod_small by lia. destruct (Z.leb_spec D R0); lia.
Qed.

(** The estimate of the quotient fits. *)
Lemma threeby2_estimate b u2 u1 D v :
  0 < b → (b + v) * D < b * b * b → 0 ≤ v → 0 ≤ u2 → 0 ≤ u1 → u2 * b + u1 < D →
  0 ≤ (b + v) * u2 + u1 < b * b.
Proof.
  intros Hb Hv Hv0 Hu2 Hu1 Hlt. split; [apply Z.add_nonneg_nonneg; [apply Z.mul_nonneg_nonneg|]; lia|].
  apply (Z.mul_lt_mono_pos_l b); [done|].
  assert ((b + v) * (u2 * b + u1 + 1) ≤ (b + v) * D) by (apply Z.mul_le_mono_nonneg_l; lia).
  assert (0 ≤ v * (u1 + 1)) by (apply Z.mul_nonneg_nonneg; lia). lia.
Qed.

(** Two limbs. *)
Lemma two_limbs h l h' l' : limb h → limb l → limb h' → limb l' → h * B + l = h' * B + l' → h = h' ∧ l = l'.
Proof. unfold limb, B. lia. Qed.

Lemma two_limbs_le h l h' l' :
  limb h → limb l → limb h' → limb l' →
  (h' <=? h) && ((h' <? h) || (l' <=? l)) = (h' * B + l' <=? h * B + l).
Proof.
  intros. unfold limb in *. destruct (Z.leb_spec (h' * B + l') (h * B + l)).
  - rewrite !andb_true_iff, orb_true_iff, !Z.leb_le, Z.ltb_lt. unfold B in *. lia.
  - rewrite !andb_false_iff, orb_false_iff, !Z.leb_gt, Z.ltb_ge. unfold B in *. lia.
Qed.

Lemma limb_pair_lt h l : limb h → limb l → 0 ≤ h * B + l < B * B.
Proof. unfold limb, B. lia. Qed.

(** What the two subtractions leave is the candidate modulo [B * B]. *)
Lemma threeby2_remainder n2 n1 n0 d1 d0 q1 rt :
  rt = n2 * B * B + n1 * B + n0 - (q1 + 1) * (d1 * B + d0) →
  ((lsub n1 (lmul d1 q1) * B + n0 - (d1 * B + d0)) mod (B * B) - d0 * q1) mod (B * B) = rt mod (B * B).
Proof.
  intros ->. rewrite Zminus_mod_idemp_l. unfold lsub, lmul. rewrite u64_sub_r. unfold u64. change SIZE_MOD with B.
  pose proof (Z.div_mod (n1 - d1 * q1) B ltac:(done)) as Hdm.
  replace ((n1 - d1 * q1) mod B) with (n1 - d1 * q1 - B * ((n1 - d1 * q1) / B)) by lia.
  replace ((n1 - d1 * q1 - B * ((n1 - d1 * q1) / B)) * B + n0 - (d1 * B + d0) - d0 * q1)
    with (n2 * B * B + n1 * B + n0 - (q1 + 1) * (d1 * B + d0) + (- n2 - (n1 - d1 * q1) / B) * (B * B)) by ring.
  by rewrite Z.mod_add.
Qed.

Lemma udiv_qr_3by2_spec n2 n1 n0 d1 d0 :
  GMP_LIMB_HIGHBIT ≤ d1 < B → limb d0 → limb n2 → limb n1 → limb n0 → n2 * B + n1 < d1 * B + d0 →
  let '(q, r1, r0) := gmp_udiv_qr_3by2 n2 n1 n0 d1 d0 (inverse_3by2 (d1 * B + d0)) in
  n2 * B * B + n1 * B + n0 = q * (d1 * B + d0) + (r1 * B + r0) ∧
  r1 * B + r0 < d1 * B + d0 ∧ limb q ∧ limb r1 ∧ limb r0.
Proof.
  intros Hd1 Hd0 Hn2 Hn1 Hn0 Hlt. set (D := d1 * B + d0) in *.
  assert (GMP_LIMB_HIGHBIT * B ≤ D < B * B) as HD by (unfold D, limb, GMP_LIMB_HIGHBIT, B in *; lia).
  assert (limb d1) as Hd1' by (unfold limb, GMP_LIMB_HIGHBIT in *; lia).
  destruct (inverse_3by2_spec D HD) as [Hv HvD]. set (v := inverse_3by2 D) in *.
  unfold gmp_udiv_qr_3by2. pose proof (umul_ppmm_spec n2 v Hn2 Hv) as Hm.
  destruct (gmp_umul_ppmm n2 v) as [h l]. destruct Hm as (Em & Hh & Hl).
  pose proof (add_ssaaaa_spec h l n2 n1 Hh Hl Hn2 Hn1) as Ha.
  destruct (gmp_add_ssaaaa h l n2 n1) as [q1 q0]. destruct Ha as (Ea & Hq1 & Hq0).
  assert (0 ≤ v) as Hv0 by (unfold limb in Hv; lia).
  assert (B * B ≤ 2 * D) as HD2 by (unfold GMP_LIMB_HIGHBIT, B in *; lia).
  pose proof (threeby2_estimate B n2 n1 D v ltac:(done) ltac:(lia) Hv0 ltac:(unfold limb in *; lia)
    ltac:(unfold limb in *; lia) Hlt) as Hw.
  replace (h * B + l + n2 * B + n1) with ((B + v) * n2 + n1) in Ea by lia. rewrite Z.mod_small in Ea by done.
  pose proof (threeby2_candidate B n2 n1 n0 D v q1 q0 ltac:(done) HD2 ltac:(lia) HvD Hv0 Hn2 Hn1 Hn0 Hlt Hq0 Ea)
    as (H1 & H2 & H3).
  set (rt := n2 * B * B + n1 * B + n0 - (q1 + 1) * D) in *.
  pose proof (sub_ddmmss_spec _ n0 d1 d0 (limb_u64 (n1 - lmul d1 q1)) Hn0 Hd1' Hd0) as Hs1. fold (lsub n1 (lmul d1 q1)) in Hs1.
  destruct (gmp_sub_ddmmss (lsub n1 (lmul d1 q1)) n0 d1 d0) as [a1 a0]. destruct Hs1 as (Es1 & Ha1 & Ha0).
  pose proof (umul_ppmm_spec d0 q1 Hd0 Hq1) as Ht. destruct (gmp_umul_ppmm d0 q1) as [t1 t0].
  destruct Ht as (Et & Ht1 & Ht0).
  pose proof (sub_ddmmss_spec a1 a0 t1 t0 Ha1 Ha0 Ht1 Ht0) as Hs2.
  destruct (gmp_sub_ddmmss a1 a0 t1 t0) as [b1 b0]. destruct Hs2 as (Es2 & Hb1 & Hb0).
  rewrite Es1, Et, (threeby2_remainder n2 n1 n0 d1 d0 q1 rt eq_refl) in Es2.
  rewrite !land_mask by done.
  assert (rt < B * B) as H4 by (unfold limb, B in *; lia).
  destruct (threeby2_adjust B D rt q0 (b1 * B + b0) ltac:(done) HD2 ltac:(lia) Hq0 H1 H2 H3 H4 Es2) as [Hrange Hrest].
  replace (q0 * B <=? b1 * B + b0) with (q0 <=? b1) in * by (unfold limb, B in *; destruct (Z.leb_spec q0 b1), (Z.leb_spec (q0 * 18446744073709551616) (b1 * 18446744073709551616 + b0)); lia).
  set (c := q0 <=? b1) in *.
  assert (limb (if c then d1 else 0) ∧ limb (if c then d0 else 0)) as [Hm1 Hm0] by (destruct c; [done|by split; split]).
  pose proof (add_ssaaaa_spec b1 b0 _ _ Hb1 Hb0 Hm1 Hm0) as Hadd.
  destruct (gmp_add_ssaaaa b1 b0 _ _) as [c1 c0]. destruct Hadd as (Ec & Hc1 & Hc0).
  replace (b1 * B + b0 + (if c then d1 else 0) * B + (if c then d0 else 0)) with (b1 * B + b0 + (if c then D else 0)) in Ec
    by (unfold D; destruct c; lia).
  rewrite <- Ec in Hrange, Hrest. rewrite two_limbs_le by done. fold D.
  assert (∀ k q, k = b2l c - b2l (D <=? c1 * B + c0) → u64 q = u64 (q1 + 1 - k) →
    n2 * B * B + n1 * B + n0 = u64 q * D + (rt + k * D) ∧ limb (u64 q)) as Hfin.
  { intros k q Hk ->. rewrite <- Hk in Hrange.
    assert (n2 * B * B + n1 * B + n0 = (q1 + 1 - k) * D + (rt + k * D)) as E by (unfold rt; ring).
    assert (limb (q1 + 1 - k)) as Hlk; [|by rewrite u64_small].
    assert (0 < D) by (unfold GMP_LIMB_HIGHBIT, B in *; lia). unfold limb in *. split.
    - apply Z.lt_succ_r, (Z.mul_lt_mono_pos_r D); [done|]. unfold B in *. lia.
    - apply (Z.mul_lt_mono_pos_r D); [done|]. unfold B in *. lia. }
  destruct (Z.leb_spec D (c1 * B + c0)) as [Hge|Hlt'].
  - pose proof (sub_ddmmss_spec c1 c0 d1 d0 Hc1 Hc0 Hd1' Hd0) as Hs3.
    destruct (gmp_sub_ddmmss c1 c0 d1 d0) as [e1 e0]. destruct Hs3 as (Es3 & He1 & He0). fold D in Es3.
    rewrite Z.mod_small in Es3 by (pose proof (limb_pair_lt c1 c0 Hc1 Hc0); lia).
    rewrite Es3, Hrest. destruct (Hfin _ (ladd (ladd q1 1) (lneg (b2l c)) + 1) eq_refl) as [E Hlq].
    { unfold ladd, lneg, b2l. destruct c; limb_lia. }
    split_and!; [exact E|lia|exact Hlq|done|done].
  - rewrite Hrest. destruct (Hfin _ (ladd q1 1 + lneg (b2l c)) eq_refl) as [E Hlq].
    { unfold ladd, lneg, b2l. destruct c; limb_lia. }
    split_and!; [exact E|lia|exact Hlq|done|done].
Qed.

(** ** Properties *)

Lemma umul_ppmm_same u v : umul_ppmm u v = gmp_umul_ppmm u v.
Proof. reflexivity. Qed.

(** [div64_2by1] is the exact division of two limbs by one: for a divisor
    with its top bit set and a high limb below it, the quotient of the
    half-limb algorithm is the true quotient, and fits one limb. *)
Lemma div64_2by1_spec ul uh d :
  limb ul → 0 ≤ uh < d → GMP_LIMB_HIGHBIT ≤ d < B →
  div64_2by1 ul uh d = Ok ((uh * B + ul) / d) ∧ limb ((uh * B + ul) / d).
Proof.
  intros Hul Huh Hd. unfold div64_2by1.
  assert (ll_highpart d ≠ 0) as Hh.
  { unfold ll_highpart, lshr. rewrite high_half. unfold GMP_LIMB_HIGHBIT in *. limb_lia. }
  rewrite (proj2 (Z.eqb_neq _ _) Hh). simpl. pose proof (udiv_qrnnd_c_spec uh ul d Huh Hul Hd) as H.
  destruct (udiv_qrnnd_c uh ul d) as [q r]. destruct H as (E & Hr & Hq). simpl.
  assert ((uh * B + ul) / d = q) as -> by (symmetry; apply (Z.div_unique _ _ _ r); [lia|lia]). done.
Qed.

(** C35: the double-width operations of uint64gmp.h, on 64-bit operands:
    mul64_double returns the two halves of the 128-bit product;
    add64_with_carry and sub64_with_borrow, for a carry (or borrow) of at most
    1 coming in, and add64_3 return the sum (or difference) modulo 2^64 and the
    carry (or borrow) that makes it exact; lsld64 splits the shifted value when
    the count is between 1 and 63, and a count of 0 is undefined behaviour;
    div64_2by1, for a divisor with its top bit set and a high limb below it,
    returns the true quotient, which fits one limb. *)
Theorem uint64gmp_exact x y z c :
  limb x → limb y → limb z → 0 ≤ c ≤ 1 →
  (let '(lo, hi) := mul64_double x y in hi * B + lo = x * y ∧ limb lo ∧ limb hi) ∧
  (let '(r, cy) := add64_with_carry x y c in cy * B + r = x + y + c ∧ limb r ∧ 0 ≤ cy ≤ 1) ∧
  (let '(r, b) := sub64_with_borrow x y c in r - b * B = x - y - c ∧ limb r ∧ 0 ≤ b ≤ 1) ∧
  (let '(r, cy) := add64_3 x y z in cy * B + r = x + y + z ∧ limb r ∧ 0 ≤ cy ≤ 2) ∧
  (∀ n, 0 < n < 64 → ∃ lo hi, lsld64 x n = Ok (lo, hi) ∧ hi * B + lo = x * 2 ^ n ∧ limb lo ∧ limb hi) ∧
  lsld64 x 0 = Fail Undefined ∧
  (∀ d, y < d → GMP_LIMB_HIGHBIT ≤ d < B → div64_2by1 x y d = Ok ((y * B + x) / d) ∧ limb ((y * B + x) / d)).
Proof.
  intros Hx Hy Hz Hc. split_and!; [| | | | |done|intros d Hyd Hd; apply div64_2by1_spec; [done|unfold limb in *; lia|done]].
  - unfold mul64_double. rewrite umul_ppmm_same. pose proof (umul_ppmm_spec x y Hx Hy) as H.
    destruct (gmp_umul_ppmm x y). naive_solver.
  - unfold add64_with_carry. destruct (Z.eqb_spec (ladd (ladd x y) c) x), (Z.ltb_spec (ladd (ladd x y) c) x); limb_lia.
  - unfold sub64_with_borrow. destruct (Z.ltb_spec x (lsub (lsub x y) c)), (Z.eqb_spec (lsub (lsub x y) c) x); limb_lia.
  - unfold add64_3. destruct (Z.ltb_spec (ladd x y) y), (Z.ltb_spec (ladd (ladd x y) z) z); limb_lia.
  - intros n Hn. unfold lsld64. exists (lshl x n), (lshr x (64 - n)).
    assert (B = 2 ^ n * 2 ^ (64 - n)) as HB by (rewrite <- Z.pow_add_r by lia; by replace (n + (64 - n)) with 64 by lia).
    unfold lshl, lshr. rewrite Z.shiftl_mul_pow2, Z.shiftr_div_pow2 by lia.
    pose proof (Z.pow_pos_nonneg 2 n). pose proof (Z.pow_pos_nonneg 2 (64 - n)).
    assert (x * 2 ^ n / B = x / 2 ^ (64 - n)) as Hdiv by (rewrite HB, Z.mul_comm, Z.div_mul_cancel_l by lia; done).
    pose proof (Z.div_mod (x * 2 ^ n) B ltac:(done)) as Hdm. rewrite Hdiv in Hdm. unfold limb in *.
    split_and!; try apply limb_u64.
    + unfold defined. by destruct (Z.leb_spec 0 (64 - n)), (Z.ltb_spec (64 - n) 64), (Z.leb_spec 0 n), (Z.ltb_spec n 64); try lia.
    + unfold u64. change SIZE_MOD with B. lia.
    + apply Z.div_pos; lia.
    + apply Z.div_lt_upper_bound; nia.
Qed.

Lemma uint64gmp_exact_witness :
  let '(lo, hi) := mul64_double (B - 1) (B - 1) in hi * B + lo = (B - 1) * (B - 1) ∧ limb lo ∧ limb hi.
Proof. apply (uint64gmp_exact (B - 1) (B - 1) 0 0); unfold limb, B; lia. Defined.

(** The divisions by a precomputed inverse return the exact quotient and
    remainder, although every intermediate product and sum wraps: two limbs by
    one normalised limb with its 2/1 inverse, and three limbs by two normalised
    limbs with their 3/2 inverse. *)
Theorem udiv_preinv_exact n2 n1 n0 d1 d0 :
  GMP_LIMB_HIGHBIT ≤ d1 < B → limb d0 → limb n2 → limb n1 → limb n0 →
  (n1 < d1 →
   let '(q, r) := gmp_udiv_qrnnd_preinv n1 n0 d1 (inverse_2by1 d1) in
   q = (n1 * B + n0) / d1 ∧ r = (n1 * B + n0) mod d1 ∧ limb q) ∧
  (n2 * B + n1 < d1 * B + d0 →
   let '(q, r1, r0) := gmp_udiv_qr_3by2 n2 n1 n0 d1 d0 (inverse_3by2 (d1 * B + d0)) in
   let n := n2 * B * B + n1 * B + n0 in
   q = n / (d1 * B + d0) ∧ r1 * B + r0 = n mod (d1 * B + d0) ∧ limb q ∧ limb r1 ∧ limb r0).
Proof.
  intros Hd1 Hd0 Hn2 Hn1 Hn0. split; intros Hlt.
  - pose proof (udiv_qrnnd_preinv_spec n1 n0 d1 Hd1 ltac:(unfold limb in *; lia) Hn0) as H.
    destruct (gmp_udiv_qrnnd_preinv _ _ _ _) as [q r]. destruct H as (E & Hr & Hq).
    split_and!; [apply (Z.div_unique _ _ _ r)|apply (Z.mod_unique _ _ q)|done]; lia.
  - pose proof (udiv_qr_3by2_spec n2 n1 n0 d1 d0 Hd1 Hd0 Hn2 Hn1 Hn0 Hlt) as H.
    destruct (gmp_udiv_qr_3by2 _ _ _ _ _ _) as [[q r1] r0]. destruct H as (E & Hr & Hq & Hr1 & Hr0).
    pose proof (limb_pair_lt r1 r0 Hr1 Hr0).
    split_and!; [apply (Z.div_unique _ _ _ (r1 * B + r0))|apply (Z.mod_unique _ _ q)|done..]; lia.
Qed.

Lemma udiv_preinv_exact_witness :
  (1 < B - 1 →
   let '(q, r) := gmp_udiv_qrnnd_preinv 1 2 (B - 1) (inverse_2by1 (B - 1)) in
   q = (1 * B + 2) / (B - 1) ∧ r = (1 * B + 2) mod (B - 1) ∧ limb q) ∧
  (3 * B + 1 < (B - 1) * B + 9 →
   let '(q, r1, r0) := gmp_udiv_qr_3by2 3 1 2 (B - 1) 9 (inverse_3by2 ((B - 1) * B + 9)) in
   let n := 3 * B * B + 1 * B + 2 in
   q = n / ((B - 1) * B + 9) ∧ r1 * B + r0 = n mod ((B - 1) * B + 9) ∧ limb q ∧ limb r1 ∧ limb r0).
Proof. apply (udiv_preinv_exact 3 1 2 (B - 1) 9); unfold limb, GMP_LIMB_HIGHBIT, B; lia. Defined.
