(* ===== verification/Mpn.v ===== *)
(** * Natural numbers in memory (the mpn functions of mini-gmp.c)

    The memory is a set of cells of one limb each, addressed by integers;
    a pointer is an address, so that operands may overlap as they do in C.
    Reading or writing a cell that is not allocated, or reading one that has
    not been written, is undefined. Loops run upwards ([loop1], [loop2]) or
    downwards over the limbs, and the theorems state the value of the result
    and that nothing else in memory changes. *)

From S2P Require Import Prelude Limbs.

Record mem := Mk_mem {
  cells : gmap Z (option Z);       (* None: allocated, not written *)
  blocks : gmap Z Z;               (* the sizes of the allocated blocks *)
  next : Z;                        (* every address from here on is free *)
}.

Definition set_cells (c : gmap Z (option Z)) (m : mem) : mem := Mk_mem c (blocks m) (next m).

Definition load (p : Z) : M mem Z := λ m,
  match cells m !! p with Some (Some v) => Done v m | _ => Failed Undefined end.
Definition store (p v : Z) : M mem unit := λ m,
  match cells m !! p with
  | Some _ => Done tt (set_cells (<[p := Some v]> (cells m)) m)
  | None => Failed Undefined
  end.

(** [n] cells from [p] on, not yet written. *)
Fixpoint fresh_cells (c : gmap Z (option Z)) (p : Z) (n : nat) : gmap Z (option Z) :=
  match n with O => c | S n' => <[p := None]> (fresh_cells c (p + 1) n') end.
Fixpoint drop_cells (c : gmap Z (option Z)) (p : Z) (n : nat) : gmap Z (option Z) :=
  match n with O => c | S n' => delete p (drop_cells c (p + 1) n') end.

(** ** Allocation

    gmp_default_alloc and gmp_default_free with sizes counted in limbs; memory
    exhaustion aborts the program. *)
Definition gmp_xalloc_limbs (size : Z) : M mem Z :=
  _ ← lift (assertion (0 <? size));
  ((λ m, if size <=? alloc_limit
         then Done (next m) (Mk_mem (fresh_cells (cells m) (next m) (Z.to_nat size))
                               (<[next m := size]> (blocks m)) (next m + size))
         else Failed Exhausted) : M mem Z).

Definition gmp_free (p : Z) : M mem unit := λ m,
  match blocks m !! p with
  | Some size => Done tt (Mk_mem (drop_cells (cells m) p (Z.to_nat size)) (delete p (blocks m)) (next m))
  | None => Failed Undefined
  end.

(** ** Loops *)

(** [for (i = 0; i < n; i++)]: the accumulator and [rp[i]] from [ap[i]]. *)
Fixpoint loop1 (body : Z → Z → Z * Z) (rp ap : Z) (n : nat) (c : Z) : M mem Z :=
  match n with
  | O => mret c
  | S n' =>
      a ← load ap;
      let '(c, r) := body c a in
      _ ← store rp r;
      loop1 body (rp + 1) (ap + 1) n' c
  end.

(** The same with two sources. *)
Fixpoint loop2 (body : Z → Z → Z → Z * Z) (rp ap bp : Z) (n : nat) (c : Z) : M mem Z :=
  match n with
  | O => mret c
  | S n' =>
      a ← load ap;
      b ← load bp;
      let '(c, r) := body c a b in
      _ ← store rp r;
      loop2 body (rp + 1) (ap + 1) (bp + 1) n' c
  end.

(** ** Copying, comparing *)

Definition mpn_copyi (d s n : Z) : M mem unit :=
  _ ← loop1 (λ c a, (c, a)) d s (Z.to_nat n) 0; mret tt.

Fixpoint mpn_copyd_loop (d s : Z) (n : nat) : M mem unit :=
  match n with
  | O => mret tt
  | S i =>
      a ← load (s + Z.of_nat i);
      _ ← store (d + Z.of_nat i) a;
      mpn_copyd_loop d s i
  end.
Definition mpn_copyd (d s n : Z) : M mem unit := mpn_copyd_loop d s (Z.to_nat n).

Fixpoint mpn_cmp_loop (ap bp : Z) (n : nat) : M mem Z :=
  match n with
  | O => mret 0
  | S i =>
      a ← load (ap + Z.of_nat i);
      b ← load (bp + Z.of_nat i);
      if negb (a =? b) then mret (if b <? a then 1 else -1) else mpn_cmp_loop ap bp i
  end.
Definition mpn_cmp (ap bp n : Z) : M mem Z := mpn_cmp_loop ap bp (Z.to_nat n).

Definition mpn_cmp4 (ap an bp bn : Z) : M mem Z :=
  if negb (an =? bn) then mret (if an <? bn then -1 else 1) else mpn_cmp ap bp an.

Fixpoint mpn_normalized_loop (xp : Z) (n : nat) : M mem Z :=
  match n with
  | O => mret 0
  | S i =>
      x ← load (xp + Z.of_nat i);
      if x =? 0 then mpn_normalized_loop xp i else mret (Z.of_nat n)
  end.
Definition mpn_normalized_size (xp n : Z) : M mem Z :=
  if n <=? 0 then mret n else mpn_normalized_loop xp (Z.to_nat n).

Definition mpn_zero_p (rp n : Z) : M mem bool :=
  s ← mpn_normalized_size rp n; mret (s =? 0).

Fixpoint mpn_zero_loop (rp : Z) (n : nat) : M mem unit :=
  match n with O => mret tt | S i => _ ← store (rp + Z.of_nat i) 0; mpn_zero_loop rp i end.
Definition mpn_zero (rp n : Z) : M mem unit := mpn_zero_loop rp (Z.to_nat n).

(** ** Addition and subtraction *)

Definition add_1_body (b a : Z) : Z * Z :=
  let r := ladd a b in (b2l (r <? b), r).
Definition mpn_add_1 (rp ap n b : Z) : M mem Z :=
  _ ← lift (assertion (0 <? n));
  loop1 add_1_body rp ap (Z.to_nat n) b.

Definition add_n_body (cy a b : Z) : Z * Z :=
  let r := ladd a cy in
  let cy := b2l (r <? cy) in
  let r := ladd r b in
  (ladd cy (b2l (r <? b)), r).
Definition mpn_add_n (rp ap bp n : Z) : M mem Z := loop2 add_n_body rp ap bp (Z.to_nat n) 0.

Definition mpn_add (rp ap an bp bn : Z) : M mem Z :=
  _ ← lift (assertion (bn <=? an));
  cy ← mpn_add_n rp ap bp bn;
  if bn <? an then mpn_add_1 (rp + bn) (ap + bn) (an - bn) cy else mret cy.

Definition sub_1_body (b a : Z) : Z * Z := (b2l (a <? b), lsub a b).
Definition mpn_sub_1 (rp ap n b : Z) : M mem Z :=
  _ ← lift (assertion (0 <? n));
  loop1 sub_1_body rp ap (Z.to_nat n) b.

Definition sub_n_body (cy a b : Z) : Z * Z :=
  let b := ladd b cy in
  let cy := b2l (b <? cy) in
  let cy := ladd cy (b2l (a <? b)) in
  (cy, lsub a b).
Definition mpn_sub_n (rp ap bp n : Z) : M mem Z := loop2 sub_n_body rp ap bp (Z.to_nat n) 0.

Definition mpn_sub (rp ap an bp bn : Z) : M mem Z :=
  _ ← lift (assertion (bn <=? an));
  cy ← mpn_sub_n rp ap bp bn;
  if bn <? an then mpn_sub_1 (rp + bn) (ap + bn) (an - bn) cy else mret cy.

(** ** Multiplication *)

Definition mul_1_body (vl cl ul : Z) : Z * Z :=
  let '(hpl, lpl) := gmp_umul_ppmm ul vl in
  let lpl := ladd lpl cl in
  (ladd (b2l (lpl <? cl)) hpl, lpl).
Definition mpn_mul_1 (rp up n vl : Z) : M mem Z :=
  _ ← lift (assertion (1 <=? n));
  loop1 (mul_1_body vl) rp up (Z.to_nat n) 0.

Definition addmul_1_body (vl cl ul rl : Z) : Z * Z :=
  let '(hpl, lpl) := gmp_umul_ppmm ul vl in
  let lpl := ladd lpl cl in
  let cl := ladd (b2l (lpl <? cl)) hpl in
  let lpl := ladd rl lpl in
  (ladd cl (b2l (lpl <? rl)), lpl).
Definition mpn_addmul_1 (rp up n vl : Z) : M mem Z :=
  _ ← lift (assertion (1 <=? n));
  loop2 (addmul_1_body vl) rp up rp (Z.to_nat n) 0.

Definition submul_1_body (vl cl ul rl : Z) : Z * Z :=
  let '(hpl, lpl) := gmp_umul_ppmm ul vl in
  let lpl := ladd lpl cl in
  let cl := ladd (b2l (lpl <? cl)) hpl in
  let lpl := lsub rl lpl in
  (ladd cl (b2l (rl <? lpl)), lpl).
Definition mpn_submul_1 (rp up n vl : Z) : M mem Z :=
  _ ← lift (assertion (1 <=? n));
  loop2 (submul_1_body vl) rp up rp (Z.to_nat n) 0.

(** [while (--vn >= 1)], with [vn - 1] as fuel; the result is the final
    [rp[un]]. *)
Fixpoint mpn_mul_loop (rp up un vp : Z) (n : nat) : M mem Z :=
  match n with
  | O => load (rp + un)
  | S n' =>
      let rp := rp + 1 in
      let vp := vp + 1 in
      v ← load vp;
      c ← mpn_addmul_1 rp up un v;
      _ ← store (rp + un) c;
      mpn_mul_loop rp up un vp n'
  end.

Definition mpn_mul (rp up un vp vn : Z) : M mem Z :=
  _ ← lift (assertion (vn <=? un));
  _ ← lift (assertion (1 <=? vn));
  v ← load vp;
  c ← mpn_mul_1 rp up un v;
  _ ← store (rp + un) c;
  mpn_mul_loop rp up un vp (Z.to_nat (vn - 1)).

Definition mpn_mul_n (rp ap bp n : Z) : M mem unit := _ ← mpn_mul rp ap n bp n; mret tt.
Definition mpn_sqr (rp ap n : Z) : M mem unit := _ ← mpn_mul rp ap n ap n; mret tt.

(** ** Shifts *)

(** The loop of mpn_lshift: [i] limbs are left below, [high_limb] is still to
    be stored. *)
Fixpoint lshift_loop (rp up cnt : Z) (i : nat) (high_limb : Z) : M mem unit :=
  match i with
  | O => store rp high_limb
  | S j =>
      low_limb ← load (up + Z.of_nat j);
      _ ← store (rp + Z.of_nat i) (Z.lor high_limb (lshr low_limb (GMP_LIMB_BITS - cnt)));
      lshift_loop rp up cnt j (lshl low_limb cnt)
  end.

Definition mpn_lshift (rp up n cnt : Z) : M mem Z :=
  _ ← lift (assertion (1 <=? n));
  _ ← lift (assertion (1 <=? cnt));
  _ ← lift (assertion (cnt <? GMP_LIMB_BITS));
  low_limb ← load (up + n - 1);
  _ ← lshift_loop rp up cnt (Z.to_nat (n - 1)) (lshl low_limb cnt);
  mret (lshr low_limb (GMP_LIMB_BITS - cnt)).

Fixpoint rshift_loop (rp up cnt : Z) (n : nat) (low_limb : Z) : M mem unit :=
  match n with
  | O => store rp low_limb
  | S n' =>
      high_limb ← load up;
      _ ← store rp (Z.lor low_limb (lshl high_limb (GMP_LIMB_BITS - cnt)));
      rshift_loop (rp + 1) (up + 1) cnt n' (lshr high_limb cnt)
  end.

Definition mpn_rshift (rp up n cnt : Z) : M mem Z :=
  _ ← lift (assertion (1 <=? n));
  _ ← lift (assertion (1 <=? cnt));
  _ ← lift (assertion (cnt <? GMP_LIMB_BITS));
  high_limb ← load up;
  _ ← rshift_loop rp (up + 1) cnt (Z.to_nat (n - 1)) (lshr high_limb cnt);
  mret (lshl high_limb (GMP_LIMB_BITS - cnt)).

(** ** Bits *)

(** The loop of mpn_common_scan; [n] bounds the number of limbs read, and
    [None] is the result when the limbs end first. *)
Fixpoint scan_loop (limb i up un ux : Z) (n : nat) : M mem (option (Z * Z)) :=
  if limb =? 0 then
    let i := i + 1 in
    if i =? un then mret None
    else match n with
         | O => failM Undefined
         | S n' => x ← load (up + i); scan_loop (Z.lxor ux x) i up un ux n'
         end
  else mret (Some (limb, i)).

(** [fuel] bounds the limbs that mpn_scan1 and mpn_scan0 go through: they have
    no other end than a set (cleared) bit. *)
Definition mpn_common_scan (fuel : nat) (limb i up un ux : Z) : M mem Z :=
  _ ← lift (assertion ((ux =? 0) || (ux =? GMP_LIMB_MAX)));
  _ ← lift (assertion ((0 <=? i) && (i <=? un)));
  r ← scan_loop limb i up un ux fuel;
  match r with
  | None => mret (if ux =? 0 then B - 1 else un * GMP_LIMB_BITS)
  | Some (limb, i) =>
      cnt ← lift (gmp_ctz limb);
      mret (u64 (i * GMP_LIMB_BITS + cnt))
  end.

Definition mpn_scan1 (fuel : nat) (ptr bit : Z) : M mem Z :=
  let i := bit / GMP_LIMB_BITS in
  x ← load (ptr + i);
  mpn_common_scan fuel (Z.land x (lshl GMP_LIMB_MAX (bit mod GMP_LIMB_BITS))) i ptr i 0.

Definition mpn_scan0 (fuel : nat) (ptr bit : Z) : M mem Z :=
  let i := bit / GMP_LIMB_BITS in
  x ← load (ptr + i);
  mpn_common_scan fuel (Z.land (lnot x) (lshl GMP_LIMB_MAX (bit mod GMP_LIMB_BITS))) i ptr i GMP_LIMB_MAX.

Definition mpn_com (rp up n : Z) : M mem unit :=
  _ ← loop1 (λ c a, (c, lnot a)) rp up (Z.to_nat n) 0; mret tt.

(** The loop over the low zero limbs; [n] limbs are left. *)
Fixpoint mpn_neg_loop (rp up : Z) (n : nat) : M mem Z :=
  match n with
  | O => failM Undefined                (* n = 0 on entry: the counter wraps *)
  | S n' =>
      u ← load up;
      if u =? 0 then
        _ ← store rp 0;
        match n' with O => mret 0 | _ => mpn_neg_loop (rp + 1) (up + 1) n' end
      else
        _ ← store rp (lneg u);
        _ ← mpn_com (rp + 1) (up + 1) (Z.of_nat n');
        mret 1
  end.
Definition mpn_neg (rp up n : Z) : M mem Z := mpn_neg_loop rp up (Z.to_nat n).

(** ** Representation *)

(** The number that a list of limbs stands for, lowest limb first. *)
Fixpoint value (xs : list Z) : Z := match xs with [] => 0 | x :: xs' => x + B * value xs' end.

(** The limbs [xs] are in memory from [p] on. *)
Definition limbs_at (m : mem) (p : Z) (xs : list Z) : Prop :=
  Forall limb xs ∧ ∀ i x, xs !! i = Some x → cells m !! (p + Z.of_nat i) = Some (Some x).

(** The [n] cells from [p] on are allocated. *)
Definition writable (m : mem) (p : Z) (n : nat) : Prop :=
  ∀ i, (i < n)%nat → is_Some (cells m !! (p + Z.of_nat i)).

(** The memory after writing [xs] from [p] on. *)
Fixpoint write_cells (c : gmap Z (option Z)) (p : Z) (xs : list Z) : gmap Z (option Z) :=
  match xs with [] => c | x :: xs' => write_cells (<[p := Some x]> c) (p + 1) xs' end.
Definition write (m : mem) (p : Z) (xs : list Z) : mem := set_cells (write_cells (cells m) p xs) m.

(** Operands an upward (a downward) loop may use: the destination is not above
    (not below) a source that it overlaps. *)
Definition upward (d s n : Z) : Prop := d ≤ s ∨ s + n ≤ d.
Definition downward (d s n : Z) : Prop := s ≤ d ∨ d + n ≤ s.
Definition disjoint (p n q k : Z) : Prop := p + n ≤ q ∨ q + k ≤ p.

(** ** Lemmas on memory *)

Lemma lookup_write_cells c p xs a :
  write_cells c p xs !! a =
  if (p <=? a) && (a <? p + Z.of_nat (length xs)) then Some <$> xs !! Z.to_nat (a - p) else c !! a.
Proof.
  revert c p. induction xs as [|x xs IH]; intros c p; cbn [write_cells length].
  - by guard_false ((p <=? a) && (a <? p + Z.of_nat 0)).
  - rewrite IH. destruct (Z.eq_dec a p) as [->|Hne].
    + guard_false ((p + 1 <=? p) && (p <? p + 1 + Z.of_nat (length xs))).
      guard_true ((p <=? p) && (p <? p + Z.of_nat (S (length xs)))).
      rewrite lookup_insert_eq, Z.sub_diag. done.
    + destruct ((p + 1 <=? a) && (a <? p + 1 + Z.of_nat (length xs))) eqn:Hb; bool_to_prop.
      * guard_true ((p <=? a) && (a <? p + Z.of_nat (S (length xs)))).
        replace (Z.to_nat (a - p)) with (S (Z.to_nat (a - (p + 1)))) by lia. done.
      * rewrite lookup_insert_ne by done.
        destruct ((p <=? a) && (a <? p + Z.of_nat (S (length xs)))) eqn:Hb'; [|done].
        bool_to_prop. destruct Hb as [Hb|Hb]; bool_to_prop; lia.
Qed.

Lemma write_nil m p : write m p [] = m.
Proof. by destruct m. Qed.

Lemma write_cons m p x xs : write m p (x :: xs) = write (set_cells (<[p := Some x]> (cells m)) m) (p + 1) xs.
Proof. done. Qed.

Lemma write_write m p xs ys : write (write m p xs) (p + Z.of_nat (length xs)) ys = write m p (xs ++ ys).
Proof.
  unfold write, set_cells. simpl. f_equal. revert p. generalize (cells m). induction xs as [|x xs IH]; intros c p; cbn [write_cells app length].
  - by rewrite Z.add_0_r.
  - replace (p + Z.of_nat (S (length xs))) with (p + 1 + Z.of_nat (length xs)) by lia. apply IH.
Qed.

Lemma writable_write m p xs q n : writable m q n → writable (write m p xs) q n.
Proof.
  intros Hw i Hi. simpl. rewrite lookup_write_cells. case_match eqn:Hb; [|by apply Hw].
  bool_to_prop. destruct (lookup_lt_is_Some_2 xs (Z.to_nat (q + Z.of_nat i - p))) as [x ->]; [lia|]. simpl. eauto.
Qed.

Lemma limbs_at_write m p xs : Forall limb xs → limbs_at (write m p xs) p xs.
Proof.
  intros Hx. split; [done|]. intros i x Hi. simpl. rewrite lookup_write_cells. pose proof (lookup_lt_Some _ _ _ Hi).
  guard_true ((p <=? p + Z.of_nat i) && (p + Z.of_nat i <? p + Z.of_nat (length xs))).
  replace (Z.to_nat (p + Z.of_nat i - p)) with i by lia. by rewrite Hi.
Qed.

(** What is written elsewhere does not change the limbs. *)
Lemma limbs_at_frame m p xs q ys :
  limbs_at m q ys → disjoint p (Z.of_nat (length xs)) q (Z.of_nat (length ys)) → limbs_at (write m p xs) q ys.
Proof.
  intros [Hy Hl] Hd. split; [done|]. intros i x Hi. simpl. rewrite lookup_write_cells.
  pose proof (lookup_lt_Some _ _ _ Hi). unfold disjoint in Hd.
  destruct ((p <=? q + Z.of_nat i) && (q + Z.of_nat i <? p + Z.of_nat (length xs))) eqn:Hb; [bool_to_prop; lia|]. auto.
Qed.

Lemma limbs_at_app m p xs ys :
  limbs_at m p (xs ++ ys) ↔ limbs_at m p xs ∧ limbs_at m (p + Z.of_nat (length xs)) ys.
Proof.
  unfold limbs_at. rewrite Forall_app. split.
  - intros [[Hx Hy] Hl]. split; (split; [done|]); intros i x Hi.
    + apply Hl. by apply lookup_app_l_Some.
    + replace (p + Z.of_nat (length xs) + Z.of_nat i) with (p + Z.of_nat (length xs + i)) by lia.
      apply Hl. rewrite lookup_app_r by lia. by replace (length xs + i - length xs)%nat with i by lia.
  - intros [[Hx Hlx] [Hy Hly]]. split; [done|]. intros i x [Hi|[Hge Hi]]%lookup_app_Some; [auto|].
    replace (p + Z.of_nat i) with (p + Z.of_nat (length xs) + Z.of_nat (i - length xs)) by lia. auto.
Qed.

Lemma limbs_at_cons m p x xs :
  limbs_at m p (x :: xs) ↔ (limb x ∧ cells m !! p = Some (Some x)) ∧ limbs_at m (p + 1) xs.
Proof.
  change (x :: xs) with ([x] ++ xs). rewrite limbs_at_app. cbn [length Z.of_nat Pos.of_succ_nat].
  apply and_iff_compat_r. unfold limbs_at. rewrite Forall_singleton. split.
  - intros [? Hl]. split; [done|]. specialize (Hl O x eq_refl). by rewrite Z.add_0_r in Hl.
  - intros [? Hc]. split; [done|]. intros [|i] y Hi; simplify_eq/=. by rewrite Z.add_0_r.
Qed.

Lemma writable_limbs m p xs : limbs_at m p xs → writable m p (length xs).
Proof. intros [_ Hl] i Hi. destruct (lookup_lt_is_Some_2 xs i Hi) as [x Hx]. erewrite Hl by done. eauto. Qed.

Lemma writable_add m p a b :
  writable m p (a + b) ↔ writable m p a ∧ writable m (p + Z.of_nat a) b.
Proof.
  split.
  - intros Hw. split; intros i Hi; [apply Hw; lia|].
    replace (p + Z.of_nat a + Z.of_nat i) with (p + Z.of_nat (a + i)) by lia. apply Hw. lia.
  - intros [H1 H2] i Hi. destruct (decide (i < a)%nat); [auto|].
    replace (p + Z.of_nat i) with (p + Z.of_nat a + Z.of_nat (i - a)) by lia. apply H2. lia.
Qed.

Lemma load_ok m p v : cells m !! p = Some (Some v) → load p m = Done v m.
Proof. unfold load. by intros ->. Qed.
Lemma store_ok m p v : is_Some (cells m !! p) → store p v m = Done tt (write m p [v]).
Proof. unfold store. by intros [? ->]. Qed.

Lemma load_limbs m p xs i x : limbs_at m p xs → xs !! i = Some x → load (p + Z.of_nat i) m = Done x m.
Proof. intros [_ Hl] Hi. by apply load_ok, Hl. Qed.

(** ** Loops as functions on lists *)

Fixpoint acc2 (body : Z → Z → Z → Z * Z) (c : Z) (xs ys : list Z) : Z * list Z :=
  match xs, ys with
  | x :: xs', y :: ys' =>
      let '(c', r) := body c x y in
      let '(c'', rs) := acc2 body c' xs' ys' in (c'', r :: rs)
  | _, _ => (c, [])
  end.

Lemma loop2_acc body rp ap bp n c m xs ys :
  limbs_at m ap xs → limbs_at m bp ys → length xs = n → length ys = n → writable m rp n →
  upward rp ap (Z.of_nat n) → upward rp bp (Z.of_nat n) →
  loop2 body rp ap bp n c m = Done (acc2 body c xs ys).1 (write m rp (acc2 body c xs ys).2).
Proof.
  revert rp ap bp c m xs ys. induction n as [|n IH]; intros rp ap bp c m xs ys Hx Hy Hlx Hly Hw Ha Hb.
  - destruct xs, ys; simplify_eq/=. by destruct m.
  - destruct xs as [|x xs]; [done|]. destruct ys as [|y ys]; [done|]. simplify_eq/=.
    apply limbs_at_cons in Hx as [[_ Hx0] Hx]. apply limbs_at_cons in Hy as [[_ Hy0] Hy].
    rewrite (bind_done _ _ _ _ _ (load_ok _ _ _ Hx0)), (bind_done _ _ _ _ _ (load_ok _ _ _ Hy0)).
    destruct (body c x y) as [c' r] eqn:Hbody.
    assert (is_Some (cells m !! rp)) as Hr by (specialize (Hw O ltac:(lia)); by rewrite Z.add_0_r in Hw).
    rewrite (bind_done _ _ _ _ _ (store_ok _ _ r Hr)). unfold upward in *.
    rewrite (IH _ _ _ _ _ xs ys); [|apply limbs_at_frame; [done|unfold disjoint; simpl; lia]
      |apply limbs_at_frame; [done|unfold disjoint; simpl; lia]|done|done| |lia|lia].
    + by destruct (acc2 body c' xs ys).
    + apply writable_write. intros i Hi. replace (rp + 1 + Z.of_nat i) with (rp + Z.of_nat (S i)) by lia. apply Hw. lia.
Qed.

Lemma loop1_loop2 body rp ap n c m : loop1 body rp ap n c m = loop2 (λ c a _, body c a) rp ap ap n c m.
Proof.
  revert rp ap c m. induction n as [|n IH]; intros rp ap c m; [done|]. simpl.
  unfold mbind, M_bind, load. destruct (cells m !! ap) as [[v|]|] eqn:Hv; [|done..]. rewrite Hv.
  destruct (body c v) as [c' r]. destruct (store rp r m) as [[] m'| |]; [apply IH|done..].
Qed.

(** The limbs of the result and what leaves them: a body that computes
    [F a b + s * c] in one limb and an accumulator. *)
Section accumulate.
Context (body : Z → Z → Z → Z * Z) (F : Z → Z → Z) (s : Z) (I : Z → Prop).

Definition accumulates : Prop := ∀ c a b, I c → limb a → limb b →
  let '(c', r) := body c a b in I c' ∧ limb r ∧ r + B * (s * c') = F a b + s * c.

Lemma acc2_value c xs ys :
  accumulates → I c → Forall limb xs → Forall limb ys → length xs = length ys →
  let '(c', rs) := acc2 body c xs ys in
  I c' ∧ Forall limb rs ∧ length rs = length xs ∧
  value rs + B ^ Z.of_nat (length xs) * (s * c') = value (zip_with F xs ys) + s * c.
Proof.
  intros Hbody. revert c ys. induction xs as [|x xs IH]; intros c [|y ys] Hc Hx Hy Hl; simplify_eq/=.
  - split_and!; [done|done|done|]. lia.
  - apply Forall_cons in Hx as [Hx0 Hx]. apply Forall_cons in Hy as [Hy0 Hy].
    specialize (Hbody c x y Hc Hx0 Hy0) as Hb. destruct (body c x y) as [c' r]. destruct Hb as (Hc' & Hr & E).
    specialize (IH c' ys Hc' Hx Hy Hl). destruct (acc2 body c' xs ys) as [c'' rs]. destruct IH as (Hc'' & Hrs & Hlr & E').
    split_and!; [done|by constructor|simpl; lia|]. cbn [value].
    change (Z.pos (Pos.of_succ_nat (length xs))) with (Z.of_nat (S (length xs))).
    rewrite Nat2Z.inj_succ, Z.pow_succ_r by lia.
    replace (B * B ^ Z.of_nat (length xs) * (s * c'')) with (B * (B ^ Z.of_nat (length xs) * (s * c''))) by ring. lia.
Qed.
End accumulate.

Lemma value_zip_lin (f g : Z) xs ys :
  length xs = length ys → value (zip_with (λ a b, f * a + g * b) xs ys) = f * value xs + g * value ys.
Proof.
  revert ys. induction xs as [|x xs IH]; intros [|y ys] Hl; simplify_eq/=; [lia|]. rewrite IH by done. lia.
Qed.

Lemma zip_with_eq (F G : Z → Z → Z) xs ys : (∀ a b, F a b = G a b) → zip_with F xs ys = zip_with G xs ys.
Proof. intros H. revert ys. induction xs as [|x xs IH]; intros [|y ys]; simpl; [done..|]. by rewrite H, IH. Qed.

Lemma value_app xs ys : value (xs ++ ys) = value xs + B ^ Z.of_nat (length xs) * value ys.
Proof.
  induction xs as [|x xs IH]; cbn [app value length]; [lia|].
  rewrite IH, Nat2Z.inj_succ, Z.pow_succ_r by lia.
  replace (B * B ^ Z.of_nat (length xs) * value ys) with (B * (B ^ Z.of_nat (length xs) * value ys)) by ring. lia.
Qed.

Lemma value_bounds xs : Forall limb xs → 0 ≤ value xs < B ^ Z.of_nat (length xs).
Proof.
  induction 1 as [|x xs Hx _ IH]; cbn [value length]; [lia|].
  rewrite Nat2Z.inj_succ, Z.pow_succ_r by lia. unfold limb in Hx. split; [|unfold B in *; lia].
  apply Z.add_nonneg_nonneg; [lia|]. apply Z.mul_nonneg_nonneg; [done|lia].
Qed.

Lemma value_inj xs ys : Forall limb xs → Forall limb ys → length xs = length ys → value xs = value ys → xs = ys.
Proof.
  intros Hx. revert ys. induction Hx as [|x xs Hx0 Hx IH]; intros [|y ys] Hy Hl E; simplify_eq/=; [done|].
  apply Forall_cons in Hy as [Hy0 Hy]. assert (x = y ∧ value xs = value ys) as [-> Hv] by (unfold limb, B in *; lia).
  f_equal. by apply IH.
Qed.

(** ** The bodies *)

Lemma add_1_accumulates : accumulates (λ c a _, add_1_body c a) (λ a b, 1 * a + 0 * b) 1 limb.
Proof.
  intros c a b Hc Ha _. unfold add_1_body. destruct (Z.ltb_spec (ladd a c) c); unfold b2l; limb_lia.
Qed.
Lemma add_n_accumulates : accumulates add_n_body (λ a b, 1 * a + 1 * b) 1 (λ c, 0 ≤ c ≤ 1).
Proof.
  intros c a b Hc Ha Hb. unfold add_n_body. cbv zeta.
  destruct (Z.ltb_spec (ladd a c) c), (Z.ltb_spec (ladd (ladd a c) b) b); unfold b2l; limb_lia.
Qed.
Lemma sub_1_accumulates : accumulates (λ c a _, sub_1_body c a) (λ a b, 1 * a + 0 * b) (-1) limb.
Proof. intros c a b Hc Ha _. unfold sub_1_body. destruct (Z.ltb_spec a c); unfold b2l; limb_lia. Qed.
Lemma sub_n_accumulates : accumulates sub_n_body (λ a b, 1 * a + -1 * b) (-1) (λ c, 0 ≤ c ≤ 1).
Proof.
  intros c a b Hc Ha Hb. unfold sub_n_body. cbv zeta.
  destruct (Z.ltb_spec (ladd b c) c), (Z.ltb_spec a (ladd b c)); unfold b2l; limb_lia.
Qed.

Lemma product_bound x y : limb x → limb y → 0 ≤ x * y ≤ (B - 1) * (B - 1).
Proof. unfold limb. intros. split; [apply Z.mul_nonneg_nonneg|apply Z.mul_le_mono_nonneg]; lia. Qed.

Lemma mul_1_accumulates v : limb v → accumulates (λ c a _, mul_1_body v c a) (λ a b, v * a + 0 * b) 1 limb.
Proof.
  intros Hv c a b Hc Ha _. unfold mul_1_body. pose proof (umul_ppmm_spec a v Ha Hv) as H.
  destruct (gmp_umul_ppmm a v) as [h l]. destruct H as (E & Hh & Hl). pose proof (product_bound a v Ha Hv).
  replace (v * a + 0 * b) with (a * v) by ring. rewrite <- E in *. clear E.
  destruct (Z.ltb_spec (ladd l c) c); unfold b2l; limb_lia.
Qed.
Lemma addmul_1_accumulates v : limb v → accumulates (addmul_1_body v) (λ a b, v * a + 1 * b) 1 limb.
Proof.
  intros Hv c a b Hc Ha Hb. unfold addmul_1_body. pose proof (umul_ppmm_spec a v Ha Hv) as H.
  destruct (gmp_umul_ppmm a v) as [h l]. destruct H as (E & Hh & Hl). pose proof (product_bound a v Ha Hv).
  replace (v * a + 1 * b) with (a * v + b) by ring. rewrite <- E in *. clear E. cbv zeta.
  destruct (Z.ltb_spec (ladd l c) c), (Z.ltb_spec (ladd b (ladd l c)) b); unfold b2l; limb_lia.
Qed.
Lemma submul_1_accumulates v : limb v → accumulates (submul_1_body v) (λ a b, - v * a + 1 * b) (-1) limb.
Proof.
  intros Hv c a b Hc Ha Hb. unfold submul_1_body. pose proof (umul_ppmm_spec a v Ha Hv) as H.
  destruct (gmp_umul_ppmm a v) as [h l]. destruct H as (E & Hh & Hl). pose proof (product_bound a v Ha Hv).
  replace (- v * a + 1 * b) with (b - a * v) by ring. rewrite <- E in *. clear E. cbv zeta.
  destruct (Z.ltb_spec (ladd l c) c), (Z.ltb_spec b (lsub b (ladd l c))); unfold b2l; limb_lia.
Qed.

(** ** The functions *)

(** [k] returns [c] after writing the limbs [rs], [n] of them, at [rp], and
    changes nothing else; [P c rs] holds. *)
Definition computes (k : M mem Z) (m : mem) (rp : Z) (n : nat) (P : Z → list Z → Prop) : Prop :=
  ∃ c rs, k m = Done c (write m rp rs) ∧ Forall limb rs ∧ length rs = n ∧ P c rs.

Lemma computes_mono k m rp n (P Q : Z → list Z → Prop) :
  computes k m rp n P → (∀ c rs, Forall limb rs → length rs = n → P c rs → Q c rs) → computes k m rp n Q.
Proof. intros (c & rs & ? & ? & ? & ?) HQ. exists c, rs. auto. Qed.

Lemma loop2_computes body f g s I rp ap bp n c m xs ys :
  accumulates body (λ a b, f * a + g * b) s I → I c →
  limbs_at m ap xs → limbs_at m bp ys → length xs = n → length ys = n → writable m rp n →
  upward rp ap (Z.of_nat n) → upward rp bp (Z.of_nat n) →
  computes (loop2 body rp ap bp n c) m rp n (λ c' rs, I c' ∧
    value rs + B ^ Z.of_nat n * (s * c') = f * value xs + g * value ys + s * c).
Proof.
  intros Hbody Hc Hx Hy Hlx Hly Hw Ha Hb. unfold computes. rewrite (loop2_acc _ _ _ _ _ _ _ xs ys) by done.
  pose proof (acc2_value body _ s I c xs ys Hbody Hc (proj1 Hx) (proj1 Hy) ltac:(congruence)) as Hv.
  destruct (acc2 body c xs ys) as [c' rs]. destruct Hv as (Hc' & Hrs & Hl & E).
  rewrite value_zip_lin in E by congruence. exists c', rs. rewrite Hlx in *. done.
Qed.

Lemma loop1_computes body f s I rp ap n c m xs :
  accumulates (λ c a _, body c a) (λ a b, f * a + 0 * b) s I → I c →
  limbs_at m ap xs → length xs = n → writable m rp n → upward rp ap (Z.of_nat n) →
  computes (loop1 body rp ap n c) m rp n (λ c' rs, I c' ∧
    value rs + B ^ Z.of_nat n * (s * c') = f * value xs + s * c).
Proof.
  intros Hbody Hc Hx Hlx Hw Ha. unfold computes. rewrite loop1_loop2.
  destruct (loop2_computes _ _ _ _ _ rp ap ap n c m xs xs Hbody Hc) as (c' & rs & H); [done..|].
  exists c', rs. destruct H as (? & ? & ? & ? & E). split_and!; [done..|]. lia.
Qed.

(** Every operand described by its limbs. *)
Section operands.
Context (m : mem) (rp ap bp : Z) (xs ys : list Z).
Local Abbreviation n := (length xs).

Lemma mpn_add_n_spec :
  limbs_at m ap xs → limbs_at m bp ys → length ys = n → writable m rp n →
  upward rp ap (Z.of_nat n) → upward rp bp (Z.of_nat n) →
  computes (mpn_add_n rp ap bp (Z.of_nat n)) m rp n (λ c rs, 0 ≤ c ≤ 1 ∧
    value rs + B ^ Z.of_nat n * c = value xs + value ys).
Proof.
  intros. unfold mpn_add_n. rewrite Nat2Z.id.
  eapply computes_mono; [by eapply (loop2_computes _ _ _ _ _ _ _ _ _ _ _ xs ys add_n_accumulates)|].
  intros c rs _ _ [? E]. split; [done|]. lia.
Qed.

Lemma mpn_sub_n_spec :
  limbs_at m ap xs → limbs_at m bp ys → length ys = n → writable m rp n →
  upward rp ap (Z.of_nat n) → upward rp bp (Z.of_nat n) →
  computes (mpn_sub_n rp ap bp (Z.of_nat n)) m rp n (λ c rs, 0 ≤ c ≤ 1 ∧
    value rs - B ^ Z.of_nat n * c = value xs - value ys).
Proof.
  intros. unfold mpn_sub_n. rewrite Nat2Z.id.
  eapply computes_mono; [by eapply (loop2_computes _ _ _ _ _ _ _ _ _ _ _ xs ys sub_n_accumulates)|].
  intros c rs _ _ [? E]. split; [done|]. lia.
Qed.

Lemma mpn_add_1_spec b :
  limb b → (0 < n)%nat → limbs_at m ap xs → writable m rp n → upward rp ap (Z.of_nat n) →
  computes (mpn_add_1 rp ap (Z.of_nat n) b) m rp n (λ c rs, limb c ∧
    value rs + B ^ Z.of_nat n * c = value xs + b).
Proof.
  intros Hb Hn. intros. unfold mpn_add_1, assertion, lift. guard_true (0 <? Z.of_nat n). rewrite Nat2Z.id.
  eapply computes_mono; [by eapply (loop1_computes _ _ _ _ _ _ _ _ _ xs add_1_accumulates)|].
  intros c rs _ _ [? E]. split; [done|]. lia.
Qed.

Lemma mpn_sub_1_spec b :
  limb b → (0 < n)%nat → limbs_at m ap xs → writable m rp n → upward rp ap (Z.of_nat n) →
  computes (mpn_sub_1 rp ap (Z.of_nat n) b) m rp n (λ c rs, limb c ∧
    value rs - B ^ Z.of_nat n * c = value xs - b).
Proof.
  intros Hb Hn. intros. unfold mpn_sub_1, assertion, lift. guard_true (0 <? Z.of_nat n). rewrite Nat2Z.id.
  eapply computes_mono; [by eapply (loop1_computes _ _ _ _ _ _ _ _ _ xs sub_1_accumulates)|].
  intros c rs _ _ [? E]. split; [done|]. lia.
Qed.

Lemma mpn_mul_1_spec v :
  limb v → (0 < n)%nat → limbs_at m ap xs → writable m rp n → upward rp ap (Z.of_nat n) →
  computes (mpn_mul_1 rp ap (Z.of_nat n) v) m rp n (λ c rs, limb c ∧
    value rs + B ^ Z.of_nat n * c = value xs * v).
Proof.
  intros Hv Hn. intros. unfold mpn_mul_1, assertion, lift. guard_true (1 <=? Z.of_nat n). rewrite Nat2Z.id.
  eapply computes_mono; [by eapply (loop1_computes _ _ _ _ _ _ _ _ _ xs (mul_1_accumulates v Hv))|].
  intros c rs _ _ [? E]. split; [done|]. lia.
Qed.

Lemma mpn_addmul_1_spec v :
  limb v → (0 < n)%nat → limbs_at m ap xs → limbs_at m rp ys → length ys = n → upward rp ap (Z.of_nat n) →
  computes (mpn_addmul_1 rp ap (Z.of_nat n) v) m rp n (λ c rs, limb c ∧
    value rs + B ^ Z.of_nat n * c = value ys + value xs * v).
Proof.
  intros Hv Hn Ha Hr Hl Hu. unfold mpn_addmul_1, assertion, lift. guard_true (1 <=? Z.of_nat n). rewrite Nat2Z.id.
  eapply computes_mono; [eapply (loop2_computes _ _ _ _ _ _ _ _ _ _ _ xs ys (addmul_1_accumulates v Hv)); try done|].
  - rewrite <- Hl. by apply writable_limbs.
  - left. lia.
  - intros c rs _ _ [? E]. split; [done|]. lia.
Qed.

Lemma mpn_submul_1_spec v :
  limb v → (0 < n)%nat → limbs_at m ap xs → limbs_at m rp ys → length ys = n → upward rp ap (Z.of_nat n) →
  computes (mpn_submul_1 rp ap (Z.of_nat n) v) m rp n (λ c rs, limb c ∧
    value rs - B ^ Z.of_nat n * c = value ys - value xs * v).
Proof.
  intros Hv Hn Ha Hr Hl Hu. unfold mpn_submul_1, assertion, lift. guard_true (1 <=? Z.of_nat n). rewrite Nat2Z.id.
  eapply computes_mono; [eapply (loop2_computes _ _ _ _ _ _ _ _ _ _ _ xs ys (submul_1_accumulates v Hv)); try done|].
  - rewrite <- Hl. by apply writable_limbs.
  - left. lia.
  - intros c rs _ _ [? E]. split; [done|]. lia.
Qed.
End operands.

(** A computation on the low limbs followed by one on the high limbs. *)
Lemma computes_app k1 k2 m rp n1 n2 P1 (P : Z → list Z → Prop) :
  computes k1 m rp n1 P1 →
  (∀ c1 rs1, Forall limb rs1 → length rs1 = n1 → P1 c1 rs1 →
     computes (k2 c1) (write m rp rs1) (rp + Z.of_nat n1) n2 (λ c rs, P c (rs1 ++ rs))) →
  computes (k1 ≫= k2) m rp (n1 + n2) P.
Proof.
  intros (c1 & rs1 & E1 & H1 & L1 & HP1) H2. destruct (H2 c1 rs1 H1 L1 HP1) as (c & rs & E2 & Hrs & L2 & HP).
  exists c, (rs1 ++ rs). rewrite (bind_done _ _ _ _ _ E1), E2, <- L1, write_write.
  split_and!; [done|by apply Forall_app|rewrite length_app; lia|done].
Qed.

Lemma computes_ret c m rp P : P c [] → computes (mret c) m rp 0 P.
Proof. intros. exists c, []. rewrite write_nil. done. Qed.

Lemma value_split n xs : (n ≤ length xs)%nat → value xs = value (take n xs) + B ^ Z.of_nat n * value (drop n xs).
Proof. intros. rewrite <- (take_drop n xs) at 1. rewrite value_app, length_take, Nat.min_l by done. done. Qed.

Lemma limbs_at_split m p n xs :
  limbs_at m p xs → (n ≤ length xs)%nat → limbs_at m p (take n xs) ∧ limbs_at m (p + Z.of_nat n) (drop n xs).
Proof.
  intros Hx Hn. rewrite <- (take_drop n xs) in Hx. apply limbs_at_app in Hx.
  by rewrite length_take, Nat.min_l in Hx by done.
Qed.

Section long_operands.
Context (m : mem) (rp ap bp : Z) (xs ys : list Z).
Local Abbreviation an := (length xs).
Local Abbreviation bn := (length ys).

(** The shared structure of mpn_add and mpn_sub: the common limbs first, then
    the carry (or borrow, for [s = -1]) goes through the others. *)
Lemma long_computes (s : Z) k (k1 : Z → M mem Z) :
  (bn ≤ an)%nat → limbs_at m ap xs → upward rp ap (Z.of_nat an) → writable m rp an →
  computes k m rp bn (λ c rs, 0 ≤ c ≤ 1 ∧
    value rs + s * (B ^ Z.of_nat bn * c) = value (take bn xs) + s * value ys) →
  (∀ m' c, limb c → (0 < an - bn)%nat → limbs_at m' (ap + Z.of_nat bn) (drop bn xs) →
     writable m' (rp + Z.of_nat bn) (an - bn) →
     upward (rp + Z.of_nat bn) (ap + Z.of_nat bn) (Z.of_nat (an - bn)) →
     computes (k1 c) m' (rp + Z.of_nat bn) (an - bn) (λ c' rs, limb c' ∧
       value rs + s * (B ^ Z.of_nat (an - bn) * c') = value (drop bn xs) + s * c)) →
  computes (cy ← k; if Z.of_nat bn <? Z.of_nat an then k1 cy else mret cy) m rp an (λ c rs, limb c ∧
    value rs + s * (B ^ Z.of_nat an * c) = value xs + s * value ys).
Proof.
  intros Hle Hx Ha Hw Hk Hk1. pose proof (value_split bn xs Hle) as Hv.
  destruct (limbs_at_split _ _ bn _ Hx Hle) as [_ Hx2].
  replace (computes _ m rp an) with (computes (cy ← k; if Z.of_nat bn <? Z.of_nat an then k1 cy else mret cy) m rp (bn + (an - bn)))
    by (f_equal; lia).
  assert (writable m rp (bn + (an - bn))) as Hw' by (by replace (bn + (an - bn))%nat with an by lia).
  apply writable_add in Hw' as [_ Hw2]. eapply computes_app; [exact Hk|].
  intros c1 rs1 Hrs1 L1 [Hc1 E1]. assert (limb c1) as Hl1 by (unfold limb, B; lia).
  destruct (Z.ltb_spec (Z.of_nat bn) (Z.of_nat an)).
  - eapply computes_mono; [apply Hk1; [done|lia| |by apply writable_write|unfold upward in *; lia]|].
    + apply limbs_at_frame; [done|]. rewrite length_drop. unfold disjoint, upward in *. lia.
    + intros c rs _ _ [Hc E]. split; [done|]. rewrite value_app, L1.
      replace (B ^ Z.of_nat an) with (B ^ Z.of_nat bn * B ^ Z.of_nat (an - bn))
        by (rewrite <- Z.pow_add_r by lia; f_equal; lia).
      assert (B ^ Z.of_nat bn * (value rs + s * (B ^ Z.of_nat (an - bn) * c)) =
              B ^ Z.of_nat bn * (value (drop bn xs) + s * c1)) by (by rewrite E). lia.
  - replace (an - bn)%nat with O by lia. apply computes_ret. split; [done|].
    rewrite app_nil_r. rewrite drop_ge in Hv by lia. simpl in Hv. replace an with bn by lia. lia.
Qed.

Lemma mpn_add_spec :
  (bn ≤ an)%nat → limbs_at m ap xs → limbs_at m bp ys → writable m rp an →
  upward rp ap (Z.of_nat an) → upward rp bp (Z.of_nat bn) →
  computes (mpn_add rp ap (Z.of_nat an) bp (Z.of_nat bn)) m rp an (λ c rs, limb c ∧
    value rs + B ^ Z.of_nat an * c = value xs + value ys).
Proof.
  intros Hle Hx Hy Hw Ha Hb. unfold mpn_add, assertion, lift. guard_true (Z.of_nat bn <=? Z.of_nat an).
  destruct (limbs_at_split _ _ bn _ Hx Hle) as [Hx1 _].
  eapply computes_mono; [apply (long_computes 1); try done|].
  - pose proof (mpn_add_n_spec m rp ap bp (take bn xs) ys) as H. rewrite length_take, Nat.min_l in H by done.
    eapply computes_mono; [apply H; try done|].
    + intros i Hi. apply Hw. lia.
    + unfold upward in *. lia.
    + intros c rs _ _ [? E]. split; [done|lia].
  - intros m' c Hc Hn Hd Hw' Hu. rewrite <- length_drop in *. rewrite <- Nat2Z.inj_sub by done. rewrite <- length_drop.
    eapply computes_mono; [by apply (mpn_add_1_spec m' _ _ (drop bn xs))|]. intros c' rs _ _ [? E]. split; [done|lia].
  - intros c rs _ _ [? E]. split; [done|lia].
Qed.

Lemma mpn_sub_spec :
  (bn ≤ an)%nat → limbs_at m ap xs → limbs_at m bp ys → writable m rp an →
  upward rp ap (Z.of_nat an) → upward rp bp (Z.of_nat bn) →
  computes (mpn_sub rp ap (Z.of_nat an) bp (Z.of_nat bn)) m rp an (λ c rs, limb c ∧
    value rs - B ^ Z.of_nat an * c = value xs - value ys).
Proof.
  intros Hle Hx Hy Hw Ha Hb. unfold mpn_sub, assertion, lift. guard_true (Z.of_nat bn <=? Z.of_nat an).
  destruct (limbs_at_split _ _ bn _ Hx Hle) as [Hx1 _].
  eapply computes_mono; [apply (long_computes (-1)); try done|].
  - pose proof (mpn_sub_n_spec m rp ap bp (take bn xs) ys) as H. rewrite length_take, Nat.min_l in H by done.
    eapply computes_mono; [apply H; try done|].
    + intros i Hi. apply Hw. lia.
    + unfold upward in *. lia.
    + intros c rs _ _ [? E]. split; [done|lia].
  - intros m' c Hc Hn Hd Hw' Hu. rewrite <- length_drop in *. rewrite <- Nat2Z.inj_sub by done. rewrite <- length_drop.
    eapply computes_mono; [by apply (mpn_sub_1_spec m' _ _ (drop bn xs))|]. intros c' rs _ _ [? E]. split; [done|lia].
  - intros c rs _ _ [? E]. split; [done|lia].
Qed.
End long_operands.

(** ** Multiplication *)

Lemma write_same m p xs : limbs_at m p xs → write m p xs = m.
Proof.
  intros [_ Hl]. destruct m as [c bl nx]. unfold write, set_cells. simpl in *. f_equal.
  apply map_eq. intros a. rewrite lookup_write_cells. case_match eqn:Hb; [|done]. bool_to_prop.
  destruct (lookup_lt_is_Some_2 xs (Z.to_nat (a - p))) as [x Hx]; [lia|]. rewrite Hx. simpl.
  rewrite <- (Hl _ _ Hx). f_equal. lia.
Qed.

(** Writing again, at least as far. *)
Lemma write_over m p xs ys : (length xs ≤ length ys)%nat → write (write m p xs) p ys = write m p ys.
Proof.
  intros Hle. unfold write, set_cells. simpl. f_equal. apply map_eq. intros a. rewrite !lookup_write_cells.
  case_match eqn:Hy; [done|]. case_match eqn:Hx; [|done].
  bool_to_prop. destruct Hy as [Hy|Hy]; bool_to_prop; lia.
Qed.

Lemma write_tail m p x xs ys : (length xs ≤ length ys)%nat → write (write m p (x :: xs)) (p + 1) ys = write m p (x :: ys).
Proof. intros. rewrite !write_cons. by apply write_over. Qed.

(** A store just after what has been written. *)
Lemma store_next m p rs n v :
  length rs = n → is_Some (cells m !! (p + Z.of_nat n)) →
  store (p + Z.of_nat n) v (write m p rs) = Done tt (write m p (rs ++ [v])).
Proof.
  intros <- Hs. rewrite store_ok, write_write; [done|]. simpl. rewrite lookup_write_cells.
  by guard_false ((p <=? p + Z.of_nat (length rs)) && (p + Z.of_nat (length rs) <? p + Z.of_nat (length rs))).
Qed.

Section multiplication.
Context (up : Z) (xs : list Z).
Local Abbreviation un := (length xs).

(** From the top [t :: ts] of the product on, [length ys] limbs of the second
    factor being left. *)
Lemma mpn_mul_loop_spec ys m rp vp t ts :
  (0 < un)%nat → limbs_at m up xs → limbs_at m (vp + 1) ys → limbs_at m rp (t :: ts) → length ts = un →
  writable m (rp + Z.of_nat (S un)) (length ys) →
  disjoint rp (Z.of_nat (S un + length ys)) up (Z.of_nat un) →
  disjoint rp (Z.of_nat (S un + length ys)) (vp + 1) (Z.of_nat (length ys)) →
  computes (mpn_mul_loop rp up (Z.of_nat un) vp (length ys)) m (rp + 1) (un + length ys) (λ c rs,
    value rs = value ts + value xs * value ys ∧ last rs = Some c).
Proof.
  intros Hun. revert m rp vp t ts.
  induction ys as [|v ys IH]; intros m rp vp t ts Hx Hy Ht Hl Hw Hdu Hdv; cbn [mpn_mul_loop length].
  - destruct (last (t :: ts)) as [c|] eqn:Hc; [|by apply last_None in Hc]. rewrite last_lookup in Hc.
    simpl Nat.pred in Hc. rewrite Hl in Hc. pose proof (load_limbs _ _ _ _ _ Ht Hc) as Hload.
    apply limbs_at_cons in Ht as [_ Ht]. exists c, ts. rewrite Hload, write_same by done.
    split_and!; [done|by apply Ht|lia|simpl; lia|]. destruct un as [|u] eqn:Hu; [lia|].
    rewrite last_lookup, Hl. simpl. by simpl in Hc.
  - apply limbs_at_cons in Hy as [[Hv Hyc] Hy]. apply limbs_at_cons in Ht as [[Ht0 Htc] Ht].
    unfold disjoint in Hdu, Hdv. cbn [length] in *.
    destruct (mpn_addmul_1_spec m (rp + 1) up xs ts v) as (c1 & rs1 & E1 & Hrs1 & L1 & Hc1 & V1); try done.
    { unfold upward. lia. }
    unfold computes. rewrite (bind_done _ _ _ _ _ (load_ok _ _ _ Hyc)), (bind_done _ _ _ _ _ E1).
    rewrite (bind_done _ _ _ tt (write m (rp + 1) (rs1 ++ [c1]))).
    2: { apply store_next; [done|]. destruct (Hw O ltac:(lia)) as [o Ho]. rewrite Z.add_0_r in Ho.
         exists o. rewrite <- Ho. f_equal. lia. }
    assert (Forall limb (rs1 ++ [c1])) as Hnew by (apply Forall_app; split; [done|by constructor]).
    assert (length (rs1 ++ [c1]) = S un) as Lnew by (rewrite length_app; simpl; lia).
    destruct (rs1 ++ [c1]) as [|t' ts'] eqn:Hts; [done|]. simpl in Lnew.
    destruct (IH (write m (rp + 1) (t' :: ts')) (rp + 1) (vp + 1) t' ts') as (c & rs & E & Hrs & L & V & Hlast).
    + apply limbs_at_frame; [done|]. unfold disjoint. simpl. lia.
    + apply limbs_at_frame; [done|]. unfold disjoint. simpl. lia.
    + by apply limbs_at_write.
    + lia.
    + apply writable_write. intros i Hi.
      replace (rp + 1 + Z.of_nat (S un) + Z.of_nat i) with (rp + Z.of_nat (S un) + Z.of_nat (S i)) by lia. apply Hw. lia.
    + unfold disjoint. lia.
    + unfold disjoint. lia.
    + exists c, (t' :: rs). rewrite E. rewrite write_tail by lia.
      split_and!; [done|constructor; [by inversion Hnew|done]|simpl; lia| |].
      * cbn [value]. rewrite V. assert (value (t' :: ts') = value rs1 + B ^ Z.of_nat un * c1) as Hval.
        { rewrite <- Hts, value_app, L1. simpl. lia. }
        cbn [value] in Hval. lia.
      * destruct rs as [|r rs]; [simpl in L; lia|]. exact Hlast.
Qed.
End multiplication.

Lemma mpn_mul_spec m rp up vp xs ys :
  (0 < length ys ≤ length xs)%nat → limbs_at m up xs → limbs_at m vp ys →
  writable m rp (length xs + length ys) →
  disjoint rp (Z.of_nat (length xs + length ys)) up (Z.of_nat (length xs)) →
  disjoint rp (Z.of_nat (length xs + length ys)) vp (Z.of_nat (length ys)) →
  computes (mpn_mul rp up (Z.of_nat (length xs)) vp (Z.of_nat (length ys))) m rp (length xs + length ys)
    (λ c rs, value rs = value xs * value ys ∧ last rs = Some c).
Proof.
  intros Hl Hx Hy Hw Hdu Hdv. unfold computes, mpn_mul.
  rewrite lift_assert_bind by (apply Z.leb_le; lia). rewrite lift_assert_bind by (apply Z.leb_le; lia).
  destruct ys as [|v ys]; [simpl in Hl; lia|]. apply limbs_at_cons in Hy as [[Hv Hyc] Hy]. cbn [length] in *.
  rewrite (bind_done _ _ _ _ _ (load_ok _ _ _ Hyc)). unfold disjoint in Hdu, Hdv.
  destruct (mpn_mul_1_spec m rp up xs v) as (c1 & rs1 & E1 & Hrs1 & L1 & Hc1 & V1); [done|lia|done| |unfold upward; lia|].
  { intros i Hi. apply Hw. lia. }
  rewrite (bind_done _ _ _ _ _ E1).
  rewrite (bind_done _ _ _ tt (write m rp (rs1 ++ [c1]))).
  2: { apply store_next; [done|]. apply Hw. lia. }
  replace (Z.to_nat (Z.of_nat (S (length ys)) - 1)) with (length ys) by lia.
  assert (Forall limb (rs1 ++ [c1])) as Hnew by (apply Forall_app; split; [done|by constructor]).
  assert (length (rs1 ++ [c1]) = S (length xs)) as Lnew by (rewrite length_app; simpl; lia).
  assert (value (rs1 ++ [c1]) = value rs1 + B ^ Z.of_nat (length xs) * c1) as Vnew
    by (rewrite value_app, L1; simpl; lia).
  destruct (rs1 ++ [c1]) as [|t ts]; [done|]. simpl in Lnew.
  destruct (mpn_mul_loop_spec up xs ys (write m rp (t :: ts)) rp vp t ts) as (c & rs & E & Hrs & L & V & Hlast).
  - lia.
  - apply limbs_at_frame; [done|]. unfold disjoint. simpl. lia.
  - apply limbs_at_frame; [done|]. unfold disjoint. simpl. lia.
  - by apply limbs_at_write.
  - lia.
  - apply writable_write. intros i Hi.
    replace (rp + Z.of_nat (S (length xs)) + Z.of_nat i) with (rp + Z.of_nat (S (length xs) + i)) by lia. apply Hw. lia.
  - unfold disjoint. lia.
  - unfold disjoint. lia.
  - exists c, (t :: rs). rewrite E, write_tail by lia.
    split_and!; [done|constructor; [by inversion Hnew|done]|simpl; lia| |].
    + cbn [value] in *. lia.
    + destruct rs as [|r rs]; [simpl in L; lia|]. exact Hlast.
Qed.

(** ** Shifts *)

(** A shifted limb in two parts. *)
Lemma shift_parts x n :
  limb x → 0 < n < 64 →
  x * 2 ^ n = lshr x (64 - n) * B + lshl x n ∧ lshl x n = (x mod 2 ^ (64 - n)) * 2 ^ n ∧
  0 ≤ lshr x (64 - n) < 2 ^ n ∧ limb (lshl x n).
Proof.
  intros Hx Hn. assert (B = 2 ^ (64 - n) * 2 ^ n) as HB by (rewrite <- Z.pow_add_r by lia; by replace (64 - n + n) with 64 by lia).
  pose proof (Z.pow_pos_nonneg 2 n). pose proof (Z.pow_pos_nonneg 2 (64 - n)).
  unfold lshl, lshr, u64. change SIZE_MOD with B. rewrite Z.shiftl_mul_pow2, Z.shiftr_div_pow2 by lia.
  assert ((x * 2 ^ n) mod B = (x mod 2 ^ (64 - n)) * 2 ^ n) as E by (rewrite HB, Z.mul_mod_distr_r by lia; done).
  unfold limb in *. split_and!.
  - rewrite E, HB. pose proof (Z.div_mod x (2 ^ (64 - n)) ltac:(lia)) as Hdm. rewrite Hdm at 1. ring.
  - done.
  - apply Z.div_pos; lia.
  - apply Z.div_lt_upper_bound; lia.
  - apply Z.mod_pos_bound. done.
  - apply Z.mod_pos_bound. done.
Qed.

Lemma lor_multiple x l n : 0 ≤ n → 0 ≤ l < 2 ^ n → Z.lor (x * 2 ^ n) l = x * 2 ^ n + l.
Proof. intros. rewrite <- Z.shiftl_mul_pow2 by done. by apply lor_shiftl_low. Qed.

Lemma write_snoc m p rs x : write (write m (p + Z.of_nat (length rs)) [x]) p rs = write m p (rs ++ [x]).
Proof.
  unfold write, set_cells. simpl. f_equal. apply map_eq. intros a. rewrite !lookup_write_cells, length_app. simpl length.
  case_match eqn:H1; bool_to_prop.
  - guard_true ((p <=? a) && (a <? p + Z.of_nat (length rs + 1))). by rewrite lookup_app_l by lia.
  - destruct (Z.eq_dec a (p + Z.of_nat (length rs))) as [->|Hne].
    + rewrite lookup_insert_eq.
      guard_true ((p <=? p + Z.of_nat (length rs)) && (p + Z.of_nat (length rs) <? p + Z.of_nat (length rs + 1))).
      rewrite lookup_app_r by lia. by replace (Z.to_nat (p + Z.of_nat (length rs) - p) - length rs)%nat with O by lia.
    + rewrite lookup_insert_ne by done. case_match eqn:H2; [|done].
      bool_to_prop. destruct H1 as [H1|H1]; bool_to_prop; lia.
Qed.

(** [length xs] limbs below the one to be stored, whose low [cnt] bits are 0. *)
Lemma lshift_loop_spec cnt xs m rp up h :
  0 < cnt < 64 → limbs_at m up xs → writable m rp (S (length xs)) →
  up ≤ rp ∨ rp + Z.of_nat (length xs) < up → limb (h * 2 ^ cnt) → 0 ≤ h →
  ∃ rs, lshift_loop rp up cnt (length xs) (h * 2 ^ cnt) m = Done tt (write m rp rs) ∧ Forall limb rs ∧
    length rs = S (length xs) ∧ value rs = value xs * 2 ^ cnt + B ^ Z.of_nat (length xs) * (h * 2 ^ cnt).
Proof.
  intros Hcnt. revert m h. induction xs as [|x xs IH] using rev_ind; intros m h Hx Hw Hal Hh Hh0.
  - exists [h * 2 ^ cnt]. simpl lshift_loop. rewrite store_ok by (specialize (Hw O ltac:(simpl; lia)); by rewrite Z.add_0_r in Hw).
    split_and!; [done|by constructor|done|]. simpl. lia.
  - rewrite length_app in *. simpl length in *. replace (length xs + 1)%nat with (S (length xs)) in * by lia.
    cbn [lshift_loop]. apply limbs_at_app in Hx as [Hx Hlast]. apply limbs_at_cons in Hlast as [[Hxl Hxc] _].
    rewrite (bind_done _ _ _ _ _ (load_ok _ _ _ Hxc)).
    destruct (shift_parts x cnt Hxl Hcnt) as (E & El & Hr & Hll).
    unfold GMP_LIMB_BITS. rewrite lor_multiple by lia.
    rewrite (bind_done _ _ _ _ _ (store_ok _ _ (h * 2 ^ cnt + lshr x (64 - cnt)) (Hw (S (length xs)) ltac:(lia)))). rewrite El.
    destruct (IH (write m (rp + Z.of_nat (S (length xs))) [h * 2 ^ cnt + lshr x (64 - cnt)]) (x mod 2 ^ (64 - cnt)))
      as (rs & Ers & Hrs & Lrs & Vrs).
    + apply limbs_at_frame; [done|]. unfold disjoint. simpl. lia.
    + apply writable_write. intros i Hi. apply Hw. lia.
    + lia.
    + by rewrite <- El.
    + apply Z.mod_pos_bound, Z.pow_pos_nonneg; lia.
    + exists (rs ++ [h * 2 ^ cnt + lshr x (64 - cnt)]). rewrite Ers, <- Lrs, write_snoc.
      assert (B = 2 ^ (64 - cnt) * 2 ^ cnt) as HB
        by (rewrite <- Z.pow_add_r by lia; by replace (64 - cnt + cnt) with 64 by lia).
      pose proof (Z.pow_pos_nonneg 2 cnt). pose proof (Z.pow_pos_nonneg 2 (64 - cnt)).
      split_and!; [done| |rewrite length_app; simpl; lia|].
      * apply Forall_app. split; [done|]. constructor; [|done]. unfold limb in *.
        assert (h < 2 ^ (64 - cnt)) by (apply (Z.mul_lt_mono_pos_r (2 ^ cnt)); lia).
        assert ((h + 1) * 2 ^ cnt ≤ 2 ^ (64 - cnt) * 2 ^ cnt) by (apply Z.mul_le_mono_nonneg_r; lia). lia.
      * rewrite !value_app, Vrs, Lrs, <- El. simpl value. rewrite Nat2Z.inj_succ, Z.pow_succ_r by lia.
        set (P := B ^ Z.of_nat (length xs)) in *.
        assert (P * (x * 2 ^ cnt) = P * (lshr x (64 - cnt) * B + lshl x cnt)) by (by rewrite E). lia.
Qed.

Lemma mpn_lshift_spec m rp up xs cnt :
  (0 < length xs)%nat → 0 < cnt < 64 → limbs_at m up xs → writable m rp (length xs) →
  downward rp up (Z.of_nat (length xs)) →
  computes (mpn_lshift rp up (Z.of_nat (length xs)) cnt) m rp (length xs) (λ c rs,
    0 ≤ c < 2 ^ cnt ∧ value rs + B ^ Z.of_nat (length xs) * c = value xs * 2 ^ cnt).
Proof.
  intros Hn Hcnt Hx Hw Hal. unfold computes, mpn_lshift, downward in *.
  rewrite !lift_assert_bind by (rewrite ?Z.leb_le, ?Z.ltb_lt; unfold GMP_LIMB_BITS; lia).
  destruct xs as [|x xs _] using rev_ind; [simpl in Hn; lia|].
  rewrite length_app in *. simpl length in *. replace (length xs + 1)%nat with (S (length xs)) in * by lia.
  apply limbs_at_app in Hx as [Hx Hlast]. apply limbs_at_cons in Hlast as [[Hxl Hxc] _].
  replace (up + Z.of_nat (S (length xs)) - 1) with (up + Z.of_nat (length xs)) by lia.
  rewrite (bind_done _ _ _ _ _ (load_ok _ _ _ Hxc)).
  destruct (shift_parts x cnt Hxl Hcnt) as (E & El & Hr & Hll).
  replace (Z.to_nat (Z.of_nat (S (length xs)) - 1)) with (length xs) by lia. rewrite El.
  destruct (lshift_loop_spec cnt xs m rp up (x mod 2 ^ (64 - cnt))) as (rs & Ers & Hrs & Lrs & Vrs);
    [done|done|done|lia|by rewrite <- El|apply Z.mod_pos_bound, Z.pow_pos_nonneg; lia|].
  exists (lshr x (64 - cnt)), rs. rewrite (bind_done _ _ _ _ _ Ers).
  split_and!; [done|done|lia|lia|lia|]. rewrite Vrs, <- El, value_app. simpl value.
  rewrite Nat2Z.inj_succ, Z.pow_succ_r by lia. set (P := B ^ Z.of_nat (length xs)) in *.
  assert (P * (x * 2 ^ cnt) = P * (lshr x (64 - cnt) * B + lshl x cnt)) by (by rewrite E). lia.
Qed.

Lemma rshift_loop_spec cnt xs m rp up low :
  0 < cnt < 64 → limbs_at m up xs → writable m rp (S (length xs)) →
  rp < up ∨ up + Z.of_nat (length xs) ≤ rp → 0 ≤ low < 2 ^ (64 - cnt) →
  ∃ rs, rshift_loop rp up cnt (length xs) low m = Done tt (write m rp rs) ∧ Forall limb rs ∧
    length rs = S (length xs) ∧ value rs = low + value xs * 2 ^ (64 - cnt).
Proof.
  intros Hcnt. assert (2 ^ (64 - cnt) < B) as HB by (apply (Z.pow_lt_mono_r 2 _ 64); lia).
  revert m rp up low. induction xs as [|x xs IH]; intros m rp up low Hx Hw Hal Hlow.
  - exists [low]. simpl rshift_loop. rewrite store_ok by (specialize (Hw O ltac:(simpl; lia)); by rewrite Z.add_0_r in Hw).
    split_and!; [done|constructor; [unfold limb; lia|done]|done|]. simpl. lia.
  - cbn [rshift_loop length]. apply limbs_at_cons in Hx as [[Hx0 Hxc] Hx].
    rewrite (bind_done _ _ _ _ _ (load_ok _ _ _ Hxc)). unfold GMP_LIMB_BITS.
    destruct (shift_parts x (64 - cnt) Hx0 ltac:(lia)) as (E & El & Hr & Hll).
    replace (64 - (64 - cnt)) with cnt in * by lia.
    rewrite Z.lor_comm, El, lor_multiple, <- El by lia. cbn [length] in *.
    assert (is_Some (cells m !! rp)) as Hs by (specialize (Hw O ltac:(lia)); by rewrite Z.add_0_r in Hw).
    rewrite (bind_done _ _ _ _ _ (store_ok _ _ (lshl x (64 - cnt) + low) Hs)).
    destruct (IH (write m rp [lshl x (64 - cnt) + low]) (rp + 1) (up + 1) (lshr x cnt)) as (rs & Ers & Hrs & Lrs & Vrs).
    + apply limbs_at_frame; [done|]. unfold disjoint. simpl. lia.
    + apply writable_write. intros i Hi. replace (rp + 1 + Z.of_nat i) with (rp + Z.of_nat (S i)) by lia. apply Hw. lia.
    + lia.
    + done.
    + exists ((lshl x (64 - cnt) + low) :: rs). rewrite Ers. split_and!; [done| |simpl; lia|cbn [value]; lia].
      constructor; [|done]. pose proof (Z.pow_pos_nonneg 2 (64 - cnt)). pose proof (Z.pow_pos_nonneg 2 cnt).
      assert (B = 2 ^ cnt * 2 ^ (64 - cnt)) as HB' by (rewrite <- Z.pow_add_r by lia; by replace (cnt + (64 - cnt)) with 64 by lia).
      pose proof (Z.mod_pos_bound x (2 ^ cnt) ltac:(lia)). unfold limb in *. rewrite El.
      assert ((x mod 2 ^ cnt + 1) * 2 ^ (64 - cnt) ≤ 2 ^ cnt * 2 ^ (64 - cnt)) by (apply Z.mul_le_mono_nonneg_r; lia).
      assert (0 ≤ x mod 2 ^ cnt * 2 ^ (64 - cnt)) by (apply Z.mul_nonneg_nonneg; lia). lia.
Qed.

Lemma mpn_rshift_spec m rp up xs cnt :
  (0 < length xs)%nat → 0 < cnt < 64 → limbs_at m up xs → writable m rp (length xs) →
  upward rp up (Z.of_nat (length xs)) →
  computes (mpn_rshift rp up (Z.of_nat (length xs)) cnt) m rp (length xs) (λ c rs,
    limb c ∧ B * value rs + c = value xs * 2 ^ (64 - cnt)).
Proof.
  intros Hn Hcnt Hx Hw Hal. unfold computes, mpn_rshift, upward in *.
  rewrite !lift_assert_bind by (rewrite ?Z.leb_le, ?Z.ltb_lt; unfold GMP_LIMB_BITS; lia).
  destruct xs as [|x xs]; [simpl in Hn; lia|]. cbn [length] in *.
  apply limbs_at_cons in Hx as [[Hx0 Hxc] Hx]. rewrite (bind_done _ _ _ _ _ (load_ok _ _ _ Hxc)).
  destruct (shift_parts x (64 - cnt) Hx0 ltac:(lia)) as (E & El & Hr & Hll).
  replace (64 - (64 - cnt)) with cnt in * by lia.
  replace (Z.to_nat (Z.of_nat (S (length xs)) - 1)) with (length xs) by lia.
  destruct (rshift_loop_spec cnt xs m rp (up + 1) (lshr x cnt)) as (rs & Ers & Hrs & Lrs & Vrs); [done|done|done|lia|done|].
  exists (lshl x (64 - cnt)), rs. rewrite (bind_done _ _ _ _ _ Ers).
  split_and!; [done|done|lia|done|]. rewrite Vrs. cbn [value]. lia.
Qed.

(** The same as division and remainder. *)
Lemma mpn_rshift_div m rp up xs cnt :
  (0 < length xs)%nat → 0 < cnt < 64 → limbs_at m up xs → writable m rp (length xs) →
  upward rp up (Z.of_nat (length xs)) →
  computes (mpn_rshift rp up (Z.of_nat (length xs)) cnt) m rp (length xs) (λ c rs,
    value rs = value xs / 2 ^ cnt ∧ c = (value xs mod 2 ^ cnt) * 2 ^ (64 - cnt)).
Proof.
  intros Hn Hcnt Hx Hw Hu.
  eapply computes_mono; [by apply mpn_rshift_spec|]. intros c rs _ _ [Hc E].
  assert (B = 2 ^ cnt * 2 ^ (64 - cnt)) as HB by (rewrite <- Z.pow_add_r by lia; by replace (cnt + (64 - cnt)) with 64 by lia).
  pose proof (Z.pow_pos_nonneg 2 cnt). pose proof (Z.pow_pos_nonneg 2 (64 - cnt)).
  pose proof (Z.div_mod (value xs) (2 ^ cnt) ltac:(lia)) as Hdm.
  pose proof (Z.mod_pos_bound (value xs) (2 ^ cnt) ltac:(lia)) as Hmb.
  apply (Z.div_mod_unique B); [left; unfold limb in Hc; lia| |rewrite E, HB; rewrite Hdm at 1; ring].
  left. rewrite HB. split; [apply Z.mul_nonneg_nonneg; lia|apply Z.mul_lt_mono_pos_r; lia].
Qed.

(** ** Copying, comparing, complement *)

Lemma acc2_map (g : Z → Z) c xs ys :
  length xs = length ys → acc2 (λ c a _, (c, g a)) c xs ys = (c, g <$> xs).
Proof.
  revert ys. induction xs as [|x xs IH]; intros [|y ys] Hl; simplify_eq/=; [done|]. by rewrite IH.
Qed.

Lemma loop1_map (g : Z → Z) rp ap n c m xs :
  limbs_at m ap xs → length xs = n → writable m rp n → upward rp ap (Z.of_nat n) →
  loop1 (λ c a, (c, g a)) rp ap n c m = Done c (write m rp (g <$> xs)).
Proof.
  intros Hx Hl Hw Hu. rewrite loop1_loop2, (loop2_acc _ _ _ _ _ _ _ xs xs) by done. by rewrite acc2_map.
Qed.

Lemma mpn_copyi_spec m d s xs :
  limbs_at m s xs → writable m d (length xs) → upward d s (Z.of_nat (length xs)) →
  mpn_copyi d s (Z.of_nat (length xs)) m = Done tt (write m d xs).
Proof.
  intros Hx Hw Hu. unfold mpn_copyi. rewrite Nat2Z.id.
  rewrite (bind_done _ _ _ _ _ (loop1_map (λ a, a) d s _ 0 m xs Hx eq_refl Hw Hu)). by rewrite list_fmap_id.
Qed.

Lemma mpn_copyd_spec m d s xs :
  limbs_at m s xs → writable m d (length xs) → downward d s (Z.of_nat (length xs)) →
  mpn_copyd d s (Z.of_nat (length xs)) m = Done tt (write m d xs).
Proof.
  unfold mpn_copyd. rewrite Nat2Z.id. revert m.
  induction xs as [|x xs IH] using rev_ind; intros m Hx Hw Hd; [by rewrite write_nil|].
  rewrite length_app in *. simpl length in *. replace (length xs + 1)%nat with (S (length xs)) in * by lia.
  apply limbs_at_app in Hx as [Hx Hlast]. apply limbs_at_cons in Hlast as [[_ Hxc] _]. cbn [mpn_copyd_loop].
  unfold downward in Hd. rewrite (bind_done _ _ _ _ _ (load_ok _ _ _ Hxc)).
  rewrite (bind_done _ _ _ _ _ (store_ok _ _ x (Hw (length xs) ltac:(lia)))).
  rewrite IH, write_snoc; [done| |apply writable_write; intros i Hi; apply Hw; lia|unfold downward; lia].
  apply limbs_at_frame; [done|]. unfold disjoint. simpl. lia.
Qed.

Lemma mpn_zero_spec m rp n :
  writable m rp n → mpn_zero rp (Z.of_nat n) m = Done tt (write m rp (replicate n 0)).
Proof.
  unfold mpn_zero. rewrite Nat2Z.id. revert m. induction n as [|n IH]; intros m Hw; [by rewrite write_nil|].
  cbn [mpn_zero_loop]. rewrite (bind_done _ _ _ _ _ (store_ok _ _ 0 (Hw n ltac:(lia)))).
  rewrite IH by (apply writable_write; intros i Hi; apply Hw; lia).
  rewrite <- (length_replicate n 0) at 1. rewrite write_snoc. by rewrite <- replicate_S_end.
Qed.

(** The comparison of two numbers of the same length. *)
Lemma mpn_cmp_spec m ap bp xs ys :
  limbs_at m ap xs → limbs_at m bp ys → length xs = length ys →
  mpn_cmp ap bp (Z.of_nat (length xs)) m =
  Done (match Z.compare (value xs) (value ys) with Lt => -1 | Eq => 0 | Gt => 1 end) m.
Proof.
  unfold mpn_cmp. rewrite Nat2Z.id. revert ys. induction xs as [|x xs IH] using rev_ind; intros ys Hx Hy Hl.
  - by destruct ys.
  - destruct ys as [|y ys _] using rev_ind; [rewrite length_app in Hl; simpl in Hl; lia|].
    rewrite !length_app in Hl. simpl in Hl. assert (length xs = length ys) as Hl' by lia.
    rewrite length_app. simpl length. replace (length xs + 1)%nat with (S (length xs)) by lia. cbn [mpn_cmp_loop].
    apply limbs_at_app in Hx as [Hx Hlx]. apply limbs_at_cons in Hlx as [[Hx0 Hxc] _].
    apply limbs_at_app in Hy as [Hy Hly]. apply limbs_at_cons in Hly as [[Hy0 Hyc] _].
    rewrite (bind_done _ _ _ _ _ (load_ok _ _ _ Hxc)). rewrite Hl' at 1.
    rewrite (bind_done _ _ _ _ _ (load_ok _ _ _ Hyc)). rewrite !value_app, Hl'. simpl value.
    pose proof (value_bounds xs (proj1 Hx)) as Hbx. pose proof (value_bounds ys (proj1 Hy)) as Hby.
    rewrite Hl' in Hbx. set (P := B ^ Z.of_nat (length ys)) in *. replace (P * (x + B * 0)) with (P * x) by lia.
    replace (P * (y + B * 0)) with (P * y) by lia. destruct (Z.eqb_spec x y) as [->|Hne]; cbn [negb].
    + rewrite <- Hl', (IH ys Hx Hy Hl'). f_equal. by rewrite !(Z.add_comm _ (P * y)), Z.add_compare_mono_l.
    + destruct (Z.ltb_spec y x).
      * assert (P * (y + 1) ≤ P * x) by (apply Z.mul_le_mono_nonneg_l; lia).
        by rewrite (proj2 (Z.compare_gt_iff _ _)) by lia.
      * assert (P * (x + 1) ≤ P * y) by (apply Z.mul_le_mono_nonneg_l; lia).
        by rewrite (proj2 (Z.compare_lt_iff _ _)) by lia.
Qed.

(** A number without high zero limbs. *)
Definition normalized (xs : list Z) : Prop := last xs ≠ Some 0.

Lemma mpn_normalized_size_spec m xp xs :
  limbs_at m xp xs →
  ∃ k, mpn_normalized_size xp (Z.of_nat (length xs)) m = Done (Z.of_nat k) m ∧ (k ≤ length xs)%nat ∧
    value (take k xs) = value xs ∧ normalized (take k xs).
Proof.
  intros Hx. unfold mpn_normalized_size. destruct (Z.leb_spec (Z.of_nat (length xs)) 0).
  { destruct xs; [|simpl in *; lia]. by exists O. }
  clear H. rewrite Nat2Z.id. induction xs as [|x xs IH] using rev_ind; [by exists O|].
  rewrite length_app. simpl length. replace (length xs + 1)%nat with (S (length xs)) by lia. cbn [mpn_normalized_loop].
  apply limbs_at_app in Hx as [Hx Hlx]. apply limbs_at_cons in Hlx as [[Hx0 Hxc] _].
  rewrite (bind_done _ _ _ _ _ (load_ok _ _ _ Hxc)). destruct (Z.eqb_spec x 0) as [->|Hne].
  - destruct (IH Hx) as (k & E & Hk & Hv & Hn). exists k. rewrite take_app_le by done.
    split_and!; [done|lia| |done]. rewrite Hv, value_app. simpl. lia.
  - exists (S (length xs)). rewrite take_ge by (rewrite length_app; simpl; lia).
    split_and!; [done|lia|done|]. unfold normalized. rewrite last_snoc. congruence.
Qed.

Lemma limb_lnot x : limb x → limb (lnot x).
Proof. unfold limb, lnot. lia. Qed.

Lemma value_com xs : value (lnot <$> xs) = B ^ Z.of_nat (length xs) - 1 - value xs.
Proof.
  induction xs as [|x xs IH]; [done|]. rewrite fmap_cons. cbn [value length].
  rewrite IH, Nat2Z.inj_succ, Z.pow_succ_r by lia. unfold lnot. lia.
Qed.

Lemma mpn_com_spec m rp up xs :
  limbs_at m up xs → writable m rp (length xs) → upward rp up (Z.of_nat (length xs)) →
  mpn_com rp up (Z.of_nat (length xs)) m = Done tt (write m rp (lnot <$> xs)).
Proof.
  intros Hx Hw Hu. unfold mpn_com. rewrite Nat2Z.id.
  by rewrite (bind_done _ _ _ _ _ (loop1_map lnot rp up _ 0 m xs Hx eq_refl Hw Hu)).
Qed.

Lemma writable_S m p n : writable m p (S n) → is_Some (cells m !! p) ∧ writable m (p + 1) n.
Proof. intros Hw. apply (writable_add m p 1 n) in Hw as [H1 H2]. split; [specialize (H1 O ltac:(lia)); by rewrite Z.add_0_r in H1|done]. Qed.

Lemma mpn_neg_spec m rp up xs :
  (0 < length xs)%nat → limbs_at m up xs → writable m rp (length xs) → upward rp up (Z.of_nat (length xs)) →
  computes (mpn_neg rp up (Z.of_nat (length xs))) m rp (length xs) (λ c rs,
    0 ≤ c ≤ 1 ∧ value rs = B ^ Z.of_nat (length xs) * c - value xs).
Proof.
  unfold computes, mpn_neg. rewrite Nat2Z.id. revert m rp up.
  induction xs as [|x xs IH]; intros m rp up Hn Hx Hw Hu; [simpl in Hn; lia|]. cbn [mpn_neg_loop length] in *.
  apply limbs_at_cons in Hx as [[Hx0 Hxc] Hx]. apply writable_S in Hw as [Hs Hw]. unfold upward in Hu.
  rewrite (bind_done _ _ _ _ _ (load_ok _ _ _ Hxc)). destruct (Z.eqb_spec x 0) as [->|Hne].
  - rewrite (bind_done _ _ _ _ _ (store_ok _ _ 0 Hs)). destruct xs as [|y ys].
    + exists 0, [0]. split_and!; [done|by repeat constructor|done|lia|lia|by simpl].
    + destruct (IH (write m rp [0]) (rp + 1) (up + 1)) as (c & rs & E & Hrs & L & Hc & V); [simpl; lia| | | |].
      * apply limbs_at_frame; [done|]. unfold disjoint. simpl in *. lia.
      * by apply writable_write.
      * unfold upward. simpl in *. lia.
      * exists c, (0 :: rs). cbn [length] in E |- *. rewrite E. split_and!; [done|by repeat constructor|simpl in *; lia|lia|lia|].
        cbn [value]. rewrite V. cbn [value length]. rewrite (Nat2Z.inj_succ (S _)), (Z.pow_succ_r B (Z.of_nat (S _))) by lia. lia.
  - rewrite (bind_done _ _ _ _ _ (store_ok _ _ (lneg x) Hs)).
    rewrite (bind_done _ _ _ tt (write (write m rp [lneg x]) (rp + 1) (lnot <$> xs))).
    2: { apply mpn_com_spec; [|by apply writable_write|unfold upward; lia].
         apply limbs_at_frame; [done|]. unfold disjoint. simpl. lia. }
    exists 1, (lneg x :: (lnot <$> xs)). assert (lneg x = B - x) as Hneg by limb_lia.
    split_and!; [done|constructor; [unfold limb in *; lia|]|simpl; rewrite length_fmap; lia|lia|lia|].
    + apply Forall_fmap. eapply Forall_impl; [exact (proj1 Hx)|]. apply limb_lnot.
    + cbn [value]. rewrite value_com, Nat2Z.inj_succ, Z.pow_succ_r by lia. lia.
Qed.

(** ** Properties *)

(** The memory with the given limbs from address 0 on; 0 stands for a cell not
    yet written in [None]. *)
Fixpoint cells_of (p : Z) (l : list (option Z)) : gmap Z (option Z) :=
  match l with [] => ∅ | o :: l' => <[p := o]> (cells_of (p + 1) l') end.
Definition mem_of (l : list (option Z)) : mem := Mk_mem (cells_of 0 l) ∅ (Z.of_nat (length l)).

Lemma limbs_at_nil m p : limbs_at m p [].
Proof. split; [constructor|]. by intros i x Hi. Qed.

(** Close the memory premises of a concrete instance. *)
Ltac concrete_limbs :=
  repeat (apply limbs_at_cons; split; [split; [split; [apply Z.leb_le|apply Z.ltb_lt]; reflexivity|vm_compute; reflexivity]|]);
  apply limbs_at_nil.
Ltac concrete_writable :=
  intros i Hi; repeat (destruct i as [|i]; [vm_compute; eexists; reflexivity|]); simpl in Hi; lia.

(** mpn_add and mpn_sub compute the exact sum (difference) of two numbers
    of any lengths, the second not longer: the limbs written at [rp] and the
    carry (borrow) returned give it, and no other cell changes. The result may
    be written over either operand, or anywhere at or below an operand it
    overlaps. *)
Theorem mpn_add_sub_exact m rp ap bp xs ys :
  (length ys ≤ length xs)%nat → limbs_at m ap xs → limbs_at m bp ys → writable m rp (length xs) →
  upward rp ap (Z.of_nat (length xs)) → upward rp bp (Z.of_nat (length ys)) →
  let an := Z.of_nat (length xs) in
  let bn := Z.of_nat (length ys) in
  computes (mpn_add rp ap an bp bn) m rp (length xs) (λ c rs,
    limb c ∧ value rs + B ^ an * c = value xs + value ys) ∧
  computes (mpn_sub rp ap an bp bn) m rp (length xs) (λ c rs,
    limb c ∧ value rs - B ^ an * c = value xs - value ys).
Proof. intros. split; [by apply mpn_add_spec|by apply mpn_sub_spec]. Qed.

Lemma mpn_add_sub_exact_witness :
  let m := mem_of [Some (B - 1); Some 2; Some 1] in
  computes (mpn_add 0 0 2 2 1) m 0 2 (λ c rs, limb c ∧ value rs + B ^ 2 * c = value [B - 1; 2] + value [1]) ∧
  computes (mpn_sub 0 0 2 2 1) m 0 2 (λ c rs, limb c ∧ value rs - B ^ 2 * c = value [B - 1; 2] - value [1]).
Proof.
  apply (mpn_add_sub_exact (mem_of [Some (B - 1); Some 2; Some 1]) 0 0 2 [B - 1; 2] [1]).
  - simpl. lia.
  - concrete_limbs.
  - concrete_limbs.
  - concrete_writable.
  - left. lia.
  - left. lia.
Defined.

(** C34: mpn_mul computes the exact product in [length xs + length ys] limbs,
    and returns the highest one; the result must not overlap the factors,
    which may be the same (mpn_sqr). *)
Theorem mpn_mul_exact m rp up vp xs ys :
  (0 < length ys ≤ length xs)%nat → limbs_at m up xs → limbs_at m vp ys →
  writable m rp (length xs + length ys) →
  disjoint rp (Z.of_nat (length xs + length ys)) up (Z.of_nat (length xs)) →
  disjoint rp (Z.of_nat (length xs + length ys)) vp (Z.of_nat (length ys)) →
  computes (mpn_mul rp up (Z.of_nat (length xs)) vp (Z.of_nat (length ys))) m rp (length xs + length ys)
    (λ c rs, value rs = value xs * value ys ∧ last rs = Some c).
Proof. apply mpn_mul_spec. Qed.

Lemma mpn_mul_exact_witness :
  let m := mem_of [Some (B - 1); Some 2; None; None; None; None] in
  computes (mpn_mul 2 0 2 0 2) m 2 4 (λ c rs, value rs = value [B - 1; 2] * value [B - 1; 2] ∧ last rs = Some c).
Proof.
  apply (mpn_mul_exact (mem_of [Some (B - 1); Some 2; None; None; None; None]) 2 0 0 [B - 1; 2] [B - 1; 2]).
  - simpl. lia.
  - concrete_limbs.
  - concrete_limbs.
  - concrete_writable.
  - right. simpl. lia.
  - right. simpl. lia.
Defined.

(** mpn_lshift and mpn_rshift shift a number of any length by 1 to 63 bits:
    left, the limbs and the bits returned give the number times [2 ^ cnt];
    right, the limbs are the quotient by [2 ^ cnt] and the value returned holds
    the bits shifted out, at its high end. Each accepts the overlap its
    direction allows, in particular a shift in place. *)
Theorem mpn_shift_exact m rp up xs cnt :
  (0 < length xs)%nat → 0 < cnt < 64 → limbs_at m up xs → writable m rp (length xs) →
  let n := Z.of_nat (length xs) in
  (downward rp up n → computes (mpn_lshift rp up n cnt) m rp (length xs) (λ c rs,
     0 ≤ c < 2 ^ cnt ∧ value rs + B ^ n * c = value xs * 2 ^ cnt)) ∧
  (upward rp up n → computes (mpn_rshift rp up n cnt) m rp (length xs) (λ c rs,
     value rs = value xs / 2 ^ cnt ∧ c = (value xs mod 2 ^ cnt) * 2 ^ (64 - cnt))).
Proof.
  intros Hn Hcnt Hx Hw n. split; [by apply mpn_lshift_spec|by apply mpn_rshift_div].
Qed.

Lemma mpn_shift_exact_witness :
  let m := mem_of [Some (B - 1); Some 5] in
  (downward 0 0 2 → computes (mpn_lshift 0 0 2 4) m 0 2 (λ c rs,
     0 ≤ c < 2 ^ 4 ∧ value rs + B ^ 2 * c = value [B - 1; 5] * 2 ^ 4)) ∧
  (upward 0 0 2 → computes (mpn_rshift 0 0 2 4) m 0 2 (λ c rs,
     value rs = value [B - 1; 5] / 2 ^ 4 ∧ c = (value [B - 1; 5] mod 2 ^ 4) * 2 ^ (64 - 4))).
Proof.
  apply (mpn_shift_exact (mem_of [Some (B - 1); Some 5]) 0 0 [B - 1; 5] 4).
  - simpl. lia.
  - lia.
  - concrete_limbs.
  - concrete_writable.
Defined.

(** the order of numbers in memory: mpn_cmp returns the sign of the
    difference of two numbers of the same length, mpn_normalized_size finds the
    length without high zero limbs, which has the same value, and mpn_neg
    writes the two's complement and returns whether the number is not 0. *)
Theorem mpn_cmp_neg_exact m rp ap bp xs ys :
  limbs_at m ap xs → limbs_at m bp ys → length xs = length ys → (0 < length xs)%nat →
  writable m rp (length xs) → upward rp ap (Z.of_nat (length xs)) →
  let n := Z.of_nat (length xs) in
  mpn_cmp ap bp n m = Done (Z.sgn (value xs - value ys)) m ∧
  (∃ k, mpn_normalized_size ap n m = Done (Z.of_nat k) m ∧ (k ≤ length xs)%nat ∧
     value (take k xs) = value xs ∧ normalized (take k xs)) ∧
  computes (mpn_neg rp ap n) m rp (length xs) (λ c rs,
    c = (if value xs =? 0 then 0 else 1) ∧ value rs = (- value xs) mod B ^ n).
Proof.
  intros Hx Hy Hl Hn Hw Hu n. split_and!.
  - unfold n. rewrite (mpn_cmp_spec m ap bp xs ys) by done. f_equal.
    destruct (Z.compare_spec (value xs) (value ys)); lia.
  - by apply mpn_normalized_size_spec.
  - eapply computes_mono; [by apply mpn_neg_spec|]. intros c rs Hrs L [Hc V]. fold n in V.
    pose proof (value_bounds rs Hrs) as Hb. rewrite L in Hb. pose proof (value_bounds xs (proj1 Hx)) as Hbx. fold n in Hb, Hbx.
    split.
    + destruct (Z.eqb_spec (value xs) 0).
      * assert (c = 0 ∨ c = 1) as [->| ->] by lia; [done|lia].
      * assert (c = 0 ∨ c = 1) as [->| ->] by lia; [lia|done].
    + apply (Z.mod_unique _ _ (- c)); [left; lia|lia].
Qed.

Lemma mpn_cmp_neg_exact_witness :
  let m := mem_of [Some 0; Some 5; Some 3; Some 5] in
  mpn_cmp 0 2 2 m = Done (Z.sgn (value [0; 5] - value [3; 5])) m ∧
  (∃ k, mpn_normalized_size 0 2 m = Done (Z.of_nat k) m ∧ (k ≤ 2)%nat ∧
     value (take k [0; 5]) = value [0; 5] ∧ normalized (take k [0; 5])) ∧
  computes (mpn_neg 0 0 2) m 0 2 (λ c rs,
    c = (if value [0; 5] =? 0 then 0 else 1) ∧ value rs = (- value [0; 5]) mod B ^ 2).
Proof.
  apply (mpn_cmp_neg_exact (mem_of [Some 0; Some 5; Some 3; Some 5]) 0 0 2 [0; 5] [3; 5]).
  - concrete_limbs.
  - concrete_limbs.
  - reflexivity.
  - simpl. lia.
  - concrete_writable.
  - left. lia.
Defined.
