(* ===== verification/Invert.v ===== *)
(** * Inverses for division (mpn_invert_3by2 of mini-gmp.c)

    The three stages of mpn_invert_3by2, each with what it computes: the
    half-limb inverse, the inverse of a limb, and the correction that turns it
    into the inverse of two limbs. *)

From S2P Require Import Prelude Limbs.

(** The high half of the inverse of [u1], and the remainder. *)
Definition invert_high (u1 : Z) : Z * Z :=
  let ul := u32 (Z.land u1 GMP_LLIMB_MASK) in
  let uh := u32 (lshr u1 32) in
  let qh := u32 (lnot u1 / uh) in
  let r := Z.lor (lshl (lsub (lnot u1) (lmul qh uh)) 32) GMP_LLIMB_MASK in
  let p := lmul qh ul in
  let '(qh, r) :=
    if r <? p then
      let qh := u32 (qh - 1) in
      let r := ladd r u1 in
      if (u1 <=? r) && (r <? p) then (u32 (qh - 1), ladd r u1) else (qh, r)
    else (qh, r) in
  (qh, lsub r p).

(** The low half: the inverse of [u1] and the remainder. *)
Definition invert_low (u1 qh r : Z) : Z * Z :=
  let p := ladd (lmul (lshr r 32) qh) r in
  let ql := ladd (lshr p 32) 1 in
  let r := lsub (ladd (lshl r 32) GMP_LLIMB_MASK) (lmul ql u1) in
  let '(ql, r) := if lshl p 32 <=? r then (lsub ql 1, ladd r u1) else (ql, r) in
  let m := ladd (lshl qh 32) ql in
  if u1 <=? r then (ladd m 1, lsub r u1) else (m, r).

(** The correction for the low limb [u0] of the divisor. *)
Definition invert_adjust (u1 u0 m r : Z) : Z :=
  let r := lnot r in
  let r := ladd r u0 in
  let '(m, r) :=
    if r <? u0 then
      let m := lsub m 1 in
      let '(m, r) := if u1 <=? r then (lsub m 1, lsub r u1) else (m, r) in
      (m, lsub r u1)
    else (m, r) in
  let '(th, tl) := gmp_umul_ppmm u0 m in
  let r := ladd r th in
  if r <? th then
    let m := lsub m 1 in
    lsub m (Z.lor (b2l (u1 <? r)) (Z.land (b2l (r =? u1)) (b2l (u0 <? tl))))
  else m.

Definition mpn_invert_3by2 (u1 u0 : Z) : res Z :=
  _ ← assertion (GMP_LIMB_HIGHBIT <=? u1);
  let '(qh, r) := invert_high u1 in
  let '(m, r) := invert_low u1 qh r in
  mret (if 0 <? u0 then invert_adjust u1 u0 m r else m).

(** The macro of mini-gmp.h. *)
Definition mpn_invert_limb (x : Z) : res Z := mpn_invert_3by2 x 0.

Example invert_examples :
  mpn_invert_3by2 GMP_LIMB_HIGHBIT 0 = Ok (inverse_3by2 (GMP_LIMB_HIGHBIT * B)) ∧
  mpn_invert_3by2 (B - 1) (B - 1) = Ok (inverse_3by2 (B * B - 1)) ∧
  mpn_invert_3by2 12345678901234567890 987654321 = Ok (inverse_3by2 (12345678901234567890 * B + 987654321)).
Proof. repeat split. Qed.

(** ** The high half *)

Lemma u32_u64 x : u32 (u64 x) = u32 x.
Proof.
  unfold u32, u64. change SIZE_MOD with (UINT_MOD * UINT_MOD).
  rewrite Z.rem_mul_r by done. rewrite Z.mul_comm, Z.mod_add by done. by apply Z.mod_mod.
Qed.

Lemma u32_sub x y : u32 (u32 x - y) = u32 (x - y).
Proof. unfold u32. by rewrite Zminus_mod_idemp_l. Qed.

Lemma lmul_shift x : lmul x ll_B = lshl x 32.
Proof. unfold lmul, lshl. by rewrite shl_half. Qed.

(** The digit of the half-limb division, truncated to 32 bits. *)
Lemma invert_high_half u1 :
  GMP_LIMB_HIGHBIT ≤ u1 < B →
  let '(q, r) := udiv_half (lnot u1) GMP_LLIMB_MASK (ll_highpart u1) (ll_lowpart u1) u1 in
  invert_high u1 = (u32 q, r).
Proof.
  intros Hu. unfold invert_high, udiv_half, ll_highpart, ll_lowpart, lshr.
  change (ll_B - 1) with 4294967295. change GMP_LLIMB_MASK with 4294967295. rewrite high_half, low_half, lmul_shift.
  rewrite (u32_small (u1 mod _)), (u32_small (u1 / _)) by limb_lia.
  assert (2147483648 ≤ u1 / 4294967296 < 4294967296) as Hh by limb_lia.
  rewrite (u32_small (lnot u1 / _)).
  2:{ split; [apply Z.div_pos; unfold lnot, GMP_LIMB_HIGHBIT in *; lia|].
      apply Z.div_lt_upper_bound; unfold lnot, GMP_LIMB_HIGHBIT, B, UINT_MOD in *; lia. }
  set (q := lnot u1 / _). set (r := Z.lor _ _). set (p := lmul q _).
  assert (0 ≤ q < UINT_MOD) as Hq.
  { unfold q. split; [apply Z.div_pos; unfold lnot, GMP_LIMB_HIGHBIT in *; lia|].
    apply Z.div_lt_upper_bound; unfold lnot, GMP_LIMB_HIGHBIT, B, UINT_MOD in *; lia. }
  clearbody q r p. destruct (r <? p); [|by rewrite u32_small].
  destruct (_ && _); f_equal; unfold lsub; by rewrite ?u64_sub, u32_u64, ?u32_sub.
Qed.

Lemma invert_high_spec u1 :
  GMP_LIMB_HIGHBIT ≤ u1 < B →
  let '(qh, r) := invert_high u1 in
  0 ≤ qh < GMP_HLIMB_BIT ∧ 0 ≤ r < u1 ∧
  (GMP_HLIMB_BIT + qh) * u1 + r = GMP_HLIMB_BIT * GMP_HLIMB_BIT * GMP_HLIMB_BIT - 1.
Proof.
  intros Hu. pose proof (invert_high_half u1 Hu) as E.
  assert (0 ≤ lnot u1 < u1) as Hn by (unfold lnot, GMP_LIMB_HIGHBIT, B in *; lia).
  pose proof (udiv_half_spec (lnot u1) GMP_LLIMB_MASK u1 Hn ltac:(done) Hu) as H.
  destruct (udiv_half _ _ _ _ _) as [q r]. rewrite E. destruct H as (H1 & H2 & H3).
  rewrite u32_small by (unfold UINT_MOD; lia). unfold GMP_HLIMB_BIT, GMP_LLIMB_MASK, lnot, B in *. lia.
Qed.

(** ** The low half *)

Lemma div_mod_half x : 0 ≤ x → x = x / 4294967296 * 4294967296 + x mod 4294967296 ∧ 0 ≤ x mod 4294967296 < 4294967296 ∧ 0 ≤ x / 4294967296.
Proof. intros. Z.div_mod_to_equations. lia. Qed.

Lemma lshl_half x : lshl x 32 = x mod 4294967296 * 4294967296.
Proof. unfold lshl. rewrite shl_half. unfold u64. change SIZE_MOD with (4294967296 * 4294967296). by rewrite Z.mul_mod_distr_r. Qed.

Lemma invert_low_spec u1 qh r :
  GMP_LIMB_HIGHBIT ≤ u1 < B → 0 ≤ qh < GMP_HLIMB_BIT → 0 ≤ r < u1 →
  (GMP_HLIMB_BIT + qh) * u1 + r = GMP_HLIMB_BIT * GMP_HLIMB_BIT * GMP_HLIMB_BIT - 1 →
  let '(m, r') := invert_low u1 qh r in
  limb m ∧ 0 ≤ r' < u1 ∧ (B + m) * u1 + r' = B * B - 1.
Proof.
  intros Hu Hq Hr E. unfold invert_low, lshr. rewrite !high_half, !lshl_half.
  change GMP_LLIMB_MASK with (4294967296 - 1). change GMP_HLIMB_BIT with 4294967296 in *.
  destruct (div_mod_half r) as (Er & Hr0 & Hr1); [lia|].
  set (b := 4294967296) in *. set (r1 := r / b) in *. set (r0 := r mod b) in *.
  assert (1 < b) as Hb by done. assert (B = b * b) as HB by done.
  assert (b * b ≤ 2 * u1) as HD2 by (rewrite <- HB; unfold GMP_LIMB_HIGHBIT, B in *; lia).
  assert (b * b * b - u1 ≤ (b + qh) * u1 < b * b * b) as Hv by lia.
  assert (r1 < b) as Hr1b by (unfold B in *; lia).
  pose proof (threeby2_estimate b r1 r0 u1 qh ltac:(lia) ltac:(lia) ltac:(lia) ltac:(lia) ltac:(lia) ltac:(lia)) as Hp.
  assert (ladd (lmul r1 qh) r = (b + qh) * r1 + r0) as ->.
  { unfold ladd, lmul. rewrite u64_add, u64_small; [lia|]. change SIZE_MOD with B. lia. }
  destruct (div_mod_half ((b + qh) * r1 + r0)) as (Ep & Hq0 & Hq1); [lia|]. fold b in Ep, Hq0, Hq1.
  set (q1 := ((b + qh) * r1 + r0) / b) in *. set (q0 := ((b + qh) * r1 + r0) mod b) in *. clearbody q1 q0.
  assert (q1 < b) as Hq1b by (apply (Z.mul_lt_mono_pos_r b); lia).
  pose proof (threeby2_candidate b r1 r0 (b - 1) u1 qh q1 q0 Hb HD2 ltac:(lia) Hv ltac:(lia) ltac:(lia) ltac:(lia)
    ltac:(lia) ltac:(lia) ltac:(lia) ltac:(lia)) as (H1 & H2 & H3).
  set (rt := r1 * b * b + r0 * b + (b - 1) - (q1 + 1) * u1) in *.
  assert (lsub (ladd (r0 * b) (b - 1)) (lmul (ladd q1 1) u1) = rt mod (b * b)) as ->.
  { unfold lsub, ladd, lmul. autorewrite with limbs. unfold u64. change SIZE_MOD with (b * b).
    replace (r0 * b + (b - 1) - (q1 + 1) * u1) with (rt + - r1 * (b * b)) by (unfold rt; ring). by rewrite Z.mod_add. }
  destruct (threeby2_adjust b u1 rt q0 _ Hb HD2 ltac:(lia) Hq0 H1 H2 H3 ltac:(lia) eq_refl) as [Hrange Hrest].
  assert (0 ≤ rt mod (b * b) < b * b) as HR0 by (apply Z.mod_pos_bound; lia).
  assert (rt = r * b + (b - 1) - (q1 + 1) * u1) as Ert by (unfold rt; rewrite Er; ring).
  clearbody rt. set (R0 := rt mod (b * b)) in *. set (c := q0 * b <=? R0) in *.
  assert (∀ k x, 0 ≤ rt + k * u1 < u1 → u64 x = u64 (qh * b + (q1 + 1 - k)) →
    limb (u64 x) ∧ (B + u64 x) * u1 + (rt + k * u1) = B * B - 1) as Hfin.
  { intros k x Hk ->.
    assert ((q1 + 1 - k) * u1 + (rt + k * u1) = r * b + (b - 1)) as Eq by (rewrite Ert; ring).
    assert (0 ≤ q1 + 1 - k < b) as HQ.
    { split; [apply Z.lt_succ_r, (Z.mul_lt_mono_pos_r u1)|apply (Z.mul_lt_mono_pos_r u1)]; nia. }
    assert (limb (qh * b + (q1 + 1 - k))) as Hl by (unfold limb; rewrite HB; nia).
    rewrite u64_small by done. split; [done|]. rewrite HB.
    replace ((b * b + (qh * b + (q1 + 1 - k))) * u1 + (rt + k * u1))
      with (b * ((b + qh) * u1) + ((q1 + 1 - k) * u1 + (rt + k * u1))) by ring. rewrite Eq. lia. }
  set (R := (R0 + (if c then u1 else 0)) mod (b * b)) in *.
  assert ((if c then (lsub (ladd q1 1) 1, ladd R0 u1) else (ladd q1 1, R0)) = (u64 (q1 + 1 - b2l c), R)) as ->.
  { unfold R. destruct c; [f_equal; unfold lsub, ladd; by rewrite u64_sub|].
    rewrite Z.add_0_r, Z.mod_small by lia. unfold ladd. by rewrite Z.sub_0_r. }
  rewrite (Z.mod_small qh) by done. assert (0 ≤ R < B) as HR by (rewrite HB; apply Z.mod_pos_bound; lia).
  clearbody c R. destruct (Z.leb_spec u1 R) as [Hge|Hlt].
  - destruct (Hfin _ (qh * b + (q1 + 1 - b2l c) + 1) Hrange) as [Hl Em]; [f_equal; unfold b2l; lia|].
    rewrite <- Hrest in Em, Hrange. unfold lsub, ladd. autorewrite with limbs.
    rewrite (u64_small (R - u1)) by (change SIZE_MOD with B; unfold GMP_LIMB_HIGHBIT in *; lia). done.
  - destruct (Hfin _ (qh * b + (q1 + 1 - b2l c)) Hrange) as [Hl Em]; [f_equal; unfold b2l; lia|].
    rewrite <- Hrest in Em, Hrange. unfold ladd. autorewrite with limbs. done.
Qed.

(** ** The correction *)

(** The divisors of a power of two are powers of two. *)
Lemma divisor_pow2 n : 0 ≤ n → ∀ x k, 0 < x → x * k = 2 ^ n → ∃ j, 0 ≤ j ∧ x = 2 ^ j.
Proof.
  intros Hn. pattern n. apply natlike_ind; [| |done]; clear n Hn.
  - intros x k Hx E. exists 0. split; [done|]. apply (Z.eq_mul_1_nonneg x k); [lia|exact E].
  - intros n Hn IH x k Hx E. rewrite Z.pow_succ_r in E by done.
    destruct (Z.Even_or_Odd x) as [[y ->]|[y ->]].
    + destruct (IH y k) as (j & Hj & ->); [lia|lia|]. exists (j + 1). rewrite Z.pow_add_r by lia. lia.
    + destruct (Z.Even_or_Odd k) as [[z ->]|[z ->]]; [apply (IH _ z); lia|].
      exfalso. generalize dependent (2 ^ n). intros p _ E. assert (2 * (2 * (y * z) + y + z - p) = -1) by lia. lia.
Qed.

(** No normalised divisor of two limbs with a non-zero low limb divides B^3. *)
Lemma no_exact_inverse u1 u0 k :
  GMP_LIMB_HIGHBIT ≤ u1 < B → 0 < u0 < B → (u1 * B + u0) * k ≠ B * B * B.
Proof.
  intros H1 H0 E. change (B * B * B) with (2 ^ 192) in E.
  destruct (divisor_pow2 192 ltac:(lia) (u1 * B + u0) k) as (j & Hj & Ej); [unfold GMP_LIMB_HIGHBIT, B in *; lia|done|].
  assert (2 ^ 127 ≤ 2 ^ j < 2 ^ 128) as [Hl Hu] by (rewrite <- Ej; unfold GMP_LIMB_HIGHBIT, B in *; lia).
  apply Z.pow_le_mono_r_iff in Hl; [|lia|lia]. apply Z.pow_lt_mono_r_iff in Hu; [|lia|lia].
  assert (j = 127) as -> by lia. unfold GMP_LIMB_HIGHBIT, B in *. lia.
Qed.

(** What remains of B^3 - 1 determines the inverse. *)
Lemma inverse_3by2_unique D m :
  0 ≤ B * B * B - 1 - (B + m) * D < D → m = inverse_3by2 D.
Proof. intros H. unfold inverse_3by2. rewrite <- (Z.div_unique_pos (B * B * B - 1) D (B + m) (B * B * B - 1 - (B + m) * D)); lia. Qed.

(** The first part of the correction: [T], the next approximation of the
    remainder, is the complement of what the code keeps. *)
Lemma invert_adjust_first u1 u0 m r :
  GMP_LIMB_HIGHBIT ≤ u1 < B → 0 < u0 < B → limb m → 0 ≤ r < u1 → (B + m) * u1 + r = B * B - 1 →
  ∃ k T, 0 ≤ T < u1 ∧ T = r - u0 + k * u1 ∧ limb (m - k) ∧
    (let r := ladd (lnot r) u0 in
     if r <? u0 then
       let m := lsub m 1 in
       let '(m, r) := if u1 <=? r then (lsub m 1, lsub r u1) else (m, r) in
       (m, lsub r u1)
     else (m, r)) = (m - k, B - 1 - T).
Proof.
  intros Hu1 Hu0 Hm Hr E. unfold lnot. cbv zeta. unfold GMP_LIMB_HIGHBIT in Hu1.
  assert (1 ≤ m) as Hm1 by (destruct (Z.eq_dec m 0) as [->|]; unfold limb, B in *; lia).
  destruct (Z.lt_ge_cases r u0) as [Hlt|Hge].
  - assert (ladd (B - 1 - r) u0 = u0 - r - 1) as -> by limb_lia.
    destruct (Z.ltb_spec (u0 - r - 1) u0); [|lia]. destruct (Z.leb_spec u1 (u0 - r - 1)).
    + exists 2, (r - u0 + 2 * u1).
      assert (m ≠ 1) by (intros ->; unfold limb, B in *; lia).
      split_and!; try (unfold limb, B in *; lia). f_equal; limb_lia.
    + exists 1, (r - u0 + u1). split_and!; try (unfold limb, B in *; lia). f_equal; limb_lia.
  - assert (ladd (B - 1 - r) u0 = B - 1 - r + u0) as -> by limb_lia.
    destruct (Z.ltb_spec (B - 1 - r + u0) u0); [lia|].
    exists 0, (r - u0). split_and!; try (unfold limb in *; lia). f_equal; lia.
Qed.

Lemma invert_adjust_spec u1 u0 m r :
  GMP_LIMB_HIGHBIT ≤ u1 < B → 0 < u0 < B → limb m → 0 ≤ r < u1 → (B + m) * u1 + r = B * B - 1 →
  invert_adjust u1 u0 m r = inverse_3by2 (u1 * B + u0).
Proof.
  intros Hu1 Hu0 Hm Hr E. unfold invert_adjust.
  destruct (invert_adjust_first u1 u0 m r Hu1 Hu0 Hm Hr E) as (k & T & HT & ET & Hm' & Ef).
  cbv zeta in Ef |- *. rewrite Ef. clear Ef.
  set (D := u1 * B + u0).
  assert (B * B * B - 1 - (B + (m - k)) * D = B * T + B - 1 - u0 * (m - k)) as EV.
  { replace (B * B * B - 1 - (B + (m - k)) * D) with
      (B * (B * B - 1 - ((B + m) * u1)) + B - 1 - u0 * (m - k) - B * u0 + k * u1 * B) by (unfold D; ring).
    replace (B * B - 1 - (B + m) * u1) with r by lia. rewrite ET. ring. }
  set (m' := m - k) in *. clearbody m'. clear E ET m k Hm.
  pose proof (umul_ppmm_spec u0 m' ltac:(unfold limb; lia) Hm') as Ht.
  destruct (gmp_umul_ppmm u0 m') as [th tl]. destruct Ht as (Et & Hth & Htl).
  destruct (inverse_3by2_spec D) as [Hinv _]; [unfold D, GMP_LIMB_HIGHBIT, B in *; lia|].
  assert (∀ k, 0 ≤ B * B * B - 1 - (B + (m' - k)) * D < D → u64 (m' - k) = inverse_3by2 D) as Hfin.
  { intros k Hk. rewrite <- (inverse_3by2_unique D (m' - k) Hk) in *. by apply u64_small. }
  assert (∀ k, B * B * B - 1 - (B + (m' - k)) * D = B * T + B - 1 - u0 * m' + k * D) as EVk.
  { intros k. rewrite <- EV. ring. }
  destruct (Z.lt_ge_cases T th) as [Hlt|Hge].
  - assert (ladd (B - 1 - T) th = th - T - 1) as -> by (apply (u64_range _ _ 1); unfold limb in *; lia).
    destruct (Z.ltb_spec (th - T - 1) th); [|lia].
    pose proof (no_exact_inverse u1 u0 (B + (m' - 1)) Hu1 Hu0) as Hne. fold D in Hne.
    assert (∀ x, lsub (lsub m' 1) x = u64 (m' - (1 + x))) as Hsub.
    { intros x. unfold lsub. rewrite u64_sub. f_equal. lia. }
    rewrite Hsub. set (r2 := th - T - 1) in *.
    assert (u0 * m' = (r2 + T + 1) * B + tl) as Em by (unfold r2; lia). rewrite Em in EVk.
    specialize (EVk 1) as EV1. specialize (EVk 2) as EV2. specialize (Hfin 1) as F1. specialize (Hfin 2) as F2.
    rewrite EV1 in F1. rewrite EV2 in F2.
    assert (u1 * B + u0 - (B * r2 + tl + 1) ≠ -1) by (intros E1; apply Hne; unfold D in *; lia).
    clear Hfin EVk Hne EV1 EV2 EV Hsub Em.
    destruct (Z.ltb_spec u1 r2), (Z.eqb_spec r2 u1), (Z.ltb_spec u0 tl); simpl;
      first [apply F1; unfold D, limb, GMP_LIMB_HIGHBIT, B in *; lia|apply F2; unfold D, limb, GMP_LIMB_HIGHBIT, B in *; lia].
  - assert (ladd (B - 1 - T) th = B - 1 - T + th) as -> by (apply u64_small; unfold limb in *; change SIZE_MOD with B; lia).
    destruct (Z.ltb_spec (B - 1 - T + th) th); [lia|].
    apply inverse_3by2_unique. rewrite EV. unfold D, limb, B in *. lia.
Qed.

Lemma mpn_invert_3by2_spec u1 u0 :
  GMP_LIMB_HIGHBIT ≤ u1 < B → limb u0 → mpn_invert_3by2 u1 u0 = Ok (inverse_3by2 (u1 * B + u0)).
Proof.
  intros Hu1 Hu0. unfold mpn_invert_3by2, assertion. rewrite (proj2 (Z.leb_le _ _)) by lia. cbn [mbind res_bind].
  pose proof (invert_high_spec u1 Hu1) as H. destruct (invert_high u1) as [qh r]. destruct H as (Hq & Hr & E).
  pose proof (invert_low_spec u1 qh r Hu1 Hq Hr E) as H. destruct (invert_low u1 qh r) as [m r']. destruct H as (Hm & Hr' & Em).
  destruct (Z.ltb_spec 0 u0); f_equal.
  - apply invert_adjust_spec; unfold limb in *; auto with lia.
  - assert (u0 = 0) as -> by (unfold limb in *; lia). apply inverse_3by2_unique. rewrite Z.add_0_r.
    replace (B * B * B - 1 - (B + m) * (u1 * B)) with (B * (B * B - 1 - (B + m) * u1) + B - 1) by ring.
    replace (B * B - 1 - (B + m) * u1) with r' by lia. unfold B in *. lia.
Qed.

Lemma inverse_2by1_3by2 d : GMP_LIMB_HIGHBIT ≤ d < B → inverse_3by2 (d * B) = inverse_2by1 d.
Proof.
  intros Hd. symmetry. apply inverse_3by2_unique. destruct (inverse_2by1_spec d Hd) as [_ H].
  replace (B * B * B - 1 - (B + inverse_2by1 d) * (d * B)) with (B * (B * B - (B + inverse_2by1 d) * d) - 1) by ring.
  unfold B in *. lia.
Qed.

Lemma mpn_invert_limb_spec d : GMP_LIMB_HIGHBIT ≤ d < B → mpn_invert_limb d = Ok (inverse_2by1 d).
Proof.
  intros Hd. unfold mpn_invert_limb. rewrite mpn_invert_3by2_spec, Z.add_0_r by done. f_equal. by apply inverse_2by1_3by2.
Qed.

(** ** Property *)

(** C33: mpn_invert_3by2 computes the inverse that its comment defines,
    [(B^3 - 1) / (B u1 + u0) - B], for every normalised divisor, and
    mpn_invert_limb the inverse of one limb, [(B^2 - 1) / u1 - B]; both fit a
    limb. A divisor that is not normalised fails the assertion. *)
Theorem mpn_invert_3by2_exact u1 u0 :
  limb u1 → limb u0 →
  if GMP_LIMB_HIGHBIT <=? u1 then
    mpn_invert_3by2 u1 u0 = Ok ((B ^ 3 - 1) / (B * u1 + u0) - B) ∧ limb ((B ^ 3 - 1) / (B * u1 + u0) - B) ∧
    mpn_invert_limb u1 = Ok ((B ^ 2 - 1) / u1 - B) ∧ limb ((B ^ 2 - 1) / u1 - B)
  else mpn_invert_3by2 u1 u0 = Fail Assertion.
Proof.
  intros H1 H0. destruct (Z.leb_spec GMP_LIMB_HIGHBIT u1) as [Hn|Hn].
  - assert (GMP_LIMB_HIGHBIT ≤ u1 < B) as Hu by (unfold limb in *; lia).
    rewrite mpn_invert_3by2_spec, mpn_invert_limb_spec by done. rewrite (Z.mul_comm B u1).
    destruct (inverse_2by1_spec u1 Hu) as [L2 _].
    destruct (inverse_3by2_spec (u1 * B + u0)) as [L3 _]; [unfold limb, GMP_LIMB_HIGHBIT, B in *; lia|]. done.
  - unfold mpn_invert_3by2. by rewrite (proj2 (Z.leb_gt _ _) Hn).
Qed.

Lemma mpn_invert_3by2_exact_witness :
  mpn_invert_3by2 (B - 5) 7 = Ok ((B ^ 3 - 1) / (B * (B - 5) + 7) - B) ∧ limb ((B ^ 3 - 1) / (B * (B - 5) + 7) - B) ∧
  mpn_invert_limb (B - 5) = Ok ((B ^ 2 - 1) / (B - 5) - B) ∧ limb ((B ^ 2 - 1) / (B - 5) - B).
Proof. apply (mpn_invert_3by2_exact (B - 5) 7); unfold limb, B; lia. Defined.
