(* ===== verification/MpnDiv.v ===== *)
(** * Division of natural numbers in memory (the mpn_div_qr functions of mini-gmp.c)

    Division by one limb, by two limbs, and schoolbook division by more, all
    with an inverse of the normalised divisor. A quotient pointer may be NULL,
    when only the remainder is wanted. *)

From S2P Require Import Prelude Limbs Mpn Invert.

(** struct gmp_div_inverse; [d0] is not set by mpn_div_qr_1_invert. *)
Record gmp_div_inverse := Mk_inv { shift : Z; d1 : Z; d0 : option Z; di : Z }.

Definition mpn_div_qr_1_invert (d : Z) : res gmp_div_inverse :=
  _ ← assertion (0 <? d);
  shift ← gmp_clz d;
  let d1 := lshl d shift in
  di ← mpn_invert_limb d1;
  mret (Mk_inv shift d1 None di).

Definition mpn_div_qr_2_invert (d1 d0 : Z) : res gmp_div_inverse :=
  _ ← assertion (0 <? d1);
  shift ← gmp_clz d1;
  let '(d1, d0) :=
    if 0 <? shift then (Z.lor (lshl d1 shift) (lshr d0 (GMP_LIMB_BITS - shift)), lshl d0 shift)
    else (d1, d0) in
  di ← mpn_invert_3by2 d1 d0;
  mret (Mk_inv shift d1 (Some d0) di).

Definition mpn_div_qr_invert (dp dn : Z) : M mem gmp_div_inverse :=
  _ ← lift (assertion (0 <? dn));
  if dn =? 1 then d ← load dp; lift (mpn_div_qr_1_invert d)
  else if dn =? 2 then
    d1 ← load (dp + 1);
    d0 ← load dp;
    lift (mpn_div_qr_2_invert d1 d0)
  else
    d1 ← load (dp + dn - 1);
    d0 ← load (dp + dn - 2);
    _ ← lift (assertion (0 <? d1));
    shift ← lift (gmp_clz d1);
    '(d1, d0) ←
      (if 0 <? shift then
         d2 ← load (dp + dn - 3);
         mret (Z.lor (lshl d1 shift) (lshr d0 (GMP_LIMB_BITS - shift)),
               Z.lor (lshl d0 shift) (lshr d2 (GMP_LIMB_BITS - shift)))
       else mret (d1, d0));
    di ← lift (mpn_invert_3by2 d1 d0);
    mret (Mk_inv shift d1 (Some d0) di).

(** [if (qp) qp[i] = q] *)
Definition store_opt (qp : option Z) (i q : Z) : M mem unit :=
  match qp with Some p => store (p + i) q | None => mret tt end.

(** [while (--nn >= 0)]: the remainder, from the high limb down. *)
Fixpoint div_qr_1_loop (qp : option Z) (np d di : Z) (nn : nat) (r : Z) : M mem Z :=
  match nn with
  | O => mret r
  | S i =>
      n ← load (np + Z.of_nat i);
      let '(q, r) := gmp_udiv_qrnnd_preinv r n d di in
      _ ← store_opt qp (Z.of_nat i) q;
      div_qr_1_loop qp np d di i r
  end.

Definition mpn_div_qr_1_preinv (qp : option Z) (np nn : Z) (inv : gmp_div_inverse) : M mem Z :=
  '(tp, r) ←
    (if 0 <? shift inv then
       tp ← gmp_xalloc_limbs nn;
       r ← mpn_lshift tp np nn (shift inv);
       mret (tp, r)
     else mret (np, 0));
  r ← div_qr_1_loop qp tp (d1 inv) (di inv) (Z.to_nat nn) r;
  _ ← whenM (0 <? shift inv) (gmp_free tp);
  mret (lshr r (shift inv)).

Definition mpn_div_qr_1 (qp : option Z) (np nn d : Z) : M mem Z :=
  _ ← lift (assertion (0 <? d));
  if Z.land d (lsub d 1) =? 0 then
    n0 ← load np;
    let r := Z.land n0 (lsub d 1) in
    _ ← match qp with
        | Some qp =>
            if d <=? 1 then mpn_copyi qp np nn
            else shift ← lift (gmp_ctz d); _ ← mpn_rshift qp np nn shift; mret tt
        | None => mret tt
        end;
    mret r
  else
    inv ← lift (mpn_div_qr_1_invert d);
    mpn_div_qr_1_preinv qp np nn inv.

(** The loop on [i], from [i] down to 0; [n = S i]. *)
Fixpoint div_qr_2_loop (qp : option Z) (np d1 d0 di : Z) (n : nat) (r1 r0 : Z) : M mem (Z * Z) :=
  match n with
  | O => mret (r1, r0)
  | S i =>
      n0 ← load (np + Z.of_nat i);
      let '(q, r1, r0) := gmp_udiv_qr_3by2 r1 r0 n0 d1 d0 di in
      _ ← store_opt qp (Z.of_nat i) q;
      div_qr_2_loop qp np d1 d0 di i r1 r0
  end.

Definition mpn_div_qr_2_preinv (qp : option Z) (rp np nn : Z) (inv : gmp_div_inverse) : M mem unit :=
  _ ← lift (assertion (2 <=? nn));
  d0 ← lift (match d0 inv with Some d0 => Ok d0 | None => Fail Undefined end);
  '(tp, r1) ←
    (if 0 <? shift inv then
       tp ← gmp_xalloc_limbs nn;
       r1 ← mpn_lshift tp np nn (shift inv);
       mret (tp, r1)
     else mret (np, 0));
  r0 ← load (tp + nn - 1);
  '(r1, r0) ← div_qr_2_loop qp tp (d1 inv) d0 (di inv) (Z.to_nat (nn - 1)) r1 r0;
  '(r1, r0) ←
    (if 0 <? shift inv then
       _ ← lift (assertion (lshl r0 (GMP_LIMB_BITS - shift inv) =? 0));
       let r0 := Z.lor (lshr r0 (shift inv)) (lshl r1 (GMP_LIMB_BITS - shift inv)) in
       let r1 := lshr r1 (shift inv) in
       _ ← gmp_free tp;
       mret (r1, r0)
     else mret (r1, r0));
  _ ← store (rp + 1) r1;
  store rp r0.

(** One turn of the loop of mpn_div_qr_pi1: the limb of the quotient and the
    new [n1]. *)
Definition div_qr_pi1_step (np n1 dp dn dinv d1 d0 i : Z) : M mem (Z * Z) :=
  n0 ← load (np + dn - 1 + i);
  if (n1 =? d1) && (n0 =? d0) then
    let q := GMP_LIMB_MAX in
    _ ← mpn_submul_1 (np + i) dp dn q;
    n1 ← load (np + dn - 1 + i);
    mret (q, n1)
  else
    n2 ← load (np + dn - 2 + i);
    let '(q, n1, n0) := gmp_udiv_qr_3by2 n1 n0 n2 d1 d0 dinv in
    cy ← mpn_submul_1 (np + i) dp (dn - 2) q;
    let cy1 := b2l (n0 <? cy) in
    let n0 := lsub n0 cy in
    let cy := b2l (n1 <? cy1) in
    let n1 := lsub n1 cy1 in
    _ ← store (np + dn - 2 + i) n0;
    if negb (cy =? 0) then
      c ← mpn_add_n (np + i) (np + i) dp (dn - 1);
      mret (lsub q 1, ladd n1 (ladd d1 c))
    else mret (q, n1).

Fixpoint div_qr_pi1_loop (qp : option Z) (np n1 dp dn dinv d1 d0 : Z) (n : nat) : M mem Z :=
  match n with
  | O => mret n1
  | S i =>
      '(q, n1) ← div_qr_pi1_step np n1 dp dn dinv d1 d0 (Z.of_nat i);
      _ ← store_opt qp (Z.of_nat i) q;
      div_qr_pi1_loop qp np n1 dp dn dinv d1 d0 i
  end.

Definition mpn_div_qr_pi1 (qp : option Z) (np nn n1 dp dn dinv : Z) : M mem unit :=
  _ ← lift (assertion (2 <? dn));
  _ ← lift (assertion (dn <=? nn));
  d1 ← load (dp + dn - 1);
  d0 ← load (dp + dn - 2);
  _ ← lift (assertion (negb (Z.land d1 GMP_LIMB_HIGHBIT =? 0)));
  n1 ← div_qr_pi1_loop qp np n1 dp dn dinv d1 d0 (Z.to_nat (nn - dn + 1));
  store (np + dn - 1) n1.

(** [gmp_assert_nocarry] *)
Definition gmp_assert_nocarry (k : M mem Z) : M mem unit :=
  c ← k; lift (assertion (c =? 0)).

Definition mpn_div_qr_preinv (qp : option Z) (np nn dp dn : Z) (inv : gmp_div_inverse) : M mem unit :=
  _ ← lift (assertion (0 <? dn));
  _ ← lift (assertion (dn <=? nn));
  if dn =? 1 then
    r ← mpn_div_qr_1_preinv qp np nn inv;
    store np r
  else if dn =? 2 then mpn_div_qr_2_preinv qp np np nn inv
  else
    x1 ← load (dp + dn - 1);
    _ ← lift (assertion (d1 inv =? x1));
    x0 ← load (dp + dn - 2);
    d0 ← lift (match d0 inv with Some d0 => Ok d0 | None => Fail Undefined end);
    _ ← lift (assertion (d0 =? x0));
    _ ← lift (assertion (negb (Z.land (d1 inv) GMP_LIMB_HIGHBIT =? 0)));
    nh ← (if 0 <? shift inv then mpn_lshift np np nn (shift inv) else mret 0);
    _ ← mpn_div_qr_pi1 qp np nn nh dp dn (di inv);
    whenM (0 <? shift inv) (gmp_assert_nocarry (mpn_rshift np np dn (shift inv))).

Definition mpn_div_qr (qp : option Z) (np nn dp dn : Z) : M mem unit :=
  _ ← lift (assertion (0 <? dn));
  _ ← lift (assertion (dn <=? nn));
  inv ← mpn_div_qr_invert dp dn;
  if (2 <? dn) && (0 <? shift inv) then
    tp ← gmp_xalloc_limbs dn;
    _ ← gmp_assert_nocarry (mpn_lshift tp dp dn (shift inv));
    _ ← mpn_div_qr_preinv qp np nn tp dn inv;
    gmp_free tp
  else mpn_div_qr_preinv qp np nn dp dn inv.

(** ** Lemmas on memory *)

(** Writes to disjoint regions commute. *)
Lemma write_comm m p xs q ys :
  disjoint p (Z.of_nat (length xs)) q (Z.of_nat (length ys)) →
  write (write m p xs) q ys = write (write m q ys) p xs.
Proof.
  intros Hd. unfold write, set_cells. simpl. f_equal. apply map_eq. intros a. rewrite !lookup_write_cells.
  unfold disjoint in Hd. case_match eqn:Hy; case_match eqn:Hx; try done. bool_to_prop. lia.
Qed.

(** Limbs that are there already may be counted as written. *)
Lemma write_extend m p xs zs ys :
  limbs_at m p (xs ++ zs) → length ys = length xs → write m p ys = write m p (ys ++ zs).
Proof.
  intros [_ Hz]%limbs_at_app Hl. rewrite <- write_write, Hl. symmetry. apply write_same.
  destruct Hz as [Hf Hz]. split; [done|]. intros i x Hi. simpl. rewrite lookup_write_cells.
  guard_false ((p <=? p + Z.of_nat (length xs) + Z.of_nat i) && (p + Z.of_nat (length xs) + Z.of_nat i <? p + Z.of_nat (length ys))).
  by apply Hz.
Qed.

(** Limbs after others that are there already. *)
Lemma write_after m p xs ys :
  limbs_at m p xs → write m (p + Z.of_nat (length xs)) ys = write m p (xs ++ ys).
Proof. intros Hx. by rewrite <- write_write, (write_same m p xs). Qed.

Definition write_opt (m : mem) (qp : option Z) (qs : list Z) : mem :=
  match qp with Some q => write m q qs | None => m end.

(** A quotient pointer that may be used while the limbs [p, p + k) are. *)
Definition opt_room (m : mem) (qp : option Z) (n : nat) : Prop :=
  match qp with Some q => writable m q n | None => True end.
Definition opt_disjoint (qp : option Z) (n p k : Z) : Prop :=
  match qp with Some q => disjoint q n p k | None => True end.
Definition opt_downward (qp : option Z) (p n : Z) : Prop :=
  match qp with Some q => downward q p n | None => True end.

Lemma write_opt_nil m qp : write_opt m qp [] = m.
Proof. destruct qp; [apply write_nil|done]. Qed.

Lemma store_opt_ok m qp n i q :
  opt_room m qp n → (i < n)%nat →
  store_opt qp (Z.of_nat i) q m = Done tt (write_opt m ((λ p, p + Z.of_nat i) <$> qp) [q]).
Proof. destruct qp as [p|]; [|done]. simpl. intros Hw Hi. apply store_ok. by apply Hw. Qed.

Lemma write_opt_snoc m qp qs q n :
  length qs = n → write_opt (write_opt m ((λ p, p + Z.of_nat n) <$> qp) [q]) qp qs = write_opt m qp (qs ++ [q]).
Proof. intros <-. destruct qp; [apply write_snoc|done]. Qed.

Lemma limbs_at_write_opt m qp qs p xs :
  limbs_at m p xs → opt_disjoint qp (Z.of_nat (length qs)) p (Z.of_nat (length xs)) → limbs_at (write_opt m qp qs) p xs.
Proof. destruct qp; [apply limbs_at_frame|done]. Qed.

Lemma write_opt_comm m qp qs p xs :
  opt_disjoint qp (Z.of_nat (length qs)) p (Z.of_nat (length xs)) →
  write_opt (write m p xs) qp qs = write (write_opt m qp qs) p xs.
Proof. destruct qp; [|done]. simpl. intros. apply write_comm. unfold disjoint in *. lia. Qed.

Lemma writable_write_opt m qp qs p n : writable m p n → writable (write_opt m qp qs) p n.
Proof. destruct qp; [apply writable_write|done]. Qed.
Lemma opt_room_write m qp n p xs : opt_room m qp n → opt_room (write m p xs) qp n.
Proof. destruct qp; [|done]. apply writable_write. Qed.
Lemma opt_room_write_opt m qp n rp rs : opt_room m qp n → opt_room (write_opt m rp rs) qp n.
Proof. destruct rp; [|done]. apply opt_room_write. Qed.
Lemma opt_room_le m qp n k : (k ≤ n)%nat → opt_room m qp n → opt_room m qp k.
Proof. destruct qp; [|done]. intros Hk Hw i Hi. apply Hw. lia. Qed.

(** ** Division by one limb *)

Lemma div_qr_1_loop_spec qp np d xs : ∀ m r,
  GMP_LIMB_HIGHBIT ≤ d < B → 0 ≤ r < d → limbs_at m np xs →
  opt_room m qp (length xs) → opt_downward qp np (Z.of_nat (length xs)) →
  ∃ r' qs, div_qr_1_loop qp np d (inverse_2by1 d) (length xs) r m = Done r' (write_opt m qp qs) ∧
    Forall limb qs ∧ length qs = length xs ∧ 0 ≤ r' < d ∧
    r * B ^ Z.of_nat (length xs) + value xs = value qs * d + r'.
Proof.
  induction xs as [|x xs IH] using rev_ind; intros m r Hd Hr Hx Hq Hal.
  - exists r, []. rewrite write_opt_nil. split_and!; try done; try lia. simpl. lia.
  - rewrite length_app in *. simpl length in *. replace (length xs + 1)%nat with (S (length xs)) in * by lia.
    apply limbs_at_app in Hx as [Hx [[Hxl Hxc] _]%limbs_at_cons]. cbn [div_qr_1_loop].
    rewrite (bind_done _ _ _ _ _ (load_ok _ _ _ Hxc)).
    pose proof (udiv_qrnnd_preinv_spec r x d Hd Hr Hxl) as Hdiv.
    destruct (gmp_udiv_qrnnd_preinv r x d (inverse_2by1 d)) as [q r1]. destruct Hdiv as (E & Hr1 & Hql).
    rewrite (bind_done _ _ _ _ _ (store_opt_ok m qp _ (length xs) q Hq ltac:(lia))).
    destruct (IH (write_opt m ((λ p, p + Z.of_nat (length xs)) <$> qp) [q]) r1) as (r' & qs & -> & Hqs & Lqs & Hr' & V).
    + done.
    + done.
    + apply limbs_at_write_opt; [done|]. destruct qp; simpl in *; [|done]. unfold disjoint, downward in *. lia.
    + apply opt_room_write_opt. eapply opt_room_le; [|done]. lia.
    + destruct qp; simpl in *; [|done]. unfold downward in *. lia.
    + exists r', (qs ++ [q]). rewrite write_opt_snoc by done. split_and!; try lia.
      * done.
      * apply Forall_app. by rewrite Forall_singleton.
      * rewrite length_app. simpl. lia.
      * rewrite !value_app, Lqs. simpl value. rewrite Nat2Z.inj_succ, Z.pow_succ_r by lia.
        set (P := B ^ Z.of_nat (length xs)) in *. assert (P * (r * B + x) = P * (q * d + r1)) by (by rewrite E). lia.
Qed.

(** ** Temporary blocks *)

(** Every address from [next] on is free. *)
Definition mem_wf (m : mem) : Prop := ∀ a, next m ≤ a → cells m !! a = None ∧ blocks m !! a = None.

(** The memory after an allocation, and after its block has been freed. *)
Definition grow (m : mem) (n : Z) : mem :=
  Mk_mem (fresh_cells (cells m) (next m) (Z.to_nat n)) (<[next m := n]> (blocks m)) (next m + n).
Definition bump (n : Z) (m : mem) : mem := Mk_mem (cells m) (blocks m) (next m + n).

(** [m2] is [m'] with a block of [n] cells at [t]. *)
Definition over (t n : Z) (m2 m' : mem) : Prop :=
  blocks m2 = <[t := n]> (blocks m') ∧ next m2 = next m' + n ∧
  ∀ a, ¬ (t ≤ a < t + n) → cells m2 !! a = cells m' !! a.

Lemma lookup_fresh_cells c p n a :
  fresh_cells c p n !! a = if (p <=? a) && (a <? p + Z.of_nat n) then Some None else c !! a.
Proof.
  revert p. induction n as [|n IH]; intros p; cbn [fresh_cells].
  - by guard_false ((p <=? a) && (a <? p + Z.of_nat 0)).
  - destruct (Z.eq_dec a p) as [->|Hne].
    + rewrite lookup_insert_eq. by guard_true ((p <=? p) && (p <? p + Z.of_nat (S n))).
    + rewrite lookup_insert_ne, IH by done.
      destruct (Z.leb_spec (p + 1) a), (Z.leb_spec p a), (Z.ltb_spec a (p + 1 + Z.of_nat n)),
        (Z.ltb_spec a (p + Z.of_nat (S n))); simpl; (done || lia).
Qed.

Lemma lookup_drop_cells c p n a :
  drop_cells c p n !! a = if (p <=? a) && (a <? p + Z.of_nat n) then None else c !! a.
Proof.
  revert p. induction n as [|n IH]; intros p; cbn [drop_cells].
  - by guard_false ((p <=? a) && (a <? p + Z.of_nat 0)).
  - destruct (Z.eq_dec a p) as [->|Hne].
    + rewrite lookup_delete_eq. by guard_true ((p <=? p) && (p <? p + Z.of_nat (S n))).
    + rewrite lookup_delete_ne, IH by done.
      destruct (Z.leb_spec (p + 1) a), (Z.leb_spec p a), (Z.ltb_spec a (p + 1 + Z.of_nat n)),
        (Z.ltb_spec a (p + Z.of_nat (S n))); simpl; (done || lia).
Qed.

Lemma xalloc_ok m n : 0 < n ≤ alloc_limit → gmp_xalloc_limbs n m = Done (next m) (grow m n).
Proof.
  intros Hn. unfold gmp_xalloc_limbs. rewrite lift_assert_bind by (apply Z.ltb_lt; lia). by guard_true (n <=? alloc_limit).
Qed.

Section temporaries.
Context (m : mem) (n : Z).

Lemma over_grow : 0 ≤ n → over (next m) n (grow m n) m.
Proof.
  intros Hn. split_and!; [done|done|]. intros a Ha. simpl. rewrite lookup_fresh_cells.
  guard_false ((next m <=? a) && (a <? next m + Z.of_nat (Z.to_nat n))). done.
Qed.

Lemma limbs_at_grow p xs : mem_wf m → limbs_at m p xs → limbs_at (grow m n) p xs.
Proof.
  intros Hwf [Hl Hc]. split; [done|]. intros i x Hi. simpl. rewrite lookup_fresh_cells.
  destruct ((next m <=? p + Z.of_nat i) && _) eqn:Hb; [|by apply Hc]. bool_to_prop.
  destruct (Hwf (p + Z.of_nat i)) as [Hn _]; [lia|]. by rewrite (Hc _ _ Hi) in Hn.
Qed.

Lemma writable_grow q k : writable m q k → writable (grow m n) q k.
Proof. intros Hw i Hi. simpl. rewrite lookup_fresh_cells. case_match; [eauto|by apply Hw]. Qed.

Lemma opt_room_grow qp k : opt_room m qp k → opt_room (grow m n) qp k.
Proof. destruct qp; [apply writable_grow|done]. Qed.

Lemma writable_new : writable (grow m n) (next m) (Z.to_nat n).
Proof.
  intros i Hi. simpl. rewrite lookup_fresh_cells.
  guard_true ((next m <=? next m + Z.of_nat i) && (next m + Z.of_nat i <? next m + Z.of_nat (Z.to_nat n))). eauto.
Qed.
End temporaries.

(** Allocated cells are below [next]. *)
Lemma writable_below m p k : mem_wf m → (0 < k)%nat → writable m p k → p + Z.of_nat k ≤ next m.
Proof.
  intros Hwf Hk Hw. destruct (Z.lt_ge_cases (next m) (p + Z.of_nat k)); [|done]. exfalso.
  destruct (Hw (k - 1)%nat) as [v Hv]; [lia|]. destruct (Hwf (p + Z.of_nat (k - 1))) as [Hn _]; [lia|]. congruence.
Qed.

Lemma mem_wf_write m p xs : mem_wf m → writable m p (length xs) → mem_wf (write m p xs).
Proof.
  intros Hwf Hw a Ha. destruct (Hwf a Ha) as [Hc Hb]. split; [|done]. simpl. rewrite lookup_write_cells.
  destruct ((p <=? a) && (a <? p + Z.of_nat (length xs))) eqn:Hr; [|done]. bool_to_prop.
  destruct (Hw (Z.to_nat (a - p))) as [v Hv]; [lia|]. replace (p + Z.of_nat (Z.to_nat (a - p))) with a in Hv by lia. congruence.
Qed.

Lemma mem_wf_write_opt m qp qs : mem_wf m → opt_room m qp (length qs) → mem_wf (write_opt m qp qs).
Proof. destruct qp; [apply mem_wf_write|done]. Qed.

Section overlay.
Context (t n : Z) (m2 m' : mem).

Lemma over_write q qs : over t n m2 m' → over t n (write m2 q qs) (write m' q qs).
Proof.
  intros (Hb & Hn & Hc). split_and!; [done|done|]. intros a Ha. simpl. rewrite !lookup_write_cells. case_match; [done|by apply Hc].
Qed.

Lemma over_write_opt qp qs : over t n m2 m' → over t n (write_opt m2 qp qs) (write_opt m' qp qs).
Proof. destruct qp; [apply over_write|done]. Qed.

Lemma over_write_tmp ts : over t n m2 m' → Z.of_nat (length ts) ≤ n → over t n (write m2 t ts) m'.
Proof.
  intros (Hb & Hn & Hc) Hl. split_and!; [done|done|]. intros a Ha. simpl. rewrite lookup_write_cells.
  guard_false ((t <=? a) && (a <? t + Z.of_nat (length ts))). by apply Hc.
Qed.

Lemma over_free : over t n m2 m' → mem_wf m' → t = next m' → 0 ≤ n → gmp_free t m2 = Done tt (bump n m').
Proof.
  intros (Hb & Hn & Hc) Hwf -> Hpos. unfold gmp_free, bump. rewrite Hb, lookup_insert_eq. f_equal. f_equal.
  - apply map_eq. intros a. rewrite lookup_drop_cells. case_match eqn:Ha; bool_to_prop.
    + destruct (Hwf a) as [-> _]; [lia|done].
    + apply Hc. destruct Ha as [Ha|Ha]; bool_to_prop; lia.
  - rewrite delete_insert_eq. apply delete_id. apply Hwf. lia.
  - done.
Qed.
End overlay.

(** [mem'] is [m] after writing the quotient, temporaries allocated and freed. *)
Definition after_temp (m mem' : mem) : Prop := ∃ k, 0 ≤ k ∧ mem' = bump k m.

Lemma after_temp_refl m : after_temp m m.
Proof. exists 0. split; [done|]. unfold bump. rewrite Z.add_0_r. by destruct m. Qed.

Lemma after_temp_wf m m' : after_temp m m' → mem_wf m → mem_wf m'.
Proof. intros (k & Hk & ->) Hwf a Ha. apply Hwf. simpl in Ha. lia. Qed.

Lemma pow2_limb s : 0 ≤ s < 64 → 0 < 2 ^ s ≤ GMP_LIMB_HIGHBIT.
Proof. intros. split; [apply Z.pow_pos_nonneg; lia|]. change GMP_LIMB_HIGHBIT with (2 ^ 63). apply Z.pow_le_mono_r; lia. Qed.

Lemma div_qr_1_invert_spec d :
  0 < d < B → ∃ s, mpn_div_qr_1_invert d = Ok (Mk_inv s (d * 2 ^ s) None (inverse_2by1 (d * 2 ^ s))) ∧
    0 ≤ s < 64 ∧ GMP_LIMB_HIGHBIT ≤ d * 2 ^ s < B.
Proof.
  intros Hd. unfold mpn_div_qr_1_invert, assertion. rewrite (proj2 (Z.ltb_lt _ _)) by lia. cbn [mbind res_bind].
  destruct (gmp_clz_spec d Hd) as (s & -> & Hs & Hn). change (2 ^ 63) with GMP_LIMB_HIGHBIT in Hn. change (2 ^ 64) with B in Hn.
  exists s. cbn [mbind res_bind]. rewrite lshl_exact by (unfold GMP_LIMB_HIGHBIT in *; lia). rewrite mpn_invert_limb_spec by lia. done.
Qed.

(** The remainder of the shifted division. *)
Lemma unshift_remainder N Q d s r :
  0 ≤ s → 0 < d → 0 ≤ r < d * 2 ^ s → N * 2 ^ s = Q * (d * 2 ^ s) + r →
  N = Q * d + r / 2 ^ s ∧ 0 ≤ r / 2 ^ s < d ∧ r = (r / 2 ^ s) * 2 ^ s.
Proof.
  intros Hs Hd Hr E. pose proof (Z.pow_pos_nonneg 2 s ltac:(lia) Hs) as Hp.
  assert (r = (N - Q * d) * 2 ^ s) as Er by lia. rewrite Er, Z.div_mul by lia.
  split; [lia|]. split; [|lia]. rewrite Er in Hr. nia.
Qed.

(** A shifted copy in a new block. *)
Lemma shifted_copy_spec m np xs s :
  mem_wf m → limbs_at m np xs → (0 < length xs)%nat → Z.of_nat (length xs) ≤ alloc_limit → 0 < s < 64 →
  ∃ c ts, gmp_xalloc_limbs (Z.of_nat (length xs)) m = Done (next m) (grow m (Z.of_nat (length xs))) ∧
    mpn_lshift (next m) np (Z.of_nat (length xs)) s (grow m (Z.of_nat (length xs))) =
      Done c (write (grow m (Z.of_nat (length xs))) (next m) ts) ∧
    Forall limb ts ∧ length ts = length xs ∧ 0 ≤ c < 2 ^ s ∧ c * B ^ Z.of_nat (length xs) + value ts = value xs * 2 ^ s.
Proof.
  intros Hwf Hx Hn Hlim Hs. set (n := Z.of_nat (length xs)) in *.
  destruct (mpn_lshift_spec (grow m n) (next m) np xs s) as (c & ts & E & Hts & Lts & Hc & V).
  - done.
  - done.
  - by apply limbs_at_grow.
  - unfold n. rewrite <- (Nat2Z.id (length xs)) at 2. apply writable_new.
  - left. pose proof (writable_below m np (length xs) Hwf Hn (writable_limbs _ _ _ Hx)). lia.
  - exists c, ts. rewrite xalloc_ok by lia. fold n in V. rewrite Z.mul_comm in V. split_and!; try done; try lia.
Qed.

Lemma mpn_div_qr_1_preinv_spec m qp np xs d s :
  mem_wf m → limbs_at m np xs → (0 < length xs)%nat → Z.of_nat (length xs) ≤ alloc_limit →
  0 < d → 0 ≤ s < 64 → GMP_LIMB_HIGHBIT ≤ d * 2 ^ s < B →
  opt_room m qp (length xs) → opt_downward qp np (Z.of_nat (length xs)) →
  ∃ r qs m', mpn_div_qr_1_preinv qp np (Z.of_nat (length xs)) (Mk_inv s (d * 2 ^ s) None (inverse_2by1 (d * 2 ^ s))) m = Done r m' ∧
    after_temp (write_opt m qp qs) m' ∧ Forall limb qs ∧ length qs = length xs ∧
    value xs = value qs * d + r ∧ 0 ≤ r < d.
Proof.
  intros Hwf Hx Hn Hlim Hd Hs Hdn Hq Hal. unfold mpn_div_qr_1_preinv. cbn [shift d1 di]. rewrite Nat2Z.id.
  unfold lshr.
  destruct (Z.ltb_spec 0 s) as [Hs0|Hs0].
  - destruct (shifted_copy_spec m np xs s Hwf Hx Hn Hlim ltac:(lia)) as (c & ts & Ea & El & Hts & Lts & Hc & V).
    rewrite (bind_done _ _ m (next m, c) (write (grow m (Z.of_nat (length xs))) (next m) ts))
      by (by rewrite (bind_done _ _ _ _ _ Ea), (bind_done _ _ _ _ _ El)).
    pose proof (pow2_limb s ltac:(lia)).
    destruct (div_qr_1_loop_spec qp (next m) (d * 2 ^ s) ts (write (grow m (Z.of_nat (length xs))) (next m) ts) c)
      as (r & qs & E & Hqs & Lqs & Hr & V').
    + done.
    + lia.
    + by apply limbs_at_write.
    + rewrite Lts. by apply opt_room_write, opt_room_grow.
    + destruct qp as [q|]; simpl in *; [|done]. right. rewrite Lts.
      apply (writable_below m q (length xs) Hwf Hn Hq).
    + rewrite Lts in E, V'. rewrite (bind_done _ _ _ _ _ E). cbn [whenM].
      rewrite (bind_done _ _ _ tt (bump (Z.of_nat (length xs)) (write_opt m qp qs))).
      2:{ apply over_free; [|apply mem_wf_write_opt; [done|by rewrite Lqs, Lts]|by destruct qp|lia].
          apply over_write_opt, over_write_tmp; [apply over_grow|]; lia. }
      destruct (unshift_remainder (value xs) (value qs) d s r) as (E1 & E2 & _); [lia..|].
      eexists _, qs, _. split; [done|]. rewrite Z.shiftr_div_pow2 by lia.
      split_and!; try done; try lia. eexists. split; [|done]. lia.
  - assert (s = 0) as -> by lia. rewrite (bind_done (S:=mem) _ _ m (np, 0) m eq_refl).
    destruct (div_qr_1_loop_spec qp np (d * 2 ^ 0) xs m 0) as (r & qs & E & Hqs & Lqs & Hr & V'); [done|lia|done..|].
    rewrite (bind_done _ _ _ _ _ E). cbn [whenM]. rewrite (bind_done (S:=mem) _ _ _ tt _ eq_refl).
    eexists _, qs, _. split; [done|]. rewrite Z.shiftr_0_r. split_and!; try done; try lia. apply after_temp_refl.
Qed.

(** The limbs of a number. *)
Lemma limbs_exist n v : 0 ≤ v < B ^ Z.of_nat n → ∃ qs, Forall limb qs ∧ length qs = n ∧ value qs = v.
Proof.
  revert v. induction n as [|n IH]; intros v Hv; [exists []; simpl in *; split_and!; [done|done|lia]|].
  rewrite Nat2Z.inj_succ, Z.pow_succ_r in Hv by lia.
  pose proof (Z.div_mod v B ltac:(done)) as E. pose proof (Z.mod_pos_bound v B ltac:(done)) as Hm.
  destruct (IH (v / B)) as (qs & Hqs & Lqs & Vqs).
  { split; [apply Z.div_pos; [lia|done]|apply Z.div_lt_upper_bound; [done|lia]]. }
  exists (v mod B :: qs). split_and!; [by constructor|simpl; lia|]. cbn [value]. lia.
Qed.

(** The test for powers of two. *)
Lemma land_pred_pow2 d k x : 0 ≤ k → d = (2 * x + 1) * 2 ^ k → Z.land d (d - 1) = 0 → x = 0.
Proof.
  intros Hk E H. assert (Z.shiftr (Z.land d (d - 1)) (k + 1) = 0) as H0 by (by rewrite H, Z.shiftr_0_l).
  rewrite Z.shiftr_land, !Z.shiftr_div_pow2 in H0 by lia.
  pose proof (Z.pow_pos_nonneg 2 k ltac:(lia) Hk) as Hp. rewrite Z.pow_add_r in H0 by lia. change (2 ^ 1) with 2 in H0.
  rewrite <- (Z.div_unique_pos d (2 ^ k * 2) x (2 ^ k)) in H0 by lia.
  rewrite <- (Z.div_unique_pos (d - 1) (2 ^ k * 2) x (2 ^ k - 1)) in H0 by lia. by rewrite Z.land_diag in H0.
Qed.

Lemma value_mod_low x xs k : 0 ≤ k < 64 → (value (x :: xs)) mod 2 ^ k = x mod 2 ^ k.
Proof.
  intros Hk. cbn [value]. assert (B = 2 ^ (64 - k) * 2 ^ k) as -> by (rewrite <- Z.pow_add_r by lia; by replace (64 - k + k) with 64 by lia).
  replace (x + 2 ^ (64 - k) * 2 ^ k * value xs) with (x + (2 ^ (64 - k) * value xs) * 2 ^ k) by ring.
  apply Z.mod_add. pose proof (Z.pow_pos_nonneg 2 k). lia.
Qed.

(** In place or apart. *)
Definition opt_upward (qp : option Z) (p n : Z) : Prop :=
  match qp with Some q => upward q p n | None => True end.

(** A quotient pointer that the powers of two use. *)
Lemma pow2_quotient m qp np xs k :
  limbs_at m np xs → (0 < length xs)%nat → 0 ≤ k < 64 → opt_room m qp (length xs) →
  opt_upward qp np (Z.of_nat (length xs)) →
  ∃ qs, match qp with
        | Some qp =>
            if 2 ^ k <=? 1 then mpn_copyi qp np (Z.of_nat (length xs))
            else shift ← lift (Ok k); _ ← mpn_rshift qp np (Z.of_nat (length xs)) shift; mret tt
        | None => mret tt
        end m = Done tt (write_opt m qp qs) ∧
    Forall limb qs ∧ length qs = length xs ∧ value qs = value xs / 2 ^ k.
Proof.
  intros Hx Hn Hk Hq Hu. pose proof (value_bounds xs (proj1 Hx)) as Hb.
  destruct qp as [q|]; simpl in Hq, Hu |- *.
  - destruct (Z.leb_spec (2 ^ k) 1) as [H1|H1].
    + assert (2 ^ k = 1) as -> by (pose proof (Z.pow_pos_nonneg 2 k); lia).
      exists xs. rewrite mpn_copyi_spec by done. split_and!; [done|apply Hx|done|]. by rewrite Z.div_1_r.
    + assert (0 < k) by (destruct (Z.eq_dec k 0) as [->|]; [done|lia]).
      destruct (mpn_rshift_div m q np xs k) as (c & qs & E & Hqs & Lqs & V & _); [done|lia|done..|].
      exists qs. rewrite (bind_done (S:=mem) _ _ _ k m eq_refl), (bind_done _ _ _ _ _ E). done.
  - destruct (limbs_exist (length xs) (value xs / 2 ^ k)) as (qs & ? & ? & ?); [|by exists qs].
    pose proof (Z.pow_pos_nonneg 2 k). split; [apply Z.div_pos; lia|].
    apply Z.div_lt_upper_bound; [lia|]. nia.
Qed.

Lemma mpn_div_qr_1_spec m qp np xs d :
  mem_wf m → limbs_at m np xs → (0 < length xs)%nat → Z.of_nat (length xs) ≤ alloc_limit → 0 < d < B →
  opt_room m qp (length xs) → opt_downward qp np (Z.of_nat (length xs)) → opt_upward qp np (Z.of_nat (length xs)) →
  ∃ r qs m', mpn_div_qr_1 qp np (Z.of_nat (length xs)) d m = Done r m' ∧
    after_temp (write_opt m qp qs) m' ∧ Forall limb qs ∧ length qs = length xs ∧
    value xs = value qs * d + r ∧ 0 ≤ r < d.
Proof.
  intros Hwf Hx Hn Hlim Hd Hq Hdo Hup. unfold mpn_div_qr_1. rewrite lift_assert_bind by (apply Z.ltb_lt; lia).
  assert (lsub d 1 = d - 1) as -> by limb_lia.
  destruct (Z.eqb_spec (Z.land d (d - 1)) 0) as [H0|_].
  - destruct (gmp_ctz_spec d Hd) as (k & Ek & Hk & x & Hx0 & Ed). rewrite Ek.
    assert (x = 0) as -> by (apply (land_pred_pow2 d k); [lia|exact Ed|exact H0]). assert (d = 2 ^ k) as Edk by lia.
    destruct xs as [|n0 xs']; [simpl in Hn; lia|]. set (xs := n0 :: xs') in *.
    pose proof (proj1 (limbs_at_cons _ _ _ _) Hx) as [[Hn0 Hc0] _]. rewrite (bind_done _ _ _ _ _ (load_ok _ _ _ Hc0)).
    destruct (pow2_quotient m qp np xs k Hx Hn Hk Hq Hup) as (qs & E & Hqs & Lqs & V).
    rewrite <- Edk in E. rewrite (bind_done _ _ _ _ _ E).
    assert (Z.land n0 (d - 1) = value xs mod d) as ->.
    { rewrite Edk. unfold xs. rewrite value_mod_low by done. rewrite <- Z.land_ones by lia. f_equal. rewrite Z.ones_equiv. lia. }
    eexists _, qs, _. split; [done|]. rewrite V, <- Edk. split_and!; try done; try apply after_temp_refl; try (apply Z.mod_pos_bound; lia).
    pose proof (Z.div_mod (value xs) d). lia.
  - destruct (div_qr_1_invert_spec d Hd) as (s & -> & Hs & Hdn). rewrite lift_ok_bind.
    apply mpn_div_qr_1_preinv_spec; try done. lia.
Qed.

(** ** Division by two limbs *)

Lemma div_qr_2_loop_spec qp np d1 d0 xs : ∀ m r1 r0,
  GMP_LIMB_HIGHBIT ≤ d1 < B → limb d0 → limb r1 → limb r0 → r1 * B + r0 < d1 * B + d0 → limbs_at m np xs →
  opt_room m qp (length xs) → opt_downward qp np (Z.of_nat (length xs)) →
  ∃ r1' r0' qs, div_qr_2_loop qp np d1 d0 (inverse_3by2 (d1 * B + d0)) (length xs) r1 r0 m =
      Done (r1', r0') (write_opt m qp qs) ∧
    Forall limb qs ∧ length qs = length xs ∧ limb r1' ∧ limb r0' ∧ r1' * B + r0' < d1 * B + d0 ∧
    (r1 * B + r0) * B ^ Z.of_nat (length xs) + value xs = value qs * (d1 * B + d0) + (r1' * B + r0').
Proof.
  induction xs as [|x xs IH] using rev_ind; intros m r1 r0 Hd1 Hd0 Hr1 Hr0 Hlt Hx Hq Hal.
  - exists r1, r0, []. rewrite write_opt_nil. split_and!; try done. simpl. lia.
  - rewrite length_app in *. simpl length in *. replace (length xs + 1)%nat with (S (length xs)) in * by lia.
    apply limbs_at_app in Hx as [Hx [[Hxl Hxc] _]%limbs_at_cons]. cbn [div_qr_2_loop].
    rewrite (bind_done _ _ _ _ _ (load_ok _ _ _ Hxc)).
    pose proof (udiv_qr_3by2_spec r1 r0 x d1 d0 Hd1 Hd0 Hr1 Hr0 Hxl Hlt) as Hdiv.
    destruct (gmp_udiv_qr_3by2 r1 r0 x d1 d0 _) as [[q s1] s0]. destruct Hdiv as (E & Hlt' & Hql & Hs1 & Hs0).
    rewrite (bind_done _ _ _ _ _ (store_opt_ok m qp _ (length xs) q Hq ltac:(lia))).
    destruct (IH (write_opt m ((λ p, p + Z.of_nat (length xs)) <$> qp) [q]) s1 s0)
      as (r1' & r0' & qs & -> & Hqs & Lqs & Hr1' & Hr0' & Hlt'' & V); try done.
    + apply limbs_at_write_opt; [done|]. destruct qp; simpl in *; [|done]. unfold disjoint, downward in *. lia.
    + apply opt_room_write_opt. eapply opt_room_le; [|done]. lia.
    + destruct qp; simpl in *; [|done]. unfold downward in *. lia.
    + exists r1', r0', (qs ++ [q]). rewrite write_opt_snoc by done. split_and!; try done.
      * apply Forall_app. by rewrite Forall_singleton.
      * rewrite length_app. simpl. lia.
      * rewrite !value_app, Lqs. simpl value. rewrite Nat2Z.inj_succ, Z.pow_succ_r by lia.
        set (P := B ^ Z.of_nat (length xs)) in *. set (D := d1 * B + d0) in *.
        assert (P * (r1 * B * B + r0 * B + x) = P * (q * D + (s1 * B + s0))) by (by rewrite E). lia.
Qed.

(** Two limbs shifted, and the carry from below. *)
Lemma shift_pair x y s :
  limb x → limb y → 0 < s < 64 → x * 2 ^ s < B →
  let e := Z.lor (lshl x s) (lshr y (64 - s)) in
  e * B + lshl y s = (x * B + y) * 2 ^ s ∧ e = x * 2 ^ s + lshr y (64 - s) ∧ limb e ∧ limb (lshl y s).
Proof.
  intros Hx Hy Hs Hlt e. destruct (shift_parts y s Hy Hs) as (Ey & _ & Hr & Hl).
  pose proof (Z.pow_pos_nonneg 2 s) as Hp. assert (lshl x s = x * 2 ^ s) as Ex by (apply lshl_exact; unfold limb in *; nia).
  assert (e = x * 2 ^ s + lshr y (64 - s)) as Ee by (unfold e; rewrite Ex; by apply lor_multiple; lia).
  assert (B = 2 ^ (64 - s) * 2 ^ s) as HB by (rewrite <- Z.pow_add_r by lia; by replace (64 - s + s) with 64 by lia).
  split_and!; [rewrite Ee; lia|done| |done]. rewrite Ee. unfold limb in *.
  assert (x < 2 ^ (64 - s)) by (apply (Z.mul_lt_mono_pos_r (2 ^ s)); lia).
  assert ((x + 1) * 2 ^ s ≤ 2 ^ (64 - s) * 2 ^ s) by (apply Z.mul_le_mono_nonneg_r; lia). lia.
Qed.

Lemma div_qr_2_invert_spec x1 x0 :
  0 < x1 < B → limb x0 →
  ∃ s e1 e0, mpn_div_qr_2_invert x1 x0 = Ok (Mk_inv s e1 (Some e0) (inverse_3by2 (e1 * B + e0))) ∧
    0 ≤ s < 64 ∧ e1 * B + e0 = (x1 * B + x0) * 2 ^ s ∧ GMP_LIMB_HIGHBIT ≤ e1 < B ∧ limb e0.
Proof.
  intros H1 H0. unfold mpn_div_qr_2_invert, assertion. rewrite (proj2 (Z.ltb_lt _ _)) by lia. cbn [mbind res_bind].
  destruct (gmp_clz_spec x1 H1) as (s & -> & Hs & Hn). change (2 ^ 63) with GMP_LIMB_HIGHBIT in Hn. change (2 ^ 64) with B in Hn.
  cbn [mbind res_bind]. change GMP_LIMB_BITS with 64. destruct (Z.ltb_spec 0 s).
  - destruct (shift_pair x1 x0 s) as (E & Ee & He & Hl); [unfold limb; lia|done|lia|lia|].
    assert (0 ≤ lshr x0 (64 - s)) by (apply Z.shiftr_nonneg; unfold limb in *; lia).
    eexists s, _, _. rewrite mpn_invert_3by2_spec by (unfold limb in *; lia || done). split_and!; [done|lia|lia|done|lia|unfold limb in *; lia|apply Hl..].
  - assert (s = 0) as -> by lia. eexists 0, x1, x0. rewrite mpn_invert_3by2_spec by (lia || done). split_and!; try done; lia.
Qed.

(** The remainder of two limbs shifted back. *)
Lemma unshift_pair r1 r0 s rho :
  limb r1 → limb r0 → 0 < s < 64 → r1 * B + r0 = rho * 2 ^ s →
  (lshl r0 (64 - s) =? 0) = true ∧
  lshr r1 s * B + Z.lor (lshr r0 s) (lshl r1 (64 - s)) = rho ∧ limb (lshr r1 s) ∧ limb (Z.lor (lshr r0 s) (lshl r1 (64 - s))).
Proof.
  intros H1 H0 Hs E. pose proof (Z.pow_pos_nonneg 2 s) as Hp. pose proof (Z.pow_pos_nonneg 2 (64 - s)) as Hp'.
  assert (B = 2 ^ (64 - s) * 2 ^ s) as HB by (rewrite <- Z.pow_add_r by lia; by replace (64 - s + s) with 64 by lia).
  destruct (shift_parts r1 (64 - s) H1 ltac:(lia)) as (E1 & El & Hr & Hl). replace (64 - (64 - s)) with s in * by lia.
  assert (r0 = lshr r0 s * 2 ^ s) as E0.
  { unfold lshr. rewrite Z.shiftr_div_pow2 by lia. assert (r0 = (rho - r1 * 2 ^ (64 - s)) * 2 ^ s) as -> by lia. by rewrite Z.div_mul by lia. }
  assert (0 ≤ lshr r0 s < 2 ^ (64 - s)) as Hr0.
  { unfold limb in *. split; [apply Z.shiftr_nonneg; lia|apply (Z.mul_lt_mono_pos_r (2 ^ s)); lia]. }
  rewrite Z.lor_comm, El, lor_multiple by lia. rewrite <- El. split_and!.
  - apply Z.eqb_eq. unfold lshl, u64. rewrite Z.shiftl_mul_pow2 by lia. change SIZE_MOD with B.
    rewrite E0, <- Z.mul_assoc, (Z.mul_comm (2 ^ s)), <- HB. by apply Z.mod_mul.
  - apply (Z.mul_cancel_r _ _ (2 ^ s)); [lia|]. rewrite <- E. rewrite E0 at 2.
    replace ((lshr r1 s * B + (lshl r1 (64 - s) + lshr r0 s)) * 2 ^ s) with ((lshr r1 s * B + lshl r1 (64 - s)) * 2 ^ s + lshr r0 s * 2 ^ s) by ring.
    rewrite <- E1. rewrite HB. ring.
  - unfold limb in *. split; [lia|]. apply Z.lt_le_trans with (2 ^ (64 - s)); [lia|]. rewrite HB. nia.
  - unfold limb in *. rewrite El in *. pose proof (Z.mod_pos_bound r1 (2 ^ s) ltac:(lia)).
    split; [lia|]. assert ((r1 mod 2 ^ s + 1) * 2 ^ (64 - s) ≤ 2 ^ s * 2 ^ (64 - s)) by (apply Z.mul_le_mono_nonneg_r; lia). lia.
Qed.

Lemma last_split {A} (l : list A) n : length l = S n → ∃ l' x, l = l' ++ [x] ∧ length l' = n.
Proof.
  destruct l as [|x l' _] using rev_ind; [done|]. rewrite length_app. simpl. intros. exists l', x. split; [done|lia].
Qed.

Lemma store_pair m rp r1 r0 :
  writable m rp 2 → (_ ← store (rp + 1) r1; store rp r0) m = Done tt (write m rp [r0; r1]).
Proof.
  intros Hw. pose proof (Hw O ltac:(lia)) as H0. pose proof (Hw 1%nat ltac:(lia)) as H1. rewrite Z.add_0_r in H0.
  rewrite (bind_done _ _ _ _ _ (store_ok _ _ r1 H1)), store_ok by (simpl; apply lookup_insert_is_Some'; auto).
  f_equal. exact (write_snoc m rp [r0] r1).
Qed.

(** The division of [(r1, xs)] once the divisor is normalised. *)
Lemma div_qr_2_normalised m qp np xs r1 e1 e0 :
  GMP_LIMB_HIGHBIT ≤ e1 < B → limb e0 → 0 ≤ r1 < GMP_LIMB_HIGHBIT → (r1 = 0 ∨ r1 < e1) → limbs_at m np xs → (2 ≤ length xs)%nat →
  opt_room m qp (length xs - 1) → opt_downward qp np (Z.of_nat (length xs - 1)) →
  ∃ r0 s1 s0 qs, load (np + Z.of_nat (length xs) - 1) m = Done r0 m ∧
    div_qr_2_loop qp np e1 e0 (inverse_3by2 (e1 * B + e0)) (Z.to_nat (Z.of_nat (length xs) - 1)) r1 r0 m =
      Done (s1, s0) (write_opt m qp qs) ∧
    Forall limb qs ∧ length qs = (length xs - 1)%nat ∧ limb s1 ∧ limb s0 ∧ s1 * B + s0 < e1 * B + e0 ∧
    r1 * B ^ Z.of_nat (length xs) + value xs = value qs * (e1 * B + e0) + (s1 * B + s0).
Proof.
  intros He1 He0 Hr1 Hre Hx Hn Hq Hal. destruct (last_split xs (length xs - 1)) as (ys & r0 & -> & Ly); [lia|].
  rewrite length_app in *. simpl length in *. apply limbs_at_app in Hx as [Hy [[Hl Hc] _]%limbs_at_cons].
  replace (length ys + 1 - 1)%nat with (length ys) in * by lia.
  destruct (div_qr_2_loop_spec qp np e1 e0 ys m r1 r0) as (s1 & s0 & qs & E & Hqs & Lqs & Hs1 & Hs0 & Hlt & V); try done.
  - unfold limb, GMP_LIMB_HIGHBIT, B in *. lia.
  - unfold limb, GMP_LIMB_HIGHBIT, B in *. lia.
  - exists r0, s1, s0, qs. replace (Z.to_nat (Z.of_nat (length ys + 1) - 1)) with (length ys) by lia.
    split_and!; try done.
    + replace (np + Z.of_nat (length ys + 1) - 1) with (np + Z.of_nat (length ys)) by lia. by apply load_ok.
    + rewrite value_app. simpl value. replace (Z.of_nat (length ys + 1)) with (Z.succ (Z.of_nat (length ys))) by lia.
      rewrite Z.pow_succ_r by lia. lia.
Qed.

Lemma mpn_div_qr_2_preinv_spec m qp rp np xs D s e1 e0 :
  mem_wf m → limbs_at m np xs → (2 ≤ length xs)%nat → Z.of_nat (length xs) ≤ alloc_limit →
  0 ≤ s < 64 → 0 < D → e1 * B + e0 = D * 2 ^ s → GMP_LIMB_HIGHBIT ≤ e1 < B → limb e0 →
  opt_room m qp (length xs - 1) → opt_downward qp np (Z.of_nat (length xs - 1)) → writable m rp 2 →
  ∃ r1 r0 qs m', mpn_div_qr_2_preinv qp rp np (Z.of_nat (length xs)) (Mk_inv s e1 (Some e0) (inverse_3by2 (e1 * B + e0))) m = Done tt m' ∧
    after_temp (write (write_opt m qp qs) rp [r0; r1]) m' ∧ Forall limb qs ∧ length qs = (length xs - 1)%nat ∧
    limb r1 ∧ limb r0 ∧ value xs = value qs * D + (r1 * B + r0) ∧ r1 * B + r0 < D.
Proof.
  intros Hwf Hx Hn Hlim Hs HD HDe He1 He0 Hq Hal Hw. unfold mpn_div_qr_2_preinv. cbn [shift d1 d0 di].
  rewrite lift_assert_bind by (apply Z.leb_le; lia). rewrite lift_ok_bind.
  assert (∀ qs, Forall limb qs → length qs = (length xs - 1)%nat → opt_room m qp (length qs)) as Hroom by (by intros qs _ ->).
  destruct (Z.ltb_spec 0 s) as [Hs0|Hs0].
  - destruct (shifted_copy_spec m np xs s Hwf Hx ltac:(lia) Hlim ltac:(lia)) as (c & ts & Ea & El & Hts & Lts & Hc & V).
    rewrite (bind_done _ _ m (next m, c) (write (grow m (Z.of_nat (length xs))) (next m) ts))
      by (by rewrite (bind_done _ _ _ _ _ Ea), (bind_done _ _ _ _ _ El)).
    pose proof (pow2_limb s ltac:(lia)). set (m1 := write (grow m (Z.of_nat (length xs))) (next m) ts).
    destruct (div_qr_2_normalised m1 qp (next m) ts c e1 e0) as (r0 & s1 & s0 & qs & E0 & E & Hqs & Lqs & Hs1 & Hs0' & Hlt & V'); try done.
    + lia.
    + lia.
    + by apply limbs_at_write.
    + lia.
    + rewrite Lts. by apply opt_room_write, opt_room_grow.
    + destruct qp as [q|]; simpl in *; [|done]. rewrite Lts.
      pose proof (writable_below m q (length xs - 1) Hwf ltac:(lia) Hq). unfold downward. lia.
    + rewrite Lts in *. rewrite (bind_done _ _ _ _ _ E0), (bind_done _ _ _ _ _ E).
      rewrite V, HDe in V'. rewrite HDe in Hlt.
      destruct (unshift_remainder (value xs) (value qs) D s (s1 * B + s0)) as (EN & Hrho & Erho);
        [lia|done|pose proof (limb_pair_lt s1 s0 Hs1 Hs0'); lia|done|].
      destruct (unshift_pair s1 s0 s _ Hs1 Hs0' ltac:(lia) Erho) as (Hz & Epair & Hl1 & Hl0).
      rewrite (bind_done _ _ _ (lshr s1 s, Z.lor (lshr s0 s) (lshl s1 (64 - s))) (bump (Z.of_nat (length xs)) (write_opt m qp qs))).
      2:{ change GMP_LIMB_BITS with 64. rewrite lift_assert_bind by done.
          rewrite (bind_done _ _ _ tt (bump (Z.of_nat (length xs)) (write_opt m qp qs))); [done|].
          apply over_free; [|by apply mem_wf_write_opt; auto|by destruct qp|lia].
          apply over_write_opt, over_write_tmp; [apply over_grow|]; lia. }
      rewrite store_pair by exact (writable_write_opt _ _ _ _ _ Hw).
      exists (lshr s1 s), (Z.lor (lshr s0 s) (lshl s1 (64 - s))), qs. eexists. split; [done|].
      split_and!; try done; try lia. exists (Z.of_nat (length xs)). split; [lia|done].
  - assert (s = 0) as -> by lia. rewrite (bind_done (S:=mem) _ _ m (np, 0) m eq_refl).
    destruct (div_qr_2_normalised m qp np xs 0 e1 e0) as (r0 & s1 & s0 & qs & E0 & E & Hqs & Lqs & Hs1 & Hs0' & Hlt & V'); try done.
    + auto.
    + rewrite (bind_done _ _ _ _ _ E0), (bind_done _ _ _ _ _ E), (bind_done (S:=mem) _ _ _ (s1, s0) _ eq_refl).
      rewrite store_pair by exact (writable_write_opt _ _ _ _ _ Hw).
      exists s1, s0, qs. eexists. split; [done|]. rewrite HDe in *. split_and!; try done; try lia. apply after_temp_refl.
Qed.
