(* ===== verification/MpnDivN.v ===== *)
(** * Schoolbook division (mpn_div_qr_pi1, mpn_div_qr_preinv and mpn_div_qr of mini-gmp.c)

    The proof that the loop of mpn_div_qr_pi1 finds one limb of the quotient
    per turn, and the theorem on mpn_div_qr for divisors of any length. *)

From S2P Require Import Prelude Limbs Mpn Invert MpnDiv.

(** ** One limb of the quotient *)

(** The largest limb is right when the two highest limbs of the dividend are
    those of the divisor. *)
Lemma quotient_max P d1 d0 dl xl :
  0 < P → 0 < d1 → 0 ≤ d0 → 0 ≤ dl < P → 0 ≤ xl →
  0 ≤ (d1 * B + d0) * (B * P) + xl - (B - 1) * ((d1 * B + d0) * P + dl).
Proof.
  intros. assert ((B - 1) * dl ≤ (B - 1) * P) by (apply Z.mul_le_mono_nonneg_l; unfold B in *; lia).
  assert (1 * (B * P) ≤ d1 * (B * P)) by (apply Z.mul_le_mono_nonneg_r; unfold B in *; lia).
  assert (0 ≤ d0 * P) by (apply Z.mul_nonneg_nonneg; lia). lia.
Qed.

(** The quotient of the three highest limbs by two is at most one too large. *)
Lemma quotient_3by2 P d dl x q r l l' cy :
  0 < P → 0 < d → P * cy ≤ d * P + dl → 0 ≤ dl < P → 0 ≤ r < d → 0 ≤ l' < P →
  x = q * d + r → l' - P * cy = l - dl * q →
  let X := x * P + l in let D := d * P + dl in
  X - q * D = (r - cy) * P + l' ∧ - D ≤ X - q * D ∧ (0 ≤ cy → X - q * D < D).
Proof.
  intros HP Hd Hcy Hdl Hr Hl E El X D.
  assert (X - q * D = (r - cy) * P + l') as EX.
  { assert (l = l' - P * cy + dl * q) as -> by lia. unfold X, D. rewrite E. ring. }
  assert (0 ≤ r * P) by (apply Z.mul_nonneg_nonneg; lia).
  split_and!; [done|rewrite EX; unfold D; lia|]. intros Hc. rewrite EX. unfold D.
  assert (0 ≤ P * cy) by (apply Z.mul_nonneg_nonneg; lia).
  assert ((r + 1) * P ≤ d * P) by (apply Z.mul_le_mono_nonneg_r; lia). lia.
Qed.

(** Numbers in a range that agree modulo its length. *)
Lemma equal_mod x y n k : 0 ≤ x < n → 0 ≤ y < n → x = y + k * n → x = y.
Proof. intros. assert (k = 0) as -> by nia. lia. Qed.

(** The borrow of two limbs minus one. *)
Lemma borrow_pair n1 n0 cy :
  limb n1 → limb n0 → limb cy →
  let cy1 := b2l (n0 <? cy) in
  let cf := b2l (n1 <? cy1) in
  n1 * B + n0 - cy = lsub n1 cy1 * B + lsub n0 cy - cf * (B * B) ∧ limb (lsub n1 cy1) ∧ limb (lsub n0 cy) ∧ (cf = 0 ∨ cf = 1).
Proof.
  intros H1 H0 Hc. cbv zeta. split_and!; try apply limb_u64.
  - destruct (Z.ltb_spec n0 cy); simpl; [destruct (Z.ltb_spec n1 1)|destruct (Z.ltb_spec n1 0)]; simpl; limb_lia.
  - unfold b2l. case_match; auto.
Qed.

(** The divisor added back after a borrow. *)
Lemma add_back P d1 d0 dl n1 n0 l X q D c v :
  0 < P → limb q → 0 ≤ X → D = (d1 * B + d0) * P + dl → 0 ≤ D < B * (B * P) → - D ≤ X - q * D →
  limb n1 → limb n0 → 0 ≤ l < P → 0 ≤ v < B * P →
  X - q * D = (n1 * B + n0 - 1 * (B * B)) * P + l → v + B * P * c = l + P * n0 + (dl + P * d0) →
  X = lsub q 1 * D + (ladd n1 (ladd d1 c) * (B * P) + v) ∧ ladd n1 (ladd d1 c) * (B * P) + v < D.
Proof.
  intros HP Hq HX ED HD HX1 Hn1 Hn0 Hl Hv EX Ev.
  assert (X - q * D < 0) as Hneg.
  { rewrite EX. assert ((n1 * B + n0 - 1 * (B * B)) * P ≤ (-1) * P); [|lia].
    apply Z.mul_le_mono_nonneg_r; [lia|]. pose proof (limb_pair_lt n1 n0 Hn1 Hn0). lia. }
  assert (lsub q 1 = q - 1) as ->.
  { assert (1 ≤ q) by (destruct (Z.eq_dec q 0) as [->|]; unfold limb in *; lia). apply u64_small. change SIZE_MOD with B. unfold limb in *. lia. }
  pose proof (limb_u64 (n1 + u64 (d1 + c))) as Hu. unfold ladd in *. rewrite u64_add_r in *.
  assert (n1 + (d1 + c) = u64 (n1 + (d1 + c)) + B * ((n1 + (d1 + c)) / B)) as Em
    by (pose proof (Z.div_mod (n1 + (d1 + c)) B ltac:(done)); unfold u64; change SIZE_MOD with B; lia).
  set (n1' := u64 (n1 + (d1 + c))) in *. set (h := (n1 + (d1 + c)) / B) in *. clearbody n1' h.
  assert (0 ≤ n1' * (B * P) + v < B * (B * P)) as HY.
  { unfold limb in Hu. assert (0 ≤ n1' * (B * P)) by (apply Z.mul_nonneg_nonneg; unfold B in *; lia).
    assert (n1' * (B * P) ≤ (B - 1) * (B * P)) by (apply Z.mul_le_mono_nonneg_r; unfold B in *; lia). lia. }
  assert (X - (q - 1) * D = n1' * (B * P) + v) as EY; [|split; lia].
  apply (equal_mod _ _ (B * (B * P)) (h - 1)); [lia|done|].
  replace (X - (q - 1) * D) with (X - q * D + D) by ring. rewrite EX, ED.
  assert (v = l + P * n0 + (dl + P * d0) - B * P * c) as -> by lia.
  assert (n1' = n1 + (d1 + c) - B * h) as -> by lia. ring.
Qed.

Lemma pow_pos n : 0 < B ^ Z.of_nat n.
Proof. apply Z.pow_pos_nonneg; [done|lia]. Qed.
Lemma pow_S n : B ^ Z.of_nat (S n) = B * B ^ Z.of_nat n.
Proof. rewrite Nat2Z.inj_succ, Z.pow_succ_r by lia. done. Qed.

Section step.
Context (m : mem) (np dp i : Z) (lo dlo : list Z) (n2 n0 d0 d1 n1 : Z) (k : nat).
Local Abbreviation P := (B ^ Z.of_nat k).
Local Abbreviation dn := (Z.of_nat (S (S k))).
Local Abbreviation w := (lo ++ [n2; n0]).
Local Abbreviation ds := (dlo ++ [d0; d1]).
Local Abbreviation D := (value ds).

(** The turn leaves the limb [q], the new [n1'], and the window [w']. *)
Definition step_result (x : out mem (Z * Z)) : Prop :=
  ∃ q n1' w', x = Done (q, n1') (write m (np + i) w') ∧ Forall limb w' ∧ length w' = S (S k) ∧ limb q ∧ limb n1' ∧
    n1 * B ^ dn + value w = q * D + (n1' * B ^ Z.of_nat (S k) + value (take (S k) w')) ∧
    n1' * B ^ Z.of_nat (S k) + value (take (S k) w') < D.

Lemma pi1_max :
  length lo = k → length dlo = k → limbs_at m (np + i) w → limbs_at m dp ds → 0 < d1 →
  disjoint (np + i) dn dp dn → n1 = d1 → n0 = d0 → n1 * B ^ dn + value w < B * D →
  step_result ((_ ← mpn_submul_1 (np + i) dp dn GMP_LIMB_MAX;
                n1 ← load (np + dn - 1 + i); mret (GMP_LIMB_MAX, n1)) m).
Proof.
  intros Ll Ld Hw Hd Hd1 Hdis E1 E0 Hlt. pose proof (pow_pos k) as HP.
  assert (length ds = S (S k)) as Lds by (rewrite length_app, Ld; simpl; lia).
  assert (length w = S (S k)) as Lw by (rewrite length_app, Ll; simpl; lia).
  assert (limb GMP_LIMB_MAX) as Hmax by (unfold limb, GMP_LIMB_MAX, B; lia).
  destruct (mpn_submul_1_spec m (np + i) dp ds w GMP_LIMB_MAX) as (c & rs & E & Hrs & Lrs & Hc & V);
    [done|lia|done|done|congruence| |].
  { unfold upward, disjoint in *. rewrite Lds. lia. }
  rewrite Lds in *. rewrite (bind_done _ _ _ _ _ E).
  destruct (last_split rs (S k) Lrs) as (rs' & n1' & -> & Lrs').
  assert (load (np + dn - 1 + i) (write m (np + i) (rs' ++ [n1'])) = Done n1' (write m (np + i) (rs' ++ [n1']))) as El.
  { replace (np + dn - 1 + i) with (np + i + Z.of_nat (S k)) by lia.
    apply (load_limbs _ _ (rs' ++ [n1'])); [by apply limbs_at_write|]. rewrite <- Lrs'. by rewrite lookup_app_r, Nat.sub_diag by lia. }
  rewrite (bind_done _ _ _ _ _ El). exists GMP_LIMB_MAX, n1', (rs' ++ [n1']).
  pose proof (value_bounds _ Hrs) as Hb. rewrite Lrs in Hb.
  pose proof (value_bounds dlo ltac:(destruct Hd as [Hd _]; decompose_Forall; done)) as Hbd. rewrite Ld in Hbd.
  pose proof (value_bounds lo ltac:(destruct Hw as [Hw _]; decompose_Forall; done)) as Hbl.
  pose proof (value_bounds ds (proj1 Hd)) as HbD. rewrite Lds in HbD.
  assert (D = (d1 * B + d0) * P + value dlo) as ED by (rewrite value_app, Ld; simpl value; ring).
  assert (n1 * B ^ dn + value w = (d1 * B + d0) * (B * P) + (n2 * P + value lo)) as EX.
  { rewrite value_app, Ll, !pow_S, E1, E0. simpl value. ring. }
  assert (0 ≤ n1 * B ^ dn + value w - (B - 1) * D).
  { rewrite EX, ED. assert (limb n2 ∧ limb d0) as [Hn2 Hd0] by (destruct Hw as [Hw _], Hd as [Hd' _]; decompose_Forall; done).
    apply quotient_max; unfold limb in *; lia. }
  assert (n1 * B ^ dn + value w - (B - 1) * D = value (rs' ++ [n1'])) as Efin.
  { apply (equal_mod _ _ (B ^ dn) (n1 - c)); [lia|lia|]. unfold GMP_LIMB_MAX in V. lia. }
  rewrite take_app_length' by done. rewrite (value_app rs'), Lrs' in Efin. simpl value in Efin.
  assert (limb n1') by (apply Forall_app in Hrs as [_ H1]; by inversion H1).
  split_and!; try done; unfold GMP_LIMB_MAX; lia.
Qed.

(** The subtraction of [q] times the low limbs, and the borrow. *)
Lemma pi1_subtract q r1 r0 :
  length lo = k → length dlo = k → (0 < k)%nat → limbs_at m (np + i) w → limbs_at m dp ds →
  disjoint (np + i) dn dp dn → limb q → limb r1 → limb r0 →
  ∃ cy lo', mpn_submul_1 (np + i) dp (dn - 2) q m = Done cy (write m (np + i) lo') ∧ Forall limb lo' ∧ length lo' = k ∧
    limb cy ∧ value lo' - P * cy = value lo - value dlo * q ∧
    store (np + dn - 2 + i) (lsub r0 cy) (write m (np + i) lo') = Done tt (write m (np + i) (lo' ++ [lsub r0 cy])).
Proof.
  intros Ll Ld Hk Hw Hd Hdis Hq H1 H0.
  apply limbs_at_app in Hd as [Hd _]. pose proof (proj1 (limbs_at_app _ _ _ _) Hw) as [Hl Hn2]. rewrite Ll in Hn2.
  destruct (mpn_submul_1_spec m (np + i) dp dlo lo q) as (cy & lo' & E & Hlo' & Llo' & Hcy & V);
    [done|lia|done|done|congruence|unfold upward, disjoint in *; lia|]. rewrite Ld in *.
  exists cy, lo'. replace (dn - 2) with (Z.of_nat k) by lia. split_and!; try done.
  replace (np + dn - 2 + i) with (np + i + Z.of_nat k) by lia. apply store_next; [done|].
  apply limbs_at_cons in Hn2 as [[_ ->] _]. eauto.
Qed.

(** The two highest limbs stay below those of the divisor. *)
Lemma pi1_high :
  length lo = k → length dlo = k → Forall limb w → Forall limb ds →
  n1 * B ^ dn + value w < B * D → n1 * B + n0 ≤ d1 * B + d0.
Proof.
  intros Ll Ld Hw Hd Hlt. pose proof (pow_pos k) as HP.
  apply Forall_app in Hw as [Hlo Hw], Hd as [Hdl Hd]. pose proof (value_bounds _ Hlo). pose proof (value_bounds _ Hdl) as Hb.
  inversion_clear Hw as [|?? Hn2 _]. rewrite !value_app, Ll, Ld, !pow_S in *. simpl value in *. unfold limb in *.
  apply Z.lt_succ_r, (Z.mul_lt_mono_pos_r (B * P)); [unfold B in *; lia|].
  assert (0 ≤ P * n2) by (apply Z.mul_nonneg_nonneg; lia). unfold B in *. lia.
Qed.

Lemma pi1_main :
  length lo = k → length dlo = k → (0 < k)%nat → limbs_at m (np + i) w → limbs_at m dp ds → GMP_LIMB_HIGHBIT ≤ d1 →
  disjoint (np + i) dn dp dn → limb n1 → n1 * B + n0 < d1 * B + d0 →
  step_result ((n2 ← load (np + dn - 2 + i);
    let '(q, n1, n0) := gmp_udiv_qr_3by2 n1 n0 n2 d1 d0 (inverse_3by2 (d1 * B + d0)) in
    cy ← mpn_submul_1 (np + i) dp (dn - 2) q;
    let cy1 := b2l (n0 <? cy) in
    let n0 := lsub n0 cy in
    let cy := b2l (n1 <? cy1) in
    let n1 := lsub n1 cy1 in
    _ ← store (np + dn - 2 + i) n0;
    if negb (cy =? 0) then
      c ← mpn_add_n (np + i) (np + i) dp (dn - 1);
      mret (lsub q 1, ladd n1 (ladd d1 c))
    else mret (q, n1)) m).
Proof.
  intros Ll Ld Hk Hw Hd Hd1 Hdis Hn1 Hlt. pose proof (pow_pos k) as HP.
  assert (limb n2 ∧ limb n0 ∧ limb d0 ∧ limb d1 ∧ Forall limb dlo) as (Hn2 & Hn0 & Hd0 & Hd1' & Hdl)
    by (destruct Hw as [Hw' _], Hd as [Hd' _]; decompose_Forall; done).
  assert (load (np + dn - 2 + i) m = Done n2 m) as Eload.
  { replace (np + dn - 2 + i) with (np + i + Z.of_nat k) by lia. apply (load_limbs _ _ w); [done|].
    by rewrite lookup_app_r, Ll, Nat.sub_diag by lia. }
  rewrite (bind_done _ _ _ _ _ Eload).
  pose proof (udiv_qr_3by2_spec n1 n0 n2 d1 d0 ltac:(unfold limb in *; lia) Hd0 Hn1 Hn0 Hn2 Hlt) as Hdiv.
  destruct (gmp_udiv_qr_3by2 n1 n0 n2 d1 d0 _) as [[q r1] r0]. destruct Hdiv as (Ex & Hr & Hq & Hr1 & Hr0).
  destruct (pi1_subtract q r1 r0 Ll Ld Hk Hw Hd Hdis Hq Hr1 Hr0) as (cy & lo' & E & Hlo' & Llo' & Hcy & V & Est).
  rewrite (bind_done _ _ _ _ _ E). cbv zeta. rewrite (bind_done _ _ _ _ _ Est).
  destruct (borrow_pair r1 r0 cy Hr1 Hr0 Hcy) as (Ebor & Hl1 & Hl0 & Hcf). cbv zeta in Ebor, Hcf.
  set (n1' := lsub r1 _) in *. set (n0' := lsub r0 cy) in *. set (cf := b2l (r1 <? _)) in *. clearbody n1' n0' cf.
  pose proof (value_bounds _ Hlo') as Hbl. rewrite Llo' in Hbl. pose proof (value_bounds _ Hdl) as Hbd. rewrite Ld in Hbd.
  pose proof (limb_pair_lt r1 r0 Hr1 Hr0) as Hrb.
  destruct (quotient_3by2 P (d1 * B + d0) (value dlo) (n1 * B * B + n0 * B + n2) q (r1 * B + r0) (value lo) (value lo') cy)
    as (EX & HX1 & HX2); try done; try lia.
  { assert (P * cy ≤ P * (d1 * B + d0)) by (apply Z.mul_le_mono_nonneg_l; unfold limb, GMP_LIMB_HIGHBIT, B in *; lia). lia. }
  assert (D = (d1 * B + d0) * P + value dlo) as ED by (rewrite value_app, Ld; simpl value; ring). rewrite <- ED in *.
  assert (n1 * B ^ dn + value w = (n1 * B * B + n0 * B + n2) * P + value lo) as EXw
    by (rewrite value_app, Ll, !pow_S; simpl value; ring). rewrite <- EXw in *.
  specialize (HX2 ltac:(unfold limb in *; lia)).
  assert (Forall limb (lo' ++ [n0'])) as Hnew by (apply Forall_app; by rewrite Forall_singleton).
  assert (length (lo' ++ [n0']) = S k) as Lnew by (rewrite length_app; simpl; lia).
  assert (value (lo' ++ [n0']) = value lo' + P * n0') as Vnew by (rewrite value_app, Llo'; simpl value; ring).
  assert (limbs_at m (np + i) ((lo ++ [n2]) ++ [n0])) as Hw' by (by rewrite <- app_assoc).
  assert (0 ≤ n1 * B ^ dn + value w) as HX0.
  { pose proof (value_bounds w (proj1 Hw)). pose proof (pow_pos (S (S k))).
    assert (0 ≤ n1 * B ^ dn) by (apply Z.mul_nonneg_nonneg; unfold limb in *; lia). lia. }
  unfold step_result. rewrite Ebor in EX. set (X := n1 * B ^ dn + value w) in *. clearbody X. clear Ebor EXw V Ex.
  destruct Hcf as [-> | ->]; simpl (negb _).
  - exists q, n1', (lo' ++ [n0'] ++ [n0]). rewrite (write_extend m (np + i) (lo ++ [n2]) [n0] (lo' ++ [n0'])), <- app_assoc
      by (done || rewrite !length_app; simpl; lia).
    split_and!; try done.
    + rewrite app_assoc. apply Forall_app. by rewrite Forall_singleton.
    + rewrite !length_app. simpl. lia.
    + rewrite app_assoc, take_app_length' by done. rewrite Vnew, pow_S. lia.
    + rewrite app_assoc, take_app_length' by done. rewrite Vnew, pow_S. lia.
  - assert (length (dlo ++ [d0]) = S k) as Lda by (rewrite length_app; simpl; lia).
    destruct (mpn_add_n_spec (write m (np + i) (lo' ++ [n0'])) (np + i) (np + i) dp (lo' ++ [n0']) (dlo ++ [d0]))
      as (c & rs & Ea & Hrs & Lrs & Hc & Va).
    + by apply limbs_at_write.
    + apply limbs_at_frame; [|rewrite Lda, Lnew; unfold disjoint in *; lia].
      replace ds with ((dlo ++ [d0]) ++ [d1]) in Hd by (by rewrite <- app_assoc). by apply limbs_at_app in Hd as [? _].
    + congruence.
    + apply writable_limbs. by apply limbs_at_write.
    + left. lia.
    + unfold upward, disjoint in *. rewrite Lnew. lia.
    + rewrite Lnew in *. replace (dn - 1) with (Z.of_nat (S k)) by lia. rewrite (bind_done _ _ _ _ _ Ea), write_over by lia.
      rewrite (write_extend m (np + i) (lo ++ [n2]) [n0] rs) by (done || rewrite !length_app; simpl; lia).
      assert (value (dlo ++ [d0]) = value dlo + P * d0) as Vda by (rewrite value_app, Ld; simpl value; ring).
      rewrite Vnew, Vda in Va. pose proof (value_bounds _ Hrs) as Hbr. rewrite Lrs in Hbr.
      pose proof (value_bounds ds (proj1 Hd)) as HbD. replace (length ds) with (S (S k)) in HbD by (rewrite length_app; simpl; lia).
      exists (lsub q 1), (ladd n1' (ladd d1 c)), (rs ++ [n0]). rewrite take_app_length' by done.
      rewrite !pow_S in *. destruct (add_back P d1 d0 (value dlo) n1' n0' (value lo') X q D c (value rs)) as [E1 E2]; try done.
      split_and!; try done; try apply limb_u64.
      * apply Forall_app. by rewrite Forall_singleton.
      * rewrite length_app. simpl. lia.
Qed.

Lemma pi1_step :
  length lo = k → length dlo = k → (0 < k)%nat → limbs_at m (np + i) w → limbs_at m dp ds → GMP_LIMB_HIGHBIT ≤ d1 →
  disjoint (np + i) dn dp dn → limb n1 → n1 * B ^ dn + value w < B * D →
  step_result (div_qr_pi1_step np n1 dp dn (inverse_3by2 (d1 * B + d0)) d1 d0 i m).
Proof.
  intros Ll Ld Hk Hw Hd Hd1 Hdis Hn1 Hlt. unfold div_qr_pi1_step.
  assert (load (np + dn - 1 + i) m = Done n0 m) as Eload.
  { replace (np + dn - 1 + i) with (np + i + Z.of_nat (S k)) by lia. apply (load_limbs _ _ w); [done|].
    rewrite lookup_app_r, Ll by lia. by replace (S k - k)%nat with 1%nat by lia. }
  rewrite (bind_done _ _ _ _ _ Eload).
  pose proof (pi1_high Ll Ld (proj1 Hw) (proj1 Hd) Hlt) as Hle.
  assert (limb n0 ∧ limb d0) as [Hn0 Hd0] by (destruct Hw as [Hw' _], Hd as [Hd' _]; decompose_Forall; done).
  assert (∀ b : bool, b = (n1 =? d1) && (n0 =? d0) → if b then n1 = d1 ∧ n0 = d0 else n1 ≠ d1 ∨ n0 ≠ d0) as Hb.
  { intros b ->. destruct (Z.eqb_spec n1 d1), (Z.eqb_spec n0 d0); simpl; auto. }
  specialize (Hb _ eq_refl). destruct (_ && _).
  - destruct Hb. apply pi1_max; try done. unfold GMP_LIMB_HIGHBIT in *. lia.
  - apply pi1_main; try done. clear -Hle Hb Hn0 Hd0. unfold limb, B in *. lia.
Qed.
End step.

(** ** The loop *)

Section loop.
Context (qp : option Z) (np dp : Z) (dlo : list Z) (d0 d1 : Z) (k : nat).
Local Abbreviation dn := (Z.of_nat (S (S k))).
Local Abbreviation ds := (dlo ++ [d0; d1]).
Local Abbreviation D := (value ds).

Lemma div_qr_pi1_loop_spec n : ∀ m n1 ns,
  length dlo = k → (0 < k)%nat → GMP_LIMB_HIGHBIT ≤ d1 → length ns = (n + S k)%nat →
  limbs_at m np ns → limbs_at m dp ds → limb n1 → opt_room m qp n →
  disjoint np (Z.of_nat (n + S k)) dp dn → opt_disjoint qp (Z.of_nat n) np (Z.of_nat (n + S k)) →
  opt_disjoint qp (Z.of_nat n) dp dn →
  n1 * B ^ Z.of_nat (S k) + value (drop n ns) < D →
  ∃ n1' rs qs, div_qr_pi1_loop qp np n1 dp dn (inverse_3by2 (d1 * B + d0)) d1 d0 n m =
      Done n1' (write_opt (write m np rs) qp qs) ∧
    Forall limb rs ∧ length rs = (n + S k)%nat ∧ Forall limb qs ∧ length qs = n ∧ limb n1' ∧
    n1 * B ^ Z.of_nat (n + S k) + value ns = value qs * D + (n1' * B ^ Z.of_nat (S k) + value (take (S k) rs)) ∧
    n1' * B ^ Z.of_nat (S k) + value (take (S k) rs) < D.
Proof.
  induction n as [|j IH]; intros m n1 ns Ld Hk Hd1 Ln Hn Hd Hn1 Hq Hdis Hdq Hdqd Hlt.
  - exists n1, ns, []. rewrite write_opt_nil, write_same by done. simpl in Ln. rewrite drop_0 in Hlt.
    rewrite take_ge by lia. split_and!; try done. apply Hn.
  - cbn [div_qr_pi1_loop].
    assert (∃ low lo n2 n0, ns = low ++ lo ++ [n2; n0] ∧ length low = j ∧ length lo = k) as (low & lo & n2 & n0 & -> & Llow & Llo).
    { destruct (last_split ns (j + S k)) as (ns1 & n0 & -> & L1); [lia|].
      destruct (last_split ns1 (j + k)) as (ns2 & n2 & -> & L2); [lia|].
      exists (take j ns2), (drop j ns2), n2, n0. rewrite length_take, length_drop. split_and!; [|lia|lia].
      by rewrite app_assoc, take_drop, <- app_assoc. }
    assert (length (lo ++ [n2; n0]) = S (S k)) as Lw by (rewrite length_app, Llo; simpl; lia).
    pose proof (proj1 (limbs_at_app _ _ _ _) Hn) as [Hlow Hw]. rewrite Llow in Hw.
    assert (n1 * B ^ dn + value (lo ++ [n2; n0]) < B * D) as Hlt'.
    { replace (drop (S j) (low ++ lo ++ [n2; n0])) with (drop 1 (lo ++ [n2; n0])) in Hlt
        by (rewrite (drop_app_ge low) by lia; f_equal; lia).
      destruct Hw as [Hw _]. destruct (lo ++ [n2; n0]) as [|h t]; [done|]. inversion_clear Hw as [|?? Hh _].
      cbn [drop value] in *. rewrite drop_0 in Hlt. rewrite pow_S. unfold limb, B in *. lia. }
    destruct (pi1_step m np dp (Z.of_nat j) lo dlo n2 n0 d0 d1 n1 k) as (q & n1' & w' & E & Hw' & Lw' & Hql & Hn1' & V & Hlt2); try done.
    { unfold disjoint in *. lia. }
    destruct (last_split w' (S k) Lw') as (u & t & -> & Lu). rewrite take_app_length' in V, Hlt2 by done.
    apply Forall_app in Hw' as [Hu Ht]. inversion_clear Ht as [|?? Ht' _].
    rewrite (bind_done _ _ _ _ _ E), <- Llow, write_after, app_assoc, Llow by done.
    set (m1 := write m np ((low ++ u) ++ [t])).
    assert (Forall limb (low ++ u)) as Hlu by (apply Forall_app; split; [apply Hlow|done]).
    assert (length (low ++ u) = (j + S k)%nat) as Llu by (rewrite length_app; lia).
    assert (limbs_at m1 np ((low ++ u) ++ [t])) as Hm1 by (apply limbs_at_write, Forall_app; by rewrite Forall_singleton).
    assert (opt_room m1 qp (S j)) as Hq1 by (by apply opt_room_write).
    rewrite (bind_done _ _ _ _ _ (store_opt_ok m1 qp _ j q Hq1 ltac:(lia))).
    set (qj := (λ p, p + Z.of_nat j) <$> qp).
    destruct (IH (write_opt m1 qj [q]) n1' (low ++ u)) as (n1'' & rs & qs & -> & Hrs & Lrs & Hqs & Lqs & Hn1'' & V' & Hlt3); try done.
    + apply limbs_at_write_opt; [by apply limbs_at_app in Hm1 as [? _]|]. rewrite Llu.
      unfold qj. destruct qp; simpl in *; [|done]. unfold disjoint in *. lia.
    + apply limbs_at_write_opt; [apply limbs_at_frame; [done|]|].
      * unfold disjoint in *. rewrite !length_app, Llow, Lu, Ld. simpl. lia.
      * unfold qj. rewrite length_app, Ld. destruct qp; simpl in *; [|done]. unfold disjoint in *. lia.
    + apply opt_room_write_opt. eapply opt_room_le; [|done]. lia.
    + unfold disjoint in *. lia.
    + destruct qp; simpl in *; [|done]. unfold disjoint in *. lia.
    + destruct qp; simpl in *; [|done]. unfold disjoint in *. lia.
    + by rewrite drop_app_length'.
    + exists n1'', (rs ++ [t]), (qs ++ [q]).
      rewrite <- write_opt_comm by (rewrite Lrs; unfold qj; destruct qp; simpl in *; [|done]; unfold disjoint in *; lia).
      unfold qj. rewrite (write_opt_snoc _ _ _ _ _ Lqs).
      rewrite (write_extend m1 np (low ++ u) [t] rs) by (done || congruence).
      unfold m1. rewrite write_over by (rewrite !length_app in *; simpl; lia).
      rewrite take_app_le by lia. split_and!; try done.
      * apply Forall_app. by rewrite Forall_singleton.
      * rewrite length_app. simpl. lia.
      * apply Forall_app. by rewrite Forall_singleton.
      * rewrite length_app. simpl. lia.
      * rewrite !value_app, Llow, Lqs in *. simpl (value [q]). replace (S j + S k)%nat with (j + S (S k))%nat by lia.
        rewrite !Nat2Z.inj_add, !Z.pow_add_r in * by lia. set (Pj := B ^ Z.of_nat j) in *.
        assert (Pj * (n1 * B ^ dn + (value lo + B ^ Z.of_nat (length lo) * value [n2; n0])) =
          Pj * (q * (value dlo + B ^ Z.of_nat (length dlo) * value [d0; d1]) + (n1' * B ^ Z.of_nat (S k) + value u))) by (by rewrite V).
        lia.
Qed.
End loop.

(** ** The whole division *)

Lemma write_insert m p rs i v :
  (i < length rs)%nat → write (write m p rs) (p + Z.of_nat i) [v] = write m p (<[i := v]> rs).
Proof.
  intros Hi. unfold write, set_cells. simpl. f_equal. apply map_eq. intros a.
  rewrite lookup_write_cells, length_insert. destruct (Z.eq_dec a (p + Z.of_nat i)) as [->|Hne].
  - rewrite lookup_insert_eq. guard_true ((p <=? p + Z.of_nat i) && (p + Z.of_nat i <? p + Z.of_nat (length rs))).
    replace (Z.to_nat (p + Z.of_nat i - p)) with i by lia. by rewrite list_lookup_insert_eq.
  - rewrite lookup_insert_ne, lookup_write_cells by done. case_match eqn:Hb; [|done]. bool_to_prop.
    rewrite list_lookup_insert_ne by lia. done.
Qed.

Lemma land_high_ok x : limb x → GMP_LIMB_HIGHBIT ≤ x → negb (Z.land x GMP_LIMB_HIGHBIT =? 0) = true.
Proof. intros Hx Hh. rewrite land_top_bit by done. unfold GMP_LIMB_HIGHBIT in *. destruct (Z.ltb_spec x (2 ^ 63)); [lia|done]. Qed.

(** The last two limbs of the divisor. *)
Lemma load_last_two m dp dlo d0 d1 :
  limbs_at m dp (dlo ++ [d0; d1]) →
  load (dp + Z.of_nat (S (S (length dlo))) - 1) m = Done d1 m ∧ load (dp + Z.of_nat (S (S (length dlo))) - 2) m = Done d0 m.
Proof.
  intros Hd. split.
  - replace (dp + Z.of_nat (S (S (length dlo))) - 1) with (dp + Z.of_nat (S (length dlo))) by lia.
    apply (load_limbs _ _ _ _ _ Hd). rewrite lookup_app_r by lia. by replace (S (length dlo) - length dlo)%nat with 1%nat by lia.
  - replace (dp + Z.of_nat (S (S (length dlo))) - 2) with (dp + Z.of_nat (length dlo)) by lia.
    apply (load_limbs _ _ _ _ _ Hd). by rewrite lookup_app_r, Nat.sub_diag by lia.
Qed.

Lemma mpn_div_qr_pi1_spec m qp np dp xs n1 dlo d0 d1 :
  let k := length dlo in let dn := S (S k) in let nn := length xs in let D := value (dlo ++ [d0; d1]) in
  (0 < k)%nat → (dn ≤ nn)%nat → GMP_LIMB_HIGHBIT ≤ d1 → limbs_at m np xs → limbs_at m dp (dlo ++ [d0; d1]) →
  0 ≤ n1 < d1 → opt_room m qp (nn - dn + 1) → disjoint np (Z.of_nat nn) dp (Z.of_nat dn) →
  opt_disjoint qp (Z.of_nat (nn - dn + 1)) np (Z.of_nat nn) → opt_disjoint qp (Z.of_nat (nn - dn + 1)) dp (Z.of_nat dn) →
  ∃ rs qs, mpn_div_qr_pi1 qp np (Z.of_nat nn) n1 dp (Z.of_nat dn) (inverse_3by2 (d1 * B + d0)) m =
      Done tt (write_opt (write m np rs) qp qs) ∧
    Forall limb rs ∧ length rs = nn ∧ Forall limb qs ∧ length qs = (nn - dn + 1)%nat ∧
    n1 * B ^ Z.of_nat nn + value xs = value qs * D + value (take dn rs) ∧ value (take dn rs) < D.
Proof.
  intros k dn nn D Hk Hle Hd1 Hx Hd Hn1 Hq Hdis Hdq Hdqd. unfold mpn_div_qr_pi1.
  destruct (load_last_two _ _ _ _ _ Hd) as [E1 E0]. fold k dn in E1, E0.
  assert (limb d1 ∧ limb d0 ∧ Forall limb dlo) as (Hl1 & Hl0 & Hdl) by (destruct Hd as [Hd' _]; decompose_Forall; done).
  rewrite !lift_assert_bind by (apply Z.ltb_lt || apply Z.leb_le; lia).
  rewrite (bind_done _ _ _ _ _ E1), (bind_done _ _ _ _ _ E0), lift_assert_bind by (by apply land_high_ok).
  assert (Z.to_nat (Z.of_nat nn - Z.of_nat dn + 1) = (nn - dn + 1)%nat) as -> by lia.
  assert (nn = (nn - dn + 1) + S k)%nat as Enn by lia.
  destruct (div_qr_pi1_loop_spec qp np dp dlo d0 d1 k (nn - dn + 1) m n1 xs)
    as (n1' & rs & qs & E & Hrs & Lrs & Hqs & Lqs & Hn1' & V & Hlt); try done; try (by rewrite <- Enn).
  { unfold limb in *. lia. }
  { pose proof (value_bounds (drop (nn - dn + 1) xs) ltac:(apply Forall_drop, Hx)) as Hb. rewrite length_drop in Hb.
    replace (length xs - (nn - dn + 1))%nat with (S k) in Hb by lia.
    pose proof (value_bounds _ Hdl). rewrite value_app. simpl value. fold k. rewrite pow_S in *. pose proof (pow_pos k).
    assert ((n1 + 1) * (B * B ^ Z.of_nat k) ≤ d1 * (B * B ^ Z.of_nat k)) by (apply Z.mul_le_mono_nonneg_r; unfold B in *; lia).
    assert (0 ≤ B ^ Z.of_nat k * d0) by (apply Z.mul_nonneg_nonneg; unfold limb in *; lia). lia. }
  rewrite (bind_done _ _ _ _ _ E). rewrite <- Enn in *.
  exists (<[S k := n1']> rs), qs.
  assert (take dn (<[S k := n1']> rs) = take (S k) rs ++ [n1']) as Et.
  { unfold dn. erewrite take_S_r by (rewrite list_lookup_insert_eq; [done|lia]). by rewrite take_insert_ge by lia. }
  rewrite Et, value_app, length_take, Nat.min_l by lia. simpl value.
  split_and!; try done.
  - replace (np + Z.of_nat dn - 1) with (np + Z.of_nat (S k)) by lia.
    rewrite store_ok.
    + rewrite write_opt_comm by (rewrite Lrs, Lqs; done). rewrite write_insert by lia.
      by rewrite <- write_opt_comm by (rewrite length_insert, Lrs, Lqs; done).
    + apply writable_write_opt with (n := nn); [|lia]. apply writable_write. by apply writable_limbs.
  - by apply Forall_insert.
  - by rewrite length_insert.
  - rewrite V. unfold D. lia.
  - unfold D. lia.
Qed.

(** The two highest limbs of a number are determined by its value. *)
Lemma top_limbs elo x0 x1 e1 e0 rest :
  Forall limb elo → limb x0 → limb x1 → limb e0 → limb e1 → 0 ≤ rest < B ^ Z.of_nat (length elo) →
  value (elo ++ [x0; x1]) = B ^ Z.of_nat (length elo) * (e1 * B + e0) + rest → x0 = e0 ∧ x1 = e1.
Proof.
  intros Hel H0 H1 He0 He1 Hr E. pose proof (value_bounds _ Hel) as Hb. rewrite value_app in E. simpl value in E.
  assert (x0 + B * (x1 + B * 0) = e1 * B + e0) as Ee.
  { eapply (Z.div_mod_unique (B ^ Z.of_nat (length elo)) _ _ (value elo) rest); [left; lia|left; lia|lia]. }
  clear -Ee H0 H1 He0 He1. unfold limb, B in *. lia.
Qed.

(** Three limbs shifted. *)
Lemma shift_triple x1 x0 x2 s :
  limb x1 → limb x0 → limb x2 → 0 < s < 64 → x1 * 2 ^ s < B →
  let e1 := Z.lor (lshl x1 s) (lshr x0 (64 - s)) in
  let e0 := Z.lor (lshl x0 s) (lshr x2 (64 - s)) in
  (e1 * B + e0) * B + lshl x2 s = (x1 * B * B + x0 * B + x2) * 2 ^ s ∧
  x1 * 2 ^ s ≤ e1 ∧ limb e1 ∧ limb e0 ∧ 0 ≤ lshl x2 s ≤ B - 2 ^ s.
Proof.
  intros H1 H0 H2 Hs Hlt e1 e0. destruct (shift_pair x1 x0 s H1 H0 Hs Hlt) as (E1 & Ee1 & He1 & Hl0). fold e1 in E1, Ee1, He1.
  destruct (shift_parts x0 s H0 Hs) as (_ & El0 & _ & _). destruct (shift_parts x2 s H2 Hs) as (E2 & El2 & Hr2 & Hl2).
  assert (B = 2 ^ (64 - s) * 2 ^ s) as HB by (rewrite <- Z.pow_add_r by lia; by replace (64 - s + s) with 64 by lia).
  pose proof (Z.pow_pos_nonneg 2 s) as Hp. pose proof (Z.pow_pos_nonneg 2 (64 - s)) as Hp'.
  assert (e0 = lshl x0 s + lshr x2 (64 - s)) as Ee0 by (unfold e0; rewrite El0; apply lor_multiple; lia).
  assert (∀ x, (x mod 2 ^ (64 - s)) * 2 ^ s ≤ B - 2 ^ s) as Hmax.
  { intros x. pose proof (Z.mod_pos_bound x (2 ^ (64 - s)) ltac:(lia)).
    assert ((x mod 2 ^ (64 - s) + 1) * 2 ^ s ≤ 2 ^ (64 - s) * 2 ^ s) by (apply Z.mul_le_mono_nonneg_r; lia). lia. }
  assert (0 ≤ lshr x0 (64 - s)) by (apply Z.shiftr_nonneg; unfold limb in *; lia).
  pose proof (Hmax x0). pose proof (Hmax x2). unfold limb in *.
  assert (B * (e1 * B + lshl x0 s) = B * ((x1 * B + x0) * 2 ^ s)) by (by rewrite E1). split_and!; lia.
Qed.

(** The shift that normalises the highest limb loses no bit. *)
Lemma shifted_fits lo d1 s n :
  Forall limb lo → length lo = n → 0 ≤ s < 64 → d1 * 2 ^ s < B → value (lo ++ [d1]) * 2 ^ s < B ^ Z.of_nat (S n).
Proof.
  intros Hlo <- Hs Hlt. pose proof (value_bounds _ Hlo) as Hb. pose proof (Z.pow_pos_nonneg 2 s ltac:(lia) ltac:(lia)) as Hp.
  assert (B = 2 ^ (64 - s) * 2 ^ s) as HB by (rewrite <- Z.pow_add_r by lia; by replace (64 - s + s) with 64 by lia).
  assert (d1 + 1 ≤ 2 ^ (64 - s)) by (apply Z.le_succ_l, (Z.mul_lt_mono_pos_r (2 ^ s)); lia).
  rewrite value_app, pow_S. simpl value. set (P := B ^ Z.of_nat (length lo)) in *.
  assert (P * ((d1 + 1) * 2 ^ s) ≤ P * (2 ^ (64 - s) * 2 ^ s)) by (apply Z.mul_le_mono_nonneg_l; [lia|]; apply Z.mul_le_mono_nonneg_r; lia).
  rewrite <- HB in *. assert (value lo * 2 ^ s < P * 2 ^ s) by (apply Z.mul_lt_mono_pos_r; lia). lia.
Qed.

Lemma mpn_div_qr_invert_spec m dp dlo d2 d0 d1 :
  let ds := dlo ++ [d2; d0; d1] in
  limbs_at m dp ds → 0 < d1 →
  ∃ s e1 e0, mpn_div_qr_invert dp (Z.of_nat (length ds)) m = Done (Mk_inv s e1 (Some e0) (inverse_3by2 (e1 * B + e0))) m ∧
    0 ≤ s < 64 ∧ GMP_LIMB_HIGHBIT ≤ e1 < B ∧ limb e0 ∧ value ds * 2 ^ s < B ^ Z.of_nat (length ds) ∧
    ∀ es, Forall limb es → length es = length ds → value es = value ds * 2 ^ s → ∃ elo, es = elo ++ [e0; e1].
Proof.
  intros ds Hd Hd1. set (k := length dlo). assert (length ds = S (S (S k))) as Lds by (unfold ds; rewrite length_app; simpl; lia).
  assert (limb d1 ∧ limb d0 ∧ limb d2 ∧ Forall limb dlo) as (Hl1 & Hl0 & Hl2 & Hdl) by (destruct Hd as [Hd' _]; unfold ds in *; decompose_Forall; done).
  assert (load (dp + Z.of_nat (length ds) - 3) m = Done d2 m) as E2.
  { replace (dp + Z.of_nat (length ds) - 3) with (dp + Z.of_nat k) by lia.
    apply (load_limbs _ _ _ _ _ Hd). unfold ds, k. by rewrite lookup_app_r, Nat.sub_diag by lia. }
  assert (load (dp + Z.of_nat (length ds) - 1) m = Done d1 m ∧ load (dp + Z.of_nat (length ds) - 2) m = Done d0 m) as [E1 E0].
  { pose proof (load_last_two m dp (dlo ++ [d2]) d0 d1) as H. rewrite <- app_assoc in H. specialize (H Hd).
    rewrite length_app in H. simpl length in H. replace (S (S (length dlo + 1))) with (length ds) in H by lia. done. }
  unfold mpn_div_qr_invert. rewrite lift_assert_bind by (apply Z.ltb_lt; lia).
  rewrite (proj2 (Z.eqb_neq (Z.of_nat (length ds)) 1)), (proj2 (Z.eqb_neq (Z.of_nat (length ds)) 2)) by lia.
  rewrite (bind_done _ _ _ _ _ E1), (bind_done _ _ _ _ _ E0), lift_assert_bind by (by apply Z.ltb_lt).
  destruct (gmp_clz_spec d1) as (s & -> & Hs & Hn); [unfold limb in *; lia|]. rewrite lift_ok_bind.
  change (2 ^ 63) with GMP_LIMB_HIGHBIT in Hn. change (2 ^ 64) with B in Hn. change GMP_LIMB_BITS with 64.
  assert (value ds * 2 ^ s < B ^ Z.of_nat (length ds)) as Hfit.
  { rewrite Lds. replace ds with ((dlo ++ [d2; d0]) ++ [d1]) by (unfold ds; by rewrite <- app_assoc).
    apply shifted_fits; [apply Forall_app; by rewrite !Forall_cons|rewrite length_app; simpl; lia|lia|lia]. }
  destruct (Z.ltb_spec 0 s) as [Hs0|Hs0].
  - destruct (shift_triple d1 d0 d2 s) as (E & He1 & Hle1 & Hle0 & Hl2'); try done; [lia|lia|].
    set (e1 := Z.lor (lshl d1 s) _) in *. set (e0 := Z.lor (lshl d0 s) _) in *.
    rewrite (bind_done _ _ m (e1, e0) m) by (by rewrite (bind_done _ _ _ _ _ E2)).
    rewrite mpn_invert_3by2_spec by (unfold limb in *; lia || done). exists s, e1, e0. split; [done|].
    split_and!; try (unfold limb in *; lia). intros es Hes Les Ves.
    destruct (last_split es (S (S k))) as (es1 & x1 & -> & L1); [lia|].
    destruct (last_split es1 (S k)) as (elo & x0 & -> & L2); [lia|]. exists elo. rewrite <- app_assoc in *. simpl in Hes, Ves |- *.
    destruct (top_limbs elo x0 x1 e1 e0 (B ^ Z.of_nat k * lshl d2 s + value dlo * 2 ^ s)) as [-> ->]; try (decompose_Forall; done).
    + rewrite L2, pow_S. pose proof (value_bounds _ Hdl) as Hb. fold k in Hb. pose proof (pow_pos k). pose proof (Z.pow_pos_nonneg 2 s).
      assert (0 ≤ value dlo * 2 ^ s ≤ (B ^ Z.of_nat k - 1) * 2 ^ s) by (split; [apply Z.mul_nonneg_nonneg|apply Z.mul_le_mono_nonneg_r]; lia).
      assert (0 ≤ B ^ Z.of_nat k * lshl d2 s ≤ B ^ Z.of_nat k * (B - 2 ^ s)) by (split; [apply Z.mul_nonneg_nonneg|apply Z.mul_le_mono_nonneg_l]; lia).
      lia.
    + rewrite Ves, L2, pow_S. unfold ds. rewrite value_app. fold k. simpl value.
      assert (B ^ Z.of_nat k * ((e1 * B + e0) * B + lshl d2 s) = B ^ Z.of_nat k * ((d1 * B * B + d0 * B + d2) * 2 ^ s)) by (by rewrite E). lia.
  - assert (s = 0) as -> by lia. rewrite (bind_done (S:=mem) _ _ m (d1, d0) m eq_refl).
    rewrite mpn_invert_3by2_spec by (unfold limb in *; lia || done). exists 0, d1, d0. split; [done|].
    split_and!; try (unfold limb in *; lia). intros es Hes Les Ves.
    assert (es = ds) as -> by (apply value_inj; [done|apply Hd|done|lia]). exists (dlo ++ [d2]). unfold ds. by rewrite <- app_assoc.
Qed.

(** The remainder shifted back in place. *)
Lemma rshift_remainder m qp np nn dn rs qs s rho :
  length rs = nn → Forall limb rs → (0 < dn ≤ nn)%nat → 0 < s < 64 → writable m np nn →
  opt_disjoint qp (Z.of_nat (length qs)) np (Z.of_nat nn) → value (take dn rs) = rho * 2 ^ s →
  ∃ rs', gmp_assert_nocarry (mpn_rshift np np (Z.of_nat dn) s) (write_opt (write m np rs) qp qs) =
      Done tt (write_opt (write m np rs') qp qs) ∧
    Forall limb rs' ∧ length rs' = nn ∧ value (take dn rs') = rho.
Proof.
  intros Ln Hrs Hdn Hs Hw Hdq V. set (m2 := write_opt (write m np rs) qp qs).
  assert (limbs_at (write m np rs) np (take dn rs ++ drop dn rs)) as Hl by (rewrite take_drop; by apply limbs_at_write).
  assert (limbs_at m2 np (take dn rs)) as Hl2.
  { apply limbs_at_write_opt; [by apply limbs_at_app in Hl as [? _]|]. rewrite length_take, Ln.
    destruct qp; simpl in *; [|done]. unfold disjoint in *. lia. }
  assert (length (take dn rs) = dn) as Lt by (rewrite length_take; lia).
  destruct (mpn_rshift_div m2 np np (take dn rs) s) as (c & rs2 & E & Hrs2 & Lrs2 & V2 & Hc);
    [lia|done|done|by apply writable_limbs|left; lia|]. rewrite Lt in *.
  rewrite V, Z.mod_mul in Hc by (pose proof (Z.pow_pos_nonneg 2 s); lia).
  rewrite V, Z.div_mul in V2 by (pose proof (Z.pow_pos_nonneg 2 s); lia).
  exists (rs2 ++ drop dn rs). unfold gmp_assert_nocarry. rewrite (bind_done _ _ _ _ _ E), Hc. split_and!.
  - unfold m2. rewrite <- write_opt_comm by (destruct qp; simpl in *; [|done]; unfold disjoint in *; lia).
    rewrite (write_extend (write m np rs) np (take dn rs) (drop dn rs) rs2) by (done || congruence).
    rewrite write_over; [done|]. rewrite length_app, length_drop. lia.
  - apply Forall_app. split; [done|]. by apply Forall_drop.
  - rewrite length_app, length_drop. lia.
  - by rewrite take_app_length'.
Qed.

Lemma mpn_div_qr_preinv_spec m qp np dp xs D s elo e0 e1 :
  let k := length elo in let dn := S (S k) in let nn := length xs in let es := elo ++ [e0; e1] in
  (0 < k)%nat → (dn ≤ nn)%nat → GMP_LIMB_HIGHBIT ≤ e1 → 0 ≤ s < 64 → 0 < D → value es = D * 2 ^ s →
  limbs_at m np xs → limbs_at m dp es →
  opt_room m qp (nn - dn + 1) → disjoint np (Z.of_nat nn) dp (Z.of_nat dn) →
  opt_disjoint qp (Z.of_nat (nn - dn + 1)) np (Z.of_nat nn) → opt_disjoint qp (Z.of_nat (nn - dn + 1)) dp (Z.of_nat dn) →
  ∃ rs qs, mpn_div_qr_preinv qp np (Z.of_nat nn) dp (Z.of_nat dn) (Mk_inv s e1 (Some e0) (inverse_3by2 (e1 * B + e0))) m =
      Done tt (write_opt (write m np rs) qp qs) ∧
    Forall limb rs ∧ length rs = nn ∧ Forall limb qs ∧ length qs = (nn - dn + 1)%nat ∧
    value xs = value qs * D + value (take dn rs) ∧ value (take dn rs) < D.
Proof.
  intros k dn nn es Hk Hle He1 Hs HD Ves Hx Hd Hq Hdis Hdq Hdqd. unfold mpn_div_qr_preinv. cbn [shift d1 d0 di].
  destruct (load_last_two _ _ _ _ _ Hd) as [E1 E0]. fold k dn in E1, E0.
  assert (limb e1) as Hl1 by (destruct Hd as [Hd' _]; unfold es in *; decompose_Forall; done).
  rewrite !lift_assert_bind by (apply Z.ltb_lt || apply Z.leb_le; lia).
  rewrite (proj2 (Z.eqb_neq (Z.of_nat dn) 1)), (proj2 (Z.eqb_neq (Z.of_nat dn) 2)) by lia.
  rewrite (bind_done _ _ _ _ _ E1), lift_assert_bind by apply Z.eqb_refl.
  rewrite (bind_done _ _ _ _ _ E0), lift_ok_bind, lift_assert_bind by apply Z.eqb_refl.
  rewrite lift_assert_bind by (by apply land_high_ok).
  destruct (Z.ltb_spec 0 s) as [Hs0|Hs0].
  - destruct (mpn_lshift_spec m np np xs s) as (nh & xs' & E & Hxs' & Lxs' & Hnh & V); try done; [lia|lia|by apply writable_limbs|left; lia|].
    fold nn in E, Lxs', V. rewrite (bind_done _ _ _ _ _ E). pose proof (pow2_limb s ltac:(lia)).
    destruct (mpn_div_qr_pi1_spec (write m np xs') qp np dp xs' nh elo e0 e1) as (rs & qs & Ep & Hrs & Lrs & Hqs & Lqs & Vp & Hlt);
      fold k dn; rewrite ?Lxs'; try done.
    { by apply limbs_at_write. }
    { apply limbs_at_frame; [done|]. unfold es. rewrite Lxs', length_app. fold k. simpl length. unfold disjoint in *. lia. }
    { lia. }
    { by apply opt_room_write. }
    fold k dn es in Ep, Lrs, Lqs, Vp, Hlt. rewrite Lxs' in *. rewrite (bind_done _ _ _ _ _ Ep). rewrite write_over by lia. cbn [whenM].
    pose proof (value_bounds (take dn rs) ltac:(by apply Forall_take)) as Hvb.
    destruct (unshift_remainder (value xs) (value qs) D s (value (take dn rs))) as (EN & Hrho & Erho); [lia|done|lia|lia|].
    destruct (rshift_remainder m qp np nn dn rs qs s (value (take dn rs) / 2 ^ s)) as (rs' & Er & Hrs' & Lrs' & Vr);
      try done; [lia|lia|by apply writable_limbs|by rewrite Lqs|].
    exists rs', qs. rewrite Er, Vr. split_and!; try done; lia.
  - assert (s = 0) as -> by lia. rewrite (bind_done (S:=mem) _ _ m 0 m eq_refl).
    destruct (mpn_div_qr_pi1_spec m qp np dp xs 0 elo e0 e1) as (rs & qs & Ep & Hrs & Lrs & Hqs & Lqs & Vp & Hlt); try done.
    { unfold GMP_LIMB_HIGHBIT in *. lia. }
    fold k dn nn es in Ep, Lrs, Lqs, Vp, Hlt. rewrite (bind_done _ _ _ _ _ Ep).
    exists rs, qs. split_and!; try done; lia.
Qed.

(** ** Division of any lengths *)

(** The quotient at [qp] (when it is not NULL) and the remainder in the low
    [dn] limbs at [np]; only cells of these two operands have changed. *)
Definition divided_by (m : mem) (qp : option Z) (np : Z) (xs : list Z) (D : Z) (dn : nat) (m' : mem) : Prop :=
  ∃ qs rs, after_temp (write_opt (write m np rs) qp qs) m' ∧
    Forall limb qs ∧ length qs = (length xs - dn + 1)%nat ∧ Forall limb rs ∧ length rs = length xs ∧
    value qs = value xs / D ∧ value (take dn rs) = value xs mod D.
Definition divided (m : mem) (qp : option Z) (np : Z) (xs ds : list Z) (m' : mem) : Prop :=
  divided_by m qp np xs (value ds) (length ds) m'.

Lemma divided_intro m qp np xs D dn m' qs rs :
  after_temp (write_opt (write m np rs) qp qs) m' → Forall limb qs → length qs = (length xs - dn + 1)%nat →
  Forall limb rs → length rs = length xs →
  value xs = value qs * D + value (take dn rs) → value (take dn rs) < D →
  divided_by m qp np xs D dn m'.
Proof.
  intros. pose proof (value_bounds (take dn rs) ltac:(by apply Forall_take)).
  exists qs, rs. split_and!; try done.
  - apply (Z.div_unique_pos _ _ _ (value (take dn rs))); lia.
  - apply (Z.mod_unique_pos _ _ (value qs)); lia.
Qed.

(** The remainder over the low limbs of the dividend. *)
Lemma remainder_over m qp np rs0 zs qs m' k :
  limbs_at m np (zs ++ drop (length zs) k) → length rs0 = length zs → (length zs ≤ length k)%nat →
  opt_disjoint qp (Z.of_nat (length qs)) np (Z.of_nat (length k)) →
  after_temp (write (write_opt m qp qs) np rs0) m' → after_temp (write_opt (write m np (rs0 ++ drop (length zs) k)) qp qs) m'.
Proof.
  intros Hx Lr Hle Hdq Ha. rewrite <- (write_extend m np zs _ rs0) by done.
  rewrite write_opt_comm; [done|]. destruct qp; simpl in *; [|done]. unfold disjoint in *. lia.
Qed.

(** The limbs of a divisor [D] shifted by [s] so that its highest bit is set,
    with the inverse that mpn_div_qr_invert computes. *)
Inductive prepared (s D : Z) : list Z → gmp_div_inverse → Prop :=
| prepared_one e :
    GMP_LIMB_HIGHBIT ≤ e < B → e = D * 2 ^ s → prepared s D [e] (Mk_inv s e None (inverse_2by1 e))
| prepared_more elo e0 e1 :
    Forall limb elo → limb e0 → GMP_LIMB_HIGHBIT ≤ e1 < B → value (elo ++ [e0; e1]) = D * 2 ^ s →
    prepared s D (elo ++ [e0; e1]) (Mk_inv s e1 (Some e0) (inverse_3by2 (e1 * B + e0))).

Lemma prepared_value s D es inv : prepared s D es inv → value es = D * 2 ^ s.
Proof. intros [e He E|elo e0 e1 _ _ _ E]; [simpl; lia|done]. Qed.

Lemma prepared_shift s D es inv : prepared s D es inv → shift inv = s.
Proof. by intros []. Qed.

Section division.
Context (m : mem) (qp : option Z) (np dp : Z) (xs : list Z).
Local Abbreviation nn := (Z.of_nat (length xs)).

(** What the caller provides for a divisor of [n] limbs. *)
Definition operands_ready (n : nat) : Prop :=
  mem_wf m ∧ limbs_at m np xs ∧ (0 < n ≤ length xs)%nat ∧ nn ≤ alloc_limit ∧
  opt_room m qp (length xs - n + 1) ∧ opt_disjoint qp (nn - Z.of_nat n + 1) np nn.

Definition div_ready (ds : list Z) : Prop :=
  mem_wf m ∧ limbs_at m np xs ∧ limbs_at m dp ds ∧ (0 < length ds ≤ length xs)%nat ∧ nn ≤ alloc_limit ∧
  (∃ d, last ds = Some d ∧ 0 < d) ∧ opt_room m qp (length xs - length ds + 1) ∧ disjoint np nn dp (Z.of_nat (length ds)) ∧
  opt_disjoint qp (nn - Z.of_nat (length ds) + 1) np nn ∧ opt_disjoint qp (nn - Z.of_nat (length ds) + 1) dp (Z.of_nat (length ds)).

(** The divisor is read from memory when it has three limbs or more. *)
Definition divisor_at (es : list Z) : Prop :=
  limbs_at m dp es ∧ disjoint np nn dp (Z.of_nat (length es)) ∧
  opt_disjoint qp (nn - Z.of_nat (length es) + 1) dp (Z.of_nat (length es)).

Lemma preinv_by_one e s D :
  operands_ready 1 → 0 < D → 0 ≤ s < 64 → GMP_LIMB_HIGHBIT ≤ e < B → e = D * 2 ^ s →
  ∃ m', mpn_div_qr_preinv qp np nn dp 1 (Mk_inv s e None (inverse_2by1 e)) m = Done tt m' ∧ divided_by m qp np xs D 1 m'.
Proof.
  intros (Hwf & Hx & Hlen & Hlim & Hq & Hdq) HD Hs He Ee. replace (length xs - 1 + 1)%nat with (length xs) in Hq by lia.
  unfold mpn_div_qr_preinv. rewrite !lift_assert_bind by (reflexivity || (apply Z.leb_le; lia)). change (1 =? 1) with true. cbv iota. rewrite Ee in *.
  destruct (mpn_div_qr_1_preinv_spec m qp np xs D s) as (r & qs & m1 & E & (k & Hk & ->) & Hqs & Lqs & V & Hr); try done; [lia| |].
  { destruct qp; simpl in *; [|done]. unfold disjoint, downward in *. lia. }
  rewrite (bind_done _ _ _ _ _ E). destruct xs as [|x xs']; [simpl in Hlen; lia|].
  assert (is_Some (cells (write_opt m qp qs) !! np)) as Hnp.
  { pose proof (writable_write_opt m qp qs np 1 (λ i Hi, writable_limbs _ _ _ Hx i ltac:(simpl; lia)) O ltac:(lia)) as H. by rewrite Z.add_0_r in H. }
  rewrite store_ok by done. eexists. split; [done|].
  assert (0 < 2 ^ s) by (apply Z.pow_pos_nonneg; lia). assert (D ≤ D * 2 ^ s) by nia.
  apply (divided_intro _ _ _ _ _ _ _ qs (r :: xs')); simpl length in *; try done.
  - apply (remainder_over m qp np [r] [x] qs _ (x :: xs')); try done; [simpl; lia| |].
    + rewrite Lqs. destruct qp; simpl in *; [|done]. unfold disjoint in *. lia.
    + exists k. done.
  - lia.
  - constructor; [unfold limb in *; lia|]. destruct Hx as [Hx _]. by inversion Hx.
  - cbn [take value]. rewrite Z.mul_0_r, !Z.add_0_r. exact V.
  - change (r + B * 0 < D). lia.
Qed.

Lemma preinv_by_two e0 e1 s D :
  operands_ready 2 → 0 < D → 0 ≤ s < 64 → limb e0 → GMP_LIMB_HIGHBIT ≤ e1 < B → e1 * B + e0 = D * 2 ^ s →
  ∃ m', mpn_div_qr_preinv qp np nn dp 2 (Mk_inv s e1 (Some e0) (inverse_3by2 (e1 * B + e0))) m = Done tt m' ∧ divided_by m qp np xs D 2 m'.
Proof.
  intros (Hwf & Hx & Hlen & Hlim & Hq & Hdq) HD Hs He0 He1 Ee. replace (length xs - 2 + 1)%nat with (length xs - 1)%nat in Hq by lia.
  unfold mpn_div_qr_preinv. rewrite !lift_assert_bind by (reflexivity || (apply Z.leb_le; lia)). change (2 =? 1) with false. change (2 =? 2) with true. cbv iota.
  destruct (mpn_div_qr_2_preinv_spec m qp np np xs D s e1 e0) as (r1 & r0 & qs & m1 & E & Ha & Hqs & Lqs & Hr1 & Hr0 & V & Hr);
    try done; [lia| | |].
  { destruct qp; simpl in *; [|done]. unfold disjoint, downward in *. lia. }
  { intros i Hi. apply (writable_limbs _ _ _ Hx). lia. }
  eexists. split; [exact E|]. destruct xs as [|a [|b xs']]; [simpl in Hlen; lia..|].
  apply (divided_intro _ _ _ _ _ _ _ qs (r0 :: r1 :: xs')); simpl length in *; try done.
  - apply (remainder_over m qp np [r0; r1] [a; b] qs _ (a :: b :: xs')); try done; [simpl; lia|].
    rewrite Lqs. destruct qp; simpl in *; [|done]. unfold disjoint in *. lia.
  - lia.
  - apply limbs_at_cons in Hx as [_ [_ [Hx _]]%limbs_at_cons]. by repeat (constructor; [done|]).
  - change (value (a :: b :: xs') = value qs * D + (r0 + B * (r1 + B * 0))). rewrite V. ring.
  - change (r0 + B * (r1 + B * 0) < D). lia.
Qed.

Lemma preinv_divides es s D inv :
  operands_ready (length es) → prepared s D es inv → 0 < D → 0 ≤ s < 64 → ((2 < length es)%nat → divisor_at es) →
  ∃ m', mpn_div_qr_preinv qp np nn dp (Z.of_nat (length es)) inv m = Done tt m' ∧ divided_by m qp np xs D (length es) m'.
Proof.
  intros Hop Hp HD Hs Hat. destruct Hp as [e He Ee|elo e0 e1 Hlo He0 He1 Ee]; [by apply preinv_by_one|].
  destruct (decide (elo = [])) as [->|Hne].
  { apply preinv_by_two; try done. simpl in Ee. lia. }
  rewrite length_app in *. simpl length in *. assert (0 < length elo)%nat as Hl by (destruct elo; [done|simpl; lia]).
  destruct Hop as (Hwf & Hx & Hlen & Hlim & Hq & Hdq). destruct Hat as (Hd & Hdis & Hdqd); [lia|]. rewrite length_app in Hdis, Hdqd. simpl length in *.
  replace (length elo + 2)%nat with (S (S (length elo))) in * by lia.
  destruct (mpn_div_qr_preinv_spec m qp np dp xs D s elo e0 e1) as (rs & qs & E & Hrs & Lrs & Hqs & Lqs & V & Hlt); try done; try lia.
  1,2: by replace (Z.of_nat (length xs - S (S (length elo)) + 1)) with (nn - Z.of_nat (S (S (length elo))) + 1) by lia.
  eexists. split; [exact E|]. apply (divided_intro _ _ _ _ _ _ _ qs rs); try done. apply after_temp_refl.
Qed.
End division.

(** mpn_div_qr_invert prepares a divisor, for any limbs that stand for the
    shifted one. *)
Lemma invert_prepares m dp ds d :
  limbs_at m dp ds → last ds = Some d → 0 < d →
  ∃ s inv, mpn_div_qr_invert dp (Z.of_nat (length ds)) m = Done inv m ∧ shift inv = s ∧ 0 ≤ s < 64 ∧
    value ds * 2 ^ s < B ^ Z.of_nat (length ds) ∧
    ∀ es, Forall limb es → length es = length ds → value es = value ds * 2 ^ s → prepared s (value ds) es inv.
Proof.
  intros Hd Hlast Hd0. destruct ds as [|x0 [|x1 [|x2 ds]]]; [done|..].
  - injection Hlast as ->. apply limbs_at_cons in Hd as [[Hdl Hdc] _]. destruct (div_qr_1_invert_spec d) as (s & Ei & Hs & Hn); [unfold limb in *; lia|].
    exists s, (Mk_inv s (d * 2 ^ s) None (inverse_2by1 (d * 2 ^ s))). split_and!; try done; try lia.
    + unfold mpn_div_qr_invert. rewrite lift_assert_bind by done. change (Z.of_nat (length [d]) =? 1) with true. cbv iota. by rewrite (bind_done _ _ _ _ _ (load_ok _ _ _ Hdc)), Ei.
    + cbn [length value]. rewrite Z.mul_0_r, Z.add_0_r, Z.pow_1_r. lia.
    + intros es Hes Les Ves. destruct es as [|e [|]]; try done. cbn [value] in *. rewrite Z.mul_0_r, !Z.add_0_r in *. subst e. by constructor.
  - injection Hlast as ->. apply limbs_at_cons in Hd as [[Hl0 Hc0] [[Hl1 Hc1] _]%limbs_at_cons].
    destruct (div_qr_2_invert_spec d x0) as (s & e1 & e0 & Ei & Hs & Ee & He1 & He0); [unfold limb in *; lia|done|].
    exists s, (Mk_inv s e1 (Some e0) (inverse_3by2 (e1 * B + e0))). split_and!; try done; try lia.
    + unfold mpn_div_qr_invert. rewrite lift_assert_bind by done. change (Z.of_nat (length [x0; d]) =? 1) with false. change (Z.of_nat (length [x0; d]) =? 2) with true. cbv iota.
      by rewrite (bind_done _ _ _ _ _ (load_ok _ _ _ Hc1)), (bind_done _ _ _ _ _ (load_ok _ _ _ Hc0)), Ei.
    + cbn [length value]. rewrite Z.mul_0_r, Z.add_0_r. replace (x0 + B * d) with (d * B + x0) by ring. rewrite <- Ee. change (B ^ Z.of_nat 2) with (B * B). unfold limb in *. nia.
    + intros es Hes Les Ves. destruct es as [|y0 [|y1 [|]]]; try done. cbn [value] in Ves. rewrite !Z.mul_0_r, !Z.add_0_r in Ves.
      assert (y1 = e1 ∧ y0 = e0) as [-> ->]. { decompose_Forall. unfold limb in *. assert (y1 * B + y0 = e1 * B + e0) by lia. assert (y1 = e1) by nia. lia. }
      apply (prepared_more _ _ []); try done. cbn [app value]. rewrite !Z.mul_0_r, !Z.add_0_r. lia.
  - destruct (last_split (x0 :: x1 :: x2 :: ds) (S (S (length ds))) eq_refl) as (l1 & e1 & E1 & L1). rewrite E1 in *.
    destruct (last_split l1 (S (length ds)) L1) as (l0 & e0 & -> & L0). destruct (last_split l0 (length ds) L0) as (lo & e2 & -> & _).
    rewrite last_snoc in Hlast. injection Hlast as ->. rewrite <- !app_assoc in *. cbn [app] in *.
    destruct (mpn_div_qr_invert_spec m dp lo e2 e0 d Hd Hd0) as (s & f1 & f0 & Ei & Hs & Hf1 & Hf0 & Hfit & Hes).
    exists s, (Mk_inv s f1 (Some f0) (inverse_3by2 (f1 * B + f0))). split_and!; try done; try lia. intros es Hle Les Ves. destruct (Hes es Hle Les Ves) as (elo & ->).
    apply Forall_app in Hle as [Hle _]. by apply prepared_more.
Qed.

Lemma mem_wf_grow m n : mem_wf m → 0 < n → mem_wf (grow m n).
Proof.
  intros Hwf Hn a Ha. simpl in *. rewrite lookup_fresh_cells. guard_false ((next m <=? a) && (a <? next m + Z.of_nat (Z.to_nat n))).
  rewrite lookup_insert_ne by lia. apply Hwf. lia.
Qed.

Lemma value_last_pos ds d : Forall limb ds → last ds = Some d → 0 < d → 0 < value ds.
Proof.
  intros Hds Hl Hd. destruct ds as [|x ds _] using rev_ind; [done|]. rewrite last_snoc in Hl. injection Hl as ->. apply Forall_app in Hds as [Hds _].
  rewrite value_app. pose proof (value_bounds _ Hds). pose proof (pow_pos (length ds)). simpl value. nia.
Qed.

(** Freeing the first block made, after others that have gone. *)
Lemma over_free_bump t n k m2 m' : over t n m2 m' → mem_wf m' → t = next m' → 0 ≤ n → gmp_free t (bump k m2) = Done tt (bump (n + k) m').
Proof.
  intros Ho Hwf Ht Hn. pose proof (over_free t n m2 m' Ho Hwf Ht Hn) as E. unfold gmp_free, bump in *. cbn [blocks cells next] in *. destruct (blocks m2 !! t); [|done].
  injection E as -> -> E. f_equal. f_equal. lia.
Qed.

Lemma mpn_div_qr_spec m qp np dp xs ds :
  div_ready m qp np dp xs ds →
  ∃ m', mpn_div_qr qp np (Z.of_nat (length xs)) dp (Z.of_nat (length ds)) m = Done tt m' ∧ divided m qp np xs ds m'.
Proof.
  intros (Hwf & Hx & Hd & Hlen & Hlim & (d & Ed & Hd0) & Hq & Hdis & Hdq & Hdqd).
  assert (operands_ready m qp np xs (length ds)) as Hop by done.
  destruct (invert_prepares m dp ds d Hd Ed Hd0) as (s & inv & Ei & Es & Hs & Hfit & Hes).
  assert (0 < value ds) as HD by (by apply (value_last_pos ds d (proj1 Hd))).
  unfold mpn_div_qr. rewrite !lift_assert_bind by (apply Z.ltb_lt || apply Z.leb_le; lia). rewrite (bind_done _ _ _ _ _ Ei), Es.
  destruct (Z.ltb_spec 2 (Z.of_nat (length ds))) as [H2|H2], (Z.ltb_spec 0 s) as [Hs0|Hs0]; cbn [andb].
  - destruct (shifted_copy_spec m dp ds s Hwf Hd ltac:(lia) ltac:(lia) ltac:(lia)) as (c & ts & Ea & El & Hts & Lts & Hc & V).
    pose proof (value_bounds _ Hts) as Hb. rewrite Lts in Hb. pose proof (pow_pos (length ds)). assert (c = 0) as -> by nia.
    rewrite (bind_done _ _ _ _ _ Ea). unfold gmp_assert_nocarry at 1.
    set (m1 := write (grow m (Z.of_nat (length ds))) (next m) ts) in *.
    rewrite (bind_done _ _ _ tt m1) by (by rewrite (bind_done _ _ _ _ _ El)).
    pose proof (mem_wf_grow m (Z.of_nat (length ds)) Hwf ltac:(lia)) as Hwg.
    pose proof (writable_below m np (length xs) Hwf ltac:(lia) (writable_limbs _ _ _ Hx)) as Hnp.
    rewrite <- Lts. destruct (preinv_divides m1 qp np (next m) xs ts s (value ds) inv) as (m' & E & Hdiv); rewrite ?Lts.
    + split_and!; try done; try lia.
      * apply mem_wf_write; [done|]. rewrite Lts. intros i Hi. apply writable_new. lia.
      * apply limbs_at_frame; [by apply limbs_at_grow|]. rewrite Lts. unfold disjoint. lia.
      * by apply opt_room_write, opt_room_grow.
    + apply Hes; (done || lia).
    + done.
    + lia.
    + intros _. unfold divisor_at. rewrite Lts. split_and!.
      * by apply limbs_at_write.
      * left. lia.
      * destruct qp as [q|]; simpl in *; [|done]. pose proof (writable_below m q (length xs - length ds + 1) Hwf ltac:(lia) Hq). unfold disjoint. lia.
    + rewrite Lts in E, Hdiv. rewrite (bind_done _ _ _ _ _ E). destruct Hdiv as (qs & rs & (k & Hk & ->) & Hqs & Lqs & Hrs & Lrs & Vq & Vr).
      eexists. split.
      * apply (over_free_bump (next m) (Z.of_nat (length ds)) k _ (write_opt (write m np rs) qp qs)); [|apply mem_wf_write_opt; [apply mem_wf_write; [exact Hwf|rewrite Lrs; by apply writable_limbs]|rewrite Lqs; by apply opt_room_write]|by destruct qp|lia].
        apply over_write_opt, over_write, over_write_tmp; [apply over_grow|]; lia.
      * exists qs, rs. split_and!; try done. eexists. split; [|done]. lia.
  - assert (s = 0) as -> by lia. apply preinv_divides with (s := 0); try done. apply Hes; (done || lia || apply Hd).
  - destruct (limbs_exist (length ds) (value ds * 2 ^ s)) as (es & Hle & Les & Ves); [pose proof (Z.pow_pos_nonneg 2 s); nia|]. rewrite <- Les in *.
    destruct (preinv_divides m qp np dp xs es s (value ds) inv) as (m' & E & Hdiv); try done; [by apply Hes|lia|]. exists m'. split; [exact E|]. unfold divided. by rewrite <- Les.
  - assert (s = 0) as -> by lia. apply preinv_divides with (s := 0); try done; try lia. apply Hes; (done || lia || apply Hd).
Qed.

(** C32: mpn_div_qr is Euclidean division, for a dividend and a divisor of any
    lengths whose highest divisor limb is not 0: it returns, after writing
    exactly the limbs of the quotient at [qp] (if it is not NULL) and those of
    the remainder at the low end of [np]; no other cell changes, no assertion
    fails, no read or write is undefined, and every temporary block is freed. *)
Theorem mpn_div_qr_exact m qp np dp xs ds :
  div_ready m qp np dp xs ds →
  ∃ m', mpn_div_qr qp np (Z.of_nat (length xs)) dp (Z.of_nat (length ds)) m = Done tt m' ∧ divided m qp np xs ds m'.
Proof. apply mpn_div_qr_spec. Qed.

(** Five limbs by three, with the quotient elsewhere. *)
Definition div_example : mem :=
  mem_of [Some 11; Some 22; Some 33; Some (B - 1); Some 5; Some 3; Some 1; Some 77; None; None; None].

Lemma mem_of_wf l : mem_wf (mem_of l).
Proof.
  intros a Ha. split; [|done]. simpl in *. assert (∀ p, p + Z.of_nat (length l) ≤ a → cells_of p l !! a = None) as H; [|by apply H].
  clear Ha. induction l as [|o l IH]; intros p Ha; simpl in *; [done|].
  rewrite lookup_insert_ne by lia. apply IH. lia.
Qed.

Lemma mpn_div_qr_exact_witness :
  ∃ m', mpn_div_qr (Some 8) 0 5 5 3 div_example = Done tt m' ∧
    divided div_example (Some 8) 0 [11; 22; 33; B - 1; 5] [3; 1; 77] m'.
Proof.
  apply (mpn_div_qr_exact div_example (Some 8) 0 5 [11; 22; 33; B - 1; 5] [3; 1; 77]).
  split_and!.
  - apply mem_of_wf.
  - concrete_limbs.
  - concrete_limbs.
  - simpl. lia.
  - simpl. lia.
  - simpl. unfold alloc_limit. lia.
  - exists 77. split; [reflexivity|lia].
  - concrete_writable.
  - left. simpl. lia.
  - right. simpl. lia.
  - right. simpl. lia.
Defined.
