(* ===== verification/MpnStr.v ===== *)
(** * Conversion to and from digits (mpn_get_str and mpn_set_str of mini-gmp.c)

    A string of digits is an array of bytes, each the value of a digit, most
    significant first. mpn_set_str reads it; mpn_get_str writes it, and uses
    the limbs of the number as working space. *)

From S2P Require Import Prelude Limbs Mpn Invert MpnDiv MpnDivN.

Definition mpn_base_power_of_two_p (b : Z) : Z :=
  if b =? 2 then 1
  else if b =? 4 then 2
  else if b =? 8 then 3
  else if b =? 16 then 4
  else if b =? 32 then 5
  else if b =? 64 then 6
  else if b =? 128 then 7
  else if b =? 256 then 8
  else 0.

Record mpn_base_info := Mk_base_info { bi_exp : Z; bi_bb : Z }.

(** [for (exp = 1, p = b; p <= m; exp++) p *= b]: at most 63 turns when [b] is
    at least 2; it does not end for 1. *)
Fixpoint base_info_loop (b m exp p : Z) (n : nat) : res mpn_base_info :=
  match n with
  | O => Fail Undefined
  | S n' => if p <=? m then base_info_loop b m (u32 (exp + 1)) (lmul p b) n' else mret (Mk_base_info exp p)
  end.

Definition mpn_get_base_info (b : Z) : res mpn_base_info :=
  _ ← defined (negb (b =? 0));
  let m := GMP_LIMB_MAX / b in
  base_info_loop b m 1 b 64.

Definition mpn_limb_size_in_base_2 (u : Z) : res Z :=
  _ ← assertion (0 <? u);
  shift ← gmp_clz u;
  mret (GMP_LIMB_BITS - shift).

(** ** From digits *)

(** A byte of the input. *)
Definition char_at (sp : list Z) (j : Z) : M mem Z :=
  lift (if 0 <=? j then match sp !! Z.to_nat j with Some c => Ok c | None => Fail Undefined end else Fail Undefined).

Fixpoint set_str_bits_loop (rp : Z) (sp : list Z) (bits : Z) (j : nat) (rn shift : Z) : M mem Z :=
  match j with
  | O => mret rn
  | S j' =>
      d ← char_at sp (Z.of_nat j');
      if shift =? 0 then
        _ ← store (rp + rn) d;
        set_str_bits_loop rp sp bits j' (rn + 1) (shift + bits)
      else
        x ← load (rp + rn - 1);
        _ ← store (rp + rn - 1) (Z.lor x (lshl d shift));
        let shift := shift + bits in
        if GMP_LIMB_BITS <=? shift then
          let shift := shift - GMP_LIMB_BITS in
          if 0 <? shift then
            _ ← store (rp + rn) (lshr d (bits - shift));
            set_str_bits_loop rp sp bits j' (rn + 1) shift
          else set_str_bits_loop rp sp bits j' rn shift
        else set_str_bits_loop rp sp bits j' rn shift
  end.

Definition mpn_set_str_bits (rp : Z) (sp : list Z) (sn bits : Z) : M mem Z :=
  rn ← set_str_bits_loop rp sp bits (Z.to_nat sn) 0 0;
  mpn_normalized_size rp rn.

(** [n] times [w = w * b + sp[j++]]. *)
Fixpoint read_digits (sp : list Z) (b j w : Z) (n : nat) : M mem (Z * Z) :=
  match n with
  | O => mret (w, j)
  | S n' =>
      d ← char_at sp j;
      read_digits sp b (j + 1) (ladd (lmul w b) d) n'
  end.

(** [for (rn = 1; j < sn;)]; each turn reads [exp] digits. *)
Fixpoint set_str_other_loop (rp : Z) (sp : list Z) (sn b : Z) (info : mpn_base_info) (j rn : Z) (n : nat) : M mem (Z * Z) :=
  if j <? sn then
    match n with
    | O => failM Undefined
    | S n' =>
        w ← char_at sp j;
        '(w, j) ← read_digits sp b (j + 1) w (Z.to_nat (bi_exp info - 1));
        cy ← mpn_mul_1 rp rp rn (bi_bb info);
        cy1 ← mpn_add_1 rp rp rn w;
        let cy := ladd cy cy1 in
        if 0 <? cy then
          _ ← store (rp + rn) cy;
          set_str_other_loop rp sp sn b info j (rn + 1) n'
        else set_str_other_loop rp sp sn b info j rn n'
    end
  else mret (j, rn).

Definition mpn_set_str_other (rp : Z) (sp : list Z) (sn b : Z) (info : mpn_base_info) : M mem Z :=
  _ ← lift (assertion (0 <? sn));
  let k := 1 + (sn - 1) mod bi_exp info in
  w ← char_at sp 0;
  '(w, j) ← read_digits sp b 1 w (Z.to_nat (k - 1));
  _ ← store rp w;
  '(j, rn) ← set_str_other_loop rp sp sn b info j 1 (Z.to_nat sn);
  _ ← lift (assertion (j =? sn));
  mret rn.

Definition mpn_set_str (rp : Z) (sp : list Z) (sn base : Z) : M mem Z :=
  if sn =? 0 then mret 0
  else
    let bits := mpn_base_power_of_two_p base in
    if negb (bits =? 0) then mpn_set_str_bits rp sp sn bits
    else
      info ← lift (mpn_get_base_info base);
      mpn_set_str_other rp sp sn base info.

(** ** To digits *)

(** The limbs and the output buffer. *)
Record strmem := Mk_strmem { lm : mem; chars : list (option Z) }.

Definition limbsM {A} (k : M mem A) : M strmem A := zoom lm (λ m s, Mk_strmem m (chars s)) k.
Definition put_char (j c : Z) : M strmem unit := λ s,
  match arr_set (chars s) j c with Ok l => Done tt (Mk_strmem (lm s) l) | Fail f => Failed f end.
Definition get_char (j : Z) : M strmem Z := λ s,
  match arr_get (chars s) j with Ok c => Done c s | Fail f => Failed f end.

(** [unsigned char] *)
Definition u8 (x : Z) : Z := x mod 256.

(** The bits at position [shift] of limb [i] with those of the next limb, and
    the next position. *)
Definition next_digit (bits up un i shift : Z) : M strmem (Z * Z * Z) :=
  x ← limbsM (load (up + i));
  _ ← lift (defined (shift <? GMP_LIMB_BITS));
  let digit := u8 (lshr x shift) in
  let shift := shift + bits in
  if GMP_LIMB_BITS <=? shift then
    let i := i + 1 in
    if i <? un then
      let shift := shift - GMP_LIMB_BITS in
      x ← limbsM (load (up + i));
      mret (Z.lor digit (u8 (lshl x (bits - shift))), i, shift)
    else mret (digit, i, shift)
  else mret (digit, i, shift).

(** [for (i = 0, j = sn, shift = 0; j-- > 0;)] *)
Fixpoint get_str_bits_loop (sp bits up un : Z) (j : nat) (i shift : Z) : M strmem unit :=
  match j with
  | O => mret tt
  | S j' =>
      '(digit, i, shift) ← next_digit bits up un i shift;
      _ ← put_char (sp + Z.of_nat j') (Z.land digit (2 ^ bits - 1));
      get_str_bits_loop sp bits up un j' i shift
  end.

Definition mpn_get_str_bits (sp bits up un : Z) : M strmem Z :=
  x ← limbsM (load (up + un - 1));
  size ← lift (mpn_limb_size_in_base_2 x);
  let sn := ((un - 1) * GMP_LIMB_BITS + size + bits - 1) / bits in
  _ ← get_str_bits_loop sp bits up un (Z.to_nat sn) 0 0;
  mret sn.

(** [for (i = 0; w > 0; i++)]: at most 64 digits. *)
Fixpoint limb_get_str_loop (sp w : Z) (binv : gmp_div_inverse) (i : Z) (n : nat) : M strmem Z :=
  if 0 <? w then
    match n with
    | O => failM Undefined
    | S n' =>
        _ ← lift (defined (0 <? shift binv));
        let h := lshr w (GMP_LIMB_BITS - shift binv) in
        let l := lshl w (shift binv) in
        let '(w, r) := gmp_udiv_qrnnd_preinv h l (d1 binv) (di binv) in
        _ ← lift (assertion (lshl r (GMP_LIMB_BITS - shift binv) =? 0));
        let r := lshr r (shift binv) in
        _ ← put_char (sp + i) (u8 r);
        limb_get_str_loop sp w binv (i + 1) n'
    end
  else mret i.

Definition mpn_limb_get_str (sp w : Z) (binv : gmp_div_inverse) : M strmem Z := limb_get_str_loop sp w binv 0 64.

(** [for (sn += done; done < info->exp; done++) sp[sn++] = 0] *)
Fixpoint pad_zeros (sp sn : Z) (n : nat) : M strmem Z :=
  match n with O => mret sn | S n' => _ ← put_char (sp + sn) 0; pad_zeros sp (sn + 1) n' end.

(** The loop that splits off [exp] digits at a time; [n] bounds its turns. *)
Fixpoint get_str_other_loop (sp : Z) (info : mpn_base_info) (binv bbinv : gmp_div_inverse) (up un sn : Z) (n : nat) : M strmem (Z * Z) :=
  match n with
  | O => failM Undefined
  | S n' =>
      w ← limbsM (mpn_div_qr_1_preinv (Some up) up un bbinv);
      x ← limbsM (load (up + un - 1));
      let un := un - b2l (x =? 0) in
      done ← mpn_limb_get_str (sp + sn) w binv;
      sn ← pad_zeros sp (sn + done) (Z.to_nat (bi_exp info - done));
      if 1 <? un then get_str_other_loop sp info binv bbinv up un sn n' else mret (un, sn)
  end.

(** [for (i = 0; 2*i + 1 < sn; i++)] *)
Fixpoint reverse_loop (sp sn i : Z) (n : nat) : M strmem unit :=
  if 2 * i + 1 <? sn then
    match n with
    | O => failM Undefined
    | S n' =>
        t ← get_char (sp + i);
        x ← get_char (sp + (sn - i - 1));
        _ ← put_char (sp + i) x;
        _ ← put_char (sp + (sn - i - 1)) t;
        reverse_loop sp sn (i + 1) n'
    end
  else mret tt.

Definition mpn_get_str_other (sp base : Z) (info : mpn_base_info) (up un : Z) : M strmem Z :=
  binv ← lift (mpn_div_qr_1_invert base);
  '(un, sn) ←
    (if 1 <? un then
       bbinv ← lift (mpn_div_qr_1_invert (bi_bb info));
       get_str_other_loop sp info binv bbinv up un 0 (Z.to_nat (64 * un))
     else mret (un, 0));
  x ← limbsM (load up);
  done ← mpn_limb_get_str (sp + sn) x binv;
  let sn := sn + done in
  _ ← reverse_loop sp sn 0 (Z.to_nat sn);
  mret sn.

Definition mpn_get_str (sp base up un : Z) : M strmem Z :=
  _ ← lift (assertion (0 <? un));
  x ← limbsM (load (up + un - 1));
  _ ← lift (assertion (0 <? x));
  let bits := mpn_base_power_of_two_p base in
  if negb (bits =? 0) then mpn_get_str_bits sp bits up un
  else
    info ← lift (mpn_get_base_info base);
    mpn_get_str_other sp base info up un.
