(* ===== verification/MpnSetStr.v ===== *)
(** * From digits to limbs: the proof of mpn_set_str *)

From S2P Require Import Prelude Limbs Mpn Invert MpnDiv MpnDivN MpnStr.

(** ** Digits *)

(** The number written in base [b], most significant digit first. *)
Definition digits_value (b : Z) (ds : list Z) : Z := foldl (λ v d, v * b + d) 0 ds.

Definition digit (b d : Z) : Prop := 0 ≤ d < b.

Section digits.
Context (b : Z).
Implicit Types ds : list Z.

Lemma foldl_digits v ds : foldl (λ v d, v * b + d) v ds = v * b ^ Z.of_nat (length ds) + digits_value b ds.
Proof.
  revert v. unfold digits_value. induction ds as [|d ds IH]; intros v; [simpl; lia|].
  simpl. rewrite (IH (v * b + d)), (IH (0 * b + d)). rewrite Nat2Z.inj_succ, Z.pow_succ_r by lia. ring.
Qed.

Lemma digits_app xs ys : digits_value b (xs ++ ys) = digits_value b xs * b ^ Z.of_nat (length ys) + digits_value b ys.
Proof. unfold digits_value at 1. by rewrite foldl_app, foldl_digits. Qed.

Lemma digits_snoc xs d : digits_value b (xs ++ [d]) = digits_value b xs * b + d.
Proof. rewrite digits_app. simpl. unfold digits_value at 2. simpl. lia. Qed.

Lemma digits_cons d ds : digits_value b (d :: ds) = d * b ^ Z.of_nat (length ds) + digits_value b ds.
Proof. change (d :: ds) with ([d] ++ ds). rewrite digits_app. unfold digits_value at 1. simpl. lia. Qed.

Lemma digits_bounds ds : 0 < b → Forall (digit b) ds → 0 ≤ digits_value b ds < b ^ Z.of_nat (length ds).
Proof.
  intros Hb. induction 1 as [|d ds Hd Hds IH]; [done|]. rewrite digits_cons. cbn [length]. rewrite Nat2Z.inj_succ, Z.pow_succ_r by lia.
  unfold digit in Hd. assert (0 ≤ d * b ^ Z.of_nat (length ds) ≤ (b - 1) * b ^ Z.of_nat (length ds)).
  { split; [apply Z.mul_nonneg_nonneg|apply Z.mul_le_mono_nonneg_r]; lia. } lia.
Qed.
End digits.

Lemma char_at_ok sp j d m : sp !! j = Some d → char_at sp (Z.of_nat j) m = Done d m.
Proof. intros H. unfold char_at. rewrite (proj2 (Z.leb_le _ _)), Nat2Z.id, H by lia. done. Qed.

(** A number without high zero limbs is as large as its length says. *)
Lemma normalized_ge xs : Forall limb xs → (0 < length xs)%nat → normalized xs ↔ B ^ Z.of_nat (pred (length xs)) ≤ value xs.
Proof.
  intros Hx Hn. destruct (last_split xs (pred (length xs))) as (ys & x & -> & Ly); [lia|]. unfold normalized.
  rewrite last_snoc, value_app, length_app, Nat.add_1_r. simpl pred. simpl value.
  apply Forall_app in Hx as [Hy Hx]. inversion_clear Hx as [|?? Hxl _]. unfold limb in Hxl.
  pose proof (value_bounds _ Hy). pose proof (pow_pos (length ys)). set (P := B ^ Z.of_nat (length ys)) in *. split.
  - intros Hne. assert (P * 1 ≤ P * x); [|lia]. apply Z.mul_le_mono_nonneg_l; [lia|].
    destruct (Z.eq_dec x 0) as [->|]; [done|lia].
  - intros Hge [= ->]. lia.
Qed.

(** ** Bases that are powers of two *)

(** [rn] limbs hold [t] bits: the next bit goes to position [shift] of the last
    limb, or opens a new one. *)
Definition bit_position (t rn shift : Z) : Prop :=
  (shift = 0 ∧ t = 64 * rn) ∨ (0 < shift < 64 ∧ t = 64 * (rn - 1) + shift).

Lemma pow2_64 n : 2 ^ (64 * Z.of_nat n) = B ^ Z.of_nat n.
Proof. rewrite Z.pow_mul_r by lia. done. Qed.

(** The last limb of a number of [64 * n + shift] bits. *)
Lemma last_limb_bits ys x shift :
  Forall limb ys → 0 ≤ x → 0 ≤ shift → value (ys ++ [x]) < 2 ^ (64 * Z.of_nat (length ys) + shift) → x < 2 ^ shift.
Proof.
  intros Hys Hx Hs Hlt. pose proof (value_bounds _ Hys) as Hb. rewrite value_app, Z.pow_add_r, pow2_64 in Hlt by lia. simpl value in Hlt.
  pose proof (pow_pos (length ys)). apply (Z.mul_lt_mono_pos_l (B ^ Z.of_nat (length ys))); lia.
Qed.

Section set_bits.
Context (rp : Z) (sp : list Z) (bits : Z) (room : nat).
Local Abbreviation W j := (digits_value (2 ^ bits) (drop j sp)).

Lemma set_str_bits_loop_spec :
  1 ≤ bits ≤ 8 → Forall (digit (2 ^ bits)) sp → bits * Z.of_nat (length sp) ≤ 64 * Z.of_nat room →
  ∀ j m shift xs, (j ≤ length sp)%nat → limbs_at m rp xs → writable m rp room → value xs = W j →
  bit_position (bits * Z.of_nat (length sp - j)) (Z.of_nat (length xs)) shift →
  ∃ rs, set_str_bits_loop rp sp bits j (Z.of_nat (length xs)) shift m = Done (Z.of_nat (length rs)) (write m rp rs) ∧
    Forall limb rs ∧ (length xs ≤ length rs ≤ room)%nat ∧ value rs = digits_value (2 ^ bits) sp.
Proof.
  intros Hbits Hsp Hroom. induction j as [|j IH]; intros m shift xs Hj Hx Hw V Hpos.
  - exists xs. rewrite drop_0 in V. rewrite write_same by done. split_and!; [done|apply Hx|done| |done].
    unfold bit_position in Hpos. rewrite Nat.sub_0_r in Hpos. lia.
  - destruct (lookup_lt_is_Some_2 sp j) as [d Hd]; [lia|]. cbn [set_str_bits_loop].
    rewrite (bind_done _ _ _ _ _ (char_at_ok sp j d m Hd)).
    assert (0 ≤ d < 2 ^ bits) as Hdd by (eapply Forall_lookup_1 in Hsp; [exact Hsp|exact Hd]).
    assert (2 ^ bits ≤ 256) as Hb8 by (change 256 with (2 ^ 8); apply Z.pow_le_mono_r; lia).
    assert (limb d) as Hdl by (unfold limb, B; lia).
    assert (∀ t, t = bits * Z.of_nat (length sp - S j) → W j = W (S j) + d * 2 ^ t) as HW.
    { intros t ->. rewrite (drop_S sp d j) by done. rewrite digits_cons, length_drop, Z.pow_mul_r by lia. ring. }
    specialize (HW _ eq_refl).
    assert (bits * Z.of_nat (length sp - j) = bits * Z.of_nat (length sp - S j) + bits) as Et by (rewrite Nat.sub_succ_r; nia).
    assert (bits * Z.of_nat (length sp - j) ≤ 64 * Z.of_nat room) as Hroom' by nia.
    assert (0 ≤ W (S j) < 2 ^ (bits * Z.of_nat (length sp - S j))) as HWb.
    { pose proof (digits_bounds (2 ^ bits) (drop (S j) sp) ltac:(lia) ltac:(by apply Forall_drop)) as Hb.
      by rewrite length_drop, <- Z.pow_mul_r in Hb by lia. }
    assert (0 ≤ bits * Z.of_nat (length sp - S j)) as Ht0 by (apply Z.mul_nonneg_nonneg; lia).
    set (t := bits * Z.of_nat (length sp - S j)) in *. rewrite Et in *. clearbody t.
    assert (∀ shift' ys, limbs_at (write m rp ys) rp ys → (length xs ≤ length ys)%nat → value ys = W j →
      bit_position (t + bits) (Z.of_nat (length ys)) shift' →
      ∃ rs, set_str_bits_loop rp sp bits j (Z.of_nat (length ys)) shift' (write m rp ys) = Done (Z.of_nat (length rs)) (write m rp rs) ∧
        Forall limb rs ∧ (length xs ≤ length rs ≤ room)%nat ∧ value rs = digits_value (2 ^ bits) sp) as Hnext.
    { intros shift' ys Hys Hle Vy Hp. destruct (IH (write m rp ys) shift' ys) as (rs & E & Hrs & Hlen & Vr); try done; [lia|by apply writable_write|].
      exists rs. rewrite E, write_over by lia. split_and!; try done; lia. }
    destruct (Z.eqb_spec shift 0) as [->|Hs].
    + destruct Hpos as [[_ Ht]|[? _]]; [|lia].
      assert (is_Some (cells m !! (rp + Z.of_nat (length xs)))) as Hc by (apply Hw; lia).
      rewrite (bind_done _ _ _ _ _ (store_ok _ _ d Hc)), write_after by done.
      replace (Z.of_nat (length xs) + 1) with (Z.of_nat (length (xs ++ [d]))) by (rewrite length_app; simpl; lia).
      apply Hnext; [apply limbs_at_write, Forall_app; split; [apply Hx|by constructor]|rewrite length_app; lia| |].
      * rewrite value_app, V, HW, Ht, pow2_64. simpl value. lia.
      * right. rewrite length_app. simpl length. lia.
    + destruct Hpos as [[? _]|[Hs' Ht]]; [lia|].
      destruct (last_split xs (length xs - 1)) as (ys & x & -> & Ly); [lia|]. rewrite length_app in *. simpl length in *.
      replace (length ys + 1)%nat with (S (length ys)) in * by lia.
      pose proof (proj1 (limbs_at_app _ _ _ _) Hx) as [Hys [[Hxl Hxc] _]%limbs_at_cons].
      replace (rp + Z.of_nat (S (length ys)) - 1) with (rp + Z.of_nat (length ys)) by lia.
      rewrite (bind_done _ _ _ _ _ (load_ok _ _ _ Hxc)).
      rewrite (bind_done _ _ _ _ _ (store_ok _ _ _ ltac:(eauto))), write_after by done.
      assert (x < 2 ^ shift) as Hxs.
      { apply (last_limb_bits ys x shift); [apply Hys|unfold limb in *; lia|lia|]. rewrite V.
        replace (64 * Z.of_nat (length ys) + shift) with t by lia. apply HWb. }
      destruct (shift_parts d shift Hdl ltac:(lia)) as (Ed & El & Hr & Hl).
      assert (Z.lor x (lshl d shift) = lshl d shift + x) as Elor by (rewrite Z.lor_comm, El; apply lor_multiple; unfold limb in *; lia).
      rewrite Elor. set (y := lshl d shift + x) in *.
      assert (value ys + B ^ Z.of_nat (length ys) * (y + B * lshr d (64 - shift)) = W j) as VW.
      { rewrite HW, <- V, value_app. replace t with (64 * Z.of_nat (length ys) + shift) by lia.
        rewrite Z.pow_add_r, pow2_64 by lia. simpl value. unfold y.
        assert (B ^ Z.of_nat (length ys) * (d * 2 ^ shift) = B ^ Z.of_nat (length ys) * (lshr d (64 - shift) * B + lshl d shift)) by (by rewrite Ed). lia. }
      assert (limb y) as Hyl.
      { unfold y. rewrite El. unfold limb in *. pose proof (Z.mod_pos_bound d (2 ^ (64 - shift)) ltac:(apply Z.pow_pos_nonneg; lia)).
        assert (B = 2 ^ (64 - shift) * 2 ^ shift) as HB by (rewrite <- Z.pow_add_r by lia; by replace (64 - shift + shift) with 64 by lia).
        assert ((d mod 2 ^ (64 - shift) + 1) * 2 ^ shift ≤ 2 ^ (64 - shift) * 2 ^ shift) by (apply Z.mul_le_mono_nonneg_r; lia).
        assert (0 ≤ d mod 2 ^ (64 - shift) * 2 ^ shift) by (apply Z.mul_nonneg_nonneg; lia). lia. }
      assert (Forall limb (ys ++ [y])) as Hyy by (apply Forall_app; split; [apply Hys|by constructor]).
      assert (length (ys ++ [y]) = S (length ys)) as Lyy by (rewrite length_app; simpl; lia).
      assert (shift + bits ≤ 64 → lshr d (64 - shift) = 0) as Hno.
      { intros Hle. unfold lshr. rewrite Z.shiftr_div_pow2 by lia. apply Z.div_small. split; [lia|].
        apply Z.lt_le_trans with (2 ^ bits); [lia|]. apply Z.pow_le_mono_r; lia. }
      change GMP_LIMB_BITS with 64. destruct (Z.leb_spec 64 (shift + bits)) as [H64|H64].
      * destruct (Z.ltb_spec 0 (shift + bits - 64)) as [Hpos|Hpos].
        -- replace (bits - (shift + bits - 64)) with (64 - shift) by lia.
           assert (is_Some (cells (write m rp (ys ++ [y])) !! (rp + Z.of_nat (S (length ys))))) as Hc
             by (apply (writable_write m rp (ys ++ [y]) rp room Hw); lia).
           rewrite (bind_done _ _ _ _ _ (store_ok _ _ (lshr d (64 - shift)) Hc)).
           replace (Z.of_nat (S (length ys))) with (Z.of_nat (length (ys ++ [y]))) by lia. rewrite write_write.
           replace (Z.of_nat (length (ys ++ [y])) + 1) with (Z.of_nat (length ((ys ++ [y]) ++ [lshr d (64 - shift)]))) by (rewrite (length_app (ys ++ [y])); simpl; lia).
           apply Hnext; rewrite ?(length_app (ys ++ [y])), ?Lyy; simpl length; [| |rewrite <- app_assoc, value_app; simpl value; lia|right; lia].
           ++ apply limbs_at_write, Forall_app. split; [done|]. constructor; [|done]. unfold limb. split; [lia|].
              apply Z.lt_le_trans with (2 ^ shift); [lia|]. change B with (2 ^ 64). apply Z.pow_le_mono_r; lia.
           ++ lia.
        -- replace (Z.of_nat (S (length ys))) with (Z.of_nat (length (ys ++ [y]))) by lia. apply Hnext; rewrite ?Lyy; [by apply limbs_at_write|lia| |left; lia].
           rewrite value_app. simpl value. rewrite Hno in VW by lia. lia.
      * replace (Z.of_nat (S (length ys))) with (Z.of_nat (length (ys ++ [y]))) by lia. apply Hnext; rewrite ?Lyy; [by apply limbs_at_write|lia| |right; lia].
        rewrite value_app. simpl value. rewrite Hno in VW by lia. lia.
Qed.
End set_bits.

(** The call leaves the limbs [rs] at [rp], of which the first [rn], the number
    returned, stand for [V]; the highest is not 0 unless [V] is 0. *)
Definition sets (k : M mem Z) (m : mem) (rp : Z) (room : nat) (V : Z) : Prop :=
  ∃ rs rn, k m = Done (Z.of_nat rn) (write m rp rs) ∧ Forall limb rs ∧ (rn ≤ length rs ≤ room)%nat ∧
    value (take rn rs) = V ∧ (V ≠ 0 → normalized (take rn rs)).

(** The same with what is known of the highest limb. *)
Definition sets_top (k : M mem Z) (m : mem) (rp : Z) (room : nat) (V : Z) (P : list Z → Prop) : Prop :=
  ∃ rs rn, k m = Done (Z.of_nat rn) (write m rp rs) ∧ Forall limb rs ∧ (rn ≤ length rs ≤ room)%nat ∧ value (take rn rs) = V ∧ P (take rn rs).

Lemma sets_of_top k m rp room V P : (∀ xs, value xs = V → V ≠ 0 → P xs → normalized xs) → sets_top k m rp room V P → sets k m rp room V.
Proof. intros HP (rs & rn & E & Hrs & Hl & HV & Hp). exists rs, rn. split_and!; try done; try lia. intros Hne. by apply HP. Qed.

Lemma set_str_bits_top m rp sp bits room :
  1 ≤ bits ≤ 8 → Forall (digit (2 ^ bits)) sp → bits * Z.of_nat (length sp) ≤ 64 * Z.of_nat room → writable m rp room →
  sets_top (mpn_set_str_bits rp sp (Z.of_nat (length sp)) bits) m rp room (digits_value (2 ^ bits) sp) normalized.
Proof.
  intros Hb Hsp Hroom Hw. unfold mpn_set_str_bits. rewrite Nat2Z.id.
  destruct (set_str_bits_loop_spec rp sp bits room Hb Hsp Hroom (length sp) m 0 []) as (rs & E & Hrs & Hlen & V); try done.
  - by rewrite drop_all.
  - left. rewrite Nat.sub_diag. simpl. lia.
  - unfold sets_top. rewrite (bind_done _ _ _ _ _ E).
    destruct (mpn_normalized_size_spec (write m rp rs) rp rs) as (k & En & Hk & Vk & Nk); [by apply limbs_at_write|].
    rewrite En. exists rs, k. split_and!; try done; try lia.
Qed.

Lemma mpn_set_str_bits_spec m rp sp bits room :
  1 ≤ bits ≤ 8 → Forall (digit (2 ^ bits)) sp → bits * Z.of_nat (length sp) ≤ 64 * Z.of_nat room → writable m rp room →
  sets (mpn_set_str_bits rp sp (Z.of_nat (length sp)) bits) m rp room (digits_value (2 ^ bits) sp).
Proof. intros. eapply sets_of_top; [|by apply set_str_bits_top]. done. Qed.

(** ** Other bases *)

Section base_info.
Context (b : Z).

Lemma base_info_loop_spec n : ∀ exp p,
  2 ≤ b < B → 1 ≤ exp → exp + Z.of_nat n ≤ 65 → p = b ^ exp → limb p → B ≤ p * 2 ^ Z.of_nat (pred n) → (0 < n)%nat →
  ∃ e, base_info_loop b (GMP_LIMB_MAX / b) exp p n = Ok (Mk_base_info e (b ^ e)) ∧ 1 ≤ e < 65 ∧ b ^ e < B ≤ b ^ (e + 1).
Proof.
  induction n as [|n IH]; intros exp p Hb He Hn Ep Hp Hbig Hpos; [lia|]. cbn [base_info_loop].
  pose proof (Z.mul_div_le GMP_LIMB_MAX b ltac:(lia)) as H1. pose proof (Z.mul_succ_div_gt GMP_LIMB_MAX b ltac:(lia)) as H2.
  assert (GMP_LIMB_MAX = B - 1) as HM by done. destruct (Z.leb_spec p (GMP_LIMB_MAX / b)) as [Hle|Hgt].
  - assert (0 ≤ p * b < B) as Hpb.
    { unfold limb in Hp. split; [apply Z.mul_nonneg_nonneg; lia|].
      assert (b * p ≤ b * (GMP_LIMB_MAX / b)) by (apply Z.mul_le_mono_nonneg_l; lia). lia. }
    assert (p * b = b ^ (exp + 1)) as Epb by (rewrite Ep, Z.pow_add_r by lia; lia).
    destruct n as [|n]; [simpl in Hbig; unfold limb in Hp; lia|].
    unfold lmul. rewrite u64_small by done. rewrite u32_small by (unfold UINT_MOD; lia).
    apply IH; [done|lia|lia|done|done| |lia]. simpl pred in *. rewrite Nat2Z.inj_succ, Z.pow_succ_r in Hbig by lia.
    assert (p * 2 ^ Z.of_nat n * 2 ≤ p * 2 ^ Z.of_nat n * b); [|lia].
    apply Z.mul_le_mono_nonneg_l; [|lia]. unfold limb in Hp. apply Z.mul_nonneg_nonneg; lia.
  - exists exp. rewrite <- Ep. split_and!; [done|lia|lia|unfold limb in Hp; lia|].
    rewrite Z.pow_add_r, <- Ep, Z.pow_1_r by lia.
    assert (b * Z.succ (GMP_LIMB_MAX / b) ≤ b * p) by (apply Z.mul_le_mono_nonneg_l; lia). lia.
Qed.

(** The largest power of the base that fits a limb. *)
Lemma mpn_get_base_info_spec :
  2 ≤ b < B → ∃ e, mpn_get_base_info b = Ok (Mk_base_info e (b ^ e)) ∧ 1 ≤ e < 65 ∧ b ^ e < B ≤ b ^ (e + 1).
Proof.
  intros Hb. unfold mpn_get_base_info. rewrite (proj2 (Z.eqb_neq b 0)) by lia. cbn [negb defined mbind res_bind].
  apply (base_info_loop_spec 64); [done|lia|lia|by rewrite Z.pow_1_r|unfold limb; lia| |lia].
  simpl pred. change (2 ^ Z.of_nat 63) with GMP_LIMB_HIGHBIT. unfold GMP_LIMB_HIGHBIT, B in *. lia.
Qed.
End base_info.

Section set_other.
Context (rp : Z) (sp : list Z) (b e : Z) (room : nat).
Hypothesis Hb : 2 ≤ b.
Hypothesis Hsp : Forall (digit b) sp.

Lemma read_digits_spec n : ∀ m j w,
  (j + n ≤ length sp)%nat → 0 ≤ w → (w + 1) * b ^ Z.of_nat n ≤ B →
  read_digits sp b (Z.of_nat j) w n m = Done (w * b ^ Z.of_nat n + digits_value b (take n (drop j sp)), Z.of_nat (j + n)) m.
Proof.
  induction n as [|n IH]; intros m j w Hj Hw Hlt.
  - unfold digits_value. rewrite Nat.add_0_r, take_0. simpl. unfold mret, M_ret. f_equal. f_equal. lia.
  - destruct (lookup_lt_is_Some_2 sp j) as [d Hd]; [lia|]. cbn [read_digits].
    rewrite (bind_done _ _ _ _ _ (char_at_ok sp j d m Hd)).
    assert (0 ≤ d < b) as Hdd by (eapply Forall_lookup_1 in Hsp; [exact Hsp|exact Hd]).
    rewrite Nat2Z.inj_succ, Z.pow_succ_r in * by lia. pose proof (Z.pow_pos_nonneg b (Z.of_nat n) ltac:(lia) ltac:(lia)) as Hp.
    assert ((w * b + d + 1) * b ^ Z.of_nat n ≤ B) as Hlt'.
    { assert ((w * b + d + 1) * b ^ Z.of_nat n ≤ ((w + 1) * b) * b ^ Z.of_nat n) by (apply Z.mul_le_mono_nonneg_r; lia). lia. }
    assert (0 ≤ w * b) as Hwb by (apply Z.mul_nonneg_nonneg; lia).
    assert (ladd (lmul w b) d = w * b + d) as ->.
    { unfold ladd, lmul. rewrite u64_add. apply u64_small. change SIZE_MOD with B.
      assert ((w * b + d + 1) * 1 ≤ (w * b + d + 1) * b ^ Z.of_nat n) by (apply Z.mul_le_mono_nonneg_l; lia). lia. }
    replace (Z.of_nat j + 1) with (Z.of_nat (S j)) by lia. rewrite IH by lia.
    rewrite (drop_S sp d j) by done. cbn [take]. rewrite digits_cons, length_take, length_drop, Nat.min_l by lia.
    f_equal. f_equal; [ring|lia].
Qed.

(** A group of [k] digits. *)
Lemma read_chunk m j k :
  (0 < k)%nat → (j + k ≤ length sp)%nat → b ^ Z.of_nat k ≤ B →
  ∃ d, char_at sp (Z.of_nat j) m = Done d m ∧
    read_digits sp b (Z.of_nat j + 1) d (pred k) m = Done (digits_value b (take k (drop j sp)), Z.of_nat (j + k)) m.
Proof.
  intros Hk Hj Hfit. destruct (lookup_lt_is_Some_2 sp j) as [d Hd]; [lia|]. exists d. split; [by apply char_at_ok|].
  assert (0 ≤ d < b) as Hdd by (eapply Forall_lookup_1 in Hsp; [exact Hsp|exact Hd]).
  destruct k as [|k]; [lia|]. simpl pred. rewrite Nat2Z.inj_succ, Z.pow_succ_r in Hfit by lia.
  replace (Z.of_nat j + 1) with (Z.of_nat (S j)) by lia. rewrite read_digits_spec; [|lia|lia|].
  - rewrite (drop_S sp d j) by done. cbn [take]. rewrite digits_cons, length_take, length_drop, Nat.min_l by lia. f_equal. f_equal. lia.
  - pose proof (Z.pow_pos_nonneg b (Z.of_nat k) ltac:(lia) ltac:(lia)).
    assert ((d + 1) * b ^ Z.of_nat k ≤ b * b ^ Z.of_nat k) by (apply Z.mul_le_mono_nonneg_r; lia). lia.
Qed.

(** One turn: the number so far times [b ^ e] plus the next digits. *)
Lemma set_other_turn m xs w :
  (0 < length xs)%nat → 0 ≤ e → 0 < b ^ e < B → limbs_at m rp xs → 0 ≤ w < b ^ e →
  let rn := Z.of_nat (length xs) in
  ∃ c1 c2 rs1 rs2, mpn_mul_1 rp rp rn (b ^ e) m = Done c1 (write m rp rs1) ∧
    mpn_add_1 rp rp rn w (write m rp rs1) = Done c2 (write m rp rs2) ∧ Forall limb rs2 ∧ length rs2 = length xs ∧
    limb (ladd c1 c2) ∧ value rs2 + B ^ rn * ladd c1 c2 = value xs * b ^ e + w.
Proof.
  intros Hn He Hbe Hx Hw rn. pose proof (value_bounds _ (proj1 Hx)) as Hbx. pose proof (pow_pos (length xs)) as HP.
  destruct (mpn_mul_1_spec m rp rp xs (b ^ e)) as (c1 & rs1 & E1 & Hrs1 & L1 & Hc1 & V1); try done;
    [unfold limb; lia|by apply writable_limbs|left; lia|].
  destruct (mpn_add_1_spec (write m rp rs1) rp rp rs1 w) as (c2 & rs2 & E2 & Hrs2 & L2 & Hc2 & V2);
    [unfold limb; lia|lia|by apply limbs_at_write|apply writable_limbs; by apply limbs_at_write|left; lia|].
  rewrite L1 in *. rewrite write_over in E2 by lia. fold rn in E1, E2, V1, V2, Hbx, HP.
  pose proof (value_bounds _ Hrs2) as Hb2. rewrite L2 in Hb2. fold rn in Hb2.
  assert (c1 + c2 < B) as Hcy.
  { apply (Z.mul_lt_mono_pos_l (B ^ rn)); [lia|].
    assert (value xs * b ^ e ≤ (B ^ rn - 1) * b ^ e) by (apply Z.mul_le_mono_nonneg_r; lia).
    assert (B ^ rn * b ^ e ≤ B ^ rn * (B - 1)) by (apply Z.mul_le_mono_nonneg_l; lia). lia. }
  unfold limb in Hc1, Hc2. assert (ladd c1 c2 = c1 + c2) as Ec by (apply u64_small; change SIZE_MOD with B; lia).
  exists c1, c2, rs1, rs2. rewrite Ec. split_and!; try done; try (unfold limb; lia).
Qed.

Definition top_nonzero (xs : list Z) : Prop := length xs = 1%nat ∨ normalized xs.

Lemma digits_prefix j : digits_value b (take j sp) ≤ digits_value b sp ∧ 0 ≤ digits_value b (take j sp).
Proof.
  rewrite <- (take_drop j sp) at 2. rewrite digits_app.
  pose proof (digits_bounds b (take j sp) ltac:(lia) ltac:(by apply Forall_take)).
  pose proof (digits_bounds b (drop j sp) ltac:(lia) ltac:(by apply Forall_drop)).
  pose proof (Z.pow_pos_nonneg b (Z.of_nat (length (drop j sp)))).
  split; [|lia]. nia.
Qed.

Lemma set_str_other_loop_spec :
  1 ≤ e → b ^ e < B → digits_value b sp < B ^ Z.of_nat room →
  ∀ n m j xs, limbs_at m rp xs → (0 < length xs)%nat → (length xs ≤ room)%nat → writable m rp room → top_nonzero xs →
  (j ≤ length sp)%nat → value xs = digits_value b (take j sp) →
  (∃ r, (r ≤ n)%nat ∧ Z.of_nat (length sp - j) = Z.of_nat r * e) →
  ∃ rs, set_str_other_loop rp sp (Z.of_nat (length sp)) b (Mk_base_info e (b ^ e)) (Z.of_nat j) (Z.of_nat (length xs)) n m =
      Done (Z.of_nat (length sp), Z.of_nat (length rs)) (write m rp rs) ∧
    Forall limb rs ∧ (length xs ≤ length rs ≤ room)%nat ∧ top_nonzero rs ∧ value rs = digits_value b sp.
Proof.
  intros He Hbe Hroom. induction n as [|n IH]; intros m j xs Hx Hn Hlr Hw Htop Hj V (r & Hr & Er).
  - assert (j = length sp) as -> by lia. exists xs. cbn [set_str_other_loop].
    rewrite (proj2 (Z.ltb_ge _ _)), write_same, take_ge in * by (lia || done). split_and!; try done. apply Hx.
  - cbn [set_str_other_loop]. destruct (Z.ltb_spec (Z.of_nat j) (Z.of_nat (length sp))) as [Hlt|Hge].
    2:{ assert (j = length sp) as -> by lia. exists xs. rewrite write_same, take_ge in * by (lia || done). split_and!; try done. apply Hx. }
    destruct r as [|r]; [lia|]. set (k := Z.to_nat e).
    assert (e = Z.of_nat k) as Ek by lia. assert (j + k ≤ length sp)%nat as Hjk by nia.
    destruct (read_chunk m j k) as (d & Ec & Erd); [lia|lia|rewrite <- Ek; lia|].
    rewrite (bind_done _ _ _ _ _ Ec). cbn [bi_exp bi_bb]. replace (Z.to_nat (e - 1)) with (pred k) by lia.
    rewrite (bind_done _ _ _ _ _ Erd). set (w := digits_value b (take k (drop j sp))).
    assert (length (take k (drop j sp)) = k) as Lk by (rewrite length_take, length_drop; lia).
    assert (0 ≤ w < b ^ e) as Hwb.
    { pose proof (digits_bounds b (take k (drop j sp)) ltac:(lia) ltac:(by apply Forall_take, Forall_drop)) as H. by rewrite Lk, <- Ek in H. }
    pose proof (Z.pow_pos_nonneg b e ltac:(lia) ltac:(lia)) as Hbp.
    destruct (set_other_turn m xs w) as (c1 & c2 & rs1 & rs2 & E1 & E2 & Hrs2 & L2 & Hcl & V2); try done; [lia|].
    rewrite (bind_done _ _ _ _ _ E1), (bind_done _ _ _ _ _ E2).
    assert (value xs * b ^ e + w = digits_value b (take (j + k) sp)) as Vn.
    { rewrite <- take_take_drop, digits_app, Lk, <- Ek, <- V. done. }
    rewrite Vn in V2. set (cy := ladd c1 c2) in *. clearbody cy w. destruct (digits_prefix (j + k)) as [Hpre Hpre0].
    assert (∀ ys, limbs_at (write m rp ys) rp ys → (length xs ≤ length ys ≤ room)%nat → top_nonzero ys → value ys = digits_value b (take (j + k) sp) →
      ∃ rs, set_str_other_loop rp sp (Z.of_nat (length sp)) b (Mk_base_info e (b ^ e)) (Z.of_nat (j + k)) (Z.of_nat (length ys)) n (write m rp ys) =
          Done (Z.of_nat (length sp), Z.of_nat (length rs)) (write m rp rs) ∧
        Forall limb rs ∧ (length xs ≤ length rs ≤ room)%nat ∧ top_nonzero rs ∧ value rs = digits_value b sp) as Hnext.
    { intros ys Hys Hl Ht Vy. destruct (IH (write m rp ys) (j + k)%nat ys) as (rs & E & Hrs & Hlen & Htr & Vr); try done; try lia.
      - by apply writable_write.
      - exists r. split; [lia|]. rewrite Nat2Z.inj_succ in Er. lia.
      - exists rs. rewrite E, write_over by lia. split_and!; try done; lia. }
    pose proof (value_bounds _ Hrs2) as Hb2. rewrite L2 in Hb2. pose proof (pow_pos (length xs)) as HP. unfold limb in Hcl.
    destruct (Z.ltb_spec 0 cy) as [Hcy|Hcy].
    + assert (length xs < room)%nat as Hlt'.
      { apply Nat2Z.inj_lt, (Z.pow_lt_mono_r_iff B); [done|lia|].
        assert (B ^ Z.of_nat (length xs) * 1 ≤ B ^ Z.of_nat (length xs) * cy) by (apply Z.mul_le_mono_nonneg_l; lia). lia. }
      rewrite (bind_done _ _ _ _ _ (store_next m rp rs2 (length xs) cy L2 (Hw _ Hlt'))).
      replace (Z.of_nat (length xs) + 1) with (Z.of_nat (length (rs2 ++ [cy]))) by (rewrite length_app; simpl; lia).
      apply Hnext; rewrite ?length_app; simpl length; [|lia| |].
      * apply limbs_at_write, Forall_app. split; [done|]. by constructor.
      * right. unfold normalized. rewrite last_snoc. intros [= ->]. lia.
      * rewrite value_app, L2. simpl value. lia.
    + assert (cy = 0) as -> by lia. replace (Z.of_nat (length xs)) with (Z.of_nat (length rs2)) by lia. apply Hnext; rewrite ?L2; [by apply limbs_at_write|lia| |lia].
      destruct Htop as [H1|Htop]; [left; lia|right].
      apply normalized_ge; [done|lia|]. apply normalized_ge in Htop; [|apply Hx|done]. rewrite L2.
      assert (value xs * 1 ≤ value xs * b ^ e) by (apply Z.mul_le_mono_nonneg_l; [pose proof (value_bounds _ (proj1 Hx))|]; lia). lia.
Qed.
End set_other.

(** One limb, or a highest limb that is not 0. *)
Definition one_or_normalized (xs : list Z) : Prop := length xs = 1%nat ∨ (0 < length xs)%nat ∧ normalized xs.

Lemma set_str_other_top m rp sp b e room :
  2 ≤ b → Forall (digit b) sp → 1 ≤ e → b ^ e < B → (0 < length sp)%nat → (0 < room)%nat → writable m rp room →
  digits_value b sp < B ^ Z.of_nat room →
  sets_top (mpn_set_str_other rp sp (Z.of_nat (length sp)) b (Mk_base_info e (b ^ e))) m rp room (digits_value b sp) one_or_normalized.
Proof.
  intros Hb Hsp He Hbe Hn Hroom Hw Hfit. unfold mpn_set_str_other, sets_top. rewrite lift_assert_bind by (apply Z.ltb_lt; lia).
  cbn [bi_exp]. pose proof (Z.mod_pos_bound (Z.of_nat (length sp) - 1) e ltac:(lia)) as Hm.
  pose proof (Z.div_mod (Z.of_nat (length sp) - 1) e ltac:(lia)) as Hdm.
  pose proof (Z.div_pos (Z.of_nat (length sp) - 1) e ltac:(lia) ltac:(lia)) as Hq.
  set (k := Z.to_nat (1 + (Z.of_nat (length sp) - 1) mod e)).
  assert (0 ≤ e * ((Z.of_nat (length sp) - 1) / e)) as Hqe by (apply Z.mul_nonneg_nonneg; lia).
  assert (0 < k ≤ length sp)%nat as Hk by lia.
  assert (b ^ Z.of_nat k ≤ b ^ e) as Hbk by (apply Z.pow_le_mono_r; lia).
  destruct (read_chunk sp b Hb Hsp m 0 k) as (d & Ec & Er); [lia|lia|lia|]. simpl Z.of_nat in Ec, Er. rewrite drop_0 in Er.
  rewrite (bind_done _ _ _ _ _ Ec). replace (Z.to_nat (1 + (Z.of_nat (length sp) - 1) mod e - 1)) with (pred k) by lia.
  change 1 with (0 + 1) at 1. rewrite (bind_done _ _ _ _ _ Er).
  set (w := digits_value b (take k sp)) in *.
  assert (limb w) as Hwl.
  { pose proof (digits_bounds b (take k sp) ltac:(lia) ltac:(by apply Forall_take)) as H. rewrite length_take, Nat.min_l in H by lia.
    fold w in H. unfold limb. lia. }
  assert (is_Some (cells m !! rp)) as Hc by (specialize (Hw O ltac:(lia)); by rewrite Z.add_0_r in Hw).
  rewrite (bind_done _ _ _ _ _ (store_ok _ _ w Hc)).
  destruct (set_str_other_loop_spec rp sp b e room Hb Hsp He Hbe Hfit (Z.to_nat (Z.of_nat (length sp))) (write m rp [w]) k [w])
    as (rs & E & Hrs & Hlen & Htop & V).
  - apply limbs_at_write. by constructor.
  - simpl. lia.
  - simpl. lia.
  - by apply writable_write.
  - by left.
  - lia.
  - simpl value. unfold w. lia.
  - exists (Z.to_nat ((Z.of_nat (length sp) - 1) / e)). split; [|lia]. nia.
  - change (0 + Z.of_nat 1) with 1 in *. simpl length in *. simpl (Z.of_nat 1) in E. simpl (0 + k)%nat. rewrite (bind_done _ _ _ _ _ E), write_over by (simpl; lia).
    rewrite lift_assert_bind by apply Z.eqb_refl. exists rs, (length rs). rewrite take_ge by lia.
    split_and!; try done; try lia. destruct Htop as [H1|?]; [by left|right; split; [lia|done]].
Qed.

Lemma mpn_set_str_other_spec m rp sp b e room :
  2 ≤ b → Forall (digit b) sp → 1 ≤ e → b ^ e < B → (0 < length sp)%nat → (0 < room)%nat → writable m rp room →
  digits_value b sp < B ^ Z.of_nat room →
  sets (mpn_set_str_other rp sp (Z.of_nat (length sp)) b (Mk_base_info e (b ^ e))) m rp room (digits_value b sp).
Proof.
  intros. eapply sets_of_top; [|by apply set_str_other_top]. intros xs HV Hne [Hone|[_ ?]]; [|done]. destruct xs as [|x [|]]; try done.
  unfold normalized. intros [= ->]. simpl in HV. lia.
Qed.

(** The number of limbs that the digits need. *)
Definition digit_room (base sn : Z) (V : Z) (room : nat) : Prop :=
  if negb (mpn_base_power_of_two_p base =? 0) then mpn_base_power_of_two_p base * sn ≤ 64 * Z.of_nat room
  else (0 < room)%nat ∧ V < B ^ Z.of_nat room.

Lemma base_pow2 base : mpn_base_power_of_two_p base ≠ 0 → 1 ≤ mpn_base_power_of_two_p base ≤ 8 ∧ base = 2 ^ mpn_base_power_of_two_p base.
Proof.
  unfold mpn_base_power_of_two_p.
  repeat match goal with |- context [base =? ?y] => destruct (Z.eqb_spec base y) as [->|_]; [intros _; split; [lia|reflexivity]|] end.
  done.
Qed.

Lemma mpn_set_str_spec m rp sp base room :
  2 ≤ base ≤ 256 → Forall (digit base) sp → writable m rp room →
  digit_room base (Z.of_nat (length sp)) (digits_value base sp) room →
  sets (mpn_set_str rp sp (Z.of_nat (length sp)) base) m rp room (digits_value base sp).
Proof.
  intros Hb Hsp Hw Hroom. unfold mpn_set_str, digit_room in *. destruct (Z.eqb_spec (Z.of_nat (length sp)) 0) as [H0|H0].
  { destruct sp; [|simpl in H0; lia]. exists [], O. rewrite write_nil. by split_and!; try lia. }
  destruct (Z.eqb_spec (mpn_base_power_of_two_p base) 0) as [Hp|Hp]; simpl in *.
  - destruct Hroom as [Hr0 Hr]. destruct (mpn_get_base_info_spec base) as (e & E & He & Hbe); [unfold B; lia|].
    unfold sets. rewrite E, lift_ok_bind. apply mpn_set_str_other_spec; try done; lia.
  - destruct (base_pow2 base Hp) as [Hbits Eb]. rewrite Eb at 2. apply mpn_set_str_bits_spec; try done. by rewrite <- Eb.
Qed.

(** ** Property *)

(** mpn_set_str computes the number that a string of digits stands for, in
    every base from 2 to 256: it returns the number of limbs, the limbs at [rp]
    have the value of the digits, the highest is not 0 (unless the number is
    0), nothing else changes, and neither the arithmetic on limbs overflows nor
    does an access leave the arrays. *)
Theorem mpn_set_str_exact m rp sp base room :
  2 ≤ base ≤ 256 → Forall (digit base) sp → writable m rp room →
  digit_room base (Z.of_nat (length sp)) (digits_value base sp) room →
  sets (mpn_set_str rp sp (Z.of_nat (length sp)) base) m rp room (digits_value base sp).
Proof. apply mpn_set_str_spec. Qed.

Lemma mpn_set_str_exact_witness :
  sets (mpn_set_str 0 [9; 8; 7; 6; 5; 4; 3; 2; 1; 0; 9; 8; 7; 6; 5; 4; 3; 2; 1; 0; 5; 5] 22 10) (mem_of [None; None]) 0 2
    (digits_value 10 [9; 8; 7; 6; 5; 4; 3; 2; 1; 0; 9; 8; 7; 6; 5; 4; 3; 2; 1; 0; 5; 5]).
Proof.
  apply (mpn_set_str_exact (mem_of [None; None]) 0 [9; 8; 7; 6; 5; 4; 3; 2; 1; 0; 9; 8; 7; 6; 5; 4; 3; 2; 1; 0; 5; 5] 10 2).
  - lia.
  - repeat (constructor; [unfold digit; lia|]). constructor.
  - concrete_writable.
  - split; [lia|reflexivity].
Defined.
