(* ===== verification/MpnGetStr.v ===== *)
(** * From limbs to digits: the proof of mpn_get_str *)

From S2P Require Import Prelude Limbs Mpn Invert MpnDiv MpnDivN MpnStr MpnSetStr.

(** ** The output buffer *)

(** The buffer after writing [ds] from position [p] on. *)
Definition fill (cs : list (option Z)) (p : nat) (ds : list Z) : list (option Z) :=
  take p cs ++ (Some <$> ds) ++ drop (p + length ds) cs.

Lemma fill_nil cs p : fill cs p [] = cs.
Proof. unfold fill. simpl. rewrite Nat.add_0_r. apply take_drop. Qed.

Lemma length_fill cs p ds : (p + length ds ≤ length cs)%nat → length (fill cs p ds) = length cs.
Proof. intros. unfold fill. rewrite !length_app, length_take, length_drop, length_fmap. lia. Qed.

Lemma lookup_fill cs p ds k :
  (p + length ds ≤ length cs)%nat →
  fill cs p ds !! k = if decide (p ≤ k < p + length ds)%nat then Some <$> ds !! (k - p)%nat else cs !! k.
Proof.
  intros Hl. unfold fill. destruct (decide _) as [Hk|Hk].
  - rewrite lookup_app_r, length_take, Nat.min_l by (rewrite ?length_take; lia).
    rewrite lookup_app_l by (rewrite length_fmap; lia). by rewrite list_lookup_fmap.
  - destruct (decide (k < p)%nat).
    + rewrite lookup_app_l by (rewrite length_take; lia). by rewrite lookup_take_lt by lia.
    + rewrite !lookup_app_r, length_take, length_fmap, lookup_drop by (rewrite ?length_take, ?length_fmap; lia). f_equal. lia.
Qed.

Lemma fill_insert cs p ds i d :
  (p + length ds ≤ length cs)%nat → (i < length ds)%nat → <[(p + i)%nat := Some d]> (fill cs p ds) = fill cs p (<[i := d]> ds).
Proof.
  intros Hl Hi. apply list_eq. intros k. rewrite lookup_fill by (rewrite length_insert; lia). rewrite length_insert.
  destruct (decide (k = p + i)%nat) as [->|Hne].
  - rewrite list_lookup_insert_eq by (rewrite length_fill; lia). rewrite decide_True by lia.
    replace (p + i - p)%nat with i by lia. by rewrite list_lookup_insert_eq.
  - rewrite list_lookup_insert_ne, lookup_fill by lia. case_decide; [|done]. by rewrite list_lookup_insert_ne by lia.
Qed.

Lemma fill_snoc cs p ds d :
  (p + length ds < length cs)%nat → <[(p + length ds)%nat := Some d]> (fill cs p ds) = fill cs p (ds ++ [d]).
Proof.
  intros Hl. apply list_eq. intros k. rewrite lookup_fill, length_app by (rewrite length_app; simpl; lia). simpl length.
  destruct (decide (k = p + length ds)%nat) as [->|Hne].
  - rewrite list_lookup_insert_eq by (rewrite length_fill; lia). rewrite decide_True, lookup_app_r by lia.
    by replace (p + length ds - p - length ds)%nat with O by lia.
  - rewrite list_lookup_insert_ne, lookup_fill by lia. repeat case_decide; try lia; [|done]. by rewrite lookup_app_l by lia.
Qed.

Lemma fill_cons cs p ds d :
  (S p + length ds ≤ length cs)%nat → <[p := Some d]> (fill cs (S p) ds) = fill cs p (d :: ds).
Proof.
  intros Hl. apply list_eq. intros k. rewrite lookup_fill by (simpl; lia). cbn [length].
  destruct (decide (k = p)) as [->|Hne].
  - rewrite list_lookup_insert_eq by (rewrite length_fill; lia). rewrite decide_True by lia. by rewrite Nat.sub_diag.
  - rewrite list_lookup_insert_ne, lookup_fill by lia. repeat case_decide; try lia; [|done].
    by replace (k - p)%nat with (S (k - S p)) by lia.
Qed.

Lemma put_char_ok m cs j c : (j < length cs)%nat → put_char (Z.of_nat j) c (Mk_strmem m cs) = Done tt (Mk_strmem m (<[j := Some c]> cs)).
Proof.
  intros Hj. unfold put_char, arr_set. simpl. rewrite (proj2 (Z.leb_le _ _)), (proj2 (Z.ltb_lt _ _)), Nat2Z.id by lia. done.
Qed.

Lemma get_char_ok m cs j c : cs !! j = Some (Some c) → get_char (Z.of_nat j) (Mk_strmem m cs) = Done c (Mk_strmem m cs).
Proof. intros Hj. unfold get_char, arr_get. simpl. by rewrite (proj2 (Z.leb_le _ _)), Nat2Z.id, Hj by lia. Qed.

Lemma limbsM_ok {A} (k : M mem A) m cs a m' : k m = Done a m' → limbsM k (Mk_strmem m cs) = Done a (Mk_strmem m' cs).
Proof. intros H. unfold limbsM, zoom. simpl. by rewrite H. Qed.

(** ** Bases that are powers of two *)

(** One digit: [y] are the bits left of a limb, [x] the next limb. *)
Lemma mask_digit y bits : 1 ≤ bits ≤ 8 → Z.land (u8 y) (2 ^ bits - 1) = y mod 2 ^ bits.
Proof.
  intros Hb. replace (2 ^ bits - 1) with (Z.ones bits) by (rewrite Z.ones_equiv; lia). rewrite Z.land_ones by lia. unfold u8.
  change 256 with (2 ^ 8). replace (2 ^ 8) with (2 ^ bits * 2 ^ (8 - bits)) by (rewrite <- Z.pow_add_r by lia; f_equal; lia).
  pose proof (Z.pow_pos_nonneg 2 bits). pose proof (Z.pow_pos_nonneg 2 (8 - bits)).
  rewrite Z.rem_mul_r, Z.mul_comm, Z.mod_add, Z.mod_mod by lia. done.
Qed.

Lemma limb_split shift : 0 ≤ shift ≤ 64 → B = 2 ^ (64 - shift) * 2 ^ shift ∧ 0 < 2 ^ (64 - shift) ∧ 0 < 2 ^ shift.
Proof.
  intros. split_and!; try (apply Z.pow_pos_nonneg; lia). rewrite <- Z.pow_add_r by lia. by replace (64 - shift + shift) with 64 by lia.
Qed.

Lemma digit_inside x rest shift bits :
  0 ≤ shift → 0 ≤ bits → shift + bits ≤ 64 → ((x + B * rest) / 2 ^ shift) mod 2 ^ bits = (x / 2 ^ shift) mod 2 ^ bits.
Proof.
  intros Hs Hb Hle. destruct (limb_split shift) as (HB & _ & Hp); [lia|]. rewrite HB.
  replace (x + 2 ^ (64 - shift) * 2 ^ shift * rest) with (x + 2 ^ (64 - shift) * rest * 2 ^ shift) by ring. rewrite Z.div_add by lia.
  replace (2 ^ (64 - shift)) with (2 ^ (64 - shift - bits) * 2 ^ bits) by (rewrite <- Z.pow_add_r by lia; f_equal; lia).
  replace (2 ^ (64 - shift - bits) * 2 ^ bits * rest) with (2 ^ (64 - shift - bits) * rest * 2 ^ bits) by ring.
  apply Z.mod_add. pose proof (Z.pow_pos_nonneg 2 bits). lia.
Qed.

Lemma digit_across x x' rest shift bits :
  limb x → limb x' → 1 ≤ bits ≤ 8 → 0 ≤ shift < 64 → 64 ≤ shift + bits →
  Z.land (Z.lor (u8 (lshr x shift)) (u8 (lshl x' (64 - shift)))) (2 ^ bits - 1) =
  ((x + B * (x' + B * rest)) / 2 ^ shift) mod 2 ^ bits.
Proof.
  intros Hx Hx' Hb Hs Hle. destruct (limb_split shift) as (HB & Hp' & Hp); [lia|].
  assert (0 ≤ lshr x shift < 2 ^ (64 - shift)) as Hy.
  { unfold lshr. rewrite Z.shiftr_div_pow2 by lia. unfold limb in *. split; [apply Z.div_pos; lia|apply Z.div_lt_upper_bound; lia]. }
  assert (2 ^ (64 - shift) ≤ 2 ^ bits ≤ 2 ^ 8) as Hpb by (split; apply Z.pow_le_mono_r; lia). change (2 ^ 8) with 256 in Hpb.
  assert (u8 (lshr x shift) = lshr x shift) as -> by (apply Z.mod_small; lia).
  assert (u8 (lshl x' (64 - shift)) = ((x' mod 2 ^ (8 - (64 - shift))) * 2 ^ (64 - shift))) as ->.
  { unfold u8, lshl, u64. rewrite Z.shiftl_mul_pow2 by lia.
    rewrite Z.mod_mod_divide by (by exists (2 ^ 56)).
    change 256 with (2 ^ 8). replace (2 ^ 8) with (2 ^ (8 - (64 - shift)) * 2 ^ (64 - shift)) by (rewrite <- Z.pow_add_r by lia; f_equal; lia).
    rewrite Z.mul_mod_distr_r; [done|pose proof (Z.pow_pos_nonneg 2 (8 - (64 - shift)))|]; lia. }
  rewrite Z.lor_comm, lor_multiple by lia.
  set (z := _ * 2 ^ (64 - shift) + lshr x shift). assert (Z.land z (2 ^ bits - 1) = z mod 2 ^ bits) as ->.
  { replace (2 ^ bits - 1) with (Z.ones bits) by (rewrite Z.ones_equiv; lia). by rewrite Z.land_ones by lia. }
  assert ((x + B * (x' + B * rest)) / 2 ^ shift = lshr x shift + 2 ^ (64 - shift) * (x' + B * rest)) as ->.
  { rewrite HB at 1. unfold lshr. rewrite Z.shiftr_div_pow2 by lia.
    replace (x + 2 ^ (64 - shift) * 2 ^ shift * (x' + B * rest)) with (x + 2 ^ (64 - shift) * (x' + B * rest) * 2 ^ shift) by ring.
    by rewrite Z.div_add by lia. }
  set (k := bits - (64 - shift)). assert (2 ^ bits = 2 ^ (64 - shift) * 2 ^ k) as Ebits by (rewrite <- Z.pow_add_r by lia; f_equal; lia).
  pose proof (Z.pow_pos_nonneg 2 k ltac:(lia) ltac:(lia)) as Hk.
  assert (2 ^ (8 - (64 - shift)) = 2 ^ (8 - bits) * 2 ^ k) as E8 by (rewrite <- Z.pow_add_r by lia; f_equal; lia).
  pose proof (Z.div_mod x' (2 ^ (8 - (64 - shift))) ltac:(pose proof (Z.pow_pos_nonneg 2 (8 - (64 - shift))); lia)) as Hdm.
  assert (B = 2 ^ (64 - k) * 2 ^ k) as HBk by (apply limb_split; lia).
  unfold z. symmetry. set (q8 := x' / _) in *. set (r8 := x' mod _) in *. rewrite Hdm, E8, HBk, Ebits.
  replace (lshr x shift + 2 ^ (64 - shift) * (2 ^ (8 - bits) * 2 ^ k * q8 + r8 + 2 ^ (64 - k) * 2 ^ k * rest))
    with (r8 * 2 ^ (64 - shift) + lshr x shift + (2 ^ (8 - bits) * q8 + 2 ^ (64 - k) * rest) * (2 ^ (64 - shift) * 2 ^ k)) by ring.
  apply Z.mod_add. lia.
Qed.

(** A number from its limb [i] on. *)
Lemma value_from xs i x : xs !! i = Some x → Forall limb xs → value xs / 2 ^ (64 * Z.of_nat i) = x + B * value (drop (S i) xs).
Proof.
  intros Hi Hx. rewrite pow2_64. pose proof (lookup_lt_Some _ _ _ Hi).
  rewrite (value_split i xs) by lia. rewrite (drop_S xs x i) by done. cbn [value].
  pose proof (value_bounds (take i xs) ltac:(by apply Forall_take)) as Hb. rewrite length_take, Nat.min_l in Hb by lia.
  pose proof (pow_pos i). rewrite Z.mul_comm, Z.div_add by lia. rewrite Z.div_small by done. lia.
Qed.

Lemma mod_pow2_step V t bits : 0 ≤ t → 0 ≤ bits → V mod 2 ^ (t + bits) = ((V / 2 ^ t) mod 2 ^ bits) * 2 ^ t + V mod 2 ^ t.
Proof.
  intros. rewrite Z.pow_add_r, Z.rem_mul_r by lia || (pose proof (Z.pow_pos_nonneg 2 t); pose proof (Z.pow_pos_nonneg 2 bits); lia). lia.
Qed.

Section get_bits.
Context (m : mem) (up : Z) (xs : list Z) (bits : Z) (sp sn : nat) (cs : list (option Z)).
Local Abbreviation un := (Z.of_nat (length xs)).

(** The digit at bit [64 * i + shift]; the position moves on by [bits], unless
    the limbs end. *)
Lemma next_digit_spec cs' i shift :
  1 ≤ bits ≤ 8 → limbs_at m up xs → (i < length xs)%nat → 0 ≤ shift < 64 →
  ∃ d i' s', next_digit bits up un (Z.of_nat i) shift (Mk_strmem m cs') = Done (d, i', s') (Mk_strmem m cs') ∧
    Z.land d (2 ^ bits - 1) = (value xs / 2 ^ (64 * Z.of_nat i + shift)) mod 2 ^ bits ∧
    (64 * Z.of_nat i + shift + bits < 64 * un →
     ∃ k, i' = Z.of_nat k ∧ (k < length xs)%nat ∧ 0 ≤ s' < 64 ∧ 64 * i' + s' = 64 * Z.of_nat i + shift + bits).
Proof.
  intros Hb Hx Hi Hs. destruct (lookup_lt_is_Some_2 xs i Hi) as [x Hxi]. unfold next_digit. change GMP_LIMB_BITS with 64.
  assert (limb x) as Hxl by (eapply Forall_lookup_1; [apply Hx|done]).
  rewrite (bind_done _ _ _ _ _ (limbsM_ok _ _ cs' _ _ (load_limbs _ _ _ _ _ Hx Hxi))).
  rewrite (proj2 (Z.ltb_lt shift 64)) by lia. cbn [defined]. rewrite lift_ok_bind.
  rewrite Z.pow_add_r, <- Z.div_div by (try apply Z.pow_nonzero; try apply Z.pow_pos_nonneg; lia). rewrite (value_from xs i x) by (done || apply Hx).
  assert (shift + bits ≤ 64 ∨ drop (S i) xs = [] → Z.land (u8 (lshr x shift)) (2 ^ bits - 1) =
    ((x + B * value (drop (S i) xs)) / 2 ^ shift) mod 2 ^ bits) as Hin.
  { intros Hc. rewrite mask_digit by done. unfold lshr. rewrite Z.shiftr_div_pow2 by lia. destruct Hc as [Hc| ->].
    - symmetry. apply digit_inside; lia.
    - simpl value. by rewrite Z.mul_0_r, Z.add_0_r. }
  destruct (Z.leb_spec 64 (shift + bits)) as [H64|H64].
  - destruct (Z.ltb_spec (Z.of_nat i + 1) un) as [Hlt|Hge].
    + destruct (lookup_lt_is_Some_2 xs (S i)) as [x' Hx']; [lia|]. replace (Z.of_nat i + 1) with (Z.of_nat (S i)) by lia.
      rewrite (bind_done _ _ _ _ _ (limbsM_ok _ _ cs' _ _ (load_limbs _ _ _ _ _ Hx Hx'))).
      eexists _, _, _. split; [done|]. replace (bits - (shift + bits - 64)) with (64 - shift) by lia. split.
      * rewrite (drop_S xs x' (S i)) by done. cbn [value]. apply digit_across; try done. eapply Forall_lookup_1; [apply Hx|done].
      * intros _. exists (S i). split_and!; try done; lia.
    + eexists _, _, _. split; [done|]. split; [apply Hin; right; apply drop_ge; lia|]. lia.
  - eexists _, _, _. split; [done|]. split; [apply Hin; lia|]. intros _. exists i. split_and!; try done; lia.
Qed.

Lemma get_str_bits_loop_spec :
  1 ≤ bits ≤ 8 → limbs_at m up xs → (sp + sn ≤ length cs)%nat → bits * (Z.of_nat sn - 1) < 64 * un →
  ∀ j ds i shift, (j ≤ sn)%nat → length ds = (sn - j)%nat → Forall (digit (2 ^ bits)) ds →
  digits_value (2 ^ bits) ds = value xs mod 2 ^ (bits * Z.of_nat (sn - j)) →
  ((0 < j)%nat → ∃ k, i = Z.of_nat k ∧ (k < length xs)%nat ∧ 0 ≤ shift < 64 ∧ 64 * i + shift = bits * Z.of_nat (sn - j)) →
  ∃ ds', get_str_bits_loop (Z.of_nat sp) bits up un j i shift (Mk_strmem m (fill cs (sp + j) ds)) = Done tt (Mk_strmem m (fill cs sp ds')) ∧
    length ds' = sn ∧ Forall (digit (2 ^ bits)) ds' ∧ digits_value (2 ^ bits) ds' = value xs mod 2 ^ (bits * Z.of_nat sn).
Proof.
  intros Hb Hx Hroom Hsn. induction j as [|j IH]; intros ds i shift Hj Ld Hds V Hpos.
  - exists ds. rewrite Nat.add_0_r, Nat.sub_0_r in *. done.
  - destruct Hpos as (k & -> & Hk & Hs & Epos); [lia|]. cbn [get_str_bits_loop].
    destruct (next_digit_spec (fill cs (sp + S j) ds) k shift Hb Hx Hk Hs) as (d & i' & s' & E & Ed & Hnext).
    rewrite (bind_done _ _ _ _ _ E), Ed, Epos. set (t := bits * Z.of_nat (sn - S j)) in *.
    assert (0 ≤ t) as Ht by (apply Z.mul_nonneg_nonneg; lia).
    assert (bits * Z.of_nat (sn - j) = t + bits) as Et by (unfold t; replace (Z.of_nat (sn - j)) with (Z.of_nat (sn - S j) + 1) by lia; ring).
    set (d' := (value xs / 2 ^ t) mod 2 ^ bits).
    assert (digit (2 ^ bits) d') as Hd' by (apply Z.mod_pos_bound, Z.pow_pos_nonneg; lia).
    replace (Z.of_nat sp + Z.of_nat j) with (Z.of_nat (sp + j)) by lia.
    rewrite (bind_done _ _ _ _ _ (put_char_ok m (fill cs (sp + S j) ds) (sp + j) d' ltac:(rewrite length_fill; lia))).
    replace (sp + S j)%nat with (S (sp + j)) by lia. rewrite fill_cons by lia.
    apply IH; [lia|simpl; lia|by constructor| |].
    + rewrite Et, mod_pow2_step, digits_cons, V, Ld, <- Z.pow_mul_r by lia. done.
    + intros Hj0. rewrite Et. rewrite Epos in Hnext. apply Hnext.
      assert (t + bits ≤ bits * (Z.of_nat sn - 1)) by (rewrite <- Et; apply Z.mul_le_mono_nonneg_l; lia). lia.
Qed.
End get_bits.

(** The call returns the number of digits, which are at [sp]: they stand for
    [V] in base [b], without leading zeros. *)
Definition prints (k : M strmem Z) (m : mem) (cs : list (option Z)) (sp : nat) (b V : Z) (P : mem → Prop) : Prop :=
  ∃ ds m', k (Mk_strmem m cs) = Done (Z.of_nat (length ds)) (Mk_strmem m' (fill cs sp ds)) ∧
    (sp + length ds ≤ length cs)%nat ∧ Forall (digit b) ds ∧ digits_value b ds = V ∧ head ds ≠ Some 0 ∧ P m'.

Lemma head_nonzero b ds :
  0 < b → Forall (digit b) ds → b ^ (Z.of_nat (length ds) - 1) ≤ digits_value b ds → (0 < length ds)%nat → head ds ≠ Some 0.
Proof.
  intros Hb Hds Hge Hl. destruct ds as [|d ds]; [simpl in Hl; lia|]. intros [= ->]. inversion_clear Hds as [|?? _ Hds'].
  pose proof (digits_bounds b ds Hb Hds') as Hbd. rewrite digits_cons in Hge. cbn [length] in Hge.
  replace (Z.of_nat (S (length ds)) - 1) with (Z.of_nat (length ds)) in Hge by lia. lia.
Qed.

(** The size of a limb in bits. *)
Lemma limb_size_spec u : 0 < u < B → ∃ s, mpn_limb_size_in_base_2 u = Ok s ∧ 0 < s ≤ 64 ∧ 2 ^ (s - 1) ≤ u < 2 ^ s.
Proof.
  intros Hu. unfold mpn_limb_size_in_base_2, assertion. rewrite (proj2 (Z.ltb_lt _ _)) by lia. cbn [mbind res_bind].
  destruct (gmp_clz_spec u Hu) as (c & -> & Hc & Hn). cbn [mbind res_bind]. exists (64 - c). split_and!; [done|lia|lia| |].
  - apply (Z.mul_le_mono_pos_r _ _ (2 ^ c)); [apply Z.pow_pos_nonneg; lia|]. rewrite <- Z.pow_add_r by lia. replace (64 - c - 1 + c) with 63 by lia. lia.
  - apply (Z.mul_lt_mono_pos_r (2 ^ c)); [apply Z.pow_pos_nonneg; lia|]. rewrite <- Z.pow_add_r by lia. replace (64 - c + c) with 64 by lia. lia.
Qed.

Lemma mpn_get_str_bits_spec m up lo x bits sp room cs :
  let xs := lo ++ [x] in
  1 ≤ bits ≤ 8 → limbs_at m up xs → 0 < x → value xs < (2 ^ bits) ^ Z.of_nat room → (sp + room ≤ length cs)%nat →
  prints (mpn_get_str_bits (Z.of_nat sp) bits up (Z.of_nat (length xs))) m cs sp (2 ^ bits) (value xs) (λ m', m' = m).
Proof.
  intros xs Hb Hx Hx0 Hfit Hroom. unfold mpn_get_str_bits.
  assert (length xs = S (length lo)) as Lxs by (unfold xs; rewrite length_app; simpl; lia).
  pose proof (proj1 (limbs_at_app _ _ _ _) Hx) as [[Hlo _] [[Hxl Hxc] _]%limbs_at_cons].
  replace (up + Z.of_nat (length xs) - 1) with (up + Z.of_nat (length lo)) by lia. unfold prints.
  rewrite (bind_done _ _ _ _ _ (limbsM_ok _ _ cs _ _ (load_ok _ _ _ Hxc))).
  destruct (limb_size_spec x) as (size & -> & Hs & Hsx); [unfold limb in *; lia|]. rewrite lift_ok_bind. change GMP_LIMB_BITS with 64.
  set (L := (Z.of_nat (length xs) - 1) * 64 + size).
  assert (2 ^ (L - 1) ≤ value xs < 2 ^ L) as HL.
  { assert (L - 1 = 64 * Z.of_nat (length lo) + (size - 1)) as -> by lia. assert (L = 64 * Z.of_nat (length lo) + size) as -> by lia.
    rewrite !Z.pow_add_r, pow2_64 by lia. unfold xs. rewrite value_app. simpl value.
    pose proof (value_bounds _ Hlo). pose proof (pow_pos (length lo)). set (P := B ^ Z.of_nat (length lo)) in *. nia. }
  set (sn := (L + bits - 1) / bits).
  pose proof (Z.div_mod (L + bits - 1) bits ltac:(lia)) as Hdm. pose proof (Z.mod_pos_bound (L + bits - 1) bits ltac:(lia)) as Hmb. fold sn in Hdm.
  assert (0 < sn) as Hsn by nia.
  assert (2 ^ (bits * (sn - 1)) ≤ value xs) as Hmin.
  { apply Z.le_trans with (2 ^ (L - 1)); [|lia]. apply Z.pow_le_mono_r; [lia|]. lia. }
  assert (sn - 1 < Z.of_nat room) as Hsr.
  { apply (Z.mul_lt_mono_pos_l bits); [lia|]. apply (Z.pow_lt_mono_r_iff 2); [lia|lia|]. rewrite (Z.pow_mul_r 2 bits (Z.of_nat room)) by lia. lia. }
  destruct (get_str_bits_loop_spec m up xs bits sp (Z.to_nat sn) cs Hb Hx ltac:(lia) ltac:(lia) (Z.to_nat sn) [] 0 0)
    as (ds & E & Lds & Hds & V); try done.
  - simpl. lia.
  - rewrite Nat.sub_diag. simpl. rewrite Z.mul_0_r. by rewrite Z.mod_1_r.
  - intros _. exists O. rewrite Nat.sub_diag. split_and!; try done; lia.
  - rewrite fill_nil in E. rewrite (bind_done _ _ _ _ _ E). rewrite Z2Nat.id in V by lia.
    rewrite Z.mod_small in V.
    2:{ split; [lia|]. apply Z.lt_le_trans with (2 ^ L); [lia|]. apply Z.pow_le_mono_r; lia. }
    exists ds, m. rewrite Lds, Z2Nat.id by lia. split_and!; try done; [lia|].
    apply (head_nonzero (2 ^ bits)); [apply Z.pow_pos_nonneg; lia|done| |lia]. rewrite Lds, V, Z2Nat.id, <- Z.pow_mul_r by lia. done.
Qed.

(** ** Other bases *)

(** Digits in the order they are produced, lowest first. *)
Definition le_value (b : Z) (ds : list Z) : Z := digits_value b (reverse ds).

Lemma le_cons b d ds : le_value b (d :: ds) = d + b * le_value b ds.
Proof. unfold le_value. rewrite reverse_cons, digits_snoc. lia. Qed.

Lemma le_app b xs ys : le_value b (xs ++ ys) = le_value b xs + b ^ Z.of_nat (length xs) * le_value b ys.
Proof. unfold le_value. rewrite reverse_app, digits_app, length_reverse. lia. Qed.

Lemma le_zeros b n : le_value b (replicate n 0) = 0.
Proof. induction n as [|n IH]; [done|]. simpl replicate. rewrite le_cons, IH. lia. Qed.

(** The inverse of a base that is not a power of two. *)
Definition base_inverse (b : Z) (inv : gmp_div_inverse) : Prop :=
  ∃ s, inv = Mk_inv s (b * 2 ^ s) None (inverse_2by1 (b * 2 ^ s)) ∧ 0 < s < 64 ∧ GMP_LIMB_HIGHBIT ≤ b * 2 ^ s < B.

Section limb_digits.
Context (b : Z) (binv : gmp_div_inverse) (m : mem) (cs : list (option Z)).

(** One digit of a limb. *)
Lemma limb_digit w :
  2 ≤ b ≤ 256 → base_inverse b binv → 0 < w < B →
  let '(q, r) := gmp_udiv_qrnnd_preinv (lshr w (64 - shift binv)) (lshl w (shift binv)) (d1 binv) (di binv) in
  q = w / b ∧ (lshl r (64 - shift binv) =? 0) = true ∧ u8 (lshr r (shift binv)) = w mod b ∧ (0 <? shift binv) = true.
Proof.
  intros Hb (s & -> & Hs & Hn) Hw. cbn [shift d1 di].
  destruct (shift_parts w s ltac:(unfold limb; lia) Hs) as (E & _ & Hr & Hl). pose proof (pow2_limb s ltac:(lia)) as Hp.
  pose proof (udiv_qrnnd_preinv_spec (lshr w (64 - s)) (lshl w s) (b * 2 ^ s) Hn ltac:(lia) Hl) as H.
  destruct (gmp_udiv_qrnnd_preinv _ _ _ _) as [q r]. destruct H as (Ed & Hr' & Hq). rewrite <- E in Ed.
  destruct (unshift_remainder w q b s r) as (Ew & Hrho & Er); [lia|lia|done|done|].
  assert (lshr r s = r / 2 ^ s) as Els by (unfold lshr; rewrite Z.shiftr_div_pow2 by lia; done).
  split_and!.
  - apply (Z.div_unique_pos _ _ _ (r / 2 ^ s)); lia.
  - apply Z.eqb_eq. unfold lshl, u64. rewrite Z.shiftl_mul_pow2 by lia. change SIZE_MOD with B.
    destruct (limb_split s) as (HB & _); [lia|]. rewrite Er, <- Z.mul_assoc, (Z.mul_comm (2 ^ s)), <- HB. by apply Z.mod_mul.
  - rewrite Els. unfold u8. rewrite Z.mod_small by lia. apply (Z.mod_unique_pos _ _ q); lia.
  - apply Z.ltb_lt. lia.
Qed.

Lemma limb_get_str_loop_spec n : ∀ sp i w ds room,
  2 ≤ b ≤ 256 → base_inverse b binv → 0 ≤ w < B → w < 2 ^ Z.of_nat n → length ds = i → w < b ^ Z.of_nat room → (sp + i + room ≤ length cs)%nat →
  ∃ ds', limb_get_str_loop (Z.of_nat sp) w binv (Z.of_nat i) n (Mk_strmem m (fill cs sp ds)) =
      Done (Z.of_nat (i + length ds')) (Mk_strmem m (fill cs sp (ds ++ ds'))) ∧
    (length ds' ≤ room)%nat ∧ Forall (digit b) ds' ∧ le_value b ds' = w ∧ (w = 0 → ds' = []) ∧
    (0 < w → b ^ (Z.of_nat (length ds') - 1) ≤ w ∧ (0 < length ds')%nat).
Proof.
  induction n as [|n IH]; intros sp i w ds room Hb Hinv Hw Hf Ld Hroom Hcs.
  - assert (w = 0) as -> by (simpl in Hf; lia). exists []. rewrite app_nil_r, Nat.add_0_r. split_and!; try done; simpl; lia.
  - cbn [limb_get_str_loop]. destruct (Z.ltb_spec 0 w) as [Hw0|Hw0].
    2:{ assert (w = 0) as -> by lia. exists []. rewrite app_nil_r, Nat.add_0_r. split_and!; try done; simpl; lia. }
    pose proof (limb_digit w Hb Hinv ltac:(lia)) as H. change GMP_LIMB_BITS with 64.
    destruct (gmp_udiv_qrnnd_preinv _ _ _ _) as [q r]. destruct H as (-> & Hz & -> & Hsh). rewrite Hsh, Hz. cbn [defined assertion]. rewrite !lift_ok_bind.
    pose proof (Z.div_mod w b ltac:(lia)) as Hdm. pose proof (Z.mod_pos_bound w b ltac:(lia)) as Hm.
    destruct room as [|room]; [simpl in Hroom; lia|]. rewrite !Nat2Z.inj_succ, !Z.pow_succ_r in * by lia.
    replace (Z.of_nat sp + Z.of_nat i) with (Z.of_nat (sp + i)) by lia.
    rewrite (bind_done _ _ _ _ _ (put_char_ok m (fill cs sp ds) (sp + i) (w mod b) ltac:(rewrite length_fill; lia))).
    rewrite <- Ld, fill_snoc, Ld by lia. replace (Z.of_nat i + 1) with (Z.of_nat (S i)) by lia.
    destruct (IH sp (S i) (w / b) (ds ++ [w mod b]) room) as (ds' & E & Hl & Hds & V & Hnil & Hmin); try done.
    + split; [apply Z.div_pos; lia|]. apply Z.div_lt_upper_bound; unfold B in *; lia.
    + apply Z.div_lt_upper_bound; [lia|]. assert (2 * 2 ^ Z.of_nat n ≤ b * 2 ^ Z.of_nat n) by (apply Z.mul_le_mono_nonneg_r; lia). lia.
    + rewrite length_app. simpl. lia.
    + apply Z.div_lt_upper_bound; lia.
    + lia.
    + exists (w mod b :: ds'). rewrite E, <- app_assoc. simpl length. replace (S i + length ds')%nat with (i + S (length ds'))%nat by lia.
      split_and!; try done; [lia|by constructor|rewrite le_cons; lia|lia|]. intros _. split; [|lia].
      replace (Z.of_nat (S (length ds')) - 1) with (Z.of_nat (length ds')) by lia.
      destruct (Z.eq_dec (w / b) 0) as [H0|H0].
      * rewrite (Hnil H0). simpl. lia.
      * destruct Hmin as [Hmin Hlen]; [pose proof (Z.div_pos w b); lia|].
        replace (Z.of_nat (length ds')) with (Z.succ (Z.of_nat (length ds') - 1)) by lia. rewrite Z.pow_succ_r by lia.
        assert (b * b ^ (Z.of_nat (length ds') - 1) ≤ b * (w / b)) by (apply Z.mul_le_mono_nonneg_l; lia). lia.
Qed.
End limb_digits.

Lemma fill_fill cs p ds es : (p + length ds + length es ≤ length cs)%nat → fill (fill cs p ds) (p + length ds) es = fill cs p (ds ++ es).
Proof.
  intros Hl. apply list_eq. intros k. rewrite !lookup_fill by (rewrite ?length_fill, ?length_app; lia). rewrite length_app.
  repeat case_decide; try lia; [|by rewrite lookup_app_l by lia|done].
  rewrite lookup_app_r by lia. f_equal. f_equal. lia.
Qed.

Lemma pad_zeros_spec m cs sp n : ∀ ds,
  (sp + length ds + n ≤ length cs)%nat →
  pad_zeros (Z.of_nat sp) (Z.of_nat (length ds)) n (Mk_strmem m (fill cs sp ds)) =
    Done (Z.of_nat (length ds + n)) (Mk_strmem m (fill cs sp (ds ++ replicate n 0))).
Proof.
  induction n as [|n IH]; intros ds Hl; cbn [pad_zeros replicate].
  - by rewrite app_nil_r, Nat.add_0_r.
  - replace (Z.of_nat sp + Z.of_nat (length ds)) with (Z.of_nat (sp + length ds)) by lia.
    rewrite (bind_done _ _ _ _ _ (put_char_ok m (fill cs sp ds) (sp + length ds) 0 ltac:(rewrite length_fill; lia))), fill_snoc by lia.
    replace (Z.of_nat (length ds) + 1) with (Z.of_nat (length (ds ++ [0]))) by (rewrite length_app; simpl; lia).
    rewrite IH by (rewrite length_app; simpl; lia). rewrite <- app_assoc, length_app. simpl. f_equal. lia.
Qed.

(** Only [n] cells from [p] on differ. *)
Definition only_changes (p n : Z) (m m' : mem) : Prop :=
  blocks m' = blocks m ∧ next m ≤ next m' ∧ ∀ a, ¬ (p ≤ a < p + n) → cells m' !! a = cells m !! a.

Lemma only_changes_refl p n m : only_changes p n m m.
Proof. split; [done|]. split; [lia|done]. Qed.
Lemma only_changes_trans p n n' m1 m2 m3 : n' ≤ n → only_changes p n m1 m2 → only_changes p n' m2 m3 → only_changes p n m1 m3.
Proof. intros Hn (Hb1 & Hn1 & Hc1) (Hb2 & Hn2 & Hc2). split; [congruence|]. split; [lia|]. intros a Ha. rewrite Hc2 by lia. by apply Hc1. Qed.
Lemma only_changes_write m m' p xs : after_temp (write m p xs) m' → only_changes p (Z.of_nat (length xs)) m m'.
Proof.
  intros (k & Hk & ->). split; [done|]. split; [simpl; lia|]. intros a Ha. simpl. rewrite lookup_write_cells.
  by guard_false ((p <=? a) && (a <? p + Z.of_nat (length xs))).
Qed.

(** The quotient by [bb] with its high zero limb dropped. *)
Lemma quotient_normalized xs qs bb w :
  Forall limb xs → Forall limb qs → length qs = length xs → (2 ≤ length xs)%nat → normalized xs → 2 ≤ bb < B →
  value xs = value qs * bb + w → 0 ≤ w < bb →
  B ^ Z.of_nat (length xs - 2) ≤ value qs ∧ 2 * value qs ≤ value xs.
Proof.
  intros Hx Hq Lq Hn Hnorm Hbb E Hw. apply normalized_ge in Hnorm; [|done|lia]. pose proof (value_bounds _ Hq) as Hb. split.
  - apply Z.lt_succ_r, (Z.mul_lt_mono_pos_r bb); [lia|].
    replace (pred (length xs)) with (S (length xs - 2)) in Hnorm by lia. rewrite pow_S in Hnorm.
    pose proof (pow_pos (length xs - 2)). assert (bb * B ^ Z.of_nat (length xs - 2) < B * B ^ Z.of_nat (length xs - 2)) by (apply Z.mul_lt_mono_pos_r; lia). lia.
  - assert (value qs * 2 ≤ value qs * bb) by (apply Z.mul_le_mono_nonneg_l; lia). lia.
Qed.

Section other.
Context (b e : Z) (binv : gmp_div_inverse) (s : Z) (up : Z) (sp room : nat) (cs : list (option Z)).
Local Abbreviation bb := (b ^ e).
Local Abbreviation info := (Mk_base_info e bb).
Local Abbreviation bbinv := (Mk_inv s (bb * 2 ^ s) None (inverse_2by1 (bb * 2 ^ s))).

(** What the loops rely on. *)
Definition other_ready : Prop :=
  2 ≤ b ≤ 256 ∧ base_inverse b binv ∧ 1 ≤ e ∧ bb < B ∧ 0 ≤ s < 64 ∧ GMP_LIMB_HIGHBIT ≤ bb * 2 ^ s < B ∧ (sp + room ≤ length cs)%nat.

(** The [e] digits of one remainder. *)
Lemma chunk_digits m w ds :
  other_ready → 0 ≤ w < bb → (length ds + Z.to_nat e ≤ room)%nat →
  ∃ dg, mpn_limb_get_str (Z.of_nat sp + Z.of_nat (length ds)) w binv (Mk_strmem m (fill cs sp ds)) =
      Done (Z.of_nat (length dg)) (Mk_strmem m (fill cs sp (ds ++ dg))) ∧
    pad_zeros (Z.of_nat sp) (Z.of_nat (length ds) + Z.of_nat (length dg)) (Z.to_nat (e - Z.of_nat (length dg)))
      (Mk_strmem m (fill cs sp (ds ++ dg))) =
      Done (Z.of_nat (length ds + Z.to_nat e)) (Mk_strmem m (fill cs sp (ds ++ dg ++ replicate (Z.to_nat e - length dg) 0))) ∧
    (length dg ≤ Z.to_nat e)%nat ∧ Forall (digit b) dg ∧ le_value b dg = w.
Proof.
  intros (Hb & Hinv & He & Hbb & Hs & Hn & Hroom) Hw Hl.
  destruct (limb_get_str_loop_spec b binv m (fill cs sp ds) 64 (sp + length ds) 0 w [] (Z.to_nat e)) as (dg & E & Ldg & Hdg & V & _); try done.
  - lia.
  - change (2 ^ Z.of_nat 64) with B. lia.
  - rewrite Z2Nat.id by lia. apply Hw.
  - rewrite length_fill by lia. lia.
  - cbn [app] in E. rewrite fill_nil, fill_fill in E by lia. exists dg. unfold mpn_limb_get_str.
    replace (Z.of_nat sp + Z.of_nat (length ds)) with (Z.of_nat (sp + length ds)) by lia. split_and!; try done.
    rewrite <- Nat2Z.inj_add, <- length_app. replace (Z.to_nat (e - Z.of_nat (length dg))) with (Z.to_nat e - length dg)%nat by lia.
    rewrite pad_zeros_spec by (rewrite length_app; lia). rewrite length_app, <- app_assoc. f_equal. lia.
Qed.

(** One turn on the limbs: the remainder, and the limbs of the quotient
    without a high zero limb. *)
Lemma split_off m xs :
  other_ready → mem_wf m → limbs_at m up xs → (2 ≤ length xs)%nat → Z.of_nat (length xs) ≤ alloc_limit → normalized xs →
  ∃ w x xs' m', mpn_div_qr_1_preinv (Some up) up (Z.of_nat (length xs)) bbinv m = Done w m' ∧
    load (up + Z.of_nat (length xs) - 1) m' = Done x m' ∧
    Z.of_nat (length xs) - b2l (x =? 0) = Z.of_nat (length xs') ∧ (0 < length xs' ≤ length xs)%nat ∧
    limbs_at m' up xs' ∧ normalized xs' ∧ mem_wf m' ∧ only_changes up (Z.of_nat (length xs)) m m' ∧
    value xs = value xs' * bb + w ∧ 0 ≤ w < bb ∧ 0 < value xs' ∧ 2 * value xs' ≤ value xs.
Proof.
  intros (Hb & Hinv & He & Hbb & Hs & Hn & Hroom) Hwf Hx Hl Hlim Hnorm.
  assert (2 ≤ bb) as Hbb2. { assert (b ^ 1 ≤ b ^ e) by (apply Z.pow_le_mono_r; lia). lia. }
  destruct (mpn_div_qr_1_preinv_spec m (Some up) up xs bb s) as (w & qs & m' & E & Ha & Hqs & Lqs & V & Hw); try done; try lia.
  { by apply writable_limbs. }
  { left. lia. }
  simpl in Ha. destruct (quotient_normalized xs qs bb w) as [Hmin Hhalf]; try done; [apply Hx|]. pose proof (pow_pos (length xs - 2)) as HP.
  assert (mem_wf m') as Hwf'.
  { eapply after_temp_wf; [exact Ha|]. apply mem_wf_write; [done|]. rewrite Lqs. by apply writable_limbs. }
  assert (only_changes up (Z.of_nat (length xs)) m m') as Hoc by (rewrite <- Lqs; by apply only_changes_write).
  assert (limbs_at m' up qs) as Hq by (destruct Ha as (k & _ & ->); by apply limbs_at_write).
  destruct (last_split qs (length xs - 1)) as (lo & x & -> & Llo); [lia|].
  assert (load (up + Z.of_nat (length xs) - 1) m' = Done x m') as Eload.
  { replace (up + Z.of_nat (length xs) - 1) with (up + Z.of_nat (length lo)) by lia. apply (load_limbs _ _ _ _ _ Hq). by rewrite lookup_app_r, Nat.sub_diag by lia. }
  rewrite value_app in *. simpl (value [x]) in *. apply limbs_at_app in Hq as [Hlo Hxl].
  destruct (Z.eqb_spec x 0) as [->|Hx0].
  - exists w, 0, lo, m'. simpl b2l. split_and!; try done; try lia. apply normalized_ge; [apply Hlo|lia|].
    replace (pred (length lo)) with (length xs - 2)%nat by lia. lia.
  - exists w, x, (lo ++ [x]), m'. rewrite length_app, value_app. simpl. rewrite (proj2 (Z.eqb_neq x 0)) by done. simpl b2l.
    split_and!; try done; try lia; [by apply limbs_at_app|]. unfold normalized. rewrite last_snoc. congruence.
Qed.

Lemma get_str_other_loop_spec n : ∀ m xs ds,
  other_ready → mem_wf m → limbs_at m up xs → (2 ≤ length xs)%nat → Z.of_nat (length xs) ≤ alloc_limit → normalized xs →
  value xs < 2 ^ Z.of_nat n → Forall (digit b) ds → le_value b ds + b ^ Z.of_nat (length ds) * value xs < b ^ Z.of_nat room →
  ∃ x ds' m', get_str_other_loop (Z.of_nat sp) info binv bbinv up (Z.of_nat (length xs)) (Z.of_nat (length ds)) n (Mk_strmem m (fill cs sp ds)) =
      Done (1, Z.of_nat (length ds')) (Mk_strmem m' (fill cs sp ds')) ∧ limbs_at m' up [x] ∧ 0 < x ∧ Forall (digit b) ds' ∧
    le_value b ds + b ^ Z.of_nat (length ds) * value xs = le_value b ds' + b ^ Z.of_nat (length ds') * x ∧
    only_changes up (Z.of_nat (length xs)) m m'.
Proof.
  induction n as [|n IH]; intros m xs ds Hrdy Hwf Hx Hl Hlim Hnorm Hf Hds Hfit.
  { apply normalized_ge in Hnorm; [|apply Hx|lia]. pose proof (pow_pos (pred (length xs))). simpl in Hf. lia. }
  destruct (split_off m xs) as (w & x & xs' & m1 & E1 & E2 & Eun & Hl' & Hx' & Hnorm' & Hwf1 & Hoc & V & Hw & Hpos & Hhalf); try done.
  pose proof Hrdy as (Hb & _ & He & _). pose proof (Z.pow_pos_nonneg b (Z.of_nat (length ds)) ltac:(lia) ltac:(lia)) as Hbd.
  pose proof (digits_bounds b (reverse ds) ltac:(lia) ltac:(by apply Forall_reverse)) as Hle. fold (le_value b ds) in Hle.
  assert (b ^ Z.of_nat (length ds + Z.to_nat e) = b ^ Z.of_nat (length ds) * bb) as Epow.
  { rewrite Nat2Z.inj_add, Z2Nat.id, Z.pow_add_r by lia. done. }
  assert (length ds + Z.to_nat e ≤ room)%nat as Hlen.
  { apply Nat2Z.inj_le, Z.lt_le_incl, (Z.pow_lt_mono_r_iff b); [lia|lia|]. rewrite Epow. rewrite V in Hfit.
    assert (b ^ Z.of_nat (length ds) * (1 * bb) ≤ b ^ Z.of_nat (length ds) * (value xs' * bb)) by (apply Z.mul_le_mono_nonneg_l; [lia|]; apply Z.mul_le_mono_nonneg_r; lia).
    assert (0 ≤ b ^ Z.of_nat (length ds) * w) by (apply Z.mul_nonneg_nonneg; lia). lia. }
  destruct (chunk_digits m1 w ds Hrdy Hw Hlen) as (dg & Ed & Ep & Ldg & Hdg & Vdg).
  cbn [get_str_other_loop bi_exp].
  rewrite (bind_done _ _ _ _ _ (limbsM_ok _ _ _ _ _ E1)), (bind_done _ _ _ _ _ (limbsM_ok _ _ _ _ _ E2)), Eun.
  rewrite (bind_done _ _ _ _ _ Ed), (bind_done _ _ _ _ _ Ep).
  set (ds1 := ds ++ dg ++ replicate (Z.to_nat e - length dg) 0).
  assert (length ds1 = (length ds + Z.to_nat e)%nat) as Lds1 by (unfold ds1; rewrite !length_app, length_replicate; lia).
  assert (Forall (digit b) ds1) as Hds1.
  { unfold ds1. rewrite !Forall_app. split_and!; try done. apply Forall_replicate. unfold digit. lia. }
  assert (le_value b ds + b ^ Z.of_nat (length ds) * value xs = le_value b ds1 + b ^ Z.of_nat (length ds1) * value xs') as V1.
  { rewrite Lds1, Epow. unfold ds1. rewrite !le_app, le_zeros, Vdg, V. ring. }
  rewrite <- Lds1. destruct (Z.ltb_spec 1 (Z.of_nat (length xs'))) as [Hun|Hun].
  - destruct (IH m1 xs' ds1) as (y & ds' & m' & E & Hy & Hy0 & Hds' & V' & Hoc'); try done; try lia.
    { rewrite Nat2Z.inj_succ, Z.pow_succ_r in Hf by lia. lia. }
    exists y, ds', m'. rewrite V1, V'. split_and!; try done. eapply only_changes_trans; [|exact Hoc|exact Hoc']. lia.
  - destruct xs' as [|y [|]]; simpl length in *; [lia| |lia]. exists y, ds1, m1. simpl value in *. split_and!; try done; lia.
Qed.
End other.

(** The reversal of the digits: after [i] turns the outer [i] digits on both
    sides are exchanged. *)
Definition half_reversed (ds : list Z) (i : nat) (l : list Z) : Prop :=
  length l = length ds ∧
  ∀ k, (k < length ds)%nat → l !! k = if decide (k < i ∨ length ds - i ≤ k)%nat then ds !! (length ds - S k)%nat else ds !! k.

Lemma half_reversed_end ds i l : half_reversed ds i l → (length ds ≤ 2 * i + 1)%nat → l = reverse ds.
Proof.
  intros [Ll Hl] Hi. apply list_eq. intros k. destruct (decide (k < length ds)%nat) as [Hk|Hk].
  - rewrite Hl, reverse_lookup by done. case_decide; [done|]. f_equal. lia.
  - rewrite !lookup_ge_None_2 by (rewrite ?length_reverse; lia). done.
Qed.

Lemma half_reversed_swap ds i l t x :
  half_reversed ds i l → (2 * i + 1 < length ds)%nat → l !! i = Some t → l !! (length ds - i - 1)%nat = Some x →
  half_reversed ds (S i) (<[(length ds - i - 1)%nat := t]> (<[i := x]> l)).
Proof.
  intros [Ll Hl] Hi Ht Hx. split; [by rewrite !length_insert|]. intros k Hk.
  rewrite Hl, decide_False in Ht by lia. rewrite Hl, decide_False in Hx by lia.
  destruct (decide (k = length ds - i - 1)%nat) as [->|H1].
  - rewrite list_lookup_insert_eq by (rewrite length_insert; lia). rewrite decide_True by lia. rewrite <- Ht. f_equal. lia.
  - rewrite list_lookup_insert_ne by lia. destruct (decide (k = i)) as [->|H2].
    + rewrite list_lookup_insert_eq by lia. rewrite decide_True by lia. rewrite <- Hx. f_equal. lia.
    + rewrite list_lookup_insert_ne, Hl by lia. by repeat case_decide; try lia.
Qed.

Lemma reverse_loop_spec m cs sp ds n : ∀ i l,
  (sp + length ds ≤ length cs)%nat → half_reversed ds i l → (length ds ≤ 2 * i + 1 + n)%nat →
  reverse_loop (Z.of_nat sp) (Z.of_nat (length ds)) (Z.of_nat i) n (Mk_strmem m (fill cs sp l)) = Done tt (Mk_strmem m (fill cs sp (reverse ds))).
Proof.
  induction n as [|n IH]; intros i l Hroom Hl Hfuel; cbn [reverse_loop];
    destruct (Z.ltb_spec (2 * Z.of_nat i + 1) (Z.of_nat (length ds))) as [Hlt|Hge]; try lia;
    try (by rewrite (half_reversed_end ds i l) by (done || lia)).
  pose proof (proj1 Hl) as Ll.
  destruct (lookup_lt_is_Some_2 l i) as [t Ht]; [lia|]. destruct (lookup_lt_is_Some_2 l (length ds - i - 1)) as [x Hx]; [lia|].
  assert (∀ k v, l !! k = Some v → fill cs sp l !! (sp + k)%nat = Some (Some v)) as Hget.
  { intros k v Hk. pose proof (lookup_lt_Some _ _ _ Hk). rewrite lookup_fill, decide_True by lia. replace (sp + k - sp)%nat with k by lia. by rewrite Hk. }
  replace (Z.of_nat sp + Z.of_nat i) with (Z.of_nat (sp + i)) by lia.
  replace (Z.of_nat sp + (Z.of_nat (length ds) - Z.of_nat i - 1)) with (Z.of_nat (sp + (length ds - i - 1))) by lia.
  rewrite (bind_done _ _ _ _ _ (get_char_ok m _ _ _ (Hget _ _ Ht))), (bind_done _ _ _ _ _ (get_char_ok m _ _ _ (Hget _ _ Hx))).
  rewrite (bind_done _ _ _ _ _ (put_char_ok m (fill cs sp l) (sp + i) x ltac:(rewrite length_fill; lia))), fill_insert by lia.
  rewrite (bind_done _ _ _ _ _ (put_char_ok m (fill cs sp (<[i := x]> l)) (sp + (length ds - i - 1)) t ltac:(rewrite length_fill; rewrite ?length_insert; lia))).
  rewrite fill_insert by (rewrite length_insert; lia). replace (Z.of_nat i + 1) with (Z.of_nat (S i)) by lia.
  apply IH; [done|apply half_reversed_swap; [done|lia|done|done]|lia].
Qed.

Lemma half_reversed_start ds : half_reversed ds 0 ds.
Proof. split; [done|]. intros k Hk. by rewrite decide_False by lia. Qed.

(** The bases of the general branch. *)
Lemma base_inverse_spec b : 2 ≤ b ≤ 256 → ∃ inv, mpn_div_qr_1_invert b = Ok inv ∧ base_inverse b inv.
Proof.
  intros Hb. destruct (div_qr_1_invert_spec b) as (s & E & Hs & Hn); [unfold B; lia|]. eexists. split; [exact E|]. exists s. split_and!; try done; try lia.
  destruct (Z.eq_dec s 0) as [->|]; [|lia]. exfalso. unfold GMP_LIMB_HIGHBIT in Hn. lia.
Qed.

(** The digits of the last limb, and the reversal. *)
Lemma get_str_finish m cs b binv up x sp room ds :
  2 ≤ b ≤ 256 → base_inverse b binv → limbs_at m up [x] → 0 < x → Forall (digit b) ds → (sp + room ≤ length cs)%nat →
  le_value b ds + b ^ Z.of_nat (length ds) * x < b ^ Z.of_nat room →
  ∃ ds', (x ← limbsM (load up);
          done ← mpn_limb_get_str (Z.of_nat sp + Z.of_nat (length ds)) x binv;
          let sn := Z.of_nat (length ds) + done in
          _ ← reverse_loop (Z.of_nat sp) sn 0 (Z.to_nat sn);
          mret sn) (Mk_strmem m (fill cs sp ds)) = Done (Z.of_nat (length ds')) (Mk_strmem m (fill cs sp ds')) ∧
    (sp + length ds' ≤ length cs)%nat ∧ Forall (digit b) ds' ∧ digits_value b ds' = le_value b ds + b ^ Z.of_nat (length ds) * x ∧ head ds' ≠ Some 0.
Proof.
  intros Hb Hinv Hx Hx0 Hds Hroom Hfit. apply limbs_at_cons in Hx as [[Hxl Hxc] _].
  rewrite (bind_done _ _ _ _ _ (limbsM_ok _ _ _ _ _ (load_ok _ _ _ Hxc))).
  pose proof (digits_bounds b (reverse ds) ltac:(lia) ltac:(by apply Forall_reverse)) as Hle. fold (le_value b ds) in Hle. rewrite length_reverse in Hle.
  pose proof (Z.pow_pos_nonneg b (Z.of_nat (length ds)) ltac:(lia) ltac:(lia)) as Hbd.
  assert (length ds < room)%nat as Hlr.
  { apply Nat2Z.inj_lt, (Z.pow_lt_mono_r_iff b); [lia|lia|].
    assert (b ^ Z.of_nat (length ds) * 1 ≤ b ^ Z.of_nat (length ds) * x) by (apply Z.mul_le_mono_nonneg_l; lia). lia. }
  assert (x < b ^ Z.of_nat (room - length ds)) as Hxr.
  { apply (Z.mul_lt_mono_pos_l (b ^ Z.of_nat (length ds))); [lia|]. rewrite <- Z.pow_add_r by lia.
    replace (Z.of_nat (length ds) + Z.of_nat (room - length ds)) with (Z.of_nat room) by lia. lia. }
  destruct (limb_get_str_loop_spec b binv m (fill cs sp ds) 64 (sp + length ds) 0 x [] (room - length ds)) as (dg & E & Ldg & Hdg & V & _ & Hmin); try done.
  { unfold limb in Hxl. change (2 ^ Z.of_nat 64) with B. lia. }
  { rewrite length_fill by lia. lia. }
  cbn [app] in E. rewrite fill_nil, fill_fill in E by lia. unfold mpn_limb_get_str.
  replace (Z.of_nat sp + Z.of_nat (length ds)) with (Z.of_nat (sp + length ds)) by lia. change 0 with (Z.of_nat 0) at 1. rewrite (bind_done _ _ _ _ _ E).
  simpl (0 + length dg)%nat. cbv zeta. rewrite <- Nat2Z.inj_add, <- length_app, Nat2Z.id.
  assert (sp + length (ds ++ dg) ≤ length cs)%nat as Hl by (rewrite length_app; lia).
  change 0 with (Z.of_nat 0) at 1. rewrite (bind_done _ _ _ _ _ (reverse_loop_spec m cs sp (ds ++ dg) (length (ds ++ dg)) 0 _ Hl (half_reversed_start _) ltac:(lia))).
  assert (digits_value b (reverse (ds ++ dg)) = le_value b ds + b ^ Z.of_nat (length ds) * x) as Vall by (fold (le_value b (ds ++ dg)); rewrite le_app, V; done).
  exists (reverse (ds ++ dg)). rewrite length_reverse. split_and!; try done.
  - apply Forall_reverse, Forall_app. done.
  - destruct (Hmin Hx0) as [Hmin1 Hlen]. apply (head_nonzero b); [lia|by apply Forall_reverse, Forall_app| |rewrite length_reverse, length_app; lia].
    rewrite Vall, length_reverse, length_app. replace (Z.of_nat (length ds + length dg) - 1) with (Z.of_nat (length ds) + (Z.of_nat (length dg) - 1)) by lia.
    rewrite Z.pow_add_r by lia. assert (b ^ Z.of_nat (length ds) * b ^ (Z.of_nat (length dg) - 1) ≤ b ^ Z.of_nat (length ds) * x) by (apply Z.mul_le_mono_nonneg_l; lia). lia.
Qed.

Lemma mpn_get_str_other_spec m up xs b e sp room cs :
  2 ≤ b ≤ 256 → 1 ≤ e → b ^ e < B → mem_wf m → limbs_at m up xs → (0 < length xs)%nat → Z.of_nat (length xs) ≤ alloc_limit → normalized xs →
  value xs < b ^ Z.of_nat room → (sp + room ≤ length cs)%nat →
  prints (mpn_get_str_other (Z.of_nat sp) b (Mk_base_info e (b ^ e)) up (Z.of_nat (length xs))) m cs sp b (value xs)
    (only_changes up (Z.of_nat (length xs)) m).
Proof.
  intros Hb He Hbe Hwf Hx Hn Hlim Hnorm Hfit Hroom. unfold mpn_get_str_other, prints.
  destruct (base_inverse_spec b Hb) as (binv & -> & Hinv). rewrite lift_ok_bind. cbn [bi_bb].
  destruct (Z.ltb_spec 1 (Z.of_nat (length xs))) as [Hun|Hun].
  - assert (0 < b ^ e) as Hbp by (apply Z.pow_pos_nonneg; lia).
    destruct (div_qr_1_invert_spec (b ^ e)) as (s & -> & Hs & Hdn); [lia|].
    destruct (get_str_other_loop_spec b e binv s up sp room cs (Z.to_nat (64 * Z.of_nat (length xs))) m xs []) as (x & ds & m' & E & Hx' & Hx0 & Hds & V & Hoc); try done.
    + lia.
    + rewrite Z2Nat.id, pow2_64 by lia. apply value_bounds, Hx.
    + unfold le_value, digits_value. simpl. lia.
    + rewrite fill_nil in E. simpl length in E. rewrite (bind_done _ _ _ _ _ (eq_trans (lift_ok_bind _ _ _) E)).
      assert (value xs = le_value b ds + b ^ Z.of_nat (length ds) * x) as Vx by (rewrite <- V; unfold le_value, digits_value; simpl; lia).
      destruct (get_str_finish m' cs b binv up x sp room ds) as (ds' & Ef & Hl & Hds' & V' & Hh); try done; [lia|].
      exists ds', m'. rewrite Vx. split; [exact Ef|done].
  - destruct xs as [|x [|]]; simpl length in *; [lia| |lia]. rewrite (bind_done (S:=strmem) _ _ _ (Z.of_nat 1, 0) _ eq_refl).
    assert (0 < x) as Hx0.
    { destruct Hx as [Hxl _]. inversion_clear Hxl as [|?? Hl _]. unfold limb in Hl. destruct (Z.eq_dec x 0) as [->|]; [by destruct Hnorm|lia]. }
    destruct (get_str_finish m cs b binv up x sp room []) as (ds' & Ef & Hl & Hds' & V' & Hh); try done.
    { unfold le_value, digits_value. simpl in *. lia. }
    rewrite fill_nil in Ef. simpl length in Ef. exists ds', m. split_and!; try done. rewrite V'. unfold le_value, digits_value. simpl. lia.
Qed.

(** The limbs of a number are unique when the highest is not 0. *)
Lemma normalized_unique xs ys :
  Forall limb xs → Forall limb ys → normalized xs → normalized ys → value xs = value ys → xs = ys.
Proof.
  intros Hx Hy Nx Ny E. apply value_inj; [done|done| |done].
  assert (∀ us vs, Forall limb us → Forall limb vs → normalized us → value us = value vs → (length us ≤ length vs)%nat) as H;
    [|by apply Nat.le_antisymm; apply H].
  clear. intros us vs Hu Hv Nu E. destruct us as [|u us]; [simpl; lia|].
  apply normalized_ge in Nu; [|done|simpl; lia]. pose proof (value_bounds _ Hv) as [_ Hb]. rewrite <- E in Hb.
  assert (Z.of_nat (pred (length (u :: us))) < Z.of_nat (length vs)); [|lia]. apply (Z.pow_lt_mono_r_iff B); [done|lia|lia].
Qed.

(** The converse of [head_nonzero]: the number of digits is bounded by the value. *)
Lemma head_digits b ds : 0 < b → Forall (digit b) ds → head ds ≠ Some 0 → (0 < length ds)%nat → b ^ (Z.of_nat (length ds) - 1) ≤ digits_value b ds.
Proof.
  intros Hb Hds Hh Hl. destruct ds as [|d ds]; [simpl in Hl; lia|]. inversion_clear Hds as [|?? [Hd _] Hds'].
  pose proof (digits_bounds b ds Hb Hds') as Hbd. rewrite digits_cons. cbn [length].
  replace (Z.of_nat (S (length ds)) - 1) with (Z.of_nat (length ds)) by lia.
  assert (d ≠ 0) by (intros ->; by apply Hh). pose proof (Z.pow_pos_nonneg b (Z.of_nat (length ds)) Hb ltac:(lia)).
  assert (b ^ Z.of_nat (length ds) * 1 ≤ b ^ Z.of_nat (length ds) * d) by (apply Z.mul_le_mono_nonneg_l; lia). lia.
Qed.

(** One more limb than the number has is enough for mpn_set_str. *)
Lemma printed_room base xs ds :
  2 ≤ base → Forall limb xs → (0 < length xs)%nat → Forall (digit base) ds → digits_value base ds = value xs → head ds ≠ Some 0 →
  digit_room base (Z.of_nat (length ds)) (digits_value base ds) (S (length xs)).
Proof.
  intros Hb Hx Hn Hds V Hh. pose proof (value_bounds _ Hx) as [_ Hv]. unfold digit_room.
  destruct (Z.eqb_spec (mpn_base_power_of_two_p base) 0) as [Hp|Hp]; simpl negb; cbv iota.
  - split; [lia|]. rewrite V. eapply Z.lt_le_trans; [done|]. apply Z.pow_le_mono_r; [done|lia].
  - destruct (base_pow2 base Hp) as [Hbits Eb]. set (bits := mpn_base_power_of_two_p base) in *.
    destruct ds as [|d ds]; [simpl; lia|]. pose proof (head_digits base (d :: ds) ltac:(lia) Hds Hh ltac:(simpl; lia)) as Hge.
    rewrite V, Eb, <- Z.pow_mul_r in Hge by (simpl; lia).
    assert (bits * (Z.of_nat (length (d :: ds)) - 1) < 64 * Z.of_nat (length xs)); [|lia].
    apply (Z.pow_lt_mono_r_iff 2); [lia|lia|]. eapply Z.le_lt_trans; [exact Hge|]. by rewrite pow2_64.
Qed.

(** mpn_set_str gives back the limbs that were printed. *)
Definition reads_back (base : Z) (ds xs : list Z) : Prop :=
  ∀ m rp, writable m rp (S (length xs)) →
    ∃ rs, mpn_set_str rp ds (Z.of_nat (length ds)) base m = Done (Z.of_nat (length xs)) (write m rp rs) ∧
      take (length xs) rs = xs ∧ (length rs ≤ S (length xs))%nat.

Lemma printed_reads_back base xs ds :
  2 ≤ base ≤ 256 → Forall limb xs → (0 < length xs)%nat → normalized xs →
  Forall (digit base) ds → digits_value base ds = value xs → head ds ≠ Some 0 → reads_back base ds xs.
Proof.
  intros Hb Hx Hn Hnorm Hds V Hh m rp Hw.
  destruct (mpn_set_str_spec m rp ds base (S (length xs)) Hb Hds Hw) as (rs & rn & E & Hrs & Hlen & Vr & Hnr); [apply printed_room; try done; lia|].
  assert (take rn rs = xs) as Et.
  { apply normalized_unique; [by apply Forall_take|done| |done|congruence]. apply Hnr. rewrite V.
    apply normalized_ge in Hnorm; [|done|done]. pose proof (Z.pow_pos_nonneg B (Z.of_nat (pred (length xs))) ltac:(done) ltac:(lia)). lia. }
  assert (rn = length xs) as -> by (rewrite <- Et, length_take; lia). exists rs. split_and!; try done. lia.
Qed.

(** mpn_get_str prints a number of any length in every base from 2 to 256:
    it returns after having written, at [sp], the digits of the number, most
    significant first and without leading zeros, when the buffer has room for
    them; besides them only the limbs of the number itself change, which is the
    work area of the general case. mpn_set_str reads the digits back to exactly
    the limbs that were printed, given room for one limb more. *)
Theorem mpn_get_str_exact m up xs base sp room cs :
  2 ≤ base ≤ 256 → mem_wf m → limbs_at m up xs → (0 < length xs)%nat → Z.of_nat (length xs) ≤ alloc_limit → normalized xs →
  value xs < base ^ Z.of_nat room → (sp + room ≤ length cs)%nat →
  ∃ ds m', mpn_get_str (Z.of_nat sp) base up (Z.of_nat (length xs)) (Mk_strmem m cs) =
             Done (Z.of_nat (length ds)) (Mk_strmem m' (fill cs sp ds)) ∧
    (sp + length ds ≤ length cs)%nat ∧ Forall (digit base) ds ∧ digits_value base ds = value xs ∧ head ds ≠ Some 0 ∧
    only_changes up (Z.of_nat (length xs)) m m' ∧ reads_back base ds xs.
Proof.
  intros Hb Hwf Hx Hn Hlim Hnorm Hfit Hroom.
  assert (prints (mpn_get_str (Z.of_nat sp) base up (Z.of_nat (length xs))) m cs sp base (value xs) (only_changes up (Z.of_nat (length xs)) m))
    as (ds & m' & E & Hl & Hds & V & Hh & Hoc).
  { unfold mpn_get_str, prints. rewrite (proj2 (Z.ltb_lt 0 _)) by lia. cbn [assertion]. rewrite lift_ok_bind.
    destruct xs as [|x lo _] using rev_ind; [simpl in Hn; lia|].
    pose proof (proj1 (limbs_at_app _ _ _ _) Hx) as [_ [[Hxl Hxc] _]%limbs_at_cons].
    assert (0 < x) as Hx0. { unfold normalized in Hnorm. rewrite last_snoc in Hnorm. unfold limb in Hxl. assert (x ≠ 0) by (intros ->; by apply Hnorm). lia. }
    replace (up + Z.of_nat (length (lo ++ [x])) - 1) with (up + Z.of_nat (length lo)) by (rewrite length_app; simpl; lia).
    rewrite (bind_done _ _ _ _ _ (limbsM_ok _ _ _ _ _ (load_ok _ _ _ Hxc))), (proj2 (Z.ltb_lt 0 x) Hx0). cbn [assertion]. rewrite lift_ok_bind.
    destruct (Z.eqb_spec (mpn_base_power_of_two_p base) 0) as [Hp|Hp]; cbn [negb]; cbv zeta.
    - destruct (mpn_get_base_info_spec base) as (e & -> & He & Hbe); [unfold B; lia|]. rewrite lift_ok_bind.
      by apply (mpn_get_str_other_spec m up (lo ++ [x]) base e sp room cs); try lia.
    - destruct (base_pow2 base Hp) as [Hbits Eb]. rewrite Eb in Hfit.
      destruct (mpn_get_str_bits_spec m up lo x _ sp room cs Hbits Hx Hx0 Hfit Hroom) as (ds & m' & E & Hl & Hds & V & Hh & ->).
      rewrite <- Eb in Hds, V. exists ds, m. by split_and!. }
  exists ds, m'. split_and!; try done. by apply printed_reads_back; try apply Hx.
Qed.

Lemma mpn_get_str_exact_witness :
  ∃ ds m', mpn_get_str 1 10 0 2 (Mk_strmem (mem_of [Some 12345; Some 678]) (replicate 30 None)) =
             Done (Z.of_nat (length ds)) (Mk_strmem m' (fill (replicate 30 None) 1 ds)) ∧
    (1 + length ds ≤ 30)%nat ∧ Forall (digit 10) ds ∧ digits_value 10 ds = value [12345; 678] ∧ head ds ≠ Some 0 ∧
    only_changes 0 2 (mem_of [Some 12345; Some 678]) m' ∧ reads_back 10 ds [12345; 678].
Proof.
  apply (mpn_get_str_exact (mem_of [Some 12345; Some 678]) 0 [12345; 678] 10 1 25 (replicate 30 None)).
  - lia.
  - apply mem_of_wf.
  - concrete_limbs.
  - simpl. lia.
  - simpl. unfold alloc_limit. lia.
  - done.
  - reflexivity.
  - rewrite length_replicate. lia.
Defined.
