(* ===== verification/Mt19937.v ===== *)
(** * The random number generator (examples/multiprecision/random/mt19937-64.c)

    The 64-bit Mersenne Twister that the tests of the multiprecision library
    draw their operands from: the two initialisations, and the generation of
    words, 312 at a time, in the array that holds the previous 312. The theorem
    is that this block-wise, in-place computation produces the words of the
    linear recurrence of the generator. The results of type [double] are those
    of IEEE binary64. *)

From S2P Require Import Prelude Limbs.
From Stdlib Require Import Floats.SpecFloat.

(** ** State and operations *)

Definition NN : Z := 312.
Definition MM : Z := 156.
Definition MATRIX_A : Z := 0xB5026F5AA96619E9.
Definition UM : Z := 0xFFFFFFFF80000000.
Definition LM : Z := 0x7FFFFFFF.

(** The static variables. *)
Record mt_state := Mk_mt { mt : list Z; mti : Z }.

(** [mti==NN+1 means mt[NN] is not initialized]. *)
Definition mt_start : mt_state := Mk_mt (replicate (Z.to_nat NN) 0) (NN + 1).

Definition mt_at (i : Z) : M mt_state Z := λ s,
  if 0 <=? i then match mt s !! Z.to_nat i with Some x => Done x s | None => Failed Undefined end
  else Failed Undefined.
Definition mt_put (i x : Z) : M mt_state unit := λ s,
  if (0 <=? i) && (i <? Z.of_nat (length (mt s))) then Done tt (Mk_mt (<[Z.to_nat i := x]> (mt s)) (mti s))
  else Failed Undefined.
Definition set_mti (i : Z) : M mt_state unit := modify (λ s, Mk_mt (mt s) i).

(** [x ^ (x >> 62)] *)
Definition fold62 (x : Z) : Z := Z.lxor x (lshr x 62).

(** [for (mti=1; mti<NN; mti++)]: fewer than NN turns. *)
Fixpoint init_loop (n : nat) : M mt_state unit :=
  i ← gets mti;
  if i <? NN then
    match n with
    | O => failM Undefined
    | S n' =>
        p ← mt_at (i - 1);
        _ ← mt_put i (ladd (lmul 6364136223846793005 (fold62 p)) i);
        _ ← set_mti (i + 1);
        init_loop n'
    end
  else mret tt.

Definition init_genrand64 (seed : Z) : M mt_state unit :=
  _ ← mt_put 0 seed;
  _ ← set_mti 1;
  init_loop (Z.to_nat NN).

(** [i++; if (i>=NN) { mt[0] = mt[NN-1]; i=1; }] *)
Definition next_index (i : Z) : M mt_state Z :=
  let i := ladd i 1 in
  if NN <=? i then
    x ← mt_at (NN - 1);
    _ ← mt_put 0 x;
    mret 1
  else mret i.

(** [init_key[j]] *)
Definition key_at (init_key : list Z) (j : Z) : M mt_state Z :=
  match init_key !! Z.to_nat j with Some x => mret x | None => failM Undefined end.

(** The loop over the key, [k] turns. *)
Fixpoint key_loop (init_key : list Z) (key_length : Z) (k : nat) (i j : Z) : M mt_state Z :=
  match k with
  | O => mret i
  | S k' =>
      x ← mt_at i;
      p ← mt_at (i - 1);
      e ← key_at init_key j;
      _ ← mt_put i (ladd (ladd (Z.lxor x (lmul (fold62 p) 3935559000370003845)) e) j);
      i ← next_index i;
      let j := ladd j 1 in
      let j := if key_length <=? j then 0 else j in
      key_loop init_key key_length k' i j
  end.

Fixpoint mix_loop (k : nat) (i : Z) : M mt_state unit :=
  match k with
  | O => mret tt
  | S k' =>
      x ← mt_at i;
      p ← mt_at (i - 1);
      _ ← mt_put i (lsub (Z.lxor x (lmul (fold62 p) 2862933555777941757)) i);
      i ← next_index i;
      mix_loop k' i
  end.

Definition init_by_array64 (init_key : list Z) (key_length : Z) : M mt_state unit :=
  _ ← init_genrand64 19650218;
  let k := if key_length <? NN then NN else key_length in
  i ← key_loop init_key key_length (Z.to_nat k) 1 0;
  _ ← mix_loop (Z.to_nat (NN - 1)) i;
  mt_put 0 (lshl 1 63).

Definition mag01 (b : Z) : M mt_state Z :=
  match [0; MATRIX_A] !! Z.to_nat b with Some x => mret x | None => failM Undefined end.

(** [x = (mt[i]&UM)|(mt[next]&LM); mt[i] = mt[src] ^ (x>>1) ^ mag01[x&1]] *)
Definition twist_word (i next src : Z) : M mt_state unit :=
  hi ← mt_at i;
  lo ← mt_at next;
  let x := Z.lor (Z.land hi UM) (Z.land lo LM) in
  v ← mt_at src;
  a ← mag01 (Z.land x 1);
  mt_put i (Z.lxor (Z.lxor v (lshr x 1)) a).

(** [for (; i < last; i++)], where [last] is [i + n]. *)
Fixpoint twist_loop (i off : Z) (n : nat) : M mt_state unit :=
  match n with
  | O => mret tt
  | S n' =>
      _ ← twist_word i (i + 1) (i + off);
      twist_loop (i + 1) off n'
  end.

Definition generate_words : M mt_state unit :=
  m ← gets mti;
  _ ← whenM (m =? NN + 1) (init_genrand64 5489);
  _ ← twist_loop 0 MM (Z.to_nat (NN - MM));
  _ ← twist_loop (NN - MM) (MM - NN) (Z.to_nat (NN - 1 - (NN - MM)));
  _ ← twist_word (NN - 1) 0 (MM - 1);
  set_mti 0.

Definition temper (x : Z) : Z :=
  let x := Z.lxor x (Z.land (lshr x 29) 0x5555555555555555) in
  let x := Z.lxor x (Z.land (lshl x 17) 0x71D67FFFEDA60000) in
  let x := Z.lxor x (Z.land (lshl x 37) 0xFFF7EEE000000000) in
  Z.lxor x (lshr x 43).

Definition genrand64_int64 : M mt_state Z :=
  m ← gets mti;
  _ ← whenM (NN <=? m) generate_words;
  m ← gets mti;
  x ← mt_at m;
  _ ← set_mti (m + 1);
  mret (temper x).

Definition genrand64_int63 : M mt_state Z := x ← genrand64_int64; mret (lshr x 1).

(** The three results of type [double]. *)
Definition double_of (z : Z) : spec_float := binary_normalize 53 1024 z 0 false.
Definition dmul : spec_float → spec_float → spec_float := SFmul 53 1024.
Definition ddiv : spec_float → spec_float → spec_float := SFdiv 53 1024.
Definition dadd : spec_float → spec_float → spec_float := SFadd 53 1024.

Definition genrand64_real1 : M mt_state spec_float :=
  x ← genrand64_int64;
  mret (dmul (double_of (lshr x 11)) (ddiv (double_of 1) (double_of 9007199254740991))).
Definition genrand64_real2 : M mt_state spec_float :=
  x ← genrand64_int64;
  mret (dmul (double_of (lshr x 11)) (ddiv (double_of 1) (double_of 9007199254740992))).
Definition genrand64_real3 : M mt_state spec_float :=
  x ← genrand64_int64;
  mret (dmul (dadd (double_of (lshr x 12)) (ddiv (double_of 1) (double_of 2))) (ddiv (double_of 1) (double_of 4503599627370496))).

(** Several calls in a row. *)
Fixpoint draws (n : nat) : M mt_state (list Z) :=
  match n with
  | O => mret []
  | S n' => x ← genrand64_int64; xs ← draws n'; mret (x :: xs)
  end.

(** ** The recurrence *)

(** The word that follows 312 words: a function of the first, the second and
    the one in the middle. *)
Definition twist (hi lo v : Z) : Z :=
  let x := Z.lor (Z.land hi UM) (Z.land lo LM) in
  Z.lxor (Z.lxor v (lshr x 1)) (if Z.odd x then MATRIX_A else 0).

(** Drop the oldest of the last 312 words and add the next one. *)
Definition slide (w : list Z) : list Z :=
  drop 1 w ++ [twist (nth 0 w 0) (nth 1 w 0) (nth 156 w 0)].

(** The sequence of all words that starts with the 312 words [w]. *)
Definition mt_word (w : list Z) (k : nat) : Z := nth 0 (Nat.iter k slide w) 0.

(** What [n] calls return. *)
Definition reference (w : list Z) (n : nat) : list Z := (λ k, temper (mt_word w k)) <$> seq 312 n.

(** The words of a seed. *)
Fixpoint seed_word (seed : Z) (k : nat) : Z :=
  match k with
  | O => seed
  | S k' => ladd (lmul 6364136223846793005 (fold62 (seed_word seed k'))) (Z.of_nat k)
  end.
Definition seed_words (seed : Z) : list Z := seed_word seed <$> seq 0 312.

Section recurrence.
Variable w : list Z.
Hypothesis Lw : length w = 312%nat.

Lemma iter_slide k : Nat.iter (S k) slide w = slide (Nat.iter k slide w).
Proof. done. Qed.

Lemma length_slide u : (0 < length u)%nat → length (slide u) = length u.
Proof. intros. unfold slide. rewrite length_app, length_drop. simpl. lia. Qed.

Lemma length_slides k : length (Nat.iter k slide w) = 312%nat.
Proof. induction k as [|k IH]; [done|]. rewrite iter_slide, length_slide; lia. Qed.

Lemma nth_slides i k : (i < 312)%nat → nth i (Nat.iter k slide w) 0 = mt_word w (k + i).
Proof.
  revert k. induction i as [|i IH]; intros k Hi; [by rewrite Nat.add_0_r|].
  rewrite <- Nat.add_succ_comm, <- (IH (S k)), iter_slide by lia. pose proof (length_slides k).
  destruct (Nat.iter k slide w) as [|x u]; [done|]. unfold slide. cbn [length] in H. change (drop 1 (x :: u)) with u. rewrite app_nth1 by lia. done.
Qed.

Lemma nth_slide_last u : length u = 312%nat → nth 311 (slide u) 0 = twist (nth 0 u 0) (nth 1 u 0) (nth 156 u 0).
Proof. intros Lu. unfold slide. rewrite app_nth2, length_drop, Lu by (rewrite length_drop; lia). done. Qed.

Lemma mt_word_recurrence k : mt_word w (k + 312) = twist (mt_word w k) (mt_word w (k + 1)) (mt_word w (k + 156)).
Proof.
  rewrite <- (nth_slides 1 k), <- (nth_slides 156 k) by lia. unfold mt_word at 2.
  replace (k + 312)%nat with (S k + 311)%nat by lia. rewrite <- (nth_slides 311 (S k)), iter_slide by lia.
  apply nth_slide_last, length_slides.
Qed.

Lemma mt_word_start k : (k < 312)%nat → w !! k = Some (mt_word w k).
Proof.
  intros Hk. destruct (lookup_lt_is_Some_2 w k) as [x Hx]; [lia|]. rewrite Hx. f_equal.
  rewrite <- (Nat.add_0_l k), <- (nth_slides k 0 Hk). symmetry. by apply nth_lookup_Some.
Qed.
End recurrence.

(** ** Accesses *)

Lemma mt_at_ok s i x : mt s !! i = Some x → mt_at (Z.of_nat i) s = Done x s.
Proof. intros H. unfold mt_at. rewrite (proj2 (Z.leb_le 0 _)), Nat2Z.id, H by lia. done. Qed.

Lemma mt_put_ok s i x : (i < length (mt s))%nat → mt_put (Z.of_nat i) x s = Done tt (Mk_mt (<[i := x]> (mt s)) (mti s)).
Proof. intros H. unfold mt_put. guard_true ((0 <=? Z.of_nat i) && (Z.of_nat i <? Z.of_nat (length (mt s)))). by rewrite Nat2Z.id. Qed.

Lemma mag01_spec x s : mag01 (Z.land x 1) s = Done (if Z.odd x then MATRIX_A else 0) s.
Proof.
  unfold mag01. change 1 with (Z.ones 1) at 1. rewrite Z.land_ones by lia. change (2 ^ 1) with 2. rewrite Zmod_odd. by destruct (Z.odd x).
Qed.

(** ** The generation of 312 words in place *)

(** The first [i] words of the array are those from [base + 312] on, the others
    those from [base + i] on. *)
Definition generated (x : nat → Z) (base i : nat) (l : list Z) : Prop :=
  length l = 312%nat ∧ ∀ j, (j < 312)%nat → l !! j = Some (x (base + j + if decide (j < i) then 312 else 0))%nat.

(** The state from which the words from [p] on are returned. *)
Definition ready (x : nat → Z) (p : nat) (s : mt_state) : Prop :=
  ∃ base m, p = (base + m)%nat ∧ mti s = Z.of_nat m ∧ (m ≤ 312)%nat ∧ generated x base 0 (mt s).

Section generation.
Variable x : nat → Z.
Hypothesis Hx : ∀ k, x (k + 312)%nat = twist (x k) (x (k + 1)%nat) (x (k + 156)%nat).

(** One word, when the cells read hold the words of the recurrence. *)
Lemma twist_word_spec base i next src s :
  (i < 312)%nat → generated x base i (mt s) →
  mt s !! next = Some (x (base + i + 1)%nat) → mt s !! src = Some (x (base + i + 156)%nat) →
  ∃ l, twist_word (Z.of_nat i) (Z.of_nat next) (Z.of_nat src) s = Done tt (Mk_mt l (mti s)) ∧ generated x base (S i) l.
Proof.
  intros Hi [Ls Hs] Hnext Hsrc. assert (mt s !! i = Some (x (base + i)%nat)) as Hcur.
  { rewrite Hs, decide_False by lia. by rewrite Nat.add_0_r. }
  exists (<[i := x (base + i + 312)%nat]> (mt s)). split.
  - unfold twist_word. rewrite (bind_done _ _ _ _ _ (mt_at_ok _ _ _ Hcur)), (bind_done _ _ _ _ _ (mt_at_ok _ _ _ Hnext)).
    rewrite (bind_done _ _ _ _ _ (mt_at_ok _ _ _ Hsrc)), (bind_done _ _ _ _ _ (mag01_spec _ _)), mt_put_ok by lia.
    by rewrite Hx.
  - split; [by rewrite length_insert|]. intros j Hj. destruct (decide (j = i)) as [->|Hne].
    + rewrite list_lookup_insert_eq, decide_True by lia. done.
    + rewrite list_lookup_insert_ne, Hs by lia. repeat case_decide; try lia; done.
Qed.

(** A loop that reads [off] cells further; with 156 cells further the words
    read are old, with 156 cells before they are new. *)
Lemma twist_loop_spec base n : ∀ i off s,
  (off = 156 ∧ (i + n ≤ 156)%nat ∨ off = -156 ∧ (156 ≤ i)%nat) → (i + n < 312)%nat → generated x base i (mt s) →
  ∃ l, twist_loop (Z.of_nat i) off n s = Done tt (Mk_mt l (mti s)) ∧ generated x base (i + n) l.
Proof.
  induction n as [|n IH]; intros i off s Hoff Hi Hs; cbn [twist_loop].
  { exists (mt s). rewrite Nat.add_0_r. destruct s. done. }
  destruct (twist_word_spec base i (S i) (Z.to_nat (Z.of_nat i + off)) s) as (l & E & Hl); [lia|done| | |].
  - rewrite (proj2 Hs), decide_False by lia. do 2 f_equal. lia.
  - rewrite (proj2 Hs) by lia. do 2 f_equal. case_decide; lia.
  - rewrite Nat2Z.inj_succ, <- Z.add_1_r, Z2Nat.id in E by lia. rewrite (bind_done _ _ _ _ _ E).
    replace (Z.of_nat i + 1) with (Z.of_nat (S i)) by lia.
    destruct (IH (S i) off (Mk_mt l (mti s))) as (l' & E' & Hl'); [lia|lia|done|].
    exists l'. by rewrite <- Nat.add_succ_comm.
Qed.

Lemma generated_block base l : generated x base 312 l → generated x (base + 312) 0 l.
Proof. intros [Ll H]. split; [done|]. intros j Hj. rewrite H, decide_True, decide_False by lia. do 2 f_equal. lia. Qed.

Lemma generate_words_spec base s :
  mti s = NN → generated x base 0 (mt s) → ∃ l, generate_words s = Done tt (Mk_mt l 0) ∧ generated x (base + 312) 0 l.
Proof.
  intros Hm Hs. unfold generate_words. rewrite gets_bind, Hm. change (NN =? NN + 1) with false. cbn [whenM]. rewrite ret_bind.
  destruct (twist_loop_spec base 156 0 156 s) as (l1 & E1 & H1); [lia|lia|done|]. rewrite (bind_done _ _ _ _ _ E1).
  destruct (twist_loop_spec base 155 156 (-156) (Mk_mt l1 (mti s))) as (l2 & E2 & H2); [lia|lia|done|]. rewrite (bind_done _ _ _ _ _ E2).
  destruct (twist_word_spec base 311 0 155 (Mk_mt l2 (mti s))) as (l3 & E3 & H3); [lia|done| | |].
  - cbn [mt]. rewrite (proj2 H2), decide_True by lia. do 2 f_equal. lia.
  - cbn [mt]. rewrite (proj2 H2), decide_True by lia. do 2 f_equal. lia.
  - rewrite (bind_done _ _ _ _ _ E3). exists l3. split; [done|]. by apply generated_block.
Qed.

Lemma genrand64_spec p s : ready x p s → ∃ s', genrand64_int64 s = Done (temper (x p)) s' ∧ ready x (S p) s'.
Proof.
  intros (base & m & -> & Hm & Hle & Hg). unfold genrand64_int64. rewrite gets_bind.
  assert (∀ base m s, mti s = Z.of_nat m → (m < 312)%nat → generated x base 0 (mt s) →
    ∃ s', (m ← gets mti; y ← mt_at m; _ ← set_mti (m + 1); mret (temper y)) s = Done (temper (x (base + m)%nat)) s' ∧ ready x (S (base + m)) s') as Hread.
  { clear. intros base m s Hm Hlt Hg. rewrite gets_bind, Hm.
    rewrite (bind_done _ _ _ (x (base + m)%nat) s); [|by apply mt_at_ok; rewrite (proj2 Hg), decide_False, Nat.add_0_r by lia].
    eexists. split; [done|]. exists base, (S m). split_and!; simpl; try lia. apply Hg. }
  destruct (Z.leb_spec NN (mti s)) as [Hge|Hlt]; unfold NN in *; cbn [whenM].
  - assert (m = 312%nat) as -> by lia. destruct (generate_words_spec base s) as (l & E & Hl); [done|done|]. rewrite (bind_done _ _ _ _ _ E).
    destruct (Hread (base + 312)%nat O (Mk_mt l 0)) as (s' & E' & Hs'); [done|lia|done|]. rewrite Nat.add_0_r in E', Hs'. by exists s'.
  - rewrite ret_bind. apply Hread; [done|lia|done].
Qed.

Lemma draws_spec n : ∀ p s, ready x p s → ∃ s', draws n s = Done ((λ k, temper (x k)) <$> seq p n) s' ∧ ready x (p + n) s'.
Proof.
  induction n as [|n IH]; intros p s Hs; cbn [draws]; [exists s; by rewrite Nat.add_0_r|].
  destruct (genrand64_spec p s Hs) as (s1 & E1 & H1). rewrite (bind_done _ _ _ _ _ E1).
  destruct (IH (S p) s1 H1) as (s2 & E2 & H2). rewrite (bind_done _ _ _ _ _ E2). exists s2. by rewrite <- Nat.add_succ_comm.
Qed.
End generation.

Lemma ready_start w i : length w = 312%nat → i = NN → ready (mt_word w) 312 (Mk_mt w i).
Proof.
  intros Lw ->. exists O, 312%nat. split; [done|]. split; [done|]. split; [lia|]. split; [done|]. cbn [mt]. intros j Hj. rewrite decide_False, Nat.add_0_r by lia. by apply mt_word_start.
Qed.

(** ** Initialisations *)

Lemma init_loop_spec seed n : ∀ i s,
  mti s = Z.of_nat i → (1 ≤ i ≤ 312)%nat → (312 ≤ i + n)%nat → length (mt s) = 312%nat →
  (∀ j, (j < i)%nat → mt s !! j = Some (seed_word seed j)) →
  init_loop n s = Done tt (Mk_mt (seed_words seed) NN).
Proof.
  induction n as [|n IH]; intros i s Hm Hi Hn Ls Hs; cbn [init_loop]; rewrite gets_bind, Hm; unfold NN;
    destruct (Z.ltb_spec (Z.of_nat i) 312) as [Hlt|Hge]; try lia.
  2: { destruct i as [|i]; [lia|]. replace (Z.of_nat (S i) - 1) with (Z.of_nat i) by lia.
       rewrite (bind_done _ _ _ _ _ (mt_at_ok _ _ _ (Hs i ltac:(lia)))), (bind_done _ _ _ _ _ (mt_put_ok s (S i) _ ltac:(lia))).
       rewrite (bind_done _ _ _ tt (Mk_mt (<[S i := seed_word seed (S i)]> (mt s)) (Z.of_nat (S (S i))))).
       - apply (IH (S (S i))); cbn [mti mt]; rewrite ?length_insert; try lia. intros j Hj. destruct (decide (j = S i)) as [->|].
         + by rewrite list_lookup_insert_eq by lia.
         + rewrite list_lookup_insert_ne by lia. apply Hs. lia.
       - unfold set_mti, modify. cbn [mt]. do 2 f_equal. lia. }
  all: assert (i = 312%nat) as -> by lia; destruct s as [l k]; simpl in *; subst k; unfold mret, M_ret; do 2 f_equal;
    apply list_eq; intros j; unfold seed_words; rewrite list_lookup_fmap; destruct (decide (j < 312)%nat);
    [by rewrite Hs, lookup_seq_lt by lia|rewrite lookup_seq_ge by lia; by rewrite lookup_ge_None_2 by lia].
Qed.

Lemma init_genrand64_spec seed s : length (mt s) = 312%nat → init_genrand64 seed s = Done tt (Mk_mt (seed_words seed) NN).
Proof.
  intros Ls. unfold init_genrand64. change 0 with (Z.of_nat 0). rewrite (bind_done _ _ _ _ _ (mt_put_ok s 0 seed ltac:(lia))).
  rewrite (bind_done _ _ _ tt (Mk_mt (<[0%nat := seed]> (mt s)) 1)) by done.
  apply (init_loop_spec seed _ 1); cbn [mt mti]; rewrite ?length_insert; unfold NN; try lia.
  intros j Hj. assert (j = O) as -> by lia. by rewrite list_lookup_insert_eq by lia.
Qed.

Lemma length_seed_words seed : length (seed_words seed) = 312%nat.
Proof. unfold seed_words. by rewrite length_fmap, length_seq. Qed.

Lemma bind_same {S A C} (k k' : M S A) (f : A → M S C) s s' : k s = k' s' → (k ≫= f) s = (k' ≫= f) s'.
Proof. intros H. unfold mbind, M_bind. by rewrite H. Qed.

(** The first call without an initialisation uses the seed 5489. *)
Lemma genrand64_default s : mti s = NN + 1 → length (mt s) = 312%nat → genrand64_int64 s = genrand64_int64 (Mk_mt (seed_words 5489) NN).
Proof.
  intros Hm Ls. unfold genrand64_int64. rewrite !gets_bind, Hm. cbn [mti]. change (NN <=? NN + 1) with true. change (NN <=? NN) with true. cbn [whenM].
  apply bind_same. unfold generate_words. rewrite !gets_bind, Hm. cbn [mti]. change (NN + 1 =? NN + 1) with true. change (NN =? NN + 1) with false. cbn [whenM].
  rewrite (bind_done _ _ _ _ _ (init_genrand64_spec 5489 s Ls)), ret_bind. reflexivity.
Qed.

(** An array of 312 words of 64 bits. *)
Definition words (l : list Z) : Prop := length l = 312%nat ∧ Forall limb l.

Lemma u64_limb x : limb (u64 x).
Proof. unfold u64, limb. by apply Z.mod_pos_bound. Qed.

Lemma words_insert l i x : words l → limb x → words (<[i := x]> l).
Proof. intros [Ll Hl] Hx. split; [by rewrite length_insert|by apply Forall_insert]. Qed.

Lemma words_lookup l i : words l → (i < 312)%nat → ∃ x, l !! i = Some x ∧ limb x.
Proof.
  intros [Ll Hl] Hi. destruct (lookup_lt_is_Some_2 l i) as [x Hx]; [lia|]. exists x. split; [done|]. by eapply Forall_lookup_1.
Qed.

Section by_array.
Variable m : Z.

Lemma next_index_spec i l : (1 ≤ i < 312)%nat → words l →
  ∃ i' l', next_index (Z.of_nat i) (Mk_mt l m) = Done (Z.of_nat i') (Mk_mt l' m) ∧ (1 ≤ i' < 312)%nat ∧ words l'.
Proof.
  intros Hi Hl. unfold next_index, ladd. rewrite u64_small by (unfold SIZE_MOD; lia). unfold NN.
  destruct (Z.leb_spec 312 (Z.of_nat i + 1)).
  - destruct (words_lookup l 311 Hl) as (x & Hx & Lx); [lia|]. change (312 - 1) with (Z.of_nat 311). rewrite (bind_done _ _ _ _ _ (mt_at_ok (Mk_mt l m) _ _ Hx)).
    change 0 with (Z.of_nat 0). rewrite (bind_done _ _ _ _ _ (mt_put_ok (Mk_mt l m) 0 x ltac:(destruct Hl; simpl; lia))).
    exists 1%nat. eexists. split_and!; [done|lia|lia|by apply words_insert].
  - exists (S i), l. split_and!; try lia; [|done]. unfold mret, M_ret. f_equal. lia.
Qed.

(** The accesses of a turn of either loop. *)
Lemma turn_put i l y : (i < 312)%nat → words l → mt_put (Z.of_nat i) (u64 y) (Mk_mt l m) = Done tt (Mk_mt (<[i := u64 y]> l) m) ∧ words (<[i := u64 y]> l).
Proof. intros Hi Hl. split; [|by apply words_insert, u64_limb]. apply (mt_put_ok (Mk_mt l m)). destruct Hl as [Ll _]. cbn [mt]. lia. Qed.

Lemma turn_read i l : (1 ≤ i < 312)%nat → words l →
  ∃ x p, mt_at (Z.of_nat i) (Mk_mt l m) = Done x (Mk_mt l m) ∧ mt_at (Z.of_nat i - 1) (Mk_mt l m) = Done p (Mk_mt l m).
Proof.
  intros Hi Hl. destruct (words_lookup l i Hl) as (x & Hx & _); [lia|]. destruct (words_lookup l (i - 1) Hl) as (p & Hp & _); [lia|].
  exists x, p. replace (Z.of_nat i - 1) with (Z.of_nat (i - 1)) by lia. split; by apply mt_at_ok.
Qed.

Lemma key_loop_spec key k : ∀ i j l,
  Z.of_nat (length key) < SIZE_MOD → (1 ≤ i < 312)%nat → (j < length key)%nat → words l →
  ∃ i' l', key_loop key (Z.of_nat (length key)) k (Z.of_nat i) (Z.of_nat j) (Mk_mt l m) = Done (Z.of_nat i') (Mk_mt l' m) ∧
    (1 ≤ i' < 312)%nat ∧ words l'.
Proof.
  induction k as [|k IH]; intros i j l Hk Hi Hj Hl; cbn [key_loop]; [by exists i, l|].
  destruct (turn_read i l Hi Hl) as (x & p & Ex & Ep). rewrite (bind_done _ _ _ _ _ Ex), (bind_done _ _ _ _ _ Ep).
  destruct (lookup_lt_is_Some_2 key j Hj) as [e He]. unfold key_at at 1. rewrite Nat2Z.id, He, ret_bind.
  destruct (turn_put i l (ladd (Z.lxor x (lmul (fold62 p) 3935559000370003845)) e + Z.of_nat j)) as [Eu Hl']; [lia|done|].
  rewrite (bind_done _ _ _ _ _ Eu). destruct (next_index_spec i _ Hi Hl') as (i1 & l1 & E1 & Hi1 & Hl1). rewrite (bind_done _ _ _ _ _ E1).
  cbv zeta. assert (ladd (Z.of_nat j) 1 = Z.of_nat (S j)) as -> by (unfold ladd; rewrite u64_small; unfold SIZE_MOD in *; lia).
  destruct (Z.leb_spec (Z.of_nat (length key)) (Z.of_nat (S j))).
  - apply (IH i1 0%nat); [done|done|lia|done].
  - apply (IH i1 (S j)); [done|done|lia|done].
Qed.

Lemma mix_loop_spec k : ∀ i l, (1 ≤ i < 312)%nat → words l → ∃ l', mix_loop k (Z.of_nat i) (Mk_mt l m) = Done tt (Mk_mt l' m) ∧ words l'.
Proof.
  induction k as [|k IH]; intros i l Hi Hl; cbn [mix_loop]; [by exists l|].
  destruct (turn_read i l Hi Hl) as (x & p & Ex & Ep). rewrite (bind_done _ _ _ _ _ Ex), (bind_done _ _ _ _ _ Ep).
  destruct (turn_put i l (Z.lxor x (lmul (fold62 p) 2862933555777941757) - Z.of_nat i)) as [Eu Hl']; [lia|done|].
  rewrite (bind_done _ _ _ _ _ Eu). destruct (next_index_spec i _ Hi Hl') as (i1 & l1 & E1 & Hi1 & Hl1).
  rewrite (bind_done _ _ _ _ _ E1). by apply IH.
Qed.
End by_array.

Lemma seed_words_limbs seed : limb seed → words (seed_words seed).
Proof.
  intros Hs. split; [apply length_seed_words|]. apply Forall_fmap, Forall_forall. intros [|k] _; [done|]. apply u64_limb.
Qed.

(** An array of keys gives 312 words of which the first has its highest bit set. *)
Lemma init_by_array64_spec key s :
  key ≠ [] → Z.of_nat (length key) < SIZE_MOD → length (mt s) = 312%nat →
  ∃ w, init_by_array64 key (Z.of_nat (length key)) s = Done tt (Mk_mt w NN) ∧ words w ∧ w !! 0%nat = Some (2 ^ 63).
Proof.
  intros Hne Hk Ls. unfold init_by_array64. rewrite (bind_done _ _ _ _ _ (init_genrand64_spec _ _ Ls)). cbv zeta.
  assert (words (seed_words 19650218)) as H0 by (by apply seed_words_limbs).
  destruct (key_loop_spec NN key (Z.to_nat (if Z.of_nat (length key) <? NN then NN else Z.of_nat (length key))) 1 0 _ Hk ltac:(lia)
    ltac:(destruct key; [done|simpl; lia]) H0) as (i & l & E & Hi & Hl).
  rewrite (bind_done _ _ _ _ _ E). destruct (mix_loop_spec NN (Z.to_nat (NN - 1)) i l Hi Hl) as (l' & E' & Hl'). rewrite (bind_done _ _ _ _ _ E').
  exists (<[0%nat := 2 ^ 63]> l'). split_and!.
  - change 0 with (Z.of_nat 0). rewrite mt_put_ok by (destruct Hl' as [L _]; cbn [mt]; lia). done.
  - by apply words_insert.
  - apply list_lookup_insert_eq. destruct Hl' as [L _]. lia.
Qed.

(** ** Bits *)

Lemma limb_bits x : limb x ↔ 0 ≤ x ∧ ∀ i, 64 ≤ i → Z.testbit x i = false.
Proof.
  change (limb x) with (0 ≤ x < 2 ^ 64). split.
  - intros [H0 H]. split; [done|]. intros i Hi. rewrite <- (Z.mod_small x (2 ^ 64)) by lia. by apply Z.mod_pow2_bits_high.
  - intros [H0 H]. split; [done|]. assert (x = x mod 2 ^ 64) as ->; [|apply Z.mod_pos_bound; lia].
    apply Z.bits_inj'. intros i Hi. destruct (Z.lt_ge_cases i 64); [by rewrite Z.mod_pow2_bits_low|rewrite Z.mod_pow2_bits_high by lia; by apply H].
Qed.

Lemma limb_lxor x y : limb x → limb y → limb (Z.lxor x y).
Proof.
  rewrite !limb_bits. intros [Hx Bx] [Hy By]. split; [by apply Z.lxor_nonneg|]. intros i Hi. by rewrite Z.lxor_spec, Bx, By.
Qed.

Lemma limb_lor x y : limb x → limb y → limb (Z.lor x y).
Proof. rewrite !limb_bits. intros [Hx Bx] [Hy By]. split; [by apply Z.lor_nonneg|]. intros i Hi. by rewrite Z.lor_spec, Bx, By. Qed.

Lemma limb_land x y : 0 ≤ x → limb y → limb (Z.land x y).
Proof.
  rewrite !limb_bits. intros Hx [Hy By]. split; [apply Z.land_nonneg; by left|]. intros i Hi. by rewrite Z.land_spec, By, andb_false_r.
Qed.

Lemma limb_lshr x k : 0 ≤ k → limb x → limb (lshr x k).
Proof.
  intros Hk [H0 H]. unfold lshr. split; [by apply Z.shiftr_nonneg|]. rewrite Z.shiftr_div_pow2 by lia.
  apply Z.div_lt_upper_bound; [apply Z.pow_pos_nonneg; lia|]. pose proof (Z.pow_pos_nonneg 2 k ltac:(lia) Hk). unfold B in *. nia.
Qed.

(** A word xored with itself shifted to the right or to the left, under a mask,
    determines the word. *)
Lemma xor_right_inj k m x y :
  0 < k → limb x → limb y → Z.lxor x (Z.land (lshr x k) m) = Z.lxor y (Z.land (lshr y k) m) → x = y.
Proof.
  intros Hk [_ Bx]%limb_bits [_ By]%limb_bits E. apply Z.bits_inj'. intros i Hi.
  remember (Z.to_nat (64 - i)) as d eqn:Hd. revert i Hi Hd. induction d as [d IH] using lt_wf_ind. intros i Hi Hd.
  destruct (Z.lt_ge_cases i 64); [|by rewrite Bx, By].
  assert (Z.testbit x (i + k) = Z.testbit y (i + k)) as Enext by (apply (IH (Z.to_nat (64 - (i + k)))); lia).
  apply (f_equal (λ z, Z.testbit z i)) in E. unfold lshr in E. rewrite !Z.lxor_spec, !Z.land_spec, !Z.shiftr_spec, Enext in E by done.
  by destruct (Z.testbit x i), (Z.testbit y i), (Z.testbit y (i + k)), (Z.testbit m i).
Qed.

Lemma xor_left_inj k m x y :
  0 < k → limb x → limb y → Z.lxor x (Z.land (lshl x k) m) = Z.lxor y (Z.land (lshl y k) m) → x = y.
Proof.
  intros Hk [_ Bx]%limb_bits [_ By]%limb_bits E. apply Z.bits_inj'. intros i Hi.
  remember (Z.to_nat i) as d eqn:Hd. revert i Hi Hd. induction d as [d IH] using lt_wf_ind. intros i Hi Hd.
  destruct (Z.lt_ge_cases i 64); [|by rewrite Bx, By].
  assert (Z.testbit x (i - k) = Z.testbit y (i - k)) as Eprev.
  { destruct (Z.lt_ge_cases i k); [by rewrite !Z.testbit_neg_r by lia|]. apply (IH (Z.to_nat (i - k))); lia. }
  apply (f_equal (λ z, Z.testbit z i)) in E. unfold lshl, u64 in E. change SIZE_MOD with (2 ^ 64) in E.
  rewrite !Z.lxor_spec, !Z.land_spec, !Z.mod_pow2_bits_low, !Z.shiftl_spec, Eprev in E by lia.
  by destruct (Z.testbit x i), (Z.testbit y i), (Z.testbit y (i - k)), (Z.testbit m i).
Qed.

Lemma limb_right k m x : 0 ≤ k → limb m → limb x → limb (Z.lxor x (Z.land (lshr x k) m)).
Proof. intros Hk Hm Hx. apply limb_lxor, limb_land; [done| |done]. by apply limb_lshr. Qed.

Lemma limb_left k m x : limb m → limb x → limb (Z.lxor x (Z.land (lshl x k) m)).
Proof. intros Hm Hx. apply limb_lxor, limb_land; [done| |done]. apply u64_limb. Qed.

Lemma temper_limb x : limb x → limb (temper x).
Proof.
  intros Hx. unfold temper. cbv zeta. repeat first [apply limb_right; [lia|done|] | apply limb_left; [done|] | done].
  apply limb_lxor; [|apply limb_lshr; [lia|]]; repeat first [apply limb_left; [done|] | apply limb_right; [lia|done|] | done].
Qed.

Lemma temper_inj x y : limb x → limb y → temper x = temper y → x = y.
Proof.
  intros Hx Hy E. unfold temper in E. cbv zeta in E.
  set (r z := Z.lxor z (Z.land (lshr z 29) 0x5555555555555555)) in *.
  assert (∀ z, limb z → limb (r z)) as Hr by (intros; by apply limb_right).
  set (l1 z := Z.lxor z (Z.land (lshl z 17) 0x71D67FFFEDA60000)) in *.
  assert (∀ z, limb z → limb (l1 z)) as Hl1 by (intros; by apply limb_left).
  set (l2 z := Z.lxor z (Z.land (lshl z 37) 0xFFF7EEE000000000)) in *.
  assert (∀ z, limb z → limb (l2 z)) as Hl2 by (intros; by apply limb_left).
  change (Z.lxor (l2 (l1 (r x))) (lshr (l2 (l1 (r x))) 43) = Z.lxor (l2 (l1 (r y))) (lshr (l2 (l1 (r y))) 43)) in E.
  rewrite <- (Z.land_m1_r (lshr (l2 (l1 (r x))) 43)), <- (Z.land_m1_r (lshr (l2 (l1 (r y))) 43)) in E.
  apply xor_right_inj in E; [|lia|auto|auto]. apply xor_left_inj in E; [|lia|auto|auto]. apply xor_left_inj in E; [|lia|auto|auto].
  by apply xor_right_inj in E.
Qed.

Lemma twist_limb hi lo v : limb hi → limb lo → limb v → limb (twist hi lo v).
Proof.
  intros Hh Hl Hv. unfold twist. cbv zeta. apply limb_lxor; [apply limb_lxor; [done|]|by destruct (Z.odd _)].
  apply limb_lshr; [lia|]. apply limb_lor; apply limb_land; try done; apply Hh || apply Hl.
Qed.

Lemma mt_word_limb w k : words w → limb (mt_word w k).
Proof.
  intros [Lw Hw]. induction k as [k IH] using lt_wf_ind. destruct (decide (k < 312)%nat) as [Hk|Hk].
  - pose proof (mt_word_start w Lw k Hk). by eapply Forall_lookup_1.
  - replace k with (k - 312 + 312)%nat by lia. rewrite mt_word_recurrence by done. apply twist_limb; apply IH; lia.
Qed.

(** ** Property *)

(** No call before the first draw. *)
Definition no_init : M mt_state unit := mret tt.

(** Any number of calls after [k] return the tempered words that follow [w]. *)
Definition produces (k : M mt_state unit) (s : mt_state) (w : list Z) : Prop :=
  ∀ n, ∃ s', (_ ← k; draws n) s = Done (reference w n) s'.

(** The sequence that [reference] tempers extends [w] by the linear recurrence
    of the generator. *)
Definition recurrent (w : list Z) : Prop :=
  (∀ k, (k < 312)%nat → w !! k = Some (mt_word w k)) ∧
  ∀ k, mt_word w (k + 312) = twist (mt_word w k) (mt_word w (k + 1)) (mt_word w (k + 156)).

Lemma words_recurrent w : words w → recurrent w.
Proof. intros [Lw _]. split; [by apply mt_word_start|by apply mt_word_recurrence]. Qed.

Lemma produces_from k s w : words w → k s = Done tt (Mk_mt w NN) → produces k s w.
Proof.
  intros Hw E n. rewrite (bind_done _ _ _ _ _ E).
  destruct (draws_spec (mt_word w) (proj2 (words_recurrent w Hw)) n 312 (Mk_mt w NN)) as (s' & E' & _); [by apply ready_start; [apply Hw|]|].
  exists s'. exact E'.
Qed.

Lemma produces_default s : mti s = NN + 1 → length (mt s) = 312%nat → produces no_init s (seed_words 5489).
Proof.
  intros Hm Ls n. unfold no_init. rewrite ret_bind. assert (words (seed_words 5489)) as Hw by (by apply seed_words_limbs).
  destruct n as [|n]; [by exists s|]. destruct (produces_from no_init (Mk_mt (seed_words 5489) NN) _ Hw eq_refl (S n)) as [s' E].
  unfold no_init in E. rewrite ret_bind in E. exists s'. rewrite <- E. cbn [draws]. by apply bind_same, genrand64_default.
Qed.

(** C40: genrand64_int64 returns, call after call, the words of the linear
    recurrence of MT19937-64, tempered, although it computes them 312 at a time
    in place: after init_genrand64 those that follow the 312 words of the
    seed, without an initialisation those of the seed 5489, and after
    init_by_array64 with a key that is not empty those that follow 312 words
    the first of which is not 0. No access leaves the arrays; the results are
    64-bit words, and the tempering loses nothing: different words give
    different results. *)
Theorem mt19937_stream_exact s seed key :
  length (mt s) = 312%nat → limb seed → key ≠ [] → Z.of_nat (length key) < SIZE_MOD →
  produces (init_genrand64 seed) s (seed_words seed) ∧
  (mti s = NN + 1 → produces no_init s (seed_words 5489)) ∧
  (∃ w, words w ∧ w !! 0%nat = Some (2 ^ 63) ∧ produces (init_by_array64 key (Z.of_nat (length key))) s w) ∧
  (∀ w, words w → recurrent w ∧ ∀ n, Forall limb (reference w n)) ∧
  (∀ x y, limb x → limb y → temper x = temper y → x = y).
Proof.
  intros Ls Hseed Hne Hk. split_and!.
  - apply produces_from; [by apply seed_words_limbs|by apply init_genrand64_spec].
  - intros Hm. by apply produces_default.
  - destruct (init_by_array64_spec key s Hne Hk Ls) as (w & E & Hw & H0). exists w. split; [done|]. split; [done|]. by apply produces_from.
  - intros w Hw. split; [by apply words_recurrent|]. intros n. apply Forall_fmap, Forall_forall. intros k _. by apply temper_limb, mt_word_limb.
  - apply temper_inj.
Qed.

Lemma mt19937_stream_exact_witness :
  produces (init_genrand64 7) mt_start (seed_words 7) ∧
  (mti mt_start = NN + 1 → produces no_init mt_start (seed_words 5489)) ∧
  (∃ w, words w ∧ w !! 0%nat = Some (2 ^ 63) ∧ produces (init_by_array64 [291; 564] 2) mt_start w) ∧
  (∀ w, words w → recurrent w ∧ ∀ n, Forall limb (reference w n)) ∧
  (∀ x y, limb x → limb y → temper x = temper y → x = y).
Proof.
  apply (mt19937_stream_exact mt_start 7 [291; 564]).
  - reflexivity.
  - done.
  - done.
  - done.
Defined.

(** The first words of the reference implementation for its four test keys. *)
Example init_by_array64_example :
  (_ ← init_by_array64 [0x12345; 0x23456; 0x34567; 0x45678] 4; draws 3) mt_start =
  match (_ ← init_by_array64 [0x12345; 0x23456; 0x34567; 0x45678] 4; draws 3) mt_start with
  | Done _ s => Done [7266447313870364031; 4946485549665804864; 16945909448695747420] s
  | o => o
  end.
Proof. vm_compute. reflexivity. Qed.

(** The bounds of the three intervals: 0 and 1 for the first, the largest double
    below 1 for the second, and the largest value of the third, reached for the
    largest word. *)
Example real_bounds :
  dmul (double_of (lshr (B - 1) 11)) (ddiv (double_of 1) (double_of 9007199254740991)) = double_of 1 ∧
  dmul (double_of (lshr (B - 1) 11)) (ddiv (double_of 1) (double_of 9007199254740992)) = S754_finite false (2 ^ 53 - 1) (-53) ∧
  dmul (dadd (double_of (lshr (B - 1) 12)) (ddiv (double_of 1) (double_of 2))) (ddiv (double_of 1) (double_of 4503599627370496)) =
    S754_finite false (2 ^ 53 - 1) (-53).
Proof. vm_compute. done. Qed.
