(* ===== verification/Mpz.v ===== *)
(** * Integers (the mpz functions of mini-gmp.c)

    An [mpz_t] is a struct that holds a sign, a number of limbs and a pointer to
    a block of limbs. The state has the memory of limbs of Mpn.v and the structs
    in use; functions take pointers to structs, so that arguments may be the
    same variable, as the library allows. A local [mpz_t] is a fresh struct
    that disappears when its function returns.

    [realloc] always moves the block here, so that a pointer that was read
    before it is dangling afterwards. *)

From S2P Require Import Prelude Limbs Mpn Invert MpnDiv MpnDivN.

(** ** State *)

Record mpz_struct := Mk_mpz { mp_alloc : Z; mp_size : Z; mp_d : Z }.

Record zst := Mk_zst {
  zmem : mem;
  zvars : gmap positive (option mpz_struct);    (* None: not initialised *)
  zlocal : positive;                            (* the next local variable *)
}.

(** The address of [static const mp_limb_t dummy_limb = 0xc1a0]. *)
Definition dummy_limb : Z := -1.

(** A computation on limbs. *)
Definition limbsZ {A} (k : M mem A) : M zst A := zoom zmem (λ m s, Mk_zst m (zvars s) (zlocal s)) k.

Definition get_mpz (r : positive) : M zst mpz_struct := λ s,
  match zvars s !! r with Some (Some st) => Done st s | _ => Failed Undefined end.
Definition put_mpz (r : positive) (st : mpz_struct) : M zst unit := λ s,
  match zvars s !! r with
  | Some _ => Done tt (Mk_zst (zmem s) (<[r := Some st]> (zvars s)) (zlocal s))
  | None => Failed Undefined
  end.

(** The fields; [_mp_size] is an [int]. *)
Definition size_of (r : positive) : M zst Z := st ← get_mpz r; mret (mp_size st).
Definition limbs_of (r : positive) : M zst Z := st ← get_mpz r; mret (mp_d st).
Definition set_size (r : positive) (n : Z) : M zst unit :=
  st ← get_mpz r; put_mpz r (Mk_mpz (mp_alloc st) (to_int n) (mp_d st)).

(** The body of a function with a local variable [mpz_t t]. *)
Definition with_local {A} (f : positive → M zst A) : M zst A := λ s,
  let t := zlocal s in
  match f t (Mk_zst (zmem s) (<[t := None]> (zvars s)) (t + 1)%positive) with
  | Done a s' => Done a (Mk_zst (zmem s') (delete t (zvars s')) (zlocal s'))
  | Exited c s' => Exited c s'
  | Failed e => Failed e
  end.

(** gmp_die prints a message and aborts. *)
Definition gmp_die {A} : M zst A := failM Assertion.

Definition GMP_CMP (a b : Z) : Z := b2l (b <? a) - b2l (a <? b).
Definition GMP_NEG_CAST (x : Z) : Z := lneg (lsub (u64 (x + 1)) 1).

(** ** Memory *)

(** The cells of a moved block: [k] of them are copied. *)
Fixpoint moved_cells (c : gmap Z (option Z)) (old new : Z) (k n : nat) : gmap Z (option Z) :=
  match n with
  | O => c
  | S n' =>
      let v := match k with O => None | S _ => match c !! old with Some v => v | None => None end end in
      <[new := v]> (moved_cells c (old + 1) (new + 1) (pred k) n')
  end.

(** gmp_default_realloc, with sizes counted in limbs. *)
Definition gmp_xrealloc_limbs (old size : Z) : M mem Z :=
  _ ← lift (assertion (0 <? size));
  ((λ m, match blocks m !! old with
         | Some osize =>
             if size <=? alloc_limit
             then Done (next m)
                    (Mk_mem (drop_cells (moved_cells (cells m) old (next m) (Z.to_nat osize) (Z.to_nat size)) old (Z.to_nat osize))
                       (delete old (<[next m := size]> (blocks m))) (next m + size))
             else Failed Exhausted
         | None => Failed Undefined
         end) : M mem Z).

Definition mpz_init (r : positive) : M zst unit := put_mpz r (Mk_mpz 0 0 dummy_limb).

Definition mpz_init2 (r : positive) (bits : Z) : M zst unit :=
  let bits := bits - b2l (negb (bits =? 0)) in
  let rn := 1 + bits / GMP_LIMB_BITS in
  d ← limbsZ (gmp_xalloc_limbs rn);
  put_mpz r (Mk_mpz (to_int rn) 0 d).

Definition mpz_clear (r : positive) : M zst unit :=
  st ← get_mpz r;
  whenM (negb (mp_alloc st =? 0)) (limbsZ (gmp_free (mp_d st))).

Definition mpz_realloc (r : positive) (size : Z) : M zst Z :=
  let size := if 1 <? size then size else 1 in
  st ← get_mpz r;
  d ← limbsZ (if negb (mp_alloc st =? 0) then gmp_xrealloc_limbs (mp_d st) size else gmp_xalloc_limbs size);
  _ ← put_mpz r (Mk_mpz (to_int size) (if size <? Z.abs (mp_size st) then 0 else mp_size st) d);
  mret d.

Definition MPZ_REALLOC (z : positive) (n : Z) : M zst Z :=
  st ← get_mpz z;
  if mp_alloc st <? n then mpz_realloc z n else mret (mp_d st).

(** ** Assignment and conversions *)

Definition mpz_set_ui (r : positive) (x : Z) : M zst unit :=
  if 0 <? x then
    _ ← set_size r 1;
    p ← MPZ_REALLOC r 1;
    limbsZ (store p x)
  else set_size r 0.

Definition mpz_set_si (r : positive) (x : Z) : M zst unit :=
  if 0 <=? x then mpz_set_ui r x
  else
    _ ← set_size r (-1);
    p ← MPZ_REALLOC r 1;
    limbsZ (store p (GMP_NEG_CAST x)).

Definition mpz_set (r x : positive) : M zst unit :=
  if negb (bool_decide (r = x)) then
    xs ← size_of x;
    let n := Z.abs xs in
    rp ← MPZ_REALLOC r n;
    xp ← limbs_of x;
    _ ← limbsZ (mpn_copyi rp xp n);
    xs ← size_of x;
    set_size r xs
  else mret tt.

Definition mpz_init_set_si (r : positive) (x : Z) : M zst unit := _ ← mpz_init r; mpz_set_si r x.
Definition mpz_init_set_ui (r : positive) (x : Z) : M zst unit := _ ← mpz_init r; mpz_set_ui r x.
Definition mpz_init_set (r x : positive) : M zst unit := _ ← mpz_init r; mpz_set r x.

Definition mpz_get_ui (u : positive) : M zst Z :=
  us ← size_of u;
  if us =? 0 then mret 0 else p ← limbs_of u; limbsZ (load p).

Definition mpz_get_si (u : positive) : M zst Z :=
  us ← size_of u;
  if us <? 0 then
    p ← limbs_of u;
    x ← limbsZ (load p);
    mret (-1 - Z.land (lsub x 1) (lnot GMP_LIMB_HIGHBIT))
  else
    x ← mpz_get_ui u;
    mret (Z.land x (lnot GMP_LIMB_HIGHBIT)).

Definition mpz_fits_slong_p (u : positive) : M zst bool :=
  us ← size_of u;
  if us =? 1 then p ← limbs_of u; x ← limbsZ (load p); mret (x <? GMP_LIMB_HIGHBIT)
  else if us =? -1 then p ← limbs_of u; x ← limbsZ (load p); mret (x <=? GMP_LIMB_HIGHBIT)
  else mret (us =? 0).

Definition mpz_fits_ulong_p (u : positive) : M zst bool :=
  us ← size_of u;
  mret (us =? b2l (0 <? us)).

Definition mpz_fsize (u : positive) : M zst Z := us ← size_of u; mret (Z.abs us).

Definition mpz_getlimbn (u : positive) (n : Z) : M zst Z :=
  us ← size_of u;
  if (0 <=? n) && (n <? Z.abs us) then p ← limbs_of u; limbsZ (load (p + n)) else mret 0.

(** ** Comparison *)

Definition mpz_sgn (u : positive) : M zst Z := us ← size_of u; mret (GMP_CMP us 0).

Definition mpz_cmp_ui (u : positive) (v : Z) : M zst Z :=
  us ← size_of u;
  if 1 <? us then mret 1
  else if us <? 0 then mret (-1)
  else x ← mpz_get_ui u; mret (GMP_CMP x v).

Definition mpz_cmp_si (u : positive) (v : Z) : M zst Z :=
  us ← size_of u;
  if us <? -1 then mret (-1)
  else if 0 <=? v then mpz_cmp_ui u v
  else if 0 <=? us then mret 1
  else p ← limbs_of u; x ← limbsZ (load p); mret (GMP_CMP (GMP_NEG_CAST v) x).

Definition mpz_cmp (a b : positive) : M zst Z :=
  asize ← size_of a;
  bsize ← size_of b;
  if negb (asize =? bsize) then mret (if asize <? bsize then -1 else 1)
  else
    ap ← limbs_of a;
    bp ← limbs_of b;
    if 0 <=? asize then limbsZ (mpn_cmp ap bp asize) else limbsZ (mpn_cmp bp ap (- asize)).

Definition mpz_cmpabs_ui (u : positive) (v : Z) : M zst Z :=
  us ← size_of u;
  if 1 <? Z.abs us then mret 1 else x ← mpz_get_ui u; mret (GMP_CMP x v).

Definition mpz_cmpabs (u v : positive) : M zst Z :=
  up ← limbs_of u;
  us ← size_of u;
  vp ← limbs_of v;
  vs ← size_of v;
  limbsZ (mpn_cmp4 up (Z.abs us) vp (Z.abs vs)).

Definition mpz_abs (r u : positive) : M zst unit :=
  _ ← mpz_set r u;
  rs ← size_of r;
  set_size r (Z.abs rs).

Definition mpz_neg (r u : positive) : M zst unit :=
  _ ← mpz_set r u;
  rs ← size_of r;
  set_size r (- rs).

Definition mpz_swap (u v : positive) : M zst unit :=
  us ← get_mpz u;
  vs ← get_mpz v;
  _ ← put_mpz u vs;
  put_mpz v us.

(** ** Addition and subtraction *)

Definition mpz_abs_add_ui (r a : positive) (b : Z) : M zst Z :=
  asize ← size_of a;
  let an := Z.abs asize in
  if an =? 0 then
    rp ← MPZ_REALLOC r 1;
    _ ← limbsZ (store rp b);
    mret (b2l (0 <? b))
  else
    rp ← MPZ_REALLOC r (an + 1);
    ap ← limbs_of a;
    cy ← limbsZ (mpn_add_1 rp ap an b);
    _ ← limbsZ (store (rp + an) cy);
    mret (an + cy).

Definition mpz_abs_sub_ui (r a : positive) (b : Z) : M zst Z :=
  asize ← size_of a;
  let an := Z.abs asize in
  if an =? 0 then
    rp ← MPZ_REALLOC r 1;
    _ ← limbsZ (store rp b);
    mret (- b2l (0 <? b))
  else
    rp ← MPZ_REALLOC r an;
    less ← (if an =? 1 then ap ← limbs_of a; x ← limbsZ (load ap); mret (x <? b) else mret false);
    if (less : bool) then
      ap ← limbs_of a;
      x ← limbsZ (load ap);
      _ ← limbsZ (store rp (lsub b x));
      mret (-1)
    else
      ap ← limbs_of a;
      _ ← limbsZ (gmp_assert_nocarry (mpn_sub_1 rp ap an b));
      limbsZ (mpn_normalized_size rp an).

Definition mpz_add_ui (r a : positive) (b : Z) : M zst unit :=
  asize ← size_of a;
  if 0 <=? asize then n ← mpz_abs_add_ui r a b; set_size r n
  else n ← mpz_abs_sub_ui r a b; set_size r (- n).

Definition mpz_sub_ui (r a : positive) (b : Z) : M zst unit :=
  asize ← size_of a;
  if asize <? 0 then n ← mpz_abs_add_ui r a b; set_size r (- n)
  else n ← mpz_abs_sub_ui r a b; set_size r n.

Definition mpz_ui_sub (r : positive) (a : Z) (b : positive) : M zst unit :=
  bsize ← size_of b;
  if bsize <? 0 then n ← mpz_abs_add_ui r b a; set_size r n
  else n ← mpz_abs_sub_ui r b a; set_size r (- n).

Definition mpz_abs_add (r a b : positive) : M zst Z :=
  asize ← size_of a;
  bsize ← size_of b;
  let an := Z.abs asize in
  let bn := Z.abs bsize in
  let '(a, b, an, bn) := if an <? bn then (b, a, bn, an) else (a, b, an, bn) in
  rp ← MPZ_REALLOC r (an + 1);
  ap ← limbs_of a;
  bp ← limbs_of b;
  cy ← limbsZ (mpn_add rp ap an bp bn);
  _ ← limbsZ (store (rp + an) cy);
  mret (an + cy).

Definition mpz_abs_sub (r a b : positive) : M zst Z :=
  asize ← size_of a;
  bsize ← size_of b;
  let an := Z.abs asize in
  let bn := Z.abs bsize in
  ap ← limbs_of a;
  bp ← limbs_of b;
  cmp ← limbsZ (mpn_cmp4 ap an bp bn);
  if 0 <? cmp then
    rp ← MPZ_REALLOC r an;
    ap ← limbs_of a;
    bp ← limbs_of b;
    _ ← limbsZ (gmp_assert_nocarry (mpn_sub rp ap an bp bn));
    limbsZ (mpn_normalized_size rp an)
  else if cmp <? 0 then
    rp ← MPZ_REALLOC r bn;
    ap ← limbs_of a;
    bp ← limbs_of b;
    _ ← limbsZ (gmp_assert_nocarry (mpn_sub rp bp bn ap an));
    n ← limbsZ (mpn_normalized_size rp bn);
    mret (- n)
  else mret 0.

Definition mpz_add (r a b : positive) : M zst unit :=
  asize ← size_of a;
  bsize ← size_of b;
  rn ← (if 0 <=? Z.lxor asize bsize then mpz_abs_add r a b else mpz_abs_sub r a b);
  asize ← size_of a;
  set_size r (if 0 <=? asize then rn else - rn).

Definition mpz_sub (r a b : positive) : M zst unit :=
  asize ← size_of a;
  bsize ← size_of b;
  rn ← (if 0 <=? Z.lxor asize bsize then mpz_abs_sub r a b else mpz_abs_add r a b);
  asize ← size_of a;
  set_size r (if 0 <=? asize then rn else - rn).

(** ** Multiplication *)

Definition mpz_mul_ui (r u : positive) (v : Z) : M zst unit :=
  us ← size_of u;
  if (us =? 0) || (v =? 0) then set_size r 0
  else
    let un := Z.abs us in
    tp ← MPZ_REALLOC r (un + 1);
    up ← limbs_of u;
    cy ← limbsZ (mpn_mul_1 tp up un v);
    _ ← limbsZ (store (tp + un) cy);
    let un := un + b2l (0 <? cy) in
    set_size r (if us <? 0 then - un else un).

Definition mpz_mul_si (r u : positive) (v : Z) : M zst unit :=
  if v <? 0 then
    _ ← mpz_mul_ui r u (GMP_NEG_CAST v);
    mpz_neg r r
  else mpz_mul_ui r u v.

Definition mpz_mul (r u v : positive) : M zst unit :=
  un ← size_of u;
  vn ← size_of v;
  if (un =? 0) || (vn =? 0) then set_size r 0
  else
    let sign := Z.lxor un vn <? 0 in
    let un := Z.abs un in
    let vn := Z.abs vn in
    with_local (λ t,
      _ ← mpz_init2 t (lmul (un + vn) GMP_LIMB_BITS);
      tp ← limbs_of t;
      up ← limbs_of u;
      vp ← limbs_of v;
      _ ← limbsZ (if vn <=? un then mpn_mul tp up un vp vn else mpn_mul tp vp vn up un);
      x ← limbsZ (load (tp + (un + vn) - 1));
      let rn := un + vn - b2l (x =? 0) in
      _ ← set_size t (if sign then - rn else rn);
      _ ← mpz_swap r t;
      mpz_clear t).

Definition mpz_mul_2exp (r u : positive) (bits : Z) : M zst unit :=
  us ← size_of u;
  let un := Z.abs us in
  if un =? 0 then set_size r 0
  else
    let limbs := bits / GMP_LIMB_BITS in
    let shift := bits mod GMP_LIMB_BITS in
    let rn := un + limbs + b2l (0 <? shift) in
    rp ← MPZ_REALLOC r rn;
    up ← limbs_of u;
    rn ← (if 0 <? shift then
            cy ← limbsZ (mpn_lshift (rp + limbs) up un shift);
            _ ← limbsZ (store (rp + rn - 1) cy);
            mret (rn - b2l (cy =? 0))
          else
            _ ← limbsZ (mpn_copyd (rp + limbs) up un);
            mret rn);
    _ ← limbsZ (mpn_zero rp limbs);
    us ← size_of u;
    set_size r (if us <? 0 then - rn else rn).

(** mpz_addmul and mpz_submul, with a limb or an integer. *)
Definition accumulate (mul : positive → M zst unit) (op : positive → positive → positive → M zst unit) (r : positive) : M zst unit :=
  with_local (λ t,
    _ ← mpz_init t;
    _ ← mul t;
    _ ← op r r t;
    mpz_clear t).
Definition mpz_addmul_ui (r u : positive) (v : Z) : M zst unit := accumulate (λ t, mpz_mul_ui t u v) mpz_add r.
Definition mpz_submul_ui (r u : positive) (v : Z) : M zst unit := accumulate (λ t, mpz_mul_ui t u v) mpz_sub r.
Definition mpz_addmul (r u v : positive) : M zst unit := accumulate (λ t, mpz_mul t u v) mpz_add r.
Definition mpz_submul (r u v : positive) : M zst unit := accumulate (λ t, mpz_mul t u v) mpz_sub r.

(** ** Division *)

Inductive mpz_div_round_mode := GMP_DIV_FLOOR | GMP_DIV_CEIL | GMP_DIV_TRUNC.

Definition is_floor (mode : mpz_div_round_mode) : bool := match mode with GMP_DIV_FLOOR => true | _ => false end.
Definition is_ceil (mode : mpz_div_round_mode) : bool := match mode with GMP_DIV_CEIL => true | _ => false end.

(** [if (q) ...] *)
Definition if_ptr (q : option positive) (f : positive → M zst unit) : M zst unit :=
  match q with Some q => f q | None => mret tt end.

(** The dividend has fewer limbs than the divisor. *)
Definition div_qr_small (q r : option positive) (n d : positive) (mode : mpz_div_round_mode) (qs : Z) : M zst unit :=
  if is_ceil mode && (0 <=? qs) then
    _ ← if_ptr r (λ r, mpz_sub r n d);
    if_ptr q (λ q, mpz_set_ui q 1)
  else if is_floor mode && (qs <? 0) then
    _ ← if_ptr r (λ r, mpz_add r n d);
    if_ptr q (λ q, mpz_set_si q (-1))
  else
    _ ← if_ptr r (λ r, mpz_set r n);
    if_ptr q (λ q, set_size q 0).

(** The division proper, into the local variables. *)
Definition div_qr_limbs (q : option positive) (tq tr n d : positive) (ns nn dn qs : Z) : M zst Z :=
  _ ← mpz_init_set tr n;
  np ← limbs_of tr;
  let qn := nn - dn + 1 in
  _ ← if_ptr q (λ _, mpz_init2 tq (lmul qn GMP_LIMB_BITS));
  qp ← match q with Some _ => p ← limbs_of tq; mret (Some p) | None => mret None end;
  dp ← limbs_of d;
  _ ← limbsZ (mpn_div_qr qp np nn dp dn);
  _ ← match qp with
      | Some p =>
          x ← limbsZ (load (p + qn - 1));
          let qn := qn - b2l (x =? 0) in
          set_size tq (if qs <? 0 then - qn else qn)
      | None => mret tt
      end;
  rn ← limbsZ (mpn_normalized_size np dn);
  _ ← set_size tr (if ns <? 0 then - rn else rn);
  mret rn.

(** The correction for the rounding mode. *)
Definition div_qr_round (q r : option positive) (tq tr d : positive) (mode : mpz_div_round_mode) (qs rn : Z) : M zst unit :=
  if is_floor mode && (qs <? 0) && negb (rn =? 0) then
    _ ← if_ptr q (λ _, mpz_sub_ui tq tq 1);
    if_ptr r (λ _, mpz_add tr tr d)
  else if is_ceil mode && (0 <=? qs) && negb (rn =? 0) then
    _ ← if_ptr q (λ _, mpz_add_ui tq tq 1);
    if_ptr r (λ _, mpz_sub tr tr d)
  else mret tt.

Definition mpz_div_qr (q r : option positive) (n d : positive) (mode : mpz_div_round_mode) : M zst bool :=
  ns ← size_of n;
  ds ← size_of d;
  if ds =? 0 then gmp_die
  else if ns =? 0 then
    _ ← if_ptr q (λ q, set_size q 0);
    _ ← if_ptr r (λ r, set_size r 0);
    mret false
  else
    let nn := Z.abs ns in
    let dn := Z.abs ds in
    let qs := Z.lxor ds ns in
    if nn <? dn then
      _ ← div_qr_small q r n d mode qs;
      mret true
    else
      with_local (λ tq, with_local (λ tr,
        rn ← div_qr_limbs q tq tr n d ns nn dn qs;
        _ ← div_qr_round q r tq tr d mode qs rn;
        _ ← if_ptr q (λ q, _ ← mpz_swap tq q; mpz_clear tq);
        _ ← if_ptr r (λ r, mpz_swap tr r);
        _ ← mpz_clear tr;
        mret (negb (rn =? 0)))).

Definition mpz_cdiv_qr (q r n d : positive) : M zst unit := _ ← mpz_div_qr (Some q) (Some r) n d GMP_DIV_CEIL; mret tt.
Definition mpz_fdiv_qr (q r n d : positive) : M zst unit := _ ← mpz_div_qr (Some q) (Some r) n d GMP_DIV_FLOOR; mret tt.
Definition mpz_tdiv_qr (q r n d : positive) : M zst unit := _ ← mpz_div_qr (Some q) (Some r) n d GMP_DIV_TRUNC; mret tt.
Definition mpz_cdiv_q (q n d : positive) : M zst unit := _ ← mpz_div_qr (Some q) None n d GMP_DIV_CEIL; mret tt.
Definition mpz_fdiv_q (q n d : positive) : M zst unit := _ ← mpz_div_qr (Some q) None n d GMP_DIV_FLOOR; mret tt.
Definition mpz_tdiv_q (q n d : positive) : M zst unit := _ ← mpz_div_qr (Some q) None n d GMP_DIV_TRUNC; mret tt.
Definition mpz_cdiv_r (r n d : positive) : M zst unit := _ ← mpz_div_qr None (Some r) n d GMP_DIV_CEIL; mret tt.
Definition mpz_fdiv_r (r n d : positive) : M zst unit := _ ← mpz_div_qr None (Some r) n d GMP_DIV_FLOOR; mret tt.
Definition mpz_tdiv_r (r n d : positive) : M zst unit := _ ← mpz_div_qr None (Some r) n d GMP_DIV_TRUNC; mret tt.
Definition mpz_mod (r n d : positive) : M zst unit :=
  ds ← size_of d;
  _ ← mpz_div_qr None (Some r) n d (if 0 <=? ds then GMP_DIV_FLOOR else GMP_DIV_CEIL);
  mret tt.
