(* ===== verification/MpzRep.v ===== *)
(** * Integers as variables that hold numbers

    [holds F FB D N s]: in the state [s] of Mpz.v the variables of [D] are
    declared, and those of [N] are initialised and hold the integers that [N] gives them ([None] for one that
    is being written), each in a block of its own; every block in memory belongs
    to one of them or to the frame [FB], and the cells of the frame [F] are
    apart from them. The lemmas are the steps out of which the functions are
    made: reading a variable, making room in it, writing its limbs, setting its
    size, creating and clearing it. *)

From S2P Require Import Prelude Limbs Mpn Invert MpnDiv MpnDivN MpnStr MpnSetStr MpnGetStr Mpz.

(** ** Sizes *)

(** The number of limbs of [|z|], and the field [_mp_size]. *)
Definition zlimbs (z : Z) : Z := if z =? 0 then 0 else Z.log2 (Z.abs z) / 64 + 1.
Definition zsize (z : Z) : Z := Z.sgn z * zlimbs z.

Lemma B_pow k : 0 ≤ k → B ^ k = 2 ^ (64 * k).
Proof. intros. change B with (2 ^ 64). by rewrite Z.pow_mul_r by lia. Qed.

Lemma zlimbs_nonneg z : 0 ≤ zlimbs z.
Proof.
  unfold zlimbs. destruct (Z.eqb_spec z 0); [done|]. pose proof (Z.log2_nonneg (Z.abs z)).
  pose proof (Z.div_pos (Z.log2 (Z.abs z)) 64 ltac:(done) ltac:(lia)). lia.
Qed.

Lemma zlimbs_unique z k : 0 < k → B ^ (k - 1) ≤ Z.abs z < B ^ k → zlimbs z = k.
Proof.
  intros Hk [Hl Hu]. rewrite B_pow in Hl, Hu by lia. pose proof (Z.pow_pos_nonneg 2 (64 * (k - 1)) ltac:(lia) ltac:(lia)).
  assert (0 < Z.abs z) by lia. unfold zlimbs. rewrite (proj2 (Z.eqb_neq z 0)) by lia.
  apply Z.log2_le_pow2 in Hl; [|lia]. apply Z.log2_lt_pow2 in Hu; [|lia].
  assert (Z.log2 (Z.abs z) / 64 = k - 1); [|lia]. symmetry. apply (Z.div_unique_pos _ _ _ (Z.log2 (Z.abs z) - 64 * (k - 1))); lia.
Qed.

Lemma zlimbs_value xs : Forall limb xs → normalized xs → Z.of_nat (length xs) = zlimbs (value xs).
Proof.
  intros Hx Hn. destruct xs as [|x xs]; [done|]. apply normalized_ge in Hn; [|done|simpl; lia].
  pose proof (value_bounds _ Hx) as [_ Hb]. symmetry. apply zlimbs_unique; [simpl; lia|].
  replace (Z.of_nat (length (x :: xs)) - 1) with (Z.of_nat (pred (length (x :: xs)))) by (simpl; lia).
  rewrite Z.abs_eq; [done|]. pose proof (Z.pow_pos_nonneg B (Z.of_nat (pred (length (x :: xs)))) ltac:(done) ltac:(lia)). lia.
Qed.

Lemma zlimbs_abs z : zlimbs (Z.abs z) = zlimbs z.
Proof. unfold zlimbs. rewrite Z.abs_idemp. destruct (Z.eqb_spec (Z.abs z) 0), (Z.eqb_spec z 0); (done || lia). Qed.

Lemma zlimbs_pos z : z ≠ 0 → 0 < zlimbs z.
Proof.
  intros Hz. unfold zlimbs. rewrite (proj2 (Z.eqb_neq z 0)) by done.
  pose proof (Z.div_pos (Z.log2 (Z.abs z)) 64 ltac:(apply Z.log2_nonneg) ltac:(lia)). lia.
Qed.

Lemma abs_lt z : Z.abs z < B ^ zlimbs z.
Proof.
  destruct (Z.eq_dec z 0) as [->|Hz]; [done|]. pose proof (zlimbs_pos z Hz) as Hp. unfold zlimbs in *. rewrite (proj2 (Z.eqb_neq z 0)) in * by done.
  rewrite B_pow by lia. eapply Z.lt_le_trans; [apply Z.log2_spec; lia|]. apply Z.pow_le_mono_r; [lia|].
  pose proof (Z.mul_succ_div_gt (Z.log2 (Z.abs z)) 64 ltac:(lia)). lia.
Qed.

Lemma zsize_abs z : Z.abs (zsize z) = zlimbs z.
Proof. unfold zsize. pose proof (zlimbs_nonneg z). destruct (Z.sgn_spec z) as [[? ->]|[[<- ->]|[? ->]]]; [lia|done|lia]. Qed.

Lemma zsize_sgn z : Z.sgn (zsize z) = Z.sgn z.
Proof. unfold zsize. destruct (Z.eq_dec z 0) as [->|Hz]; [done|]. pose proof (zlimbs_pos z Hz). destruct (Z.sgn_spec z) as [[? ->]|[[<- ->]|[? ->]]]; [|done|]; lia. Qed.

Lemma zsize_opp z : zsize (- z) = - zsize z.
Proof. unfold zsize. rewrite Z.sgn_opp, <- zlimbs_abs, Z.abs_opp, zlimbs_abs. lia. Qed.

Lemma zsize_nonneg z : 0 ≤ zsize z ↔ 0 ≤ z.
Proof. pose proof (zsize_sgn z). destruct (Z.sgn_spec z), (Z.sgn_spec (zsize z)); lia. Qed.

Lemma zsize_0 z : zsize z = 0 ↔ z = 0.
Proof. pose proof (zsize_sgn z). destruct (Z.sgn_spec z), (Z.sgn_spec (zsize z)); lia. Qed.

(** The value that a size and limbs stand for. *)
Lemma sgn_abs_value n v : Z.sgn n * v = if 0 <=? n then (if n =? 0 then 0 else v) else - v.
Proof. destruct (Z.leb_spec 0 n), (Z.eqb_spec n 0), (Z.sgn_spec n) as [[? ->]|[[? ->]|[? ->]]]; lia. Qed.

(** ** The representation *)

(** The block of a variable. *)
Definition mpz_block (m : mem) (st : mpz_struct) : Prop :=
  0 ≤ mp_alloc st ≤ alloc_limit ∧ INT_MIN < mp_size st ≤ INT_MAX ∧
  (mp_alloc st = 0 ∧ mp_d st = dummy_limb ∨
   0 < mp_alloc st ∧ 0 ≤ mp_d st ∧ blocks m !! mp_d st = Some (mp_alloc st) ∧ writable m (mp_d st) (Z.to_nat (mp_alloc st))).

(** The number in it. *)
Definition mpz_value (m : mem) (st : mpz_struct) (z : Z) : Prop :=
  ∃ xs, limbs_at m (mp_d st) xs ∧ normalized xs ∧ Z.of_nat (length xs) = Z.abs (mp_size st) ∧
    Z.abs (mp_size st) ≤ mp_alloc st ∧ z = Z.sgn (mp_size st) * value xs.

Abbreviation vars := (gmap positive (option Z)).

Definition own (N : vars) (s : zst) (r : positive) (st : mpz_struct) : Prop :=
  is_Some (N !! r) ∧ zvars s !! r = Some (Some st).

Definition in_block (st : mpz_struct) (a : Z) : Prop := mp_d st ≤ a < mp_d st + mp_alloc st.
Definition apart (st1 st2 : mpz_struct) : Prop := disjoint (mp_d st1) (mp_alloc st1) (mp_d st2) (mp_alloc st2).

Record holds (F : gmap Z (option Z)) (FB : gmap Z Z) (D : positive → Prop) (N : vars) (s : zst) : Prop := Mk_holds {
  h_wf : mem_wf (zmem s) ∧ 0 ≤ next (zmem s);
  h_frame : F ⊆ cells (zmem s) ∧ F !! dummy_limb = Some (Some 0xc1a0);
  h_var : ∀ r o, N !! r = Some o → ∃ st, zvars s !! r = Some (Some st) ∧ mpz_block (zmem s) st ∧ (∀ z, o = Some z → mpz_value (zmem s) st z);
  h_sep : ∀ r1 r2 st1 st2, r1 ≠ r2 → own N s r1 st1 → own N s r2 st2 → apart st1 st2;
  h_apart : ∀ r st a, own N s r st → in_block st a → F !! a = None;
  h_fb : ∀ r st, own N s r st → 0 < mp_alloc st → FB !! mp_d st = None;
  h_blocks : ∀ a n, blocks (zmem s) !! a = Some n ↔
    FB !! a = Some n ∨ ∃ r st, own N s r st ∧ 0 < mp_alloc st ∧ mp_d st = a ∧ mp_alloc st = n;
  h_local : ∀ r, is_Some (zvars s !! r) → (r < zlocal s)%positive;
  h_decl : ∀ r, D r → is_Some (zvars s !! r);
}.

Section change.
Context {F : gmap Z (option Z)} {FB : gmap Z Z} {D : positive → Prop}.
Local Abbreviation holds := (holds F FB D).

(** Variable [r] gets the struct [st'] and the memory becomes [m']; everything
    else stays. *)
Lemma holds_change N s r o st' m' :
  holds N s → is_Some (zvars s !! r) → mem_wf m' → 0 ≤ next m' →
  mpz_block m' st' → (∀ z, o = Some z → mpz_value m' st' z) →
  (∀ a, is_Some (F !! a) → cells m' !! a = cells (zmem s) !! a) →
  (∀ r' st a, r' ≠ r → own N s r' st → in_block st a → cells m' !! a = cells (zmem s) !! a) →
  (∀ a, in_block st' a → F !! a = None) →
  (∀ r' st, r' ≠ r → own N s r' st → apart st' st) →
  (0 < mp_alloc st' → FB !! mp_d st' = None) →
  (∀ a n, blocks m' !! a = Some n ↔
    FB !! a = Some n ∨ (0 < mp_alloc st' ∧ mp_d st' = a ∧ mp_alloc st' = n) ∨
    ∃ r' st, r' ≠ r ∧ own N s r' st ∧ 0 < mp_alloc st ∧ mp_d st = a ∧ mp_alloc st = n) →
  holds (<[r := o]> N) (Mk_zst m' (<[r := Some st']> (zvars s)) (zlocal s)).
Proof.
  intros H Hr Hwf Hnn Hb Hv HF Hc Hap Hsep Hfb Hbl.
  assert (∀ r' st, own (<[r := o]> N) (Mk_zst m' (<[r := Some st']> (zvars s)) (zlocal s)) r' st →
    r' = r ∧ st = st' ∨ r' ≠ r ∧ own N s r' st) as Hown.
  { intros r' st [Hs Hz]. simpl in *. destruct (decide (r' = r)) as [->|Hne].
    - rewrite lookup_insert_eq in Hz. left. split; [done|congruence].
    - rewrite lookup_insert_ne in Hs by done. rewrite lookup_insert_ne in Hz by done. by right. }
  split; simpl.
  - done.
  - destruct (h_frame _ _ _ _ _ H) as [Hf Hd]. split; [|done]. apply map_subseteq_spec. intros a x Ha.
    rewrite HF by eauto. by eapply map_subseteq_spec.
  - intros r' o' Hr'. destruct (decide (r' = r)) as [->|Hne].
    + rewrite lookup_insert_eq in Hr'. simplify_eq. exists st'. by rewrite lookup_insert_eq.
    + rewrite lookup_insert_ne in Hr' by done. destruct (h_var _ _ _ _ _ H _ _ Hr') as (st & Hst & (Hal & Hsz & Hbk) & Hval).
      assert (own N s r' st) as Ho by (split; eauto). exists st. rewrite lookup_insert_ne by done.
      assert (∀ i : nat, Z.of_nat i < mp_alloc st → cells m' !! (mp_d st + Z.of_nat i) = cells (zmem s) !! (mp_d st + Z.of_nat i)) as Hcell.
      { intros i Hi. eapply Hc; [done|done|unfold in_block; lia]. }
      split; [done|]. split; [split; [done|split; [done|]]|].
      * destruct Hbk as [?|(Hpos & Hd & Hbk & Hw)]; [by left|right]. split_and!; [done|done| |].
        -- apply Hbl. right. right. by exists r', st.
        -- intros i Hi. rewrite Hcell by lia. by apply Hw.
      * intros z Hz. destruct (Hval z Hz) as (xs & [Hl Hx] & Hn & Hlen & Hle & ->). exists xs. split_and!; try done.
        split; [done|]. intros i x Hi. pose proof (lookup_lt_Some _ _ _ Hi). rewrite Hcell by lia. by apply Hx.
  - intros r1 r2 st1 st2 Hne H1 H2. apply Hown in H1, H2.
    destruct H1 as [[-> ->]|[Hn1 H1]], H2 as [[-> ->]|[Hn2 H2]]; [done|by eapply Hsep| |by eapply (h_sep _ _ _ _ _ H r1 r2)].
    apply (Hsep r1) in H1; [|done]. unfold apart, disjoint in *. lia.
  - intros r' st a [[-> ->]|[Hne Ho]]%Hown; [apply Hap|by eapply h_apart].
  - intros r' st [[-> ->]|[Hne Ho]]%Hown; [apply Hfb|by eapply h_fb].
  - intros a n. rewrite Hbl. split.
    + intros [?|[Hnew|(r' & st & Hne & Ho & Hrest)]]; [by left| |].
      * right. exists r, st'. split; [|done]. split; simpl; rewrite lookup_insert_eq; eauto.
      * right. exists r', st. split; [|done]. destruct Ho. split; simpl; rewrite lookup_insert_ne by done; done.
    + intros [?|(r' & st & [[-> ->]|[Hne Ho]]%Hown & Hrest)]; [by left|by right; left|].
      right. right. by exists r', st.
  - intros r' Hs. apply (h_local _ _ _ _ _ H). destruct (decide (r' = r)) as [->|Hne]; [done|by rewrite lookup_insert_ne in Hs].
  - intros r' Hr'. destruct (decide (r' = r)) as [->|Hne]; [rewrite lookup_insert_eq; eauto|rewrite lookup_insert_ne by done; by apply (h_decl _ _ _ _ _ H)].
Qed.

(** ** Reading *)

Lemma holds_own N s r : holds N s → is_Some (N !! r) → ∃ st, own N s r st ∧ mpz_block (zmem s) st.
Proof. intros H [o Ho]. destruct (h_var _ _ _ _ _ H _ _ Ho) as (st & Hst & Hb & _). exists st. by split; [split; eauto|]. Qed.

Lemma own_block N s r st : holds N s → own N s r st → mpz_block (zmem s) st.
Proof. intros H [Hs Hst]. destruct (holds_own N s r H Hs) as (st' & [_ Hst'] & Hb). by simplify_eq. Qed.

Lemma holds_read N s r z :
  holds N s → N !! r = Some (Some z) →
  ∃ st xs, own N s r st ∧ limbs_at (zmem s) (mp_d st) xs ∧ normalized xs ∧ Z.of_nat (length xs) = zlimbs z ∧
    mp_size st = zsize z ∧ value xs = Z.abs z ∧ zlimbs z ≤ mp_alloc st.
Proof.
  intros H Hr. destruct (h_var _ _ _ _ _ H _ _ Hr) as (st & Hst & Hb & Hv). destruct (Hv z eq_refl) as (xs & Hx & Hn & Hl & Hle & ->).
  pose proof (zlimbs_value xs (proj1 Hx) Hn) as Hz. pose proof (value_bounds xs (proj1 Hx)) as [Hv0 _].
  assert (Z.abs (Z.sgn (mp_size st) * value xs) = value xs) as Ha.
  { destruct (Z.sgn_spec (mp_size st)) as [[? ->]|[[E ->]|[? ->]]]; [lia| |lia].
    rewrite <- E in Hl. destruct xs; [done|simpl in Hl; lia]. }
  assert (zlimbs (Z.sgn (mp_size st) * value xs) = Z.abs (mp_size st)) as Hzl by (rewrite <- zlimbs_abs, Ha; lia).
  exists st, xs. rewrite Hzl. split; [by split; eauto|]. split_and!; try done.
  unfold zsize. rewrite Hzl. destruct (Z.eq_dec (mp_size st) 0) as [->|Hne]; [done|].
  assert (0 < value xs).
  { destruct (Z.eq_dec (value xs) 0) as [E0|]; [|lia]. rewrite E0 in Hz. unfold zlimbs in Hz. simpl in Hz. lia. }
  rewrite Z.sgn_mul, (Z.sgn_pos (value xs)), Z.sgn_sgn by done. destruct (Z.sgn_spec (mp_size st)) as [[? ->]|[[? ->]|[? ->]]]; lia.
Qed.

Lemma get_mpz_ok N s r st : own N s r st → get_mpz r s = Done st s.
Proof. intros [_ H]. unfold get_mpz. by rewrite H. Qed.

Lemma size_of_own N s r st : own N s r st → size_of r s = Done (mp_size st) s.
Proof. intros H. unfold size_of. by rewrite (bind_done _ _ _ _ _ (get_mpz_ok _ _ _ _ H)). Qed.

Lemma limbs_of_own N s r st : own N s r st → limbs_of r s = Done (mp_d st) s.
Proof. intros H. unfold limbs_of. by rewrite (bind_done _ _ _ _ _ (get_mpz_ok _ _ _ _ H)). Qed.

Lemma size_of_ok N s r z : holds N s → N !! r = Some (Some z) → size_of r s = Done (zsize z) s.
Proof. intros H Hr. destruct (holds_read N s r z H Hr) as (st & xs & Ho & _ & _ & _ & <- & _). by eapply size_of_own. Qed.

(** The limbs of a variable are below [next]. *)
Lemma own_below N s r st : holds N s → own N s r st → 0 < mp_alloc st → mp_d st + mp_alloc st ≤ next (zmem s).
Proof.
  intros H Ho Hp. destruct (own_block N s r st H Ho) as (_ & _ & [[? _]|(_ & _ & _ & Hw)]); [lia|].
  apply writable_below in Hw; [lia|apply (h_wf _ _ _ _ _ H)|lia].
Qed.

(** ** Writing *)

(** Only cells of the block of [st] change. *)
Definition touches (st : mpz_struct) (m m' : mem) : Prop :=
  blocks m' = blocks m ∧ mem_wf m' ∧ next m ≤ next m' ∧ (∀ a, ¬ in_block st a → cells m' !! a = cells m !! a) ∧
  (∀ a, in_block st a → is_Some (cells m !! a) → is_Some (cells m' !! a)).

Definition set_mem (s : zst) (m : mem) : zst := Mk_zst m (zvars s) (zlocal s).

Lemma block_writable m st : mpz_block m st → writable m (mp_d st) (Z.to_nat (mp_alloc st)).
Proof. intros (_ & _ & [[-> _]|(_ & _ & _ & ?)]); [intros i Hi; simpl in Hi; lia|done]. Qed.

(** The blocks of [N], with that of [r] named. *)
Lemma blocks_split N s r st a n : holds N s → own N s r st →
  blocks (zmem s) !! a = Some n ↔
  FB !! a = Some n ∨ (0 < mp_alloc st ∧ mp_d st = a ∧ mp_alloc st = n) ∨
  ∃ r' st', r' ≠ r ∧ own N s r' st' ∧ 0 < mp_alloc st' ∧ mp_d st' = a ∧ mp_alloc st' = n.
Proof.
  intros H Ho. rewrite (h_blocks _ _ _ _ _ H). split.
  - intros [?|(r' & st' & Ho' & Hrest)]; [by left|right]. destruct (decide (r' = r)) as [->|Hne]; [left|right; by exists r', st'].
    destruct Ho as [_ E], Ho' as [_ E']. by simplify_eq.
  - intros [?|[?|(r' & st' & _ & ?)]]; [by left|right; by exists r, st|right; by exists r', st'].
Qed.

(** A change in the block of [r] and of its size. *)
Lemma holds_update N s r st m' n o :
  holds N s → own N s r st → touches st (zmem s) m' → INT_MIN < n ≤ INT_MAX →
  (∀ z, o = Some z → mpz_value m' (Mk_mpz (mp_alloc st) n (mp_d st)) z) →
  holds (<[r := o]> N) (Mk_zst m' (<[r := Some (Mk_mpz (mp_alloc st) n (mp_d st))]> (zvars s)) (zlocal s)).
Proof.
  intros H Ho (Hb & Hwf & Hnx & Hc & Hcs) Hn Hv. destruct (own_block N s r st H Ho) as (Hal & _ & Hblk).
  apply holds_change; try done.
  - destruct Ho. eauto.
  - pose proof (proj2 (h_wf _ _ _ _ _ H)). lia.
  - split; [done|]. split; [done|]. simpl. destruct Hblk as [?|(? & ? & Hbk & Hw)]; [by left|right]. rewrite Hb. split_and!; try done.
    intros i Hi. apply Hcs; [unfold in_block; lia|]. by apply Hw.
  - intros a Ha. apply Hc. intros Hin. pose proof (h_apart _ _ _ _ _ H _ _ _ Ho Hin) as E. rewrite E in Ha. by destruct Ha.
  - intros r' st' a Hne Ho' Ha. apply Hc. intros Hin. pose proof (h_sep _ _ _ _ _ H _ _ _ _ Hne Ho' Ho) as Hd.
    unfold apart, disjoint, in_block in *. lia.
  - intros a Ha. exact (h_apart _ _ _ _ _ H r st a Ho Ha).
  - intros r' st' Hne Ho'. exact (h_sep _ _ _ _ _ H r r' st st' (not_eq_sym Hne) Ho Ho').
  - exact (h_fb _ _ _ _ _ H r st Ho).
  - intros a k. rewrite Hb. exact (blocks_split N s r st a k H Ho).
Qed.

Lemma touches_refl st m : mem_wf m → touches st m m.
Proof. intros. by split_and!. Qed.

Lemma own_size_range N s r st : holds N s → own N s r st → INT_MIN < mp_size st ≤ INT_MAX.
Proof. intros H Ho. apply (own_block N s r st H Ho). Qed.

Lemma insert_own N s r st : own N s r st → <[r := Some (Mk_mpz (mp_alloc st) (mp_size st) (mp_d st))]> (zvars s) = zvars s.
Proof. intros [_ E]. apply insert_id. rewrite E. by destruct st. Qed.

Lemma holds_write N s r st m' : holds N s → own N s r st → touches st (zmem s) m' → holds (<[r := None]> N) (set_mem s m').
Proof.
  intros H Ho Ht. pose proof (holds_update N s r st m' (mp_size st) None H Ho Ht (own_size_range _ _ _ _ H Ho) ltac:(done)) as Hu.
  by rewrite (insert_own N s r st Ho) in Hu.
Qed.

Lemma holds_raw N s r : holds N s → is_Some (N !! r) → holds (<[r := None]> N) s.
Proof.
  intros H Hr. destruct (holds_own N s r H Hr) as (st & Ho & _). pose proof (holds_write N s r st (zmem s) H Ho) as Hw.
  destruct s. apply Hw, touches_refl, (h_wf _ _ _ _ _ H).
Qed.

(** ** New blocks *)

Lemma frame_below N s a : holds N s → is_Some (F !! a) → a < next (zmem s).
Proof.
  intros H [x Hx]. destruct (h_frame _ _ _ _ _ H) as [Hf _]. pose proof (proj1 (map_subseteq_spec _ _) Hf _ _ Hx) as E.
  destruct (Z.lt_ge_cases a (next (zmem s))) as [|Hge]; [done|]. destruct (proj1 (h_wf _ _ _ _ _ H) a Hge) as [En _]. congruence.
Qed.

Lemma own_apart_above N s r st p n : holds N s → own N s r st → next (zmem s) ≤ p → disjoint p n (mp_d st) (mp_alloc st).
Proof.
  intros H Ho Hp. pose proof (proj2 (h_wf _ _ _ _ _ H)). destruct (own_block _ _ _ _ H Ho) as (Hal & _ & [[E0 Ed]|(Hpos & _)]).
  - unfold disjoint, dummy_limb in *. lia.
  - pose proof (own_below N s r st H Ho Hpos). unfold disjoint. lia.
Qed.

(** Variable [r] gets a block at [next]; its old block, if it has one, goes. *)
Lemma holds_fresh N s r o m' n sz :
  holds N s → is_Some (zvars s !! r) → 0 < n ≤ alloc_limit → INT_MIN < sz ≤ INT_MAX →
  mem_wf m' → next (zmem s) ≤ next m' →
  writable m' (next (zmem s)) (Z.to_nat n) →
  (∀ a, a < next (zmem s) → (∀ st, own N s r st → ¬ in_block st a) → cells m' !! a = cells (zmem s) !! a) →
  (∀ a k, blocks m' !! a = Some k ↔
    (next (zmem s) = a ∧ n = k) ∨ (blocks (zmem s) !! a = Some k ∧ ∀ st, own N s r st → 0 < mp_alloc st → a ≠ mp_d st)) →
  (∀ z, o = Some z → mpz_value m' (Mk_mpz n sz (next (zmem s))) z) →
  holds (<[r := o]> N) (Mk_zst m' (<[r := Some (Mk_mpz n sz (next (zmem s)))]> (zvars s)) (zlocal s)).
Proof.
  intros H Hr Hn Hsz Hwf Hnx Hw Hc Hb Hv. pose proof (h_wf _ _ _ _ _ H) as [Hwf0 Hnn].
  assert (∀ r' st' st, r' ≠ r → own N s r' st' → own N s r st → apart st' st) as Hsep by (intros; by eapply (h_sep _ _ _ _ _ H r' r)).
  apply holds_change; simpl; try done; try lia.
  - split; [simpl; lia|]. split; [done|]. right. simpl. split_and!; try done; try lia. apply Hb. by left.
  - intros a Ha. apply Hc; [by eapply frame_below|]. intros st Ho Hin. pose proof (h_apart _ _ _ _ _ H _ _ _ Ho Hin) as E. rewrite E in Ha. by destruct Ha.
  - intros r' st' a Hne Ho' Ha. apply Hc.
    + unfold in_block in Ha. pose proof (own_below N s r' st' H Ho' ltac:(lia)). lia.
    + intros st Ho Hin. pose proof (Hsep _ _ _ Hne Ho' Ho) as Hd. unfold apart, disjoint, in_block in *. lia.
  - intros a Ha. unfold in_block in Ha. simpl in Ha. destruct (F !! a) eqn:E; [|done]. pose proof (frame_below N s a H ltac:(eauto)). lia.
  - intros r' st' Hne Ho'. by eapply own_apart_above.
  - intros _. destruct (FB !! next (zmem s)) eqn:E; [|done]. exfalso.
    destruct (Hwf0 (next (zmem s)) ltac:(lia)) as [_ En]. pose proof (proj2 (h_blocks _ _ _ _ _ H _ _) (or_introl E)). congruence.
  - intros a k. rewrite Hb. split.
    + intros [[<- <-]|[Hbk Hne]]; [right; left; split_and!; (done || lia)|].
      apply (h_blocks _ _ _ _ _ H) in Hbk as [?|(r' & st' & Ho' & Hp & <- & <-)]; [by left|]. right. right. exists r', st'.
      split; [|done]. intros ->. by apply (Hne st').
    + intros [HFB|[(_ & <- & <-)|(r' & st' & Hne & Ho' & Hp & <- & <-)]]; [right|by left|right].
      * split; [apply (h_blocks _ _ _ _ _ H); by left|]. intros st Ho Hp ->. pose proof (h_fb _ _ _ _ _ H _ _ Ho Hp). congruence.
      * split; [apply (h_blocks _ _ _ _ _ H); right; by exists r', st'|]. intros st Ho Hp0 E.
        pose proof (Hsep _ _ _ Hne Ho' Ho) as Hd. unfold apart, disjoint in Hd. lia.
Qed.

Lemma lookup_moved_cells c old new k n a :
  moved_cells c old new k n !! a =
  if (new <=? a) && (a <? new + Z.of_nat n)
  then Some (if a - new <? Z.of_nat k then match c !! (old + (a - new)) with Some v => v | None => None end else None)
  else c !! a.
Proof.
  revert old new k. induction n as [|n IH]; intros old new k; cbn [moved_cells].
  - by guard_false ((new <=? a) && (a <? new + Z.of_nat 0)).
  - destruct (Z.eq_dec a new) as [->|Hne].
    + rewrite lookup_insert_eq. guard_true ((new <=? new) && (new <? new + Z.of_nat (S n))). rewrite Z.sub_diag, Z.add_0_r.
      by destruct k.
    + rewrite lookup_insert_ne, IH by done. destruct ((new + 1 <=? a) && (a <? new + 1 + Z.of_nat n)) eqn:Hb; bool_to_prop.
      * guard_true ((new <=? a) && (a <? new + Z.of_nat (S n))). replace (old + 1 + (a - (new + 1))) with (old + (a - new)) by lia.
        do 2 f_equal. destruct (Z.ltb_spec (a - (new + 1)) (Z.of_nat (pred k))), (Z.ltb_spec (a - new) (Z.of_nat k)); (done || lia).
      * by guard_false ((new <=? a) && (a <? new + Z.of_nat (S n))).
Qed.

(** Moving the block of [r] to one of [n] limbs. *)
Lemma realloc_moves N s r st n :
  holds N s → own N s r st → 0 < mp_alloc st → 0 < n ≤ alloc_limit →
  ∃ m', gmp_xrealloc_limbs (mp_d st) n (zmem s) = Done (next (zmem s)) m' ∧ mem_wf m' ∧ next (zmem s) ≤ next m' ∧
    writable m' (next (zmem s)) (Z.to_nat n) ∧
    (∀ a, a < next (zmem s) → ¬ in_block st a → cells m' !! a = cells (zmem s) !! a) ∧
    (∀ a k, blocks m' !! a = Some k ↔ (next (zmem s) = a ∧ n = k) ∨ (blocks (zmem s) !! a = Some k ∧ a ≠ mp_d st)) ∧
    (∀ xs, limbs_at (zmem s) (mp_d st) xs → Z.of_nat (length xs) ≤ mp_alloc st → Z.of_nat (length xs) ≤ n → limbs_at m' (next (zmem s)) xs).
Proof.
  intros H Ho Hp Hn. pose proof (own_below N s r st H Ho Hp) as Hlow. destruct (own_block _ _ _ _ H Ho) as (_ & _ & [[? _]|(_ & Hd & Hbk & Hw)]); [lia|].
  destruct (h_wf _ _ _ _ _ H) as [Hwf Hnn]. set (m := zmem s) in *.
  unfold gmp_xrealloc_limbs. rewrite lift_assert_bind by (apply Z.ltb_lt; lia). rewrite Hbk. guard_true (n <=? alloc_limit).
  set (c' := drop_cells (moved_cells (cells m) (mp_d st) (next m) (Z.to_nat (mp_alloc st)) (Z.to_nat n)) (mp_d st) (Z.to_nat (mp_alloc st))).
  assert (∀ a, in_block st a → c' !! a = None) as Hold.
  { intros a Ha. unfold c'. rewrite lookup_drop_cells. unfold in_block in Ha. by guard_true ((mp_d st <=? a) && (a <? mp_d st + Z.of_nat (Z.to_nat (mp_alloc st)))). }
  assert (∀ a, ¬ in_block st a → c' !! a = moved_cells (cells m) (mp_d st) (next m) (Z.to_nat (mp_alloc st)) (Z.to_nat n) !! a) as Hnew.
  { intros a Ha. unfold c'. rewrite lookup_drop_cells. unfold in_block in Ha.
    destruct ((mp_d st <=? a) && (a <? mp_d st + Z.of_nat (Z.to_nat (mp_alloc st)))) eqn:Hb; [bool_to_prop; lia|done]. }
  eexists. split; [reflexivity|]. split_and!; simpl; try lia.
  - intros a Ha. simpl in *. fold c'. rewrite Hnew, lookup_moved_cells by (unfold in_block; lia).
    guard_false ((next m <=? a) && (a <? next m + Z.of_nat (Z.to_nat n))).
    rewrite lookup_delete_ne, lookup_insert_ne by lia. apply Hwf. lia.
  - intros i Hi. simpl. fold c'. rewrite Hnew, lookup_moved_cells by (unfold in_block; lia).
    guard_true ((next m <=? next m + Z.of_nat i) && (next m + Z.of_nat i <? next m + Z.of_nat (Z.to_nat n))). eauto.
  - intros a Ha Hin. fold c'. rewrite Hnew, lookup_moved_cells by done. by guard_false ((next m <=? a) && (a <? next m + Z.of_nat (Z.to_nat n))).
  - intros a k. destruct (decide (a = mp_d st)) as [->|Hne].
    + rewrite lookup_delete_eq. split; [done|]. intros [[? _]|[_ ?]]; [lia|done].
    + rewrite lookup_delete_ne by done. destruct (decide (a = next m)) as [->|Hne'].
      * rewrite lookup_insert_eq. destruct (Hwf (next m) ltac:(lia)) as [_ ->]. split; [intros [= ->]; by left|]. intros [[_ ->]|[? _]]; done.
      * rewrite lookup_insert_ne by done. split; [intros ?; by right|]. intros [[? _]|[? _]]; [congruence|done].
  - intros xs [Hl Hx] Hle Hln. split; [done|]. intros i x Hi. pose proof (lookup_lt_Some _ _ _ Hi). simpl. fold c'.
    rewrite Hnew, lookup_moved_cells by (unfold in_block; lia).
    guard_true ((next m <=? next m + Z.of_nat i) && (next m + Z.of_nat i <? next m + Z.of_nat (Z.to_nat n))).
    replace (next m + Z.of_nat i - next m) with (Z.of_nat i) by lia. guard_true (Z.of_nat i <? Z.of_nat (Z.to_nat (mp_alloc st))).
    by rewrite (Hx _ _ Hi).
Qed.

(** ** Steps of the functions *)

Lemma wp_run {A} (k : M zst A) (Q : A → zst → Prop) s a s' : k s = Done a s' → Q a s' → wp never k Q s.
Proof. intros E HQ. unfold wp. by rewrite E. Qed.

Lemma to_int_id n : INT_MIN ≤ n ≤ INT_MAX → to_int n = n.
Proof.
  intros H. unfold to_int, INT_MIN, INT_MAX, UINT_MOD in *. destruct (Z.lt_ge_cases n 0).
  - rewrite <- (Z.mod_add n 1) by lia. rewrite Z.mod_small by lia. rewrite (proj2 (Z.leb_gt _ _)) by lia. lia.
  - rewrite Z.mod_small by lia. by rewrite (proj2 (Z.leb_le _ _)) by lia.
Qed.

Lemma put_mpz_ok N s r st st' : own N s r st → put_mpz r st' s = Done tt (Mk_zst (zmem s) (<[r := Some st']> (zvars s)) (zlocal s)).
Proof. intros [_ E]. unfold put_mpz. by rewrite E. Qed.

(** What MPZ_REALLOC leaves: the same numbers, room for [n] limbs in [r]. *)
Definition roomy (N : vars) (s : zst) (r : positive) (st0 : mpz_struct) (n p : Z) (s' : zst) : Prop :=
  holds N s' ∧ (∀ r', r' ≠ r → zvars s' !! r' = zvars s !! r') ∧
  ∃ st, own N s' r st ∧ mp_d st = p ∧ n ≤ mp_alloc st ∧
    (Z.abs (mp_size st0) ≤ mp_alloc st0 ∨ Z.abs (mp_size st0) ≤ Z.max 1 n → mp_size st = mp_size st0).

Lemma mpz_realloc_spec N s r st0 n :
  holds N s → own N s r st0 → n ≤ alloc_limit → mp_alloc st0 < n → wp never (mpz_realloc r n) (roomy N s r st0 n) s.
Proof.
  intros H Ho Hn Hlt. unfold mpz_realloc. destruct (own_block _ _ _ _ H Ho) as (Hal & Hsz & Hb).
  set (size := if 1 <? n then n else 1). assert (size = n) as Esize by (unfold size; destruct (Z.ltb_spec 1 n); lia). cbv zeta. fold size. rewrite Esize.
  set (sz := if n <? Z.abs (mp_size st0) then 0 else mp_size st0).
  destruct (proj1 Ho) as [o Eo].
  assert (∃ m', (if negb (mp_alloc st0 =? 0) then gmp_xrealloc_limbs (mp_d st0) n else gmp_xalloc_limbs n) (zmem s) = Done (next (zmem s)) m' ∧
    holds (<[r := o]> N) (Mk_zst m' (<[r := Some (Mk_mpz n sz (next (zmem s)))]> (zvars s)) (zlocal s))) as (m' & E & H').
  { assert (∀ z, o = Some z → ∃ xs, limbs_at (zmem s) (mp_d st0) xs ∧ normalized xs ∧ Z.of_nat (length xs) = Z.abs (mp_size st0) ∧
      Z.abs (mp_size st0) ≤ mp_alloc st0 ∧ z = Z.sgn (mp_size st0) * value xs) as Hval.
    { intros z ->. destruct (h_var _ _ _ _ _ H _ _ Eo) as (st & Est & _ & Hv). destruct Ho as [_ Est0]. simplify_eq. by apply Hv. }
    assert (∀ st, own N s r st → st = st0) as Huniq by (intros st [_ Est]; destruct Ho as [_ Est0]; congruence).
    assert (INT_MIN < sz ≤ INT_MAX) as Hszr by (unfold sz, INT_MIN, INT_MAX in *; destruct (Z.ltb_spec n (Z.abs (mp_size st0))); lia).
    destruct (Z.eqb_spec (mp_alloc st0) 0) as [E0|E0]; cbn [negb].
    - exists (grow (zmem s) n). split; [apply xalloc_ok; lia|]. apply holds_fresh; try done.
      + destruct Ho. eauto.
      + lia.
      + apply mem_wf_grow; [apply (h_wf _ _ _ _ _ H)|lia].
      + simpl. lia.
      + apply writable_new.
      + intros a Ha _. simpl. rewrite lookup_fresh_cells. by guard_false ((next (zmem s) <=? a) && (a <? next (zmem s) + Z.of_nat (Z.to_nat n))).
      + intros a k. simpl. destruct (decide (a = next (zmem s))) as [->|Hne].
        * rewrite lookup_insert_eq. destruct (proj1 (h_wf _ _ _ _ _ H) (next (zmem s)) ltac:(lia)) as [_ ->].
          split; [intros [= ->]; by left|]. intros [[_ ->]|[? _]]; done.
        * rewrite lookup_insert_ne by done. split; [|by intros [[? _]|[? _]]; [congruence|]].
          intros Hk. right. split; [done|]. intros st ->%Huniq. lia.
      + intros z Hz. destruct (Hval z Hz) as (xs & Hx & Hnm & Hlen & Hle & ->). assert (mp_size st0 = 0) as Es by lia.
        destruct xs; [|simpl in Hlen; lia]. exists []. unfold sz. rewrite Es, (proj2 (Z.ltb_ge n (Z.abs 0))) by lia. simpl.
        split_and!; first [done|apply limbs_at_nil|lia].
    - destruct (realloc_moves N s r st0 n H Ho) as (m' & E & Hwf & Hnx & Hw & Hc & Hbl & Hlm); [lia|lia|].
      exists m'. split; [done|]. apply holds_fresh; try done.
      + destruct Ho. eauto.
      + lia.
      + intros a Ha Hin. apply Hc; [done|]. by apply Hin.
      + intros a k. rewrite Hbl. split; (intros [?|[? Hne]]; [by left|right; split; [done|]]).
        * intros st ->%Huniq. done.
        * apply (Hne st0 Ho). lia.
      + intros z Hz. destruct (Hval z Hz) as (xs & Hx & Hnm & Hlen & Hle & ->). exists xs. unfold sz.
        rewrite (proj2 (Z.ltb_ge n _)) by lia. simpl. split_and!; first [done|lia|apply Hlm; (done || lia)]. }
  rewrite (insert_id N r o Eo) in H'. eapply wp_run.
  - rewrite (bind_done _ _ _ _ _ (get_mpz_ok _ _ _ _ Ho)), (bind_done _ _ s (next (zmem s)) (Mk_zst m' (zvars s) (zlocal s))); [|unfold limbsZ, zoom; by rewrite E].
    rewrite (bind_done _ _ _ _ _ (put_mpz_ok N (Mk_zst m' (zvars s) (zlocal s)) r st0 _ Ho)). reflexivity.
  - fold sz. rewrite to_int_id by (unfold INT_MIN, INT_MAX, alloc_limit in *; lia). split; [done|]. split.
    + intros r' Hne. simpl. by rewrite lookup_insert_ne.
    + eexists. split; [split; [apply Ho|simpl; by rewrite lookup_insert_eq]|]. simpl. split_and!; [done|lia|].
      intros Hs. unfold sz. rewrite (proj2 (Z.ltb_ge n _)) by lia. done.
Qed.

Lemma MPZ_REALLOC_spec N s r st0 n :
  holds N s → own N s r st0 → n ≤ alloc_limit → wp never (MPZ_REALLOC r n) (roomy N s r st0 n) s.
Proof.
  intros H Ho Hn. unfold MPZ_REALLOC. apply wp_bind. eapply wp_run; [by eapply get_mpz_ok|].
  destruct (Z.ltb_spec (mp_alloc st0) n); [by apply mpz_realloc_spec|]. eapply wp_run; [done|].
  split; [done|]. split; [done|]. exists st0. split_and!; (done || lia || apply Ho).
Qed.

(** ** Writing the limbs of a variable and then its size *)

(** [r] is being written; the limbs [rs] are in its block. *)
Definition filled (N : vars) (s : zst) (r : positive) (st : mpz_struct) (rs : list Z) : Prop :=
  holds (<[r := None]> N) s ∧ own N s r st ∧ limbs_at (zmem s) (mp_d st) rs ∧ Z.of_nat (length rs) ≤ mp_alloc st.

(** Setting the size of [r] to [n] will make it [z]. *)
Definition pending (N : vars) (s : zst) (r : positive) (n z : Z) : Prop :=
  ∃ st rs, filled N s r st rs ∧ Z.abs n ≤ Z.of_nat (length rs) ∧ normalized (take (Z.to_nat (Z.abs n)) rs) ∧
    z = Z.sgn n * value (take (Z.to_nat (Z.abs n)) rs).

(** The fields [_mp_size] are still those of [N]. *)
Definition sizes (N : vars) (s : zst) : Prop := ∀ x z, N !! x = Some (Some z) → size_of x s = Done (zsize z) s.

Lemma holds_sizes N s : holds N s → sizes N s.
Proof. intros H x z Hx. by eapply size_of_ok. Qed.

Lemma sizes_set_mem N s m : sizes N s → sizes N (set_mem s m).
Proof.
  intros H x z Hx. specialize (H x z Hx). unfold size_of, get_mpz, mbind, M_bind, mret, M_ret in *. simpl.
  destruct (zvars s !! x) as [[st|]|]; congruence.
Qed.

Lemma touches_write N s r st rs :
  holds N s → own N s r st → Z.of_nat (length rs) ≤ mp_alloc st → touches st (zmem s) (write (zmem s) (mp_d st) rs).
Proof.
  intros H Ho Hl. pose proof (block_writable _ _ (own_block _ _ _ _ H Ho)) as Hw. split_and!; simpl.
  - done.
  - apply mem_wf_write; [apply (h_wf _ _ _ _ _ H)|]. intros i Hi. apply Hw. lia.
  - lia.
  - intros a Ha. rewrite lookup_write_cells. unfold in_block in Ha. destruct ((mp_d st <=? a) && (a <? mp_d st + Z.of_nat (length rs))) eqn:E; [bool_to_prop; lia|done].
  - intros a _ Ha. rewrite lookup_write_cells. destruct ((mp_d st <=? a) && (a <? mp_d st + Z.of_nat (length rs))) eqn:E; [|done].
    bool_to_prop. destruct (lookup_lt_is_Some_2 rs (Z.to_nat (a - mp_d st))) as [x Hx]; [lia|]. rewrite Hx. eauto.
Qed.

(** The memory with limbs written into the block of a variable. *)
Lemma filled_mem N s r st rs :
  holds N s → own N s r st → Forall limb rs → Z.of_nat (length rs) ≤ mp_alloc st → filled N (set_mem s (write (zmem s) (mp_d st) rs)) r st rs.
Proof.
  intros H Ho Hrs Hn. split; [apply (holds_write N s r st); [done|done|by apply (touches_write N s r)]|].
  split; [done|]. split; [by apply limbs_at_write|done].
Qed.

(** A first write into a variable that holds a number. *)
Lemma filled_write {A} N s r st (k : M mem A) c rs :
  holds N s → own N s r st → k (zmem s) = Done c (write (zmem s) (mp_d st) rs) → Forall limb rs → Z.of_nat (length rs) ≤ mp_alloc st →
  wp never (limbsZ k) (λ c' s', c' = c ∧ s' = set_mem s (write (zmem s) (mp_d st) rs) ∧ filled N s' r st rs) s.
Proof.
  intros H Ho E Hrs Hn. eapply wp_run; [unfold limbsZ, zoom; by rewrite E|]. split; [done|]. split; [done|].
  by apply filled_mem.
Qed.

Lemma filled_computes N s r st k n P :
  holds N s → own N s r st → computes k (zmem s) (mp_d st) n P → Z.of_nat n ≤ mp_alloc st →
  wp never (limbsZ k) (λ c s', ∃ rs, s' = set_mem s (write (zmem s) (mp_d st) rs) ∧ filled N s' r st rs ∧ length rs = n ∧ P c rs) s.
Proof.
  intros H Ho (c & rs & E & Hrs & Hlen & HP) Hn. eapply wp_mono; [apply (filled_write N s r st k c rs); (done || lia)|].
  intros c' s' (-> & -> & Hf). by exists rs.
Qed.

(** A variable that is written through a pointer other than its own is not. *)
Lemma own_raw N s r st x : own (<[r := None]> N) s x st → is_Some (N !! r) → own N s x st.
Proof. intros [Hs Hz] Hr. split; [|done]. destruct (decide (x = r)) as [->|]; [done|by rewrite lookup_insert_ne in Hs]. Qed.

Lemma raw_own N s r st : own N s r st → own (<[r := None]> N) s r st.
Proof. intros [_ Hz]. split; [rewrite lookup_insert_eq; eauto|done]. Qed.

(** One more limb. *)
Lemma filled_store N s r st rs y :
  filled N s r st rs → limb y → Z.of_nat (length rs) < mp_alloc st →
  wp never (limbsZ (store (mp_d st + Z.of_nat (length rs)) y)) (λ _ s',
    s' = set_mem s (write (zmem s) (mp_d st + Z.of_nat (length rs)) [y]) ∧ filled N s' r st (rs ++ [y])) s.
Proof.
  intros (H & Ho & Hl & Hle) Hy Hlt. pose proof (raw_own _ _ _ _ Ho) as Hor.
  pose proof (block_writable _ _ (own_block _ _ _ _ H Hor)) as Hw.
  eapply wp_run; [unfold limbsZ, zoom; by rewrite store_ok by (apply Hw; lia)|]. split; [done|].
  assert (write (zmem s) (mp_d st + Z.of_nat (length rs)) [y] = write (zmem s) (mp_d st) (rs ++ [y])) as Ew.
  { rewrite <- write_write. by rewrite (write_same _ _ _ Hl). }
  assert (Z.of_nat (length (rs ++ [y])) ≤ mp_alloc st) as Hle' by (rewrite length_app; simpl; lia).
  split; [|split; [done|]].
  - pose proof (holds_write _ s r st (write (zmem s) (mp_d st) (rs ++ [y])) H Hor (touches_write _ s r st _ H Hor Hle')) as Hh.
    rewrite insert_insert_eq in Hh. by rewrite Ew.
  - simpl. rewrite Ew. split; [|done]. apply limbs_at_write, Forall_app. split; [apply Hl|by constructor].
Qed.

Lemma set_size_ok N s r st n : own N s r st → INT_MIN ≤ n ≤ INT_MAX →
  set_size r n s = Done tt (Mk_zst (zmem s) (<[r := Some (Mk_mpz (mp_alloc st) n (mp_d st))]> (zvars s)) (zlocal s)).
Proof.
  intros Ho Hn. unfold set_size. rewrite (bind_done _ _ _ _ _ (get_mpz_ok _ _ _ _ Ho)), (put_mpz_ok _ _ _ _ _ Ho). by rewrite to_int_id.
Qed.

Lemma size_range st : 0 ≤ mp_alloc st ≤ alloc_limit → ∀ n, Z.abs n ≤ mp_alloc st → INT_MIN < n ≤ INT_MAX.
Proof. intros H n Hn. unfold INT_MIN, INT_MAX, alloc_limit in *. lia. Qed.

(** The size makes the limbs a number; memory and the other variables stay. *)
Lemma pending_finish_at N s r n z : pending N s r n z →
  wp never (set_size r n) (λ _ s', holds (<[r := Some z]> N) s' ∧ zmem s' = zmem s ∧ ∀ x, x ≠ r → zvars s' !! x = zvars s !! x) s.
Proof.
  intros (st & rs & (H & Ho & Hl & Hle) & Hn & Hnorm & Hz). pose proof (raw_own _ _ _ _ Ho) as Hor.
  destruct (own_block _ _ _ _ H Hor) as (Hal & _ & _). pose proof (size_range st Hal n ltac:(lia)) as Hr.
  eapply wp_run; [apply (set_size_ok N s r st n Ho); lia|]. split; [|split; [done|intros x Hx; simpl; by rewrite lookup_insert_ne]].
  rewrite <- (insert_insert_eq N r (Some z) None). apply holds_update; try done.
  - apply touches_refl, (h_wf _ _ _ _ _ H).
  - intros z' [= <-]. exists (take (Z.to_nat (Z.abs n)) rs). simpl. rewrite length_take, Nat.min_l by lia. split_and!; try done; try lia.
    apply (limbs_at_split _ _ _ _ Hl). lia.
Qed.

Lemma pending_finish N s r n z : pending N s r n z → wp never (set_size r n) (λ _ s', holds (<[r := Some z]> N) s') s.
Proof. intros Hp. eapply wp_mono; [by apply pending_finish_at|]. by intros [] s' (H & _). Qed.

Lemma pending_opp N s r n z : pending N s r n z → pending N s r (- n) (- z).
Proof. intros (st & rs & Hf & Hn & Hnorm & ->). exists st, rs. rewrite Z.abs_opp, Z.sgn_opp. split_and!; (done || lia). Qed.

Lemma pending_zero N s r : holds N s → is_Some (N !! r) → pending N s r 0 0.
Proof.
  intros H Hr. destruct (holds_own N s r H Hr) as (st & Ho & Hal & _). exists st, []. split; [|done].
  split; [by apply holds_raw|]. split; [done|]. split; [apply limbs_at_nil|simpl; lia].
Qed.

(** ** Creating, clearing and exchanging variables *)

Lemma mpz_init_spec N s r : holds N s → N !! r = None → is_Some (zvars s !! r) → wp never (mpz_init r) (λ _ s', holds (<[r := Some 0]> N) s') s.
Proof.
  intros H HN [o Ho]. eapply wp_run; [unfold mpz_init, put_mpz; by rewrite Ho|].
  destruct (h_wf _ _ _ _ _ H) as [Hwf Hnn]. apply holds_change; simpl; try done; try lia.
  - split; simpl; [unfold alloc_limit; lia|]. split; [unfold INT_MIN, INT_MAX; lia|by left].
  - intros z [= <-]. exists []. simpl. split_and!; first [done|apply limbs_at_nil].
  - intros a Ha. unfold in_block in Ha. simpl in Ha. lia.
  - intros r' st Hne Hst. unfold apart, disjoint. simpl. destruct (own_block _ _ _ _ H Hst) as (Hal & _ & [[E ->]|(Hp & Hd & _)]); unfold dummy_limb; lia.
  - intros a n. rewrite (h_blocks _ _ _ _ _ H). split.
    + intros [?|(r' & st & Hst & Hrest)]; [by left|]. right. right. exists r', st. split; [|done]. intros ->. destruct Hst as [[? E] _]. congruence.
    + intros [?|[?|(r' & st & _ & ?)]]; [by left|lia|right; by exists r', st].
Qed.

(** A variable goes, and the memory [m'] is what remains without its block. *)
Lemma holds_drop N s r st m' :
  holds N s → own N s r st → mem_wf m' → 0 ≤ next m' → (∀ a, ¬ in_block st a → cells m' !! a = cells (zmem s) !! a) →
  (∀ a n, blocks m' !! a = Some n ↔ FB !! a = Some n ∨ ∃ r' st', (r' ≠ r ∧ own N s r' st') ∧ 0 < mp_alloc st' ∧ mp_d st' = a ∧ mp_alloc st' = n) →
  holds (delete r N) (set_mem s m').
Proof.
  intros H Ho Hwf Hnn Hc Hbl.
  assert (∀ r' st', own (delete r N) s r' st' ↔ r' ≠ r ∧ own N s r' st') as Hown.
  { intros r' st'. unfold own. destruct (decide (r' = r)) as [->|Hne].
    - rewrite lookup_delete_eq. split; [intros [[? ?] _]; done|tauto].
    - rewrite lookup_delete_ne by done. tauto. }
  assert (∀ r' st' a, r' ≠ r → own N s r' st' → in_block st' a → cells m' !! a = cells (zmem s) !! a) as Hcell.
  { intros r' st' a Hne Ho' Ha. apply Hc. intros Hin. pose proof (h_sep _ _ _ _ _ H _ _ _ _ Hne Ho' Ho) as Hd. unfold apart, disjoint, in_block in *. lia. }
  split; simpl.
  - done.
  - destruct (h_frame _ _ _ _ _ H) as [Hf Hd]. split; [|done]. apply map_subseteq_spec. intros a x Ha. rewrite Hc; [by eapply map_subseteq_spec|].
    intros Hin. rewrite (h_apart _ _ _ _ _ H _ _ _ Ho Hin) in Ha. done.
  - intros r' o Hr'. destruct (decide (r' = r)) as [->|Hne]; [by rewrite lookup_delete_eq in Hr'|]. rewrite lookup_delete_ne in Hr' by done.
    destruct (h_var _ _ _ _ _ H _ _ Hr') as (st' & Hst' & (Hal & Hsz & Hbk) & Hval). assert (own N s r' st') as Ho' by (split; eauto).
    exists st'. split; [done|]. split.
    + split; [done|]. split; [done|]. destruct Hbk as [?|(Hp & Hd & Hbk & Hw)]; [by left|right]. split_and!; try done.
      * apply Hbl. right. by exists r', st'.
      * intros i Hi. rewrite (Hcell r' st') by (done || (unfold in_block; lia)). by apply Hw.
    + intros z Hz. destruct (Hval z Hz) as (xs & [Hl Hx] & Hn & Hlen & Hle & ->). exists xs. split_and!; try done. split; [done|].
      intros i x Hi. pose proof (lookup_lt_Some _ _ _ Hi). rewrite (Hcell r' st') by (done || (unfold in_block; lia)). by apply Hx.
  - intros r1 r2 st1 st2 Hne [_ H1]%Hown [_ H2]%Hown. by eapply (h_sep _ _ _ _ _ H r1 r2).
  - intros r' st' a [_ H1]%Hown. by eapply h_apart.
  - intros r' st' [_ H1]%Hown. by eapply h_fb.
  - intros a n. rewrite Hbl. split; (intros [?|(r' & st' & Ho' & Hrest)]; [by left|right; exists r', st'; split; [by apply Hown|done]]).
  - apply (h_local _ _ _ _ _ H).
  - apply (h_decl _ _ _ _ _ H).
Qed.

(** Freeing the block of a variable. *)
Lemma mpz_clear_spec N s r : holds N s → is_Some (N !! r) → wp never (mpz_clear r) (λ _ s', holds (delete r N) s' ∧ zvars s' = zvars s ∧ zlocal s' = zlocal s) s.
Proof.
  intros H Hr. destruct (holds_own N s r H Hr) as (st & Ho & Hb). unfold mpz_clear. apply wp_bind. eapply wp_run; [by eapply get_mpz_ok|].
  destruct (h_wf _ _ _ _ _ H) as [Hwf Hnn]. destruct Hb as (Hal & _ & [[E0 _]|(Hp & Hd & Hbk & Hw)]).
  - rewrite E0. cbn [Z.eqb negb whenM]. eapply wp_run; [done|]. split; [|done].
    assert (holds (delete r N) (set_mem s (zmem s))) as Hs; [|by destruct s].
    apply (holds_drop N s r st); try done. intros a n. rewrite (blocks_split N s r st a n H Ho). split.
    + intros [?|[[? _]|(r' & st' & Hne & Ho' & Hrest)]]; [by left|lia|right; by exists r', st'].
    + intros [?|(r' & st' & [Hne Ho'] & Hrest)]; [by left|right; right; by exists r', st'].
  - guard_false (mp_alloc st =? 0). cbn [negb whenM]. eapply wp_run; [unfold limbsZ, zoom, gmp_free; by rewrite Hbk|]. split; [|done].
    assert (∀ a, drop_cells (cells (zmem s)) (mp_d st) (Z.to_nat (mp_alloc st)) !! a =
      if (mp_d st <=? a) && (a <? mp_d st + Z.of_nat (Z.to_nat (mp_alloc st))) then None else cells (zmem s) !! a) as Hl by (intros; apply lookup_drop_cells).
    apply (holds_drop N s r st); simpl; try done.
    + intros a Ha. simpl in *. rewrite Hl. destruct (Hwf a Ha) as [Ec Eb]. split; [by case_match|]. by rewrite lookup_delete_None; right.
    + intros a Ha. rewrite Hl. unfold in_block in Ha. destruct ((mp_d st <=? a) && (a <? mp_d st + Z.of_nat (Z.to_nat (mp_alloc st)))) eqn:E; [bool_to_prop; lia|done].
    + intros a n. destruct (decide (a = mp_d st)) as [->|Hne].
      * rewrite lookup_delete_eq. split; [done|]. intros [E|(r' & st' & [Hne Ho'] & Hp' & E & _)].
        -- by rewrite (h_fb _ _ _ _ _ H _ _ Ho Hp) in E.
        -- pose proof (h_sep _ _ _ _ _ H _ _ _ _ Hne Ho' Ho) as Hap. unfold apart, disjoint in Hap. lia.
      * rewrite lookup_delete_ne by done. rewrite (blocks_split N s r st a n H Ho). split.
        -- intros [?|[(_ & ? & _)|(r' & st' & Hne' & Ho' & Hrest)]]; [by left|congruence|right; by exists r', st'].
        -- intros [?|(r' & st' & [Hne' Ho'] & Hrest)]; [by left|right; right; by exists r', st'].
Qed.

(** Two variables exchange their structs. *)
Definition transposed (u v x : positive) : positive := if decide (x = u) then v else if decide (x = v) then u else x.

Lemma transposed_invol u v x : transposed u v (transposed u v x) = x.
Proof. unfold transposed. repeat case_decide; congruence. Qed.

Lemma mpz_swap_spec N s u v ou ov :
  holds N s → N !! u = Some ou → N !! v = Some ov →
  wp never (mpz_swap u v) (λ _ s', holds (<[u := ov]> (<[v := ou]> N)) s' ∧ zlocal s' = zlocal s ∧ ∀ x, is_Some (zvars s !! x) → is_Some (zvars s' !! x)) s.
Proof.
  intros H Hu Hv. destruct (h_var _ _ _ _ _ H _ _ Hu) as (su & Eu & _). destruct (h_var _ _ _ _ _ H _ _ Hv) as (sv & Ev & _).
  eapply wp_run.
  { unfold mpz_swap. rewrite (bind_done _ _ s su s) by (unfold get_mpz; by rewrite Eu). rewrite (bind_done _ _ s sv s) by (unfold get_mpz; by rewrite Ev).
    rewrite (bind_done _ _ s tt (Mk_zst (zmem s) (<[u := Some sv]> (zvars s)) (zlocal s))) by (unfold put_mpz; by rewrite Eu).
    unfold put_mpz. cbn [zvars]. assert (is_Some (<[u := Some sv]> (zvars s) !! v)) as [o ->]; [|reflexivity].
    destruct (decide (v = u)) as [->|]; [rewrite lookup_insert_eq|rewrite lookup_insert_ne by done]; eauto. }
  set (z' := <[v := Some su]> (<[u := Some sv]> (zvars s))). set (N' := <[u := ov]> (<[v := ou]> N)).
  assert (∀ x, N' !! x = N !! transposed u v x ∧ z' !! x = zvars s !! transposed u v x) as Hx.
  { intros x. unfold N', z', transposed. destruct (decide (x = u)) as [->|Hxu]; [|destruct (decide (x = v)) as [->|Hxv]].
    - rewrite lookup_insert_eq. destruct (decide (u = v)) as [->|]; [rewrite lookup_insert_eq; split; congruence|].
      by rewrite lookup_insert_ne, lookup_insert_eq.
    - rewrite lookup_insert_ne, lookup_insert_eq by done. rewrite lookup_insert_eq. by split.
    - rewrite !lookup_insert_ne by done. done. }
  assert (∀ x st, own N' (Mk_zst (zmem s) z' (zlocal s)) x st ↔ own N s (transposed u v x) st) as Hown.
  { intros x st. unfold own. destruct (Hx x) as [E1 E2]. simpl. by rewrite E1, E2. }
  assert (∀ x y, x ≠ y → transposed u v x ≠ transposed u v y) as Hinj.
  { intros x y Hne E. apply Hne. by rewrite <- (transposed_invol u v x), E, transposed_invol. }
  assert (∀ x, is_Some (z' !! x) ↔ is_Some (zvars s !! x)) as Hdom.
  { intros x. destruct (Hx x) as [_ ->]. unfold transposed. destruct (decide (x = u)) as [->|]; [|destruct (decide (x = v)) as [->|]]; rewrite ?Eu, ?Ev; by split; eauto. }
  split; [split; simpl|split; [done|intros x; apply Hdom]].
  - apply (h_wf _ _ _ _ _ H).
  - apply (h_frame _ _ _ _ _ H).
  - intros x o Ho. destruct (Hx x) as [E1 E2]. rewrite E1 in Ho. rewrite E2. by apply (h_var _ _ _ _ _ H).
  - intros r1 r2 st1 st2 Hne H1%Hown H2%Hown. by eapply (h_sep _ _ _ _ _ H); [apply Hinj| |].
  - intros x st a Hst%Hown. by eapply h_apart.
  - intros x st Hst%Hown. by eapply h_fb.
  - intros a n. rewrite (h_blocks _ _ _ _ _ H). split; (intros [?|(x & st & Hst & Hrest)]; [by left|right; exists (transposed u v x), st; split; [|done]]).
    + apply Hown. by rewrite transposed_invol.
    + by apply Hown.
  - intros x Hs. apply (h_local _ _ _ _ _ H). by apply Hdom.
  - intros x Hs. apply Hdom. by apply (h_decl _ _ _ _ _ H).
Qed.

End change.

(** Only variables that are not in [N] differ. *)
Lemma holds_same F FB (D D' : positive → Prop) N t sa sb :
  holds F FB D N sa → N !! t = None → zmem sb = zmem sa → (∀ x, x ≠ t → zvars sb !! x = zvars sa !! x) →
  (∀ x, is_Some (zvars sb !! x) → (x < zlocal sb)%positive) → (∀ x, D' x → is_Some (zvars sb !! x)) → holds F FB D' N sb.
Proof.
  intros Ha Nt Em Ev El Hd.
  assert (∀ x, is_Some (N !! x) → zvars sb !! x = zvars sa !! x) as Ev'.
  { intros x [o Ho]. apply Ev. intros ->. congruence. }
  assert (∀ x st, own N sb x st ↔ own N sa x st) as Hown.
  { intros x st. unfold own. split; intros [Hs Hz]; (split; [done|]); specialize (Ev' x Hs); congruence. }
  split; rewrite ?Em.
  - apply (h_wf _ _ _ _ _ Ha).
  - apply (h_frame _ _ _ _ _ Ha).
  - intros x o Ho. rewrite (Ev' x) by eauto. by apply (h_var _ _ _ _ _ Ha).
  - intros r1 r2 st1 st2 Hne H1%Hown H2%Hown. by eapply (h_sep _ _ _ _ _ Ha r1 r2).
  - intros x st a Hst%Hown. by eapply h_apart.
  - intros x st Hst%Hown. by eapply h_fb.
  - intros a n. rewrite (h_blocks _ _ _ _ _ Ha). split; (intros [?|(x & st & Hst & Hrest)]; [by left|right; exists x, st; split; [by apply Hown|done]]).
  - done.
  - done.
Qed.

(** The body of a function with a local variable: it gets a fresh one, and has
    cleared it at the end. The frame may have changed. *)
Lemma wp_local_frame F FB (D : positive → Prop) {A} (f : positive → M zst A) (Q : A → zst → Prop) N s :
  holds F FB D N s →
  (∀ t s1, holds F FB (λ x, x = t ∨ D x) N s1 → N !! t = None → ¬ D t →
    wp never (f t) (λ a s2, ∃ F' FB' N', holds F' FB' (λ x, x = t ∨ D x) N' s2 ∧ N' !! t = None ∧ ∀ s3, holds F' FB' D N' s3 → Q a s3) s1) →
  wp never (with_local f) Q s.
Proof.
  intros H Hf. set (t := zlocal s). set (s1 := Mk_zst (zmem s) (<[t := None]> (zvars s)) (t + 1)%positive).
  assert (zvars s !! t = None) as Et.
  { destruct (zvars s !! t) eqn:E; [|done]. pose proof (h_local _ _ _ _ _ H t ltac:(eauto)). unfold t in *. lia. }
  assert (N !! t = None) as Nt.
  { destruct (N !! t) eqn:E; [|done]. destruct (h_var _ _ _ _ _ H _ _ E) as (st & E' & _). congruence. }
  assert (¬ D t) as Hnt by (intros Hd; destruct (h_decl _ _ _ _ _ H t Hd); congruence).
  assert (holds F FB (λ x, x = t ∨ D x) N s1) as H1.
  { apply (holds_same F FB D _ N t s s1 H Nt eq_refl); simpl.
    - intros x Hne. by rewrite lookup_insert_ne.
    - intros x Hs. destruct (decide (x = t)) as [->|Hne]; [lia|]. rewrite lookup_insert_ne in Hs by done. pose proof (h_local _ _ _ _ _ H x Hs). unfold t. lia.
    - intros x [->|Hd]; [rewrite lookup_insert_eq; eauto|]. rewrite lookup_insert_ne; [by apply (h_decl _ _ _ _ _ H)|]. by intros ->. }
  specialize (Hf t s1 H1 Nt Hnt). unfold wp, with_local in *. fold t. fold s1.
  destruct (f t s1) as [a s2|c s2|e]; [|done|done]. destruct Hf as (F' & FB' & N' & H2 & Nt' & HQ). apply HQ.
  apply (holds_same F' FB' _ D N' t s2 (Mk_zst (zmem s2) (delete t (zvars s2)) (zlocal s2)) H2 Nt' eq_refl); simpl.
  - intros x Hne. by rewrite lookup_delete_ne.
  - intros x Hs. apply (h_local _ _ _ _ _ H2). destruct (decide (x = t)) as [->|Hne]; [rewrite lookup_delete_eq in Hs; by destruct Hs|by rewrite lookup_delete_ne in Hs].
  - intros x Hd. rewrite lookup_delete_ne by (by intros ->). apply (h_decl _ _ _ _ _ H2). by right.
Qed.

Lemma wp_local F FB (D : positive → Prop) {A} (f : positive → M zst A) (Q : A → zst → Prop) N s :
  holds F FB D N s →
  (∀ t s1, holds F FB (λ x, x = t ∨ D x) N s1 → N !! t = None → ¬ D t →
    wp never (f t) (λ a s2, ∃ N', holds F FB (λ x, x = t ∨ D x) N' s2 ∧ N' !! t = None ∧ ∀ s3, holds F FB D N' s3 → Q a s3) s1) →
  wp never (with_local f) Q s.
Proof.
  intros H Hf. apply (wp_local_frame F FB D f Q N s H). intros t s1 H1 Ht HD. eapply wp_mono; [by apply Hf|].
  intros a s2 (N' & H2 & Hrest). by exists F, FB, N'.
Qed.

Section fresh.
Context {F : gmap Z (option Z)} {FB : gmap Z Z} {D : positive → Prop}.
Local Abbreviation holds := (holds F FB D).

(** A fresh variable with room for [n] limbs. *)
Lemma mpz_init2_spec N s r n :
  holds N s → N !! r = None → is_Some (zvars s !! r) → 0 < n ≤ alloc_limit →
  wp never (mpz_init2 r (lmul n GMP_LIMB_BITS)) (λ _ s', holds (<[r := Some 0]> N) s' ∧ (∃ st, own (<[r := Some 0]> N) s' r st ∧ mp_alloc st = n) ∧ ∀ x, x ≠ r → zvars s' !! x = zvars s !! x) s.
Proof.
  intros H HN Hr Hn. unfold mpz_init2, lmul, GMP_LIMB_BITS. rewrite u64_small by (unfold SIZE_MOD, alloc_limit in *; lia).
  guard_false (n * 64 =? 0). cbn [negb b2l]. rewrite <- (Z.div_unique_pos (n * 64 - 1) 64 (n - 1) 63) by lia. replace (1 + (n - 1)) with n by lia.
  assert (∀ st, own N s r st → False) as Hno by (intros st [[o E] _]; congruence).
  destruct (h_wf _ _ _ _ _ H) as [Hwf Hnn]. eapply wp_run.
  { rewrite (bind_done _ _ s (next (zmem s)) (set_mem s (grow (zmem s) n))); [|unfold limbsZ, zoom; by rewrite xalloc_ok by lia].
    unfold put_mpz. simpl. destruct Hr as [o ->]. reflexivity. }
  rewrite to_int_id by (unfold INT_MIN, INT_MAX, alloc_limit in *; lia). split.
  - apply holds_fresh; try done.
    + apply mem_wf_grow; [done|lia].
    + simpl. lia.
    + apply writable_new.
    + intros a Ha _. simpl. rewrite lookup_fresh_cells. by guard_false ((next (zmem s) <=? a) && (a <? next (zmem s) + Z.of_nat (Z.to_nat n))).
    + intros a k. simpl. destruct (decide (a = next (zmem s))) as [->|Hne].
      * rewrite lookup_insert_eq. destruct (Hwf (next (zmem s)) ltac:(lia)) as [_ ->].
        split; [intros [= ->]; by left|]. intros [[_ ->]|[? _]]; done.
      * rewrite lookup_insert_ne by done. split; [|by intros [[? _]|[? _]]; [congruence|]].
        intros Hk. right. split; [done|]. intros st []%Hno.
    + intros z [= <-]. exists []. simpl. split_and!; first [done|apply limbs_at_nil|lia].
  - split; [|intros x Hx; simpl; by rewrite lookup_insert_ne].
    eexists. split; [split; [rewrite lookup_insert_eq; eauto|simpl; by rewrite lookup_insert_eq]|done].
Qed.
End fresh.
