(* ===== verification/MpzArith.v ===== *)
(** * Assignment, comparison, addition and subtraction of integers

    The functions of mini-gmp.c up to mpz_sub, on variables that hold numbers:
    each leaves the number it should in its result variable and every other
    variable as it was, whichever of its arguments are the same variable. *)

From S2P Require Import Prelude Limbs Mpn Invert MpnDiv MpnDivN MpnStr MpnSetStr MpnGetStr Mpz MpzRep.

Section arith.
Context {F : gmap Z (option Z)} {FB : gmap Z Z} {D : positive → Prop}.
Local Abbreviation holds := (holds F FB D).
Local Abbreviation filled := (filled (F:=F) (FB:=FB) (D:=D)).
Local Abbreviation pending := (pending (F:=F) (FB:=FB) (D:=D)).

(** ** Rules *)

Section rules.
Context {A : Type} (f : Z → M zst A) (Q : A → zst → Prop).

Lemma wp_size N s r z : sizes N s → N !! r = Some (Some z) → wp never (f (zsize z)) Q s → wp never (size_of r ≫= f) Q s.
Proof. intros H Hr Hf. apply wp_bind. eapply wp_run; [by apply (H r z)|done]. Qed.

Lemma wp_own_size N s r st : own N s r st → wp never (f (mp_size st)) Q s → wp never (size_of r ≫= f) Q s.
Proof. intros Ho Hf. apply wp_bind. eapply wp_run; [by eapply size_of_own|done]. Qed.

Lemma wp_limbs N s r st : own N s r st → wp never (f (mp_d st)) Q s → wp never (limbs_of r ≫= f) Q s.
Proof. intros Ho Hf. apply wp_bind. eapply wp_run; [by eapply limbs_of_own|done]. Qed.

Lemma wp_limbsZ k a s : k (zmem s) = Done a (zmem s) → wp never (f a) Q s → wp never (limbsZ k ≫= f) Q s.
Proof. intros E Hf. apply wp_bind. eapply wp_run; [unfold limbsZ, zoom; by rewrite E|]. by destruct s. Qed.
End rules.

Lemma wp_limbsZ_last {A} (k : M mem A) (Q : A → zst → Prop) a s : k (zmem s) = Done a (zmem s) → Q a s → wp never (limbsZ k) Q s.
Proof. intros E Hf. eapply wp_run; [unfold limbsZ, zoom; by rewrite E|]. by destruct s. Qed.

(** The operands of an upward loop: the blocks of two variables are the same or
    apart. *)
Lemma own_upward N s r a str sta n :
  holds N s → own N s r str → own N s a sta → n ≤ mp_alloc sta → upward (mp_d str) (mp_d sta) n.
Proof.
  intros H Hr Ha Hn. unfold upward. destruct (decide (r = a)) as [->|Hne].
  - destruct Hr as [_ Er], Ha as [_ Ea]. simplify_eq. lia.
  - pose proof (h_sep _ _ _ _ _ H _ _ _ _ Hne Hr Ha) as Hd. destruct (own_block _ _ _ _ H Hr) as (? & _ & _). unfold apart, disjoint in Hd. lia.
Qed.

Lemma own_apart N s r a str sta n k :
  holds N s → r ≠ a → own N s r str → own N s a sta → n ≤ mp_alloc str → k ≤ mp_alloc sta → disjoint (mp_d str) n (mp_d sta) k.
Proof. intros H Hne Hr Ha Hn Hk. pose proof (h_sep _ _ _ _ _ H _ _ _ _ Hne Hr Ha) as Hd. unfold apart, disjoint in *. lia. Qed.

Lemma own_writable N s r st n : holds N s → own N s r st → Z.of_nat n ≤ mp_alloc st → writable (zmem s) (mp_d st) n.
Proof. intros H Ho Hn i Hi. apply (block_writable _ _ (own_block _ _ _ _ H Ho)). lia. Qed.

Lemma own_set_mem N s r st m : own N s r st → own N (set_mem s m) r st.
Proof. done. Qed.

Lemma sgn_mul_abs z : Z.sgn z * Z.abs z = z.
Proof. destruct (Z.sgn_spec z) as [[? ->]|[[? ->]|[? ->]]]; lia. Qed.

(** ** Assignment *)

(** A new size for a variable whose limbs are to be written next. *)
Lemma set_size_raw N s r st n :
  holds N s → own N s r st → INT_MIN < n ≤ INT_MAX →
  wp never (set_size r n) (λ _ s', holds (<[r := None]> N) s' ∧ own (<[r := None]> N) s' r (Mk_mpz (mp_alloc st) n (mp_d st))) s.
Proof.
  intros H Ho Hn. eapply wp_run; [apply (set_size_ok N s r st n Ho); lia|]. split.
  - apply holds_update; try done. apply touches_refl, (h_wf _ _ _ _ _ H).
  - split; [rewrite lookup_insert_eq; eauto|]. simpl. by rewrite lookup_insert_eq.
Qed.

(** The limbs written are those of the size already there. *)
Lemma filled_commit N s r st rs :
  filled N s r st rs → Z.of_nat (length rs) = Z.abs (mp_size st) → normalized rs →
  holds (<[r := Some (Z.sgn (mp_size st) * value rs)]> N) s.
Proof.
  intros (H & Ho & Hl & Hle) Hlen Hn. pose proof (raw_own _ _ _ _ Ho) as Hor.
  pose proof (holds_update _ s r st (zmem s) (mp_size st) (Some (Z.sgn (mp_size st) * value rs)) H Hor
    (touches_refl _ _ (proj1 (h_wf _ _ _ _ _ H))) (own_size_range _ _ _ _ H Hor)) as Hu.
  rewrite insert_insert_eq, (insert_own _ _ _ _ Ho) in Hu. destruct s. apply Hu.
  intros z [= <-]. exists rs. simpl in *. split_and!; (done || lia).
Qed.

(** Setting the size to [±1] and storing one limb. *)
Lemma set_one_limb N s r n x :
  holds N s → is_Some (N !! r) → Z.abs n = 1 → 0 < x < B →
  wp never (_ ← set_size r n; p ← MPZ_REALLOC r 1; limbsZ (store p x)) (λ _ s', holds (<[r := Some (n * x)]> N) s') s.
Proof.
  intros H Hr Hn Hx. destruct (holds_own N s r H Hr) as (st & Ho & _). apply wp_bind.
  eapply wp_mono; [apply (set_size_raw N s r st n H Ho); unfold INT_MIN, INT_MAX; lia|]. intros [] s1 [H1 Ho1].
  apply wp_bind. eapply wp_mono; [apply (MPZ_REALLOC_spec _ s1 r _ 1 H1 Ho1); unfold alloc_limit; lia|].
  intros p s2 (H2 & _ & st2 & Ho2 & <- & Hal & Hs2). simpl in Hs2. specialize (Hs2 ltac:(lia)).
  assert (filled N s2 r st2 []) as Hf.
  { split; [done|]. split; [by eapply own_raw|]. split; [apply limbs_at_nil|simpl; lia]. }
  rewrite <- (Z.add_0_r (mp_d st2)). change 0 with (Z.of_nat (length (@nil Z))) at 1.
  eapply wp_mono; [apply (filled_store N s2 r st2 [] x Hf); [unfold limb; lia|simpl; lia]|]. intros [] s3 [_ Hf3].
  replace (n * x) with (Z.sgn (mp_size st2) * value ([] ++ [x])).
  - apply filled_commit; [done|rewrite Hs2; simpl; lia|]. unfold normalized. simpl. intros [= E]. lia.
  - rewrite Hs2. simpl. destruct (Z.sgn_spec n) as [[? ->]|[[? ->]|[? ->]]]; lia.
Qed.

Lemma set_size_zero N s r : holds N s → is_Some (N !! r) → wp never (set_size r 0) (λ _ s', holds (<[r := Some 0]> N) s') s.
Proof. intros H Hr. by apply pending_finish, pending_zero. Qed.

Lemma mpz_set_ui_spec N s r x :
  holds N s → is_Some (N !! r) → limb x → wp never (mpz_set_ui r x) (λ _ s', holds (<[r := Some x]> N) s') s.
Proof.
  intros H Hr Hx. unfold limb in Hx. unfold mpz_set_ui. destruct (Z.ltb_spec 0 x).
  - eapply wp_mono; [apply (set_one_limb N s r 1 x); (done || lia)|]. intros [] s'. by rewrite Z.mul_1_l.
  - assert (x = 0) as -> by lia. by apply set_size_zero.
Qed.

Lemma neg_cast x : - 2 ^ 63 ≤ x < 0 → GMP_NEG_CAST x = - x.
Proof.
  intros Hx. unfold GMP_NEG_CAST, lneg, lsub. unfold u64, SIZE_MOD. rewrite Zminus_mod_idemp_l.
  replace (x + 1 - 1) with x by lia. rewrite Z.mod_opp_l_nz; rewrite ?Z.mod_mod; rewrite <- ?(Z.mod_add x 1), ?Z.mod_small by lia; lia.
Qed.

Lemma mpz_set_si_spec N s r x :
  holds N s → is_Some (N !! r) → - 2 ^ 63 ≤ x < 2 ^ 63 → wp never (mpz_set_si r x) (λ _ s', holds (<[r := Some x]> N) s') s.
Proof.
  intros H Hr Hx. unfold mpz_set_si. destruct (Z.leb_spec 0 x).
  - apply mpz_set_ui_spec; [done|done|]. unfold limb, B. lia.
  - rewrite neg_cast by lia. eapply wp_mono; [apply (set_one_limb N s r (-1) (- x)); (done || (unfold B; lia))|].
    intros [] s'. by replace (-1 * - x) with x by lia.
Qed.

(** The number of limbs of a variable is within the limit. *)
Lemma holds_limit N s x z : holds N s → N !! x = Some (Some z) → zlimbs z ≤ alloc_limit.
Proof. intros H Hx. destruct (holds_read N s x z H Hx) as (st & xs & Ho & _ & _ & _ & _ & _ & Hal). destruct (own_block _ _ _ _ H Ho) as (? & _). lia. Qed.

Lemma mpz_set_spec N s r x z :
  holds N s → is_Some (N !! r) → N !! x = Some (Some z) → wp never (mpz_set r x) (λ _ s', holds (<[r := Some z]> N) s') s.
Proof.
  intros H Hr Hx. unfold mpz_set. case_bool_decide as Hrx; cbn [negb].
  - subst x. eapply wp_run; [done|]. by rewrite insert_id.
  - pose proof (holds_limit _ _ _ _ H Hx) as Hlim. destruct (holds_own N s r H Hr) as (st & Ho & _). eapply wp_size; [exact (holds_sizes _ _ H)|done|]. cbv zeta. rewrite zsize_abs.
    apply wp_bind. eapply wp_mono; [by apply (MPZ_REALLOC_spec N s r st (zlimbs z) H Ho)|]. intros p s1 (H1 & _ & st1 & Ho1 & <- & Hal1 & _).
    destruct (holds_read N s1 x z H1 Hx) as (stx & xs & Hox & Hxs & Hn & Hlen & Hsz & Hval & Halx).
    eapply wp_limbs; [done|]. apply wp_bind.
    pose proof (mpn_copyi_spec (zmem s1) (mp_d st1) (mp_d stx) xs Hxs (own_writable N s1 r st1 (length xs) H1 Ho1 ltac:(lia))
      (own_upward N s1 r x st1 stx (Z.of_nat (length xs)) H1 Ho1 Hox ltac:(lia))) as E. rewrite Hlen in E.
    eapply wp_mono; [apply (filled_write N s1 r st1 _ _ xs H1 Ho1 E); [apply Hxs|lia]|]. intros [] s2 (_ & -> & Hf).
    eapply wp_own_size; [by apply (own_set_mem N s1 x stx)|]. rewrite Hsz. apply pending_finish. exists st1, xs. split; [done|].
    rewrite zsize_abs, <- Hlen, Nat2Z.id, take_ge by lia. split_and!; [lia|done|]. by rewrite zsize_sgn, Hval, sgn_mul_abs.
Qed.

Lemma mpz_init_set_spec N s r u z :
  holds N s → N !! r = None → is_Some (zvars s !! r) → N !! u = Some (Some z) → wp never (mpz_init_set r u) (λ _ s', holds (<[r := Some z]> N) s') s.
Proof.
  intros H Hr Hv Hu. apply wp_bind. eapply wp_mono; [exact (mpz_init_spec N s r H Hr Hv)|]. intros [] s1 H1. assert (u ≠ r) by congruence.
  eapply wp_mono; [apply (mpz_set_spec _ s1 r u z H1); [rewrite lookup_insert_eq; eauto|by rewrite lookup_insert_ne]|]. intros [] s2. by rewrite insert_insert_eq.
Qed.

(** A new sign for a number. *)
Lemma set_sign_spec N s r z n :
  holds N s → N !! r = Some (Some z) → Z.abs n = zlimbs z →
  wp never (set_size r n) (λ _ s', holds (<[r := Some (Z.sgn n * Z.abs z)]> N) s') s.
Proof.
  intros H Hr Hn. destruct (holds_read N s r z H Hr) as (st & xs & Ho & Hxs & Hnm & Hlen & Hsz & Hval & Hal).
  apply pending_finish. exists st, xs. rewrite Hn, <- Hlen, Nat2Z.id, take_ge, Hval by lia. split; [|split_and!; (done || lia)].
  split; [by apply holds_raw|]. split; [done|]. split; [done|lia].
Qed.

Lemma mpz_abs_spec N s r u z :
  holds N s → is_Some (N !! r) → N !! u = Some (Some z) → wp never (mpz_abs r u) (λ _ s', holds (<[r := Some (Z.abs z)]> N) s') s.
Proof.
  intros H Hr Hu. unfold mpz_abs. apply wp_bind. eapply wp_mono; [by apply (mpz_set_spec N s r u z)|]. intros [] s1 H1.
  eapply wp_size; [exact (holds_sizes _ _ H1)|by rewrite lookup_insert_eq|]. eapply wp_mono; [apply (set_sign_spec _ s1 r z _ H1)|].
  - by rewrite lookup_insert_eq.
  - by rewrite Z.abs_idemp, zsize_abs.
  - intros [] s2. rewrite insert_insert_eq, zsize_abs. destruct (Z.eq_dec z 0) as [->|Hz]; [done|]. by rewrite Z.sgn_pos, Z.mul_1_l by (by apply zlimbs_pos).
Qed.

Lemma mpz_neg_spec N s r u z :
  holds N s → is_Some (N !! r) → N !! u = Some (Some z) → wp never (mpz_neg r u) (λ _ s', holds (<[r := Some (- z)]> N) s') s.
Proof.
  intros H Hr Hu. unfold mpz_neg. apply wp_bind. eapply wp_mono; [by apply (mpz_set_spec N s r u z)|]. intros [] s1 H1.
  eapply wp_size; [exact (holds_sizes _ _ H1)|by rewrite lookup_insert_eq|]. eapply wp_mono; [apply (set_sign_spec _ s1 r z _ H1)|].
  - by rewrite lookup_insert_eq.
  - by rewrite Z.abs_opp, zsize_abs.
  - intros [] s2. rewrite insert_insert_eq, Z.sgn_opp, zsize_sgn. by rewrite Z.mul_opp_l, sgn_mul_abs.
Qed.

(** ** Comparison *)

Definition cmp_sign (x y : Z) : Z := match Z.compare x y with Lt => -1 | Eq => 0 | Gt => 1 end.

Lemma cmp_sign_spec x y : cmp_sign x y = -1 ∧ x < y ∨ cmp_sign x y = 0 ∧ x = y ∨ cmp_sign x y = 1 ∧ y < x.
Proof. unfold cmp_sign. destruct (Z.compare_spec x y); auto with lia. Qed.

Lemma gmp_cmp_sign x y : GMP_CMP x y = cmp_sign x y.
Proof. unfold GMP_CMP, cmp_sign. destruct (Z.compare_spec x y), (Z.ltb_spec y x), (Z.ltb_spec x y); simpl; lia. Qed.

(** A number with fewer limbs is smaller. *)
Lemma normalized_lt xs ys :
  Forall limb xs → Forall limb ys → normalized ys → (length xs < length ys)%nat → value xs < value ys.
Proof.
  intros Hx Hy Hn Hl. apply normalized_ge in Hn; [|done|lia]. pose proof (value_bounds _ Hx) as [_ Hb].
  eapply Z.lt_le_trans; [done|]. etransitivity; [|done]. apply Z.pow_le_mono_r; [done|lia].
Qed.

Lemma mpn_cmp4_spec m ap bp xs ys :
  limbs_at m ap xs → limbs_at m bp ys → normalized xs → normalized ys →
  mpn_cmp4 ap (Z.of_nat (length xs)) bp (Z.of_nat (length ys)) m = Done (cmp_sign (value xs) (value ys)) m.
Proof.
  intros Hx Hy Nx Ny. unfold mpn_cmp4. destruct (Z.eqb_spec (Z.of_nat (length xs)) (Z.of_nat (length ys))) as [E|E]; cbn [negb].
  - apply (mpn_cmp_spec m ap bp xs ys Hx Hy). lia.
  - destruct (cmp_sign_spec (value xs) (value ys)) as [[-> ?]|[[-> ?]|[-> ?]]], (Z.ltb_spec (Z.of_nat (length xs)) (Z.of_nat (length ys))); try done; exfalso.
    + pose proof (normalized_lt ys xs (proj1 Hy) (proj1 Hx) Nx ltac:(lia)). lia.
    + pose proof (normalized_lt xs ys (proj1 Hx) (proj1 Hy) Ny ltac:(lia)). lia.
    + pose proof (normalized_lt ys xs (proj1 Hy) (proj1 Hx) Nx ltac:(lia)). lia.
    + pose proof (normalized_lt xs ys (proj1 Hx) (proj1 Hy) Ny ltac:(lia)). lia.
Qed.

(** Computations that only read. *)
Definition reads {A} (k : M zst A) (s : zst) (a : A) : Prop := k s = Done a s.

Lemma reads_wp {A} (k : M zst A) s a : wp never k (λ a' s', a' = a ∧ s' = s) s → reads k s a.
Proof. unfold wp, reads. destruct (k s) as [a' s'|c s'|[]]; try done. by intros [-> ->]. Qed.

Section reading.
Context (N : vars) (s : zst) (H : holds N s).

Lemma value_low x xs : Forall limb (x :: xs) → value (x :: xs) mod B = x.
Proof. intros Hx. inversion_clear Hx. simpl. rewrite Z.mul_comm, Z.mod_add by done. by apply Z.mod_small. Qed.

(** The lowest limb of a number that is not 0. *)
Lemma low_limb u z :
  N !! u = Some (Some z) → z ≠ 0 → ∃ st, own N s u st ∧ load (mp_d st) (zmem s) = Done (Z.abs z mod B) (zmem s).
Proof.
  intros Hu Hz. destruct (holds_read N s u z H Hu) as (st & xs & Ho & Hxs & _ & Hlen & _ & Hval & _). exists st. split; [done|].
  pose proof (zlimbs_pos z Hz). destruct xs as [|x xs]; [simpl in Hlen; lia|]. rewrite <- Hval, value_low by apply Hxs.
  apply load_ok. apply limbs_at_cons in Hxs as [[_ Hc] _]. done.
Qed.

(** Sizes of small numbers. *)
Lemma zlimbs_le_1 z : zlimbs z ≤ 1 ↔ Z.abs z < B.
Proof.
  destruct (Z.eq_dec z 0) as [->|Hz]; [split; done|]. pose proof (zlimbs_pos z Hz). split; intros Hl.
  - unfold zlimbs in Hl. rewrite (proj2 (Z.eqb_neq z 0)) in Hl by done. change B with (2 ^ 64). apply Z.log2_lt_pow2; [lia|].
    pose proof (Z.log2_nonneg (Z.abs z)). destruct (Z.lt_ge_cases (Z.log2 (Z.abs z)) 64); [done|].
    pose proof (Z.div_le_mono 64 (Z.log2 (Z.abs z)) 64 ltac:(lia) ltac:(lia)) as Hd. change (64 / 64) with 1 in Hd. lia.
  - rewrite (zlimbs_unique z 1); [lia|lia|]. simpl. unfold B in *. lia.
Qed.

Lemma zsize_cases z : zsize z = zlimbs z ∧ 0 ≤ z ∨ zsize z = - zlimbs z ∧ z < 0.
Proof. unfold zsize. pose proof (zlimbs_nonneg z). destruct (Z.sgn_spec z) as [[? ->]|[[<- ->]|[? ->]]]; [left; lia|by left|right; lia]. Qed.

Lemma reads_size {A} u z (f : Z → M zst A) a : N !! u = Some (Some z) → reads (f (zsize z)) s a → reads (size_of u ≫= f) s a.
Proof. intros Hu Hf. unfold reads. by rewrite (bind_done _ _ _ _ _ (size_of_ok N s u z H Hu)). Qed.

Lemma reads_low {A} u z (f : Z → M zst A) a :
  N !! u = Some (Some z) → z ≠ 0 → reads (f (Z.abs z mod B)) s a → reads (p ← limbs_of u; x ← limbsZ (load p); f x) s a.
Proof.
  intros Hu Hz Hf. destruct (low_limb u z Hu Hz) as (st & Ho & E). unfold reads. rewrite (bind_done _ _ _ _ _ (limbs_of_own _ _ _ _ Ho)).
  rewrite (bind_done _ _ s (Z.abs z mod B) s); [done|]. unfold limbsZ, zoom. rewrite E. by destruct s.
Qed.

Lemma mpz_get_ui_spec u z : N !! u = Some (Some z) → reads (mpz_get_ui u) s (Z.abs z mod B).
Proof.
  intros Hu. unfold mpz_get_ui. eapply reads_size; [done|]. destruct (Z.eqb_spec (zsize z) 0) as [E|E].
  - apply zsize_0 in E as ->. done.
  - destruct (low_limb u z Hu) as (st & Ho & El); [by intros E0%zsize_0|]. unfold reads.
    rewrite (bind_done _ _ _ _ _ (limbs_of_own _ _ _ _ Ho)). unfold limbsZ, zoom. rewrite El. by destruct s.
Qed.

Lemma mpz_sgn_spec u z : N !! u = Some (Some z) → reads (mpz_sgn u) s (cmp_sign z 0).
Proof.
  intros Hu. eapply reads_size; [done|]. unfold reads, mret, M_ret. rewrite gmp_cmp_sign. f_equal.
  pose proof (zsize_0 z). pose proof (zsize_nonneg z). destruct (cmp_sign_spec (zsize z) 0) as [[-> ?]|[[-> ?]|[-> ?]]], (cmp_sign_spec z 0) as [[-> ?]|[[-> ?]|[-> ?]]]; (done || lia).
Qed.

Lemma mpz_cmp_ui_spec u z v : N !! u = Some (Some z) → limb v → reads (mpz_cmp_ui u v) s (cmp_sign z v).
Proof.
  intros Hu [Hv0 Hv]. eapply reads_size; [done|]. pose proof (zlimbs_le_1 z). destruct (cmp_sign_spec z v) as [C|[C|C]], (zsize_cases z) as [[E Hz]|[E Hz]]; rewrite E;
    destruct (Z.ltb_spec 1 (zlimbs z)), (Z.ltb_spec (zlimbs z) 0), (Z.ltb_spec 1 (- zlimbs z)), (Z.ltb_spec (- zlimbs z) 0); try (exfalso; pose proof (zlimbs_nonneg z); lia);
    try (unfold reads, mret, M_ret; f_equal; lia);
    try (unfold reads; rewrite (bind_done _ _ _ _ _ (mpz_get_ui_spec u z Hu)), gmp_cmp_sign, Z.mod_small, Z.abs_eq by lia; done).
  all: pose proof (zlimbs_pos z ltac:(lia)); lia.
Qed.

Lemma mpz_cmpabs_ui_spec u z v : N !! u = Some (Some z) → limb v → reads (mpz_cmpabs_ui u v) s (cmp_sign (Z.abs z) v).
Proof.
  intros Hu [Hv0 Hv]. eapply reads_size; [done|]. rewrite zsize_abs. pose proof (zlimbs_le_1 z). destruct (Z.ltb_spec 1 (zlimbs z)).
  - unfold reads, mret, M_ret. f_equal. destruct (cmp_sign_spec (Z.abs z) v) as [C|[C|C]]; lia.
  - unfold reads. rewrite (bind_done _ _ _ _ _ (mpz_get_ui_spec u z Hu)), gmp_cmp_sign, Z.mod_small by lia. done.
Qed.

Lemma mpz_cmp_si_spec u z v : N !! u = Some (Some z) → - 2 ^ 63 ≤ v < 2 ^ 63 → reads (mpz_cmp_si u v) s (cmp_sign z v).
Proof.
  intros Hu Hv. unfold mpz_cmp_si. eapply reads_size; [done|]. pose proof (zlimbs_le_1 z). pose proof (zlimbs_nonneg z).
  assert (B = 2 * 2 ^ 63) as HB by done.
  destruct (zsize_cases z) as [[E Hz]|[E Hz]]; rewrite E; destruct (Z.ltb_spec (if Z.leb 0 z then zlimbs z else - zlimbs z) (-1)) as [Hs|Hs];
    destruct (Z.leb_spec 0 z); try lia.
  - guard_false (zlimbs z <? -1). destruct (Z.leb_spec 0 v); [apply mpz_cmp_ui_spec; [done|unfold limb; lia]|]. guard_true (0 <=? zlimbs z).
    unfold reads, mret, M_ret. f_equal. destruct (cmp_sign_spec z v) as [C|[C|C]]; lia.
  - guard_true (- zlimbs z <? -1). unfold reads, mret, M_ret. f_equal. destruct (cmp_sign_spec z v) as [C|[C|C]]; lia.
  - pose proof (zlimbs_pos z ltac:(lia)). guard_false (- zlimbs z <? -1). destruct (Z.leb_spec 0 v); [apply mpz_cmp_ui_spec; [done|unfold limb; lia]|].
    guard_false (0 <=? - zlimbs z). eapply reads_low; [done|lia|]. unfold reads, mret, M_ret. f_equal.
    rewrite gmp_cmp_sign, neg_cast, Z.mod_small by lia. destruct (cmp_sign_spec (- v) (Z.abs z)) as [C|[C|C]], (cmp_sign_spec z v) as [C'|[C'|C']]; lia.
Qed.

Lemma mpz_cmp_spec a b x y : N !! a = Some (Some x) → N !! b = Some (Some y) → reads (mpz_cmp a b) s (cmp_sign x y).
Proof.
  intros Ha Hb. unfold mpz_cmp. eapply reads_size; [done|]. eapply reads_size; [done|].
  destruct (holds_read N s a x H Ha) as (sta & xs & Hoa & Hxs & Nx & Lx & _ & Vx & _). destruct (holds_read N s b y H Hb) as (stb & ys & Hob & Hys & Ny & Ly & _ & Vy & _).
  assert (∀ u v us vs, Forall limb us → Forall limb vs → normalized us → normalized vs → Z.of_nat (length us) = zlimbs u → Z.of_nat (length vs) = zlimbs v →
    value us = Z.abs u → value vs = Z.abs v → zlimbs u < zlimbs v → Z.abs u < Z.abs v) as Hlt.
  { intros u v us vs Hu Hv Nu Nv Lu Lv <- <- Huv. apply normalized_lt; (done || lia). }
  pose proof (Hlt x y xs ys (proj1 Hxs) (proj1 Hys) Nx Ny Lx Ly Vx Vy). pose proof (Hlt y x ys xs (proj1 Hys) (proj1 Hxs) Ny Nx Ly Lx Vy Vx).
  pose proof (zlimbs_nonneg x). pose proof (zlimbs_nonneg y).
  destruct (Z.eqb_spec (zsize x) (zsize y)) as [E|E]; cbn [negb].
  - assert (zlimbs x = zlimbs y) as El by (rewrite <- (zsize_abs x), <- (zsize_abs y), E; done).
    assert (Z.sgn x = Z.sgn y) as Es by (rewrite <- (zsize_sgn x), <- (zsize_sgn y), E; done).
    unfold reads. rewrite (bind_done _ _ _ _ _ (limbs_of_own _ _ _ _ Hoa)), (bind_done _ _ _ _ _ (limbs_of_own _ _ _ _ Hob)).
    destruct (Z.leb_spec 0 (zsize x)) as [Hp|Hp]; unfold limbsZ, zoom.
    + assert (zsize x = Z.of_nat (length xs)) as -> by (pose proof (zsize_abs x); lia). rewrite (mpn_cmp_spec _ _ _ xs ys Hxs Hys) by lia.
      rewrite Vx, Vy. apply (zsize_nonneg x) in Hp. rewrite !Z.abs_eq by (destruct (Z.sgn_spec x), (Z.sgn_spec y); lia). by destruct s.
    + assert (- zsize x = Z.of_nat (length ys)) as -> by (pose proof (zsize_abs x); lia). rewrite (mpn_cmp_spec _ _ _ ys xs Hys Hxs) by lia.
      rewrite Vx, Vy. assert (x < 0) by (pose proof (zsize_nonneg x); lia). assert (y < 0) by (destruct (Z.sgn_spec x), (Z.sgn_spec y); lia).
      rewrite !Z.abs_neq by lia. unfold cmp_sign. rewrite Z.compare_opp. by destruct s.
  - unfold reads, mret, M_ret. f_equal. destruct (zsize_cases x) as [[Ex Hx]|[Ex Hx]], (zsize_cases y) as [[Ey Hy]|[Ey Hy]], (Z.ltb_spec (zsize x) (zsize y)),
      (cmp_sign_spec x y) as [[-> C]|[[-> C]|[-> C]]]; try done; try lia; pose proof (zlimbs_pos y ltac:(lia)); lia.
Qed.

Lemma mpz_cmpabs_spec a b x y : N !! a = Some (Some x) → N !! b = Some (Some y) → reads (mpz_cmpabs a b) s (cmp_sign (Z.abs x) (Z.abs y)).
Proof.
  intros Ha Hb. destruct (holds_read N s a x H Ha) as (sta & xs & Hoa & Hxs & Nx & Lx & _ & Vx & _). destruct (holds_read N s b y H Hb) as (stb & ys & Hob & Hys & Ny & Ly & _ & Vy & _).
  unfold mpz_cmpabs, reads. rewrite (bind_done _ _ _ _ _ (limbs_of_own _ _ _ _ Hoa)), (bind_done _ _ _ _ _ (size_of_ok N s a x H Ha)).
  rewrite (bind_done _ _ _ _ _ (limbs_of_own _ _ _ _ Hob)), (bind_done _ _ _ _ _ (size_of_ok N s b y H Hb)), !zsize_abs, <- Lx, <- Ly.
  unfold limbsZ, zoom. rewrite (mpn_cmp4_spec _ _ _ xs ys), Vx, Vy by done. by destruct s.
Qed.

Lemma mpz_fits_slong_spec u z : N !! u = Some (Some z) → reads (mpz_fits_slong_p u) s (bool_decide (- 2 ^ 63 ≤ z < 2 ^ 63)).
Proof.
  intros Hu. eapply reads_size; [done|]. pose proof (zlimbs_le_1 z). pose proof (zlimbs_nonneg z). assert (B = 2 * 2 ^ 63) as HB by done.
  change GMP_LIMB_HIGHBIT with (2 ^ 63). destruct (Z.eq_dec z 0) as [->|Hz]; [done|]. pose proof (zlimbs_pos z Hz).
  destruct (zsize_cases z) as [[E Hp]|[E Hp]]; rewrite E.
  - destruct (Z.eqb_spec (zlimbs z) 1).
    + eapply reads_low; [done|lia|]. rewrite Z.mod_small, Z.abs_eq by lia. unfold reads, mret, M_ret. f_equal. destruct (Z.ltb_spec z (2 ^ 63)); case_bool_decide; (done || lia).
    + guard_false (zlimbs z =? -1). guard_false (zlimbs z =? 0). unfold reads, mret, M_ret. f_equal. case_bool_decide; (done || lia).
  - guard_false (- zlimbs z =? 1). destruct (Z.eqb_spec (- zlimbs z) (-1)).
    + eapply reads_low; [done|lia|]. rewrite Z.mod_small by lia. unfold reads, mret, M_ret. f_equal. destruct (Z.leb_spec (Z.abs z) (2 ^ 63)); case_bool_decide; (done || lia).
    + guard_false (- zlimbs z =? 0). unfold reads, mret, M_ret. f_equal. case_bool_decide; (done || lia).
Qed.

Lemma mpz_fits_ulong_spec u z : N !! u = Some (Some z) → reads (mpz_fits_ulong_p u) s (bool_decide (0 ≤ z < B)).
Proof.
  intros Hu. eapply reads_size; [done|]. pose proof (zlimbs_le_1 z). pose proof (zlimbs_nonneg z). destruct (Z.eq_dec z 0) as [->|Hz]; [done|]. pose proof (zlimbs_pos z Hz).
  unfold reads, mret, M_ret. f_equal. destruct (zsize_cases z) as [[E Hp]|[E Hp]]; rewrite E.
  - guard_true (0 <? zlimbs z). cbn [b2l]. destruct (Z.eqb_spec (zlimbs z) 1); case_bool_decide; (done || lia).
  - guard_false (0 <? - zlimbs z). cbn [b2l]. destruct (Z.eqb_spec (- zlimbs z) 0); case_bool_decide; (done || lia).
Qed.

Lemma land_low63 x : 0 ≤ x → Z.land x (lnot GMP_LIMB_HIGHBIT) = x mod 2 ^ 63.
Proof. intros. change (lnot GMP_LIMB_HIGHBIT) with (Z.ones 63). by rewrite Z.land_ones by lia. Qed.

Lemma mpz_get_si_spec u z : N !! u = Some (Some z) → - 2 ^ 63 ≤ z < 2 ^ 63 → reads (mpz_get_si u) s z.
Proof.
  intros Hu Hz. eapply reads_size; [done|]. pose proof (zsize_nonneg z). assert (B = 2 * 2 ^ 63) as HB by done.
  destruct (Z.ltb_spec (zsize z) 0).
  - eapply reads_low; [done|lia|]. unfold reads, mret, M_ret. f_equal. rewrite Z.mod_small by lia. unfold lsub. rewrite u64_small by (change SIZE_MOD with B; lia).
    rewrite land_low63, Z.mod_small by lia. lia.
  - unfold reads. rewrite (bind_done _ _ _ _ _ (mpz_get_ui_spec u z Hu)), Z.mod_small, land_low63, Z.mod_small by lia. unfold mret, M_ret. f_equal. lia.
Qed.
End reading.

(** ** Addition and subtraction of absolute values *)

(** A result with its carry as the highest limb. *)
Lemma carry_pending N s r st rs cy v :
  filled N s r st (rs ++ [cy]) → 0 ≤ cy → value rs + B ^ Z.of_nat (length rs) * cy = v → (0 < length rs)%nat → B ^ (Z.of_nat (length rs) - 1) ≤ v →
  pending N s r (Z.of_nat (length rs) + b2l (0 <? cy)) v.
Proof.
  intros Hf Hcy Hv Hl Hge. pose proof Hf as (_ & _ & Hlm & _). pose proof (proj1 (proj1 (Forall_app _ _ _) (proj1 Hlm))) as Hrs. exists st, (rs ++ [cy]). rewrite length_app. cbn [length].
  destruct (Z.ltb_spec 0 cy); cbn [b2l]; rewrite Z.abs_eq by lia.
  - rewrite take_ge by (rewrite length_app; simpl; lia). rewrite Z.sgn_pos by lia. split_and!; try done; [lia| |rewrite value_app; simpl; lia].
    unfold normalized. rewrite last_snoc. intros [= ->]. lia.
  - assert (cy = 0) as -> by lia. rewrite Z.add_0_r, Nat2Z.id, take_app_length, Z.sgn_pos by lia. split_and!; try done; [lia| |lia].
    apply normalized_ge; [done|done|]. replace (Z.of_nat (pred (length rs))) with (Z.of_nat (length rs) - 1) by lia. lia.
Qed.

(** A result without its high zero limbs. *)
Lemma wp_normalized N s r st rs :
  filled N s r st rs →
  wp never (limbsZ (mpn_normalized_size (mp_d st) (Z.of_nat (length rs)))) (λ n s', s' = s ∧ pending N s r n (value rs)) s.
Proof.
  intros Hf. pose proof Hf as (_ & _ & Hlm & _). destruct (mpn_normalized_size_spec (zmem s) (mp_d st) rs Hlm) as (k & E & Hk & Hv & Hn).
  eapply wp_limbsZ_last; [done|]. split; [done|]. exists st, rs. rewrite Z.abs_eq, Nat2Z.id by lia. split_and!; try done; [lia|].
  destruct (decide (k = O)) as [->|]; [simpl in *; lia|]. rewrite Z.sgn_pos by lia. lia.
Qed.

Lemma abs_ge z : z ≠ 0 → B ^ (zlimbs z - 1) ≤ Z.abs z.
Proof.
  intros Hz. pose proof (zlimbs_pos z Hz) as Hp. unfold zlimbs in *. rewrite (proj2 (Z.eqb_neq z 0)) in * by done. rewrite Z.add_simpl_r in *.
  pose proof (Z.log2_nonneg (Z.abs z)). rewrite B_pow by (apply Z.div_pos; lia). etransitivity; [|apply Z.log2_spec; lia].
  apply Z.pow_le_mono_r; [lia|]. apply Z.mul_div_le. lia.
Qed.

Lemma wp_realloc {A} N s r n (f : Z → M zst A) Q :
  holds N s → is_Some (N !! r) → n ≤ alloc_limit →
  (∀ s1 st, holds N s1 → own N s1 r st → n ≤ mp_alloc st → wp never (f (mp_d st)) Q s1) → wp never (MPZ_REALLOC r n ≫= f) Q s.
Proof.
  intros H Hr Hn Hf. destruct (holds_own N s r H Hr) as (st0 & Ho & _). apply wp_bind.
  eapply wp_mono; [by apply (MPZ_REALLOC_spec N s r st0 n H Ho)|]. intros p s1 (H1 & _ & st & Ho1 & <- & Hal & _). by apply Hf.
Qed.

Lemma filled_nil N s r st : holds N s → own N s r st → filled N s r st [].
Proof.
  intros H Ho. split; [apply holds_raw; [done|apply Ho]|]. split; [done|]. split; [apply limbs_at_nil|]. destruct (own_block _ _ _ _ H Ho) as (? & _). simpl. lia.
Qed.

(** One limb as the absolute value. *)
Lemma store_one N s r st x :
  holds N s → own N s r st → 1 ≤ mp_alloc st → limb x →
  wp never (limbsZ (store (mp_d st) x)) (λ _ s', sizes N s' ∧ filled N s' r st [x]) s.
Proof.
  intros H Ho Hal Hx. rewrite <- (Z.add_0_r (mp_d st)). eapply wp_mono; [apply (filled_store N s r st [] x (filled_nil _ _ _ _ H Ho) Hx); simpl; lia|].
  intros [] s' [-> Hf]. split; [|done]. apply sizes_set_mem. exact (holds_sizes _ _ H).
Qed.

Lemma one_pending N s r st x n : filled N s r st [x] → 0 ≤ x → n = b2l (0 <? x) → pending N s r n x.
Proof.
  intros Hf Hx ->. exists st, [x]. split; [done|]. destruct (Z.ltb_spec 0 x); cbn [b2l]; simpl.
  - split_and!; [lia| |lia]. unfold normalized. simpl. intros [= E]. lia.
  - split_and!; [lia|done|lia].
Qed.

(** A computation into the block of a variable, and a limb after it. *)
Lemma wp_computes {A} N s r st k n P (f : Z → M zst A) Q :
  holds N s → own N s r st → computes k (zmem s) (mp_d st) n P → Z.of_nat n ≤ mp_alloc st →
  (∀ c rs s', sizes N s' → filled N s' r st rs → Forall limb rs → length rs = n → P c rs → wp never (f c) Q s') →
  wp never (limbsZ k ≫= f) Q s.
Proof.
  intros H Ho Hc Hn Hf. apply wp_bind. eapply wp_mono; [exact (filled_computes N s r st k n P H Ho Hc Hn)|].
  intros c s' (rs & -> & Hfl & Hlen & HP). apply (Hf c rs); try done; [apply sizes_set_mem; exact (holds_sizes _ _ H)|]. apply (proj1 (proj2 (proj2 Hfl))).
Qed.

Lemma wp_store {A} N s r st rs y (f : unit → M zst A) Q :
  sizes N s → filled N s r st rs → limb y → Z.of_nat (length rs) < mp_alloc st →
  (∀ s', sizes N s' → filled N s' r st (rs ++ [y]) → wp never (f tt) Q s') →
  wp never (limbsZ (store (mp_d st + Z.of_nat (length rs)) y) ≫= f) Q s.
Proof.
  intros Hs Hfl Hy Hlt Hf. apply wp_bind. eapply wp_mono; [exact (filled_store N s r st rs y Hfl Hy Hlt)|]. intros [] s' [-> Hf']. apply Hf; [by apply sizes_set_mem|done].
Qed.

(** The carry of an addition is at most 1. *)
Lemma carry_small n x y v c : 0 ≤ v → 0 ≤ c → x < B ^ n → y ≤ B ^ n → v + B ^ n * c = x + y → 0 < B ^ n → c = b2l (0 <? c).
Proof. intros. destruct (Z.ltb_spec 0 c); simpl; [|lia]. assert (B ^ n * c < B ^ n * 2) by lia. nia. Qed.

Lemma wp_bind_assoc {A C E} (k : M zst A) (f : A → M zst C) (g : C → M zst E) Q s :
  wp never ((k ≫= f) ≫= g) Q s ↔ wp never (k ≫= (λ a, f a ≫= g)) Q s.
Proof. unfold wp. by rewrite (M_bind_assoc k f g s). Qed.

Lemma wp_reads {A C} (k : M zst A) (f : A → M zst C) Q s a : reads k s a → wp never (f a) Q s → wp never (k ≫= f) Q s.
Proof. intros E Hf. apply wp_bind. by eapply wp_run. Qed.

(** A difference that is not negative. *)
Lemma wp_difference N s r st k n v :
  holds N s → own N s r st → computes k (zmem s) (mp_d st) n (λ c rs, limb c ∧ value rs - B ^ Z.of_nat n * c = v) → 0 ≤ v → Z.of_nat n ≤ mp_alloc st →
  wp never (_ ← limbsZ (gmp_assert_nocarry k); limbsZ (mpn_normalized_size (mp_d st) (Z.of_nat n))) (λ n s', sizes N s' ∧ pending N s' r n v) s.
Proof.
  intros H Ho (c & rs & E & Hrs & Lrs & Hc & V) Hv Hal. pose proof (value_bounds rs Hrs) as [Hv0 Hvu]. unfold limb in Hc. rewrite Lrs in Hvu.
  assert (c = 0) as -> by nia.
  assert (gmp_assert_nocarry k (zmem s) = Done tt (write (zmem s) (mp_d st) rs)) as E1 by (unfold gmp_assert_nocarry; by rewrite (bind_done _ _ _ _ _ E)).
  apply wp_bind. eapply wp_mono; [exact (filled_write N s r st _ _ rs H Ho E1 Hrs ltac:(lia))|]. intros [] s2 (_ & -> & Hf).
  rewrite <- Lrs. eapply wp_mono; [exact (wp_normalized N _ r st rs Hf)|]. intros n' s3 [-> Hp].
  split; [apply sizes_set_mem; exact (holds_sizes _ _ H)|]. by replace v with (value rs) by lia.
Qed.

Section absolute.
Context (N : vars) (s : zst) (r a : positive) (z : Z).
Hypotheses (H : holds N s) (Hr : is_Some (N !! r)) (Ha : N !! a = Some (Some z)).

Lemma mpz_abs_add_ui_spec b :
  limb b → zlimbs z + 1 ≤ alloc_limit →
  wp never (mpz_abs_add_ui r a b) (λ n s', sizes N s' ∧ pending N s' r n (Z.abs z + b)) s.
Proof.
  intros Hb Hlim. pose proof (zlimbs_nonneg z). eapply wp_size; [exact (holds_sizes _ _ H)|done|]. cbv zeta. rewrite zsize_abs. destruct (Z.eqb_spec (zlimbs z) 0) as [E0|E0].
  - destruct (Z.eq_dec z 0) as [->|Hz]; [|pose proof (zlimbs_pos z Hz); lia]. apply (wp_realloc N); [done|done|lia|]. intros s1 st H1 Ho Hal.
    apply wp_bind. eapply wp_mono; [exact (store_one N s1 r st b H1 Ho ltac:(lia) Hb)|]. intros [] s2 [Hs Hf]. eapply wp_run; [done|].
    split; [done|]. eapply one_pending; [done|apply Hb|done].
  - assert (z ≠ 0) as Hz by (intros ->; done). pose proof (abs_ge z Hz) as Hge.
    apply (wp_realloc N); [done|done|lia|]. intros s1 st H1 Ho Hal. destruct (holds_read N s1 a z H1 Ha) as (sta & xs & Hoa & Hxs & Hn & Hlen & _ & Hval & Hala).
    eapply wp_limbs; [done|]. rewrite <- Hlen.
    pose proof (mpn_add_1_spec (zmem s1) (mp_d st) (mp_d sta) xs b Hb ltac:(lia) Hxs (own_writable N s1 r st (length xs) H1 Ho ltac:(lia))
      (own_upward N s1 r a st sta (Z.of_nat (length xs)) H1 Ho Hoa ltac:(lia))) as Hc.
    apply (wp_computes N s1 r st _ _ _ _ _ H1 Ho Hc); [lia|]. intros cy rs s2 Hs2 Hf Hrs Lrs [Hcy V]. rewrite <- Lrs.
    apply (wp_store N s2 r st rs cy); try done; [lia|]. intros s3 Hs3 Hf3. eapply wp_run; [done|]. split; [done|].
    pose proof (value_bounds _ (proj1 Hxs)) as [_ Hu]. pose proof (value_bounds rs Hrs) as [Hv0 _]. rewrite Hval in V, Hu. unfold limb in Hcy, Hb.
    assert (B ^ 1 ≤ B ^ Z.of_nat (length xs)) by (apply Z.pow_le_mono_r; [done|lia]).
    rewrite (carry_small (Z.of_nat (length xs)) (Z.abs z) b (value rs) cy) by lia.
    apply (carry_pending N _ r st rs cy); rewrite ?Lrs, ?Hlen in *; (done || lia).
Qed.

Lemma mpz_abs_sub_ui_spec b :
  limb b → wp never (mpz_abs_sub_ui r a b) (λ n s', sizes N s' ∧ pending N s' r n (Z.abs z - b)) s.
Proof.
  intros Hb. pose proof (holds_limit _ _ _ _ H Ha) as Hlim. pose proof (zlimbs_nonneg z).
  eapply wp_size; [exact (holds_sizes _ _ H)|done|]. cbv zeta. rewrite zsize_abs. destruct (Z.eqb_spec (zlimbs z) 0) as [E0|E0].
  - destruct (Z.eq_dec z 0) as [->|Hz]; [|pose proof (zlimbs_pos z Hz); lia]. apply (wp_realloc N); [done|done|unfold alloc_limit; lia|]. intros s1 st H1 Ho Hal.
    apply wp_bind. eapply wp_mono; [exact (store_one N s1 r st b H1 Ho ltac:(lia) Hb)|]. intros [] s2 [Hs Hf]. eapply wp_run; [done|].
    split; [done|]. apply pending_opp. eapply one_pending; [done|apply Hb|done].
  - assert (z ≠ 0) as Hz by (intros ->; done). pose proof (abs_ge z Hz) as Hge.
    apply (wp_realloc N); [done|done|done|]. intros s1 st H1 Ho Hal. destruct (holds_read N s1 a z H1 Ha) as (sta & xs & Hoa & Hxs & Hn & Hlen & _ & Hval & Hala).
    destruct (low_limb N s1 H1 a z Ha Hz) as (sta' & Hoa' & El). assert (sta' = sta) as -> by (destruct Hoa as [_ ?], Hoa' as [_ ?]; congruence).
    pose proof (zlimbs_le_1 z) as Hle1.
    assert (reads (if zlimbs z =? 1 then ap ← limbs_of a; x ← limbsZ (load ap); mret (x <? b) else mret false) s1 (Z.abs z <? b)) as Hless.
    { destruct (Z.eqb_spec (zlimbs z) 1).
      - eapply (reads_low N s1 H1); [done|done|]. by rewrite Z.mod_small by lia.
      - unfold reads, mret, M_ret. f_equal. symmetry. apply Z.ltb_ge. unfold limb in Hb. lia. }
    eapply wp_reads; [exact Hless|]. destruct (Z.ltb_spec (Z.abs z) b) as [Hlt|Hnlt].
    + eapply wp_limbs; [done|]. eapply wp_limbsZ; [done|]. unfold limb in Hb. rewrite Z.mod_small by lia. unfold lsub. rewrite u64_small by (change SIZE_MOD with B; lia).
      apply wp_bind. eapply wp_mono; [exact (store_one N s1 r st (b - Z.abs z) H1 Ho ltac:(lia) ltac:(unfold limb; lia))|]. intros [] s2 [Hs Hf]. eapply wp_run; [done|].
      split; [done|]. replace (Z.abs z - b) with (- (b - Z.abs z)) by lia. change (-1) with (- (1)). apply pending_opp.
      eapply one_pending; [done|lia|]. by guard_true (0 <? b - Z.abs z).
    + eapply wp_limbs; [done|]. rewrite <- Hlen.
      pose proof (mpn_sub_1_spec (zmem s1) (mp_d st) (mp_d sta) xs b Hb ltac:(lia) Hxs (own_writable N s1 r st (length xs) H1 Ho ltac:(lia))
        (own_upward N s1 r a st sta (Z.of_nat (length xs)) H1 Ho Hoa ltac:(lia))) as Hc. rewrite Hval in Hc.
      apply (wp_difference N s1 r st _ _ _ H1 Ho Hc); lia.
Qed.
End absolute.

Section two.
Context (N : vars) (s : zst) (r : positive).
Hypotheses (H : holds N s) (Hr : is_Some (N !! r)).

(** Addition of limbs, the longer operand first. *)
Lemma abs_add_sorted a b x y :
  N !! a = Some (Some x) → N !! b = Some (Some y) → zlimbs y ≤ zlimbs x → zlimbs x + 1 ≤ alloc_limit →
  wp never (rp ← MPZ_REALLOC r (zlimbs x + 1); ap ← limbs_of a; bp ← limbs_of b;
            cy ← limbsZ (mpn_add rp ap (zlimbs x) bp (zlimbs y)); _ ← limbsZ (store (rp + zlimbs x) cy); mret (zlimbs x + cy))
    (λ n s', sizes N s' ∧ pending N s' r n (Z.abs x + Z.abs y)) s.
Proof.
  intros Ha Hb Hxy Hlim. apply (wp_realloc N); [done|done|lia|]. intros s1 st H1 Ho Hal.
  destruct (holds_read N s1 a x H1 Ha) as (sta & xs & Hoa & Hxs & Nx & Lx & _ & Vx & Hala). destruct (holds_read N s1 b y H1 Hb) as (stb & ys & Hob & Hys & Ny & Ly & _ & Vy & Halb).
  eapply wp_limbs; [done|]. eapply wp_limbs; [done|]. rewrite <- Lx, <- Ly in *.
  pose proof (mpn_add_spec (zmem s1) (mp_d st) (mp_d sta) (mp_d stb) xs ys ltac:(lia) Hxs Hys (own_writable N s1 r st (length xs) H1 Ho ltac:(lia))
    (own_upward N s1 r a st sta (Z.of_nat (length xs)) H1 Ho Hoa ltac:(lia)) (own_upward N s1 r b st stb (Z.of_nat (length ys)) H1 Ho Hob ltac:(lia))) as Hc.
  apply (wp_computes N s1 r st _ _ _ _ _ H1 Ho Hc); [lia|]. intros cy rs s2 Hs2 Hf Hrs Lrs [Hcy V]. rewrite <- Lrs.
  apply (wp_store N s2 r st rs cy); try done; [lia|]. intros s3 Hs3 Hf3. eapply wp_run; [done|]. split; [done|].
  pose proof (value_bounds _ (proj1 Hxs)) as [_ Hu]. pose proof (value_bounds _ (proj1 Hys)) as [_ Hw]. pose proof (value_bounds rs Hrs) as [Hv0 Hvu].
  assert (B ^ Z.of_nat (length ys) ≤ B ^ Z.of_nat (length xs)) by (apply Z.pow_le_mono_r; [done|lia]).
  pose proof (Z.pow_pos_nonneg B (Z.of_nat (length xs)) ltac:(done) ltac:(lia)). unfold limb in Hcy. rewrite <- Vx, <- Vy.
  rewrite (carry_small (Z.of_nat (length xs)) (value xs) (value ys) (value rs) cy) by lia.
  destruct (decide (length rs = O)) as [E0|E0].
  - (* both are 0 *)
    destruct xs; [|simpl in Lrs; lia]. destruct ys; [|simpl in Hxy; lia]. destruct rs; [|done]. simpl in *. assert (cy = 0) as -> by lia.
    exists st, [0]. by split.
  - apply (carry_pending N _ r st rs cy); rewrite ?Lrs; try done; try lia. assert (x ≠ 0) as Hx by (intros ->; unfold zlimbs in Lx; simpl in Lx; lia).
    pose proof (abs_ge x Hx). rewrite <- Lx in *. lia.
Qed.

Lemma mpz_abs_add_spec a b x y :
  N !! a = Some (Some x) → N !! b = Some (Some y) → Z.max (zlimbs x) (zlimbs y) + 1 ≤ alloc_limit →
  wp never (mpz_abs_add r a b) (λ n s', sizes N s' ∧ pending N s' r n (Z.abs x + Z.abs y)) s.
Proof.
  intros Ha Hb Hlim. unfold mpz_abs_add. eapply wp_size; [exact (holds_sizes _ _ H)|done|]. eapply wp_size; [exact (holds_sizes _ _ H)|done|].
  cbv zeta. rewrite !zsize_abs. destruct (Z.ltb_spec (zlimbs x) (zlimbs y)).
  - rewrite (Z.add_comm (Z.abs x)). apply (abs_add_sorted b a y x); (done || lia).
  - apply (abs_add_sorted a b x y); (done || lia).
Qed.

(** Subtraction of limbs, the larger operand first. *)
Lemma abs_sub_sorted a b x y sb :
  holds N sb → N !! a = Some (Some x) → N !! b = Some (Some y) → Z.abs y < Z.abs x →
  ∀ st, own N sb r st → zlimbs x ≤ mp_alloc st → ∀ sta stb, own N sb a sta → own N sb b stb →
  wp never (_ ← limbsZ (gmp_assert_nocarry (mpn_sub (mp_d st) (mp_d sta) (zlimbs x) (mp_d stb) (zlimbs y)));
            limbsZ (mpn_normalized_size (mp_d st) (zlimbs x)))
    (λ n s', sizes N s' ∧ pending N s' r n (Z.abs x - Z.abs y)) sb.
Proof.
  intros H1 Ha Hb Hxy st Ho Hal sta stb Hoa Hob.
  destruct (holds_read N sb a x H1 Ha) as (sta' & xs & Hoa' & Hxs & Nx & Lx & _ & Vx & Hala). destruct (holds_read N sb b y H1 Hb) as (stb' & ys & Hob' & Hys & Ny & Ly & _ & Vy & Halb).
  assert (sta' = sta) as -> by (destruct Hoa as [_ ?], Hoa' as [_ ?]; congruence). assert (stb' = stb) as -> by (destruct Hob as [_ ?], Hob' as [_ ?]; congruence).
  assert (length ys ≤ length xs)%nat as Hle.
  { destruct (Nat.le_gt_cases (length ys) (length xs)); [done|]. pose proof (normalized_lt xs ys (proj1 Hxs) (proj1 Hys) Ny ltac:(lia)). lia. }
  rewrite <- Lx, <- Ly in *.
  pose proof (mpn_sub_spec (zmem sb) (mp_d st) (mp_d sta) (mp_d stb) xs ys Hle Hxs Hys (own_writable N sb r st (length xs) H1 Ho ltac:(lia))
    (own_upward N sb r a st sta (Z.of_nat (length xs)) H1 Ho Hoa ltac:(lia)) (own_upward N sb r b st stb (Z.of_nat (length ys)) H1 Ho Hob ltac:(lia))) as Hc.
  rewrite Vx, Vy in Hc. apply (wp_difference N sb r st _ _ _ H1 Ho Hc); lia.
Qed.

Lemma mpz_abs_sub_spec a b x y :
  N !! a = Some (Some x) → N !! b = Some (Some y) →
  wp never (mpz_abs_sub r a b) (λ n s', sizes N s' ∧ pending N s' r n (Z.abs x - Z.abs y)) s.
Proof.
  intros Ha Hb. pose proof (holds_limit _ _ _ _ H Ha) as Hlx. pose proof (holds_limit _ _ _ _ H Hb) as Hly. unfold mpz_abs_sub.
  destruct (holds_read N s a x H Ha) as (sta & xs & Hoa & Hxs & Nx & Lx & _ & Vx & Hala). destruct (holds_read N s b y H Hb) as (stb & ys & Hob & Hys & Ny & Ly & _ & Vy & Halb).
  eapply wp_size; [exact (holds_sizes _ _ H)|done|]. eapply wp_size; [exact (holds_sizes _ _ H)|done|]. cbv zeta. rewrite !zsize_abs.
  eapply wp_limbs; [done|]. eapply wp_limbs; [done|]. eapply wp_limbsZ; [rewrite <- Lx, <- Ly; by apply mpn_cmp4_spec|]. rewrite Vx, Vy.
  destruct (cmp_sign_spec (Z.abs x) (Z.abs y)) as [[-> C]|[[-> C]|[-> C]]]; cbn [Z.ltb].
  - apply (wp_realloc N); [done|done|done|]. intros s1 st H1 Ho Hal.
    destruct (holds_read N s1 a x H1 Ha) as (sta1 & _ & Hoa1 & _). destruct (holds_read N s1 b y H1 Hb) as (stb1 & _ & Hob1 & _).
    eapply wp_limbs; [done|]. eapply wp_limbs; [done|]. rewrite <- wp_bind_assoc. apply wp_bind.
    eapply wp_mono; [exact (abs_sub_sorted b a y x s1 H1 Hb Ha C st Ho Hal stb1 sta1 Hob1 Hoa1)|]. intros n s2 [Hs Hp]. eapply wp_run; [done|].
    split; [done|]. replace (Z.abs x - Z.abs y) with (- (Z.abs y - Z.abs x)) by lia. by apply pending_opp.
  - eapply wp_run; [done|]. split; [exact (holds_sizes _ _ H)|]. replace (Z.abs x - Z.abs y) with 0 by lia. by apply pending_zero.
  - apply (wp_realloc N); [done|done|done|]. intros s1 st H1 Ho Hal.
    destruct (holds_read N s1 a x H1 Ha) as (sta1 & _ & Hoa1 & _). destruct (holds_read N s1 b y H1 Hb) as (stb1 & _ & Hob1 & _).
    eapply wp_limbs; [done|]. eapply wp_limbs; [done|]. exact (abs_sub_sorted a b x y s1 H1 Ha Hb C st Ho Hal sta1 stb1 Hoa1 Hob1).
Qed.

(** ** Addition and subtraction *)

Lemma sign_sum x y : 0 ≤ Z.lxor (zsize x) (zsize y) ↔ (0 ≤ x ↔ 0 ≤ y).
Proof. by rewrite Z.lxor_nonneg, !zsize_nonneg. Qed.

Section with_limb.
Context (a : positive) (z b : Z).
Hypotheses (Ha : N !! a = Some (Some z)) (Hb : limb b) (Hlim : zlimbs z + 1 ≤ alloc_limit).

Lemma mpz_add_ui_spec : wp never (mpz_add_ui r a b) (λ _ s', holds (<[r := Some (z + b)]> N) s') s.
Proof.
  unfold mpz_add_ui. eapply wp_size; [exact (holds_sizes _ _ H)|done|]. destruct (Z.leb_spec 0 (zsize z)) as [Hz|Hz].
  - apply (proj1 (zsize_nonneg z)) in Hz. apply wp_bind. eapply wp_mono; [exact (mpz_abs_add_ui_spec N s r a z H Hr Ha b Hb Hlim)|]. intros n s1 [_ Hp].
    rewrite Z.abs_eq in Hp by done. by apply pending_finish.
  - assert (z < 0) by (pose proof (zsize_nonneg z); lia). apply wp_bind. eapply wp_mono; [exact (mpz_abs_sub_ui_spec N s r a z H Hr Ha b Hb)|].
    intros n s1 [_ Hp]. apply pending_opp in Hp. replace (- (Z.abs z - b)) with (z + b) in Hp by lia. by apply pending_finish.
Qed.

Lemma mpz_sub_ui_spec : wp never (mpz_sub_ui r a b) (λ _ s', holds (<[r := Some (z - b)]> N) s') s.
Proof.
  unfold mpz_sub_ui. eapply wp_size; [exact (holds_sizes _ _ H)|done|]. pose proof (zsize_nonneg z). destruct (Z.ltb_spec (zsize z) 0).
  - apply wp_bind. eapply wp_mono; [exact (mpz_abs_add_ui_spec N s r a z H Hr Ha b Hb Hlim)|]. intros n s1 [_ Hp].
    apply pending_opp in Hp. replace (- (Z.abs z + b)) with (z - b) in Hp by lia. by apply pending_finish.
  - apply wp_bind. eapply wp_mono; [exact (mpz_abs_sub_ui_spec N s r a z H Hr Ha b Hb)|]. intros n s1 [_ Hp].
    rewrite Z.abs_eq in Hp by lia. by apply pending_finish.
Qed.

Lemma mpz_ui_sub_spec : wp never (mpz_ui_sub r b a) (λ _ s', holds (<[r := Some (b - z)]> N) s') s.
Proof.
  unfold mpz_ui_sub. eapply wp_size; [exact (holds_sizes _ _ H)|done|]. pose proof (zsize_nonneg z). destruct (Z.ltb_spec (zsize z) 0).
  - apply wp_bind. eapply wp_mono; [exact (mpz_abs_add_ui_spec N s r a z H Hr Ha b Hb Hlim)|]. intros n s1 [_ Hp].
    replace (Z.abs z + b) with (b - z) in Hp by lia. by apply pending_finish.
  - apply wp_bind. eapply wp_mono; [exact (mpz_abs_sub_ui_spec N s r a z H Hr Ha b Hb)|]. intros n s1 [_ Hp].
    apply pending_opp in Hp. replace (- (Z.abs z - b)) with (b - z) in Hp by lia. by apply pending_finish.
Qed.
End with_limb.

Section with_number.
Context (a b : positive) (x y : Z).
Hypotheses (Ha : N !! a = Some (Some x)) (Hb : N !! b = Some (Some y)) (Hlim : Z.max (zlimbs x) (zlimbs y) + 1 ≤ alloc_limit).

(** The sign of the result follows that of the first operand. *)
Lemma finish_sign n v s1 : sizes N s1 → pending N s1 r n v →
  wp never (asize ← size_of a; set_size r (if 0 <=? asize then n else - n)) (λ _ s', holds (<[r := Some (if 0 <=? x then v else - v)]> N) s') s1.
Proof.
  intros Hs Hp. eapply wp_size; [done|done|]. pose proof (zsize_nonneg x). destruct (Z.leb_spec 0 (zsize x)), (Z.leb_spec 0 x); try lia; apply pending_finish; [done|by apply pending_opp].
Qed.

Lemma mpz_add_spec : wp never (mpz_add r a b) (λ _ s', holds (<[r := Some (x + y)]> N) s') s.
Proof.
  unfold mpz_add. eapply wp_size; [exact (holds_sizes _ _ H)|done|]. eapply wp_size; [exact (holds_sizes _ _ H)|done|].
  pose proof (sign_sum x y) as Hs. apply wp_bind. destruct (Z.leb_spec 0 (Z.lxor (zsize x) (zsize y))).
  - eapply wp_mono; [exact (mpz_abs_add_spec a b x y Ha Hb Hlim)|]. intros n s1 [Hs1 Hp].
    replace (x + y) with (if 0 <=? x then Z.abs x + Z.abs y else - (Z.abs x + Z.abs y)) by (destruct (Z.leb_spec 0 x); lia). by apply finish_sign.
  - eapply wp_mono; [exact (mpz_abs_sub_spec a b x y Ha Hb)|]. intros n s1 [Hs1 Hp].
    replace (x + y) with (if 0 <=? x then Z.abs x - Z.abs y else - (Z.abs x - Z.abs y)) by (destruct (Z.leb_spec 0 x); lia). by apply finish_sign.
Qed.

Lemma mpz_sub_spec : wp never (mpz_sub r a b) (λ _ s', holds (<[r := Some (x - y)]> N) s') s.
Proof.
  unfold mpz_sub. eapply wp_size; [exact (holds_sizes _ _ H)|done|]. eapply wp_size; [exact (holds_sizes _ _ H)|done|].
  pose proof (sign_sum x y) as Hs. apply wp_bind. destruct (Z.leb_spec 0 (Z.lxor (zsize x) (zsize y))).
  - eapply wp_mono; [exact (mpz_abs_sub_spec a b x y Ha Hb)|]. intros n s1 [Hs1 Hp].
    replace (x - y) with (if 0 <=? x then Z.abs x - Z.abs y else - (Z.abs x - Z.abs y)) by (destruct (Z.leb_spec 0 x); lia). by apply finish_sign.
  - eapply wp_mono; [exact (mpz_abs_add_spec a b x y Ha Hb Hlim)|]. intros n s1 [Hs1 Hp].
    replace (x - y) with (if 0 <=? x then Z.abs x + Z.abs y else - (Z.abs x + Z.abs y)) by (destruct (Z.leb_spec 0 x); lia). by apply finish_sign.
Qed.
End with_number.
End two.
End arith.
