(* ===== verification/MpzMul.v ===== *)
(** * Multiplication of integers *)

From S2P Require Import Prelude Limbs Mpn Invert MpnDiv MpnDivN MpnStr MpnSetStr MpnGetStr Mpz MpzRep MpzArith.

Section by_limb.
Context {F : gmap Z (option Z)} {FB : gmap Z Z} {D : positive → Prop}.
Local Abbreviation holds := (holds F FB D).
Local Abbreviation filled := (filled (F:=F) (FB:=FB) (D:=D)).
Local Abbreviation pending := (pending (F:=F) (FB:=FB) (D:=D)).

(** ** By a limb *)

Lemma finish_signed N s r n v (neg : bool) :
  pending N s r n v → wp never (set_size r (if neg then - n else n)) (λ _ s', holds (<[r := Some (if neg then - v else v)]> N) s') s.
Proof. intros Hp. apply pending_finish. destruct neg; [by apply pending_opp|done]. Qed.

Lemma mpz_mul_ui_spec N s r u z v :
  holds N s → is_Some (N !! r) → N !! u = Some (Some z) → limb v → zlimbs z + 1 ≤ alloc_limit →
  wp never (mpz_mul_ui r u v) (λ _ s', holds (<[r := Some (z * v)]> N) s') s.
Proof.
  intros H Hr Hu Hv Hlim. unfold mpz_mul_ui. eapply wp_size; [exact (holds_sizes _ _ H)|done|].
  destruct (decide (z = 0 ∨ v = 0)) as [Hz|Hz].
  { replace ((zsize z =? 0) || (v =? 0)) with true; [|symmetry; apply orb_true_iff; rewrite !Z.eqb_eq, zsize_0; tauto].
    replace (z * v) with 0 by lia. by apply set_size_zero. }
  apply Decidable.not_or in Hz as [Hz Hv0]. replace ((zsize z =? 0) || (v =? 0)) with false; [|symmetry; apply orb_false_iff; rewrite !Z.eqb_neq, zsize_0; tauto].
  cbv zeta. rewrite zsize_abs. pose proof (abs_ge z Hz) as Hge. pose proof (zlimbs_pos z Hz).
  apply (wp_realloc N s r _ _ _ H Hr); [lia|]. intros s1 st H1 Ho Hal. destruct (holds_read N s1 u z H1 Hu) as (sta & xs & Hoa & Hxs & Hn & Hlen & _ & Hval & Hala).
  eapply wp_limbs; [done|]. rewrite <- Hlen in *.
  pose proof (mpn_mul_1_spec (zmem s1) (mp_d st) (mp_d sta) xs v Hv ltac:(lia) Hxs (own_writable N s1 r st (length xs) H1 Ho ltac:(lia))
    (own_upward N s1 r u st sta (Z.of_nat (length xs)) H1 Ho Hoa ltac:(lia))) as Hc.
  apply (wp_computes N s1 r st _ _ _ _ _ H1 Ho Hc); [lia|]. intros cy rs s2 Hs2 Hf Hrs Lrs [Hcy V]. rewrite <- Lrs.
  apply (wp_store N s2 r st rs cy _ _ Hs2 Hf); try done; [lia|]. intros s3 Hs3 Hf3. cbv zeta. unfold limb in Hv, Hcy.
  replace (z * v) with (if zsize z <? 0 then - (Z.abs z * v) else Z.abs z * v) by (pose proof (zsize_nonneg z); destruct (Z.ltb_spec (zsize z) 0); lia).
  apply finish_signed. apply (carry_pending N s3 r st rs cy _ Hf3); rewrite ?Lrs, ?Hlen, ?Hval in *; try done; try lia. nia.
Qed.

Lemma mpz_mul_si_spec N s r u z v :
  holds N s → is_Some (N !! r) → N !! u = Some (Some z) → - 2 ^ 63 ≤ v < 2 ^ 63 → zlimbs z + 1 ≤ alloc_limit →
  wp never (mpz_mul_si r u v) (λ _ s', holds (<[r := Some (z * v)]> N) s') s.
Proof.
  intros H Hr Hu Hv Hlim. unfold mpz_mul_si. destruct (Z.ltb_spec v 0); [|apply mpz_mul_ui_spec; try done; unfold limb, B; lia].
  rewrite neg_cast by lia. apply wp_bind. eapply wp_mono; [apply (mpz_mul_ui_spec N s r u z (- v)); try done; unfold limb, B; lia|]. intros [] s1 H1.
  eapply wp_mono; [apply (mpz_neg_spec _ s1 r r (z * - v) H1); rewrite lookup_insert_eq; eauto|]. intros [] s2. rewrite insert_insert_eq.
  by replace (- (z * - v)) with (z * v) by lia.
Qed.

(** ** By an integer *)

(** A result without the highest limb when that is 0. *)
Lemma top_pending N s t st rs hi v :
  filled N s t st rs → last rs = Some hi → value rs = v → ((2 ≤ length rs)%nat → B ^ (Z.of_nat (length rs) - 2) ≤ v) → (1 ≤ length rs)%nat →
  pending N s t (Z.of_nat (length rs) - b2l (hi =? 0)) v.
Proof.
  intros Hf Hlast Hv Hge Hl. pose proof Hf as (_ & _ & [Hrs _] & _). destruct (last_split rs (pred (length rs)) ltac:(lia)) as (lo & x & E & Llo). subst rs.
  rewrite last_snoc in Hlast. injection Hlast as ->. rewrite length_app in *. cbn [length] in *. apply Forall_app in Hrs as [Hlo Hx]. rewrite value_app in Hv. simpl in Hv.
  exists st, (lo ++ [hi]). rewrite length_app. cbn [length]. destruct (Z.eqb_spec hi 0) as [->|Hne]; cbn [b2l]; rewrite Z.abs_eq by lia.
  - replace (Z.to_nat (Z.of_nat (length lo + 1) - 1)) with (length lo) by lia. rewrite take_app_length. split; [done|]. split; [lia|].
    destruct lo as [|l lo]; [simpl in *; split; [done|lia]|]. rewrite Z.sgn_pos by (simpl; lia). split; [|lia].
    apply normalized_ge; [done|simpl; lia|]. replace (Z.of_nat (pred (length (l :: lo)))) with (Z.of_nat (length (l :: lo) + 1) - 2) by (simpl; lia).
    specialize (Hge ltac:(simpl; lia)). lia.
  - rewrite Z.sub_0_r, Nat2Z.id, take_ge, Z.sgn_pos by (rewrite ?length_app; simpl; lia). split; [done|]. split; [lia|]. split; [|rewrite value_app; simpl; lia].
    unfold normalized. rewrite last_snoc. intros [= ->]. done.
Qed.

Lemma product_size x y : x ≠ 0 → y ≠ 0 → B ^ (zlimbs x + zlimbs y - 2) ≤ Z.abs x * Z.abs y.
Proof.
  intros Hx Hy. pose proof (zlimbs_pos x Hx). pose proof (zlimbs_pos y Hy).
  replace (zlimbs x + zlimbs y - 2) with ((zlimbs x - 1) + (zlimbs y - 1)) by lia. rewrite Z.pow_add_r by lia.
  pose proof (Z.pow_pos_nonneg B (zlimbs x - 1) ltac:(done) ltac:(lia)). pose proof (Z.pow_pos_nonneg B (zlimbs y - 1) ltac:(done) ltac:(lia)).
  apply Z.mul_le_mono_nonneg; try lia; by apply abs_ge.
Qed.

(** The product of the limbs of two variables into a third. *)
Lemma mul_limbs N s t u v stt stu stv x y :
  holds N s → t ≠ u → t ≠ v → own N s t stt → own N s u stu → own N s v stv → N !! u = Some (Some x) → N !! v = Some (Some y) → x ≠ 0 → y ≠ 0 →
  mp_alloc stt = zlimbs x + zlimbs y →
  computes (if zlimbs y <=? zlimbs x then mpn_mul (mp_d stt) (mp_d stu) (zlimbs x) (mp_d stv) (zlimbs y)
            else mpn_mul (mp_d stt) (mp_d stv) (zlimbs y) (mp_d stu) (zlimbs x)) (zmem s) (mp_d stt) (Z.to_nat (zlimbs x + zlimbs y))
    (λ c rs, value rs = Z.abs x * Z.abs y ∧ last rs = Some c).
Proof.
  intros H Htu Htv Hot Hou Hov Hu Hv Hx Hy Hal. pose proof (zlimbs_pos x Hx). pose proof (zlimbs_pos y Hy).
  destruct (holds_read N s u x H Hu) as (stu' & xs & Hou' & Hxs & _ & Lx & _ & Vx & Hau). assert (stu' = stu) as -> by (destruct Hou as [_ ?], Hou' as [_ ?]; congruence).
  destruct (holds_read N s v y H Hv) as (stv' & ys & Hov' & Hys & _ & Ly & _ & Vy & Hav). assert (stv' = stv) as -> by (destruct Hov as [_ ?], Hov' as [_ ?]; congruence).
  pose proof (own_writable N s t stt (length xs + length ys) H Hot ltac:(lia)) as Hw.
  pose proof (own_apart N s t u stt stu (Z.of_nat (length xs + length ys)) (Z.of_nat (length xs)) H Htu Hot Hou ltac:(lia) ltac:(lia)) as Hdu.
  pose proof (own_apart N s t v stt stv (Z.of_nat (length xs + length ys)) (Z.of_nat (length ys)) H Htv Hot Hov ltac:(lia) ltac:(lia)) as Hdv.
  rewrite <- Lx, <- Ly, <- Vx, <- Vy. rewrite <- Nat2Z.inj_add, Nat2Z.id.
  destruct (Z.leb_spec (Z.of_nat (length ys)) (Z.of_nat (length xs))).
  - apply mpn_mul_spec; (done || lia).
  - rewrite (Z.mul_comm (value xs)), (Nat.add_comm (length xs)) in *. apply mpn_mul_spec; (done || lia).
Qed.

(** The end of a function that computed its result in a local variable. *)
Lemma swap_clear N s r t v :
  holds (<[t := Some v]> N) s → is_Some (N !! r) → N !! t = None →
  wp never (_ ← mpz_swap r t; mpz_clear t) (λ _ s', holds (<[r := Some v]> N) s') s.
Proof.
  intros H [o Hr] Ht. assert (r ≠ t) as Hne by congruence. apply wp_bind.
  eapply wp_mono; [apply (mpz_swap_spec _ s r t o (Some v) H); [by rewrite lookup_insert_ne|by rewrite lookup_insert_eq]|]. intros [] s1 (H1 & _).
  eapply wp_mono; [apply (mpz_clear_spec _ s1 t H1); rewrite lookup_insert_ne, lookup_insert_eq by done; eauto|]. intros [] s2 (H2 & _).
  rewrite delete_insert_ne, insert_insert_eq, delete_insert_id in H2 by done. done.
Qed.

End by_limb.

Section by_integer.
Context {F : gmap Z (option Z)} {FB : gmap Z Z} {D : positive → Prop}.
Local Abbreviation holds := (holds F FB D).

Lemma mpz_mul_spec N s r u v x y :
  holds N s → is_Some (N !! r) → N !! u = Some (Some x) → N !! v = Some (Some y) → zlimbs x + zlimbs y ≤ alloc_limit →
  wp never (mpz_mul r u v) (λ _ s', holds (<[r := Some (x * y)]> N) s') s.
Proof.
  intros H Hr Hu Hv Hlim. unfold mpz_mul. eapply wp_size; [exact (holds_sizes _ _ H)|done|]. eapply wp_size; [exact (holds_sizes _ _ H)|done|].
  destruct (decide (x = 0 ∨ y = 0)) as [Hz|Hz].
  { replace ((zsize x =? 0) || (zsize y =? 0)) with true; [|symmetry; apply orb_true_iff; rewrite !Z.eqb_eq, !zsize_0; tauto].
    replace (x * y) with 0 by lia. by apply set_size_zero. }
  apply Decidable.not_or in Hz as [Hx Hy]. replace ((zsize x =? 0) || (zsize y =? 0)) with false; [|symmetry; apply orb_false_iff; rewrite !Z.eqb_neq, !zsize_0; tauto].
  cbv zeta. rewrite !zsize_abs. pose proof (zlimbs_pos x Hx) as Hpx. pose proof (zlimbs_pos y Hy) as Hpy. apply (wp_local _ _ _ _ _ N s H). intros t s1 H1 Ht _. pose proof (h_decl _ _ _ _ _ H1 t (or_introl eq_refl)) as Hvt.
  assert (t ≠ u ∧ t ≠ v) as [Htu Htv] by (split; congruence).
  apply wp_bind. eapply wp_mono; [apply (mpz_init2_spec N s1 t (zlimbs x + zlimbs y) H1 Ht Hvt); lia|]. intros [] s2 (H2 & (stt & Hot & Hal) & _). set (N1 := <[t := Some 0]> N) in *.
  assert (N1 !! u = Some (Some x)) as Hu1 by (unfold N1; by rewrite lookup_insert_ne). assert (N1 !! v = Some (Some y)) as Hv1 by (unfold N1; by rewrite lookup_insert_ne).
  destruct (holds_read N1 s2 u x H2 Hu1) as (stu & _ & Hou & _). destruct (holds_read N1 s2 v y H2 Hv1) as (stv & _ & Hov & _).
  eapply wp_limbs; [done|]. eapply wp_limbs; [done|]. eapply wp_limbs; [done|].
  apply (wp_computes N1 s2 t stt _ _ _ _ _ H2 Hot (mul_limbs N1 s2 t u v stt stu stv x y H2 Htu Htv Hot Hou Hov Hu1 Hv1 Hx Hy Hal)); [lia|].
  intros c rs s3 Hs3 Hf Hrs Lrs [V Hlast]. assert (Z.of_nat (length rs) = zlimbs x + zlimbs y) as Lz by lia.
  eapply wp_limbsZ.
  { rewrite <- Lz. replace (mp_d stt + Z.of_nat (length rs) - 1) with (mp_d stt + Z.of_nat (pred (length rs))) by lia. apply (load_limbs _ _ rs); [apply Hf|].
    by rewrite <- last_lookup. }
  pose proof (top_pending N1 s3 t stt rs c _ Hf Hlast V ltac:(rewrite Lz; intros _; by apply product_size) ltac:(lia)) as Hp.
  rewrite <- Lz. apply wp_bind. eapply wp_mono; [exact (finish_signed N1 s3 t _ _ (Z.lxor (zsize x) (zsize y) <? 0) Hp)|].
  - intros [] s4 H4. unfold N1 in H4. rewrite insert_insert_eq in H4.
    eapply wp_mono; [apply (swap_clear N s4 r t _ H4 Hr Ht)|]. intros [] s5 H5. eexists. split; [exact H5|]. split.
    + rewrite lookup_insert_ne; [done|]. intros ->. by destruct Hr; congruence.
    + replace (x * y) with (if Z.lxor (zsize x) (zsize y) <? 0 then - (Z.abs x * Z.abs y) else Z.abs x * Z.abs y); [done|].
      pose proof (sign_sum x y). destruct (Z.ltb_spec (Z.lxor (zsize x) (zsize y)) 0), (Z.le_gt_cases 0 x), (Z.le_gt_cases 0 y); lia.
Qed.

(** ** Multiplication and addition *)

End by_integer.

Section muladd_section.
Context {F : gmap Z (option Z)} {FB : gmap Z Z} {D : positive → Prop}.
Local Abbreviation holds := (holds F FB D).

Lemma accumulate_spec N s r v w mul op :
  holds N s → is_Some (N !! r) →
  (∀ D' t s1, MpzRep.holds F FB D' (<[t := Some 0]> N) s1 → N !! t = None → wp never (mul t) (λ _ s', MpzRep.holds F FB D' (<[t := Some v]> N) s') s1) →
  (∀ D' t s1, MpzRep.holds F FB D' (<[t := Some v]> N) s1 → N !! t = None → wp never (op r r t) (λ _ s', MpzRep.holds F FB D' (<[r := Some w]> (<[t := Some v]> N)) s') s1) →
  wp never (accumulate mul op r) (λ _ s', holds (<[r := Some w]> N) s') s.
Proof.
  intros H Hr Hmul Hop. apply (wp_local _ _ _ _ _ N s H). intros t s1 H1 Ht _. pose proof (h_decl _ _ _ _ _ H1 t (or_introl eq_refl)) as Hvt. assert (r ≠ t) as Hne by (intros ->; destruct Hr; congruence).
  apply wp_bind. eapply wp_mono; [exact (mpz_init_spec N s1 t H1 Ht Hvt)|]. intros [] s2 H2.
  apply wp_bind. eapply wp_mono; [exact (Hmul _ t s2 H2 Ht)|]. intros [] s3 H3. apply wp_bind. eapply wp_mono; [exact (Hop _ t s3 H3 Ht)|]. intros [] s4 H4.
  eapply wp_mono; [apply (mpz_clear_spec _ s4 t H4); rewrite lookup_insert_ne, lookup_insert_eq by done; eauto|]. intros [] s5 (H5 & _).
  rewrite delete_insert_ne, delete_insert_id in H5 by done. eexists. split; [exact H5|]. split; [by rewrite lookup_insert_ne|done].
Qed.

Section muladd.
Context (N : vars) (s : zst) (r u : positive) (x y : Z).
Hypotheses (H : holds N s) (Hr : N !! r = Some (Some x)) (Hu : N !! u = Some (Some y)).

Lemma accumulate_add v w mul op :
  (∀ D' t s1, MpzRep.holds F FB D' (<[t := Some 0]> N) s1 → N !! t = None → wp never (mul t) (λ _ s', MpzRep.holds F FB D' (<[t := Some v]> N) s') s1) →
  Z.max (zlimbs x) (zlimbs v) + 1 ≤ alloc_limit → (op = mpz_add ∧ w = x + v ∨ op = mpz_sub ∧ w = x - v) →
  wp never (accumulate mul op r) (λ _ s', holds (<[r := Some w]> N) s') s.
Proof.
  intros Hmul Hlim Hop. apply (accumulate_spec N s r v w mul op H); [eauto|done|]. intros D' t s1 H1 Ht. assert (r ≠ t) as Hne by congruence.
  assert (<[t := Some v]> N !! r = Some (Some x)) as Hr1 by (by rewrite lookup_insert_ne).
  destruct Hop as [[-> ->]|[-> ->]]; [apply (mpz_add_spec _ s1 r H1)|apply (mpz_sub_spec _ s1 r H1)]; eauto; by rewrite lookup_insert_eq.
Qed.

Lemma mpz_addmul_ui_spec v :
  limb v → zlimbs y + 1 ≤ alloc_limit → Z.max (zlimbs x) (zlimbs (y * v)) + 1 ≤ alloc_limit →
  wp never (mpz_addmul_ui r u v) (λ _ s', holds (<[r := Some (x + y * v)]> N) s') s ∧
  wp never (mpz_submul_ui r u v) (λ _ s', holds (<[r := Some (x - y * v)]> N) s') s.
Proof.
  intros Hv Hly Hlim.
  assert (∀ D' t s1, MpzRep.holds F FB D' (<[t := Some 0]> N) s1 → N !! t = None → wp never (mpz_mul_ui t u v) (λ _ s', MpzRep.holds F FB D' (<[t := Some (y * v)]> N) s') s1) as Hmul.
  { intros D' t s1 H1 Ht. assert (u ≠ t) by congruence. eapply wp_mono; [apply (mpz_mul_ui_spec _ s1 t u y v H1); try done; [rewrite lookup_insert_eq; eauto|by rewrite lookup_insert_ne]|].
    intros [] s2. by rewrite insert_insert_eq. }
  split; eapply accumulate_add; eauto.
Qed.

Lemma mpz_addmul_spec b z :
  N !! b = Some (Some z) → zlimbs y + zlimbs z ≤ alloc_limit → Z.max (zlimbs x) (zlimbs (y * z)) + 1 ≤ alloc_limit →
  wp never (mpz_addmul r u b) (λ _ s', holds (<[r := Some (x + y * z)]> N) s') s ∧
  wp never (mpz_submul r u b) (λ _ s', holds (<[r := Some (x - y * z)]> N) s') s.
Proof.
  intros Hb Hly Hlim.
  assert (∀ D' t s1, MpzRep.holds F FB D' (<[t := Some 0]> N) s1 → N !! t = None → wp never (mpz_mul t u b) (λ _ s', MpzRep.holds F FB D' (<[t := Some (y * z)]> N) s') s1) as Hmul.
  { intros D' t s1 H1 Ht. assert (u ≠ t ∧ b ≠ t) as [] by (split; congruence).
    eapply wp_mono; [apply (mpz_mul_spec _ s1 t u b y z H1); try done; [rewrite lookup_insert_eq; eauto|by rewrite lookup_insert_ne|by rewrite lookup_insert_ne]|].
    intros [] s2. by rewrite insert_insert_eq. }
  split; eapply accumulate_add; eauto.
Qed.
End muladd.

End muladd_section.

Section mul.
Context {F : gmap Z (option Z)} {FB : gmap Z Z} {D : positive → Prop}.
Local Abbreviation holds := (holds F FB D).
Local Abbreviation filled := (filled (F:=F) (FB:=FB) (D:=D)).
Local Abbreviation pending := (pending (F:=F) (FB:=FB) (D:=D)).

(** ** By a power of two *)

Lemma write_below m p zs ys : write (write m (p + Z.of_nat (length zs)) ys) p zs = write m p (zs ++ ys).
Proof. rewrite <- write_write. apply write_comm. unfold disjoint. lia. Qed.

Lemma own_downward N s r u str stu k n :
  holds N s → own N s r str → own N s u stu → 0 ≤ k → k + n ≤ mp_alloc str → downward (mp_d str + k) (mp_d stu) n.
Proof.
  intros H Hr Hu Hk Hn. unfold downward. destruct (decide (r = u)) as [->|Hne].
  - destruct Hr as [_ Er], Hu as [_ Eu]. simplify_eq. lia.
  - pose proof (h_sep _ _ _ _ _ H _ _ _ _ Hne Hr Hu) as Hd. destruct (own_block _ _ _ _ H Hu) as (? & _ & _). unfold apart, disjoint in Hd. lia.
Qed.

Lemma value_zeros n xs : value (replicate n 0 ++ xs) = B ^ Z.of_nat n * value xs.
Proof. rewrite value_app, length_replicate. assert (value (replicate n 0) = 0) as ->; [|lia]. induction n as [|n IH]; [done|]. simpl. lia. Qed.

(** The limbs shifted into place, above [k] zero limbs. *)
Lemma shift_pending N s r st k rs cy v :
  filled N s r st (replicate k 0 ++ rs ++ [cy]) → (0 < length rs)%nat → 0 ≤ cy → B ^ Z.of_nat k * (value rs + B ^ Z.of_nat (length rs) * cy) = v →
  B ^ (Z.of_nat (length rs) - 1) ≤ value rs + B ^ Z.of_nat (length rs) * cy →
  pending N s r (Z.of_nat (k + length rs) + 1 - b2l (cy =? 0)) v.
Proof.
  intros Hf Hl Hcy Hv Hge. rewrite (assoc_L (++)) in Hf. pose proof (Z.pow_pos_nonneg B (Z.of_nat k) ltac:(done) ltac:(lia)).
  pose proof (carry_pending N s r st (replicate k 0 ++ rs) cy v Hf Hcy) as Hp. rewrite length_app, length_replicate, value_zeros in Hp.
  replace (Z.of_nat (k + length rs) + 1 - b2l (cy =? 0)) with (Z.of_nat (k + length rs) + b2l (0 <? cy)) by (destruct (Z.eqb_spec cy 0), (Z.ltb_spec 0 cy); simpl; lia).
  apply Hp; [|lia|].
  - rewrite <- Hv, Nat2Z.inj_add, Z.pow_add_r by lia. lia.
  - rewrite <- Hv. replace (Z.of_nat (k + length rs) - 1) with (Z.of_nat k + (Z.of_nat (length rs) - 1)) by lia. rewrite Z.pow_add_r by lia.
    apply Z.mul_le_mono_nonneg_l; lia.
Qed.

Lemma wp_then {A C} (k : M zst A) (f : A → M zst C) Q s a s' : k s = Done a s' → wp never (f a) Q s' → wp never (k ≫= f) Q s.
Proof. intros E Hf. apply wp_bind. by eapply wp_run. Qed.

Lemma limbsZ_run {A} (k : M mem A) s a m' : k (zmem s) = Done a m' → limbsZ k s = Done a (set_mem s m').
Proof. intros E. unfold limbsZ, zoom. by rewrite E. Qed.

Section shift.
Context (N : vars) (s : zst) (r u : positive) (st stu : mpz_struct) (k : nat) (xs : list Z).
Hypotheses (H : holds N s) (Ho : own N s r st) (Hou : own N s u stu) (Hxs : limbs_at (zmem s) (mp_d stu) xs) (Hl : (0 < length xs)%nat).

(** The limbs moved up [k] places and shifted by [sh] bits. *)
Lemma shift_up sh :
  0 < sh < 64 → Z.of_nat (k + length xs) + 1 ≤ mp_alloc st →
  ∃ rs cy, (cy ← limbsZ (mpn_lshift (mp_d st + Z.of_nat k) (mp_d stu) (Z.of_nat (length xs)) sh);
            _ ← limbsZ (store (mp_d st + (Z.of_nat (length xs) + Z.of_nat k + 1) - 1) cy);
            mret (Z.of_nat (length xs) + Z.of_nat k + 1 - b2l (cy =? 0))) s =
           Done (Z.of_nat (k + length rs) + 1 - b2l (cy =? 0)) (set_mem s (write (zmem s) (mp_d st + Z.of_nat k) (rs ++ [cy]))) ∧
    length rs = length xs ∧ Forall limb rs ∧ limb cy ∧ value rs + B ^ Z.of_nat (length rs) * cy = value xs * 2 ^ sh.
Proof.
  intros Hsh Hal.
  destruct (mpn_lshift_spec (zmem s) (mp_d st + Z.of_nat k) (mp_d stu) xs sh Hl Hsh Hxs) as (cy & rs & E & Hrs & Lrs & Hcy & V).
  { intros i Hi. replace (mp_d st + Z.of_nat k + Z.of_nat i) with (mp_d st + Z.of_nat (k + i)) by lia. apply (own_writable N s r st (k + length xs) H Ho); lia. }
  { apply (own_downward N s r u st stu); (done || lia). }
  exists rs, cy. split; [|split_and!; try done; [pose proof (pow2_limb sh ltac:(lia)); unfold limb, B, GMP_LIMB_HIGHBIT in *; lia|by rewrite Lrs]].
  rewrite (bind_done _ _ _ _ _ (limbsZ_run _ _ _ _ E)).
  replace (mp_d st + (Z.of_nat (length xs) + Z.of_nat k + 1) - 1) with (mp_d st + Z.of_nat k + Z.of_nat (length rs)) by lia.
  rewrite (bind_done _ _ _ tt (set_mem s (write (zmem s) (mp_d st + Z.of_nat k) (rs ++ [cy])))).
  - unfold mret, M_ret. f_equal. lia.
  - assert (is_Some (cells (write (zmem s) (mp_d st + Z.of_nat k) rs) !! (mp_d st + Z.of_nat k + Z.of_nat (length rs)))) as Hc.
    { replace (mp_d st + Z.of_nat k + Z.of_nat (length rs)) with (mp_d st + Z.of_nat (k + length rs)) by lia.
      apply (writable_write _ _ _ _ (S (k + length rs)) (own_writable N s r st (S (k + length rs)) H Ho ltac:(lia))). lia. }
    rewrite (limbsZ_run _ (set_mem s _) _ _ (store_ok _ _ cy Hc)). unfold set_mem. simpl. by rewrite write_write.
Qed.

(** The zero limbs below. *)
Lemma zeros_below ys {A} (f : unit → M zst A) Q :
  Forall limb ys → Z.of_nat (k + length ys) ≤ mp_alloc st →
  (∀ s', sizes N s' → filled N s' r st (replicate k 0 ++ ys) → wp never (f tt) Q s') →
  wp never (limbsZ (mpn_zero (mp_d st) (Z.of_nat k)) ≫= f) Q (set_mem s (write (zmem s) (mp_d st + Z.of_nat k) ys)).
Proof.
  clear dependent xs. intros Hys Hal Hf. eapply wp_then.
  - apply limbsZ_run. simpl. apply mpn_zero_spec, writable_write, (own_writable N s r st k H Ho). lia.
  - replace (write (write (zmem s) (mp_d st + Z.of_nat k) ys) (mp_d st) (replicate k 0)) with (write (zmem s) (mp_d st) (replicate k 0 ++ ys)).
    + apply Hf; [apply sizes_set_mem, sizes_set_mem; exact (holds_sizes _ _ H)|]. apply (filled_mem N s r st _ H Ho).
      * apply Forall_app. split; [|done]. apply Forall_replicate. by unfold limb.
      * rewrite length_app, length_replicate. lia.
    + rewrite <- write_below. by rewrite length_replicate.
Qed.
End shift.

Lemma mpz_mul_2exp_spec N s r u z bits :
  holds N s → is_Some (N !! r) → N !! u = Some (Some z) → 0 ≤ bits → zlimbs z + bits / 64 + 1 ≤ alloc_limit →
  wp never (mpz_mul_2exp r u bits) (λ _ s', holds (<[r := Some (z * 2 ^ bits)]> N) s') s.
Proof.
  intros H Hr Hu Hbits Hlim. unfold mpz_mul_2exp. eapply wp_size; [exact (holds_sizes _ _ H)|done|]. cbv zeta. rewrite zsize_abs.
  destruct (Z.eqb_spec (zlimbs z) 0) as [E0|E0].
  { destruct (Z.eq_dec z 0) as [->|Hz]; [|pose proof (zlimbs_pos z Hz); lia]. rewrite Z.mul_0_l. by apply set_size_zero. }
  assert (z ≠ 0) as Hz by (intros ->; done). pose proof (zlimbs_pos z Hz) as Hpz. pose proof (abs_ge z Hz) as Hge. change GMP_LIMB_BITS with 64.
  pose proof (Z.div_pos bits 64 Hbits ltac:(lia)) as Hk0. pose proof (Z.mod_pos_bound bits 64 ltac:(lia)) as Hsh.
  set (k := Z.to_nat (bits / 64)). assert (bits / 64 = Z.of_nat k) as Ek by (unfold k; lia).
  assert (2 ^ bits = B ^ Z.of_nat k * 2 ^ (bits mod 64)) as E2.
  { rewrite B_pow, <- Ek, <- Z.pow_add_r by lia. f_equal. apply Z.div_mod. lia. }
  rewrite Ek in *. apply (wp_realloc N s r _ _ _ H Hr); [destruct (0 <? bits mod 64); simpl; lia|]. intros s1 st H1 Ho Hal.
  destruct (holds_read N s1 u z H1 Hu) as (stu & xs & Hou & Hxs & Hn & Hlen & Hsz & Hval & Halu). rewrite <- Hlen, <- Hval in *. eapply wp_limbs; [done|].
  assert (∀ s' rn, sizes N s' → pending N s' r rn (value xs * 2 ^ bits) →
    wp never (us ← size_of u; set_size r (if us <? 0 then - rn else rn)) (λ _ s', holds (<[r := Some (z * 2 ^ bits)]> N) s') s') as Hend.
  { intros s' rn Hs' Hp. eapply wp_size; [exact Hs'|done|]. pose proof (zsize_nonneg z).
    replace (z * 2 ^ bits) with (if zsize z <? 0 then - (value xs * 2 ^ bits) else value xs * 2 ^ bits) by (rewrite Hval; destruct (Z.ltb_spec (zsize z) 0); lia).
    by apply finish_signed. }
  pose proof (Z.pow_pos_nonneg 2 (bits mod 64) ltac:(lia) ltac:(lia)) as H2p. pose proof (Z.pow_pos_nonneg B (Z.of_nat k) ltac:(done) ltac:(lia)) as HBk.
  destruct (Z.ltb_spec 0 (bits mod 64)) as [Hs|Hs]; cbn [b2l] in *.
  - destruct (shift_up N s1 r u st stu k xs H1 Ho Hou Hxs ltac:(lia) (bits mod 64)) as (rs & cy & E & Lrs & Hrs & Hcy & V); [lia|lia|].
    eapply wp_then; [exact E|]. apply (zeros_below N s1 r st k H1 Ho); [apply Forall_app; split; [done|by constructor]|rewrite length_app; simpl; lia|].
    intros s' Hs' Hf. apply Hend; [done|]. apply (shift_pending N s' r st k rs cy _ Hf); [lia|apply Hcy|rewrite V, E2; lia|rewrite V, Lrs; nia].
  - eapply wp_then.
    { erewrite bind_done; [reflexivity|]. apply limbsZ_run, mpn_copyd_spec; [done| |apply (own_downward N s1 r u st stu); (done || lia)].
      intros i Hi. replace (mp_d st + Z.of_nat k + Z.of_nat i) with (mp_d st + Z.of_nat (k + i)) by lia. apply (own_writable N s1 r st (k + length xs) H1 Ho); lia. }
    apply (zeros_below N s1 r st k H1 Ho); [apply Hxs|lia|]. intros s' Hs' Hf. apply Hend; [done|].
    exists st, (replicate k 0 ++ xs). rewrite length_app, length_replicate, Z.abs_eq, Z.add_0_r by lia. rewrite take_ge by (rewrite length_app, length_replicate; lia).
    rewrite Z.sgn_pos, value_zeros, E2 by lia. replace (bits mod 64) with 0 by lia. split_and!; [done|lia| |lia].
    unfold normalized in *. rewrite last_app. destruct (last xs) eqn:El; [done|]. apply last_None in El. by subst xs.
Qed.
End mul.
