(* ===== verification/MpzDivision.v ===== *)
(** * Division of integers

    mpz_div_qr with its three rounding modes, on top of mpn_div_qr. *)

From S2P Require Import Prelude Limbs Mpn Invert MpnDiv MpnDivN MpnStr MpnSetStr MpnGetStr Mpz MpzRep MpzArith MpzMul.

(** ** Rounding *)

(** The quotient and the remainder of each mode. *)
Definition div_round (mode : mpz_div_round_mode) (x y : Z) : Z * Z :=
  match mode with
  | GMP_DIV_FLOOR => (x / y, x mod y)
  | GMP_DIV_CEIL => (- (- x / y), - (- x mod y))
  | GMP_DIV_TRUNC => (Z.quot x y, Z.rem x y)
  end.

(** The corrections of the truncated division. *)
Definition round_down (mode : mpz_div_round_mode) (x y : Z) : bool :=
  is_floor mode && (Z.lxor (zsize y) (zsize x) <? 0) && negb (Z.rem x y =? 0).
Definition round_up (mode : mpz_div_round_mode) (x y : Z) : bool :=
  is_ceil mode && (0 <=? Z.lxor (zsize y) (zsize x)) && negb (Z.rem x y =? 0).

Lemma rem_bounds x y : y ≠ 0 → Z.abs (Z.rem x y) < Z.abs y ∧ (0 ≤ x → 0 ≤ Z.rem x y) ∧ (x ≤ 0 → Z.rem x y ≤ 0).
Proof.
  intros Hy. pose proof (Z.rem_bound_abs x y Hy). split; [done|]. split; intros Hx; [by apply Z.rem_nonneg|by apply Z.rem_nonpos].
Qed.

Lemma div_round_correct mode x y :
  y ≠ 0 →
  div_round mode x y =
  if round_down mode x y then (Z.quot x y - 1, Z.rem x y + y)
  else if round_up mode x y then (Z.quot x y + 1, Z.rem x y - y)
  else (Z.quot x y, Z.rem x y).
Proof.
  intros Hy. destruct (rem_bounds x y Hy) as (Hr & Hp & Hm). pose proof (Z.quot_rem x y Hy) as E. pose proof (sign_sum y x) as Hs. unfold round_down, round_up.
  set (q := Z.quot x y) in *. set (r := Z.rem x y) in *. destruct mode; cbn [is_floor is_ceil andb div_round].
  - destruct (Z.ltb_spec (Z.lxor (zsize y) (zsize x)) 0) as [Hq|Hq], (Z.eqb_spec r 0) as [H0|H0]; cbn [andb negb];
      [| |..]; f_equal; symmetry; first [apply (Z.div_unique x y _ r); lia|apply (Z.mod_unique x y q); lia|
        apply (Z.div_unique x y _ (r + y)); lia|apply (Z.mod_unique x y (q - 1)); lia].
  - destruct (Z.leb_spec 0 (Z.lxor (zsize y) (zsize x))) as [Hq|Hq], (Z.eqb_spec r 0) as [H0|H0]; cbn [andb negb]; f_equal; apply Z.opp_inj; rewrite Z.opp_involutive; symmetry;
      first [apply (Z.div_unique (- x) y _ (- r)); lia|apply (Z.mod_unique (- x) y (- q)); lia|
        apply (Z.div_unique (- x) y _ (- (r - y))); lia|apply (Z.mod_unique (- x) y (- (q + 1))); lia].
  - done.
Qed.

(** ** Variables that may be absent *)

Definition opt_set (q : option positive) (v : Z) (N : vars) : vars := match q with Some p => <[p := Some v]> N | None => N end.
Definition opt_in (q : option positive) (N : vars) : Prop := match q with Some p => is_Some (N !! p) | None => True end.

Section opt.
Context {F : gmap Z (option Z)} {FB : gmap Z Z} {D : positive → Prop}.
Local Abbreviation holds := (holds F FB D).

Lemma wp_if_ptr N s q f v :
  holds N s → (∀ p, q = Some p → wp never (f p) (λ _ s', holds (<[p := Some v]> N) s') s) →
  wp never (if_ptr q f) (λ _ s', holds (opt_set q v N) s') s.
Proof. intros H Hf. destruct q as [p|]; simpl; [by apply Hf|by eapply wp_run]. Qed.

Lemma opt_in_set q q' v N : opt_in q N → opt_in q (opt_set q' v N).
Proof. destruct q as [p|], q' as [p'|]; simpl; try done. intros Hp. destruct (decide (p = p')) as [->|]; [rewrite lookup_insert_eq; eauto|by rewrite lookup_insert_ne]. Qed.

(** The dividend is 0 or has fewer limbs than the divisor. *)
Section small.
Context (N : vars) (s : zst) (q r : option positive) (n d : positive) (x y : Z).
Hypotheses (H : holds N s) (Hq : opt_in q N) (Hr : opt_in r N) (Hn : N !! n = Some (Some x)) (Hd : N !! d = Some (Some y)).

Lemma div_zero_spec :
  x = 0 → ∀ mode, wp never (_ ← if_ptr q (λ q, set_size q 0); _ ← if_ptr r (λ r, set_size r 0); mret false)
    (λ b s', b = false ∧ holds (opt_set r (div_round mode x y).2 (opt_set q (div_round mode x y).1 N)) s') s.
Proof.
  intros -> mode. replace (div_round mode 0 y) with (0, 0) by (by destruct mode, y). simpl.
  apply wp_bind. eapply wp_mono; [apply (wp_if_ptr N s q _ 0 H); intros p ->; by apply set_size_zero|]. intros [] s1 H1.
  apply wp_bind. eapply wp_mono; [apply (wp_if_ptr _ s1 r _ 0 H1); intros p ->; apply (set_size_zero _ _ _ H1); by apply (opt_in_set (Some p))|]. intros [] s2 H2.
  by eapply wp_run.
Qed.

Lemma div_small_spec mode :
  x ≠ 0 → Z.abs x < Z.abs y → Z.max (zlimbs x) (zlimbs y) + 1 ≤ alloc_limit →
  wp never (div_qr_small q r n d mode (Z.lxor (zsize y) (zsize x)))
    (λ _ s', holds (opt_set q (div_round mode x y).1 (opt_set r (div_round mode x y).2 N)) s') s.
Proof.
  intros Hx Hxy Hlim. rewrite div_round_correct by lia. unfold round_down, round_up. rewrite (proj2 (Z.quot_small_iff x y ltac:(lia))), (proj2 (Z.rem_small_iff x y ltac:(lia))) by done. rewrite (proj2 (Z.eqb_neq x 0)) by done.
  unfold div_qr_small. cbn [negb]. rewrite !andb_true_r.
  destruct (is_ceil mode && (0 <=? Z.lxor (zsize y) (zsize x))) eqn:Ec.
  - assert (is_floor mode = false) as -> by (by destruct mode). cbn [andb fst snd].
    apply wp_bind. eapply wp_mono; [apply (wp_if_ptr N s r _ (x - y) H); intros p ->; by apply (mpz_sub_spec N s p H Hr n d)|]. intros [] s1 H1.
    apply (wp_if_ptr _ s1 q _ 1 H1). intros p ->. apply (mpz_set_ui_spec _ _ _ _ H1); [by apply (opt_in_set (Some p))|done].
  - cbn [fst snd]. destruct (is_floor mode && (Z.lxor (zsize y) (zsize x) <? 0)) eqn:Ef; cbn [fst snd].
    + apply wp_bind. eapply wp_mono; [apply (wp_if_ptr N s r _ (x + y) H); intros p ->; by apply (mpz_add_spec N s p H Hr n d)|]. intros [] s1 H1.
      apply (wp_if_ptr _ s1 q _ (-1) H1). intros p ->. apply (mpz_set_si_spec _ _ _ _ H1); [by apply (opt_in_set (Some p))|lia].
    + apply wp_bind. eapply wp_mono; [apply (wp_if_ptr N s r _ x H); intros p ->; by apply (mpz_set_spec N s p n)|]. intros [] s1 H1.
      apply (wp_if_ptr _ s1 q _ 0 H1). intros p ->. apply (set_size_zero _ _ _ H1). by apply (opt_in_set (Some p)).
Qed.
End small.
End opt.

(** ** The division of the limbs *)

Lemma quot_signs x y : y ≠ 0 → Z.quot x y = if Z.lxor (zsize y) (zsize x) <? 0 then - (Z.abs x / Z.abs y) else Z.abs x / Z.abs y.
Proof.
  intros Hy. rewrite Z.quot_div by done. pose proof (sign_sum y x) as Hs. destruct (Z.eq_dec x 0) as [->|Hx]; [rewrite Zdiv_0_l; by destruct (_ <? 0)|].
  destruct (Z.ltb_spec (Z.lxor (zsize y) (zsize x)) 0), (Z.sgn_spec x) as [[? ->]|[[? ->]|[? ->]]], (Z.sgn_spec y) as [[? ->]|[[? ->]|[? ->]]]; lia.
Qed.

Lemma rem_signs x y : y ≠ 0 → Z.rem x y = if zsize x <? 0 then - (Z.abs x mod Z.abs y) else Z.abs x mod Z.abs y.
Proof.
  intros Hy. rewrite Z.rem_mod by done. pose proof (zsize_nonneg x). destruct (Z.eq_dec x 0) as [->|Hx]; [by rewrite Zmod_0_l|].
  destruct (Z.ltb_spec (zsize x) 0), (Z.sgn_spec x) as [[? ->]|[[? ->]|[? ->]]]; lia.
Qed.

(** The quotient has one limb for each limb the dividend has more, or one more. *)
Lemma quotient_size x y : x ≠ 0 → y ≠ 0 → zlimbs y < zlimbs x → B ^ (zlimbs x - zlimbs y - 1) ≤ Z.abs x / Z.abs y.
Proof.
  intros Hx Hy Hlt. pose proof (abs_ge x Hx). pose proof (zlimbs_pos y Hy). apply Z.div_le_lower_bound; [lia|].
  assert (Z.abs y < B ^ zlimbs y) as Hyu.
  { unfold zlimbs. rewrite (proj2 (Z.eqb_neq y 0)) by done. rewrite B_pow by (pose proof (Z.div_pos (Z.log2 (Z.abs y)) 64 ltac:(apply Z.log2_nonneg) ltac:(lia)); lia).
    eapply Z.lt_le_trans; [apply Z.log2_spec; lia|]. apply Z.pow_le_mono_r; [lia|]. pose proof (Z.mul_succ_div_gt (Z.log2 (Z.abs y)) 64 ltac:(lia)). lia. }
  pose proof (Z.pow_pos_nonneg B (zlimbs x - zlimbs y - 1) ltac:(done) ltac:(lia)).
  assert (Z.abs y * B ^ (zlimbs x - zlimbs y - 1) ≤ B ^ zlimbs y * B ^ (zlimbs x - zlimbs y - 1)) by (apply Z.mul_le_mono_nonneg_r; lia).
  rewrite <- Z.pow_add_r in * by lia. replace (zlimbs y + (zlimbs x - zlimbs y - 1)) with (zlimbs x - 1) in * by lia. lia.
Qed.

Lemma touches_temp st m m1 m2 : touches st m m1 → after_temp m1 m2 → touches st m m2.
Proof.
  intros (Hb & Hwf & Hn & Hc & Hi) Ht. pose proof (after_temp_wf _ _ Ht Hwf). destruct Ht as (k & Hk & ->). split_and!; try done. simpl. lia.
Qed.

Section limbs.
Context {F : gmap Z (option Z)} {FB : gmap Z Z} {D : positive → Prop}.
Local Abbreviation holds := (holds F FB D).
Local Abbreviation filled := (filled (F:=F) (FB:=FB) (D:=D)).
Local Abbreviation pending := (pending (F:=F) (FB:=FB) (D:=D)).
Context (N : vars) (tq tr n d : positive) (x y : Z).
Hypotheses (Hn : N !! n = Some (Some x)) (Hd : N !! d = Some (Some y)) (Hx : x ≠ 0) (Hy : y ≠ 0) (Hle : zlimbs y ≤ zlimbs x).
Hypotheses (Hqr : tq ≠ tr) (Htq : N !! tq = None) (Htr : N !! tr = None).

(** The remainder, from the limbs that the division left in [tr]. *)
Lemma remainder_spec N' s str rs :
  filled N' s tr str rs → Z.of_nat (length rs) = zlimbs y → value rs = Z.abs x mod Z.abs y →
  wp never (rn ← limbsZ (mpn_normalized_size (mp_d str) (zlimbs y)); _ ← set_size tr (if zsize x <? 0 then - rn else rn); mret rn)
    (λ rn s', (rn = 0 ↔ Z.rem x y = 0) ∧ holds (<[tr := Some (Z.rem x y)]> N') s') s.
Proof.
  intros Hf Lrs V. rewrite <- Lrs. apply wp_bind. eapply wp_mono; [exact (wp_normalized N' s tr str rs Hf)|]. intros rn s1 [-> Hp]. rewrite V in Hp.
  apply wp_bind. eapply wp_mono; [exact (finish_signed N' s tr rn _ (zsize x <? 0) Hp)|]. intros [] s2 H2. eapply wp_run; [done|].
  rewrite (rem_signs x y Hy). split; [|done]. destruct Hp as (st & rs' & Hf' & Hl & Hnm & E). split.
  - intros ->. simpl in E. rewrite E. by destruct (zsize x <? 0).
  - intros E0. destruct (Z.eq_dec rn 0) as [|Hne]; [done|]. exfalso. assert (Z.abs x mod Z.abs y = 0) as Em by (destruct (zsize x <? 0); lia).
    destruct Hf' as (_ & _ & [Hl' _] & _). apply normalized_ge in Hnm; [|by apply Forall_take|rewrite length_take; lia].
    set (t := take (Z.to_nat (Z.abs rn)) rs') in *. pose proof (Z.pow_pos_nonneg B (Z.of_nat (pred (length t))) ltac:(done) ltac:(lia)). rewrite Em in E.
    destruct (Z.sgn_spec rn) as [[? Es]|[[? Es]|[? Es]]]; rewrite Es in E; lia.
Qed.

(** The division of the limbs of [tr] by those of [d], with the quotient in
    [tq] if there is one. *)
Lemma divide_limbs N' s str std (qst : option mpz_struct) :
  holds N' s → N' !! tr = Some (Some x) → N' !! d = Some (Some y) → own N' s tr str → own N' s d std → tr ≠ d →
  match qst with Some stq => own N' s tq stq ∧ tq ≠ d ∧ mp_alloc stq = zlimbs x - zlimbs y + 1 | None => True end →
  ∃ m' qs rs, mpn_div_qr (mp_d <$> qst) (mp_d str) (zlimbs x) (mp_d std) (zlimbs y) (zmem s) = Done tt m' ∧
    after_temp (write_opt (write (zmem s) (mp_d str) rs) (mp_d <$> qst) qs) m' ∧ Forall limb qs ∧ Z.of_nat (length qs) = zlimbs x - zlimbs y + 1 ∧
    Forall limb rs ∧ Z.of_nat (length rs) = zlimbs x ∧ Z.of_nat (length rs) ≤ mp_alloc str ∧
    value qs = Z.abs x / Z.abs y ∧ value (take (Z.to_nat (zlimbs y)) rs) = Z.abs x mod Z.abs y.
Proof.
  intros H Hr' Hd' Hor Hod Hne Hq. pose proof (holds_limit _ _ _ _ H Hr') as Hlim. pose proof (zlimbs_pos y Hy) as Hpy.
  destruct (holds_read N' s tr x H Hr') as (str' & xs & Hor' & Hxs & _ & Lx & _ & Vx & Har). assert (str' = str) as -> by (destruct Hor as [_ ?], Hor' as [_ ?]; congruence).
  destruct (holds_read N' s d y H Hd') as (std' & ds & Hod' & Hds & Nd & Ld & _ & Vd & Had). assert (std' = std) as -> by (destruct Hod as [_ ?], Hod' as [_ ?]; congruence).
  destruct (mpn_div_qr_spec (zmem s) (mp_d <$> qst) (mp_d str) (mp_d std) xs ds) as (m' & E & qs & rs & Ht & Hqs & Lqs & Hrs & Lrs & Vq & Vr).
  { split; [apply (h_wf _ _ _ _ _ H)|]. split; [done|]. split; [done|]. split; [lia|]. split; [lia|]. split.
    { destruct (last ds) as [e|] eqn:El; [|apply last_None in El; subst ds; simpl in Ld; lia]. exists e. split; [done|].
      assert (e ≠ 0) by (intros ->; by apply Nd). pose proof (proj1 (Forall_forall _ _) (proj1 Hds) e ltac:(by apply last_Some_elem_of)) as [? _]. lia. }
    split; [|split; [apply (own_apart N' s tr d str std _ _ H); (done || lia)|]].
    - destruct qst as [stq|]; simpl; [|done]. destruct Hq as (Hoq & _ & Haq). apply (own_writable N' s tq stq _ H Hoq). lia.
    - destruct qst as [stq|]; simpl; [|done]. destruct Hq as (Hoq & Hqd & Haq).
      split; [apply (own_apart N' s tq tr stq str _ _ H)|apply (own_apart N' s tq d stq std _ _ H)]; (done || lia). }
  exists m', qs, rs. rewrite <- Lx, <- Ld, <- Vx, <- Vd, Nat2Z.id. split_and!; (done || lia).
Qed.

(** The quotient, from the limbs that the division left in [tq]. *)
Lemma quotient_spec {A} N' s stq qs (f : unit → M zst A) Q :
  filled N' s tq stq qs → Z.of_nat (length qs) = zlimbs x - zlimbs y + 1 → value qs = Z.abs x / Z.abs y →
  (∀ s', holds (<[tq := Some (Z.quot x y)]> N') s' → zmem s' = zmem s → (∀ v, v ≠ tq → zvars s' !! v = zvars s !! v) → wp never (f tt) Q s') →
  wp never ((v ← limbsZ (load (mp_d stq + (zlimbs x - zlimbs y + 1) - 1));
             set_size tq (if Z.lxor (zsize y) (zsize x) <? 0 then - (zlimbs x - zlimbs y + 1 - b2l (v =? 0)) else zlimbs x - zlimbs y + 1 - b2l (v =? 0))) ≫= f) Q s.
Proof.
  intros Hf Lqs V Hk. destruct (last qs) as [hi|] eqn:El; [|apply last_None in El; subst qs; simpl in Lqs; lia]. rewrite <- Lqs.
  apply wp_bind. eapply wp_limbsZ.
  { replace (mp_d stq + Z.of_nat (length qs) - 1) with (mp_d stq + Z.of_nat (pred (length qs))) by lia. apply (load_limbs _ _ qs); [apply Hf|]. by rewrite <- last_lookup. }
  pose proof (top_pending N' s tq stq qs hi _ Hf El V) as Hp. rewrite (quot_signs x y Hy) in Hk.
  assert (pending N' s tq (Z.of_nat (length qs) - b2l (hi =? 0)) (Z.abs x / Z.abs y)) as Hp'.
  { apply Hp; [|lia]. intros H2. replace (Z.of_nat (length qs) - 2) with (zlimbs x - zlimbs y - 1) by lia. apply quotient_size; (done || lia). }
  set (neg := Z.lxor (zsize y) (zsize x) <? 0) in *. set (qn := Z.of_nat (length qs) - b2l (hi =? 0)) in *.
  assert (pending N' s tq (if neg then - qn else qn) (if neg then - (Z.abs x / Z.abs y) else Z.abs x / Z.abs y)) as Hps by (destruct neg; [by apply pending_opp|done]).
  eapply wp_mono; [exact (pending_finish_at N' s tq _ _ Hps)|]. intros [] s1 (H1 & Em & Ev). by apply Hk.
Qed.

Lemma div_qr_limbs_spec q s :
  holds N s → is_Some (zvars s !! tr) → D tq →
  wp never (div_qr_limbs q tq tr n d (zsize x) (zlimbs x) (zlimbs y) (Z.lxor (zsize y) (zsize x)))
    (λ rn s', (rn = 0 ↔ Z.rem x y = 0) ∧
      holds (<[tr := Some (Z.rem x y)]> (match q with Some _ => <[tq := Some (Z.quot x y)]> N | None => N end)) s') s.
Proof.
  intros H Hvr HDq. assert (tr ≠ d ∧ tq ≠ d) as [Hrd Hqd] by (split; congruence). pose proof (zlimbs_pos y Hy) as Hpy. unfold div_qr_limbs.
  apply wp_bind. eapply wp_mono; [exact (mpz_init_set_spec N s tr n x H Htr Hvr Hn)|]. intros [] s1 H1. set (N1 := <[tr := Some x]> N) in *.
  assert (N1 !! tr = Some (Some x)) as Hr1 by (unfold N1; by rewrite lookup_insert_eq). assert (N1 !! d = Some (Some y)) as Hd1 by (unfold N1; by rewrite lookup_insert_ne).
  assert (N1 !! tq = None) as Hq1 by (unfold N1; by rewrite lookup_insert_ne). pose proof (holds_limit _ _ _ _ H1 Hr1) as Hlim.
  destruct (holds_read N1 s1 tr x H1 Hr1) as (str & _ & Hor & _). eapply wp_limbs; [done|]. cbv zeta. destruct q as [q0|]; cbn [if_ptr].
  - apply wp_bind. eapply wp_mono; [apply (mpz_init2_spec N1 s1 tq (zlimbs x - zlimbs y + 1) H1 Hq1); [by apply (h_decl _ _ _ _ _ H1)|lia]|].
    intros [] s2 (H2 & (stq & Hoq & Haq) & Hv2). set (N2 := <[tq := Some 0]> N1) in *.
    assert (N2 !! tr = Some (Some x)) as Hr2 by (unfold N2; by rewrite lookup_insert_ne). assert (N2 !! d = Some (Some y)) as Hd2 by (unfold N2; by rewrite lookup_insert_ne).
    assert (own N2 s2 tr str) as Hor2 by (split; [eauto|rewrite Hv2 by done; apply Hor]). destruct (holds_read N2 s2 d y H2 Hd2) as (std & _ & Hod & _).
    rewrite wp_bind_assoc. eapply wp_limbs; [done|]. eapply wp_reads; [reflexivity|]. eapply wp_limbs; [done|].
    destruct (divide_limbs N2 s2 str std (Some stq) H2 Hr2 Hd2 Hor2 Hod Hrd) as (m' & qs & rs & E & Ht & Hqs & Lqs & Hrs & Lrs & Lar & Vq & Vr); [done|].
    eapply wp_then; [exact (limbsZ_run _ _ _ _ E)|]. cbn [write_opt fmap option_fmap option_map] in *.
    set (m1 := write (zmem s2) (mp_d str) rs) in *.
    pose proof (holds_write N2 s2 tr str m1 H2 Hor2 (touches_write N2 s2 tr str rs H2 Hor2 Lar)) as H3a.
    assert (own (<[tr := None]> N2) (set_mem s2 m1) tq stq) as Hoq3 by (destruct Hoq; split; [by rewrite lookup_insert_ne|done]).
    pose proof (holds_write _ _ tq stq m' H3a Hoq3 (touches_temp _ _ _ _ (touches_write _ _ tq stq qs H3a Hoq3 ltac:(lia)) Ht)) as H3.
    assert (limbs_at m' (mp_d stq) qs ∧ limbs_at m' (mp_d str) rs) as [Hlq Hlr].
    { destruct Ht as (k & _ & ->). split; [by apply limbs_at_write|]. apply (limbs_at_frame m1); [by apply limbs_at_write|].
      apply (own_apart N2 s2 tq tr stq str _ _ H2); (done || lia). }
    apply (quotient_spec (<[tr := None]> N2) _ stq qs); [split; [exact H3|split; [done|split; [done|lia]]]|done|done|]. intros s4 H4 Em Ev.
    eapply wp_mono; [apply (remainder_spec (<[tq := Some (Z.quot x y)]> N2) s4 str (take (Z.to_nat (zlimbs y)) rs))|].
    + split; [by rewrite insert_insert_ne|]. split; [split; [rewrite lookup_insert_ne; eauto|rewrite Ev by done; apply Hor2]|].
      rewrite Em. split; [apply (limbs_at_split _ _ _ _ Hlr); lia|rewrite length_take; lia].
    + rewrite length_take. lia.
    + done.
    + intros rn s5 [Hrn H5]. split; [done|]. unfold N2, N1 in H5. rewrite insert_insert_eq, (insert_insert_ne _ tq tr), insert_insert_eq in H5 by done. done.
  - eapply wp_then; [reflexivity|]. eapply wp_reads; [reflexivity|]. destruct (holds_read N1 s1 d y H1 Hd1) as (std & _ & Hod & _). eapply wp_limbs; [done|].
    destruct (divide_limbs N1 s1 str std None H1 Hr1 Hd1 Hor Hod Hrd) as (m' & qs & rs & E & Ht & _ & _ & Hrs & Lrs & Lar & _ & Vr); [done|].
    eapply wp_then; [exact (limbsZ_run _ _ _ _ E)|]. eapply wp_then; [reflexivity|]. cbn [write_opt fmap option_fmap option_map] in *.
    pose proof (holds_write N1 s1 tr str m' H1 Hor (touches_temp _ _ _ _ (touches_write N1 s1 tr str rs H1 Hor Lar) Ht)) as H3.
    eapply wp_mono; [apply (remainder_spec N1 (set_mem s1 m') str (take (Z.to_nat (zlimbs y)) rs))|].
    + split; [done|]. split; [done|]. split; [|rewrite length_take; lia]. destruct Ht as (k & _ & ->).
      apply (limbs_at_split _ (mp_d str) _ rs); [by apply limbs_at_write|lia].
    + rewrite length_take. lia.
    + done.
    + intros rn s5 [Hrn H5]. split; [done|]. unfold N1 in H5. by rewrite insert_insert_eq in H5.
Qed.
End limbs.

(** ** Rounding and the end of the function *)

Lemma zlimbs_mono a b : Z.abs a ≤ Z.abs b → zlimbs a ≤ zlimbs b.
Proof.
  intros Hab. unfold zlimbs. destruct (Z.eqb_spec a 0), (Z.eqb_spec b 0); [lia| |lia|].
  - pose proof (Z.div_pos (Z.log2 (Z.abs b)) 64 ltac:(apply Z.log2_nonneg) ltac:(lia)). lia.
  - pose proof (Z.div_le_mono _ _ 64 ltac:(lia) (Z.log2_le_mono _ _ Hab)). lia.
Qed.

Lemma quot_abs_le x y : y ≠ 0 → Z.abs (Z.quot x y) ≤ Z.abs x.
Proof.
  intros Hy. rewrite (quot_signs x y Hy). pose proof (Z.div_pos (Z.abs x) (Z.abs y) ltac:(lia) ltac:(lia)).
  assert (Z.abs x / Z.abs y ≤ Z.abs x) by (apply Z.div_le_upper_bound; [lia|nia]). destruct (_ <? 0); lia.
Qed.

Lemma opt_set_comm q r v w N : (q = r → q = None) → opt_set q v (opt_set r w N) = opt_set r w (opt_set q v N).
Proof. intros Hqr. destruct q as [q|], r as [r|]; simpl; try done. apply insert_insert_ne. intros ->. by specialize (Hqr eq_refl). Qed.

Lemma opt_set_lookup q v N t : opt_in q N → N !! t = None → opt_set q v N !! t = None.
Proof. destruct q as [q|]; simpl; [|done]. intros [o Hq] Ht. by rewrite lookup_insert_ne by congruence. Qed.

(** The local quotient, if there is one. *)
Definition with_quotient (q : option positive) (tq : positive) (v : Z) (N : vars) : vars := match q with Some _ => <[tq := Some v]> N | None => N end.

Section finish.
Context {F : gmap Z (option Z)} {FB : gmap Z Z} {D : positive → Prop}.
Local Abbreviation holds := (holds F FB D).

Lemma clear_swapped N s r t v :
  holds (<[t := Some v]> N) s → is_Some (N !! r) → N !! t = None →
  wp never (_ ← mpz_swap t r; mpz_clear t) (λ _ s', holds (<[r := Some v]> N) s') s.
Proof.
  intros H [o Hr] Ht. assert (r ≠ t) as Hne by congruence. apply wp_bind.
  eapply wp_mono; [apply (mpz_swap_spec _ s t r (Some v) o H); [by rewrite lookup_insert_eq|by rewrite lookup_insert_ne]|]. intros [] s1 (H1 & _).
  eapply wp_mono; [apply (mpz_clear_spec _ s1 t H1); rewrite lookup_insert_eq; eauto|]. intros [] s2 (H2 & _).
  rewrite delete_insert_eq, delete_insert_ne, delete_insert_id in H2 by done. done.
Qed.

Context (N : vars) (q r : option positive) (tq tr d : positive) (x y : Z) (mode : mpz_div_round_mode).
Hypotheses (Hd : N !! d = Some (Some y)) (Hy : y ≠ 0) (Hqr : tq ≠ tr) (Htq : N !! tq = None) (Htr : N !! tr = None).
Hypothesis (Hlim : Z.max (zlimbs x) (zlimbs y) + 1 ≤ alloc_limit).

(** The corrections, on the local variables. *)
Lemma div_qr_round_spec s rn :
  (rn = 0 ↔ Z.rem x y = 0) → holds (<[tr := Some (Z.rem x y)]> (with_quotient q tq (Z.quot x y) N)) s →
  wp never (div_qr_round q r tq tr d mode (Z.lxor (zsize y) (zsize x)) rn) (λ _ s',
    ∃ w, holds (<[tr := Some w]> (with_quotient q tq (div_round mode x y).1 N)) s' ∧ (r = None ∨ w = (div_round mode x y).2)) s.
Proof.
  intros Hrn H. assert (tr ≠ d ∧ tq ≠ d) as [Hrd Hqd] by (split; congruence). rewrite div_round_correct by done. unfold round_down, round_up, div_qr_round.
  assert (negb (rn =? 0) = negb (Z.rem x y =? 0)) as -> by (f_equal; destruct (Z.eqb_spec rn 0), (Z.eqb_spec (Z.rem x y) 0); tauto).
  pose proof (zlimbs_mono _ _ (quot_abs_le x y Hy)) as Hlq. destruct (rem_bounds x y Hy) as (Hra & _). pose proof (zlimbs_mono (Z.rem x y) y ltac:(lia)) as Hlr.
  (* the quotient corrected by [fq], then the remainder by [fr] *)
  assert (∀ v w fq fr, (∀ M s1, holds M s1 → M !! tq = Some (Some (Z.quot x y)) → wp never fq (λ _ s', holds (<[tq := Some v]> M) s') s1) →
    (∀ M s1, holds M s1 → M !! tr = Some (Some (Z.rem x y)) → M !! d = Some (Some y) → wp never fr (λ _ s', holds (<[tr := Some w]> M) s') s1) →
    wp never (_ ← if_ptr q (λ _, fq); if_ptr r (λ _, fr))
      (λ _ s', ∃ w', holds (<[tr := Some w']> (with_quotient q tq v N)) s' ∧ (r = None ∨ w' = w)) s) as Hboth.
  { intros v w fq fr Hfq Hfr.
    assert (∀ s1, holds (<[tr := Some (Z.rem x y)]> (with_quotient q tq v N)) s1 → wp never (if_ptr r (λ _, fr))
      (λ _ s', ∃ w', holds (<[tr := Some w']> (with_quotient q tq v N)) s' ∧ (r = None ∨ w' = w)) s1) as Hr.
    { intros s1 H1. destruct r; simpl; [|eapply wp_run; [done|]; eexists; split; [done|by left]].
      eapply wp_mono; [apply (Hfr _ s1 H1); [by rewrite lookup_insert_eq|rewrite lookup_insert_ne by done; destruct q; simpl; by rewrite ?lookup_insert_ne by done]|].
      intros [] s2 H2. rewrite insert_insert_eq in H2. exists w. split; [done|by right]. }
    apply wp_bind. destruct q; simpl in *; [|eapply wp_run; [done|]; by apply Hr].
    eapply wp_mono; [apply (Hfq _ s H); by rewrite lookup_insert_ne, lookup_insert_eq by done|]. intros [] s1 H1. apply Hr.
    by rewrite insert_insert_ne, insert_insert_eq in H1 by done. }
  destruct (is_floor mode && (Z.lxor (zsize y) (zsize x) <? 0) && negb (Z.rem x y =? 0)).
  - apply Hboth; [intros M s1 H1 HM; apply (mpz_sub_ui_spec M s1 tq H1); eauto; (done || lia)|].
    intros M s1 H1 HM HMd. apply (mpz_add_spec M s1 tr H1); eauto. lia.
  - destruct (is_ceil mode && (0 <=? Z.lxor (zsize y) (zsize x)) && negb (Z.rem x y =? 0)).
    + apply Hboth; [intros M s1 H1 HM; apply (mpz_add_ui_spec M s1 tq H1); eauto; (done || lia)|].
      intros M s1 H1 HM HMd. apply (mpz_sub_spec M s1 tr H1); eauto. lia.
    + eapply wp_run; [done|]. eexists. split; [done|by right].
Qed.

(** The results, from the local variables. *)
Lemma div_qr_results_spec {A} s w v (a : A) :
  opt_in q N → opt_in r N → holds (<[tr := Some w]> (with_quotient q tq v N)) s →
  wp never (_ ← if_ptr q (λ q, _ ← mpz_swap tq q; mpz_clear tq); _ ← if_ptr r (λ r, mpz_swap tr r); _ ← mpz_clear tr; mret a)
    (λ a' s', a' = a ∧ holds (opt_set r w (opt_set q v N)) s') s.
Proof.
  intros Hq Hr H. assert (wp never (if_ptr q (λ q, _ ← mpz_swap tq q; mpz_clear tq)) (λ _ s', holds (<[tr := Some w]> (opt_set q v N)) s') s) as Hw.
  { destruct q as [q0|]; simpl in *; [|by eapply wp_run]. rewrite insert_insert_ne in H by done. assert (q0 ≠ tr) by (destruct Hq; congruence).
    eapply wp_mono; [apply (clear_swapped _ s q0 tq v H); by rewrite lookup_insert_ne|]. intros [] s'. by rewrite insert_insert_ne. }
  apply wp_bind. eapply wp_mono; [exact Hw|]. intros [] s1 H1. pose proof (opt_set_lookup q v N tr Hq Htr) as Htr'.
  destruct r as [r0|]; simpl.
  - rewrite <- wp_bind_assoc. apply wp_bind. eapply wp_mono; [apply (clear_swapped _ s1 r0 tr w H1); [by apply (opt_in_set (Some r0))|done]|].
    intros [] s2 H2. by eapply wp_run.
  - eapply wp_then; [reflexivity|]. apply wp_bind. eapply wp_mono; [apply (mpz_clear_spec _ s1 tr H1); rewrite lookup_insert_eq; eauto|]. intros [] s2 (H2 & _).
    rewrite delete_insert_id in H2 by done. by eapply wp_run.
Qed.
End finish.

(** ** The function *)

Lemma mpz_div_qr_spec F FB (D : positive → Prop) N s q r n d x y mode :
  holds F FB D N s → opt_in q N → opt_in r N → (q = r → q = None) → N !! n = Some (Some x) → N !! d = Some (Some y) → y ≠ 0 →
  Z.max (zlimbs x) (zlimbs y) + 1 ≤ alloc_limit →
  wp never (mpz_div_qr q r n d mode) (λ b s', b = negb (Z.rem x y =? 0) ∧
    holds F FB D (opt_set r (div_round mode x y).2 (opt_set q (div_round mode x y).1 N)) s') s.
Proof.
  intros H Hq Hr Hqr Hn Hd Hy Hlim. unfold mpz_div_qr. eapply wp_size; [exact (holds_sizes _ _ H)|done|]. eapply wp_size; [exact (holds_sizes _ _ H)|done|].
  rewrite (proj2 (Z.eqb_neq (zsize y) 0)) by (by rewrite zsize_0). destruct (Z.eqb_spec (zsize x) 0) as [E0|E0].
  { apply zsize_0 in E0 as ->. replace (Z.rem 0 y) with 0 by (by destruct y). cbn [Z.eqb negb]. by eapply div_zero_spec. }
  assert (x ≠ 0) as Hx by (by rewrite <- (zsize_0 x)). cbv zeta. rewrite !zsize_abs. destruct (Z.ltb_spec (zlimbs x) (zlimbs y)) as [Hlt|Hle].
  - assert (Z.abs x < Z.abs y) as Hxy by (destruct (Z.lt_ge_cases (Z.abs x) (Z.abs y)) as [|Hge]; [done|]; pose proof (zlimbs_mono y x Hge); lia).
    apply wp_bind. eapply wp_mono; [by apply (div_small_spec N s q r n d x y H)|]. intros [] s1 H1. eapply wp_run; [done|].
    rewrite (proj2 (Z.rem_small_iff x y Hy)) by done. rewrite (proj2 (Z.eqb_neq x 0)) by done. split; [done|]. by rewrite opt_set_comm in H1.
  - apply (wp_local F FB D _ _ N s H). intros tq s1 H1 Htq HDq. apply (wp_local _ _ _ _ _ N s1 H1). intros tr s2 H2 Htr HDr.
    assert (tq ≠ tr) as Hne by (intros ->; apply HDr; by left).
    apply wp_bind. eapply wp_mono; [apply (div_qr_limbs_spec N tq tr n d x y Hn Hd Hx Hy Hle Hne Htq Htr q s2 H2)|].
    { apply (h_decl _ _ _ _ _ H2). by left. }
    { right. by left. }
    intros rn s3 [Hrn H3]. apply wp_bind. eapply wp_mono; [exact (div_qr_round_spec N q r tq tr d x y mode Hd Hy Hne Htq Htr Hlim s3 rn Hrn H3)|].
    intros [] s4 (w & H4 & Hw). eapply wp_mono; [exact (div_qr_results_spec N q r tq tr Hne Htq Htr s4 w _ (negb (rn =? 0)) Hq Hr H4)|].
    intros b s5 [-> H5]. assert (negb (rn =? 0) = negb (Z.rem x y =? 0)) as Eb by (f_equal; destruct (Z.eqb_spec rn 0), (Z.eqb_spec (Z.rem x y) 0); tauto).
    assert (opt_set r w (opt_set q (div_round mode x y).1 N) = opt_set r (div_round mode x y).2 (opt_set q (div_round mode x y).1 N)) as Ew by (by destruct Hw as [->| ->]).
    rewrite Ew in H5. eexists. split; [exact H5|]. split; [by apply opt_set_lookup; [apply opt_in_set|apply opt_set_lookup]|].
    intros s6 H6. eexists. split; [exact H6|]. split; [by apply opt_set_lookup; [apply opt_in_set|apply opt_set_lookup]|]. intros s7 H7. by split.
Qed.

Lemma mpz_div_qr_zero F FB (D : positive → Prop) N s q r n d x mode :
  holds F FB D N s → N !! n = Some (Some x) → N !! d = Some (Some 0) → mpz_div_qr q r n d mode s = Failed Assertion.
Proof.
  intros H Hn Hd. unfold mpz_div_qr. rewrite (bind_done _ _ _ _ _ (size_of_ok N s n x H Hn)), (bind_done _ _ _ _ _ (size_of_ok N s d 0 H Hd)). done.
Qed.
