(* ===== verification/MpzProps.v ===== *)
(** * Properties of the integers of mini-gmp

    The mpz functions as operations on variables that hold integers: each
    returns, leaves in its result variables the integers that it should, and
    leaves every other variable, the memory of the caller and the set of
    allocated blocks as they are. Arguments may be the same variable. *)

From S2P Require Import Prelude Limbs Mpn Invert MpnDiv MpnDivN MpnStr MpnSetStr MpnGetStr Mpz MpzRep MpzArith MpzMul MpzDivision.

(** ** Sizes of results *)

Lemma zlimbs_below z k : 0 ≤ k → Z.abs z < B ^ k → zlimbs z ≤ k.
Proof.
  intros Hk Hz. destruct (Z.eq_dec z 0) as [->|Hne]; [done|]. pose proof (abs_ge z Hne). pose proof (zlimbs_pos z Hne).
  destruct (Z.le_gt_cases (zlimbs z) k); [done|]. assert (B ^ k ≤ B ^ (zlimbs z - 1)) by (apply Z.pow_le_mono_r; [done|lia]). lia.
Qed.

Lemma zlimbs_mul x y : zlimbs (x * y) ≤ zlimbs x + zlimbs y.
Proof.
  pose proof (zlimbs_nonneg x). pose proof (zlimbs_nonneg y). apply zlimbs_below; [lia|]. rewrite Z.abs_mul, Z.pow_add_r by lia.
  pose proof (abs_lt x). pose proof (abs_lt y). apply Z.mul_lt_mono_nonneg; lia.
Qed.

Lemma zlimbs_limb v : limb v → zlimbs v ≤ 1.
Proof. intros [H0 H1]. apply zlimbs_below; [lia|]. rewrite Z.abs_eq by lia. done. Qed.

(** ** Statements *)

Section statements.
Context (F : gmap Z (option Z)) (FB : gmap Z Z) (D : positive → Prop).

(** The function returns, and the variables hold [N'] then. *)
Definition leaves (s : zst) (k : M zst unit) (N' : vars) : Prop := ∃ s', k s = Done tt s' ∧ holds F FB D N' s'.

Lemma leaves_wp s k N' : wp never k (λ _ s', holds F FB D N' s') s → leaves s k N'.
Proof. unfold wp. destruct (k s) as [[] s'|c s'|[]] eqn:E; try done. intros H. by exists s'. Qed.

(** The ring operations on [r], [a], [b] (with the values [w], [x], [y]), a limb
    [v], a [long] [i] and a number of bits. *)
Definition ring_operations (N : vars) (s : zst) (r a b : positive) (w x y v i bits : Z) : Prop :=
  let into z := <[r := Some z]> N in
  leaves s (mpz_add r a b) (into (x + y)) ∧ leaves s (mpz_sub r a b) (into (x - y)) ∧
  leaves s (mpz_add_ui r a v) (into (x + v)) ∧ leaves s (mpz_sub_ui r a v) (into (x - v)) ∧ leaves s (mpz_ui_sub r v a) (into (v - x)) ∧
  leaves s (mpz_mul r a b) (into (x * y)) ∧ leaves s (mpz_mul_ui r a v) (into (x * v)) ∧ leaves s (mpz_mul_si r a i) (into (x * i)) ∧
  leaves s (mpz_mul_2exp r a bits) (into (x * 2 ^ bits)) ∧
  leaves s (mpz_addmul r a b) (into (w + x * y)) ∧ leaves s (mpz_submul r a b) (into (w - x * y)) ∧
  leaves s (mpz_addmul_ui r a v) (into (w + x * v)) ∧ leaves s (mpz_submul_ui r a v) (into (w - x * v)).

(** Assignment, creation and the end of a variable. *)
Definition assignments (N : vars) (s : zst) (r a b t : positive) (x y v i : Z) : Prop :=
  leaves s (mpz_set r a) (<[r := Some x]> N) ∧ leaves s (mpz_set_ui r v) (<[r := Some v]> N) ∧ leaves s (mpz_set_si r i) (<[r := Some i]> N) ∧
  leaves s (mpz_neg r a) (<[r := Some (- x)]> N) ∧ leaves s (mpz_abs r a) (<[r := Some (Z.abs x)]> N) ∧
  leaves s (mpz_swap a b) (<[a := Some y]> (<[b := Some x]> N)) ∧
  leaves s (mpz_init t) (<[t := Some 0]> N) ∧ leaves s (mpz_init_set t a) (<[t := Some x]> N) ∧ leaves s (mpz_clear r) (delete r N).

(** Comparisons and conversions only read. *)
Definition observations (s : zst) (a b : positive) (x y v i : Z) : Prop :=
  mpz_cmp a b s = Done (cmp_sign x y) s ∧ mpz_cmpabs a b s = Done (cmp_sign (Z.abs x) (Z.abs y)) s ∧
  mpz_cmp_ui a v s = Done (cmp_sign x v) s ∧ mpz_cmp_si a i s = Done (cmp_sign x i) s ∧ mpz_cmpabs_ui a v s = Done (cmp_sign (Z.abs x) v) s ∧
  mpz_sgn a s = Done (cmp_sign x 0) s ∧ mpz_get_ui a s = Done (Z.abs x mod 2 ^ 64) s ∧
  mpz_fits_ulong_p a s = Done (bool_decide (0 ≤ x < 2 ^ 64)) s ∧ mpz_fits_slong_p a s = Done (bool_decide (- 2 ^ 63 ≤ x < 2 ^ 63)) s ∧
  (- 2 ^ 63 ≤ x < 2 ^ 63 → mpz_get_si a s = Done x s).
End statements.

(** ** A concrete state *)

(** Three variables that hold -7, 2^70 and 12. *)
Definition mpz_start : zst :=
  Mk_zst (Mk_mem {[dummy_limb := Some 0xc1a0]} ∅ 0) {[1%positive := None; 2%positive := None; 3%positive := None; 4%positive := None]} 5.
Definition example_program : M zst unit :=
  _ ← mpz_init 1; _ ← mpz_init 2; _ ← mpz_init 3;
  _ ← mpz_set_si 1 (-7); _ ← mpz_set_ui 2 64; _ ← mpz_mul_2exp 2 2 64; mpz_set_ui 3 12.
Definition mpz_example : zst := match example_program mpz_start with Done _ s => s | _ => mpz_start end.
Definition example_frame : gmap Z (option Z) := {[dummy_limb := Some 0xc1a0]}.
Definition example_vars : vars := <[3%positive := Some 12]> (<[2%positive := Some (2 ^ 70)]> (<[1%positive := Some (-7)]> ∅)).
Definition declared (r : positive) : Prop := (r ≤ 4)%positive.

Lemma holds_start : holds example_frame ∅ declared ∅ mpz_start.
Proof.
  split; simpl.
  - split; [|lia]. intros a Ha. simpl in *. split; [|done]. rewrite lookup_singleton_ne; [done|]. unfold dummy_limb. lia.
  - by split.
  - intros r o Hr. by rewrite lookup_empty in Hr.
  - intros r1 r2 st1 st2 _ [[? E] _]. by rewrite lookup_empty in E.
  - intros r st a [[? E] _]. by rewrite lookup_empty in E.
  - intros r st [[? E] _]. by rewrite lookup_empty in E.
  - intros a n. rewrite lookup_empty. split; [done|]. intros [?|(r & st & [[? E] _] & _)]; [done|by rewrite lookup_empty in E].
  - intros r Hr. destruct (decide (r < 5)%positive); [done|]. exfalso. rewrite !lookup_insert_ne in Hr by lia. rewrite lookup_singleton_ne in Hr by lia. by destruct Hr.
  - intros r Hr. unfold declared in Hr. assert (r = 1 ∨ r = 2 ∨ r = 3 ∨ r = 4)%positive as [->|[->|[->| ->]]] by lia; vm_compute; eauto.
Qed.

Lemma holds_example : holds example_frame ∅ declared example_vars mpz_example.
Proof.
  assert (∀ r N s, holds example_frame ∅ declared N s → declared r → N !! r = None → wp never (mpz_init r) (λ _ s', holds example_frame ∅ declared (<[r := Some 0]> N) s') s) as Hinit.
  { intros r N s H Hr HN. apply (mpz_init_spec N s r H HN). by apply (h_decl _ _ _ _ _ H). }
  assert (wp never example_program (λ _ s', holds example_frame ∅ declared example_vars s') mpz_start) as Hw.
  { unfold example_program.
    apply wp_bind. eapply wp_mono; [apply Hinit; [exact holds_start|by unfold declared|done]|]. intros [] s1 H1.
    apply wp_bind. eapply wp_mono; [apply Hinit; [exact H1|by unfold declared|done]|]. intros [] s2 H2.
    apply wp_bind. eapply wp_mono; [apply Hinit; [exact H2|by unfold declared|done]|]. intros [] s3 H3.
    apply wp_bind. eapply wp_mono; [apply (mpz_set_si_spec _ s3 1 (-7) H3); [by eexists|lia]|]. intros [] s4 H4.
    apply wp_bind. eapply wp_mono; [apply (mpz_set_ui_spec _ s4 2 64 H4); [by eexists|done]|]. intros [] s5 H5.
    apply wp_bind. eapply wp_mono; [apply (mpz_mul_2exp_spec _ s5 2 2 64 64 H5); [by eexists|done|lia|by_computation]|]. intros [] s6 H6.
    eapply wp_mono; [apply (mpz_set_ui_spec _ s6 3 12 H6); [by eexists|done]|]. intros [] s7 H7.
    match type of H7 with holds _ _ _ ?M _ => assert (M = example_vars) as EM; [vm_compute; reflexivity|by rewrite EM in H7] end. }
  unfold wp, mpz_example in *. by destruct (example_program mpz_start) as [| |[]].
Qed.

(** ** Properties *)

(** C19: the ring operations of the mpz layer (mpz_add, mpz_sub, mpz_mul and their
    variants with a machine word, the multiplication by a power of two, and
    the fused mpz_addmul and mpz_submul) compute the integers that they
    should, for integers of any sign and size within the limit of memory and
    whichever of the arguments are the same variable: they return, only the
    result variable changes, nothing is read or written outside the blocks of
    the variables, and no block is lost. *)
Theorem mpz_ring_exact F FB D N s r a b w x y v i bits :
  holds F FB D N s → N !! r = Some (Some w) → N !! a = Some (Some x) → N !! b = Some (Some y) →
  0 ≤ v < 2 ^ 64 → - 2 ^ 63 ≤ i < 2 ^ 63 → 0 ≤ bits →
  zlimbs w + zlimbs x + zlimbs y + bits / 64 + 2 ≤ alloc_limit →
  ring_operations F FB D N s r a b w x y v i bits.
Proof.
  intros H Hr Ha Hb Hv Hi Hbits Hlim. change (2 ^ 64) with B in Hv. pose proof (zlimbs_nonneg w). pose proof (zlimbs_nonneg x). pose proof (zlimbs_nonneg y).
  pose proof (Z.div_pos bits 64 Hbits ltac:(lia)). pose proof (zlimbs_mul x y). pose proof (zlimbs_mul x v). pose proof (zlimbs_limb v Hv).
  assert (is_Some (N !! r)) as Hr' by eauto. unfold ring_operations. cbv zeta. split_and!; apply leaves_wp.
  - apply (mpz_add_spec N s r H Hr' a b); (done || lia).
  - apply (mpz_sub_spec N s r H Hr' a b); (done || lia).
  - apply (mpz_add_ui_spec N s r H Hr' a); (done || lia).
  - apply (mpz_sub_ui_spec N s r H Hr' a); (done || lia).
  - apply (mpz_ui_sub_spec N s r H Hr' a); (done || lia).
  - apply (mpz_mul_spec N s r a b x y H Hr'); (done || lia).
  - apply (mpz_mul_ui_spec N s r a x v H Hr'); (done || lia).
  - apply (mpz_mul_si_spec N s r a x i H Hr'); (done || lia).
  - apply (mpz_mul_2exp_spec N s r a x bits H Hr'); (done || lia).
  - apply (mpz_addmul_spec N s r a w x H Hr Ha b y); (done || lia).
  - apply (mpz_addmul_spec N s r a w x H Hr Ha b y); (done || lia).
  - apply (mpz_addmul_ui_spec N s r a w x H Hr Ha v); (done || lia).
  - apply (mpz_addmul_ui_spec N s r a w x H Hr Ha v); (done || lia).
Qed.

Lemma mpz_ring_exact_witness : ring_operations example_frame ∅ declared example_vars mpz_example 1 1 2 (-7) (-7) (2 ^ 70) 5 (-3) 100.
Proof.
  apply (mpz_ring_exact example_frame ∅ declared example_vars mpz_example 1 1 2 (-7) (-7) (2 ^ 70) 5 (-3) 100).
  - exact holds_example.
  - reflexivity.
  - reflexivity.
  - reflexivity.
  - lia.
  - lia.
  - lia.
  - by_computation.
Defined.

(** C20: mpz_div_qr divides with the rounding it is asked for (down, up, or
    towards 0), for a quotient and a remainder that are wanted or not (NULL)
    and that may be the same variables as the operands, and returns whether
    the remainder is not 0; a divisor 0 ends the program. mpz_mod leaves the
    remainder between 0 and the absolute value of the divisor. The temporary
    variables are cleared. *)
Theorem mpz_div_qr_exact F FB D N s q r n d x y mode :
  holds F FB D N s → opt_in q N → opt_in r N → (q = r → q = None) → N !! n = Some (Some x) → N !! d = Some (Some y) →
  Z.max (zlimbs x) (zlimbs y) + 1 ≤ alloc_limit →
  (y ≠ 0 → ∃ s', mpz_div_qr q r n d mode s = Done (negb (x mod y =? 0)) s' ∧
     holds F FB D (opt_set r (div_round mode x y).2 (opt_set q (div_round mode x y).1 N)) s') ∧
  (y = 0 → mpz_div_qr q r n d mode s = Failed Assertion) ∧
  (y ≠ 0 → ∀ p, is_Some (N !! p) → leaves F FB D s (mpz_mod p n d) (<[p := Some (x mod Z.abs y)]> N)).
Proof.
  intros H Hq Hr Hqr Hn Hd Hlim. split; [|split].
  - intros Hy. pose proof (mpz_div_qr_spec F FB D N s q r n d x y mode H Hq Hr Hqr Hn Hd Hy Hlim) as Hw. unfold wp in Hw.
    destruct (mpz_div_qr q r n d mode s) as [c s'|c s'|[]]; try done. destruct Hw as [-> Hh]. exists s'. split; [|done]. do 2 f_equal.
    destruct (Z.eqb_spec (Z.rem x y) 0) as [E|E], (Z.eqb_spec (x mod y) 0) as [E'|E']; try done; exfalso; [apply E'|apply E].
    + apply Z.mod_divide; [done|]. by apply Z.rem_divide.
    + apply Z.rem_divide; [done|]. by apply Z.mod_divide.
  - intros ->. by eapply mpz_div_qr_zero.
  - intros Hy p Hp. apply leaves_wp. unfold mpz_mod. eapply wp_size; [exact (holds_sizes _ _ H)|done|]. apply wp_bind.
    eapply wp_mono; [by apply (mpz_div_qr_spec F FB D N s None (Some p) n d x y)|]. intros c s' [_ Hh]. eapply wp_run; [done|].
    replace (x mod Z.abs y) with (div_round (if 0 <=? zsize y then GMP_DIV_FLOOR else GMP_DIV_CEIL) x y).2; [done|].
    pose proof (zsize_nonneg y). destruct (Z.leb_spec 0 (zsize y)); simpl.
    + by rewrite Z.abs_eq by lia.
    + rewrite Z.abs_neq by lia. rewrite <- (Z.opp_involutive x) at 2. by rewrite Zmod_opp_opp.
Qed.

Lemma mpz_div_qr_exact_witness :
  ∃ s', mpz_div_qr (Some 1%positive) (Some 2%positive) 2 1 GMP_DIV_FLOOR mpz_example = Done true s' ∧
    holds example_frame ∅ declared (<[2%positive := Some (2 ^ 70 mod -7)]> (<[1%positive := Some (2 ^ 70 / -7)]> example_vars)) s'.
Proof.
  refine (proj1 (mpz_div_qr_exact example_frame ∅ declared example_vars mpz_example (Some 1%positive) (Some 2%positive) 2 1 (2 ^ 70) (-7) GMP_DIV_FLOOR _ _ _ _ _ _ _) _).
  - exact holds_example.
  - by eexists.
  - by eexists.
  - done.
  - reflexivity.
  - reflexivity.
  - by_computation.
  - done.
Defined.

(** C21: assignments leave the integer that they should and change no other
    variable; mpz_swap exchanges two integers; a variable starts with 0 and
    its block goes with it when it is cleared; comparisons are those of the
    integers, conversions to machine words are exact when the number fits,
    which the tests for that decide; and when every variable has been cleared
    the allocated blocks are those there were before. *)
Theorem mpz_values_exact F FB D N s r a b t x y v i :
  holds F FB D N s → is_Some (N !! r) → N !! a = Some (Some x) → N !! b = Some (Some y) → D t → N !! t = None →
  0 ≤ v < 2 ^ 64 → - 2 ^ 63 ≤ i < 2 ^ 63 →
  assignments F FB D N s r a b t x y v i ∧ observations s a b x y v i ∧
  (∀ s', holds F FB D ∅ s' → blocks (zmem s') = FB ∧ F ⊆ cells (zmem s')).
Proof.
  intros H Hr Ha Hb Ht HN Hv Hi. pose proof (h_decl _ _ _ _ _ H t Ht) as Hvt. split; [|split].
  - unfold assignments. split_and!; apply leaves_wp.
    + by apply (mpz_set_spec N s r a x H Hr).
    + by apply (mpz_set_ui_spec N s r v H Hr).
    + by apply (mpz_set_si_spec N s r i H Hr).
    + by apply (mpz_neg_spec N s r a x H Hr).
    + by apply (mpz_abs_spec N s r a x H Hr).
    + eapply wp_mono; [by apply (mpz_swap_spec N s a b (Some x) (Some y) H)|]. by intros [] s' (H' & _).
    + by apply (mpz_init_spec N s t H).
    + by apply (mpz_init_set_spec N s t a x H).
    + eapply wp_mono; [by apply (mpz_clear_spec N s r H)|]. by intros [] s' (H' & _).
  - unfold observations. change (2 ^ 64) with B. split_and!.
    + by apply (mpz_cmp_spec N s H).
    + by apply (mpz_cmpabs_spec N s H).
    + by apply (mpz_cmp_ui_spec N s H).
    + by apply (mpz_cmp_si_spec N s H).
    + by apply (mpz_cmpabs_ui_spec N s H).
    + by apply (mpz_sgn_spec N s H).
    + by apply (mpz_get_ui_spec N s H).
    + by apply (mpz_fits_ulong_spec N s H).
    + by apply (mpz_fits_slong_spec N s H).
    + by apply (mpz_get_si_spec N s H).
  - intros s' H'. split; [|apply (h_frame _ _ _ _ _ H')]. apply map_eq. intros c. apply option_eq. intros n. rewrite (h_blocks _ _ _ _ _ H'). split; [|by left].
    intros [?|(p & st & [[? E] _] & _)]; [done|by rewrite lookup_empty in E].
Qed.

Lemma mpz_values_exact_witness :
  assignments example_frame ∅ declared example_vars mpz_example 3 1 2 4 (-7) (2 ^ 70) 9 (-9) ∧ observations mpz_example 1 2 (-7) (2 ^ 70) 9 (-9) ∧
  (∀ s', holds example_frame ∅ declared ∅ s' → blocks (zmem s') = ∅ ∧ example_frame ⊆ cells (zmem s')).
Proof.
  apply (mpz_values_exact example_frame ∅ declared example_vars mpz_example 3 1 2 4 (-7) (2 ^ 70) 9 (-9)).
  - exact holds_example.
  - by eexists.
  - reflexivity.
  - reflexivity.
  - by unfold declared.
  - reflexivity.
  - lia.
  - lia.
Defined.
