(* ===== verification/MpzFrame.v ===== *)
(** * Framing the block of a variable

    While one variable is being written, functions may work on others: its
    block can be moved into the frame of [holds] and back. Computations that
    leave the struct of a variable alone are characterised by [spares]. *)

From S2P Require Import Prelude Limbs Mpn MpnDiv Mpz MpzRep.

(** ** The block of a variable as part of the frame *)

Section frame.
Context (F : gmap Z (option Z)) (FB : gmap Z Z) (D : positive → Prop).

#[local] Instance in_block_dec st a : Decision (in_block st a).
Proof. unfold in_block. apply _. Defined.

(** The frame with the block of [st] in it. *)
Definition frame_of (m : mem) (st : mpz_struct) : gmap Z (option Z) := filter (λ p, in_block st p.1) (cells m) ∪ F.
Definition blocks_of (st : mpz_struct) : gmap Z Z := <[mp_d st := mp_alloc st]> FB.

Lemma frame_of_block m st a : mpz_block m st → in_block st a → frame_of m st !! a = cells m !! a ∧ is_Some (cells m !! a).
Proof.
  intros Hb Ha. pose proof (block_writable m st Hb (Z.to_nat (a - mp_d st))) as Hw. unfold in_block in Ha.
  replace (mp_d st + Z.of_nat (Z.to_nat (a - mp_d st))) with a in Hw by lia. destruct (Hw ltac:(lia)) as [x Hx]. split; [|eauto].
  rewrite Hx. apply lookup_union_Some_l, map_lookup_filter_Some. done.
Qed.

Lemma frame_of_other m st a : ¬ in_block st a → frame_of m st !! a = F !! a.
Proof.
  intros Ha. unfold frame_of. apply lookup_union_r. apply map_lookup_filter_None. right. intros x _. exact Ha.
Qed.

Lemma holds_frame_in N s q st :
  holds F FB D N s → own N s q st → 0 < mp_alloc st → holds (frame_of (zmem s) st) (blocks_of st) D (delete q N) s.
Proof.
  intros H Ho Hp. pose proof (own_block N s q st H Ho) as Hb.
  assert (∀ r st', own (delete q N) s r st' → r ≠ q ∧ own N s r st' ∧ apart st' st) as Hown.
  { intros r st' [Hs Hv]. destruct (decide (r = q)) as [->|Hne]; [by rewrite lookup_delete_eq in Hs; destruct Hs|]. rewrite lookup_delete_ne in Hs by done.
    assert (own N s r st') as Ho' by done. split; [done|]. split; [done|]. exact (h_sep _ _ _ _ _ H _ _ _ _ Hne Ho' Ho). }
  split.
  - apply (h_wf _ _ _ _ _ H).
  - destruct (h_frame _ _ _ _ _ H) as [Hf Hd]. split.
    + apply map_subseteq_spec. intros a x [[Hx _]%map_lookup_filter_Some|[_ Hx]]%lookup_union_Some_raw; [done|by eapply map_subseteq_spec].
    + rewrite frame_of_other; [done|]. destruct Hb as (_ & _ & [[? _]|(_ & ? & _)]); unfold in_block, dummy_limb; lia.
  - intros r o Hr. apply (h_var _ _ _ _ _ H). by apply lookup_delete_Some in Hr as [_ ?].
  - intros r1 r2 st1 st2 Hne (_ & H1 & _)%Hown (_ & H2 & _)%Hown. by eapply (h_sep _ _ _ _ _ H r1 r2).
  - intros r st' a (_ & H1 & Hap)%Hown Ha. rewrite frame_of_other; [by eapply h_apart|]. unfold apart, disjoint, in_block in *. lia.
  - intros r st' (_ & H1 & Hap)%Hown Hp'. unfold blocks_of. rewrite lookup_insert_ne; [by eapply h_fb|]. unfold apart, disjoint in Hap. lia.
  - intros a n. rewrite (blocks_split N s q st a n H Ho). unfold blocks_of. split.
    + intros [Hfb|[(_ & <- & <-)|(r & st' & Hne & Ho' & Hrest)]].
      * left. rewrite lookup_insert_ne; [done|]. intros <-. by rewrite (h_fb _ _ _ _ _ H _ _ Ho Hp) in Hfb.
      * left. by rewrite lookup_insert_eq.
      * right. exists r, st'. split; [|done]. destruct Ho'. split; [by rewrite lookup_delete_ne|done].
    + intros [Hfb|(r & st' & (Hne & Ho' & _)%Hown & Hrest)]; [|right; right; by exists r, st'].
      apply lookup_insert_Some in Hfb as [[<- <-]|[_ ?]]; [right; left; done|by left].
  - apply (h_local _ _ _ _ _ H).
  - apply (h_decl _ _ _ _ _ H).
Qed.

Lemma holds_frame_out N s s' q st :
  holds F FB D N s → own N s q st → 0 < mp_alloc st → ∀ N', N' !! q = None →
  holds (frame_of (zmem s) st) (blocks_of st) D N' s' → zvars s' !! q = Some (Some st) →
  holds F FB D (<[q := None]> N') s' ∧ ∀ a, in_block st a → cells (zmem s') !! a = cells (zmem s) !! a.
Proof.
  intros H Ho Hp N' HN' H' Hq. pose proof (own_block N s q st H Ho) as Hb.
  assert (∀ a, in_block st a → cells (zmem s') !! a = cells (zmem s) !! a ∧ is_Some (cells (zmem s) !! a)) as Hcell.
  { intros a Ha. destruct (frame_of_block _ _ _ Hb Ha) as [Ef [x Hx]]. split; [|eauto]. rewrite Hx in *. by eapply map_subseteq_spec; [apply (h_frame _ _ _ _ _ H')|]. }
  assert (∀ r st', own N' s' r st' → r ≠ q ∧ apart st st') as Hown.
  { intros r st' Ho'. split; [intros ->; destruct Ho' as [[? E] _]; congruence|]. pose proof (h_apart _ _ _ _ _ H' r st') as Ha.
    destruct (own_block _ _ _ _ H' Ho') as (Hal & _ & [[E0 Ed]|(Hp' & Hd & _)]); [destruct Hb as (_ & _ & [[? _]|(_ & ? & _)]); unfold apart, disjoint, dummy_limb in *; lia|].
    destruct (decide (apart st st')) as [|Hn]; [done|]. exfalso. unfold apart, disjoint in Hn. set (a := Z.max (mp_d st) (mp_d st')).
    assert (in_block st a ∧ in_block st' a) as [Hi Hi'] by (unfold in_block, a; lia). specialize (Ha a Ho' Hi'). destruct (frame_of_block _ _ _ Hb Hi) as [Ef [x Hx]]. congruence. }
  split; [|intros a Ha; by apply Hcell].
  assert (∀ r st', own (<[q := None]> N') s' r st' → r = q ∧ st' = st ∨ own N' s' r st') as Hcase.
  { intros r st' [Hs Hv]. destruct (decide (r = q)) as [->|Hne]; [left; split; [done|congruence]|right]. by rewrite lookup_insert_ne in Hs. }
  split.
  - apply (h_wf _ _ _ _ _ H').
  - destruct (h_frame _ _ _ _ _ H') as [Hf _]. destruct (h_frame _ _ _ _ _ H) as [_ Hd]. split; [|done]. apply map_subseteq_spec. intros a x Hx.
    eapply map_subseteq_spec; [exact Hf|]. rewrite frame_of_other; [done|]. intros Hi. by rewrite (h_apart _ _ _ _ _ H _ _ _ Ho Hi) in Hx.
  - intros r o Hr. apply lookup_insert_Some in Hr as [[<- <-]|[Hne Hr]]; [|by apply (h_var _ _ _ _ _ H')]. exists st. split; [done|]. split; [|done].
    destruct Hb as (Hal & Hsz & [[? _]|(_ & Hd & Hbk & Hw)]); [lia|]. split; [done|]. split; [done|]. right. split_and!; try done.
    + apply (h_blocks _ _ _ _ _ H'). left. unfold blocks_of. by rewrite lookup_insert_eq.
    + intros i Hi. destruct (Hcell (mp_d st + Z.of_nat i)) as [-> Hs]; [unfold in_block; lia|done].
  - intros r1 r2 st1 st2 Hne [[-> ->]|H1]%Hcase [[-> ->]|H2]%Hcase; [done|by apply (Hown r2)| |by eapply (h_sep _ _ _ _ _ H' r1 r2)].
    destruct (Hown _ _ H1) as [_ Hap]. unfold apart, disjoint in *. lia.
  - intros r st' a [[-> ->]|H1]%Hcase Ha; [by eapply (h_apart _ _ _ _ _ H)|]. pose proof (h_apart _ _ _ _ _ H' _ _ _ H1 Ha) as E. rewrite frame_of_other in E; [done|].
    destruct (Hown _ _ H1) as [_ Hap]. unfold apart, disjoint, in_block in *. lia.
  - intros r st' [[-> ->]|H1]%Hcase Hp'; [by eapply (h_fb _ _ _ _ _ H)|]. pose proof (h_fb _ _ _ _ _ H' _ _ H1 Hp') as E. unfold blocks_of in E. by apply lookup_insert_None in E as [? _].
  - intros a n. rewrite (h_blocks _ _ _ _ _ H'). unfold blocks_of. split.
    + intros [[[<- <-]|[_ ?]]%lookup_insert_Some|(r & st' & Ho' & Hrest)]; [right; exists q, st|by left|right; exists r, st'].
      * split; [|done]. split; [rewrite lookup_insert_eq; eauto|done].
      * split; [|done]. destruct (Hown _ _ Ho') as [Hne _]. destruct Ho'. split; [by rewrite lookup_insert_ne|done].
    + intros [Hfb|(r & st' & [[-> ->]|Ho']%Hcase & Hp' & <- & <-)]; [left|left; by rewrite lookup_insert_eq|right; by exists r, st'].
      rewrite lookup_insert_ne; [done|]. intros <-. by rewrite (h_fb _ _ _ _ _ H _ _ Ho Hp) in Hfb.
  - apply (h_local _ _ _ _ _ H').
  - apply (h_decl _ _ _ _ _ H').
Qed.
End frame.

(** ** Computations that do not touch the struct of a variable *)

Definition spares {A} (q : positive) (k : M zst A) : Prop :=
  ∀ s a s', k s = Done a s' → zvars s' !! q = zvars s !! q.

Section spares.
Context (q : positive).

Lemma spares_ret {A} (a : A) : spares q (mret a).
Proof. by intros s b s' [= _ <-]. Qed.

Lemma spares_bind {A C} (k : M zst A) (f : A → M zst C) : spares q k → (∀ a, spares q (f a)) → spares q (k ≫= f).
Proof. intros Hk Hf s c s'. unfold mbind, M_bind. destruct (k s) as [a s1| |] eqn:E; [|done..]. intros E'. rewrite (Hf _ _ _ _ E'). by eapply Hk. Qed.

Lemma spares_limbs {A} (k : M mem A) : spares q (limbsZ k).
Proof. intros s a s'. unfold limbsZ, zoom. destruct (k (zmem s)); [|done..]. by intros [= _ <-]. Qed.

Lemma spares_get r : spares q (get_mpz r).
Proof. intros s a s'. unfold get_mpz. by destruct (zvars s !! r) as [[?|]|]; [|done..]; intros [= _ <-]. Qed.

Lemma spares_put r st : q ≠ r → spares q (put_mpz r st).
Proof. intros Hne s a s'. unfold put_mpz. destruct (zvars s !! r); [|done]. intros [= _ <-]. simpl. by rewrite lookup_insert_ne. Qed.

Lemma spares_set_size r n : q ≠ r → spares q (set_size r n).
Proof. intros Hne. apply spares_bind; [apply spares_get|]. intros st. by apply spares_put. Qed.

Lemma spares_realloc r n : q ≠ r → spares q (MPZ_REALLOC r n).
Proof.
  intros Hne. apply spares_bind; [apply spares_get|]. intros st. case_match; [|apply spares_ret].
  apply spares_bind; [apply spares_get|]. intros st'. apply spares_bind; [apply spares_limbs|]. intros d. apply spares_bind; [by apply spares_put|]. intros _. apply spares_ret.
Qed.
End spares.

(** A computation [k] on other variables while [q] is being written. *)
Lemma wp_framed {A} F FB (D : positive → Prop) N s q st rs (k : M zst A) (Q : A → zst → Prop) R :
  filled (F:=F) (FB:=FB) (D:=D) N s q st rs → 0 < mp_alloc st → spares q k →
  (∀ F' FB', holds F' FB' D (delete q N) s → wp never k (λ a s', ∃ N', holds F' FB' D N' s' ∧ N' !! q = None ∧ R a N') s) →
  (∀ a s' N', R a N' → holds F FB D (<[q := None]> N') s' → own (<[q := None]> N') s' q st →
     limbs_at (zmem s') (mp_d st) rs → Q a s') →
  wp never k Q s.
Proof.
  intros (H & Ho & Hl & Hle) Hp Hsp Hk HQ. pose proof (raw_own _ _ _ _ Ho) as Hor. specialize (Hk _ _ (eq_ind _ (λ M, holds _ _ _ M s) (holds_frame_in F FB D _ s q st H Hor Hp) _ (delete_insert_eq N q None))).
  unfold wp in *. destruct (k s) as [a s'| |e] eqn:E; [|done|by destruct e]. destruct Hk as (N' & H' & HN' & HR).
  pose proof (Hsp _ _ _ E) as Hz. rewrite (proj2 Ho) in Hz. destruct (holds_frame_out F FB D _ s s' q st H Hor Hp N' HN' H' Hz) as [Hout Hcell].
  eapply HQ; [exact HR|exact Hout|split; [rewrite lookup_insert_eq; eauto|done]|].
  split; [apply Hl|]. intros i x Hi. pose proof (lookup_lt_Some _ _ _ Hi). rewrite Hcell by (unfold in_block; lia). by apply Hl.
Qed.
