(* ===== verification/MpzDivShort.v ===== *)
(** * Division of integers by powers of two and by machine words

    mpz_div_q_2exp, mpz_div_r_2exp and mpz_div_qr_ui with the functions built on
    them, and the tests of divisibility. *)

From S2P Require Import Prelude Limbs Mpn Invert MpnDiv MpnDivN MpnStr MpnSetStr MpnGetStr Mpz MpzRep MpzArith MpzMul MpzDivision MpzFrame.

(** ** Definitions *)

(** [mode == ((un > 0) ? GMP_DIV_CEIL : GMP_DIV_FLOOR)]: away from 0. *)
Definition away (mode : mpz_div_round_mode) (un : Z) : bool :=
  if 0 <? un then is_ceil mode else is_floor mode.

(** Are there bits below [bit_index] of limb [limb_cnt]? *)
Definition q_2exp_adjust (u : positive) (mode : mpz_div_round_mode) (un qn limb_cnt bit_index : Z) : M zst bool :=
  if away mode un then
    if qn <=? 0 then mret true
    else
      up ← limbs_of u;
      z ← limbsZ (mpn_zero_p up limb_cnt);
      if negb z then mret true
      else
        x ← limbsZ (load (up + limb_cnt));
        mret (negb (Z.land x (lsub (lshl 1 bit_index) 1) =? 0))
  else mret false.

(** The limbs of the quotient; its size. *)
Definition q_2exp_limbs (q u : positive) (qn limb_cnt bit_index : Z) : M zst Z :=
  if qn <=? 0 then mret 0
  else
    qp ← MPZ_REALLOC q qn;
    up ← limbs_of u;
    if negb (bit_index =? 0) then
      _ ← limbsZ (mpn_rshift qp (up + limb_cnt) qn bit_index);
      x ← limbsZ (load (qp + qn - 1));
      mret (qn - b2l (x =? 0))
    else
      _ ← limbsZ (mpn_copyi qp (up + limb_cnt) qn);
      mret qn.

Definition mpz_div_q_2exp (q u : positive) (bit_index : Z) (mode : mpz_div_round_mode) : M zst unit :=
  un ← size_of u;
  if un =? 0 then set_size q 0
  else
    let limb_cnt := bit_index / GMP_LIMB_BITS in
    let qn := Z.abs un - limb_cnt in
    let bit_index := bit_index mod GMP_LIMB_BITS in
    adjust ← q_2exp_adjust u mode un qn limb_cnt bit_index;
    qn ← q_2exp_limbs q u qn limb_cnt bit_index;
    _ ← set_size q qn;
    _ ← whenM adjust (mpz_add_ui q q 1);
    whenM (un <? 0) (mpz_neg q q).

(** [for (i = un; i < rn - 1; i++) rp[i] = GMP_LIMB_MAX;] *)
Fixpoint fill_limbs (x p : Z) (n : nat) : M mem unit :=
  match n with O => mret tt | S n' => _ ← store p x; fill_limbs x (p + 1) n' end.

(** The limbs of the remainder, its size and the size that gives its sign; the
    dividend has fewer limbs than the remainder may have. *)
Definition r_2exp_short (r u : positive) (mode : mpz_div_round_mode) (us un rp rn mask : Z) : M zst (Z * Z) :=
  if away mode us then
    up ← limbs_of u;
    _ ← limbsZ (gmp_assert_nocarry (c ← mpn_neg rp up un; mret (b2l (c =? 0))));
    _ ← limbsZ (fill_limbs GMP_LIMB_MAX (rp + un) (Z.to_nat (rn - 1 - un)));
    _ ← limbsZ (store (rp + (rn - 1)) mask);
    mret (rn, - us)
  else
    _ ← whenM (negb (bool_decide (r = u))) (up ← limbs_of u; limbsZ (mpn_copyi rp up un));
    mret (un, us).

(** The same when the dividend has as many limbs. *)
Definition r_2exp_long (r u : positive) (mode : mpz_div_round_mode) (us rp rn mask : Z) : M zst (Z * Z) :=
  _ ← whenM (negb (bool_decide (r = u))) (up ← limbs_of u; limbsZ (mpn_copyi rp up (rn - 1)));
  up ← limbs_of u;
  x ← limbsZ (load (up + (rn - 1)));
  _ ← limbsZ (store (rp + (rn - 1)) (Z.land x mask));
  if away mode us then
    _ ← limbsZ (mpn_neg rp rp rn);
    x ← limbsZ (load (rp + (rn - 1)));
    _ ← limbsZ (store (rp + (rn - 1)) (Z.land x mask));
    mret (rn, - us)
  else mret (rn, us).

Definition mpz_div_r_2exp (r u : positive) (bit_index : Z) (mode : mpz_div_round_mode) : M zst unit :=
  us ← size_of u;
  if (us =? 0) || (bit_index =? 0) then set_size r 0
  else
    let rn := u64 (bit_index + GMP_LIMB_BITS - 1) / GMP_LIMB_BITS in
    _ ← lift (assertion (0 <? rn));
    rp ← MPZ_REALLOC r rn;
    let un := Z.abs us in
    let mask := lshr GMP_LIMB_MAX (rn * GMP_LIMB_BITS - bit_index) in
    '(rn, us) ← (if un <? rn then r_2exp_short r u mode us un rp rn mask else r_2exp_long r u mode us rp rn mask);
    rn ← limbsZ (mpn_normalized_size rp rn);
    set_size r (if us <? 0 then - rn else rn).

Definition mpz_cdiv_q_2exp (r u : positive) (cnt : Z) : M zst unit := mpz_div_q_2exp r u cnt GMP_DIV_CEIL.
Definition mpz_fdiv_q_2exp (r u : positive) (cnt : Z) : M zst unit := mpz_div_q_2exp r u cnt GMP_DIV_FLOOR.
Definition mpz_tdiv_q_2exp (r u : positive) (cnt : Z) : M zst unit := mpz_div_q_2exp r u cnt GMP_DIV_TRUNC.
Definition mpz_cdiv_r_2exp (r u : positive) (cnt : Z) : M zst unit := mpz_div_r_2exp r u cnt GMP_DIV_CEIL.
Definition mpz_fdiv_r_2exp (r u : positive) (cnt : Z) : M zst unit := mpz_div_r_2exp r u cnt GMP_DIV_FLOOR.
Definition mpz_tdiv_r_2exp (r u : positive) (cnt : Z) : M zst unit := mpz_div_r_2exp r u cnt GMP_DIV_TRUNC.

(** [gmp_assert_nocarry] of a result of the mpz functions. *)
Definition assert_zero (k : M zst Z) : M zst unit := c ← k; lift (assertion (c =? 0)).

Definition mpz_divexact (q n d : positive) : M zst unit :=
  assert_zero (b ← mpz_div_qr (Some q) None n d GMP_DIV_TRUNC; mret (b2l b)).

Definition mpz_divisible_p (n d : positive) : M zst bool :=
  b ← mpz_div_qr None None n d GMP_DIV_TRUNC; mret (negb b).

Definition mpz_congruent_p (a b m : positive) : M zst bool :=
  sg ← mpz_sgn m;
  if sg =? 0 then c ← mpz_cmp a b; mret (c =? 0)
  else
    with_local (λ t,
      _ ← mpz_init t;
      _ ← mpz_sub t a b;
      res ← mpz_divisible_p t m;
      _ ← mpz_clear t;
      mret res).

(** The remainder [rl] and the sign [rs] that its size gets, with the
    quotient corrected. *)
Definition qr_ui_round (qp : option Z) (qn d : Z) (mode : mpz_div_round_mode) (ns rl : Z) : M zst (Z * Z) :=
  let rs := b2l (0 <? rl) in
  let rs := if ns <? 0 then - rs else rs in
  if (0 <? rl) && (is_floor mode && (ns <? 0) || is_ceil mode && (0 <=? ns)) then
    _ ← match qp with Some qp => limbsZ (gmp_assert_nocarry (mpn_add_1 qp qp qn 1)) | None => mret tt end;
    mret (lsub d rl, - rs)
  else mret (rl, rs).

Definition mpz_div_qr_ui (q r : option positive) (n : positive) (d : Z) (mode : mpz_div_round_mode) : M zst Z :=
  ns ← size_of n;
  if ns =? 0 then
    _ ← if_ptr q (λ q, set_size q 0);
    _ ← if_ptr r (λ r, set_size r 0);
    mret 0
  else
    let qn := Z.abs ns in
    qp ← match q with Some q => p ← MPZ_REALLOC q qn; mret (Some p) | None => mret None end;
    np ← limbs_of n;
    rl ← limbsZ (mpn_div_qr_1 qp np qn d);
    _ ← lift (assertion (rl <? d));
    '(rl, rs) ← qr_ui_round qp qn d mode ns rl;
    _ ← if_ptr r (λ r, p ← MPZ_REALLOC r 1; _ ← limbsZ (store p rl); set_size r rs);
    _ ← match q, qp with
        | Some q, Some qp =>
            x ← limbsZ (load (qp + (qn - 1)));
            let qn := qn - b2l (x =? 0) in
            ok ← (if qn =? 0 then mret true else x ← limbsZ (load (qp + (qn - 1))); mret (0 <? x));
            _ ← lift (assertion ok);
            set_size q (if ns <? 0 then - qn else qn)
        | _, _ => mret tt
        end;
    mret rl.

Definition mpz_cdiv_qr_ui (q r n : positive) (d : Z) : M zst Z := mpz_div_qr_ui (Some q) (Some r) n d GMP_DIV_CEIL.
Definition mpz_fdiv_qr_ui (q r n : positive) (d : Z) : M zst Z := mpz_div_qr_ui (Some q) (Some r) n d GMP_DIV_FLOOR.
Definition mpz_tdiv_qr_ui (q r n : positive) (d : Z) : M zst Z := mpz_div_qr_ui (Some q) (Some r) n d GMP_DIV_TRUNC.
Definition mpz_cdiv_q_ui (q n : positive) (d : Z) : M zst Z := mpz_div_qr_ui (Some q) None n d GMP_DIV_CEIL.
Definition mpz_fdiv_q_ui (q n : positive) (d : Z) : M zst Z := mpz_div_qr_ui (Some q) None n d GMP_DIV_FLOOR.
Definition mpz_tdiv_q_ui (q n : positive) (d : Z) : M zst Z := mpz_div_qr_ui (Some q) None n d GMP_DIV_TRUNC.
Definition mpz_cdiv_r_ui (r n : positive) (d : Z) : M zst Z := mpz_div_qr_ui None (Some r) n d GMP_DIV_CEIL.
Definition mpz_fdiv_r_ui (r n : positive) (d : Z) : M zst Z := mpz_div_qr_ui None (Some r) n d GMP_DIV_FLOOR.
Definition mpz_tdiv_r_ui (r n : positive) (d : Z) : M zst Z := mpz_div_qr_ui None (Some r) n d GMP_DIV_TRUNC.
Definition mpz_cdiv_ui (n : positive) (d : Z) : M zst Z := mpz_div_qr_ui None None n d GMP_DIV_CEIL.
Definition mpz_fdiv_ui (n : positive) (d : Z) : M zst Z := mpz_div_qr_ui None None n d GMP_DIV_FLOOR.
Definition mpz_tdiv_ui (n : positive) (d : Z) : M zst Z := mpz_div_qr_ui None None n d GMP_DIV_TRUNC.
Definition mpz_mod_ui (r n : positive) (d : Z) : M zst Z := mpz_div_qr_ui None (Some r) n d GMP_DIV_FLOOR.
Definition mpz_divexact_ui (q n : positive) (d : Z) : M zst unit := assert_zero (mpz_div_qr_ui (Some q) None n d GMP_DIV_TRUNC).
Definition mpz_divisible_ui_p (n : positive) (d : Z) : M zst bool :=
  r ← mpz_div_qr_ui None None n d GMP_DIV_TRUNC; mret (r =? 0).

(** ** Rounding by a positive divisor *)

(** Whether the quotient is one more than that of the absolute values. *)
Definition rounds_away (mode : mpz_div_round_mode) (x y : Z) : bool := away mode (zsize x) && negb (Z.abs x mod y =? 0).

Lemma div_round_pos mode x y :
  0 < y →
  div_round mode x y =
    ((if x <? 0 then -1 else 1) * (Z.abs x / y + b2l (rounds_away mode x y)),
     (if x <? 0 then -1 else 1) * (if rounds_away mode x y then Z.abs x mod y - y else Z.abs x mod y)).
Proof.
  intros Hy. rewrite div_round_correct by lia. unfold round_down, round_up, rounds_away, away.
  rewrite (quot_signs x y), (rem_signs x y) by lia. rewrite (Z.abs_eq y) by lia. pose proof (sign_sum y x) as Hs.
  pose proof (zsize_nonneg x) as Hn. pose proof (zsize_0 x) as Hz. set (q := Z.abs x / y). assert (x = 0 → Z.abs x mod y = 0) as Hm by (by intros ->).
  set (m := Z.abs x mod y) in *. set (l := Z.lxor (zsize y) (zsize x)) in *.
  destruct (Z.ltb_spec l 0), (Z.leb_spec 0 l), (Z.ltb_spec (zsize x) 0), (Z.ltb_spec 0 (zsize x)), (Z.ltb_spec x 0), (Z.eqb_spec m 0); try lia;
    destruct mode; cbn [is_floor is_ceil andb negb b2l]; repeat (rewrite (proj2 (Z.eqb_neq _ 0)) by lia); repeat (rewrite (proj2 (Z.eqb_eq _ 0)) by lia);
    cbn [andb negb b2l]; f_equal; lia.
Qed.

(** ** Splitting a number at a bit *)

Lemma split_bits xs k sh :
  Forall limb xs → (k ≤ length xs)%nat → 0 ≤ sh →
  value xs / (B ^ Z.of_nat k * 2 ^ sh) = value (drop k xs) / 2 ^ sh ∧
  value xs mod (B ^ Z.of_nat k * 2 ^ sh) = value (take k xs) + B ^ Z.of_nat k * (value (drop k xs) mod 2 ^ sh).
Proof.
  intros Hx Hk Hsh. pose proof (value_split k xs Hk) as E. pose proof (value_bounds _ (Forall_take _ k xs Hx)) as [Hlo Hhi]. rewrite length_take, Nat.min_l in Hhi by done.
  pose proof (Z.pow_pos_nonneg 2 sh ltac:(lia) Hsh) as H2. pose proof (Z.pow_pos_nonneg B (Z.of_nat k) ltac:(done) ltac:(lia)) as HB.
  pose proof (Z.div_mod (value (drop k xs)) (2 ^ sh) ltac:(lia)) as Eq. pose proof (Z.mod_pos_bound (value (drop k xs)) (2 ^ sh) H2) as Hm.
  set (a := value (take k xs)) in *. set (b := value (drop k xs)) in *. set (q := b / 2 ^ sh) in *. set (m := b mod 2 ^ sh) in *. set (P := B ^ Z.of_nat k) in *.
  assert (0 ≤ a + P * m < P * 2 ^ sh) as Hr by nia. assert (value xs = P * 2 ^ sh * q + (a + P * m)) as Ex by (rewrite E, Eq; lia).
  split; symmetry; [apply (Z.div_unique_pos _ _ _ (a + P * m))|apply (Z.mod_unique_pos _ _ q)]; done.
Qed.

Lemma bits_split bits : 0 ≤ bits → 2 ^ bits = B ^ Z.of_nat (Z.to_nat (bits / 64)) * 2 ^ (bits mod 64).
Proof.
  intros Hb. pose proof (Z.div_pos bits 64 Hb ltac:(lia)). pose proof (Z.mod_pos_bound bits 64 ltac:(lia)).
  rewrite B_pow, <- Z.pow_add_r by lia. f_equal. rewrite Z2Nat.id by lia. apply Z.div_mod. lia.
Qed.

(** A number with no more limbs than are shifted out. *)
Lemma short_small z bits : 0 ≤ bits → zlimbs z ≤ bits / 64 → Z.abs z < 2 ^ bits.
Proof.
  intros Hb Hl. eapply Z.lt_le_trans; [apply abs_lt|]. rewrite B_pow by apply zlimbs_nonneg. apply Z.pow_le_mono_r; [lia|].
  pose proof (Z.mul_div_le bits 64 ltac:(lia)). lia.
Qed.

Lemma land_low_mask x sh : 0 ≤ sh < 64 → limb x → Z.land x (lsub (lshl 1 sh) 1) = x mod 2 ^ sh.
Proof.
  intros Hs Hx. pose proof (pow2_limb sh Hs). unfold lshl, lsub. rewrite Z.shiftl_1_l. unfold GMP_LIMB_HIGHBIT in *.
  rewrite (u64_small (2 ^ sh)) by (unfold SIZE_MOD; lia). rewrite u64_small by (unfold SIZE_MOD; lia). replace (2 ^ sh - 1) with (Z.ones sh) by (rewrite Z.ones_equiv; lia). apply Z.land_ones. lia.
Qed.

(** ** The quotient by a power of two *)

Section quotient.
Context {F : gmap Z (option Z)} {FB : gmap Z Z} {D : positive → Prop}.
Local Abbreviation holds := (holds F FB D).
Local Abbreviation filled := (filled (F:=F) (FB:=FB) (D:=D)).
Local Abbreviation pending := (pending (F:=F) (FB:=FB) (D:=D)).

Lemma zero_p_spec m p xs : limbs_at m p xs → mpn_zero_p p (Z.of_nat (length xs)) m = Done (value xs =? 0) m.
Proof.
  intros Hx. destruct (mpn_normalized_size_spec m p xs Hx) as (k & E & Hk & Hv & Hn). unfold mpn_zero_p. rewrite (bind_done _ _ _ _ _ E).
  unfold mret, M_ret. f_equal. rewrite <- Hv. pose proof (zlimbs_value _ (Forall_take _ k xs (proj1 Hx)) Hn) as Hl. rewrite length_take, Nat.min_l in Hl by done. rewrite Hl.
  destruct (Z.eqb_spec (value (take k xs)) 0) as [->|Hne]; [done|]. pose proof (zlimbs_pos _ Hne). by apply Z.eqb_neq; lia.
Qed.

Context (N : vars) (s : zst) (u : positive) (z : Z) (bits : Z).
Hypotheses (H : holds N s) (Hu : N !! u = Some (Some z)) (Hz : z ≠ 0) (Hbits : 0 ≤ bits).
Let k := bits / 64.
Let sh := bits mod 64.

Lemma cut_bounds : 0 ≤ k ∧ 0 ≤ sh < 64 ∧ 2 ^ bits = B ^ Z.of_nat (Z.to_nat k) * 2 ^ sh.
Proof. split; [apply Z.div_pos; lia|]. split; [apply Z.mod_pos_bound; lia|by apply bits_split]. Qed.

Lemma adjust_spec mode : reads (q_2exp_adjust u mode (zsize z) (zlimbs z - k) k sh) s (rounds_away mode z (2 ^ bits)).
Proof.
  unfold q_2exp_adjust, rounds_away. destruct (away mode (zsize z)); [|done]. destruct cut_bounds as (Hk & Hsh & E2). cbn [andb].
  destruct (Z.leb_spec (zlimbs z - k) 0).
  { rewrite Z.mod_small, (proj2 (Z.eqb_neq (Z.abs z) 0)); [done|lia|]. split; [lia|]. apply short_small; [done|]. fold k. lia. }
  destruct (holds_read N s u z H Hu) as (st & xs & Ho & Hxs & Hn & Hlen & _ & Hval & _). set (kn := Z.to_nat k) in *. assert (k = Z.of_nat kn) as Ek by (unfold kn; lia).
  assert (kn ≤ length xs)%nat as Hkn by lia. destruct (limbs_at_split _ _ kn _ Hxs Hkn) as [Hlo Hhi]. destruct (split_bits xs kn sh (proj1 Hxs) Hkn ltac:(lia)) as [_ Em].
  rewrite <- Hval, E2, Em. pose proof (value_bounds _ (proj1 Hlo)) as [Hlo0 _]. pose proof (Z.pow_pos_nonneg B (Z.of_nat kn) ltac:(done) ltac:(lia)).
  unfold reads. rewrite (bind_done _ _ _ _ _ (limbs_of_own _ _ _ _ Ho)).
  pose proof (zero_p_spec _ _ _ Hlo) as Ez. rewrite length_take, Nat.min_l, <- Ek in Ez by done.
  rewrite (bind_done _ _ _ _ _ (limbsZ_run _ _ _ _ Ez)).
  destruct (drop kn xs) as [|x ys] eqn:Ed; [apply (f_equal length) in Ed; rewrite length_drop in Ed; simpl in Ed; lia|].
  pose proof (proj1 (limbs_at_cons _ _ _ _) Hhi) as [[Hx Hc] _]. pose proof (Z.mod_pos_bound x (2 ^ sh) ltac:(apply Z.pow_pos_nonneg; lia)).
  rewrite (value_mod_low x ys sh) by (done || lia).
  assert (set_mem s (zmem s) = s) as -> by (by destruct s).
  destruct (Z.eqb_spec (value (take kn xs)) 0) as [E0|E0]; cbn [negb].
  - rewrite E0, Ek, (bind_done _ _ _ _ _ (limbsZ_run _ _ _ _ (load_ok _ _ _ Hc))), land_low_mask by done. assert (set_mem s (zmem s) = s) as -> by (by destruct s).
    unfold mret, M_ret. do 2 f_equal. destruct (Z.eqb_spec (x mod 2 ^ sh) 0), (Z.eqb_spec (0 + B ^ Z.of_nat kn * (x mod 2 ^ sh)) 0); (done || nia).
  - unfold mret, M_ret. f_equal. symmetry. apply negb_true_iff, Z.eqb_neq. nia.
Qed.

Lemma normalized_drop xs i : normalized xs → (i < length xs)%nat → normalized (drop i xs).
Proof.
  unfold normalized. intros Hn Hi. rewrite <- (take_drop i xs), last_app in Hn. destruct (last (drop i xs)) eqn:E; [done|].
  apply last_None, (f_equal length) in E. rewrite length_drop in E. simpl in E. lia.
Qed.

(** The limbs of the quotient, from those of [u] above the cut. *)
Lemma quotient_limbs_spec q :
  is_Some (N !! q) → wp never (q_2exp_limbs q u (zlimbs z - k) k sh) (λ qn s', pending N s' q qn (Z.abs z / 2 ^ bits)) s.
Proof.
  intros Hq. unfold q_2exp_limbs. destruct cut_bounds as (Hk & Hsh & E2). destruct (Z.leb_spec (zlimbs z - k) 0) as [Hs|Hs].
  { eapply wp_run; [done|]. rewrite Z.div_small; [by apply pending_zero|]. split; [lia|]. apply short_small; [done|]. fold k. lia. }
  pose proof (holds_limit _ _ _ _ H Hu). apply (wp_realloc N s q _ _ _ H Hq); [lia|]. intros s1 st H1 Ho Hal.
  destruct (holds_read N s1 u z H1 Hu) as (stu & xs & Hou & Hxs & Hn & Hlen & _ & Hval & Halu). eapply wp_limbs; [done|].
  set (kn := Z.to_nat k) in *. assert (k = Z.of_nat kn) as Ek by (unfold kn; lia). assert (kn < length xs)%nat as Hkn by lia.
  destruct (limbs_at_split _ _ kn _ Hxs ltac:(lia)) as [_ Hhi]. destruct (split_bits xs kn sh (proj1 Hxs) ltac:(lia) ltac:(lia)) as [Eq _].
  assert (zlimbs z - k = Z.of_nat (length (drop kn xs))) as El by (rewrite length_drop; lia). rewrite Ek, El, E2, <- Hval, Eq in *.
  pose proof (proj1 (normalized_ge _ (proj1 Hhi) ltac:(lia)) (normalized_drop xs kn Hn Hkn)) as Hge.
  pose proof (own_upward N s1 q u st stu (mp_alloc stu) H1 Ho Hou ltac:(lia)) as Hup. rewrite length_drop in El.
  assert (upward (mp_d st) (mp_d stu + Z.of_nat kn) (Z.of_nat (length (drop kn xs)))) as Hup' by (unfold upward in *; rewrite length_drop; lia).
  pose proof (own_writable N s1 q st (length (drop kn xs)) H1 Ho ltac:(lia)) as Hw. pose proof (Z.pow_pos_nonneg 2 sh ltac:(lia) ltac:(lia)).
  destruct (Z.eqb_spec sh 0) as [E0|E0]; cbn [negb].
  - eapply wp_bind, wp_mono; [apply (filled_write N s1 q st _ _ (drop kn xs) H1 Ho (mpn_copyi_spec _ _ _ _ Hhi Hw Hup')); [apply Hhi|lia]|].
    intros [] s2 (_ & _ & Hf). eapply wp_run; [done|]. exists st, (drop kn xs). rewrite Z.abs_eq, Nat2Z.id, take_ge by lia. rewrite E0, Z.div_1_r.
    split; [done|]. split; [lia|]. split; [by apply normalized_drop|]. rewrite Z.sgn_pos by (rewrite length_drop; lia). lia.
  - apply (wp_computes N s1 q st _ _ _ _ _ H1 Ho (mpn_rshift_div _ _ _ (drop kn xs) sh ltac:(rewrite length_drop; lia) ltac:(lia) Hhi Hw Hup')); [lia|].
    intros c rs s2 _ Hf Hrs Lrs [V _]. destruct (last rs) as [hi|] eqn:Hlast; [|apply last_None in Hlast; subst rs; rewrite length_drop in Lrs; simpl in Lrs; lia].
    rewrite <- Lrs. eapply wp_limbsZ.
    { replace (mp_d st + Z.of_nat (length rs) - 1) with (mp_d st + Z.of_nat (pred (length rs))) by (rewrite Lrs, length_drop; lia). apply (load_limbs _ _ rs); [apply Hf|]. by rewrite <- last_lookup. }
    eapply wp_run; [done|]. apply (top_pending N s2 q st rs hi _ Hf Hlast V); [|rewrite Lrs, length_drop; lia]. intros H2l. rewrite Lrs in *.
    apply Z.div_le_lower_bound; [lia|]. etransitivity; [|exact Hge]. replace (Z.of_nat (pred (length (drop kn xs)))) with (1 + (Z.of_nat (length (drop kn xs)) - 2)) by lia.
    rewrite Z.pow_add_r, Z.pow_1_r by lia. pose proof (Z.pow_pos_nonneg B (Z.of_nat (length (drop kn xs)) - 2) ltac:(done) ltac:(lia)).
    apply Z.mul_le_mono_nonneg_r; [lia|]. pose proof (pow2_limb sh ltac:(lia)). unfold GMP_LIMB_HIGHBIT, B in *. lia.
Qed.
End quotient.

Lemma mpz_div_q_2exp_spec F FB (D : positive → Prop) N s q u z bits mode :
  holds F FB D N s → is_Some (N !! q) → N !! u = Some (Some z) → 0 ≤ bits → zlimbs z + 1 ≤ alloc_limit →
  wp never (mpz_div_q_2exp q u bits mode) (λ _ s', holds F FB D (<[q := Some (div_round mode z (2 ^ bits)).1]> N) s') s.
Proof.
  intros H Hq Hu Hbits Hlim. unfold mpz_div_q_2exp. eapply wp_size; [exact (holds_sizes _ _ H)|done|]. pose proof (Z.pow_pos_nonneg 2 bits ltac:(lia) Hbits) as H2.
  rewrite (div_round_pos mode z) by done. cbn [fst]. destruct (Z.eqb_spec (zsize z) 0) as [E0|E0].
  { apply zsize_0 in E0 as ->. replace ((if 0 <? 0 then -1 else 1) * _) with 0; [by apply set_size_zero|]. unfold rounds_away. change (Z.abs 0) with 0. rewrite Z.div_0_l, Z.mod_0_l, andb_false_r by lia. done. }
  assert (z ≠ 0) as Hz by (by rewrite <- (zsize_0 z)). cbv zeta. rewrite zsize_abs. change GMP_LIMB_BITS with 64.
  eapply wp_reads; [exact (adjust_spec N s u z bits H Hu Hz Hbits mode)|]. apply wp_bind. eapply wp_mono; [exact (quotient_limbs_spec N s u z bits H Hu Hz Hbits q Hq)|]. intros qn s1 Hp.
  apply wp_bind. eapply wp_mono; [exact (pending_finish _ _ _ _ _ Hp)|]. intros [] s2 H2'. set (a := Z.abs z / 2 ^ bits) in *. set (e := rounds_away mode z (2 ^ bits)).
  assert (0 ≤ a ≤ Z.abs z) as Ha by (unfold a; split; [apply Z.div_pos; lia|apply Z.div_le_upper_bound; nia]).
  apply wp_bind. eapply (wp_mono _ _ (λ _ s', holds F FB D (<[q := Some (a + b2l e)]> N) s')).
  { destruct e; cbn [whenM b2l]; [|eapply wp_run; [done|]; by rewrite Z.add_0_r].
    eapply wp_mono; [apply (mpz_add_ui_spec _ s2 q H2' ltac:(rewrite lookup_insert_eq; eauto) q a 1); [by rewrite lookup_insert_eq|done|]|].
    - pose proof (zlimbs_mono a z ltac:(lia)). lia.
    - intros [] s3. by rewrite insert_insert_eq. }
  intros [] s3 H3. pose proof (zsize_nonneg z). destruct (Z.ltb_spec (zsize z) 0), (Z.ltb_spec z 0); try lia; cbn [whenM].
  - eapply wp_mono; [apply (mpz_neg_spec _ s3 q q (a + b2l e) H3); rewrite lookup_insert_eq; eauto|]. intros [] s4. rewrite insert_insert_eq. by replace (-1 * (a + b2l e)) with (- (a + b2l e)) by lia.
  - eapply wp_run; [done|]. by rewrite Z.mul_1_l.
Qed.

(** ** The remainder by a power of two *)

(** The position of the highest bit of the remainder: limb [rn - 1], of which
    [hb] bits are kept. *)
Record cut (bits rn hb : Z) : Prop := Mk_cut { cut_rn : 0 < rn; cut_hb : 0 < hb ≤ 64; cut_bits : bits = 64 * (rn - 1) + hb }.

Lemma cut_of bits : 0 < bits → bits + 63 < SIZE_MOD →
  cut bits (u64 (bits + GMP_LIMB_BITS - 1) / GMP_LIMB_BITS) (64 - (u64 (bits + GMP_LIMB_BITS - 1) / GMP_LIMB_BITS * GMP_LIMB_BITS - bits)).
Proof.
  intros Hb Hs. unfold GMP_LIMB_BITS. rewrite u64_small by lia. pose proof (Z.div_mod (bits + 64 - 1) 64 ltac:(lia)). pose proof (Z.mod_pos_bound (bits + 64 - 1) 64 ltac:(lia)).
  split; lia.
Qed.

Lemma cut_mask bits rn hb : cut bits rn hb → lshr GMP_LIMB_MAX (rn * GMP_LIMB_BITS - bits) = Z.ones hb.
Proof.
  intros [Hr Hh ->]. unfold lshr, GMP_LIMB_BITS. change GMP_LIMB_MAX with (Z.ones 64). replace (rn * 64 - (64 * (rn - 1) + hb)) with (64 - hb) by lia.
  rewrite Z.shiftr_div_pow2, Z.ones_div_pow2 by lia. f_equal. lia.
Qed.

Lemma cut_pow bits rn hb : cut bits rn hb → 2 ^ bits = B ^ (rn - 1) * 2 ^ hb.
Proof. intros [Hr Hh ->]. rewrite B_pow, <- Z.pow_add_r by lia. done. Qed.

Lemma mod_low x xs k : 0 ≤ k ≤ 64 → Forall limb (x :: xs) → value (x :: xs) mod 2 ^ k = x mod 2 ^ k.
Proof.
  intros Hk Hx. destruct (Z.eq_dec k 64) as [->|]; [|by apply value_mod_low; lia]. change (2 ^ 64) with B. rewrite (value_low x xs Hx). symmetry. apply Z.mod_small. by inversion Hx.
Qed.

Lemma land_limb x k : limb x → 0 ≤ k → limb (Z.land x (Z.ones k)).
Proof.
  intros Hx Hk. rewrite Z.land_ones by done. pose proof (Z.pow_pos_nonneg 2 k ltac:(lia) Hk). unfold limb in *.
  pose proof (Z.mod_pos_bound x (2 ^ k) ltac:(lia)). pose proof (Z.mod_le x (2 ^ k) ltac:(lia) ltac:(lia)). lia.
Qed.

(** The limbs of a number below the cut. *)
Lemma cut_value bits rn hb xs x :
  cut bits rn hb → Forall limb xs → xs !! Z.to_nat (rn - 1) = Some x →
  value (take (Z.to_nat (rn - 1)) xs ++ [Z.land x (Z.ones hb)]) = value xs mod 2 ^ bits.
Proof.
  intros Hc Hx Hl. pose proof (cut_rn _ _ _ Hc). pose proof (cut_hb _ _ _ Hc). set (k := Z.to_nat (rn - 1)) in *. pose proof (lookup_lt_Some _ _ _ Hl).
  rewrite (cut_pow _ _ _ Hc). replace (rn - 1) with (Z.of_nat k) by lia. destruct (split_bits xs k hb Hx ltac:(lia) ltac:(lia)) as [_ ->].
  rewrite value_app, length_take, Nat.min_l by lia. do 2 f_equal. rewrite (drop_S xs x k) by done.
  rewrite mod_low by (lia || (rewrite <- (drop_S xs x k) by done; by apply Forall_drop)). cbn [value]. rewrite Z.land_ones by lia. lia.
Qed.

Section remainder.
Context {F : gmap Z (option Z)} {FB : gmap Z Z} {D : positive → Prop}.
Local Abbreviation holds := (holds F FB D).
Local Abbreviation filled := (filled (F:=F) (FB:=FB) (D:=D)).
Local Abbreviation pending := (pending (F:=F) (FB:=FB) (D:=D)).

Lemma filled_prefix N s r st rs ys : filled N s r st (rs ++ ys) → filled N s r st rs.
Proof. intros (H & Ho & Hl & Hle). rewrite length_app in Hle. apply limbs_at_app in Hl as [Hl _]. split_and!; (done || lia). Qed.

(** More limbs after those that are there. *)
Lemma filled_append N s r st rs ys :
  filled N s r st rs → Forall limb ys → Z.of_nat (length rs + length ys) ≤ mp_alloc st →
  filled N (set_mem s (write (zmem s) (mp_d st + Z.of_nat (length rs)) ys)) r st (rs ++ ys).
Proof.
  intros (H & Ho & Hl & Hle) Hy Hlt. pose proof (raw_own _ _ _ _ Ho) as Hor. rewrite (write_after _ _ _ _ Hl).
  assert (Z.of_nat (length (rs ++ ys)) ≤ mp_alloc st) as Hle' by (rewrite length_app; lia). split; [|split; [done|split; [|done]]].
  - pose proof (holds_write _ s r st (write (zmem s) (mp_d st) (rs ++ ys)) H Hor (touches_write _ s r st _ H Hor Hle')) as Hh. by rewrite insert_insert_eq in Hh.
  - simpl. apply limbs_at_write, Forall_app. split; [apply Hl|done].
Qed.

(** A new last limb. *)
Lemma wp_restore {A} N s r st rs x y (f : unit → M zst A) Q :
  sizes N s → filled N s r st (rs ++ [x]) → limb y →
  (∀ s', sizes N s' → filled N s' r st (rs ++ [y]) → wp never (f tt) Q s') →
  wp never (limbsZ (store (mp_d st + Z.of_nat (length rs)) y) ≫= f) Q s.
Proof.
  intros Hs Hf Hy Hk. pose proof Hf as (_ & _ & _ & Hle). rewrite length_app in Hle. simpl in Hle.
  apply (wp_store N s r st rs y _ _ Hs (filled_prefix _ _ _ _ _ _ Hf) Hy); [lia|done].
Qed.

Lemma fill_limbs_spec x m p n : writable m p n → fill_limbs x p n m = Done tt (write m p (replicate n x)).
Proof.
  revert m p. induction n as [|n IH]; intros m p Hw; [by rewrite write_nil|]. cbn [fill_limbs replicate]. apply writable_S in Hw as [Hc Hw].
  rewrite (bind_done _ _ _ _ _ (store_ok _ _ _ Hc)), IH by (by apply writable_write). by rewrite write_cons.
Qed.

Lemma value_max n : value (replicate n GMP_LIMB_MAX) = B ^ Z.of_nat n - 1.
Proof. induction n as [|n IH]; [done|]. cbn [replicate value]. rewrite IH, Nat2Z.inj_succ, Z.pow_succ_r by lia. unfold GMP_LIMB_MAX. lia. Qed.

Context (N : vars) (s : zst) (r u : positive) (z : Z) (bits rn hb : Z) (st stu : mpz_struct) (xs : list Z) (mode : mpz_div_round_mode).
Hypotheses (H : holds N s) (Hu : N !! u = Some (Some z)) (Hz : z ≠ 0) (Hc : cut bits rn hb).
Hypotheses (Ho : own N s r st) (Hal : rn ≤ mp_alloc st).
Hypotheses (Hou : own N s u stu) (Hxs : limbs_at (zmem s) (mp_d stu) xs) (Hlen : Z.of_nat (length xs) = zlimbs z) (Hval : value xs = Z.abs z) (Halu : zlimbs z ≤ mp_alloc stu).

Definition sign_of (us v : Z) : Z := if us <? 0 then - v else v.

(** What the two cases leave: limbs, their number and a size with the sign. *)
Definition remainder_limbs (p : Z * Z) (s' : zst) : Prop :=
  ∃ rs, filled N s' r st rs ∧ Z.of_nat (length rs) = p.1 ∧ sign_of p.2 (value rs) = (div_round mode z (2 ^ bits)).2.

Lemma remainder_value us v :
  (if away mode (zsize z) then us = - zsize z ∧ v = (- Z.abs z) mod 2 ^ bits else us = zsize z ∧ v = Z.abs z mod 2 ^ bits) →
  sign_of us v = (div_round mode z (2 ^ bits)).2.
Proof.
  pose proof (Z.pow_pos_nonneg 2 bits ltac:(lia) ltac:(destruct Hc; lia)) as H2. rewrite (div_round_pos mode z) by done. cbn [snd].
  unfold rounds_away, sign_of. pose proof (zsize_nonneg z). pose proof (zsize_0 z). pose proof (Z.mod_pos_bound (Z.abs z) (2 ^ bits) H2).
  destruct (away mode (zsize z)); intros [-> ->]; cbn [andb].
  - destruct (Z.eqb_spec (Z.abs z mod 2 ^ bits) 0) as [E|E]; cbn [negb].
    + rewrite Z.mod_opp_l_z by (done || lia). rewrite E. destruct (_ <? 0), (_ <? 0); done.
    + rewrite Z.mod_opp_l_nz by (done || lia). destruct (Z.ltb_spec (- zsize z) 0), (Z.ltb_spec z 0); lia.
  - destruct (Z.ltb_spec (zsize z) 0), (Z.ltb_spec z 0); lia.
Qed.

(** The limbs of [u] are those of [r] when they are the same variable. *)
Lemma filled_here ys : r = u → limbs_at (zmem s) (mp_d stu) ys → Z.of_nat (length ys) ≤ zlimbs z → filled N s r st ys.
Proof.
  intros E Hy Hl. assert (stu = st) as Es by (destruct Ho as [_ Er], Hou as [_ Eu]; rewrite E in Er; congruence). rewrite Es in Hy.
  split; [apply holds_raw; [done|apply Ho]|]. split; [done|]. split; [done|]. rewrite Es in Halu. lia.
Qed.

Lemma short_spec :
  zlimbs z < rn → wp never (r_2exp_short r u mode (zsize z) (zlimbs z) (mp_d st) rn (Z.ones hb)) remainder_limbs s.
Proof.
  intros Hlt. pose proof (zlimbs_pos z Hz) as Hp. destruct Hc as [Hrn Hhb Eb]. unfold r_2exp_short.
  assert (Z.abs z < 2 ^ bits) as Hsmall by (apply short_small; [lia|]; apply Z.div_le_lower_bound; lia).
  pose proof (own_writable N s r st (length xs) H Ho ltac:(lia)) as Hw. pose proof (own_upward N s r u st stu (Z.of_nat (length xs)) H Ho Hou ltac:(lia)) as Hup.
  destruct (away mode (zsize z)) eqn:Ea.
  - eapply wp_limbs; [exact Hou|]. destruct (mpn_neg_spec (zmem s) (mp_d st) (mp_d stu) xs ltac:(lia) Hxs Hw Hup) as (c & rs & E & Hrs & Lrs & Hc01 & V).
    pose proof (value_bounds rs Hrs) as [Hv0 _]. assert (c = 1) as -> by (destruct (Z.eq_dec c 0) as [->|]; lia). rewrite Hlen in E, V.
    eapply wp_bind, wp_mono; [apply (filled_write N s r st _ tt rs H Ho); [|done|lia]|].
    { unfold gmp_assert_nocarry. rewrite M_bind_assoc. rewrite (bind_done _ _ _ _ _ E). rewrite ret_bind. done. }
    intros _ s1 (_ & -> & Hf). set (s1 := set_mem s _) in *. set (n := Z.to_nat (rn - 1 - zlimbs z)). assert (Z.of_nat n = rn - 1 - zlimbs z) as En by (unfold n; lia).
    eapply wp_then; [apply limbsZ_run, fill_limbs_spec|].
    { rewrite <- Hlen. intros i Hi. replace (mp_d st + Z.of_nat (length xs) + Z.of_nat i) with (mp_d st + Z.of_nat (length xs + i)) by lia.
      apply (writable_write _ _ _ _ (length xs + i + 1) (own_writable N s r st (length xs + i + 1) H Ho ltac:(lia))). lia. }
    fold n. assert (Forall limb (replicate n GMP_LIMB_MAX)) as Hmax by (by apply Forall_replicate).
    pose proof (filled_append N s1 r st rs (replicate n GMP_LIMB_MAX) Hf Hmax ltac:(rewrite length_replicate; lia)) as Hf2. rewrite Lrs, Hlen in Hf2.
    replace (mp_d st + (rn - 1)) with (mp_d st + Z.of_nat (length (rs ++ replicate n GMP_LIMB_MAX))) by (rewrite length_app, length_replicate; lia).
    assert (sizes N (set_mem s1 (write (zmem s1) (mp_d st + zlimbs z) (replicate n GMP_LIMB_MAX)))) as Hs2 by (apply sizes_set_mem, sizes_set_mem; exact (holds_sizes _ _ H)).
    apply (wp_store N _ r st _ (Z.ones hb) _ _ Hs2 Hf2).
    + unfold limb. rewrite Z.ones_equiv. change B with (2 ^ 64). pose proof (Z.pow_le_mono_r 2 hb 64 ltac:(lia) ltac:(lia)). pose proof (Z.pow_pos_nonneg 2 hb ltac:(lia) ltac:(lia)). lia.
    + rewrite length_app, length_replicate. lia.
    + intros s3 _ Hf3. eapply wp_run; [done|]. eexists. split; [exact Hf3|]. cbn [fst snd]. split; [rewrite !length_app, length_replicate; simpl; lia|].
      apply remainder_value. rewrite Ea. split; [done|]. rewrite Z.mod_opp_l_nz, Z.mod_small by (rewrite ?Z.mod_small; lia).
      rewrite !value_app, value_max, V, Hval, !length_app, length_replicate, Z.ones_equiv. cbn [value]. rewrite (cut_pow bits rn hb) by (by split).
      replace (Z.of_nat (length rs + n)) with (rn - 1) by lia. replace (Z.of_nat (length rs)) with (zlimbs z) by lia.
      assert (B ^ (rn - 1) = B ^ zlimbs z * B ^ Z.of_nat n) as -> by (rewrite <- Z.pow_add_r by lia; f_equal; lia). lia.
  - assert (sign_of (zsize z) (value xs) = (div_round mode z (2 ^ bits)).2) as Es.
    { apply remainder_value. rewrite Ea. split; [done|]. by rewrite Hval, Z.mod_small by lia. }
    destruct (decide (r = u)) as [Hru|Hne].
    + rewrite bool_decide_true by done. cbn [negb whenM]. eapply wp_then; [done|]. eapply wp_run; [done|]. exists xs. cbn [fst snd].
      split; [|done]. apply (filled_here xs Hru Hxs). lia.
    + rewrite bool_decide_false by done. cbn [negb whenM]. rewrite wp_bind_assoc. eapply wp_limbs; [exact Hou|]. rewrite <- Hlen.
      eapply wp_bind, wp_mono; [apply (filled_write N s r st _ tt xs H Ho (mpn_copyi_spec _ _ _ _ Hxs Hw Hup)); [apply Hxs|lia]|].
      intros _ s1 (_ & _ & Hf). eapply wp_run; [done|]. exists xs. by rewrite Hlen.
Qed.

(** The limbs below the cut are copied, or are there already. *)
Lemma low_limbs_spec {A} (f : unit → M zst A) Q :
  let k := Z.to_nat (rn - 1) in rn ≤ zlimbs z →
  (∀ s1, sizes N s1 → own N s1 u stu → filled N s1 r st (take k xs) → (∀ x, xs !! k = Some x → load (mp_d stu + Z.of_nat k) (zmem s1) = Done x (zmem s1)) → wp never (f tt) Q s1) →
  wp never ((whenM (negb (bool_decide (r = u))) (up ← limbs_of u; limbsZ (mpn_copyi (mp_d st) up (rn - 1)))) ≫= f) Q s.
Proof.
  intros k Hle Hf. destruct Hc as [Hrn _ _]. destruct (limbs_at_split _ _ k _ Hxs ltac:(lia)) as [Hlo Hhi]. assert (length (take k xs) = k) as Lk by (rewrite length_take; lia).
  destruct (decide (r = u)) as [Hru|Hne].
  - rewrite bool_decide_true by done. cbn [negb whenM]. eapply wp_then; [done|]. apply Hf; [exact (holds_sizes _ _ H)|done|apply (filled_here _ Hru Hlo); lia|].
    intros x Hx. by apply (load_limbs _ _ xs).
  - rewrite bool_decide_false by done. cbn [negb whenM]. rewrite wp_bind_assoc. eapply wp_limbs; [exact Hou|]. replace (rn - 1) with (Z.of_nat (length (take k xs))) by lia.
    eapply wp_bind, wp_mono; [apply (filled_write N s r st _ tt (take k xs) H Ho)|].
    + apply mpn_copyi_spec; [done|apply (own_writable N s r st _ H Ho); lia|apply (own_upward N s r u st stu _ H Ho Hou); lia].
    + apply Hlo.
    + lia.
    + intros [] s1 (_ & -> & Hf1). apply Hf; [apply sizes_set_mem; exact (holds_sizes _ _ H)|done|done|]. intros x Hx. apply (load_limbs _ _ xs); [|done].
      simpl. apply limbs_at_frame; [done|]. apply (own_apart N s r u st stu _ _ H Hne Ho Hou); lia.
Qed.

Lemma long_spec :
  rn ≤ zlimbs z → wp never (r_2exp_long r u mode (zsize z) (mp_d st) rn (Z.ones hb)) remainder_limbs s.
Proof.
  intros Hle. unfold r_2exp_long. apply low_limbs_spec; [done|]. intros s1 Hs1 Hou1 Hf1 Hload. set (k := Z.to_nat (rn - 1)) in *. pose proof Hc as [Hrn Hhb Eb].
  assert (rn - 1 = Z.of_nat k) as Ek by (unfold k; lia). assert (length (take k xs) = k) as Lk by (rewrite length_take; lia).
  destruct (lookup_lt_is_Some_2 xs k ltac:(lia)) as [x Hx]. assert (limb x) as Hlx by (eapply Forall_lookup_1; [apply Hxs|done]).
  eapply wp_limbs; [exact Hou1|]. eapply wp_limbsZ; [rewrite Ek; by apply Hload|]. replace (mp_d st + (rn - 1)) with (mp_d st + Z.of_nat (length (take k xs))) by lia.
  apply (wp_store N s1 r st _ _ _ _ Hs1 Hf1); [apply land_limb; (done || lia)|lia|]. intros s2 Hs2 Hf2.
  pose proof (cut_value bits rn hb xs x Hc (proj1 Hxs) Hx) as V. fold k in V. rewrite Hval in V. set (ys := take k xs ++ [Z.land x (Z.ones hb)]) in *.
  assert (length ys = S k) as Ly by (unfold ys; rewrite length_app; simpl; lia).
  destruct (away mode (zsize z)) eqn:Ea.
  - pose proof Hf2 as (H2 & Ho2 & Hl2 & Hle2). pose proof (raw_own _ _ _ _ Ho2) as Hor2.
    pose proof (mpn_neg_spec (zmem s2) (mp_d st) (mp_d st) ys ltac:(lia) Hl2 (writable_limbs _ _ _ Hl2) ltac:(left; lia)) as Hneg. replace (Z.of_nat (length ys)) with rn in Hneg by lia.
    eapply wp_bind, wp_mono; [apply (filled_computes _ s2 r st _ _ _ H2 Hor2 Hneg); lia|]. intros c s3 (rs & -> & Hf3 & Lrs & Hc01 & Vr).
    set (s3 := set_mem s2 _) in *. assert (filled N s3 r st rs) as Hf3' by (destruct Hf3 as (A1 & A2 & A3 & A4); rewrite insert_insert_eq in A1; done).
    pose proof Hf3' as (_ & _ & Hl3 & _). destruct (last_split rs k ltac:(lia)) as (lo & y & -> & Llo). rewrite Lk.
    eapply wp_limbsZ; [apply (load_limbs _ _ _ _ y Hl3); rewrite <- Llo; by apply list_lookup_middle|].
    assert (limb y) as Hy by (apply proj1, Forall_app in Hl3 as [_ Hl3]; by inversion Hl3). rewrite <- Llo.
    apply (wp_restore N s3 r st lo y _ _ _ ltac:(by apply sizes_set_mem) Hf3'); [apply land_limb; (done || lia)|]. intros s4 _ Hf4. eapply wp_run; [done|].
    eexists. split; [exact Hf4|]. cbn [fst snd]. split; [rewrite length_app; simpl; lia|]. apply remainder_value. rewrite Ea. split; [done|].
    pose proof (cut_value bits rn hb (lo ++ [y]) y Hc (proj1 Hl3)) as V3. fold k in V3. rewrite <- Llo, take_app_length in V3. rewrite V3 by (by apply list_lookup_middle).
    rewrite Vr, V. pose proof (cut_pow _ _ _ Hc) as Ep. assert (B ^ rn = 2 ^ bits * 2 ^ (64 - hb)) as ->.
    { rewrite B_pow, <- Z.pow_add_r by lia. f_equal. lia. }
    replace (2 ^ bits * 2 ^ (64 - hb) * c - Z.abs z mod 2 ^ bits) with (- (Z.abs z mod 2 ^ bits) + (2 ^ (64 - hb) * c) * 2 ^ bits) by lia. pose proof (Z.pow_pos_nonneg 2 bits ltac:(lia) ltac:(lia)).
    rewrite Z.mod_add by lia. rewrite <- (Z.sub_0_l (Z.abs z mod _)), Zminus_mod_idemp_r. done.
  - eapply wp_run; [done|]. exists ys. cbn [fst snd]. split; [done|]. split; [lia|]. apply remainder_value. by rewrite Ea.
Qed.
End remainder.

Lemma mpz_div_r_2exp_spec F FB (D : positive → Prop) N s r u z bits mode :
  holds F FB D N s → is_Some (N !! r) → N !! u = Some (Some z) → 0 ≤ bits ≤ 64 * alloc_limit →
  wp never (mpz_div_r_2exp r u bits mode) (λ _ s', holds F FB D (<[r := Some (div_round mode z (2 ^ bits)).2]> N) s') s.
Proof.
  intros H Hr Hu Hbits. unfold mpz_div_r_2exp. eapply wp_size; [exact (holds_sizes _ _ H)|done|].
  destruct (decide (z = 0 ∨ bits = 0)) as [H0|H0].
  { replace ((zsize z =? 0) || (bits =? 0)) with true; [|symmetry; apply orb_true_iff; rewrite !Z.eqb_eq, zsize_0; tauto].
    replace (div_round mode z (2 ^ bits)).2 with 0; [by apply set_size_zero|]. rewrite div_round_pos by (apply Z.pow_pos_nonneg; lia). unfold rounds_away. cbn [snd].
    assert (Z.abs z mod 2 ^ bits = 0) as -> by (destruct H0 as [->| ->]; [by apply Z.mod_0_l, Z.pow_nonzero; lia|by rewrite Z.pow_0_r, Z.mod_1_r]).
    cbn [Z.eqb negb]. rewrite andb_false_r. by destruct (z <? 0). }
  apply Decidable.not_or in H0 as [Hz Hb]. replace ((zsize z =? 0) || (bits =? 0)) with false; [|symmetry; apply orb_false_iff; rewrite !Z.eqb_neq, zsize_0; tauto].
  pose proof (cut_of bits ltac:(lia) ltac:(unfold SIZE_MOD, alloc_limit in *; lia)) as Hc. cbv zeta. rewrite (cut_mask _ _ _ Hc). set (rn := u64 _ / _) in *. pose proof (cut_rn _ _ _ Hc) as Hrn.
  assert (rn ≤ alloc_limit) as Hlim by (destruct Hc; lia). eapply wp_then; [unfold lift, assertion; by rewrite (proj2 (Z.ltb_lt 0 rn)) by lia|].
  apply (wp_realloc N s r _ _ _ H Hr); [done|]. intros s1 st H1 Ho Hal. destruct (holds_read N s1 u z H1 Hu) as (stu & xs & Hou & Hxs & Hn & Hlen & _ & Hval & Halu).
  rewrite zsize_abs. apply wp_bind. eapply (wp_mono _ _ (remainder_limbs (F:=F) (FB:=FB) (D:=D) N r z bits st mode)).
  { destruct (Z.ltb_spec (zlimbs z) rn); [by apply (short_spec N s1 r u z bits rn _ st stu xs mode)|by apply (long_spec N s1 r u z bits rn _ st stu xs mode)]. }
  intros [rn' us] s2 (rs & Hf & Lrs & Es). cbn [fst snd] in *. rewrite <- Lrs, <- Es. apply wp_bind. eapply wp_mono; [exact (wp_normalized N s2 r st rs Hf)|].
  intros n s3 [-> Hp]. exact (finish_signed N s2 r n _ (us <? 0) Hp).
Qed.

(** ** Division by a machine word *)

Section word.
Context {F : gmap Z (option Z)} {FB : gmap Z Z} {D : positive → Prop}.
Local Abbreviation holds := (holds F FB D).
Local Abbreviation filled := (filled (F:=F) (FB:=FB) (D:=D)).
Local Abbreviation pending := (pending (F:=F) (FB:=FB) (D:=D)).

Lemma holds_temp N s m' : holds N s → after_temp (zmem s) m' → holds N (set_mem s m').
Proof.
  intros [[Hwf Hnn] Hf Hv Hs Ha Hb Hbl Hl Hd] Ht. pose proof (after_temp_wf _ _ Ht Hwf) as Hwf'. destruct Ht as (k & Hk & ->). split; try done. split; [done|]. simpl. lia.
Qed.

Section divide.
Context (N : vars) (n : positive) (z d : Z) (mode : mpz_div_round_mode).
Hypotheses (Hn : N !! n = Some (Some z)) (Hz : z ≠ 0) (Hd : 0 < d < B).
Let e := rounds_away mode z d.

(** The condition of the correction. *)
Lemma round_test :
  (0 <? Z.abs z mod d) && (is_floor mode && (zsize z <? 0) || is_ceil mode && (0 <=? zsize z)) = e.
Proof.
  unfold e, rounds_away, away. pose proof (zsize_0 z). pose proof (Z.mod_pos_bound (Z.abs z) d ltac:(lia)).
  destruct (Z.ltb_spec 0 (Z.abs z mod d)), (Z.eqb_spec (Z.abs z mod d) 0), (Z.ltb_spec (zsize z) 0), (Z.leb_spec 0 (zsize z)), (Z.ltb_spec 0 (zsize z)); try lia; by destruct mode.
Qed.

(** The variable of the quotient and its struct, with room for the limbs. *)
Definition quotient_room (q : option positive) (st : option mpz_struct) (s : zst) : Prop :=
  match q, st with Some p, Some st => own N s p st ∧ zlimbs z ≤ mp_alloc st | None, None => True | _, _ => False end.

(** What is left of the quotient: its limbs in the block of the variable. *)
Definition quotient_limbs (q : option positive) (st : option mpz_struct) (v : Z) (s : zst) : Prop :=
  match q, st with
  | Some p, Some st => ∃ qs, filled N s p st qs ∧ Z.of_nat (length qs) = zlimbs z ∧ value qs = v
  | None, None => holds N s
  | _, _ => False
  end.

Lemma divide_word_at {A} q st s (f : Z → M zst A) Q :
  holds N s → quotient_room q st s →
  (∀ s', quotient_limbs q st (Z.abs z / d) s' → wp never (f (Z.abs z mod d)) Q s') →
  wp never (np ← limbs_of n; rl ← limbsZ (mpn_div_qr_1 (mp_d <$> st) np (zlimbs z) d); f rl) Q s.
Proof.
  intros H Hst Hf. pose proof (zlimbs_pos z Hz) as Hp. pose proof (holds_limit _ _ _ _ H Hn) as Hlim.
  destruct (holds_read N s n z H Hn) as (stn & xs & Hon & Hxs & _ & Hlen & _ & Hval & Haln). eapply wp_limbs; [exact Hon|]. unfold quotient_room in Hst. rewrite <- Hlen in *.
  destruct (mpn_div_qr_1_spec (zmem s) (mp_d <$> st) (mp_d stn) xs d) as (rl & qs & m' & E & Ht & Hqs & Lqs & V & Hrl);
    [apply (h_wf _ _ _ _ _ H)|done|lia|lia|done| | | |].
  - destruct q as [p|], st as [st|]; try done; simpl. by apply (own_writable N s p st _ H); apply Hst.
  - destruct q as [p|], st as [st|]; try done; simpl. rewrite <- (Z.add_0_r (mp_d st)). apply (own_downward N s p n st stn 0 _ H); (done || apply Hst || (destruct Hst; lia)).
  - destruct q as [p|], st as [st|]; try done; simpl. apply (own_upward N s p n st stn _ H); (done || apply Hst || lia).
  - eapply wp_then; [exact (limbsZ_run _ _ _ _ E)|]. rewrite Hval in V.
    replace rl with (Z.abs z mod d) by (symmetry; apply (Z.mod_unique_pos _ _ (value qs)); lia). apply Hf. unfold quotient_limbs.
    destruct q as [p|], st as [st|]; try done; simpl in *; [|by apply holds_temp]. destruct Hst as [Ho Hal]. exists qs. split.
    + split; [apply (holds_write N s p st _ H Ho); eapply touches_temp; [apply (touches_write N s p st qs H Ho); lia|exact Ht]|]. split; [done|].
      split; [|lia]. destruct Ht as (k & _ & ->). by apply limbs_at_write.
    + split; [lia|]. apply (Z.div_unique_pos _ _ _ rl); lia.
Qed.

Lemma divide_word {A} q s (f : option Z → Z → M zst A) Q :
  holds N s → opt_in q N →
  (∀ st s', quotient_limbs q st (Z.abs z / d) s' → wp never (f (mp_d <$> st) (Z.abs z mod d)) Q s') →
  wp never (qp ← match q with Some q => p ← MPZ_REALLOC q (zlimbs z); mret (Some p) | None => mret None end;
            np ← limbs_of n; rl ← limbsZ (mpn_div_qr_1 qp np (zlimbs z) d); f qp rl) Q s.
Proof.
  intros H Hq Hf. pose proof (holds_limit _ _ _ _ H Hn) as Hlim. destruct q as [p|]; simpl in *.
  - rewrite wp_bind_assoc. apply (wp_realloc N s p _ _ _ H Hq Hlim). intros s1 st H1 Ho Hal. eapply wp_reads; [reflexivity|].
    apply (divide_word_at (Some p) (Some st) s1); [done|done|]. intros s' Hs'. by apply (Hf (Some st)).
  - eapply wp_then; [reflexivity|]. apply (divide_word_at None None s); [done|done|]. intros s' Hs'. by apply (Hf None).
Qed.

(** The correction for the rounding mode. *)
Lemma word_round_spec q st s :
  quotient_limbs q st (Z.abs z / d) s →
  wp never (qr_ui_round (mp_d <$> st) (zlimbs z) d mode (zsize z) (Z.abs z mod d))
    (λ p s', p = (Z.abs (div_round mode z d).2, Z.sgn (div_round mode z d).2) ∧ quotient_limbs q st (Z.abs z / d + b2l e) s') s.
Proof.
  intros Hs. unfold qr_ui_round. rewrite round_test. pose proof (Z.mod_pos_bound (Z.abs z) d ltac:(lia)) as Hm. pose proof (zsize_nonneg z) as Hsz. pose proof (zlimbs_pos z Hz) as Hpz.
  rewrite (div_round_pos mode z d) by lia. fold e. cbn [snd]. assert (e = true → Z.abs z mod d ≠ 0) as He.
  { unfold e, rounds_away. intros [_ E]%andb_prop. apply negb_true_iff, Z.eqb_neq in E. done. }
  assert (∀ w, 0 ≤ w → (if zsize z <? 0 then - b2l (0 <? w) else b2l (0 <? w)) = Z.sgn ((if z <? 0 then -1 else 1) * w) ∧ w = Z.abs ((if z <? 0 then -1 else 1) * w)) as Hsg.
  { intros w Hw. destruct (Z.ltb_spec (zsize z) 0), (Z.ltb_spec z 0); try lia; destruct (Z.ltb_spec 0 w); simpl; lia. }
  destruct e; cbn [b2l].
  - specialize (He eq_refl). assert (lsub d (Z.abs z mod d) = d - Z.abs z mod d) as -> by limb_lia.
    assert ((d - Z.abs z mod d, - (if zsize z <? 0 then - b2l (0 <? Z.abs z mod d) else b2l (0 <? Z.abs z mod d))) =
      (Z.abs ((if z <? 0 then -1 else 1) * (Z.abs z mod d - d)), Z.sgn ((if z <? 0 then -1 else 1) * (Z.abs z mod d - d)))) as ->.
    { rewrite (proj2 (Z.ltb_lt 0 (Z.abs z mod d))) by lia. destruct (Z.ltb_spec (zsize z) 0), (Z.ltb_spec z 0); try lia; simpl; f_equal; lia. }
    destruct q as [p|], st as [st|]; simpl in Hs |- *; try done. destruct Hs as (qs & Hf & Lqs & V). pose proof Hf as (H & Ho & Hl & Hle). pose proof (raw_own _ _ _ _ Ho) as Hor.
    destruct (mpn_add_1_spec (zmem s) (mp_d st) (mp_d st) qs 1 ltac:(done) ltac:(lia) Hl (writable_limbs _ _ _ Hl) ltac:(left; lia)) as (c & rs & E & Hrs & Lrs & Hc & Vr).
    assert (c = 0) as ->.
    { destruct (Z.eq_dec c 0) as [|Hne]; [done|]. exfalso. pose proof (value_bounds rs Hrs) as [Hv0 _]. rewrite Lqs in Vr. pose proof (abs_lt z).
      assert (Z.abs z / d < Z.abs z) by (apply Z.div_lt; [lia|]; destruct (Z.eq_dec d 1) as [->|]; [rewrite Z.mod_1_r in He; done|lia]). unfold limb in Hc. nia. }
    rewrite Lqs in E, Vr. apply wp_bind. eapply wp_mono; [apply (filled_write _ s p st _ tt rs H Hor); [|done|lia]|].
    { unfold gmp_assert_nocarry. rewrite (bind_done _ _ _ _ _ E). done. }
    intros _ s1 (_ & _ & Hf1). eapply wp_run; [done|]. split; [done|]. exists rs. split; [|split; [lia|lia]].
    destruct Hf1 as (A1 & A2 & A3 & A4). rewrite insert_insert_eq in A1. split; [done|]. split; [|done]. eapply own_raw; [exact A2|apply Ho].
  - destruct (Hsg (Z.abs z mod d) ltac:(lia)) as [E1 E2]. eapply wp_run; [done|]. rewrite Z.add_0_r. split; [|done]. f_equal; done.
Qed.

(** The remainder as a variable. *)
Lemma word_remainder_spec F' FB' N' s p v :
  MpzRep.holds F' FB' D N' s → is_Some (N' !! p) → Z.abs v < B →
  wp never (x ← MPZ_REALLOC p 1; _ ← limbsZ (store x (Z.abs v)); set_size p (Z.sgn v)) (λ _ s', MpzRep.holds F' FB' D (<[p := Some v]> N') s') s.
Proof.
  intros H Hp Hv. apply (wp_realloc N' s p _ _ _ H Hp); [unfold alloc_limit; lia|]. intros s1 st H1 Ho Hal.
  apply wp_bind. eapply wp_mono; [apply (store_one N' s1 p st (Z.abs v) H1 Ho Hal); unfold limb; lia|]. intros [] s2 [_ Hf].
  replace (Some v) with (Some (Z.sgn v * Z.abs v)) by (by rewrite sgn_mul_abs). apply pending_finish. pose proof (one_pending N' s2 p st (Z.abs v) _ Hf ltac:(lia) eq_refl) as Hpe.
  destruct (Z.sgn_spec v) as [[? ->]|[[<- ->]|[? ->]]]; cbn [Z.abs] in *.
  - rewrite (proj2 (Z.ltb_lt 0 (Z.abs v))) in Hpe by lia. by rewrite Z.mul_1_l.
  - by rewrite Z.mul_0_l.
  - rewrite (proj2 (Z.ltb_lt 0 (Z.abs v))) in Hpe by lia. apply pending_opp in Hpe. by replace (-1 * Z.abs v) with (- Z.abs v) by lia.
Qed.

(** The limbs of the quotient make a number; the highest may be 0. *)
Lemma word_quotient_spec N' s p st qs v :
  filled N' s p st qs → Z.of_nat (length qs) = zlimbs z → value qs = v → Z.abs z / d ≤ v →
  wp never (x ← limbsZ (load (mp_d st + (zlimbs z - 1)));
            ok ← (if zlimbs z - b2l (x =? 0) =? 0 then mret true else y ← limbsZ (load (mp_d st + (zlimbs z - b2l (x =? 0) - 1))); mret (0 <? y));
            _ ← lift (assertion ok);
            set_size p (if zsize z <? 0 then - (zlimbs z - b2l (x =? 0)) else zlimbs z - b2l (x =? 0)))
    (λ _ s', holds (<[p := Some ((if z <? 0 then -1 else 1) * v)]> N') s') s.
Proof.
  intros Hf Lqs V Hge. pose proof (zlimbs_pos z Hz) as Hpz. destruct (last qs) as [hi|] eqn:El; [|apply last_None in El; subst qs; simpl in Lqs; lia]. rewrite <- Lqs.
  eapply wp_limbsZ.
  { replace (mp_d st + (Z.of_nat (length qs) - 1)) with (mp_d st + Z.of_nat (pred (length qs))) by lia. apply (load_limbs _ _ qs); [apply Hf|]. by rewrite <- last_lookup. }
  assert (pending N' s p (Z.of_nat (length qs) - b2l (hi =? 0)) v) as Hp.
  { apply (top_pending N' s p st qs hi v Hf El V); [|lia]. intros Hl2. etransitivity; [|exact Hge]. apply Z.div_le_lower_bound; [lia|]. pose proof (abs_ge z Hz) as Hg. rewrite <- Lqs in Hg.
    replace (Z.of_nat (length qs) - 1) with (1 + (Z.of_nat (length qs) - 2)) in Hg by lia. rewrite Z.pow_add_r, Z.pow_1_r in Hg by lia.
    pose proof (Z.pow_pos_nonneg B (Z.of_nat (length qs) - 2) ltac:(done) ltac:(lia)). nia. }
  set (qn := Z.of_nat (length qs) - b2l (hi =? 0)) in *. assert (0 ≤ qn) as Hqn by (unfold qn; destruct (hi =? 0); simpl; lia).
  assert (wp never (if qn =? 0 then mret true else y ← limbsZ (load (mp_d st + (qn - 1))); mret (0 <? y)) (λ b s', b = true ∧ s' = s) s) as Hok.
  { destruct (Z.eqb_spec qn 0) as [|Hne]; [by eapply wp_run|]. destruct Hp as (st' & rs & (_ & Ho' & Hl' & _) & Hle & Hnm & _). destruct Hf as (_ & Ho & _).
    assert (st' = st) as -> by (destruct Ho as [_ ?], Ho' as [_ ?]; congruence). rewrite Z.abs_eq in Hle, Hnm by done.
    destruct (lookup_lt_is_Some_2 rs (Z.to_nat (qn - 1)) ltac:(lia)) as [y Hy]. eapply wp_limbsZ; [replace (qn - 1) with (Z.of_nat (Z.to_nat (qn - 1))) by lia; by apply (load_limbs _ _ rs)|].
    eapply wp_run; [done|]. split; [|done]. apply Z.ltb_lt. pose proof (Forall_lookup_1 _ _ _ _ (proj1 Hl') Hy) as [? _]. destruct (Z.eq_dec y 0) as [->|]; [|lia]. exfalso. apply Hnm.
    rewrite last_lookup, length_take, Nat.min_l by lia. rewrite lookup_take_lt by lia. by replace (pred (Z.to_nat qn)) with (Z.to_nat (qn - 1)) by lia. }
  apply wp_bind. eapply wp_mono; [exact Hok|]. intros b s' [-> ->]. eapply wp_then; [reflexivity|].
  pose proof (zsize_nonneg z). replace ((if z <? 0 then -1 else 1) * v) with (if zsize z <? 0 then - v else v) by (destruct (Z.ltb_spec (zsize z) 0), (Z.ltb_spec z 0); lia).
  by apply finish_signed.
Qed.

(** The results: the remainder first, while the limbs of the quotient wait. *)
Lemma word_results_spec q r s st rl :
  opt_in q N → opt_in r N → (q = r → q = None) → rl = Z.abs (div_round mode z d).2 → quotient_limbs q st (Z.abs z / d + b2l e) s →
  wp never (_ ← if_ptr r (λ r, p ← MPZ_REALLOC r 1; _ ← limbsZ (store p rl); set_size r (Z.sgn (div_round mode z d).2));
            _ ← match q, mp_d <$> st with
                | Some q, Some qp =>
                    x ← limbsZ (load (qp + (zlimbs z - 1)));
                    let qn := zlimbs z - b2l (x =? 0) in
                    ok ← (if qn =? 0 then mret true else x ← limbsZ (load (qp + (qn - 1))); mret (0 <? x));
                    _ ← lift (assertion ok);
                    set_size q (if zsize z <? 0 then - qn else qn)
                | _, _ => mret tt
                end;
            mret rl)
    (λ v s', v = rl ∧ holds (opt_set q (div_round mode z d).1 (opt_set r (div_round mode z d).2 N)) s') s.
Proof.
  intros Hq Hr Hqr -> Hs. assert (Z.abs (div_round mode z d).2 < B) as Hrb.
  { rewrite (div_round_pos mode z d) by lia. cbn [snd]. pose proof (Z.mod_pos_bound (Z.abs z) d ltac:(lia)). destruct (z <? 0), (rounds_away mode z d); lia. }
  destruct q as [p|], st as [st|]; simpl in Hs; try done; cbn [fmap option_fmap option_map].
  - destruct Hs as (qs & Hf & Lqs & V). pose proof (zlimbs_pos z Hz) as Hpz. pose proof Hf as (_ & _ & _ & Hle). assert (0 < mp_alloc st) as Hal by lia.
    apply wp_bind. eapply (wp_mono _ _ (λ _ s', filled (opt_set r (div_round mode z d).2 N) s' p st qs)).
    + destruct r as [r0|]; simpl; [|by eapply wp_run]. assert (p ≠ r0) as Hne by (intros ->; by specialize (Hqr eq_refl)).
      eapply (wp_framed F FB D N s p st qs _ _ (λ _ N', N' = <[r0 := Some (div_round mode z d).2]> (delete p N))); [done|done| | |].
      * apply spares_bind; [by apply spares_realloc|]. intros a. apply spares_bind; [apply spares_limbs|]. intros _. by apply spares_set_size.
      * intros F' FB' H'. eapply wp_mono; [apply (word_remainder_spec F' FB' (delete p N) s r0 _ H'); [by rewrite lookup_delete_ne|done]|].
        intros [] s1 H1. eexists. split; [exact H1|]. split; [by rewrite lookup_insert_ne, lookup_delete_eq by done|done].
      * intros [] s1 N' -> H1 Ho1 Hl1. rewrite insert_insert_ne, insert_delete_eq, insert_insert_ne in H1 by done. split; [done|].
        split; [destruct Ho1 as [_ ?]; split; [by rewrite lookup_insert_ne|done]|]. split; [done|lia].
    + intros [] s1 Hf1. apply wp_bind. eapply wp_mono; [apply (word_quotient_spec _ s1 p st qs _ Hf1 Lqs V); destruct e; simpl; lia|].
      intros [] s2 H2. eapply wp_run; [done|]. split; [done|]. simpl. replace (div_round mode z d).1 with ((if z <? 0 then -1 else 1) * (Z.abs z / d + b2l e)); [done|].
      by rewrite (div_round_pos mode z d) by lia.
  - apply wp_bind. eapply (wp_mono _ _ (λ _ s', holds (opt_set r (div_round mode z d).2 N) s')).
    + destruct r as [r0|]; simpl; [|by eapply wp_run]. by apply word_remainder_spec.
    + intros [] s1 H1. by eapply wp_then; [reflexivity|]; eapply wp_run.
Qed.
End divide.

Lemma mpz_div_qr_ui_spec N s q r n z d mode :
  holds N s → opt_in q N → opt_in r N → (q = r → q = None) → N !! n = Some (Some z) → 0 < d < B →
  wp never (mpz_div_qr_ui q r n d mode) (λ v s', v = Z.abs (div_round mode z d).2 ∧
    holds (opt_set q (div_round mode z d).1 (opt_set r (div_round mode z d).2 N)) s') s.
Proof.
  intros H Hq Hr Hqr Hn Hd. unfold mpz_div_qr_ui. eapply wp_size; [exact (holds_sizes _ _ H)|done|]. destruct (Z.eqb_spec (zsize z) 0) as [E0|E0].
  { apply zsize_0 in E0 as ->. replace (div_round mode 0 d) with (0, 0) by (by destruct mode, d). cbn [fst snd].
    apply wp_bind. eapply wp_mono; [apply (wp_if_ptr N s q _ 0 H); intros p ->; by apply set_size_zero|]. intros [] s1 H1.
    apply wp_bind. eapply wp_mono; [apply (wp_if_ptr _ s1 r _ 0 H1); intros p ->; apply (set_size_zero _ _ _ H1); by apply (opt_in_set (Some p))|]. intros [] s2 H2.
    eapply wp_run; [done|]. split; [done|]. by rewrite opt_set_comm. }
  assert (z ≠ 0) as Hz by (by rewrite <- (zsize_0 z)). cbv zeta. rewrite zsize_abs. apply (divide_word N n z d Hn Hz Hd q s); [done|done|]. intros st s1 Hs1.
  pose proof (Z.mod_pos_bound (Z.abs z) d ltac:(lia)). eapply wp_then; [unfold lift, assertion; by rewrite (proj2 (Z.ltb_lt _ d)) by lia|].
  apply wp_bind. eapply wp_mono; [by apply (word_round_spec N z d mode Hz Hd q st s1 Hs1)|]. intros p s2 [-> Hs2].
  by apply (word_results_spec N z d mode Hz Hd q r s2 st _ Hq Hr Hqr).
Qed.
End word.

(** ** Exact division and divisibility *)

Section exact.
Context {F : gmap Z (option Z)} {FB : gmap Z Z} {D : positive → Prop}.
Local Abbreviation holds := (holds F FB D).

Lemma rem_zero x y : y ≠ 0 → (Z.rem x y =? 0) = (x mod y =? 0).
Proof.
  intros Hy. pose proof (Z.rem_divide x y Hy) as H1. pose proof (Z.mod_divide x y Hy) as H2.
  destruct (Z.eqb_spec (Z.rem x y) 0), (Z.eqb_spec (x mod y) 0); tauto.
Qed.

Lemma quot_exact x y : y ≠ 0 → (y | x) → Z.quot x y = x / y.
Proof. intros Hy [k ->]. by rewrite Z.quot_mul, Z.div_mul. Qed.

Section operands.
Context (N : vars) (s : zst) (n : positive) (x : Z).
Hypotheses (H : holds N s) (Hn : N !! n = Some (Some x)).

Lemma mpz_divexact_spec q d y :
  is_Some (N !! q) → N !! d = Some (Some y) → y ≠ 0 → (y | x) → Z.max (zlimbs x) (zlimbs y) + 1 ≤ alloc_limit →
  wp never (mpz_divexact q n d) (λ _ s', holds (<[q := Some (x / y)]> N) s') s.
Proof.
  intros Hq Hd Hy Hdiv Hlim. unfold mpz_divexact, assert_zero. rewrite wp_bind_assoc. apply wp_bind.
  eapply wp_mono; [by apply (mpz_div_qr_spec F FB D N s (Some q) None n d x y GMP_DIV_TRUNC)|]. intros b s1 [-> H1].
  replace (Z.rem x y) with 0 by (symmetry; by apply Z.rem_divide). eapply wp_then; [reflexivity|]. eapply wp_run; [reflexivity|]. simpl in H1. by rewrite quot_exact in H1.
Qed.

Lemma mpz_divisible_p_spec d y :
  N !! d = Some (Some y) → y ≠ 0 → Z.max (zlimbs x) (zlimbs y) + 1 ≤ alloc_limit →
  wp never (mpz_divisible_p n d) (λ b s', b = (x mod y =? 0) ∧ holds N s') s.
Proof.
  intros Hd Hy Hlim. unfold mpz_divisible_p. apply wp_bind.
  eapply wp_mono; [by apply (mpz_div_qr_spec F FB D N s None None n d x y GMP_DIV_TRUNC)|]. intros b s1 [-> H1].
  eapply wp_run; [reflexivity|]. by rewrite rem_zero, negb_involutive.
Qed.

Lemma mpz_divexact_ui_spec q d :
  is_Some (N !! q) → 0 < d < B → (d | x) → wp never (mpz_divexact_ui q n d) (λ _ s', holds (<[q := Some (x / d)]> N) s') s.
Proof.
  intros Hq Hd Hdiv. unfold mpz_divexact_ui, assert_zero. apply wp_bind.
  eapply wp_mono; [by apply (mpz_div_qr_ui_spec N s (Some q) None n x d GMP_DIV_TRUNC H)|]. intros v s1 [-> H1]. cbn [div_round snd fst opt_set] in *.
  rewrite quot_exact in H1 by (done || lia). replace (Z.rem x d) with 0 by (symmetry; apply Z.rem_divide; (done || lia)). by eapply wp_run.
Qed.

Lemma mpz_tdiv_ui_spec d :
  0 < d < B → wp never (mpz_tdiv_ui n d) (λ v s', v = Z.abs x mod d ∧ holds N s') s.
Proof.
  intros Hd. eapply wp_mono; [by apply (mpz_div_qr_ui_spec N s None None n x d GMP_DIV_TRUNC H)|]. intros v s1 [-> H1]. split; [|done].
  rewrite (div_round_pos _ x d) by lia. unfold rounds_away, away. cbn [is_ceil is_floor]. replace (if 0 <? zsize x then false else false) with false by (by destruct (0 <? zsize x)).
  cbn [snd andb]. pose proof (Z.mod_pos_bound (Z.abs x) d ltac:(lia)). destruct (x <? 0); lia.
Qed.
End operands.
End exact.

Lemma mpz_congruent_p_spec F FB (D : positive → Prop) N s a b m x y z :
  holds F FB D N s → N !! a = Some (Some x) → N !! b = Some (Some y) → N !! m = Some (Some z) →
  Z.max (zlimbs x) (Z.max (zlimbs y) (zlimbs z)) + 2 ≤ alloc_limit → zlimbs (x - y) + 1 ≤ alloc_limit →
  wp never (mpz_congruent_p a b m) (λ c s', c = ((x - y) mod z =? 0) ∧ holds F FB D N s') s.
Proof.
  intros H Ha Hb Hm Hlim Hl2. unfold mpz_congruent_p. eapply wp_reads; [by apply (mpz_sgn_spec N s H)|].
  destruct (Z.eq_dec z 0) as [->|Hz].
  { cbn [cmp_sign Z.compare Z.eqb]. eapply wp_reads; [by apply (mpz_cmp_spec N s H)|]. eapply wp_run; [reflexivity|]. split; [|done].
    rewrite Z.mod_0_r. destruct (cmp_sign_spec x y) as [[-> ?]|[[-> ?]|[-> ?]]], (Z.eqb_spec (x - y) 0); (done || lia). }
  rewrite (proj2 (Z.eqb_neq (cmp_sign z 0) 0)) by (destruct (cmp_sign_spec z 0) as [[-> ?]|[[-> ?]|[-> ?]]]; lia).
  apply (wp_local F FB D _ _ N s H). intros t s1 H1 Ht _. pose proof (h_decl _ _ _ _ _ H1 t (or_introl eq_refl)) as Hvt. assert (t ≠ a ∧ t ≠ b ∧ t ≠ m) as (Hta & Htb & Htm) by (split_and!; congruence).
  apply wp_bind. eapply wp_mono; [exact (mpz_init_spec N s1 t H1 Ht Hvt)|]. intros [] s2 H2.
  apply wp_bind. eapply wp_mono; [apply (mpz_sub_spec _ s2 t H2 ltac:(rewrite lookup_insert_eq; eauto) a b x y); [by rewrite lookup_insert_ne|by rewrite lookup_insert_ne|lia]|]. intros [] s3 H3. rewrite insert_insert_eq in H3.
  apply wp_bind. eapply wp_mono; [apply (mpz_divisible_p_spec _ s3 t (x - y) H3 ltac:(by rewrite lookup_insert_eq) m z); [by rewrite lookup_insert_ne|done|lia]|]. intros c s4 [-> H4].
  apply wp_bind. eapply wp_mono; [apply (mpz_clear_spec _ s4 t H4); rewrite lookup_insert_eq; eauto|]. intros [] s5 (H5 & _). rewrite delete_insert_id in H5 by done.
  eapply wp_run; [done|]. by exists N.
Qed.
