(* ===== verification/MpzLocals.v ===== *)
(** * Functions with several local integers

    Most functions of the mpz layer declare local variables, initialise them,
    compute in them and clear them. [binds ts vs N] are the variables [N] with
    the local variables [ts], which hold the numbers [vs]; the rules follow a
    program step by step, and the lists of numbers compute. *)

From S2P Require Import Prelude Limbs Mpn MpnDiv Mpz MpzRep MpzArith MpzMul MpzDivision.

Fixpoint binds (ts : list positive) (vs : list (option Z)) (N : vars) : vars :=
  match ts, vs with
  | t :: ts, v :: vs => <[t := v]> (binds ts vs N)
  | _, _ => N
  end.

(** The local variables are distinct and not among those of the caller. *)
Definition locals (ts : list positive) (N : vars) : Prop := NoDup ts ∧ Forall (λ t, N !! t = None) ts.

Lemma binds_other_key ts vs N x : x ∉ ts → binds ts vs N !! x = N !! x.
Proof.
  revert vs. induction ts as [|t ts' IH]; intros [|v vs'] Hx; try done. apply not_elem_of_cons in Hx as [Hne Hx].
  simpl. rewrite lookup_insert_ne by done. by apply IH.
Qed.

Section binds.
Context (ts : list positive) (vs : list (option Z)) (N : vars).
Hypothesis (Hl : locals ts N).

(** The variables of the caller. *)
Lemma binds_other x o : N !! x = Some o → binds ts vs N !! x = Some o.
Proof.
  intros Hx. rewrite binds_other_key; [done|]. intros Hin. destruct Hl as [_ Hf]. rewrite Forall_forall in Hf. specialize (Hf x Hin). congruence.
Qed.

Lemma binds_other_some x : is_Some (N !! x) → is_Some (binds ts vs N !! x).
Proof. intros [o Ho]. exists o. by apply binds_other. Qed.

(** A local variable, by its place. *)
Lemma binds_at i t v : ts !! i = Some t → vs !! i = Some v → binds ts vs N !! t = Some v.
Proof.
  destruct Hl as [Hnd _]. clear Hl. revert i vs. induction ts as [|t' ts' IH]; intros [|i] [|v' vs'] Ht Hv; simplify_eq/=.
  - by rewrite lookup_insert_eq.
  - apply NoDup_cons in Hnd as [Hni Hnd]. rewrite lookup_insert_ne; [by apply (IH Hnd i)|]. intros ->. apply Hni. by apply list_elem_of_lookup_2 with i.
Qed.

Lemma binds_at_some i t : ts !! i = Some t → (i < length vs)%nat → is_Some (binds ts vs N !! t).
Proof. intros Ht Hi. destruct (lookup_lt_is_Some_2 vs i Hi) as [v Hv]. exists v. by apply (binds_at i). Qed.

Lemma binds_set i t v : ts !! i = Some t → (i < length vs)%nat → <[t := v]> (binds ts vs N) = binds ts (<[i := v]> vs) N.
Proof.
  destruct Hl as [Hnd _]. clear Hl. revert i vs. induction ts as [|t' ts' IH]; intros [|i] [|v' vs'] Ht Hi; simplify_eq/=; try lia.
  - by rewrite insert_insert_eq.
  - apply NoDup_cons in Hnd as [Hni Hnd]. rewrite insert_insert_ne; [|intros ->; apply Hni; by apply list_elem_of_lookup_2 with i]. f_equal. apply (IH Hnd i); [done|lia].
Qed.

Lemma binds_put x o : is_Some (N !! x) → <[x := o]> (binds ts vs N) = binds ts vs (<[x := o]> N).
Proof.
  intros [o' Hx]. destruct Hl as [_ Hf]. clear Hl. revert vs. induction ts as [|t ts' IH]; intros [|v vs']; try done.
  apply Forall_cons in Hf as [Ht Hf]. simpl. rewrite insert_insert_ne by congruence. by rewrite IH.
Qed.

Lemma locals_put x o : is_Some (N !! x) → locals ts (<[x := o]> N).
Proof.
  intros [o' Hx]. destruct Hl as [Hnd Hf]. split; [done|]. eapply Forall_impl; [exact Hf|]. intros t Ht. simpl in *. rewrite lookup_insert_ne by congruence. done.
Qed.

Lemma binds_clear i t : ts !! i = Some t → length ts = length vs → delete t (binds ts vs N) = binds (delete i ts) (delete i vs) N.
Proof.
  destruct Hl as [Hnd Hf]. clear Hl. revert i vs. induction ts as [|t' ts' IH]; intros [|i] [|v' vs'] Ht Hlen; simplify_eq/=.
  - apply NoDup_cons in Hnd as [Hni Hnd]. apply Forall_cons in Hf as [Ht' Hf]. apply delete_insert_id. by rewrite binds_other_key.
  - apply NoDup_cons in Hnd as [Hni Hnd]. apply Forall_cons in Hf as [Ht' Hf]. rewrite delete_insert_ne; [f_equal; by apply IH|]. intros ->. apply Hni. by apply list_elem_of_lookup_2 with i.
Qed.
End binds.

Lemma locals_delete ts N i : locals ts N → locals (delete i ts) N.
Proof. intros [Hnd Hf]. split; [eapply sublist_NoDup; [done|apply sublist_delete]|]. by apply Forall_delete. Qed.

Lemma binds_nil N : binds [] [] N = N.
Proof. done. Qed.

(** ** Rules *)

Section rules.
Context {F : gmap Z (option Z)} {FB : gmap Z Z} {D : positive → Prop}.
Local Abbreviation holds := (holds F FB D).

(** A step that leaves a number in local variable [i]. *)
Lemma wp_to_local {A} (i : nat) ts vs N (k : M zst unit) (f : unit → M zst A) Q s t v :
  wp never k (λ _ s', holds (<[t := Some v]> (binds ts vs N)) s') s → locals ts N → ts !! i = Some t → (i < length vs)%nat →
  (∀ s', holds (binds ts (<[i := Some v]> vs) N) s' → wp never (f tt) Q s') → wp never (k ≫= f) Q s.
Proof. intros Hk Hl Ht Hi Hf. apply wp_bind. eapply wp_mono; [exact Hk|]. intros [] s' H'. apply Hf. by rewrite <- (binds_set ts vs N Hl i t (Some v) Ht Hi). Qed.

(** A step that leaves a number in a variable of the caller. *)
Lemma wp_to_var {A} ts vs N (k : M zst unit) (f : unit → M zst A) Q s r v :
  wp never k (λ _ s', holds (<[r := Some v]> (binds ts vs N)) s') s → locals ts N → is_Some (N !! r) →
  (∀ s', holds (binds ts vs (<[r := Some v]> N)) s' → locals ts (<[r := Some v]> N) → wp never (f tt) Q s') → wp never (k ≫= f) Q s.
Proof.
  intros Hk Hl Hr Hf. apply wp_bind. eapply wp_mono; [exact Hk|]. intros [] s' H'. apply Hf; [by rewrite <- (binds_put ts vs N Hl)|by apply locals_put].
Qed.

Lemma wp_init_local {A} ts vs N (f : unit → M zst A) Q s t :
  holds (binds ts vs N) s → locals ts N → N !! t = None → t ∉ ts → D t →
  (∀ s', holds (binds (t :: ts) (Some 0 :: vs) N) s' → locals (t :: ts) N → wp never (f tt) Q s') → wp never (mpz_init t ≫= f) Q s.
Proof.
  intros H Hl Ht Hn HD Hf. apply wp_bind. eapply wp_mono; [apply (mpz_init_spec _ s t H)|].
  - by rewrite binds_other_key.
  - by apply (h_decl _ _ _ _ _ H).
  - intros [] s' H'. apply Hf; [done|]. destruct Hl. split; [by apply NoDup_cons|by apply Forall_cons].
Qed.

Lemma wp_clear_local {A} (i : nat) ts vs N (f : unit → M zst A) Q s t :
  holds (binds ts vs N) s → locals ts N → ts !! i = Some t → length ts = length vs →
  (∀ s', holds (binds (delete i ts) (delete i vs) N) s' → locals (delete i ts) N → wp never (f tt) Q s') → wp never (mpz_clear t ≫= f) Q s.
Proof.
  intros H Hl Ht Hlen Hf. apply wp_bind. pose proof (lookup_lt_Some _ _ _ Ht). eapply wp_mono; [apply (mpz_clear_spec _ s t H), (binds_at_some _ _ _ Hl i); (done || lia)|].
  intros [] s' (H' & _). apply Hf; [by rewrite <- (binds_clear ts vs N Hl i t)|by apply locals_delete].
Qed.

Lemma wp_swap_locals {A} (i j : nat) ts vs N (f : unit → M zst A) Q s t u v w :
  holds (binds ts vs N) s → locals ts N → ts !! i = Some t → ts !! j = Some u → vs !! i = Some v → vs !! j = Some w → i ≠ j →
  (∀ s', holds (binds ts (<[i := w]> (<[j := v]> vs)) N) s' → wp never (f tt) Q s') → wp never (mpz_swap t u ≫= f) Q s.
Proof.
  intros H Hl Ht Hu Hv Hw Hne Hf. apply wp_bind. pose proof (lookup_lt_Some _ _ _ Hv). pose proof (lookup_lt_Some _ _ _ Hw).
  eapply wp_mono; [apply (mpz_swap_spec _ s t u v w H); by eapply binds_at|]. intros [] s' (H' & _). apply Hf.
  rewrite (binds_set ts vs N Hl j u v), (binds_set ts _ N Hl i t w) in H' by (done || rewrite length_insert; done). done.
Qed.

(** The result is exchanged with a local variable. *)
Lemma wp_swap_results {A} (i : nat) ts vs N (f : unit → M zst A) Q s r t v o :
  holds (binds ts vs N) s → locals ts N → ts !! i = Some t → vs !! i = Some v → N !! r = Some o →
  (∀ s', holds (binds ts (<[i := o]> vs) (<[r := v]> N)) s' → locals ts (<[r := v]> N) → wp never (f tt) Q s') →
  wp never (mpz_swap r t ≫= f) Q s ∧ wp never (mpz_swap t r ≫= f) Q s.
Proof.
  intros H Hl Ht Hv Hr Hf. assert (r ≠ t) as Hne. { intros ->. destruct Hl as [_ Hf']. rewrite Forall_lookup in Hf'. specialize (Hf' i t Ht). congruence. }
  assert (locals ts (<[r := v]> N)) as Hl' by (apply locals_put; [done|eauto]). pose proof (lookup_lt_Some _ _ _ Hv).
  assert (∀ s', holds (<[r := v]> (<[t := o]> (binds ts vs N))) s' → wp never (f tt) Q s') as Hend.
  { intros s' H'. apply Hf; [|done]. rewrite insert_insert_ne, binds_put, (binds_set ts vs _ Hl' i t o Ht) in H' by (done || eauto). done. }
  split; apply wp_bind.
  - eapply wp_mono; [apply (mpz_swap_spec _ s r t o v H); [by apply binds_other|by eapply binds_at]|]. intros [] s' (H' & _). by apply Hend.
  - eapply wp_mono; [apply (mpz_swap_spec _ s t r v o H); [by eapply binds_at|by apply binds_other]|]. intros [] s' (H' & _). apply Hend. by rewrite insert_insert_ne.
Qed.

Lemma wp_swap_result {A} (i : nat) ts vs N (f : unit → M zst A) Q s r t v o :
  holds (binds ts vs N) s → locals ts N → ts !! i = Some t → vs !! i = Some v → N !! r = Some o →
  (∀ s', holds (binds ts (<[i := o]> vs) (<[r := v]> N)) s' → locals ts (<[r := v]> N) → wp never (f tt) Q s') →
  wp never (mpz_swap r t ≫= f) Q s.
Proof. intros. by eapply (proj1 (wp_swap_results i ts vs N f Q s r t v o ltac:(done) ltac:(done) ltac:(done) ltac:(done) ltac:(done) ltac:(done))). Qed.

Lemma wp_swap_to {A} (i : nat) ts vs N (f : unit → M zst A) Q s r t v o :
  holds (binds ts vs N) s → locals ts N → ts !! i = Some t → vs !! i = Some v → N !! r = Some o →
  (∀ s', holds (binds ts (<[i := o]> vs) (<[r := v]> N)) s' → locals ts (<[r := v]> N) → wp never (f tt) Q s') →
  wp never (mpz_swap t r ≫= f) Q s.
Proof. intros. by eapply (proj2 (wp_swap_results i ts vs N f Q s r t v o ltac:(done) ltac:(done) ltac:(done) ltac:(done) ltac:(done) ltac:(done))). Qed.
End rules.

(** The body of a function with a local variable, for a result [N'] on the
    variables of the caller. *)
Lemma wp_declare {A} F FB (D : positive → Prop) (f : positive → M zst A) (R : A → vars → Prop) N s :
  holds F FB D N s → (∀ a N' x, R a N' → N !! x = None → N' !! x = None) →
  (∀ t s1 (D1 : positive → Prop), holds F FB D1 N s1 → D1 t → N !! t = None → ¬ D t → (∀ x, D x → D1 x) →
    wp never (f t) (λ a s2, ∃ N', R a N' ∧ holds F FB D1 N' s2) s1) →
  wp never (with_local f) (λ a s', ∃ N', R a N' ∧ holds F FB D N' s') s.
Proof.
  intros H HR Hf. apply (wp_local F FB D f _ N s H). intros t s1 H1 Ht HD. eapply wp_mono; [apply (Hf t s1 _ H1); [by left|done|done|by right]|].
  intros a s2 (N' & HRa & H2). exists N'. split; [done|]. split; [by eapply HR|]. intros s3 H3. by exists N'.
Qed.

(** The same when the final variables are known. *)
Lemma wp_declare_to {A} F FB (D : positive → Prop) (f : positive → M zst A) (P : A → Prop) N N' s :
  holds F FB D N s → (∀ x, N !! x = None → N' !! x = None) →
  (∀ t s1 (D1 : positive → Prop), holds F FB D1 N s1 → D1 t → N !! t = None → ¬ D t → (∀ x, D x → D1 x) →
    wp never (f t) (λ a s2, P a ∧ holds F FB D1 N' s2) s1) →
  wp never (with_local f) (λ a s', P a ∧ holds F FB D N' s') s.
Proof.
  intros H HR Hf. eapply wp_mono; [apply (wp_declare F FB D f (λ a M, P a ∧ M = N') N s H)|].
  - intros a M x [_ ->]. apply HR.
  - intros t s1 D1 H1 H2 H3 H4 H5. eapply wp_mono; [by apply Hf|]. intros a s2 [Ha Hs]. by exists N'.
  - intros a s' (M & [Ha ->] & Hs). done.
Qed.

Lemma put_none (N : vars) r o x : is_Some (N !! r) → N !! x = None → <[r := o]> N !! x = None.
Proof. intros [o' Hr] Hx. rewrite lookup_insert_ne by congruence. done. Qed.

Lemma opt_set_none q v (N : vars) x : opt_in q N → N !! x = None → opt_set q v N !! x = None.
Proof. destruct q as [p|]; [|done]. cbn [opt_in opt_set]. intros Hp Hx. by apply put_none. Qed.

(** A variable declared after others is not one of them. *)
Lemma fresh_local (t : positive) ts (D : positive → Prop) : ¬ D t → Forall D ts → t ∉ ts.
Proof. intros Ht Hf Hin. rewrite Forall_forall in Hf. by apply Ht, Hf. Qed.

(** ** Automation *)

(** What a variable holds: a local one by its place, or one of the caller. *)
Ltac look :=
  lazymatch goal with
  | |- binds ?ts ?vs ?N !! ?t = Some _ =>
      first [ eapply (binds_at ts vs N ltac:(eassumption) 0%nat); reflexivity
            | eapply (binds_at ts vs N ltac:(eassumption) 1%nat); reflexivity
            | eapply (binds_at ts vs N ltac:(eassumption) 2%nat); reflexivity
            | eapply (binds_at ts vs N ltac:(eassumption) 3%nat); reflexivity
            | eapply (binds_at ts vs N ltac:(eassumption) 4%nat); reflexivity
            | eapply (binds_at ts vs N ltac:(eassumption) 5%nat); reflexivity
            | eapply (binds_other ts vs N ltac:(eassumption)); eassumption ]
  | |- is_Some (binds ?ts ?vs ?N !! ?t) =>
      first [ eapply (binds_at_some ts vs N ltac:(eassumption) 0%nat); [reflexivity|simpl; lia]
            | eapply (binds_at_some ts vs N ltac:(eassumption) 1%nat); [reflexivity|simpl; lia]
            | eapply (binds_at_some ts vs N ltac:(eassumption) 2%nat); [reflexivity|simpl; lia]
            | eapply (binds_at_some ts vs N ltac:(eassumption) 3%nat); [reflexivity|simpl; lia]
            | eapply (binds_at_some ts vs N ltac:(eassumption) 4%nat); [reflexivity|simpl; lia]
            | eapply (binds_at_some ts vs N ltac:(eassumption) 5%nat); [reflexivity|simpl; lia]
            | eapply (binds_other_some ts vs N ltac:(eassumption)); eauto ]
  | |- <[?t := _]> _ !! ?t = Some _ => apply lookup_insert_eq
  | |- is_Some (<[?t := _]> _ !! ?t) => rewrite lookup_insert_eq; eauto
  end.

(** The premises of a rule for an operation: the state, then what its
    variables hold; those about sizes are left. *)
Ltac premises := try first [eassumption | look | done].

(** One step into local variable [i] by the rule [L]. *)
Tactic Notation "into" constr(i) uconstr(L) :=
  eapply (wp_to_local i); [eapply L; premises | eassumption | reflexivity | simpl; lia | ];
  [.. | let s' := fresh "s" in let H' := fresh "H" in intros s' H'; cbn [insert list_insert] in H' ].

(** One step into a variable of the caller. *)
Tactic Notation "into_var" uconstr(L) :=
  eapply wp_to_var; [eapply L; premises | eassumption | eauto | ];
  [.. | let s' := fresh "s" in let H' := fresh "H" in let Hl := fresh "Hl" in intros s' H' Hl ].

Ltac init_local :=
  eapply wp_init_local; [eassumption | eassumption | eassumption | .. ];
  [ | | let s' := fresh "s" in let H' := fresh "H" in let Hl := fresh "Hl" in intros s' H' Hl ].

Ltac clear_local i :=
  eapply (wp_clear_local i); [eassumption | eassumption | reflexivity | reflexivity | ];
  let s' := fresh "s" in let H' := fresh "H" in let Hl := fresh "Hl" in
  intros s' H' Hl; cbn [delete list_delete] in H', Hl.

(** The lists after a rule that named the variable and not its place. *)
Ltac at_place i H :=
  erewrite (binds_set _ _ _ ltac:(eassumption) i) in H by (reflexivity || (simpl; lia)); cbn [insert list_insert] in H.
