(* ===== verification/MpzGcd.v ===== *)
(** * Greatest common divisors

    mpn_gcd_11, mpz_gcd_ui, mpz_make_odd, mpz_gcd, mpz_lcm and mpz_lcm_ui. The
    loops of the binary algorithm take fuel: one limb for the shifts, the bits
    of the two numbers for the subtractions. *)

From Stdlib Require Import Zdivisibility.
From S2P Require Import Prelude Limbs Mpn Invert MpnDiv MpnDivN MpnStr MpnSetStr MpnGetStr Mpz MpzRep MpzArith MpzMul MpzDivision MpzFrame MpzDivShort MpzLocals.

(** ** Definitions *)

(** [while ((v & 1) == 0) v >>= 1;] *)
Fixpoint strip_zeros (fuel : nat) (v : Z) : res Z :=
  if Z.land v 1 =? 0 then
    match fuel with O => Fail Undefined | S fuel' => strip_zeros fuel' (lshr v 1) end
  else Ok v.

Fixpoint gcd_11_loop (fuel : nat) (u v : Z) : res Z :=
  if u =? v then Ok u
  else match fuel with
       | O => Fail Undefined
       | S fuel' =>
           if v <? u then
             u ← strip_zeros 64 (lshr (lsub u v) 1);
             gcd_11_loop fuel' u v
           else
             v ← strip_zeros 64 (lshr (lsub v u) 1);
             gcd_11_loop fuel' u v
       end.

Definition mpn_gcd_11 (u v : Z) : res Z :=
  _ ← assertion (0 <? Z.lor u v);
  if u =? 0 then Ok v
  else if v =? 0 then Ok u
  else
    shift ← gmp_ctz (Z.lor u v);
    let u := lshr u shift in
    let v := lshr v shift in
    let '(u, v) := if Z.land u 1 =? 0 then (v, u) else (u, v) in
    v ← strip_zeros 64 v;
    g ← gcd_11_loop 128 u v;
    Ok (lshl g shift).

Definition mpz_gcd_ui (g : option positive) (u : positive) (v : Z) : M zst Z :=
  if v =? 0 then
    _ ← if_ptr g (λ g, mpz_abs g u);
    mret v
  else
    us ← size_of u;
    let un := Z.abs us in
    v ← (if negb (un =? 0) then
           up ← limbs_of u;
           r ← limbsZ (mpn_div_qr_1 None up un v);
           lift (mpn_gcd_11 r v)
         else mret v);
    _ ← if_ptr g (λ g, mpz_set_ui g v);
    mret v.

Definition mpz_make_odd (r : positive) : M zst Z :=
  rs ← size_of r;
  _ ← lift (assertion (0 <? rs));
  rp ← limbs_of r;
  x ← limbsZ (load rp);
  shift ← limbsZ (mpn_common_scan (Z.to_nat rs) x 0 rp 0 0);
  _ ← mpz_tdiv_q_2exp r r shift;
  mret shift.

(** The loop of mpz_gcd. *)
Fixpoint gcd_loop (fuel : nat) (g tu tv : positive) : M zst unit :=
  match fuel with
  | O => failM Undefined
  | S fuel' =>
      _ ← mpz_make_odd tu;
      c ← mpz_cmp tu tv;
      if c =? 0 then mpz_swap g tu
      else
        _ ← whenM (c <? 0) (mpz_swap tu tv);
        vs ← size_of tv;
        if vs =? 1 then
          vp ← limbs_of tv;
          vl ← limbsZ (load vp);
          ul ← mpz_tdiv_ui tu vl;
          x ← lift (mpn_gcd_11 ul vl);
          mpz_set_ui g x
        else
          _ ← mpz_sub tu tu tv;
          gcd_loop fuel' g tu tv
  end.

(** The number of bits of two positive integers bounds the loop. *)
Definition gcd_fuel (us vs : Z) : nat := Z.to_nat (GMP_LIMB_BITS * (us + vs) + 2).

Definition mpz_gcd (g u v : positive) : M zst unit :=
  us ← size_of u;
  if us =? 0 then mpz_abs g v
  else
    vs ← size_of v;
    if vs =? 0 then mpz_abs g u
    else
      with_local (λ tu, with_local (λ tv,
        _ ← mpz_init tu;
        _ ← mpz_init tv;
        _ ← mpz_abs tu u;
        uz ← mpz_make_odd tu;
        _ ← mpz_abs tv v;
        vz ← mpz_make_odd tv;
        let gz := Z.min uz vz in
        us ← size_of tu;
        vs ← size_of tv;
        _ ← whenM (us <? vs) (mpz_swap tu tv);
        _ ← mpz_tdiv_r tu tu tv;
        us ← size_of tu;
        vs ← size_of tv;
        _ ← (if us =? 0 then mpz_swap g tv else gcd_loop (gcd_fuel us vs) g tu tv);
        _ ← mpz_clear tu;
        _ ← mpz_clear tv;
        mpz_mul_2exp g g gz)).

Definition mpz_lcm (r u v : positive) : M zst unit :=
  us ← size_of u;
  vs ← size_of v;
  if (us =? 0) || (vs =? 0) then set_size r 0
  else
    with_local (λ g,
      _ ← mpz_init g;
      _ ← mpz_gcd g u v;
      _ ← mpz_divexact g u g;
      _ ← mpz_mul r g v;
      _ ← mpz_clear g;
      mpz_abs r r).

Definition mpz_lcm_ui (r u : positive) (v : Z) : M zst unit :=
  us ← size_of u;
  if (v =? 0) || (us =? 0) then set_size r 0
  else
    g ← mpz_gcd_ui None u v;
    _ ← mpz_mul_ui r u (v / g);
    mpz_abs r r.

(** ** Odd parts and divisors *)

Lemma coprime_odd a : Z.odd a = true → Z.coprime a 2.
Proof.
  intros Ho. unfold Z.coprime. rewrite Z.gcd_comm. apply Z.coprime_prime_l; [apply Z.prime_2|]. intros [k ->]. rewrite Z.mul_comm, Z.odd_mul in Ho. done.
Qed.

(** Powers of two do not count in the gcd with an odd number. *)
Lemma gcd_odd_shift a b k : 0 ≤ k → Z.odd b = true → Z.gcd (a * 2 ^ k) b = Z.gcd a b.
Proof.
  intros Hk Ho. apply Z.gcd_unique; [apply Z.gcd_nonneg|apply Z.divide_mul_l, Z.gcd_divide_l|apply Z.gcd_divide_r|].
  intros q Hq1 [c Ec]. apply Z.gcd_greatest; [|by exists c]. apply (Z.gauss q (2 ^ k)); [by rewrite Z.mul_comm|].
  apply Z.coprime_pow_r; [done|]. apply coprime_odd. rewrite Ec, Z.odd_mul in Ho. by apply andb_prop in Ho as [_ ?].
Qed.

(** The common power of two of two numbers. *)
Lemma gcd_common_shift a b j k :
  0 ≤ j → 0 ≤ k → Z.odd a = true → Z.odd b = true → Z.gcd (a * 2 ^ j) (b * 2 ^ k) = Z.gcd a b * 2 ^ Z.min j k.
Proof.
  intros Hj Hk Ha Hb. pose proof (Z.pow_pos_nonneg 2 (Z.min j k) ltac:(lia) ltac:(lia)).
  replace (a * 2 ^ j) with ((a * 2 ^ (j - Z.min j k)) * 2 ^ Z.min j k) by (rewrite <- Z.mul_assoc, <- Z.pow_add_r by lia; do 2 f_equal; lia).
  replace (b * 2 ^ k) with ((b * 2 ^ (k - Z.min j k)) * 2 ^ Z.min j k) by (rewrite <- Z.mul_assoc, <- Z.pow_add_r by lia; do 2 f_equal; lia).
  rewrite Z.gcd_mul_mono_r_nonneg by lia. f_equal. destruct (Z.le_gt_cases j k) as [Hjk|Hjk].
  - rewrite Z.min_l by lia. rewrite Z.sub_diag, Z.pow_0_r, Z.mul_1_r, Z.gcd_comm, gcd_odd_shift by (done || lia). apply Z.gcd_comm.
  - rewrite Z.min_r by lia. rewrite Z.sub_diag, Z.pow_0_r, Z.mul_1_r, gcd_odd_shift by (done || lia). done.
Qed.

Lemma land_1 v : (Z.land v 1 =? 0) = negb (Z.odd v).
Proof. change 1 with (Z.ones 1). rewrite Z.land_ones, Zmod_odd by lia. by destruct (Z.odd v). Qed.

(** ** One limb *)

Lemma lshr_1 v : lshr v 1 = v / 2.
Proof. unfold lshr. by rewrite Z.shiftr_div_pow2. Qed.

Lemma even_half v : Z.odd v = false → v = 2 * (v / 2).
Proof. intros Ho. pose proof (Z.div_mod v 2 ltac:(lia)) as E. rewrite Zmod_odd, Ho in E. lia. Qed.

Lemma strip_zeros_spec fuel v :
  0 < v < 2 ^ Z.of_nat fuel → ∃ a k, strip_zeros fuel v = Ok a ∧ 0 ≤ k ∧ v = a * 2 ^ k ∧ Z.odd a = true ∧ 0 < a.
Proof.
  revert v. induction fuel as [|fuel IH]; intros v Hv; [simpl in Hv; lia|]. cbn [strip_zeros]. rewrite land_1. destruct (Z.odd v) eqn:Ho; cbn [negb].
  - exists v, 0. split_and!; try done; lia.
  - pose proof (even_half v Ho) as E. rewrite lshr_1. rewrite Nat2Z.inj_succ, Z.pow_succ_r in Hv by lia.
    destruct (IH (v / 2) ltac:(lia)) as (a & k & Es & Hk & Ea & Hoa & Ha). exists a, (k + 1). split; [done|]. split; [lia|]. split; [|done].
    rewrite Z.pow_add_r, Z.pow_1_r by lia. lia.
Qed.

Lemma strip_limb v : 0 < v < B → ∃ a k, strip_zeros 64 v = Ok a ∧ 0 ≤ k ∧ v = a * 2 ^ k ∧ Z.odd a = true ∧ 0 < a.
Proof. intros Hv. apply strip_zeros_spec. done. Qed.

(** The difference of two odd numbers, without its powers of two. *)
Lemma odd_difference u v :
  Z.odd u = true → Z.odd v = true → 0 < v < u → u < B →
  ∃ a, strip_zeros 64 (lshr (lsub u v) 1) = Ok a ∧ Z.odd a = true ∧ 0 < a ∧ 2 * a ≤ u ∧ Z.gcd a v = Z.gcd u v.
Proof.
  intros Hu Hv Hlt HB. assert (lsub u v = u - v) as -> by limb_lia. rewrite lshr_1. assert (Z.odd (u - v) = false) as He by (by rewrite Z.odd_sub, Hu, Hv).
  pose proof (even_half _ He) as E. destruct (strip_limb ((u - v) / 2) ltac:(lia)) as (a & k & -> & Hk & Ea & Ho & Ha). exists a. split; [done|]. split; [done|]. split; [done|].
  pose proof (Z.pow_pos_nonneg 2 k ltac:(lia) Hk). split; [nia|]. rewrite <- (gcd_odd_shift a v (k + 1)) by (done || lia).
  rewrite Z.pow_add_r, Z.pow_1_r, Z.mul_assoc, <- Ea by lia. replace ((u - v) / 2 * 2) with (u - v) by lia. rewrite Z.gcd_comm, Z.gcd_sub_diag_r. apply Z.gcd_comm.
Qed.

Lemma log2_half a u : 0 < a → 2 * a ≤ u → Z.log2 a + 1 ≤ Z.log2 u.
Proof. intros Ha Hu. pose proof (Z.log2_le_mono _ _ Hu) as Hl. rewrite Z.log2_double in Hl by done. lia. Qed.

Lemma gcd_11_loop_spec fuel u v :
  Z.odd u = true → Z.odd v = true → 0 < u < B → 0 < v < B → Z.log2 u + Z.log2 v < Z.of_nat fuel → gcd_11_loop fuel u v = Ok (Z.gcd u v).
Proof.
  revert u v. induction fuel as [|fuel IH]; intros u v Hu Hv HBu HBv Hf; [pose proof (Z.log2_nonneg u); pose proof (Z.log2_nonneg v); lia|]. cbn [gcd_11_loop].
  destruct (Z.eqb_spec u v) as [->|Hne]; [rewrite Z.gcd_diag; f_equal; lia|]. destruct (Z.ltb_spec v u).
  - destruct (odd_difference u v Hu Hv ltac:(lia) ltac:(lia)) as (a & -> & Ho & Ha & H2 & Hg). pose proof (log2_half a u Ha H2). cbn. rewrite IH by (done || lia). by f_equal.
  - destruct (odd_difference v u Hv Hu ltac:(lia) ltac:(lia)) as (a & -> & Ho & Ha & H2 & Hg). pose proof (log2_half a v Ha H2). cbn. rewrite IH by (done || lia).
    f_equal. rewrite Z.gcd_comm, Hg. apply Z.gcd_comm.
Qed.

(** The lowest bit of the union of two numbers. *)
Lemma lor_shift u v k m :
  0 ≤ k → Z.lor u v = (2 * m + 1) * 2 ^ k →
  u = lshr u k * 2 ^ k ∧ v = lshr v k * 2 ^ k ∧ (Z.odd (lshr u k) = true ∨ Z.odd (lshr v k) = true).
Proof.
  intros Hk E. pose proof (Z.pow_pos_nonneg 2 k ltac:(lia) Hk) as H2.
  assert (Z.lor (u mod 2 ^ k) (v mod 2 ^ k) = 0) as Hlow.
  { rewrite <- !Z.land_ones, <- Z.land_lor_distr_l, E, Z.land_ones by done. apply Z.mod_mul. lia. }
  apply Z.lor_eq_0_iff in Hlow as [Hu Hv]. unfold lshr. split_and!.
  - rewrite Z.shiftr_div_pow2 by done. pose proof (Z.div_mod u (2 ^ k) ltac:(lia)). lia.
  - rewrite Z.shiftr_div_pow2 by done. pose proof (Z.div_mod v (2 ^ k) ltac:(lia)). lia.
  - apply orb_true_iff. rewrite <- !Z.bit0_odd, <- Z.lor_spec, <- Z.shiftr_lor, E, Z.bit0_odd, Z.shiftr_div_pow2, Z.div_mul by lia. by rewrite Z.add_comm, Z.odd_add_mul_2.
Qed.

Lemma ok_bind {A C} (a : A) (f : A → res C) : (Ok a ≫= f) = f a.
Proof. done. Qed.

Lemma mpn_gcd_11_spec u v : limb u → limb v → 0 < u + v → mpn_gcd_11 u v = Ok (Z.gcd u v).
Proof.
  unfold limb. intros Hu Hv Hs. assert (0 < Z.lor u v < B) as Hl.
  { assert (0 ≤ Z.lor u v) by (apply Z.lor_nonneg; lia). destruct (Z.eq_dec (Z.lor u v) 0) as [E|]; [apply Z.lor_eq_0_iff in E; lia|]. split; [lia|].
    change B with (2 ^ 64). apply Z.log2_lt_pow2; [lia|]. rewrite Z.log2_lor by lia.
    assert (∀ x, 0 ≤ x < B → Z.log2 x < 64) as Hx by (intros x Hx; destruct (Z.eq_dec x 0) as [->|]; [done|apply Z.log2_lt_pow2; [lia|apply Hx]]).
    pose proof (Hx u Hu). pose proof (Hx v Hv). lia. }
  unfold mpn_gcd_11, assertion. rewrite (proj2 (Z.ltb_lt 0 _)) by lia. rewrite ok_bind.
  destruct (Z.eqb_spec u 0) as [->|Hu0]; [rewrite Z.gcd_0_l, Z.abs_eq by lia; done|]. destruct (Z.eqb_spec v 0) as [->|Hv0]; [rewrite Z.gcd_0_r, Z.abs_eq by lia; done|].
  destruct (gmp_ctz_spec (Z.lor u v) Hl) as (k & -> & Hk & m & Hm & E). rewrite ok_bind. destruct (lor_shift u v k m ltac:(lia) E) as (Eu & Ev & Ho).
  pose proof (Z.pow_pos_nonneg 2 k ltac:(lia) ltac:(lia)) as H2. set (a := lshr u k) in *. set (b := lshr v k) in *. assert (0 < a ≤ u ∧ 0 < b ≤ v) as [Ha Hb] by nia.
  assert (∀ a b, Z.odd a = true → 0 < a < B → 0 < b < B → Z.gcd a b * 2 ^ k < B →
    (b ← strip_zeros 64 b; g ← gcd_11_loop 128 a b; Ok (lshl g k)) = Ok (Z.gcd a b * 2 ^ k)) as Hrun.
  { clear -Hk. intros a b Ho Ha Hb Hg. destruct (strip_limb b Hb) as (c & j & -> & Hj & Ec & Hoc & Hc). rewrite ok_bind. pose proof (Z.pow_pos_nonneg 2 j ltac:(lia) Hj). assert (c ≤ b) by nia.
    assert (∀ x, 0 < x < B → Z.log2 x < 64) as Hlog by (intros x Hx; apply Z.log2_lt_pow2; [lia|apply Hx]). pose proof (Hlog a Ha). pose proof (Hlog c ltac:(lia)).
    rewrite gcd_11_loop_spec by (done || lia). rewrite ok_bind. unfold lshl.
    assert (Z.gcd a c = Z.gcd a b) as ->. { rewrite (Z.gcd_comm a c), (Z.gcd_comm a b), Ec. by rewrite gcd_odd_shift. }
    pose proof (Z.gcd_nonneg a b). rewrite Z.shiftl_mul_pow2 by lia. pose proof (Z.pow_pos_nonneg 2 k ltac:(lia) ltac:(lia)). rewrite u64_small; [done|]. change SIZE_MOD with B. nia. }
  assert (Z.gcd u v = Z.gcd a b * 2 ^ k) as Eg by (rewrite Eu, Ev at 1; by rewrite Z.gcd_mul_mono_r_nonneg by lia).
  assert (Z.gcd u v ≤ u) by (apply Z.divide_pos_le; [lia|apply Z.gcd_divide_l]). rewrite land_1. destruct (Z.odd a) eqn:Hoa; cbn [negb].
  - rewrite (Hrun a b) by (done || lia). by rewrite Eg.
  - destruct Ho as [?|Hob]; [congruence|]. rewrite (Hrun b a); [|done|lia|lia|rewrite (Z.gcd_comm b a); lia]. by rewrite Eg, (Z.gcd_comm b a).
Qed.

Lemma gcd_mod_abs z v : 0 < v → Z.gcd (Z.abs z mod v) v = Z.gcd z v.
Proof. intros Hv. rewrite Z.gcd_mod, Z.gcd_comm, Z.gcd_abs_l by lia. done. Qed.

Section gcd.
Context {F : gmap Z (option Z)} {FB : gmap Z Z} {D : positive → Prop}.
Local Abbreviation holds := (holds F FB D).

Lemma mpz_gcd_ui_spec N s g u z v :
  holds N s → opt_in g N → N !! u = Some (Some z) → limb v →
  wp never (mpz_gcd_ui g u v) (λ w s', w = (if v =? 0 then 0 else Z.gcd z v) ∧ holds (opt_set g (Z.gcd z v) N) s') s.
Proof.
  intros H Hg Hu Hv. unfold limb in Hv. unfold mpz_gcd_ui. destruct (Z.eqb_spec v 0) as [->|Hv0].
  { apply wp_bind. eapply wp_mono; [apply (wp_if_ptr N s g _ (Z.gcd z 0) H); intros p ->; rewrite Z.gcd_0_r; by apply (mpz_abs_spec N s p u)|]. intros [] s1 H1. by eapply wp_run. }
  eapply wp_size; [exact (holds_sizes _ _ H)|done|]. cbv zeta. rewrite zsize_abs. apply wp_bind. eapply (wp_mono _ _ (λ w s', w = Z.gcd z v ∧ holds N s')).
  { destruct (Z.eqb_spec (zlimbs z) 0) as [E|E]; cbn [negb].
    - assert (z = 0) as -> by (destruct (Z.eq_dec z 0) as [|Hz]; [done|pose proof (zlimbs_pos z Hz); lia]). eapply wp_run; [done|]. by rewrite Z.gcd_0_l, Z.abs_eq by lia.
    - assert (z ≠ 0) as Hz by (by intros ->). apply (divide_word_at N u z v Hu Hz ltac:(lia) None None s _ _ H I). intros s1 H1. simpl in H1.
      pose proof (Z.mod_pos_bound (Z.abs z) v ltac:(lia)). eapply wp_run; [unfold lift; by rewrite mpn_gcd_11_spec by (unfold limb; lia)|]. by rewrite gcd_mod_abs by lia. }
  intros w s1 [-> H1]. apply wp_bind. eapply wp_mono; [apply (wp_if_ptr N s1 g _ (Z.gcd z v) H1); intros p ->; apply (mpz_set_ui_spec N s1 p _ H1 Hg)|].
  - pose proof (Z.gcd_nonneg z v). assert (Z.gcd z v ≤ v) by (apply Z.divide_pos_le; [lia|apply Z.gcd_divide_r]). unfold limb. lia.
  - intros [] s2 H2. by eapply wp_run.
Qed.

(** ** Odd parts of integers *)

(** The limbs from [i] on, complemented by [ux]; the scan stops at the first that is not 0. *)
Lemma scan_loop_spec m up xs un ux fuel i l :
  limbs_at m up xs → (i < length xs)%nat → (un ≤ Z.of_nat i ∨ Z.of_nat (length xs) ≤ un) → Forall limb (l :: (Z.lxor ux <$> drop (S i) xs)) →
  value (l :: (Z.lxor ux <$> drop (S i) xs)) ≠ 0 → (length xs ≤ i + fuel)%nat →
  ∃ l' j h, scan_loop l (Z.of_nat i) up un ux fuel m = Done (Some (l', Z.of_nat (i + j))) m ∧ 0 < l' < B ∧ 0 ≤ h ∧ (i + j < length xs)%nat ∧
    value (l :: (Z.lxor ux <$> drop (S i) xs)) = B ^ Z.of_nat j * (l' + B * h).
Proof.
  intros Hx. revert i l. induction fuel as [|fuel IH]; intros i l Hi Hun Hl Hne Hf; [lia|]. cbn [scan_loop]. pose proof Hl as [Hl1 Hr]%Forall_cons. pose proof (value_bounds _ Hr) as [Hv0 _].
  destruct (Z.eqb_spec l 0) as [->|Hl0].
  - destruct (drop (S i) xs) as [|x ys] eqn:Ed; [done|]. rewrite fmap_cons in *. assert (xs !! S i = Some x) as Hxi by (rewrite <- (Nat.add_0_r (S i)), <- lookup_drop, Ed; done).
    pose proof (lookup_lt_Some _ _ _ Hxi) as Hlt. assert (drop (S (S i)) xs = ys) as Ed2 by (rewrite (drop_S xs x (S i) Hxi) in Ed; congruence).
    replace (Z.of_nat i + 1) with (Z.of_nat (S i)) by lia. rewrite (proj2 (Z.eqb_neq (Z.of_nat (S i)) un)) by lia. rewrite (bind_done _ _ _ _ _ (load_limbs _ _ _ _ _ Hx Hxi)).
    destruct (IH (S i) (Z.lxor ux x)) as (l' & j & h & -> & Hl' & Hh & Hj & V); rewrite ?Ed2; [lia|lia|done| |lia|].
    { intros E. apply Hne. cbn [value] in *. rewrite E. lia. }
    exists l', (S j), h. rewrite Ed2 in V. split; [by replace (i + S j)%nat with (S i + j)%nat by lia|]. split; [done|]. split; [done|]. split; [lia|]. cbn [value] in V |- *. rewrite V, Nat2Z.inj_succ, Z.pow_succ_r by lia. lia.
  - exists l, O, (value (Z.lxor ux <$> drop (S i) xs)). rewrite Nat.add_0_r, Z.pow_0_r, Z.mul_1_l. unfold limb in Hl1. split_and!; (done || lia).
Qed.

(** The position of the lowest bit. *)
Lemma common_scan_spec m up xs un ux fuel i l :
  (ux = 0 ∨ ux = GMP_LIMB_MAX) → limbs_at m up xs → (i < length xs)%nat → Z.of_nat i ≤ un → (un ≤ Z.of_nat i ∨ Z.of_nat (length xs) ≤ un) →
  Forall limb (l :: (Z.lxor ux <$> drop (S i) xs)) → value (l :: (Z.lxor ux <$> drop (S i) xs)) ≠ 0 → (length xs ≤ i + fuel)%nat → Z.of_nat (length xs) ≤ alloc_limit →
  ∃ c a, mpn_common_scan fuel l (Z.of_nat i) up un ux m = Done (64 * Z.of_nat i + c) m ∧ 0 ≤ c ∧ 64 * Z.of_nat i + c < 64 * Z.of_nat (length xs) ∧
    value (l :: (Z.lxor ux <$> drop (S i) xs)) = a * 2 ^ c ∧ Z.odd a = true.
Proof.
  intros Hux Hx Hi Hiu Hun Hl Hne Hf Hlim. unfold mpn_common_scan. rewrite lift_assert_bind by (apply orb_true_iff; rewrite !Z.eqb_eq; done).
  rewrite lift_assert_bind by (apply andb_true_iff; rewrite !Z.leb_le; lia).
  destruct (scan_loop_spec m up xs un ux fuel i l Hx Hi Hun Hl Hne Hf) as (l' & j & h & E & Hl' & Hh & Hj & V). rewrite (bind_done _ _ _ _ _ E).
  destruct (gmp_ctz_spec l' Hl') as (k & -> & Hk & q & Hq & El). rewrite lift_ok_bind. exists (64 * Z.of_nat j + k), (2 * q + 1 + 2 ^ (64 - k) * h).
  change GMP_LIMB_BITS with 64. unfold alloc_limit in Hlim. split.
  { unfold mret, M_ret. f_equal. rewrite u64_small by (unfold SIZE_MOD; lia). lia. }
  split; [lia|]. split; [lia|]. split.
  - rewrite V, El, B_pow, (Z.pow_add_r 2 (64 * Z.of_nat j)) by lia. replace B with (2 ^ (64 - k) * 2 ^ k) by (rewrite <- Z.pow_add_r by lia; by replace (64 - k + k) with 64 by lia). lia.
  - replace (64 - k) with (1 + (63 - k)) by lia. rewrite Z.pow_add_r, Z.pow_1_r by lia.
    replace (2 * q + 1 + 2 * 2 ^ (63 - k) * h) with (1 + 2 * (q + 2 ^ (63 - k) * h)) by lia. by rewrite Z.odd_add_mul_2.
Qed.

Lemma mpz_make_odd_spec N s r z :
  holds N s → N !! r = Some (Some z) → 0 < z → zlimbs z + 1 ≤ alloc_limit →
  wp never (mpz_make_odd r) (λ k s', ∃ a, 0 ≤ k ≤ 64 * zlimbs z ∧ z = a * 2 ^ k ∧ Z.odd a = true ∧ 0 < a ∧ holds (<[r := Some a]> N) s') s.
Proof.
  intros H Hr Hz Hlim. unfold mpz_make_odd. eapply wp_size; [exact (holds_sizes _ _ H)|done|]. pose proof (zlimbs_pos z ltac:(lia)) as Hp.
  assert (zsize z = zlimbs z) as Es by (destruct (zsize_cases z) as [[? _]|[_ ?]]; [done|lia]). rewrite Es. eapply wp_then; [unfold lift, assertion; by rewrite (proj2 (Z.ltb_lt 0 _)) by lia|].
  destruct (holds_read N s r z H Hr) as (st & xs & Ho & Hxs & Hn & Hlen & _ & Hval & _). eapply wp_limbs; [done|]. destruct xs as [|x xs]; [simpl in Hlen; lia|].
  rewrite <- (Z.add_0_r (mp_d st)) at 1. eapply wp_limbsZ; [apply (load_limbs _ _ (x :: xs) 0%nat x Hxs); done|].
  assert ((Z.lxor 0 <$> drop 1 (x :: xs)) = xs) as Ex. { simpl. rewrite <- (list_fmap_id xs) at 2. apply list_fmap_ext. intros i y _. apply Z.lxor_0_l. }
  pose proof (common_scan_spec (zmem s) (mp_d st) (x :: xs) 0 0 (Z.to_nat (zlimbs z)) 0 x) as Hscan. rewrite Ex in Hscan.
  destruct Hscan as (c & a & E & Hc & Hcl & Ea & Hoa); [by left|done|simpl; lia|done|by left|apply Hxs|lia|lia|lia|]. rewrite Hval, Z.abs_eq in Ea by lia. change (64 * Z.of_nat 0 + c) with c in *.
  eapply wp_limbsZ; [exact E|]. pose proof (Z.pow_pos_nonneg 2 c ltac:(lia) Hc). apply wp_bind. eapply wp_mono; [by apply (mpz_div_q_2exp_spec F FB D N s r r z c GMP_DIV_TRUNC)|]. intros [] s1 H1.
  eapply wp_run; [done|]. cbn [div_round fst] in H1. rewrite quot_exact, Ea, Z.div_mul in H1 by (lia || by exists a). exists a. split_and!; try done; nia.
Qed.

Lemma wp_bind_ret {A} (k : M zst A) Q s : wp never (k ≫= mret) Q s → wp never k Q s.
Proof. unfold wp, mbind, M_bind. by destruct (k s) as [| |[]]. Qed.

(** ** The binary algorithm *)

Section loop.
Context (N : vars) (g tu tv : positive).
Hypotheses (Hl : locals [tv; tu] N) (Hg : is_Some (N !! g)).

(** What is left of a round, with the larger number in [tu]. *)
Lemma gcd_round_spec (next : M zst unit) a y s :
  let post := λ (_ : unit) s', ∃ o1 o2, holds (binds [tv; tu] [o1; o2] (<[g := Some (Z.gcd a y)]> N)) s' in
  holds (binds [tv; tu] [Some y; Some a] N) s → 0 < y < a → Z.max (zlimbs a) (zlimbs y) + 1 ≤ alloc_limit →
  (∀ s', holds (binds [tv; tu] [Some y; Some (a - y)] N) s' → wp never next post s') →
  wp never (vs ← size_of tv;
            if vs =? 1 then
              vp ← limbs_of tv; vl ← limbsZ (load vp); ul ← mpz_tdiv_ui tu vl; x ← lift (mpn_gcd_11 ul vl); mpz_set_ui g x
            else _ ← mpz_sub tu tu tv; next) post s.
Proof.
  intros post H Hay Hlim Hnext. eapply wp_size; [exact (holds_sizes _ _ H)|look|]. destruct (Z.eqb_spec (zsize y) 1) as [E1|E1].
  - assert (Z.abs y < B) as HyB by (apply zlimbs_le_1; rewrite <- zsize_abs; lia). destruct (low_limb _ s H tv y ltac:(look) ltac:(lia)) as (st & Ho & El).
    rewrite Z.mod_small, Z.abs_eq in El by lia. eapply wp_limbs; [exact Ho|]. eapply wp_limbsZ; [exact El|].
    apply wp_bind. eapply wp_mono; [apply (mpz_tdiv_ui_spec _ s tu a H ltac:(look) y); lia|]. intros ul s2 [-> H2]. pose proof (Z.mod_pos_bound (Z.abs a) y ltac:(lia)).
    eapply wp_then; [unfold lift; by rewrite mpn_gcd_11_spec by (unfold limb; lia)|]. rewrite gcd_mod_abs by lia. apply wp_bind_ret.
    pose proof (Z.gcd_nonneg a y). assert (Z.gcd a y ≤ y) by (apply Z.divide_pos_le; [lia|apply Z.gcd_divide_r]).
    into_var (mpz_set_ui_spec _ s2); [unfold limb; lia|]. eapply wp_run; [done|]. eexists _, _. eassumption.
  - into 1%nat (mpz_sub_spec _ s tu); [lia..|]. by apply Hnext.
Qed.

Lemma gcd_loop_spec fuel x y s :
  holds (binds [tv; tu] [Some y; Some x] N) s → 0 < x → 0 < y → Z.odd y = true →
  Z.log2 x + Z.log2 y + (if Z.odd x then 1 else 0) + 1 ≤ Z.of_nat fuel → Z.max (zlimbs x) (zlimbs y) + 1 ≤ alloc_limit →
  wp never (gcd_loop fuel g tu tv) (λ _ s', ∃ o1 o2, holds (binds [tv; tu] [o1; o2] (<[g := Some (Z.gcd x y)]> N)) s') s.
Proof.
  revert x y s. induction fuel as [|fuel IH]; intros x y s H Hx Hy Hoy Hf Hlim; [pose proof (Z.log2_nonneg x); pose proof (Z.log2_nonneg y); destruct (Z.odd x); lia|].
  cbn [gcd_loop]. apply wp_bind. eapply wp_mono; [apply (mpz_make_odd_spec _ s tu x H); [look|done|lia]|]. intros k s1 (a & Hk & Ea & Hoa & Ha & H1). at_place 1%nat H1.
  pose proof (Z.pow_pos_nonneg 2 k ltac:(lia) ltac:(lia)) as H2k. assert (Z.gcd x y = Z.gcd a y) as -> by (rewrite Ea; by apply gcd_odd_shift; [lia|]).
  assert (Z.log2 a + Z.log2 y + 2 ≤ Z.of_nat (S fuel)) as Hm.
  { destruct (Z.eq_dec k 0) as [->|Hk0]; [rewrite Z.pow_0_r, Z.mul_1_r in Ea; subst a; rewrite Hoa in Hf; lia|].
    pose proof (log2_half a x Ha) as Hh. rewrite Ea in Hh at 1. replace k with (1 + (k - 1)) in Hh by lia. rewrite Z.pow_add_r, Z.pow_1_r in Hh by lia.
    pose proof (Z.pow_pos_nonneg 2 (k - 1) ltac:(lia) ltac:(lia)). specialize (Hh ltac:(nia)). destruct (Z.odd x); lia. }
  assert (zlimbs a ≤ zlimbs x) as Hla by (apply zlimbs_mono; nia). clear Hf Ea Hk H2k k H.
  assert (∀ b c s', holds (binds [tv; tu] [Some c; Some (b - c)] N) s' → 0 < c < b → Z.odd b = true → Z.odd c = true → Z.log2 b + Z.log2 c + 2 ≤ Z.of_nat (S fuel) →
    Z.max (zlimbs b) (zlimbs c) + 1 ≤ alloc_limit → wp never (gcd_loop fuel g tu tv) (λ _ s', ∃ o1 o2, holds (binds [tv; tu] [o1; o2] (<[g := Some (Z.gcd b c)]> N)) s') s') as Hnext.
  { intros b c s' H' Hbc Hob Hoc Hlog Hlz. replace (Z.gcd b c) with (Z.gcd (b - c) c) by (by rewrite Z.gcd_comm, Z.gcd_sub_diag_r, Z.gcd_comm).
    apply (IH (b - c) c s' H'); [lia|lia|done| |].
    - rewrite Z.odd_sub, Hob, Hoc. pose proof (Z.log2_le_mono (b - c) b ltac:(lia)). simpl. lia.
    - pose proof (zlimbs_mono (b - c) b ltac:(lia)). lia. }
  eapply wp_reads; [eapply (mpz_cmp_spec _ s1 H1); look|]. destruct (cmp_sign_spec a y) as [[-> Hc]|[[-> Hc]|[-> Hc]]]; cbn [Z.eqb Z.ltb Z.compare whenM].
  - eapply (wp_swap_locals 1%nat 0%nat); [exact H1|done|reflexivity|reflexivity|reflexivity|reflexivity|done|]. intros s2 H2. cbn [insert list_insert] in H2. rewrite (Z.gcd_comm a y).
    apply gcd_round_spec; [done|lia|lia|]. intros s3 H3. by apply Hnext; (done || lia).
  - subst y. destruct Hg as [og Eg]. apply wp_bind_ret. eapply (wp_swap_result 1%nat); [exact H1|done|reflexivity|reflexivity|exact Eg|]. intros s2 H2 _. eapply wp_run; [done|].
    rewrite Z.gcd_diag, Z.abs_eq by lia. eexists _, _. exact H2.
  - eapply wp_then; [done|]. apply gcd_round_spec; [done|lia|lia|]. intros s3 H3. by apply Hnext; (done || lia).
Qed.
End loop.
End gcd.

Lemma zlimbs_shift z k : z ≠ 0 → 0 ≤ k → zlimbs z + k / 64 ≤ zlimbs (z * 2 ^ k).
Proof.
  intros Hz Hk. pose proof (Z.pow_pos_nonneg 2 k ltac:(lia) Hk). unfold zlimbs. rewrite (proj2 (Z.eqb_neq z 0)), (proj2 (Z.eqb_neq (z * 2 ^ k) 0)) by nia.
  rewrite Z.abs_mul, (Z.abs_eq (2 ^ k)), Z.log2_mul_pow2 by lia. pose proof (Z.div_mod (Z.log2 (Z.abs z)) 64 ltac:(lia)). pose proof (Z.div_mod k 64 ltac:(lia)).
  pose proof (Z.mod_pos_bound (Z.log2 (Z.abs z)) 64 ltac:(lia)). pose proof (Z.mod_pos_bound k 64 ltac:(lia)).
  assert (Z.log2 (Z.abs z) / 64 + k / 64 ≤ (k + Z.log2 (Z.abs z)) / 64) by (apply Z.div_le_lower_bound; lia). lia.
Qed.

Lemma log2_limbs z : 0 < z → Z.log2 z < 64 * zlimbs z.
Proof. intros Hz. apply Z.log2_lt_pow2; [done|]. rewrite <- B_pow by apply zlimbs_nonneg. pose proof (abs_lt z). lia. Qed.

Lemma gcd_le x y : x ≠ 0 → Z.gcd x y ≤ Z.abs x.
Proof. intros Hx. rewrite <- Z.gcd_abs_l. apply Z.divide_pos_le; [lia|]. apply Z.gcd_divide_l. Qed.

(** The algorithm after the two numbers have been made odd: the local
    variables, of which the second is at least as long as the first. *)
Lemma gcd_odd_spec F FB (D : positive → Prop) N s g tu tv a b :
  holds F FB D (binds [tv; tu] [Some b; Some a] N) s → locals [tv; tu] N → is_Some (N !! g) → 0 < a → 0 < b → Z.odd b = true → zlimbs b ≤ zlimbs a → zlimbs a + 1 ≤ alloc_limit →
  ∀ (k : M zst unit) Q,
  (∀ s' o1 o2, holds F FB D (binds [tv; tu] [o1; o2] (<[g := Some (Z.gcd a b)]> N)) s' → wp never k Q s') →
  wp never (_ ← mpz_tdiv_r tu tu tv; us ← size_of tu; vs ← size_of tv;
            _ ← (if us =? 0 then mpz_swap g tv else gcd_loop (gcd_fuel us vs) g tu tv); k) Q s.
Proof.
  intros H Hl Hg Ha Hb Hob Hle Hlim k Q Hk. unfold mpz_tdiv_r. rewrite wp_bind_assoc. apply wp_bind.
  eapply wp_mono; [apply (mpz_div_qr_spec F FB D _ s None (Some tu) tu tv a b GMP_DIV_TRUNC H); [done|cbn [opt_in]; look|done|look|look|lia|lia]|]. intros c s1 [_ H1].
  cbn [opt_set div_round snd] in H1. rewrite Z.rem_mod_nonneg in H1 by lia. at_place 1%nat H1. eapply wp_then; [done|].
  pose proof (Z.mod_pos_bound a b ltac:(lia)) as Hm. assert (Z.gcd a b = Z.gcd (a mod b) b) as Eg by (rewrite Z.gcd_mod by lia; apply Z.gcd_comm).
  eapply wp_size; [exact (holds_sizes _ _ H1)|look|]. eapply wp_size; [exact (holds_sizes _ _ H1)|look|]. destruct (Z.eqb_spec (zsize (a mod b)) 0) as [E0|E0].
  - apply (proj1 (zsize_0 _)) in E0. destruct Hg as [og Eg']. eapply (wp_swap_result 0%nat); [exact H1|done|reflexivity|reflexivity|exact Eg'|]. intros s2 H2 _. cbn [insert list_insert] in H2.
    eapply Hk. rewrite Eg, E0, Z.gcd_0_l, Z.abs_eq by lia. exact H2.
  - rewrite (zsize_0 (a mod b)) in E0. apply wp_bind. rewrite Eg in Hk. pose proof (zlimbs_mono (a mod b) b ltac:(lia)).
    eapply wp_mono; [apply (gcd_loop_spec N g tu tv Hl Hg _ (a mod b) b s1 H1); [lia|lia|done| |lia]|].
    + destruct (zsize_cases (a mod b)) as [[-> _]|[_ ?]]; [|lia]. destruct (zsize_cases b) as [[-> _]|[_ ?]]; [|lia].
      pose proof (log2_limbs (a mod b) ltac:(lia)). pose proof (log2_limbs b ltac:(lia)). unfold gcd_fuel, GMP_LIMB_BITS. destruct (Z.odd (a mod b)); lia.
    + intros [] s2 (o1 & o2 & H2). by eapply Hk.
Qed.

Lemma mpz_gcd_spec F FB (D : positive → Prop) N s g u v x y :
  holds F FB D N s → is_Some (N !! g) → N !! u = Some (Some x) → N !! v = Some (Some y) → Z.max (zlimbs x) (zlimbs y) + 1 ≤ alloc_limit →
  wp never (mpz_gcd g u v) (λ _ s', holds F FB D (<[g := Some (Z.gcd x y)]> N) s') s.
Proof.
  intros H Hg Hu Hv Hlim. unfold mpz_gcd. eapply wp_size; [exact (holds_sizes _ _ H)|done|]. destruct (Z.eqb_spec (zsize x) 0) as [E0|E0].
  { apply zsize_0 in E0 as ->. rewrite Z.gcd_0_l. by apply (mpz_abs_spec N s g v). }
  eapply wp_size; [exact (holds_sizes _ _ H)|done|]. destruct (Z.eqb_spec (zsize y) 0) as [E1|E1].
  { apply zsize_0 in E1 as ->. rewrite Z.gcd_0_r. by apply (mpz_abs_spec N s g u). }
  rewrite zsize_0 in E0, E1. eapply (wp_mono _ _ (λ _ s', True ∧ holds F FB D _ s')); [|intros [] s' [_ H']; exact H'].
  apply (wp_declare_to F FB D _ (λ _, True) N); [done|by intros x'; apply put_none|]. intros tu s1 D1 H1 HDu Htu _ _.
  apply (wp_declare_to F FB D1 _ (λ _, True) N); [done|by intros x'; apply put_none|]. intros tv s2 D2 H2 HDv Htv Hne HD12.
  assert (tv ≠ tu) as Htt by (intros ->; done). change N with (binds [] [] N) in H2. assert (locals [] N) as Hl by (split; constructor).
  eapply wp_init_local; [exact H2|done|done|apply not_elem_of_nil|by apply HD12|]. intros s3 H3 Hl3.
  eapply wp_init_local; [exact H3|done|done|by apply not_elem_of_cons; split; [|apply not_elem_of_nil]|done|]. intros s4 H4 Hl4.
  into 1%nat (mpz_abs_spec _ s4). apply wp_bind. pose proof (zlimbs_abs x) as Elx. pose proof (zlimbs_abs y) as Ely.
  eapply wp_mono; [apply (mpz_make_odd_spec _ _ tu (Z.abs x) ltac:(eassumption)); [look|lia|lia]|]. intros uz s6 (a & Huz & Ea & Hoa & Ha & H6). at_place 1%nat H6.
  into 0%nat (mpz_abs_spec _ s6). apply wp_bind.
  eapply wp_mono; [apply (mpz_make_odd_spec _ _ tv (Z.abs y) ltac:(eassumption)); [look|lia|lia]|]. intros vz s8 (b & Hvz & Eb & Hob & Hb & H8). at_place 0%nat H8. cbv zeta.
  assert (zlimbs a ≤ zlimbs x ∧ zlimbs b ≤ zlimbs y) as [Hla Hlb].
  { rewrite <- Elx, <- Ely, Ea, Eb. pose proof (Z.pow_pos_nonneg 2 uz ltac:(lia) ltac:(lia)). pose proof (Z.pow_pos_nonneg 2 vz ltac:(lia) ltac:(lia)). split; apply zlimbs_mono; nia. }
  assert (Z.gcd x y = Z.gcd a b * 2 ^ Z.min uz vz) as Eg by (rewrite <- (Z.gcd_abs_l x), <- (Z.gcd_abs_r _ y), Ea, Eb; apply gcd_common_shift; (done || lia)).
  assert (∀ s9 o1 o2, holds F FB D2 (binds [tv; tu] [o1; o2] (<[g := Some (Z.gcd a b)]> N)) s9 →
    wp never (_ ← mpz_clear tu; _ ← mpz_clear tv; mpz_mul_2exp g g (Z.min uz vz)) (λ _ s', True ∧ holds F FB D2 (<[g := Some (Z.gcd x y)]> N) s') s9) as Hend.
  { intros s9 o1 o2 H9. pose proof (locals_put _ _ Hl4 g (Some (Z.gcd a b)) Hg) as Hl9. clear Hl Hl3 Hl4. clear_local 1%nat. clear_local 0%nat. cbn [binds] in *.
    assert (Z.gcd a b ≠ 0) as Hg0 by (intros E; apply Z.gcd_eq_0_l in E; lia). pose proof (zlimbs_shift (Z.gcd a b) (Z.min uz vz) Hg0 ltac:(lia)) as Hsh. rewrite <- Eg in Hsh.
    pose proof (gcd_le x y E0) as Hgx. pose proof (Z.gcd_nonneg x y). pose proof (zlimbs_mono (Z.gcd x y) x ltac:(lia)).
    eapply wp_mono; [eapply (mpz_mul_2exp_spec _ _ g g (Z.gcd a b)); [eassumption|look|look|lia|lia]|]. intros [] s12 Hfin. rewrite insert_insert_eq, <- Eg in Hfin. done. }
  eapply wp_size; [exact (holds_sizes _ _ H8)|look|]. eapply wp_size; [exact (holds_sizes _ _ H8)|look|].
  destruct (zsize_cases a) as [[-> _]|[_ ?]]; [|lia]. destruct (zsize_cases b) as [[-> _]|[_ ?]]; [|lia]. destruct (Z.ltb_spec (zlimbs a) (zlimbs b)); cbn [whenM].
  - eapply (wp_swap_locals 1%nat 0%nat); [exact H8|done|reflexivity|reflexivity|reflexivity|reflexivity|done|]. intros s9 H9. cbn [insert list_insert] in H9. rewrite (Z.gcd_comm a b) in Hend.
    apply (gcd_odd_spec F FB D2 N s9 g tu tv b a H9 Hl4 Hg Hb Ha Hoa); [lia|lia|done].
  - eapply wp_then; [done|]. apply (gcd_odd_spec F FB D2 N s8 g tu tv a b H8 Hl4 Hg Ha Hb Hob); [lia|lia|done].
Qed.

(** ** Least common multiples *)

Lemma lcm_by_gcd x y : Z.abs (x / Z.gcd x y * y) = Z.lcm x y.
Proof. unfold Z.lcm. by rewrite Z.gcd_div_swap. Qed.

Lemma div_abs_le x d : 0 < d → (d | x) → Z.abs (x / d) ≤ Z.abs x.
Proof. intros Hd [k ->]. rewrite Z.div_mul by lia. nia. Qed.

Lemma mpz_lcm_spec F FB (D : positive → Prop) N s r u v x y :
  holds F FB D N s → is_Some (N !! r) → N !! u = Some (Some x) → N !! v = Some (Some y) → zlimbs x + zlimbs y + 1 ≤ alloc_limit →
  wp never (mpz_lcm r u v) (λ _ s', holds F FB D (<[r := Some (Z.lcm x y)]> N) s') s.
Proof.
  intros H Hr Hu Hv Hlim. unfold mpz_lcm. pose proof (zlimbs_nonneg x) as Hx0. pose proof (zlimbs_nonneg y) as Hy0.
  eapply wp_size; [exact (holds_sizes _ _ H)|done|]. eapply wp_size; [exact (holds_sizes _ _ H)|done|].
  destruct (decide (x = 0 ∨ y = 0)) as [Hz|Hz].
  { replace ((zsize x =? 0) || (zsize y =? 0)) with true; [|symmetry; apply orb_true_iff; rewrite !Z.eqb_eq, !zsize_0; tauto].
    rewrite (proj2 (Z.lcm_eq_0 x y) Hz). by apply set_size_zero. }
  apply Decidable.not_or in Hz as [Hx Hy]. replace ((zsize x =? 0) || (zsize y =? 0)) with false; [|symmetry; apply orb_false_iff; rewrite !Z.eqb_neq, !zsize_0; tauto].
  eapply (wp_mono _ _ (λ _ s', True ∧ holds F FB D _ s')); [|intros [] s' [_ H']; exact H'].
  apply (wp_declare_to F FB D _ (λ _, True) N); [done|by intros x'; apply put_none|]. intros g s1 D1 H1 HDg Hg _ _. change N with (binds [] [] N) in H1. assert (locals [] N) as Hl by (split; constructor).
  eapply wp_init_local; [exact H1|done|done|apply not_elem_of_nil|done|]. intros s2 H2 Hl2. assert (0 < Z.gcd x y) as Hgp by (pose proof (Z.gcd_nonneg x y); destruct (Z.eq_dec (Z.gcd x y) 0) as [E|]; [apply Z.gcd_eq_0_l in E|]; lia).
  pose proof (gcd_le x y Hx) as Hgle. pose proof (zlimbs_mono (Z.gcd x y) x ltac:(lia)) as Hlg. pose proof (zlimbs_mono _ _ (div_abs_le x _ Hgp (Z.gcd_divide_l x y))) as Hld.
  into 0%nat (mpz_gcd_spec _ _ _ _ s2 g u v x y); [lia..|]. into 0%nat (mpz_divexact_spec _ _ u x ltac:(eassumption) ltac:(look) g g (Z.gcd x y)); [lia|apply Z.gcd_divide_l|lia|].
  into_var (mpz_mul_spec _ _ r g v (x / Z.gcd x y) y); [lia..|]. clear_local 0%nat. cbn [binds] in *.
  eapply wp_mono; [eapply (mpz_abs_spec _ _ r r); [eassumption|look|look]|]. intros [] s' Hfin. rewrite insert_insert_eq, lcm_by_gcd in Hfin. done.
Qed.

Lemma mpz_lcm_ui_spec F FB (D : positive → Prop) N s r u x v :
  holds F FB D N s → is_Some (N !! r) → N !! u = Some (Some x) → limb v → zlimbs x + 1 ≤ alloc_limit →
  wp never (mpz_lcm_ui r u v) (λ _ s', holds F FB D (<[r := Some (Z.lcm x v)]> N) s') s.
Proof.
  intros H Hr Hu Hv Hlim. unfold mpz_lcm_ui. unfold limb in Hv. eapply wp_size; [exact (holds_sizes _ _ H)|done|]. destruct (decide (v = 0 ∨ x = 0)) as [Hz|Hz].
  { replace ((v =? 0) || (zsize x =? 0)) with true; [|symmetry; apply orb_true_iff; rewrite !Z.eqb_eq, !zsize_0; tauto].
    rewrite (proj2 (Z.lcm_eq_0 x v)) by tauto. by apply set_size_zero. }
  apply Decidable.not_or in Hz as [Hv0 Hx]. replace ((v =? 0) || (zsize x =? 0)) with false; [|symmetry; apply orb_false_iff; rewrite !Z.eqb_neq, !zsize_0; tauto].
  apply wp_bind. eapply wp_mono; [by apply (mpz_gcd_ui_spec N s None u x v H)|]. intros g s1 [-> H1]. cbn [opt_set] in H1. rewrite (proj2 (Z.eqb_neq v 0)) by done.
  assert (0 < Z.gcd x v) as Hgp by (pose proof (Z.gcd_nonneg x v); destruct (Z.eq_dec (Z.gcd x v) 0) as [E|]; [apply Z.gcd_eq_0_l in E|]; lia).
  apply wp_bind. eapply wp_mono; [apply (mpz_mul_ui_spec N s1 r u x _ H1 Hr Hu); [|lia]|].
  { pose proof (div_abs_le v _ Hgp (Z.gcd_divide_r x v)). pose proof (Z.div_pos v (Z.gcd x v) ltac:(lia) Hgp). unfold limb. lia. }
  intros [] s2 H2. eapply wp_mono; [apply (mpz_abs_spec _ s2 r r (x * (v / Z.gcd x v)) H2); look|]. intros [] s3. by rewrite insert_insert_eq.
Qed.
