(* ===== verification/MpzBits.v ===== *)
(** * Bits of integers

    mpz_tstbit, mpz_setbit, mpz_clrbit, mpz_combit and mpz_com. Numbers are read
    as if they were in two's complement with an infinite sign extension, as the
    bit operations of [Z] do. *)

From S2P Require Import Prelude Limbs Mpn Invert MpnDiv MpnDivN MpnStr MpnSetStr MpnGetStr Mpz MpzRep MpzArith MpzMul MpzDivision MpzFrame MpzDivShort.

(** ** Definitions *)

(** [while (--limb_index >= 0) if (d->_mp_d[limb_index] > 0) return bit ^ 1;] *)
Fixpoint any_limb (dp : Z) (n : nat) : M mem bool :=
  match n with
  | O => mret false
  | S n' => x ← load (dp + Z.of_nat n'); if 0 <? x then mret true else any_limb dp n'
  end.

Definition mpz_tstbit (d : positive) (bit_index : Z) : M zst bool :=
  ds ← size_of d;
  let dn := Z.abs ds in
  let limb_index := bit_index / GMP_LIMB_BITS in
  if dn <=? limb_index then mret (ds <? 0)
  else
    let shift := bit_index mod GMP_LIMB_BITS in
    dp ← limbs_of d;
    w ← limbsZ (load (dp + limb_index));
    let bit := Z.land (lshr w shift) 1 =? 1 in
    if ds <? 0 then
      if (0 <? shift) && (0 <? lshl w (GMP_LIMB_BITS - shift)) then mret (negb bit)
      else
        b ← limbsZ (any_limb dp (Z.to_nat limb_index));
        mret (if (b : bool) then negb bit else bit)
    else mret bit.

Definition mpz_abs_add_bit (d : positive) (bit_index : Z) : M zst unit :=
  ds ← size_of d;
  let dn := Z.abs ds in
  let limb_index := bit_index / GMP_LIMB_BITS in
  let bit := lshl 1 (bit_index mod GMP_LIMB_BITS) in
  dn ← (if dn <=? limb_index then
          dp ← MPZ_REALLOC d (limb_index + 1);
          _ ← limbsZ (store (dp + limb_index) bit);
          _ ← limbsZ (fill_limbs 0 (dp + dn) (Z.to_nat (limb_index - dn)));
          mret (limb_index + 1)
        else
          dp ← limbs_of d;
          cy ← limbsZ (mpn_add_1 (dp + limb_index) (dp + limb_index) (dn - limb_index) bit);
          if 0 <? cy then
            dp ← MPZ_REALLOC d (dn + 1);
            _ ← limbsZ (store (dp + dn) cy);
            mret (dn + 1)
          else mret dn);
  ds ← size_of d;
  set_size d (if ds <? 0 then - dn else dn).

Definition mpz_abs_sub_bit (d : positive) (bit_index : Z) : M zst unit :=
  ds ← size_of d;
  let dn := Z.abs ds in
  dp ← limbs_of d;
  let limb_index := bit_index / GMP_LIMB_BITS in
  let bit := lshl 1 (bit_index mod GMP_LIMB_BITS) in
  _ ← lift (assertion (limb_index <? dn));
  _ ← limbsZ (gmp_assert_nocarry (mpn_sub_1 (dp + limb_index) (dp + limb_index) (dn - limb_index) bit));
  dn ← limbsZ (mpn_normalized_size dp dn);
  ds ← size_of d;
  set_size d (if ds <? 0 then - dn else dn).

Definition mpz_setbit (d : positive) (bit_index : Z) : M zst unit :=
  b ← mpz_tstbit d bit_index;
  whenM (negb b) (ds ← size_of d; if 0 <=? ds then mpz_abs_add_bit d bit_index else mpz_abs_sub_bit d bit_index).

Definition mpz_clrbit (d : positive) (bit_index : Z) : M zst unit :=
  b ← mpz_tstbit d bit_index;
  whenM b (ds ← size_of d; if 0 <=? ds then mpz_abs_sub_bit d bit_index else mpz_abs_add_bit d bit_index).

Definition mpz_combit (d : positive) (bit_index : Z) : M zst unit :=
  b ← mpz_tstbit d bit_index;
  ds ← size_of d;
  if xorb b (ds <? 0) then mpz_abs_sub_bit d bit_index else mpz_abs_add_bit d bit_index.

Definition mpz_com (r u : positive) : M zst unit :=
  _ ← mpz_neg r u;
  mpz_sub_ui r r 1.

(** ** Bits of negative numbers *)

Lemma testbit_opp a i : 0 ≤ i → Z.testbit (- a) i = if a mod 2 ^ i =? 0 then Z.testbit a i else negb (Z.testbit a i).
Proof.
  intros Hi. pose proof (Z.pow_pos_nonneg 2 i ltac:(lia) Hi) as H2. rewrite !Z.testbit_odd, !Z.shiftr_div_pow2 by done. destruct (Z.eqb_spec (a mod 2 ^ i) 0) as [E|E].
  - rewrite Z.div_opp_l_z by (done || lia). apply Z.odd_opp.
  - rewrite Z.div_opp_l_nz by (done || lia). rewrite Z.odd_sub, Z.odd_opp. cbn. by rewrite xorb_true_r.
Qed.

Lemma odd_bit x : (Z.land x 1 =? 1) = Z.odd x.
Proof. change 1 with (Z.ones 1) at 1. rewrite Z.land_ones, Zmod_odd by lia. by destruct (Z.odd x). Qed.

(** The bit of a number in its limbs, and whether there are bits below. *)
Lemma limb_bit xs k x sh :
  Forall limb xs → xs !! k = Some x → 0 ≤ sh < 64 →
  Z.testbit (value xs) (64 * Z.of_nat k + sh) = Z.odd (lshr x sh) ∧
  (value xs mod 2 ^ (64 * Z.of_nat k + sh) = 0 ↔ x mod 2 ^ sh = 0 ∧ value (take k xs) = 0).
Proof.
  intros Hx Hk Hsh. pose proof (lookup_lt_Some _ _ _ Hk). destruct (split_bits xs k sh Hx ltac:(lia) ltac:(lia)) as [Eq Em].
  assert (2 ^ (64 * Z.of_nat k + sh) = B ^ Z.of_nat k * 2 ^ sh) as E2 by (rewrite B_pow, <- Z.pow_add_r by lia; done). rewrite (drop_S xs x k Hk) in Eq, Em.
  pose proof (Z.pow_pos_nonneg B (Z.of_nat k) ltac:(done) ltac:(lia)). pose proof (Z.pow_pos_nonneg 2 sh ltac:(lia) ltac:(lia)). rewrite value_mod_low in Em by done. split.
  - rewrite Z.testbit_odd, Z.shiftr_div_pow2, E2, Eq by lia. unfold lshr. rewrite Z.shiftr_div_pow2 by lia. cbn [value].
    replace B with (2 * (2 ^ (63 - sh) * 2 ^ sh)) by (rewrite <- Z.pow_add_r by lia; by replace (63 - sh + sh) with 63 by lia).
    replace (x + 2 * (2 ^ (63 - sh) * 2 ^ sh) * value (drop (S k) xs)) with (x + (2 * (2 ^ (63 - sh) * value (drop (S k) xs))) * 2 ^ sh) by lia.
    rewrite Z.div_add by lia. by rewrite Z.odd_add_mul_2.
  - rewrite E2, Em. pose proof (value_bounds _ (Forall_take _ k xs Hx)) as [Hlo _]. pose proof (Z.mod_pos_bound x (2 ^ sh) ltac:(lia)). split; [intros E|intros [-> ->]; lia]. nia.
Qed.

Lemma any_limb_spec m p xs : limbs_at m p xs → any_limb p (length xs) m = Done (negb (value xs =? 0)) m.
Proof.
  induction xs as [|x xs IH] using rev_ind; intros Hx; [done|]. apply limbs_at_app in Hx as [Hx Hy]. rewrite length_app, Nat.add_1_r. cbn [any_limb].
  pose proof (proj1 (limbs_at_cons _ _ _ _) Hy) as [[Hl Hc] _]. rewrite (bind_done _ _ _ _ _ (load_ok _ _ _ Hc)), value_app. cbn [value]. pose proof (value_bounds _ (proj1 Hx)) as [Hv _].
  pose proof (Z.pow_pos_nonneg B (Z.of_nat (length xs)) ltac:(done) ltac:(lia)). unfold limb in Hl. destruct (Z.ltb_spec 0 x).
  - unfold mret, M_ret. f_equal. symmetry. apply negb_true_iff, Z.eqb_neq. nia.
  - rewrite IH by done. replace x with 0 by lia. by replace (value xs + B ^ Z.of_nat (length xs) * (0 + B * 0)) with (value xs) by lia.
Qed.

Lemma shifted_out x sh : limb x → 0 ≤ sh < 64 → (0 <? sh) && (0 <? lshl x (64 - sh)) = negb (x mod 2 ^ sh =? 0).
Proof.
  intros Hx Hsh. destruct (Z.ltb_spec 0 sh) as [Hp|Hp]; cbn [andb]; [|replace sh with 0 by lia; by rewrite Z.pow_0_r, Z.mod_1_r].
  destruct (shift_parts x (64 - sh) Hx ltac:(lia)) as (_ & -> & _ & _). replace (64 - (64 - sh)) with sh by lia. pose proof (Z.pow_pos_nonneg 2 (64 - sh) ltac:(lia) ltac:(lia)).
  pose proof (Z.mod_pos_bound x (2 ^ sh) ltac:(apply Z.pow_pos_nonneg; lia)). destruct (Z.eqb_spec (x mod 2 ^ sh) 0) as [->|]; [done|]. apply Z.ltb_lt. nia.
Qed.

Section bits.
Context {F : gmap Z (option Z)} {FB : gmap Z Z} {D : positive → Prop}.
Local Abbreviation holds := (holds F FB D).
Local Abbreviation filled := (filled (F:=F) (FB:=FB) (D:=D)).
Local Abbreviation pending := (pending (F:=F) (FB:=FB) (D:=D)).

(** ** Reading a bit *)

Lemma same_mem s : set_mem s (zmem s) = s.
Proof. by destruct s. Qed.

Lemma mpz_tstbit_spec N s d z i : holds N s → N !! d = Some (Some z) → 0 ≤ i → reads (mpz_tstbit d i) s (Z.testbit z i).
Proof.
  intros H Hd Hi. unfold mpz_tstbit. eapply reads_size; [done|done|]. cbv zeta. rewrite zsize_abs. change GMP_LIMB_BITS with 64.
  pose proof (Z.div_mod i 64 ltac:(lia)) as Ei. pose proof (Z.mod_pos_bound i 64 ltac:(lia)) as Hsh. pose proof (Z.div_pos i 64 Hi ltac:(lia)) as Hk. pose proof (zsize_nonneg z) as Hsz.
  assert (0 ≤ z → z = Z.abs z) as Hpos by lia. assert (z < 0 → z = - Z.abs z) as Hneg by lia.
  destruct (Z.leb_spec (zlimbs z) (i / 64)) as [Hle|Hlt].
  - unfold reads, mret, M_ret. f_equal. pose proof (short_small z i Hi Hle) as Hs. destruct (Z.ltb_spec (zsize z) 0).
    + rewrite Hneg, testbit_opp, Z.mod_small, Z.testbit_odd, Z.shiftr_div_pow2, Z.div_small by lia. by rewrite (proj2 (Z.eqb_neq (Z.abs z) 0)) by lia.
    + rewrite Hpos, Z.testbit_odd, Z.shiftr_div_pow2, Z.div_small by lia. done.
  - destruct (holds_read N s d z H Hd) as (st & xs & Ho & Hxs & _ & Hlen & _ & Hval & _). set (k := Z.to_nat (i / 64)). assert (i / 64 = Z.of_nat k) as Ek by (unfold k; lia).
    destruct (lookup_lt_is_Some_2 xs k ltac:(lia)) as [x Hx]. pose proof (Forall_lookup_1 _ _ _ _ (proj1 Hxs) Hx) as Hlx. rewrite Ek in *.
    unfold reads. rewrite (bind_done _ _ _ _ _ (limbs_of_own _ _ _ _ Ho)), (bind_done _ _ _ _ _ (limbsZ_run _ _ _ _ (load_limbs _ _ _ _ _ Hxs Hx))), same_mem.
    rewrite odd_bit. destruct (limb_bit xs k x (i mod 64) (proj1 Hxs) Hx Hsh) as [Eb Em]. rewrite <- Ei, Hval in Eb, Em. rewrite <- Eb. destruct (Z.ltb_spec (zsize z) 0).
    + rewrite shifted_out by (done || lia). destruct (limbs_at_split _ _ k _ Hxs ltac:(lia)) as [Hlo _]. pose proof (any_limb_spec _ _ _ Hlo) as Ea. rewrite length_take, Nat.min_l in Ea by lia.
      rewrite (Hneg ltac:(lia)) at 2. rewrite testbit_opp by lia. destruct (Z.eqb_spec (x mod 2 ^ (i mod 64)) 0) as [E0|E0]; cbn [negb].
      * rewrite (bind_done _ _ _ _ _ (limbsZ_run _ _ _ _ Ea)), same_mem. unfold mret, M_ret. f_equal.
        destruct (Z.eqb_spec (value (take k xs)) 0), (Z.eqb_spec (Z.abs z mod 2 ^ i) 0); cbn [negb]; tauto.
      * unfold mret, M_ret. f_equal. destruct (Z.eqb_spec (Z.abs z mod 2 ^ i) 0); tauto.
    + unfold mret, M_ret. f_equal. f_equal. lia.
Qed.

(** ** Adding and subtracting a power of two *)

(** Making room keeps the limbs that are there. *)
Lemma MPZ_REALLOC_keeps N s r st n p s' xs :
  holds N s → own N s r st → n ≤ alloc_limit → MPZ_REALLOC r n s = Done p s' → limbs_at (zmem s) (mp_d st) xs → Z.of_nat (length xs) ≤ mp_alloc st → limbs_at (zmem s') p xs.
Proof.
  intros H Ho Hn E Hx Hl. unfold MPZ_REALLOC in E. rewrite (bind_done _ _ _ _ _ (get_mpz_ok _ _ _ _ Ho)) in E. destruct (Z.ltb_spec (mp_alloc st) n) as [Hlt|Hge].
  - destruct (own_block _ _ _ _ H Ho) as ([Hal _] & _). destruct (Z.eq_dec (mp_alloc st) 0) as [E0|E0]; [destruct xs; [apply limbs_at_nil|simpl in Hl; lia]|].
    destruct (realloc_moves N s r st n H Ho ltac:(lia) ltac:(lia)) as (m' & Em & _ & _ & _ & _ & _ & Hkeep). unfold mpz_realloc in E. rewrite (proj2 (Z.ltb_lt 1 n)) in E by lia. cbv zeta in E.
    rewrite (bind_done _ _ _ _ _ (get_mpz_ok _ _ _ _ Ho)), (proj2 (Z.eqb_neq _ 0) E0) in E. cbn [negb] in E. rewrite (bind_done _ _ _ _ _ (limbsZ_run _ _ _ _ Em)) in E.
    rewrite (bind_done _ _ _ _ _ (put_mpz_ok N (set_mem s m') r st _ Ho)) in E. injection E as <- <-. apply Hkeep; (done || lia).
  - injection E as <- <-. done.
Qed.

(** A power of two set in a variable that is 0. *)
Lemma setbit_0 k : 0 ≤ k → Z.setbit 0 k = 2 ^ k.
Proof. intros Hk. rewrite Z.setbit_spec', Z.lor_0_l. done. Qed.

Section change.
Context (N : vars) (s : zst) (d : positive) (z i : Z).
Hypotheses (H : holds N s) (Hd : N !! d = Some (Some z)) (Hi : 0 ≤ i).
Let li := i / 64.
Let bit := lshl 1 (i mod 64).

Lemma bit_value : 0 ≤ li ∧ 0 < bit < B ∧ 2 ^ i = B ^ li * bit.
Proof.
  pose proof (Z.mod_pos_bound i 64 ltac:(lia)) as Hsh. pose proof (Z.div_pos i 64 Hi ltac:(lia)) as Hk. pose proof (pow2_limb (i mod 64) Hsh). unfold GMP_LIMB_HIGHBIT in *.
  assert (bit = 2 ^ (i mod 64)) as -> by (unfold bit, lshl; rewrite Z.shiftl_1_l; apply u64_small; unfold SIZE_MOD; lia). split; [done|]. split; [unfold B; lia|].
  unfold li. rewrite B_pow, <- Z.pow_add_r by lia. f_equal. apply Z.div_mod. lia.
Qed.

(** The number is there up to its size, of which the sign is still the old one. *)
Definition resized (n v : Z) (s' : zst) : Prop := pending N s' d n v ∧ size_of d s' = Done (zsize z) s'.

Lemma wp_resize n v s' : resized n v s' →
  wp never (ds ← size_of d; set_size d (if ds <? 0 then - n else n)) (λ _ s', holds (<[d := Some (if z <? 0 then - v else v)]> N) s') s'.
Proof.
  intros [Hp Es]. eapply wp_then; [exact Es|]. pose proof (zsize_nonneg z). replace (z <? 0) with (zsize z <? 0) by (destruct (Z.ltb_spec (zsize z) 0), (Z.ltb_spec z 0); (done || lia)).
  by apply finish_signed.
Qed.

(** A bit beyond the limbs. *)
Lemma add_bit_above :
  zlimbs z ≤ li → li + 1 ≤ alloc_limit →
  wp never (dp ← MPZ_REALLOC d (li + 1); _ ← limbsZ (store (dp + li) bit); _ ← limbsZ (fill_limbs 0 (dp + zlimbs z) (Z.to_nat (li - zlimbs z))); mret (li + 1))
    (λ n s', resized n (Z.abs z + 2 ^ i) s') s.
Proof.
  intros Hle Hlim. destruct bit_value as (Hli & Hbit & E2). pose proof (zlimbs_nonneg z). apply (wp_realloc N s d _ _ _ H ltac:(eauto)); [lia|]. intros s1 st H1 Ho Hal.
  destruct (holds_read N s1 d z H1 Hd) as (st' & xs & Ho' & Hxs & Hn & Hlen & _ & Hval & _). assert (st' = st) as -> by (destruct Ho as [_ ?], Ho' as [_ ?]; congruence).
  set (c := Z.to_nat (li - zlimbs z)). assert (Z.of_nat c = li - zlimbs z) as Ec by (unfold c; lia).
  eapply wp_then; [apply limbsZ_run, store_ok|].
  { replace (mp_d st + li) with (mp_d st + Z.of_nat (Z.to_nat li)) by lia. apply (own_writable N s1 d st (S (Z.to_nat li)) H1 Ho); lia. }
  eapply wp_then; [apply limbsZ_run, fill_limbs_spec; cbn [zmem set_mem]|].
  { rewrite <- Hlen. intros j Hj. replace (mp_d st + Z.of_nat (length xs) + Z.of_nat j) with (mp_d st + Z.of_nat (length xs + j)) by lia.
    apply (writable_write _ _ _ _ (length xs + j + 1) (own_writable N s1 d st (length xs + j + 1) H1 Ho ltac:(lia))). lia. }
  eapply wp_run; [done|]. replace (mp_d st + li) with (mp_d st + zlimbs z + Z.of_nat (length (replicate c 0))) by (rewrite length_replicate; lia). cbn [zmem set_mem].
  unfold set_mem. cbn [zmem zvars zlocal]. fold (set_mem s1 (write (write (zmem s1) (mp_d st + zlimbs z + Z.of_nat (length (replicate c 0))) [bit]) (mp_d st + zlimbs z) (replicate c 0))).
  rewrite write_below. rewrite <- Hlen in *. assert (Forall limb (replicate c 0 ++ [bit])) as Hy.
  { apply Forall_app. split; [by apply Forall_replicate; unfold limb|]. constructor; [unfold limb; lia|constructor]. }
  split.
  - exists st, (xs ++ replicate c 0 ++ [bit]). split; [apply filled_append; [|done|rewrite length_app, length_replicate; simpl; lia]|].
    { split; [apply holds_raw; [done|eauto]|]. split; [done|]. split; [done|lia]. }
    assert (Z.of_nat (length (xs ++ replicate c 0 ++ [bit])) = li + 1) as El by (rewrite !length_app, length_replicate; simpl; lia).
    rewrite Z.abs_eq by lia. split; [lia|]. rewrite take_ge by lia. split.
    + unfold normalized. rewrite (assoc_L (++)), last_snoc. intros [= E]. lia.
    + rewrite Z.sgn_pos by lia. rewrite value_app, value_zeros, Hval, E2. cbn [value]. replace li with (Z.of_nat (length xs) + Z.of_nat c) by lia. rewrite Z.pow_add_r by lia. lia.
  - apply sizes_set_mem with (N := N); [exact (holds_sizes _ _ H1)|done].
Qed.

(** The limbs from the one with the bit on, after a computation on them. *)
Lemma upper_limbs {A} st xs (k : M mem A) c rs :
  own N s d st → limbs_at (zmem s) (mp_d st) xs → Z.of_nat (length xs) ≤ mp_alloc st → li < Z.of_nat (length xs) →
  k (zmem s) = Done c (write (zmem s) (mp_d st + li) rs) → Forall limb rs → length rs = length (drop (Z.to_nat li) xs) →
  let ys := take (Z.to_nat li) xs ++ rs in
  limbsZ k s = Done c (set_mem s (write (zmem s) (mp_d st) ys)) ∧ filled N (set_mem s (write (zmem s) (mp_d st) ys)) d st ys ∧ length ys = length xs ∧
  value ys = value (take (Z.to_nat li) xs) + B ^ li * value rs.
Proof.
  intros Ho Hxs Hal Hlt E Hrs Lrs ys. destruct bit_value as (Hli & _ & _). rewrite length_drop in Lrs. destruct (limbs_at_split _ _ (Z.to_nat li) _ Hxs ltac:(lia)) as [Hlo _].
  assert (length ys = length xs) as Ly by (unfold ys; rewrite length_app, length_take; lia).
  assert (write (zmem s) (mp_d st + li) rs = write (zmem s) (mp_d st) ys) as Ew.
  { unfold ys. rewrite <- (write_after _ _ _ _ Hlo), length_take, Nat.min_l by lia. do 2 f_equal. lia. }
  rewrite Ew in E. split; [by apply limbsZ_run|]. split; [|split; [done|]].
  - apply (filled_mem N s d st ys H Ho); [|lia]. apply Forall_app. split; [apply Hlo|done].
  - unfold ys. rewrite value_app, length_take, Nat.min_l by lia. do 3 f_equal. lia.
Qed.

Lemma split_at_bit st xs : own N s d st → limbs_at (zmem s) (mp_d st) xs → li < Z.of_nat (length xs) →
  limbs_at (zmem s) (mp_d st + li) (drop (Z.to_nat li) xs) ∧ writable (zmem s) (mp_d st + li) (length (drop (Z.to_nat li) xs)) ∧
  Z.of_nat (length (drop (Z.to_nat li) xs)) = Z.of_nat (length xs) - li ∧ value xs = value (take (Z.to_nat li) xs) + B ^ li * value (drop (Z.to_nat li) xs) ∧
  0 ≤ value (take (Z.to_nat li) xs) < B ^ li.
Proof.
  intros Ho Hxs Hlt. destruct bit_value as (Hli & _ & _). destruct (limbs_at_split _ _ (Z.to_nat li) _ Hxs ltac:(lia)) as [Hlo Hhi]. rewrite Z2Nat.id in Hhi by done.
  split; [done|]. split; [by apply writable_limbs|]. split; [rewrite length_drop; lia|]. pose proof (value_split (Z.to_nat li) xs ltac:(lia)) as V. rewrite Z2Nat.id in V by done. split; [done|].
  pose proof (value_bounds _ (proj1 Hlo)) as Hb. rewrite length_take, Nat.min_l, Z2Nat.id in Hb by lia. done.
Qed.

(** A bit within the limbs; a carry makes one more. *)
Lemma add_bit_within :
  li < zlimbs z → zlimbs z + 1 ≤ alloc_limit →
  wp never (dp ← limbs_of d; cy ← limbsZ (mpn_add_1 (dp + li) (dp + li) (zlimbs z - li) bit);
            if 0 <? cy then dp ← MPZ_REALLOC d (zlimbs z + 1); _ ← limbsZ (store (dp + zlimbs z) cy); mret (zlimbs z + 1) else mret (zlimbs z))
    (λ n s', resized n (Z.abs z + 2 ^ i) s') s.
Proof.
  intros Hlt Hlim. destruct bit_value as (Hli & Hbit & E2). assert (z ≠ 0) as Hz by (intros ->; unfold zlimbs in Hlt; simpl in Hlt; lia).
  destruct (holds_read N s d z H Hd) as (st & xs & Ho & Hxs & Hn & Hlen & Hsz & Hval & Hal). eapply wp_limbs; [exact Ho|]. rewrite <- Hlen in *.
  destruct (split_at_bit st xs Ho Hxs Hlt) as (Hhi & Hw & Lhi & V & Hlo).
  destruct (mpn_add_1_spec (zmem s) (mp_d st + li) (mp_d st + li) (drop (Z.to_nat li) xs) bit ltac:(unfold limb; lia) ltac:(lia) Hhi Hw ltac:(left; lia)) as (cy & rs & E & Hrs & Lrs & Hcy & Vr).
  rewrite Lhi in E, Vr. destruct (upper_limbs st xs _ cy rs Ho Hxs Hal Hlt E Hrs Lrs) as (Er & Hf & Ly & Vy). set (ys := take (Z.to_nat li) xs ++ rs) in *.
  eapply wp_then; [exact Er|]. set (s1 := set_mem s _) in *. assert (value ys + B ^ Z.of_nat (length ys) * cy = Z.abs z + 2 ^ i) as Vt.
  { rewrite Vy, Ly, <- Hval, V, E2. replace (Z.of_nat (length xs)) with (li + (Z.of_nat (length xs) - li)) by lia. rewrite Z.pow_add_r by lia. rewrite Z.add_simpl_l || idtac. nia. }
  pose proof (abs_ge z Hz) as Hge. rewrite <- Hlen in Hge. pose proof (Z.pow_pos_nonneg 2 i ltac:(lia) Hi). unfold limb in Hcy. destruct (Z.ltb_spec 0 cy) as [Hc|Hc].
  - pose proof Hf as (H1 & Ho1 & Hl1 & Hle1). pose proof (raw_own _ _ _ _ Ho1) as Hor1. pose proof (MPZ_REALLOC_spec _ s1 d st (Z.of_nat (length xs) + 1) H1 Hor1 ltac:(lia)) as Hre.
    apply wp_bind. unfold wp in Hre |- *. destruct (MPZ_REALLOC d (Z.of_nat (length xs) + 1) s1) as [p s2|c s2|e] eqn:Ere; [|done|done].
    destruct Hre as (H2 & _ & st2 & Ho2 & <- & Hal2 & Hsz2). pose proof (MPZ_REALLOC_keeps _ s1 d st (Z.of_nat (length xs) + 1) _ s2 ys H1 Hor1 ltac:(lia) Ere Hl1 Hle1) as Hl2.
    assert (filled N s2 d st2 ys) as Hf2 by (split; [done|]; split; [eapply own_raw; [exact Ho2|eauto]|]; split; [done|lia]).
    rewrite <- Ly. eapply wp_bind, wp_mono; [apply (filled_store N s2 d st2 ys cy Hf2); [unfold limb; lia|lia]|]. intros [] s3 [-> Hf3]. eapply wp_run; [done|]. split.
    + replace (Z.of_nat (length ys) + 1) with (Z.of_nat (length ys) + b2l (0 <? cy)) by (rewrite (proj2 (Z.ltb_lt 0 cy)) by lia; done). apply (carry_pending N _ d st2 ys cy _ Hf3); [lia|done|lia|].
      rewrite Ly. lia.
    + pose proof Hf3 as (_ & Ho3 & _). rewrite (size_of_own _ _ _ _ Ho3), Hsz2, Hsz; [done|]. left. rewrite Hsz, zsize_abs. lia.
  - eapply wp_run; [done|]. assert (cy = 0) as -> by lia. split.
    + exists st, ys. rewrite Z.abs_eq, Nat2Z.id, take_ge by lia. split; [done|]. split; [lia|]. destruct Hf as (_ & _ & [Hys _] & _). split; [|rewrite Z.sgn_pos by lia; lia].
      apply normalized_ge; [done|lia|]. replace (Z.of_nat (pred (length ys))) with (Z.of_nat (length xs) - 1) by lia. lia.
    + apply sizes_set_mem with (N := N); [exact (holds_sizes _ _ H)|done].
Qed.

Lemma mpz_abs_add_bit_spec :
  li + 1 ≤ alloc_limit → zlimbs z + 1 ≤ alloc_limit →
  wp never (mpz_abs_add_bit d i) (λ _ s', holds (<[d := Some (if z <? 0 then - (Z.abs z + 2 ^ i) else Z.abs z + 2 ^ i)]> N) s') s.
Proof.
  intros Hlim Hlz. unfold mpz_abs_add_bit. eapply wp_size; [exact (holds_sizes _ _ H)|done|]. cbv zeta. rewrite zsize_abs. change GMP_LIMB_BITS with 64. fold li bit.
  apply wp_bind. destruct (Z.leb_spec (zlimbs z) li).
  - eapply wp_mono; [by apply add_bit_above|]. intros n s1 Hr. by apply wp_resize.
  - eapply wp_mono; [by apply add_bit_within|]. intros n s1 Hr. by apply wp_resize.
Qed.

Lemma mpz_abs_sub_bit_spec :
  2 ^ i ≤ Z.abs z → wp never (mpz_abs_sub_bit d i) (λ _ s', holds (<[d := Some (if z <? 0 then - (Z.abs z - 2 ^ i) else Z.abs z - 2 ^ i)]> N) s') s.
Proof.
  intros Hge. destruct bit_value as (Hli & Hbit & E2). unfold mpz_abs_sub_bit. eapply wp_size; [exact (holds_sizes _ _ H)|done|]. cbv zeta. rewrite zsize_abs. change GMP_LIMB_BITS with 64. fold li bit.
  assert (li < zlimbs z) as Hlt. { destruct (Z.lt_ge_cases li (zlimbs z)) as [|Hle]; [done|]. pose proof (short_small z i Hi Hle). lia. }
  destruct (holds_read N s d z H Hd) as (st & xs & Ho & Hxs & Hn & Hlen & Hsz & Hval & Hal). eapply wp_limbs; [exact Ho|]. rewrite <- Hlen in *.
  eapply wp_then; [unfold lift, assertion; by rewrite (proj2 (Z.ltb_lt li _)) by lia|]. destruct (split_at_bit st xs Ho Hxs Hlt) as (Hhi & Hw & Lhi & V & Hlo).
  destruct (mpn_sub_1_spec (zmem s) (mp_d st + li) (mp_d st + li) (drop (Z.to_nat li) xs) bit ltac:(unfold limb; lia) ltac:(lia) Hhi Hw ltac:(left; lia)) as (cy & rs & E & Hrs & Lrs & Hcy & Vr).
  rewrite Lhi in E, Vr. pose proof (value_bounds rs Hrs) as [Hr0 Hrb]. rewrite Lrs, Lhi in Hrb. pose proof (Z.pow_pos_nonneg B li ltac:(done) Hli). unfold limb in Hcy.
  assert (cy = 0) as ->. { destruct (Z.eq_dec cy 0) as [|Hne]; [done|]. exfalso. rewrite <- Hval, V, E2 in Hge. assert (bit ≤ value (drop (Z.to_nat li) xs)) by nia. nia. }
  destruct (upper_limbs st xs (gmp_assert_nocarry (mpn_sub_1 (mp_d st + li) (mp_d st + li) (Z.of_nat (length xs) - li) bit)) tt rs Ho Hxs Hal Hlt) as (Er & Hf & Ly & Vy); [|done|done|].
  { unfold gmp_assert_nocarry. rewrite (bind_done _ _ _ _ _ E). done. }
  set (ys := take (Z.to_nat li) xs ++ rs) in *. eapply wp_then; [exact Er|]. rewrite <- Ly. apply wp_bind. eapply wp_mono; [exact (wp_normalized N _ d st ys Hf)|]. intros n s1 [-> Hp].
  apply wp_resize. split; [|apply sizes_set_mem with (N := N); [exact (holds_sizes _ _ H)|done]].
  replace (Z.abs z - 2 ^ i) with (value ys); [done|]. rewrite Vy, <- Hval, V, E2. nia.
Qed.
End change.

(** ** Setting, clearing and complementing a bit *)

Lemma land_bit z i : 0 ≤ i → Z.land z (2 ^ i) = if Z.testbit z i then 2 ^ i else 0.
Proof.
  intros Hi. apply Z.bits_inj'. intros j Hj. rewrite Z.land_spec, Z.pow2_bits_eqb by done. destruct (Z.eqb_spec i j) as [->|Hne].
  - rewrite andb_true_r. destruct (Z.testbit z j); [|by rewrite Z.bits_0]. by rewrite Z.pow2_bits_true.
  - rewrite andb_false_r. destruct (Z.testbit z i); [|by rewrite Z.bits_0]. by rewrite Z.pow2_bits_false.
Qed.

Lemma lxor_bit z i : 0 ≤ i → Z.lxor z (2 ^ i) = if Z.testbit z i then z - 2 ^ i else z + 2 ^ i.
Proof.
  intros Hi. pose proof (land_bit z i Hi) as Hl. destruct (Z.testbit z i) eqn:Hb.
  - assert (Z.ldiff (2 ^ i) z = 0) as H0 by (apply Z.bits_inj'; intros j Hj; rewrite Z.ldiff_spec, Z.pow2_bits_eqb, Z.bits_0 by done;
      destruct (Z.eqb_spec i j) as [->|]; by rewrite ?Hb).
    rewrite Z.sub_nocarry_ldiff by done. apply Z.bits_inj'. intros j Hj. rewrite Z.lxor_spec, Z.ldiff_spec, Z.pow2_bits_eqb by done.
    destruct (Z.eqb_spec i j) as [->|Hne]; rewrite ?Hb; by destruct (Z.testbit z j).
  - by rewrite Z.add_nocarry_lxor.
Qed.

Lemma setbit_add z i : 0 ≤ i → Z.testbit z i = false → Z.setbit z i = z + 2 ^ i.
Proof.
  intros Hi Hb. rewrite Z.setbit_spec'. pose proof (land_bit z i Hi) as Hl. rewrite Hb in Hl. rewrite Z.add_nocarry_lxor by done. by rewrite Z.lxor_lor.
Qed.

Lemma clearbit_sub z i : 0 ≤ i → Z.testbit z i = true → Z.clearbit z i = z - 2 ^ i.
Proof.
  intros Hi Hb. rewrite Z.clearbit_spec'. pose proof (lxor_bit z i Hi) as Hl. rewrite Hb in Hl. rewrite <- Hl.
  apply Z.bits_inj'. intros j Hj. rewrite Z.ldiff_spec, Z.lxor_spec, Z.pow2_bits_eqb by done. destruct (Z.eqb_spec i j) as [->|Hne]; rewrite ?Hb; by destruct (Z.testbit z j).
Qed.

(** A set bit of a positive number, or a clear one of a negative number, is
    within the absolute value. *)
Lemma bit_within z i : 0 ≤ i → xorb (Z.testbit z i) (z <? 0) = true → 2 ^ i ≤ Z.abs z.
Proof.
  intros Hi Hb. pose proof (Z.pow_pos_nonneg 2 i ltac:(lia) Hi). destruct (Z.lt_ge_cases (Z.abs z) (2 ^ i)) as [Hlt|]; [exfalso|done].
  assert (Z.testbit (Z.abs z) i = false) as Ha by (rewrite Z.testbit_odd, Z.shiftr_div_pow2, Z.div_small by lia; done).
  destruct (Z.ltb_spec z 0) as [Hz|Hz].
  - replace z with (- Z.abs z) in Hb by lia. rewrite testbit_opp, Z.mod_small, Ha, (proj2 (Z.eqb_neq _ 0)) in Hb by lia. done.
  - replace z with (Z.abs z) in Hb by lia. by rewrite Ha in Hb.
Qed.

Section set.
Context (N : vars) (s : zst) (d : positive) (z i : Z).
Hypotheses (H : holds N s) (Hd : N !! d = Some (Some z)) (Hi : 0 ≤ i) (Hlim : i / 64 + 1 ≤ alloc_limit) (Hlz : zlimbs z + 1 ≤ alloc_limit).

Lemma size_sign : (zsize z <? 0) = (z <? 0) ∧ (0 <=? zsize z) = negb (z <? 0).
Proof. pose proof (zsize_nonneg z). destruct (Z.ltb_spec (zsize z) 0), (Z.ltb_spec z 0), (Z.leb_spec 0 (zsize z)); (done || lia). Qed.

Lemma mpz_combit_spec : wp never (mpz_combit d i) (λ _ s', holds (<[d := Some (Z.lxor z (2 ^ i))]> N) s') s.
Proof.
  unfold mpz_combit. eapply wp_reads; [by apply (mpz_tstbit_spec N)|]. eapply wp_size; [exact (holds_sizes _ _ H)|done|]. rewrite (proj1 size_sign), lxor_bit by done.
  destruct (xorb (Z.testbit z i) (z <? 0)) eqn:Ex.
  - eapply wp_mono; [apply (mpz_abs_sub_bit_spec N s d z i H Hd Hi), bit_within; done|]. intros [] s1.
    replace (if Z.testbit z i then z - 2 ^ i else z + 2 ^ i) with (if z <? 0 then - (Z.abs z - 2 ^ i) else Z.abs z - 2 ^ i); [done|].
    destruct (Z.testbit z i), (Z.ltb_spec z 0); simpl in Ex; (done || lia).
  - eapply wp_mono; [by apply (mpz_abs_add_bit_spec N s d z i H Hd Hi)|]. intros [] s1.
    replace (if Z.testbit z i then z - 2 ^ i else z + 2 ^ i) with (if z <? 0 then - (Z.abs z + 2 ^ i) else Z.abs z + 2 ^ i); [done|].
    destruct (Z.testbit z i), (Z.ltb_spec z 0); simpl in Ex; (done || lia).
Qed.

(** [mpz_setbit] and [mpz_clrbit] complement the bit when it is not as it should be. *)
Lemma complement_bit (b : bool) :
  Z.testbit z i = b →
  wp never (if xorb b (z <? 0) then mpz_abs_sub_bit d i else mpz_abs_add_bit d i) (λ _ s', holds (<[d := Some (Z.lxor z (2 ^ i))]> N) s') s.
Proof.
  intros <-. pose proof mpz_combit_spec as Hc. unfold mpz_combit in Hc. unfold wp in *.
  by rewrite (bind_done _ _ _ _ _ (mpz_tstbit_spec N s d z i H Hd Hi)), (bind_done _ _ _ _ _ (size_of_ok N s d z H Hd)), (proj1 size_sign) in Hc.
Qed.

Lemma mpz_setbit_spec : wp never (mpz_setbit d i) (λ _ s', holds (<[d := Some (Z.setbit z i)]> N) s') s.
Proof.
  unfold mpz_setbit. eapply wp_reads; [by apply (mpz_tstbit_spec N)|]. destruct (Z.testbit z i) eqn:Eb; cbn [negb whenM].
  - eapply wp_run; [done|]. replace (Z.setbit z i) with z; [by rewrite insert_id|]. apply Z.bits_inj'. intros j Hj. rewrite Z.setbit_eqb by done. destruct (Z.eqb_spec i j) as [->|]; [by rewrite Eb|done].
  - eapply wp_size; [exact (holds_sizes _ _ H)|done|]. rewrite (proj2 size_sign), setbit_add by done. pose proof (complement_bit false Eb) as Hc. rewrite lxor_bit, Eb in Hc by done. by destruct (z <? 0).
Qed.

Lemma mpz_clrbit_spec : wp never (mpz_clrbit d i) (λ _ s', holds (<[d := Some (Z.clearbit z i)]> N) s') s.
Proof.
  unfold mpz_clrbit. eapply wp_reads; [by apply (mpz_tstbit_spec N)|]. destruct (Z.testbit z i) eqn:Eb; cbn [whenM].
  - eapply wp_size; [exact (holds_sizes _ _ H)|done|]. rewrite (proj2 size_sign), clearbit_sub by done. pose proof (complement_bit true Eb) as Hc. rewrite lxor_bit, Eb in Hc by done. by destruct (z <? 0).
  - eapply wp_run; [done|]. replace (Z.clearbit z i) with z; [by rewrite insert_id|]. apply Z.bits_inj'. intros j Hj. rewrite Z.clearbit_eqb by done. destruct (Z.eqb_spec i j) as [->|]; [by rewrite Eb|by rewrite andb_true_r].
Qed.
End set.

Lemma mpz_com_spec N s r u z :
  holds N s → is_Some (N !! r) → N !! u = Some (Some z) → zlimbs z + 1 ≤ alloc_limit → wp never (mpz_com r u) (λ _ s', holds (<[r := Some (Z.lnot z)]> N) s') s.
Proof.
  intros H Hr Hu Hlim. unfold mpz_com. apply wp_bind. eapply wp_mono; [exact (mpz_neg_spec N s r u z H Hr Hu)|]. intros [] s1 H1.
  eapply wp_mono; [apply (mpz_sub_ui_spec _ s1 r H1 ltac:(rewrite lookup_insert_eq; eauto) r (- z) 1); [by rewrite lookup_insert_eq|done|]|].
  - rewrite <- zlimbs_abs, Z.abs_opp, zlimbs_abs. done.
  - intros [] s2. rewrite insert_insert_eq. by replace (Z.lnot z) with (- z - 1) by (unfold Z.lnot; lia).
Qed.
End bits.
