(* ===== verification/MpzGcdExt.v ===== *)
(** * The extended greatest common divisor

    mpz_gcdext and mpz_invert. The cofactors are kept with a power of two,
    which a second loop removes one factor at a time. *)

From Stdlib Require Import Zdivisibility.
From S2P Require Import Prelude Limbs Mpn Invert MpnDiv MpnDivN MpnStr MpnSetStr MpnGetStr Mpz MpzRep MpzArith MpzMul MpzDivision MpzFrame MpzDivShort MpzLocals MpzGcd MpzBits.

(** ** Definitions *)

(** A limb that may not have been written yet: its value does not matter. *)
Definition peek (p : Z) : M mem Z := λ m,
  match cells m !! p with Some (Some v) => Done v m | Some None => Done 0 m | None => Failed Undefined end.

(** [((z)->_mp_size != 0) & (int) (z)->_mp_d[0]] *)
Definition mpz_odd_p (z : positive) : M zst bool :=
  zs ← size_of z;
  zp ← limbs_of z;
  x ← limbsZ (peek zp);
  mret (negb (Z.land (b2l (negb (zs =? 0))) x =? 0)).

Definition mpz_even_p (z : positive) : M zst bool := b ← mpz_odd_p z; mret (negb b).

(** The binary algorithm, which keeps the cofactors. *)
Fixpoint gcdext_loop (fuel : nat) (tu tv s0 s1 t0 t1 : positive) (power : Z) : M zst Z :=
  c ← mpz_cmp tu tv;
  if c =? 0 then mret power
  else match fuel with
       | O => failM Undefined
       | S fuel' =>
           shift ←
             (if c <? 0 then
                _ ← mpz_sub tv tv tu;
                _ ← mpz_add t0 t0 t1;
                _ ← mpz_add s0 s0 s1;
                shift ← mpz_make_odd tv;
                _ ← mpz_mul_2exp t1 t1 shift;
                _ ← mpz_mul_2exp s1 s1 shift;
                mret shift
              else
                _ ← mpz_sub tu tu tv;
                _ ← mpz_add t1 t0 t1;
                _ ← mpz_add s1 s0 s1;
                shift ← mpz_make_odd tu;
                _ ← mpz_mul_2exp t0 t0 shift;
                _ ← mpz_mul_2exp s0 s0 shift;
                mret shift);
           gcdext_loop fuel' tu tv s0 s1 t0 t1 (ladd power shift)
       end.

(** The first division and the loop; the power of two of the cofactors. *)
Definition gcdext_reduce (tu tv s0 s1 t0 t1 : positive) (uz vz : Z) : M zst Z :=
  _ ← mpz_setbit t0 uz;
  _ ← mpz_tdiv_qr t1 tu tu tv;
  _ ← mpz_mul_2exp t1 t1 uz;
  _ ← mpz_setbit s1 vz;
  let power := ladd uz vz in
  us ← size_of tu;
  if 0 <? us then
    shift ← mpz_make_odd tu;
    _ ← mpz_mul_2exp t0 t0 shift;
    _ ← mpz_mul_2exp s0 s0 shift;
    us ← size_of tu;
    vs ← size_of tv;
    gcdext_loop (gcd_fuel us vs) tu tv s0 s1 t0 t1 (ladd power shift)
  else mret power.

(** [while (power-- > 0) ...] *)
Fixpoint halve_loop (s0 s1 t0 t1 : positive) (power : nat) : M zst unit :=
  match power with
  | O => mret tt
  | S power' =>
      b ← (b ← mpz_odd_p s0; if (b : bool) then mret true else mpz_odd_p t0);
      _ ← whenM b (_ ← mpz_sub s0 s0 s1; mpz_add t0 t0 t1);
      _ ← mpz_divexact_ui s0 s0 2;
      _ ← mpz_divexact_ui t0 t0 2;
      halve_loop s0 s1 t0 t1 power'
  end.

(** The cofactors of the gcd itself, for [u] and [v] with their signs. *)
Definition gcdext_cofactors (u v tv s0 s1 t0 t1 : positive) (gz power : Z) : M zst unit :=
  _ ← mpz_mul_2exp tv tv gz;
  _ ← mpz_neg s0 s0;
  _ ← mpz_divexact s1 v tv;
  _ ← mpz_abs s1 s1;
  _ ← mpz_divexact t1 u tv;
  _ ← mpz_abs t1 t1;
  _ ← halve_loop s0 s1 t0 t1 (Z.to_nat power);
  _ ← mpz_add s1 s0 s1;
  c ← mpz_cmpabs s0 s1;
  _ ← whenM (0 <? c) (_ ← mpz_swap s0 s1; mpz_sub t0 t0 t1);
  us ← size_of u;
  _ ← whenM (us <? 0) (mpz_neg s0 s0);
  vs ← size_of v;
  whenM (vs <? 0) (mpz_neg t0 t0).

Definition mpz_gcdext (g : positive) (s t : option positive) (u v : positive) : M zst unit :=
  us ← size_of u;
  if us =? 0 then
    sign ← mpz_sgn v;
    _ ← mpz_abs g v;
    _ ← if_ptr s (λ s, mpz_set_ui s 0);
    if_ptr t (λ t, mpz_set_si t sign)
  else
    vs ← size_of v;
    if vs =? 0 then
      sign ← mpz_sgn u;
      _ ← mpz_abs g u;
      _ ← if_ptr s (λ s, mpz_set_si s sign);
      if_ptr t (λ t, mpz_set_ui t 0)
    else
      with_local (λ tu, with_local (λ tv, with_local (λ s0, with_local (λ s1, with_local (λ t0, with_local (λ t1,
        _ ← mpz_init tu;
        _ ← mpz_init tv;
        _ ← mpz_init s0;
        _ ← mpz_init s1;
        _ ← mpz_init t0;
        _ ← mpz_init t1;
        _ ← mpz_abs tu u;
        uz ← mpz_make_odd tu;
        _ ← mpz_abs tv v;
        vz ← mpz_make_odd tv;
        let gz := Z.min uz vz in
        let uz := lsub uz gz in
        let vz := lsub vz gz in
        us ← size_of tu;
        vs ← size_of tv;
        _ ← whenM (us <? vs) (mpz_swap tu tv);
        let '(u, v, s, t, uz, vz) := if us <? vs then (v, u, t, s, vz, uz) else (u, v, s, t, uz, vz) in
        power ← gcdext_reduce tu tv s0 s1 t0 t1 uz vz;
        _ ← gcdext_cofactors u v tv s0 s1 t0 t1 gz power;
        _ ← mpz_swap g tv;
        _ ← if_ptr s (λ s, mpz_swap s s0);
        _ ← if_ptr t (λ t, mpz_swap t t0);
        _ ← mpz_clear tu;
        _ ← mpz_clear tv;
        _ ← mpz_clear s0;
        _ ← mpz_clear s1;
        _ ← mpz_clear t0;
        mpz_clear t1)))))).

Definition mpz_invert (r u m : positive) : M zst bool :=
  us ← size_of u;
  c ← (if us =? 0 then mret 0 else mpz_cmpabs_ui m 1);
  if (us =? 0) || (c <=? 0) then mret false
  else
    with_local (λ g, with_local (λ tr,
      _ ← mpz_init g;
      _ ← mpz_init tr;
      _ ← mpz_gcdext g (Some tr) None u m;
      c ← mpz_cmp_ui g 1;
      let invertible := c =? 0 in
      _ ← whenM invertible
        (ts ← size_of tr;
         _ ← whenM (ts <? 0)
           (ms ← size_of m; if 0 <=? ms then mpz_add tr tr m else mpz_sub tr tr m);
         mpz_swap r tr);
      _ ← mpz_clear g;
      _ ← mpz_clear tr;
      mret invertible)).

(** ** The cofactors *)

(** What the loop keeps, for the inputs [U] and [V] without their common power
    of two. *)
Record cofactors (U V x y s0 s1 t0 t1 p : Z) : Prop := Mk_cofactors {
  c_nonneg : 0 ≤ s0 ∧ 0 ≤ s1 ∧ 0 ≤ t0 ∧ 0 ≤ t1 ∧ 0 ≤ p;
  c_u : U = t0 * x + t1 * y;
  c_v : V = s0 * x + s1 * y;
  c_det : t0 * s1 - t1 * s0 = 2 ^ p;
}.

Lemma cofactors_sub_v U V x y s0 s1 t0 t1 p k y' :
  cofactors U V x y s0 s1 t0 t1 p → 0 ≤ k → y - x = y' * 2 ^ k →
  cofactors U V x y' (s0 + s1) (s1 * 2 ^ k) (t0 + t1) (t1 * 2 ^ k) (p + k).
Proof.
  intros [Hn Hu Hv Hd] Hk E. pose proof (Z.pow_pos_nonneg 2 k ltac:(lia) Hk). split; [nia| | |].
  - rewrite Hu. replace y with (x + y' * 2 ^ k) by lia. ring.
  - rewrite Hv. replace y with (x + y' * 2 ^ k) by lia. ring.
  - rewrite Z.pow_add_r, <- Hd by lia. ring.
Qed.

Lemma cofactors_sub_u U V x y s0 s1 t0 t1 p k x' :
  cofactors U V x y s0 s1 t0 t1 p → 0 ≤ k → x - y = x' * 2 ^ k →
  cofactors U V x' y (s0 * 2 ^ k) (s0 + s1) (t0 * 2 ^ k) (t0 + t1) (p + k).
Proof.
  intros [Hn Hu Hv Hd] Hk E. pose proof (Z.pow_pos_nonneg 2 k ltac:(lia) Hk). split; [nia| | |].
  - rewrite Hu. replace x with (y + x' * 2 ^ k) by lia. ring.
  - rewrite Hv. replace x with (y + x' * 2 ^ k) by lia. ring.
  - rewrite Z.pow_add_r, <- Hd by lia. ring.
Qed.

Lemma cofactors_shift_u U V x y s0 s1 t0 t1 p k x' :
  cofactors U V x y s0 s1 t0 t1 p → 0 ≤ k → x = x' * 2 ^ k → cofactors U V x' y (s0 * 2 ^ k) s1 (t0 * 2 ^ k) t1 (p + k).
Proof.
  intros [Hn Hu Hv Hd] Hk E. pose proof (Z.pow_pos_nonneg 2 k ltac:(lia) Hk). split; [nia| | |].
  - rewrite Hu, E. ring.
  - rewrite Hv, E. ring.
  - rewrite Z.pow_add_r, <- Hd by lia. ring.
Qed.

(** The cofactors are no larger than the inputs. *)
Lemma cofactors_bounds U V x y s0 s1 t0 t1 p :
  cofactors U V x y s0 s1 t0 t1 p → 0 < x → 0 < y → t0 ≤ U ∧ t1 ≤ U ∧ t0 + t1 ≤ U ∧ s0 ≤ V ∧ s1 ≤ V ∧ s0 + s1 ≤ V ∧ 2 ^ p ≤ U * V.
Proof.
  intros [Hn Hu Hv Hd] Hx Hy. assert (t0 + t1 ≤ U) by nia. assert (s0 + s1 ≤ V) by nia. split_and!; try lia. rewrite <- Hd. nia.
Qed.

(** What is left to do: remove [2^p]. *)
Record halving (A C s t p : Z) : Prop := Mk_halving { h_sum : s * A + t * C = 2 ^ p; h_s : - C ≤ s ≤ 0; h_t : 0 ≤ t ≤ A }.

Lemma halving_step A C s t p :
  halving A C s t p → 0 < p → Z.gcd A C = 1 →
  let b := Z.odd s || Z.odd t in
  let s' := if b then s - C else s in
  let t' := if b then t + A else t in
  (2 | s') ∧ (2 | t') ∧ halving A C (s' / 2) (t' / 2) (p - 1).
Proof.
  intros [Hs Hbs Hbt] Hp Hg b s' t'. assert (Z.odd s' = false ∧ Z.odd t' = false) as [Es Et].
  { assert (Z.odd (s * A + t * C) = false) as He by (rewrite Hs; replace p with (1 + (p - 1)) by lia; rewrite Z.pow_add_r, Z.pow_1_r, Z.odd_mul by lia; done).
    rewrite Z.odd_add, !Z.odd_mul in He. assert (Z.odd A || Z.odd C = true) as Ho.
    { destruct (Z.odd A) eqn:EA, (Z.odd C) eqn:EC; try done. exfalso. assert (2 | Z.gcd A C) as [k Ek] by (apply Z.gcd_greatest; [exists (A / 2)|exists (C / 2)]; pose proof (even_half A EA); pose proof (even_half C EC); lia).
      lia. }
    unfold s', t', b. destruct (Z.odd s) eqn:E1, (Z.odd t) eqn:E2; cbn [orb]; rewrite ?Z.odd_sub, ?Z.odd_add, ?E1, ?E2; destruct (Z.odd A), (Z.odd C); simpl in *; try done. }
  pose proof (even_half s' Es) as Hs2. pose proof (even_half t' Et) as Ht2. split; [exists (s' / 2); lia|]. split; [exists (t' / 2); lia|].
  assert (s' * A + t' * C = 2 ^ p) as Hs'. { unfold s', t'. destruct b; [|done]. rewrite <- Hs. ring. }
  assert (- 2 * C ≤ s' ≤ 0 ∧ 0 ≤ t' ≤ 2 * A) as Hb by (unfold s', t'; destruct b; lia). split; [|lia|lia].
  replace p with (1 + (p - 1)) in Hs' by lia. rewrite Z.pow_add_r, Z.pow_1_r in Hs' by lia. nia.
Qed.

(** ** Sizes *)

Lemma shift_limit t k L : 0 ≤ k ≤ 64 * L → zlimbs (t * 2 ^ k) ≤ L → zlimbs t + k / 64 ≤ L.
Proof.
  intros Hk Hl. destruct (Z.eq_dec t 0) as [->|Ht]; [|pose proof (zlimbs_shift t k Ht ltac:(lia)); lia].
  change (zlimbs 0) with 0. assert (k / 64 ≤ L) by (apply Z.div_le_upper_bound; lia). lia.
Qed.

Lemma power_small U V p L : 0 ≤ p → 0 ≤ U → 0 ≤ V → zlimbs U ≤ L → zlimbs V ≤ L → L ≤ alloc_limit → 2 ^ p ≤ U * V → 0 ≤ p < B.
Proof.
  intros Hp HU HV HlU HlV Hlim Hle. split; [done|]. pose proof (zlimbs_nonneg U). pose proof (zlimbs_nonneg V). pose proof (abs_lt U). pose proof (abs_lt V).
  assert (B ^ zlimbs U ≤ B ^ L) by (apply Z.pow_le_mono_r; [done|lia]). assert (B ^ zlimbs V ≤ B ^ L) by (apply Z.pow_le_mono_r; [done|lia]).
  assert (2 ^ p < 2 ^ (64 * L + 64 * L)) as Hlt. { rewrite Z.pow_add_r, <- !B_pow by lia. nia. }
  apply Z.pow_lt_mono_r_iff in Hlt; [|lia|lia]. unfold alloc_limit, B in *. lia.
Qed.

Section ext.
Context {F : gmap Z (option Z)} {FB : gmap Z Z} {D : positive → Prop}.
Local Abbreviation holds := (holds F FB D).
Context (N : vars) (tu tv s0 s1 t0 t1 : positive) (U V L : Z).
Hypotheses (Hl : locals [t1; t0; s1; s0; tv; tu] N).
Hypotheses (HU : 0 ≤ U) (HV : 0 ≤ V) (HLU : zlimbs U ≤ L) (HLV : zlimbs V ≤ L) (HL : L + 1 ≤ alloc_limit).

(** The six local variables. *)
Definition state6 (x y a0 a1 b0 b1 : Z) : vars := binds [t1; t0; s1; s0; tv; tu] [Some b1; Some b0; Some a1; Some a0; Some y; Some x] N.

Lemma small_limbs a : 0 ≤ a ≤ U ∨ 0 ≤ a ≤ V → zlimbs a ≤ L.
Proof. intros [Ha|Ha]; [pose proof (zlimbs_mono a U ltac:(lia))|pose proof (zlimbs_mono a V ltac:(lia))]; lia. Qed.

(** The difference of two odd numbers, made odd. *)
Lemma odd_reduced x y k a :
  Z.odd x = true → Z.odd y = true → 0 < y < x → x - y = a * 2 ^ k → 0 ≤ k → Z.odd a = true → 0 < a →
  Z.log2 a + 1 ≤ Z.log2 x ∧ Z.gcd a y = Z.gcd x y ∧ a ≤ x.
Proof.
  intros Hx Hy Hlt E Hk Ha Hap. assert (k ≠ 0) as Hk0. { intros ->. rewrite Z.pow_0_r, Z.mul_1_r in E. rewrite <- E, Z.odd_sub, Hx, Hy in Ha. done. }
  assert (a * 2 ≤ x - y) as H2. { rewrite E. replace k with (1 + (k - 1)) by lia. rewrite Z.pow_add_r, Z.pow_1_r by lia. pose proof (Z.pow_pos_nonneg 2 (k - 1) ltac:(lia) ltac:(lia)). nia. }
  split; [apply log2_half; lia|]. split; [|lia]. rewrite <- (gcd_odd_shift a y k) by (done || lia). rewrite <- E, Z.gcd_comm, Z.gcd_sub_diag_r. apply Z.gcd_comm.
Qed.

Lemma log2_zero x : 0 < x → Z.log2 x ≤ 0 → x = 1.
Proof. intros Hx H0. pose proof (Z.log2_nonneg x). assert (x ≤ 1) by (apply Z.log2_null; lia). lia. Qed.

(** The power of two fits in its type. *)
Lemma ladd_power p k : 0 ≤ p + k → 2 ^ (p + k) ≤ U * V → ladd p k = p + k.
Proof.
  intros H0 Hp. unfold ladd. apply u64_small. apply (power_small U V (p + k) L); (done || lia).
Qed.

Lemma gcdext_loop_spec fuel x y a0 a1 b0 b1 p s :
  holds (state6 x y a0 a1 b0 b1) s → 0 < x → 0 < y → Z.odd x = true → Z.odd y = true → cofactors U V x y a0 a1 b0 b1 p →
  Z.log2 x + Z.log2 y ≤ Z.of_nat fuel → zlimbs x ≤ L → zlimbs y ≤ L →
  wp never (gcdext_loop fuel tu tv s0 s1 t0 t1 p)
    (λ p' s', ∃ a0' a1' b0' b1', holds (state6 (Z.gcd x y) (Z.gcd x y) a0' a1' b0' b1') s' ∧ cofactors U V (Z.gcd x y) (Z.gcd x y) a0' a1' b0' b1' p') s.
Proof.
  unfold state6. revert x y a0 a1 b0 b1 p s. induction fuel as [|fuel IH]; intros x y a0 a1 b0 b1 p s H Hx Hy Hox Hoy Hc Hf Hlx Hly; cbn [gcdext_loop].
  all: eapply wp_reads; [eapply (mpz_cmp_spec _ s H); look|]; destruct (cmp_sign_spec x y) as [[-> Hxy]|[[-> Hxy]|[-> Hxy]]]; cbn [Z.eqb Z.ltb Z.compare].
  all: try (subst y; eapply wp_run; [done|]; rewrite Z.gcd_diag, Z.abs_eq by lia; by exists a0, a1, b0, b1).
  1,2: exfalso; pose proof (log2_zero x Hx); pose proof (log2_zero y Hy); pose proof (Z.log2_nonneg x); pose proof (Z.log2_nonneg y); lia.
  all: destruct (cofactors_bounds _ _ _ _ _ _ _ _ _ Hc Hx Hy) as (? & ? & Hb & ? & ? & Ha & _); pose proof (c_nonneg _ _ _ _ _ _ _ _ _ Hc).
  all: pose proof (small_limbs a0 ltac:(lia)); pose proof (small_limbs a1 ltac:(lia)); pose proof (small_limbs b0 ltac:(lia)); pose proof (small_limbs b1 ltac:(lia)); apply wp_bind.
  - into 4%nat (mpz_sub_spec _ s tv); [lia..|]. into 1%nat (mpz_add_spec _ _ t0); [lia..|]. into 3%nat (mpz_add_spec _ _ s0); [lia..|].
    pose proof (zlimbs_mono (y - x) y ltac:(lia)). apply wp_bind. eapply wp_mono; [eapply (mpz_make_odd_spec _ _ tv (y - x)); [eassumption|look|lia|lia]|].
    intros k w (y' & Hk & Ey & Hoy' & Hy' & Hw). at_place 4%nat Hw. pose proof (cofactors_sub_v _ _ _ _ _ _ _ _ _ k y' Hc ltac:(lia) Ey) as Hc'.
    destruct (cofactors_bounds _ _ _ _ _ _ _ _ _ Hc' Hx Hy') as (? & ? & _ & ? & ? & _ & Hp). pose proof (c_nonneg _ _ _ _ _ _ _ _ _ Hc').
    pose proof (shift_limit b1 k L ltac:(lia) (small_limbs (b1 * 2 ^ k) ltac:(lia))). pose proof (shift_limit a1 k L ltac:(lia) (small_limbs (a1 * 2 ^ k) ltac:(lia))).
    into 0%nat (mpz_mul_2exp_spec _ _ t1); [lia..|]. into 2%nat (mpz_mul_2exp_spec _ _ s1); [lia..|]. eapply wp_run; [done|].
    destruct (odd_reduced y x k y' Hoy Hox ltac:(lia) Ey ltac:(lia) Hoy' Hy') as (Hlog & Hg & Hle). pose proof (zlimbs_mono y' y ltac:(lia)).
    rewrite (ladd_power p k) by (done || lia). rewrite (Z.gcd_comm x y), <- Hg, Z.gcd_comm. eapply IH; try eassumption; lia.
  - into 5%nat (mpz_sub_spec _ s tu); [lia..|]. into 0%nat (mpz_add_spec _ _ t1); [lia..|]. into 2%nat (mpz_add_spec _ _ s1); [lia..|].
    pose proof (zlimbs_mono (x - y) x ltac:(lia)). apply wp_bind. eapply wp_mono; [eapply (mpz_make_odd_spec _ _ tu (x - y)); [eassumption|look|lia|lia]|].
    intros k w (x' & Hk & Ex & Hox' & Hx' & Hw). at_place 5%nat Hw. pose proof (cofactors_sub_u _ _ _ _ _ _ _ _ _ k x' Hc ltac:(lia) Ex) as Hc'.
    destruct (cofactors_bounds _ _ _ _ _ _ _ _ _ Hc' Hx' Hy) as (? & ? & _ & ? & ? & _ & Hp). pose proof (c_nonneg _ _ _ _ _ _ _ _ _ Hc').
    pose proof (shift_limit b0 k L ltac:(lia) (small_limbs (b0 * 2 ^ k) ltac:(lia))). pose proof (shift_limit a0 k L ltac:(lia) (small_limbs (a0 * 2 ^ k) ltac:(lia))).
    into 1%nat (mpz_mul_2exp_spec _ _ t0); [lia..|]. into 3%nat (mpz_mul_2exp_spec _ _ s0); [lia..|]. eapply wp_run; [done|].
    destruct (odd_reduced x y k x' Hox Hoy ltac:(lia) Ex ltac:(lia) Hox' Hx') as (Hlog & Hg & Hle). pose proof (zlimbs_mono x' x ltac:(lia)).
    rewrite (ladd_power p k) by (done || lia). rewrite <- Hg. eapply IH; try eassumption; lia.
Qed.

(** The cofactors of the gcd itself. *)
Lemma cofactors_halving x g a0 a1 b0 b1 p :
  cofactors U V x g a0 a1 b0 b1 p → x = 0 ∧ a0 = 0 ∧ b0 ≤ b1 ∨ x = g → 0 < g → halving (U / g) (V / g) (- a0) b0 p ∧ 0 ≤ p.
Proof.
  intros [Hn Hu Hv Hd] Hx Hg. assert (∃ A C, U = A * g ∧ V = C * g ∧ - a0 * A + b0 * C = 2 ^ p ∧ a0 ≤ C ∧ b0 ≤ A) as (A & C & -> & -> & Hs & H1 & H2).
  { destruct Hx as [(-> & -> & Hb)| ->]; [exists b1, a1|exists (b0 + b1), (a0 + a1)]; split_and!; (lia || nia). }
  rewrite !Z.div_mul by lia. split; [split; [done|lia|lia]|lia].
Qed.

Lemma gcdext_reduce_spec a b uz vz s :
  holds (state6 a b 0 0 0 0) s → 0 < a → 0 < b → Z.odd b = true → 0 ≤ uz → 0 ≤ vz → U = a * 2 ^ uz → V = b * 2 ^ vz →
  wp never (gcdext_reduce tu tv s0 s1 t0 t1 uz vz)
    (λ p s', ∃ x a0 a1 b0 b1, let g := Z.gcd a b in
      holds (state6 x g a0 a1 b0 b1) s' ∧ halving (U / g) (V / g) (- a0) b0 p ∧ 0 ≤ p) s.
Proof.
  unfold state6. intros H Ha Hb Hob Huz Hvz EU EV. unfold gcdext_reduce. pose proof (Z.pow_pos_nonneg 2 uz ltac:(lia) Huz). pose proof (Z.pow_pos_nonneg 2 vz ltac:(lia) Hvz).
  pose proof (zlimbs_shift a uz ltac:(lia) Huz) as Hsa. pose proof (zlimbs_shift b vz ltac:(lia) Hvz) as Hsb. rewrite <- EU in Hsa. rewrite <- EV in Hsb. pose proof (Z.div_pos uz 64 Huz ltac:(lia)). pose proof (Z.div_pos vz 64 Hvz ltac:(lia)). pose proof (zlimbs_nonneg a). pose proof (zlimbs_nonneg b).
  into 1%nat (mpz_setbit_spec _ s t0 0 uz); [lia || done..|].
  unfold mpz_tdiv_qr. rewrite wp_bind_assoc. apply wp_bind.
  eapply wp_mono; [eapply (mpz_div_qr_spec F FB D _ _ (Some t1) (Some tu) tu tv a b GMP_DIV_TRUNC); [eassumption|cbn [opt_in]; look|cbn [opt_in]; look| |look|look|lia|lia]|].
  { intros [= E]. destruct Hl as [Hnd _]. by pose proof (NoDup_lookup _ 0%nat 5%nat t1 Hnd eq_refl ltac:(simpl; congruence)). }
  intros c w [_ Hw]. cbn [opt_set div_round fst snd] in Hw. at_place 0%nat Hw. at_place 5%nat Hw. rewrite setbit_0 in Hw by done. eapply wp_then; [done|].
  rewrite Z.quot_div_nonneg, Z.rem_mod_nonneg in Hw by lia.
  pose proof (Z.div_mod a b ltac:(lia)) as Eq. pose proof (Z.mod_pos_bound a b ltac:(lia)) as Hm. pose proof (Z.div_pos a b ltac:(lia) Hb).
  set (q := a / b) in *. set (x := a mod b) in *.
  pose proof (zlimbs_mono q a ltac:(nia)). into 0%nat (mpz_mul_2exp_spec _ _ t1); [lia..|]. into 2%nat (mpz_setbit_spec _ _ s1 0 vz); [lia || done..|]. cbv zeta.
  rewrite setbit_0 in * by done. cbv zeta.
  assert (cofactors U V x b 0 (2 ^ vz) (2 ^ uz) (q * 2 ^ uz) (uz + vz)) as Hc by (split; [nia|rewrite EU; lia|lia|rewrite Z.pow_add_r by lia; lia]).
  eapply wp_size; [eapply holds_sizes; eassumption|look|]. pose proof (zlimbs_mono x a ltac:(lia)). assert (Z.gcd a b = Z.gcd x b) as -> by (unfold x; rewrite Z.gcd_mod by lia; apply Z.gcd_comm).
  assert (2 ^ (uz + vz) ≤ U * V) as Hp. { rewrite EU, EV, Z.pow_add_r by lia. transitivity (1 * 1 * (2 ^ uz * 2 ^ vz)); [lia|]. replace (a * 2 ^ uz * (b * 2 ^ vz)) with (a * b * (2 ^ uz * 2 ^ vz)) by ring. apply Z.mul_le_mono_nonneg_r; nia. }
  rewrite (ladd_power uz vz) by lia. pose proof (zsize_nonneg x). pose proof (zsize_0 x). destruct (Z.ltb_spec 0 (zsize x)) as [Hx|Hx].
  - assert (0 < x) as Hxp by lia. apply wp_bind. eapply wp_mono; [eapply (mpz_make_odd_spec _ _ tu x); [eassumption|look|lia|lia]|].
    intros k w1 (x' & Hk & Ex & Hox' & Hx' & Hw1). at_place 5%nat Hw1. pose proof (cofactors_shift_u _ _ _ _ _ _ _ _ _ k x' Hc ltac:(lia) Ex) as Hc'.
    destruct (cofactors_bounds _ _ _ _ _ _ _ _ _ Hc' Hx' Hb) as (? & ? & _ & ? & ? & _ & Hp'). pose proof (c_nonneg _ _ _ _ _ _ _ _ _ Hc').
    pose proof (shift_limit (2 ^ uz) k L ltac:(lia) (small_limbs (2 ^ uz * 2 ^ k) ltac:(lia))). pose proof (shift_limit 0 k L ltac:(lia) (small_limbs (0 * 2 ^ k) ltac:(lia))).
    into 1%nat (mpz_mul_2exp_spec _ _ t0); [lia..|]. into 3%nat (mpz_mul_2exp_spec _ _ s0); [lia..|].
    eapply wp_size; [eapply holds_sizes; eassumption|look|]. eapply wp_size; [eapply holds_sizes; eassumption|look|]. rewrite (ladd_power (uz + vz) k) by lia.
    pose proof (Z.pow_pos_nonneg 2 k ltac:(lia) ltac:(lia)). pose proof (zlimbs_mono x' x ltac:(nia)). assert (Z.gcd x b = Z.gcd x' b) as -> by (rewrite Ex; by apply gcd_odd_shift; [lia|]).
    eapply wp_mono; [eapply gcdext_loop_spec; try eassumption; [|lia..]|].
    + destruct (zsize_cases x') as [[-> _]|[_ ?]]; [|lia]. destruct (zsize_cases b) as [[-> _]|[_ ?]]; [|lia].
      pose proof (log2_limbs x' Hx'). pose proof (log2_limbs b Hb). unfold gcd_fuel, GMP_LIMB_BITS. lia.
    + intros p w2 (a0 & a1 & b0 & b1 & Hw2 & Hc2). assert (0 < Z.gcd x' b) as Hgp by (pose proof (Z.gcd_nonneg x' b); destruct (Z.eq_dec (Z.gcd x' b) 0) as [E|]; [apply Z.gcd_eq_0_l in E|]; lia).
      exists (Z.gcd x' b), a0, a1, b0, b1. split; [exact Hw2|]. exact (cofactors_halving _ _ _ _ _ _ _ Hc2 (or_intror eq_refl) Hgp).
  - assert (x = 0) as E0 by lia. eapply wp_run; [done|]. rewrite E0 in *. rewrite Z.gcd_0_l, Z.abs_eq by lia. eexists _, _, _, _, _. split; [eassumption|].
    assert (1 ≤ q) by nia. apply (cofactors_halving _ _ _ _ _ _ _ Hc); [left; split_and!; nia|done].
Qed.
End ext.

(** ** Parity *)

Section parity.
Context {F : gmap Z (option Z)} {FB : gmap Z Z} {D : positive → Prop} (N : vars) (s : zst).
Hypothesis (H : holds F FB D N s).

(** The first limb of a variable can be read, also when the number is 0. *)
Lemma peek_spec z v : N !! z = Some (Some v) → ∃ st x, own N s z st ∧ peek (mp_d st) (zmem s) = Done x (zmem s) ∧ (v ≠ 0 → x = Z.abs v mod B).
Proof.
  intros Hz. destruct (Z.eq_dec v 0) as [->|Hv].
  - destruct (holds_own N s z H ltac:(eauto)) as (st & Ho & _ & _ & [[_ Hd]|(Ha & _ & _ & Hw)]).
    + exists st, 0xc1a0. split; [done|]. split; [|done]. unfold peek. destruct (h_frame _ _ _ _ _ H) as [Hsub Hdum]. by rewrite Hd, (lookup_weaken _ _ _ _ Hdum Hsub).
    + destruct (Hw 0%nat ltac:(lia)) as [o Ho']. rewrite Z.add_0_r in Ho'. exists st, (default 0 o). split; [done|]. split; [|done]. unfold peek. rewrite Ho'. by destruct o.
  - destruct (low_limb N s H z v Hz Hv) as (st & Ho & El). exists st, (Z.abs v mod B). split; [done|]. split; [|done].
    unfold load in El. unfold peek. destruct (cells (zmem s) !! mp_d st) as [[]|]; congruence.
Qed.

Lemma mpz_odd_p_spec z v : N !! z = Some (Some v) → reads (mpz_odd_p z) s (Z.odd v).
Proof.
  intros Hz. eapply (reads_size N s H); [done|]. destruct (peek_spec z v Hz) as (st & x & Ho & Ex & Hx). unfold reads.
  rewrite (bind_done _ _ _ _ _ (limbs_of_own _ _ _ _ Ho)), (bind_done _ _ _ _ _ (limbsZ_run _ _ _ _ Ex)). unfold mret, M_ret. f_equal; [|by destruct s].
  destruct (Z.eqb_spec (zsize v) 0) as [E|E]; rewrite zsize_0 in E; [by subst v|]. cbn [negb b2l]. rewrite Z.land_comm, land_1, negb_involutive, Hx by done.
  rewrite <- !Z.bit0_odd. change B with (2 ^ 64). rewrite Z.mod_pow2_bits_low, !Z.bit0_odd by lia. by destruct (Z.abs_spec v) as [[_ ->]|[_ ->]]; rewrite ?Z.odd_opp.
Qed.

Lemma mpz_even_p_spec z v : N !! z = Some (Some v) → reads (mpz_even_p z) s (Z.even v).
Proof. intros Hz. unfold reads, mpz_even_p. rewrite (bind_done _ _ _ _ _ (mpz_odd_p_spec z v Hz)), Z.negb_odd. done. Qed.
End parity.

(** ** The second loop *)

Section halve.
Context {F : gmap Z (option Z)} {FB : gmap Z Z} {D : positive → Prop}.
Local Abbreviation holds := (holds F FB D).
Context (N : vars) (tu tv s0 s1 t0 t1 : positive).
Hypotheses (Hl : locals [t1; t0; s1; s0; tv; tu] N).
Local Abbreviation vars6 := (state6 N tu tv s0 s1 t0 t1).

Lemma halve_loop_spec p x y A C a t s :
  holds (vars6 x y a C t A) s → halving A C a t (Z.of_nat p) → Z.gcd A C = 1 → zlimbs A + 1 ≤ alloc_limit → zlimbs C + 1 ≤ alloc_limit →
  wp never (halve_loop s0 s1 t0 t1 p) (λ _ s', ∃ a' t', holds (vars6 x y a' C t' A) s' ∧ halving A C a' t' 0) s.
Proof.
  unfold state6. revert a t s. induction p as [|p IH]; intros a t s H Hh Hg HA HC; cbn [halve_loop]; [eapply wp_run; [done|]; by exists a, t|].
  destruct (halving_step A C a t _ Hh ltac:(lia) Hg) as (Ha & Ht & Hh'). replace (Z.of_nat (S p) - 1) with (Z.of_nat p) in Hh' by lia. destruct Hh as [_ Hba Hbt].
  pose proof (zlimbs_mono a C ltac:(lia)). pose proof (zlimbs_mono t A ltac:(lia)).
  eapply (wp_reads _ _ _ _ (Z.odd a || Z.odd t)).
  { unfold reads. rewrite (bind_done _ _ _ _ _ (mpz_odd_p_spec _ s H s0 a ltac:(look))). destruct (Z.odd a); [done|]. by apply (mpz_odd_p_spec _ s H t0 t); look. }
  apply wp_bind. eapply (wp_mono _ _ (λ _ s', holds (binds [t1; t0; s1; s0; tv; tu] [Some A; Some (if Z.odd a || Z.odd t then t + A else t); Some C; Some (if Z.odd a || Z.odd t then a - C else a); Some y; Some x] N) s')).
  { destruct (Z.odd a || Z.odd t); cbn [whenM]; [|by eapply wp_run]. into 3%nat (mpz_sub_spec _ s s0); [lia..|]. apply wp_bind_ret. into 1%nat (mpz_add_spec _ _ t0); [lia..|]. by eapply wp_run. }
  intros [] w Hw. into 3%nat (mpz_divexact_ui_spec _ w s0 _ Hw ltac:(look) s0); [done..|]. into 1%nat (mpz_divexact_ui_spec _ _ t0); [done..|]. by eapply IH.
Qed.

(** Two cofactors of the gcd of [x] and [y], as small as the function makes them. *)
Record bezout (x y S T : Z) : Prop := Mk_bezout { bz_sum : S * x + T * y = Z.gcd x y; bz_s : 2 * Z.abs S * Z.gcd x y ≤ Z.abs y; bz_t : Z.abs T * Z.gcd x y ≤ Z.abs x }.

Lemma abs_div x g : 0 < g → (g | x) → Z.abs (x / g) = Z.abs x / g.
Proof. intros Hg [k ->]. rewrite Z.abs_mul, (Z.abs_eq g), !Z.div_mul by lia. done. Qed.

(** The cofactor of smaller absolute value is chosen, then the signs are restored. *)
Lemma bezout_signs x y a t :
  x ≠ 0 → y ≠ 0 → let g := Z.gcd x y in let A := Z.abs x / g in let C := Z.abs y / g in
  halving A C a t 0 → let b := Z.abs (a + C) <? Z.abs a in
  let a' := if b then a + C else a in let t' := if b then t - A else t in
  bezout x y (if x <? 0 then - a' else a') (if y <? 0 then - t' else t').
Proof.
  intros Hx Hy g A C [Hs Ha Ht] b a' t'. rewrite Z.pow_0_r in Hs. assert (0 < g) as Hg by (pose proof (Z.gcd_nonneg x y); unfold g; destruct (Z.eq_dec (Z.gcd x y) 0) as [E|]; [apply Z.gcd_eq_0_l in E|]; lia).
  assert (Z.abs x = A * g ∧ Z.abs y = C * g) as [EA EC].
  { unfold A, C. split; rewrite Z.mul_comm; apply Z.div_exact; try lia; apply Z.mod_divide; try lia; apply Z.divide_abs_r; [apply Z.gcd_divide_l|apply Z.gcd_divide_r]. }
  assert (a' * A + t' * C = 1) as Hs' by (unfold a', t'; destruct b; lia). assert (2 * Z.abs a' ≤ C) as Ha' by (unfold a', b; destruct (Z.ltb_spec (Z.abs (a + C)) (Z.abs a)); lia).
  assert (Z.abs t' ≤ A) as Ht' by (unfold t'; destruct b; lia). split; fold g.
  - transitivity (a' * Z.abs x + t' * Z.abs y); [destruct (Z.ltb_spec x 0), (Z.ltb_spec y 0); lia|]. rewrite EA, EC. nia.
  - rewrite EC. apply Z.mul_le_mono_nonneg_r; [lia|]. destruct (x <? 0); lia.
  - rewrite EA. apply Z.mul_le_mono_nonneg_r; [lia|]. destruct (y <? 0); lia.
Qed.

Lemma gcdext_cofactors_spec u v x y g1 gz w a0 a1 b0 b1 p s :
  holds (vars6 w g1 a0 a1 b0 b1) s → N !! u = Some (Some x) → N !! v = Some (Some y) → x ≠ 0 → y ≠ 0 → 0 ≤ gz → 0 ≤ p → Z.gcd x y = g1 * 2 ^ gz →
  halving (Z.abs x / Z.gcd x y) (Z.abs y / Z.gcd x y) (- a0) b0 p → zlimbs x + 1 ≤ alloc_limit → zlimbs y + 1 ≤ alloc_limit →
  wp never (gcdext_cofactors u v tv s0 s1 t0 t1 gz p) (λ _ s', ∃ S T c1 c2, holds (vars6 w (Z.gcd x y) S c1 T c2) s' ∧ bezout x y S T) s.
Proof.
  unfold state6. intros H Hu Hv Hx Hy Hgz Hp Eg Hh Hlx Hly. unfold gcdext_cofactors.
  assert (0 < Z.gcd x y) as Hg by (pose proof (Z.gcd_nonneg x y); destruct (Z.eq_dec (Z.gcd x y) 0) as [E|]; [apply Z.gcd_eq_0_l in E|]; lia).
  pose proof (zlimbs_shift g1 gz) as Hsh. rewrite <- Eg in Hsh. specialize (Hsh ltac:(nia) Hgz). pose proof (gcd_le x y Hx). pose proof (zlimbs_mono (Z.gcd x y) x ltac:(lia)). pose proof (zlimbs_nonneg y).
  pose proof (zlimbs_mono _ _ (div_abs_le x _ Hg (Z.gcd_divide_l x y))). pose proof (zlimbs_mono _ _ (div_abs_le y _ Hg (Z.gcd_divide_r x y))).
  into 4%nat (mpz_mul_2exp_spec _ s tv); [lia..|]. rewrite <- Eg in *. into 3%nat (mpz_neg_spec _ _ s0).
  into 2%nat (mpz_divexact_spec _ _ v y ltac:(eassumption) ltac:(look) s1 tv); [lia|apply Z.gcd_divide_r|lia|]. into 2%nat (mpz_abs_spec _ _ s1).
  into 0%nat (mpz_divexact_spec _ _ u x ltac:(eassumption) ltac:(look) t1 tv); [lia|apply Z.gcd_divide_l|lia|]. into 0%nat (mpz_abs_spec _ _ t1).
  rewrite !abs_div in * by (done || apply Z.gcd_divide_l || apply Z.gcd_divide_r).
  pose proof (zlimbs_mono (Z.abs x / Z.gcd x y) (x / Z.gcd x y) ltac:(rewrite <- abs_div by (done || apply Z.gcd_divide_l); lia)).
  pose proof (zlimbs_mono (Z.abs y / Z.gcd x y) (y / Z.gcd x y) ltac:(rewrite <- abs_div by (done || apply Z.gcd_divide_r); lia)).
  apply wp_bind. eapply wp_mono; [eapply (halve_loop_spec (Z.to_nat p)); [eassumption|by rewrite Z2Nat.id| |lia|lia]|].
  { rewrite <- (Z.gcd_abs_l x), <- (Z.gcd_abs_r _ y) in Hg |- *. apply Z.gcd_div_gcd; lia. }
  intros [] w1 (a & t & Hw1 & Hh1). pose proof (bezout_signs x y a t Hx Hy Hh1) as Hbz. cbv zeta in Hbz. unfold state6 in Hw1.
  set (A := Z.abs x / Z.gcd x y) in *. set (C := Z.abs y / Z.gcd x y) in *. set (b := Z.abs (a + C) <? Z.abs a) in *. destruct Hh1 as [_ Hba Hbt].
  pose proof (zlimbs_mono a C ltac:(lia)). pose proof (zlimbs_mono t A ltac:(lia)). into 2%nat (mpz_add_spec _ _ s1); [lia..|].
  eapply wp_reads; [eapply (mpz_cmpabs_spec _ _ ltac:(eassumption)); look|]. replace (0 <? cmp_sign (Z.abs a) (Z.abs (a + C))) with b; [|unfold b; destruct (cmp_sign_spec (Z.abs a) (Z.abs (a + C))) as [[-> ?]|[[-> ?]|[-> ?]]]; lia].
  apply wp_bind. eapply (wp_mono _ _ (λ _ s', ∃ c1, holds (binds [t1; t0; s1; s0; tv; tu] [Some A; Some (if b then t - A else t); Some c1; Some (if b then a + C else a); Some (Z.gcd x y); Some w] N) s')).
  { destruct b; cbn [whenM]; [|eapply wp_run; [done|]; by eexists]. eapply (wp_swap_locals 3%nat 2%nat); [eassumption|done|reflexivity|reflexivity|reflexivity|reflexivity|done|].
    intros w3 Hw3. cbn [insert list_insert] in Hw3. apply wp_bind_ret. into 1%nat (mpz_sub_spec _ _ t0); [lia..|]. eapply wp_run; [done|]. by eexists. }
  intros [] w4 (c1 & Hw4). eapply wp_size; [eapply holds_sizes; eassumption|look|]. pose proof (zsize_nonneg x). pose proof (zsize_nonneg y).
  replace (zsize x <? 0) with (x <? 0) by (destruct (Z.ltb_spec x 0), (Z.ltb_spec (zsize x) 0); (done || lia)).
  apply wp_bind. eapply (wp_mono _ _ (λ _ s', holds (binds [t1; t0; s1; s0; tv; tu] [Some A; Some (if b then t - A else t); Some c1; Some (if x <? 0 then - (if b then a + C else a) else if b then a + C else a); Some (Z.gcd x y); Some w] N) s')).
  { destruct (x <? 0); cbn [whenM]; [|by eapply wp_run]. apply wp_bind_ret. into 3%nat (mpz_neg_spec _ _ s0). by eapply wp_run. }
  intros [] w5 Hw5. eapply wp_size; [eapply holds_sizes; eassumption|look|].
  replace (zsize y <? 0) with (y <? 0) by (destruct (Z.ltb_spec y 0), (Z.ltb_spec (zsize y) 0); (done || lia)).
  destruct (y <? 0); cbn [whenM]; [apply wp_bind_ret; into 1%nat (mpz_neg_spec _ _ t0)|]; (eapply wp_run; [done|]; eexists _, _, _, _; split; [eassumption|done]).
Qed.

(** The results are moved out of the local variables, which are freed. *)
Lemma gcdext_finish_spec g so to S T G c1 c2 w s :
  holds (vars6 w G S c1 T c2) s → is_Some (N !! g) → opt_in so N → opt_in to N →
  wp never (_ ← mpz_swap g tv;
            _ ← if_ptr so (λ s, mpz_swap s s0);
            _ ← if_ptr to (λ t, mpz_swap t t0);
            _ ← mpz_clear tu; _ ← mpz_clear tv; _ ← mpz_clear s0; _ ← mpz_clear s1; _ ← mpz_clear t0; mpz_clear t1)
    (λ _ s', holds (opt_set to T (opt_set so S (<[g := Some G]> N))) s') s.
Proof.
  unfold state6. intros H [og Hg] Hso Hto. eapply (wp_swap_result 4%nat); [exact H|done|reflexivity|reflexivity|exact Hg|]. intros w1 H1 Hl1. cbn [insert list_insert] in H1. clear H Hl.
  apply wp_bind. eapply (wp_mono _ _ (λ _ s', ∃ o, holds (binds [t1; t0; s1; s0; tv; tu] [Some c2; Some T; Some c1; o; og; Some w] (opt_set so S (<[g := Some G]> N))) s' ∧ locals [t1; t0; s1; s0; tv; tu] (opt_set so S (<[g := Some G]> N)))).
  { destruct so as [r|]; cbn [if_ptr opt_set opt_in] in *; [|eapply wp_run; [done|]; by eexists]. destruct (opt_in_set (Some r) (Some g) G N Hso) as [o Ho]. cbn [opt_set] in Ho. apply wp_bind_ret.
    eapply (wp_swap_result 3%nat); [exact H1|done|reflexivity|reflexivity|exact Ho|]. intros w2 H2 Hl2. cbn [insert list_insert] in H2. eapply wp_run; [done|]. by eexists. }
  intros [] w2 (o & H2 & Hl2). clear H1 Hl1. apply (opt_in_set to (Some g) G) in Hto. apply (opt_in_set to so S) in Hto. cbn [opt_set] in Hto. set (N2 := opt_set so S (<[g:=Some G]> N)) in *.
  apply wp_bind. eapply (wp_mono _ _ (λ _ s', ∃ o', holds (binds [t1; t0; s1; s0; tv; tu] [Some c2; o'; Some c1; o; og; Some w] (opt_set to T N2)) s' ∧ locals [t1; t0; s1; s0; tv; tu] (opt_set to T N2))).
  { destruct to as [r|]; cbn [if_ptr opt_set opt_in] in *; [|eapply wp_run; [done|]; by eexists]. destruct Hto as [o' Ho]. apply wp_bind_ret.
    eapply (wp_swap_result 1%nat); [exact H2|done|reflexivity|reflexivity|exact Ho|]. intros w3 H3 Hl3. cbn [insert list_insert] in H3. eapply wp_run; [done|]. by eexists. }
  intros [] w3 (o' & H3 & Hl3). clear H2 Hl2. clear_local 5%nat. clear_local 4%nat. clear_local 3%nat. clear_local 2%nat. clear_local 1%nat. apply wp_bind_ret. clear_local 0%nat. by eapply wp_run.
Qed.

(** The algorithm from the odd parts of the two numbers on. *)
Lemma gcdext_odd_spec g so to u v x y a b uz vz s :
  holds (vars6 a b 0 0 0 0) s → is_Some (N !! g) → opt_in so N → opt_in to N → N !! u = Some (Some x) → N !! v = Some (Some y) → x ≠ 0 → y ≠ 0 →
  Z.abs x = a * 2 ^ uz → Z.abs y = b * 2 ^ vz → 0 < a → 0 < b → Z.odd a = true → Z.odd b = true → 0 ≤ uz → 0 ≤ vz → Z.max (zlimbs x) (zlimbs y) + 1 ≤ alloc_limit →
  let gz := Z.min uz vz in
  wp never (power ← gcdext_reduce tu tv s0 s1 t0 t1 (uz - gz) (vz - gz);
            _ ← gcdext_cofactors u v tv s0 s1 t0 t1 gz power;
            _ ← mpz_swap g tv;
            _ ← if_ptr so (λ s, mpz_swap s s0);
            _ ← if_ptr to (λ t, mpz_swap t t0);
            _ ← mpz_clear tu; _ ← mpz_clear tv; _ ← mpz_clear s0; _ ← mpz_clear s1; _ ← mpz_clear t0; mpz_clear t1)
    (λ _ s', ∃ S T, bezout x y S T ∧ holds (opt_set to T (opt_set so S (<[g := Some (Z.gcd x y)]> N))) s') s.
Proof.
  intros H Hg Hso Hto Hu Hv Hx Hy Ex Ey Ha Hb Hoa Hob Huz Hvz Hlim gz. set (U := a * 2 ^ (uz - gz)). set (V := b * 2 ^ (vz - gz)).
  pose proof (Z.pow_pos_nonneg 2 gz ltac:(lia) ltac:(lia)) as H2. pose proof (Z.pow_pos_nonneg 2 (uz - gz) ltac:(lia) ltac:(lia)). pose proof (Z.pow_pos_nonneg 2 (vz - gz) ltac:(lia) ltac:(lia)).
  assert (Z.abs x = U * 2 ^ gz) as EU by (unfold U; rewrite <- Z.mul_assoc, <- Z.pow_add_r by lia; rewrite Ex; do 2 f_equal; lia).
  assert (Z.abs y = V * 2 ^ gz) as EV by (unfold V; rewrite <- Z.mul_assoc, <- Z.pow_add_r by lia; rewrite Ey; do 2 f_equal; lia).
  assert (Z.gcd x y = Z.gcd a b * 2 ^ gz) as Eg by (rewrite <- (Z.gcd_abs_l x), <- (Z.gcd_abs_r _ y), Ex, Ey; by apply gcd_common_shift).
  assert (0 < Z.gcd a b) as Hgp by (pose proof (Z.gcd_nonneg a b); destruct (Z.eq_dec (Z.gcd a b) 0) as [E|]; [apply Z.gcd_eq_0_l in E|]; lia).
  pose proof (zlimbs_mono U x ltac:(unfold U in *; nia)). pose proof (zlimbs_mono V y ltac:(unfold V in *; nia)).
  apply wp_bind. eapply wp_mono; [eapply (gcdext_reduce_spec N tu tv s0 s1 t0 t1 U V (Z.max (zlimbs x) (zlimbs y))); try done; [unfold U; nia|unfold V; nia|lia..]|].
  intros p w1 (w & a0 & a1 & b0 & b1 & Hw1 & Hh & Hp). apply wp_bind. eapply wp_mono.
  { eapply (gcdext_cofactors_spec u v x y (Z.gcd a b) gz); try done; [lia| |lia|lia]. by rewrite Eg, EU, EV, !Z.div_mul_cancel_r by lia. }
  intros [] w2 (S & T & c1 & c2 & Hw2 & Hbz). eapply wp_mono; [by eapply gcdext_finish_spec|]. intros [] w3 Hw3. by exists S, T.
Qed.
End halve.

(** ** The functions *)

(** The result: cofactors of the gcd, bounded when both numbers are not 0. *)
Record gcdext_result (x y S T : Z) : Prop := Mk_gcdext_result {
  ge_sum : S * x + T * y = Z.gcd x y;
  ge_bounds : x ≠ 0 → y ≠ 0 → Z.abs S * Z.gcd x y ≤ Z.abs y ∧ Z.abs T * Z.gcd x y ≤ Z.abs x;
}.

Lemma bezout_result x y S T : bezout x y S T → gcdext_result x y S T ∧ gcdext_result y x T S.
Proof.
  intros [Hs H1 H2]. pose proof (Z.gcd_nonneg x y). split; split; rewrite ?(Z.gcd_comm y x); try lia; intros _ _; split; nia.
Qed.

Lemma sgn_result x y : x = 0 ∨ y = 0 → gcdext_result x y (if decide (x = 0) then 0 else Z.sgn x) (if decide (x = 0) then Z.sgn y else 0).
Proof.
  intros Hxy. split; [|lia]. destruct (decide (x = 0)) as [->|Hx]; [rewrite Z.gcd_0_l; lia|]. destruct Hxy as [?| ->]; [done|]. rewrite Z.gcd_0_r. lia.
Qed.

Lemma cmp_sgn x : cmp_sign x 0 = Z.sgn x.
Proof. destruct (cmp_sign_spec x 0) as [[-> ?]|[[-> ?]|[-> ?]]]; lia. Qed.

Section gcdext.
Context {F : gmap Z (option Z)} {FB : gmap Z Z} {D : positive → Prop}.
Context (N : vars) (s : zst) (g u v : positive) (so to : option positive) (x y : Z).
Hypotheses (H : holds F FB D N s) (Hg : is_Some (N !! g)) (Hso : opt_in so N) (Hto : opt_in to N) (Hst : so = to → so = None).
Hypotheses (Hu : N !! u = Some (Some x)) (Hv : N !! v = Some (Some y)) (Hlim : Z.max (zlimbs x) (zlimbs y) + 1 ≤ alloc_limit).

(** The variables of the caller at the end. *)
Definition gcdext_vars (S T : Z) : vars := opt_set to T (opt_set so S (<[g := Some (Z.gcd x y)]> N)).

Lemma gcdext_vars_none S T z : N !! z = None → gcdext_vars S T !! z = None.
Proof.
  intros Hz. unfold gcdext_vars. apply opt_set_none; [by apply (opt_in_set to so), (opt_in_set to (Some g))|]. apply opt_set_none; [by apply (opt_in_set so (Some g))|]. by apply put_none.
Qed.

(** One of the numbers is 0. *)
Lemma gcdext_zero_spec w S T (k1 k2 : positive → M zst unit) :
  N !! w = Some (Some (x + y)) → Z.abs (x + y) = Z.gcd x y →
  (∀ N' s' p, holds F FB D N' s' → is_Some (N' !! p) → wp never (k1 p) (λ _ s', holds F FB D (<[p := Some S]> N') s') s') →
  (∀ N' s' p, holds F FB D N' s' → is_Some (N' !! p) → wp never (k2 p) (λ _ s', holds F FB D (<[p := Some T]> N') s') s') →
  wp never (_ ← mpz_abs g w; _ ← if_ptr so k1; if_ptr to k2) (λ _ s', holds F FB D (gcdext_vars S T) s') s.
Proof.
  intros Hw Eg H1 H2. apply wp_bind. eapply wp_mono; [by eapply (mpz_abs_spec N s g w)|]. intros [] w1 Hw1. rewrite Eg in Hw1.
  apply wp_bind. eapply wp_mono; [apply (wp_if_ptr _ w1 so _ S Hw1); intros p ->; apply (H1 _ _ p Hw1), (opt_in_set (Some p) (Some g) _ N Hso)|]. intros [] w2 Hw2.
  eapply wp_mono; [apply (wp_if_ptr _ w2 to _ T Hw2); intros p ->; apply (H2 _ _ p Hw2), (opt_in_set (Some p) so), (opt_in_set (Some p) (Some g) _ N Hto)|]. done.
Qed.

Lemma opt_set_swap S T : opt_set to T (opt_set so S (<[g := Some (Z.gcd x y)]> N)) = opt_set so S (opt_set to T (<[g := Some (Z.gcd y x)]> N)).
Proof.
  rewrite (Z.gcd_comm y x). destruct so as [p|], to as [q|]; try done. cbn [opt_set]. apply insert_insert_ne. intros ->. by specialize (Hst eq_refl).
Qed.

(** Both are not 0: from the six local variables on. *)
Lemma gcdext_main_spec tu tv s0 s1 t0 t1 w :
  holds F FB D (binds [t1; t0; s1; s0; tv; tu] [Some 0; Some 0; Some 0; Some 0; Some 0; Some 0] N) w → locals [t1; t0; s1; s0; tv; tu] N → x ≠ 0 → y ≠ 0 →
  wp never
    (_ ← mpz_abs tu u; uz ← mpz_make_odd tu; _ ← mpz_abs tv v; vz ← mpz_make_odd tv;
     let gz := Z.min uz vz in let uz := lsub uz gz in let vz := lsub vz gz in
     us ← size_of tu; vs ← size_of tv; _ ← whenM (us <? vs) (mpz_swap tu tv);
     let '(u, v, so, to, uz, vz) := if us <? vs then (v, u, to, so, vz, uz) else (u, v, so, to, uz, vz) in
     power ← gcdext_reduce tu tv s0 s1 t0 t1 uz vz; _ ← gcdext_cofactors u v tv s0 s1 t0 t1 gz power;
     _ ← mpz_swap g tv; _ ← if_ptr so (λ s, mpz_swap s s0); _ ← if_ptr to (λ t, mpz_swap t t0);
     _ ← mpz_clear tu; _ ← mpz_clear tv; _ ← mpz_clear s0; _ ← mpz_clear s1; _ ← mpz_clear t0; mpz_clear t1)
    (λ _ s', ∃ N', (∃ S T, gcdext_result x y S T ∧ N' = gcdext_vars S T) ∧ holds F FB D N' s') w.
Proof.
  intros Hw Hl Hx Hy. pose proof (zlimbs_abs x) as Elx. pose proof (zlimbs_abs y) as Ely. into 5%nat (mpz_abs_spec _ w tu). apply wp_bind.
  eapply wp_mono; [eapply (mpz_make_odd_spec _ _ tu (Z.abs x)); [eassumption|look|lia|lia]|]. intros uz w2 (a & Huz & Ea & Hoa & Ha & Hw2). at_place 5%nat Hw2.
  into 4%nat (mpz_abs_spec _ w2 tv). apply wp_bind. eapply wp_mono; [eapply (mpz_make_odd_spec _ _ tv (Z.abs y)); [eassumption|look|lia|lia]|].
  intros vz w4 (b & Hvz & Eb & Hob & Hb & Hw4). at_place 4%nat Hw4. cbv zeta. unfold alloc_limit in Hlim.
  assert (lsub uz (Z.min uz vz) = uz - Z.min uz vz ∧ lsub vz (Z.min uz vz) = vz - Z.min uz vz) as [-> ->] by (split; unfold lsub; apply u64_small; unfold SIZE_MOD; lia).
  eapply wp_size; [exact (holds_sizes _ _ Hw4)|look|]. eapply wp_size; [exact (holds_sizes _ _ Hw4)|look|]. destruct (Z.ltb_spec (zsize a) (zsize b)); cbn [whenM].
  - eapply (wp_swap_locals 5%nat 4%nat); [exact Hw4|done|reflexivity|reflexivity|reflexivity|reflexivity|done|]. intros w5 Hw5. cbn [insert list_insert] in Hw5.
    rewrite (Z.min_comm uz vz). eapply wp_mono; [eapply (gcdext_odd_spec N tu tv s0 s1 t0 t1 Hl g to so v u y x b a vz uz w5 Hw5); (done || (unfold alloc_limit; lia))|].
    intros [] w6 (T & S & Hbz & Hw6). exists (gcdext_vars S T). split; [|unfold gcdext_vars; by rewrite opt_set_swap]. exists S, T. split; [exact (proj2 (bezout_result _ _ _ _ Hbz))|done].
  - eapply wp_then; [done|]. eapply wp_mono; [eapply (gcdext_odd_spec N tu tv s0 s1 t0 t1 Hl g so to u v x y a b uz vz w4 Hw4); (done || (unfold alloc_limit; lia))|].
    intros [] w6 (S & T & Hbz & Hw6). exists (gcdext_vars S T). split; [|done]. exists S, T. split; [exact (proj1 (bezout_result _ _ _ _ Hbz))|done].
Qed.
End gcdext.

Lemma mpz_gcdext_spec F FB (D : positive → Prop) N s g so to u v x y :
  holds F FB D N s → is_Some (N !! g) → opt_in so N → opt_in to N → (so = to → so = None) →
  N !! u = Some (Some x) → N !! v = Some (Some y) → Z.max (zlimbs x) (zlimbs y) + 1 ≤ alloc_limit →
  wp never (mpz_gcdext g so to u v) (λ _ s', ∃ N', (∃ S T, gcdext_result x y S T ∧ N' = gcdext_vars N g so to x y S T) ∧ holds F FB D N' s') s.
Proof.
  intros H Hg Hso Hto Hst Hu Hv Hlim. unfold mpz_gcdext. eapply wp_size; [exact (holds_sizes _ _ H)|done|]. destruct (Z.eqb_spec (zsize x) 0) as [E0|E0]; rewrite zsize_0 in E0.
  { subst x. eapply wp_reads; [by apply (mpz_sgn_spec N s H)|]. rewrite cmp_sgn. eapply wp_mono.
    - apply (gcdext_zero_spec N s g so to 0 y H Hg Hso Hto Hst v 0 (Z.sgn y)); [done|symmetry; apply Z.gcd_0_l| |]; intros N' s' p H' Hp; [by apply mpz_set_ui_spec|apply mpz_set_si_spec; (done || lia)].
    - intros [] s' H'. eexists. split; [|exact H']. exists 0, (Z.sgn y). split; [exact (sgn_result 0 y (or_introl eq_refl))|done]. }
  eapply wp_size; [exact (holds_sizes _ _ H)|done|]. destruct (Z.eqb_spec (zsize y) 0) as [E1|E1]; rewrite zsize_0 in E1.
  { subst y. eapply wp_reads; [by apply (mpz_sgn_spec N s H)|]. rewrite cmp_sgn. eapply wp_mono.
    - apply (gcdext_zero_spec N s g so to x 0 H Hg Hso Hto Hst u (Z.sgn x) 0); [by rewrite Z.add_0_r|by rewrite Z.gcd_0_r, Z.add_0_r| |]; intros N' s' p H' Hp; [apply mpz_set_si_spec; (done || lia)|by apply mpz_set_ui_spec].
    - intros [] s' H'. eexists. split; [|exact H']. exists (Z.sgn x), 0. split; [|done]. pose proof (sgn_result x 0 (or_intror eq_refl)) as Hr. destruct (decide (x = 0)); [done|exact Hr]. }
  assert (∀ a N' z, (λ (_ : unit) N', ∃ S T, gcdext_result x y S T ∧ N' = gcdext_vars N g so to x y S T) a N' → N !! z = None → N' !! z = None) as HR by (intros [] N' z (S & T & _ & ->); by apply gcdext_vars_none).
  eapply wp_declare; [exact H|exact HR|]. intros tu w1 D1 H1 HD1 HN1 _ _.
  eapply wp_declare; [exact H1|exact HR|]. intros tv w2 D2 H2 HD2 HN2 Hf2 Hs2.
  eapply wp_declare; [exact H2|exact HR|]. intros s0 w3 D3 H3 HD3 HN3 Hf3 Hs3.
  eapply wp_declare; [exact H3|exact HR|]. intros s1 w4 D4 H4 HD4 HN4 Hf4 Hs4.
  eapply wp_declare; [exact H4|exact HR|]. intros t0 w5 D5 H5 HD5 HN5 Hf5 Hs5.
  eapply wp_declare; [exact H5|exact HR|]. intros t1 w6 D6 H6 HD6 HN6 Hf6 Hs6.
  change N with (binds [] [] N) in H6. assert (locals [] N) as Hl by (split; constructor).
  eapply wp_init_local; [exact H6|done|done|apply not_elem_of_nil|auto 10|]. intros r1 K1 L1.
  eapply wp_init_local; [exact K1|done|done|apply (fresh_local _ _ _ Hf2); repeat constructor; auto 10|auto 10|]. intros r2 K2 L2.
  eapply wp_init_local; [exact K2|done|done|apply (fresh_local _ _ _ Hf3); repeat constructor; auto 10|auto 10|]. intros r3 K3 L3.
  eapply wp_init_local; [exact K3|done|done|apply (fresh_local _ _ _ Hf4); repeat constructor; auto 10|auto 10|]. intros r4 K4 L4.
  eapply wp_init_local; [exact K4|done|done|apply (fresh_local _ _ _ Hf5); repeat constructor; auto 10|auto 10|]. intros r5 K5 L5.
  eapply wp_init_local; [exact K5|done|done|apply (fresh_local _ _ _ Hf6); repeat constructor; auto 10|auto 10|]. intros r6 K6 L6.
  by apply (gcdext_main_spec N g u v so to x y Hg Hso Hto Hst Hu Hv Hlim tu tv s0 s1 t0 t1 r6 K6 L6).
Qed.

(** ** Inverses *)

(** The inverse of [x] modulo [m]. *)
Definition inverse (x m w : Z) : Prop := 0 < w < Z.abs m ∧ (w * x) mod Z.abs m = 1.

Lemma result_inverse x m S T :
  gcdext_result x m S T → x ≠ 0 → 1 < Z.abs m → Z.gcd x m = 1 → inverse x m (if S <? 0 then S + Z.abs m else S).
Proof.
  intros [Hs Hb] Hx Hm Hg. rewrite Hg in Hs, Hb. destruct (Hb Hx ltac:(lia)) as [HS _].
  assert (∀ c, S = c * m → False) as Hnd. { intros c ->. assert ((c * x + T) * m = 1) as E by lia. apply Z.mul_eq_1 in E as E'. nia. }
  pose proof (Hnd 0). pose proof (Hnd 1). pose proof (Hnd (-1)). split; [destruct (Z.ltb_spec S 0); lia|].
  assert (∃ k, (if S <? 0 then S + Z.abs m else S) * x = 1 + k * Z.abs m) as [k ->].
  { destruct (Z.ltb_spec S 0); [exists (x - T * Z.sgn m)|exists (- T * Z.sgn m)]; nia. }
  rewrite Z.mod_add, Z.mod_small by lia. done.
Qed.

Section invert.
Context {F : gmap Z (option Z)} {FB : gmap Z Z} {D : positive → Prop}.
Context (N : vars) (r u m : positive) (x y : Z).
Hypotheses (Hr : is_Some (N !! r)) (Hu : N !! u = Some (Some x)) (Hm : N !! m = Some (Some y)) (Hlim : Z.max (zlimbs x) (zlimbs y) + 1 ≤ alloc_limit).

(** The answer and the variables of the caller at the end. *)
Definition invert_result (b : bool) (N' : vars) : Prop :=
  b = bool_decide (x ≠ 0 ∧ 1 < Z.abs y ∧ Z.gcd x y = 1) ∧ if b then ∃ w, inverse x y w ∧ N' = <[r := Some w]> N else N' = N.

(** The cofactor becomes the result, between 0 and the modulus. *)
Lemma invert_store_spec (D' : positive → Prop) tr g S G s :
  holds F FB D' (binds [tr; g] [Some S; Some G] N) s → locals [tr; g] N → zlimbs S ≤ zlimbs y →
  wp never (ts ← size_of tr;
            _ ← whenM (ts <? 0) (ms ← size_of m; if 0 <=? ms then mpz_add tr tr m else mpz_sub tr tr m);
            mpz_swap r tr)
    (λ _ s', let N' := <[r := Some (if S <? 0 then S + Z.abs y else S)]> N in ∃ o, locals [tr; g] N' ∧ holds F FB D' (binds [tr; g] [o; Some G] N') s') s.
Proof.
  intros H Hl Hle. eapply wp_size; [exact (holds_sizes _ _ H)|look|]. pose proof (zsize_nonneg S). pose proof (zsize_nonneg y).
  replace (zsize S <? 0) with (S <? 0) by (destruct (Z.ltb_spec S 0), (Z.ltb_spec (zsize S) 0); (done || lia)).
  apply wp_bind. eapply (wp_mono _ _ (λ _ s', holds F FB D' (binds [tr; g] [Some (if S <? 0 then S + Z.abs y else S); Some G] N) s')).
  - destruct (S <? 0); cbn [whenM]; [|by eapply wp_run]. eapply wp_size; [exact (holds_sizes _ _ H)|look|]. destruct (Z.leb_spec 0 (zsize y)).
    + rewrite Z.abs_eq by lia. apply wp_bind_ret. into 0%nat (mpz_add_spec _ s tr); [lia..|]. by eapply wp_run.
    + replace (S + Z.abs y) with (S - y) by lia. apply wp_bind_ret. into 0%nat (mpz_sub_spec _ s tr); [lia..|]. by eapply wp_run.
  - intros [] w1 Hw1. destruct Hr as [o Ho]. apply wp_bind_ret. eapply (wp_swap_result 0%nat); [exact Hw1|done|reflexivity|reflexivity|exact Ho|]. intros w2 Hw2 Hl2. eapply wp_run; [done|]. by exists o.
Qed.

Lemma mpz_invert_spec s :
  holds F FB D N s → wp never (mpz_invert r u m) (λ b s', ∃ N', invert_result b N' ∧ holds F FB D N' s') s.
Proof.
  intros H. unfold mpz_invert. eapply wp_size; [exact (holds_sizes _ _ H)|done|].
  apply (wp_reads _ _ _ _ (if zsize x =? 0 then 0 else cmp_sign (Z.abs y) 1)). { destruct (_ =? _); [done|]. by apply (mpz_cmpabs_ui_spec N s H). }
  destruct (decide (x = 0 ∨ Z.abs y ≤ 1)) as [Hs|Hs].
  { replace (_ || _) with true.
    - eapply wp_run; [done|]. exists N. split; [|done]. split; [|done]. symmetry. apply bool_decide_eq_false. lia.
    - symmetry. apply orb_true_iff. rewrite Z.eqb_eq, zsize_0. destruct (Z.eqb_spec (zsize x) 0) as [E|E]; [right; done|]. rewrite zsize_0 in E. right. destruct (cmp_sign_spec (Z.abs y) 1) as [[-> ?]|[[-> ?]|[-> ?]]]; (done || lia). }
  apply Decidable.not_or in Hs as [Hx Hy]. rewrite (proj2 (Z.eqb_neq (zsize x) 0)) by (by rewrite zsize_0). cbn [orb].
  replace (cmp_sign (Z.abs y) 1 <=? 0) with false by (destruct (cmp_sign_spec (Z.abs y) 1) as [[-> ?]|[[-> ?]|[-> ?]]]; (done || lia)).
  assert (∀ a N' z, invert_result a N' → N !! z = None → N' !! z = None) as HR. { intros [] N' z [_ HN]; [destruct HN as (w & _ & ->); by apply put_none|by rewrite HN]. }
  eapply wp_declare; [exact H|exact HR|]. intros g w1 D1 H1 HD1 HN1 _ _. eapply wp_declare; [exact H1|exact HR|]. intros tr w2 D2 H2 HD2 HN2 Hf2 Hs2.
  change N with (binds [] [] N) in H2. assert (locals [] N) as Hl0 by (split; constructor).
  eapply wp_init_local; [exact H2|done|done|apply not_elem_of_nil|auto|]. intros w3 H3 Hl3.
  eapply wp_init_local; [exact H3|done|done|apply (fresh_local _ _ _ Hf2); repeat constructor; auto|done|]. intros w4 H4 Hl4. clear H1 H2 H3 Hl0 Hl3.
  apply wp_bind. eapply wp_mono; [eapply (mpz_gcdext_spec F FB D2 _ w4 g (Some tr) None u m x y H4); [look|cbn [opt_in]; look|done|done|look|look|done]|].
  intros [] w5 (N5 & (S & T & Hres & ->) & H5). unfold gcdext_vars in H5. cbn [opt_set] in H5. at_place 1%nat H5. at_place 0%nat H5. clear H4.
  eapply wp_reads; [eapply (mpz_cmp_ui_spec _ w5 H5); [look|done]|].
  apply wp_bind. eapply (wp_mono _ _ (λ _ s', ∃ o1 o2 N', invert_result (Z.gcd x y =? 1) N' ∧ locals [tr; g] N' ∧ holds F FB D2 (binds [tr; g] [o1; o2] N') s')).
  - replace (cmp_sign (Z.gcd x y) 1 =? 0) with (Z.gcd x y =? 1) by (destruct (cmp_sign_spec (Z.gcd x y) 1) as [[-> ?]|[[-> ?]|[-> ?]]]; lia).
    destruct (Z.eqb_spec (Z.gcd x y) 1) as [Eg|Eg]; cbn [whenM].
    + pose proof (ge_bounds _ _ _ _ Hres Hx ltac:(lia)) as [HS _]. eapply wp_mono; [apply (invert_store_spec D2 tr g S _ w5 H5 Hl4), zlimbs_mono; lia|].
      intros [] w6 (o & Hl6 & H6). eexists _, _, _. split; [|split; [exact Hl6|exact H6]]. split; [symmetry; apply bool_decide_eq_true; lia|].
      eexists. split; [|done]. eapply result_inverse; (done || lia).
    + eapply wp_run; [done|]. eexists _, _, N. split; [|split; [exact Hl4|exact H5]]. split; [symmetry; apply bool_decide_eq_false; lia|done].
  - intros [] w6 (o1 & o2 & N' & HN' & Hl6 & H6). replace (cmp_sign (Z.gcd x y) 1 =? 0) with (Z.gcd x y =? 1) by (destruct (cmp_sign_spec (Z.gcd x y) 1) as [[-> ?]|[[-> ?]|[-> ?]]]; lia).
    clear H5 Hl4. clear_local 1%nat. clear_local 0%nat. eapply wp_run; [done|]. by exists N'.
Qed.
End invert.
