(* ===== verification/MpzLogic.v ===== *)
(** * Bitwise logic and bit counts

    mpz_and, mpz_ior and mpz_xor, the population count, the Hamming distance
    and the scans for a bit. Negative numbers count as their infinite two's
    complement, which the loops compute limb by limb with a carry. *)

From S2P Require Import Prelude Limbs Mpn Invert MpnDiv MpnDivN Mpz MpzRep MpzArith MpzMul MpzDivision MpzFrame MpzDivShort MpzLocals MpzGcd MpzBits.

(** ** Definitions *)

(** The limbs both numbers have; the carries of the two numbers and of the result. *)
Fixpoint logic_low (op : Z → Z → Z) (up vp rp ux vx rx : Z) (n : nat) (i uc vc rc : Z) : M mem (Z * Z * Z) :=
  match n with
  | O => mret (uc, vc, rc)
  | S n' =>
      u ← load (up + i);
      let ul := ladd (Z.lxor u ux) uc in
      let uc := b2l (ul <? uc) in
      v ← load (vp + i);
      let vl := ladd (Z.lxor v vx) vc in
      let vc := b2l (vl <? vc) in
      let rl := ladd (Z.lxor (op ul vl) rx) rc in
      let rc := b2l (rl <? rc) in
      _ ← store (rp + i) rl;
      logic_low op up vp rp ux vx rx n' (i + 1) uc vc rc
  end.

(** The limbs only the longer number has. *)
Fixpoint logic_high (tail : Z → Z) (up rp ux : Z) (n : nat) (i uc rc : Z) : M mem Z :=
  match n with
  | O => mret rc
  | S n' =>
      u ← load (up + i);
      let ul := ladd (Z.lxor u ux) uc in
      let uc := b2l (ul <? uc) in
      let rl := ladd (tail ul) rc in
      let rc := b2l (rl <? rc) in
      _ ← store (rp + i) rl;
      logic_high tail up rp ux n' (i + 1) uc rc
  end.

Definition logic_limbs (op : Z → Z → Z) (tail : Z → Z) (up vp rp vn rn uc vc rc : Z) : M mem Z :=
  let ux := lneg uc in
  c ← logic_low op up vp rp ux (lneg vc) (lneg rc) (Z.to_nat vn) 0 uc vc rc;
  let '(uc, vc, rc) := c in
  _ ← lift (assertion (vc =? 0));
  logic_high tail up rp ux (Z.to_nat (rn - vn)) vn uc rc.

(** What the three functions share, from the allocation of the result on. *)
Definition logic_result (op : Z → Z → Z) (tail : Z → Z → Z → Z → Z) (r u v : positive) (vn rn uc vc rc : Z) : M zst unit :=
  let rx := lneg rc in
  rp ← MPZ_REALLOC r (rn + rc);
  up ← limbs_of u;
  vp ← limbs_of v;
  c ← limbsZ (logic_limbs op (tail (lneg uc) (lneg vc) rx) up vp rp vn rn uc vc rc);
  rn ← (if negb (c =? 0) then _ ← limbsZ (store (rp + rn) c); mret (rn + 1) else limbsZ (mpn_normalized_size rp rn));
  set_size r (if negb (rx =? 0) then - rn else rn).

(** The longer operand first. *)
Definition longer_first (u v : positive) : M zst (positive * positive * Z * Z) :=
  us ← size_of u;
  vs ← size_of v;
  let un := Z.abs us in
  let vn := Z.abs vs in
  mret (if un <? vn then (v, u, vn, un) else (u, v, un, vn)).

Definition mpz_and (r u v : positive) : M zst unit :=
  c ← longer_first u v;
  let '(u, v, un, vn) := c in
  if vn =? 0 then set_size r 0
  else
    us ← size_of u;
    vs ← size_of v;
    let uc := b2l (us <? 0) in
    let vc := b2l (vs <? 0) in
    let rc := Z.land uc vc in
    let rn := if negb (lneg vc =? 0) then un else vn in
    logic_result Z.land (λ ux vx rx ul, Z.lxor (Z.land ul vx) rx) r u v vn rn uc vc rc.

Definition mpz_ior (r u v : positive) : M zst unit :=
  c ← longer_first u v;
  let '(u, v, un, vn) := c in
  if vn =? 0 then mpz_set r u
  else
    us ← size_of u;
    vs ← size_of v;
    let uc := b2l (us <? 0) in
    let vc := b2l (vs <? 0) in
    let rc := Z.lor uc vc in
    let rn := if negb (lneg vc =? 0) then vn else un in
    logic_result Z.lor (λ ux vx rx ul, Z.lxor (Z.lor ul vx) rx) r u v vn rn uc vc rc.

Definition mpz_xor (r u v : positive) : M zst unit :=
  c ← longer_first u v;
  let '(u, v, un, vn) := c in
  if vn =? 0 then mpz_set r u
  else
    us ← size_of u;
    vs ← size_of v;
    let uc := b2l (us <? 0) in
    let vc := b2l (vs <? 0) in
    let rc := Z.lxor uc vc in
    logic_result Z.lxor (λ ux vx rx ul, Z.lxor ul ux) r u v vn un uc vc rc.

(** ** Two's complement *)

(** Limb [i] of the absolute value, limb [i] of the two's complement, the carry
    into limb [i] when one is turned into the other, and the mask. *)
Definition abs_limb (z i : Z) : Z := (Z.abs z / B ^ i) mod B.
Definition twos_limb (z i : Z) : Z := (z / B ^ i) mod B.
Definition carry (z i : Z) : Z := b2l ((z <? 0) && (Z.abs z mod B ^ i =? 0)).
Definition mask (z : Z) : Z := lneg (b2l (z <? 0)).

Lemma mask_neg z : mask z = if z <? 0 then GMP_LIMB_MAX else 0.
Proof. unfold mask. by destruct (z <? 0). Qed.

Lemma lxor_max x : limb x → Z.lxor x GMP_LIMB_MAX = B - 1 - x.
Proof.
  intros Hx. unfold limb in Hx. change GMP_LIMB_MAX with (Z.ones 64). transitivity (Z.land (Z.lnot x) (Z.ones 64)).
  - apply Z.bits_inj'. intros n Hn. rewrite Z.lxor_spec, Z.land_spec, Z.lnot_spec by done. destruct (Z.lt_ge_cases n 64).
    + rewrite Z.ones_spec_low by lia. by destruct (Z.testbit x n).
    + rewrite Z.ones_spec_high by lia. replace (Z.testbit x n) with false; [done|]. symmetry. rewrite Z.testbit_odd, Z.shiftr_div_pow2, Z.div_small by (try lia; pose proof (Z.pow_le_mono_r 2 64 n); change B with (2 ^ 64) in *; lia). done.
  - rewrite Z.land_ones by lia. change (2 ^ 64) with B. unfold Z.lnot. symmetry. apply (Z.mod_unique _ _ (-1)); lia.
Qed.

Lemma limb_mod x : limb (x mod B).
Proof. unfold limb. apply Z.mod_pos_bound. done. Qed.
#[local] Hint Resolve limb_mod : core.

Lemma eqm_minus_mod q c : (B - 1 - q mod B + c) mod B = (- q - 1 + c) mod B.
Proof.
  pose proof (Z.div_mod q B ltac:(done)) as E. replace (B - 1 - q mod B + c) with (- q - 1 + c + (q / B + 1) * B) by lia. by rewrite Z.mod_add.
Qed.

(** The carry into the next limb. *)
Lemma carry_step z i : 0 ≤ i → carry z (i + 1) = b2l ((carry z i =? 1) && (abs_limb z i =? 0)).
Proof.
  intros Hi. unfold carry, abs_limb. destruct (z <? 0); [|done]. cbn [andb]. pose proof (Z.pow_pos_nonneg B i ltac:(done) Hi). rewrite Z.pow_add_r, Z.pow_1_r by lia.
  rewrite Z.rem_mul_r by (done || lia). pose proof (Z.mod_pos_bound (Z.abs z) (B ^ i) ltac:(lia)). pose proof (Z.mod_pos_bound (Z.abs z / B ^ i) B ltac:(done)). f_equal.
  destruct (Z.eqb_spec (Z.abs z mod B ^ i) 0) as [->|E]; cbn [b2l Z.eqb andb Pos.eqb]; [|apply Z.eqb_neq; nia].
  destruct (Z.eqb_spec ((Z.abs z / B ^ i) mod B) 0) as [->|E2]; [apply Z.eqb_eq; lia|apply Z.eqb_neq; nia].
Qed.

Lemma twos_abs z i : 0 ≤ i → twos_limb z i = (if z <? 0 then (B - 1 - abs_limb z i + carry z i) mod B else abs_limb z i) ∧ (0 ≤ carry z i ≤ 1).
Proof.
  intros Hi. split; [|unfold carry; destruct (_ && _); simpl; lia]. unfold twos_limb, abs_limb, carry. destruct (Z.ltb_spec z 0) as [Hz|Hz]; cbn [andb]; [|by rewrite Z.abs_eq].
  pose proof (Z.pow_pos_nonneg B i ltac:(done) Hi). replace (z / B ^ i) with (- Z.abs z / B ^ i) by (f_equal; lia). set (a := Z.abs z). set (q := a / B ^ i).
  assert (∀ c, (B - 1 - q mod B + c) mod B = (- q - 1 + c) mod B) as Hc by apply eqm_minus_mod. destruct (Z.eqb_spec (a mod B ^ i) 0) as [E|E]; cbn [b2l]; rewrite Hc.
  - rewrite Z.div_opp_l_z by (done || lia). f_equal. unfold q. lia.
  - rewrite Z.div_opp_l_nz by (done || lia). f_equal. unfold q. lia.
Qed.

Lemma carry_pos z i : (z <? 0) = false → carry z i = 0.
Proof. unfold carry. by intros ->. Qed.

(** One limb from the absolute value to the two's complement, and back. *)
Lemma to_twos z i : 0 ≤ i → ladd (Z.lxor (abs_limb z i) (mask z)) (carry z i) = twos_limb z i ∧ b2l (twos_limb z i <? carry z i) = carry z (i + 1).
Proof.
  intros Hi. destruct (twos_abs z i Hi) as [Et Hc]. assert (limb (abs_limb z i)) as Ha by apply limb_mod. rewrite carry_step by done. unfold limb in Ha.
  rewrite mask_neg, Et. unfold ladd, u64. change SIZE_MOD with B. destruct (z <? 0) eqn:Ez.
  - rewrite lxor_max by done. split; [done|]. f_equal. assert (carry z i = 0 ∨ carry z i = 1) as [->| ->] by lia.
    + cbn [Z.eqb andb]. apply Z.ltb_ge. apply Z.mod_pos_bound. done.
    + cbn [Z.eqb andb Pos.eqb]. destruct (Z.eqb_spec (abs_limb z i) 0) as [->|E]; [done|]. rewrite Z.mod_small by lia. apply Z.ltb_ge. lia.
  - rewrite carry_pos, Z.lxor_0_r, Z.add_0_r, Z.mod_small by done. split; [done|]. cbn [Z.eqb andb b2l]. rewrite (proj2 (Z.ltb_ge _ _)) by lia. done.
Qed.

Lemma from_twos z i : 0 ≤ i → ladd (Z.lxor (twos_limb z i) (mask z)) (carry z i) = abs_limb z i ∧ b2l (abs_limb z i <? carry z i) = carry z (i + 1).
Proof.
  intros Hi. destruct (twos_abs z i Hi) as [Et Hc]. assert (limb (abs_limb z i)) as Ha by apply limb_mod. assert (limb (twos_limb z i)) as Ht by apply limb_mod. rewrite carry_step by done. unfold limb in Ha. split.
  - rewrite mask_neg. unfold ladd, u64. change SIZE_MOD with B. destruct (z <? 0) eqn:Ez; [|by rewrite Et, carry_pos, Z.lxor_0_r, Z.add_0_r, Z.mod_small].
    rewrite lxor_max, Et by done. assert (carry z i = 0 ∨ carry z i = 1) as [->| ->] by lia.
    + rewrite Z.add_0_r, Z.add_0_r, (Z.mod_small (B - 1 - abs_limb z i)) by lia. rewrite Z.mod_small; lia.
    + destruct (Z.eq_dec (abs_limb z i) 0) as [->|E]; [done|]. rewrite (Z.mod_small (B - 1 - abs_limb z i + 1)) by lia. rewrite Z.mod_small; lia.
  - f_equal. assert (carry z i = 0 ∨ carry z i = 1) as [->| ->] by lia; cbn [Z.eqb andb Pos.eqb]; lia.
Qed.

(** ** Bitwise operations on limbs *)

(** An operation on each bit, which leaves 0 at 0. *)
Class Bitwise (op : Z → Z → Z) (b : bool → bool → bool) : Prop := {
  bitwise_spec : ∀ x y n, Z.testbit (op x y) n = b (Z.testbit x n) (Z.testbit y n);
  bitwise_false : b false false = false;
}.

#[export] Instance bitwise_and : Bitwise Z.land andb.
Proof. split; [apply Z.land_spec|done]. Qed.
#[export] Instance bitwise_or : Bitwise Z.lor orb.
Proof. split; [apply Z.lor_spec|done]. Qed.
#[export] Instance bitwise_xor : Bitwise Z.lxor xorb.
Proof. split; [apply Z.lxor_spec|done]. Qed.

Lemma bitwise_div op b x y k : Bitwise op b → 0 ≤ k → op x y / 2 ^ k = op (x / 2 ^ k) (y / 2 ^ k).
Proof.
  intros Hb Hk. rewrite <- !Z.shiftr_div_pow2 by done. apply Z.bits_inj'. intros n Hn. by rewrite Z.shiftr_spec, !(bitwise_spec (op:=op)), !Z.shiftr_spec by done.
Qed.

Lemma bitwise_mod op b x y k : Bitwise op b → 0 ≤ k → op x y mod 2 ^ k = op (x mod 2 ^ k) (y mod 2 ^ k).
Proof.
  intros Hb Hk. rewrite <- !Z.land_ones by done. apply Z.bits_inj'. intros n Hn. rewrite Z.land_spec, !(bitwise_spec (op:=op)), !Z.land_spec.
  destruct (Z.testbit (Z.ones k) n); by rewrite ?andb_true_r, ?andb_false_r, ?bitwise_false.
Qed.

Lemma bitwise_limb op b x y i : Bitwise op b → 0 ≤ i → op (twos_limb x i) (twos_limb y i) = twos_limb (op x y) i.
Proof. intros Hb Hi. unfold twos_limb. rewrite B_pow by done. rewrite (bitwise_div op b x y) by (done || lia). symmetry. change B with (2 ^ 64). by apply (bitwise_mod op b). Qed.

(** The limbs above those of the number. *)
Lemma twos_high z i : zlimbs z ≤ i → z / B ^ i = (if z <? 0 then -1 else 0) ∧ twos_limb z i = mask z.
Proof.
  intros Hi. pose proof (abs_lt z) as Hz. pose proof (zlimbs_nonneg z). pose proof (Z.pow_le_mono_r B (zlimbs z) i ltac:(done) Hi).
  assert (z / B ^ i = if z <? 0 then -1 else 0) as E.
  { destruct (Z.ltb_spec z 0); [|apply Z.div_small; lia]. symmetry. apply (Z.div_unique_pos _ _ _ (z + B ^ i)); lia. }
  split; [done|]. unfold twos_limb. rewrite E, mask_neg. by destruct (z <? 0).
Qed.

(** ** The loops *)

(** The limbs of the absolute value, from limb [i] on. *)
Fixpoint magnitude (z i : Z) (n : nat) : list Z := match n with O => [] | S n' => abs_limb z i :: magnitude z (i + 1) n' end.

Lemma magnitude_length z i n : length (magnitude z i n) = n.
Proof. revert i. induction n as [|n IH]; intros i; [done|]. simpl. by rewrite IH. Qed.

Lemma magnitude_limbs z i n : Forall limb (magnitude z i n).
Proof. revert i. induction n as [|n IH]; intros i; constructor; [apply limb_mod|done]. Qed.

Lemma magnitude_app z i a b : magnitude z i a ++ magnitude z (i + Z.of_nat a) b = magnitude z i (a + b).
Proof.
  revert i. induction a as [|a IH]; intros i; cbn [magnitude Nat.add app]; [by rewrite Z.add_0_r|]. f_equal. rewrite <- IH. do 2 f_equal. lia.
Qed.

Lemma value_magnitude z i n : 0 ≤ i → value (magnitude z i n) = (Z.abs z / B ^ i) mod B ^ Z.of_nat n.
Proof.
  revert i. induction n as [|n IH]; intros i Hi; [by rewrite Z.mod_1_r|]. cbn [magnitude value]. rewrite IH by lia.
  pose proof (Z.pow_pos_nonneg B i ltac:(done) Hi). pose proof (Z.pow_pos_nonneg B (Z.of_nat n) ltac:(done) ltac:(lia)).
  rewrite Nat2Z.inj_succ, Z.pow_succ_r, Z.rem_mul_r, (Z.pow_add_r B i 1), Z.pow_1_r, <- Z.div_div by (done || lia). done.
Qed.

(** The limbs of a number in memory. *)
Lemma magnitude_of xs z n : Forall limb xs → value xs = Z.abs z → length xs = n → xs = magnitude z 0 n.
Proof.
  intros Hx Hv Hl. apply value_inj; [done|apply magnitude_limbs|by rewrite magnitude_length|]. rewrite value_magnitude, Z.pow_0_r, Z.div_1_r, <- Hv by lia.
  symmetry. apply Z.mod_small. rewrite <- Hl. by apply value_bounds.
Qed.

Section loops.
Context (op : Z → Z → Z) (b : bool → bool → bool) `{!Bitwise op b} (x y : Z) (up vp rp : Z).
Local Abbreviation w := (op x y).

Lemma logic_low_spec n i m :
  0 ≤ i → limbs_at m (up + i) (magnitude x i n) → limbs_at m (vp + i) (magnitude y i n) → writable m (rp + i) n →
  upward rp up (i + Z.of_nat n) → upward rp vp (i + Z.of_nat n) →
  logic_low op up vp rp (mask x) (mask y) (mask w) n i (carry x i) (carry y i) (carry w i) m =
  Done (carry x (i + Z.of_nat n), carry y (i + Z.of_nat n), carry w (i + Z.of_nat n)) (write m (rp + i) (magnitude w i n)).
Proof.
  revert i m. induction n as [|n IH]; intros i m Hi Hx Hy Hw Hu Hv; cbn [logic_low magnitude] in *.
  - rewrite Z.add_0_r, write_nil. done.
  - apply limbs_at_cons in Hx as [[_ Hx0] Hx]. apply limbs_at_cons in Hy as [[_ Hy0] Hy]. rewrite (bind_done _ _ _ _ _ (load_ok _ _ _ Hx0)), (bind_done _ _ _ _ _ (load_ok _ _ _ Hy0)).
    destruct (to_twos x i Hi) as [-> ->]. destruct (to_twos y i Hi) as [-> ->]. rewrite (bitwise_limb op b) by done. destruct (from_twos w i Hi) as [-> ->].
    assert (is_Some (cells m !! (rp + i))) as Hr by (specialize (Hw O ltac:(lia)); by rewrite Z.add_0_r in Hw). rewrite (bind_done _ _ _ _ _ (store_ok _ _ _ Hr)). unfold upward in *.
    rewrite IH.
    + rewrite write_cons, Z.add_assoc. replace (i + 1 + Z.of_nat n) with (i + Z.of_nat (S n)) by lia. done.
    + lia.
    + rewrite Z.add_assoc. apply limbs_at_frame; [done|]. rewrite magnitude_length. unfold disjoint. simpl. lia.
    + rewrite Z.add_assoc. apply limbs_at_frame; [done|]. rewrite magnitude_length. unfold disjoint. simpl. lia.
    + apply writable_write. intros j Hj. replace (rp + (i + 1) + Z.of_nat j) with (rp + i + Z.of_nat (S j)) by lia. apply Hw. lia.
    + lia.
    + lia.
Qed.

Lemma logic_high_spec tail n i m :
  zlimbs y ≤ i → (∀ l, tail l = Z.lxor (op l (mask y)) (mask w)) → limbs_at m (up + i) (magnitude x i n) → writable m (rp + i) n → upward rp up (i + Z.of_nat n) →
  logic_high tail up rp (mask x) n i (carry x i) (carry w i) m = Done (carry w (i + Z.of_nat n)) (write m (rp + i) (magnitude w i n)).
Proof.
  intros Hi Ht. pose proof (zlimbs_nonneg y). revert i m Hi. induction n as [|n IH]; intros i m Hi Hx Hw Hu; cbn [logic_high magnitude] in *.
  - rewrite Z.add_0_r, write_nil. done.
  - apply limbs_at_cons in Hx as [[_ Hx0] Hx]. rewrite (bind_done _ _ _ _ _ (load_ok _ _ _ Hx0)).
    destruct (to_twos x i ltac:(lia)) as [-> ->]. rewrite Ht, <- (proj2 (twos_high y i Hi)), (bitwise_limb op b) by (done || lia). destruct (from_twos w i ltac:(lia)) as [-> ->].
    assert (is_Some (cells m !! (rp + i))) as Hr by (specialize (Hw O ltac:(lia)); by rewrite Z.add_0_r in Hw). rewrite (bind_done _ _ _ _ _ (store_ok _ _ _ Hr)). unfold upward in *.
    rewrite IH.
    + rewrite write_cons, Z.add_assoc. replace (i + 1 + Z.of_nat n) with (i + Z.of_nat (S n)) by lia. done.
    + lia.
    + rewrite Z.add_assoc. apply limbs_at_frame; [done|]. rewrite magnitude_length. unfold disjoint. simpl. lia.
    + apply writable_write. intros j Hj. replace (rp + (i + 1) + Z.of_nat j) with (rp + i + Z.of_nat (S j)) by lia. apply Hw. lia.
    + lia.
Qed.
End loops.

Lemma carry_0 z : carry z 0 = b2l (z <? 0).
Proof. unfold carry. by rewrite Z.pow_0_r, Z.mod_1_r, andb_true_r. Qed.

(** No carry leaves the highest limb of a number. *)
Lemma carry_top z : z ≠ 0 → carry z (zlimbs z) = 0.
Proof. intros Hz. unfold carry. pose proof (abs_lt z). rewrite Z.mod_small, (proj2 (Z.eqb_neq (Z.abs z) 0)), andb_false_r by lia. done. Qed.

Section result.
Context (op : Z → Z → Z) (b : bool → bool → bool) `{!Bitwise op b} (x y : Z).
Local Abbreviation w := (op x y).

Lemma logic_limbs_spec tail up vp rp rn m :
  y ≠ 0 → zlimbs y ≤ rn → (∀ l, tail l = Z.lxor (op l (mask y)) (mask w)) →
  limbs_at m up (magnitude x 0 (Z.to_nat rn)) → limbs_at m vp (magnitude y 0 (Z.to_nat (zlimbs y))) → writable m rp (Z.to_nat rn) → upward rp up rn → upward rp vp (zlimbs y) →
  computes (logic_limbs op tail up vp rp (zlimbs y) rn (b2l (x <? 0)) (b2l (y <? 0)) (b2l (w <? 0))) m rp (Z.to_nat rn) (λ c rs, c = carry w rn ∧ value rs = Z.abs w mod B ^ rn).
Proof.
  intros Hy Hle Ht Hx Hv Hw Hu1 Hu2. pose proof (zlimbs_nonneg y). set (k := Z.to_nat (zlimbs y)). set (l := Z.to_nat (rn - zlimbs y)).
  assert (Z.to_nat rn = k + l)%nat as El by (unfold k, l; lia). rewrite El in *. rewrite <- magnitude_app in Hx. apply limbs_at_app in Hx as [Hx1 Hx2]. rewrite magnitude_length in Hx2.
  apply writable_add in Hw as [Hw1 Hw2]. replace (0 + Z.of_nat k) with (zlimbs y) in Hx2 by (unfold k; lia). replace (Z.of_nat k) with (zlimbs y) in * by (unfold k; lia).
  exists (carry w rn), (magnitude w 0 (k + l)). split; [|split; [apply magnitude_limbs|split; [apply magnitude_length|split; [done|]]]].
  - unfold logic_limbs. fold (mask x) (mask y) (mask w). rewrite <- !carry_0. erewrite bind_done; [|apply (logic_low_spec op b); rewrite ?Z.add_0_r; try done; unfold upward in *; lia].
    cbv beta iota. fold k. fold l. replace (0 + Z.of_nat k) with (zlimbs y) by (unfold k; lia). rewrite carry_top by done. rewrite lift_assert_bind by done.
    rewrite (logic_high_spec op b x y); [|lia|done| |rewrite Z.add_0_r; by apply writable_write|unfold upward, l in *; lia].
    2: { rewrite Z.add_0_r. apply limbs_at_frame; [done|]. rewrite !magnitude_length. unfold disjoint, upward, k, l in *. lia. }
    replace (zlimbs y + Z.of_nat l) with rn by (unfold l; lia). f_equal. rewrite Z.add_0_r.
    replace (rp + zlimbs y) with (rp + Z.of_nat (length (magnitude w 0 k))) by (rewrite magnitude_length; unfold k; lia). rewrite write_write. f_equal.
    replace (zlimbs y) with (0 + Z.of_nat k) by (unfold k; lia). apply magnitude_app.
  - rewrite value_magnitude, Z.pow_0_r, Z.div_1_r by lia. do 2 f_equal. lia.
Qed.
End result.

(** ** The three functions *)

Section functions.
Context {F : gmap Z (option Z)} {FB : gmap Z Z} {D : positive → Prop}.
Local Abbreviation holds := (holds F FB D).
Local Abbreviation filled := (filled (F:=F) (FB:=FB) (D:=D)).
Local Abbreviation pending := (pending (F:=F) (FB:=FB) (D:=D)).

(** The limbs of the result and its last carry, with the sign. *)
Lemma logic_pending N s r st rs z n :
  sizes N s → filled N s r st rs → 0 < n → Z.of_nat (length rs) = n → value rs = Z.abs z mod B ^ n → z / B ^ n = (if z <? 0 then -1 else 0) → n + b2l (z <? 0) ≤ mp_alloc st →
  wp never (rn ← (if negb (carry z n =? 0) then _ ← limbsZ (store (mp_d st + n) (carry z n)); mret (n + 1) else limbsZ (mpn_normalized_size (mp_d st) n));
            set_size r (if negb (mask z =? 0) then - rn else rn)) (λ _ s', holds (<[r := Some z]> N) s') s.
Proof.
  intros Hs Hf Hn Hl Hv Hd Hal. pose proof (Z.pow_pos_nonneg B n ltac:(done) ltac:(lia)) as HB. pose proof (Z.div_mod z (B ^ n) ltac:(lia)) as Edm. pose proof (Z.mod_pos_bound z (B ^ n) HB).
  assert (∀ k s', pending N s' r k (Z.abs z) → wp never (set_size r (if negb (mask z =? 0) then - k else k)) (λ _ s'', holds (<[r := Some z]> N) s'') s') as Hend.
  { intros k s' Hp. rewrite mask_neg. destruct (Z.ltb_spec z 0); cbn [negb Z.eqb].
    - replace (negb (GMP_LIMB_MAX =? 0)) with true by done. apply pending_finish. replace z with (- Z.abs z) by lia. by apply pending_opp.
    - apply pending_finish. by rewrite Z.abs_eq in Hp by lia. }
  unfold carry in *. destruct (Z.ltb_spec z 0) as [Hz|Hz]; cbn [andb b2l] in *.
  - destruct (Z.eqb_spec (Z.abs z mod B ^ n) 0) as [E0|E0]; cbn [b2l Z.eqb negb].
    + rewrite <- Hl, wp_bind_assoc. eapply wp_store; [done|done|done|lia|]. intros s1 Hs1 Hf1. eapply wp_then; [done|]. apply Hend.
      assert (Z.abs z = B ^ n) as Ez. { rewrite Hd in Edm. destruct (proj1 (Z.mod_divide (Z.abs z) (B ^ n) ltac:(lia)) E0) as [q Eq]. set (P := B ^ n) in *. assert (0 < q * P ≤ P) by lia. assert (0 < q) by nia. assert (q < 2) by nia. nia. }
      replace 1 with (b2l (0 <? 1)) by done. apply (carry_pending N s1 r st rs 1); [done|lia| |lia|].
      * rewrite Hv, E0, Hl. lia.
      * rewrite Ez, Hl. apply Z.pow_le_mono_r; [done|lia].
    + apply wp_bind. rewrite <- Hl. eapply wp_mono; [exact (wp_normalized N s r st rs Hf)|]. intros k s1 [-> Hp]. apply Hend. replace (Z.abs z) with (value rs); [done|].
      rewrite Hv. apply Z.mod_small. rewrite Hd in Edm. destruct (Z.eq_dec (Z.abs z) (B ^ n)) as [E|]; [|lia]. rewrite E, Z.mod_same in E0 by lia. done.
  - apply wp_bind. rewrite <- Hl. eapply wp_mono; [exact (wp_normalized N s r st rs Hf)|]. intros k s1 [-> Hp]. apply Hend. replace (Z.abs z) with (value rs); [done|].
    rewrite Hv. apply Z.mod_small. rewrite Hd in Edm. lia.
Qed.

Lemma logic_result_spec op b `{!Bitwise op b} tail N s r u v x y rn :
  let w := op x y in
  holds N s → is_Some (N !! r) → N !! u = Some (Some x) → N !! v = Some (Some y) → y ≠ 0 → zlimbs y ≤ rn ≤ zlimbs x →
  (∀ l, tail (mask x) (mask y) (mask w) l = Z.lxor (op l (mask y)) (mask w)) → w / B ^ rn = (if w <? 0 then -1 else 0) → zlimbs x + 1 ≤ alloc_limit →
  wp never (logic_result op tail r u v (zlimbs y) rn (b2l (x <? 0)) (b2l (y <? 0)) (b2l (w <? 0))) (λ _ s', holds (<[r := Some w]> N) s') s.
Proof.
  intros w H Hr Hu Hv Hy Hrn Ht Hd Hlim. unfold logic_result. pose proof (zlimbs_pos y Hy). fold (mask x) (mask y) (mask w).
  eapply wp_realloc; [done|done|destruct (w <? 0); simpl; lia|]. intros s1 st H1 Ho Hal.
  destruct (holds_read N s1 u x H1 Hu) as (stu & xs & Hou & Hxs & _ & Lx & _ & Vx & Hax). destruct (holds_read N s1 v y H1 Hv) as (stv & ys & Hov & Hys & _ & Ly & _ & Vy & Hay).
  assert (rn ≤ mp_alloc st) as Hrl by (destruct (w <? 0); simpl in Hal; lia). eapply wp_limbs; [exact Hou|]. eapply wp_limbs; [exact Hov|].
  pose proof (magnitude_of xs x _ (proj1 Hxs) Vx eq_refl) as Ex. pose proof (magnitude_of ys y _ (proj1 Hys) Vy eq_refl) as Ey.
  eapply wp_computes; [exact H1|exact Ho|eapply (logic_limbs_spec op b x y)| |]; try done.
  - lia.
  - replace (length xs) with (Z.to_nat rn + (length xs - Z.to_nat rn))%nat in Ex by lia. rewrite <- magnitude_app in Ex. rewrite Ex in Hxs. by apply limbs_at_app in Hxs as [? _].
  - rewrite Ey in Hys. by replace (Z.to_nat (zlimbs y)) with (length ys) by lia.
  - apply (own_writable N s1 r st _ H1 Ho). lia.
  - eapply (own_upward N s1 r); (done || lia).
  - eapply (own_upward N s1 r); (done || lia).
  - lia.
  - intros c rs s2 Hs2 Hf Hrs Hlen [-> Hval]. apply (logic_pending N s2 r st rs w rn); (done || lia).
Qed.

Lemma size_neg z : (zsize z <? 0) = (z <? 0).
Proof. pose proof (zsize_nonneg z). destruct (Z.ltb_spec (zsize z) 0), (Z.ltb_spec z 0); (done || lia). Qed.

Lemma nonzero_mask c : negb (lneg (b2l c) =? 0) = c.
Proof. by destruct c. Qed.

(** The quotient of the result by a power of the base, as in the operands. *)
Lemma logic_div op b `{!Bitwise op b} x y n : 0 ≤ n → op x y / B ^ n = op (x / B ^ n) (y / B ^ n).
Proof. intros Hn. rewrite B_pow by done. apply (bitwise_div op b); [done|lia]. Qed.

Section ordered.
Context (N : vars) (s : zst) (r u v : positive) (x y : Z).
Hypotheses (H : holds N s) (Hr : is_Some (N !! r)) (Hu : N !! u = Some (Some x)) (Hv : N !! v = Some (Some y)) (Hle : zlimbs y ≤ zlimbs x) (Hlim : zlimbs x + 1 ≤ alloc_limit).

Lemma high_x n : zlimbs x ≤ n → x / B ^ n = if x <? 0 then -1 else 0.
Proof. intros Hn. by apply twos_high. Qed.
Lemma high_y n : zlimbs y ≤ n → y / B ^ n = if y <? 0 then -1 else 0.
Proof. intros Hn. by apply twos_high. Qed.

Lemma and_ordered_spec :
  wp never (if zlimbs y =? 0 then set_size r 0
            else us ← size_of u; vs ← size_of v;
                 let uc := b2l (us <? 0) in let vc := b2l (vs <? 0) in let rc := Z.land uc vc in
                 let rn := if negb (lneg vc =? 0) then zlimbs x else zlimbs y in
                 logic_result Z.land (λ ux vx rx ul, Z.lxor (Z.land ul vx) rx) r u v (zlimbs y) rn uc vc rc)
    (λ _ s', holds (<[r := Some (Z.land x y)]> N) s') s.
Proof.
  pose proof (zlimbs_nonneg y). destruct (Z.eqb_spec (zlimbs y) 0) as [E|E].
  { assert (y = 0) as -> by (destruct (Z.eq_dec y 0) as [|Hy]; [done|pose proof (zlimbs_pos y Hy); lia]). rewrite Z.land_0_r. by apply set_size_zero. }
  eapply wp_size; [exact (holds_sizes _ _ H)|done|]. eapply wp_size; [exact (holds_sizes _ _ H)|done|]. cbv zeta. rewrite !size_neg, nonzero_mask.
  assert (Z.land (b2l (x <? 0)) (b2l (y <? 0)) = b2l (Z.land x y <? 0)) as ->.
  { pose proof (Z.land_neg x y). destruct (Z.ltb_spec x 0), (Z.ltb_spec y 0), (Z.ltb_spec (Z.land x y) 0); (done || lia). }
  apply (logic_result_spec Z.land andb); try done; [by intros ->| |].
  - destruct (y <? 0); lia.
  - rewrite (logic_div Z.land andb) by (destruct (y <? 0); lia). pose proof (Z.land_neg x y). destruct (Z.ltb_spec y 0) as [Hy|Hy].
    + rewrite high_x, high_y by lia. rewrite (proj2 (Z.ltb_lt y 0)), Z.land_m1_r by done. destruct (Z.ltb_spec x 0), (Z.ltb_spec (Z.land x y) 0); (done || lia).
    + rewrite high_y, (proj2 (Z.ltb_ge y 0)), Z.land_0_r by lia. destruct (Z.ltb_spec (Z.land x y) 0); (done || lia).
Qed.

Lemma ior_ordered_spec :
  wp never (if zlimbs y =? 0 then mpz_set r u
            else us ← size_of u; vs ← size_of v;
                 let uc := b2l (us <? 0) in let vc := b2l (vs <? 0) in let rc := Z.lor uc vc in
                 let rn := if negb (lneg vc =? 0) then zlimbs y else zlimbs x in
                 logic_result Z.lor (λ ux vx rx ul, Z.lxor (Z.lor ul vx) rx) r u v (zlimbs y) rn uc vc rc)
    (λ _ s', holds (<[r := Some (Z.lor x y)]> N) s') s.
Proof.
  pose proof (zlimbs_nonneg y). destruct (Z.eqb_spec (zlimbs y) 0) as [E|E].
  { assert (y = 0) as -> by (destruct (Z.eq_dec y 0) as [|Hy]; [done|pose proof (zlimbs_pos y Hy); lia]). rewrite Z.lor_0_r. by apply (mpz_set_spec N s r u). }
  eapply wp_size; [exact (holds_sizes _ _ H)|done|]. eapply wp_size; [exact (holds_sizes _ _ H)|done|]. cbv zeta. rewrite !size_neg, nonzero_mask.
  assert (Z.lor (b2l (x <? 0)) (b2l (y <? 0)) = b2l (Z.lor x y <? 0)) as ->.
  { pose proof (Z.lor_neg x y). destruct (Z.ltb_spec x 0), (Z.ltb_spec y 0), (Z.ltb_spec (Z.lor x y) 0); (done || lia). }
  apply (logic_result_spec Z.lor orb); try done; [by intros ->| |].
  - destruct (y <? 0); lia.
  - rewrite (logic_div Z.lor orb) by (destruct (y <? 0); lia). pose proof (Z.lor_neg x y). destruct (Z.ltb_spec y 0) as [Hy|Hy].
    + rewrite high_y, (proj2 (Z.ltb_lt y 0)), Z.lor_m1_r by lia. destruct (Z.ltb_spec (Z.lor x y) 0); (done || lia).
    + rewrite high_x, high_y, (proj2 (Z.ltb_ge y 0)), Z.lor_0_r by lia. destruct (Z.ltb_spec x 0), (Z.ltb_spec (Z.lor x y) 0); (done || lia).
Qed.

Lemma xor_ordered_spec :
  wp never (if zlimbs y =? 0 then mpz_set r u
            else us ← size_of u; vs ← size_of v;
                 let uc := b2l (us <? 0) in let vc := b2l (vs <? 0) in let rc := Z.lxor uc vc in
                 logic_result Z.lxor (λ ux vx rx ul, Z.lxor ul ux) r u v (zlimbs y) (zlimbs x) uc vc rc)
    (λ _ s', holds (<[r := Some (Z.lxor x y)]> N) s') s.
Proof.
  pose proof (zlimbs_nonneg y). destruct (Z.eqb_spec (zlimbs y) 0) as [E|E].
  { assert (y = 0) as -> by (destruct (Z.eq_dec y 0) as [|Hy]; [done|pose proof (zlimbs_pos y Hy); lia]). rewrite Z.lxor_0_r. by apply (mpz_set_spec N s r u). }
  eapply wp_size; [exact (holds_sizes _ _ H)|done|]. eapply wp_size; [exact (holds_sizes _ _ H)|done|]. cbv zeta. rewrite !size_neg. pose proof (Z.lxor_nonneg x y).
  assert (Z.lxor (b2l (x <? 0)) (b2l (y <? 0)) = b2l (Z.lxor x y <? 0)) as ->.
  { destruct (Z.ltb_spec x 0), (Z.ltb_spec y 0), (Z.ltb_spec (Z.lxor x y) 0); (done || lia). }
  apply (logic_result_spec Z.lxor xorb); try done; [by intros ->| |].
  - intros l. rewrite !mask_neg, Z.lxor_assoc. f_equal. destruct (Z.ltb_spec x 0), (Z.ltb_spec y 0), (Z.ltb_spec (Z.lxor x y) 0); (done || lia).
  - rewrite (logic_div Z.lxor xorb), high_x, high_y by lia. destruct (Z.ltb_spec x 0), (Z.ltb_spec y 0), (Z.ltb_spec (Z.lxor x y) 0); (done || lia).
Qed.
End ordered.

Lemma longer_first_spec N s u v x y :
  holds N s → N !! u = Some (Some x) → N !! v = Some (Some y) →
  reads (longer_first u v) s (if zlimbs x <? zlimbs y then (v, u, zlimbs y, zlimbs x) else (u, v, zlimbs x, zlimbs y)).
Proof. intros H Hu Hv. eapply (reads_size N s H); [done|]. eapply (reads_size N s H); [done|]. cbv zeta. by rewrite !zsize_abs. Qed.

Section functions2.
Context (N : vars) (s : zst) (r u v : positive) (x y : Z).
Hypotheses (H : holds N s) (Hr : is_Some (N !! r)) (Hu : N !! u = Some (Some x)) (Hv : N !! v = Some (Some y)) (Hlim : Z.max (zlimbs x) (zlimbs y) + 1 ≤ alloc_limit).

Lemma mpz_and_spec : wp never (mpz_and r u v) (λ _ s', holds (<[r := Some (Z.land x y)]> N) s') s.
Proof.
  eapply wp_reads; [by apply (longer_first_spec N)|]. destruct (Z.ltb_spec (zlimbs x) (zlimbs y)); [rewrite Z.land_comm|]; apply (and_ordered_spec N s); (done || lia).
Qed.

Lemma mpz_ior_spec : wp never (mpz_ior r u v) (λ _ s', holds (<[r := Some (Z.lor x y)]> N) s') s.
Proof.
  eapply wp_reads; [by apply (longer_first_spec N)|]. destruct (Z.ltb_spec (zlimbs x) (zlimbs y)); [rewrite Z.lor_comm|]; apply (ior_ordered_spec N s); (done || lia).
Qed.

Lemma mpz_xor_spec : wp never (mpz_xor r u v) (λ _ s', holds (<[r := Some (Z.lxor x y)]> N) s') s.
Proof.
  eapply wp_reads; [by apply (longer_first_spec N)|]. destruct (Z.ltb_spec (zlimbs x) (zlimbs y)); [rewrite Z.lxor_comm|]; apply (xor_ordered_spec N s); (done || lia).
Qed.
End functions2.
End functions.
