(* ===== verification/MpzCount.v ===== *)
(** * Counting and finding bits

    The population count, the Hamming distance, and the scans for the next bit
    that is set or cleared. *)

From S2P Require Import Prelude Limbs Mpn Invert MpnDiv MpnDivN Mpz MpzRep MpzArith MpzMul MpzDivision MpzFrame MpzDivShort MpzLocals MpzGcd MpzBits MpzLogic.

(** ** Definitions *)

(** The bits of 16 bits of a limb. *)
Definition popcount_16 (x : Z) : Z :=
  let w := u32 (ladd (Z.land (lshr x 1) 0x5555) (Z.land x 0x5555)) in
  let w := u32 (Z.land (Z.shiftr w 2) 0x3333 + Z.land w 0x3333) in
  let w := u32 (Z.land (Z.shiftr w 4) 0x0f0f + Z.land w 0x0f0f) in
  u32 (Z.shiftr w 8 + Z.land w 0x00ff).

Fixpoint popcount_loop (fuel : nat) (c x : Z) : res Z :=
  if 0 <? x then
    match fuel with
    | O => Fail Undefined
    | S fuel' => popcount_loop fuel' (u32 (c + popcount_16 x)) (lshr x 16)
    end
  else Ok c.
Definition gmp_popcount_limb (x : Z) : res Z := popcount_loop 4 0 x.

Fixpoint popcount_limbs (p : Z) (n : nat) (c : Z) : M mem Z :=
  match n with
  | O => mret c
  | S n' => x ← load p; k ← lift (gmp_popcount_limb x); popcount_limbs (p + 1) n' (ladd c k)
  end.
Definition mpn_popcount (p n : Z) : M mem Z := popcount_limbs p (Z.to_nat n) 0.

Definition mpz_popcount (u : positive) : M zst Z :=
  un ← size_of u;
  if un <? 0 then mret (lnot 0)
  else up ← limbs_of u; limbsZ (mpn_popcount up un).

Fixpoint hamdist_low (up vp comp : Z) (n : nat) (i uc vc c : Z) : M mem (Z * Z * Z) :=
  match n with
  | O => mret (uc, vc, c)
  | S n' =>
      u ← load (up + i);
      let ul := ladd (Z.lxor u comp) uc in
      let uc := b2l (ul <? uc) in
      v ← load (vp + i);
      let vl := ladd (Z.lxor v comp) vc in
      let vc := b2l (vl <? vc) in
      k ← lift (gmp_popcount_limb (Z.lxor ul vl));
      hamdist_low up vp comp n' (i + 1) uc vc (ladd c k)
  end.

Fixpoint hamdist_high (up comp : Z) (n : nat) (i uc c : Z) : M mem Z :=
  match n with
  | O => mret c
  | S n' =>
      u ← load (up + i);
      let ul := ladd (Z.lxor u comp) uc in
      let uc := b2l (ul <? uc) in
      k ← lift (gmp_popcount_limb (Z.lxor ul comp));
      hamdist_high up comp n' (i + 1) uc (ladd c k)
  end.

Definition hamdist_limbs (up un vp vn uc : Z) : M mem Z :=
  let comp := lneg uc in
  r ← hamdist_low up vp comp (Z.to_nat vn) 0 uc uc 0;
  let '(uc, vc, c) := r in
  _ ← lift (assertion (vc =? 0));
  hamdist_high up comp (Z.to_nat (un - vn)) vn uc c.

Definition mpz_hamdist (u v : positive) : M zst Z :=
  un ← size_of u;
  vn ← size_of v;
  if Z.lxor un vn <? 0 then mret (lnot 0)
  else
    let uc := b2l (un <? 0) in
    _ ← lift (assertion (implb (un <? 0) (vn <? 0)));
    let '(un, vn) := if un <? 0 then (- un, - vn) else (un, vn) in
    up ← limbs_of u;
    vp ← limbs_of v;
    limbsZ (if un <? vn then hamdist_limbs vp vn up un uc else hamdist_limbs up un vp vn uc).

Definition mpz_scan1 (u : positive) (starting_bit : Z) : M zst Z :=
  us ← size_of u;
  let un := Z.abs us in
  let i := starting_bit / GMP_LIMB_BITS in
  if un <=? i then mret (if 0 <=? us then lnot 0 else starting_bit)
  else
    up ← limbs_of u;
    limb ← limbsZ (load (up + i));
    c ← (if negb (starting_bit =? 0) then
           c ← (if us <? 0 then
                  b ← limbsZ (mpn_zero_p up i);
                  let ux := b2l b in
                  let limb := ladd (lnot limb) ux in
                  mret (limb, lneg (b2l (ux <=? limb)))
                else mret (limb, 0));
           let '(limb, ux) := c in
           mret (Z.land limb (lshl GMP_LIMB_MAX (starting_bit mod GMP_LIMB_BITS)), ux)
         else mret (limb, 0));
    let '(limb, ux) := c in
    limbsZ (mpn_common_scan (Z.to_nat un) limb i up un ux).

Definition mpz_scan0 (u : positive) (starting_bit : Z) : M zst Z :=
  us ← size_of u;
  let ux := lneg (b2l (0 <=? us)) in
  let un := Z.abs us in
  let i := starting_bit / GMP_LIMB_BITS in
  if un <=? i then mret (if negb (ux =? 0) then starting_bit else lnot 0)
  else
    up ← limbs_of u;
    x ← limbsZ (load (up + i));
    let limb := Z.lxor x ux in
    limb ← (if ux =? 0 then b ← limbsZ (mpn_zero_p up i); mret (lsub limb (b2l b)) else mret limb);
    let limb := Z.land limb (lshl GMP_LIMB_MAX (starting_bit mod GMP_LIMB_BITS)) in
    limbsZ (mpn_common_scan (Z.to_nat un) limb i up un ux).

(** ** The number of bits that are set *)

Fixpoint pos_ones (p : positive) : Z := match p with xH => 1 | xO p => pos_ones p | xI p => 1 + pos_ones p end.
Definition ones (z : Z) : Z := match z with Z0 => 0 | Zpos p | Zneg p => pos_ones p end.

Lemma ones_double z (b : bool) : 0 ≤ z → ones (2 * z + b2l b) = ones z + b2l b.
Proof. intros Hz. destruct z as [|p|p]; [by destruct b| |lia]. destruct b; [change (2 * Z.pos p + b2l true) with (Z.pos p~1)|change (2 * Z.pos p + b2l false) with (Z.pos p~0)]; cbn [ones pos_ones b2l]; lia. Qed.

Lemma ones_split z k : 0 ≤ z → ones z = ones (z mod 2 ^ Z.of_nat k) + ones (z / 2 ^ Z.of_nat k).
Proof.
  revert z. induction k as [|k IH]; intros z Hz; [by rewrite Z.mod_1_r, Z.div_1_r|]. rewrite Nat2Z.inj_succ, Z.pow_succ_r by lia.
  pose proof (Z.pow_pos_nonneg 2 (Z.of_nat k) ltac:(lia) ltac:(lia)). rewrite <- Z.div_div, Z.rem_mul_r, Zmod_odd by lia. pose proof (Z.div_mod z 2 ltac:(lia)) as E. rewrite Zmod_odd in E.
  pose proof (Z.mod_pos_bound (z / 2) (2 ^ Z.of_nat k) ltac:(lia)). pose proof (Z.div_pos z 2 ltac:(lia) ltac:(lia)).
  assert (ones z = ones (z / 2) + b2l (Z.odd z)) as -> by (rewrite E at 1; rewrite <- ones_double by lia; f_equal; destruct (Z.odd z); simpl; lia).
  replace ((if Z.odd z then 1 else 0) + 2 * ((z / 2) mod 2 ^ Z.of_nat k)) with (2 * ((z / 2) mod 2 ^ Z.of_nat k) + b2l (Z.odd z)) by (destruct (Z.odd z); simpl; lia).
  rewrite ones_double by lia. rewrite (IH (z / 2)) by lia. lia.
Qed.

Lemma ones_bounds z k : 0 ≤ z < 2 ^ Z.of_nat k → 0 ≤ ones z ≤ Z.of_nat k.
Proof.
  revert z. induction k as [|k IH]; intros z Hz; [replace z with 0 by (simpl in Hz; lia); done|]. rewrite Nat2Z.inj_succ, Z.pow_succ_r in Hz by lia.
  rewrite (ones_split z 1) by lia. change (Z.of_nat 1) with 1. rewrite Z.pow_1_r, Zmod_odd. pose proof (Z.div_pos z 2 ltac:(lia) ltac:(lia)). pose proof (Z.div_mod z 2 ltac:(lia)). pose proof (Z.mod_pos_bound z 2 ltac:(lia)).
  pose proof (IH (z / 2) ltac:(lia)). destruct (Z.odd z); simpl; lia.
Qed.

(** A test of all numbers of [k] bits after the bits of [z]. *)
Fixpoint all_bits (P : Z → bool) (k : nat) (z : Z) : bool :=
  match k with O => P z | S k' => all_bits P k' (2 * z) && all_bits P k' (2 * z + 1) end.

Lemma all_bits_spec P k z : all_bits P k z = true → ∀ x, z * 2 ^ Z.of_nat k ≤ x < (z + 1) * 2 ^ Z.of_nat k → P x = true.
Proof.
  revert z. induction k as [|k IH]; intros z Hp x Hx; [replace x with z by (simpl in Hx; lia); done|]. rewrite Nat2Z.inj_succ, Z.pow_succ_r in Hx by lia.
  apply andb_prop in Hp as [H0 H1]. destruct (Z.lt_ge_cases x ((2 * z + 1) * 2 ^ Z.of_nat k)); [by apply (IH _ H0); lia|by apply (IH _ H1); lia].
Qed.

(** The 16 bits are counted correctly: one computation for each value. *)
Lemma popcount_16_table : all_bits (λ x, popcount_16 x =? ones x) 16 0 = true.
Proof. vm_compute. reflexivity. Qed.

Lemma popcount_16_low x : 0 ≤ x → popcount_16 x = popcount_16 (x mod 2 ^ 16).
Proof.
  intros Hx. assert (∀ c k, 0 ≤ k → k ≤ 1 → 0 ≤ c < 2 ^ 15 → Z.land (lshr x k) c = Z.land (lshr (x mod 2 ^ 16) k) c) as Hl.
  { intros c k Hk Hk1 Hc. apply Z.bits_inj'. intros n Hn. unfold lshr. rewrite !Z.land_spec, !Z.shiftr_spec by done. destruct (Z.lt_ge_cases n 15).
    - by rewrite Z.mod_pow2_bits_low by lia.
    - replace (Z.testbit c n) with false; [by rewrite !andb_false_r|]. symmetry. rewrite Z.testbit_odd, Z.shiftr_div_pow2, Z.div_small by (try lia; pose proof (Z.pow_le_mono_r 2 15 n); lia). done. }
  pose proof (Hl 0x5555 1 ltac:(lia) ltac:(lia) ltac:(lia)) as H1. pose proof (Hl 0x5555 0 ltac:(lia) ltac:(lia) ltac:(lia)) as H0. unfold lshr in H0. rewrite !Z.shiftr_0_r in H0. unfold popcount_16. by rewrite H1, H0.
Qed.

Lemma popcount_16_spec x : 0 ≤ x → popcount_16 x = ones (x mod 2 ^ 16).
Proof.
  intros Hx. rewrite popcount_16_low by done. apply Z.eqb_eq. pose proof (Z.mod_pos_bound x (2 ^ 16) ltac:(lia)). apply (all_bits_spec (λ x, popcount_16 x =? ones x) 16 0 popcount_16_table). simpl. lia.
Qed.

Lemma popcount_loop_spec fuel c x : 0 ≤ x < 2 ^ (16 * Z.of_nat fuel) → 0 ≤ c → c + 16 * Z.of_nat fuel < UINT_MOD → popcount_loop fuel c x = Ok (c + ones x).
Proof.
  revert c x. induction fuel as [|fuel IH]; intros c x Hx Hc Hb; cbn [popcount_loop]; destruct (Z.ltb_spec 0 x); try (replace x with 0 by lia; by rewrite Z.add_0_r); [simpl in Hx; lia|].
  rewrite popcount_16_spec by lia. pose proof (ones_bounds (x mod 2 ^ 16) 16 (Z.mod_pos_bound x (2 ^ 16) ltac:(lia))). unfold lshr. rewrite Z.shiftr_div_pow2, u32_small by lia.
  pose proof (Z.div_pos x (2 ^ 16) ltac:(lia) ltac:(lia)). rewrite IH; [|split; [lia|apply Z.div_lt_upper_bound; [lia|]; rewrite <- Z.pow_add_r by lia; replace (16 + 16 * Z.of_nat fuel) with (16 * Z.of_nat (S fuel)) by lia; lia]|lia|lia].
  rewrite (ones_split x 16) by lia. change (Z.of_nat 16) with 16. f_equal. lia.
Qed.

Lemma gmp_popcount_limb_spec x : limb x → gmp_popcount_limb x = Ok (ones x).
Proof. intros Hx. unfold limb in Hx. apply popcount_loop_spec; [done|lia|unfold UINT_MOD; simpl; lia]. Qed.

Lemma ones_limb x v : limb x → 0 ≤ v → ones (x + B * v) = ones x + ones v.
Proof.
  intros Hx Hv. unfold limb in Hx. rewrite (ones_split (x + B * v) 64) by nia. change (2 ^ Z.of_nat 64) with B. rewrite (Z.mul_comm B v), Z.mod_add, Z.div_add, Z.mod_small, Z.div_small by (done || lia). done.
Qed.

Lemma ones_limb_bounds x : limb x → 0 ≤ ones x ≤ 64.
Proof. intros Hx. by apply (ones_bounds x 64). Qed.

Lemma popcount_limbs_spec m p xs c :
  limbs_at m p xs → 0 ≤ c → c + 64 * Z.of_nat (length xs) < B → popcount_limbs p (length xs) c m = Done (c + ones (value xs)) m.
Proof.
  revert p c. induction xs as [|x xs IH]; intros p c Hx Hc Hb; cbn [popcount_limbs length value]; [by rewrite Z.add_0_r|].
  apply limbs_at_cons in Hx as [[Hl Hx0] Hx]. rewrite (bind_done _ _ _ _ _ (load_ok _ _ _ Hx0)), gmp_popcount_limb_spec, lift_ok_bind by done.
  pose proof (ones_limb_bounds x Hl). pose proof (value_bounds _ (proj1 Hx)) as [? _]. unfold ladd. cbn [length] in Hb. rewrite u64_small by (change SIZE_MOD with B; lia). rewrite IH by (done || lia). rewrite ones_limb by done. f_equal. lia.
Qed.

Section counts.
Context {F : gmap Z (option Z)} {FB : gmap Z Z} {D : positive → Prop}.
Local Abbreviation holds := (holds F FB D).

Lemma limbs_count n : 0 ≤ n ≤ alloc_limit → 64 * n < B.
Proof. unfold alloc_limit, B. lia. Qed.

Lemma mpz_popcount_spec N s u z : holds N s → N !! u = Some (Some z) → reads (mpz_popcount u) s (if z <? 0 then B - 1 else ones z).
Proof.
  intros H Hu. eapply (reads_size N s H); [done|]. rewrite size_neg. destruct (Z.ltb_spec z 0); [done|]. destruct (holds_read N s u z H Hu) as (st & xs & Ho & Hxs & _ & Hl & _ & Hv & Hal).
  unfold reads. rewrite (bind_done _ _ _ _ _ (limbs_of_own _ _ _ _ Ho)). pose proof (holds_limit _ _ _ _ H Hu). destruct (zsize_cases z) as [[-> _]|[_ ?]]; [|lia].
  assert (mpn_popcount (mp_d st) (zlimbs z) (zmem s) = Done (ones z) (zmem s)) as E.
  { unfold mpn_popcount. replace (Z.to_nat (zlimbs z)) with (length xs) by lia. pose proof (limbs_count (zlimbs z) ltac:(lia)). rewrite (popcount_limbs_spec _ _ xs) by (done || lia). rewrite Hv, Z.abs_eq by done. done. }
  rewrite (limbsZ_run _ _ _ _ E). by rewrite same_mem.
Qed.

(** The bits of the low limbs. *)
Lemma ones_step w i : 0 ≤ i → ones (Z.abs w mod B ^ (i + 1)) = ones (Z.abs w mod B ^ i) + ones (abs_limb w i).
Proof.
  intros Hi. pose proof (Z.pow_pos_nonneg B i ltac:(done) Hi). pose proof (Z.mod_pos_bound (Z.abs w) (B ^ i) ltac:(lia)). assert (limb (abs_limb w i)) as Hl by apply limb_mod. unfold limb in Hl.
  rewrite Z.pow_add_r, Z.pow_1_r, Z.rem_mul_r by (done || lia). fold (abs_limb w i). rewrite (ones_split _ (Z.to_nat (64 * i))) by nia. rewrite Z2Nat.id, <- B_pow by lia.
  rewrite (Z.mul_comm (B ^ i)), Z.mod_add, Z.div_add, Z.mod_mod, (Z.div_small (Z.abs w mod B ^ i)) by lia. done.
Qed.

(** ** The Hamming distance *)

Section hamdist.
Context (x y : Z) (Hxy : (x <? 0) = (y <? 0)).
Local Abbreviation w := (Z.lxor x y).

Lemma hamdist_nonneg : 0 ≤ w.
Proof. apply Z.lxor_nonneg. destruct (Z.ltb_spec x 0), (Z.ltb_spec y 0); (done || lia). Qed.

Lemma twos_nonneg z i : 0 ≤ z → twos_limb z i = abs_limb z i.
Proof. intros Hz. unfold twos_limb, abs_limb. by rewrite Z.abs_eq. Qed.

(** One more limb is counted. *)
Lemma count_step i : 0 ≤ i < alloc_limit → ladd (ones (Z.abs w mod B ^ i)) (ones (abs_limb w i)) = ones (Z.abs w mod B ^ (i + 1)).
Proof.
  intros Hi. rewrite ones_step by lia. apply u64_small. pose proof (ones_limb_bounds (abs_limb w i) (limb_mod _)). pose proof (limbs_count (i + 1) ltac:(lia)).
  pose proof (Z.pow_pos_nonneg B i ltac:(done) ltac:(lia)). pose proof (ones_bounds (Z.abs w mod B ^ i) (Z.to_nat (64 * i))) as Hb. rewrite Z2Nat.id, <- B_pow in Hb by lia. specialize (Hb (Z.mod_pos_bound (Z.abs w) (B ^ i) ltac:(lia))). change SIZE_MOD with B. lia.
Qed.

Lemma hamdist_low_spec up vp n i m :
  0 ≤ i → i + Z.of_nat n ≤ alloc_limit → limbs_at m (up + i) (magnitude x i n) → limbs_at m (vp + i) (magnitude y i n) →
  hamdist_low up vp (mask x) n i (carry x i) (carry y i) (ones (Z.abs w mod B ^ i)) m =
  Done (carry x (i + Z.of_nat n), carry y (i + Z.of_nat n), ones (Z.abs w mod B ^ (i + Z.of_nat n))) m.
Proof.
  revert i. induction n as [|n IH]; intros i Hi Hb Hx Hy; cbn [hamdist_low magnitude] in *; [by rewrite Z.add_0_r|].
  apply limbs_at_cons in Hx as [[_ Hx0] Hx]. apply limbs_at_cons in Hy as [[_ Hy0] Hy]. rewrite (bind_done _ _ _ _ _ (load_ok _ _ _ Hx0)), (bind_done _ _ _ _ _ (load_ok _ _ _ Hy0)).
  destruct (to_twos x i Hi) as [-> ->]. assert (mask x = mask y) as Em by (by rewrite !mask_neg, Hxy). rewrite Em. destruct (to_twos y i Hi) as [-> ->]. rewrite <- Em.
  rewrite (bitwise_limb Z.lxor xorb), gmp_popcount_limb_spec, lift_ok_bind, twos_nonneg, count_step by (done || apply _ || apply limb_mod || apply hamdist_nonneg || lia).
  rewrite <- Z.add_assoc in Hx, Hy. rewrite IH by (done || lia). replace (i + 1 + Z.of_nat n) with (i + Z.of_nat (S n)) by lia. done.
Qed.

Lemma hamdist_high_spec up n i m :
  zlimbs y ≤ i → i + Z.of_nat n ≤ alloc_limit → limbs_at m (up + i) (magnitude x i n) →
  hamdist_high up (mask x) n i (carry x i) (ones (Z.abs w mod B ^ i)) m = Done (ones (Z.abs w mod B ^ (i + Z.of_nat n))) m.
Proof.
  pose proof (zlimbs_nonneg y) as Hny. revert i. induction n as [|n IH]; intros i Hi Hb Hx; cbn [hamdist_high magnitude] in *; [by rewrite Z.add_0_r|].
  apply limbs_at_cons in Hx as [[_ Hx0] Hx]. rewrite (bind_done _ _ _ _ _ (load_ok _ _ _ Hx0)). destruct (to_twos x i ltac:(lia)) as [-> ->].
  assert (mask x = twos_limb y i) as Em by (by rewrite (proj2 (twos_high y i Hi)), !mask_neg, Hxy). rewrite Em at 1.
  rewrite (bitwise_limb Z.lxor xorb), gmp_popcount_limb_spec, lift_ok_bind, twos_nonneg, count_step by (done || apply _ || apply limb_mod || apply hamdist_nonneg || lia).
  rewrite <- Z.add_assoc in Hx. rewrite IH by (done || lia). replace (i + 1 + Z.of_nat n) with (i + Z.of_nat (S n)) by lia. done.
Qed.

(** The result is smaller than a power of the base above both numbers. *)
Lemma hamdist_small : zlimbs y ≤ zlimbs x → w < B ^ zlimbs x.
Proof.
  intros Hle. pose proof (zlimbs_nonneg x). pose proof (Z.pow_pos_nonneg B (zlimbs x) ltac:(done) ltac:(lia)). destruct (Z.lt_ge_cases w (B ^ zlimbs x)) as [|Hge]; [done|]. exfalso.
  pose proof (logic_div Z.lxor xorb x y (zlimbs x) ltac:(lia)) as E. rewrite (proj1 (twos_high x (zlimbs x) ltac:(lia))), (proj1 (twos_high y (zlimbs x) Hle)), Hxy, Z.lxor_nilpotent in E.
  apply Z.div_small_iff in E; [pose proof hamdist_nonneg; lia|lia].
Qed.

Lemma hamdist_limbs_spec up vp m :
  zlimbs y ≤ zlimbs x → zlimbs x ≤ alloc_limit → limbs_at m up (magnitude x 0 (Z.to_nat (zlimbs x))) → limbs_at m vp (magnitude y 0 (Z.to_nat (zlimbs y))) →
  hamdist_limbs up (zlimbs x) vp (zlimbs y) (b2l (x <? 0)) m = Done (ones w) m.
Proof.
  intros Hle Hlim Hx Hv. pose proof (zlimbs_nonneg y). set (k := Z.to_nat (zlimbs y)) in *. set (l := Z.to_nat (zlimbs x - zlimbs y)).
  replace (Z.to_nat (zlimbs x)) with (k + l)%nat in Hx by (unfold k, l; lia). rewrite <- magnitude_app in Hx. apply limbs_at_app in Hx as [Hx1 Hx2]. rewrite magnitude_length in Hx2.
  assert (0 + Z.of_nat k = zlimbs y) as Ek by (unfold k; lia). rewrite Ek in Hx2. replace (Z.of_nat k) with (zlimbs y) in Hx2 by lia.
  pose proof (hamdist_low_spec up vp k 0 m ltac:(lia) ltac:(lia) ltac:(by rewrite Z.add_0_r) ltac:(by rewrite Z.add_0_r)) as E.
  rewrite Z.pow_0_r, Z.mod_1_r, (carry_0 x), (carry_0 y), <- Hxy, !Ek in E. unfold hamdist_limbs. fold (mask x) k l. rewrite (bind_done _ _ _ _ _ E). cbv beta iota.
  assert (carry y (zlimbs y) = 0) as ->. { destruct (Z.eq_dec y 0) as [->|]; [done|by apply carry_top]. }
  rewrite lift_assert_bind, hamdist_high_spec by (done || (unfold l; lia)). replace (zlimbs y + Z.of_nat l) with (zlimbs x) by (unfold l; lia).
  pose proof hamdist_nonneg. pose proof (hamdist_small Hle). rewrite Z.abs_eq, Z.mod_small by lia. done.
Qed.
End hamdist.

Lemma mpz_hamdist_spec N s u v x y :
  holds N s → N !! u = Some (Some x) → N !! v = Some (Some y) → reads (mpz_hamdist u v) s (if xorb (x <? 0) (y <? 0) then B - 1 else ones (Z.lxor x y)).
Proof.
  intros H Hu Hv. eapply (reads_size N s H); [done|]. eapply (reads_size N s H); [done|]. pose proof (Z.lxor_nonneg (zsize x) (zsize y)). pose proof (zsize_nonneg x). pose proof (zsize_nonneg y).
  replace (Z.lxor (zsize x) (zsize y) <? 0) with (xorb (x <? 0) (y <? 0)) by (destruct (Z.ltb_spec x 0), (Z.ltb_spec y 0), (Z.ltb_spec (Z.lxor (zsize x) (zsize y)) 0); (done || lia)).
  destruct (xorb (x <? 0) (y <? 0)) eqn:Ex; [done|]. apply xorb_eq in Ex. rewrite !size_neg, Ex. unfold reads. rewrite lift_assert_bind by (by destruct (y <? 0)).
  assert ((if y <? 0 then (- zsize x, - zsize y) else (zsize x, zsize y)) = (zlimbs x, zlimbs y)) as ->.
  { destruct (zsize_cases x) as [[-> ?]|[-> ?]], (zsize_cases y) as [[-> ?]|[-> ?]], (Z.ltb_spec x 0), (Z.ltb_spec y 0); try lia; try done; f_equal; lia. }
  destruct (holds_read N s u x H Hu) as (stu & xs & Hou & Hxs & _ & Lx & _ & Vx & _). destruct (holds_read N s v y H Hv) as (stv & ys & Hov & Hys & _ & Ly & _ & Vy & _).
  rewrite (magnitude_of xs x (Z.to_nat (zlimbs x)) (proj1 Hxs) Vx) in Hxs by lia. rewrite (magnitude_of ys y (Z.to_nat (zlimbs y)) (proj1 Hys) Vy) in Hys by lia.
  rewrite (bind_done _ _ _ _ _ (limbs_of_own _ _ _ _ Hou)), (bind_done _ _ _ _ _ (limbs_of_own _ _ _ _ Hov)).
  pose proof (holds_limit _ _ _ _ H Hu). pose proof (holds_limit _ _ _ _ H Hv). erewrite limbsZ_run; [by rewrite same_mem|]. destruct (Z.ltb_spec (zlimbs x) (zlimbs y)).
  - rewrite Z.lxor_comm. apply hamdist_limbs_spec; (done || lia).
  - rewrite <- Ex. apply hamdist_limbs_spec; (done || lia).
Qed.
End counts.
