(* ===== verification/MpzScan.v ===== *)
(** * The scans for the next bit

    mpz_scan1 and mpz_scan0 find the next bit that is set, or cleared, from a
    position on, in the two's complement of a number. *)

From S2P Require Import Prelude Limbs Mpn Invert MpnDiv MpnDivN MpnStr MpnSetStr Mpz MpzRep MpzArith MpzMul MpzDivision MpzFrame MpzDivShort MpzLocals MpzGcd MpzBits MpzLogic MpzCount.

(** The next bit of [z] that is set, from bit [k] on. *)
Definition next_bit (z k j : Z) : Prop := k ≤ j ∧ Z.testbit z j = true ∧ ∀ i, k ≤ i < j → Z.testbit z i = false.

(** The answer of a scan: the next bit, or the largest number when there is none. *)
Definition scan_answer (z k r : Z) : Prop := next_bit z k r ∨ (∀ i, k ≤ i → Z.testbit z i = false) ∧ r = B - 1.

(** ** The lowest bit *)

Definition lowest (z j : Z) : Prop := ∃ a, 0 ≤ j ∧ z = a * 2 ^ j ∧ Z.odd a = true.

(** The bits from [k] on. *)
Definition clear_low (z k : Z) : Z := z / 2 ^ k * 2 ^ k.

Lemma clear_low_bits z k i : 0 ≤ k ≤ i → Z.testbit (clear_low z k) i = Z.testbit z i.
Proof.
  intros Hk. unfold clear_low. rewrite <- Z.shiftr_div_pow2, <- Z.shiftl_mul_pow2, Z.shiftl_spec, Z.shiftr_spec by lia. f_equal. lia.
Qed.

Lemma lowest_next z k j : 0 ≤ k → lowest (clear_low z k) j → next_bit z k j.
Proof.
  intros Hk (a & Hj & E & Ho). assert (k ≤ j) as Hkj.
  { destruct (Z.le_gt_cases k j) as [|Hlt]; [done|]. exfalso. assert (Z.testbit (clear_low z k) j = true) as Hb by (rewrite E, Z.mul_pow2_bits, Z.sub_diag, Z.bit0_odd by lia; done).
    unfold clear_low in Hb. rewrite Z.mul_pow2_bits_low in Hb by lia. done. }
  split; [done|]. split.
  - rewrite <- (clear_low_bits z k) by lia. by rewrite E, Z.mul_pow2_bits, Z.sub_diag, Z.bit0_odd by lia.
  - intros i Hi. rewrite <- (clear_low_bits z k) by lia. rewrite E. apply Z.mul_pow2_bits_low. lia.
Qed.

Lemma clear_none z k i : 0 ≤ k ≤ i → clear_low z k = 0 → Z.testbit z i = false.
Proof. intros Hk E. rewrite <- (clear_low_bits z k) by done. by rewrite E, Z.testbit_0_l. Qed.

(** The limbs from the one with bit [k] on. *)
Lemma clear_limbs z i sh : 0 ≤ i → 0 ≤ sh < 64 → clear_low z (64 * i + sh) = B ^ i * (clear_low (twos_limb z i) sh + B * (z / B ^ (i + 1))).
Proof.
  intros Hi Hsh. unfold clear_low, twos_limb. pose proof (Z.pow_pos_nonneg B i ltac:(done) Hi). pose proof (Z.pow_pos_nonneg 2 sh ltac:(lia) ltac:(lia)).
  rewrite Z.pow_add_r, <- B_pow, <- Z.div_div, (Z.pow_add_r B i 1), Z.pow_1_r, <- (Z.div_div z (B ^ i) B) by (done || lia). set (q := z / B ^ i).
  pose proof (Z.div_mod q B ltac:(done)) as E. assert (q / 2 ^ sh = (q mod B) / 2 ^ sh + 2 ^ (64 - sh) * (q / B)) as ->.
  { rewrite E at 1. replace (B * (q / B) + q mod B) with (q mod B + (2 ^ (64 - sh) * (q / B)) * 2 ^ sh); [by rewrite Z.div_add by lia|].
    replace B with (2 ^ (64 - sh) * 2 ^ sh) at 3; [lia|]. rewrite <- Z.pow_add_r by lia. by replace (64 - sh + sh) with 64 by lia. }
  replace (B * (q / B)) with (2 ^ (64 - sh) * (q / B) * 2 ^ sh); [lia|]. replace B with (2 ^ (64 - sh) * 2 ^ sh) at 2; [lia|]. rewrite <- Z.pow_add_r by lia. by replace (64 - sh + sh) with 64 by lia.
Qed.

(** The mask clears the low bits of a limb. *)
Lemma mask_low l sh : limb l → 0 ≤ sh < 64 → Z.land l (lshl GMP_LIMB_MAX sh) = clear_low l sh ∧ limb (clear_low l sh).
Proof.
  intros Hl Hsh. unfold limb in *. pose proof (Z.pow_pos_nonneg 2 sh ltac:(lia) ltac:(lia)). split.
  - apply Z.bits_inj'. intros n Hn. unfold lshl, u64, clear_low. change SIZE_MOD with (2 ^ 64). rewrite Z.land_spec. destruct (Z.lt_ge_cases n sh).
    + rewrite Z.mod_pow2_bits_low, Z.shiftl_spec_low, andb_false_r, Z.mul_pow2_bits_low by lia. done.
    + fold (clear_low l sh). rewrite clear_low_bits by lia. destruct (Z.lt_ge_cases n 64).
      * rewrite Z.mod_pow2_bits_low, Z.shiftl_spec by lia. change GMP_LIMB_MAX with (Z.ones 64). rewrite Z.ones_spec_low, andb_true_r by lia. done.
      * rewrite Z.mod_pow2_bits_high, andb_false_r by lia. symmetry. rewrite Z.testbit_odd, Z.shiftr_div_pow2, Z.div_small by (try lia; pose proof (Z.pow_le_mono_r 2 64 n); change B with (2 ^ 64) in *; lia). done.
  - unfold clear_low. pose proof (Z.div_pos l (2 ^ sh) ltac:(lia) ltac:(lia)). pose proof (Z.mul_div_le l (2 ^ sh) ltac:(lia)). nia.
Qed.

Lemma lowest_sub i V c a e : 0 ≤ i → 0 ≤ c → V = a * 2 ^ c → Z.odd a = true → lowest (B ^ i * (V - e * 2 ^ (c + 1))) (64 * i + c).
Proof.
  intros Hi Hc -> Ho. exists (a - 2 * e). split; [lia|]. split; [|by rewrite Z.odd_sub, Ho, Z.odd_mul]. rewrite Z.pow_add_r, B_pow, Z.pow_add_r, Z.pow_1_r by lia. lia.
Qed.

Lemma lowest_opp z j : lowest (- z) j → lowest z j.
Proof. intros (a & Hj & E & Ho). exists (- a). split; [done|]. split; [lia|by rewrite Z.odd_opp]. Qed.

(** ** The loop of the scans *)

Section scan.
Context (m : mem) (up : Z) (xs : list Z) (ux : Z) (i : nat) (l : Z).
Hypotheses (Hx : limbs_at m up xs) (Hux : ux = 0 ∨ ux = GMP_LIMB_MAX) (Hi : (i < length xs)%nat) (Hl : limb l) (Hlim : Z.of_nat (length xs) ≤ alloc_limit).

(** The number that is scanned. *)
Definition scanned : Z := l + B * value (Z.lxor ux <$> drop (S i) xs).
Local Abbreviation scan := (mpn_common_scan (length xs) l (Z.of_nat i) up (Z.of_nat (length xs)) ux m).

Lemma xor_limbs j : Forall limb (Z.lxor ux <$> drop j xs).
Proof.
  apply Forall_fmap. eapply Forall_impl; [apply Forall_drop, (proj1 Hx)|]. intros x Hlx. simpl. destruct Hux as [->| ->]; [by rewrite Z.lxor_0_l|]. rewrite Z.lxor_comm, lxor_max by done. unfold limb in *. lia.
Qed.

Lemma scanned_limbs : Forall limb (l :: (Z.lxor ux <$> drop (S i) xs)).
Proof. constructor; [done|apply xor_limbs]. Qed.

Lemma scan_found : scanned ≠ 0 → ∃ c a, scan = Done (64 * Z.of_nat i + c) m ∧ 0 ≤ c < 64 * Z.of_nat (length xs - i) ∧ scanned = a * 2 ^ c ∧ Z.odd a = true.
Proof.
  intros Hne. destruct (common_scan_spec m up xs (Z.of_nat (length xs)) ux (length xs) i l Hux Hx Hi) as (c & a & E & Hc & Hlt & V & Ho); try (done || lia); [apply scanned_limbs|].
  exists c, a. split; [done|]. split; [lia|done].
Qed.

(** All limbs are 0. *)
Lemma scan_loop_none fuel j k :
  (j < length xs)%nat → limb k → value (k :: (Z.lxor ux <$> drop (S j) xs)) = 0 → (length xs ≤ j + fuel)%nat → scan_loop k (Z.of_nat j) up (Z.of_nat (length xs)) ux fuel m = Done None m.
Proof.
  revert j k. induction fuel as [|fuel IH]; intros j k Hj Hk Hv Hf; [lia|]. cbn [scan_loop value] in *. unfold limb in Hk. pose proof (value_bounds _ (xor_limbs (S j))) as [Hv0 _].
  assert (k = 0 ∧ value (Z.lxor ux <$> drop (S j) xs) = 0) as [-> Hv'] by (assert (0 < B) by done; nia). cbn [Z.eqb]. destruct (decide (S j = length xs)) as [E|E].
  - rewrite (proj2 (Z.eqb_eq _ _)) by lia. done.
  - rewrite (proj2 (Z.eqb_neq _ _)) by lia. destruct (lookup_lt_is_Some_2 xs (S j) ltac:(lia)) as [x Hxj]. replace (Z.of_nat j + 1) with (Z.of_nat (S j)) by lia.
    rewrite (bind_done _ _ _ _ _ (load_limbs _ _ _ _ _ Hx Hxj)). pose proof (xor_limbs (S j)) as Hxl. rewrite (drop_S xs x (S j) Hxj), fmap_cons in Hv', Hxl. apply Forall_cons in Hxl as [Hlx _]. apply IH; (done || lia).
Qed.

Lemma scan_none : scanned = 0 → scan = Done (if ux =? 0 then B - 1 else 64 * Z.of_nat (length xs)) m.
Proof.
  intros Hz. unfold mpn_common_scan. rewrite lift_assert_bind by (apply orb_true_iff; rewrite !Z.eqb_eq; done). rewrite lift_assert_bind by (apply andb_true_iff; rewrite !Z.leb_le; lia).
  rewrite (bind_done _ _ _ _ _ (scan_loop_none (length xs) i l Hi Hl Hz ltac:(lia))). unfold mret, M_ret. change GMP_LIMB_BITS with 64. by rewrite Z.mul_comm.
Qed.

(** The scanned number is the number from bit [k] on. *)
Lemma scan_exact z k : 0 ≤ k → ux = 0 → clear_low z k = B ^ Z.of_nat i * scanned → ∃ r, scan = Done r m ∧ scan_answer z k r.
Proof.
  intros Hk Eux E. destruct (Z.eq_dec scanned 0) as [E0|E0].
  - rewrite scan_none, Eux by done. eexists. split; [done|]. right. split; [|done]. intros j Hj. apply (clear_none z k); [done|]. rewrite E, E0. lia.
  - destruct (scan_found E0) as (c & a & -> & Hc & V & Ho). eexists. split; [done|]. left. apply lowest_next; [done|]. rewrite E.
    replace scanned with (scanned - 0 * 2 ^ (c + 1)) by lia. apply (lowest_sub _ _ _ a); (done || lia).
Qed.

(** Its opposite, which has the same lowest bit. *)
Lemma scan_opposite z k : 0 ≤ k → scanned ≠ 0 → clear_low z k = - (B ^ Z.of_nat i * scanned) → ∃ r, scan = Done r m ∧ scan_answer z k r.
Proof.
  intros Hk Hne E. destruct (scan_found Hne) as (c & a & -> & Hc & V & Ho). eexists. split; [done|]. left. apply lowest_next; [done|]. apply lowest_opp. rewrite E, Z.opp_involutive.
  replace scanned with (scanned - 0 * 2 ^ (c + 1)) by lia. apply (lowest_sub _ _ _ a); (done || lia).
Qed.

(** A negative number: all bits above the limbs are set. *)
Lemma scan_negative z k : 0 ≤ k → ux = GMP_LIMB_MAX → clear_low z k = B ^ Z.of_nat i * (scanned - B ^ Z.of_nat (length xs - i)) → ∃ r, scan = Done r m ∧ scan_answer z k r.
Proof.
  intros Hk Eux E. destruct (Z.eq_dec scanned 0) as [E0|E0].
  - rewrite scan_none, Eux by done. eexists. split; [done|]. left. apply lowest_next; [done|]. apply lowest_opp. rewrite E, E0. exists 1. change (GMP_LIMB_MAX =? 0) with false. split; [lia|]. split; [|done].
    rewrite !B_pow by lia. replace (64 * Z.of_nat (length xs)) with (64 * Z.of_nat i + 64 * Z.of_nat (length xs - i)) by lia. rewrite Z.pow_add_r by lia. lia.
  - destruct (scan_found E0) as (c & a & -> & Hc & V & Ho). eexists. split; [done|]. left. apply lowest_next; [done|]. rewrite E.
    replace (B ^ Z.of_nat (length xs - i)) with (2 ^ (64 * Z.of_nat (length xs - i) - (c + 1)) * 2 ^ (c + 1)); [apply (lowest_sub _ _ _ a); (done || lia)|].
    rewrite <- Z.pow_add_r, B_pow by lia. f_equal. lia.
Qed.

(** A borrow out of the first limb, which is not 0. *)
Lemma scan_borrow z k : 0 ≤ k → l ≠ 0 → clear_low z k = B ^ Z.of_nat i * (scanned - B) → ∃ r, scan = Done r m ∧ scan_answer z k r.
Proof.
  intros Hk Hl0 E. unfold limb in Hl. pose proof (value_bounds _ (xor_limbs (S i))) as [Hv0 _]. assert (scanned ≠ 0) as Hne by (unfold scanned; assert (0 < B) by done; nia).
  destruct (scan_found Hne) as (c & a & -> & Hc & V & Ho). eexists. split; [done|]. left. apply lowest_next; [done|]. rewrite E.
  assert (c < 64) as Hc64. { destruct (Z.lt_ge_cases c 64) as [|Hge]; [done|]. exfalso. unfold scanned in V. replace c with ((c - 64) + 64) in V by lia. rewrite Z.pow_add_r in V by lia. change (2 ^ 64) with B in V.
    assert (l = (a * 2 ^ (c - 64) - value (Z.lxor ux <$> drop (S i) xs)) * B) as El by lia. apply Hl0. rewrite <- (Z.mod_small l B) by lia. rewrite El. by apply Z.mod_mul. }
  replace B with (2 ^ (64 - (c + 1)) * 2 ^ (c + 1)) at 2; [apply (lowest_sub _ _ _ a); (done || lia)|]. rewrite <- Z.pow_add_r by lia. by replace (64 - (c + 1) + (c + 1)) with 64 by lia.
Qed.
End scan.

(** ** The functions *)

Lemma value_drop xs k : Forall limb xs → (k ≤ length xs)%nat → value (drop k xs) = value xs / B ^ Z.of_nat k.
Proof.
  intros Hx Hk. rewrite (value_split k xs Hk). pose proof (Z.pow_pos_nonneg B (Z.of_nat k) ltac:(done) ltac:(lia)). pose proof (value_bounds _ (Forall_take _ k xs Hx)) as Hb. rewrite length_take, Nat.min_l in Hb by lia.
  rewrite Z.mul_comm, Z.div_add, Z.div_small by lia. done.
Qed.

Lemma value_take xs k : Forall limb xs → (k ≤ length xs)%nat → value (take k xs) = value xs mod B ^ Z.of_nat k.
Proof.
  intros Hx Hk. rewrite (value_split k xs Hk). pose proof (Z.pow_pos_nonneg B (Z.of_nat k) ltac:(done) ltac:(lia)). pose proof (value_bounds _ (Forall_take _ k xs Hx)) as Hb. rewrite length_take, Nat.min_l in Hb by lia.
  rewrite Z.mul_comm, Z.mod_add, Z.mod_small by lia. done.
Qed.

Lemma mpn_zero_p_spec m p xs : limbs_at m p xs → mpn_zero_p p (Z.of_nat (length xs)) m = Done (value xs =? 0) m.
Proof.
  intros Hx. unfold mpn_zero_p. destruct (mpn_normalized_size_spec m p xs Hx) as (k & E & Hk & Hv & Hn). rewrite (bind_done _ _ _ _ _ E). unfold mret, M_ret. f_equal.
  destruct (Z.eqb_spec (Z.of_nat k) 0) as [E0|E0].
  - replace k with O in Hv by lia. simpl in Hv. by rewrite <- Hv.
  - symmetry. apply Z.eqb_neq. rewrite <- Hv. apply normalized_ge in Hn; [|apply Forall_take, (proj1 Hx)|rewrite length_take; lia].
    pose proof (Z.pow_pos_nonneg B (Z.of_nat (pred (length (take k xs)))) ltac:(done) ltac:(lia)). lia.
Qed.

Lemma xor_none (xs : list Z) : (Z.lxor 0 <$> xs) = xs.
Proof. induction xs as [|x xs IH]; [done|]. rewrite fmap_cons, IH. done. Qed.

Lemma xor_all (xs : list Z) : Forall limb xs → (Z.lxor GMP_LIMB_MAX <$> xs) = (lnot <$> xs).
Proof. intros Hx. induction Hx as [|x xs Hl Hx IH]; [done|]. rewrite !fmap_cons, IH, Z.lxor_comm, lxor_max by done. done. Qed.

(** Rounding down a number and its predecessor. *)
Lemma pred_div a p : 0 < p → (a - 1) / p = a / p - b2l (a mod p =? 0).
Proof.
  intros Hp. pose proof (Z.div_mod a p ltac:(lia)) as E. pose proof (Z.mod_pos_bound a p Hp). symmetry. destruct (Z.eqb_spec (a mod p) 0) as [E0|E0]; cbn [b2l].
  - apply (Z.div_unique_pos _ _ _ (p - 1)); lia.
  - apply (Z.div_unique_pos _ _ _ (a mod p - 1)); lia.
Qed.

Lemma opp_div a p : 0 < p → (- a) / p = - (a / p) - b2l (negb (a mod p =? 0)).
Proof.
  intros Hp. destruct (Z.eqb_spec (a mod p) 0) as [E0|E0]; cbn [b2l negb]; [rewrite Z.div_opp_l_z by (done || lia); lia|]. rewrite Z.div_opp_l_nz by (done || lia). lia.
Qed.

Section functions.
Context {F : gmap Z (option Z)} {FB : gmap Z Z} {D : positive → Prop}.
Context (N : vars) (s : zst) (u : positive) (z k : Z).
Hypotheses (H : holds F FB D N s) (Hu : N !! u = Some (Some z)) (Hk : 0 ≤ k).
Local Abbreviation i := (k / 64).
Local Abbreviation sh := (k mod 64).

(** Past the limbs all bits are those of the sign. *)
Lemma scan_past : zlimbs z ≤ i → (0 ≤ z → ∀ j, k ≤ j → Z.testbit z j = false) ∧ (z < 0 → ∀ j, k ≤ j → Z.testbit z j = true).
Proof.
  intros Hle. pose proof (short_small z k Hk Hle). split; intros Hz j Hj; pose proof (Z.pow_le_mono_r 2 k j ltac:(lia) ltac:(lia)); rewrite Z.testbit_odd, Z.shiftr_div_pow2 by lia.
  - rewrite Z.div_small by lia. done.
  - replace (z / 2 ^ j) with (-1); [done|]. apply (Z.div_unique_pos _ _ _ (z + 2 ^ j)); lia.
Qed.

Lemma scan_past_lnot : zlimbs z ≤ i → (0 ≤ z → ∀ j, k ≤ j → Z.testbit (Z.lnot z) j = true) ∧ (z < 0 → ∀ j, k ≤ j → Z.testbit (Z.lnot z) j = false).
Proof. intros Hle. destruct (scan_past Hle) as [H1 H2]. split; intros Hz j Hj; rewrite Z.lnot_spec by lia; [by rewrite H1|by rewrite H2]. Qed.

(** The limb the scan starts in, and the limbs around it. *)
Record started (st : mpz_struct) (xs : list Z) (x : Z) : Prop := Mk_started {
  sd_own : own N s u st;
  sd_limbs : limbs_at (zmem s) (mp_d st) xs;
  sd_length : Z.of_nat (length xs) = zlimbs z;
  sd_limb : limb x ∧ x = abs_limb z i;
  sd_load : load (mp_d st + i) (zmem s) = Done x (zmem s);
  sd_index : (Z.to_nat i < length xs)%nat;
  sd_high : value (drop (S (Z.to_nat i)) xs) = Z.abs z / B ^ (i + 1);
  sd_zero : mpn_zero_p (mp_d st) i (zmem s) = Done (Z.abs z mod B ^ i =? 0) (zmem s);
}.

Lemma scan_start : i < zlimbs z → ∃ st xs x, started st xs x.
Proof.
  intros Hlt. pose proof (Z.div_pos k 64 Hk ltac:(lia)) as Hi. destruct (holds_read N s u z H Hu) as (st & xs & Ho & Hxs & _ & Hlen & _ & Hval & _).
  set (n := Z.to_nat i). assert (Z.of_nat n = i) as En by (unfold n; lia). destruct (lookup_lt_is_Some_2 xs n ltac:(lia)) as [x Hx]. exists st, xs, x.
  pose proof (Forall_lookup_1 _ _ _ _ (proj1 Hxs) Hx) as Hl. pose proof (load_limbs _ _ _ _ _ Hxs Hx) as El. rewrite En in El. pose proof (value_drop xs (S n) (proj1 Hxs) ltac:(lia)) as Ed.
  rewrite Hval in Ed. replace (Z.of_nat (S n)) with (i + 1) in Ed by lia. split; try done; try lia.
  - split; [done|]. unfold abs_limb. rewrite <- Hval, <- En, <- value_drop, (drop_S xs x n Hx) by (apply Hxs || lia). symmetry. apply value_low. rewrite <- (drop_S xs x n Hx). apply Forall_drop, Hxs.
  - destruct (limbs_at_split _ _ n _ Hxs ltac:(lia)) as [Hlo _]. pose proof (mpn_zero_p_spec _ _ _ Hlo) as E. rewrite length_take, Nat.min_l, value_take, Hval, En in E by (apply Hxs || lia). done.
Qed.

Section start.
Context (st : mpz_struct) (xs : list Z) (x : Z) (Hsd : started st xs x).
Local Abbreviation n := (Z.to_nat i).
Local Abbreviation up := (mp_d st).
Local Abbreviation scan l ux := (mpn_common_scan (length xs) l (Z.of_nat n) up (Z.of_nat (length xs)) ux (zmem s)).

Lemma index_nonneg : 0 ≤ i ∧ Z.of_nat n = i ∧ 0 ≤ sh < 64 ∧ k = 64 * i + sh ∧ Z.of_nat (length xs) ≤ alloc_limit ∧ 0 < B ^ (i + 1).
Proof.
  pose proof (Z.div_pos k 64 Hk ltac:(lia)). pose proof (Z.mod_pos_bound k 64 ltac:(lia)). pose proof (Z.div_mod k 64 ltac:(lia)). pose proof (holds_limit _ _ _ _ H Hu). pose proof (sd_length _ _ _ Hsd).
  pose proof (Z.pow_pos_nonneg B (i + 1) ltac:(done) ltac:(lia)). split_and!; lia.
Qed.

(** The number that is scanned, with and without complement. *)
Lemma scanned_plain l : scanned xs 0 n l = l + B * (Z.abs z / B ^ (i + 1)).
Proof. unfold scanned. by rewrite xor_none, (sd_high _ _ _ Hsd). Qed.

Lemma scanned_complement l : scanned xs GMP_LIMB_MAX n l = l - B * (Z.abs z / B ^ (i + 1) + 1) + B ^ Z.of_nat (length xs - n).
Proof.
  pose proof (sd_index _ _ _ Hsd). unfold scanned. rewrite xor_all, value_com, (sd_high _ _ _ Hsd), length_drop by apply Forall_drop, (sd_limbs _ _ _ Hsd).
  replace (length xs - n)%nat with (S (length xs - S n)) by lia. rewrite Nat2Z.inj_succ, Z.pow_succ_r by lia. lia.
Qed.

(** What the limbs scanned must be for the number [z'] from bit [k] on. *)
Lemma scan_of l ux z' :
  (ux = 0 ∨ ux = GMP_LIMB_MAX) → limb l → let t := clear_low (twos_limb z' i) sh + B * (z' / B ^ (i + 1)) in
  (ux = 0 ∧ scanned xs ux n l = t) ∨ (scanned xs ux n l = - t ∧ t ≠ 0) ∨ (ux = GMP_LIMB_MAX ∧ scanned xs ux n l = t + B ^ Z.of_nat (length xs - n)) ∨ (l ≠ 0 ∧ scanned xs ux n l = t + B) →
  ∃ r, scan l ux = Done r (zmem s) ∧ scan_answer z' k r.
Proof.
  intros Hux Hl t Hcases. destruct index_nonneg as (Hi & En & Hsh & Ek & Hlim & _). pose proof (clear_limbs z' i sh Hi Hsh) as Ecl. rewrite <- Ek in Ecl. fold t in Ecl.
  destruct Hsd as [_ Hxs _ _ _ Hn _ _]. destruct Hcases as [[E0 E]|[[E E0]|[[E0 E]|[E0 E]]]]; [apply scan_exact|apply scan_opposite|apply scan_negative|apply scan_borrow]; try done; rewrite ?Ecl, ?En, E; lia.
Qed.

(** The set bits of a negative number: its two's complement, or the number
    itself when all limbs so far are 0. *)
Lemma scan_twos : z < 0 → let c := carry z i in
  ladd (lnot x) c = twos_limb z i ∧ ∃ r, scan (clear_low (twos_limb z i) sh) (lneg (b2l (c <=? twos_limb z i))) = Done r (zmem s) ∧ scan_answer z k r.
Proof.
  intros Hz c. destruct index_nonneg as (Hi & En & Hsh & Ek & Hlim & HB). destruct (to_twos z i Hi) as [Et Ec]. destruct (sd_limb _ _ _ Hsd) as [Hlx Ex].
  rewrite mask_neg, (proj2 (Z.ltb_lt z 0)), <- Ex, lxor_max in Et by done. split; [exact Et|]. assert (limb (twos_limb z i)) as Ht by apply limb_mod. destruct (mask_low _ sh Ht Hsh) as [_ Hm].
  assert (Z.abs z / B ^ (i + 1) + z / B ^ (i + 1) = - b2l (negb (Z.abs z mod B ^ (i + 1) =? 0))) as Eq by (pose proof (opp_div (Z.abs z) (B ^ (i + 1)) HB) as E; replace (- Z.abs z) with z in E by lia; lia).
  assert (carry z (i + 1) = b2l (Z.abs z mod B ^ (i + 1) =? 0)) as E1 by (unfold carry; by rewrite (proj2 (Z.ltb_lt z 0))). rewrite E1 in Ec. fold c in Ec. rewrite Z.leb_antisym.
  destruct (Z.eqb_spec (Z.abs z mod B ^ (i + 1)) 0) as [E0|E0]; destruct (Z.ltb_spec (twos_limb z i) c) as [Hc|Hc]; try done; cbn [negb b2l] in *; apply scan_of; try done; [by left| |by right|].
  - right. left. assert (twos_limb z i = 0) as -> by (pose proof (proj2 (twos_abs z i Hi)); unfold limb, c in *; lia). change (clear_low 0 sh) with 0. change (lneg 0) with 0. rewrite scanned_plain.
    pose proof (Z.div_mod (Z.abs z) (B ^ (i + 1)) ltac:(lia)). assert (0 < B) by done. split; nia.
  - right. right. left. split; [done|]. change (lneg 1) with GMP_LIMB_MAX. rewrite scanned_complement. lia.
Qed.

(** The cleared bits are the set bits of the complement. *)
Lemma scan_lnot : 0 ≤ z → ∃ r, scan (clear_low (Z.lxor x GMP_LIMB_MAX) sh) GMP_LIMB_MAX = Done r (zmem s) ∧ scan_answer (Z.lnot z) k r.
Proof.
  intros Hz. destruct index_nonneg as (Hi & En & Hsh & Ek & Hlim & HB). destruct (sd_limb _ _ _ Hsd) as [Hlx Ex]. rewrite lxor_max by done.
  assert (∀ p, 0 < p → Z.lnot z / p = - (z / p) - 1) as Hd. { intros p Hp. pose proof (Z.div_mod z p ltac:(lia)). pose proof (Z.mod_pos_bound z p Hp). unfold Z.lnot. symmetry. apply (Z.div_unique_pos _ _ _ (p - 1 - z mod p)); lia. }
  assert (twos_limb (Z.lnot z) i = B - 1 - x) as Et. { unfold twos_limb. rewrite Hd by (apply Z.pow_pos_nonneg; (done || lia)). rewrite Ex. unfold abs_limb. rewrite Z.abs_eq by done. rewrite <- (Z.add_0_r (_ - 1)), <- eqm_minus_mod, Z.add_0_r. apply Z.mod_small. pose proof (limb_mod (z / B ^ i)) as Hl. unfold limb in Hl. lia. }
  assert (limb (B - 1 - x)) as Hl by (unfold limb in *; lia). destruct (mask_low _ sh Hl Hsh) as [_ Hm]. apply scan_of; [by right|done|]. right. right. left. split; [done|]. rewrite scanned_complement, Et, Hd, Z.abs_eq by done. lia.
Qed.

Lemma scan_pred : z < 0 → ∃ r, scan (clear_low (lsub (Z.lxor x 0) (b2l (Z.abs z mod B ^ i =? 0))) sh) 0 = Done r (zmem s) ∧ scan_answer (Z.lnot z) k r.
Proof.
  intros Hz. destruct index_nonneg as (Hi & En & Hsh & Ek & Hlim & HB). destruct (sd_limb _ _ _ Hsd) as [Hlx Ex]. rewrite Z.lxor_0_r. pose proof (Z.pow_pos_nonneg B i ltac:(done) Hi) as HB0.
  assert (Z.lnot z = Z.abs z - 1) as Eln by (unfold Z.lnot; lia). set (c := Z.abs z mod B ^ i =? 0) in *.
  assert (twos_limb (Z.lnot z) i = lsub x (b2l c)) as Et.
  { unfold twos_limb, lsub, u64. change SIZE_MOD with B. rewrite Eln, pred_div, Ex by done. fold c. unfold abs_limb. by rewrite Zminus_mod_idemp_l. }
  assert (limb (lsub x (b2l c))) as Hl by (rewrite <- Et; apply limb_mod). destruct (mask_low _ sh Hl Hsh) as [_ Hm]. apply scan_of; [by left|done|]. rewrite scanned_plain, Et, Eln, pred_div by done.
  destruct (Z.eqb_spec (Z.abs z mod B ^ (i + 1)) 0) as [E0|E0]; cbn [b2l]; [|left; split; [done|lia]]. right. right. right. split; [|lia].
  assert (x = 0 ∧ c = true) as [-> ->]. { rewrite Z.pow_add_r, Z.pow_1_r, Z.rem_mul_r in E0 by (done || lia). unfold abs_limb in Ex. rewrite <- Ex in E0. pose proof (Z.mod_pos_bound (Z.abs z) (B ^ i) HB0). unfold limb in Hlx. split; [nia|apply Z.eqb_eq; nia]. }
  change (lsub 0 (b2l true)) with (B - 1). unfold clear_low. pose proof (Z.pow_pos_nonneg 2 sh ltac:(lia) ltac:(lia)). assert (2 ^ sh ≤ 2 ^ 63) by (apply Z.pow_le_mono_r; lia).
  pose proof (Z.div_str_pos (B - 1) (2 ^ sh) ltac:(unfold B in *; lia)). nia.
Qed.
End start.

(** The scan of the limbs is the last step. *)
Lemma scan_last (f : M zst Z) k' z' : (∃ r, k' (zmem s) = Done r (zmem s) ∧ scan_answer z' k r) → f s = limbsZ k' s → ∃ r, reads f s r ∧ scan_answer z' k r.
Proof. intros (r & E & Hr) Ef. exists r. split; [|done]. unfold reads. by rewrite Ef, (limbsZ_run _ _ _ _ E), same_mem. Qed.

Lemma mpz_scan1_spec : ∃ r, reads (mpz_scan1 u k) s r ∧ scan_answer z k r.
Proof.
  pose proof (zsize_nonneg z) as Hsz. destruct (Z.leb_spec (zlimbs z) i) as [Hle|Hlt].
  { destruct (scan_past Hle) as [H1 H2]. exists (if 0 <=? zsize z then B - 1 else k). split.
    - eapply (reads_size N s H); [done|]. cbv zeta. rewrite zsize_abs. change GMP_LIMB_BITS with 64. rewrite (proj2 (Z.leb_le _ _)) by done. by destruct (0 <=? zsize z).
    - destruct (Z.leb_spec 0 (zsize z)); [right; split; [apply H1; lia|done]|]. left. split; [lia|]. split; [apply H2; lia|lia]. }
  destruct (scan_start Hlt) as (st & xs & x & Hsd). destruct (index_nonneg st xs x Hsd) as (Hi & En & Hsh & Ek & Hlim & HB). destruct (sd_limb _ _ _ Hsd) as [Hlx Ex].
  set (next := if negb (k =? 0) then
         c ← (if zsize z <? 0 then b ← limbsZ (mpn_zero_p (mp_d st) i); let ux := b2l b in let limb := ladd (lnot x) ux in mret (limb, lneg (b2l (ux <=? limb))) else mret (x, 0));
         let '(limb, ux) := c in mret (Z.land limb (lshl GMP_LIMB_MAX sh), ux)
       else mret (x, 0) : M zst (Z * Z)).
  assert (∀ l ux, next s = Done (l, ux) s → (∃ r, mpn_common_scan (length xs) l (Z.of_nat (Z.to_nat i)) (mp_d st) (Z.of_nat (length xs)) ux (zmem s) = Done r (zmem s) ∧ scan_answer z k r) →
    ∃ r, reads (mpz_scan1 u k) s r ∧ scan_answer z k r) as Hrun.
  { intros l ux Ec Hc. eapply scan_last; [exact Hc|]. unfold mpz_scan1. rewrite (bind_done _ _ _ _ _ (size_of_ok N s u z H Hu)). cbv zeta. rewrite zsize_abs. change GMP_LIMB_BITS with 64.
    rewrite (proj2 (Z.leb_gt _ _)) by done. rewrite (bind_done _ _ _ _ _ (limbs_of_own _ _ _ _ (sd_own _ _ _ Hsd))), (bind_done _ _ _ _ _ (limbsZ_run _ _ _ _ (sd_load _ _ _ Hsd))), same_mem.
    fold next. rewrite (bind_done _ _ _ _ _ Ec). cbv beta iota. rewrite <- (sd_length _ _ _ Hsd), Nat2Z.id, En. done. }
  unfold next in Hrun. clear next. destruct (Z.eqb_spec k 0) as [E0|E0]; [|destruct (Z.ltb_spec (zsize z) 0) as [Hz|Hz]]; cbn [negb] in Hrun.
  - apply (Hrun x 0); [done|]. apply (scan_of st xs x Hsd); [by left|done|]. rewrite (scanned_plain st xs x Hsd). replace sh with 0 by (by rewrite E0). unfold clear_low. rewrite Z.pow_0_r, Z.div_1_r, Z.mul_1_r.
    assert (z ≠ 0) by (intros ->; change (zlimbs 0) with 0 in Hlt; lia). rewrite Ex. unfold abs_limb, twos_limb. replace i with 0 by (by rewrite E0). rewrite Z.pow_0_r, !Z.div_1_r, Z.pow_1_r.
    pose proof (Z.div_mod (Z.abs z) B ltac:(done)). pose proof (Z.div_mod z B ltac:(done)). destruct (Z.le_gt_cases 0 z); [left|right; left]; lia.
  - pose proof (scan_twos st xs x Hsd ltac:(lia)) as [Et Hr]. cbv zeta in Hr, Et. assert (carry z i = b2l (Z.abs z mod B ^ i =? 0)) as Ec by (unfold carry; by rewrite (proj2 (Z.ltb_lt z 0)) by lia). rewrite Ec in *.
    eapply Hrun; [|exact Hr]. erewrite bind_done; [|rewrite (bind_done _ _ _ _ _ (limbsZ_run _ _ _ _ (sd_zero _ _ _ Hsd))), same_mem; cbv zeta; rewrite Et; done].
    cbv beta iota. by rewrite (proj1 (mask_low (twos_limb z i) sh (limb_mod _) Hsh)).
  - destruct (mask_low x sh Hlx Hsh) as [Em Hm]. apply (Hrun (clear_low x sh) 0); [by rewrite <- Em|]. apply (scan_of st xs x Hsd); [by left|done|]. left. split; [done|].
    rewrite (scanned_plain st xs x Hsd), Ex, twos_nonneg, (Z.abs_eq z) by lia. done.
Qed.

Lemma mpz_scan0_spec : ∃ r, reads (mpz_scan0 u k) s r ∧ scan_answer (Z.lnot z) k r.
Proof.
  pose proof (zsize_nonneg z) as Hsz. assert (lneg (b2l (0 <=? zsize z)) = if 0 <=? z then GMP_LIMB_MAX else 0) as Eux by (destruct (Z.leb_spec 0 (zsize z)), (Z.leb_spec 0 z); (done || lia)).
  destruct (Z.leb_spec (zlimbs z) i) as [Hle|Hlt].
  { destruct (scan_past_lnot Hle) as [H1 H2]. exists (if 0 <=? z then k else B - 1). split.
    - eapply (reads_size N s H); [done|]. cbv zeta. rewrite zsize_abs, Eux. change GMP_LIMB_BITS with 64. rewrite (proj2 (Z.leb_le _ _)) by done. by destruct (0 <=? z).
    - destruct (Z.leb_spec 0 z); [left; split; [lia|]; split; [apply H1; lia|lia]|]. right. split; [apply H2; lia|done]. }
  destruct (scan_start Hlt) as (st & xs & x & Hsd). destruct (index_nonneg st xs x Hsd) as (Hi & En & Hsh & Ek & Hlim & HB). destruct (sd_limb _ _ _ Hsd) as [Hlx Ex].
  assert (∃ r, mpn_common_scan (length xs) (Z.land (if 0 <=? z then Z.lxor x GMP_LIMB_MAX else lsub (Z.lxor x 0) (b2l (Z.abs z mod B ^ i =? 0))) (lshl GMP_LIMB_MAX sh))
      (Z.of_nat (Z.to_nat i)) (mp_d st) (Z.of_nat (length xs)) (if 0 <=? z then GMP_LIMB_MAX else 0) (zmem s) = Done r (zmem s) ∧ scan_answer (Z.lnot z) k r) as Hr.
  { destruct (Z.leb_spec 0 z).
    - rewrite (proj1 (mask_low (Z.lxor x GMP_LIMB_MAX) sh ltac:(rewrite lxor_max by done; unfold limb in *; lia) Hsh)). by apply (scan_lnot st xs x Hsd).
    - rewrite (proj1 (mask_low (lsub _ _) sh (limb_mod _) Hsh)). by apply (scan_pred st xs x Hsd). }
  eapply scan_last; [exact Hr|]. unfold mpz_scan0. rewrite (bind_done _ _ _ _ _ (size_of_ok N s u z H Hu)). cbv zeta. rewrite zsize_abs, Eux. change GMP_LIMB_BITS with 64. rewrite (proj2 (Z.leb_gt _ _)) by done.
  rewrite (bind_done _ _ _ _ _ (limbs_of_own _ _ _ _ (sd_own _ _ _ Hsd))), (bind_done _ _ _ _ _ (limbsZ_run _ _ _ _ (sd_load _ _ _ Hsd))), same_mem.
  erewrite bind_done; [by rewrite <- (sd_length _ _ _ Hsd), Nat2Z.id, En|]. destruct (0 <=? z); [done|]. change (0 =? 0) with true. cbv iota.
  by rewrite (bind_done _ _ _ _ _ (limbsZ_run _ _ _ _ (sd_zero _ _ _ Hsd))), same_mem.
Qed.
End functions.
