(* ===== verification/MpzPow.v ===== *)
(** * Powers, factorials and binomial coefficients

    mpz_pow_ui, mpz_fac_ui and mpz_bin_uiui. *)

From S2P Require Import Prelude Limbs Mpn Invert MpnDiv MpnDivN Mpz MpzRep MpzArith MpzMul MpzDivision MpzFrame MpzDivShort MpzLocals MpzGcd.

(** ** Definitions *)

(** [do ... while (bit > 0)], from the highest bit of the exponent on. *)
Fixpoint pow_loop (fuel : nat) (tr b : positive) (e bit : Z) : M zst unit :=
  match fuel with
  | O => failM Undefined
  | S fuel' =>
      _ ← mpz_mul tr tr tr;
      _ ← whenM (negb (Z.land e bit =? 0)) (mpz_mul tr tr b);
      let bit := lshr bit 1 in
      if 0 <? bit then pow_loop fuel' tr b e bit else mret tt
  end.

Definition mpz_pow_ui (r b : positive) (e : Z) : M zst unit :=
  with_local (λ tr,
    _ ← mpz_init_set_ui tr 1;
    _ ← pow_loop 64 tr b e GMP_LIMB_HIGHBIT;
    _ ← mpz_swap r tr;
    mpz_clear tr).

(** [while (n > 2) mpz_mul_ui (x, x, --n)] *)
Fixpoint fac_loop (fuel : nat) (x : positive) (n : Z) : M zst unit :=
  if 2 <? n then
    match fuel with
    | O => failM Undefined
    | S fuel' => _ ← mpz_mul_ui x x (n - 1); fac_loop fuel' x (n - 1)
    end
  else mret tt.

Definition mpz_fac_ui (x : positive) (n : Z) : M zst unit :=
  _ ← mpz_set_ui x (n + b2l (n =? 0));
  fac_loop (Z.to_nat n) x n.

(** [for (; k > 0; k--) mpz_mul_ui (r, r, n--)] *)
Fixpoint bin_loop (r : positive) (n : Z) (k : nat) : M zst unit :=
  match k with
  | O => mret tt
  | S k' => _ ← mpz_mul_ui r r n; bin_loop r (lsub n 1) k'
  end.

Definition mpz_bin_uiui (r : positive) (n k : Z) : M zst unit :=
  _ ← mpz_set_ui r (b2l (k <=? n));
  let k := if lshr n 1 <? k then (if k <=? n then n - k else 0) else k in
  with_local (λ t,
    _ ← mpz_init t;
    _ ← mpz_fac_ui t k;
    _ ← bin_loop r n (Z.to_nat k);
    _ ← mpz_divexact r r t;
    mpz_clear t).

(** ** Powers *)

Lemma zlimbs_mul_le x y : x ≠ 0 → y ≠ 0 → zlimbs x + zlimbs y ≤ zlimbs (x * y) + 1.
Proof.
  intros Hx Hy. pose proof (abs_ge x Hx) as H1. pose proof (abs_ge y Hy) as H2. pose proof (abs_lt (x * y)) as H3. pose proof (zlimbs_pos x Hx). pose proof (zlimbs_pos y Hy). rewrite Z.abs_mul in H3.
  assert (B ^ (zlimbs x - 1 + (zlimbs y - 1)) < B ^ zlimbs (x * y)) as Hlt. { rewrite Z.pow_add_r by lia. pose proof (Z.pow_pos_nonneg B (zlimbs x - 1) ltac:(done) ltac:(lia)). nia. }
  apply Z.pow_lt_mono_r_iff in Hlt; [lia|done|apply zlimbs_nonneg].
Qed.

Lemma pow_limbs z p q e : 0 ≤ p → 0 ≤ q → p + q ≤ e → zlimbs (z ^ p) + zlimbs (z ^ q) ≤ zlimbs (z ^ e) + 2.
Proof.
  intros Hp Hq He. destruct (Z.eq_dec z 0) as [->|Hz].
  - assert (∀ k, 0 ≤ k → zlimbs (0 ^ k) ≤ 1) as H1. { intros k Hk. destruct (Z.eq_dec k 0) as [->|]; [done|]. rewrite Z.pow_0_l by lia. done. }
    pose proof (H1 p Hp). pose proof (H1 q Hq). pose proof (zlimbs_nonneg (0 ^ e)). lia.
  - pose proof (zlimbs_mul_le (z ^ p) (z ^ q) (Z.pow_nonzero z p Hz Hp) (Z.pow_nonzero z q Hz Hq)) as Hm. rewrite <- Z.pow_add_r in Hm by lia.
    assert (Z.abs (z ^ (p + q)) ≤ Z.abs (z ^ e)) as Ha by (rewrite !Z.abs_pow; apply Z.pow_le_mono_r; lia). apply zlimbs_mono in Ha. lia.
Qed.

Section pow.
Context {F : gmap Z (option Z)} {FB : gmap Z Z} {D : positive → Prop}.
Context (N : vars) (tr b : positive) (z e : Z).
Hypotheses (Hl : locals [tr] N) (Hb : N !! b = Some (Some z)) (He : 0 ≤ e) (Hlim : zlimbs (z ^ e) + 2 ≤ alloc_limit).

Lemma exponent_bit j : 0 ≤ j → negb (Z.land e (2 ^ j) =? 0) = Z.testbit e j.
Proof.
  intros Hj. destruct (Z.testbit e j) eqn:E.
  - apply negb_true_iff, Z.eqb_neq. intros E0. assert (Z.testbit (Z.land e (2 ^ j)) j = true) as Hb' by (rewrite Z.land_spec, E, Z.pow2_bits_true by done; done). by rewrite E0, Z.testbit_0_l in Hb'.
  - apply negb_false_iff, Z.eqb_eq. apply Z.bits_inj'. intros n Hn. rewrite Z.land_spec, Z.testbit_0_l. destruct (Z.eq_dec n j) as [->|]; [by rewrite E|]. rewrite Z.pow2_bits_false by done. apply andb_false_r.
Qed.

Lemma half_power j : 0 ≤ j → e / 2 ^ j = 2 * (e / 2 ^ (j + 1)) + b2l (Z.testbit e j).
Proof.
  intros Hj. pose proof (Z.pow_pos_nonneg 2 j ltac:(lia) Hj). rewrite Z.pow_add_r, Z.pow_1_r, <- Z.div_div by lia. rewrite Z.testbit_odd, Z.shiftr_div_pow2 by done.
  pose proof (Z.div_mod (e / 2 ^ j) 2 ltac:(lia)) as E. rewrite Zmod_odd in E. destruct (Z.odd (e / 2 ^ j)); simpl; lia.
Qed.

(** One bit of the exponent. *)
Lemma pow_round j s (f : M zst unit) Q :
  0 ≤ j → holds F FB D (binds [tr] [Some (z ^ (e / 2 ^ (j + 1)))] N) s →
  (∀ s', holds F FB D (binds [tr] [Some (z ^ (e / 2 ^ j))] N) s' → wp never f Q s') →
  wp never (_ ← mpz_mul tr tr tr; _ ← whenM (negb (Z.land e (2 ^ j) =? 0)) (mpz_mul tr tr b); f) Q s.
Proof.
  intros Hj H Hf. pose proof (half_power j Hj) as Eh. set (p := e / 2 ^ (j + 1)) in *. pose proof (Z.pow_pos_nonneg 2 (j + 1) ltac:(lia) ltac:(lia)). pose proof (Z.pow_pos_nonneg 2 j ltac:(lia) Hj).
  assert (0 ≤ p) as Hp by (apply Z.div_pos; lia). assert (e / 2 ^ j ≤ e) as Hle by (apply Z.div_le_upper_bound; nia). pose proof (pow_limbs z p p e Hp Hp ltac:(destruct (Z.testbit e j); simpl in Eh; lia)).
  into 0%nat (mpz_mul_spec _ s tr); [lia..|]. rewrite exponent_bit by done. rewrite <- Z.pow_add_r in * by lia. apply wp_bind. eapply (wp_mono _ _ (λ _ s', holds F FB D (binds [tr] [Some (z ^ (e / 2 ^ j))] N) s')); [|intros [] s' Hs'; by apply Hf].
  rewrite Eh. destruct (Z.testbit e j); cbn [whenM b2l] in *.
  - pose proof (pow_limbs z (p + p) 1 e ltac:(lia) ltac:(lia) ltac:(lia)) as Hm. rewrite Z.pow_1_r in Hm. apply wp_bind_ret. into 0%nat (mpz_mul_spec _ _ tr); [lia..|]. eapply wp_run; [done|].
    replace (2 * p + 1) with (p + p + 1) by lia. by rewrite (Z.pow_add_r z (p + p) 1), Z.pow_1_r by lia.
  - eapply wp_run; [done|]. rewrite Z.add_0_r. by replace (2 * p) with (p + p) by lia.
Qed.

Lemma pow_loop_spec (j : nat) s :
  holds F FB D (binds [tr] [Some (z ^ (e / 2 ^ (Z.of_nat j + 1)))] N) s →
  wp never (pow_loop (S j) tr b e (2 ^ Z.of_nat j)) (λ _ s', holds F FB D (binds [tr] [Some (z ^ e)] N) s') s.
Proof.
  revert s. induction j as [|j IH]; intros s H; cbn [pow_loop]; apply pow_round; try done; try lia; intros s1 H1; cbv zeta; unfold lshr.
  - rewrite Z.shiftr_div_pow2 by lia. change (0 <? 2 ^ Z.of_nat 0 / 2 ^ 1) with false. cbv iota. eapply wp_run; [done|]. by rewrite Z.pow_0_r, Z.div_1_r in H1.
  - replace (Z.shiftr (2 ^ Z.of_nat (S j)) 1) with (2 ^ Z.of_nat j) by (rewrite Z.shiftr_div_pow2, Nat2Z.inj_succ, Z.pow_succ_r by lia; symmetry; rewrite Z.mul_comm; apply Z.div_mul; lia).
    rewrite (proj2 (Z.ltb_lt _ _)) by (apply Z.pow_pos_nonneg; lia). apply IH. by replace (Z.of_nat j + 1) with (Z.of_nat (S j)) by lia.
Qed.
End pow.

Lemma mpz_pow_ui_spec F FB (D : positive → Prop) N s r b z e :
  holds F FB D N s → is_Some (N !! r) → N !! b = Some (Some z) → limb e → zlimbs (z ^ e) + 2 ≤ alloc_limit →
  wp never (mpz_pow_ui r b e) (λ _ s', holds F FB D (<[r := Some (z ^ e)]> N) s') s.
Proof.
  intros H Hr Hb He Hlim. unfold limb in He. eapply (wp_mono _ _ (λ _ s', True ∧ holds F FB D _ s')); [|intros [] s' [_ H']; exact H'].
  apply (wp_declare_to F FB D _ (λ _, True) N); [done|by intros x'; apply put_none|]. intros tr s1 D1 H1 HD HN _ _. change N with (binds [] [] N) in H1. assert (locals [] N) as Hl0 by (split; constructor).
  unfold mpz_init_set_ui. rewrite wp_bind_assoc. eapply wp_init_local; [exact H1|done|done|apply not_elem_of_nil|done|]. intros s2 H2 Hl. into 0%nat (mpz_set_ui_spec _ s2 tr 1).
  apply wp_bind. eapply wp_mono; [apply (pow_loop_spec (F:=F) (FB:=FB) (D:=D1) N tr b z e Hl Hb ltac:(lia) Hlim 63)|].
  - change (Z.of_nat 63 + 1) with 64. rewrite Z.div_small by (change (2 ^ 64) with B; lia). by rewrite Z.pow_0_r.
  - intros [] s4 H4. destruct Hr as [o Ho]. eapply (wp_swap_result 0%nat); [exact H4|done|reflexivity|reflexivity|exact Ho|]. intros s5 H5 Hl5. apply wp_bind_ret. clear Hl Hl0. clear_local 0%nat. by eapply wp_run.
Qed.

(** ** Factorials *)

Fixpoint zfact (n : nat) : Z := match n with O => 1 | S n' => Z.of_nat n * zfact n' end.

Lemma zfact_pos n : 0 < zfact n.
Proof. induction n as [|n IH]; [done|]. cbn [zfact]. lia. Qed.

Lemma fac_loop_spec F FB (D : positive → Prop) N x p (k : nat) s fuel :
  holds F FB D (<[x := Some p]> N) s → 0 < p → (k ≤ fuel)%nat → Z.of_nat k < B → zlimbs (p * zfact (k - 1)) + 1 ≤ alloc_limit →
  wp never (fac_loop fuel x (Z.of_nat k)) (λ _ s', holds F FB D (<[x := Some (p * zfact (k - 1))]> N) s') s.
Proof.
  revert p k s. induction fuel as [|fuel IH]; intros p k s H Hp Hk HB Hlim; cbn [fac_loop].
  { replace k with O in * by lia. eapply wp_run; [done|]. simpl. by rewrite Z.mul_1_r. }
  destruct (Z.ltb_spec 2 (Z.of_nat k)) as [H2|H2].
  - destruct k as [|[|k]]; [lia..|]. replace (Z.of_nat (S (S k)) - 1) with (Z.of_nat (S k)) by lia. replace (S (S k) - 1)%nat with (S k) in * by lia. cbn [zfact] in *. pose proof (zfact_pos k) as Hfp.
    assert (p * (Z.of_nat (S k) * zfact k) = (p * Z.of_nat (S k)) * zfact k) as Ea by lia. rewrite Ea in *. assert (p ≤ p * Z.of_nat (S k) * zfact k) as Hle by nia. pose proof (zlimbs_mono p (p * Z.of_nat (S k) * zfact k) ltac:(lia)).
    apply wp_bind. eapply wp_mono; [eapply (mpz_mul_ui_spec _ s x x p); [exact H|look|look|unfold limb; lia|lia]|]. intros [] s1 H1. rewrite insert_insert_eq in H1.
    replace (zfact k) with (zfact (S k - 1)) in * by (f_equal; lia). apply IH; try done; lia.
  - eapply wp_run; [done|]. replace (zfact (k - 1)) with 1; [by rewrite Z.mul_1_r|]. destruct k as [|[|[|k]]]; [done..|lia].
Qed.

Lemma mpz_fac_ui_spec F FB (D : positive → Prop) N s x n :
  holds F FB D N s → is_Some (N !! x) → limb n → zlimbs (zfact (Z.to_nat n)) + 1 ≤ alloc_limit →
  wp never (mpz_fac_ui x n) (λ _ s', holds F FB D (<[x := Some (zfact (Z.to_nat n))]> N) s') s.
Proof.
  intros H Hx Hn Hlim. unfold limb in Hn. unfold mpz_fac_ui. apply wp_bind. eapply wp_mono; [apply (mpz_set_ui_spec N s x _ H Hx)|].
  { unfold limb. destruct (Z.eqb_spec n 0); simpl; [subst; done|lia]. }
  intros [] s1 H1. set (k := Z.to_nat n) in *. assert (n = Z.of_nat k) as En by (unfold k; lia).
  assert (zfact k = (n + b2l (n =? 0)) * zfact (k - 1)) as Ef. { destruct (Z.eqb_spec n 0) as [E0|E0]; [replace k with O by lia; by rewrite E0|]. destruct k as [|k']; [lia|]. cbn [zfact b2l]. replace (S k' - 1)%nat with k' by lia. lia. }
  rewrite Ef in Hlim |- *. replace (fac_loop k x n) with (fac_loop k x (Z.of_nat k)) by (by rewrite <- En). apply (fac_loop_spec F FB D N x _ k s1 k); try done; [destruct (Z.eqb_spec n 0); simpl; lia|lia].
Qed.

(** ** Binomial coefficients *)

Fixpoint binom (n k : nat) : Z :=
  match n, k with
  | _, O => 1
  | O, S _ => 0
  | S n', S k' => binom n' k' + binom n' k
  end.

(** The product [n (n - 1) ... (n - k + 1)]. *)
Fixpoint falling (n : Z) (k : nat) : Z := match k with O => 1 | S k' => n * falling (n - 1) k' end.

Lemma binom_0 n : binom n 0 = 1.
Proof. by destruct n. Qed.

Lemma binom_absorb n k : Z.of_nat (S k) * binom (S n) (S k) = Z.of_nat (S n) * binom n k.
Proof.
  revert k. induction n as [|n IH]; intros k; [destruct k as [|k]; [done|]; cbn [binom]; lia|]. destruct k as [|k].
  - pose proof (IH O) as H0. change (binom (S (S n)) 1) with (binom (S n) 0 + binom (S n) 1). rewrite !binom_0 in *. lia.
  - pose proof (IH k) as H1. pose proof (IH (S k)) as H2. change (binom (S (S n)) (S (S k))) with (binom (S n) (S k) + binom (S n) (S (S k))). change (binom (S n) (S k)) with (binom n k + binom n (S k)) in *. lia.
Qed.

Lemma falling_binom n k : falling (Z.of_nat n) k = zfact k * binom n k.
Proof.
  revert n. induction k as [|k IH]; intros n; [by destruct n|]. cbn [falling zfact]. destruct n as [|n]; [cbn [binom]; lia|]. replace (Z.of_nat (S n) - 1) with (Z.of_nat n) by lia.
  rewrite IH. transitivity (zfact k * (Z.of_nat (S n) * binom n k)); [ring|]. rewrite <- binom_absorb. ring.
Qed.

Lemma falling_fact n k : (k ≤ n)%nat → falling (Z.of_nat n) k * zfact (n - k) = zfact n.
Proof.
  revert n. induction k as [|k IH]; intros n Hk; [rewrite Nat.sub_0_r; simpl; lia|]. destruct n as [|n]; [lia|]. cbn [falling zfact]. replace (Z.of_nat (S n) - 1) with (Z.of_nat n) by lia.
  change (S n - S k)%nat with (n - k)%nat. rewrite <- (IH n) by lia. lia.
Qed.

Lemma binom_sym n k : (k ≤ n)%nat → binom n (n - k) = binom n k.
Proof.
  intros Hk. pose proof (falling_fact n k Hk) as H1. pose proof (falling_fact n (n - k) ltac:(lia)) as H2. replace (n - (n - k))%nat with k in H2 by lia. rewrite falling_binom in H1, H2.
  pose proof (zfact_pos k). pose proof (zfact_pos (n - k)). assert (zfact k * zfact (n - k) * binom n (n - k) = zfact k * zfact (n - k) * binom n k) as E by lia. apply Z.mul_reg_l in E; [done|nia].
Qed.

Lemma binom_big n k : (n < k)%nat → binom n k = 0.
Proof. revert k. induction n as [|n IH]; intros [|k] Hk; try lia; [done|]. cbn [binom]. rewrite !IH by lia. done. Qed.

Lemma falling_pos n k : Z.of_nat k ≤ n → 0 < falling n k.
Proof. revert n. induction k as [|k IH]; intros n Hn; cbn [falling]; [done|]. specialize (IH (n - 1) ltac:(lia)). nia. Qed.

Lemma fact_falling n k : (k ≤ n)%nat → zfact k ≤ falling (Z.of_nat n) k.
Proof. intros Hk. pose proof (falling_pos (Z.of_nat n) k ltac:(lia)) as Hp. rewrite falling_binom in *. pose proof (zfact_pos k). assert (0 < binom n k) by nia. nia. Qed.

(** The loop multiplies by [n], [n - 1], ... *)
Lemma bin_loop_spec F FB (D : positive → Prop) N r n (k : nat) p s :
  holds F FB D N s → N !! r = Some (Some p) → 0 ≤ p → Z.of_nat k ≤ n < B → zlimbs (p * falling n k) + 1 ≤ alloc_limit →
  wp never (bin_loop r n k) (λ _ s', holds F FB D (<[r := Some (p * falling n k)]> N) s') s.
Proof.
  revert N n p s. induction k as [|k IH]; intros N n p s H Hr Hp Hn Hlim; cbn [bin_loop falling] in *; [eapply wp_run; [done|]; by rewrite Z.mul_1_r, insert_id|].
  pose proof (falling_pos (n - 1) k ltac:(lia)) as Hfp. rewrite Z.mul_assoc in *. assert (p * 1 ≤ p * n * falling (n - 1) k) by (rewrite <- Z.mul_assoc; apply Z.mul_le_mono_nonneg_l; nia). pose proof (zlimbs_mono p (p * n * falling (n - 1) k) ltac:(lia)).
  apply wp_bind. eapply wp_mono; [eapply (mpz_mul_ui_spec _ s r r p); [exact H|eauto|done|unfold limb; lia|lia]|]. intros [] s1 Hs1.
  assert (lsub n 1 = n - 1) as -> by (unfold lsub; apply u64_small; change SIZE_MOD with B; lia). eapply wp_mono; [apply (IH _ _ (p * n) s1 Hs1); (look || done || nia)|].
  intros [] s2. by rewrite insert_insert_eq.
Qed.

(** The smaller of the two ways to choose. *)
Definition bin_small (n k : Z) : Z := if n / 2 <? k then (if k <=? n then n - k else 0) else k.

Lemma bin_small_spec n k : 0 ≤ n → 0 ≤ k → 0 ≤ bin_small n k ≤ n ∧ (k ≤ n → binom (Z.to_nat n) (Z.to_nat (bin_small n k)) = binom (Z.to_nat n) (Z.to_nat k)).
Proof.
  intros Hn Hk. unfold bin_small. pose proof (Z.div_mod n 2 ltac:(lia)). pose proof (Z.mod_pos_bound n 2 ltac:(lia)). destruct (Z.ltb_spec (n / 2) k), (Z.leb_spec k n); (split; [lia|]); intros Hkn; try (lia || done).
  replace (Z.to_nat (n - k)) with (Z.to_nat n - Z.to_nat k)%nat by lia. apply binom_sym. lia.
Qed.

Lemma mpz_bin_uiui_spec F FB (D : positive → Prop) N s r n k :
  holds F FB D N s → is_Some (N !! r) → limb n → limb k → zlimbs (falling n (Z.to_nat (bin_small n k))) + 1 ≤ alloc_limit →
  wp never (mpz_bin_uiui r n k) (λ _ s', holds F FB D (<[r := Some (binom (Z.to_nat n) (Z.to_nat k))]> N) s') s.
Proof.
  intros H Hr Hn Hk Hlim. unfold limb in Hn, Hk. unfold mpz_bin_uiui. apply wp_bind. eapply wp_mono; [apply (mpz_set_ui_spec N s r _ H Hr); unfold limb; destruct (k <=? n); done|].
  intros [] s1 H1. cbv zeta. unfold lshr. rewrite Z.shiftr_div_pow2, Z.pow_1_r by lia. fold (bin_small n k). destruct (bin_small_spec n k ltac:(lia) ltac:(lia)) as [Hj Hb]. set (j := bin_small n k) in *.
  set (N1 := <[r := Some (b2l (k <=? n))]> N) in *.
  eapply (wp_mono _ _ (λ _ s', True ∧ holds F FB D (<[r := Some (binom (Z.to_nat n) (Z.to_nat k))]> N1) s')); [|intros [] s' [_ H']; unfold N1 in H'; rewrite insert_insert_eq in H'; exact H'].
  apply (wp_declare_to F FB D _ (λ _, True) N1); [done|by intros x'; apply put_none; unfold N1; rewrite lookup_insert_eq; eauto|]. intros t s2 D1 H2 HD HN _ _. change N1 with (binds [] [] N1) in H2. assert (locals [] N1) as Hl0 by (split; constructor).
  eapply wp_init_local; [exact H2|done|done|apply not_elem_of_nil|done|]. intros s3 H3 Hl.
  assert (N1 !! r = Some (Some (b2l (k <=? n)))) as Hr1 by (unfold N1; by rewrite lookup_insert_eq). set (p := b2l (k <=? n)) in *. assert (0 ≤ p ≤ 1) as Hp by (unfold p; destruct (k <=? n); simpl; lia).
  set (a := Z.to_nat n) in *. assert (n = Z.of_nat a) as Ea by (unfold a; lia). pose proof (fact_falling a (Z.to_nat j) ltac:(lia)) as Hff. rewrite <- Ea in Hff. pose proof (zfact_pos (Z.to_nat j)) as Hfp.
  pose proof (zlimbs_mono (zfact (Z.to_nat j)) (falling n (Z.to_nat j)) ltac:(lia)). pose proof (zlimbs_mono (p * falling n (Z.to_nat j)) (falling n (Z.to_nat j)) ltac:(nia)).
  into 0%nat (mpz_fac_ui_spec F FB D1 _ s3 t j); [unfold limb; lia|lia|]. into_var (bin_loop_spec F FB D1 _ r n (Z.to_nat j) p); [lia..|].
  assert (falling n (Z.to_nat j) = zfact (Z.to_nat j) * binom a (Z.to_nat j)) as Ef by (rewrite Ea; apply falling_binom).
  eapply wp_to_var; [eapply (mpz_divexact_spec _ _ r (p * falling n (Z.to_nat j))); [eassumption|eapply binds_other; [eassumption|apply lookup_insert_eq]|apply binds_other_some; [eassumption|rewrite lookup_insert_eq; eauto]|look|lia|exists (p * binom a (Z.to_nat j)); rewrite Ef; lia|lia]|eassumption|rewrite lookup_insert_eq; eauto|].
  intros w6 Hw6 Hl6. rewrite insert_insert_eq in Hw6, Hl6. apply wp_bind_ret. clear Hl Hl0. clear_local 0%nat. eapply wp_run; [done|]. split; [done|].
  replace (binom a (Z.to_nat k)) with (p * falling n (Z.to_nat j) / zfact (Z.to_nat j)); [by cbn [binds] in *|].
  rewrite Ef, Z.mul_comm, <- Z.mul_assoc, Z.mul_comm, Z.div_mul by lia. unfold p. destruct (Z.leb_spec k n); cbn [b2l]; [rewrite Z.mul_1_r; apply Hb; lia|]. rewrite Z.mul_0_r. symmetry. apply binom_big. lia.
Qed.
