(* ===== verification/MpzSize.v ===== *)
(** * The number of digits of an integer

    mpz_sizeinbase. In a base that is a power of two it follows from the
    highest bit; in another the number is copied to a block of its own and
    divided by the base until nothing is left. *)

From S2P Require Import Prelude Limbs Mpn Invert MpnDiv MpnDivN MpnStr MpnSetStr MpnGetStr Mpz MpzRep MpzArith MpzMul MpzDivision MpzFrame MpzDivShort MpzLocals MpzGcd MpzBits MpzLogic MpzCount MpzScan MpzPow.

(** ** Definitions *)

(** [do ... while (un > 0)]; there are no more digits than bits. *)
Fixpoint sizeinbase_loop (fuel : nat) (tp un : Z) (bi : gmp_div_inverse) (ndigits : Z) : M mem Z :=
  match fuel with
  | O => failM Undefined
  | S fuel' =>
      let ndigits := ladd ndigits 1 in
      _ ← mpn_div_qr_1_preinv (Some tp) tp un bi;
      x ← load (tp + un - 1);
      let un := un - b2l (x =? 0) in
      if 0 <? un then sizeinbase_loop fuel' tp un bi ndigits else mret ndigits
  end.

Definition mpz_sizeinbase (u : positive) (base : Z) : M zst Z :=
  _ ← lift (assertion (2 <=? base));
  _ ← lift (assertion (base <=? 36));
  us ← size_of u;
  let un := Z.abs us in
  if un =? 0 then mret 1
  else
    up ← limbs_of u;
    x ← limbsZ (load (up + un - 1));
    size ← lift (mpn_limb_size_in_base_2 x);
    let bits := (un - 1) * GMP_LIMB_BITS + size in
    if base =? 2 then mret bits
    else if base =? 4 then mret ((bits + 1) / 2)
    else if base =? 8 then mret ((bits + 2) / 3)
    else if base =? 16 then mret ((bits + 3) / 4)
    else if base =? 32 then mret ((bits + 4) / 5)
    else
      limbsZ (tp ← gmp_xalloc_limbs un;
              _ ← mpn_copyi tp up un;
              bi ← lift (mpn_div_qr_1_invert base);
              ndigits ← sizeinbase_loop (Z.to_nat (un * GMP_LIMB_BITS)) tp un bi 0;
              _ ← gmp_free tp;
              mret ndigits).

(** ** A block used as working space *)

(** [m] is [m0] with a block of [n] limbs at [t], the highest allocated so far. *)
Definition scratch (t n : Z) (m0 m : mem) : Prop :=
  blocks m = <[t := n]> (blocks m0) ∧ next m0 + n ≤ next m ∧ mem_wf m ∧ ∀ a, ¬ (t ≤ a < t + n) → cells m !! a = cells m0 !! a.

Section scratch.
Context (m0 : mem) (n : Z).
Hypotheses (Hwf : mem_wf m0) (Hn : 0 < n ≤ alloc_limit).
Local Abbreviation t := (next m0).

Lemma scratch_alloc : gmp_xalloc_limbs n m0 = Done t (grow m0 n) ∧ scratch t n m0 (grow m0 n) ∧ writable (grow m0 n) t (Z.to_nat n).
Proof.
  split; [by apply xalloc_ok|]. split; [|apply writable_new]. destruct (over_grow m0 n ltac:(lia)) as (Hb & Hx & Hc). split; [done|]. split; [simpl; lia|]. split; [|done].
  intros a Ha. simpl in *. rewrite lookup_fresh_cells. guard_false ((t <=? a) && (a <? t + Z.of_nat (Z.to_nat n))). rewrite lookup_insert_ne by lia. apply Hwf. lia.
Qed.

Lemma scratch_write m m' xs : scratch t n m0 m → writable m t (length xs) → Z.of_nat (length xs) ≤ n → after_temp (write m t xs) m' → scratch t n m0 m'.
Proof.
  intros (Hb & Hx & Hw & Hc) Hwr Hl Ha. pose proof (after_temp_wf _ _ Ha (mem_wf_write _ _ _ Hw Hwr)) as Hw'. destruct Ha as (k & Hk & ->). split; [done|]. split; [simpl; lia|]. split; [done|].
  intros a Ha. simpl. rewrite lookup_write_cells. guard_false ((t <=? a) && (a <? t + Z.of_nat (length xs))). by apply Hc.
Qed.

Lemma scratch_free m : scratch t n m0 m → ∃ m', gmp_free t m = Done tt m' ∧ after_temp m0 m'.
Proof.
  intros (Hb & Hx & Hw & Hc). eexists. split; [unfold gmp_free; by rewrite Hb, lookup_insert_eq|]. exists (next m - t). split; [lia|]. unfold bump. f_equal; [| |lia].
  - apply map_eq. intros a. rewrite lookup_drop_cells. destruct ((t <=? a) && (a <? t + Z.of_nat (Z.to_nat n))) eqn:Ha; bool_to_prop.
    + symmetry. apply Hwf. lia.
    + apply Hc. destruct Ha as [Ha|Ha]; bool_to_prop; lia.
  - rewrite delete_insert_eq. apply delete_id. apply Hwf. lia.
Qed.
End scratch.

(** ** The digits *)

(** The number of digits of [v] in base [b]. *)
Definition has_digits (b v d : Z) : Prop := 0 < d ∧ b ^ (d - 1) ≤ v < b ^ d.

Lemma has_digits_step b v d : 2 ≤ b → has_digits b (v / b) d → has_digits b v (d + 1).
Proof.
  intros Hb (Hd & Hlo & Hhi). pose proof (Z.div_mod v b ltac:(lia)). pose proof (Z.mod_pos_bound v b ltac:(lia)). split; [lia|].
  replace (d + 1 - 1) with (1 + (d - 1)) by lia. replace (d + 1) with (1 + d) by lia. rewrite !Z.pow_add_r, Z.pow_1_r by lia. nia.
Qed.

(** [k] bits for each digit. *)
Lemma has_digits_pow k bits v : 0 < k → 0 < bits → 2 ^ (bits - 1) ≤ v < 2 ^ bits → has_digits (2 ^ k) v ((bits + (k - 1)) / k).
Proof.
  intros Hk Hb Hv. pose proof (Z.div_mod (bits + (k - 1)) k ltac:(lia)) as E. pose proof (Z.mod_pos_bound (bits + (k - 1)) k Hk). set (d := (bits + (k - 1)) / k) in *.
  assert (0 < d) as Hd by nia. split; [done|]. rewrite <- !Z.pow_mul_r by lia. split.
  - etransitivity; [|apply Hv]. apply Z.pow_le_mono_r; nia.
  - eapply Z.lt_le_trans; [apply Hv|]. apply Z.pow_le_mono_r; nia.
Qed.

(** ** The loop *)

(** The limbs without a high zero limb. *)
Definition trim (qs : list Z) : list Z := match last qs with Some 0 => removelast qs | _ => qs end.

Lemma trim_spec qs : (0 < length qs)%nat → Forall limb qs → ∃ x, last qs = Some x ∧
  value (trim qs) = value qs ∧ Z.of_nat (length (trim qs)) = Z.of_nat (length qs) - b2l (x =? 0) ∧ (∃ rest, qs = trim qs ++ rest) ∧ (x ≠ 0 → normalized (trim qs)).
Proof.
  intros Hl Hq. destruct (last_split qs (length qs - 1)) as (lo & x & -> & Ll); [lia|]. exists x. unfold trim. rewrite last_snoc. split; [done|]. destruct x as [|p|p]; [|split_and!; try done..].
  - rewrite removelast_last, value_app, length_app. simpl. split_and!; [lia|lia|by exists [0]|done].
  - rewrite length_app. simpl. lia.
  - exists []. by rewrite app_nil_r.
  - intros _. unfold normalized. rewrite last_snoc. done.
  - rewrite length_app. simpl. lia.
  - exists []. by rewrite app_nil_r.
  - intros _. unfold normalized. rewrite last_snoc. done.
Qed.

Lemma last_load m p qs x : limbs_at m p qs → last qs = Some x → load (p + Z.of_nat (length qs) - 1) m = Done x m.
Proof.
  intros Hq Hx. rewrite last_lookup in Hx. pose proof (lookup_lt_Some _ _ _ Hx). replace (p + Z.of_nat (length qs) - 1) with (p + Z.of_nat (pred (length qs))) by lia. by apply (load_limbs _ _ _ _ _ Hq).
Qed.

Section loop.
Context (m0 : mem) (n b s : Z).
Hypotheses (Hwf : mem_wf m0) (Hn : 0 < n ≤ alloc_limit) (Hb : 2 ≤ b < B) (Hs : 0 ≤ s < 64) (Hbs : GMP_LIMB_HIGHBIT ≤ b * 2 ^ s < B).
Local Abbreviation t := (next m0).
Local Abbreviation inv := (Mk_inv s (b * 2 ^ s) None (inverse_2by1 (b * 2 ^ s))).

(** One division: the limbs of the quotient, without a high zero limb. *)
Lemma divide_once m xs :
  scratch t n m0 m → limbs_at m t xs → normalized xs → (0 < length xs)%nat → Z.of_nat (length xs) ≤ n →
  ∃ r x xs' m', mpn_div_qr_1_preinv (Some t) t (Z.of_nat (length xs)) inv m = Done r m' ∧ load (t + Z.of_nat (length xs) - 1) m' = Done x m' ∧
    Z.of_nat (length xs) - b2l (x =? 0) = Z.of_nat (length xs') ∧ scratch t n m0 m' ∧ limbs_at m' t xs' ∧ value xs' = value xs / b ∧ normalized xs' ∧ ((0 < length xs')%nat ↔ 0 < value xs').
Proof.
  intros Hsc Hx Hnorm Hl Hle. pose proof Hsc as (_ & _ & Hwm & _).
  destruct (mpn_div_qr_1_preinv_spec m (Some t) t xs b s) as (r & qs & m' & E & Ha & Hqs & Lqs & V & Hr); try done; try lia; [by apply writable_limbs|left; lia|]. simpl in Ha.
  assert (limbs_at m' t qs) as Hq by (destruct Ha as (k & _ & ->); by apply limbs_at_write). destruct (trim_spec qs ltac:(lia) Hqs) as (x & Hlast & Vt & Lt & [rest Er] & Hnt).
  pose proof (last_load _ _ _ _ Hq Hlast) as Eload. rewrite Lqs in Eload, Lt. exists r, x, (trim qs), m'. assert (limbs_at m' t (trim qs)) as Hqt by (rewrite Er in Hq; by apply limbs_at_app in Hq as [? _]).
  assert (value qs = value xs / b) as Evq by (apply (Z.div_unique_pos _ _ _ r); lia).
  assert (normalized (trim qs) ∧ ((0 < length (trim qs))%nat ↔ 0 < value (trim qs))) as [Hnq Hiff].
  { destruct (trim qs) as [|y ys] eqn:Et; [split; [done|]; simpl; split; lia|]. assert (normalized (y :: ys)) as Hny.
    - destruct (Z.eq_dec x 0) as [->|Hx0]; [|by apply Hnt]. simpl in Lt. apply normalized_ge; [apply Hqt|simpl; lia|].
      destruct (quotient_normalized xs qs b r) as [Hmin _]; try done; [apply Hx|lia|]. simpl in Lt. replace (pred (length (y :: ys))) with (length xs - 2)%nat by (simpl; lia). simpl in Vt |- *. lia.
    - split; [done|]. apply normalized_ge in Hny; [|apply Hqt|simpl; lia]. pose proof (pow_pos (pred (length (y :: ys)))). simpl length in *. split; [lia|simpl; lia]. }
  split_and!; try done; try lia. eapply scratch_write; [exact Hsc| |rewrite Lqs; exact Hle|exact Ha]. rewrite Lqs. by apply writable_limbs.
Qed.

Lemma sizeinbase_loop_spec fuel m xs nd :
  scratch t n m0 m → limbs_at m t xs → normalized xs → (0 < length xs)%nat → Z.of_nat (length xs) ≤ n → value xs < 2 ^ Z.of_nat fuel → 0 ≤ nd → nd + Z.of_nat fuel < B →
  ∃ d m', sizeinbase_loop fuel t (Z.of_nat (length xs)) inv nd m = Done (nd + d) m' ∧ has_digits b (value xs) d ∧ scratch t n m0 m'.
Proof.
  revert m xs nd. induction fuel as [|fuel IH]; intros m xs nd Hsc Hx Hnorm Hl Hle Hv Hnd Hf.
  { apply normalized_ge in Hnorm; [|apply Hx|done]. pose proof (pow_pos (pred (length xs))). simpl in Hv. lia. }
  destruct (divide_once m xs Hsc Hx Hnorm Hl Hle) as (r & x & xs' & m' & E & El & Elen & Hsc' & Hx' & V & Hnorm' & Hiff). cbn [sizeinbase_loop].
  assert (ladd nd 1 = nd + 1) as -> by (unfold ladd; apply u64_small; change SIZE_MOD with B; lia). rewrite (bind_done _ _ _ _ _ E), (bind_done _ _ _ _ _ El), Elen.
  pose proof (value_bounds _ (proj1 Hx)) as [Hv0 _]. pose proof (value_bounds _ (proj1 Hx')) as [Hv0' _]. destruct (Z.ltb_spec 0 (Z.of_nat (length xs'))) as [Hp|Hp].
  - assert (0 ≤ b2l (x =? 0)) by (destruct (x =? 0); simpl; lia). destruct (IH m' xs' (nd + 1)) as (d & m2 & -> & Hd & Hsc2); try done; try lia.
    { rewrite Nat2Z.inj_succ, Z.pow_succ_r in Hv by lia. pose proof (Z.pow_pos_nonneg 2 (Z.of_nat fuel) ltac:(lia) ltac:(lia)). rewrite V. apply Z.div_lt_upper_bound; [lia|]. assert (2 * 2 ^ Z.of_nat fuel ≤ b * 2 ^ Z.of_nat fuel) by (apply Z.mul_le_mono_nonneg_r; lia). lia. }
    exists (d + 1), m2. split; [by replace (nd + (d + 1)) with (nd + 1 + d) by lia|]. split; [|done]. rewrite V in Hd. by apply has_digits_step; [lia|].
  - exists 1, m'. split; [done|]. split; [|done]. assert (value xs / b = 0) as E0 by lia. apply Z.div_small_iff in E0; [|lia].
    apply normalized_ge in Hnorm; [|apply Hx|done]. pose proof (pow_pos (pred (length xs))). split; [lia|]. rewrite Z.pow_0_r, Z.pow_1_r. lia.
Qed.
End loop.

(** ** The function *)

(** The highest bit, from the highest limb. *)
Lemma top_bits xs x size :
  Forall limb xs → last xs = Some x → 2 ^ (size - 1) ≤ x < 2 ^ size → 0 < size →
  ∀ bits, bits = (Z.of_nat (length xs) - 1) * 64 + size → 0 < bits ∧ 2 ^ (bits - 1) ≤ value xs < 2 ^ bits.
Proof.
  intros Hx Hl Hs Hp bits Ebits. assert (0 < length xs)%nat as Hn by (destruct xs; [done|simpl; lia]). destruct (last_split xs (length xs - 1)) as (lo & y & -> & Ll); [lia|].
  rewrite last_snoc in Hl. injection Hl as ->. apply Forall_app in Hx as [Hlo _]. pose proof (value_bounds _ Hlo) as Hb. rewrite value_app. cbn [value]. rewrite length_app in Ebits. simpl in Ebits.
  set (n := Z.of_nat (length lo)) in *. assert (bits = 64 * n + size) as -> by (unfold n; lia). split; [lia|]. replace (64 * n + size - 1) with (64 * n + (size - 1)) by lia. rewrite !Z.pow_add_r, <- B_pow by lia.
  pose proof (Z.pow_pos_nonneg B n ltac:(done) ltac:(lia)). nia.
Qed.

Lemma wp_assert {A} (c : bool) (f : unit → M zst A) Q s : c = true → wp never (f tt) Q s → wp never (lift (assertion c) ≫= f) Q s.
Proof. intros Hc Hf. unfold wp. by rewrite lift_assert_bind. Qed.

(** The digits in a base that is not a power of two. *)
Lemma sizeinbase_divide m0 up xs b :
  mem_wf m0 → 0 ≤ next m0 → limbs_at m0 up xs → normalized xs → (0 < length xs)%nat → Z.of_nat (length xs) ≤ alloc_limit → 2 ≤ b < B →
  ∃ d m', (tp ← gmp_xalloc_limbs (Z.of_nat (length xs));
           _ ← mpn_copyi tp up (Z.of_nat (length xs));
           bi ← lift (mpn_div_qr_1_invert b);
           ndigits ← sizeinbase_loop (Z.to_nat (Z.of_nat (length xs) * GMP_LIMB_BITS)) tp (Z.of_nat (length xs)) bi 0;
           _ ← gmp_free tp;
           mret ndigits) m0 = Done d m' ∧ has_digits b (value xs) d ∧ after_temp m0 m'.
Proof.
  intros Hwf Hnn Hx Hnorm Hl Hlim Hb. set (n := Z.of_nat (length xs)) in *. destruct (scratch_alloc m0 n Hwf ltac:(lia)) as (Ea & Hsc & Hw). rewrite (bind_done _ _ _ _ _ Ea).
  replace (Z.to_nat n) with (length xs) in Hw by (unfold n; lia). rewrite (bind_done _ _ _ tt (write (grow m0 n) (next m0) xs)).
  2: { apply mpn_copyi_spec; [by apply limbs_at_grow|done|]. right. apply (writable_below m0 up (length xs) Hwf Hl). by apply writable_limbs. }
  destruct (div_qr_1_invert_spec b ltac:(lia)) as (s & -> & Hs & Hbs). rewrite lift_ok_bind. pose proof (value_bounds _ (proj1 Hx)) as Hv. fold n in Hv.
  destruct (sizeinbase_loop_spec m0 n b s ltac:(lia) Hb Hs Hbs (Z.to_nat (n * GMP_LIMB_BITS)) (write (grow m0 n) (next m0) xs) xs 0) as (d & m2 & E & Hd & Hsc2); try done; try lia.
  - eapply scratch_write; [exact Hsc|exact Hw|unfold n; lia|apply after_temp_refl].
  - apply limbs_at_write, Hx.
  - rewrite Z2Nat.id, Z.mul_comm, <- B_pow by (unfold GMP_LIMB_BITS; lia). lia.
  - unfold GMP_LIMB_BITS, alloc_limit, B in *. lia.
  - rewrite (bind_done _ _ _ _ _ E). destruct (scratch_free m0 n Hwf ltac:(lia) m2 Hsc2) as (m' & Ef & Ha). rewrite (bind_done _ _ _ _ _ Ef). by exists d, m'.
Qed.

Lemma mpz_sizeinbase_spec F FB (D : positive → Prop) N s u z base :
  holds F FB D N s → N !! u = Some (Some z) → 2 ≤ base ≤ 36 →
  wp never (mpz_sizeinbase u base) (λ d s', (z = 0 ∧ d = 1 ∨ has_digits base (Z.abs z) d) ∧ holds F FB D N s') s.
Proof.
  intros H Hu Hb. unfold mpz_sizeinbase. apply wp_assert; [apply Z.leb_le; lia|]. apply wp_assert; [apply Z.leb_le; lia|]. eapply wp_size; [exact (holds_sizes _ _ H)|done|]. cbv zeta. rewrite zsize_abs.
  destruct (Z.eqb_spec (zlimbs z) 0) as [E0|E0].
  { eapply wp_run; [done|]. split; [|done]. left. split; [|done]. destruct (Z.eq_dec z 0) as [|Hz]; [done|]. pose proof (zlimbs_pos z Hz). lia. }
  destruct (holds_read N s u z H Hu) as (st & xs & Ho & Hxs & Hnorm & Hlen & _ & Hval & _). pose proof (zlimbs_nonneg z). pose proof (holds_limit _ _ _ _ H Hu) as Hlim. eapply wp_limbs; [exact Ho|]. rewrite <- Hlen.
  assert (0 < length xs)%nat as Hl by lia. destruct (last xs) as [x|] eqn:Ex; [|apply last_None in Ex; subst xs; simpl in Hl; lia]. eapply wp_limbsZ; [by apply last_load|].
  assert (0 < x < B) as Hxl. { pose proof (proj1 (Forall_forall _ _) (proj1 Hxs) x ltac:(by apply last_Some_elem_of)) as Hxb. unfold limb in Hxb. unfold normalized in Hnorm. rewrite Ex in Hnorm. destruct (Z.eq_dec x 0) as [->|]; [done|lia]. }
  destruct (limb_size_spec x Hxl) as (size & Es & Hs & Hbs). eapply wp_then; [unfold lift; by rewrite Es|]. cbv zeta. destruct (top_bits xs x size (proj1 Hxs) Ex Hbs ltac:(lia) _ eq_refl) as [Hbp Hbits]. rewrite Hval in Hbits. change GMP_LIMB_BITS with 64 in *.
  set (bits := (Z.of_nat (length xs) - 1) * 64 + size) in *.
  assert (∀ k, 0 < k → wp never (mret ((bits + (k - 1)) / k)) (λ d s', (z = 0 ∧ d = 1 ∨ has_digits (2 ^ k) (Z.abs z) d) ∧ holds F FB D N s') s) as Hpow.
  { intros k Hk. eapply wp_run; [done|]. split; [|done]. right. by apply has_digits_pow. }
  destruct (Z.eqb_spec base 2) as [->|_]; [specialize (Hpow 1 ltac:(lia)); by rewrite Z.add_0_r, Z.div_1_r in Hpow|].
  destruct (Z.eqb_spec base 4) as [->|_]; [exact (Hpow 2 ltac:(lia))|]. destruct (Z.eqb_spec base 8) as [->|_]; [exact (Hpow 3 ltac:(lia))|].
  destruct (Z.eqb_spec base 16) as [->|_]; [exact (Hpow 4 ltac:(lia))|]. destruct (Z.eqb_spec base 32) as [->|_]; [exact (Hpow 5 ltac:(lia))|].
  destruct (h_wf _ _ _ _ _ H) as [Hwf Hnn]. destruct (sizeinbase_divide (zmem s) (mp_d st) xs base Hwf Hnn Hxs Hnorm Hl ltac:(lia) ltac:(unfold B; lia)) as (d & m' & E & Hd & Ha).
  eapply wp_run; [unfold limbsZ, zoom; change GMP_LIMB_BITS with 64 in E; by rewrite E|]. rewrite Hval in Hd. split; [by right|]. by apply holds_temp.
Qed.
