(* ===== verification/MpzRoot.v ===== *)
(** * Roots

    mpz_rootrem, which finds a root by Newton's iteration, and the functions
    that use it. *)

From S2P Require Import Prelude Limbs Mpn Invert MpnDiv MpnDivN MpnStr MpnSetStr MpnGetStr Mpz MpzRep MpzArith MpzMul MpzDivision MpzProps MpzFrame MpzDivShort MpzLocals MpzGcd MpzBits MpzLogic MpzCount MpzScan MpzPow MpzSize.

(** ** Definitions *)

(** At most [2 ^ n] turns of a loop whose body says whether there is another;
    the answer is whether there is. *)
Fixpoint turns (n : nat) (body : M zst bool) : M zst bool :=
  match n with
  | O => body
  | S n' => b ← turns n' body; if (b : bool) then turns n' body else mret false
  end.

(** [do body while (...)] *)
Definition do_while (n : nat) (body : M zst bool) : M zst unit :=
  b ← turns n body; if (b : bool) then failM Undefined else mret tt.

Definition sqrt_step (u t y : positive) : M zst bool :=
  _ ← mpz_swap u t;
  _ ← mpz_tdiv_q t y u;
  _ ← mpz_add t t u;
  _ ← mpz_tdiv_q_2exp t t 1;
  c ← mpz_cmpabs t u;
  mret (c <? 0).

Definition root_step (u t v y : positive) (z : Z) : M zst bool :=
  _ ← mpz_swap u t;
  _ ← mpz_pow_ui t u (lsub z 1);
  _ ← mpz_tdiv_q t y t;
  _ ← mpz_mul_ui v u (lsub z 1);
  _ ← mpz_add t t v;
  _ ← mpz_tdiv_q_ui t t z;
  c ← mpz_cmpabs t u;
  mret (c <? 0).

Definition mpz_rootrem (x r : option positive) (y : positive) (z : Z) : M zst unit :=
  ys ← size_of y;
  let sgn := ys <? 0 in
  if negb (Z.land (lnot z) (b2l sgn) =? 0) then gmp_die
  else if z =? 0 then gmp_die
  else
    c ← mpz_cmpabs_ui y 1;
    if c <=? 0 then
      _ ← if_ptr x (λ x, mpz_set x y);
      if_ptr r (λ r, set_size r 0)
    else
      with_local (λ u, with_local (λ t,
        _ ← mpz_init u;
        _ ← mpz_init t;
        n ← mpz_sizeinbase y 2;
        _ ← mpz_setbit t (n / z + 1);
        let fuel := Z.to_nat (n / z + 2) in
        _ ← (if z =? 2 then do_while fuel (sqrt_step u t y)
             else
               with_local (λ v,
                 _ ← mpz_init v;
                 _ ← whenM sgn (mpz_neg t t);
                 _ ← do_while fuel (root_step u t v y z);
                 mpz_clear v));
        _ ← if_ptr r (λ r, _ ← mpz_pow_ui t u z; mpz_sub r y t);
        _ ← if_ptr x (λ x, mpz_swap x u);
        _ ← mpz_clear u;
        mpz_clear t)).

Definition mpz_root (x : option positive) (y : positive) (z : Z) : M zst bool :=
  with_local (λ r,
    _ ← mpz_init r;
    _ ← mpz_rootrem x (Some r) y z;
    rs ← size_of r;
    let res := rs =? 0 in
    _ ← mpz_clear r;
    mret res).

Definition mpz_sqrtrem (s : positive) (r : option positive) (u : positive) : M zst unit := mpz_rootrem (Some s) r u 2.
Definition mpz_sqrt (s u : positive) : M zst unit := mpz_rootrem (Some s) None u 2.

Definition mpz_perfect_square_p (u : positive) : M zst bool :=
  us ← size_of u;
  if us <=? 0 then mret (us =? 0) else mpz_root None u 2.

(** ** Newton's iteration *)

(** The inequality of the arithmetic and geometric means, for [n] times [u] and once [k]. *)
Lemma am_gm (n : nat) k u : 0 ≤ k → 0 ≤ u → Z.of_nat (S n) * k * u ^ Z.of_nat n ≤ k ^ Z.of_nat (S n) + Z.of_nat n * u ^ Z.of_nat (S n).
Proof.
  intros Hk Hu. induction n as [|n IH]; [simpl; lia|]. rewrite !Nat2Z.inj_succ in *. set (m := Z.of_nat n) in *. rewrite !Z.pow_succ_r in * by lia.
  assert (0 ≤ u ^ m) as Hp by (apply Z.pow_nonneg; lia). assert (0 ≤ (m + 1) * u ^ m * ((k - u) * (k - u))) as Hs by (assert (0 ≤ (k - u) * (k - u)) by apply Z.square_nonneg; apply Z.mul_nonneg_nonneg; nia).
  assert (k * (Z.succ m * k * u ^ m) ≤ k * (k * k ^ m + m * (u * u ^ m))) as Hk' by (apply Z.mul_le_mono_nonneg_l; lia). lia.
Qed.

(** The integer root. *)
Definition is_root (z y k : Z) : Prop := 0 ≤ k ∧ k ^ z ≤ y < (k + 1) ^ z.

Definition newton (z y u : Z) : Z := (y / u ^ (z - 1) + u * (z - 1)) / z.

Lemma newton_above z y k u : 0 < z → 0 < u → is_root z y k → k ≤ newton z y u.
Proof.
  intros Hz Hu (Hk & Hlo & _). unfold newton. apply Z.div_le_lower_bound; [done|]. assert (0 < u ^ (z - 1)) as Hp by (apply Z.pow_pos_nonneg; lia).
  cut (z * k - u * (z - 1) ≤ y / u ^ (z - 1)); [lia|]. apply Z.div_le_lower_bound; [done|]. etransitivity; [|exact Hlo].
  pose proof (am_gm (Z.to_nat (z - 1)) k u Hk ltac:(lia)) as H. rewrite !Nat2Z.inj_succ, !Z2Nat.id in H by lia. replace (Z.succ (z - 1)) with z in H by lia.
  assert (u ^ z = u * u ^ (z - 1)) as E by (rewrite <- Z.pow_succ_r by lia; f_equal; lia). rewrite E in H. lia.
Qed.

Lemma newton_below z y u : 0 < z → 0 < u → y < u ^ z → newton z y u < u.
Proof.
  intros Hz Hu Hy. unfold newton. apply Z.div_lt_upper_bound; [done|]. assert (0 < u ^ (z - 1)) as Hp by (apply Z.pow_pos_nonneg; lia).
  assert (u ^ z = u * u ^ (z - 1)) as E by (rewrite <- Z.pow_succ_r by lia; f_equal; lia). assert (y / u ^ (z - 1) < u) by (apply Z.div_lt_upper_bound; lia). lia.
Qed.

(** When the iteration stops, it is at the root. *)
Lemma newton_stops z y k u : 0 < z → is_root z y k → k ≤ u → 0 < u → u ≤ newton z y u → u = k.
Proof.
  intros Hz (Hk & Hlo & Hhi) Hku Hu Hn. destruct (Z.le_gt_cases (u ^ z) y) as [Hy|Hy]; [|pose proof (newton_below z y u Hz Hu Hy); lia].
  destruct (Z.eq_dec u k) as [|Hne]; [done|]. exfalso. assert ((k + 1) ^ z ≤ u ^ z) by (apply Z.pow_le_mono_l; lia). lia.
Qed.

(** ** The loops *)

Section turns.
Context (body : M zst bool) (I : Z → zst → Prop) (Q : zst → Prop).
Hypothesis (Hbody : ∀ a s, 0 ≤ a → I a s → wp never body (λ b s', if (b : bool) then ∃ a', 0 ≤ a' < a ∧ I a' s' else Q s') s).

Lemma turns_spec n a s : 0 ≤ a → I a s → wp never (turns n body) (λ b s', if (b : bool) then ∃ a', 0 ≤ a' ∧ a' + 2 ^ Z.of_nat n ≤ a ∧ I a' s' else Q s') s.
Proof.
  revert a s. induction n as [|n IH]; intros a s Ha H; cbn [turns].
  - eapply wp_mono; [by apply (Hbody a)|]. intros [] s'; [|done]. intros (a' & Ha' & H'). exists a'. split; [lia|]. split; [simpl; lia|done].
  - apply wp_bind. eapply wp_mono; [by apply (IH a)|]. intros [] s1; [|intros H1; by eapply wp_run]. intros (a1 & Ha1 & Hle & H1).
    eapply wp_mono; [by apply (IH a1)|]. intros [] s2; [|done]. intros (a2 & Ha2 & Hle2 & H2). exists a2. split; [done|]. split; [|done]. rewrite Nat2Z.inj_succ, Z.pow_succ_r by lia. lia.
Qed.

Lemma do_while_spec n a s : 0 ≤ a < 2 ^ Z.of_nat n → I a s → wp never (do_while n body) (λ _ s', Q s') s.
Proof.
  intros Ha H. apply wp_bind. eapply wp_mono; [apply (turns_spec n a s ltac:(lia) H)|]. intros [] s'; [intros (a' & Ha' & Hle & _); lia|]. intros HQ. by eapply wp_run.
Qed.
End turns.

Lemma cmp_neg a b : (cmp_sign (Z.abs a) (Z.abs b) <? 0) = (Z.abs a <? Z.abs b).
Proof. destruct (cmp_sign_spec (Z.abs a) (Z.abs b)) as [[-> ?]|[[-> ?]|[-> ?]]], (Z.ltb_spec (Z.abs a) (Z.abs b)); (done || lia). Qed.

Lemma zlimbs_add a b : zlimbs (a + b) ≤ Z.max (zlimbs a) (zlimbs b) + 1.
Proof.
  pose proof (zlimbs_nonneg a). pose proof (zlimbs_nonneg b). pose proof (abs_lt a). pose proof (abs_lt b). set (m := Z.max (zlimbs a) (zlimbs b)).
  pose proof (Z.pow_le_mono_r B (zlimbs a) m ltac:(done) ltac:(lia)). pose proof (Z.pow_le_mono_r B (zlimbs b) m ltac:(done) ltac:(lia)).
  apply zlimbs_below; [lia|]. rewrite Z.pow_add_r, Z.pow_1_r by lia. unfold B at 2. lia.
Qed.

Section newton.
Context {F : gmap Z (option Z)} {FB : gmap Z Z} {D : positive → Prop}.
Context (N : vars) (y : positive) (Y k z U : Z).
Hypotheses (HY : 1 < Y) (Hz : 0 < z < B) (Hk : is_root z Y k) (HlY : zlimbs Y + 2 ≤ alloc_limit).
Hypotheses (HU : k ≤ U) (HlU : zlimbs U + 2 ≤ alloc_limit).

Lemma root_pos : 0 < k.
Proof. destruct Hk as (H0 & _ & Hhi). destruct (Z.eq_dec k 0) as [->|]; [|lia]. rewrite Z.add_0_l, Z.pow_1_l in Hhi; lia. Qed.

(** What a turn at [a] leaves: a smaller number, or the root. *)
Lemma newton_turn a : k ≤ a → newton z Y a < a ∧ k ≤ newton z Y a ∨ a ≤ newton z Y a ∧ a = k.
Proof.
  intros Ha. pose proof root_pos. pose proof (newton_above z Y k a ltac:(lia) ltac:(lia) Hk). destruct (Z.lt_ge_cases (newton z Y a) a); [left; lia|right].
  split; [done|]. apply (newton_stops z Y k a); (done || lia).
Qed.

Section sqrt.
Context (u t : positive) (Hl : locals [t; u] N) (Hy : N !! y = Some (Some Y)) (Hz2 : z = 2).

Definition at_sqrt (a : Z) (s : zst) : Prop := k ≤ a ≤ U ∧ ∃ o, holds F FB D (binds [t; u] [Some a; o] N) s.

Lemma sqrt_step_spec a s :
  0 ≤ a → at_sqrt a s → wp never (sqrt_step u t y) (λ b s', if (b : bool) then ∃ a', 0 ≤ a' < a ∧ at_sqrt a' s' else ∃ o, holds F FB D (binds [t; u] [o; Some k] N) s') s.
Proof.
  intros _ (Ha & o & H). pose proof root_pos. unfold sqrt_step. eapply (wp_swap_locals 1%nat 0%nat); [exact H|done|reflexivity|reflexivity|reflexivity|reflexivity|done|]. intros s1 H1. cbn [insert list_insert] in H1.
  pose proof (zlimbs_mono a U ltac:(lia)).
  unfold mpz_tdiv_q. rewrite wp_bind_assoc. apply wp_bind.
  eapply wp_mono; [eapply (mpz_div_qr_spec F FB D _ _ (Some t) None y u Y a GMP_DIV_TRUNC H1); [cbn [opt_in]; look|done|done|look|look|lia|lia]|].
  intros c w [_ Hw]. cbn [opt_set div_round fst] in Hw. at_place 0%nat Hw. eapply wp_then; [done|]. rewrite Z.quot_div_nonneg in Hw by lia.
  pose proof (zlimbs_mono (Y / a) Y ltac:(pose proof (Z.div_pos Y a ltac:(lia) ltac:(lia)); pose proof (Z.div_le_upper_bound Y a Y ltac:(lia) ltac:(nia)); lia)).
  into 0%nat (mpz_add_spec _ w t); [lia..|]. pose proof (zlimbs_add (Y / a) a). unfold mpz_tdiv_q_2exp. into 0%nat (mpz_div_q_2exp_spec F FB D _ _ t t); [lia..|].
  assert (newton z Y a = Z.quot (Y / a + a) (2 ^ 1)) as En. { unfold newton. rewrite Hz2. change (2 - 1) with 1. rewrite Z.pow_1_r, Z.mul_1_r, Z.quot_div_nonneg; [done|pose proof (Z.div_pos Y a ltac:(lia) ltac:(lia)); lia|lia]. }
  cbn [div_round fst] in *. rewrite <- En in *. eapply wp_reads; [eapply (mpz_cmpabs_spec _ _ ltac:(eassumption)); look|]. eapply wp_run; [done|].
  destruct (newton_turn a ltac:(lia)) as [[Hlt Hge]|[Hge ->]]; rewrite (cmp_neg (newton z Y _)), !Z.abs_eq by lia.
  - rewrite (proj2 (Z.ltb_lt _ _)) by done. exists (newton z Y a). split; [lia|]. split; [lia|]. by eexists.
  - rewrite (proj2 (Z.ltb_ge _ _)) by done. by eexists.
Qed.
End sqrt.

Section root.
Context (u t v : positive) (e : Z) (Hl : locals [v; t; u] N) (Hy : N !! y = Some (Some (e * Y))).
Hypotheses (He : e = 1 ∨ e = -1 ∧ Z.odd z = true) (HUz : zlimbs (U ^ (z - 1)) + 2 ≤ alloc_limit).

Definition at_root (a : Z) (s : zst) : Prop := k ≤ a ≤ U ∧ ∃ o w, holds F FB D (binds [v; t; u] [w; Some (e * a); o] N) s.

(** The sign goes through the operations. *)
Lemma sign_pow a : (e * a) ^ (z - 1) = a ^ (z - 1).
Proof.
  destruct He as [->|[-> Ho]]; [by rewrite Z.mul_1_l|]. apply Z.odd_spec in Ho as [m Em]. replace (z - 1) with (2 * m) by lia. rewrite !Z.pow_mul_r by lia. f_equal. lia.
Qed.

Lemma sign_quot a b : 0 ≤ a → 0 < b → Z.quot (e * a) b = e * (a / b).
Proof. intros Ha Hb. destruct He as [->|[-> _]]; [by rewrite !Z.mul_1_l, Z.quot_div_nonneg by lia|]. replace (-1 * a) with (- a) by lia. rewrite Z.quot_opp_l, Z.quot_div_nonneg by lia. lia. Qed.

Lemma sign_abs a : Z.abs (e * a) = Z.abs a.
Proof. rewrite Z.abs_mul. destruct He as [->|[-> _]]; lia. Qed.

Lemma sign_limbs a : zlimbs (e * a) = zlimbs a.
Proof. by rewrite <- zlimbs_abs, sign_abs, zlimbs_abs. Qed.

Lemma root_step_spec a s :
  0 ≤ a → at_root a s → wp never (root_step u t v y z) (λ b s', if (b : bool) then ∃ a', 0 ≤ a' < a ∧ at_root a' s' else ∃ o w, holds F FB D (binds [v; t; u] [w; o; Some (e * k)] N) s') s.
Proof.
  intros _ (Ha & o & w0 & H). pose proof root_pos. unfold root_step. eapply (wp_swap_locals 2%nat 1%nat); [exact H|done|reflexivity|reflexivity|reflexivity|reflexivity|done|]. intros s1 H1. cbn [insert list_insert] in H1.
  assert (lsub z 1 = z - 1) as -> by (unfold lsub; apply u64_small; change SIZE_MOD with B; lia). assert (0 < a ^ (z - 1)) as Hp by (apply Z.pow_pos_nonneg; lia).
  pose proof (zlimbs_mono a U ltac:(lia)). assert (a ^ (z - 1) ≤ U ^ (z - 1)) as Hpow by (apply Z.pow_le_mono_l; lia). pose proof (zlimbs_mono (a ^ (z - 1)) (U ^ (z - 1)) ltac:(lia)).
  into 1%nat (mpz_pow_ui_spec F FB D _ s1 t u (e * a) (z - 1)); [unfold limb; lia|by rewrite sign_pow; lia|]. rewrite sign_pow in *. unfold mpz_tdiv_q. rewrite wp_bind_assoc. apply wp_bind.
  eapply wp_mono; [eapply (mpz_div_qr_spec F FB D _ _ (Some t) None y t (e * Y) (a ^ (z - 1)) GMP_DIV_TRUNC ltac:(eassumption)); [cbn [opt_in]; look|done|done|look|look|lia|rewrite sign_limbs; lia]|].
  intros c w [_ Hw]. cbn [opt_set div_round fst] in Hw. at_place 1%nat Hw. eapply wp_then; [done|]. rewrite sign_quot in Hw by lia. set (Q := Y / a ^ (z - 1)) in *.
  pose proof (zlimbs_mono Q Y ltac:(unfold Q; pose proof (Z.div_pos Y (a ^ (z - 1)) ltac:(lia) ltac:(lia)); pose proof (Z.div_le_upper_bound Y (a ^ (z - 1)) Y ltac:(lia) ltac:(nia)); lia)).
  pose proof (zlimbs_mul a (z - 1)). pose proof (zlimbs_limb (z - 1) ltac:(unfold limb; lia)).
  into 0%nat (mpz_mul_ui_spec _ w v u (e * a) (z - 1)); [unfold limb; lia|rewrite sign_limbs; lia|]. rewrite <- Z.mul_assoc in *. into 1%nat (mpz_add_spec _ _ t); [rewrite !sign_limbs; lia|]. rewrite <- Z.mul_add_distr_l in *.
  unfold mpz_tdiv_q_ui. apply wp_bind. eapply wp_mono; [eapply (mpz_div_qr_ui_spec _ _ (Some t) None t (e * (Q + a * (z - 1))) z GMP_DIV_TRUNC ltac:(eassumption)); [cbn [opt_in]; look|done|done|look|lia]|].
  intros r w2 [_ Hw2]. cbn [opt_set div_round fst] in Hw2. at_place 1%nat Hw2. assert (0 ≤ Q) by (apply Z.div_pos; lia). rewrite sign_quot in Hw2 by nia. change ((Q + a * (z - 1)) / z) with (newton z Y a) in *. clearbody Q.
  eapply wp_reads; [eapply (mpz_cmpabs_spec _ _ ltac:(eassumption)); look|]. eapply wp_run; [done|].
  destruct (newton_turn a ltac:(lia)) as [[Hlt Hge]|[Hge ->]]; rewrite cmp_neg, !sign_abs, !Z.abs_eq by lia.
  - rewrite (proj2 (Z.ltb_lt _ _)) by done. exists (newton z Y a). split; [lia|]. split; [lia|]. by eexists _, _.
  - rewrite (proj2 (Z.ltb_ge _ _)) by done. by eexists _, _.
Qed.
End root.
End newton.

(** ** The function *)

Lemma root_exists z y : 0 < z → 0 ≤ y → ∃ k, is_root z y k.
Proof.
  intros Hz. revert y. apply natlike_ind.
  - exists 0. split; [done|]. rewrite Z.pow_0_l, Z.pow_1_l by lia. lia.
  - intros y Hy (k & Hk & Hlo & Hhi). assert ((k + 1) ^ z < (k + 1 + 1) ^ z) by (apply Z.pow_lt_mono_l; lia). destruct (Z.le_gt_cases ((k + 1) ^ z) (Z.succ y)).
    + exists (k + 1). split; [lia|lia].
    + exists k. split; [done|lia].
Qed.

(** The root with the sign of the number. *)
Definition root_of (z y k : Z) : Prop := is_root z (Z.abs y) (Z.abs k) ∧ 0 ≤ y * k.

Lemma root_of_exists z y : 0 < z → ∃ k, root_of z y k.
Proof.
  intros Hz. destruct (root_exists z (Z.abs y) Hz ltac:(lia)) as (k & Hk). pose proof (proj1 Hk). exists (Z.sgn y * k). destruct (Z.eq_dec y 0) as [->|Hy].
  - split; [|lia]. assert (k = 0) as ->; [|done]. destruct Hk as (_ & Hlo & _). change (Z.abs 0) with 0 in Hlo. destruct (Z.eq_dec k 0); [done|]. pose proof (Z.pow_pos_nonneg k z ltac:(lia) ltac:(lia)). lia.
  - split; [|destruct (Z.sgn_spec y) as [[? ->]|[[? ->]|[? ->]]]; lia]. replace (Z.abs (Z.sgn y * k)) with k; [done|]. rewrite Z.abs_mul. destruct (Z.sgn_spec y) as [[? ->]|[[? ->]|[? ->]]]; lia.
Qed.

Lemma root_unique z y k1 k2 : 0 < z → is_root z y k1 → is_root z y k2 → k1 = k2.
Proof.
  intros Hz (H1 & Hlo1 & Hhi1) (H2 & Hlo2 & Hhi2). destruct (Z.lt_trichotomy k1 k2) as [Hlt|[?|Hlt]]; [|done|]; exfalso.
  - assert ((k1 + 1) ^ z ≤ k2 ^ z) by (apply Z.pow_le_mono_l; lia). lia.
  - assert ((k2 + 1) ^ z ≤ k1 ^ z) by (apply Z.pow_le_mono_l; lia). lia.
Qed.

(** Numbers of absolute value at most 1 are their own roots. *)
Lemma root_trivial z y k : 0 < z → (y < 0 → Z.odd z = true) → Z.abs y ≤ 1 → root_of z y k → k = y ∧ y - k ^ z = 0.
Proof.
  intros Hz Ho Hy [Hr Hs]. assert (Z.abs k = Z.abs y) as Ek. { apply (root_unique z (Z.abs y)); [done|done|]. assert (Z.abs y = 0 ∨ Z.abs y = 1) as [->| ->] by lia; (split; [lia|]).
    - change (0 + 1) with 1. rewrite Z.pow_0_l, Z.pow_1_l by lia. lia.
    - pose proof (Z.pow_gt_1 2 z ltac:(lia)). change (1 + 1) with 2. rewrite Z.pow_1_l by lia. lia. }
  assert (k = y) as -> by nia. split; [done|]. assert (y = 0 ∨ y = 1 ∨ y = -1) as [->|[->| ->]] by lia; rewrite ?Z.pow_0_l, ?Z.pow_1_l by lia; try lia.
  specialize (Ho ltac:(lia)). apply Z.odd_spec in Ho as [m ->]. rewrite Z.pow_add_r, Z.pow_mul_r, Z.pow_1_r by lia. change ((-1) ^ 2) with 1. rewrite Z.pow_1_l by lia. lia.
Qed.

(** The number the iteration starts from, and its size. *)
Section first_guess.
Context (z Y k n : Z).
Hypotheses (Hz : 0 < z) (Hn : has_digits 2 Y n) (Hk : is_root z Y k).
Local Abbreviation U := (2 ^ (n / z + 1)).

Lemma first_guess : 0 ≤ n / z ∧ k ≤ U ∧ 0 ≤ U < 2 ^ Z.of_nat (Z.to_nat (n / z + 2)).
Proof.
  destruct Hn as (Hn0 & _ & Hhi). destruct Hk as (Hk0 & Hlo & _). pose proof (Z.div_pos n z ltac:(lia) Hz). pose proof (Z.pow_pos_nonneg 2 (n / z + 1) ltac:(lia) ltac:(lia)). split; [done|]. split.
  - destruct (Z.le_gt_cases k U) as [|Hgt]; [done|]. exfalso. assert (U ^ z ≤ k ^ z) as Hp by (apply Z.pow_le_mono_l; lia). rewrite <- Z.pow_mul_r in Hp by lia.
    assert (2 ^ n ≤ 2 ^ ((n / z + 1) * z)); [|lia]. apply Z.pow_le_mono_r; [lia|]. pose proof (Z.div_mod n z ltac:(lia)). pose proof (Z.mod_pos_bound n z Hz). lia.
  - split; [lia|]. rewrite Z2Nat.id by lia. apply Z.pow_lt_mono_r; lia.
Qed.

Lemma digits_limbs : n ≤ 64 * zlimbs Y.
Proof.
  destruct Hn as (Hn0 & Hlo & _). pose proof (abs_lt Y) as Hy. rewrite B_pow in Hy by apply zlimbs_nonneg. assert (2 ^ (n - 1) < 2 ^ (64 * zlimbs Y)) as Hlt by lia.
  apply Z.pow_lt_mono_r_iff in Hlt; [lia|lia|pose proof (zlimbs_nonneg Y); lia].
Qed.

Lemma first_guess_limbs : zlimbs U ≤ zlimbs Y + 1 ∧ zlimbs (U ^ (z - 1)) ≤ zlimbs Y + z / 64 + 2 ∧ (n / z + 1) / 64 ≤ zlimbs Y.
Proof.
  destruct first_guess as (Hd & _ & _). pose proof digits_limbs. pose proof (zlimbs_nonneg Y). pose proof (Z.div_le_upper_bound n z n Hz ltac:(destruct Hn; nia)). pose proof (Z.div_pos z 64 ltac:(lia) ltac:(lia)). pose proof (Z.div_mod z 64 ltac:(lia)). pose proof (Z.mod_pos_bound z 64 ltac:(lia)).
  split_and!.
  - apply zlimbs_below; [lia|]. rewrite B_pow, Z.abs_eq by lia. apply Z.pow_lt_mono_r; lia.
  - apply zlimbs_below; [lia|]. rewrite B_pow, Z.abs_eq by (try apply Z.pow_nonneg; lia). rewrite <- Z.pow_mul_r by lia. apply Z.pow_lt_mono_r; [lia|lia|]. pose proof (Z.mul_div_le n z Hz). nia.
  - apply Z.lt_succ_r, Z.div_lt_upper_bound; lia.
Qed.
End first_guess.

Section rootrem.
Context {F : gmap Z (option Z)} {FB : gmap Z Z}.
Context (N : vars) (y : positive) (e Y k z n : Z).
Hypotheses (Hy : N !! y = Some (Some (e * Y))) (HY : 1 < Y) (Hz : 0 < z < B) (He : e = 1 ∨ e = -1 ∧ Z.odd z = true).
Hypotheses (Hk : is_root z Y k) (Hn : has_digits 2 Y n) (Hlim : zlimbs Y + z / 64 + 4 ≤ alloc_limit).
Local Abbreviation U := (2 ^ (n / z + 1)).

(** Both loops leave the root in [u]. *)
Lemma root_loop_spec (D : positive → Prop) u t s :
  holds F FB D (binds [t; u] [Some U; Some 0] N) s → locals [t; u] N →
  wp never (let fuel := Z.to_nat (n / z + 2) in
            if z =? 2 then do_while fuel (sqrt_step u t y)
            else with_local (λ v, _ ← mpz_init v; _ ← whenM (e * Y <? 0) (mpz_neg t t); _ ← do_while fuel (root_step u t v y z); mpz_clear v))
    (λ _ s', ∃ o, holds F FB D (binds [t; u] [o; Some (e * k)] N) s') s.
Proof.
  intros H Hl. destruct (first_guess z Y k n ltac:(lia) Hn Hk) as (Hd & HkU & HU). destruct (first_guess_limbs z Y k n ltac:(lia) Hn Hk) as (HlU & HlUz & _). pose proof (Z.div_pos z 64 ltac:(lia) ltac:(lia)). cbv zeta.
  destruct (Z.eqb_spec z 2) as [E2|E2].
  - assert (e = 1) as E1 by (destruct He as [|[_ Ho]]; [done|subst z; done]). rewrite E1, Z.mul_1_l in *.
    apply (do_while_spec _ (at_sqrt (F:=F) (FB:=FB) (D:=D) N k U u t) (λ s', ∃ o, holds F FB D (binds [t; u] [o; Some k] N) s')) with (a := U); [|lia|].
    + intros a s1 Ha H1. apply (sqrt_step_spec N y Y k z U); (done || lia).
    + split; [lia|]. by eexists.
  - set (M := binds [t; u] [Some U; Some 0] N) in *. eapply wp_mono; [apply (wp_declare F FB D _ (λ _ N', ∃ o, N' = binds [t; u] [o; Some (e * k)] N) M s H)|].
    + intros [] N' x (o & ->) Hx. unfold M in *. cbn [binds] in *. rewrite !lookup_insert_None in *. tauto.
    + intros v s1 D1 H1 HDv Hv _ _. unfold M in H1, Hv. cbn [binds] in Hv. rewrite !lookup_insert_None in Hv. destruct Hv as ((Hv & Hvu) & Hvt).
      eapply wp_init_local; [exact H1|exact Hl|done|by rewrite !not_elem_of_cons, elem_of_nil; split_and!; [congruence|congruence|tauto]|done|]. intros s2 H2 Hl2.
      apply wp_bind. eapply (wp_mono _ _ (λ _ s', holds F FB D1 (binds [v; t; u] [Some 0; Some (e * U); Some 0] N) s')).
      { destruct He as [->|[-> _]].
        - rewrite !Z.mul_1_l, (proj2 (Z.ltb_ge Y 0)) by lia. by eapply wp_run.
        - rewrite (proj2 (Z.ltb_lt (-1 * Y) 0)) by lia. cbn [whenM]. apply wp_bind_ret. into 1%nat (mpz_neg_spec _ s2 t). eapply wp_run; [done|]. by replace (-1 * U) with (- U) by lia. }
      intros [] s3 H3. apply wp_bind. eapply wp_mono; [apply (do_while_spec _ (at_root (F:=F) (FB:=FB) (D:=D1) N k U u t v e) (λ s', ∃ o w, holds F FB D1 (binds [v; t; u] [w; o; Some (e * k)] N) s')) with (a := U); [|lia|]|].
      * intros a s4 Ha H4. apply (root_step_spec N y Y k z U); (done || lia).
      * split; [lia|]. by eexists _, _.
      * intros [] s4 (o & w & H4). apply wp_bind_ret. clear Hl. clear_local 0%nat. eapply wp_run; [done|]. eexists. split; [by exists o|done].
    + intros [] s' (N' & (o & ->) & H'). by exists o.
Qed.
End rootrem.

(** The test for an even root of a negative number. *)
Lemma even_root z (sgn : bool) : negb (Z.land (lnot z) (b2l sgn) =? 0) = sgn && Z.even z.
Proof.
  destruct sgn; cbn [b2l andb]; [|by rewrite Z.land_0_r]. rewrite land_1, negb_involutive. unfold lnot. change (B - 1) with (1 + 2 * (2 ^ 63 - 1)). rewrite Z.odd_sub, Z.odd_add_mul_2. change (Z.odd 1) with true. by rewrite <- Z.negb_odd.
Qed.

Section function.
Context {F : gmap Z (option Z)} {FB : gmap Z Z} {D : positive → Prop}.
Local Abbreviation holds := (holds F FB D).
Context (N : vars) (s : zst) (x r : option positive) (y : positive) (z Y k : Z).
Hypotheses (H : holds N s) (Hx : opt_in x N) (Hr : opt_in r N) (Hxr : x = r → x = None) (Hy : N !! y = Some (Some Y)).

(** An even root of a negative number, and a root of order 0, end the program. *)
Lemma mpz_rootrem_error : (Y < 0 ∧ Z.even z = true) ∨ z = 0 → mpz_rootrem x r y z s = Failed Assertion.
Proof.
  intros Hc. unfold mpz_rootrem. rewrite (bind_done _ _ _ _ _ (size_of_ok N s y Y H Hy)). cbv zeta. rewrite even_root, size_neg. destruct ((Y <? 0) && Z.even z) eqn:Ec; [done|].
  destruct Hc as [[Hlt He]| ->]; [|done]. apply Z.ltb_lt in Hlt. by rewrite Hlt, He in Ec.
Qed.

Hypotheses (Hz : 0 < z < B) (Ho : Y < 0 → Z.odd z = true) (Hk : root_of z Y k) (Hlim : zlimbs Y + z / 64 + 4 ≤ alloc_limit).

(** The variables of the caller at the end. *)
Definition root_vars : vars := opt_set x k (opt_set r (Y - k ^ z) N).

Lemma root_vars_none v : N !! v = None → root_vars !! v = None.
Proof. intros Hv. unfold root_vars. apply opt_set_none; [by apply opt_in_set|]. by apply opt_set_none. Qed.

Lemma root_power_limbs : zlimbs (k ^ z) ≤ zlimbs Y.
Proof. apply zlimbs_mono. rewrite Z.abs_pow. destruct Hk as [(_ & Hlo & _) _]. lia. Qed.

(** The results, from the root in [u] on. *)
Lemma root_results (D' : positive → Prop) u t o s' :
  MpzRep.holds F FB D' (binds [t; u] [Some o; Some k] N) s' ∨ MpzRep.holds F FB D' (binds [t; u] [None; Some k] N) s' → locals [t; u] N →
  wp never (_ ← if_ptr r (λ r, _ ← mpz_pow_ui t u z; mpz_sub r y t); _ ← if_ptr x (λ x, mpz_swap x u); _ ← mpz_clear u; mpz_clear t)
    (λ _ s'', MpzRep.holds F FB D' root_vars s'') s'.
Proof.
  intros H' Hl. assert (∃ o', MpzRep.holds F FB D' (binds [t; u] [o'; Some k] N) s') as (o' & H1) by (destruct H'; eauto). clear H' o. pose proof root_power_limbs. pose proof (Z.div_pos z 64 ltac:(lia) ltac:(lia)).
  apply wp_bind. eapply (wp_mono _ _ (λ _ s'', ∃ o, MpzRep.holds F FB D' (binds [t; u] [o; Some k] (opt_set r (Y - k ^ z) N)) s'' ∧ locals [t; u] (opt_set r (Y - k ^ z) N))).
  { destruct r as [p|]; cbn [if_ptr opt_set opt_in] in *; [|eapply wp_run; [done|]; eauto]. into 0%nat (mpz_pow_ui_spec F FB D' _ s' t u k z); [unfold limb; lia|lia|].
    apply wp_bind_ret. into_var (mpz_sub_spec _ s0 p); [lia..|]. eapply wp_run; [done|]. eauto. }
  intros [] s1 (o & Hs1 & Hl1). clear H1 Hl. unfold root_vars. set (N1 := opt_set r (Y - k ^ z) N) in *. assert (opt_in x N1) as Hx1 by (by apply opt_in_set).
  apply wp_bind. eapply (wp_mono _ _ (λ _ s'', ∃ o o1, MpzRep.holds F FB D' (binds [t; u] [o; o1] (opt_set x k N1)) s'' ∧ locals [t; u] (opt_set x k N1))).
  { destruct x as [p|]; cbn [if_ptr opt_set opt_in] in *; [|eapply wp_run; [done|]; eauto]. destruct Hx1 as [op Hp]. apply wp_bind_ret. eapply (wp_swap_result 1%nat); [exact Hs1|done|reflexivity|reflexivity|exact Hp|].
    intros s2 Hs2 Hl2. cbn [insert list_insert] in Hs2. eapply wp_run; [done|]. eauto. }
  intros [] s2 (o2 & o3 & Hs2 & Hl2). clear Hs1 Hl1. clear_local 1%nat. apply wp_bind_ret. clear Hs2 Hl2. clear_local 0%nat. by eapply wp_run.
Qed.

Lemma mpz_rootrem_spec : wp never (mpz_rootrem x r y z) (λ _ s', holds root_vars s') s.
Proof.
  unfold mpz_rootrem. eapply wp_size; [exact (holds_sizes _ _ H)|done|]. cbv zeta. rewrite even_root, size_neg. replace ((Y <? 0) && Z.even z) with false.
  2: { symmetry. apply andb_false_iff. destruct (Z.ltb_spec Y 0); [right|by left]. rewrite <- Z.negb_odd, Ho by done. done. }
  rewrite (proj2 (Z.eqb_neq z 0)) by lia. eapply wp_reads; [by apply (mpz_cmpabs_ui_spec N s H)|]. destruct (Z.leb_spec (cmp_sign (Z.abs Y) 1) 0) as [Hc|Hc].
  { assert (Z.abs Y ≤ 1) as H1 by (destruct (cmp_sign_spec (Z.abs Y) 1) as [[E ?]|[[E ?]|[E ?]]]; lia). destruct (root_trivial z Y k ltac:(lia) Ho H1 Hk) as [Eky Er]. unfold root_vars. rewrite Er, Eky.
    apply wp_bind. eapply wp_mono; [apply (wp_if_ptr N s x _ Y H); intros p ->; by apply (mpz_set_spec N s p y)|]. intros [] s1 Hs1.
    eapply wp_mono; [apply (wp_if_ptr _ s1 r _ 0 Hs1); intros p ->; apply (set_size_zero _ _ _ Hs1), (opt_in_set (Some p)), Hr|]. intros [] s2 Hs2.
    destruct x as [p|], r as [q|]; try done. cbn [opt_set] in *. rewrite insert_insert_ne; [done|]. intros ->. by specialize (Hxr eq_refl). }
  assert (1 < Z.abs Y) as HY1 by (destruct (cmp_sign_spec (Z.abs Y) 1) as [[E ?]|[[E ?]|[E ?]]]; lia). set (e := Z.sgn Y).
  assert (Y = e * Z.abs Y) as EY by (unfold e; destruct (Z.sgn_spec Y) as [[? ->]|[[? ->]|[? ->]]]; lia). assert (k = e * Z.abs k) as Ek by (destruct Hk as [(_ & _ & Hhi) Hs]; unfold e; destruct (Z.sgn_spec Y) as [[? ->]|[[? ->]|[? ->]]]; nia).
  eapply (wp_mono _ _ (λ _ s', True ∧ holds root_vars s')); [|intros [] s' [_ H']; exact H'].
  apply (wp_declare_to F FB D _ (λ _, True) N); [done|apply root_vars_none|]. intros u s1 D1 H1 HD1 HN1 _ _. apply (wp_declare_to F FB D1 _ (λ _, True) N); [done|apply root_vars_none|]. intros t s2 D2 H2 HD2 HN2 Hf2 Hs2.
  change N with (binds [] [] N) in H2. assert (locals [] N) as Hl0 by (split; constructor). eapply wp_init_local; [exact H2|done|done|apply not_elem_of_nil|auto|]. intros s3 H3 Hl3.
  eapply wp_init_local; [exact H3|done|done|apply (fresh_local _ _ _ Hf2); repeat constructor; auto|done|]. intros s4 H4 Hl4. clear Hl0 Hl3.
  apply wp_bind. eapply wp_mono; [eapply (mpz_sizeinbase_spec F FB D2 _ s4 y Y 2 H4); [look|lia]|]. intros n s5 [[[-> _]|Hn] H5]; [lia|]. pose proof Hlim as HlY. rewrite <- (zlimbs_abs Y) in HlY.
  destruct (first_guess_limbs z (Z.abs Y) (Z.abs k) n ltac:(lia) Hn (proj1 Hk)) as (HlU & HlUz & Hsb). destruct (first_guess z (Z.abs Y) (Z.abs k) n ltac:(lia) Hn (proj1 Hk)) as (Hd & _ & _). pose proof (Z.div_pos z 64 ltac:(lia) ltac:(lia)).
  into 0%nat (mpz_setbit_spec _ s5 t 0 (n / z + 1)); [lia..|]. rewrite setbit_0 in * by lia.
  assert (e = 1 ∨ e = -1 ∧ Z.odd z = true) as He. { unfold e. destruct (Z.sgn_spec Y) as [[? ->]|[[? ->]|[? ->]]]; [by left|lia|right; split; [done|apply Ho; lia]]. }
  clearbody e. replace (Y <? 0) with (e * Z.abs Y <? 0) by (by rewrite <- EY). apply wp_bind. eapply wp_mono; [apply (root_loop_spec (F:=F) (FB:=FB) N y e (Z.abs Y) (Z.abs k) z n) with (D:=D2); (assumption || by rewrite <- EY || by destruct Hk || lia)|].
  intros [] w (o & Hw). rewrite <- Ek in Hw. eapply wp_mono; [apply (root_results D2 u t (default 0 o)); [destruct o; auto|done]|]. by intros [] w' Hw'.
Qed.
End function.

(** ** The functions that use it *)

Lemma sqrt_root Y : 0 ≤ Y → root_of 2 Y (Z.sqrt Y).
Proof.
  intros HY. pose proof (Z.sqrt_spec Y HY). pose proof (Z.sqrt_nonneg Y). split; [|nia]. rewrite !Z.abs_eq by lia. split; [done|]. rewrite !Z.pow_2_r. unfold Z.succ in *. lia.
Qed.

Section callers.
Context {F : gmap Z (option Z)} {FB : gmap Z Z} {D : positive → Prop}.
Local Abbreviation holds := (holds F FB D).
Context (N : vars) (s : zst) (y : positive) (Y : Z).
Hypotheses (H : holds N s) (Hy : N !! y = Some (Some Y)).

(** The answer says whether the root is exact. *)
Lemma mpz_root_spec x z k :
  opt_in x N → 0 < z < B → (Y < 0 → Z.odd z = true) → root_of z Y k → zlimbs Y + z / 64 + 4 ≤ alloc_limit →
  wp never (mpz_root x y z) (λ b s', b = bool_decide (Y = k ^ z) ∧ holds (opt_set x k N) s') s.
Proof.
  intros Hx Hz Ho Hk Hlim. apply (wp_declare_to F FB D _ (λ b, b = bool_decide (Y = k ^ z)) N); [done|intros v Hv; by apply opt_set_none|]. intros r s1 D1 H1 HD1 HN1 _ _.
  apply wp_bind. eapply wp_mono; [apply (mpz_init_spec N s1 r H1 HN1); by apply (h_decl _ _ _ _ _ H1)|]. intros [] s2 H2.
  assert (x ≠ Some r) as Hxr by (intros ->; cbn [opt_in] in Hx; rewrite HN1 in Hx; by destruct Hx).
  assert (∀ v o, <[r := o]> (opt_set x v N) = opt_set x v (<[r := o]> N)) as Hcomm by (intros v o; destruct x as [p|]; cbn [opt_set]; [by rewrite insert_insert_ne by congruence|done]).
  apply wp_bind. eapply wp_mono; [apply (mpz_rootrem_spec (F:=F) (FB:=FB) (D:=D1) (<[r := Some 0]> N) s2 x (Some r) y z Y k H2)|]; try done.
  { by destruct x; [apply lookup_insert_is_Some'; right|]. }
  { cbn [opt_in]. by rewrite lookup_insert_eq. }
  { rewrite lookup_insert_ne; [done|congruence]. }
  intros [] s3 H3. unfold root_vars in H3. cbn [opt_set] in H3. rewrite insert_insert_eq, <- Hcomm in H3.
  eapply wp_size; [exact (holds_sizes _ _ H3)|by rewrite lookup_insert_eq|]. cbv zeta. apply wp_bind. eapply wp_mono; [apply (mpz_clear_spec _ s3 r H3); by rewrite lookup_insert_eq|].
  intros [] s4 (H4 & _). eapply wp_run; [done|]. rewrite delete_insert_id in H4 by (by apply opt_set_none). split; [|done].
  apply eq_true_iff_eq. rewrite Z.eqb_eq, zsize_0, bool_decide_eq_true. lia.
Qed.

(** The square root, and what is left. *)
Lemma mpz_sqrtrem_spec d r :
  is_Some (N !! d) → opt_in r N → r ≠ Some d → 0 ≤ Y → zlimbs Y + 4 ≤ alloc_limit →
  wp never (mpz_sqrtrem d r y) (λ _ s', holds (<[d := Some (Z.sqrt Y)]> (opt_set r (Y - Z.sqrt Y * Z.sqrt Y) N)) s') s.
Proof.
  intros Hd Hr Hne HY Hlim. rewrite <- (Z.pow_2_r (Z.sqrt Y)).
  apply (mpz_rootrem_spec (F:=F) (FB:=FB) (D:=D) N s (Some d) r y 2 Y (Z.sqrt Y) H); [exact Hd|exact Hr|congruence|exact Hy|done|lia|by apply sqrt_root|change (2 / 64) with 0; lia].
Qed.

Lemma mpz_sqrt_spec d : is_Some (N !! d) → 0 ≤ Y → zlimbs Y + 4 ≤ alloc_limit → wp never (mpz_sqrt d y) (λ _ s', holds (<[d := Some (Z.sqrt Y)]> N) s') s.
Proof. intros Hd HY Hlim. by apply mpz_sqrtrem_spec. Qed.

Lemma mpz_perfect_square_p_spec : zlimbs Y + 4 ≤ alloc_limit → wp never (mpz_perfect_square_p y) (λ b s', (b = true ↔ ∃ q, Y = q * q) ∧ holds N s') s.
Proof.
  intros Hlim. unfold mpz_perfect_square_p. eapply wp_size; [exact (holds_sizes _ _ H)|done|]. destruct (Z.leb_spec (zsize Y) 0) as [Hle|Hgt].
  - eapply wp_run; [done|]. split; [|done]. rewrite Z.eqb_eq, zsize_0. pose proof (zsize_sgn Y). split; [intros ->; by exists 0|intros [q ->]]. 
    pose proof (Z.square_nonneg q). assert (¬ 0 < q * q) as Hn; [|lia]. intros Hq. apply (Z.sgn_pos (q * q)) in Hq. pose proof (zsize_sgn (q * q)) as E. rewrite Hq in E. apply Z.sgn_pos_iff in E. lia.
  - assert (0 < Y) as HY by (pose proof (zsize_sgn Y); destruct (Z.sgn_spec Y), (Z.sgn_spec (zsize Y)); lia).
    eapply wp_mono; [apply (mpz_root_spec None 2 (Z.sqrt Y)); [done|done|lia|by apply sqrt_root, Z.lt_le_incl|change (2 / 64) with 0; lia]|]. intros b s' [-> H']. split; [|done].
    rewrite bool_decide_eq_true, Z.pow_2_r. split; [by exists (Z.sqrt Y)|]. intros [q ->]. rewrite <- (Z.abs_square q), Z.sqrt_square by lia. lia.
Qed.
End callers.
