(* ===== verification/MpzReader.v ===== *)
(** * Variables that a function only reads

    A function changes the struct of a variable only when it is given its
    address as a destination. [reader q k] says that [k] leaves the struct of
    [q] alone and does not look at its field [_mp_alloc]. Pointers into the
    block of such a variable stay valid while [k] runs, and an integer that
    borrows its limbs (mpz_roinit_n, [_mp_alloc] 0) can stand for [q]. *)

From S2P Require Import Prelude Limbs Mpn Invert MpnDiv MpnDivN Mpz MpzRep MpzFrame MpzDivShort MpzGcd MpzBits MpzGcdExt MpzPow MpzSize MpzRoot.

Definition out_map {S A} (f : S → S) (o : out S A) : out S A :=
  match o with Done a s => Done a (f s) | Exited c s => Exited c (f s) | Failed e => Failed e end.

(** The state with another [_mp_alloc] in the struct of [q]. *)
Definition with_alloc (n : Z) (st : mpz_struct) : mpz_struct := Mk_mpz n (mp_size st) (mp_d st).
Definition set_alloc (q : positive) (n : Z) (s : zst) : zst := Mk_zst (zmem s) (alter (fmap (with_alloc n)) q (zvars s)) (zlocal s).

Record reader {A} (q : positive) (k : M zst A) : Prop := Mk_reader {
  rd_keeps : ∀ s a s', (q < zlocal s)%positive → k s = Done a s' → zvars s' !! q = zvars s !! q ∧ (q < zlocal s')%positive;
  rd_alloc : ∀ n s, (q < zlocal s)%positive → k (set_alloc q n s) = out_map (set_alloc q n) (k s);
}.

Create HintDb reader.

Section rules.
Context (q : positive).
Local Abbreviation reader := (reader q).

Lemma zvars_set_alloc n s r : r ≠ q → zvars (set_alloc q n s) !! r = zvars s !! r.
Proof. intros Hne. simpl. by rewrite lookup_alter_ne. Qed.

Lemma reader_ret {A} (a : A) : reader (mret a).
Proof. split; [by intros s b s' ? [= _ <-]|done]. Qed.

Lemma reader_fail {A} e : reader (failM (A:=A) e).
Proof. by split. Qed.

Lemma reader_lift {A} (r : res A) : reader (lift r).
Proof. split; unfold lift; [intros s a s' Hq; destruct r; [by intros [= _ <-]|done]|by destruct r]. Qed.

Lemma reader_bind {A C} (k : M zst A) (f : A → M zst C) : reader k → (∀ a, reader (f a)) → reader (k ≫= f).
Proof.
  intros [Hk Ha] Hf. split; unfold mbind, M_bind.
  - intros s c s' Hq. destruct (k s) as [a s1| |] eqn:E; [|done..]. destruct (Hk _ _ _ Hq E) as [E1 Hq1]. intros E'. destruct (rd_keeps _ _ (Hf a) _ _ _ Hq1 E') as [E2 ?]. split; [congruence|done].
  - intros n s Hq. rewrite Ha by done. destruct (k s) as [a s1| |] eqn:E; [|done..]. apply Hf. by apply (Hk _ _ _ Hq E).
Qed.

Lemma reader_when b (k : M zst unit) : reader k → reader (whenM b k).
Proof. intros H. destruct b; [done|apply reader_ret]. Qed.

Lemma reader_limbs {A} (k : M mem A) : reader (limbsZ k).
Proof. split; unfold limbsZ, zoom; [intros s a s' Hq; destruct (k (zmem s)); [by intros [= _ <-]|done..]|]. intros n s Hq. simpl. by destruct (k (zmem s)). Qed.

Lemma reader_get {A} r (f : mpz_struct → M zst A) : (∀ st, reader (f st)) → r ≠ q → reader (st ← get_mpz r; f st).
Proof.
  intros Hf Hne. apply reader_bind; [|done]. split; unfold get_mpz.
  - intros s a s' Hq. destruct (zvars s !! r) as [[?|]|]; [by intros [= _ <-]|done..].
  - intros n s Hq. rewrite zvars_set_alloc by done. by destruct (zvars s !! r) as [[?|]|].
Qed.

Lemma reader_put r st : r ≠ q → reader (put_mpz r st).
Proof.
  intros Hne. split; unfold put_mpz.
  - intros s a s' Hq. destruct (zvars s !! r); [|done]. intros [= _ <-]. simpl. by rewrite lookup_insert_ne.
  - intros n s Hq. rewrite zvars_set_alloc by done. destruct (zvars s !! r); [|done]. unfold set_alloc, out_map. cbn [zmem zvars zlocal]. do 2 f_equal.
    by rewrite alter_insert_ne.
Qed.

(** The field that is not looked at is not in the result. *)
Lemma reader_field {A} r (f : mpz_struct → A) : (∀ n st, f (with_alloc n st) = f st) → reader (st ← get_mpz r; mret (f st)).
Proof.
  intros Hf. destruct (decide (r = q)) as [->|Hne]; [|apply reader_get; [intros st; apply reader_ret|done]]. split; unfold mbind, M_bind, get_mpz, mret, M_ret.
  - intros s a s' Hq. destruct (zvars s !! q) as [[?|]|] eqn:E; [|done..]. intros [= _ <-]. by rewrite E.
  - intros n s Hq. cbn [set_alloc zvars]. rewrite lookup_alter_eq. destruct (zvars s !! q) as [[st|]|]; simpl; [by rewrite Hf|done..].
Qed.

Lemma reader_size r : reader (size_of r).
Proof. by apply (reader_field r mp_size). Qed.

Lemma reader_limbs_of r : reader (limbs_of r).
Proof. by apply (reader_field r mp_d). Qed.

Lemma reader_set_size r n : r ≠ q → reader (set_size r n).
Proof. intros Hne. apply reader_get; [|done]. intros st. by apply reader_put. Qed.

Lemma reader_local {A} (f : positive → M zst A) : (∀ t, t ≠ q → reader (f t)) → reader (with_local f).
Proof.
  intros Hf. split; unfold with_local.
  - intros s a s' Hq. set (s1 := Mk_zst _ _ _). assert (zlocal s ≠ q) as Hne by lia. destruct (f (zlocal s) s1) as [b s2| |] eqn:E; [|done..]. intros [= _ <-].
    destruct (rd_keeps _ _ (Hf _ Hne) s1 b s2 ltac:(simpl; lia) E) as [E1 ?]. simpl in *. rewrite lookup_delete_ne, E1, lookup_insert_ne by done. done.
  - intros n s Hq. set (s1 := Mk_zst (zmem s) _ _). assert (zlocal s ≠ q) as Hne by lia.
    pose proof (rd_alloc _ _ (Hf _ Hne) n s1 ltac:(simpl; lia)) as E. replace (Mk_zst _ _ _) with (set_alloc q n s1).
    + cbn [set_alloc zlocal] in *. rewrite E. destruct (f (zlocal s) s1); [|done..]. cbn [out_map set_alloc zmem zvars zlocal]. do 2 f_equal. by rewrite delete_alter_ne.
    + unfold set_alloc, s1. cbn [zmem zvars zlocal]. f_equal. by rewrite alter_insert_ne.
Qed.

(** A pointer that may be NULL, to another variable. *)
Definition other (p : option positive) : Prop := match p with Some r => r ≠ q | None => True end.

Lemma other_some r : r ≠ q → other (Some r).
Proof. done. Qed.
Lemma other_none : other None.
Proof. done. Qed.

Lemma reader_if_ptr p f : other p → (∀ r, r ≠ q → reader (f r)) → reader (if_ptr p f).
Proof. intros Ho Hf. destruct p; [by apply Hf|apply reader_ret]. Qed.
End rules.

#[export] Hint Resolve reader_ret reader_fail reader_lift reader_limbs reader_put reader_size reader_limbs_of reader_set_size other_some other_none : reader.

(** One step through the body of a function: known functions by the hints,
    then the constructs of the monad. *)
Ltac reader_step :=
  first
    [ solve [eauto 3 with reader nocore]
    | lazymatch goal with
      | |- reader _ (get_mpz _ ≫= _) => apply reader_get; [intros ?|solve [eauto 2]]
      | |- reader _ (_ ≫= _) => apply reader_bind; [|intros ?]
      | |- reader _ (with_local _) => apply reader_local; intros ? ?
      | |- reader _ (whenM _ _) => apply reader_when
      | |- reader _ (if_ptr _ _) => apply reader_if_ptr; [solve [eauto 3 with reader nocore]|intros ? ?]
      | |- reader _ (match (if ?b then _ else _) with _ => _ end) => destruct b
      | |- reader _ (match (_, _) with _ => _ end) => cbv beta iota
      | |- reader _ (match ?x with _ => _ end) => destruct x eqn:?
      end ].
Ltac reader_body := intros; cbv zeta; repeat reader_step.

Section functions.
Context (q : positive).
Local Abbreviation reader := (reader q).

Lemma init_reader r : r ≠ q → reader (mpz_init r).
Proof. unfold mpz_init. reader_body. Qed.
Lemma init2_reader r n : r ≠ q → reader (mpz_init2 r n).
Proof. unfold mpz_init2. reader_body. Qed.
Lemma clear_reader r : r ≠ q → reader (mpz_clear r).
Proof. unfold mpz_clear. reader_body. Qed.
Lemma realloc_reader r n : r ≠ q → reader (mpz_realloc r n).
Proof. unfold mpz_realloc. reader_body. Qed.
#[local] Hint Resolve init_reader init2_reader clear_reader realloc_reader : reader.
Lemma MPZ_REALLOC_reader r n : r ≠ q → reader (MPZ_REALLOC r n).
Proof. unfold MPZ_REALLOC. reader_body. Qed.
#[local] Hint Resolve MPZ_REALLOC_reader : reader.

Lemma set_ui_reader r x : r ≠ q → reader (mpz_set_ui r x).
Proof. unfold mpz_set_ui. reader_body. Qed.
#[local] Hint Resolve set_ui_reader : reader.
Lemma set_si_reader r x : r ≠ q → reader (mpz_set_si r x).
Proof. unfold mpz_set_si. reader_body. Qed.
Lemma set_reader r x : r ≠ q → reader (mpz_set r x).
Proof. unfold mpz_set. reader_body. Qed.
#[local] Hint Resolve set_si_reader set_reader : reader.
Lemma init_set_reader r x : r ≠ q → reader (mpz_init_set r x).
Proof. unfold mpz_init_set. reader_body. Qed.
Lemma init_set_ui_reader r x : r ≠ q → reader (mpz_init_set_ui r x).
Proof. unfold mpz_init_set_ui. reader_body. Qed.
Lemma abs_reader r u : r ≠ q → reader (mpz_abs r u).
Proof. unfold mpz_abs. reader_body. Qed.
Lemma neg_reader r u : r ≠ q → reader (mpz_neg r u).
Proof. unfold mpz_neg. reader_body. Qed.
Lemma swap_reader u v : u ≠ q → v ≠ q → reader (mpz_swap u v).
Proof. unfold mpz_swap. reader_body. Qed.
#[local] Hint Resolve init_set_reader init_set_ui_reader abs_reader neg_reader swap_reader : reader.

Lemma get_ui_reader u : reader (mpz_get_ui u).
Proof. unfold mpz_get_ui. reader_body. Qed.
#[local] Hint Resolve get_ui_reader : reader.
Lemma sgn_reader u : reader (mpz_sgn u).
Proof. unfold mpz_sgn. reader_body. Qed.
Lemma cmp_ui_reader u v : reader (mpz_cmp_ui u v).
Proof. unfold mpz_cmp_ui. reader_body. Qed.
Lemma cmp_reader u v : reader (mpz_cmp u v).
Proof. unfold mpz_cmp. reader_body. Qed.
Lemma cmpabs_ui_reader u v : reader (mpz_cmpabs_ui u v).
Proof. unfold mpz_cmpabs_ui. reader_body. Qed.
Lemma cmpabs_reader u v : reader (mpz_cmpabs u v).
Proof. unfold mpz_cmpabs. reader_body. Qed.
#[local] Hint Resolve sgn_reader cmp_ui_reader cmp_reader cmpabs_ui_reader cmpabs_reader : reader.

Lemma abs_add_ui_reader r a b : r ≠ q → reader (mpz_abs_add_ui r a b).
Proof. unfold mpz_abs_add_ui. reader_body. Qed.
Lemma abs_sub_ui_reader r a b : r ≠ q → reader (mpz_abs_sub_ui r a b).
Proof. unfold mpz_abs_sub_ui. reader_body. Qed.
#[local] Hint Resolve abs_add_ui_reader abs_sub_ui_reader : reader.
Lemma add_ui_reader r a b : r ≠ q → reader (mpz_add_ui r a b).
Proof. unfold mpz_add_ui. reader_body. Qed.
Lemma sub_ui_reader r a b : r ≠ q → reader (mpz_sub_ui r a b).
Proof. unfold mpz_sub_ui. reader_body. Qed.
Lemma abs_add_reader r a b : r ≠ q → reader (mpz_abs_add r a b).
Proof. unfold mpz_abs_add. reader_body. Qed.
Lemma abs_sub_reader r a b : r ≠ q → reader (mpz_abs_sub r a b).
Proof. unfold mpz_abs_sub. reader_body. Qed.
#[local] Hint Resolve add_ui_reader sub_ui_reader abs_add_reader abs_sub_reader : reader.
Lemma add_reader r a b : r ≠ q → reader (mpz_add r a b).
Proof. unfold mpz_add. reader_body. Qed.
Lemma sub_reader r a b : r ≠ q → reader (mpz_sub r a b).
Proof. unfold mpz_sub. reader_body. Qed.
Lemma mul_ui_reader r u v : r ≠ q → reader (mpz_mul_ui r u v).
Proof. unfold mpz_mul_ui. reader_body. Qed.
Lemma mul_reader r u v : r ≠ q → reader (mpz_mul r u v).
Proof. unfold mpz_mul. reader_body. Qed.
Lemma mul_2exp_reader r u n : r ≠ q → reader (mpz_mul_2exp r u n).
Proof. unfold mpz_mul_2exp. reader_body. Qed.
#[local] Hint Resolve add_reader sub_reader mul_ui_reader mul_reader mul_2exp_reader : reader.

Lemma div_qr_small_reader qo r n d mode qs : other q qo → other q r → reader (div_qr_small qo r n d mode qs).
Proof. unfold div_qr_small. reader_body. Qed.
Lemma div_qr_limbs_reader qo tq tr n d ns nn dn qs : other q qo → tq ≠ q → tr ≠ q → reader (div_qr_limbs qo tq tr n d ns nn dn qs).
Proof. unfold div_qr_limbs. reader_body. Qed.
Lemma div_qr_round_reader qo r tq tr d mode qs rn : other q qo → other q r → tq ≠ q → tr ≠ q → reader (div_qr_round qo r tq tr d mode qs rn).
Proof. unfold div_qr_round. reader_body. Qed.
#[local] Hint Resolve div_qr_small_reader div_qr_limbs_reader div_qr_round_reader : reader.
Lemma div_qr_reader qo r n d mode : other q qo → other q r → reader (mpz_div_qr qo r n d mode).
Proof. unfold mpz_div_qr. reader_body. Qed.
#[local] Hint Resolve div_qr_reader : reader.
Lemma tdiv_qr_reader r1 r2 n d : r1 ≠ q → r2 ≠ q → reader (mpz_tdiv_qr r1 r2 n d).
Proof. unfold mpz_tdiv_qr. reader_body. Qed.
Lemma tdiv_q_reader r n d : r ≠ q → reader (mpz_tdiv_q r n d).
Proof. unfold mpz_tdiv_q. reader_body. Qed.
Lemma divexact_reader r n d : r ≠ q → reader (mpz_divexact r n d).
Proof. unfold mpz_divexact, assert_zero. reader_body. Qed.
#[local] Hint Resolve tdiv_qr_reader tdiv_q_reader divexact_reader : reader.

Lemma q_2exp_adjust_reader u mode un qn l b : reader (q_2exp_adjust u mode un qn l b).
Proof. unfold q_2exp_adjust. reader_body. Qed.
Lemma q_2exp_limbs_reader r u qn l b : r ≠ q → reader (q_2exp_limbs r u qn l b).
Proof. unfold q_2exp_limbs. reader_body. Qed.
#[local] Hint Resolve q_2exp_adjust_reader q_2exp_limbs_reader : reader.
Lemma div_q_2exp_reader r u n mode : r ≠ q → reader (mpz_div_q_2exp r u n mode).
Proof. unfold mpz_div_q_2exp. reader_body. Qed.
#[local] Hint Resolve div_q_2exp_reader : reader.
Lemma tdiv_q_2exp_reader r u n : r ≠ q → reader (mpz_tdiv_q_2exp r u n).
Proof. unfold mpz_tdiv_q_2exp. reader_body. Qed.
Lemma div_qr_ui_reader qo r n d mode : other q qo → other q r → reader (mpz_div_qr_ui qo r n d mode).
Proof. unfold mpz_div_qr_ui, qr_ui_round. reader_body. Qed.
#[local] Hint Resolve tdiv_q_2exp_reader div_qr_ui_reader : reader.
Lemma tdiv_q_ui_reader r n d : r ≠ q → reader (mpz_tdiv_q_ui r n d).
Proof. unfold mpz_tdiv_q_ui. reader_body. Qed.
Lemma divexact_ui_reader r n d : r ≠ q → reader (mpz_divexact_ui r n d).
Proof. unfold mpz_divexact_ui, assert_zero. reader_body. Qed.
Lemma make_odd_reader r : r ≠ q → reader (mpz_make_odd r).
Proof. unfold mpz_make_odd. reader_body. Qed.
#[local] Hint Resolve tdiv_q_ui_reader divexact_ui_reader make_odd_reader : reader.

Lemma tstbit_reader u n : reader (mpz_tstbit u n).
Proof. unfold mpz_tstbit. reader_body. Qed.
Lemma abs_add_bit_reader r n : r ≠ q → reader (mpz_abs_add_bit r n).
Proof. unfold mpz_abs_add_bit. reader_body. Qed.
Lemma abs_sub_bit_reader r n : r ≠ q → reader (mpz_abs_sub_bit r n).
Proof. unfold mpz_abs_sub_bit. reader_body. Qed.
#[local] Hint Resolve tstbit_reader abs_add_bit_reader abs_sub_bit_reader : reader.
Lemma setbit_reader r n : r ≠ q → reader (mpz_setbit r n).
Proof. unfold mpz_setbit. reader_body. Qed.
Lemma odd_p_reader u : reader (mpz_odd_p u).
Proof. unfold mpz_odd_p. reader_body. Qed.
Lemma sizeinbase_reader u b : reader (mpz_sizeinbase u b).
Proof. unfold mpz_sizeinbase. reader_body. Qed.
#[local] Hint Resolve setbit_reader odd_p_reader sizeinbase_reader : reader.

(** Loops. *)
Lemma gcdext_loop_reader fuel tu tv s0 s1 t0 t1 p :
  tu ≠ q → tv ≠ q → s0 ≠ q → s1 ≠ q → t0 ≠ q → t1 ≠ q → reader (gcdext_loop fuel tu tv s0 s1 t0 t1 p).
Proof. intros ? ? ? ? ? ?. revert p. induction fuel; cbn [gcdext_loop]; reader_body. Qed.
Lemma halve_loop_reader s0 s1 t0 t1 p : s0 ≠ q → s1 ≠ q → t0 ≠ q → t1 ≠ q → reader (halve_loop s0 s1 t0 t1 p).
Proof. intros. induction p; cbn [halve_loop]; reader_body. Qed.
Lemma pow_loop_reader n tr b e bit : tr ≠ q → reader (pow_loop n tr b e bit).
Proof. intros. revert bit. induction n; cbn [pow_loop]; reader_body. Qed.
Lemma turns_reader n body : reader body → reader (turns n body).
Proof. intros. induction n; cbn [turns]; reader_body. Qed.
#[local] Hint Resolve gcdext_loop_reader halve_loop_reader pow_loop_reader turns_reader : reader.
Lemma do_while_reader n body : reader body → reader (do_while n body).
Proof. unfold do_while. reader_body. Qed.

Lemma gcdext_reduce_reader tu tv s0 s1 t0 t1 uz vz :
  tu ≠ q → tv ≠ q → s0 ≠ q → s1 ≠ q → t0 ≠ q → t1 ≠ q → reader (gcdext_reduce tu tv s0 s1 t0 t1 uz vz).
Proof. unfold gcdext_reduce. reader_body. Qed.
Lemma gcdext_cofactors_reader u v tv s0 s1 t0 t1 gz p :
  tv ≠ q → s0 ≠ q → s1 ≠ q → t0 ≠ q → t1 ≠ q → reader (gcdext_cofactors u v tv s0 s1 t0 t1 gz p).
Proof. unfold gcdext_cofactors. reader_body. Qed.
#[local] Hint Resolve gcdext_reduce_reader gcdext_cofactors_reader do_while_reader : reader.
Lemma gcdext_reader g s t u v : g ≠ q → other q s → other q t → reader (mpz_gcdext g s t u v).
Proof. unfold mpz_gcdext. reader_body. Qed.
#[local] Hint Resolve gcdext_reader : reader.
Lemma invert_reader r u m : r ≠ q → reader (mpz_invert r u m).
Proof. unfold mpz_invert. reader_body. Qed.
Lemma pow_ui_reader r b e : r ≠ q → reader (mpz_pow_ui r b e).
Proof. unfold mpz_pow_ui. reader_body. Qed.
Lemma sqrt_step_reader u t y : u ≠ q → t ≠ q → reader (sqrt_step u t y).
Proof. unfold sqrt_step. reader_body. Qed.
#[local] Hint Resolve pow_ui_reader sqrt_step_reader : reader.
Lemma root_step_reader u t v y z : u ≠ q → t ≠ q → v ≠ q → reader (root_step u t v y z).
Proof. unfold root_step. reader_body. Qed.
#[local] Hint Resolve root_step_reader : reader.
Lemma rootrem_reader x r y z : other q x → other q r → reader (mpz_rootrem x r y z).
Proof. unfold mpz_rootrem. reader_body. Qed.
#[local] Hint Resolve rootrem_reader : reader.
Lemma root_reader x y z : other q x → reader (mpz_root x y z).
Proof. unfold mpz_root. reader_body. Qed.
End functions.

#[export] Hint Resolve init_reader clear_reader MPZ_REALLOC_reader set_ui_reader abs_reader mul_reader swap_reader init_set_ui_reader invert_reader pow_ui_reader rootrem_reader root_reader : reader.
