(* ===== verification/MpzBorrow.v ===== *)
(** * Integers that borrow their limbs

    Access to the limbs of an integer (mpz_realloc2, mpz_limbs_read,
    mpz_limbs_modify, mpz_limbs_write, mpz_limbs_finish), mpz_roinit_n, which
    makes an integer for reading out of limbs of the caller, and the functions
    that use it: mpz_ui_pow_ui, mpn_perfect_square_p and mpn_sqrtrem. *)

From S2P Require Import Prelude Limbs Mpn Invert MpnDiv MpnDivN MpnStr MpnSetStr MpnGetStr Mpz MpzRep MpzArith MpzMul MpzDivision MpzFrame MpzDivShort MpzLocals MpzGcd MpzBits MpzLogic MpzCount MpzScan MpzPow MpzSize MpzRoot MpzReader.

(** ** Definitions *)

Definition mpz_realloc2 (x : positive) (n : Z) : M zst unit :=
  _ ← mpz_realloc x (1 + (n - b2l (negb (n =? 0))) / GMP_LIMB_BITS); mret tt.

Definition mpz_limbs_read (x : positive) : M zst Z := limbs_of x.

Definition mpz_limbs_modify (x : positive) (n : Z) : M zst Z :=
  _ ← lift (assertion (0 <? n));
  MPZ_REALLOC x n.

Definition mpz_limbs_write (x : positive) (n : Z) : M zst Z := mpz_limbs_modify x n.

Definition mpz_limbs_finish (x : positive) (xs : Z) : M zst unit :=
  xp ← limbs_of x;
  xn ← limbsZ (mpn_normalized_size xp (Z.abs xs));
  set_size x (if xs <? 0 then - xn else xn).

(** The size of [x] is set by the call. *)
Definition mpz_roinit_n (x : positive) (xp xs : Z) : M zst unit :=
  _ ← put_mpz x (Mk_mpz 0 0 xp);
  mpz_limbs_finish x xs.

(** The body of a function that takes the address of its parameter [v]: a block
    of one limb, which disappears when the function returns. *)
Definition push_limb (v : Z) : M mem Z := λ m,
  Done (next m) (Mk_mem (<[next m := Some v]> (cells m)) (<[next m := 1]> (blocks m)) (next m + 1)).
Definition pop_limb (p : Z) : M mem unit := λ m,
  Done tt (Mk_mem (delete p (cells m)) (delete p (blocks m)) (next m)).
Definition with_limb {A} (v : Z) (f : Z → M zst A) : M zst A :=
  p ← limbsZ (push_limb v);
  a ← f p;
  _ ← limbsZ (pop_limb p);
  mret a.

Definition mpz_ui_pow_ui (r : positive) (blimb e : Z) : M zst unit :=
  with_limb blimb (λ p, with_local (λ b,
    _ ← mpz_roinit_n b p 1;
    mpz_pow_ui r b e)).

Definition mpn_perfect_square_p (p n : Z) : M zst bool :=
  with_local (λ t,
    _ ← lift (assertion (0 <? n));
    x ← limbsZ (load (p + (n - 1)));
    _ ← lift (assertion (negb (x =? 0)));
    _ ← mpz_roinit_n t p n;
    mpz_root None t 2).

Definition mpn_sqrtrem (sp : Z) (rp : option Z) (p n : Z) : M zst Z :=
  with_local (λ s, with_local (λ r, with_local (λ u,
    _ ← lift (assertion (0 <? n));
    x ← limbsZ (load (p + (n - 1)));
    _ ← lift (assertion (negb (x =? 0)));
    _ ← mpz_init r;
    _ ← mpz_init s;
    _ ← mpz_roinit_n u p n;
    _ ← mpz_rootrem (Some s) (Some r) u 2;
    ss ← size_of s;
    _ ← lift (assertion (ss =? (n + 1) / 2));
    d ← limbs_of s;
    _ ← limbsZ (mpn_copyd sp d ss);
    _ ← mpz_clear s;
    res ← size_of r;
    _ ← match rp with Some rp => d ← limbs_of r; limbsZ (mpn_copyd rp d res) | None => mret tt end;
    _ ← mpz_clear r;
    mret res))).

(** ** Blocks of the frame *)

(** Another frame and another memory, which is the same in the blocks of the
    variables. *)
Lemma holds_reframe F FB F' FB' (D : positive → Prop) N s m' :
  holds F FB D N s → mem_wf m' → 0 ≤ next m' → F' ⊆ cells m' → F' !! dummy_limb = Some (Some 0xc1a0) →
  (∀ r st a, own N s r st → in_block st a → cells m' !! a = cells (zmem s) !! a ∧ F' !! a = None) →
  (∀ r st, own N s r st → 0 < mp_alloc st → FB' !! mp_d st = None) →
  (∀ a n, blocks m' !! a = Some n ↔ FB' !! a = Some n ∨ ∃ r st, own N s r st ∧ 0 < mp_alloc st ∧ mp_d st = a ∧ mp_alloc st = n) →
  holds F' FB' D N (set_mem s m').
Proof.
  intros H Hwf Hnn Hf Hd Hc Hfb Hbl. split; simpl; try done.
  - intros r o Hr. destruct (h_var _ _ _ _ _ H _ _ Hr) as (st & Hst & (Hal & Hsz & Hbk) & Hval). assert (own N s r st) as Ho by (split; eauto).
    exists st. split; [done|]. split; [split; [done|]; split; [done|]|].
    + destruct Hbk as [?|(Hp & Hd' & Hbk & Hw)]; [by left|right]. split_and!; try done; [apply Hbl; right; by exists r, st|].
      intros i Hi. rewrite (proj1 (Hc r st (mp_d st + Z.of_nat i) Ho ltac:(unfold in_block; lia))). by apply Hw.
    + intros z Hz. destruct (Hval z Hz) as (xs & [Hl Hx] & Hn & Hlen & Hle & ->). exists xs. split_and!; try done. split; [done|].
      intros i x Hi. pose proof (lookup_lt_Some _ _ _ Hi). rewrite (proj1 (Hc r st (mp_d st + Z.of_nat i) Ho ltac:(unfold in_block; lia))). by apply Hx.
  - apply (h_sep _ _ _ _ _ H).
  - intros r st a Ho Ha. by apply (Hc r st).
  - apply (h_local _ _ _ _ _ H).
  - apply (h_decl _ _ _ _ _ H).
Qed.

(** The frame with a block of its own at [t]. *)
Definition framed (F : gmap Z (option Z)) (t : Z) (n : nat) (F' : gmap Z (option Z)) : Prop :=
  (∀ a, t ≤ a < t + Z.of_nat n → F !! a = None ∧ is_Some (F' !! a)) ∧ ∀ a, ¬ (t ≤ a < t + Z.of_nat n) → F' !! a = F !! a.

Lemma framed_write F t xs : (∀ a, t ≤ a < t + Z.of_nat (length xs) → F !! a = None) → framed F t (length xs) (write_cells F t xs).
Proof.
  intros Hn. split; intros a Ha; rewrite lookup_write_cells.
  - split; [by apply Hn|]. guard_true ((t <=? a) && (a <? t + Z.of_nat (length xs))). destruct (lookup_lt_is_Some_2 xs (Z.to_nat (a - t))) as [x ->]; [lia|]. simpl. eauto.
  - destruct ((t <=? a) && (a <? t + Z.of_nat (length xs))) eqn:E; [bool_to_prop; lia|done].
Qed.

Lemma framed_sub F t n F' : framed F t n F' → F ⊆ F'.
Proof.
  intros [H1 H2]. apply map_subseteq_spec. intros a x Hx. destruct (decide (t ≤ a < t + Z.of_nat n)) as [Ha|Ha]; [|by rewrite H2].
  destruct (H1 a Ha) as [E _]. congruence.
Qed.

Section frame.
Context (F : gmap Z (option Z)) (FB : gmap Z Z) (D : positive → Prop) (N : vars).

(** A new block, full of limbs. *)
Lemma frame_push s xs m' :
  holds F FB D N s → (0 < length xs)%nat → scratch (next (zmem s)) (Z.of_nat (length xs)) (zmem s) m' → limbs_at m' (next (zmem s)) xs →
  framed F (next (zmem s)) (length xs) (write_cells F (next (zmem s)) xs) ∧ FB !! next (zmem s) = None ∧
  holds (write_cells F (next (zmem s)) xs) (<[next (zmem s) := Z.of_nat (length xs)]> FB) D N (set_mem s m').
Proof.
  intros H Hl (Hb & Hx & Hwf & Hc) Hlim. set (t := next (zmem s)) in *. destruct (h_wf _ _ _ _ _ H) as [Hwf0 Hnn].
  assert (∀ a, t ≤ a → F !! a = None) as Hnone by (intros a Ha; destruct (F !! a) eqn:E; [pose proof (frame_below N s a H ltac:(eauto)); unfold t in *; lia|done]).
  assert (FB !! t = None) as Hfbt.
  { destruct (FB !! t) eqn:E; [|done]. pose proof (proj2 (h_blocks _ _ _ _ _ H _ _) (or_introl E)) as Eb. destruct (Hwf0 t ltac:(unfold t; lia)) as [_ En]. congruence. }
  assert (∀ r st, own N s r st → 0 < mp_alloc st → mp_d st + mp_alloc st ≤ t) as Hlow by (intros r st Ho Hp; by apply (own_below (F:=F) (FB:=FB) (D:=D) N s r st)).
  assert (framed F t (length xs) (write_cells F t xs)) as Hfr by (apply framed_write; intros a Ha; apply Hnone; lia). split; [done|]. split; [done|]. apply (holds_reframe F FB); try done.
  - unfold t in *. lia.
  - apply map_subseteq_spec. intros a x Ha. rewrite lookup_write_cells in Ha. destruct ((t <=? a) && (a <? t + Z.of_nat (length xs))) eqn:E.
    + bool_to_prop. destruct (xs !! Z.to_nat (a - t)) as [y|] eqn:Ey; [|done]. simplify_eq/=. rewrite <- (proj2 Hlim _ _ Ey). f_equal. lia.
    + rewrite Hc; [by eapply map_subseteq_spec; [apply (h_frame _ _ _ _ _ H)|]|]. intros Hin. destruct (bool_decide_reflect ((t <=? a) && (a <? t + Z.of_nat (length xs)) = true)) as [?|Hn]; [congruence|]. apply Hn. by guard_true ((t <=? a) && (a <? t + Z.of_nat (length xs))).
  - rewrite (proj2 Hfr); [apply (h_frame _ _ _ _ _ H)|]. unfold dummy_limb. unfold t in *. lia.
  - intros r st a Ho Ha. pose proof (Hlow r st Ho ltac:(unfold in_block in Ha; lia)). unfold in_block in Ha. rewrite Hc, (proj2 Hfr) by lia. split; [done|]. by eapply (h_apart _ _ _ _ _ H).
  - intros r st Ho Hp. pose proof (Hlow r st Ho Hp). rewrite lookup_insert_ne by lia. by eapply (h_fb _ _ _ _ _ H).
  - intros a n. rewrite Hb. destruct (decide (a = t)) as [->|Hne].
    + rewrite !lookup_insert_eq. split; [by left|]. intros [?|(r & st & Ho & Hp & E & _)]; [done|]. pose proof (Hlow r st Ho Hp). lia.
    + rewrite !lookup_insert_ne by done. apply (h_blocks _ _ _ _ _ H).
Qed.

(** The block goes. *)
Lemma frame_pop F' s t n m' :
  holds F' (<[t := Z.of_nat n]> FB) D N s → F !! dummy_limb = Some (Some 0xc1a0) → FB !! t = None → framed F t n F' →
  cells m' = drop_cells (cells (zmem s)) t n → blocks m' = delete t (blocks (zmem s)) → next (zmem s) = next m' → holds F FB D N (set_mem s m').
Proof.
  intros H Hdum Hfb Hfr Ec Eb Enx. destruct (h_wf _ _ _ _ _ H) as [Hwf Hnn].
  assert (∀ a, ¬ (t ≤ a < t + Z.of_nat n) → cells m' !! a = cells (zmem s) !! a) as Hc.
  { intros a Ha. rewrite Ec, lookup_drop_cells. destruct ((t <=? a) && (a <? t + Z.of_nat n)) eqn:E; [bool_to_prop; lia|done]. }
  apply (holds_reframe F' (<[t := Z.of_nat n]> FB)); try done.
  - intros a Ha. rewrite <- Enx in Ha. destruct (Hwf a Ha) as [E1 E2]. rewrite Ec, Eb, lookup_drop_cells, lookup_delete. split; [by case_match|by case_decide].
  - lia.
  - apply map_subseteq_spec. intros a x Ha. rewrite Hc.
    + eapply map_subseteq_spec; [apply (h_frame _ _ _ _ _ H)|]. eapply map_subseteq_spec; [by eapply framed_sub|done].
    + intros Hin. destruct (proj1 Hfr a Hin). congruence.
  - intros r st a Ho Ha. pose proof (h_apart _ _ _ _ _ H _ _ _ Ho Ha) as E. destruct (decide (t ≤ a < t + Z.of_nat n)) as [Hin|Hin].
    + destruct (proj1 Hfr a Hin) as [_ [? ?]]. congruence.
    + rewrite Hc by done. split; [done|]. by rewrite <- (proj2 Hfr a Hin).
  - intros r st Ho Hp. pose proof (h_fb _ _ _ _ _ H _ _ Ho Hp) as E. by apply lookup_insert_None in E as [? _].
  - intros a k. rewrite Eb, lookup_delete_Some, (h_blocks _ _ _ _ _ H), lookup_insert_Some. split.
    + intros [Hne [[[? _]|[_ ?]]|?]]; [done|by left|by right].
    + intros [E|(r & st & Ho & Hp & E & ?)]; (split; [|]).
      * intros <-. congruence.
      * left. right. split; [|done]. intros <-. congruence.
      * intros ->. pose proof (h_fb _ _ _ _ _ H _ _ Ho Hp) as En. rewrite E, lookup_insert_eq in En. done.
      * right. by exists r, st.
Qed.
End frame.

(** ** Borrowed limbs

    A variable [t] whose struct points to a block of the frame is a variable
    like others once its [_mp_alloc] is that of the block. *)
Section lend.
Context (F F' : gmap Z (option Z)) (FB : gmap Z Z) (D : positive → Prop) (N : vars) (t : positive) (p sz z : Z) (n : nat).
Hypotheses (Hfr : framed F p n F') (Hdum : F !! dummy_limb = Some (Some 0xc1a0)) (Hfb : FB !! p = None) (Hn : 0 < Z.of_nat n ≤ alloc_limit) (Hp : 0 ≤ p) (Ht : N !! t = None).
Local Abbreviation lent := (Mk_mpz (Z.of_nat n) sz p).

Lemma frame_lend s xs :
  holds F' (<[p := Z.of_nat n]> FB) D N s → zvars s !! t = Some (Some (Mk_mpz 0 sz p)) → limbs_at (zmem s) p xs → normalized xs →
  Z.of_nat (length xs) = Z.abs sz → Z.abs sz ≤ Z.of_nat n → z = Z.sgn sz * value xs → holds F FB D (<[t := Some z]> N) (set_alloc t (Z.of_nat n) s).
Proof.
  intros H Hz Hxs Hnorm Hlen Hsz Hval. destruct (h_frame _ _ _ _ _ H) as [Hf _].
  assert (∀ r st, own (<[t := Some z]> N) (set_alloc t (Z.of_nat n) s) r st → r = t ∧ st = lent ∨ r ≠ t ∧ own N s r st ∧ apart st lent) as Hown.
  { intros r st [Hs Hv]. destruct (decide (r = t)) as [->|Hne]; [left; split; [done|]; simpl in Hv; rewrite lookup_alter_eq, Hz in Hv; by simplify_eq/=|right].
    rewrite lookup_insert_ne in Hs by done. rewrite zvars_set_alloc in Hv by done. assert (own N s r st) as Ho by done. split; [done|]. split; [done|].
    unfold apart, disjoint. simpl. destruct (own_block _ _ _ _ H Ho) as (Hal & _ & [[E0 Ed]|(Hp' & _)]); [unfold dummy_limb in Ed; lia|].
    destruct (decide (mp_d st + mp_alloc st ≤ p ∨ p + Z.of_nat n ≤ mp_d st)) as [|Hn']; [done|exfalso]. set (a := Z.max p (mp_d st)).
    assert (in_block st a) as Ha by (unfold in_block, a; lia). destruct (proj1 Hfr a ltac:(unfold a; lia)) as [_ [? E]]. rewrite (h_apart _ _ _ _ _ H _ _ _ Ho Ha) in E. done. }
  assert (blocks (zmem s) !! p = Some (Z.of_nat n)) as Hbk by (apply (h_blocks _ _ _ _ _ H); left; by rewrite lookup_insert_eq).
  assert (∀ a, p ≤ a < p + Z.of_nat n → is_Some (cells (zmem s) !! a)) as Hcell.
  { intros a Ha. destruct (proj1 Hfr a Ha) as [_ [x Hx]]. exists x. by eapply map_subseteq_spec. }
  split.
  - apply (h_wf _ _ _ _ _ H).
  - split; [|done]. etransitivity; [by eapply framed_sub|done].
  - intros r o Hr. apply lookup_insert_Some in Hr as [[<- <-]|[Hne Hr]].
    + exists lent. split; [simpl; by rewrite lookup_alter_eq, Hz|]. split.
      * split; [simpl; lia|]. split; [simpl; unfold alloc_limit, INT_MIN, INT_MAX in *; lia|]. right. simpl. split_and!; try done; try lia. intros i Hi. apply Hcell. lia.
      * intros z' [= <-]. by exists xs.
    + destruct (h_var _ _ _ _ _ H _ _ Hr) as (st & Hst & Hrest). exists st. split; [by rewrite zvars_set_alloc|done].
  - intros r1 r2 st1 st2 Hne [[-> ->]|(Hn1 & H1 & Ha1)]%Hown [[-> ->]|(Hn2 & H2 & Ha2)]%Hown; [done|unfold apart, disjoint in *; lia|done|by eapply (h_sep _ _ _ _ _ H r1 r2)].
  - intros r st a [[-> ->]|(Hne & Ho & Hap)]%Hown Ha.
    + unfold in_block in Ha. simpl in Ha. by apply Hfr.
    + rewrite <- (proj2 Hfr); [by eapply (h_apart _ _ _ _ _ H)|]. unfold apart, disjoint, in_block in *. simpl in *. lia.
  - intros r st [[-> ->]|(Hne & Ho & Hap)]%Hown Hp'; [done|]. pose proof (h_fb _ _ _ _ _ H _ _ Ho Hp') as E. by apply lookup_insert_None in E as [? _].
  - intros a k. cbn [set_alloc zmem]. rewrite (h_blocks _ _ _ _ _ H), lookup_insert_Some. split.
    + intros [[[<- <-]|[_ ?]]|(r & st & Ho & Hrest)]; [right; exists t, lent|by left|right; exists r, st].
      * split; [|split; [simpl; lia|done]]. split; [rewrite lookup_insert_eq; eauto|]. simpl. by rewrite lookup_alter_eq, Hz.
      * split; [|done]. destruct Ho as [[o Ho] Hv]. assert (r ≠ t) by congruence. split; [rewrite lookup_insert_ne by done; eauto|by rewrite zvars_set_alloc].
    + intros [E|(r & st & [[-> ->]|(Hne & Ho & Hap)]%Hown & Hp' & <- & <-)]; [left; right; split; [congruence|done]|left; by left|right; by exists r, st].
  - intros r [o Hr]. simpl in Hr. apply (h_local _ _ _ _ _ H). destruct (decide (r = t)) as [->|Hne]; [rewrite Hz; eauto|]. rewrite lookup_alter_ne in Hr by done. eauto.
  - intros r Hr. destruct (h_decl _ _ _ _ _ H r Hr) as [o Ho]. simpl. destruct (decide (r = t)) as [->|Hne]; [rewrite lookup_alter_eq, Ho; simpl; eauto|rewrite lookup_alter_ne by done; eauto].
Qed.

(** The limbs go back to the frame. *)
Lemma frame_return s :
  holds F FB D (<[t := Some z]> N) s → own (<[t := Some z]> N) s t lent →
  ∃ F1, framed F p n F1 ∧ holds F1 (<[p := Z.of_nat n]> FB) D N s ∧
    ∀ xs, Forall limb xs → normalized xs → Z.of_nat (length xs) = zlimbs z → value xs = Z.abs z → ∀ i x, xs !! i = Some x → F1 !! (p + Z.of_nat i) = Some (Some x).
Proof.
  intros H Ho. exists (frame_of F (zmem s) lent). pose proof (own_block _ _ _ _ H Ho) as Hb. split; [|split].
  - split; intros a Ha.
    + split; [by apply Hfr|]. destruct (frame_of_block F (zmem s) lent a Hb) as [-> [x Hx]]; [unfold in_block; simpl; lia|]. rewrite Hx. eauto.
    + apply frame_of_other. unfold in_block. simpl. lia.
  - pose proof (holds_frame_in F FB D _ s t lent H Ho ltac:(simpl; lia)) as Hin. by rewrite delete_insert_id in Hin.
  - intros xs Hl Hnorm Hlen Hval i x Hi. destruct (holds_read _ _ t z H ltac:(by rewrite lookup_insert_eq)) as (st & ys & Ho' & Hys & Hny & Hly & Hszy & Hvy & Hle).
    assert (st = lent) as -> by (destruct Ho as [_ E], Ho' as [_ E']; congruence). simpl in *.
    assert (xs = ys) as <- by (apply (value_inj xs ys); [done|apply Hys|lia|lia]). pose proof (lookup_lt_Some _ _ _ Hi).
    destruct (frame_of_block F (zmem s) lent (p + Z.of_nat i) Hb) as [-> _]; [unfold in_block; simpl; lia|]. by apply Hys.
Qed.

End lend.

Lemma signed_abs sz xs : Forall limb xs → Z.of_nat (length xs) = Z.abs sz → Z.abs (Z.sgn sz * value xs) = value xs.
Proof.
  intros Hx Hl. pose proof (value_bounds xs Hx) as [Hv _]. destruct (Z.sgn_spec sz) as [[? ->]|[[E ->]|[? ->]]]; [lia| |lia].
  rewrite <- E in Hl. destruct xs; [done|simpl in Hl; lia].
Qed.

(** A function that only reads [t] runs on the borrowed limbs as it does on a
    variable. *)
Lemma wp_borrow {A} F F' FB (D : positive → Prop) N t p sz z n (k : M zst A) s xs (R : A → vars → Prop) :
  framed F p n F' → F !! dummy_limb = Some (Some 0xc1a0) → FB !! p = None → 0 < Z.of_nat n ≤ alloc_limit → 0 ≤ p → N !! t = None →
  holds F' (<[p := Z.of_nat n]> FB) D N s → zvars s !! t = Some (Some (Mk_mpz 0 sz p)) → limbs_at (zmem s) p xs → normalized xs →
  Z.of_nat (length xs) = Z.abs sz → Z.abs sz ≤ Z.of_nat n → z = Z.sgn sz * value xs → reader t k →
  (∀ s1, holds F FB D (<[t := Some z]> N) s1 → wp never k (λ a s', ∃ N', R a N' ∧ N' !! t = None ∧ holds F FB D (<[t := Some z]> N') s') s1) →
  wp never k (λ a s', ∃ N' F1, R a N' ∧ framed F p n F1 ∧ holds F1 (<[p := Z.of_nat n]> FB) D N' s' ∧
    ∀ i x, xs !! i = Some x → F1 !! (p + Z.of_nat i) = Some (Some x)) s.
Proof.
  intros Hfr Hdum Hfb Hn Hp Ht H Hz Hxs Hnorm Hlen Hsz Hval Hrd Hk.
  pose proof (h_local _ _ _ _ _ H t ltac:(rewrite Hz; eauto)) as Hlt.
  specialize (Hk _ (frame_lend F F' FB D N t p sz z n Hfr Hdum Hfb Hn Hp Ht s xs H Hz Hxs Hnorm Hlen Hsz Hval)).
  unfold wp in *. rewrite (rd_alloc _ _ Hrd) in Hk by done. destruct (k s) as [a s'| |e] eqn:E; [|done|by destruct e]. cbn [out_map] in Hk.
  destruct (rd_keeps _ _ Hrd _ _ _ Hlt E) as [Ek Hlt']. rewrite Hz in Ek. destruct Hk as (N' & HR & Ht' & H').
  destruct (frame_return F F' FB D N' t p sz z n Hfr Hn Ht' _ H') as (F1 & Hfr1 & H1 & Hx1).
  { split; [rewrite lookup_insert_eq; eauto|]. simpl. by rewrite lookup_alter_eq, Ek. }
  exists N', F1. split; [done|]. split; [done|]. split.
  - assert (∀ x o, zvars (set_alloc t (Z.of_nat n) s') !! x = Some o → is_Some (zvars s' !! x)) as Hdom.
    { intros x o Hx. simpl in Hx. destruct (decide (x = t)) as [->|Hne]; [rewrite Ek; eauto|rewrite lookup_alter_ne in Hx by done; eauto]. }
    apply (holds_same F1 _ D D N' t (set_alloc t (Z.of_nat n) s') s' H1 Ht' eq_refl).
    + intros x Hne. by rewrite zvars_set_alloc.
    + intros x [o Hx]. apply (h_local _ _ _ _ _ H1 x). simpl. destruct (decide (x = t)) as [->|Hne]; [rewrite lookup_alter_eq, Hx; simpl; eauto|rewrite lookup_alter_ne by done; eauto].
    + intros x HD. destruct (h_decl _ _ _ _ _ H1 x HD) as [o Ho]. by eapply Hdom.
  - pose proof (signed_abs sz xs (proj1 Hxs) Hlen) as Ha. rewrite <- Hval in Ha.
    apply Hx1; [apply Hxs|done| |done]. rewrite (zlimbs_value _ (proj1 Hxs) Hnorm), <- Ha. apply zlimbs_abs.
Qed.

Lemma mpz_roinit_n_spec F FB (D : positive → Prop) N s t p xs :
  holds F FB D N s → N !! t = None → D t → limbs_at (zmem s) p xs → Z.of_nat (length xs) ≤ alloc_limit →
  ∃ (k : nat) s', mpz_roinit_n t p (Z.of_nat (length xs)) s = Done tt s' ∧ holds F FB D N s' ∧ zmem s' = zmem s ∧
    zvars s' !! t = Some (Some (Mk_mpz 0 (Z.of_nat k) p)) ∧ (k ≤ length xs)%nat ∧ value (take k xs) = value xs ∧ normalized (take k xs).
Proof.
  intros H Ht HD Hxs Hlim. destruct (h_decl _ _ _ _ _ H t HD) as [o Ho]. destruct (mpn_normalized_size_spec (zmem s) p xs Hxs) as (k & E & Hk & Hv & Hn).
  exists k, (Mk_zst (zmem s) (<[t := Some (Mk_mpz 0 (Z.of_nat k) p)]> (zvars s)) (zlocal s)). split.
  - set (s1 := Mk_zst (zmem s) (<[t := Some (Mk_mpz 0 0 p)]> (zvars s)) (zlocal s)).
    assert (get_mpz t s1 = Done (Mk_mpz 0 0 p) s1) as Hget by (unfold get_mpz, s1; cbn [zvars]; by rewrite lookup_insert_eq).
    unfold mpz_roinit_n. rewrite (bind_done _ _ s tt s1) by (unfold put_mpz; by rewrite Ho).
    unfold mpz_limbs_finish, limbs_of, set_size. rewrite (bind_done _ _ s1 p s1) by (by rewrite (bind_done _ _ _ _ _ Hget)).
    rewrite Z.abs_eq by lia. rewrite (bind_done _ _ s1 (Z.of_nat k) s1) by (unfold limbsZ, zoom; cbn [s1 zmem]; by rewrite E). rewrite (bind_done _ _ _ _ _ Hget). cbn [mp_alloc mp_d].
    unfold put_mpz, s1. cbn [zmem zvars zlocal]. rewrite lookup_insert_eq, (proj2 (Z.ltb_ge (Z.of_nat (length xs)) 0)) by lia. rewrite insert_insert_eq, to_int_id by (unfold alloc_limit, INT_MIN, INT_MAX in *; lia). done.
  - split_and!; try done; simpl; [|by rewrite lookup_insert_eq].
    apply (holds_same F FB D D N t s); [exact H|exact Ht|done|intros x Hx; simpl; by rewrite lookup_insert_ne| |]; simpl.
    + intros x Hx. apply (h_local _ _ _ _ _ H). destruct (decide (x = t)) as [->|Hne]; [eauto|by rewrite lookup_insert_ne in Hx].
    + intros x Hx. destruct (decide (x = t)) as [->|Hne]; [rewrite lookup_insert_eq; eauto|rewrite lookup_insert_ne by done; by apply (h_decl _ _ _ _ _ H)].
Qed.

(** The state with a block of one limb more. *)
Definition pushed (v : Z) (s : zst) : zst :=
  let p := next (zmem s) in set_mem s (Mk_mem (<[p := Some v]> (cells (zmem s))) (<[p := 1]> (blocks (zmem s))) (p + 1)).

Lemma frame_push_limb F FB (D : positive → Prop) N s v :
  holds F FB D N s → limb v →
  let p := next (zmem s) in framed F p 1 (write_cells F p [v]) ∧ FB !! p = None ∧ holds (write_cells F p [v]) (<[p := Z.of_nat 1]> FB) D N (pushed v s).
Proof.
  intros H Hv p. destruct (h_wf _ _ _ _ _ H) as [Hwf Hnn]. apply (frame_push F FB D N s [v]); [done|simpl; lia| |].
  - split; [done|]. split; [simpl; lia|]. split.
    + intros a Ha. simpl in *. fold p in Ha. rewrite !lookup_insert_ne by lia. apply Hwf. unfold p in *. lia.
    + intros a Ha. simpl in *. fold p in Ha. rewrite lookup_insert_ne by lia. done.
  - split; [by apply Forall_singleton|]. intros [|i] x Hi; [|done]. simplify_eq/=. rewrite Z.add_0_r. by rewrite lookup_insert_eq.
Qed.

(** A function of an integer, called with a word. *)
Lemma wp_limb_integer {A} F FB (D : positive → Prop) N s v (k : positive → M zst A) (R : A → vars → Prop) :
  holds F FB D N s → limb v → (∀ t, N !! t = None → reader t (k t)) → (∀ a N' x, R a N' → N !! x = None → N' !! x = None) →
  (∀ t s1 (D1 : positive → Prop), holds F FB D1 (<[t := Some v]> N) s1 → N !! t = None → D1 t → (∀ x, D x → D1 x) →
    wp never (k t) (λ a s', ∃ N', R a N' ∧ holds F FB D1 (<[t := Some v]> N') s') s1) →
  wp never (with_limb v (λ p, with_local (λ b, _ ← mpz_roinit_n b p 1; k b))) (λ a s', ∃ N', R a N' ∧ holds F FB D N' s') s.
Proof.
  intros H Hv Hrd HR Hk. destruct (frame_push_limb F FB D N s v H Hv) as (Hfr & Hfb & H1). unfold pushed in H1. set (p := next (zmem s)) in *. set (m1 := Mk_mem _ _ _) in H1.
  change (Z.of_nat (length [v])) with (Z.of_nat 1) in H1. set (F' := write_cells F p [v]) in *.
  unfold with_limb. apply wp_bind. eapply wp_run; [unfold limbsZ, zoom, push_limb; reflexivity|]. fold p m1. fold (set_mem s m1). apply wp_bind.
  pose proof (proj2 (h_frame _ _ _ _ _ H)) as Hdum.
  eapply (wp_mono _ _ (λ a s', ∃ N' F1, R a N' ∧ framed F p 1 F1 ∧ holds F1 (<[p := Z.of_nat 1]> FB) D N' s')).
  - apply (wp_local_frame F' _ D _ _ N _ H1). intros t s2 H2 Ht HDt.
    assert (limbs_at (zmem s2) p [v]) as Hl2.
    { split; [by apply Forall_singleton|]. intros [|i] x Hi; [|done]. simplify_eq/=. eapply map_subseteq_spec; [apply (h_frame _ _ _ _ _ H2)|]. rewrite Z.add_0_r. unfold F'. cbn [write_cells]. by rewrite lookup_insert_eq. }
    destruct (mpz_roinit_n_spec F' _ _ N s2 t p [v] H2 Ht ltac:(by left) Hl2 ltac:(simpl; unfold alloc_limit; lia)) as (j & s3 & E & H3 & Em & Et & Hj & Vj & Nj).
    apply wp_bind. eapply wp_run; [exact E|]. pose proof (proj1 (limbs_at_app (zmem s2) p (take j [v]) (drop j [v])) ltac:(by rewrite take_drop)) as [Hlj _].
    eapply wp_mono; [apply (wp_borrow F F' FB (λ x, x = t ∨ D x) N t p (Z.of_nat j) v 1 (k t) s3 (take j [v]) R Hfr Hdum Hfb); try done|].
    + pose proof (proj2 (h_wf _ _ _ _ _ H)). unfold p. lia.
    + by rewrite Em.
    + rewrite length_take. simpl in *. lia.
    + simpl in Hj. lia.
    + rewrite Vj. simpl. destruct (decide (j = O)) as [->|]; [simpl in *; lia|]. rewrite Z.sgn_pos by lia. lia.
    + by apply Hrd.
    + intros s4 H4. eapply wp_mono; [apply (Hk t s4 _ H4 Ht); [by left|by right]|]. intros a s5 (N' & HRa & H5). exists N'. split; [done|]. split; [by eapply HR|done].
    + intros a s4 (N' & F1 & HRa & Hf1 & H4 & _). exists F1, (<[p := Z.of_nat 1]> FB), N'. split; [done|]. split; [by eapply HR|]. intros s5 H5. by exists N', F1.
  - intros a s2 (N' & F1 & HRa & Hf1 & H2). apply wp_bind. eapply wp_run; [unfold limbsZ, zoom, pop_limb; reflexivity|]. eapply wp_run; [done|]. exists N'. split; [done|].
    by apply (frame_pop F FB D N' F1 s2 p 1).
Qed.

Lemma mpz_ui_pow_ui_spec F FB (D : positive → Prop) N s r b e :
  holds F FB D N s → is_Some (N !! r) → limb b → limb e → zlimbs (b ^ e) + 2 ≤ alloc_limit →
  wp never (mpz_ui_pow_ui r b e) (λ _ s', holds F FB D (<[r := Some (b ^ e)]> N) s') s.
Proof.
  intros H Hr Hb He Hlim. eapply (wp_mono _ _ (λ _ s', ∃ N', N' = <[r := Some (b ^ e)]> N ∧ holds F FB D N' s')); [|by intros [] s' (N' & -> & H')].
  assert (∀ t, N !! t = None → r ≠ t) as Hne by (intros t Ht ->; rewrite Ht in Hr; by destruct Hr).
  apply (wp_limb_integer F FB D N s b _ (λ _ N', N' = <[r := Some (b ^ e)]> N) H Hb).
  - intros t Ht%Hne. eauto with reader.
  - intros [] N' x ->. by apply put_none.
  - intros t s1 D1 H1 Ht _ _. eapply wp_mono; [apply (mpz_pow_ui_spec F FB D1 _ s1 r t b e H1)|]; try done.
    + rewrite lookup_insert_ne; [done|]. by apply not_eq_sym, Hne.
    + by rewrite lookup_insert_eq.
    + intros [] s2 H2. eexists. split; [done|]. rewrite insert_insert_ne; [done|]. by apply not_eq_sym, Hne.
Qed.

(** ** Squares and roots of the limbs of the caller *)

(** The frame has the limbs [xs] at [p], in a block of their own. *)
Definition block_of_limbs (F : gmap Z (option Z)) (FB : gmap Z Z) (p : Z) (xs : list Z) : Prop :=
  0 ≤ p ∧ FB !! p = Some (Z.of_nat (length xs)) ∧ Forall limb xs ∧ ∀ i x, xs !! i = Some x → F !! (p + Z.of_nat i) = Some (Some x).

(** Cells of the frame. *)
Definition frame_room (F : gmap Z (option Z)) (q : Z) (n : nat) : Prop := 0 ≤ q ∧ ∀ i, (i < n)%nat → is_Some (F !! (q + Z.of_nat i)).

Section caller.
Context (F : gmap Z (option Z)) (FB : gmap Z Z).

(** The frame without that block. *)
Lemma block_framed p xs :
  block_of_limbs F FB p xs → F !! dummy_limb = Some (Some 0xc1a0) →
  ∃ F0, framed F0 p (length xs) F ∧ F0 !! dummy_limb = Some (Some 0xc1a0) ∧
    ∀ F1, framed F0 p (length xs) F1 → (∀ i x, xs !! i = Some x → F1 !! (p + Z.of_nat i) = Some (Some x)) → F1 = F.
Proof.
  intros (Hp & Hb & Hl & Hx) Hdum. exists (drop_cells F p (length xs)).
  assert (∀ a, ¬ (p ≤ a < p + Z.of_nat (length xs)) → drop_cells F p (length xs) !! a = F !! a) as Ho.
  { intros a Ha. rewrite lookup_drop_cells. destruct ((p <=? a) && (a <? p + Z.of_nat (length xs))) eqn:E; [bool_to_prop; lia|done]. }
  assert (∀ a, p ≤ a < p + Z.of_nat (length xs) → ∃ x, xs !! Z.to_nat (a - p) = Some x ∧ p + Z.of_nat (Z.to_nat (a - p)) = a) as Hin.
  { intros a Ha. destruct (lookup_lt_is_Some_2 xs (Z.to_nat (a - p))) as [x E]; [lia|]. exists x. split; [done|lia]. }
  split_and!.
  - split; [intros a Ha|by intros a Ha; rewrite Ho]. split; [rewrite lookup_drop_cells; by guard_true ((p <=? a) && (a <? p + Z.of_nat (length xs)))|].
    destruct (Hin a Ha) as (x & E & <-). rewrite (Hx _ _ E). eauto.
  - rewrite Ho; [done|]. unfold dummy_limb. lia.
  - intros F1 [_ H1] H2. apply map_eq. intros a. destruct (decide (p ≤ a < p + Z.of_nat (length xs))) as [Ha|Ha]; [|by rewrite H1, Ho].
    destruct (Hin a Ha) as (x & E & <-). by rewrite (Hx _ _ E), (H2 _ _ E).
Qed.

Lemma block_limbs_at (D : positive → Prop) N s p xs : holds F FB D N s → block_of_limbs F FB p xs → limbs_at (zmem s) p xs.
Proof. intros H (_ & _ & Hl & Hx). split; [done|]. intros i x Hi. eapply map_subseteq_spec; [apply (h_frame _ _ _ _ _ H)|by apply Hx]. Qed.

(** An integer over the limbs of the caller. *)
Lemma wp_roinit_block {A} (D : positive → Prop) N s t p xs (k : M zst A) (R : A → vars → Prop) :
  holds F FB D N s → block_of_limbs F FB p xs → normalized xs → (0 < length xs)%nat → Z.of_nat (length xs) ≤ alloc_limit →
  N !! t = None → D t → reader t k →
  (∀ F0 FB0 s1, holds F0 FB0 D (<[t := Some (value xs)]> N) s1 → wp never k (λ a s', ∃ N', R a N' ∧ N' !! t = None ∧ holds F0 FB0 D (<[t := Some (value xs)]> N') s') s1) →
  wp never (_ ← mpz_roinit_n t p (Z.of_nat (length xs)); k) (λ a s', ∃ N', R a N' ∧ holds F FB D N' s') s.
Proof.
  intros H Hb Hnorm Hlen Hlim Ht HD Hrd Hk. pose proof (block_limbs_at _ _ _ _ _ H Hb) as Hxs. destruct (block_framed p xs Hb (proj2 (h_frame _ _ _ _ _ H))) as (F0 & Hfr & Hdum & Hback).
  destruct (mpz_roinit_n_spec F FB D N s t p xs H Ht HD Hxs Hlim) as (j & s1 & E & H1 & Em & Et & Hj & Vj & Nj). apply wp_bind. eapply wp_run; [exact E|].
  destruct Hb as (Hp & Hfb & Hl & Hx). pose proof (proj1 (normalized_ge xs Hl Hlen) Hnorm) as Hge.
  assert (j = length xs) as ->.
  { pose proof (value_bounds (take j xs) ltac:(by apply Forall_take)) as [_ Hu]. rewrite Vj, length_take, Nat.min_l in Hu by lia.
    assert (B ^ Z.of_nat (pred (length xs)) < B ^ Z.of_nat j) as Hlt by lia. apply Z.pow_lt_mono_r_iff in Hlt; first [lia|done]. }
  rewrite take_ge in Nj by lia. set (FB0 := delete p FB).
  assert (FB = <[p := Z.of_nat (length xs)]> FB0) as EFB by (unfold FB0; by rewrite insert_delete_eq, insert_id). rewrite EFB in H1.
  eapply wp_mono; [apply (wp_borrow F0 F FB0 D N t p (Z.of_nat (length xs)) (value xs) (length xs) k s1 xs R Hfr Hdum); try done|].
  - unfold FB0. by rewrite lookup_delete_eq.
  - lia.
  - by rewrite Em.
  - lia.
  - lia.
  - rewrite Z.sgn_pos by lia. lia.
  - intros s2 H2. by apply Hk.
  - intros a s2 (N' & F1 & HR & Hfr1 & H2 & Hx1). exists N'. split; [done|]. rewrite EFB. by rewrite <- (Hback F1 Hfr1 Hx1).
Qed.

(** Writing to the frame. *)
Lemma frame_write (D : positive → Prop) N s q xs :
  holds F FB D N s → frame_room F q (length xs) → Forall limb xs → holds (write_cells F q xs) FB D N (set_mem s (write (zmem s) q xs)).
Proof.
  intros H [Hq Hr] Hl. destruct (h_wf _ _ _ _ _ H) as [Hwf Hnn]. pose proof (h_frame _ _ _ _ _ H) as [Hf Hd].
  assert (∀ a, q ≤ a < q + Z.of_nat (length xs) → is_Some (F !! a)) as Hin by (intros a Ha; replace a with (q + Z.of_nat (Z.to_nat (a - q))) by lia; apply Hr; lia).
  apply (holds_reframe F FB); try done.
  - apply mem_wf_write; [done|]. intros i Hi. destruct (Hr i Hi) as [x Hx]. exists x. by eapply map_subseteq_spec.
  - apply map_subseteq_spec. intros a x. simpl. rewrite !lookup_write_cells. case_match; [done|]. intros Hx. by eapply map_subseteq_spec.
  - rewrite lookup_write_cells. unfold dummy_limb in *. by guard_false ((q <=? -1) && (-1 <? q + Z.of_nat (length xs))).
  - intros r st a Ho Ha. pose proof (h_apart _ _ _ _ _ H _ _ _ Ho Ha) as Ea. simpl. rewrite !lookup_write_cells.
    destruct ((q <=? a) && (a <? q + Z.of_nat (length xs))) eqn:E; [|done]. bool_to_prop. destruct (Hin a ltac:(lia)) as [y Hy]. congruence.
  - apply (h_fb _ _ _ _ _ H).
  - apply (h_blocks _ _ _ _ _ H).
Qed.

Lemma mpn_perfect_square_p_spec (D : positive → Prop) N s p xs :
  holds F FB D N s → block_of_limbs F FB p xs → normalized xs → (0 < length xs)%nat → Z.of_nat (length xs) + 4 ≤ alloc_limit →
  wp never (mpn_perfect_square_p p (Z.of_nat (length xs))) (λ b s', (b = true ↔ ∃ q, value xs = q * q) ∧ holds F FB D N s') s.
Proof.
  intros H Hb Hnorm Hlen Hlim. pose proof (block_limbs_at _ _ _ _ _ H Hb) as Hxs. destruct Hb as (Hp & Hb). pose proof (proj1 Hxs) as Hl. pose proof (value_bounds xs Hl) as [Hv0 _].
  destruct (last xs) as [x|] eqn:Elast; [|apply last_None in Elast; subst xs; simpl in Hlen; lia].
  eapply (wp_mono _ _ (λ b s', (b = true ↔ ∃ q, value xs = q * q) ∧ holds F FB D N s')); [|done].
  apply (wp_declare_to F FB D _ (λ b, b = true ↔ ∃ q, value xs = q * q) N N s H); [done|]. intros t s1 D1 H1 HD1 Ht _ _.
  apply wp_assert; [apply Z.ltb_lt; lia|]. pose proof (block_limbs_at _ _ _ _ _ H1 (conj Hp Hb)) as Hxs1.
  apply (wp_limbsZ _ _ _ x); [replace (p + (Z.of_nat (length xs) - 1)) with (p + Z.of_nat (length xs) - 1) by lia; by apply last_load|].
  apply wp_assert. { destruct (Z.eqb_spec x 0) as [->|]; [|done]. by destruct (Hnorm Elast). }
  eapply wp_mono; [apply (wp_roinit_block D1 N s1 t p xs _ (λ b N', N' = N ∧ (b = true ↔ ∃ q, value xs = q * q)) H1); try done; [lia|auto with reader|]|].
  - intros F0 FB0 s2 H2. eapply wp_mono; [apply (mpz_root_spec (F:=F0) (FB:=FB0) (D:=D1) _ s2 t (value xs) H2 ltac:(by rewrite lookup_insert_eq) None 2 (Z.sqrt (value xs))); try done|].
    + lia.
    + by apply sqrt_root.
    + rewrite <- (zlimbs_value xs Hl Hnorm). change (2 / 64) with 0. lia.
    + intros b s3 [Eb H3]. exists N. split; [|done]. split; [done|]. rewrite Eb, bool_decide_eq_true, Z.pow_2_r. split; [intros ->; eauto|].
      intros [q Hq]. rewrite Hq. assert (Z.sqrt (q * q) = Z.abs q) as ->; [|lia]. rewrite <- Z.abs_square at 1. apply Z.sqrt_square. lia.
  - intros b s2 (N' & [-> HR] & H2). done.
Qed.
End caller.

(** The size of a square root. *)
Lemma zlimbs_sqrt v : 0 < v → zlimbs (Z.sqrt v) = (zlimbs v + 1) / 2.
Proof.
  intros Hv. pose proof (zlimbs_pos v ltac:(lia)) as Hp. pose proof (abs_lt v) as Hu. pose proof (abs_ge v ltac:(lia)) as Hl. rewrite Z.abs_eq in Hu, Hl by lia.
  pose proof (Z.sqrt_spec v ltac:(lia)) as [Hs1 Hs2]. pose proof (Z.sqrt_pos v). set (n := zlimbs v) in *. set (q := Z.sqrt v) in *. unfold Z.succ in Hs2.
  pose proof (Z.div_mod (n + 1) 2 ltac:(lia)) as E. pose proof (Z.mod_pos_bound (n + 1) 2 ltac:(lia)). set (k := (n + 1) / 2) in *.
  assert (0 < k) by lia. apply zlimbs_unique; [done|]. rewrite Z.abs_eq by lia.
  pose proof (Z.pow_pos_nonneg B (k - 1) ltac:(done) ltac:(lia)). pose proof (Z.pow_pos_nonneg B k ltac:(done) ltac:(lia)).
  assert (B ^ (k - 1) * B ^ (k - 1) ≤ v).
  { rewrite <- Z.pow_add_r by lia. etransitivity; [|exact Hl]. apply Z.pow_le_mono_r; [done|lia]. }
  assert (v < B ^ k * B ^ k).
  { rewrite <- Z.pow_add_r by lia. eapply Z.lt_le_trans; [exact Hu|]. apply Z.pow_le_mono_r; [done|lia]. }
  split; nia.
Qed.

(** A local variable in a function that writes to the frame. *)
Lemma wp_declare_frame {A} F FB (D : positive → Prop) (f : positive → M zst A) (R : A → gmap Z (option Z) → Prop) N s :
  holds F FB D N s →
  (∀ t s1 (D1 : positive → Prop), holds F FB D1 N s1 → D1 t → N !! t = None → ¬ D t → (∀ x, D x → D1 x) →
    wp never (f t) (λ a s2, ∃ F', R a F' ∧ holds F' FB D1 N s2) s1) →
  wp never (with_local f) (λ a s', ∃ F', R a F' ∧ holds F' FB D N s') s.
Proof.
  intros H Hf. apply (wp_local_frame F FB D f _ N s H). intros t s1 H1 Ht HD. eapply wp_mono; [apply (Hf t s1 _ H1); [by left|done|done|by right]|].
  intros a s2 (F' & HR & H2). exists F', FB, N. split; [done|]. split; [done|]. intros s3 H3. by exists F'.
Qed.

(** Copying the limbs of a variable to the frame. *)
Lemma copy_out F FB (D : positive → Prop) N s r z q :
  holds F FB D N s → N !! r = Some (Some z) → 0 ≤ z → frame_room F q (Z.to_nat (zlimbs z)) →
  wp never (d ← limbs_of r; limbsZ (mpn_copyd q d (zlimbs z))) (λ _ s', ∃ xs, Forall limb xs ∧ normalized xs ∧ Z.of_nat (length xs) = zlimbs z ∧ value xs = z ∧
    holds (write_cells F q xs) FB D N s') s.
Proof.
  intros H Hr Hz Hroom. destruct (holds_read N s r z H Hr) as (st & xs & Ho & Hx & Hn & Hl & Hsz & Hv & Hle). rewrite <- Hl in Hroom. rewrite Nat2Z.id in Hroom.
  pose proof (h_frame _ _ _ _ _ H) as [Hfs _]. eapply wp_limbs; [exact Ho|].
  assert (mpn_copyd q (mp_d st) (zlimbs z) (zmem s) = Done tt (write (zmem s) q xs)) as E.
  { rewrite <- Hl. apply mpn_copyd_spec; [done| |].
    - intros i Hi. destruct (proj2 Hroom i Hi) as [x Ex]. exists x. by eapply map_subseteq_spec.
    - destruct (Z.le_gt_cases (mp_d st) q); [by left|right].
      destruct (decide (q + Z.of_nat (length xs) ≤ mp_d st)) as [|Hov]; [done|exfalso].
      destruct (proj2 Hroom (Z.to_nat (mp_d st - q)) ltac:(lia)) as [x Ex]. replace (q + Z.of_nat (Z.to_nat (mp_d st - q))) with (mp_d st) in Ex by lia.
      rewrite (h_apart _ _ _ _ _ H _ _ (mp_d st) Ho) in Ex; [done|]. unfold in_block. lia. }
  eapply wp_run; [by apply limbsZ_run|]. exists xs. split; [apply Hx|]. split; [done|]. split; [done|]. split; [by rewrite Hv, Z.abs_eq|]. apply frame_write; [done|done|apply Hx].
Qed.

Lemma frame_room_write F q n p xs : frame_room F q n → frame_room (write_cells F p xs) q n.
Proof.
  intros [Hq Hr]. split; [done|]. intros i Hi. rewrite lookup_write_cells. case_match eqn:E; [|by apply Hr]. bool_to_prop.
  destruct (lookup_lt_is_Some_2 xs (Z.to_nat (q + Z.of_nat i - p))) as [x ->]; [lia|]. simpl. eauto.
Qed.

(** What mpn_sqrtrem writes. *)
Definition sqrtrem_frame (F : gmap Z (option Z)) (sp : Z) (rp : option Z) (v res : Z) (F' : gmap Z (option Z)) : Prop :=
  ∃ ss rs, F' = (let F1 := write_cells F sp ss in match rp with Some q => write_cells F1 q rs | None => F1 end) ∧
    Forall limb ss ∧ Z.of_nat (length ss) = (zlimbs v + 1) / 2 ∧ value ss = Z.sqrt v ∧
    Forall limb rs ∧ normalized rs ∧ Z.of_nat (length rs) = res ∧ value rs = v - Z.sqrt v * Z.sqrt v.

Lemma mpn_sqrtrem_spec F FB (D : positive → Prop) N s sp rp p xs :
  holds F FB D N s → block_of_limbs F FB p xs → normalized xs → (0 < length xs)%nat → Z.of_nat (length xs) + 4 ≤ alloc_limit →
  frame_room F sp ((length xs + 1) / 2) → (∀ q, rp = Some q → frame_room F q (length xs)) →
  wp never (mpn_sqrtrem sp rp p (Z.of_nat (length xs))) (λ res s', ∃ F', sqrtrem_frame F sp rp (value xs) res F' ∧ holds F' FB D N s') s.
Proof.
  intros H Hb Hnorm Hlen Hlim Hsp Hrp. pose proof (proj1 (block_limbs_at _ _ _ _ _ _ _ H Hb)) as Hl. pose proof (zlimbs_value xs Hl Hnorm) as Ezl. set (v := value xs) in *.
  pose proof (proj1 (normalized_ge xs Hl Hlen) Hnorm) as Hge. pose proof (Z.pow_pos_nonneg B (Z.of_nat (pred (length xs))) ltac:(done) ltac:(lia)). assert (0 < v) as Hv by (unfold v; lia).
  destruct (last xs) as [x|] eqn:Elast; [|apply last_None in Elast; subst xs; simpl in Hlen; lia].
  apply (wp_declare_frame F FB D _ (sqrtrem_frame F sp rp v) N s H). intros t1 s1 D1 H1 HD1 Ht1 _ _.
  apply (wp_declare_frame F FB D1 _ (sqrtrem_frame F sp rp v) N s1 H1). intros t2 s2 D2 H2 HD2 Ht2 Hn2 HD12.
  apply (wp_declare_frame F FB D2 _ (sqrtrem_frame F sp rp v) N s2 H2). intros t3 s3 D3 H3 HD3 Ht3 Hn3 HD23.
  pose proof (block_limbs_at _ _ _ _ _ _ _ H3 Hb) as Hxs3. apply wp_assert; [apply Z.ltb_lt; lia|].
  apply (wp_limbsZ _ _ _ x); [replace (p + (Z.of_nat (length xs) - 1)) with (p + Z.of_nat (length xs) - 1) by lia; by apply last_load|].
  apply wp_assert. { destruct (Z.eqb_spec x 0) as [->|]; [|done]. by destruct (Hnorm Elast). }
  assert (t1 ≠ t2) as H12 by (by intros ->). assert (t1 ≠ t3) as H13 by (intros ->; by apply Hn3, HD12). assert (t2 ≠ t3) as H23 by (by intros ->).
  change N with (binds [] [] N) in H3. assert (locals [] N) as Hl0 by (split; constructor). eapply wp_init_local; [exact H3|done|done|apply not_elem_of_nil|by apply HD23|]. intros s4 H4 Hl4.
  eapply wp_init_local; [exact H4|done|done|by apply not_elem_of_cons; split; [|apply not_elem_of_nil]|by apply HD23, HD12|]. intros s5 H5 Hl5. clear Hl0 Hl4 H3 H4.
  set (N5 := binds [t1; t2] [Some 0; Some 0] N) in *. assert (N5 !! t3 = None) as Ht35 by (unfold N5; rewrite binds_other_key; [done|]; rewrite !not_elem_of_cons; split_and!; [done|done|apply not_elem_of_nil]).
  apply (proj1 (wp_bind_assoc (mpz_roinit_n t3 p (Z.of_nat (length xs))) (λ _, mpz_rootrem (Some t1) (Some t2) t3 2) _ _ _)). apply wp_bind.
  eapply wp_mono; [apply (wp_roinit_block F FB D3 N5 s5 t3 p xs _ (λ _ N', N' = binds [t1; t2] [Some (Z.sqrt v); Some (v - Z.sqrt v * Z.sqrt v)] N) H5 Hb Hnorm Hlen); try done; [lia|auto with reader|]|].
  - intros F0 FB0 s6 H6. eapply wp_mono; [apply (mpz_sqrtrem_spec (F:=F0) (FB:=FB0) (D:=D3) _ s6 t3 v H6 ltac:(by rewrite lookup_insert_eq) t1 (Some t2))|].
    + rewrite lookup_insert_ne by done. unfold N5. look.
    + cbn [opt_in]. rewrite lookup_insert_ne by done. unfold N5. look.
    + congruence.
    + lia.
    + rewrite <- Ezl. lia.
    + intros [] s7 H7. eexists. split; [done|]. cbn [opt_set] in H7. split.
      * rewrite binds_other_key; [done|]. rewrite !not_elem_of_cons. split_and!; [done|done|apply not_elem_of_nil].
      * rewrite (insert_insert_ne _ t2 t3), (insert_insert_ne _ t1 t3) in H7 by done. unfold N5 in H7.
        at_place 1%nat H7. at_place 0%nat H7. exact H7.
  - intros [] s6 (N' & -> & H6). pose proof (Z.sqrt_spec v ltac:(lia)) as [Hs1 Hs2]. pose proof (Z.sqrt_nonneg v) as Hs0. pose proof (zlimbs_sqrt v Hv) as Ezs. rewrite <- Ezl in Ezs.
    eapply wp_size; [exact (holds_sizes _ _ H6)|look|]. assert (zsize (Z.sqrt v) = zlimbs (Z.sqrt v)) as -> by (rewrite <- zsize_abs, Z.abs_eq by (by apply zsize_nonneg); done).
    apply wp_assert; [by apply Z.eqb_eq|].
    apply (proj1 (wp_bind_assoc (limbs_of t1) (λ d, limbsZ (mpn_copyd sp d (zlimbs (Z.sqrt v)))) _ _ _)). apply wp_bind. eapply wp_mono; [eapply copy_out; [exact H6|look|done|]|].
    { rewrite Ezs. replace (Z.to_nat ((Z.of_nat (length xs) + 1) / 2)) with ((length xs + 1) / 2)%nat; [done|]. rewrite <- (Nat2Z.id ((length xs + 1) / 2)), Nat2Z.inj_div. f_equal. lia. }
    intros [] s7 (ss & Hss & Hns & Lss & Vss & H7). eapply (wp_clear_local 0%nat); [exact H7|exact Hl5|reflexivity|reflexivity|]. intros s8 H8 Hl8. cbn [delete list_delete] in H8, Hl8.
    set (r := v - Z.sqrt v * Z.sqrt v) in *. assert (0 ≤ r ≤ v) as Hr by (unfold r, Z.succ in *; nia). pose proof (zlimbs_mono r v ltac:(lia)) as Hzr.
    eapply wp_size; [exact (holds_sizes _ _ H8)|look|]. assert (zsize r = zlimbs r) as -> by (rewrite <- zsize_abs, Z.abs_eq by (apply zsize_nonneg; lia); done).
    apply wp_bind. eapply (wp_mono _ _ (λ _ s', ∃ rs, Forall limb rs ∧ normalized rs ∧ Z.of_nat (length rs) = zlimbs r ∧ value rs = r ∧
      holds (let F1 := write_cells F sp ss in match rp with Some q => write_cells F1 q rs | None => F1 end) FB D3 (binds [t2] [Some r] N) s')).
    { destruct rp as [q|].
      - eapply wp_mono; [eapply copy_out; [exact H8|look|lia|]|done]. apply frame_room_write. destruct (Hrp q eq_refl) as [Hq Hr']. split; [done|]. intros i Hi. apply Hr'. lia.
      - eapply wp_run; [done|]. destruct (holds_read _ _ t2 r H8 ltac:(look)) as (st & rs & _ & Hrs & Hnr & Lrs & _ & Vrs & _). rewrite Z.abs_eq in Vrs by lia. exists rs. split; [apply Hrs|done]. }
    intros [] s9 (rs & Hrs & Hnr & Lrs & Vrs & H9). eapply (wp_clear_local 0%nat); [exact H9|exact Hl8|reflexivity|reflexivity|]. intros s10 H10 _. cbn [delete list_delete binds] in H10.
    eapply wp_run; [done|]. eexists. split; [|exact H10]. exists ss, rs. split_and!; try done. by rewrite Lss, Ezs, Ezl.
Qed.

(** ** Access to the limbs of a variable *)

Section access.
Context (F : gmap Z (option Z)) (FB : gmap Z Z) (D : positive → Prop) (N : vars) (s : zst) (x : positive) (z : Z).
Hypotheses (H : holds F FB D N s) (Hx : N !! x = Some (Some z)).

(** A block of exactly [n] limbs; a number that does not fit becomes 0. *)
Lemma mpz_realloc_any n : 0 < n ≤ alloc_limit →
  wp never (mpz_realloc x n) (λ p s', holds F FB D (<[x := Some (if n <? zlimbs z then 0 else z)]> N) s' ∧ ∃ st, zvars s' !! x = Some (Some st) ∧ mp_d st = p ∧ mp_alloc st = n) s.
Proof.
  intros Hn. destruct (holds_read N s x z H Hx) as (st & xs & Ho & Hxs & Hnorm & Hlen & Hsz & Hval & Hle). destruct (own_block N s x st H Ho) as (Hal & Hszr & _).
  assert (∀ st', own N s x st' → st' = st) as Huniq by (intros st' [_ E]; destruct Ho as [_ E']; congruence).
  unfold mpz_realloc. replace (if 1 <? n then n else 1) with n by (destruct (Z.ltb_spec 1 n); lia). cbv zeta. apply wp_bind. eapply wp_run; [by eapply get_mpz_ok|].
  set (sz := if n <? Z.abs (mp_size st) then 0 else mp_size st). assert (INT_MIN < sz ≤ INT_MAX) as Hsz' by (unfold sz, INT_MIN, INT_MAX in *; destruct (n <? _); lia).
  set (z' := if n <? zlimbs z then 0 else z). assert (∀ m, limbs_at m (next (zmem s)) (if n <? zlimbs z then [] else xs) → mpz_value m (Mk_mpz n sz (next (zmem s))) z') as Hv.
  { intros m Hm. exists (if n <? zlimbs z then [] else xs). unfold z', sz. rewrite Hsz, zsize_abs. destruct (Z.ltb_spec n (zlimbs z)); simpl; [split_and!; (done || lia)|].
    rewrite zsize_abs, zsize_sgn. split_and!; try done; try lia. }
  assert (∃ m', (if negb (mp_alloc st =? 0) then gmp_xrealloc_limbs (mp_d st) n else gmp_xalloc_limbs n) (zmem s) = Done (next (zmem s)) m' ∧
    holds F FB D (<[x := Some z']> N) (Mk_zst m' (<[x := Some (Mk_mpz n sz (next (zmem s)))]> (zvars s)) (zlocal s))) as (m' & E & H').
  { destruct (h_wf _ _ _ _ _ H) as [Hwf Hnn]. destruct (Z.eqb_spec (mp_alloc st) 0) as [E0|E0]; cbn [negb].
    - exists (grow (zmem s) n). split; [apply xalloc_ok; lia|]. pose proof (zlimbs_nonneg z). apply holds_fresh; try done.
      + destruct Ho. eauto.
      + apply mem_wf_grow; [done|lia].
      + simpl. lia.
      + apply writable_new.
      + intros a Ha _. simpl. rewrite lookup_fresh_cells. by guard_false ((next (zmem s) <=? a) && (a <? next (zmem s) + Z.of_nat (Z.to_nat n))).
      + intros a k. simpl. destruct (decide (a = next (zmem s))) as [->|Hne].
        * rewrite lookup_insert_eq. destruct (Hwf (next (zmem s)) ltac:(lia)) as [_ ->]. split; [intros [= ->]; by left|]. intros [[_ ->]|[? _]]; done.
        * rewrite lookup_insert_ne by done. split; [|by intros [[? _]|[? _]]; [congruence|]]. intros Hk. right. split; [done|]. intros st' ->%Huniq. lia.
      + intros z0 [= <-]. apply Hv. destruct xs; [|simpl in Hlen; lia]. case_match; apply limbs_at_nil.
    - destruct (realloc_moves N s x st n H Ho) as (m' & E & Hwf' & Hnx & Hw & Hc & Hbl & Hlm); [lia|lia|]. exists m'. split; [done|]. apply holds_fresh; try done.
      + destruct Ho. eauto.
      + intros a Ha Hin. apply Hc; [done|]. by apply Hin.
      + intros a k. rewrite Hbl. split; (intros [?|[? Hne]]; [by left|right; split; [done|]]); [intros st' ->%Huniq; done|]. apply (Hne st Ho). lia.
      + intros z0 [= <-]. apply Hv. destruct (Z.ltb_spec n (zlimbs z)); [apply limbs_at_nil|]. apply Hlm; [done|lia..]. }
  apply wp_bind. eapply wp_run; [unfold limbsZ, zoom; by rewrite E|]. apply wp_bind. eapply wp_run; [by apply (put_mpz_ok N _ x st)|]. fold sz. rewrite to_int_id by (unfold INT_MIN, INT_MAX, alloc_limit in *; lia).
  eapply wp_run; [done|]. split; [exact H'|]. eexists. split; [simpl; by rewrite lookup_insert_eq|done].
Qed.

(** A number of at most [n] bits survives mpz_realloc2. *)
Lemma mpz_realloc2_spec n : 0 ≤ n < 64 * alloc_limit →
  wp never (mpz_realloc2 x n) (λ _ s', ∃ z', holds F FB D (<[x := Some z']> N) s' ∧ (Z.abs z < 2 ^ n → z' = z) ∧ (z' = z ∨ z' = 0)) s.
Proof.
  intros Hn. unfold mpz_realloc2. change GMP_LIMB_BITS with 64. set (k := 1 + (n - b2l (negb (n =? 0))) / 64).
  assert (n ≤ 64 * k ∧ 0 < k ≤ alloc_limit) as [Hk Hk0].
  { unfold k. destruct (Z.eqb_spec n 0) as [->|Hne]; cbn [negb b2l]; [change ((0 - 0) / 64) with 0; unfold alloc_limit; lia|].
    pose proof (Z.div_mod (n - 1) 64 ltac:(lia)). pose proof (Z.mod_pos_bound (n - 1) 64 ltac:(lia)). unfold alloc_limit in *. lia. }
  apply wp_bind. eapply wp_mono; [apply (mpz_realloc_any k Hk0)|]. intros p s1 [H1 _]. eapply wp_run; [done|]. eexists. split; [exact H1|]. destruct (Z.ltb_spec k (zlimbs z)) as [Hlt|]; [|split; [done|by left]].
  split; [|by right]. intros Hz. exfalso. destruct (Z.eq_dec z 0) as [->|Hne]; [change (zlimbs 0) with 0 in Hlt; lia|].
  pose proof (abs_ge z Hne) as Hge. assert (B ^ k ≤ B ^ (zlimbs z - 1)) as HB by (apply Z.pow_le_mono_r; [done|lia]). rewrite (B_pow k) in HB by lia.
  assert (2 ^ n ≤ 2 ^ (64 * k)) by (apply Z.pow_le_mono_r; lia). lia.
Qed.

(** mpz_limbs_write gives room for [n] limbs and keeps the number. *)
Lemma mpz_limbs_write_spec n : 0 < n ≤ alloc_limit →
  wp never (mpz_limbs_write x n) (λ p s', holds F FB D N s' ∧ ∃ st, own N s' x st ∧ mp_d st = p ∧ n ≤ mp_alloc st) s.
Proof.
  intros Hn. unfold mpz_limbs_write, mpz_limbs_modify. apply wp_assert; [apply Z.ltb_lt; lia|]. destruct (holds_own N s x H ltac:(eauto)) as (st & Ho & _).
  eapply wp_mono; [apply (MPZ_REALLOC_spec N s x st n H Ho); lia|]. intros p s1 (H1 & _ & st1 & Ho1 & E & Hal & _). split; [done|]. by exists st1.
Qed.
End access.

(** Limbs written through the pointer become the number. *)
Lemma mpz_limbs_finish_spec F FB (D : positive → Prop) N s x st rs n :
  filled (F:=F) (FB:=FB) (D:=D) N s x st rs → Z.abs n ≤ Z.of_nat (length rs) →
  wp never (mpz_limbs_finish x n) (λ _ s', holds F FB D (<[x := Some (Z.sgn n * value (take (Z.to_nat (Z.abs n)) rs))]> N) s') s.
Proof.
  intros (H & Ho & Hl & Hle) Hn. set (k := Z.to_nat (Z.abs n)). unfold mpz_limbs_finish. eapply wp_limbs; [exact Ho|].
  assert (filled (F:=F) (FB:=FB) (D:=D) N s x st (take k rs)) as Hf.
  { split; [done|]. split; [done|]. rewrite length_take. split; [|lia]. rewrite <- (take_drop k rs) in Hl. by apply limbs_at_app in Hl as [? _]. }
  assert (Z.abs n = Z.of_nat (length (take k rs))) as Ek by (rewrite length_take; unfold k; lia). rewrite Ek. apply wp_bind. eapply wp_mono; [by apply (wp_normalized (F:=F) (FB:=FB) (D:=D) N s x st)|].
  intros j s1 [-> Hp]. apply pending_finish. destruct (Z.ltb_spec n 0) as [Hneg|Hpos].
  - rewrite Z.sgn_neg by lia. replace (-1 * value (take k rs)) with (- value (take k rs)) by lia. by apply pending_opp.
  - destruct (Z.eq_dec n 0) as [->|]; [simpl in *|rewrite Z.sgn_pos by lia; by rewrite Z.mul_1_l]. by replace (value (take k rs)) with 0 in Hp by done.
Qed.
