(* ===== verification/MpzPowm.v ===== *)
(** * Modular powers

    mpz_powm and mpz_powm_ui. The modulus is shifted once so that its highest
    bit is set, and every reduction but the last one is by the shifted modulus,
    a multiple of the modulus itself. *)

From S2P Require Import Prelude Limbs Mpn Invert MpnDiv MpnDivN MpnStr MpnSetStr MpnGetStr Mpz MpzRep MpzArith MpzMul MpzDivision MpzFrame MpzDivShort MpzLocals MpzGcd MpzBits MpzGcdExt MpzLogic MpzCount MpzScan MpzPow MpzSize MpzRoot MpzReader MpzBorrow.

(** ** Definitions *)

(** [minv.shift = s] *)
Definition set_shift (s : Z) (inv : gmp_div_inverse) : gmp_div_inverse := Mk_inv s (d1 inv) (d0 inv) (di inv).

(** Division of [x] by the modulus, and the size of the remainder. *)
Definition powm_reduce (x : positive) (mp mn : Z) (minv : gmp_div_inverse) : M zst unit :=
  d ← limbs_of x;
  xs ← size_of x;
  _ ← limbsZ (mpn_div_qr_preinv None d xs mp mn minv);
  d ← limbs_of x;
  n ← limbsZ (mpn_normalized_size d mn);
  set_size x n.

(** The modulus that the reductions use: a shifted copy in a block of its own,
    or the limbs of [m] themselves. *)
Definition powm_modulus (mp mn : Z) : M zst (option Z * Z * gmp_div_inverse) :=
  minv ← limbsZ (mpn_div_qr_invert mp mn);
  if 0 <? shift minv then
    tp ← limbsZ (gmp_xalloc_limbs mn);
    _ ← limbsZ (gmp_assert_nocarry (mpn_lshift tp mp mn (shift minv)));
    mret (Some tp, tp, minv)
  else mret (None, mp, minv).

(** The sign of the base, and its size. *)
Definition powm_sign (base b : positive) (mp mn bn : Z) : M zst unit :=
  bs ← size_of b;
  bn ← (if bs <? 0 then
          bp ← MPZ_REALLOC base mn;
          _ ← limbsZ (gmp_assert_nocarry (mpn_sub bp mp mn bp bn));
          mret mn
        else mret bn);
  d ← limbs_of base;
  n ← limbsZ (mpn_normalized_size d bn);
  set_size base n.

(** The base of a power with a positive exponent, reduced. *)
Definition powm_base (base b : positive) (mp mn : Z) (minv : gmp_div_inverse) : M zst unit :=
  _ ← mpz_abs base b;
  bn ← size_of base;
  bn ← (if mn <=? bn then
          d ← limbs_of base;
          bs ← size_of base;
          _ ← limbsZ (mpn_div_qr_preinv None d bs mp mn minv);
          mret mn
        else mret bn);
  powm_sign base b mp mn bn.

(** [do ... while (bit > 0)] *)
Fixpoint powm_bits (fuel : nat) (tr base : positive) (mp mn : Z) (minv : gmp_div_inverse) (w bit : Z) : M zst unit :=
  match fuel with
  | O => failM Undefined
  | S fuel' =>
      _ ← mpz_mul tr tr tr;
      _ ← whenM (negb (Z.land w bit =? 0)) (mpz_mul tr tr base);
      ts ← size_of tr;
      _ ← whenM (mn <? ts) (powm_reduce tr mp mn minv);
      let bit := lshr bit 1 in
      if 0 <? bit then powm_bits fuel' tr base mp mn minv w bit else mret tt
  end.

(** [while (--en >= 0)] *)
Fixpoint powm_limbs (en : nat) (tr base e : positive) (mp mn : Z) (minv : gmp_div_inverse) : M zst unit :=
  match en with
  | O => mret tt
  | S en' =>
      ep ← limbs_of e;
      w ← limbsZ (load (ep + Z.of_nat en'));
      _ ← powm_bits 64 tr base mp mn minv w GMP_LIMB_HIGHBIT;
      powm_limbs en' tr base e mp mn minv
  end.

Definition mpz_powm (r b e m : positive) : M zst unit :=
  with_local (λ tr, with_local (λ base,
    es ← size_of e;
    let en := Z.abs es in
    ms ← size_of m;
    let mn := Z.abs ms in
    if mn =? 0 then gmp_die
    else if en =? 0 then mpz_set_ui r 1
    else
      mp ← limbs_of m;
      '(tp, mp, minv) ← powm_modulus mp mn;
      let shift := shift minv in
      let minv := set_shift 0 minv in
      _ ← mpz_init base;
      es ← size_of e;
      _ ← (if es <? 0 then
             ok ← mpz_invert base b m;
             if (ok : bool) then mret tt else gmp_die
           else powm_base base b mp mn minv);
      _ ← mpz_init_set_ui tr 1;
      _ ← powm_limbs (Z.to_nat en) tr base e mp mn minv;
      ts ← size_of tr;
      _ ← whenM (mn <=? ts) (powm_reduce tr mp mn (set_shift shift minv));
      _ ← match tp with Some tp => limbsZ (gmp_free tp) | None => mret tt end;
      _ ← mpz_swap r tr;
      _ ← mpz_clear tr;
      mpz_clear base)).

Definition mpz_powm_ui (r b : positive) (elimb : Z) (m : positive) : M zst unit :=
  with_limb elimb (λ p, with_local (λ e,
    _ ← mpz_roinit_n e p 1;
    mpz_powm r b e m)).

(** ** Readers *)

Section readers.
Context (q : positive).
Lemma powm_reduce_reader x mp mn inv : x ≠ q → reader q (powm_reduce x mp mn inv).
Proof. unfold powm_reduce. reader_body. Qed.
Lemma powm_modulus_reader mp mn : reader q (powm_modulus mp mn).
Proof. unfold powm_modulus. reader_body. Qed.
Lemma powm_sign_reader base b mp mn bn : base ≠ q → reader q (powm_sign base b mp mn bn).
Proof. unfold powm_sign. reader_body. Qed.
#[local] Hint Resolve powm_sign_reader : reader.
Lemma powm_base_reader base b mp mn inv : base ≠ q → reader q (powm_base base b mp mn inv).
Proof. unfold powm_base. reader_body. Qed.
#[local] Hint Resolve powm_reduce_reader powm_modulus_reader powm_base_reader : reader.
Lemma powm_bits_reader fuel tr base mp mn inv w bit : tr ≠ q → reader q (powm_bits fuel tr base mp mn inv w bit).
Proof. intros. revert bit. induction fuel; cbn [powm_bits]; reader_body. Qed.
#[local] Hint Resolve powm_bits_reader : reader.
Lemma powm_limbs_reader en tr base e mp mn inv : tr ≠ q → reader q (powm_limbs en tr base e mp mn inv).
Proof. intros. induction en; cbn [powm_limbs]; reader_body. Qed.
#[local] Hint Resolve powm_limbs_reader : reader.
Lemma powm_reader r b e m : r ≠ q → reader q (mpz_powm r b e m).
Proof. unfold mpz_powm, gmp_die. reader_body. Qed.
End readers.
#[export] Hint Resolve powm_reduce_reader powm_base_reader powm_bits_reader powm_limbs_reader powm_reader : reader.

(** ** The prepared modulus *)

Lemma prepared_unshift s D es inv : prepared s D es inv → prepared 0 (value es) es (set_shift 0 inv).
Proof.
  intros [e He _|elo e0 e1 Hl H0 H1 _]; unfold set_shift; cbn [d1 d0 di].
  - apply prepared_one; [done|]. cbn [value]. lia.
  - apply prepared_more; try done. lia.
Qed.

Lemma set_shift_twice s s' inv : set_shift s (set_shift s' inv) = set_shift s inv.
Proof. done. Qed.

Lemma set_shift_same inv : set_shift (shift inv) inv = inv.
Proof. by destruct inv. Qed.

(** A normalised modulus has its highest bit set. *)
Lemma prepared_top s D es inv : prepared s D es inv → B ^ Z.of_nat (length es) ≤ 2 * value es ∧ (0 < length es)%nat.
Proof.
  assert (B = 2 * GMP_LIMB_HIGHBIT) as HB by done.
  intros [e He _|elo e0 e1 Hl H0 H1 _].
  - cbn [length value]. rewrite Z.pow_1_r. lia.
  - rewrite length_app. cbn [length]. split; [|lia]. rewrite value_app. cbn [value]. rewrite Z.mul_0_r, Z.add_0_r. pose proof (value_bounds elo Hl) as [? _]. pose proof (pow_pos (length elo)).
    replace (length elo + 2)%nat with (S (S (length elo))) by lia. rewrite !pow_S. unfold limb in H0. set (p := B ^ Z.of_nat (length elo)) in *.
    assert (B * (B * p) ≤ 2 * (p * (B * e1))) by (replace (2 * (p * (B * e1))) with (B * p * (2 * e1)) by ring; replace (B * (B * p)) with (B * p * B) by ring; apply Z.mul_le_mono_nonneg_l; unfold B in *; lia).
    assert (0 ≤ p * e0) by (apply Z.mul_nonneg_nonneg; lia). lia.
Qed.

Lemma zsize_eq z : 0 ≤ z → zsize z = zlimbs z.
Proof. intros Hz. destruct (zsize_cases z) as [[? _]|[_ ?]]; [done|lia]. Qed.

(** The size is set after the limbs. *)
Lemma finish_filled F FB (D : positive → Prop) N s x st rs (k : nat) :
  filled (F:=F) (FB:=FB) (D:=D) N s x st rs → (k ≤ length rs)%nat →
  wp never (d ← limbs_of x; n ← limbsZ (mpn_normalized_size d (Z.of_nat k)); set_size x n) (λ _ s', holds F FB D (<[x := Some (value (take k rs))]> N) s') s.
Proof.
  intros (H & Ho & Hl & Hle) Hk. eapply wp_limbs; [exact Ho|].
  assert (filled (F:=F) (FB:=FB) (D:=D) N s x st (take k rs)) as Hf.
  { split; [done|]. split; [done|]. rewrite length_take. split; [|lia]. rewrite <- (take_drop k rs) in Hl. by apply limbs_at_app in Hl as [? _]. }
  replace (Z.of_nat k) with (Z.of_nat (length (take k rs))) by (rewrite length_take; lia). apply wp_bind. eapply wp_mono; [by apply (wp_normalized (F:=F) (FB:=FB) (D:=D) N s x st)|].
  intros j s1 [-> Hp]. by apply pending_finish.
Qed.

(** ** Reductions *)

Section reduce.
Context (F : gmap Z (option Z)) (FB : gmap Z Z) (D : positive → Prop) (m : positive) (mv : Z) (stm : mpz_struct) (mp : Z) (es : list Z).
Local Abbreviation mn := (Z.of_nat (length es)).

(** The struct of [m] is the one that was read at the start. *)
Definition pinned (s : zst) : Prop := zvars s !! m = Some (Some stm) ∧ (m < zlocal s)%positive.

(** The limbs [es] are at [mp], apart from the blocks of the other variables. *)
Definition modulus_kept : Prop := ∀ N s, holds F FB D N s → N !! m = Some (Some mv) → pinned s →
  limbs_at (zmem s) mp es ∧ ∀ x st, x ≠ m → own N s x st → disjoint (mp_d st) (mp_alloc st) mp mn.

Lemma wp_pinned {A} (k : M zst A) (Q : A → zst → Prop) s : reader m k → pinned s → wp never k Q s → wp never k (λ a s', Q a s' ∧ pinned s') s.
Proof.
  intros Hr [Hz Hl]. unfold wp. destruct (k s) as [a s'| |e] eqn:E; [|done|by destruct e]. intros HQ. split; [done|].
  destruct (rd_keeps _ _ Hr _ _ _ Hl E) as [E1 ?]. split; [congruence|done].
Qed.

Context (Hmod : modulus_kept).
Context (N : vars) (s : zst) (x : positive) (z : Z).
Hypotheses (H : holds F FB D N s) (Hm : N !! m = Some (Some mv)) (Hpin : pinned s) (Hne : x ≠ m) (Hx : N !! x = Some (Some z)) (Hz : 0 ≤ z).
Hypotheses (Hlen : (0 < length es)%nat) (Hle : mn ≤ zlimbs z).

(** The division leaves the remainder in the low limbs. *)
Lemma reduce_division sh Dv inv :
  prepared sh Dv es inv → 0 < Dv → 0 ≤ sh < 64 →
  ∃ st rs m', own N s x st ∧ mp_size st = zlimbs z ∧ mpn_div_qr_preinv None (mp_d st) (zlimbs z) mp mn inv (zmem s) = Done tt m' ∧
    filled (F:=F) (FB:=FB) (D:=D) N (set_mem s m') x st rs ∧ Z.of_nat (length rs) = zlimbs z ∧ value (take (length es) rs) = z mod Dv.
Proof.
  intros Hprep HD Hsh. destruct (holds_read N s x z H Hx) as (st & xs & Ho & Hxs & Hnorm & Hl & Hsz & Hv & Hal). rewrite Z.abs_eq in Hv by lia.
  pose proof (zsize_eq z Hz) as Ezs. destruct (Hmod N s H Hm Hpin) as [Hes Hdis]. specialize (Hdis x st Hne Ho).
  destruct (own_block N s x st H Ho) as (Hall & _ & _). destruct (h_wf _ _ _ _ _ H) as [Hwf _].
  destruct (preinv_divides (zmem s) None (mp_d st) mp xs es sh Dv inv) as (m' & E & qs & rs & Ht & _ & _ & Hrs & Lrs & _ & Vr); try done.
  - split_and!; try done; lia.
  - intros _. split; [done|]. split; [|done]. unfold disjoint in *. lia.
  - cbn [write_opt] in Ht. exists st, rs, m'. rewrite <- Hl, Lrs, Vr, Hv. split_and!; try done; [by rewrite Hsz, Ezs|].
    split; [|split; [done|]].
    + apply (holds_write (F:=F) (FB:=FB) (D:=D) N s x st m' H Ho). eapply touches_temp; [apply (touches_write (F:=F) (FB:=FB) (D:=D) N s x st rs H Ho); lia|exact Ht].
    + split; [|lia]. destruct Ht as (k & _ & ->). by apply limbs_at_write.
Qed.

Lemma powm_reduce_spec sh Dv inv :
  prepared sh Dv es inv → 0 < Dv → 0 ≤ sh < 64 → wp never (powm_reduce x mp mn inv) (λ _ s', holds F FB D (<[x := Some (z mod Dv)]> N) s' ∧ pinned s') s.
Proof.
  intros Hprep HD Hsh. apply wp_pinned; [by apply powm_reduce_reader|done|]. destruct (reduce_division sh Dv inv Hprep HD Hsh) as (st & rs & m' & Ho & Hsz & E & Hf & Hl & Hv).
  unfold powm_reduce. eapply wp_limbs; [exact Ho|]. eapply wp_own_size; [exact Ho|]. rewrite Hsz. apply wp_bind. eapply wp_run; [by apply limbsZ_run|].
  rewrite <- Hv. eapply (finish_filled F FB D N); [exact Hf|lia].
Qed.
End reduce.

Section modulus.
Context (es : list Z) (inv : gmp_div_inverse) (P : Z) (Hprep : prepared 0 P es inv).
Local Abbreviation mn := (Z.of_nat (length es)).

Lemma modulus_value : value es = P ∧ (0 < length es)%nat ∧ 0 < P ∧ zlimbs P = mn.
Proof.
  pose proof (prepared_value _ _ _ _ Hprep) as HP. rewrite Z.pow_0_r, Z.mul_1_r in HP. destruct (prepared_top _ _ _ _ Hprep) as [Ht Hl]. rewrite HP in Ht.
  pose proof (pow_pos (length es)). split; [done|]. split; [done|]. split; [lia|].
  assert (Forall limb es) as Hes. { destruct Hprep as [e He _|elo e0 e1 Hlo H0 H1 _]; [constructor; [unfold limb, GMP_LIMB_HIGHBIT in *; lia|constructor]|]. apply Forall_app. split; [done|]. repeat (constructor; [unfold limb, GMP_LIMB_HIGHBIT in *; lia|]). constructor. }
  rewrite <- HP. rewrite <- (zlimbs_value es Hes); [done|]. apply normalized_ge; [done|done|]. rewrite HP. replace (length es) with (S (pred (length es))) in Ht at 1 by lia. rewrite pow_S in Ht. 
  pose proof (pow_pos (pred (length es))). unfold B at 1 in Ht. lia.
Qed.

Lemma below_modulus c : 0 ≤ c ≤ P → zlimbs c ≤ mn.
Proof. intros Hc. destruct modulus_value as (_ & _ & ? & <-). apply zlimbs_mono. lia. Qed.

End modulus.

(** ** The base *)

Section base.
Context (F : gmap Z (option Z)) (FB : gmap Z Z) (D : positive → Prop) (m : positive) (mv : Z) (stm : mpz_struct) (mp : Z) (es : list Z).
Context (Hmod : modulus_kept F FB D m mv stm mp es) (inv : gmp_div_inverse) (P : Z).
Hypotheses (Hprep : prepared 0 P es inv).
Local Abbreviation mn := (Z.of_nat (length es)).

Context (N : vars) (base : positive).
Hypotheses (Hm : N !! m = Some (Some mv)) (Hbm : base ≠ m).

(** The subtraction from the modulus, in place. *)
Lemma base_negate {A} N' s st xs (f : unit → M zst A) Q :
  holds F FB D N' s → N' !! m = Some (Some mv) → pinned m stm s → own N' s base st → mn ≤ mp_alloc st →
  limbs_at (zmem s) (mp_d st) xs → (length xs ≤ length es)%nat → value xs ≤ P →
  (∀ s' rs, filled (F:=F) (FB:=FB) (D:=D) N' s' base st rs → length rs = length es → value rs = P - value xs → pinned m stm s' → wp never (f tt) Q s') →
  wp never (limbsZ (gmp_assert_nocarry (mpn_sub (mp_d st) mp mn (mp_d st) (Z.of_nat (length xs)))) ≫= f) Q s.
Proof.
  intros H Hm' Hpin Ho Hal Hxs Hl Hle Hf. destruct (modulus_value _ _ _ Hprep) as (HPv & HPl & HP & _). destruct (Hmod N' s H Hm' Hpin) as [Hes Hdis]. specialize (Hdis base st Hbm Ho).
  pose proof (block_writable _ _ (own_block N' s base st H Ho)) as Hw.
  destruct (mpn_sub_spec (zmem s) (mp_d st) mp (mp_d st) es xs) as (c & rs & E & Hrs & Lrs & Hc & V); try done.
  - intros i Hi. apply Hw. lia.
  - unfold upward, disjoint in *. lia.
  - unfold upward. lia.
  - pose proof (value_bounds rs Hrs) as [? Hu]. rewrite Lrs in Hu. unfold limb in Hc. assert (c = 0) as -> by nia. rewrite HPv in V.
    assert (gmp_assert_nocarry (mpn_sub (mp_d st) mp mn (mp_d st) (Z.of_nat (length xs))) (zmem s) = Done tt (write (zmem s) (mp_d st) rs)) as E1 by (unfold gmp_assert_nocarry; by rewrite (bind_done _ _ _ _ _ E)).
    apply wp_bind. eapply wp_mono; [apply (filled_write (F:=F) (FB:=FB) (D:=D) N' s base st _ _ rs H Ho E1 Hrs); lia|]. intros [] s' (_ & -> & Hfl). apply (Hf _ rs); try done. lia.
Qed.

Definition signed_base (zb w : Z) : Z := if zb <? 0 then P - w else w.

Context (b : positive) (zb : Z).
Hypotheses (Hb : N !! b = Some (Some zb)) (Hbb : b ≠ base) (Hlim : mn ≤ alloc_limit).

(** A base of fewer limbs than the modulus. *)
Lemma powm_sign_short s :
  holds F FB D N s → pinned m stm s → N !! base = Some (Some (Z.abs zb)) → zlimbs zb < mn →
  wp never (powm_sign base b mp mn (zlimbs zb)) (λ _ s', holds F FB D (<[base := Some (signed_base zb (Z.abs zb))]> N) s' ∧ pinned m stm s') s.
Proof.
  intros H Hpin Hx Hlt. apply wp_pinned; [by apply powm_sign_reader|done|]. destruct (modulus_value _ _ _ Hprep) as (HPv & HPl & HP & HPz).
  assert (Z.abs zb < P) as Hlt'. { pose proof (abs_lt zb). pose proof (abs_ge P ltac:(lia)). assert (B ^ zlimbs zb ≤ B ^ (zlimbs P - 1)) by (apply Z.pow_le_mono_r; [done|lia]). lia. }
  unfold powm_sign, signed_base. eapply wp_size; [exact (holds_sizes _ _ H)|done|]. pose proof (zsize_nonneg zb). replace (zsize zb <? 0) with (zb <? 0) by (destruct (Z.ltb_spec zb 0), (Z.ltb_spec (zsize zb) 0); (done || lia)).
  destruct (holds_own N s base H ltac:(eauto)) as (st0 & Ho0 & _). destruct (Z.ltb_spec zb 0).
  - apply wp_bind_assoc. apply wp_bind. eapply wp_mono; [apply (wp_pinned m stm _ (roomy (F:=F) (FB:=FB) (D:=D) N s base st0 mn) s); [|exact Hpin|apply (MPZ_REALLOC_spec (F:=F) (FB:=FB) (D:=D) N s base st0 mn H Ho0 Hlim)]; auto with reader|].
    intros bp s1 [(Hs1 & _ & st & Ho & <- & Hal & _) Hpin1]. destruct (holds_read N s1 base _ Hs1 Hx) as (st' & xs & Ho' & Hxs & _ & Lxs & _ & Vxs & _).
    assert (st' = st) as -> by (destruct Ho as [_ E], Ho' as [_ E']; congruence). rewrite zlimbs_abs in Lxs. rewrite Z.abs_idemp in Vxs. rewrite <- Lxs.
    apply wp_bind_assoc. apply (base_negate N s1 st xs); try done; [lia|lia|]. intros s2 rs Hfl Lrs Vrs Hpin2. rewrite <- Lrs. eapply wp_mono; [apply (finish_filled F FB D N s2 base st rs (length rs)); done|].
    intros [] s3 H3. rewrite take_ge in H3 by lia. by rewrite Vrs, Vxs in H3.
  - destruct (holds_read N s base _ H Hx) as (st & xs & Ho & Hxs & _ & Lxs & _ & Vxs & Hle). rewrite zlimbs_abs in *. rewrite Z.abs_idemp in Vxs. rewrite <- Lxs in *.
    eapply wp_mono; [apply (finish_filled F FB D N s base st xs (length xs)); [|done]|]; [by split; [apply holds_raw; eauto|]|]. intros [] s3 H3. rewrite take_ge in H3 by lia. by rewrite Vxs in H3.
Qed.
(** A base that has been reduced: its low limbs are the remainder. *)
Lemma powm_sign_long s st rs w :
  filled (F:=F) (FB:=FB) (D:=D) N s base st rs → pinned m stm s → (length es ≤ length rs)%nat → value (take (length es) rs) = w → w ≤ P →
  wp never (powm_sign base b mp mn mn) (λ _ s', holds F FB D (<[base := Some (signed_base zb w)]> N) s' ∧ pinned m stm s') s.
Proof.
  intros Hf Hpin Hl Hw Hle. pose proof Hf as (H & Ho & Hrs & Hal). apply wp_pinned; [by apply powm_sign_reader|done|]. pose proof (raw_own _ _ _ _ Ho) as Hor.
  unfold powm_sign, signed_base. eapply wp_size; [exact (holds_sizes _ _ H)|by rewrite lookup_insert_ne|]. pose proof (zsize_nonneg zb). replace (zsize zb <? 0) with (zb <? 0) by (destruct (Z.ltb_spec zb 0), (Z.ltb_spec (zsize zb) 0); (done || lia)).
  destruct (Z.ltb_spec zb 0).
  - apply wp_bind_assoc. apply wp_bind. unfold MPZ_REALLOC. apply wp_bind. eapply wp_run; [by eapply get_mpz_ok|]. rewrite (proj2 (Z.ltb_ge _ _)) by lia. eapply wp_run; [done|].
    apply wp_bind_assoc. assert (mn = Z.of_nat (length (take (length es) rs))) as Et by (rewrite length_take; lia). rewrite Et at 2.
    apply (base_negate (<[base := None]> N) s st (take (length es) rs)); try done; try lia.
    + by rewrite lookup_insert_ne.
    + rewrite <- (take_drop (length es) rs) in Hrs. by apply limbs_at_app in Hrs as [? _].
    + intros s2 rs2 (H2 & Ho2 & Hrs2 & Hal2) Lrs Vrs Hpin2. rewrite insert_insert_eq in H2. rewrite <- Lrs.
      eapply wp_mono; [apply (finish_filled F FB D N s2 base st rs2 (length rs2)); [|done]|]; [split; [done|split; [|done]]|].
      * split; [apply Ho|apply Ho2].
      * intros [] s3 H3. rewrite take_ge in H3 by lia. by rewrite Vrs, Hw in H3.
  - eapply wp_mono; [by apply (finish_filled F FB D N s base st rs (length es))|]. intros [] s3 H3. by rewrite Hw in H3.
Qed.
End base.

Lemma powm_base_spec F FB (D : positive → Prop) m mv stm mp es inv P N base b zb o s :
  modulus_kept F FB D m mv stm mp es → prepared 0 P es inv → Z.of_nat (length es) ≤ alloc_limit →
  holds F FB D N s → pinned m stm s → N !! m = Some (Some mv) → N !! b = Some (Some zb) → N !! base = Some o → base ≠ m → b ≠ base →
  wp never (powm_base base b mp (Z.of_nat (length es)) inv) (λ _ s', ∃ c, 0 ≤ c ≤ P ∧ (c mod P = zb mod P) ∧ holds F FB D (<[base := Some c]> N) s' ∧ pinned m stm s') s.
Proof.
  intros Hmod Hprep Hlim H Hpin Hm Hb Hx Hbm Hbb. destruct (modulus_value _ _ _ Hprep) as (HPv & HPl & HP & HPz). unfold powm_base.
  apply wp_bind. eapply wp_mono; [apply (wp_pinned m stm _ (λ _ s', holds F FB D (<[base := Some (Z.abs zb)]> N) s') s); [auto with reader|done|]|].
  { apply (mpz_abs_spec (F:=F) (FB:=FB) (D:=D) N s base b zb); [done|eauto|done]. }
  intros [] s1 [H1 Hpin1]. set (N1 := <[base := Some (Z.abs zb)]> N) in *. assert (N1 !! m = Some (Some mv)) as Hm1 by (unfold N1; by rewrite lookup_insert_ne).
  assert (N1 !! b = Some (Some zb)) as Hb1 by (unfold N1; by rewrite lookup_insert_ne). assert (N1 !! base = Some (Some (Z.abs zb))) as Hx1 by (unfold N1; by rewrite lookup_insert_eq).
  assert (∀ c, <[base := Some c]> N1 = <[base := Some c]> N) as EN by (intros c; unfold N1; by rewrite insert_insert_eq).
  eapply wp_size; [exact (holds_sizes _ _ H1)|done|]. rewrite (zsize_eq (Z.abs zb)), zlimbs_abs by lia. destruct (Z.leb_spec (Z.of_nat (length es)) (zlimbs zb)) as [Hge|Hlt].
  - destruct (reduce_division F FB D m mv stm mp es Hmod N1 s1 base (Z.abs zb) H1 Hm1 Hpin1 Hbm Hx1 ltac:(lia) HPl ltac:(by rewrite zlimbs_abs) 0 P inv Hprep HP ltac:(lia)) as (st & rs & m' & Ho & Hsz & E & Hf & Hl & Hv).
    rewrite zlimbs_abs in *. apply wp_bind_assoc. eapply wp_limbs; [exact Ho|]. apply wp_bind_assoc. eapply wp_own_size; [exact Ho|]. rewrite Hsz. apply wp_bind_assoc. apply wp_bind. eapply wp_run; [by apply limbsZ_run|].
    apply wp_bind. eapply wp_run; [done|]. pose proof (Z.mod_pos_bound (Z.abs zb) P HP).
    eapply wp_mono; [apply (powm_sign_long F FB D m mv stm mp es Hmod inv P Hprep N1 base Hm1 Hbm b zb Hb1 Hbb (set_mem s1 m') st rs (Z.abs zb mod P)); (done || lia)|].
    intros [] s2 [H2 Hpin2]. rewrite EN in H2. eexists. split; [|split; [|split; [exact H2|done]]]; unfold signed_base; destruct (Z.ltb_spec zb 0); try lia.
    + rewrite Z.abs_neq by lia. rewrite Zminus_mod_idemp_r. replace (P - - zb) with (zb + 1 * P) by lia. by apply Z.mod_add; lia.
    + by rewrite Z.abs_eq, Z.mod_mod by lia.
  - apply wp_bind. eapply wp_run; [done|].
    eapply wp_mono; [apply (powm_sign_short F FB D m mv stm mp es Hmod inv P Hprep N1 base Hm1 Hbm b zb Hb1 Hbb Hlim s1 H1 Hpin1 Hx1 Hlt)|].
    intros [] s2 [H2 Hpin2]. rewrite EN in H2. assert (Z.abs zb < P) as Hlt'. { pose proof (abs_lt zb). pose proof (abs_ge P ltac:(lia)). assert (B ^ zlimbs zb ≤ B ^ (zlimbs P - 1)) by (apply Z.pow_le_mono_r; [done|lia]). lia. }
    eexists. split; [|split; [|split; [exact H2|done]]]; unfold signed_base; destruct (Z.ltb_spec zb 0); try lia.
    + rewrite Z.abs_neq by lia. replace (P - - zb) with (zb + 1 * P) by lia. apply Z.mod_add. lia.
    + by rewrite Z.abs_eq by lia.
Qed.

(** ** The loops *)

Section loop.
Context (F : gmap Z (option Z)) (FB : gmap Z Z) (D : positive → Prop) (m : positive) (mv : Z) (stm : mpz_struct) (mp : Z) (es : list Z).
Context (Hmod : modulus_kept F FB D m mv stm mp es) (inv : gmp_div_inverse) (P : Z) (Hprep : prepared 0 P es inv).
Context (N : vars) (tr base e : positive) (E c : Z).
Hypotheses (Hl : locals [tr; base] N) (Hm : N !! m = Some (Some mv)) (He : N !! e = Some (Some E)) (Hc : 0 ≤ c ≤ P).
Local Abbreviation mn := (Z.of_nat (length es)).
Hypothesis (Hlim : 3 * mn ≤ alloc_limit).

(** [tr] is the power [k] of the base, reduced. *)
Definition power_at (k : Z) (s : zst) : Prop :=
  ∃ z, 0 ≤ z ∧ zlimbs z ≤ mn ∧ z mod P = c ^ k mod P ∧ holds F FB D (binds [tr; base] [Some z; Some c] N) s ∧ pinned m stm s.

Lemma tr_apart : tr ≠ m.
Proof. intros ->. destruct Hl as [_ Hf]. apply Forall_cons in Hf as [Hf _]. congruence. Qed.

Lemma mul_zlimbs a b n k : zlimbs a ≤ n → zlimbs b ≤ k → 0 ≤ a → 0 ≤ b → zlimbs (a * b) ≤ n + k.
Proof.
  intros Ha Hb Ha0 Hb0. destruct (Z.eq_dec (a * b) 0) as [->|Hne]; [change (zlimbs 0) with 0; pose proof (zlimbs_nonneg a); pose proof (zlimbs_nonneg b); lia|].
  pose proof (abs_lt a). pose proof (abs_lt b). pose proof (abs_ge (a * b) Hne) as Hge. pose proof (zlimbs_nonneg a). pose proof (zlimbs_nonneg b).
  assert (a * b < B ^ (zlimbs a + zlimbs b)) by (rewrite Z.pow_add_r by lia; nia).
  assert (B ^ (zlimbs (a * b) - 1) < B ^ (zlimbs a + zlimbs b)) as Hlt by nia. apply Z.pow_lt_mono_r_iff in Hlt; first [lia|done].
Qed.

(** The products and the reduction of one turn. *)
Lemma power_mul z k x y s (f : unit → M zst unit) Q :
  0 ≤ z → z mod P = c ^ k mod P → 0 ≤ k →
  holds F FB D (binds [tr; base] [Some z; Some c] N) s → pinned m stm s →
  (x = tr ∧ y = z ∧ zlimbs z ≤ mn ∨ x = base ∧ y = c ∧ zlimbs z ≤ 2 * mn) →
  (∀ s', holds F FB D (binds [tr; base] [Some (z * y); Some c] N) s' → pinned m stm s' → wp never (f tt) Q s') →
  wp never (mpz_mul tr tr x ≫= f) Q s.
Proof.
  intros Hz Hk Hk0 H Hpin Hx Hf. pose proof (below_modulus _ _ _ Hprep c Hc). apply wp_bind.
  eapply wp_mono; [apply (wp_pinned m stm _ (λ _ s', holds F FB D (<[tr := Some (z * y)]> (binds [tr; base] [Some z; Some c] N)) s') s); [apply mul_reader, tr_apart|done|]|].
  - destruct Hx as [(-> & -> & Hz1)|(-> & -> & Hz1)]; (eapply mpz_mul_spec; [exact H|look|look|look|lia]).
  - intros [] s' [H' Hp']. at_place 0%nat H'. by apply Hf.
Qed.

Lemma powm_turn k w bit s (f : M zst unit) Q :
  0 ≤ k → power_at k s →
  (∀ s', power_at (2 * k + b2l (negb (Z.land w bit =? 0))) s' → wp never f Q s') →
  wp never (_ ← mpz_mul tr tr tr;
            _ ← whenM (negb (Z.land w bit =? 0)) (mpz_mul tr tr base);
            ts ← size_of tr;
            _ ← whenM (mn <? ts) (powm_reduce tr mp mn inv);
            f) Q s.
Proof.
  intros Hk (z & Hz & Hzl & Hzm & H & Hpin) Hf. destruct (modulus_value _ _ _ Hprep) as (_ & HPl & HP & HPz).
  eapply (power_mul z k tr z); try done; [by left|]. intros s1 H1 Hpin1. pose proof (mul_zlimbs z z mn mn Hzl Hzl Hz Hz) as Hzz.
  assert ((z * z) mod P = c ^ (2 * k) mod P) as Hzz'. { rewrite Z.mul_mod, Hzm, <- Z.mul_mod by lia. f_equal. rewrite <- Z.pow_add_r by lia. f_equal. lia. }
  apply wp_bind. set (bt := negb (Z.land w bit =? 0)) in *.
  eapply (wp_mono _ _ (λ _ s', ∃ y, 0 ≤ y ∧ zlimbs y ≤ 3 * mn ∧ y mod P = c ^ (2 * k + b2l bt) mod P ∧ holds F FB D (binds [tr; base] [Some y; Some c] N) s' ∧ pinned m stm s')).
  { destruct bt; cbn [whenM b2l].
    - apply wp_bind_ret. eapply (power_mul (z * z) (2 * k) base c); try done; [nia|lia|right; split_and!; (done || lia)|]. intros s2 H2 Hpin2. eapply wp_run; [done|].
      exists (z * z * c). split; [nia|]. split; [pose proof (mul_zlimbs (z * z) c (mn + mn) mn Hzz (below_modulus _ _ _ Hprep c Hc) ltac:(nia) ltac:(lia)); lia|].
      split; [|done]. rewrite Z.mul_mod, Hzz', <- Z.mul_mod by lia. f_equal. rewrite Z.pow_add_r, Z.pow_1_r by lia. done.
    - eapply wp_run; [done|]. exists (z * z). rewrite Z.add_0_r. split; [nia|]. split; [lia|done]. }
  intros [] s2 (y & Hy & Hyl & Hym & H2 & Hpin2). eapply wp_size; [exact (holds_sizes _ _ H2)|look|]. rewrite zsize_eq by done. apply wp_bind. destruct (Z.ltb_spec mn (zlimbs y)); cbn [whenM].
  - eapply wp_mono; [apply (powm_reduce_spec F FB D m mv stm mp es Hmod _ s2 tr y H2 ltac:(look) Hpin2 tr_apart ltac:(look) Hy HPl ltac:(lia) 0 P inv Hprep HP ltac:(lia))|].
    intros [] s3 [H3 Hpin3]. at_place 0%nat H3. apply Hf. exists (y mod P). pose proof (Z.mod_pos_bound y P HP). split; [lia|]. split; [apply (below_modulus _ _ _ Hprep); lia|]. rewrite Z.mod_mod by lia. done.
  - eapply wp_run; [done|]. apply Hf. exists y. split; [done|]. split; [lia|done].
Qed.

Lemma powm_bits_spec (j : nat) k w s :
  0 ≤ k → power_at k s → 0 ≤ w →
  wp never (powm_bits (S j) tr base mp mn inv w (2 ^ Z.of_nat j)) (λ _ s', power_at (k * 2 ^ Z.of_nat (S j) + w mod 2 ^ Z.of_nat (S j)) s') s.
Proof.
  intros Hk Hp Hw. revert k s Hk Hp. induction j as [|j IH]; intros k s Hk Hp; cbn [powm_bits]; (apply (powm_turn k); [done|exact Hp|]); intros s1 Hp1; cbv zeta; unfold lshr.
  - rewrite exponent_bit in Hp1 by lia. change (0 <? Z.shiftr (2 ^ Z.of_nat 0) 1) with false. cbv iota. eapply wp_run; [done|]. change (2 ^ Z.of_nat 1) with 2. 
    rewrite Zmod_odd. rewrite Z.bit0_odd in Hp1. replace (k * 2) with (2 * k) by lia. by destruct (Z.odd w).
  - replace (Z.shiftr (2 ^ Z.of_nat (S j)) 1) with (2 ^ Z.of_nat j) by (rewrite Z.shiftr_div_pow2, Nat2Z.inj_succ, Z.pow_succ_r by lia; symmetry; rewrite Z.mul_comm; apply Z.div_mul; lia).
    rewrite (proj2 (Z.ltb_lt _ _)) by (apply Z.pow_pos_nonneg; lia). rewrite exponent_bit in Hp1 by lia.
    assert (0 ≤ b2l (Z.testbit w (Z.of_nat (S j))) ≤ 1) by (destruct (Z.testbit _ _); simpl; lia). eapply wp_mono; [apply IH; [|exact Hp1]; lia|]. intros [] s2.
    replace ((2 * k + b2l (Z.testbit w (Z.of_nat (S j)))) * 2 ^ Z.of_nat (S j) + w mod 2 ^ Z.of_nat (S j)) with (k * 2 ^ Z.of_nat (S (S j)) + w mod 2 ^ Z.of_nat (S (S j))); [done|].
    rewrite !(Nat2Z.inj_succ (S j)), Z.pow_succ_r by lia. set (q := 2 ^ Z.of_nat (S j)). assert (0 < q) by (apply Z.pow_pos_nonneg; lia).
    rewrite (Z.mul_comm 2 q), Z.rem_mul_r by lia. rewrite (Z.testbit_odd w), Z.shiftr_div_pow2 by lia. fold q. rewrite Zmod_odd. destruct (Z.odd (w / q)); simpl; lia.
Qed.
(** One limb of the exponent after the other. *)
Lemma powm_limbs_spec (n : nat) s :
  Z.of_nat n ≤ zlimbs E → power_at (Z.abs E / B ^ Z.of_nat n) s →
  wp never (powm_limbs n tr base e mp mn inv) (λ _ s', power_at (Z.abs E) s') s.
Proof.
  revert s. induction n as [|n IH]; intros s Hn Hp; cbn [powm_limbs].
  { eapply wp_run; [done|]. by rewrite Z.pow_0_r, Z.div_1_r in Hp. }
  pose proof Hp as (z & _ & _ & _ & H & _). destruct (holds_read _ s e E H ltac:(look)) as (st & xs & Ho & Hxs & _ & Lxs & _ & Vxs & _).
  destruct (lookup_lt_is_Some_2 xs n ltac:(lia)) as [w Hw]. eapply wp_limbs; [exact Ho|]. apply (wp_limbsZ _ _ _ w); [by apply (load_limbs _ _ xs)|].
  pose proof (Forall_lookup_1 _ _ _ _ (proj1 Hxs) Hw) as Hlw. unfold limb in Hlw.
  pose proof (value_drop xs n (proj1 Hxs) ltac:(lia)) as E1. pose proof (value_drop xs (S n) (proj1 Hxs) ltac:(lia)) as E2. rewrite Vxs in E1, E2. rewrite (drop_S _ _ _ Hw) in E1. cbn [value] in E1.
  rewrite <- E2 in Hp. pose proof (value_bounds (drop (S n) xs) ltac:(by apply Forall_drop, Hxs)) as [Hq _]. apply wp_bind. change GMP_LIMB_HIGHBIT with (2 ^ Z.of_nat 63).
  eapply wp_mono; [apply (powm_bits_spec 63 _ w s Hq Hp); lia|]. intros [] s1 Hp1. apply IH; [lia|]. rewrite <- E1.
  change (2 ^ Z.of_nat 64) with B in Hp1. rewrite Z.mod_small in Hp1 by done. by replace (w + B * value (drop (S n) xs)) with (value (drop (S n) xs) * B + w) by lia.
Qed.
End loop.

(** ** The modulus *)

(** The frame with the temporary block, if there is one. *)
Definition temp_frame (tp : option Z) (n : nat) (F F' : gmap Z (option Z)) (FB FB' : gmap Z Z) : Prop :=
  match tp with
  | None => F' = F ∧ FB' = FB
  | Some t => framed F t n F' ∧ FB !! t = None ∧ FB' = <[t := Z.of_nat n]> FB ∧ F !! dummy_limb = Some (Some 0xc1a0)
  end.

Lemma free_temp tp n F F' FB FB' (D : positive → Prop) N s :
  temp_frame tp n F F' FB FB' → holds F' FB' D N s → wp never (match tp with Some tp => limbsZ (gmp_free tp) | None => mret tt end) (λ _ s', holds F FB D N s') s.
Proof.
  intros Ht H. destruct tp as [t|]; [|destruct Ht as [-> ->]; by eapply wp_run]. destruct Ht as (Hfr & Hfb & -> & Hd).
  assert (blocks (zmem s) !! t = Some (Z.of_nat n)) as Hb by (apply (h_blocks _ _ _ _ _ H); left; by rewrite lookup_insert_eq).
  eapply wp_run; [apply limbsZ_run; unfold gmp_free; by rewrite Hb|]. apply (frame_pop F FB D N F' s t n); try done. cbn [cells]. by rewrite Nat2Z.id.
Qed.

(** Limbs of the frame are kept, and apart from all variables. *)
Lemma frame_modulus F FB D m mv stm t es :
  Forall limb es → (∀ i x, es !! i = Some x → F !! (t + Z.of_nat i) = Some (Some x)) → 0 ≤ t → (0 < length es)%nat → modulus_kept F FB D m mv stm t es.
Proof.
  intros Hl Hx Ht Hpos N s H _ _. split.
  - split; [done|]. intros i x Hi. eapply map_subseteq_spec; [apply (h_frame _ _ _ _ _ H)|by apply Hx].
  - intros x st _ Ho. destruct (own_block _ _ _ _ H Ho) as (Hal & _ & [[E0 Ed]|(Hp & Hd & _)]); [unfold disjoint, dummy_limb in *; lia|].
    destruct (decide (disjoint (mp_d st) (mp_alloc st) t (Z.of_nat (length es)))) as [|Hn]; [done|exfalso]. unfold disjoint in Hn. set (a := Z.max t (mp_d st)).
    assert (in_block st a) as Ha by (unfold in_block, a; lia). destruct (lookup_lt_is_Some_2 es (Z.to_nat (a - t))) as [y Hy]; [unfold a; lia|].
    specialize (Hx _ _ Hy). replace (t + Z.of_nat (Z.to_nat (a - t))) with a in Hx by (unfold a; lia). by rewrite (h_apart _ _ _ _ _ H _ _ _ Ho Ha) in Hx.
Qed.

(** The limbs of [m] are kept as long as its struct is. *)
Lemma own_modulus F FB D N s m mv stm es :
  holds F FB D N s → own N s m stm → N !! m = Some (Some mv) → limbs_at (zmem s) (mp_d stm) es → Z.of_nat (length es) = zlimbs mv → value es = Z.abs mv → mv ≠ 0 →
  ∀ D', modulus_kept F FB D' m mv stm (mp_d stm) es.
Proof.
  intros H Ho Hm Hes Hlen Hv Hmv D' N' s' H' Hm' [Hz _]. destruct (holds_read N' s' m mv H' Hm') as (st & xs & Ho' & Hxs & _ & Lxs & _ & Vxs & Hle).
  assert (st = stm) as -> by (destruct Ho' as [_ E]; congruence). assert (xs = es) as -> by (apply value_inj; [apply Hxs|apply Hes|lia|congruence]). split; [done|].
  intros x st Hne Hox. pose proof (h_sep _ _ _ _ _ H' _ _ _ _ Hne Hox Ho') as Hap. unfold apart, disjoint in *. lia.
Qed.

Lemma powm_modulus_spec F FB (D : positive → Prop) N s m mv stm :
  holds F FB D N s → own N s m stm → N !! m = Some (Some mv) → mv ≠ 0 → zlimbs mv ≤ alloc_limit →
  wp never (powm_modulus (mp_d stm) (zlimbs mv)) (λ x s', let '(tp, mp, minv) := x in
    ∃ F' FB' es, holds F' FB' D N s' ∧ zvars s' = zvars s ∧ zlocal s' = zlocal s ∧ Z.of_nat (length es) = zlimbs mv ∧ temp_frame tp (length es) F F' FB FB' ∧
      prepared (shift minv) (Z.abs mv) es minv ∧ 0 ≤ shift minv < 64 ∧ ∀ D', modulus_kept F' FB' D' m mv stm mp es) s.
Proof.
  intros H Ho Hm Hmv Hlim. destruct (holds_read N s m mv H Hm) as (st & ds & Ho' & Hds & Hnorm & Lds & _ & Vds & _). assert (st = stm) as -> by (destruct Ho, Ho'; congruence). clear Ho'.
  pose proof (zlimbs_pos mv Hmv) as Hpos. destruct (last ds) as [d|] eqn:Elast; [|apply last_None in Elast; subst ds; simpl in Lds; lia].
  assert (0 < d) as Hd. { destruct (Forall_lookup_1 _ _ (pred (length ds)) d (proj1 Hds)) as [? _]; [by rewrite <- last_lookup|]. destruct (Z.eq_dec d 0) as [->|]; [by destruct (Hnorm Elast)|lia]. }
  destruct (invert_prepares (zmem s) (mp_d stm) ds d Hds Elast Hd) as (sh & inv & Ei & Es & Hsh & Hfit & Hprep). rewrite Vds in *. rewrite Lds in Ei.
  unfold powm_modulus. apply wp_bind. eapply wp_run; [apply limbsZ_run; exact Ei|]. rewrite same_mem. rewrite Es. destruct (h_wf _ _ _ _ _ H) as [Hwf Hnn]. destruct (Z.ltb_spec 0 sh) as [Hs0|Hs0].
  - destruct (shifted_copy_spec (zmem s) (mp_d stm) ds sh Hwf Hds ltac:(lia) ltac:(lia) ltac:(lia)) as (c & ts & Ea & El & Hts & Lts & Hc & V).
    pose proof (value_bounds _ Hts) as [? _]. pose proof (pow_pos (length ds)). rewrite Vds in V. assert (c = 0) as -> by nia. rewrite Lds in Ea, El.
    destruct (scratch_alloc (zmem s) (zlimbs mv) Hwf ltac:(lia)) as (_ & Hsc & Hw). set (t := next (zmem s)) in *.
    apply wp_bind. eapply wp_run; [by apply limbsZ_run|]. apply wp_bind. eapply wp_run; [apply limbsZ_run; unfold gmp_assert_nocarry; cbn [zmem set_mem]; by rewrite (bind_done _ _ _ _ _ El)|]. eapply wp_run; [done|].
    set (m1 := write (grow (zmem s) (zlimbs mv)) t ts) in *. rewrite Lds in *.
    assert (scratch t (Z.of_nat (length ts)) (zmem s) m1) as Hsc1.
    { rewrite Lts, Lds. apply (scratch_write (zmem s) (zlimbs mv) (grow (zmem s) (zlimbs mv)) m1 ts); [exact Hsc| |lia|exists 0; split; [lia|]]. 
      - intros i Hi. apply Hw. lia.
      - unfold bump, m1. cbn. by rewrite Z.add_0_r. }
    destruct (frame_push F FB D N s ts m1 H ltac:(lia) Hsc1 (limbs_at_write _ _ _ Hts)) as (Hfr & Hfb & Hs1). fold t in Hfr, Hfb, Hs1.
    exists (write_cells F t ts), (<[t := Z.of_nat (length ts)]> FB), ts. rewrite Es. split_and!; try done; try lia.
    + split_and!; try done. apply (h_frame _ _ _ _ _ H).
    + apply Hprep; [done|done|lia].
    + intros D'. apply frame_modulus; [done| |done|lia]. intros i x Hi. pose proof (lookup_lt_Some _ _ _ Hi). rewrite lookup_write_cells. guard_true ((t <=? t + Z.of_nat i) && (t + Z.of_nat i <? t + Z.of_nat (length ts))).
      replace (Z.to_nat (t + Z.of_nat i - t)) with i by lia. by rewrite Hi.
  - assert (sh = 0) as -> by lia. eapply wp_run; [done|]. exists F, FB, ds. rewrite Es. split_and!; try done; try lia.
    + apply Hprep; [apply Hds|done|lia].
    + by eapply own_modulus.
Qed.

(** ** The function *)

(** What a modular power is; 1 for the exponent 0, whatever the modulus. *)
Definition powm_answer (zb E mv v : Z) : Prop :=
  E = 0 ∧ v = 1 ∨ 0 < E ∧ v = zb ^ E mod Z.abs mv ∨ E < 0 ∧ ∃ w, inverse zb mv w ∧ v = w ^ (- E) mod Z.abs mv.

(** The base is the number itself, or its inverse for a negative exponent. *)
Definition base_of (zb E mv P c : Z) : Prop := 0 ≤ c ≤ P ∧ if E <? 0 then inverse zb mv c else c mod P = zb mod P.

Lemma mod_multiple a b P n k : a mod P = b mod P → P = n * k → a mod n = b mod n.
Proof. intros E ->. assert (n | n * k) as Hd by (exists k; lia). by rewrite <- (Z.mod_mod_divide a (n * k) n), E, Z.mod_mod_divide. Qed.

Lemma base_answer zb E mv P k c v :
  base_of zb E mv P c → P = Z.abs mv * k → 0 < k → mv ≠ 0 → E ≠ 0 → v = c ^ Z.abs E mod Z.abs mv → powm_answer zb E mv v.
Proof.
  intros [Hc Hb] HP Hk Hm HE ->. right. destruct (Z.ltb_spec E 0).
  - right. split; [done|]. exists c. split; [done|]. by rewrite Z.abs_neq by lia.
  - left. split; [lia|]. rewrite Z.abs_eq by lia. rewrite <- (Z.mod_pow_l c), <- (Z.mod_pow_l zb). do 2 f_equal.
    by apply (mod_multiple _ _ P _ k).
Qed.

Section run.
Context (F : gmap Z (option Z)) (FB : gmap Z Z) (D : positive → Prop) (m : positive) (mv : Z) (stm : mpz_struct) (mp : Z) (es : list Z).
Context (Hmod : modulus_kept F FB D m mv stm mp es) (minv : gmp_div_inverse).
Hypotheses (Hprep : prepared (shift minv) (Z.abs mv) es minv) (Hsh : 0 ≤ shift minv < 64) (Hmv : mv ≠ 0) (Hlen : Z.of_nat (length es) = zlimbs mv).
Context (N : vars) (tr base b e : positive) (zb E : Z).
Hypotheses (Hm : N !! m = Some (Some mv)) (Hb : N !! b = Some (Some zb)) (He : N !! e = Some (Some E)) (HE : E ≠ 0).
Hypotheses (Hlim : 3 * zlimbs mv ≤ alloc_limit) (Hneg : E < 0 → Z.gcd zb mv = 1 ∧ 1 < Z.abs mv ∧ Z.max (zlimbs zb) (zlimbs mv) + 1 ≤ alloc_limit).
Local Abbreviation mn := (Z.of_nat (length es)).
Local Abbreviation P := (value es).

Lemma run_modulus : P = Z.abs mv * 2 ^ shift minv ∧ 0 < 2 ^ shift minv ∧ prepared 0 P es (set_shift 0 minv).
Proof. split; [by apply prepared_value in Hprep|]. split; [apply Z.pow_pos_nonneg; lia|]. by eapply prepared_unshift. Qed.

Lemma powm_base_any s :
  holds F FB D (binds [base] [Some 0] N) s → locals [base] N → pinned m stm s →
  wp never (if zsize E <? 0 then ok ← mpz_invert base b m; if (ok : bool) then mret tt else gmp_die else powm_base base b mp mn (set_shift 0 minv))
    (λ _ s', ∃ c, base_of zb E mv P c ∧ holds F FB D (binds [base] [Some c] N) s' ∧ pinned m stm s') s.
Proof.
  intros H Hl Hpin. destruct run_modulus as (HP & Hk & Hprep0). pose proof (zsize_nonneg E). assert (base ≠ m) as Hbm by (intros ->; destruct Hl as [_ Hf]; apply Forall_cons in Hf as [Hf _]; congruence).
  assert (b ≠ base) as Hbb by (intros ->; destruct Hl as [_ Hf]; apply Forall_cons in Hf as [Hf _]; congruence).
  replace (zsize E <? 0) with (E <? 0) by (destruct (Z.ltb_spec E 0), (Z.ltb_spec (zsize E) 0); (done || lia)). unfold base_of. destruct (Z.ltb_spec E 0) as [HE0|HE0].
  - destruct (Hneg HE0) as (Hg & Hm1 & Hlim1). pose proof (mpz_invert_spec (F:=F) (FB:=FB) (D:=D) (binds [base] [Some 0] N) base b m zb mv ltac:(look) ltac:(look) ltac:(look) Hlim1 s H) as Hinv.
    apply wp_bind. eapply wp_mono; [exact (wp_pinned m stm _ _ s (invert_reader m base b m Hbm) Hpin Hinv)|].
    intros ok s1 [(N' & [Eok HN'] & H1) Hpin1]. assert (zb ≠ 0) as Hz0 by (intros ->; rewrite Z.gcd_0_l in Hg; lia). rewrite bool_decide_true in Eok by done. subst ok. destruct HN' as (w & Hw & ->).
    eapply wp_run; [done|]. exists w. at_place 0%nat H1. split; [|done]. split; [|done]. destruct Hw as [Hw _]. nia.
  - eapply wp_mono; [apply (powm_base_spec F FB D m mv stm mp es (set_shift 0 minv) P (binds [base] [Some 0] N) base b zb (Some 0) s); try done; [lia|look|look|look]|].
    intros [] s1 (c & Hc & Hcz & H1 & Hpin1). exists c. by at_place 0%nat H1.
Qed.

Lemma powm_run_spec (f : M zst unit) Q s :
  holds F FB D N s → N !! tr = None → N !! base = None → tr ≠ base → D tr → D base → pinned m stm s →
  (∀ s' v o, powm_answer zb E mv v → holds F FB D (binds [tr; base] [Some v; o] N) s' → locals [tr; base] N → wp never f Q s') →
  wp never (_ ← mpz_init base;
            es ← size_of e;
            _ ← (if es <? 0 then
                   ok ← mpz_invert base b m;
                   if (ok : bool) then mret tt else gmp_die
                 else powm_base base b mp mn (set_shift 0 minv));
            _ ← mpz_init_set_ui tr 1;
            _ ← powm_limbs (Z.to_nat (zlimbs E)) tr base e mp mn (set_shift 0 minv);
            ts ← size_of tr;
            _ ← whenM (mn <=? ts) (powm_reduce tr mp mn (set_shift (shift minv) (set_shift 0 minv)));
            f) Q s.
Proof.
  intros H Htr Hbase Hne HDt HDb Hpin Hf. destruct run_modulus as (HP & Hk & Hprep0). destruct (modulus_value _ _ _ Hprep0) as (_ & HPl & HP0 & HPz).
  assert (base ≠ m ∧ tr ≠ m) as [Hbm Htm] by (split; congruence).
  apply wp_bind. eapply wp_mono; [apply (wp_pinned m stm _ (λ _ s', holds F FB D (binds [base] [Some 0] N) s') s); [by apply init_reader|done|]|].
  { apply (mpz_init_spec (F:=F) (FB:=FB) (D:=D) N s base H Hbase). by apply (h_decl _ _ _ _ _ H). }
  intros [] s1 [H1 Hpin1]. assert (locals [base] N) as Hl1 by (split; [apply NoDup_singleton|by apply Forall_singleton]).
  eapply wp_size; [exact (holds_sizes _ _ H1)|look|]. apply wp_bind. eapply wp_mono; [by apply powm_base_any|]. intros [] s2 (c & Hc & H2 & Hpin2).
  assert (locals [tr; base] N) as Hl2 by (split; [apply NoDup_cons; split; [by apply not_elem_of_cons; split; [|apply not_elem_of_nil]|apply NoDup_singleton]|by repeat constructor]).
  unfold mpz_init_set_ui. apply wp_bind. eapply wp_mono; [apply (wp_pinned m stm _ (λ _ s', holds F FB D (binds [tr; base] [Some 1; Some c] N) s') s2); [reader_body|done|]|].
  { eapply (wp_init_local (F:=F) (FB:=FB) (D:=D) [base] [Some c] N); [exact H2|done|done|by apply not_elem_of_cons; split; [|apply not_elem_of_nil]|done|]. intros s3 H3 _.
    eapply wp_mono; [eapply (mpz_set_ui_spec _ s3 tr 1 H3); [look|done]|]. intros [] s4 H4. by at_place 0%nat H4. }
  intros [] s3 [H3 Hpin3]. apply wp_bind.
  eapply wp_mono; [apply (powm_limbs_spec F FB D m mv stm mp es Hmod (set_shift 0 minv) P Hprep0 N tr base e E c Hl2 Hm He (proj1 Hc) ltac:(lia) (Z.to_nat (zlimbs E)) s3)|].
  { pose proof (zlimbs_nonneg E). lia. }
  { exists 1. pose proof (zlimbs_nonneg E). rewrite Z2Nat.id, Z.div_small by (pose proof (abs_lt E); lia). split; [lia|]. split; [change (zlimbs 1) with 1; lia|]. split; [by rewrite Z.pow_0_r|done]. }
  intros [] s4 (z & Hz & Hzl & Hzm & H4 & Hpin4). eapply wp_size; [exact (holds_sizes _ _ H4)|look|]. rewrite zsize_eq by done. rewrite set_shift_twice, set_shift_same.
  assert (z mod Z.abs mv = c ^ Z.abs E mod Z.abs mv) as Hzv.
  { exact (mod_multiple _ _ _ _ _ Hzm HP). }
  apply wp_bind. destruct (Z.leb_spec mn (zlimbs z)) as [Hge|Hlt]; cbn [whenM].
  - eapply wp_mono; [apply (powm_reduce_spec F FB D m mv stm mp es Hmod _ s4 tr z H4 ltac:(look) Hpin4 Htm ltac:(look) Hz HPl Hge (shift minv) (Z.abs mv) minv Hprep ltac:(lia) Hsh)|].
    intros [] s5 [H5 Hpin5]. at_place 0%nat H5. eapply (Hf s5 (z mod Z.abs mv)); [|exact H5|done]. by eapply base_answer.
  - eapply wp_run; [done|]. eapply (Hf s4 z); [|exact H4|done]. eapply base_answer; [exact Hc|exact HP|done..|]. rewrite <- Hzv. symmetry. apply Z.mod_small. split; [done|].
    pose proof (abs_lt z) as H5. pose proof (abs_ge mv Hmv). assert (B ^ zlimbs z ≤ B ^ (zlimbs mv - 1)) by (apply Z.pow_le_mono_r; [done|lia]). lia.
Qed.
End run.

Lemma own_pinned F FB (D : positive → Prop) N s m stm : holds F FB D N s → own N s m stm → pinned m stm s.
Proof. intros H [_ Hz]. split; [done|]. apply (h_local _ _ _ _ _ H). eauto. Qed.

(** Modular powers: for a negative exponent the base is invertible. *)
Lemma mpz_powm_spec F FB (D : positive → Prop) N s r b e m zb E mv :
  holds F FB D N s → is_Some (N !! r) → N !! b = Some (Some zb) → N !! e = Some (Some E) → N !! m = Some (Some mv) → mv ≠ 0 → 3 * zlimbs mv ≤ alloc_limit →
  (E < 0 → Z.gcd zb mv = 1 ∧ 1 < Z.abs mv ∧ Z.max (zlimbs zb) (zlimbs mv) + 1 ≤ alloc_limit) →
  wp never (mpz_powm r b e m) (λ _ s', ∃ v, powm_answer zb E mv v ∧ holds F FB D (<[r := Some v]> N) s') s.
Proof.
  intros H Hr Hb He Hm Hmv Hlim Hneg. pose proof (zlimbs_pos mv Hmv) as Hmp.
  eapply (wp_mono _ _ (λ _ s', ∃ N', (∃ v, powm_answer zb E mv v ∧ N' = <[r := Some v]> N) ∧ holds F FB D N' s')); [|intros [] s' (N' & (v & Hv & ->) & H'); by exists v].
  apply (wp_declare F FB D _ (λ _ N', ∃ v, powm_answer zb E mv v ∧ N' = <[r := Some v]> N) N s H); [intros [] N' x (v & _ & ->); by apply put_none|]. intros tr s1 D1 H1 HD1 Ht1 _ _.
  apply (wp_declare F FB D1 _ (λ _ N', ∃ v, powm_answer zb E mv v ∧ N' = <[r := Some v]> N) N s1 H1); [intros [] N' x (v & _ & ->); by apply put_none|]. intros base s2 D2 H2 HD2 Ht2 Hn2 HD12.
  assert (tr ≠ base) as Hne by (by intros ->).
  eapply wp_size; [exact (holds_sizes _ _ H2)|done|]. eapply wp_size; [exact (holds_sizes _ _ H2)|done|]. cbv zeta. rewrite !zsize_abs. rewrite (proj2 (Z.eqb_neq (zlimbs mv) 0)) by lia. cbn [whenM].
  destruct (Z.eqb_spec (zlimbs E) 0) as [E0|E0].
  { eapply wp_mono; [by apply (mpz_set_ui_spec (F:=F) (FB:=FB) (D:=D2) N s2 r 1 H2)|]. intros [] s3 H3. eexists. split; [|exact H3]. exists 1. split; [|done]. left. split; [|done].
    destruct (Z.eq_dec E 0) as [|HE]; [done|]. pose proof (zlimbs_pos E HE). lia. }
  assert (E ≠ 0) as HE by (by intros ->). destruct (holds_own N s2 m H2 ltac:(eauto)) as (stm & Ho & _). eapply wp_limbs; [exact Ho|]. pose proof (own_pinned _ _ _ _ _ _ _ H2 Ho) as Hpin.
  apply wp_bind. eapply wp_mono; [apply (powm_modulus_spec F FB D2 N s2 m mv stm H2 Ho Hm Hmv); lia|].
  intros [[tp mp] minv] s3 (F' & FB' & es & H3 & Hz3 & Hl3 & Hlen & Htf & Hprep & Hsh & Hmod). cbv zeta. rewrite <- Hlen.
  assert (pinned m stm s3) as Hpin3 by (unfold pinned in *; by rewrite Hz3, Hl3).
  apply (powm_run_spec F' FB' D2 m mv stm mp es (Hmod D2) minv Hprep Hsh Hmv Hlen N tr base b e zb E Hm Hb He HE Hlim Hneg); try done; [by apply HD12|].
  intros s4 v o Hv H4 Hl4. apply wp_bind. eapply wp_mono; [by eapply free_temp|]. intros [] s5 H5. destruct Hr as [o' Hr].
  eapply (wp_swap_result 0%nat); [exact H5|done|reflexivity|reflexivity|exact Hr|]. intros s6 H6 Hl6. cbn [insert list_insert] in H6. clear Hl4.
  clear_local 0%nat. apply wp_bind_ret. clear Hl6. clear_local 0%nat. eapply wp_run; [done|]. eexists. split; [|eassumption]. by exists v.
Qed.

(** ** Exponents of one word *)

Lemma mpz_powm_ui_spec F FB (D : positive → Prop) N s r b x m zb mv :
  holds F FB D N s → is_Some (N !! r) → N !! b = Some (Some zb) → limb x → N !! m = Some (Some mv) → mv ≠ 0 → 3 * zlimbs mv ≤ alloc_limit →
  wp never (mpz_powm_ui r b x m) (λ _ s', holds F FB D (<[r := Some (if x =? 0 then 1 else zb ^ x mod Z.abs mv)]> N) s') s.
Proof.
  intros H Hr Hb Hx Hm Hmv Hlim. set (v := if x =? 0 then 1 else zb ^ x mod Z.abs mv). unfold limb in Hx. assert (∀ w, powm_answer zb x mv w → w = v) as Huniq.
  { intros w [[-> ->]|[[Hp ->]|[? _]]]; unfold v; [done| |lia]. by rewrite (proj2 (Z.eqb_neq x 0)) by lia. }
  assert (∀ y, is_Some (N !! y) → ∀ t, N !! t = None → y ≠ t) as Hne by (intros y Hy t Ht ->; rewrite Ht in Hy; by destruct Hy).
  eapply (wp_mono _ _ (λ _ s', ∃ N', N' = <[r := Some v]> N ∧ holds F FB D N' s')); [|by intros [] s' (N' & -> & H')].
  apply (wp_limb_integer F FB D N s x _ (λ _ N', N' = <[r := Some v]> N) H Hx).
  - intros t Ht. apply powm_reader. by apply Hne.
  - intros [] N' y ->. by apply put_none.
  - intros t s1 D1 H1 Ht _ _. eapply wp_mono; [apply (mpz_powm_spec F FB D1 _ s1 r b t m zb x mv H1); try done|].
    + rewrite lookup_insert_ne; [done|]. by apply not_eq_sym, Hne.
    + rewrite lookup_insert_ne; [done|]. apply not_eq_sym, Hne; eauto.
    + by rewrite lookup_insert_eq.
    + rewrite lookup_insert_ne; [done|]. apply not_eq_sym, Hne; eauto.
    + lia.
    + intros [] s2 (w & ->%Huniq & H2). eexists. split; [done|]. rewrite insert_insert_ne; [done|]. by apply not_eq_sym, Hne.
Qed.

(** ** The modulus 0, and bases that are not invertible *)

(** The program ends through gmp_die. *)
Definition dies {A} (k : M zst A) (s : zst) : Prop := k s = Failed Assertion.

Lemma dies_bind {A C} (k : M zst A) (f : A → M zst C) s : wp never k (λ a s', dies (f a) s') s → dies (k ≫= f) s.
Proof. unfold wp, dies, mbind, M_bind. by destruct (k s) as [| |[]]. Qed.

(** A run that must end so, as one that returns. *)
Definition caught {A} (k : M zst A) : M zst unit := λ s, match k s with Failed Assertion => Done tt s | _ => Failed Undefined end.

Lemma dies_local {A} F FB (D : positive → Prop) (f : positive → M zst A) N s :
  holds F FB D N s →
  (∀ t s1 (D1 : positive → Prop), holds F FB D1 N s1 → D1 t → N !! t = None → ¬ D t → (∀ x, D x → D1 x) → dies (f t) s1) → dies (with_local f) s.
Proof.
  intros H Hf. assert (wp never (with_local (λ t, caught (f t))) (λ _ _, True) s) as Hw.
  { apply (wp_local F FB D _ _ N s H). intros t s1 H1 Ht HD. unfold wp, caught. rewrite (Hf t s1 _ H1) by auto. by exists N. }
  unfold wp, with_local, dies, caught in *. destruct (f (zlocal s) _) as [a s'|c s'|e]; [by destruct Hw..|]. by destruct e.
Qed.

Lemma mpz_powm_error F FB (D : positive → Prop) N s r b e m zb E mv :
  holds F FB D N s → N !! b = Some (Some zb) → N !! e = Some (Some E) → N !! m = Some (Some mv) → Z.max (zlimbs zb) (zlimbs mv) + 1 ≤ alloc_limit →
  mv = 0 ∨ E < 0 ∧ (zb = 0 ∨ Z.abs mv ≤ 1 ∨ Z.gcd zb mv ≠ 1) → dies (mpz_powm r b e m) s.
Proof.
  intros H Hb He Hm Hlim Hc. apply (dies_local F FB D _ N s H). intros tr s1 D1 H1 HD1 Ht1 _ _. apply (dies_local F FB D1 _ N s1 H1). intros base s2 D2 H2 HD2 Ht2 Hn2 HD12.
  apply dies_bind. eapply wp_run; [by apply (holds_sizes _ _ H2 e E)|]. apply dies_bind. eapply wp_run; [by apply (holds_sizes _ _ H2 m mv)|]. cbv zeta. rewrite !zsize_abs.
  destruct (Z.eqb_spec (zlimbs mv) 0) as [E0|E0]; [done|]. assert (mv ≠ 0) as Hmv by (by intros ->). destruct Hc as [|[HE Hc]]; [done|]. pose proof (zlimbs_pos E ltac:(lia)). rewrite (proj2 (Z.eqb_neq (zlimbs E) 0)) by lia.
  destruct (holds_own N s2 m H2 ltac:(eauto)) as (stm & Ho & _). apply dies_bind. eapply wp_run; [by eapply limbs_of_own|].
  apply dies_bind. eapply wp_mono; [apply (powm_modulus_spec F FB D2 N s2 m mv stm H2 Ho Hm Hmv); lia|]. intros [[tp mp] minv] s3 (F' & FB' & es & H3 & _).
  apply dies_bind. eapply wp_mono; [apply (mpz_init_spec (F:=F') (FB:=FB') (D:=D2) N s3 base H3 Ht2); by apply (h_decl _ _ _ _ _ H3)|]. intros [] s4 H4.
  assert (∀ x o, N !! x = Some o → <[base := Some 0]> N !! x = Some o) as Hin by (intros x o Hx; rewrite lookup_insert_ne by congruence; done).
  apply dies_bind. eapply wp_run; [apply (holds_sizes _ _ H4 e E); by apply Hin|]. pose proof (zsize_nonneg E). rewrite (proj2 (Z.ltb_lt (zsize E) 0)) by lia.
  unfold dies. rewrite M_bind_assoc. apply dies_bind. eapply wp_mono; [by apply (mpz_invert_spec (F:=F') (FB:=FB') (D:=D2) (<[base := Some 0]> N) base b m zb mv); [rewrite lookup_insert_eq; eauto|by apply Hin|by apply Hin|lia|]|].
  intros ok s5 (N' & [Eok _] & _). rewrite bool_decide_false in Eok by lia. by subst ok.
Qed.
