(* ===== verification/Primes.v ===== *)
(** * Prime numbers and the strong test

    The arithmetic behind mpz_probab_prime_p, without any state: which numbers
    the tests for small numbers let pass, and the strong test (Miller-Rabin),
    which every prime number passes. *)

From S2P Require Import Prelude Limbs MpzGcd.
From Stdlib Require Zmod.ZmodInv.

Local Abbreviation coprime := Z.coprime.

(** The product of the odd primes below 31, and the mask of the primes below 64. *)
Definition GMP_PRIME_PRODUCT : Z := 3 * 5 * 7 * 11 * 13 * 17 * 19 * 23 * 29.
Definition GMP_PRIME_MASK : Z := 0xc96996dc.

(** ** Small numbers *)

(** Trial division. *)
Definition trial (p : Z) : bool := (1 <? p) && forallb (λ d, negb (p mod d =? 0)) (seqZ 2 (p - 2)).

Lemma trial_prime p : trial p = true ↔ Z.prime p.
Proof.
  unfold trial. rewrite andb_true_iff, Z.ltb_lt, forallb_forall. split.
  - intros [Hp Hf]. split; [done|]. intros n Hn Hd. specialize (Hf n ltac:(apply list_elem_of_In, elem_of_seqZ; lia)). apply Z.mod_divide in Hd; [|lia]. by rewrite Hd in Hf.
  - intros [Hp Hf]. split; [done|]. intros n Hn%list_elem_of_In%elem_of_seqZ. apply negb_true_iff, Z.eqb_neq. intros E. apply (Hf n ltac:(lia)). apply Z.mod_divide; [lia|done].
Qed.

(** What holds by computation for the numbers below a bound. *)
Lemma below_bound (P : Z → bool) (n : nat) : forallb P (seqZ 0 (Z.of_nat n)) = true → ∀ i, 0 ≤ i < Z.of_nat n → P i = true.
Proof. rewrite forallb_forall. intros H i Hi. apply H, list_elem_of_In, elem_of_seqZ. lia. Qed.

(** The answer from the mask, for the odd numbers below 64. *)
Lemma mask_prime p : 0 ≤ p < 64 → Z.odd p = true → Z.land (lshr GMP_PRIME_MASK (lshr p 1)) 2 = (if trial p then 2 else 0).
Proof.
  intros Hp Ho. pose proof (below_bound (λ p, implb (Z.odd p) (Z.land (lshr GMP_PRIME_MASK (lshr p 1)) 2 =? (if trial p then 2 else 0))) 64 ltac:(by vm_compute) p Hp) as E.
  simpl in E. rewrite Ho in E. by apply Z.eqb_eq in E.
Qed.

(** A prime number from 31 on has no common divisor with the product. *)
Lemma prime_rough p : Z.prime p → 31 ≤ p → coprime p GMP_PRIME_PRODUCT.
Proof.
  intros Hp Hge. unfold GMP_PRIME_PRODUCT. repeat apply Z.coprime_mul_r; apply Z.coprime_prime_small; (done || lia).
Qed.

(** A number that is not prime has a divisor up to its root. *)
Lemma small_divisor p : 1 < p → ¬ Z.prime p → ∃ d, 1 < d ∧ d * d ≤ p ∧ (d | p).
Proof.
  intros Hp Hn. destruct (Znumtheory.prime_dec p) as [Hd|Hd]; [by apply Znumtheory.prime_alt in Hd|].
  destruct (Znumtheory.not_prime_divide p Hp Hd) as (n & Hn1 & [m Em]). destruct (Z.le_gt_cases (n * n) p).
  - exists n. split; [lia|]. split; [done|]. by exists m.
  - exists m. assert (m < n) by nia. split; [nia|]. split; [nia|]. exists n. lia.
Qed.

(** Below [31 * 31] the small primes decide. *)
Lemma rough_prime p : 1 < p < 31 * 31 → Z.odd p = true → coprime p GMP_PRIME_PRODUCT → Z.prime p.
Proof.
  intros Hp Ho Hc. destruct (Znumtheory.prime_dec p) as [H|H]; [by apply Znumtheory.prime_alt|]. exfalso. rewrite <- Znumtheory.prime_alt in H.
  destruct (small_divisor p ltac:(lia) H) as (d & Hd & Hdd & Hdp). assert (d < 31) by nia.
  assert (Z.odd d = true) as Hod. { destruct Hdp as [m ->]. rewrite Z.odd_mul in Ho. by apply andb_prop in Ho as [_ ?]. }
  pose proof (below_bound (λ d, implb (Z.odd d && (1 <? d)) (1 <? Z.gcd d GMP_PRIME_PRODUCT)) 31 ltac:(by vm_compute) d ltac:(lia)) as E. simpl in E. rewrite Hod, (proj2 (Z.ltb_lt 1 d)) in E by lia.
  apply Z.ltb_lt in E. assert ((Z.gcd d GMP_PRIME_PRODUCT | 1)) as Hg.
  { rewrite <- Hc. apply Z.gcd_greatest; [|apply Z.gcd_divide_r]. etransitivity; [apply Z.gcd_divide_l|done]. }
  apply Z.divide_1_r_nonneg in Hg; [lia|apply Z.gcd_nonneg].
Qed.

(** ** The strong test *)

(** What [p] passes for the base [a] when [p - 1 = q * 2 ^ k]. *)
Definition strong (p q k a : Z) : Prop := a ^ q mod p = 1 ∨ ∃ i, 0 ≤ i < k ∧ a ^ (q * 2 ^ i) mod p = p - 1.

(** The same for the odd part [q] of [p - 1]. *)
Definition strong_probable_prime (p a : Z) : Prop := ∃ q k, 0 < k ∧ p - 1 = q * 2 ^ k ∧ Z.odd q = true ∧ strong p q k a.

Lemma odd_part_unique q1 k1 q2 k2 : 0 ≤ k1 → 0 ≤ k2 → Z.odd q1 = true → Z.odd q2 = true → q1 * 2 ^ k1 = q2 * 2 ^ k2 → q1 = q2 ∧ k1 = k2.
Proof.
  assert (∀ a b x y, 0 ≤ x ≤ y → Z.odd a = true → a * 2 ^ x = b * 2 ^ y → a = b ∧ x = y) as Hw.
  { intros a b x y Hxy Ha E. pose proof (Z.pow_pos_nonneg 2 x ltac:(lia) ltac:(lia)). replace y with (y - x + x) in E by lia. rewrite Z.pow_add_r in E by lia.
    assert (a = b * 2 ^ (y - x)) as Ea by nia. destruct (Z.eq_dec x y) as [->|Hne]; [split; [|done]; rewrite Z.sub_diag in Ea; lia|].
    rewrite Ea, Z.odd_mul, Z.odd_pow in Ha by lia. by rewrite andb_false_r in Ha. }
  intros H1 H2 Ho1 Ho2 E. destruct (Z.le_ge_cases k1 k2) as [Hle|Hle]; [by apply Hw|]. symmetry in E. destruct (Hw q2 q1 k2 k1 ltac:(lia) Ho2 E). by split.
Qed.

Lemma strong_at p q k a : 0 < k → p - 1 = q * 2 ^ k → Z.odd q = true → strong_probable_prime p a ↔ strong p q k a.
Proof.
  intros Hk E Ho. split; [|intros H; by exists q, k]. intros (q' & k' & Hk' & E' & Ho' & H). destruct (odd_part_unique q k q' k') as [-> ->]; (done || lia).
Qed.

(** The square roots of 1 modulo a prime. *)
Lemma root_of_unity p x : Z.prime p → (x * x) mod p = 1 → x mod p = 1 ∨ x mod p = p - 1.
Proof.
  intros Hp E. pose proof (Z.prime_ge_2 p Hp). assert ((p | (x - 1) * (x + 1))) as Hd.
  { apply Z.mod_divide; [lia|]. replace ((x - 1) * (x + 1)) with (x * x - 1) by lia. rewrite Zminus_mod, E, (Z.mod_small 1) by lia. done. }
  apply Z.divide_prime_mul in Hd as [[c Ec]|[c Ec]]; [| |done].
  - left. replace x with (1 + c * p) by lia. rewrite Z.mod_add, Z.mod_small by lia. done.
  - right. replace x with (p - 1 + (c - 1) * p) by lia. rewrite Z.mod_add, Z.mod_small by lia. done.
Qed.

(** Every prime number passes the strong test for every base that it does not divide. *)
Lemma prime_strong p q k a : Z.prime p → a mod p ≠ 0 → 0 ≤ k → 0 ≤ q → p - 1 = q * 2 ^ k → strong p q k a.
Proof.
  intros Hp Ha Hk Hq E. pose proof (ZmodInv.Z.fermat_nz p a Hp Ha) as Hf. rewrite E in Hf. clear E. revert k Hk Hf. apply (natlike_ind (λ k, a ^ (q * 2 ^ k) mod p = 1 → strong p q k a)).
  - rewrite Z.pow_0_r, Z.mul_1_r. by left.
  - intros k Hk IH Hf. pose proof (Z.pow_nonneg 2 k ltac:(lia)). rewrite Z.pow_succ_r in Hf by done. replace (q * (2 * 2 ^ k)) with (q * 2 ^ k + q * 2 ^ k) in Hf by lia.
    rewrite Z.pow_add_r in Hf by nia. destruct (root_of_unity p _ Hp Hf) as [H1|H1].
    + destruct (IH H1) as [H2|(i & Hi & H2)]; [by left|]. right. exists i. split; [lia|done].
    + right. exists k. split; [lia|done].
Qed.

(** ** The sequence of squares *)

(** What the loop of gmp_millerrabin finds from a power [v] in [m] squarings. *)
Definition meets (p v : Z) (m : Z) : Prop := ∃ i, 1 ≤ i ≤ m ∧ v ^ 2 ^ i mod p = p - 1.

Lemma meets_0 p v : ¬ meets p v 0.
Proof. intros (i & Hi & _). lia. Qed.

Lemma square_pow v i : 0 ≤ i → (v ^ 2) ^ 2 ^ i = v ^ 2 ^ (i + 1).
Proof. intros Hi. rewrite <- Z.pow_mul_r, Z.pow_add_r by (lia || apply Z.pow_nonneg; lia). f_equal. lia. Qed.

Lemma meets_succ p v m : 0 < p → 0 ≤ m → meets p v (m + 1) ↔ v ^ 2 mod p = p - 1 ∨ meets p (v ^ 2 mod p) m.
Proof.
  intros Hp Hm. assert (∀ i, 0 ≤ i → (v ^ 2 mod p) ^ 2 ^ i mod p = v ^ 2 ^ (i + 1) mod p) as Hs by (intros i Hi; by rewrite Z.mod_pow_l, square_pow).
  split.
  - intros (i & Hi & E). destruct (Z.eq_dec i 1) as [->|Hne]; [by left|]. right. exists (i - 1). split; [lia|]. rewrite Hs by lia. by replace (i - 1 + 1) with i by lia.
  - intros [E|(i & Hi & E)]; [exists 1; split; [lia|done]|]. exists (i + 1). split; [lia|]. by rewrite <- Hs by lia.
Qed.

(** Once the power is 0 or 1 it stays so. *)
Lemma meets_stuck p v m : 2 < p → 0 ≤ v ≤ 1 → ¬ meets p v m.
Proof.
  intros Hp Hv (i & Hi & E). pose proof (Z.pow_pos_nonneg 2 i ltac:(lia) ltac:(lia)). assert (v = 0 ∨ v = 1) as [->| ->] by lia.
  - rewrite Z.pow_0_l, Z.mod_0_l in E by lia. lia.
  - rewrite Z.pow_1_l, Z.mod_small in E by lia. lia.
Qed.

(** The strong test from the first power on. *)
Lemma strong_meets p q k a : 0 < p → 0 ≤ q → 0 < k → strong p q k a ↔ a ^ q mod p = 1 ∨ a ^ q mod p = p - 1 ∨ meets p (a ^ q mod p) (k - 1).
Proof.
  intros Hp Hq Hk. assert (∀ i, 0 ≤ i → (a ^ q mod p) ^ 2 ^ i mod p = a ^ (q * 2 ^ i) mod p) as Hs by (intros i Hi; pose proof (Z.pow_nonneg 2 i ltac:(lia)); by rewrite Z.mod_pow_l, Z.pow_mul_r by lia).
  unfold strong, meets. split.
  - intros [E|(i & Hi & E)]; [by left|]. right. destruct (Z.eq_dec i 0) as [->|Hne]; [left; by rewrite Z.pow_0_r, Z.mul_1_r in E|]. right. exists i. split; [lia|]. by rewrite Hs by lia.
  - intros [E|[E|(i & Hi & E)]]; [by left| |]; right; [exists 0; split; [lia|]; by rewrite Z.pow_0_r, Z.mul_1_r|]. exists i. split; [lia|]. by rewrite <- Hs by lia.
Qed.

(** ** The verdict *)

(** The bases of the test. *)
Definition mr_base (j : Z) : Z := j * j + j + 41.

(** What a number from [31 * 31] on passes. *)
Definition passes (p reps : Z) : Prop :=
  Z.odd p = true ∧ coprime p GMP_PRIME_PRODUCT ∧ ∀ j, 0 ≤ j < reps → mr_base j < p - 1 → strong_probable_prime p (mr_base j).

(** 2 for a prime and 0 for a number that is not, below [31 * 31]; from there on
    1 when all tests are passed and 0 otherwise. *)
Definition verdict (p reps r : Z) : Prop :=
  if p <? 31 * 31 then r = 2 ∧ Z.prime p ∨ r = 0 ∧ ¬ Z.prime p
  else r = 1 ∧ passes p reps ∨ r = 0 ∧ ¬ passes p reps.

Lemma odd_split p : Z.odd p = true → 2 < p → ∃ q k, 0 < k ∧ p - 1 = q * 2 ^ k ∧ Z.odd q = true.
Proof.
  intros Ho Hp. assert (Z.even (p - 1) = true) as He by (rewrite Z.even_sub, <- Z.negb_odd, Ho; done).
  assert (∀ n, 0 < n → ∃ q k, 0 ≤ k ∧ n = q * 2 ^ k ∧ Z.odd q = true) as Hs.
  { intros n. induction (Z.lt_wf 0 n) as [n _ IH]. intros Hn. destruct (Z.odd n) eqn:E; [exists n, 0; split; [done|split; [lia|done]]|].
    rewrite <- Z.negb_even, negb_false_iff in E. apply Z.even_spec in E as [m ->]. destruct (IH m ltac:(lia) ltac:(lia)) as (q & k & Hk & -> & Hq). exists q, (k + 1). split; [lia|]. split; [|done]. rewrite Z.pow_add_r by lia. lia. }
  destruct (Hs (p - 1) ltac:(lia)) as (q & k & Hk & E & Hq). exists q, k. split; [|done]. destruct (Z.eq_dec k 0) as [->|]; [|lia]. rewrite Z.pow_0_r, Z.mul_1_r in E. by rewrite E, <- Z.negb_odd, Hq in He.
Qed.

Lemma prime_odd p : Z.prime p → 2 < p → Z.odd p = true.
Proof.
  intros [_ Hp] Hgt. destruct (Z.odd p) eqn:E; [done|]. exfalso. apply (Hp 2 ltac:(lia)). rewrite <- Z.negb_even, negb_false_iff in E. apply Z.even_spec in E as [m ->]. exists m. lia.
Qed.

(** A prime number is never called composite. *)
Lemma prime_verdict p reps r : Z.prime p → verdict p reps r → r ≠ 0.
Proof.
  intros Hp. unfold verdict. destruct (Z.ltb_spec p (31 * 31)) as [Hlt|Hge]; [by intros [[-> _]|[_ ?]]|]. intros [[-> _]|[_ Hn]]; [done|]. exfalso. apply Hn.
  pose proof (prime_odd p Hp ltac:(lia)) as Ho. split; [done|]. split; [apply prime_rough; (done || lia)|]. intros j Hj Hlt. destruct (odd_split p Ho ltac:(lia)) as (q & k & Hk & E & Hq).
  exists q, k. split_and!; try done. pose proof (Z.pow_pos_nonneg 2 k ltac:(lia) ltac:(lia)). apply prime_strong; try done; [|lia|nia]. unfold mr_base in *. rewrite Z.mod_small by nia. nia.
Qed.
