(* ===== verification/MpzPrime.v ===== *)
(** * Primality testing

    gmp_millerrabin and mpz_probab_prime_p: the small numbers are decided by a
    table and by the small primes, the others by the strong test with a fixed
    sequence of bases. *)

From S2P Require Import Prelude Limbs Mpn Invert MpnDiv MpnDivN MpnStr MpnSetStr MpnGetStr Mpz MpzRep MpzArith MpzMul MpzDivision MpzFrame MpzDivShort MpzLocals MpzGcd MpzBits MpzGcdExt MpzLogic MpzCount MpzScan MpzPow MpzSize MpzRoot MpzReader MpzBorrow MpzPowm Primes.

(** ** Definitions *)

(** [while (--k > 0)], entered with [k] one more than the turns left. *)
Fixpoint mr_loop (turns : nat) (n nm1 y : positive) : M zst Z :=
  match turns with
  | O => mret 0
  | S turns' =>
      _ ← mpz_powm_ui y y 2 n;
      c ← mpz_cmp y nm1;
      if c =? 0 then mret 1
      else
        c ← mpz_cmp_ui y 1;
        if c <=? 0 then mret 0 else mr_loop turns' n nm1 y
  end.

Definition gmp_millerrabin (n nm1 y q : positive) (k : Z) : M zst Z :=
  _ ← lift (assertion (0 <? k));
  _ ← mpz_powm y y q n;
  c ← mpz_cmp_ui y 1;
  if c =? 0 then mret 1
  else
    c ← mpz_cmp y nm1;
    if c =? 0 then mret 1 else mr_loop (Z.to_nat (k - 1)) n nm1 y.

(** The loop over the bases; [turns] bounds the numbers [j] left. *)
Fixpoint prime_loop (turns : nat) (n nm1 y q : positive) (k reps j is_prime : Z) : M zst Z :=
  if Z.land is_prime (b2l (j <? reps)) =? 0 then mret is_prime
  else match turns with
       | O => failM Undefined
       | S turns' =>
           _ ← mpz_set_ui y (u64 (u64 (u64 (j * j) + j) + 41));
           c ← mpz_cmp y nm1;
           if 0 <=? c then
             _ ← lift (assertion (30 <=? j));
             mret is_prime
           else
             is_prime ← gmp_millerrabin n nm1 y q k;
             prime_loop turns' n nm1 y q k reps (j + 1) is_prime
       end.

Definition mpz_probab_prime_p (n : positive) (reps : Z) : M zst Z :=
  with_local (λ nm1, with_local (λ q, with_local (λ y,
    e ← mpz_even_p n;
    if (e : bool) then
      c ← mpz_cmpabs_ui n 2;
      mret (if c =? 0 then 2 else 0)
    else
      ns ← size_of n;
      _ ← lift (assertion (negb (ns =? 0)));
      c ← mpz_cmpabs_ui n 64;
      if c <? 0 then
        np ← limbs_of n;
        x ← limbsZ (load np);
        mret (Z.land (lshr GMP_PRIME_MASK (lshr x 1)) 2)
      else
        g ← mpz_gcd_ui None n GMP_PRIME_PRODUCT;
        if negb (g =? 1) then mret 0
        else
          c ← mpz_cmpabs_ui n (31 * 31);
          if c <? 0 then mret 2
          else
            _ ← mpz_init nm1;
            _ ← mpz_init q;
            _ ← mpz_init y;
            s ← mpz_abs_sub_ui nm1 n 1;
            _ ← set_size nm1 s;
            k ← mpz_scan1 nm1 0;
            _ ← mpz_tdiv_q_2exp q nm1 k;
            is_prime ← prime_loop (Z.to_nat reps) n nm1 y q k reps 0 1;
            _ ← mpz_clear nm1;
            _ ← mpz_clear q;
            _ ← mpz_clear y;
            mret is_prime))).

(** ** The answers of comparisons *)

Lemma cmp_sign_eq x y : (cmp_sign x y =? 0) = (x =? y).
Proof. destruct (cmp_sign_spec x y) as [[-> ?]|[[-> ?]|[-> ?]]], (Z.eqb_spec x y); (done || lia). Qed.

Lemma cmp_sign_le x y : (cmp_sign x y <=? 0) = (x <=? y).
Proof. destruct (cmp_sign_spec x y) as [[-> ?]|[[-> ?]|[-> ?]]], (Z.leb_spec x y); (done || lia). Qed.

Lemma cmp_sign_lt x y : (cmp_sign x y <? 0) = (x <? y).
Proof. destruct (cmp_sign_spec x y) as [[-> ?]|[[-> ?]|[-> ?]]], (Z.ltb_spec x y); (done || lia). Qed.

Lemma cmp_sign_ge x y : (0 <=? cmp_sign x y) = (y <=? x).
Proof. destruct (cmp_sign_spec x y) as [[-> ?]|[[-> ?]|[-> ?]]], (Z.leb_spec y x); (done || lia). Qed.

(** ** The strong test *)

(** The int that stands for a decision. *)
Definition decides (r : Z) (P : Prop) : Prop := r = 1 ∧ P ∨ r = 0 ∧ ¬ P.

#[export] Instance decides_proper r : Proper (iff ==> iff) (decides r).
Proof. intros P P' E. unfold decides. by rewrite E. Qed.

Lemma wp_decides (P P' : Prop) (R : zst → Prop) (k : M zst Z) s :
  P ↔ P' → wp never k (λ r s', decides r P' ∧ R s') s → wp never k (λ r s', decides r P ∧ R s') s.
Proof. intros E Hk. eapply wp_mono; [exact Hk|]. intros r s' [Hd HR]. split; [by rewrite E|done]. Qed.

Section test.
Context {F : gmap Z (option Z)} {FB : gmap Z Z} {D : positive → Prop}.
Local Abbreviation holds := (holds F FB D).
Context (N : vars) (n nm1 y q : positive) (z Q : Z).
Local Abbreviation p := (Z.abs z).
Hypotheses (Hl : locals [y; q; nm1] N) (Hn : N !! n = Some (Some z)) (Hp : 2 < p) (Hlim : 3 * zlimbs z ≤ alloc_limit).

(** The local variables, with [v] in [y]. *)
Definition tested (v : Z) (s : zst) : Prop := holds (binds [y; q; nm1] [Some v; Some Q; Some (p - 1)] N) s.

Lemma tested_cmp v s : tested v s → reads (mpz_cmp y nm1) s (cmp_sign v (p - 1)) ∧ reads (mpz_cmp_ui y 1) s (cmp_sign v 1).
Proof.
  unfold tested. intros H. split; [apply (mpz_cmp_spec _ s H); look|]. apply (mpz_cmp_ui_spec _ s H); [look|unfold limb; done].
Qed.

Lemma mr_loop_spec turns v s :
  tested v s → 0 ≤ v < p → wp never (mr_loop turns n nm1 y) (λ r s', decides r (meets p v (Z.of_nat turns)) ∧ ∃ w, 0 ≤ w < p ∧ tested w s') s.
Proof.
  revert v s. induction turns as [|turns IH]; intros v s H Hv; cbn [mr_loop].
  { eapply wp_run; [done|]. split; [right; split; [done|apply meets_0]|by exists v]. }
  assert (z ≠ 0) as Hz by lia. apply wp_bind. eapply wp_mono; [eapply (mpz_powm_ui_spec F FB D _ s y y 2 n v z H); [look|look|unfold limb; done|look|done|done]|].
  intros [] s1 H1. at_place 0%nat H1. change (2 =? 0) with false in H1. cbv iota in H1. pose proof (Z.mod_pos_bound (v ^ 2) p ltac:(lia)) as Hb. set (v' := v ^ 2 mod p) in *. change (tested v' s1) in H1.
  destruct (tested_cmp v' s1 H1) as [Hc1 Hc2]. replace (Z.of_nat (S turns)) with (Z.of_nat turns + 1) by lia. eapply wp_decides; [apply meets_succ; lia|].
  fold v'. eapply wp_reads; [exact Hc1|]. rewrite cmp_sign_eq. destruct (Z.eqb_spec v' (p - 1)) as [E|E].
  { eapply wp_run; [done|]. split; [left; split; [done|by left]|by exists v']. }
  eapply wp_reads; [exact Hc2|]. rewrite cmp_sign_le. destruct (Z.leb_spec v' 1) as [Hle|Hgt].
  { eapply wp_run; [done|]. split; [right; split; [done|]|by exists v']. intros [?|Hm]; [done|]. apply (meets_stuck p v' (Z.of_nat turns)); (done || lia). }
  eapply wp_mono; [by apply IH|]. intros r s2 [Hr Hw]. split; [|done]. destruct Hr as [[-> Hr]|[-> Hr]]; [left|right]; (split; [done|tauto]).
Qed.

Lemma gmp_millerrabin_spec a K s :
  tested a s → 0 ≤ a → 0 < K → 0 < Q →
  wp never (gmp_millerrabin n nm1 y q K) (λ r s', decides r (strong p Q K a) ∧ ∃ w, 0 ≤ w < p ∧ tested w s') s.
Proof.
  intros H Ha HK HQ. unfold gmp_millerrabin. apply wp_assert; [lia|]. assert (z ≠ 0) as Hz by lia.
  apply wp_bind. eapply wp_mono; [eapply (mpz_powm_spec F FB D _ s y y q n a Q z H); [look|look|look|look|done|done|lia]|].
  intros [] s1 (v & Hv & H1). at_place 0%nat H1. destruct Hv as [[? _]|[[_ Ev]|[? _]]]; [lia| |lia]. pose proof (Z.mod_pos_bound (a ^ Q) p ltac:(lia)) as Hb. rewrite <- Ev in Hb. change (tested v s1) in H1.
  destruct (tested_cmp v s1 H1) as [Hc1 Hc2]. eapply wp_decides; [apply strong_meets; lia|]. rewrite <- Ev.
  eapply wp_reads; [exact Hc2|]. rewrite cmp_sign_eq. destruct (Z.eqb_spec v 1) as [E|E].
  { eapply wp_run; [done|]. split; [left; split; [done|by left]|by exists v]. }
  eapply wp_reads; [exact Hc1|]. rewrite cmp_sign_eq. destruct (Z.eqb_spec v (p - 1)) as [E'|E'].
  { eapply wp_run; [done|]. split; [left; split; [done|right; by left]|by exists v]. }
  eapply wp_mono; [by apply mr_loop_spec|]. intros r s2 [Hr Hw]. split; [|done]. rewrite Z2Nat.id in Hr by lia. destruct Hr as [[-> Hr]|[-> Hr]]; [left|right]; (split; [done|tauto]).
Qed.

(** ** The loop over the bases *)

Lemma mr_base_word j : 0 ≤ j < 2 ^ 31 → u64 (u64 (u64 (j * j) + j) + 41) = mr_base j ∧ 0 < mr_base j < 2 ^ 63.
Proof.
  intros Hj. assert (0 ≤ j * j ≤ (2 ^ 31 - 1) * (2 ^ 31 - 1)) as Hjj by (split; [nia|apply Z.mul_le_mono_nonneg; lia]). unfold mr_base. split; [|lia].
  rewrite (u64_small (j * j)), (u64_small (j * j + j)), u64_small; (done || (unfold SIZE_MOD; lia)).
Qed.

Lemma mr_base_mono i j : 0 ≤ i ≤ j → mr_base i ≤ mr_base j.
Proof. unfold mr_base. nia. Qed.

(** What the bases from [j] on say. *)
Definition rest_passes (K reps j : Z) : Prop := ∀ i, j ≤ i < reps → mr_base i < p - 1 → strong p Q K (mr_base i).

Lemma prime_loop_spec K reps turns j s w :
  0 < K → 0 < Q → 31 * 31 ≤ p → reps < 2 ^ 31 → 0 ≤ j → reps ≤ j + Z.of_nat turns → tested w s →
  wp never (prime_loop turns n nm1 y q K reps j 1) (λ r s', decides r (rest_passes K reps j) ∧ ∃ w, tested w s') s.
Proof.
  intros HK HQ Hbig Hreps. revert j s w. induction turns as [|turns IH]; intros j s w Hj Ht H; cbn [prime_loop].
  { rewrite (proj2 (Z.ltb_ge j reps)) by lia. cbn [b2l Z.land Z.eqb]. eapply wp_run; [done|]. split; [left; split; [done|intros i Hi; lia]|eauto]. }
  destruct (Z.ltb_spec j reps) as [Hlt|Hge]; cbn [b2l].
  2: { change (Z.land 1 0 =? 0) with true. eapply wp_run; [done|]. split; [left; split; [done|intros i Hi; lia]|eauto]. }
  change (Z.land 1 1 =? 0) with false. cbv iota. destruct (mr_base_word j ltac:(lia)) as [-> Hb]. unfold tested in H.
  apply wp_bind. eapply wp_mono; [eapply (mpz_set_ui_spec (F:=F) (FB:=FB) (D:=D) _ s y (mr_base j) H); [look|unfold limb, B; lia]|]. intros [] s1 H1. at_place 0%nat H1. change (tested (mr_base j) s1) in H1.
  eapply wp_reads; [apply (tested_cmp _ _ H1)|]. rewrite cmp_sign_ge. destruct (Z.leb_spec (p - 1) (mr_base j)) as [Hle|Hgt].
  { apply wp_assert; [apply Z.leb_le; destruct (Z.le_gt_cases 30 j); [done|]; pose proof (mr_base_mono j 29 ltac:(lia)); unfold mr_base in *; lia|].
    eapply wp_run; [done|]. split; [|eauto]. left. split; [done|]. intros i Hi Hlt'. pose proof (mr_base_mono j i ltac:(lia)). lia. }
  apply wp_bind. eapply wp_mono; [apply (gmp_millerrabin_spec (mr_base j) K s1 H1); (done || lia)|]. intros r s2 [[[-> Hs]|[-> Hs]] (v & _ & H2)].
  - eapply wp_mono; [apply (IH (j + 1) s2 v); (done || lia)|]. intros r s3 [Hr Hv]. split; [|done]. destruct Hr as [[-> Hr]|[-> Hr]]; [left|right]; (split; [done|]).
    + intros i Hi Hlt'. destruct (Z.eq_dec i j) as [->|]; [done|]. apply Hr; lia.
    + intros Hall. apply Hr. intros i Hi. apply Hall. lia.
  - destruct turns; cbn [prime_loop]; rewrite Z.land_0_l; (eapply wp_run; [done|]); (split; [right; split; [done|]; intros Hall; apply Hs, Hall; lia|eauto]).
Qed.
End test.

(** ** The function *)

Lemma odd_abs z : Z.odd (Z.abs z) = Z.odd z.
Proof. by destruct z. Qed.

(** The scan finds the power of two. *)
Lemma scan_power q k r : 0 ≤ k → Z.odd q = true → scan_answer (q * 2 ^ k) 0 r → r = k.
Proof.
  intros Hk Hq Hr. assert (∀ i, Z.testbit (q * 2 ^ k) i = Z.testbit q (i - k)) as Hb by (intros i; by apply Z.mul_pow2_bits).
  assert (Z.testbit (q * 2 ^ k) k = true) as Ht by (by rewrite Hb, Z.sub_diag, Z.bit0_odd). destruct Hr as [(Hr & Hrt & Hrf)|[Hf _]]; [|by rewrite Hf in Ht].
  destruct (Z.lt_trichotomy r k) as [Hlt|[->|Hgt]]; [|done|by rewrite Hrf in Ht by lia]. rewrite Hb, Z.testbit_neg_r in Hrt by lia. done.
Qed.

(** The loop decides what the verdict on large numbers asks. *)
Lemma rest_passes_iff z q k reps :
  31 * 31 ≤ Z.abs z → Z.odd z = true → Z.coprime (Z.abs z) GMP_PRIME_PRODUCT → 0 < k → Z.abs z - 1 = q * 2 ^ k → Z.odd q = true →
  passes (Z.abs z) reps ↔ rest_passes z q k reps 0.
Proof.
  intros Hbig Ho Hc Hk E Hq. unfold passes, rest_passes. rewrite odd_abs. split.
  - intros (_ & _ & H) i Hi Hlt. apply (strong_at (Z.abs z) q k); auto.
  - intros H. split_and!; try done. intros j Hj Hlt. apply (strong_at (Z.abs z) q k); auto.
Qed.

(** A verdict that the small primes or a table give. *)
Lemma small_verdict p reps r : p < 31 * 31 → (r = if trial p then 2 else 0) → verdict p reps r.
Proof.
  intros Hp ->. unfold verdict. rewrite (proj2 (Z.ltb_lt _ _)) by done. pose proof (trial_prime p) as Ht. destruct (trial p); [left|right]; (split; [done|]).
  - by apply Ht.
  - intros H. apply Ht in H. done.
Qed.

Lemma even_verdict p reps : Z.even p = true → verdict p reps (if p =? 2 then 2 else 0).
Proof.
  intros He. unfold verdict. destruct (Z.ltb_spec p (31 * 31)) as [Hlt|Hge].
  - destruct (Z.eqb_spec p 2) as [->|Hne]; [left; split; [done|apply Z.prime_2]|]. right. split; [done|]. intros Hp. pose proof (Z.prime_ge_2 p Hp). pose proof (prime_odd p Hp ltac:(lia)) as Ho. by rewrite <- Z.negb_even, He in Ho.
  - rewrite (proj2 (Z.eqb_neq p 2)) by lia. right. split; [done|]. intros [Ho _]. by rewrite <- Z.negb_even, He in Ho.
Qed.

Section function.
Context {F : gmap Z (option Z)} {FB : gmap Z Z}.

(** The part of the function after the small divisors. *)
Lemma strong_part_spec (D : positive → Prop) N s n nm1 y q z reps :
  holds F FB D N s → locals [y; q; nm1] N → Forall D [y; q; nm1] → N !! n = Some (Some z) → 31 * 31 ≤ Z.abs z → Z.odd z = true → Z.coprime (Z.abs z) GMP_PRIME_PRODUCT → 3 * zlimbs z ≤ alloc_limit → reps < 2 ^ 31 →
  wp never (_ ← mpz_init nm1;
            _ ← mpz_init q;
            _ ← mpz_init y;
            s ← mpz_abs_sub_ui nm1 n 1;
            _ ← set_size nm1 s;
            k ← mpz_scan1 nm1 0;
            _ ← mpz_tdiv_q_2exp q nm1 k;
            is_prime ← prime_loop (Z.to_nat reps) n nm1 y q k reps 0 1;
            _ ← mpz_clear nm1;
            _ ← mpz_clear q;
            _ ← mpz_clear y;
            mret is_prime) (λ r s', decides r (passes (Z.abs z) reps) ∧ holds F FB D N s') s.
Proof.
  intros H Hl HD Hn Hbig Ho Hc Hlim Hreps. pose proof Hl as [Hnd Hf]. apply NoDup_cons in Hnd as [Hny Hnd]. apply NoDup_cons in Hnd as [Hnq Hnd].
  apply Forall_cons in Hf as [Hfy Hf]. apply Forall_cons in Hf as [Hfq Hf]. apply Forall_cons in Hf as [Hfn _]. apply Forall_cons in HD as [HDy HD]. apply Forall_cons in HD as [HDq HD]. apply Forall_cons in HD as [HDn _].
  change N with (binds [] [] N) in H. assert (locals [] N) as Hl0 by (split; constructor).
  eapply wp_init_local; [exact H|exact Hl0|done|apply not_elem_of_nil|done|]. intros s1 H1 Hl1. eapply wp_init_local; [exact H1|exact Hl1|done|done|done|]. intros s2 H2 Hl2.
  eapply wp_init_local; [exact H2|exact Hl2|done|done|done|]. intros s3 H3 _. clear Hl0 Hl1 Hl2. set (p := Z.abs z) in *.
  apply wp_bind. eapply wp_mono; [eapply (mpz_abs_sub_ui_spec _ s3 nm1 n z H3); [look|look|unfold limb; done]|]. intros m s4 [_ Hm].
  apply wp_bind. eapply wp_mono; [exact (pending_finish _ _ _ _ _ Hm)|]. intros [] s5 H5. at_place 2%nat H5. fold p in H5.
  destruct (mpz_scan1_spec (F:=F) (FB:=FB) (D:=D) _ s5 nm1 (p - 1) 0 H5 ltac:(look) ltac:(lia)) as (k & Hk & Hans). eapply wp_reads; [exact Hk|].
  destruct (odd_split p ltac:(unfold p; by rewrite odd_abs) ltac:(lia)) as (Q & K & HK & E & HQ). assert (k = K) as -> by (apply (scan_power Q K); [lia|done|by rewrite <- E]).
  pose proof (Z.pow_pos_nonneg 2 K ltac:(lia) ltac:(lia)). assert (0 < Q) as HQ0 by nia. assert (zlimbs (p - 1) ≤ zlimbs z) by (rewrite <- (zlimbs_abs z); apply zlimbs_mono; lia). pose proof (zlimbs_pos z ltac:(lia)).
  unfold mpz_tdiv_q_2exp. into 1%nat (mpz_div_q_2exp_spec F FB D _ s5 q nm1 (p - 1) K GMP_DIV_TRUNC); [lia..|].
  assert ((div_round GMP_DIV_TRUNC (p - 1) (2 ^ K)).1 = Q) as EQ by (cbn [div_round fst]; rewrite Z.quot_div_nonneg, E, Z.div_mul by lia; done). rewrite EQ in *.
  apply wp_bind. eapply wp_mono; [eapply (prime_loop_spec N n nm1 y q z Q Hl Hn ltac:(lia) Hlim K reps (Z.to_nat reps) 0); [done|done|done|done|done|lia|unfold tested; eassumption]|].
  intros r s10 [Hr (w & H10)]. unfold tested in H10. eapply (wp_clear_local 2%nat); [exact H10|exact Hl|reflexivity|reflexivity|]. intros s11 H11 Hl11. cbn [delete list_delete] in H11, Hl11.
  eapply (wp_clear_local 1%nat); [exact H11|exact Hl11|reflexivity|reflexivity|]. intros s12 H12 Hl12. cbn [delete list_delete] in H12, Hl12.
  eapply (wp_clear_local 0%nat); [exact H12|exact Hl12|reflexivity|reflexivity|]. intros s13 H13 Hl13. cbn [delete list_delete] in H13, Hl13. eapply wp_run; [done|]. split; [|exact H13].
  unfold p; by rewrite (rest_passes_iff z Q K reps Hbig Ho Hc HK E HQ).
Qed.

Lemma mpz_probab_prime_p_spec (D : positive → Prop) N s n z reps :
  holds F FB D N s → N !! n = Some (Some z) → 3 * zlimbs z ≤ alloc_limit → reps < 2 ^ 31 →
  wp never (mpz_probab_prime_p n reps) (λ r s', verdict (Z.abs z) reps r ∧ holds F FB D N s') s.
Proof.
  intros H Hn Hlim Hreps. apply (wp_declare_to F FB D _ _ N); [done|done|]. intros nm1 s1 D1 H1 HD1 HN1 _ _.
  apply (wp_declare_to F FB D1 _ _ N); [done|done|]. intros q s2 D2 H2 HD2 HN2 Hf2 Hs2. apply (wp_declare_to F FB D2 _ _ N); [done|done|]. intros y s3 D3 H3 HD3 HN3 Hf3 Hs3.
  pose proof (holds_sizes _ _ H3) as Hsz. eapply wp_reads; [by apply (mpz_even_p_spec N s3 H3)|]. destruct (Z.even z) eqn:He.
  { eapply wp_reads; [apply (mpz_cmpabs_ui_spec N s3 H3 n z 2 Hn); unfold limb; done|]. eapply wp_run; [done|]. split; [|done]. rewrite cmp_sign_eq. apply even_verdict. rewrite <- Z.negb_odd, odd_abs, Z.negb_odd. done. }
  assert (Z.odd z = true) as Ho by (by rewrite <- Z.negb_even, He). assert (z ≠ 0) as Hz by (by intros ->). pose proof (zlimbs_pos z Hz). set (p := Z.abs z) in *. assert (Z.odd p = true) as Hop by (unfold p; by rewrite odd_abs).
  eapply wp_size; [exact Hsz|done|]. apply wp_assert; [apply negb_true_iff, Z.eqb_neq; by rewrite zsize_0|].
  eapply wp_reads; [apply (mpz_cmpabs_ui_spec N s3 H3 n z 64 Hn); unfold limb; done|]. rewrite cmp_sign_lt. fold p. destruct (Z.ltb_spec p 64) as [H64|H64].
  { destruct (low_limb N s3 H3 n z Hn Hz) as (st & Hown & E). eapply wp_limbs; [exact Hown|]. eapply wp_limbsZ; [exact E|]. fold p. rewrite (Z.mod_small p) by (unfold B; lia). eapply wp_run; [done|]. split; [|done].
    rewrite mask_prime by (done || lia). by apply small_verdict; [lia|]. }
  apply wp_bind. eapply wp_mono; [apply (mpz_gcd_ui_spec (F:=F) (FB:=FB) (D:=D3) N s3 None n z GMP_PRIME_PRODUCT H3 I Hn); unfold limb, GMP_PRIME_PRODUCT, B; lia|].
  intros g s4 [-> H4]. cbn [opt_set] in H4. change (GMP_PRIME_PRODUCT =? 0) with false. cbv iota. rewrite <- Z.gcd_abs_l. fold p. destruct (Z.eqb_spec (Z.gcd p GMP_PRIME_PRODUCT) 1) as [Hg|Hg]; cbn [negb].
  2: { eapply wp_run; [done|]. split; [|done]. unfold verdict. destruct (Z.ltb_spec p (31 * 31)); right; (split; [done|]); [|intros (_ & Hc & _); done]. intros Hp. apply Hg, prime_rough; (done || lia). }
  eapply wp_reads; [apply (mpz_cmpabs_ui_spec N s4 H4 n z (31 * 31) Hn); unfold limb; done|]. rewrite cmp_sign_lt. fold p. destruct (Z.ltb_spec p (31 * 31)) as [Hs|Hbig].
  { eapply wp_run; [done|]. split; [|done]. unfold verdict. rewrite (proj2 (Z.ltb_lt _ _)) by done. left. split; [done|]. apply rough_prime; (done || lia). }
  eapply wp_mono; [eapply (strong_part_spec D3 N s4 n nm1 y q z reps H4); try done|].
  - split; [|repeat constructor; done]. apply NoDup_cons; split; [apply (fresh_local _ _ _ Hf3); repeat constructor; auto|]. apply NoDup_cons; split; [apply (fresh_local _ _ _ Hf2); repeat constructor; auto|apply NoDup_singleton].
  - repeat constructor; auto.
  - intros r s5 [Hr H5]. split; [|done]. unfold verdict. rewrite (proj2 (Z.ltb_ge _ _)) by done. exact Hr.
Qed.
End function.
