(* ===== verification/MpzStr.v ===== *)
(** * Strings of integers

    mpz_get_str, mpz_set_str and the functions built on them. A C string is the
    list of the codes of its characters before the terminating NUL; the buffer
    of mpz_get_str is an array of cells. *)

From S2P Require Import Prelude Limbs Mpn Invert MpnDiv MpnDivN MpnStr MpnSetStr MpnGetStr Mpz MpzRep MpzArith MpzMul MpzDivision MpzDivShort MpzLocals MpzGcd MpzLogic MpzSize.

(** ** Definitions *)

Definition codes (s : string) : list Z := (λ a, Z.of_N (Ascii.N_of_ascii a)) <$> String.list_ascii_of_string s.
Arguments codes : simpl never.

Definition lower_digits : list Z := codes "0123456789abcdefghijklmnopqrstuvwxyz".
Definition upper_digits : list Z := codes "0123456789ABCDEFGHIJKLMNOPQRSTUVWXYZ".

(** A computation on limbs and a buffer of characters. *)
Definition charsZ {A} (k : M strmem A) (cs : list (option Z)) : M zst (A * list (option Z)) := λ s,
  match k (Mk_strmem (zmem s) cs) with
  | Done a sm => Done (a, chars sm) (Mk_zst (lm sm) (zvars s) (zlocal s))
  | Exited c sm => Exited c (Mk_zst (lm sm) (zvars s) (zlocal s))
  | Failed f => Failed f
  end.

(** [for (; i < sn; i++) sp[i] = digits[(unsigned char) sp[i]];] *)
Fixpoint digit_loop (digits : list Z) (cs : list (option Z)) (i : Z) (n : nat) : res (list (option Z)) :=
  match n with
  | O => Ok cs
  | S n' =>
      c ← arr_get cs i;
      d ← (match digits !! Z.to_nat (u8 c) with Some d => Ok d | None => Fail Undefined end : res Z);
      cs ← arr_set cs i d;
      digit_loop digits cs (i + 1) n'
  end.

(** The pointer that is returned is NULL or points to a buffer, whose contents
    are the result; [sp] is the buffer of the caller or NULL. *)
Definition mpz_get_str (sp : option (list (option Z))) (base : Z) (u : positive) : M zst (option (list (option Z))) :=
  '(digits, base) ← (if 0 <=? base then mret (lower_digits, base) else b ← lift (int_op (- base)); mret (upper_digits, b));
  let base := if base <=? 1 then 10 else base in
  if 36 <? base then mret None
  else
    d ← mpz_sizeinbase u base;
    let sn := 1 + d in
    cs ← match sp with Some cs => mret cs | None => lift (arr_alloc (1 + sn)) end;
    us ← size_of u;
    let un := Z.abs us in
    if un =? 0 then
      cs ← lift (arr_set cs 0 48);
      cs ← lift (arr_set cs 1 0);
      mret (Some cs)
    else
      '(i, cs) ← (if us <? 0 then cs ← lift (arr_set cs 0 45); mret (1, cs) else mret (0, cs));
      let bits := mpn_base_power_of_two_p base in
      '(n, cs) ←
        (if negb (bits =? 0) then
           up ← limbs_of u;
           charsZ (mpn_get_str_bits i bits up un) cs
         else
           info ← lift (mpn_get_base_info base);
           tp ← limbsZ (gmp_xalloc_limbs un);
           up ← limbs_of u;
           _ ← limbsZ (mpn_copyi tp up un);
           r ← charsZ (mpn_get_str_other i base info tp un) cs;
           _ ← limbsZ (gmp_free tp);
           mret r);
      let sn := i + n in
      cs ← lift (digit_loop digits cs i (Z.to_nat n));
      cs ← lift (arr_set cs sn 0);
      mret (Some cs).

Definition is_space (c : Z) : bool := (c =? 32) || (9 <=? c) && (c <=? 13).

Fixpoint skip_spaces (sp : list Z) : list Z :=
  match sp with c :: sp' => if is_space c then skip_spaces sp' else sp | [] => [] end.

(** [sp[i]]; the string ends with a NUL. *)
Definition char_of (sp : list Z) (i : nat) : res Z :=
  match sp !! i with Some c => Ok c | None => if Nat.eqb i (length sp) then Ok 0 else Fail Undefined end.

(** The base that a prefix stands for, when none is given. *)
Definition select_base (sp : list Z) (base : Z) : res (Z * list Z) :=
  if base =? 0 then
    c0 ← char_of sp 0;
    if c0 =? 48 then
      c1 ← char_of sp 1;
      if (c1 =? 120) || (c1 =? 88) then Ok (16, drop 2 sp)
      else if (c1 =? 98) || (c1 =? 66) then Ok (2, drop 2 sp)
      else Ok (8, sp)
    else Ok (10, sp)
  else Ok (base, sp).

Definition char_digit (base c : Z) : Z :=
  if (48 <=? c) && (c <=? 57) then c - 48
  else if (97 <=? c) && (c <=? 122) then c - 97 + 10
  else if (65 <=? c) && (c <=? 90) then c - 65 + 10
  else base.

(** The loop that stores the digits in [dp], which has room for one for each
    character; [None] when it meets a character that is not a digit. *)
Fixpoint read_chars (base : Z) (sp : list Z) (dp : list Z) : option (list Z) :=
  match sp with
  | [] => Some dp
  | c :: sp' =>
      if is_space c then read_chars base sp' dp
      else
        let digit := char_digit base c in
        if base <=? digit then None else read_chars base sp' (dp ++ [digit])
  end.

(** The limbs of the digits; the number of limbs allocated and used. *)
Definition set_str_limbs (r : positive) (dp : list Z) (base : Z) : M zst (Z * Z) :=
  let dn := Z.of_nat (length dp) in
  let bits := mpn_base_power_of_two_p base in
  if 0 <? bits then
    let alloc := u64 (dn * bits + GMP_LIMB_BITS - 1) / GMP_LIMB_BITS in
    rp ← MPZ_REALLOC r alloc;
    rn ← limbsZ (mpn_set_str_bits rp dp dn bits);
    mret (alloc, rn)
  else
    info ← lift (mpn_get_base_info base);
    let alloc := u64 (dn + bi_exp info - 1) / bi_exp info in
    rp ← MPZ_REALLOC r alloc;
    rn ← limbsZ (mpn_set_str_other rp dp dn base info);
    _ ← lift (assertion (0 <? rn));
    x ← limbsZ (load (rp + rn - 1));
    mret (alloc, rn - b2l (x =? 0)).

Definition mpz_set_str (r : positive) (sp : list Z) (base : Z) : M zst Z :=
  _ ← lift (assertion ((base =? 0) || (2 <=? base) && (base <=? 36)));
  let sp := skip_spaces sp in
  c ← lift (char_of sp 0);
  let sign := c =? 45 in
  let sp := if sign then drop 1 sp else sp in
  '(base, sp) ← lift (select_base sp base);
  c ← lift (char_of sp 0);
  if c =? 0 then _ ← set_size r 0; mret (-1)
  else
    _ ← lift (arr_alloc (A := Z) (Z.of_nat (length sp)));
    match read_chars base sp [] with
    | None => _ ← set_size r 0; mret (-1)
    | Some dp =>
        if Nat.eqb (length dp) 0 then _ ← set_size r 0; mret (-1)
        else
          '(alloc, rn) ← set_str_limbs r dp base;
          _ ← lift (assertion (rn <=? alloc));
          _ ← set_size r (if sign then - rn else rn);
          mret 0
    end.

Definition mpz_init_set_str (r : positive) (sp : list Z) (base : Z) : M zst Z :=
  _ ← mpz_init r; mpz_set_str r sp base.

(** The text before the NUL. *)
Fixpoint text_of (cs : list (option Z)) : res (list Z) :=
  match cs with
  | Some c :: cs' => if c =? 0 then Ok [] else t ← text_of cs'; Ok (c :: t)
  | _ => Fail Undefined
  end.

(** [fwrite str 1 len] says how many of the characters were written. *)
Definition mpz_out_str (fwrite : list Z → Z) (base : Z) (x : positive) : M zst Z :=
  str ← mpz_get_str None base x;
  match str with
  | None => failM Undefined
  | Some cs => t ← lift (text_of cs); mret (fwrite t)
  end.

(** ** What a string denotes *)

Definition digit_of (base c : Z) : option Z := let d := char_digit base c in if d <? base then Some d else None.

(** Digits between spaces. *)
Definition parse_digits (base : Z) (sp : list Z) : option Z :=
  ds ← mapM (digit_of base) (filter (λ c, is_space c = false) sp);
  if bool_decide (ds = []) then None else Some (digits_value base ds).

(** The base and the rest of a string with a prefix. *)
Definition prefix_base (sp : list Z) : Z * list Z :=
  if bool_decide (head sp = Some 48) then
    if bool_decide (sp !! 1%nat ∈ [Some 120; Some 88]) then (16, drop 2 sp)
    else if bool_decide (sp !! 1%nat ∈ [Some 98; Some 66]) then (2, drop 2 sp)
    else (8, sp)
  else (10, sp).

Definition split_sign (sp : list Z) : bool * list Z :=
  if bool_decide (head sp = Some 45) then (true, tail sp) else (false, sp).

(** Spaces, a sign, a prefix if there is no base, and digits. *)
Definition parse (base : Z) (sp : list Z) : option Z :=
  let '(sign, sp) := split_sign (skip_spaces sp) in
  let '(b, sp) := if base =? 0 then prefix_base sp else (base, sp) in
  (λ v, if (sign : bool) then - v else v) <$> parse_digits b sp.

(** ** Reading *)

Lemma digit_of_eq b c : digit_of b c = if char_digit b c <? b then Some (char_digit b c) else None.
Proof. done. Qed.

Section reading.
Context (b : Z).

Lemma char_digit_nonneg c : 0 ≤ b → 0 ≤ char_digit b c.
Proof. intros Hb. unfold char_digit. repeat case_match; bool_to_prop; lia. Qed.

Lemma read_chars_spec sp dp :
  read_chars b sp dp = (λ ds, dp ++ ds) <$> mapM (digit_of b) (filter (λ c, is_space c = false) sp).
Proof.
  revert dp. induction sp as [|c sp IH]; intros dp; [simpl; by rewrite app_nil_r|]. cbn [read_chars]. destruct (is_space c) eqn:Es.
  - rewrite filter_cons_False by congruence. apply IH.
  - rewrite filter_cons_True by done. cbn [mapM]. rewrite digit_of_eq. destruct (Z.leb_spec b (char_digit b c)), (Z.ltb_spec (char_digit b c) b); try lia; [done|].
    rewrite IH. cbn [mbind option_bind]. destruct (mapM _ _); [|done]. simpl. by rewrite <- app_assoc.
Qed.

Lemma digits_read cs ds : 0 ≤ b → mapM (digit_of b) cs = Some ds → Forall (digit b) ds ∧ length ds = length cs.
Proof.
  intros Hb H. apply mapM_Some in H. induction H as [|c d cs ds Hc _ [IH1 IH2]]; [done|]. simpl. split; [|lia]. constructor; [|done]. rewrite digit_of_eq in Hc.
  destruct (Z.ltb_spec (char_digit b c) b); [|done]. injection Hc as <-. pose proof (char_digit_nonneg c Hb). unfold digit. lia.
Qed.
End reading.

(** The first character, with the NUL of an empty string. *)
Lemma char_head sp : char_of sp 0 = Ok (default 0 (head sp)).
Proof. by destruct sp. Qed.

Lemma head_is sp c : Forall (λ c, c ≠ 0) sp → c ≠ 0 → (default 0 (head sp) =? c) = bool_decide (head sp = Some c).
Proof.
  intros H0 Hc. apply eq_true_iff_eq. rewrite Z.eqb_eq, bool_decide_eq_true. destruct sp as [|x sp]; simpl; [split; [congruence|done]|]. split; congruence.
Qed.

Lemma select_base_spec sp base : Forall (λ c, c ≠ 0) sp → select_base sp base = Ok (if base =? 0 then prefix_base sp else (base, sp)).
Proof.
  intros H0. unfold select_base, prefix_base. destruct (base =? 0); [|done]. rewrite char_head. cbn [mbind res_bind]. rewrite (head_is sp 48 H0) by done.
  destruct sp as [|c sp]; [done|]. case_bool_decide; [|done]. change (char_of (c :: sp) 1) with (char_of sp 0). rewrite char_head. cbn [mbind res_bind].
  change ((c :: sp) !! 1%nat) with (sp !! 0%nat). replace (sp !! 0%nat) with (head sp) by by destruct sp. apply Forall_cons in H0 as [_ H0]. rewrite !head_is by done.
  assert (∀ a b, bool_decide (head sp = Some a) || bool_decide (head sp = Some b) = bool_decide (head sp ∈ [Some a; Some b])) as Eor.
  { intros a b. rewrite <- bool_decide_or. apply bool_decide_ext. rewrite !elem_of_cons, elem_of_nil. tauto. }
  rewrite !Eor. by repeat case_bool_decide.
Qed.

Lemma prefix_base_range sp : 2 ≤ (prefix_base sp).1 ≤ 36 ∧ (prefix_base sp).2 `suffix_of` sp.
Proof.
  unfold prefix_base. repeat case_match; simpl; (split; [lia|]); try done; apply suffix_drop.
Qed.

Section limbs.
Context {F : gmap Z (option Z)} {FB : gmap Z Z} {D : positive → Prop}.
Local Abbreviation holds := (holds F FB D).
Local Abbreviation pending := (pending (F:=F) (FB:=FB) (D:=D)).
Local Abbreviation filled := (filled (F:=F) (FB:=FB) (D:=D)).

Lemma set_limbs N s1 r st rp room V k P :
  holds N s1 → own N s1 r st → rp = mp_d st → Z.of_nat room ≤ mp_alloc st → sets_top k (zmem s1) rp room V P →
  wp never (limbsZ k) (λ rn s', ∃ rs, filled N s' r st rs ∧ 0 ≤ rn ≤ Z.of_nat (length rs) ∧ Z.of_nat (length rs) ≤ Z.of_nat room ∧
    value (take (Z.to_nat rn) rs) = V ∧ P (take (Z.to_nat rn) rs)) s1.
Proof.
  intros H Ho -> Hroom (rs & rn & E & Hrs & Hl & HV & HP). eapply wp_mono; [apply (filled_write N s1 r st _ (Z.of_nat rn) rs H Ho E Hrs); lia|].
  intros c s' (-> & -> & Hf). exists rs. rewrite Nat2Z.id. split_and!; (done || lia).
Qed.

Lemma set_str_limbs_spec N s r dp base :
  holds N s → is_Some (N !! r) → Forall (digit base) dp → (0 < length dp)%nat → Z.of_nat (length dp) ≤ alloc_limit → 2 ≤ base ≤ 36 →
  wp never (set_str_limbs r dp base) (λ p s', p.2 ≤ p.1 ∧ pending N s' r p.2 (digits_value base dp)) s.
Proof.
  intros H Hr Hdp Hl Hlim Hb. unfold set_str_limbs. cbv zeta. set (dn := Z.of_nat (length dp)) in *. change GMP_LIMB_BITS with 64.
  destruct (Z.ltb_spec 0 (mpn_base_power_of_two_p base)) as [Hp|Hp].
  - destruct (base_pow2 base ltac:(lia)) as [Hbits Eb]. set (bits := mpn_base_power_of_two_p base) in *. assert (0 < dn * bits ≤ dn * 8) as Hdb by nia. rewrite u64_small by (unfold SIZE_MOD, alloc_limit in *; lia).
    pose proof (Z.div_mod (dn * bits + 64 - 1) 64 ltac:(lia)). pose proof (Z.mod_pos_bound (dn * bits + 64 - 1) 64 ltac:(lia)). set (al := (dn * bits + 64 - 1) / 64) in *.
    apply (wp_realloc N s r al _ _ H Hr); [lia|]. intros s1 st Hs1 Ho Hal. apply wp_bind.
    eapply wp_mono; [apply (set_limbs N s1 r st _ (Z.to_nat al) (digits_value base dp) _ normalized Hs1 Ho eq_refl); [lia|]|].
    + rewrite Eb. apply set_str_bits_top; [done|by rewrite <- Eb|fold dn; lia|]. apply (own_writable N s1 r st _ Hs1 Ho). lia.
    + intros rn s2 (rs & Hf & Hrn & Hrl & HV & Hnorm). eapply wp_run; [done|]. cbn [fst snd]. split; [lia|]. exists st, rs. rewrite Z.abs_eq by lia. split_and!; try done; [lia|].
      rewrite HV. destruct (Z.eq_dec rn 0) as [->|]; [simpl in HV; simpl; lia|]. rewrite Z.sgn_pos by lia. lia.
  - destruct (mpn_get_base_info_spec base) as (e & -> & He & Hbe); [unfold B; lia|]. eapply wp_then; [reflexivity|]. cbn [bi_exp].
    rewrite u64_small by (unfold SIZE_MOD, alloc_limit in *; lia).
    pose proof (Z.div_mod (dn + e - 1) e ltac:(lia)). pose proof (Z.mod_pos_bound (dn + e - 1) e ltac:(lia)). set (al := (dn + e - 1) / e) in *. assert (0 < al ≤ dn) as Hal1 by nia.
    apply (wp_realloc N s r al _ _ H Hr); [lia|]. intros s1 st Hs1 Ho Hal. apply wp_bind.
    eapply wp_mono; [apply (set_limbs N s1 r st _ (Z.to_nat al) (digits_value base dp) _ one_or_normalized Hs1 Ho eq_refl); [lia|]|].
    + apply set_str_other_top; try done; try lia.
      * apply (own_writable N s1 r st _ Hs1 Ho). lia.
      * pose proof (digits_bounds base dp ltac:(lia) Hdp) as [_ Hhi]. fold dn in Hhi. rewrite Z2Nat.id by lia. eapply Z.lt_le_trans; [exact Hhi|].
        etransitivity; [apply (Z.pow_le_mono_r base dn (e * al)); nia|]. rewrite Z.pow_mul_r by lia. apply Z.pow_le_mono_l. split; [apply Z.pow_nonneg|]; lia.
    + intros rn s2 (rs & Hf & Hrn & Hrl & HV & Htop). set (ys := take (Z.to_nat rn) rs) in *.
      assert (length ys = Z.to_nat rn) as Ly by (unfold ys; rewrite length_take; lia). assert (0 < rn) as Hrp by (destruct Htop as [Ht|[Ht _]]; lia).
      apply wp_assert; [by apply Z.ltb_lt|]. destruct (last ys) as [x|] eqn:Ex; [|apply last_None in Ex; rewrite Ex in Ly; simpl in Ly; lia].
      eapply wp_limbsZ. { replace rn with (Z.of_nat (length ys)) by lia. apply last_load; [|done]. destruct Hf as (_ & _ & Hlm & _). apply (limbs_at_split _ _ (Z.to_nat rn) rs Hlm). lia. }
      eapply wp_run; [done|]. cbn [fst snd]. split; [destruct (x =? 0); simpl; lia|]. destruct (Z.eqb_spec x 0) as [->|Hx]; cbn [b2l].
      * destruct Htop as [Ht|[_ Hn]]; [|by destruct Hn]. assert (rn = 1) as -> by lia. destruct ys as [|y [|]]; try done. injection Ex as ->.
        simpl in HV. rewrite <- HV. exists st, rs. by split_and!; [|simpl; lia|..].
      * rewrite Z.sub_0_r. exists st, rs. rewrite Z.abs_eq by lia. fold ys. split_and!; [done|lia| |rewrite Z.sgn_pos by lia; lia].
        destruct Htop as [Ht|[_ Hn]]; [|done]. unfold normalized. rewrite Ex. congruence.
Qed.

(** The answer, and the variables at the end. *)
Definition set_str_result (v : option Z) (N : vars) (r : positive) (a : Z) (s : zst) : Prop :=
  match v with Some v => a = 0 ∧ holds (<[r := Some v]> N) s | None => a = -1 ∧ holds (<[r := Some 0]> N) s end.

Lemma fail_spec N s r v : holds N s → is_Some (N !! r) → v = None → wp never (_ ← set_size r 0; mret (-1)) (λ a s', set_str_result v N r a s') s.
Proof. intros H Hr ->. apply wp_bind. eapply wp_mono; [exact (set_size_zero _ _ _ H Hr)|]. intros [] s1 H1. by eapply wp_run. Qed.

(** From the digits on. *)
Lemma set_str_body_spec N s r sp base (sign : bool) :
  holds N s → is_Some (N !! r) → Forall (λ c, c ≠ 0) sp → 2 ≤ base ≤ 36 → Z.of_nat (length sp) ≤ alloc_limit →
  wp never (c ← lift (char_of sp 0);
            if c =? 0 then _ ← set_size r 0; mret (-1)
            else
              _ ← lift (arr_alloc (A := Z) (Z.of_nat (length sp)));
              match read_chars base sp [] with
              | None => _ ← set_size r 0; mret (-1)
              | Some dp =>
                  if Nat.eqb (length dp) 0 then _ ← set_size r 0; mret (-1)
                  else '(alloc, rn) ← set_str_limbs r dp base; _ ← lift (assertion (rn <=? alloc)); _ ← set_size r (if sign then - rn else rn); mret 0
              end)
    (λ a s', set_str_result ((λ v, if sign then - v else v) <$> parse_digits base sp) N r a s') s.
Proof.
  intros H Hr H0 Hb Hlim. rewrite char_head. eapply wp_then; [reflexivity|]. destruct (Z.eqb_spec (default 0 (head sp)) 0) as [E0|E0].
  { apply fail_spec; [done|done|]. destruct sp as [|c sp]; [done|]. by apply Forall_cons in H0 as [? _]. }
  unfold arr_alloc. rewrite (proj2 (Z.leb_le 0 _)), (proj2 (Z.leb_le _ alloc_limit)) by lia. eapply wp_then; [reflexivity|]. rewrite read_chars_spec. unfold parse_digits.
  destruct (mapM _ _) as [ds|] eqn:Ed; [|by apply fail_spec]. apply digits_read in Ed as [Hds Hlen]; [|lia]. cbn [fmap option_fmap option_map mbind option_bind app].
  destruct ds as [|d ds]; [by apply fail_spec|]. cbn [length Nat.eqb]. set (dp := d :: ds) in *. rewrite bool_decide_eq_false_2 by done.
  pose proof (length_filter (λ c, is_space c = false) sp) as Hfl. apply wp_bind. eapply wp_mono; [apply (set_str_limbs_spec N s r dp base H Hr Hds); [simpl; lia|lia|done]|].
  intros [al rn] s1 [Hle Hp]. cbn [fst snd] in *. apply wp_assert; [by apply Z.leb_le|]. apply wp_bind.
  eapply wp_mono; [apply (pending_finish (F:=F) (FB:=FB) (D:=D) N s1 r _ (if sign then - digits_value base dp else digits_value base dp)); by destruct sign; [apply pending_opp|]|].
  intros [] s2 H2. by eapply wp_run.
Qed.

Lemma mpz_set_str_spec N s r sp base :
  holds N s → is_Some (N !! r) → Forall (λ c, c ≠ 0) sp → base = 0 ∨ 2 ≤ base ≤ 36 → Z.of_nat (length sp) ≤ alloc_limit →
  wp never (mpz_set_str r sp base) (λ a s', set_str_result (parse base sp) N r a s') s.
Proof.
  intros H Hr H0 Hb Hlim. unfold mpz_set_str, parse. apply wp_assert; [bool_to_prop; lia|]. cbv zeta.
  assert (Forall (λ c, c ≠ 0) (skip_spaces sp) ∧ (length (skip_spaces sp) ≤ length sp)%nat) as [H0' Hl'].
  { clear -H0. induction H0 as [|c sp Hc Hsp [IH1 IH2]]; [done|]. simpl. destruct (is_space c); [split; [done|lia]|]. split; [by constructor|done]. }
  set (s0 := skip_spaces sp) in *. rewrite char_head. eapply wp_then; [reflexivity|]. rewrite head_is by done. unfold split_sign.
  set (sign := bool_decide (head s0 = Some 45)). replace (if sign then drop 1 s0 else s0) with ((if sign then (true, tail s0) else (false, s0)).2) by (by destruct sign, s0).
  assert (Forall (λ c, c ≠ 0) (if sign then (true, tail s0) else (false, s0)).2 ∧ (length (if sign then (true, tail s0) else (false, s0)).2 ≤ length sp)%nat) as [H1 Hl1].
  { destruct sign; [|done]. destruct s0 as [|c s0]; [done|]. apply Forall_cons in H0' as [_ ?]. simpl in *. split; [done|lia]. }
  assert ((if sign then (true, tail s0) else (false, s0)).1 = sign) as Es by (by destruct sign). destruct (if sign then (true, tail s0) else (false, s0)) as [sg s1]. cbn [fst snd] in *. subst sg.
  rewrite select_base_spec by done. destruct (Z.eqb_spec base 0) as [->|Hne].
  - destruct (prefix_base_range s1) as [Hpb [pre Hpre]]. destruct (prefix_base s1) as [b s2]. cbn [fst snd] in *. eapply wp_then; [reflexivity|]. cbv beta iota.
    assert (Forall (λ c, c ≠ 0) s2 ∧ (length s2 ≤ length s1)%nat) as [Hz2 Hl2] by (rewrite Hpre in H1 |- *; apply Forall_app in H1 as [_ ?]; rewrite length_app; split; [done|lia]).
    apply set_str_body_spec; (done || lia).
  - eapply wp_then; [reflexivity|]. cbv beta iota. apply set_str_body_spec; (done || lia).
Qed.
End limbs.

(** ** Writing *)

Lemma fill_fill_at cs p q ds es : q = (p + length ds)%nat → (p + length ds + length es ≤ length cs)%nat → fill (fill cs p ds) q es = fill cs p (ds ++ es).
Proof. intros ->. apply fill_fill. Qed.

Lemma arr_set_fill cs p ds j c : j = Z.of_nat (p + length ds) → (p + length ds < length cs)%nat → arr_set (fill cs p ds) j c = Ok (fill cs p (ds ++ [c])).
Proof.
  intros -> Hl. rewrite arr_set_ok by (rewrite length_fill; lia). by rewrite Nat2Z.id, fill_snoc.
Qed.

(** The character of a digit. *)
Definition digit_char (digits : list Z) (d : Z) : Z := default 0 (digits !! Z.to_nat d).

Lemma digit_loop_spec digits cs p t ds :
  Forall (digit (Z.of_nat (length digits))) ds → Z.of_nat (length digits) ≤ 256 → (p + length t + length ds ≤ length cs)%nat →
  digit_loop digits (fill cs p (t ++ ds)) (Z.of_nat (p + length t)) (length ds) = Ok (fill cs p (t ++ (digit_char digits <$> ds))).
Proof.
  intros Hd H256. revert t. induction ds as [|d ds IH]; intros t Hl; [done|]. cbn [digit_loop length] in *. apply Forall_cons in Hd as [[Hd0 Hd1] Hds].
  rewrite (arr_get_ok _ _ d) by (rewrite ?Nat2Z.id, ?lookup_fill by (rewrite length_app; simpl; lia); try lia; rewrite decide_True by (rewrite length_app; simpl; lia);
    replace (p + length t - p)%nat with (length t) by lia; by rewrite lookup_app_r, Nat.sub_diag).
  cbn [mbind res_bind]. unfold u8. rewrite Z.mod_small by lia. destruct (lookup_lt_is_Some_2 digits (Z.to_nat d) ltac:(lia)) as [c Ec]. rewrite Ec. cbn [mbind res_bind].
  rewrite arr_set_ok by (rewrite length_fill; rewrite ?length_app; simpl; lia). cbn [mbind res_bind]. rewrite Nat2Z.id, fill_insert by (rewrite length_app; simpl; lia).
  rewrite insert_app_r_alt, Nat.sub_diag by lia. cbn [insert list_insert]. change (t ++ c :: ds) with (t ++ [c] ++ ds). rewrite app_assoc.
  replace (Z.of_nat (p + length t) + 1) with (Z.of_nat (p + length (t ++ [c]))) by (rewrite length_app; simpl; lia). rewrite IH; [|done|rewrite length_app; simpl; lia].
  cbn [fmap list_fmap]. rewrite <- app_assoc. unfold digit_char at 2. by rewrite Ec.
Qed.

Lemma charsZ_run {A} (k : M strmem A) cs s a m' cs' : k (Mk_strmem (zmem s) cs) = Done a (Mk_strmem m' cs') → charsZ k cs s = Done (a, cs') (set_mem s m').
Proof. intros E. unfold charsZ. by rewrite E. Qed.

(** The digits of the absolute value, and the text. *)
Definition printed (b z : Z) (ds : list Z) : Prop :=
  Forall (digit b) ds ∧ digits_value b ds = Z.abs z ∧ (if z =? 0 then ds = [0] else head ds ≠ Some 0).
Definition number_text (digits : list Z) (z : Z) (ds : list Z) : list Z := (if z <? 0 then [45] else []) ++ (digit_char digits <$> ds).

(** A block that was filled and changed is still working space. *)
Lemma scratch_changes m0 n m m' : scratch (next m0) n m0 m → only_changes (next m0) n m m' → scratch (next m0) n m0 m'.
Proof.
  intros (Hb & Hx & Hw & Hc) (Hb' & Hn' & Hc'). split; [congruence|]. split; [lia|]. split.
  - intros a Ha. rewrite Hc', Hb' by lia. apply Hw. lia.
  - intros a Ha. rewrite Hc' by done. by apply Hc.
Qed.

Section writing.
Context {F : gmap Z (option Z)} {FB : gmap Z Z} {D : positive → Prop}.
Local Abbreviation holds := (holds F FB D).
Context (N : vars) (s : zst) (u : positive) (z b : Z) (st : mpz_struct) (xs : list Z).
Hypotheses (H : holds N s) (Ho : own N s u st) (Hx : limbs_at (zmem s) (mp_d st) xs) (Hn : normalized xs) (Hl : (0 < length xs)%nat) (Hv : value xs = Z.abs z).
Hypotheses (Hb : 2 ≤ b ≤ 36) (Hlim : Z.of_nat (length xs) ≤ alloc_limit).

(** The digits, in a base that is a power of two and in another. *)
Lemma print_digits cs i room :
  Z.abs z < b ^ Z.of_nat room → (i + room ≤ length cs)%nat →
  wp never (let bits := mpn_base_power_of_two_p b in
            if negb (bits =? 0) then up ← limbs_of u; charsZ (mpn_get_str_bits (Z.of_nat i) bits up (Z.of_nat (length xs))) cs
            else
              info ← lift (mpn_get_base_info b);
              tp ← limbsZ (gmp_xalloc_limbs (Z.of_nat (length xs)));
              up ← limbs_of u;
              _ ← limbsZ (mpn_copyi tp up (Z.of_nat (length xs)));
              r ← charsZ (mpn_get_str_other (Z.of_nat i) b info tp (Z.of_nat (length xs))) cs;
              _ ← limbsZ (gmp_free tp);
              mret r)
    (λ p s', ∃ ds, p = (Z.of_nat (length ds), fill cs i ds) ∧ (i + length ds ≤ length cs)%nat ∧ Forall (digit b) ds ∧ digits_value b ds = Z.abs z ∧ head ds ≠ Some 0 ∧ holds N s') s.
Proof.
  intros Hz Hroom. cbv zeta. destruct (Z.eqb_spec (mpn_base_power_of_two_p b) 0) as [Hp|Hp]; cbn [negb].
  - destruct (mpn_get_base_info_spec b) as (e & -> & He & Hbe); [unfold B; lia|]. eapply wp_then; [reflexivity|]. destruct (h_wf _ _ _ _ _ H) as [Hwf Hnn]. set (n := Z.of_nat (length xs)) in *.
    destruct (scratch_alloc (zmem s) n Hwf ltac:(lia)) as (Ea & Hsc & Hw). eapply wp_then; [exact (limbsZ_run _ _ _ _ Ea)|]. eapply wp_then; [exact (limbs_of_own N (set_mem s (grow (zmem s) n)) u st Ho)|].
    replace (Z.to_nat n) with (length xs) in Hw by lia. set (m1 := write (grow (zmem s) n) (next (zmem s)) xs).
    eapply wp_then. { apply (limbsZ_run _ _ tt m1). apply mpn_copyi_spec; [by apply limbs_at_grow|done|]. right. apply (writable_below (zmem s) (mp_d st) (length xs) Hwf Hl). by apply writable_limbs. }
    assert (scratch (next (zmem s)) n (zmem s) m1) as Hsc1 by (eapply scratch_write; [exact Hsc|exact Hw|lia|apply after_temp_refl]).
    destruct (mpn_get_str_other_spec m1 (next (zmem s)) xs b e i room cs ltac:(lia) ltac:(lia) (proj1 Hbe)) as (ds & m' & E & Hld & Hds & HV & Hh & Hoc); try done; try lia.
    { apply Hsc1. } { apply limbs_at_write, Hx. }
    eapply wp_then; [exact (charsZ_run _ _ (set_mem s m1) _ _ _ E)|]. destruct (scratch_free (zmem s) n Hwf ltac:(lia) m' (scratch_changes _ _ _ _ Hsc1 Hoc)) as (m2 & Ef & Hat).
    eapply wp_then; [exact (limbsZ_run _ (set_mem s m') _ _ Ef)|]. eapply wp_run; [done|]. exists ds. rewrite HV. split_and!; try done. by apply (holds_temp N s).
  - eapply wp_limbs; [exact Ho|]. destruct (base_pow2 b Hp) as [Hbits Eb]. rewrite Eb in Hz. rewrite <- Hv in Hz. destruct (last_split xs (length xs - 1)) as (lo & x & Ex & _); [lia|].
    assert (0 < x) as Hx0. { rewrite Ex in Hx, Hn. destruct Hx as [Hxl _]. apply Forall_app in Hxl as [_ Hxl]. apply Forall_cons in Hxl as [[? ?] _]. unfold normalized in Hn. rewrite last_snoc in Hn. destruct (Z.eq_dec x 0) as [->|]; [done|lia]. }
    rewrite Ex in Hx, Hz. destruct (mpn_get_str_bits_spec (zmem s) (mp_d st) lo x _ i room cs Hbits Hx Hx0 Hz Hroom) as (ds & m' & E & Hld & Hds & HV & Hh & ->).
    rewrite <- Ex, <- Eb in *. eapply wp_run; [exact (charsZ_run _ _ s _ _ _ E)|]. exists ds. rewrite HV. split_and!; try done. by destruct s.
Qed.
End writing.

(** The base that is used, and the digits. *)
Definition used_base (base : Z) : Z := if Z.abs base <=? 1 then 10 else Z.abs base.
Definition used_digits (base : Z) : list Z := if 0 <=? base then lower_digits else upper_digits.

Lemma choose_base {A} base (f : list Z * Z → M zst A) Q s :
  INT_MIN < base ≤ INT_MAX → (∀ b, (if b <=? 1 then 10 else b) = used_base base → wp never (f (used_digits base, b)) Q s) →
  wp never ((if 0 <=? base then mret (lower_digits, base) else b ← lift (int_op (- base)); mret (upper_digits, b)) ≫= f) Q s.
Proof.
  intros Hb Hf. unfold used_base, used_digits in *. destruct (Z.leb_spec 0 base).
  - eapply wp_then; [reflexivity|]. apply Hf. by rewrite Z.abs_eq by lia.
  - rewrite int_op_ok by (unfold INT_MIN, INT_MAX in *; lia). eapply wp_then; [reflexivity|]. apply Hf. by rewrite Z.abs_neq by lia.
Qed.

(** Room for a sign, the digits and the NUL. *)
Definition str_room (b z n : Z) : Prop := ∀ d, z = 0 ∧ d = 1 ∨ has_digits b (Z.abs z) d → 2 + d ≤ n.

Lemma digits_bound b z d : 2 ≤ b → has_digits b (Z.abs z) d → d ≤ 64 * zlimbs z.
Proof.
  intros Hb (Hd & Hlo & _). pose proof (abs_lt z) as Hz. rewrite B_pow in Hz by apply zlimbs_nonneg. pose proof (Z.pow_le_mono_l 2 b (d - 1) ltac:(lia)).
  assert (2 ^ (d - 1) < 2 ^ (64 * zlimbs z)) as Hlt by lia. apply Z.pow_lt_mono_r_iff in Hlt; [lia|lia|pose proof (zlimbs_nonneg z); lia].
Qed.

Section get_str.
Context {F : gmap Z (option Z)} {FB : gmap Z Z} {D : positive → Prop}.
Local Abbreviation holds := (holds F FB D).
Context (N : vars) (s : zst) (u : positive) (z base : Z) (sp : option (list (option Z))).
Hypotheses (H : holds N s) (Hu : N !! u = Some (Some z)) (Hbase : INT_MIN < base ≤ INT_MAX).

Lemma mpz_get_str_null : 36 < Z.abs base → reads (mpz_get_str sp base u) s None.
Proof.
  intros Hb. apply reads_wp. unfold mpz_get_str. apply choose_base; [done|]. intros b Eb. cbv zeta beta iota. rewrite Eb. unfold used_base.
  rewrite (proj2 (Z.leb_gt (Z.abs base) 1)), (proj2 (Z.ltb_lt 36 _)) by lia. by eapply wp_run.
Qed.

Hypotheses (Hsmall : Z.abs base ≤ 36) (Hsp : match sp with Some cs => str_room (used_base base) z (Z.of_nat (length cs)) | None => 64 * zlimbs z + 4 ≤ alloc_limit end).

(** The buffer at the end. *)
Definition text_in (o : option (list (option Z))) : Prop :=
  ∃ cs ds, o = Some (fill cs 0 (number_text (used_digits base) z ds ++ [0%Z])) ∧ printed (used_base base) z ds ∧
    (length (number_text (used_digits base) z ds ++ [0%Z]) ≤ length cs)%nat ∧ match sp with Some cs' => cs = cs' | None => True end.

Lemma used_base_range : 2 ≤ used_base base ≤ 36.
Proof. unfold used_base. destruct (Z.leb_spec (Z.abs base) 1); lia. Qed.

Lemma used_digits_length : length (used_digits base) = 36%nat.
Proof. unfold used_digits. by destruct (0 <=? base). Qed.

Lemma mpz_get_str_spec : wp never (mpz_get_str sp base u) (λ o s', text_in o ∧ holds N s') s.
Proof.
  pose proof used_base_range as Hb. unfold mpz_get_str. apply choose_base; [done|]. intros b Eb. cbv zeta beta iota. rewrite Eb. clear b Eb. set (b := used_base base) in *.
  rewrite (proj2 (Z.ltb_ge 36 b)) by lia. apply wp_bind. eapply wp_mono; [by apply (mpz_sizeinbase_spec F FB D N s u z b H Hu)|]. intros d s1 [Hd H1].
  assert (d ≤ 64 * zlimbs z + 1) as Hdl by (destruct Hd as [[_ ->]|Hd]; [pose proof (zlimbs_nonneg z); lia|pose proof (digits_bound b z d ltac:(lia) Hd); lia]).
  assert (0 < d) as Hd0 by (destruct Hd as [[_ ->]|[? _]]; lia).
  apply wp_bind. eapply (wp_mono _ _ (λ cs s', s' = s1 ∧ 2 + d ≤ Z.of_nat (length cs) ∧ match sp with Some cs' => cs = cs' | None => True end)).
  { destruct sp as [cs|].
    - eapply wp_run; [done|]. split_and!; try done. by apply Hsp.
    - rewrite arr_alloc_ok by lia. eapply wp_run; [done|]. split_and!; try done. rewrite length_replicate. lia. }
  intros cs s2 (-> & Hroom & Hcs). eapply wp_size; [exact (holds_sizes _ _ H1)|done|]. rewrite zsize_abs.
  assert (∀ c, arr_set cs 0 c = Ok (fill cs 0 [c])) as Eset by (intros c; rewrite <- (fill_nil cs 0) at 1; by rewrite (arr_set_fill cs 0 [] 0 c) by (simpl; lia)).
  destruct (Z.eqb_spec (zlimbs z) 0) as [E0|E0].
  { assert (z = 0) as Ez by (destruct (Z.eq_dec z 0) as [|Hz]; [done|]; pose proof (zlimbs_pos z Hz); lia). rewrite Eset. eapply wp_then; [reflexivity|]. rewrite (arr_set_fill cs 0 [48] 1 0) by (simpl; lia).
    eapply wp_then; [reflexivity|]. eapply wp_run; [done|]. split; [|done]. exists cs, [0%Z]. rewrite Ez. unfold number_text. cbn [Z.ltb Z.compare app fmap list_fmap].
    replace (digit_char (used_digits base) 0) with 48 by (unfold used_digits; by destruct (0 <=? base)). split_and!; [done| |simpl; lia|done]. split; [|done]. constructor; [unfold digit; fold b; lia|done]. }
  set (t := if z <? 0 then [45] else [] : list Z). assert (length t ≤ 1)%nat as Ht by (unfold t; destruct (z <? 0); simpl; lia).
  apply wp_bind. eapply (wp_mono _ _ (λ p s', p = (Z.of_nat (length t), fill cs 0 t) ∧ s' = s1)).
  { rewrite size_neg. unfold t. destruct (z <? 0); [rewrite Eset; eapply wp_then; [reflexivity|]|]; (eapply wp_run; [done|]); [done|]. by rewrite fill_nil. }
  intros ? s2 [-> ->]. cbv beta iota. destruct Hd as [[-> _]|Hd]; [done|]. destruct (holds_read N s1 u z H1 Hu) as (st & xs & Ho & Hxs & Hnorm & Hlen & _ & Hval & _). pose proof (holds_limit _ _ _ _ H1 Hu). pose proof (zlimbs_nonneg z).
  rewrite <- Hlen. apply wp_bind. eapply wp_mono; [apply (print_digits N s1 u z b st xs H1 Ho Hxs Hnorm ltac:(lia) Hval Hb ltac:(lia) (fill cs 0 t) (length t) (Z.to_nat d))|].
  { rewrite Z2Nat.id by lia. apply Hd. } { rewrite length_fill by lia. lia. }
  intros ? s2 (ds & -> & _ & Hds & HV & Hh & Hs2). cbv beta iota. assert (ds ≠ []) as Hne by (intros ->; unfold digits_value in HV; simpl in HV; destruct Hd as (_ & Hlo & _); pose proof (Z.pow_pos_nonneg b (d - 1)); lia).
  assert (0 < length ds)%nat as Hl0 by (destruct ds; [done|simpl; lia]). pose proof (head_digits b ds ltac:(lia) Hds Hh Hl0) as Hge. rewrite HV in Hge.
  assert (Z.of_nat (length ds) ≤ d) as Hle. { destruct Hd as (_ & _ & Hhi). assert (b ^ (Z.of_nat (length ds) - 1) < b ^ d) as Hlt by lia. apply Z.pow_lt_mono_r_iff in Hlt; lia. }
  rewrite fill_fill_at, Nat2Z.id by lia. rewrite <- (Nat.add_0_l (length t)), digit_loop_spec; [|rewrite used_digits_length|rewrite used_digits_length; lia|lia].
  2: { eapply Forall_impl; [exact Hds|]. unfold digit. lia. }
  eapply wp_then; [reflexivity|]. rewrite arr_set_fill by (rewrite length_app, length_fmap; lia). eapply wp_then; [reflexivity|]. eapply wp_run; [done|]. split; [|done].
  exists cs, ds. change (t ++ (digit_char (used_digits base) <$> ds)) with (number_text (used_digits base) z ds). split_and!; try done.
  - unfold printed. fold b. rewrite (proj2 (Z.eqb_neq z 0)); [done|]. intros ->. done.
  - unfold number_text. fold t. rewrite !length_app, length_fmap. simpl. lia.
Qed.
End get_str.

(** ** Round trip *)

Section chars.
Context (digits : list Z) (Hd : digits = lower_digits ∨ digits = upper_digits).

Lemma digit_char_read d :
  0 ≤ d < 36 → let c := digit_char digits d in is_space c = false ∧ (∀ b, char_digit b c = d) ∧ c ≠ 45 ∧ c ≠ 0 ∧ (c = 48 → d = 0).
Proof.
  intros Hr. cbv zeta. replace d with (Z.of_nat (Z.to_nat d)) by lia. assert (Z.to_nat d < 36)%nat as Hn by lia. generalize dependent (Z.to_nat d). clear d Hr. intros n Hn.
  destruct Hd as [->| ->]; do 36 (destruct n as [|n]; [by split_and!|]); lia.
Qed.

Lemma chars_read b ds : Forall (digit b) ds → b ≤ 36 →
  filter (λ c, is_space c = false) (digit_char digits <$> ds) = digit_char digits <$> ds ∧
  mapM (digit_of b) (digit_char digits <$> ds) = Some ds.
Proof.
  intros Hds Hb. induction Hds as [|d ds Hdd _ [IH1 IH2]]; [done|]. unfold digit in Hdd. destruct (digit_char_read d) as (Hs & Hc & _); [lia|]. rewrite fmap_cons. split.
  - rewrite filter_cons_True by done. by f_equal.
  - cbn [mapM]. rewrite digit_of_eq, Hc. rewrite (proj2 (Z.ltb_lt d b)) by lia. cbn [mbind option_bind]. by rewrite IH2.
Qed.

Lemma parse_digits_read b ds : Forall (digit b) ds → b ≤ 36 → ds ≠ [] → parse_digits b (digit_char digits <$> ds) = Some (digits_value b ds).
Proof. intros Hds Hb Hne. unfold parse_digits. destruct (chars_read b ds Hds Hb) as [-> ->]. cbn [mbind option_bind]. by rewrite bool_decide_eq_false_2. Qed.

Lemma printed_nonempty b z ds : printed b z ds → ds ≠ [].
Proof. intros (_ & HV & Hh) ->. unfold digits_value in HV. simpl in HV. destruct (Z.eqb_spec z 0); [done|lia]. Qed.

(** The text is read back in its base, and without a base when it is decimal. *)
Lemma parse_text b base z ds : printed b z ds → 2 ≤ b ≤ 36 → base = b ∨ base = 0 ∧ b = 10 → parse base (number_text digits z ds) = Some z.
Proof.
  intros Hp Hb Hbase. pose proof (printed_nonempty b z ds Hp) as Hne. destruct Hp as (Hds & HV & Hh). set (body := digit_char digits <$> ds).
  assert (∀ c, head body = Some c → is_space c = false ∧ c ≠ 45 ∧ (c = 48 → z = 0 ∧ ds = [0%Z])) as Hhead.
  { intros c Hc. destruct ds as [|d ds]; [done|]. injection Hc as <-. apply Forall_cons in Hds as [Hd0 _]. unfold digit in Hd0. destruct (digit_char_read d) as (H1 & _ & H3 & _ & H5); [lia|].
    split_and!; [done|done|]. intros H48. rewrite (H5 H48) in *. destruct (Z.eqb_spec z 0); [done|by destruct Hh]. }
  assert (skip_spaces (number_text digits z ds) = number_text digits z ds ∧ split_sign (number_text digits z ds) = (z <? 0, body)) as [E1 E2].
  { unfold number_text, split_sign. fold body. destruct (z <? 0); [done|]. cbn [app]. destruct body as [|c body']; [done|]. destruct (Hhead c eq_refl) as (Hs & H45 & _). simpl. rewrite Hs. split; [done|]. rewrite bool_decide_eq_false_2 by congruence. done. }
  unfold parse. rewrite E1, E2. cbv beta iota. assert (∃ b', (if base =? 0 then prefix_base body else (base, body)) = (b', body) ∧ (b' = b ∨ z = 0 ∧ ds = [0%Z] ∧ b' = 8)) as (b' & -> & Hb').
  { destruct Hbase as [->|[-> E10]]; [exists b; rewrite (proj2 (Z.eqb_neq b 0)) by lia; auto|]. cbn [Z.eqb]. unfold prefix_base. case_bool_decide as H48.
    - destruct (Hhead 48 H48) as (_ & _ & Hz). destruct (Hz eq_refl) as [Ez Eds]. unfold body. rewrite Eds. cbn [fmap list_fmap lookup list_lookup]. exists 8. split; [|auto]. by rewrite !bool_decide_eq_false_2 by set_solver.
    - exists 10. rewrite <- E10. auto. }
  destruct Hb' as [->|(-> & -> & ->)].
  - unfold body. rewrite parse_digits_read, HV by (done || lia). cbn [fmap option_fmap option_map]. f_equal. destruct (Z.ltb_spec z 0); lia.
  - unfold body. rewrite parse_digits_read; [done|constructor; [unfold digit; lia|done]|lia|done].
Qed.

Lemma text_nonzero b z ds : printed b z ds → b ≤ 36 → Forall (λ c, c ≠ 0) (number_text digits z ds).
Proof.
  intros (Hds & _ & _) Hb. unfold number_text. apply Forall_app. split; [destruct (z <? 0); by repeat constructor|]. apply Forall_fmap. eapply Forall_impl; [exact Hds|].
  intros d Hdd. unfold digit in Hdd. simpl. destruct (digit_char_read d) as (_ & _ & _ & ? & _); [lia|done].
Qed.
End chars.

Lemma text_length digits b z ds : printed b z ds → 2 ≤ b → Z.of_nat (length (number_text digits z ds)) ≤ 64 * zlimbs z + 2.
Proof.
  intros (Hds & HV & Hh) Hb. unfold number_text. rewrite length_app, length_fmap. assert (Z.of_nat (length ds) ≤ 64 * zlimbs z + 1) as Hl; [|destruct (z <? 0); simpl; lia].
  pose proof (zlimbs_nonneg z). destruct (Z.eqb_spec z 0) as [->|Hz]; [by rewrite Hh|]. destruct ds as [|d ds]; [simpl; lia|].
  assert (has_digits b (Z.abs z) (Z.of_nat (length (d :: ds)))); [|pose proof (digits_bound b z _ Hb ltac:(done)); lia].
  split; [simpl; lia|]. rewrite <- HV. split; [apply head_digits; (done || simpl; lia)|]. apply digits_bounds; (done || lia).
Qed.

Lemma text_of_fill (cs : list (option Z)) (t : list Z) : Forall (λ c, c ≠ 0) t → text_of (fill cs 0 (t ++ [0%Z])) = Ok t.
Proof.
  intros Ht. unfold fill. rewrite take_0. cbn [app]. generalize (drop (0 + length (t ++ [0%Z])) cs). intros rest. rewrite fmap_app, <- app_assoc.
  induction Ht as [|c t Hc Ht IH]; [done|]. rewrite (fmap_cons Some c t). cbn [app text_of]. rewrite (proj2 (Z.eqb_neq c 0)) by done. by rewrite IH.
Qed.
