(* ===== verification/MpzImport.v ===== *)
(** * Import and export

    mpz_import and mpz_export: integers as arrays of words of any size, whose
    words may be stored from either end, and whose bytes too. A pointer into
    the array is an offset from its start. *)

From S2P Require Import Prelude Limbs Mpn Invert MpnDiv MpnDivN MpnStr MpnSetStr MpnGetStr Mpz MpzRep MpzArith MpzMul MpzDivision MpzDivShort MpzLocals MpzGcd MpzLogic MpzSize MpzStr.

(** ** Definitions *)

(** [low] is the first byte of the [int] 2: 2 on a machine that stores the least
    significant byte first, and 0 on one that stores it last. *)
Definition gmp_detect_endian (low : Z) : Z := 1 - low.

Section machine.
Context (low : Z).

(** The offset of the least significant byte and the step between words. *)
Definition first_byte (order size endian count : Z) : Z :=
  (if order =? 1 then size * (count - 1) else 0) + (if endian =? 1 then size - 1 else 0).
Definition word_step (order size endian : Z) : Z :=
  let step := if negb (order =? endian) then 2 * size else 0 in
  if order =? 1 then - step else step.

(** One byte at [p], with the current limb, the bytes in it and its index. *)
Definition import_byte (src : list Z) (rp p limb bytes i : Z) : M mem (Z * Z * Z) :=
  x ← char_at src p;
  let limb := Z.lor limb (lshl x (bytes * 8)) in
  let bytes := bytes + 1 in
  if bytes =? 8 then _ ← store (rp + i) limb; mret (0, 0, i + 1) else mret (limb, bytes, i).

(** [for (j = 0; j < size; j++, p -= endian)] *)
Fixpoint import_word (src : list Z) (rp endian p limb bytes i : Z) (n : nat) : M mem (Z * Z * Z * Z) :=
  match n with
  | O => mret (p, limb, bytes, i)
  | S n' =>
      '(limb, bytes, i) ← import_byte src rp p limb bytes i;
      import_word src rp endian (p - endian) limb bytes i n'
  end.

(** [for (...; count > 0; count--, p += word_step)] *)
Fixpoint import_words (src : list Z) (rp order size endian p limb bytes i : Z) (n : nat) : M mem (Z * Z * Z) :=
  match n with
  | O => mret (limb, bytes, i)
  | S n' =>
      '(p, limb, bytes, i) ← import_word src rp endian p limb bytes i (Z.to_nat size);
      import_words src rp order size endian (p + word_step order size endian) limb bytes i n'
  end.

Definition import_limbs (src : list Z) (rp order size endian count rn : Z) : M mem Z :=
  '(limb, bytes, i) ← import_words src rp order size endian (first_byte order size endian count) 0 0 0 (Z.to_nat count);
  _ ← lift (assertion (i + b2l (0 <? bytes) =? rn));
  if negb (limb =? 0) then _ ← store (rp + i) limb; mret (i + 1)
  else mpn_normalized_size rp i.

Definition mpz_import (r : positive) (count order size endian nails : Z) (src : list Z) : M zst unit :=
  if negb (nails =? 0) then gmp_die
  else
    _ ← lift (assertion ((order =? 1) || (order =? -1)));
    _ ← lift (assertion ((-1 <=? endian) && (endian <=? 1)));
    let endian := if endian =? 0 then gmp_detect_endian low else endian in
    let rn := u64 (u64 (size * count) + 8 - 1) / 8 in
    rp ← MPZ_REALLOC r rn;
    i ← limbsZ (import_limbs src rp order size endian count rn);
    set_size r i.

(** [do { k++; limb >>= CHAR_BIT; } while (limb != 0)] *)
Fixpoint top_bytes (limb k : Z) (n : nat) : res Z :=
  match n with
  | O => Fail Undefined
  | S n' => let limb := lshr limb 8 in if limb =? 0 then Ok (k + 1) else top_bytes limb (k + 1) n'
  end.

(** One byte to [p], with the current limb, the bytes left in it and the index
    of the next. *)
Definition export_byte (up un p limb bytes i : Z) : M strmem (Z * Z * Z) :=
  '(limb, bytes, i) ←
    (if bytes =? 0 then
       '(limb, i) ← (if i <? un then x ← limbsM (load (up + i)); mret (x, i + 1) else mret (limb, i));
       mret (limb, 8, i)
     else mret (limb, bytes, i));
  _ ← put_char p (u8 limb);
  mret (lshr limb 8, bytes - 1, i).

Fixpoint export_word (up un endian p limb bytes i : Z) (n : nat) : M strmem (Z * Z * Z * Z) :=
  match n with
  | O => mret (p, limb, bytes, i)
  | S n' =>
      '(limb, bytes, i) ← export_byte up un p limb bytes i;
      export_word up un endian (p - endian) limb bytes i n'
  end.

Fixpoint export_words (up un order size endian p limb bytes i : Z) (n : nat) : M strmem Z :=
  match n with
  | O => mret i
  | S n' =>
      '(p, limb, bytes, i) ← export_word up un endian p limb bytes i (Z.to_nat size);
      export_words up un order size endian (p + word_step order size endian) limb bytes i n'
  end.

(** The array that is returned, or the one of the caller, and [*countp]. *)
Definition mpz_export (r : option (list (option Z))) (order size endian nails : Z) (u : positive) : M zst (option (list (option Z)) * Z) :=
  if negb (nails =? 0) then gmp_die
  else
    _ ← lift (assertion ((order =? 1) || (order =? -1)));
    _ ← lift (assertion ((-1 <=? endian) && (endian <=? 1)));
    un ← size_of u;
    _ ← lift (assertion ((0 <? size) || (un =? 0)));
    if negb (un =? 0) then
      let un := Z.abs un in
      up ← limbs_of u;
      limb ← limbsZ (load (up + (un - 1)));
      _ ← lift (assertion (negb (limb =? 0)));
      k ← lift (top_bytes limb 0 8);
      let count := u64 (k + (un - 1) * 8 + size - 1) / size in
      cs ← match r with Some cs => mret cs | None => lift (arr_alloc (u64 (count * size))) end;
      let endian := if endian =? 0 then gmp_detect_endian low else endian in
      up ← limbs_of u;
      '(i, cs) ← charsZ (export_words up un order size endian (first_byte order size endian count) 0 0 0 (Z.to_nat count)) cs;
      _ ← lift (assertion (i =? un));
      mret (Some cs, count)
    else mret (r, 0).
End machine.

(** ** The order of the bytes *)

(** The place in the array of byte [t] of the number, counted from the least
    significant one. *)
Definition place (order size endian count t : Z) : Z :=
  (if order =? 1 then count - 1 - t / size else t / size) * size + (if endian =? 1 then size - 1 - t mod size else t mod size).

(** Where the pointer is after [k] words and [j] bytes. *)
Definition pointer (order size endian count k j : Z) : Z :=
  first_byte order size endian count + k * (word_step order size endian - endian * size) - endian * j.

Lemma word_byte size k j : 0 ≤ j < size → (k * size + j) / size = k.
Proof. intros Hj. rewrite Z.div_add_l, Z.div_small by lia. lia. Qed.

Lemma byte_word size k j : 0 ≤ j < size → (k * size + j) mod size = j.
Proof. intros Hj. rewrite Z.add_comm, Z.mod_add, Z.mod_small by lia. done. Qed.

Section order.
Context (order size endian count : Z).
Hypotheses (Horder : order = 1 ∨ order = -1) (Hendian : endian = 1 ∨ endian = -1) (Hsize : 0 ≤ size).
Local Abbreviation place := (place order size endian count).
Local Abbreviation pointer := (pointer order size endian count).

Lemma pointer_place k j : 0 ≤ j < size → pointer k j = place (k * size + j).
Proof using Horder Hendian.
  intros Hj. unfold pointer, place, first_byte, word_step. rewrite (word_byte size k j Hj), (byte_word size k j Hj).
  destruct Horder as [->| ->], Hendian as [->| ->]; cbn [Z.eqb Z.opp negb Pos.eqb]; ring.
Qed.

Lemma size_pos t : 0 ≤ t < count * size → 0 < size.
Proof using Hsize. intros Ht. destruct (Z.eq_dec size 0); nia. Qed.

Lemma place_range t : 0 ≤ t < count * size → 0 ≤ place t < count * size.
Proof using Hsize.
  intros Ht. pose proof (size_pos t Ht). assert (∀ a b, 0 ≤ a < count → 0 ≤ b < size → 0 ≤ a * size + b < count * size) as Hin by nia. unfold place. pose proof (Z.mod_pos_bound t size ltac:(lia)). pose proof (Z.div_pos t size ltac:(lia) ltac:(lia)).
  assert (t / size < count) by (apply Z.div_lt_upper_bound; lia). apply Hin; [destruct (order =? 1)|destruct (endian =? 1)]; lia.
Qed.

(** The same map leads back. *)
Lemma place_place t : 0 ≤ t < count * size → place (place t) = t.
Proof using Hsize.
  intros Ht. pose proof (size_pos t Ht) as Hs. unfold place at 1. pose proof (Z.mod_pos_bound t size Hs) as Hm. pose proof (Z.div_mod t size ltac:(lia)).
  unfold place. set (j := if endian =? 1 then size - 1 - t mod size else t mod size). assert (0 ≤ j < size) as Hj by (unfold j; destruct (endian =? 1); lia).
  rewrite (word_byte size _ j Hj), (byte_word size _ j Hj). unfold j. destruct (order =? 1), (endian =? 1); nia.
Qed.
End order.

(** The value of the first [n] bytes that [g] gives. *)
Definition bytes_value (g : Z → Z) (n : nat) : Z := le_value 256 ((λ t, g (Z.of_nat t)) <$> seq 0 n).

Lemma bytes_value_S g n : bytes_value g (S n) = bytes_value g n + 256 ^ Z.of_nat n * g (Z.of_nat n).
Proof. unfold bytes_value. rewrite seq_S, fmap_app, le_app, length_fmap, length_seq. cbn [fmap list_fmap]. rewrite le_cons. change (le_value 256 []) with 0. rewrite Nat.add_0_l. ring. Qed.

Lemma bytes_value_ext g h n : (∀ t, 0 ≤ t < Z.of_nat n → g t = h t) → bytes_value g n = bytes_value h n.
Proof. intros E. induction n as [|n IH]; [done|]. rewrite !bytes_value_S, IH by (intros; apply E; lia). by rewrite E by lia. Qed.

Lemma pow256 n : 0 ≤ n → 256 ^ n = 2 ^ (8 * n).
Proof. intros. by rewrite Z.pow_mul_r by lia. Qed.

(** Byte [t] of a number. *)
Definition byte_of (v t : Z) : Z := (v / 256 ^ t) mod 256.

Lemma bytes_of_number v n : bytes_value (byte_of v) n = v mod 256 ^ Z.of_nat n.
Proof.
  induction n as [|n IH]; [by rewrite Z.mod_1_r|]. rewrite bytes_value_S, IH, Nat2Z.inj_succ, Z.pow_succ_r by lia. pose proof (Z.pow_pos_nonneg 256 (Z.of_nat n) ltac:(lia) ltac:(lia)).
  rewrite (Z.mul_comm 256), Z.rem_mul_r by lia. done.
Qed.

(** ** Import *)

Section import.
Context (m0 : mem) (rp : Z) (room : nat) (g : Z → Z).
Hypotheses (Hw : writable m0 rp room) (Hg : ∀ t, 0 ≤ g t < 256).

(** After [t] bytes: the limbs stored, and the current limb. *)
Definition imported (t : nat) (m : mem) (l bytes i : Z) : Prop :=
  ∃ xs, m = write m0 rp xs ∧ Forall limb xs ∧ i = Z.of_nat (length xs) ∧ Z.of_nat t = 8 * i + bytes ∧ 0 ≤ bytes < 8 ∧ 0 ≤ l < 256 ^ bytes ∧
    value xs + B ^ i * l = bytes_value g t.

Lemma import_byte_spec src p t m l bytes i :
  imported t m l bytes i → (t < 8 * room)%nat → 0 ≤ p → src !! Z.to_nat p = Some (g (Z.of_nat t)) →
  ∃ m' l' bytes' i', import_byte src rp p l bytes i m = Done (l', bytes', i') m' ∧ imported (S t) m' l' bytes' i'.
Proof using Hw Hg.
  intros (xs & -> & Hxs & -> & Ht & Hb & Hl & HV) Hroom Hp Hx. unfold import_byte. rewrite <- (Z2Nat.id p Hp), (bind_done _ _ _ _ _ (char_at_ok _ _ _ _ Hx)).
  set (x := g (Z.of_nat t)) in *. pose proof (Hg (Z.of_nat t)) as Hgx. fold x in Hgx. pose proof (Z.pow_pos_nonneg 256 bytes ltac:(lia) ltac:(lia)) as Hp0.
  assert (256 ^ (bytes + 1) = 256 ^ bytes * 256) as Epow by (rewrite Z.pow_add_r by lia; lia). assert (256 ^ (bytes + 1) ≤ B) as HB by (change B with (256 ^ 8); apply Z.pow_le_mono_r; lia).
  assert (Z.lor l (lshl x (bytes * 8)) = l + 256 ^ bytes * x) as ->.
  { unfold lshl. rewrite Z.shiftl_mul_pow2, (Z.mul_comm bytes 8), <- pow256 by lia. rewrite u64_small by (change SIZE_MOD with B; nia). rewrite Z.lor_comm, pow256, lor_multiple, <- pow256 by (try rewrite <- pow256; lia). lia. }
  assert (value xs + B ^ Z.of_nat (length xs) * (l + 256 ^ bytes * x) = bytes_value g (S t)) as HV'.
  { rewrite bytes_value_S, <- HV. fold x. rewrite Ht. rewrite Z.pow_add_r, Z.pow_mul_r by lia. change (256 ^ 8) with B. ring. }
  destruct (Z.eqb_spec (bytes + 1) 8) as [E8|E8].
  - assert (bytes = 7) as -> by lia. rewrite (bind_done _ _ _ _ _ (store_next m0 rp xs (length xs) _ eq_refl ltac:(apply Hw; lia))). do 4 eexists. split; [done|].
    exists (xs ++ [l + 256 ^ 7 * x]). rewrite length_app, value_app. split_and!; try done; try (simpl; lia).
    + apply Forall_app. split; [done|]. constructor; [|done]. unfold limb. change (256 ^ (7 + 1)) with B in *. nia.
  - do 4 eexists. split; [done|]. exists xs. split_and!; (done || nia).
Qed.

Context (src : list Z) (order size endian count : Z).
Hypotheses (Horder : order = 1 ∨ order = -1) (Hendian : endian = 1 ∨ endian = -1) (Hsize : 0 ≤ size) (Hcount : 0 ≤ count).
Hypotheses (Hroom : count * size ≤ 8 * Z.of_nat room) (Hsrc : ∀ t, 0 ≤ t < count * size → src !! Z.to_nat (place order size endian count t) = Some (g t)).

Lemma import_word_spec n : ∀ j k m l bytes i,
  imported (Z.to_nat (k * size + j)) m l bytes i → 0 ≤ k < count → 0 ≤ j → j + Z.of_nat n = size →
  ∃ m' l' bytes' i', import_word src rp endian (pointer order size endian count k j) l bytes i n m = Done (pointer order size endian count k size, l', bytes', i') m' ∧
    imported (Z.to_nat ((k + 1) * size)) m' l' bytes' i'.
Proof using All.
  induction n as [|n IH]; intros j k m l bytes i H Hk Hj Hn.
  - assert (j = size) as -> by lia. cbn [import_word]. do 4 eexists. split; [done|]. by replace ((k + 1) * size) with (k * size + size) by ring.
  - cbn [import_word]. assert (0 ≤ k * size + j < count * size) as Hr by nia. pose proof (Hsrc _ Hr) as Hx. pose proof (place_range order size endian count Hsize _ Hr) as Hpl.
    rewrite <- (pointer_place order size endian count Horder Hendian) in Hx, Hpl by lia. rewrite <- (Z2Nat.id (k * size + j)) in Hx by lia.
    destruct (import_byte_spec src _ _ _ _ _ _ H ltac:(lia) (proj1 Hpl) Hx) as (m1 & l1 & b1 & i1 & E & H1). rewrite (bind_done _ _ _ _ _ E). cbv beta iota.
    replace (pointer order size endian count k j - endian) with (pointer order size endian count k (j + 1)) by (unfold pointer; ring).
    apply IH; [|done|lia|lia]. by replace (Z.to_nat (k * size + (j + 1))) with (S (Z.to_nat (k * size + j))) by lia.
Qed.

Lemma import_words_spec n : ∀ k m l bytes i,
  imported (Z.to_nat (k * size)) m l bytes i → 0 ≤ k → k + Z.of_nat n = count →
  ∃ m' l' bytes' i', import_words src rp order size endian (pointer order size endian count k 0) l bytes i n m = Done (l', bytes', i') m' ∧
    imported (Z.to_nat (count * size)) m' l' bytes' i'.
Proof using All.
  induction n as [|n IH]; intros k m l bytes i H Hk Hn.
  - assert (k = count) as -> by lia. cbn [import_words]. by do 4 eexists.
  - cbn [import_words]. rewrite <- (Z.add_0_r (k * size)) in H. destruct (import_word_spec (Z.to_nat size) 0 k m l bytes i H) as (m1 & l1 & b1 & i1 & E & H1); try lia.
    rewrite (bind_done _ _ _ _ _ E). cbv beta iota. replace (pointer order size endian count k size + word_step order size endian) with (pointer order size endian count (k + 1) 0) by (unfold pointer; ring).
    apply IH; (done || lia).
Qed.
End import.

(** The number that an array stands for. *)
Definition number_in (order size endian count : Z) (src : list Z) : Z :=
  bytes_value (λ t, default 0 (src !! Z.to_nat (place order size endian count t))) (Z.to_nat (count * size)).

Section import_all.
Context (src : list Z) (order size endian count : Z).
Hypotheses (Horder : order = 1 ∨ order = -1) (Hendian : endian = 1 ∨ endian = -1) (Hsize : 0 ≤ size) (Hcount : 0 ≤ count).
Hypotheses (Hlen : Z.of_nat (length src) = count * size) (Hsrc : Forall (digit 256) src).

Lemma byte_in t : 0 ≤ default 0 (src !! Z.to_nat (place order size endian count t)) < 256.
Proof using Hsrc. destruct (src !! _) as [x|] eqn:E; simpl; [|lia]. eapply Forall_lookup_1 in Hsrc; [|exact E]. exact Hsrc. Qed.

Lemma import_limbs_top m rp rn :
  rn = (count * size + 7) / 8 → writable m rp (Z.to_nat rn) →
  sets_top (import_limbs src rp order size endian count rn) m rp (Z.to_nat rn) (number_in order size endian count src) normalized.
Proof using All.
  intros Ern Hw. assert (8 * (rn - 1) < count * size ≤ 8 * rn ∧ 0 ≤ rn) as [Hr Hr0].
  { subst rn. pose proof (Z.div_mod (count * size + 7) 8 ltac:(lia)). pose proof (Z.mod_pos_bound (count * size + 7) 8 ltac:(lia)). split; [lia|apply Z.div_pos; nia]. }
  set (g := λ t, default 0 (src !! Z.to_nat (place order size endian count t))). unfold import_limbs. replace (first_byte order size endian count) with (pointer order size endian count 0 0) by (unfold pointer; ring).
  destruct (import_words_spec m rp (Z.to_nat rn) g Hw byte_in src order size endian count Horder Hendian Hsize Hcount) with (n := Z.to_nat count) (k := 0) (m := m) (l := 0) (bytes := 0) (i := 0)
    as (m' & l & bytes & i & E & xs & -> & Hxs & -> & Ht & Hb & Hl & HV); try lia.
  { intros t Ht. unfold g. pose proof (place_range order size endian count Hsize t Ht). destruct (lookup_lt_is_Some_2 src (Z.to_nat (place order size endian count t)) ltac:(lia)) as [x Ex]. by rewrite Ex. }
  { exists []. by rewrite write_nil. }
  unfold sets_top. rewrite (bind_done _ _ _ _ _ E). cbv beta iota. rewrite Z2Nat.id in Ht by nia. assert (Z.of_nat (length xs) + b2l (0 <? bytes) = rn) as Ei by (destruct (Z.ltb_spec 0 bytes); cbn [b2l]; lia).
  rewrite Ei, Z.eqb_refl. cbn [assertion]. rewrite lift_ok_bind. change (bytes_value g _) with (number_in order size endian count src) in HV. destruct (Z.eqb_spec l 0) as [->|Hl0]; cbn [negb].
  - destruct (mpn_normalized_size_spec (write m rp xs) rp xs) as (k & Ek & Hk & Vk & Nk); [by apply limbs_at_write|]. assert (0 ≤ b2l (0 <? bytes)) by (destruct (0 <? bytes); simpl; lia). exists xs, k. split_and!; (done || lia).
  - assert (bytes ≠ 0) by (intros ->; simpl in Hl; lia). rewrite (proj2 (Z.ltb_lt 0 bytes)) in Ei by lia. cbn [b2l] in Ei.
    rewrite (bind_done _ _ _ _ _ (store_next m rp xs (length xs) l eq_refl ltac:(apply Hw; lia))). exists (xs ++ [l]), (S (length xs)).
    assert (limb l) as Hll by (split; [lia|]; pose proof (Z.pow_le_mono_r 256 bytes 8 ltac:(lia) ltac:(lia)); change (256 ^ 8) with B in *; lia).
    rewrite firstn_all2, value_app by (rewrite length_app; simpl; lia). split_and!; rewrite ?length_app; simpl length; try lia.
    + unfold mret, M_ret. do 2 f_equal. lia.
    + apply Forall_app. split; [done|]. by constructor.
    + rewrite <- HV. simpl value. ring.
    + unfold normalized. rewrite last_snoc. congruence.
Qed.
End import_all.

Section import_spec.
Context {F : gmap Z (option Z)} {FB : gmap Z Z} {D : positive → Prop}.
Local Abbreviation holds := (holds F FB D).

(** The order of the bytes of a word that is used. *)
Definition used_endian (low endian : Z) : Z := if endian =? 0 then gmp_detect_endian low else endian.

Lemma used_endian_range low endian : low = 0 ∨ low = 2 → -1 ≤ endian ≤ 1 → used_endian low endian = 1 ∨ used_endian low endian = -1.
Proof. intros Hlow He. unfold used_endian, gmp_detect_endian. destruct (Z.eqb_spec endian 0); lia. Qed.

Lemma mpz_import_spec low N s r count order size endian src :
  holds N s → is_Some (N !! r) → low = 0 ∨ low = 2 → order = 1 ∨ order = -1 → -1 ≤ endian ≤ 1 → 0 ≤ size → 0 ≤ count →
  Z.of_nat (length src) = count * size → Forall (digit 256) src → count * size ≤ alloc_limit →
  wp never (mpz_import low r count order size endian 0 src) (λ _ s', holds (<[r := Some (number_in order size (used_endian low endian) count src)]> N) s') s.
Proof.
  intros H Hr Hlow Ho He Hs Hc Hlen Hsrc Hlim. unfold mpz_import. cbn [Z.eqb negb]. apply wp_assert; [destruct Ho as [->| ->]; done|]. apply wp_assert; [bool_to_prop; lia|]. cbv zeta. fold (used_endian low endian).
  pose proof (used_endian_range low endian Hlow He) as Hue. assert (0 ≤ count * size) as Hn0 by nia.
  rewrite (Z.mul_comm size), !u64_small by (rewrite ?u64_small; unfold SIZE_MOD, alloc_limit in *; lia).
  replace (count * size + 8 - 1) with (count * size + 7) by lia. set (rn := (count * size + 7) / 8). assert (0 ≤ rn ≤ alloc_limit) by (unfold rn, alloc_limit in *; split; [apply Z.div_pos; nia|apply Z.div_le_upper_bound; lia]).
  apply (wp_realloc N s r rn _ _ H Hr); [lia|]. intros s1 st Hs1 Hown Hal. apply wp_bind.
  eapply wp_mono; [apply (set_limbs N s1 r st _ (Z.to_nat rn) (number_in order size (used_endian low endian) count src) _ normalized Hs1 Hown eq_refl); [lia|]|].
  - apply import_limbs_top; try done. apply (own_writable N s1 r st _ Hs1 Hown). lia.
  - intros n s2 (rs & Hf & Hn & Hrl & HV & Hnorm). apply (pending_finish (F:=F) (FB:=FB) (D:=D) N s2 r). exists st, rs. rewrite Z.abs_eq by lia. split_and!; try done; [lia|].
    rewrite HV. destruct (Z.eq_dec n 0) as [->|]; [simpl in HV; simpl; lia|]. rewrite Z.sgn_pos by lia. lia.
Qed.
End import_spec.

(** ** Export *)

(** The array after writing the first [t] bytes of [v]. *)
Definition export_into (order size endian count v : Z) (t : Z) (cs : list (option Z)) : list (option Z) :=
  imap (λ q c, let p := place order size endian count (Z.of_nat q) in
    if (Z.of_nat q <? count * size) && (p <? t) then Some (byte_of v p) else c) cs.

Section export.
Context (order size endian count v : Z) (cs : list (option Z)) (m : mem) (up : Z) (xs : list Z).
Hypotheses (Horder : order = 1 ∨ order = -1) (Hendian : endian = 1 ∨ endian = -1) (Hsize : 0 ≤ size).
Hypotheses (Hroom : count * size ≤ Z.of_nat (length cs)) (Hx : limbs_at m up xs) (Hv : value xs = v).
Local Abbreviation un := (Z.of_nat (length xs)).
Local Abbreviation after t := (export_into order size endian count v t cs).

Lemma export_start : after 0 = cs.
Proof.
  apply list_eq. intros q. unfold export_into. rewrite list_lookup_imap. destruct (cs !! q) as [c|]; [|done]. simpl. f_equal. destruct (Z.ltb_spec (Z.of_nat q) (count * size)) as [Hq|]; [|done].
  rewrite (proj2 (Z.ltb_ge _ _)); [done|]. apply (place_range order size endian count Hsize). lia.
Qed.

Lemma export_next t : 0 ≤ t < count * size → <[Z.to_nat (place order size endian count t) := Some (byte_of v t)]> (after t) = after (t + 1).
Proof using Hsize Hroom.
  intros Ht. pose proof (place_range order size endian count Hsize t Ht) as Hp. pose proof (place_place order size endian count Hsize t Ht) as Hpp.
  apply list_eq. intros q. destruct (decide (q = Z.to_nat (place order size endian count t))) as [->|Hne].
  - rewrite list_lookup_insert_eq by (unfold export_into; rewrite length_imap; lia). unfold export_into. rewrite list_lookup_imap. destruct (lookup_lt_is_Some_2 cs (Z.to_nat (place order size endian count t)) ltac:(lia)) as [c ->].
    simpl. rewrite Z2Nat.id, Hpp by lia. rewrite (proj2 (Z.ltb_lt _ _)), (proj2 (Z.ltb_lt t _)) by lia. done.
  - rewrite list_lookup_insert_ne by done. unfold export_into. rewrite !list_lookup_imap. destruct (cs !! q) as [c|]; [|done]. simpl. f_equal. destruct (Z.ltb_spec (Z.of_nat q) (count * size)) as [Hq|]; [|done].
    pose proof (place_place order size endian count Hsize (Z.of_nat q) ltac:(lia)) as Hqq. simpl. assert (place order size endian count (Z.of_nat q) ≠ t) by (intros E; rewrite E in Hqq; lia).
    destruct (Z.ltb_spec (place order size endian count (Z.of_nat q)) t), (Z.ltb_spec (place order size endian count (Z.of_nat q)) (t + 1)); (done || lia).
Qed.

(** The current limb holds the next [bytes] bytes, or the number is exhausted. *)
Definition current (t l bytes i : Z) : Prop :=
  0 ≤ i ≤ un ∧ (t = 8 * i - bytes ∧ l = (v / 256 ^ t) mod 256 ^ bytes ∨ i = un ∧ l = 0 ∧ 8 * un ≤ t).

Lemma limb_at i x : xs !! i = Some x → x = (v / 256 ^ (8 * Z.of_nat i)) mod 256 ^ 8.
Proof using All.
  intros Hi. rewrite <- Hv, pow256 by lia. replace (8 * (8 * Z.of_nat i)) with (64 * Z.of_nat i) by lia. rewrite (value_from xs i x Hi (proj1 Hx)), Z.mul_comm, Z.mod_add by (unfold B; lia).
  destruct Hx as [Hl _]. eapply Forall_lookup_1 in Hl; [|exact Hi]. symmetry. by apply Z.mod_small.
Qed.

Lemma refill t l bytes i : 0 ≤ t → current t l bytes i → 0 ≤ bytes < 8 →
  ∃ l' bytes' i', (if bytes =? 0 then
       '(limb, i) ← (if i <? un then x ← limbsM (load (up + i)); mret (x, i + 1) else mret (l, i));
       mret (limb, 8, i)
     else mret (l, bytes, i)) (Mk_strmem m (after t)) = Done (l', bytes', i') (Mk_strmem m (after t)) ∧ current t l' bytes' i' ∧ 0 < bytes' ≤ 8.
Proof using All.
  intros Ht (Hi & Hc) Hb. destruct (Z.eqb_spec bytes 0) as [->|Hne]; [|exists l, bytes, i; split_and!; try done; lia].
  destruct (Z.ltb_spec i un) as [Hlt|Hge].
  - destruct Hc as [[Et _]|(? & _)]; [|lia]. destruct (lookup_lt_is_Some_2 xs (Z.to_nat i) ltac:(lia)) as [x Hxi]. pose proof (load_limbs _ _ _ _ _ Hx Hxi) as El. rewrite Z2Nat.id in El by lia.
    exists x, 8, (i + 1). split; [unfold mbind, M_bind; by rewrite (limbsM_ok _ _ _ _ _ El)|]. split; [|lia]. split; [lia|]. left. split; [lia|].
    rewrite (limb_at _ _ Hxi), Z2Nat.id by lia. do 3 f_equal. lia.
  - exists l, 8, i. split; [done|]. split; [|lia]. split; [lia|]. right. destruct Hc as [[Et ->]|(_ & -> & ?)]; [|split_and!; lia]. split_and!; [lia| |lia]. apply Z.mod_1_r.
Qed.

Lemma export_byte_spec t l bytes i :
  0 ≤ t < count * size → current t l bytes i → 0 ≤ bytes < 8 →
  ∃ l' bytes' i', export_byte up un (place order size endian count t) l bytes i (Mk_strmem m (after t)) = Done (l', bytes', i') (Mk_strmem m (after (t + 1))) ∧
    current (t + 1) l' bytes' i' ∧ 0 ≤ bytes' < 8.
Proof using All.
  intros Ht Hc Hb. destruct (refill t l bytes i ltac:(lia) Hc Hb) as (l' & bytes' & i' & E & (Hi & Hc') & Hb'). unfold export_byte. rewrite (bind_done _ _ _ _ _ E). cbv beta iota.
  pose proof (place_range order size endian count Hsize t Ht) as Hp. assert (u8 l' = byte_of v t ∧ current (t + 1) (lshr l' 8) (bytes' - 1) i') as [-> Hn].
  { unfold byte_of. assert (0 ≤ v < 256 ^ (8 * un)) as Hvb. { rewrite <- Hv, pow256 by lia. replace (8 * (8 * un)) with (64 * un) by lia. rewrite Z.pow_mul_r by lia. apply value_bounds, Hx. }
    pose proof (Z.pow_pos_nonneg 256 t ltac:(lia) ltac:(lia)) as Hpt. unfold u8, lshr. rewrite Z.shiftr_div_pow2 by lia. change (2 ^ 8) with 256. destruct Hc' as [[Et ->]|(-> & -> & Hge)].
    - assert (256 ^ bytes' = 256 * 256 ^ (bytes' - 1)) as Epow by (rewrite <- Z.pow_succ_r by lia; f_equal; lia). pose proof (Z.pow_pos_nonneg 256 (bytes' - 1) ltac:(lia) ltac:(lia)).
      rewrite Epow. rewrite Z.rem_mul_r by lia. set (a := v / 256 ^ t). split; [rewrite Z.mul_comm, Z.mod_add by lia; by apply Z.mod_mod|]. split; [lia|]. left. split; [lia|].
      replace (256 ^ (t + 1)) with (256 ^ t * 256) by (rewrite Z.pow_add_r by lia; lia). rewrite <- Z.div_div by lia. fold a. pose proof (Z.mod_pos_bound a 256 ltac:(lia)).
      rewrite (Z.mul_comm 256), Z.div_add, Z.div_small by lia. lia.
    - pose proof (Z.pow_le_mono_r 256 (8 * un) t ltac:(lia) Hge). rewrite (Z.div_small v) by lia. split; [done|]. split; [lia|]. right. split_and!; (done || lia). }
  assert (Z.to_nat (place order size endian count t) < length (after t))%nat as Hin by (unfold export_into; rewrite length_imap; lia).
  pose proof (put_char_ok m (after t) _ (byte_of v t) Hin) as Ep. rewrite Z2Nat.id in Ep by lia. rewrite (bind_done _ _ _ _ _ Ep), export_next by done. do 3 eexists. split; [done|]. split; [done|lia].
Qed.

Lemma export_word_spec n : ∀ j k l bytes i,
  current (k * size + j) l bytes i → 0 ≤ bytes < 8 → 0 ≤ k < count → 0 ≤ j → j + Z.of_nat n = size →
  ∃ l' bytes' i', export_word up un endian (pointer order size endian count k j) l bytes i n (Mk_strmem m (after (k * size + j))) =
      Done (pointer order size endian count k size, l', bytes', i') (Mk_strmem m (after ((k + 1) * size))) ∧
    current ((k + 1) * size) l' bytes' i' ∧ 0 ≤ bytes' < 8.
Proof using All.
  induction n as [|n IH]; intros j k l bytes i H Hb Hk Hj Hn.
  - assert (j = size) as -> by lia. cbn [export_word]. exists l, bytes, i. by replace ((k + 1) * size) with (k * size + size) by ring.
  - cbn [export_word]. assert (0 ≤ k * size + j < count * size) as Hr by nia. destruct (export_byte_spec _ _ _ _ Hr H Hb) as (l1 & b1 & i1 & E & H1 & Hb1).
    rewrite <- (pointer_place order size endian count Horder Hendian) in E by lia. rewrite (bind_done _ _ _ _ _ E). cbv beta iota.
    replace (pointer order size endian count k j - endian) with (pointer order size endian count k (j + 1)) by (unfold pointer; ring).
    rewrite <- Z.add_assoc in *. apply IH; (done || lia).
Qed.

Lemma export_words_spec n : ∀ k l bytes i,
  current (k * size) l bytes i → 0 ≤ bytes < 8 → 0 ≤ k → k + Z.of_nat n = count →
  ∃ l' bytes' i', export_words up un order size endian (pointer order size endian count k 0) l bytes i n (Mk_strmem m (after (k * size))) =
      Done i' (Mk_strmem m (after (count * size))) ∧ current (count * size) l' bytes' i' ∧ 0 ≤ bytes' < 8.
Proof using All.
  induction n as [|n IH]; intros k l bytes i H Hb Hk Hn.
  - assert (k = count) as -> by lia. cbn [export_words]. by exists l, bytes, i.
  - cbn [export_words]. rewrite <- (Z.add_0_r (k * size)) in H |- *. destruct (export_word_spec (Z.to_nat size) 0 k l bytes i H Hb) as (l1 & b1 & i1 & E & H1 & Hb1); try lia.
    rewrite (bind_done _ _ _ _ _ E). cbv beta iota. replace (pointer order size endian count k size + word_step order size endian) with (pointer order size endian count (k + 1) 0) by (unfold pointer; ring).
    apply IH; (done || lia).
Qed.
End export.

Lemma top_bytes_spec n : ∀ l k, 0 < l < 256 ^ Z.of_nat n → ∃ d, top_bytes l k n = Ok (k + d) ∧ has_digits 256 l d.
Proof.
  induction n as [|n IH]; intros l k Hl; [simpl in Hl; lia|]. cbn [top_bytes]. unfold lshr. rewrite Z.shiftr_div_pow2 by lia. change (2 ^ 8) with 256.
  rewrite Nat2Z.inj_succ, Z.pow_succ_r in Hl by lia. pose proof (Z.div_mod l 256 ltac:(lia)). pose proof (Z.mod_pos_bound l 256 ltac:(lia)). destruct (Z.eqb_spec (l / 256) 0).
  - exists 1. split; [done|]. split; [lia|]. cbn [Z.sub Z.pow Z.opp Z.add Z.pos_sub Z.pow_pos Pos.iter]. lia.
  - destruct (IH (l / 256) (k + 1)) as (d & E & Hd); [split; [lia|apply Z.div_lt_upper_bound; lia]|]. exists (d + 1). split; [rewrite E; f_equal; lia|]. apply has_digits_step; (done || lia).
Qed.

(** The bytes and the words of a number. *)
Definition byte_count (z : Z) : Z := Z.log2 (Z.abs z) / 8 + 1.
Definition word_count (size z : Z) : Z := if z =? 0 then 0 else (byte_count z + size - 1) / size.

Lemma byte_count_digits z d : has_digits 256 (Z.abs z) d → byte_count z = d.
Proof.
  intros (Hd & Hlo & Hhi). rewrite pow256 in Hlo, Hhi by lia. unfold byte_count. assert (0 < Z.abs z) by (pose proof (Z.pow_pos_nonneg 2 (8 * (d - 1)) ltac:(lia) ltac:(lia)); lia).
  apply Z.log2_le_pow2 in Hlo; [|done]. apply Z.log2_lt_pow2 in Hhi; [|done]. pose proof (Z.div_le_lower_bound (Z.log2 (Z.abs z)) 8 (d - 1) ltac:(lia) ltac:(lia)).
  pose proof (Z.div_lt_upper_bound (Z.log2 (Z.abs z)) 8 d ltac:(lia) ltac:(lia)). lia.
Qed.

Lemma word_count_range size z : z ≠ 0 → 0 < size → byte_count z ≤ word_count size z * size < byte_count z + size ∧ 0 < word_count size z.
Proof.
  intros Hz Hs. unfold word_count. rewrite (proj2 (Z.eqb_neq z 0)) by done. assert (0 < byte_count z) as Hb by (unfold byte_count; pose proof (Z.log2_nonneg (Z.abs z)); pose proof (Z.div_pos (Z.log2 (Z.abs z)) 8); lia).
  pose proof (Z.div_mod (byte_count z + size - 1) size ltac:(lia)). pose proof (Z.mod_pos_bound (byte_count z + size - 1) size Hs). set (q := _ / size) in *. split; [lia|]. nia.
Qed.

Lemma byte_count_bound z : z ≠ 0 → 256 ^ (byte_count z - 1) ≤ Z.abs z < 256 ^ byte_count z.
Proof.
  intros Hz. unfold byte_count. pose proof (Z.log2_spec (Z.abs z) ltac:(lia)) as [Hlo Hhi]. pose proof (Z.log2_nonneg (Z.abs z)). set (l := Z.log2 (Z.abs z)) in *.
  pose proof (Z.div_mod l 8 ltac:(lia)). pose proof (Z.mod_pos_bound l 8 ltac:(lia)). pose proof (Z.div_pos l 8 ltac:(lia) ltac:(lia)). rewrite !pow256 by lia. split.
  - etransitivity; [apply (Z.pow_le_mono_r 2 _ l); lia|done].
  - eapply Z.lt_le_trans; [exact Hhi|]. apply Z.pow_le_mono_r; lia.
Qed.

(** The array that holds the number at the end. *)
Definition exported_to (low order size endian z : Z) (r o : option (list (option Z))) : Prop :=
  if z =? 0 then o = r
  else ∃ cs, o = Some (export_into order size (used_endian low endian) (word_count size z) (Z.abs z) (word_count size z * size) cs) ∧
    word_count size z * size ≤ Z.of_nat (length cs) ∧ match r with Some cs' => cs = cs' | None => Z.of_nat (length cs) = word_count size z * size end.

Section export_spec.
Context {F : gmap Z (option Z)} {FB : gmap Z Z} {D : positive → Prop}.
Local Abbreviation holds := (holds F FB D).
Context (low : Z) (N : vars) (s : zst) (u : positive) (z order size endian : Z) (r : option (list (option Z))).
Hypotheses (H : holds N s) (Hu : N !! u = Some (Some z)) (Hlow : low = 0 ∨ low = 2) (Horder : order = 1 ∨ order = -1) (Hendian : -1 ≤ endian ≤ 1).
Hypotheses (Hsize : 0 < size ≤ alloc_limit).
Hypothesis Hroom : match r with Some cs => word_count size z * size ≤ Z.of_nat (length cs) | None => word_count size z * size ≤ alloc_limit end.

Lemma mpz_export_spec : wp never (mpz_export low r order size endian 0 u) (λ p s', exported_to low order size endian z r p.1 ∧ p.2 = word_count size z ∧ s' = s) s.
Proof using All.
  unfold mpz_export. cbn [Z.eqb negb]. apply wp_assert; [destruct Horder as [->| ->]; done|]. apply wp_assert; [bool_to_prop; lia|]. eapply wp_size; [exact (holds_sizes _ _ H)|done|].
  apply wp_assert; [by rewrite (proj2 (Z.ltb_lt 0 size)) by lia|]. unfold exported_to. destruct (holds_read N s u z H Hu) as (st & xs & Ho & Hxs & Hnorm & Hlen & _ & Hval & _). pose proof (holds_limit _ _ _ _ H Hu) as Hlim.
  destruct (Z.eqb_spec z 0) as [->|Hz]; [by eapply wp_run|]. pose proof (zlimbs_pos z Hz) as Hpos. rewrite (proj2 (Z.eqb_neq (zsize z) 0)) by (rewrite <- Z.abs_0_iff, zsize_abs; lia). cbn [negb]. cbv zeta. rewrite zsize_abs, <- Hlen.
  eapply wp_limbs; [exact Ho|]. destruct (last xs) as [x|] eqn:Ex; [|apply last_None in Ex; rewrite Ex in Hlen; simpl in Hlen; lia].
  eapply wp_limbsZ. { replace (mp_d st + (Z.of_nat (length xs) - 1)) with (mp_d st + Z.of_nat (length xs) - 1) by ring. by apply (last_load _ _ _ _ Hxs). }
  assert (x ≠ 0) as Hx0 by (unfold normalized in Hnorm; congruence). apply wp_assert; [by rewrite (proj2 (Z.eqb_neq x 0))|].
  destruct (last_split xs (pred (length xs))) as (lo & x' & Exs & Hlo); [lia|]. rewrite Exs, last_snoc in Ex. injection Ex as ->.
  assert (Forall limb lo ∧ limb x) as [Hlol Hxl]. { destruct Hxs as [Hf _]. rewrite Exs in Hf. apply Forall_app in Hf as [? Hf]. by apply Forall_cons in Hf as [? _]. }
  destruct (top_bytes_spec 8 x 0) as (d & -> & Hd & Hdlo & Hdhi); [unfold limb in Hxl; change (256 ^ Z.of_nat 8) with B; lia|]. eapply wp_then; [reflexivity|]. rewrite Z.add_0_l.
  assert (byte_count z = d + (Z.of_nat (length xs) - 1) * 8) as Ebc.
  { apply byte_count_digits. split; [lia|]. rewrite <- Hval, Exs, value_app. simpl value. rewrite length_app. cbn [length]. replace (Z.of_nat (length lo + 1) - 1) with (Z.of_nat (length lo)) by lia.
    pose proof (value_bounds lo Hlol) as Hb. set (n := Z.of_nat (length lo)) in *. assert (∀ e, 0 ≤ e → 256 ^ (e + n * 8) = B ^ n * 256 ^ e) as Ep.
    { intros e He. rewrite Z.pow_add_r, (Z.mul_comm n 8), Z.pow_mul_r by lia. change (256 ^ 8) with B. ring. }
    replace (d + n * 8 - 1) with (d - 1 + n * 8) by ring. rewrite !Ep by lia. nia. }
  assert (d ≤ 8) as Hd8. { destruct (Z.le_gt_cases d 8); [done|]. pose proof (Z.pow_le_mono_r 256 8 (d - 1) ltac:(lia) ltac:(lia)) as Hp. change (256 ^ 8) with B in Hp. unfold limb in Hxl. lia. }
  rewrite (u64_small (d + _ + size - 1)) by (unfold SIZE_MOD, alloc_limit in *; lia). rewrite <- Ebc. pose proof (word_count_range size z Hz ltac:(lia)) as [Hwc Hwc0].
  assert ((byte_count z + size - 1) / size = word_count size z) as -> by (unfold word_count; by rewrite (proj2 (Z.eqb_neq z 0))). set (count := word_count size z) in *.
  rewrite u64_small by (unfold SIZE_MOD, alloc_limit in *; lia). apply wp_bind.
  eapply (wp_mono _ _ (λ cs s', s' = s ∧ count * size ≤ Z.of_nat (length cs) ∧ match r with Some cs' => cs = cs' | None => Z.of_nat (length cs) = count * size end)).
  { destruct r as [cs|]; [by eapply wp_run|]. rewrite arr_alloc_ok by lia. eapply wp_run; [done|]. rewrite length_replicate. split_and!; (done || lia). }
  intros cs s2 (-> & Hcs & Hrcs). eapply wp_limbs; [exact Ho|]. fold (used_endian low endian). pose proof (used_endian_range low endian Hlow Hendian) as Hue.
  destruct (export_words_spec order size (used_endian low endian) count (Z.abs z) cs (zmem s) (mp_d st) xs Horder Hue ltac:(lia) Hcs Hxs Hval (Z.to_nat count) 0 0 0 0) as (l & bytes & i & E & (Hi & Hc) & Hb); try lia.
  { split; [lia|]. left. split; [lia|]. symmetry. apply Z.mod_1_r. }
  rewrite Z.mul_0_l, (export_start order size _ count (Z.abs z) cs) in E by lia. replace (pointer order size (used_endian low endian) count 0 0) with (first_byte order size (used_endian low endian) count) in E by (unfold pointer; ring).
  eapply wp_then; [exact (charsZ_run _ _ s _ _ _ E)|]. cbv beta iota. apply wp_assert; [apply Z.eqb_eq; lia|]. eapply wp_run; [done|]. cbn [fst snd]. split_and!; [by exists cs|done|by destruct s].
Qed.
End export_spec.

(** ** Round trip *)

(** The first [n] cells of an array, when they have been written. *)
Definition array_bytes (n : Z) (cs : list (option Z)) : option (list Z) := mapM id (take (Z.to_nat n) cs).

Lemma export_bytes order size endian count v cs :
  order = 1 ∨ order = -1 → endian = 1 ∨ endian = -1 → 0 ≤ size → 0 ≤ count → count * size ≤ Z.of_nat (length cs) → 0 ≤ v < 256 ^ (count * size) →
  ∃ src, array_bytes (count * size) (export_into order size endian count v (count * size) cs) = Some src ∧
    Z.of_nat (length src) = count * size ∧ Forall (digit 256) src ∧ number_in order size endian count src = v.
Proof.
  intros Ho He Hs Hc Hcs Hv. set (n := count * size) in *. assert (0 ≤ n) as Hn by (unfold n; nia). set (src := (λ q, byte_of v (place order size endian count (Z.of_nat q))) <$> seq 0 (Z.to_nat n)).
  assert (length src = Z.to_nat n) as Hl by (unfold src; by rewrite length_fmap, length_seq). assert (∀ q, (q < Z.to_nat n)%nat → src !! q = Some (byte_of v (place order size endian count (Z.of_nat q)))) as Hsrc.
  { intros q Hq. unfold src. rewrite list_lookup_fmap, lookup_seq_lt by done. done. }
  exists src. split_and!; [|lia| |].
  - unfold array_bytes. assert (take (Z.to_nat n) (export_into order size endian count v n cs) = Some <$> src) as ->.
    { apply list_eq. intros q. destruct (decide (q < Z.to_nat n)%nat) as [Hq|Hq].
      - rewrite lookup_take_lt, list_lookup_fmap, Hsrc by done. unfold export_into. rewrite list_lookup_imap. destruct (lookup_lt_is_Some_2 cs q ltac:(lia)) as [c ->]. simpl. fold n.
        rewrite (proj2 (Z.ltb_lt _ n)), (proj2 (Z.ltb_lt _ n)); [done| |lia]. apply (place_range order size endian count Hs). fold n. lia.
      - rewrite !lookup_ge_None_2; [done| |]; rewrite ?length_fmap, ?length_take; lia. }
    clear. induction src as [|x src IH]; [done|]. cbn [fmap list_fmap mapM mbind option_bind id]. by rewrite IH.
  - apply Forall_forall. intros x Hx. apply list_elem_of_fmap in Hx as (q & -> & _). unfold digit, byte_of. apply Z.mod_pos_bound. lia.
  - unfold number_in. fold n. erewrite (bytes_value_ext _ (byte_of v)); [rewrite bytes_of_number, Z2Nat.id by done; by apply Z.mod_small|].
    intros t Ht. pose proof (place_range order size endian count Hs t ltac:(fold n; lia)) as Hp. fold n in Hp. rewrite Hsrc by lia. simpl. rewrite Z2Nat.id by lia. f_equal. apply place_place; [done|fold n; lia].
Qed.
