(* ===== verification/MpzNumProps.v ===== *)
(** * Properties of the number-theoretic functions of mini-gmp

    Division by words and powers of two, greatest common divisors, the
    operations on bits, powers, roots and sizes: each returns, with the answer
    and the variables that it should leave, for every aliasing of the
    arguments that the functions allow. *)

From S2P Require Import Prelude Limbs Mpn Invert MpnDiv MpnDivN MpnStr MpnSetStr MpnGetStr Mpz MpzRep MpzArith MpzMul MpzDivision MpzProps MpzFrame MpzDivShort MpzLocals MpzGcd MpzBits MpzGcdExt MpzLogic MpzCount MpzScan MpzPow MpzSize MpzRoot MpzStr MpzImport.

(** ** Statements *)

Section statements.
Context (F : gmap Z (option Z)) (FB : gmap Z Z) (D : positive → Prop).
Local Abbreviation leaves := (leaves F FB D).

(** The function returns an answer with [P], and the variables hold [N'] then. *)
Definition gives {A} (s : zst) (k : M zst A) (P : A → Prop) (N' : vars) : Prop := ∃ a s', k s = Done a s' ∧ P a ∧ holds F FB D N' s'.

Lemma gives_wp {A} s (k : M zst A) P N' : wp never k (λ a s', P a ∧ holds F FB D N' s') s → gives s k P N'.
Proof. unfold wp. destruct (k s) as [a s'|c s'|[]] eqn:E; try done. intros H. by exists a, s'. Qed.

Lemma gives_reads {A} s (k : M zst A) a P N : holds F FB D N s → reads k s a → P a → gives s k P N.
Proof. intros H E HP. by exists a, s. Qed.

(** Divisions of [n] (with the value [x]) by a limb [d] and by [2 ^ bits], and
    the tests of divisibility by [y]. *)
Definition short_divisions (N : vars) (s : zst) (p n a : positive) (q r : option positive) (x y d bits : Z) : Prop :=
  (∀ mode, gives s (mpz_div_qr_ui q r n d mode) (λ v, v = Z.abs (div_round mode x d).2) (opt_set q (div_round mode x d).1 (opt_set r (div_round mode x d).2 N))) ∧
  (∀ mode, leaves s (mpz_div_q_2exp p n bits mode) (<[p := Some (div_round mode x (2 ^ bits)).1]> N)) ∧
  (∀ mode, leaves s (mpz_div_r_2exp p n bits mode) (<[p := Some (div_round mode x (2 ^ bits)).2]> N)) ∧
  gives s (mpz_tdiv_ui n d) (λ v, v = Z.abs x mod d) N ∧
  (y ≠ 0 → gives s (mpz_divisible_p n a) (λ b, b = true ↔ (y | x)) N) ∧
  (∀ c z, N !! c = Some (Some z) → zlimbs z + 2 ≤ alloc_limit → gives s (mpz_congruent_p n c a) (λ b, b = true ↔ (y | x - z)) N) ∧
  (y ≠ 0 → (y | x) → leaves s (mpz_divexact p n a) (<[p := Some (x / y)]> N)) ∧
  ((d | x) → leaves s (mpz_divexact_ui p n d) (<[p := Some (x / d)]> N)).

(** Greatest common divisors and least common multiples. *)
Definition common_divisors (N : vars) (s : zst) (r a b : positive) (q : option positive) (x y v : Z) : Prop :=
  leaves s (mpz_gcd r a b) (<[r := Some (Z.gcd x y)]> N) ∧
  gives s (mpz_gcd_ui q a v) (λ w, w = if v =? 0 then 0 else Z.gcd x v) (opt_set q (Z.gcd x v) N) ∧
  leaves s (mpz_lcm r a b) (<[r := Some (Z.lcm x y)]> N) ∧ leaves s (mpz_lcm_ui r a v) (<[r := Some (Z.lcm x v)]> N).

(** Cofactors of the greatest common divisor, and inverses modulo [y]. *)
Definition cofactors_and_inverse (N : vars) (s : zst) (g : positive) (so to : option positive) (a b : positive) (x y : Z) : Prop :=
  (∃ S T, gcdext_result x y S T ∧ leaves s (mpz_gcdext g so to a b) (opt_set to T (opt_set so S (<[g := Some (Z.gcd x y)]> N)))) ∧
  (x ≠ 0 ∧ 1 < Z.abs y ∧ Z.gcd x y = 1 → ∃ w, inverse x y w ∧ gives s (mpz_invert g a b) (λ c, c = true) (<[g := Some w]> N)) ∧
  (¬ (x ≠ 0 ∧ 1 < Z.abs y ∧ Z.gcd x y = 1) → gives s (mpz_invert g a b) (λ c, c = false) N).

(** The operations on the two's complement representation. *)
Definition bit_operations (N : vars) (s : zst) (r a b : positive) (w x y i : Z) : Prop :=
  let into z := <[r := Some z]> N in
  leaves s (mpz_and r a b) (into (Z.land x y)) ∧ leaves s (mpz_ior r a b) (into (Z.lor x y)) ∧ leaves s (mpz_xor r a b) (into (Z.lxor x y)) ∧
  leaves s (mpz_com r a) (into (Z.lnot x)) ∧ reads (mpz_tstbit a i) s (Z.testbit x i) ∧
  leaves s (mpz_setbit r i) (into (Z.setbit w i)) ∧ leaves s (mpz_clrbit r i) (into (Z.clearbit w i)) ∧ leaves s (mpz_combit r i) (into (Z.lxor w (2 ^ i))).

Definition bit_counts (s : zst) (a b : positive) (x y i : Z) : Prop :=
  reads (mpz_popcount a) s (if x <? 0 then B - 1 else ones x) ∧
  reads (mpz_hamdist a b) s (if xorb (x <? 0) (y <? 0) then B - 1 else ones (Z.lxor x y)) ∧
  (∃ r, reads (mpz_scan1 a i) s r ∧ scan_answer x i r) ∧ (∃ r, reads (mpz_scan0 a i) s r ∧ scan_answer (Z.lnot x) i r).

(** Roots of order [z] of [y] (with the value [Y]), of which [k] is the integer
    part, and square roots of the absolute value in [a]. *)
Definition roots (N : vars) (s : zst) (x r : option positive) (p y a : positive) (Y A k z : Z) : Prop :=
  leaves s (mpz_rootrem x r y z) (opt_set x k (opt_set r (Y - k ^ z) N)) ∧ gives s (mpz_root x y z) (λ b, b = true ↔ Y = k ^ z) (opt_set x k N) ∧
  (0 ≤ A → leaves s (mpz_sqrt p a) (<[p := Some (Z.sqrt A)]> N)) ∧
  (0 ≤ A → r ≠ Some p → leaves s (mpz_sqrtrem p r a) (<[p := Some (Z.sqrt A)]> (opt_set r (A - Z.sqrt A * Z.sqrt A) N))) ∧
  gives s (mpz_perfect_square_p a) (λ b, b = true ↔ ∃ c, A = c * c) N.
End statements.

Lemma zlimbs_sub x y : zlimbs (x - y) ≤ Z.max (zlimbs x) (zlimbs y) + 1.
Proof. pose proof (zlimbs_add x (- y)) as H. by rewrite <- (zlimbs_abs (- y)), Z.abs_opp, zlimbs_abs in H. Qed.

Lemma wp_never_run {A} (k : M zst A) Q s : wp never k Q s → ∃ a s', k s = Done a s' ∧ Q a s'.
Proof. unfold wp. destruct (k s) as [a s'|c s'|[]]; try done. intros H. by exists a, s'. Qed.

Lemma cofactors_and_inverse_hold F FB D N s g so to a b x y :
  holds F FB D N s → is_Some (N !! g) → opt_in so N → opt_in to N → (so = to → so = None) → N !! a = Some (Some x) → N !! b = Some (Some y) →
  Z.max (zlimbs x) (zlimbs y) + 1 ≤ alloc_limit → cofactors_and_inverse F FB D N s g so to a b x y.
Proof.
  intros H Hg Hso Hto Hst Ha Hb Hlim. split.
  - destruct (wp_never_run _ _ _ (mpz_gcdext_spec F FB D N s g so to a b x y H Hg Hso Hto Hst Ha Hb Hlim)) as ([] & s' & E & N' & (S & T & Hr & ->) & H'). exists S, T. split; [done|]. by exists s'.
  - destruct (wp_never_run _ _ _ (mpz_invert_spec N g a b x y Hg Ha Hb Hlim s H)) as (c & s' & E & N' & (Hc & Hr) & H'). split; intros Hi.
    + rewrite bool_decide_eq_true_2 in Hc by done. subst c. destruct Hr as (w & Hw & ->). exists w. split; [done|]. by exists true, s'.
    + rewrite bool_decide_eq_false_2 in Hc by done. subst c N'. by exists false, s'.
Qed.

(** ** Properties *)

(** C30: the divisions by a machine word and by a power of two round as they are
    asked to and leave quotient and remainder for every aliasing of the
    arguments (mpz_div_qr_ui also returns the absolute value of the
    remainder); mpz_divisible_p and mpz_congruent_p decide divisibility, the
    latter for the modulus 0 too, and the exact divisions are exact. *)
Theorem mpz_short_division_exact F FB D N s p n a q r x y d bits :
  holds F FB D N s → is_Some (N !! p) → opt_in q N → opt_in r N → (q = r → q = None) → N !! n = Some (Some x) → N !! a = Some (Some y) →
  0 < d < 2 ^ 64 → 0 ≤ bits ≤ 64 * alloc_limit → zlimbs x + 2 ≤ alloc_limit → zlimbs y + 2 ≤ alloc_limit →
  short_divisions F FB D N s p n a q r x y d bits.
Proof.
  intros H Hp Hq Hr Hqr Hn Ha Hd Hbits Hx Hy. change (2 ^ 64) with B in Hd. unfold short_divisions. split_and!.
  - intros mode. apply gives_wp. by apply mpz_div_qr_ui_spec.
  - intros mode. apply leaves_wp. by apply (mpz_div_q_2exp_spec F FB D N s p n x); [..|lia|lia].
  - intros mode. apply leaves_wp. by apply (mpz_div_r_2exp_spec F FB D N s p n x).
  - apply gives_wp. by apply (mpz_tdiv_ui_spec N s n x H Hn).
  - intros Hy0. apply gives_wp. eapply wp_mono; [by apply (mpz_divisible_p_spec N s n x H Hn a y); [..|lia]|]. intros b s' [-> H']. split; [|done].
    by rewrite Z.eqb_eq, Z.mod_divide.
  - intros c z Hc Hz. apply gives_wp. pose proof (zlimbs_sub x z) as Hs.
    eapply wp_mono; [apply (mpz_congruent_p_spec F FB D N s n c a x z y); (done || lia)|]. intros b s' [-> H']. split; [|done].
    rewrite Z.eqb_eq. destruct (Z.eq_dec y 0) as [->|Hy0]; [|by apply Z.mod_divide].
    rewrite Z.mod_0_r. split; [intros ->; by exists 0|]. intros [k Hk]. lia.
  - intros Hy0 Hdiv. apply leaves_wp. by apply (mpz_divexact_spec N s n x H Hn p a y); [..|lia].
  - intros Hdiv. apply leaves_wp. by apply (mpz_divexact_ui_spec N s n x H Hn p d).
Qed.

Lemma mpz_short_division_exact_witness :
  short_divisions example_frame ∅ declared example_vars mpz_example 1 1 3 (Some 1%positive) None (-7) 12 5 2.
Proof.
  apply (mpz_short_division_exact example_frame ∅ declared example_vars mpz_example 1 1 3 (Some 1%positive) None (-7) 12 5 2).
  - exact holds_example.
  - by eexists.
  - by eexists.
  - done.
  - done.
  - reflexivity.
  - reflexivity.
  - lia.
  - by_computation.
  - by_computation.
  - by_computation.
Defined.

(** C25: mpz_gcd and mpz_gcd_ui (binary algorithms) leave the greatest common
    divisor of integers of any sign, with 0 where an operand is 0, and mpz_lcm
    and mpz_lcm_ui the least common multiple; the answer of mpz_gcd_ui is the
    divisor too, except for the word 0, where it is 0. mpz_gcdext leaves the
    divisor and, where they are wanted, two cofactors [S] and [T] with
    [S x + T y = gcd], which for operands other than 0 are at most [y / gcd]
    and [x / gcd] in absolute value; mpz_invert decides whether there is an
    inverse modulo [y] and leaves the one between 0 and the absolute value of
    [y], and otherwise leaves everything as it is. *)
Theorem mpz_gcd_exact F FB D N s r a b q so to x y v :
  holds F FB D N s → is_Some (N !! r) → opt_in q N → opt_in so N → opt_in to N → (so = to → so = None) →
  N !! a = Some (Some x) → N !! b = Some (Some y) → 0 ≤ v < 2 ^ 64 →
  zlimbs x + zlimbs y + 1 ≤ alloc_limit → common_divisors F FB D N s r a b q x y v ∧ cofactors_and_inverse F FB D N s r so to a b x y.
Proof.
  intros H Hr Hq Hso Hto Hst Ha Hb Hv Hlim. change (2 ^ 64) with B in Hv. pose proof (zlimbs_nonneg x). pose proof (zlimbs_nonneg y). unfold common_divisors. split; [split_and!|].
  - apply leaves_wp. apply (mpz_gcd_spec F FB D N s r a b x y); (done || lia).
  - apply gives_wp. by apply (mpz_gcd_ui_spec N s q a x v).
  - apply leaves_wp. by apply (mpz_lcm_spec F FB D N s r a b x y).
  - apply leaves_wp. apply (mpz_lcm_ui_spec F FB D N s r a x v); (done || lia).
  - apply cofactors_and_inverse_hold; (done || lia).
Qed.

Lemma mpz_gcd_exact_witness :
  common_divisors example_frame ∅ declared example_vars mpz_example 1 1 2 (Some 3%positive) (-7) (2 ^ 70) 40 ∧
  cofactors_and_inverse example_frame ∅ declared example_vars mpz_example 1 None (Some 2%positive) 1 2 (-7) (2 ^ 70).
Proof.
  apply (mpz_gcd_exact example_frame ∅ declared example_vars mpz_example 1 1 2 (Some 3%positive) None (Some 2%positive) (-7) (2 ^ 70) 40).
  - exact holds_example.
  - by eexists.
  - by eexists.
  - done.
  - by eexists.
  - done.
  - reflexivity.
  - reflexivity.
  - lia.
  - by_computation.
Defined.

(** C29: mpz_and, mpz_ior, mpz_xor and mpz_com are the operations on the infinite
    two's complement representations of integers of any sign, which the code
    computes limb by limb from magnitude and sign; mpz_tstbit reads one bit of
    that representation, mpz_setbit, mpz_clrbit and mpz_combit change one.
    mpz_popcount counts the bits that are 1 and mpz_hamdist those that differ,
    and answer ULONG_MAX when there are infinitely many; mpz_scan1 and
    mpz_scan0 find the first bit with the value from a position on, and answer
    ULONG_MAX when there is none. *)
Theorem mpz_bits_exact F FB D N s r a b w x y i :
  holds F FB D N s → N !! r = Some (Some w) → N !! a = Some (Some x) → N !! b = Some (Some y) → 0 ≤ i → i / 64 + 1 ≤ alloc_limit →
  Z.max (zlimbs w) (Z.max (zlimbs x) (zlimbs y)) + 1 ≤ alloc_limit →
  bit_operations F FB D N s r a b w x y i ∧ bit_counts s a b x y i.
Proof.
  intros H Hr Ha Hb Hi Hil Hlim. assert (is_Some (N !! r)) as Hr' by eauto. unfold bit_operations, bit_counts. cbv zeta. split_and!.
  - apply leaves_wp, (mpz_and_spec N s r a b x y); (done || lia).
  - apply leaves_wp, (mpz_ior_spec N s r a b x y); (done || lia).
  - apply leaves_wp, (mpz_xor_spec N s r a b x y); (done || lia).
  - apply leaves_wp, (mpz_com_spec N s r a x); (done || lia).
  - by apply (mpz_tstbit_spec N s a x i H).
  - apply leaves_wp, (mpz_setbit_spec N s r w i H); (done || lia).
  - apply leaves_wp, (mpz_clrbit_spec N s r w i H); (done || lia).
  - apply leaves_wp, (mpz_combit_spec N s r w i H); (done || lia).
  - by apply (mpz_popcount_spec (F:=F) (FB:=FB) (D:=D) N).
  - by apply (mpz_hamdist_spec (F:=F) (FB:=FB) (D:=D) N).
  - by apply (mpz_scan1_spec (F:=F) (FB:=FB) (D:=D) N).
  - by apply (mpz_scan0_spec (F:=F) (FB:=FB) (D:=D) N).
Qed.

Lemma mpz_bits_exact_witness :
  bit_operations example_frame ∅ declared example_vars mpz_example 1 1 2 (-7) (-7) (2 ^ 70) 100 ∧ bit_counts mpz_example 1 2 (-7) (2 ^ 70) 100.
Proof.
  apply (mpz_bits_exact example_frame ∅ declared example_vars mpz_example 1 1 2 (-7) (-7) (2 ^ 70) 100).
  - exact holds_example.
  - reflexivity.
  - reflexivity.
  - reflexivity.
  - lia.
  - by_computation.
  - by_computation.
Defined.

(** C31: mpz_pow_ui leaves the power (binary exponentiation), mpz_fac_ui the
    factorial and mpz_bin_uiui the binomial coefficient, 0 for [k > n], as long
    as the number (for the coefficient, the product it is divided out of) fits
    in memory. *)
Theorem mpz_powers_exact F FB D N s r a x e n k :
  holds F FB D N s → is_Some (N !! r) → N !! a = Some (Some x) → 0 ≤ e < 2 ^ 64 → 0 ≤ n < 2 ^ 64 → 0 ≤ k < 2 ^ 64 →
  zlimbs (x ^ e) + 2 ≤ alloc_limit → zlimbs (zfact (Z.to_nat n)) + 1 ≤ alloc_limit → zlimbs (falling n (Z.to_nat (bin_small n k))) + 1 ≤ alloc_limit →
  leaves F FB D s (mpz_pow_ui r a e) (<[r := Some (x ^ e)]> N) ∧ leaves F FB D s (mpz_fac_ui r n) (<[r := Some (zfact (Z.to_nat n))]> N) ∧
  leaves F FB D s (mpz_bin_uiui r n k) (<[r := Some (binom (Z.to_nat n) (Z.to_nat k))]> N).
Proof.
  change (2 ^ 64) with B. intros H Hr Ha He Hn Hk H1 H2 H3. split_and!; apply leaves_wp.
  - by apply mpz_pow_ui_spec.
  - by apply mpz_fac_ui_spec.
  - by apply mpz_bin_uiui_spec.
Qed.

Lemma mpz_powers_exact_witness :
  leaves example_frame ∅ declared mpz_example (mpz_pow_ui 1 1 5) (<[1%positive := Some ((-7) ^ 5)]> example_vars) ∧
  leaves example_frame ∅ declared mpz_example (mpz_fac_ui 1 6) (<[1%positive := Some (zfact (Z.to_nat 6))]> example_vars) ∧
  leaves example_frame ∅ declared mpz_example (mpz_bin_uiui 1 6 4) (<[1%positive := Some (binom (Z.to_nat 6) (Z.to_nat 4))]> example_vars).
Proof.
  apply (mpz_powers_exact example_frame ∅ declared example_vars mpz_example 1 1 (-7) 5 6 4).
  - exact holds_example.
  - by eexists.
  - reflexivity.
  - lia.
  - lia.
  - lia.
  - by_computation.
  - by_computation.
  - by_computation.
Defined.

(** C24: mpz_rootrem leaves the integer part of the root, rounded towards 0, and
    what is left, in variables that may be NULL or the operand; mpz_root says
    whether the root is exact, mpz_sqrt and mpz_sqrtrem are the square root,
    mpz_perfect_square_p decides whether there is one. Newton's iteration ends
    at the root, within the number of turns that its starting point allows. An
    even root of a negative number and a root of order 0 end the program. *)
Theorem mpz_roots_exact F FB D N s x r p y a Y A z :
  holds F FB D N s → opt_in x N → opt_in r N → (x = r → x = None) → is_Some (N !! p) → N !! y = Some (Some Y) → N !! a = Some (Some A) →
  0 ≤ z < 2 ^ 64 → zlimbs Y + z / 64 + 4 ≤ alloc_limit → zlimbs A + 4 ≤ alloc_limit →
  (0 < z → (Y < 0 → Z.odd z = true) → ∃ k, Z.abs k ^ z ≤ Z.abs Y < (Z.abs k + 1) ^ z ∧ 0 ≤ Y * k ∧ roots F FB D N s x r p y a Y A k z) ∧
  (z = 0 ∨ Y < 0 ∧ Z.even z = true → mpz_rootrem x r y z s = Failed Assertion).
Proof.
  change (2 ^ 64) with B. intros H Hx Hr Hxr Hp Hy Ha Hz Hlim Hlim2. split.
  - intros Hz0 Ho. destruct (root_of_exists z Y Hz0) as [k Hk]. exists k. split; [by destruct Hk as [(_ & ? & ?) _]|]. split; [by destruct Hk|]. unfold roots. split_and!.
    + apply leaves_wp. apply (mpz_rootrem_spec N s x r y z Y k H); (done || lia).
    + apply gives_wp. eapply wp_mono; [apply (mpz_root_spec N s y Y H Hy x z k); (done || lia)|]. intros b s' [-> H']. by rewrite bool_decide_eq_true.
    + intros HA. apply leaves_wp. by apply (mpz_sqrt_spec N s a A H Ha p).
    + intros HA Hrp. apply leaves_wp. by apply (mpz_sqrtrem_spec N s a A H Ha p r).
    + apply gives_wp. by apply (mpz_perfect_square_p_spec N s a A H Ha).
  - intros Hc. apply (mpz_rootrem_error (F:=F) (FB:=FB) (D:=D) N s x r y z Y H Hy). tauto.
Qed.

Lemma mpz_roots_exact_witness :
  ∃ k, Z.abs k ^ 3 ≤ Z.abs (-7) < (Z.abs k + 1) ^ 3 ∧ 0 ≤ -7 * k ∧ roots example_frame ∅ declared example_vars mpz_example (Some 1%positive) (Some 2%positive) 3 1 2 (-7) (2 ^ 70) k 3.
Proof.
  refine (proj1 (mpz_roots_exact example_frame ∅ declared example_vars mpz_example (Some 1%positive) (Some 2%positive) 3 1 2 (-7) (2 ^ 70) 3 _ _ _ _ _ _ _ _ _ _) _ _).
  - exact holds_example.
  - by eexists.
  - by eexists.
  - done.
  - by eexists.
  - reflexivity.
  - reflexivity.
  - lia.
  - by_computation.
  - by_computation.
  - lia.
  - done.
Defined.

(** C22: mpz_get_str writes the sign, the digits of the integer in the base, most
    significant first and without leading zeros, and a NUL, into the buffer of
    the caller or one that it allocates with the room for them, with capital
    letters for a negative base, and answers NULL for a base beyond 36;
    mpz_set_str, given any string, leaves the integer that the string denotes
    (spaces, a sign, a prefix when there is no base, digits between spaces),
    and answers -1 and leaves 0 when it denotes none; and what mpz_get_str
    wrote is read back to the same integer, without a base too if it is
    decimal. mpz_out_str hands exactly that text to fwrite; for a base beyond
    36 it takes the length of NULL, which is undefined. *)
Theorem mpz_strings_exact F FB D N s u z r sp base fwrite :
  holds F FB D N s → N !! u = Some (Some z) → is_Some (N !! r) → INT_MIN < base ≤ INT_MAX → 64 * zlimbs z + 4 ≤ alloc_limit →
  (∀ cs, sp = Some cs → str_room (used_base base) z (Z.of_nat (length cs))) →
  (36 < Z.abs base → mpz_get_str sp base u s = Done None s ∧ mpz_out_str fwrite base u s = Failed Undefined) ∧
  (Z.abs base ≤ 36 → ∃ o s1 ds t, mpz_get_str sp base u s = Done o s1 ∧ holds F FB D N s1 ∧ t = number_text (used_digits base) z ds ∧
     printed (used_base base) z ds ∧ text_in z base sp o ∧ (∀ cs, o = Some cs → text_of cs = Ok t) ∧
     (sp = None → mpz_out_str fwrite base u s = Done (fwrite t) s1) ∧
     gives F FB D s1 (mpz_set_str r t (used_base base)) (λ a, a = 0) (<[r := Some z]> N) ∧
     (used_base base = 10 → gives F FB D s1 (mpz_set_str r t 0) (λ a, a = 0) (<[r := Some z]> N))) ∧
  (∀ t b, Forall (λ c, c ≠ 0) t → b = 0 ∨ 2 ≤ b ≤ 36 → Z.of_nat (length t) ≤ alloc_limit →
     match parse b t with
     | Some v => gives F FB D s (mpz_set_str r t b) (λ a, a = 0) (<[r := Some v]> N)
     | None => gives F FB D s (mpz_set_str r t b) (λ a, a = -1) (<[r := Some 0]> N)
     end).
Proof.
  intros H Hu Hr Hbase Hlim Hsp. split_and!.
  - intros Hb. split; [by apply mpz_get_str_null|]. unfold mpz_out_str. by rewrite (bind_done _ _ _ _ _ (mpz_get_str_null s u base None Hbase Hb)).
  - intros Hb. pose proof (used_base_range base Hb) as Hub.
    pose proof (mpz_get_str_spec (F:=F) (FB:=FB) (D:=D) N s u z base sp H Hu Hbase Hb ltac:(destruct sp; [by apply Hsp|done])) as Hw. unfold wp in Hw.
    destruct (mpz_get_str sp base u s) as [o s1|c s1|e] eqn:Eg; [|done|by destruct e]. destruct Hw as [Ht H1]. pose proof Ht as (cs & ds & Eo & Hp & _ & _).
    assert (used_digits base = lower_digits ∨ used_digits base = upper_digits) as Hdig by (unfold used_digits; destruct (0 <=? base); auto).
    assert (Forall (λ c, c ≠ 0) (number_text (used_digits base) z ds)) as H0 by (apply (text_nonzero _ Hdig _ _ _ Hp); lia).
    pose proof (text_length (used_digits base) (used_base base) z ds Hp ltac:(lia)) as Hlen. exists o, s1, ds, (number_text (used_digits base) z ds). split_and!; try done.
    + intros cs' Ecs. rewrite Eo in Ecs. injection Ecs as <-. by apply text_of_fill.
    + intros ->. unfold mpz_out_str. rewrite (bind_done _ _ _ _ _ Eg), Eo, text_of_fill by done. by rewrite lift_ok_bind.
    + apply gives_wp. eapply wp_mono; [apply (mpz_set_str_spec N s1 r _ (used_base base) H1 Hr H0); lia|]. intros a s2 Hres. rewrite (parse_text _ Hdig (used_base base)) in Hres; [done|done|lia|by left].
    + intros E10. apply gives_wp. eapply wp_mono; [apply (mpz_set_str_spec N s1 r _ 0 H1 Hr H0); lia|]. intros a s2 Hres. rewrite (parse_text _ Hdig (used_base base)) in Hres; [done|done|lia|by right].
  - intros t b H0 Hb Ht. pose proof (mpz_set_str_spec N s r t b H Hr H0 Hb Ht) as Hw. destruct (parse b t) as [v|]; apply gives_wp; exact Hw.
Qed.

Lemma mpz_strings_exact_witness :
  gives example_frame ∅ declared mpz_example (mpz_set_str 1 (codes " -0x1F f") 0) (λ a, a = 0) (<[1%positive := Some (-511)]> example_vars).
Proof.
  refine (proj2 (proj2 (mpz_strings_exact example_frame ∅ declared example_vars mpz_example 2 (2 ^ 70) 1 None 10 (λ t, Z.of_nat (length t)) _ _ _ _ _ _)) (codes " -0x1F f") 0 _ _ _).
  - exact holds_example.
  - reflexivity.
  - by eexists.
  - done.
  - by_computation.
  - done.
  - by vm_compute; repeat constructor.
  - by left.
  - by_computation.
Defined.

(** C23: mpz_export writes the bytes of the absolute value, and nothing else, into
    the array of the caller or one that it allocates, in the order of words and
    of bytes asked for (endian 0 is that of the machine), and counts the words
    that are needed for them; mpz_import reads any array in any order as the
    number that its bytes make up; so that an exported array is imported as
    the absolute value. A number of nails other than 0 ends the program. *)
Theorem mpz_import_export_exact F FB D N s u z r sp low order size endian :
  holds F FB D N s → N !! u = Some (Some z) → is_Some (N !! r) → low = 0 ∨ low = 2 → order = 1 ∨ order = -1 → -1 ≤ endian ≤ 1 → 0 < size ≤ alloc_limit →
  word_count size z * size ≤ match sp with Some cs => Z.of_nat (length cs) | None => alloc_limit end →
  (∃ o, reads (mpz_export low sp order size endian 0 u) s (o, word_count size z) ∧ exported_to low order size endian z sp o ∧
     (z ≠ 0 → word_count size z * size ≤ alloc_limit →
      ∃ cs src, o = Some cs ∧ array_bytes (word_count size z * size) cs = Some src ∧
        leaves F FB D s (mpz_import low r (word_count size z) order size endian 0 src) (<[r := Some (Z.abs z)]> N))) ∧
  (∀ count src, 0 ≤ count → Z.of_nat (length src) = count * size → Forall (digit 256) src → count * size ≤ alloc_limit →
     leaves F FB D s (mpz_import low r count order size endian 0 src) (<[r := Some (number_in order size (used_endian low endian) count src)]> N)) ∧
  (∀ nails count src, nails ≠ 0 →
     mpz_import low r count order size endian nails src s = Failed Assertion ∧ mpz_export low sp order size endian nails u s = Failed Assertion).
Proof.
  intros H Hu Hr Hlow Ho He Hs Hroom.
  assert (∀ count src, 0 ≤ count → Z.of_nat (length src) = count * size → Forall (digit 256) src → count * size ≤ alloc_limit →
     leaves F FB D s (mpz_import low r count order size endian 0 src) (<[r := Some (number_in order size (used_endian low endian) count src)]> N)) as Himp.
  { intros count src Hc Hl Hd Hlim. apply leaves_wp. apply mpz_import_spec; (done || lia). }
  split_and!; [|exact Himp|].
  - pose proof (mpz_export_spec (F:=F) (FB:=FB) (D:=D) low N s u z order size endian sp H Hu Hlow Ho He Hs ltac:(by destruct sp)) as Hw. unfold wp in Hw.
    destruct (mpz_export low sp order size endian 0 u s) as [[o n] s1|c s1|e] eqn:Ee; [|done|by destruct e]. cbn [fst snd] in Hw. destruct Hw as (Hto & -> & ->).
    exists o. split_and!; [exact Ee|done|]. intros Hz Hlim. unfold exported_to in Hto. rewrite (proj2 (Z.eqb_neq z 0)) in Hto by done. destruct Hto as (cs & -> & Hcs & _).
    pose proof (word_count_range size z Hz ltac:(lia)) as [Hwc Hwc0]. pose proof (byte_count_bound z Hz) as [_ Hbb].
    destruct (export_bytes order size (used_endian low endian) (word_count size z) (Z.abs z) cs Ho (used_endian_range low endian Hlow He)) as (src & Es & Hl & Hd & Hval); try lia.
    { split; [lia|]. eapply Z.lt_le_trans; [exact Hbb|]. apply Z.pow_le_mono_r; lia. }
    eexists _, src. split_and!; [done|exact Es|]. rewrite <- Hval. apply Himp; (done || lia).
  - intros nails count src Hn. unfold mpz_import, mpz_export. by rewrite (proj2 (Z.eqb_neq nails 0)).
Qed.

Lemma mpz_import_export_exact_witness :
  leaves example_frame ∅ declared mpz_example (mpz_import 2 1 2 1 2 (-1) 0 [1; 2; 3; 4]) (<[1%positive := Some 33620995]> example_vars) ∧
  ∃ o, reads (mpz_export 2 None 1 3 0 0 2) mpz_example (o, 3).
Proof.
  split.
  - refine (proj1 (proj2 (mpz_import_export_exact example_frame ∅ declared example_vars mpz_example 2 (2 ^ 70) 1 None 2 1 2 (-1) _ _ _ _ _ _ _ _)) 2 [1; 2; 3; 4] _ _ _ _).
    + exact holds_example.
    + reflexivity.
    + by eexists.
    + by right.
    + by left.
    + lia.
    + done.
    + by_computation.
    + lia.
    + done.
    + by repeat constructor.
    + done.
  - destruct (mpz_import_export_exact example_frame ∅ declared example_vars mpz_example 2 (2 ^ 70) 1 None 2 1 3 0) as [(o & E & _) _].
    + exact holds_example.
    + reflexivity.
    + by eexists.
    + by right.
    + by left.
    + lia.
    + done.
    + by_computation.
    + exists o. exact E.
Defined.
