(* ===== verification/MpzModProps.v ===== *)
(** * Properties of modular powers, primality tests and borrowed limbs

    The last functions of mini-gmp that work on whole integers: mpz_powm and
    mpz_powm_ui, mpz_probab_prime_p, the access to the limbs of an integer and
    the functions on integers that borrow the limbs of their caller. *)

From S2P Require Import Prelude Limbs Mpn Invert MpnDiv MpnDivN MpnStr MpnSetStr MpnGetStr Mpz MpzRep MpzArith MpzMul MpzDivision MpzProps MpzFrame MpzDivShort MpzLocals MpzGcd MpzBits MpzGcdExt MpzLogic MpzCount MpzScan MpzPow MpzSize MpzRoot MpzReader MpzBorrow MpzPowm Primes MpzPrime MpzNumProps.

(** ** Statements *)

Section statements.
Context (F : gmap Z (option Z)) (FB : gmap Z Z) (D : positive → Prop) (N : vars) (s : zst).
Local Abbreviation leaves := (leaves F FB D).
Local Abbreviation gives := (gives F FB D).

(** The pointer for reading leads to the limbs of [z]; what a client writes
    through the other pointer, [rs], becomes the number, with the sign [e]; a
    new size keeps a number that fits. *)
Definition limb_access (x : positive) (z e : Z) (rs : list Z) : Prop :=
  (∃ p xs, mpz_limbs_read x s = Done p s ∧ limbs_at (zmem s) p xs ∧ Z.of_nat (length xs) = zlimbs z ∧ value xs = Z.abs z) ∧
  leaves s (p ← mpz_limbs_write x (Z.of_nat (length rs)); _ ← limbsZ (λ m, Done tt (write m p rs)); mpz_limbs_finish x (e * Z.of_nat (length rs)))
    (<[x := Some (e * value rs)]> N) ∧
  (∀ n, 0 ≤ n < 64 * alloc_limit → ∃ z', (Z.abs z < 2 ^ n → z' = z) ∧ (z' = z ∨ z' = 0) ∧ leaves s (mpz_realloc2 x n) (<[x := Some z']> N)).

(** The functions on a word or on the limbs [xs] of the caller. *)
Definition borrowers (r : positive) (b k p : Z) (xs : list Z) (sp : Z) (rp : option Z) : Prop :=
  leaves s (mpz_ui_pow_ui r b k) (<[r := Some (b ^ k)]> N) ∧
  gives s (mpn_perfect_square_p p (Z.of_nat (length xs))) (λ t, t = true ↔ ∃ c, value xs = c * c) N ∧
  ∃ res s' F', mpn_sqrtrem sp rp p (Z.of_nat (length xs)) s = Done res s' ∧ sqrtrem_frame F sp rp (value xs) res F' ∧ MpzRep.holds F' FB D N s'.
End statements.

(** What is written through the pointer of mpz_limbs_write. *)
Lemma limbs_written F FB (D : positive → Prop) N s x z e rs :
  MpzRep.holds F FB D N s → N !! x = Some (Some z) → Forall limb rs → 0 < Z.of_nat (length rs) ≤ alloc_limit → Z.abs e = 1 →
  wp never (p ← mpz_limbs_write x (Z.of_nat (length rs)); _ ← limbsZ (λ m, Done tt (write m p rs)); mpz_limbs_finish x (e * Z.of_nat (length rs)))
    (λ _ s', MpzRep.holds F FB D (<[x := Some (e * value rs)]> N) s') s.
Proof.
  intros H Hx Hrs Hlen He. apply wp_bind. eapply wp_mono; [by eapply (mpz_limbs_write_spec F FB D N s x z)|]. intros p s1 (H1 & st & Ho & <- & Hal).
  apply wp_bind. eapply wp_run; [reflexivity|]. fold (set_mem s1 (write (zmem s1) (mp_d st) rs)). pose proof (filled_mem (F:=F) (FB:=FB) (D:=D) N s1 x st rs H1 Ho Hrs ltac:(lia)) as Hf.
  eapply wp_mono; [apply (mpz_limbs_finish_spec F FB D N _ x st rs (e * Z.of_nat (length rs)) Hf); lia|]. intros [] s2 H2.
  rewrite Z.abs_mul, He, Z.mul_1_l, Z.abs_eq, Nat2Z.id, take_ge, Z.sgn_mul, (Z.sgn_pos (Z.of_nat _)), Z.mul_1_r in H2 by lia. by replace (Z.sgn e) with e in H2 by lia.
Qed.

(** ** Properties *)

(** C26: mpz_powm leaves the power of the base modulo the absolute value of the
    modulus, between 0 and the modulus, for a base of any sign, any exponent
    and any aliasing, with the inverse of the base for a negative exponent, and
    mpz_powm_ui the same for a word; the exponent 0 gives 1, also for the
    modulus 1; a modulus 0, and a base that is not invertible when the exponent
    is negative, end the program. *)
Theorem mpz_powm_exact F FB D N s r b e m x E y k :
  holds F FB D N s → is_Some (N !! r) → N !! b = Some (Some x) → N !! e = Some (Some E) → N !! m = Some (Some y) → 0 ≤ k < 2 ^ 64 →
  3 * zlimbs y ≤ alloc_limit → Z.max (zlimbs x) (zlimbs y) + 1 ≤ alloc_limit →
  (y ≠ 0 →
    (0 ≤ E → leaves F FB D s (mpz_powm r b e m) (<[r := Some (if E =? 0 then 1 else x ^ E mod Z.abs y)]> N)) ∧
    (E < 0 → Z.gcd x y = 1 → 1 < Z.abs y → ∃ v, 0 ≤ v < Z.abs y ∧ (v * x ^ (- E)) mod Z.abs y = 1 ∧ leaves F FB D s (mpz_powm r b e m) (<[r := Some v]> N)) ∧
    leaves F FB D s (mpz_powm_ui r b k m) (<[r := Some (if k =? 0 then 1 else x ^ k mod Z.abs y)]> N)) ∧
  (y = 0 ∨ E < 0 ∧ (x = 0 ∨ Z.abs y ≤ 1 ∨ Z.gcd x y ≠ 1) → mpz_powm r b e m s = Failed Assertion).
Proof.
  change (2 ^ 64) with B. intros H Hr Hb He Hm Hk Hlim Hlim2. split; [intros Hy; split_and!|].
  - intros HE. apply leaves_wp. eapply wp_mono; [apply (mpz_powm_spec F FB D N s r b e m x E y H); (done || lia)|]. intros [] s' (v & Hv & H').
    destruct Hv as [[-> ->]|[[Hp ->]|[? _]]]; [done|by rewrite (proj2 (Z.eqb_neq E 0)) in * by lia|lia].
  - intros HE Hg Hy1. destruct (wp_never_run _ _ _ (mpz_powm_spec F FB D N s r b e m x E y H Hr Hb He Hm Hy ltac:(lia) ltac:(auto))) as ([] & s' & Er & v & Hv & H').
    exists v. destruct Hv as [[? _]|[[? _]|[_ (w & [Hw Hi] & ->)]]]; [lia..|]. split; [apply Z.mod_pos_bound; lia|]. split; [|by exists s'].
    rewrite Z.mul_mod_idemp_l, <- Z.pow_mul_l by lia. rewrite <- Z.mod_pow_l, Hi, Z.pow_1_l, Z.mod_small by lia. done.
  - apply leaves_wp. by apply mpz_powm_ui_spec.
  - intros Hc. by apply (mpz_powm_error F FB D N s r b e m x E y H Hb He Hm).
Qed.

Lemma mpz_powm_exact_witness :
  ∃ v, 0 ≤ v < Z.abs (-7) ∧ (v * (2 ^ 70) ^ 7) mod Z.abs (-7) = 1 ∧
    leaves example_frame ∅ declared mpz_example (mpz_powm 1 2 1 1) (<[1%positive := Some v]> example_vars).
Proof.
  refine (proj1 (proj2 (proj1 (mpz_powm_exact example_frame ∅ declared example_vars mpz_example 1 2 1 1 (2 ^ 70) (-7) (-7) 3 _ _ _ _ _ _ _ _) _)) _ _ _).
  - exact holds_example.
  - by eexists.
  - reflexivity.
  - reflexivity.
  - reflexivity.
  - lia.
  - by_computation.
  - by_computation.
  - done.
  - lia.
  - by_computation.
  - lia.
Defined.

(** C27: mpz_probab_prime_p decides whether the absolute value is prime below 31 *
    31, with the answer 2 or 0; from there on it answers 1 when the number is
    odd, has none of the small primes as a divisor and passes the strong test
    for each base [j * j + j + 41] with [j < reps] that is below it by more
    than 1, and 0 otherwise. It never answers 0 for a prime number. *)
Theorem mpz_probab_prime_exact F FB D N s n z reps :
  holds F FB D N s → N !! n = Some (Some z) → 3 * zlimbs z ≤ alloc_limit → reps < 2 ^ 31 →
  ∃ r, gives F FB D s (mpz_probab_prime_p n reps) (λ v, v = r) N ∧ verdict (Z.abs z) reps r ∧
    (Z.prime (Z.abs z) → r ≠ 0) ∧ (r = 2 → Z.prime (Z.abs z)).
Proof.
  intros H Hn Hlim Hreps. destruct (wp_never_run _ _ _ (mpz_probab_prime_p_spec (F:=F) (FB:=FB) D N s n z reps H Hn Hlim Hreps)) as (r & s' & Er & Hv & H').
  exists r. split; [by exists r, s'|]. split; [done|]. split; [by intros Hp; apply (prime_verdict (Z.abs z) reps)|]. intros ->. unfold verdict in Hv. case_match; destruct Hv as [[? ?]|[? _]]; done.
Qed.

Lemma mpz_probab_prime_exact_witness :
  ∃ r, gives example_frame ∅ declared mpz_example (mpz_probab_prime_p 1 25) (λ v, v = r) example_vars ∧ verdict (Z.abs (-7)) 25 r ∧
    (Z.prime (Z.abs (-7)) → r ≠ 0) ∧ (r = 2 → Z.prime (Z.abs (-7))).
Proof.
  apply (mpz_probab_prime_exact example_frame ∅ declared example_vars mpz_example 1 (-7) 25).
  - exact holds_example.
  - reflexivity.
  - by_computation.
  - lia.
Defined.

(** C28: the access to the limbs of an integer reads and writes its value:
    mpz_limbs_read, mpz_limbs_write with mpz_limbs_finish, and mpz_realloc2;
    the functions on integers that borrow their limbs compute with them and
    give them back unchanged: mpz_ui_pow_ui is the power of a word,
    mpn_perfect_square_p decides whether the limbs are a square, and
    mpn_sqrtrem writes the limbs of the root and, when asked, of the rest to
    the memory of its caller and returns the size of the rest. *)
Theorem mpz_limbs_exact F FB D N s x r z e b k p sp rp rs xs :
  holds F FB D N s → N !! x = Some (Some z) → is_Some (N !! r) →
  Forall limb rs → 0 < Z.of_nat (length rs) ≤ alloc_limit → e = 1 ∨ e = -1 → 0 ≤ b < 2 ^ 64 → 0 ≤ k < 2 ^ 64 → zlimbs (b ^ k) + 2 ≤ alloc_limit →
  block_of_limbs F FB p xs → normalized xs → (0 < length xs)%nat → Z.of_nat (length xs) + 4 ≤ alloc_limit →
  frame_room F sp ((length xs + 1) / 2) → (∀ q, rp = Some q → frame_room F q (length xs)) →
  limb_access F FB D N s x z e rs ∧ borrowers F FB D N s r b k p xs sp rp.
Proof.
  change (2 ^ 64) with B. intros H Hx Hr Hrs Hlen He Hb Hk Hlim Hblk Hnorm Hxs Hlim2 Hsp Hrp. split; split_and!.
  - destruct (holds_read N s x z H Hx) as (st & ys & Ho & Hys & _ & Ly & _ & Vy & _). exists (mp_d st), ys. split; [by eapply limbs_of_own|done].
  - apply leaves_wp. apply (limbs_written F FB D N s x z); (done || lia).
  - intros n Hn. destruct (wp_never_run _ _ _ (mpz_realloc2_spec F FB D N s x z H Hx n Hn)) as ([] & s' & Er & z' & H' & Hz). exists z'. split_and!; [apply Hz|apply Hz|by exists s'].
  - apply leaves_wp. by apply mpz_ui_pow_ui_spec.
  - apply gives_wp. by apply mpn_perfect_square_p_spec.
  - destruct (wp_never_run _ _ _ (mpn_sqrtrem_spec F FB D N s sp rp p xs H Hblk Hnorm Hxs Hlim2 Hsp Hrp)) as (res & s' & Er & F' & HF & H'). by exists res, s', F'.
Qed.

(** The example with a limb 50 of the caller. *)
Definition lent_example : zst := pushed 50 mpz_example.
Definition lent_at : Z := next (zmem mpz_example).
Definition lent_frame : gmap Z (option Z) := write_cells example_frame lent_at [50].
Definition lent_blocks : gmap Z Z := <[lent_at := Z.of_nat 1]> ∅.

Lemma lent_block : block_of_limbs lent_frame lent_blocks lent_at [50].
Proof.
  split; [by vm_compute|]. split; [by vm_compute|]. split; [by repeat constructor|]. intros [|i] x Hi; [|done]. by vm_compute in Hi; simplify_eq; vm_compute.
Qed.

Lemma mpz_limbs_exact_witness :
  limb_access lent_frame lent_blocks declared example_vars lent_example 2 (2 ^ 70) (-1) [3; 0; 4] ∧
  borrowers lent_frame lent_blocks declared example_vars lent_example 1 10 30 lent_at [50] lent_at None.
Proof.
  apply (mpz_limbs_exact lent_frame lent_blocks declared example_vars lent_example 2 1 (2 ^ 70) (-1) 10 30 lent_at lent_at None [3; 0; 4] [50]).
  - exact (proj2 (proj2 (frame_push_limb example_frame ∅ declared example_vars mpz_example 50 holds_example ltac:(done)))).
  - reflexivity.
  - by eexists.
  - by repeat constructor.
  - by_computation.
  - by right.
  - lia.
  - lia.
  - by_computation.
  - exact lent_block.
  - done.
  - simpl. lia.
  - by_computation.
  - split; [by vm_compute|]. intros i Hi. simpl in Hi. assert (i = O) as -> by lia. by vm_compute; eexists.
  - done.
Defined.

(** The strong test at work: for 967 the sequence of
    bases ends before [reps], and [961 = 31 * 31] has none of the small divisors. *)
Example probab_prime_runs :
  (λ x, match (_ ← mpz_set_ui 1 x; mpz_probab_prime_p 1 40) mpz_example with Done r _ => Some r | _ => None end) <$> [1; 61; 961; 967] = [Some 0; Some 2; Some 0; Some 1].
Proof. vm_compute. reflexivity. Qed.
